(* ===== verification/_CoqProject ===== *)
-Q . S2P
Prelude.v
Links.v
Spinlock.v
XList.v
Queue.v
VmPage.v
VmPageSpec.v
CType.v
CString.v
CStringSpec.v
HashTable.v
HashTableSpec.v
HashFunc.v
Heap.v
HeapSpec.v
AvlPure.v
AvlTree.v
AvlTreeSpec.v
AvlSet.v
AvlRemove.v
AvlWalk.v
AvlOrdered.v
AvlIndex.v
Sched.v
SchedSpec.v
SchedTimer.v
SchedProps.v
Alloc.v
Timer.v
TimerQueue.v
TimerInv.v
TimerTick.v
TimerRuns.v
TimerCalls.v
TimerProps.v
MemoryMap.v
MemoryMapSpec.v
MemoryMapProps.v
Mmu.v
PageMapper.v
PageMapperSpec.v
Mutex.v
MapPool.v
PageMapperProps.v
TransMap.v
TransMapSpec.v
TransMapWalk.v
TransMapAlloc.v
TransMapMap.v
TransMapLock.v
TransMapExample.v
TransMapProps.v
TransMapCreate.v
Process.v
ProcessSpec.v
ProcessProps.v
Sem.v
SemSpec.v
SemProps.v
SemWait.v
SemRace.v
SemCreate.v
SemExample.v
MutexSem.v
MutexExample.v
KLog.v
KLogSpec.v
KLogLines.v
KLogConsole.v
KLogProps.v
BootFs.v
BootFsSpec.v
BootFsProps.v
