(* ===== verification/Prelude.v ===== *)
(** * Phlox kernel: verification library (root file)

    A library of definitions and theorems about the Phlox operating system (directory
    [phlox/] of the repository), a kernel for 32-bit i386 processors written in C. This file
    documents the whole of it and holds what the other files share.

    ** The program

    The kernel is a set of modules, each with static data, a lock for it, and routines that
    the others call. From the bottom up: byte strings and character classes (lib/string,
    lib/phlox/ctype.c); spinlocks on atomic exchanges (kernel/spinlock.c, spinlock.h);
    intrusive lists, queues, hash tables and AVL trees (kernel/util, list.h); the physical
    pages and their state lists (kernel/vm/vm_page.c); the kernel heap, bins of equal blocks
    on a table of pages (kernel/heap.c); the scheduler, run queues of threads by priority
    with an ageing and a bonus policy (kernel/scheduler.c); the timer, a delta queue of
    sleeping threads and timeout calls (kernel/timer.c). The mappings of an address space
    (kernel/vm/vm_address_space.c) stand in a list and a tree; the page tables behind them
    (kernel/arch/i386/vm_translation_map.c) are reached through windows of a page mapper
    (kernel/vm/vm_page_mapper.c). Processes (kernel/process.c) own threads, semaphores and
    an address space; semaphores (kernel/sem.c) put threads to sleep and wake them, with
    timeouts; mutexes (kernel/util/mutex.c) stand on them. The timer tick calls the scheduler;
    the scheduler, the pages, the timer, the processes and the semaphores keep their objects
    in the lists; the timer keeps its events in an AVL tree as well and takes their memory
    from the heap. Messages go to the log (kernel/klog.c), which the console (kernel/debug.c)
    shows. The programs that are loaded stand in an image that the boot file system
    (lib/phlox/bootfs.c) reads.

    ** How programs are modelled

    A routine of C is a function in the monad [M S] of this file, with the state [S] of its
    component: it returns a value and a state ([Ok]), reads or writes an object that does
    not exist ([Fault]), stops the kernel ([Panic]) or never comes back ([Hang]). Memory is
    a finite map from addresses to the fields of the objects there, one map per type of
    object, so that aliasing and dangling pointers are visible. Addresses and integers are
    [Z], cut to their width by [uwrap] and [swrap] wherever an operation can leave it.
    [zoom] runs a routine of one component on its part of another one's state, and [wp m s Q]
    says that [m] run on [s] comes back with a result that satisfies [Q]: so every property
    stated with it, or as an equation with [Ok], includes termination and the absence of
    panics and bad accesses. Names of definitions are those of the C functions; a part of a
    function that became a definition of its own (a loop, a branch) is listed with its lines
    in the manifest.

    Loops are fixpoints on fuel that return [Hang] when it runs out. The fuel is the bound
    the data gives: the length of a list or the number of nodes and one, the size of a tree
    path (twice the logarithm, AvlOrdered), the number of characters to the terminator, the
    ten threads of the look-ahead, the events of the queue and one, three rounds for an
    unused generation of a semaphore, its waiters and one, the 8192 slots of the table, the
    127 rows a reader of the log can be behind, the bytes of memory for paths and entries. The
    theorems show that it is enough wherever the code terminates, and name the inputs on
    which it does not.

    ** The files, with the code they model

    - Links: segments of linked structures, for the files below.
    - Spinlock: kernel/spinlock.c, phlox/spinlock.h, phlox/atomic.h. The lock word and the
      interrupt flag of one processor; the steps of several processors around one lock as a
      relation, with mutual exclusion by induction on the reachable states.
    - XList: kernel/util/list.c, phlox/list.h. Both kinds of lists over a store of elements
      and headers. [xlist_refines] and [clist_refines]: a run of operations on a list in
      memory does what a run on a Rocq list does; the frame [xframe] tells clients what a
      routine leaves alone.
    - Queue: kernel/util/queue.c, phlox/queue.h, with [queue_refines].
    - VmPage, VmPageSpec: kernel/vm/vm_page.c, phlox/vm_page.h. The page array with its
      state lists and counters, the invariant that they agree, and allocation, freeing,
      states and ranges of pages; the counters are bounded by the number of pages.
    - CType: lib/phlox/ctype.c. CString, CStringSpec: lib/string. Bytes in memory; lengths,
      searches, copies, comparisons, tokens, with the behaviour on overlap and at the end of
      a buffer.
    - HashTable, HashTableSpec: kernel/util/hash_table.c and the table part of
      phlox/hash_table.h; a client's hash and comparison are parameters with the laws of the
      header. HashFunc: the hash functions of that file, as values and as polynomials.
    - Heap, HeapSpec: kernel/heap.c. Bins, free lists threaded through the blocks, the page
      table of the region; [kmalloc_correct] and [kfree_correct] on every branch.
    - AvlTree: kernel/util/avl_tree.c on nodes in memory. AvlPure: the same algorithms on
      tree values, with balance and order. AvlTreeSpec, AvlSet, AvlRemove, AvlWalk: the
      routines on memory carry the pure ones out. AvlOrdered: the contract for clients,
      sorted sets of data ([is_aset], [avl_refines]).
    - Sched: kernel/scheduler.c, phlox/scheduler_private.h, phlox/thread_types.h. SchedSpec:
      the invariant of the run queues, adding, removing and choosing threads. SchedTimer: the
      timer interrupt as a function on the queues. SchedProps: the contract.
    - Alloc: what clients rely on when they allocate memory, a class [Allocator] with the
      class of its laws [AllocLaws]; the kernel heap is an instance.
    - Timer: kernel/timer.c over any allocator, the scheduler, lists, trees and locks.
      TimerQueue: the delta queue means an agenda of events with the times they are due at,
      and an insertion puts an event in its place. TimerInv: the invariant. TimerTick: one
      tick. TimerRuns: ticks one after the other. TimerCalls: scheduling, cancelling, the
      handler thread. TimerProps: the contract.
    - MemoryMap: the mappings of an address space, the part of kernel/vm/vm_address_space.c
      that creates, finds and deletes them, over any allocator. MemoryMapSpec: the invariant
      of several maps in shared stores. MemoryMapProps: the contract. AvlIndex: the
      searches that answer with a place for an insertion, which these routines use.
    - Mmu: page table entries as words with fields, address arithmetic, and what a client of
      the page mapper relies on: a class [Window] with the class of its laws.
    - PageMapper: kernel/vm/vm_page_mapper.c over a mutex and a routine that maps a chunk.
      PageMapperSpec: the invariant, with the windows that are lent. PageMapperProps: the
      contract; the mapper is an instance of [Window]. Mutex: kernel/util/mutex.c over an
      interface of semaphores. MapPool: the page tables behind the pool.
    - TransMap: kernel/arch/i386/vm_translation_map.c over any allocator and any window, with
      the calls kernel/vm/vm.c makes of it. TransMapSpec: the view of a map, the entry each
      address has, and the invariant of all maps. TransMapWalk: loops over a range.
      TransMapAlloc, TransMapMap: new page tables and mappings. TransMapLock: the
      invalidation cache. TransMapCreate: new maps. TransMapProps, TransMapExample: the
      contract, and the state the witnesses use.
    - Process: kernel/process.c, with the copy of strings of kernel/misc.c, on the timer,
      the scheduler and the heap, over an interface of address spaces (the class [Aspaces]).
      ProcessSpec: the invariant of the list and the tree of processes. ProcessProps: the
      contract.
    - Sem: kernel/sem.c on the state of the processes. What the other threads do while one
      waits is a parameter, a list of steps turn by turn. SemSpec: a semaphore in its slot
      with its waiters in order, and the walks over them. SemProps: counting up, counting
      down without a wait. SemWait: waits and deletion. SemRace: timeouts, and a timeout that
      comes after the semaphore was given. SemCreate: identifiers and creation. SemExample:
      the states the witnesses use.
    - MutexSem: the semaphores are an instance of the interface Mutex is written against, and
      what mutexes and recursive mutexes promise there. MutexExample: a state with both.
    - KLog: kernel/klog.c, and the console and the report of a panic of kernel/debug.c, on a
      memory of bytes. KLogSpec: the circular array means a history of rows. KLogLines: how
      a line is laid out in rows. KLogConsole: the screen, and the rows that are fetched.
      KLogProps: the contract.
    - BootFs: lib/phlox/bootfs.c, with the strings of lib/string. BootFsSpec: what a path
      means, and the search of a directory. BootFsProps: paths and files; the relation
      [resolves] is the meaning of a path in an image.

    ** What the theorems show

    Refinement: lists, queues, hash tables and AVL trees behave as lists and sets, whatever
    the sequence of operations, and the log as a history of rows. Invariants: pages, heap, run queues and events stay well
    formed and their counters true. Function: allocation on every branch, the choice of the
    next thread, the effect of the timer tick, copies and searches of strings. Liveness: no
    ready thread starves; a sleeping thread is woken and a timeout call made exactly when its
    ticks have passed. Bounds: quanta, bonuses and priorities, the path of a search in a
    tree, the count of a semaphore. Termination: walks over ranges of pages. Safety: mutual
    exclusion of the spinlock and of the mutex, a cancelled call is not made, a thread that
    waits holds no lock and is woken with the semaphore or with an error. Errors: what panics,
    what is undone, and where the code does not do what it means to do (the findings of the
    manifest).

    ** Not modelled

    One processor runs the routines above the spinlock: taking a lock that is held is [Hang].
    The machine part of a context switch, port input and output and the page tables in
    hardware are outside; a switch of threads is the change of the current thread. Strings
    keep their bytes when their blocks are freed. Semaphores with a name go through the same
    definitions, but the theorems on creation and deletion are about those without.

    Of the kernel there are further the objects, the page faults and the registry of address
    spaces of the virtual memory manager (vm.c, vm_object.c), which start and stop with the
    machine's page tables and with the loading of programs; the boot-time routines of the
    translation maps and the page mapper; the life of a thread from its stack to its end
    (thread.c), where what runs next is decided by frames on a machine stack; interrupt
    handlers, formatted output, program loading and system calls, which build on the parts
    above; and the boot loader, the platform's devices, the start-up sequence, user
    programs and build tools, which do not. *)

From Stdlib Require Import ZArith Lia.
From stdpp Require Import base numbers list gmap sorting.

#[global] Open Scope Z_scope.

(** ** Machine integers

    A C object of an unsigned [n]-bit type is a [Z] in [0 .. 2^n - 1]; every
    operation that can leave the range is followed by the wrap written out.
    Pointers are 32-bit addresses, [NULL] is the address 0. *)

Definition uwrap (n x : Z) : Z := x mod 2 ^ n.

Definition swrap (n x : Z) : Z := (x + 2 ^ (n - 1)) mod 2 ^ n - 2 ^ (n - 1).

Abbreviation u32 := (uwrap 32).

Abbreviation s32 := (swrap 32).

Abbreviation s16 := (swrap 16).

Abbreviation s8 := (swrap 8).

Abbreviation u8 := (uwrap 8).

Definition NULL : Z := 0.

(** An address a C object may have: not [NULL], and within the 32-bit space. *)
Definition valid_ptr (p : Z) : Prop := 0 < p < 2 ^ 32.

#[export] Instance valid_ptr_dec p : Decision (valid_ptr p) := ltac:(unfold valid_ptr; apply _).

(** Prove a closed decidable statement by evaluating its decision. *)
Ltac by_decide := apply (bool_decide_unpack _); vm_compute; exact I.

(** ** Outcomes and the state monad of the models

    A C routine run on a state either returns a value and a new state, makes an
    access C leaves undefined (a load or store through a pointer that points to
    no object: [Fault]), calls the kernel's [panic] ([Panic]), or never returns
    ([Hang]: a lock nobody will release, a loop that revisits its own trail). *)

Inductive res (A : Type) : Type :=
  | Ok (a : A)
  | Fault
  | Panic
  | Hang.
Arguments Ok {A} a.
Arguments Fault {A}.
Arguments Panic {A}.
Arguments Hang {A}.

Definition M (S A : Type) : Type := S → res (A * S).

#[global] Instance M_ret {S} : MRet (M S) := λ A a s, Ok (a, s).

#[global] Instance M_bind {S} : MBind (M S) := λ A B f m s,
  match m s with
  | Ok (a, s') => f a s'
  | Fault => Fault
  | Panic => Panic
  | Hang => Hang
  end.

Definition fault {S A} : M S A := λ _, Fault.

Definition panic {S A} : M S A := λ _, Panic.

Definition hang {S A} : M S A := λ _, Hang.

Definition get {S} : M S S := λ s, Ok (s, s).

Definition put {S} (s' : S) : M S unit := λ _, Ok (tt, s').

Definition gets {S A} (f : S → A) : M S A := λ s, Ok (f s, s).

Definition modify {S} (f : S → S) : M S unit := λ s, Ok (tt, f s).

(** A load that faults when the location holds no object. *)
Definition load {S A} (f : S → option A) : M S A := λ s,
  match f s with Some a => Ok (a, s) | None => Fault end.

(** Run a routine of a component whose state is a part of a larger state. *)
Definition zoom {S T A} (sel : S → T) (upd : T → S → S) (m : M T A) : M S A := λ s,
  match m (sel s) with
  | Ok (a, t) => Ok (a, upd t s)
  | Fault => Fault
  | Panic => Panic
  | Hang => Hang
  end.

(** [when b m]: an [if] without [else]. *)
Definition when {S} (b : bool) (m : M S unit) : M S unit :=
  if b then m else mret tt.

(** ** Total-correctness preconditions

    [wp m s Q]: [m] run on [s] returns a value and a state that satisfy [Q]; in
    particular it neither faults, nor panics, nor hangs. *)

Definition wp {S A} (m : M S A) (s : S) (Q : A → S → Prop) : Prop :=
  match m s with Ok (a, s') => Q a s' | _ => False end.

Section wp_rules.
Context {S A B : Type}.
Implicit Types (s : S) (m : M S A) (Q : A → S → Prop).

Lemma wp_ret (a : A) s Q : Q a s → wp (mret a) s Q.
Proof. done. Qed.

Lemma wp_bind m (f : A → M S B) s (Q : B → S → Prop) :
  wp m s (λ a s', wp (f a) s' Q) → wp (m ≫= f) s Q.
Proof.
  unfold wp, mbind, M_bind. by destruct (m s) as [[a s']| | |].
Qed.

Lemma wp_mono m s Q Q' :
  wp m s Q → (∀ a s', Q a s' → Q' a s') → wp m s Q'.
Proof.
  unfold wp. destruct (m s) as [[a s']| | |]; auto.
Qed.

Lemma wp_ok m s Q : wp m s Q → ∃ a s', m s = Ok (a, s') ∧ Q a s'.
Proof.
  unfold wp. destruct (m s) as [[a s']| | |]; naive_solver.
Qed.

(** A run with a known result. *)
Lemma wp_run m s a (P : S → Prop) :
  wp m s (λ a' s', a' = a ∧ P s') → ∃ s', m s = Ok (a, s') ∧ P s'.
Proof. intros (a' & s' & ? & -> & ?)%wp_ok. eauto. Qed.

Lemma wp_of_ok m s a s' Q : m s = Ok (a, s') → Q a s' → wp m s Q.
Proof. unfold wp. by intros ->. Qed.

Lemma wp_gets (f : S → A) s Q : Q (f s) s → wp (gets f) s Q.
Proof. done. Qed.

Lemma wp_load (f : S → option A) s a Q :
  f s = Some a → Q a s → wp (load f) s Q.
Proof. unfold wp, load. by intros ->. Qed.

Lemma wp_if (b : bool) (m1 m2 : M S A) s Q :
  (b = true → wp m1 s Q) → (b = false → wp m2 s Q) →
  wp (if b then m1 else m2) s Q.
Proof. destruct b; auto. Qed.
End wp_rules.

(** The state after a run. *)
Definition outcome {S A} (m : M S A) (s : S) : S := match m s with Ok (_, s') => s' | _ => s end.

Lemma wp_outcome {S A} (m : M S A) s (P : S → Prop) : wp m s (λ _, P) → P (outcome m s).
Proof. unfold wp, outcome. by destruct (m s) as [[a s']| | |]. Qed.

Lemma wp_get {S} (s : S) (Q : S → S → Prop) : Q s s → wp get s Q.
Proof. done. Qed.

Lemma wp_put {S} (s s' : S) (Q : unit → S → Prop) : Q tt s' → wp (put s') s Q.
Proof. done. Qed.

Lemma wp_modify {S} (f : S → S) s (Q : unit → S → Prop) :
  Q tt (f s) → wp (modify f) s Q.
Proof. done. Qed.

Lemma wp_when {S} (b : bool) (m : M S unit) s (Q : unit → S → Prop) :
  (b = true → wp m s Q) → (b = false → Q tt s) → wp (when b m) s Q.
Proof. destruct b; intros H1 H2; [by apply H1 | by apply H2]. Qed.

Lemma wp_zoom {S T A} (sel : S → T) upd (m : M T A) s (Q : A → S → Prop) :
  wp m (sel s) (λ a t, Q a (upd t s)) → wp (zoom sel upd m) s Q.
Proof. unfold wp, zoom. by destruct (m (sel s)) as [[a t]| | |]. Qed.

(** One step of symbolic execution; [wp_go] runs as far as the program is a
    sequence of primitive steps, leaving conditionals and calls. *)
Ltac wp_step :=
  lazymatch goal with
  | |- wp (_ ≫= _) _ _ => apply wp_bind
  | |- wp (mret _) _ _ => apply wp_ret
  | |- wp (gets _) _ _ => apply wp_gets
  | |- wp get _ _ => apply wp_get
  | |- wp (put _) _ _ => apply wp_put
  | |- wp (modify _) _ _ => apply wp_modify
  | |- wp (zoom _ _ _) _ _ => apply wp_zoom
  end; cbv beta.

Ltac wp_go := repeat wp_step.

Lemma wp_assoc {S A B C} (m : M S A) (f : A → M S B) (g : B → M S C) s Q :
  wp (m ≫= λ x, f x ≫= g) s Q → wp ((m ≫= f) ≫= g) s Q.
Proof. unfold wp, mbind, M_bind. by destruct (m s) as [[a s']| | |]. Qed.

Lemma wp_regroup {S A B X} (m : M S A) (f : A → M S B) (g : B → M S X) s Q :
  wp ((m ≫= f) ≫= g) s Q → wp (m ≫= λ x, f x ≫= g) s Q.
Proof. unfold wp, mbind, M_bind. by destruct (m s) as [[a s']| | |]. Qed.

(** Nested sequences in the form [m1;; m2;; ...]. *)
Ltac wp_flat := repeat lazymatch goal with
  | |- wp ((_ ≫= _) ≫= _) _ _ => apply wp_assoc; cbv beta
  end.

(** Decide the boolean tests that arithmetic on the hypotheses settles. *)
Ltac bool_to_prop :=
  repeat match goal with
  | H : (_ =? _) = true |- _ => apply Z.eqb_eq in H
  | H : (_ =? _) = false |- _ => apply Z.eqb_neq in H
  | H : (_ <? _) = true |- _ => apply Z.ltb_lt in H
  | H : (_ <? _) = false |- _ => apply Z.ltb_ge in H
  | H : (_ <=? _) = true |- _ => apply Z.leb_le in H
  | H : (_ <=? _) = false |- _ => apply Z.leb_gt in H
  | H : negb _ = true |- _ => apply negb_true_iff in H
  | H : negb _ = false |- _ => apply negb_false_iff in H
  | H : _ && _ = true |- _ => apply andb_true_iff in H; destruct H
  | H : _ || _ = false |- _ => apply orb_false_iff in H; destruct H
  end.

Lemma if_flip {A} (c : bool) (a b : A) :
  (if c then a else b) = (if negb c then b else a).
Proof. by destruct c. Qed.

(** ** Arithmetic of the wraps *)

Lemma uwrap_small n x : 0 ≤ x < 2 ^ n → uwrap n x = x.
Proof. apply Z.mod_small. Qed.

Lemma uwrap_range n x : 0 ≤ n → 0 ≤ uwrap n x < 2 ^ n.
Proof. intros. apply Z.mod_pos_bound. lia. Qed.

Lemma uwrap_idemp n x : uwrap n (uwrap n x) = uwrap n x.
Proof. apply Zmod_mod. Qed.

Lemma uwrap_add_l n x y : uwrap n (uwrap n x + y) = uwrap n (x + y).
Proof. apply Zplus_mod_idemp_l. Qed.

Lemma uwrap_sub_l n x y : uwrap n (uwrap n x - y) = uwrap n (x - y).
Proof. apply Zminus_mod_idemp_l. Qed.

Lemma swrap_small n x : 1 ≤ n → - 2 ^ (n - 1) ≤ x < 2 ^ (n - 1) → swrap n x = x.
Proof.
  intros Hn Hx. unfold swrap.
  assert (2 ^ n = 2 * 2 ^ (n - 1)) as E.
  { rewrite <- Z.pow_succ_r by lia. f_equal. lia. }
  rewrite Z.mod_small; lia.
Qed.

Create HintDb wrap.
#[export] Hint Rewrite uwrap_idemp uwrap_add_l uwrap_sub_l : wrap.

(** ** 32-bit values and their bits *)

Definition word (x : Z) : Prop := 0 ≤ x < 2 ^ 32.

#[export] Instance word_dec x : Decision (word x) := ltac:(unfold word; apply _).

Lemma word_u32 x : word (u32 x).
Proof. apply uwrap_range. lia. Qed.

Lemma word_bits x : 0 ≤ x → (∀ i, 32 ≤ i → Z.testbit x i = false) → word x.
Proof.
  intros Hx Hb. split; [done|]. destruct (decide (x = 0)) as [->|]; [lia|].
  apply Z.log2_lt_pow2; [lia|]. destruct (decide (32 ≤ Z.log2 x)) as [Hl|]; [|lia].
  specialize (Hb _ Hl). rewrite Z.bit_log2 in Hb by lia. done.
Qed.

Lemma word_testbit x i : word x → 32 ≤ i → Z.testbit x i = false.
Proof.
  intros [H0 Hx] Hi. rewrite <- (Z.mod_small x (2 ^ 32)) by lia. apply Z.mod_pow2_bits_high. lia.
Qed.

Lemma word_lxor x y : word x → word y → word (Z.lxor x y).
Proof.
  intros Hx Hy. apply word_bits; [apply Z.lxor_nonneg; unfold word in *; tauto|].
  intros i Hi. by rewrite Z.lxor_spec, !word_testbit.
Qed.

Lemma word_land x y : word x → word y → word (Z.land x y).
Proof.
  intros Hx Hy. apply word_bits; [apply Z.land_nonneg; unfold word in *; tauto|].
  intros i Hi. by rewrite Z.land_spec, !word_testbit.
Qed.

Lemma word_shiftr x k : word x → 0 ≤ k → word (Z.shiftr x k).
Proof.
  intros Hx Hk. apply word_bits; [apply Z.shiftr_nonneg; unfold word in *; lia|].
  intros i Hi. rewrite Z.shiftr_spec by lia. apply word_testbit; [done|lia].
Qed.

Lemma word_const x : bool_decide (word x) = true → word x.
Proof. apply bool_decide_eq_true. Qed.

Create HintDb word.
#[export] Hint Resolve word_u32 word_lxor word_land word_shiftr : word.
#[export] Hint Extern 1 (0 ≤ _) => lia : word.

Lemma word_not_bit x i : 0 ≤ i → Z.testbit (u32 (Z.lnot x)) i = (i <? 32) && negb (Z.testbit x i).
Proof.
  intros Hi. unfold uwrap. destruct (Z.ltb_spec i 32).
  - rewrite Z.mod_pow2_bits_low, Z.lnot_spec by lia. done.
  - by rewrite Z.mod_pow2_bits_high by lia.
Qed.

(** ** Pages of the target *)

Definition PAGE_SIZE : Z := 4096.

Definition PAGE_MASK : Z := u32 (Z.lnot (PAGE_SIZE - 1)).

Definition PAGE_ALIGN (a : Z) : Z := Z.land (u32 (a + PAGE_SIZE - 1)) PAGE_MASK.

Lemma land_PAGE_MASK x : word x → Z.land x PAGE_MASK = x / PAGE_SIZE * PAGE_SIZE.
Proof.
  intros Hx. change PAGE_SIZE with (2 ^ 12). rewrite <- Z.shiftl_mul_pow2, <- Z.shiftr_div_pow2 by lia.
  apply Z.bits_inj'. intros i Hi. unfold PAGE_MASK. rewrite Z.land_spec, word_not_bit by done.
  change (PAGE_SIZE - 1) with (Z.ones 12). destruct (Z.ltb_spec i 12).
  - rewrite Z.ones_spec_low, Z.shiftl_spec_low by lia. simpl. by rewrite !andb_false_r.
  - rewrite Z.ones_spec_high, Z.shiftl_spec_high, Z.shiftr_spec by lia.
    replace (i - 12 + 12) with i by lia. destruct (Z.ltb_spec i 32); simpl.
    + by rewrite andb_true_r.
    + by rewrite word_testbit.
Qed.

(** Rounding up to whole pages. *)
Lemma PAGE_ALIGN_up a : 0 ≤ a → a + PAGE_SIZE ≤ 2 ^ 32 →
  PAGE_ALIGN a = (a + PAGE_SIZE - 1) / PAGE_SIZE * PAGE_SIZE.
Proof.
  unfold PAGE_ALIGN, PAGE_SIZE. intros. rewrite uwrap_small by lia.
  apply land_PAGE_MASK. unfold word. lia.
Qed.

(** ** Status codes *)

Definition NO_ERROR : Z := 0.

Definition ERR_INVALID_ARGS : Z := s32 (0x80000000 + 1).

Definition ERR_NO_MEMORY : Z := s32 (0x80000000 + 2).

(** ** Lists *)

(** [head_or d xs] and [last_or d xs]: the ends of a list, [d] when empty; with
    [d := NULL] the pointers a list header keeps. *)
Definition head_or {A} (d : A) (xs : list A) : A :=
  match xs with [] => d | x :: _ => x end.

Definition last_or {A} (d : A) (xs : list A) : A := List.last xs d.

Arguments last_or : simpl never.

Lemma last_or_nil {A} (d : A) : last_or d [] = d.
Proof. done. Qed.

Lemma last_or_app {A} (d x : A) xs : last_or d (xs ++ [x]) = x.
Proof. apply last_last. Qed.

Lemma last_or_cons {A} (d x : A) xs : last_or d (x :: xs) = last_or x xs.
Proof.
  unfold last_or. revert d x. induction xs as [|y xs IH]; intros d x; [done|].
  change (List.last (x :: y :: xs) d) with (List.last (y :: xs) d).
  by rewrite !IH.
Qed.

Lemma last_or_app_app {A} (d : A) xs ys :
  last_or d (xs ++ ys) = last_or (last_or d xs) ys.
Proof.
  destruct ys as [|y ys _] using rev_ind.
  - by rewrite app_nil_r, last_or_nil.
  - by rewrite app_assoc, !last_or_app.
Qed.

Lemma head_or_app {A} (d : A) xs ys :
  head_or d (xs ++ ys) = head_or (head_or d ys) xs.
Proof. by destruct xs. Qed.

Lemma NoDup_middle {A} (l1 l2 : list A) e :
  NoDup (l1 ++ e :: l2) ↔ NoDup (l1 ++ l2) ∧ e ∉ l1 ∧ e ∉ l2.
Proof. rewrite !NoDup_app, NoDup_cons. set_solver. Qed.

Lemma Forall_middle {A} (P : A → Prop) l1 e l2 :
  Forall P (l1 ++ e :: l2) ↔ P e ∧ Forall P (l1 ++ l2).
Proof. rewrite !Forall_app, Forall_cons. tauto. Qed.

(** A list with every occurrence of [e] removed. *)
Definition without (e : Z) (xs : list Z) : list Z := filter (λ x, x ≠ e) xs.

Lemma without_middle l1 e l2 :
  NoDup (l1 ++ e :: l2) → without e (l1 ++ e :: l2) = l1 ++ l2.
Proof.
  intros (_ & H1 & H2)%NoDup_middle. unfold without.
  assert (∀ l : list Z, e ∉ l → filter (λ x, x ≠ e) l = l) as Hid.
  { induction l as [|x l IH]; intros Hl; [done|].
    rewrite filter_cons_True, IH by set_solver. done. }
  rewrite filter_app, filter_cons_False by tauto. by rewrite !Hid.
Qed.

(** A duplicate-free list of 32-bit addresses is shorter than [2^32], so an
    element count kept in a [uint] never wraps. *)
Lemma NoDup_valid_ptr_length (xs : list Z) :
  NoDup xs → Forall valid_ptr xs → Z.of_nat (length xs) < 2 ^ 32.
Proof.
  intros Hnd Hv.
  assert (Z.of_nat (length xs) ≤ 2 ^ 32 - 1); [|lia].
  set (n := Z.to_pos (2 ^ 32 - 1)).
  assert (∀ m : nat, (∀ x, x ∈ xs → 0 < x ≤ Z.of_nat m) → (length xs ≤ m)%nat) as Hpig.
  { intros m Hm.
    assert (incl xs (Z.of_nat <$> seq 1 m)) as Hincl.
    { intros x Hx%list_elem_of_In. apply list_elem_of_In, list_elem_of_fmap.
      specialize (Hm x Hx). exists (Z.to_nat x). split; [lia|].
      apply elem_of_seq. lia. }
    apply NoDup_ListNoDup in Hnd.
    pose proof (NoDup_incl_length Hnd Hincl) as H.
    by rewrite length_fmap, length_seq in H. }
  rewrite Forall_forall in Hv.
  assert (length xs ≤ Z.to_nat (2 ^ 32 - 1))%nat; [|lia].
  apply Hpig. intros x Hx. specialize (Hv x Hx). unfold valid_ptr in Hv. lia.
Qed.

Lemma dom_alter_Z {A} (f : A → A) (p : Z) (m : gmap Z A) : dom (alter f p m) = dom m.
Proof. apply leibniz_equiv, dom_alter. Qed.

Lemma dom_insert_in {A} (m : gmap Z A) e v : e ∈ dom m → dom (<[e := v]> m) = dom m.
Proof. intros He. rewrite dom_insert_L. set_solver. Qed.

Lemma sorted_app (R : Z → Z → Prop) xs ys :
  StronglySorted R (xs ++ ys) ↔
  StronglySorted R xs ∧ StronglySorted R ys ∧ ∀ x y, x ∈ xs → y ∈ ys → R x y.
Proof.
  induction xs as [|x xs IH]; simpl.
  { split; [intros; split_and!; [constructor|done|set_solver]|tauto]. }
  split.
  - intros [H%IH Hx]%StronglySorted_inv. destruct H as (Hxs & Hys & Hr).
    rewrite Forall_app in Hx. destruct Hx as [Hx1 Hx2].
    split_and!; [by constructor|done|]. intros z y [->|Hz]%elem_of_cons Hy; [|auto].
    by apply (proj1 (Forall_forall _ _) Hx2).
  - intros ([Hxs Hx]%StronglySorted_inv & Hys & Hr). constructor.
    + apply IH. split_and!; [done|done|]. intros; apply Hr; set_solver.
    + apply Forall_app. split; [done|]. apply Forall_forall. intros y Hy. apply Hr; set_solver.
Qed.

Lemma valid_not_null xs : Forall valid_ptr xs → NULL ∉ xs.
Proof.
  intros Hv Hin. apply (proj1 (Forall_forall _ _) Hv) in Hin. unfold valid_ptr, NULL in Hin. lia.
Qed.

(** ** Simulation of an abstract machine by a routine

    A component that implements an abstract data type is a family of operations
    [run] on its store and a specification [spec] of the same operations on
    abstract values ([None]: the operation is misused there). One-step simulation
    lifts to sequences of operations. [keep] is what every step preserves of the
    rest of the store, [ok] the side conditions on an operation's arguments. *)
Section machine.
Context {S A Op R : Type}.
Context (run : Op → M S R) (spec : Op → A → option (R * A)).

Fixpoint runs (ops : list Op) : M S (list R) :=
  match ops with
  | [] => mret []
  | op :: ops => r ← run op; rs ← runs ops; mret (r :: rs)
  end.

Fixpoint specs (ops : list Op) (a : A) : option (list R * A) :=
  match ops with
  | [] => Some ([], a)
  | op :: ops => '(r, a) ← spec op a; '(rs, a) ← specs ops a; Some (r :: rs, a)
  end.

Context (rep : S → A → Prop) (ok : S → Op → Prop) (keep : S → S → Prop).

Definition simulates : Prop := ∀ s a op r a',
  rep s a → ok s op → spec op a = Some (r, a') →
  wp (run op) s (λ r' s', r' = r ∧ rep s' a' ∧ keep s s').

Lemma simulates_runs `{!PreOrder keep} :
  (∀ s s' op, keep s s' → ok s op → ok s' op) → simulates →
  ∀ ops s a rs a', rep s a → Forall (ok s) ops → specs ops a = Some (rs, a') →
  ∃ s', runs ops s = Ok (rs, s') ∧ rep s' a' ∧ keep s s'.
Proof.
  intros Hok Hsim ops. induction ops as [|op ops IH]; intros s a rs a' Hrep Ho Hs; simpl in *.
  - simplify_eq. by exists s.
  - destruct (spec op a) as [[r a1]|] eqn:E1; [|done]. simpl in Hs.
    destruct (specs ops a1) as [[rs1 a2]|] eqn:E2; [|done]. simplify_option_eq.
    apply Forall_cons in Ho as [Ho1 Ho].
    destruct (wp_run _ _ _ _ (Hsim _ _ _ _ _ Hrep Ho1 E1)) as (s1 & Hr1 & Hrep1 & Hk1).
    destruct (IH s1 a1 rs1 a') as (s2 & Hr2 & Hrep2 & Hk2); [done| |done|].
    { eapply Forall_impl; [done|]. eauto. }
    exists s2. unfold mbind, M_bind. rewrite Hr1, Hr2. split_and!; [done..|].
    by transitivity s1.
Qed.
End machine.
