(* ===== verification/Links.v ===== *)
(** * Singly linked chains

    Elements linked by a pointer to the next one, for the components that thread
    their elements this way: [m] maps the address of an element to the address its
    link holds. *)

From S2P Require Import Prelude.
From stdpp Require Import gmap list.
#[local] Open Scope Z_scope.

(** The elements [xs] are linked in this order, the last link holds [n]. *)
Fixpoint qseg (m : gmap Z Z) (xs : list Z) (n : Z) : Prop :=
  match xs with
  | [] => True
  | x :: xs' => m !! x = Some (head_or n xs') ∧ qseg m xs' n
  end.

Lemma qseg_app m xs ys n :
  qseg m (xs ++ ys) n ↔ qseg m xs (head_or n ys) ∧ qseg m ys n.
Proof. induction xs as [|x xs IH]; simpl; [tauto|]. rewrite IH, head_or_app. tauto. Qed.

Lemma qseg_frame m m' xs n :
  (∀ x, x ∈ xs → m' !! x = m !! x) → qseg m xs n → qseg m' xs n.
Proof.
  induction xs as [|x xs IH]; intros Hf; simpl; [done|]. intros [Hx Hs]. split.
  - rewrite Hf; [done|left].
  - apply IH; [|done]. intros y Hy. apply Hf. by right.
Qed.

Lemma qseg_alter m xs n p f : p ∉ xs → qseg m xs n → qseg (alter f p m) xs n.
Proof.
  intros Hp. apply qseg_frame. intros x Hx. by rewrite lookup_alter_ne by congruence.
Qed.

(** Redirecting the link of the last element. *)
Lemma qseg_set_last m xs x n v :
  NoDup (xs ++ [x]) → qseg m (xs ++ [x]) n →
  qseg (alter (λ _, v) x m) (xs ++ [x]) v.
Proof.
  intros (_ & Hnd & _)%NoDup_app. rewrite !qseg_app. simpl.
  intros (Hs & Hx & _). split_and!; [|by rewrite lookup_alter_eq, Hx|done].
  apply qseg_alter; [set_solver|done].
Qed.

Lemma qseg_dom m xs n x : qseg m xs n → x ∈ xs → is_Some (m !! x).
Proof.
  induction xs as [|y xs IH]; simpl; [by intros _ ?%not_elem_of_nil|].
  intros [Hy Hs] [->|Hx]%elem_of_cons; eauto.
Qed.

Lemma qseg_size m xs n : NoDup xs → qseg m xs n → (length xs ≤ size m)%nat.
Proof.
  intros Hnd Hs. rewrite <- size_dom.
  rewrite <- (size_list_to_set (C := gset Z) xs) by done.
  apply subseteq_size. intros x Hx%elem_of_list_to_set.
  apply elem_of_dom. eapply qseg_dom; eauto.
Qed.

Lemma qseg_insert_last m xs x n v :
  NoDup (xs ++ [x]) → qseg m (xs ++ [x]) n → qseg (<[x := v]> m) (xs ++ [x]) v.
Proof.
  intros Hnd Hs. eapply qseg_frame, (qseg_set_last m xs x n v); [|done..].
  intros y _. destruct (decide (y = x)) as [->|].
  - apply qseg_app in Hs as [_ [Hx _]]. by rewrite lookup_insert_eq, lookup_alter_eq, Hx.
  - by rewrite lookup_insert_ne, lookup_alter_ne.
Qed.
