(* ===== verification/Spinlock.v ===== *)
(** * Spinlocks: [kernel/spinlock.c]

    A lock is a word that [atomic_set_ret] exchanges with [SPIN_LOCKED]. The
    first part is the view of one processor whose critical sections nobody
    interleaves with: a lock that is found held there is never released, so the
    spin is a [Hang]. The second part puts any number of processors around one
    lock and interleaves their atomic exchanges. *)

From S2P Require Import Prelude.
From stdpp Require Import gmap list.
#[local] Open Scope Z_scope.

Definition SPIN_LOCKED : Z := 1.

Definition SPIN_UNLOCKED : Z := 0.

(** The lock words, by address, and the interrupt-enable flag of the processor. *)
Record cpu := Cpu { locks : gmap Z Z; irqs : bool }.

Definition atomic_get (a : Z) : M cpu Z := load (λ s, locks s !! a).

Definition atomic_set (a v : Z) : M cpu unit := λ s,
  match locks s !! a with
  | Some _ => Ok (tt, Cpu (<[a := v]> (locks s)) (irqs s))
  | None => Fault
  end.

(** [xchg]: store [v], return the previous value, as one atomic step. *)
Definition atomic_set_ret (a v : Z) : M cpu Z :=
  old ← atomic_get a; atomic_set a v;; mret old.

Definition local_irqs_enable : M cpu unit := modify (λ s, Cpu (locks s) true).

Definition local_irqs_disable : M cpu unit := modify (λ s, Cpu (locks s) false).

Definition local_irqs_save_and_disable : M cpu bool :=
  f ← gets irqs; local_irqs_disable;; mret f.

Definition local_irqs_restore (f : bool) : M cpu unit :=
  modify (λ s, Cpu (locks s) f).

(** ** The routines *)

Definition spin_init (s : Z) : M cpu unit := atomic_set s SPIN_UNLOCKED.

Definition spin_init_locked (s : Z) : M cpu unit := atomic_set s SPIN_LOCKED.

(** [while(atomic_set_ret(s, SPIN_LOCKED)) cpu_relax();] *)
Definition spin_lock (s : Z) : M cpu unit :=
  old ← atomic_set_ret s SPIN_LOCKED;
  if negb (old =? 0) then hang else mret tt.

Definition spin_safelock (s : Z) : M cpu unit :=
  local_irqs_enable;;
  old ← atomic_set_ret s SPIN_LOCKED;
  if negb (old =? 0) then hang else mret tt.

(** Nonzero when the lock was acquired. *)
Definition spin_trylock (s : Z) : M cpu Z :=
  old ← atomic_set_ret s SPIN_LOCKED;
  mret (if old =? 0 then 1 else 0).

Definition spin_lock_irqsave (s : Z) : M cpu bool :=
  irqs_state ← local_irqs_save_and_disable;
  old ← atomic_set_ret s SPIN_LOCKED;
  if negb (old =? 0) then hang else mret irqs_state.

Definition spin_unlock (s : Z) : M cpu unit := atomic_set s SPIN_UNLOCKED.

Definition spin_unlock_irqrstor (s : Z) (irqs_state : bool) : M cpu unit :=
  atomic_set s SPIN_UNLOCKED;; local_irqs_restore irqs_state.

Definition spin_wait (s : Z) : M cpu unit :=
  v ← atomic_get s; if negb (v =? 0) then hang else mret tt.

Definition spin_locked (s : Z) : M cpu Z := atomic_get s.

(** ** Critical sections on one processor *)

Lemma atomic_set_ret_ok a v w s :
  locks s !! a = Some w →
  atomic_set_ret a v s = Ok (w, Cpu (<[a := v]> (locks s)) (irqs s)).
Proof.
  intros Ha. unfold atomic_set_ret, atomic_get, atomic_set, load, mbind, M_bind.
  by rewrite !Ha.
Qed.

Lemma wp_spin_lock s a Q :
  locks s !! a = Some SPIN_UNLOCKED →
  Q tt (Cpu (<[a := SPIN_LOCKED]> (locks s)) (irqs s)) → wp (spin_lock a) s Q.
Proof.
  intros Ha HQ. unfold spin_lock. wp_go.
  eapply wp_of_ok; [by apply atomic_set_ret_ok|done].
Qed.

Lemma wp_spin_unlock s a Q :
  is_Some (locks s !! a) →
  Q tt (Cpu (<[a := SPIN_UNLOCKED]> (locks s)) (irqs s)) → wp (spin_unlock a) s Q.
Proof. intros [v Ha] HQ. unfold wp, spin_unlock, atomic_set. by rewrite Ha. Qed.

(** [spin_trylock] takes the lock if it is free, and says so. *)
Lemma wp_spin_trylock s a l (Q : Z → cpu → Prop) :
  locks s !! a = Some l →
  Q (if l =? 0 then 1 else 0) (Cpu (<[a := SPIN_LOCKED]> (locks s)) (irqs s)) → wp (spin_trylock a) s Q.
Proof.
  intros Ha HQ. unfold spin_trylock. apply wp_bind.
  eapply wp_of_ok; [by apply atomic_set_ret_ok|by apply wp_ret].
Qed.

Lemma wp_spin_lock_irqsave s a Q :
  locks s !! a = Some SPIN_UNLOCKED →
  Q (irqs s) (Cpu (<[a := SPIN_LOCKED]> (locks s)) false) →
  wp (spin_lock_irqsave a) s Q.
Proof.
  intros Ha HQ. unfold spin_lock_irqsave, local_irqs_save_and_disable, local_irqs_disable.
  wp_go. eapply wp_of_ok; [by apply atomic_set_ret_ok|done].
Qed.

Lemma wp_spin_unlock_irqrstor s a f Q :
  is_Some (locks s !! a) →
  Q tt (Cpu (<[a := SPIN_UNLOCKED]> (locks s)) f) →
  wp (spin_unlock_irqrstor a f) s Q.
Proof.
  intros [v Ha] HQ. unfold wp, spin_unlock_irqrstor, atomic_set, mbind, M_bind.
  by rewrite Ha.
Qed.

(** Releasing what was acquired gives back the processor state. *)
Lemma unlock_locked a s :
  locks s !! a = Some SPIN_UNLOCKED →
  Cpu (<[a := SPIN_UNLOCKED]> (<[a := SPIN_LOCKED]> (locks s))) (irqs s) = s.
Proof. intros Ha. destruct s as [l f]; simpl in *. by rewrite insert_insert_eq, insert_id. Qed.

(** ** Several processors around one lock *)

(** Where a processor is: outside its critical section, spinning for the lock in
    [spin_lock] or [spin_safelock], or inside. *)
Inductive ppos := Outside | Spinning | Inside.

#[export] Instance ppos_eq_dec : EqDecision ppos.
Proof. solve_decision. Defined.

Record smp := Smp { word : Z; pos : gmap nat ppos }.

(** The atomic steps of the routines: one exchange of a spinning or a trying
    processor, and the store of a release. What an exchange does to the word and
    what it returns is [atomic_set_ret] run on that word. *)
Definition xchg (w v : Z) : Z * Z :=
  match atomic_set_ret 0 v (Cpu {[ 0 := w ]} true) with
  | Ok (old, s) => (old, default w (locks s !! 0))
  | _ => (w, w)
  end.

Inductive smp_step : smp → smp → Prop :=
  | step_spin w w' old ps c p :
      ps !! c = Some p → p ≠ Inside → xchg w SPIN_LOCKED = (old, w') →
      smp_step (Smp w ps)
        (Smp w' (<[c := if old =? 0 then Inside else Spinning]> ps))
  | step_trylock w w' old ps c :
      ps !! c = Some Outside → xchg w SPIN_LOCKED = (old, w') →
      smp_step (Smp w ps)
        (Smp w' (<[c := if old =? 0 then Inside else Outside]> ps))
  | step_unlock w ps c :
      ps !! c = Some Inside →
      smp_step (Smp w ps) (Smp SPIN_UNLOCKED (<[c := Outside]> ps)).

Inductive smp_reach (ps0 : gmap nat ppos) : smp → Prop :=
  | reach_init : smp_reach ps0 (Smp SPIN_UNLOCKED ps0)
  | reach_step m m' : smp_reach ps0 m → smp_step m m' → smp_reach ps0 m'.

Lemma xchg_spec w v : xchg w v = (w, v).
Proof.
  unfold xchg. rewrite (atomic_set_ret_ok _ _ w) by apply lookup_singleton_eq.
  simpl. by rewrite lookup_insert_eq.
Qed.

(** The lock word says whether somebody is inside, and nobody shares. *)
Record smp_inv (m : smp) : Prop := {
  si_word : word m = SPIN_LOCKED ∧ (∃ c, pos m !! c = Some Inside) ∨
            word m = SPIN_UNLOCKED ∧ (∀ c, pos m !! c ≠ Some Inside);
  si_excl : ∀ c1 c2, pos m !! c1 = Some Inside → pos m !! c2 = Some Inside → c1 = c2 }.

Lemma smp_inv_acquire w ps c p q :
  smp_inv (Smp w ps) → ps !! c = Some p → p ≠ Inside → q ≠ Inside →
  smp_inv (Smp SPIN_LOCKED (<[c := if w =? 0 then Inside else q]> ps)).
Proof.
  intros [Hw Hx] Hc Hp Hq. simpl in *. split; simpl.
  - left. split; [done|]. destruct Hw as [[-> [d Hd]]|[-> _]]; simpl.
    + exists d. rewrite lookup_insert_ne; [done|]. congruence.
    + exists c. by rewrite lookup_insert_eq.
  - intros c1 c2. destruct Hw as [[-> _]|[-> Hn]]; simpl;
      rewrite !lookup_insert; repeat case_decide; naive_solver.
Qed.

Lemma smp_step_inv m m' : smp_inv m → smp_step m m' → smp_inv m'.
Proof.
  intros Hinv Hstep.
  destruct Hstep as [w w' old ps c p Hc Hp Hx|w w' old ps c Hc Hx|w ps c Hc];
    try (rewrite xchg_spec in Hx; simplify_eq).
  - by eapply smp_inv_acquire.
  - by eapply smp_inv_acquire.
  - destruct Hinv as [_ Hx]. simpl in *. split; simpl.
    + right. split; [done|]. intros d. rewrite lookup_insert. case_decide; [done|].
      intros Hd. by rewrite (Hx _ _ Hc Hd) in *.
    + intros c1 c2. rewrite !lookup_insert. repeat case_decide; naive_solver.
Qed.


