(* ===== verification/XList.v ===== *)
(** * Linked lists: [kernel/util/list.c] and the inline routines of
    [include/phlox/list.h]

    The lists of the kernel are intrusive: a [list_elem_t] is a field of the
    object on the list and a list is threaded through these fields. The model
    keeps the two kinds of objects the routines touch, elements and headers, in
    two finite maps indexed by address, and each routine performs the loads and
    stores of the C code in their order. *)

From S2P Require Import Prelude.
From stdpp Require Import gmap list.
#[local] Open Scope Z_scope.

(** ** Data *)

(** [list_elem_t] *)
Record list_elem := ListElem { le_prev : Z; le_next : Z }.

(** [xlist_t] *)
Record xlist := XListHdr { xl_first : Z; xl_last : Z; xl_count : Z }.

(** The store: the elements and the headers that exist, by address. *)
Record xstore := XStore { nodes : gmap Z list_elem; lists : gmap Z xlist }.

(** ** Loads and stores *)

Definition ld_prev (p : Z) : M xstore Z :=
  load (λ s, le_prev <$> nodes s !! p).

Definition ld_next (p : Z) : M xstore Z :=
  load (λ s, le_next <$> nodes s !! p).

Definition st_elem (p : Z) (f : list_elem → list_elem) : M xstore unit := λ s,
  match nodes s !! p with
  | Some n => Ok (tt, XStore (<[p := f n]> (nodes s)) (lists s))
  | None => Fault
  end.

Definition st_prev (p v : Z) : M xstore unit :=
  st_elem p (λ n, ListElem v (le_next n)).

Definition st_next (p v : Z) : M xstore unit :=
  st_elem p (λ n, ListElem (le_prev n) v).

Definition ld_list (l : Z) : M xstore xlist := load (λ s, lists s !! l).

Definition st_list (l : Z) (f : xlist → xlist) : M xstore unit := λ s,
  match lists s !! l with
  | Some h => Ok (tt, XStore (nodes s) (<[l := f h]> (lists s)))
  | None => Fault
  end.

Definition st_first (l v : Z) : M xstore unit :=
  st_list l (λ h, XListHdr v (xl_last h) (xl_count h)).

Definition st_last (l v : Z) : M xstore unit :=
  st_list l (λ h, XListHdr (xl_first h) v (xl_count h)).

Definition st_count (l : Z) (f : Z → Z) : M xstore unit :=
  st_list l (λ h, XListHdr (xl_first h) (xl_last h) (u32 (f (xl_count h)))).

(** ** The multi-purpose list ([xlist_*]) *)

Definition xlist_init (l : Z) : M xstore Z :=
  st_last l NULL;; st_first l NULL;; st_count l (λ _, 0);; mret 1.

Definition xlist_elem_init (e : Z) : M xstore Z :=
  st_next e NULL;; st_prev e NULL;; mret 1.

Definition xlist_isempty (l : Z) : M xstore Z :=
  h ← ld_list l;
  mret (if xl_count h =? 0 then 1 else 0).

(** [temp = list->first; while(temp) { if(temp == item) ..; temp = temp->next; }]:
    whether the search meets [item]. The loop writes nothing, so a walk that has
    followed more links than there are elements has met one of them twice and
    never ends. *)
Fixpoint xlist_search (fuel : nat) (temp item : Z) : M xstore bool :=
  match fuel with
  | O => hang
  | S fuel =>
      if temp =? NULL then mret false
      else if temp =? item then mret true
      else nx ← ld_next temp; xlist_search fuel nx item
  end.

Definition search_fuel (s : xstore) : nat := S (size (nodes s)).
Arguments search_fuel : simpl never.

Definition xlist_find (l item : Z) : M xstore bool :=
  h ← ld_list l;
  fuel ← gets search_fuel;
  xlist_search fuel (xl_first h) item.

Definition xlist_remove_unsafe (l e : Z) : M xstore Z :=
  p ← ld_prev e;
  n ← ld_next e;
  (if negb (p =? NULL) then st_next p n else st_first l n);;
  n ← ld_next e;
  p ← ld_prev e;
  (if negb (n =? NULL) then st_prev n p else st_last l p);;
  st_count l (λ c, c - 1);;
  st_prev e NULL;; st_next e NULL;;
  mret 1.

Definition xlist_remove (l e : Z) : M xstore Z :=
  found ← xlist_find l e;
  if found : bool then
    p ← ld_prev e;
    n ← ld_next e;
    (if negb (p =? NULL) then st_next p n else st_first l n);;
    n ← ld_next e;
    p ← ld_prev e;
    (if negb (n =? NULL) then st_prev n p else st_last l p);;
    st_count l (λ c, c - 1);;
    st_prev e NULL;; st_next e NULL;;
    mret 1
  else mret 0.

Definition xlist_add_first (l e : Z) : M xstore Z :=
  h ← ld_list l;
  (if xl_first h =? NULL then
     st_next e NULL;; st_prev e NULL;;
     st_last l e;; st_first l e
   else
     st_prev (xl_first h) e;;
     st_next e (xl_first h);;
     st_prev e NULL;;
     st_first l e);;
  st_count l (λ c, c + 1);;
  mret 1.

Definition xlist_add_last (l e : Z) : M xstore Z :=
  h ← ld_list l;
  (if xl_last h =? NULL then
     st_next e NULL;; st_prev e NULL;;
     st_last l e;; st_first l e
   else
     st_next (xl_last h) e;;
     st_prev e (xl_last h);;
     st_next e NULL;;
     st_last l e);;
  st_count l (λ c, c + 1);;
  mret 1.

Definition xlist_extract_first (l : Z) : M xstore Z :=
  h ← ld_list l;
  let e := xl_first h in
  (if negb (e =? NULL) then
     n ← ld_next e;
     st_first l n;;
     (if negb (n =? NULL) then st_prev n NULL else st_last l NULL);;
     st_count l (λ c, c - 1);;
     st_prev e NULL;; st_next e NULL
   else mret tt);;
  mret e.

Definition xlist_extract_last (l : Z) : M xstore Z :=
  h ← ld_list l;
  let e := xl_last h in
  (if negb (e =? NULL) then
     p ← ld_prev e;
     st_last l p;;
     (if negb (p =? NULL) then st_next p NULL else st_first l NULL);;
     st_count l (λ c, c - 1);;
     st_prev e NULL;; st_next e NULL
   else mret tt);;
  mret e.

Definition xlist_insert_after_unsafe (l item e : Z) : M xstore Z :=
  st_prev e item;;
  n ← ld_next item;
  st_next e n;;
  n ← ld_next e;
  (if n =? NULL then st_last l e else st_prev n e);;
  st_next item e;;
  st_count l (λ c, c + 1);;
  mret 1.

Definition xlist_insert_after (l item e : Z) : M xstore Z :=
  found ← xlist_find l item;
  if found : bool then
    st_prev e item;;
    n ← ld_next item;
    st_next e n;;
    n ← ld_next e;
    (if n =? NULL then st_last l e else st_prev n e);;
    st_next item e;;
    st_count l (λ c, c + 1);;
    mret 1
  else mret 0.

Definition xlist_insert_before_unsafe (l item e : Z) : M xstore Z :=
  p ← ld_prev item;
  st_prev e p;;
  st_next e item;;
  p ← ld_prev e;
  (if p =? NULL then st_first l e else st_next p e);;
  st_prev item e;;
  st_count l (λ c, c + 1);;
  mret 1.

Definition xlist_insert_before (l item e : Z) : M xstore Z :=
  found ← xlist_find l item;
  if found : bool then
    p ← ld_prev item;
    st_prev e p;;
    st_next e item;;
    p ← ld_prev e;
    (if p =? NULL then st_first l e else st_next p e);;
    st_prev item e;;
    st_count l (λ c, c + 1);;
    mret 1
  else mret 0.

Definition xlist_peek_first (l : Z) : M xstore Z :=
  h ← ld_list l; mret (xl_first h).

Definition xlist_peek_last (l : Z) : M xstore Z :=
  h ← ld_list l; mret (xl_last h).

Definition xlist_peek_next (item : Z) : M xstore Z := ld_next item.

Definition xlist_peek_prev (item : Z) : M xstore Z := ld_prev item.

(** The array [elements] the routine fills is returned as the list of the values
    written at its indices 0, 1, .. *)
Fixpoint xlist_dump_loop (fuel : nat) (temp : Z) (acc : list Z) : M xstore (list Z) :=
  match fuel with
  | O => hang
  | S fuel =>
      if temp =? NULL then mret acc
      else nx ← ld_next temp; xlist_dump_loop fuel nx (acc ++ [temp])
  end.

Definition xlist_dump_elements (l : Z) : M xstore (list Z) :=
  h ← ld_list l;
  fuel ← gets search_fuel;
  xlist_dump_loop fuel (xl_first h) [].

(** ** The circular list ([clist_*])

    A circular list is an element that serves as its own header: its [next] is
    the first item, its [prev] the last one. *)

Definition clist_init (l : Z) : M xstore unit :=
  st_next l l;; st_prev l l.

Definition clist_elem_clear (e : Z) : M xstore unit :=
  st_next e NULL;; st_prev e NULL.

Definition clist_add_head (l e : Z) : M xstore unit :=
  n ← ld_next l;
  st_next e n;;
  st_prev e l;;
  n ← ld_next l;
  st_prev n e;;
  st_next l e.

Definition clist_add_tail (l e : Z) : M xstore unit :=
  p ← ld_prev l;
  st_prev e p;;
  st_next e l;;
  p ← ld_prev l;
  st_next p e;;
  st_prev l e.

Definition clist_remove (e : Z) : M xstore unit :=
  n ← ld_next e; p ← ld_prev e; st_prev n p;;
  p ← ld_prev e; n ← ld_next e; st_next p n;;
  st_next e NULL;; st_prev e NULL.

Definition clist_extract_head (l : Z) : M xstore Z :=
  n ← ld_next l;
  if negb (n =? l) then item ← ld_next l; clist_remove item;; mret item
  else mret NULL.

Definition clist_extract_tail (l : Z) : M xstore Z :=
  p ← ld_prev l;
  if negb (p =? l) then item ← ld_prev l; clist_remove item;; mret item
  else mret NULL.

Definition clist_peek_head (l : Z) : M xstore Z :=
  n ← ld_next l;
  if negb (n =? l) then ld_next l else mret NULL.

Definition clist_peek_tail (l : Z) : M xstore Z :=
  p ← ld_prev l;
  if negb (p =? l) then ld_prev l else mret NULL.

Definition clist_next (l item : Z) : M xstore Z :=
  n ← ld_next item;
  if negb (n =? l) then ld_next item else mret NULL.

Definition clist_next_wrap (l item : Z) : M xstore Z :=
  n ← ld_next item;
  if negb (n =? l) then ld_next item
  else n ← ld_next item; nn ← ld_next n;
    if negb (nn =? l) then n ← ld_next item; ld_next n
    else mret NULL.

Definition clist_isempty (l : Z) : M xstore bool :=
  n ← ld_next l; mret (n =? l).

(** [do { res++; temp = temp->next; } while(temp != list);] *)
Fixpoint clist_count_loop (fuel : nat) (l temp res : Z) : M xstore Z :=
  match fuel with
  | O => hang
  | S fuel =>
      let res := u32 (res + 1) in
      temp ← ld_next temp;
      if negb (temp =? l) then clist_count_loop fuel l temp res else mret res
  end.

Definition clist_count (l : Z) : M xstore Z :=
  fuel ← gets search_fuel; clist_count_loop fuel l l 0.

Fixpoint clist_dump_loop (fuel : nat) (l temp : Z) (acc : list Z) : M xstore (list Z) :=
  match fuel with
  | O => hang
  | S fuel =>
      let acc := acc ++ [temp] in
      temp ← ld_next temp;
      if negb (temp =? l) then clist_dump_loop fuel l temp acc else mret acc
  end.

Definition clist_dump_elements (l : Z) : M xstore (list Z) :=
  fuel ← gets search_fuel; clist_dump_loop fuel l l [].

(** ** Representation

    [seg m p xs n]: the elements [xs] are linked in this order, the [prev] of
    the first is [p] and the [next] of the last is [n]. *)
Fixpoint seg (m : gmap Z list_elem) (p : Z) (xs : list Z) (n : Z) : Prop :=
  match xs with
  | [] => True
  | x :: xs' => m !! x = Some (ListElem p (head_or n xs')) ∧ seg m x xs' n
  end.

(** The list [l] of the store holds the elements [xs], in this order. *)
Record is_xlist (s : xstore) (l : Z) (xs : list Z) : Prop := {
  ix_hdr : lists s !! l =
    Some (XListHdr (head_or NULL xs) (last_or NULL xs) (Z.of_nat (length xs)));
  ix_seg : seg (nodes s) NULL xs NULL;
  ix_nodup : NoDup xs;
  ix_valid : Forall valid_ptr xs }.

(** What a routine on list [l] may change: the header of [l] and the elements
    [es]; it neither creates nor destroys elements. *)
Record xframe (s s' : xstore) (l : Z) (es : list Z) : Prop := {
  xf_lists : ∀ l', l' ≠ l → lists s' !! l' = lists s !! l';
  xf_nodes : ∀ x, x ∉ es → nodes s' !! x = nodes s !! x;
  xf_dom : dom (nodes s') = dom (nodes s) }.

(** ** Segments *)

Lemma seg_app m p xs ys n :
  seg m p (xs ++ ys) n ↔
  seg m p xs (head_or n ys) ∧ seg m (last_or p xs) ys n.
Proof.
  revert p. induction xs as [|x xs IH]; intros p; simpl.
  - rewrite last_or_nil. tauto.
  - rewrite IH, last_or_cons, head_or_app. tauto.
Qed.

Lemma seg_frame m m' p xs n :
  (∀ x, x ∈ xs → m' !! x = m !! x) → seg m p xs n → seg m' p xs n.
Proof.
  revert p. induction xs as [|x xs IH]; intros p Hf; simpl; [done|].
  intros [Hx Hs]. split.
  - rewrite Hf; [done|left].
  - apply IH; [|done]. intros y Hy. apply Hf. by right.
Qed.

Lemma seg_dom m p xs n x : seg m p xs n → x ∈ xs → is_Some (m !! x).
Proof.
  revert p. induction xs as [|y xs IH]; intros p; simpl.
  - by intros _ ?%not_elem_of_nil.
  - intros [Hy Hs] [->|Hx]%elem_of_cons; eauto.
Qed.

Lemma seg_set_next m p xs x n v :
  NoDup (xs ++ [x]) → seg m p (xs ++ [x]) n →
  seg (alter (λ e, ListElem (le_prev e) v) x m) p (xs ++ [x]) v.
Proof.
  intros Hnd. rewrite !seg_app. simpl. intros [Hxs [Hx _]]. split_and!; [|..|done].
  - eapply seg_frame; [|done]. intros y Hy. apply lookup_alter_ne.
    intros ->. apply NoDup_app in Hnd as (_ & Hnd & _). set_solver.
  - by rewrite lookup_alter_eq, Hx.
Qed.

Lemma seg_set_prev m p x xs n v :
  NoDup (x :: xs) → seg m p (x :: xs) n →
  seg (alter (λ e, ListElem v (le_next e)) x m) v (x :: xs) n.
Proof.
  intros [Hx _]%NoDup_cons. simpl. intros [Hl Hs]. split.
  - by rewrite lookup_alter_eq, Hl.
  - eapply seg_frame; [|done]. intros y Hy. apply lookup_alter_ne. naive_solver.
Qed.

Lemma seg_middle m p l1 e l2 n :
  seg m p (l1 ++ e :: l2) n ↔
  seg m p l1 e ∧ m !! e = Some (ListElem (last_or p l1) (head_or n l2)) ∧
  seg m e l2 n.
Proof. by rewrite seg_app. Qed.

(** The walk has enough fuel: the elements of a list are distinct elements of
    the store. *)
Lemma seg_size m p xs n : NoDup xs → seg m p xs n → (length xs ≤ size m)%nat.
Proof.
  intros Hnd Hs. rewrite <- size_dom.
  rewrite <- (size_list_to_set (C := gset Z) xs) by done.
  apply subseteq_size. intros x Hx%elem_of_list_to_set.
  apply elem_of_dom. eapply seg_dom; eauto.
Qed.

(** ** Rules for the loads and stores *)

Lemma wp_ld_prev p n s Q :
  nodes s !! p = Some n → Q (le_prev n) s → wp (ld_prev p) s Q.
Proof. intros Hp HQ. eapply wp_load; [|done]. by rewrite Hp. Qed.

Lemma wp_ld_next p n s Q :
  nodes s !! p = Some n → Q (le_next n) s → wp (ld_next p) s Q.
Proof. intros Hp HQ. eapply wp_load; [|done]. by rewrite Hp. Qed.

Lemma wp_ld_list l h s Q : lists s !! l = Some h → Q h s → wp (ld_list l) s Q.
Proof. intros Hl HQ. by eapply wp_load. Qed.

Lemma wp_st_elem p f s Q :
  is_Some (nodes s !! p) → Q tt (XStore (alter f p (nodes s)) (lists s)) →
  wp (st_elem p f) s Q.
Proof.
  intros [n Hp] HQ. unfold wp, st_elem. rewrite Hp.
  assert (alter f p (nodes s) = <[p := f n]> (nodes s)) as <-; [|done].
  apply map_eq. intros i. destruct (decide (i = p)) as [->|].
  - by rewrite lookup_alter_eq, lookup_insert_eq, Hp.
  - by rewrite lookup_alter_ne, lookup_insert_ne.
Qed.

Lemma wp_st_list l f h s Q :
  lists s !! l = Some h → Q tt (XStore (nodes s) (<[l := f h]> (lists s))) →
  wp (st_list l f) s Q.
Proof. intros Hl HQ. unfold wp, st_list. by rewrite Hl. Qed.

(** ** The two halves of a list around a position

    [lpart m f l1 x]: the chain from the header's [first] pointer to [x];
    [rpart m t x l2]: the chain from [x] to the header's [last] pointer. The
    conditional stores of the unlinking and linking routines redirect one half. *)
Definition lpart (m : gmap Z list_elem) (f : Z) (l1 : list Z) (x : Z) : Prop :=
  seg m NULL l1 x ∧ f = head_or x l1.

Definition rpart (m : gmap Z list_elem) (t : Z) (x : Z) (l2 : list Z) : Prop :=
  seg m x l2 NULL ∧ t = last_or x l2.

Lemma valid_ptr_nonnull p : valid_ptr p → (p =? NULL) = false.
Proof. unfold valid_ptr, NULL. lia. Qed.

Lemma wp_link_left l h l1 x v s (Q : unit → xstore → Prop) :
  lists s !! l = Some h → lpart (nodes s) (xl_first h) l1 x →
  NoDup l1 → Forall valid_ptr l1 →
  (∀ m' f', lpart m' f' l1 v → (∀ y, y ∉ l1 → m' !! y = nodes s !! y) →
     dom m' = dom (nodes s) →
     Q tt (XStore m' (<[l := XListHdr f' (xl_last h) (xl_count h)]> (lists s)))) →
  wp (if negb (last_or NULL l1 =? NULL) then st_next (last_or NULL l1) v
      else st_first l v) s Q.
Proof.
  intros Hl [Hseg Hf] Hnd Hv HQ.
  destruct l1 as [|a l1 _] using rev_ind; simpl.
  - unfold st_first. eapply wp_st_list; [done|]. by apply HQ.
  - rewrite last_or_app. apply Forall_app in Hv as [_ [Ha _]%Forall_cons].
    rewrite (valid_ptr_nonnull a Ha). apply wp_st_elem.
    { eapply seg_dom; [done|]. set_solver. }
    rewrite <- (insert_id (lists s) l _ Hl) at 1. destruct h as [f t c].
    apply HQ; [split| |].
    + by eapply seg_set_next.
    + simpl in *. by rewrite Hf, !head_or_app.
    + intros y Hy. apply lookup_alter_ne. set_solver.
    + apply dom_alter_Z.
Qed.

Lemma wp_link_right l h x l2 v s (Q : unit → xstore → Prop) :
  lists s !! l = Some h → rpart (nodes s) (xl_last h) x l2 →
  NoDup l2 → Forall valid_ptr l2 →
  (∀ m' t', rpart m' t' v l2 → (∀ y, y ∉ l2 → m' !! y = nodes s !! y) →
     dom m' = dom (nodes s) →
     Q tt (XStore m' (<[l := XListHdr (xl_first h) t' (xl_count h)]> (lists s)))) →
  wp (if negb (head_or NULL l2 =? NULL) then st_prev (head_or NULL l2) v
      else st_last l v) s Q.
Proof.
  intros Hl [Hseg Hf] Hnd Hv HQ. destruct l2 as [|b l2]; simpl.
  - unfold st_last. eapply wp_st_list; [done|]. by apply HQ.
  - apply Forall_cons in Hv as [Hb _].
    rewrite (valid_ptr_nonnull b Hb). apply wp_st_elem.
    { eapply seg_dom; [done|]. set_solver. }
    rewrite <- (insert_id (lists s) l _ Hl) at 1. destruct h as [f t c].
    apply HQ; [split| |].
    + by eapply seg_set_prev.
    + rewrite last_or_cons in *. done.
    + intros y Hy. apply lookup_alter_ne. set_solver.
    + apply dom_alter_Z.
Qed.

(** ** Building and splitting the representation *)

Lemma is_xlist_split s l l1 e l2 :
  is_xlist s l (l1 ++ e :: l2) →
  ∃ h, lists s !! l = Some h ∧ xl_count h = Z.of_nat (length (l1 ++ e :: l2)) ∧
    lpart (nodes s) (xl_first h) l1 e ∧ rpart (nodes s) (xl_last h) e l2 ∧
    nodes s !! e = Some (ListElem (last_or NULL l1) (head_or NULL l2)) ∧
    NoDup (l1 ++ e :: l2) ∧ Forall valid_ptr (l1 ++ e :: l2).
Proof.
  intros [Hh Hs Hnd Hv]. eexists. split; [done|]. simpl.
  apply seg_middle in Hs as (Hs1 & He & Hs2). unfold lpart, rpart.
  rewrite head_or_app. simpl.
  rewrite last_or_app_app, last_or_cons. split_and!; done.
Qed.

(** The two halves joined at a new middle element, or directly. *)
Lemma is_xlist_join s l h l1 l2 :
  lists s !! l = Some h →
  lpart (nodes s) (xl_first h) l1 (head_or NULL l2) →
  rpart (nodes s) (xl_last h) (last_or NULL l1) l2 →
  xl_count h = Z.of_nat (length (l1 ++ l2)) →
  NoDup (l1 ++ l2) → Forall valid_ptr (l1 ++ l2) →
  is_xlist s l (l1 ++ l2).
Proof.
  intros Hl [Hs1 Hf] [Hs2 Ht] Hc Hnd Hv. split; [|by apply seg_app|done..].
  rewrite Hl. destruct h as [f t c]; simpl in *. subst f t c.
  rewrite head_or_app, last_or_app_app. done.
Qed.

Lemma is_xlist_join_middle s l h l1 e l2 :
  lists s !! l = Some h →
  lpart (nodes s) (xl_first h) l1 e → rpart (nodes s) (xl_last h) e l2 →
  nodes s !! e = Some (ListElem (last_or NULL l1) (head_or NULL l2)) →
  xl_count h = Z.of_nat (length (l1 ++ e :: l2)) →
  NoDup (l1 ++ e :: l2) → Forall valid_ptr (l1 ++ e :: l2) →
  is_xlist s l (l1 ++ e :: l2).
Proof.
  intros Hl [Hs1 Hf] [Hs2 Ht] He Hc Hnd Hv.
  split; [|by apply seg_middle|done..].
  rewrite Hl. destruct h as [f t c]; simpl in *. subst f t c.
  by rewrite head_or_app, last_or_app_app, last_or_cons.
Qed.

Lemma lpart_frame m m' f l1 x :
  (∀ y, y ∈ l1 → m' !! y = m !! y) → lpart m f l1 x → lpart m' f l1 x.
Proof. intros Hm [Hs Hf]. split; [by eapply seg_frame|done]. Qed.

Lemma rpart_frame m m' t x l2 :
  (∀ y, y ∈ l2 → m' !! y = m !! y) → rpart m t x l2 → rpart m' t x l2.
Proof. intros Hm [Hs Hf]. split; [by eapply seg_frame|done]. Qed.

Lemma is_xlist_frame s s' l l' es ys :
  xframe s s' l es → l' ≠ l → (∀ x, x ∈ ys → x ∉ es) →
  is_xlist s l' ys → is_xlist s' l' ys.
Proof.
  intros [Hls Hns _] Hne Hdis [Hh Hs Hnd Hv]. split; [by rewrite Hls| |done..].
  eapply seg_frame; [|done]. auto.
Qed.

Lemma is_xlist_dom s l xs x : is_xlist s l xs → x ∈ xs → is_Some (nodes s !! x).
Proof. intros [_ Hs _ _] Hx. by eapply seg_dom. Qed.

Lemma xframe_refl s l es : xframe s s l es.
Proof. by split. Qed.

Lemma xframe_trans s1 s2 s3 l es :
  xframe s1 s2 l es → xframe s2 s3 l es → xframe s1 s3 l es.
Proof.
  intros [Hl1 Hn1 Hd1] [Hl2 Hn2 Hd2]. split.
  - intros. by rewrite Hl2, Hl1.
  - intros. by rewrite Hn2, Hn1.
  - by rewrite Hd2.
Qed.

Lemma u32_count n : 0 ≤ n < 2 ^ 32 → u32 n = n.
Proof. apply uwrap_small. Qed.

Lemma is_xlist_count s l xs :
  is_xlist s l xs → 0 ≤ Z.of_nat (length xs) < 2 ^ 32.
Proof.
  intros [_ _ Hnd Hv]. split; [lia|]. by apply NoDup_valid_ptr_length.
Qed.

(** ** Specifications of the routines *)

Lemma wp_xlist_remove_unsafe s l l1 e l2 Q :
  is_xlist s l (l1 ++ e :: l2) →
  (∀ s', is_xlist s' l (l1 ++ l2) → xframe s s' l (l1 ++ e :: l2) →
     nodes s' !! e = Some (ListElem NULL NULL) → Q 1 s') →
  wp (xlist_remove_unsafe l e) s Q.
Proof.
  intros Hx HQ. pose proof (is_xlist_count _ _ _ Hx) as Hcnt.
  apply is_xlist_split in Hx as (h & Hl & Hc & HL & HR & He & Hnd & Hv).
  apply NoDup_middle in Hnd as (Hnd & He1 & He2).
  apply Forall_middle in Hv as [Hve Hv].
  pose proof Hnd as (Hnd1 & Hdis & Hnd2)%NoDup_app.
  pose proof Hv as [Hv1 Hv2]%Forall_app.
  unfold xlist_remove_unsafe. wp_go. eapply wp_ld_prev; [done|]. wp_go.
  eapply wp_ld_next; [done|]. wp_go.
  eapply wp_link_left; [done..|]. intros m1 f1 HL1 Hm1 Hd1. wp_go.
  assert (m1 !! e = Some (ListElem (last_or NULL l1) (head_or NULL l2))) as He'.
  { by rewrite Hm1. }
  eapply wp_ld_next; [exact He'|]. wp_go. eapply wp_ld_prev; [exact He'|]. wp_go.
  eapply wp_link_right with (h := XListHdr f1 (xl_last h) (xl_count h)) (x := e);
    [simpl; by rewrite lookup_insert_eq| |done|done|].
  { simpl. eapply rpart_frame; [|done]. intros y Hy. apply Hm1. set_solver. }
  intros m2 t2 HR2 Hm2 Hd2. wp_go. simpl.
  eapply wp_st_list; [simpl; by rewrite lookup_insert_eq|]. wp_go.
  rewrite !insert_insert_eq. simpl in *.
  apply wp_st_elem. { simpl. by rewrite Hm2, He'. } wp_go.
  apply wp_st_elem. { simpl. by rewrite lookup_alter_eq, Hm2, He'. } wp_go.
  rewrite length_app in Hc, Hcnt. simpl in Hc, Hcnt.
  apply HQ.
  - eapply is_xlist_join; [simpl; by rewrite lookup_insert_eq|..]; simpl; [| |..|done|done].
    + eapply lpart_frame; [|exact HL1]. intros y Hy.
      rewrite !lookup_alter_ne by (intros ->; done). apply Hm2. set_solver.
    + eapply rpart_frame; [|exact HR2]. intros y Hy.
      by rewrite !lookup_alter_ne by (intros ->; done).
    + rewrite length_app, u32_count; lia.
  - split; simpl.
    + intros l' ?. by rewrite !lookup_insert_ne by congruence.
    + intros x Hx. rewrite !lookup_alter_ne by set_solver.
      rewrite Hm2, Hm1 by set_solver. done.
    + by rewrite !dom_alter_Z, Hd2, Hd1.
  - simpl. by rewrite !lookup_alter_eq, Hm2, He'.
Qed.

(** The search walks the rest of the list and leaves the store alone. *)
Lemma wp_xlist_search fuel p xs item s (Q : bool → xstore → Prop) :
  (length xs < fuel)%nat → seg (nodes s) p xs NULL → Forall valid_ptr xs →
  Q (bool_decide (item ∈ xs)) s →
  wp (xlist_search fuel (head_or NULL xs) item) s Q.
Proof.
  revert p xs. induction fuel as [|fuel IH]; intros p xs Hf Hs Hv HQ; [lia|].
  destruct xs as [|x xs]; simpl in Hf, Hs |- *.
  - rewrite bool_decide_eq_false_2 in HQ by apply not_elem_of_nil. by apply wp_ret.
  - apply Forall_cons in Hv as [Hx Hv]. destruct Hs as [Hn Hs].
    rewrite (valid_ptr_nonnull x Hx). destruct (x =? item) eqn:E; bool_to_prop.
    + subst. rewrite bool_decide_eq_true_2 in HQ by left. by apply wp_ret.
    + apply wp_bind. eapply wp_ld_next; [done|]. simpl.
      eapply IH; [lia|done..|].
      rewrite (bool_decide_ext _ (item ∈ x :: xs)); [done|]. set_solver.
Qed.

Lemma wp_xlist_find s l xs item (Q : bool → xstore → Prop) :
  is_xlist s l xs → Q (bool_decide (item ∈ xs)) s → wp (xlist_find l item) s Q.
Proof.
  intros [Hh Hs Hnd Hv] HQ. unfold xlist_find. wp_go.
  eapply wp_ld_list; [done|]. wp_go. cbn [xl_first]. eapply wp_xlist_search; [|done..].
  unfold search_fuel. pose proof (seg_size _ _ _ _ Hnd Hs). lia.
Qed.

(** [xlist_remove] finds its element in the list or changes nothing. *)
Lemma wp_xlist_remove_in s l l1 e l2 Q :
  is_xlist s l (l1 ++ e :: l2) →
  (∀ s', is_xlist s' l (l1 ++ l2) → xframe s s' l (l1 ++ e :: l2) →
     nodes s' !! e = Some (ListElem NULL NULL) → Q 1 s') →
  wp (xlist_remove l e) s Q.
Proof.
  intros Hx HQ. unfold xlist_remove. wp_go. eapply wp_xlist_find; [done|].
  rewrite bool_decide_eq_true_2 by set_solver.
  by eapply (wp_xlist_remove_unsafe s l l1 e l2).
Qed.

Lemma wp_xlist_remove_notin s l xs e (Q : Z → xstore → Prop) :
  is_xlist s l xs → e ∉ xs → Q 0 s → wp (xlist_remove l e) s Q.
Proof.
  intros Hx He HQ. unfold xlist_remove. wp_go. eapply wp_xlist_find; [done|].
  rewrite bool_decide_eq_false_2 by done. by apply wp_ret.
Qed.

Lemma wp_xlist_add_last s l xs e Q :
  is_xlist s l xs → e ∉ xs → valid_ptr e → is_Some (nodes s !! e) →
  (∀ s', is_xlist s' l (xs ++ [e]) → xframe s s' l (e :: xs) → Q 1 s') →
  wp (xlist_add_last l e) s Q.
Proof.
  intros [Hh Hs Hnd Hv] Hnin Hve [n Hn] HQ. unfold xlist_add_last. wp_go.
  eapply wp_ld_list; [done|]. wp_go. simpl.
  assert (is_xlist_new : NoDup (xs ++ [e]) ∧ Forall valid_ptr (xs ++ [e])).
  { rewrite NoDup_app, Forall_app, Forall_singleton.
    split_and!; [done|set_solver|apply NoDup_singleton|done|done]. }
  destruct is_xlist_new as [Hnd' Hv'].
  pose proof (NoDup_valid_ptr_length _ Hnd' Hv') as Hlen.
  rewrite length_app in Hlen; simpl in Hlen.
  destruct xs as [|x xs _] using rev_ind; simpl.
  - wp_go. apply wp_st_elem; [by rewrite Hn|]. wp_go.
    apply wp_st_elem; [simpl; by rewrite lookup_alter_eq, Hn|]. wp_go.
    eapply wp_st_list; [done|]. wp_go.
    eapply wp_st_list; [simpl; by rewrite lookup_insert_eq|]. wp_go.
    eapply wp_st_list; [simpl; by rewrite lookup_insert_eq|]. wp_go.
    apply HQ; split; simpl.
    + by rewrite !lookup_insert_eq.
    + by rewrite !lookup_alter_eq, Hn.
    + done.
    + done.
    + intros. by rewrite !lookup_insert_ne by congruence.
    + intros. by rewrite !lookup_alter_ne by set_solver.
    + by rewrite !dom_alter_Z.
  - rewrite last_or_app. pose proof Hv as [_ [Hx _]%Forall_cons]%Forall_app.
    rewrite (valid_ptr_nonnull x Hx). wp_go.
    assert (x ≠ e) by set_solver.
    pose proof Hs as [Hs1 [Hxl _]]%seg_app. simpl in Hxl.
    apply wp_st_elem; [by rewrite Hxl|]. wp_go.
    apply wp_st_elem; [simpl; by rewrite lookup_alter_ne, Hn by done|]. wp_go.
    apply wp_st_elem; [simpl; by rewrite lookup_alter_eq, lookup_alter_ne, Hn by done|].
    wp_go. eapply wp_st_list; [done|]. wp_go.
    eapply wp_st_list; [simpl; by rewrite lookup_insert_eq|]. wp_go.
    apply HQ; split; simpl.
    + rewrite !lookup_insert_eq, last_or_app, head_or_app, <- head_or_app.
      simpl. do 2 f_equal; [by destruct xs|]. rewrite !length_app, u32_count; simpl;
      rewrite length_app in Hlen; simpl in Hlen; lia.
    + rewrite seg_app, last_or_app. simpl. split; [|split; [|done]].
      * eapply seg_frame; [|by eapply seg_set_next].
        intros y Hy. by rewrite !lookup_alter_ne by set_solver.
      * by rewrite !lookup_alter_eq, lookup_alter_ne, Hn by done.
    + done.
    + done.
    + intros. by rewrite !lookup_insert_ne by congruence.
    + intros. by rewrite !lookup_alter_ne by set_solver.
    + by rewrite !dom_alter_Z.
Qed.

(** The fresh element of an insertion fits the list. *)
Lemma fresh_middle l1 e l2 :
  NoDup (l1 ++ l2) → Forall valid_ptr (l1 ++ l2) → e ∉ l1 ++ l2 → valid_ptr e →
  NoDup (l1 ++ e :: l2) ∧ Forall valid_ptr (l1 ++ e :: l2) ∧
  Z.of_nat (length (l1 ++ l2)) + 1 < 2 ^ 32.
Proof.
  intros Hnd Hv He Hve.
  assert (NoDup (l1 ++ e :: l2)) as Hnd'. { apply NoDup_middle. set_solver. }
  assert (Forall valid_ptr (l1 ++ e :: l2)) as Hv' by by apply Forall_middle.
  pose proof (NoDup_valid_ptr_length _ Hnd' Hv') as Hl.
  split_and!; [done..|]. rewrite length_app in *. simpl in *. lia.
Qed.

Lemma wp_xlist_add_first s l xs e Q :
  is_xlist s l xs → e ∉ xs → valid_ptr e → is_Some (nodes s !! e) →
  (∀ s', is_xlist s' l (e :: xs) → xframe s s' l (e :: xs) → Q 1 s') →
  wp (xlist_add_first l e) s Q.
Proof.
  intros [Hh Hs Hnd Hv] Hnin Hve [n Hn] HQ. unfold xlist_add_first. wp_go.
  eapply wp_ld_list; [done|]. wp_go. simpl.
  destruct (fresh_middle [] e xs) as (Hnd' & Hv' & Hlen); [done..|]. simpl in *.
  destruct xs as [|x xs]; simpl.
  - wp_go. apply wp_st_elem; [by rewrite Hn|]. wp_go.
    apply wp_st_elem; [simpl; by rewrite lookup_alter_eq, Hn|]. wp_go.
    eapply wp_st_list; [done|]. wp_go.
    eapply wp_st_list; [simpl; by rewrite lookup_insert_eq|]. wp_go.
    eapply wp_st_list; [simpl; by rewrite lookup_insert_eq|]. wp_go.
    apply HQ; split; simpl; try done.
    + by rewrite !lookup_insert_eq.
    + by rewrite !lookup_alter_eq, Hn.
    + intros. by rewrite !lookup_insert_ne by congruence.
    + intros. by rewrite !lookup_alter_ne by set_solver.
    + by rewrite !dom_alter_Z.
  - pose proof Hv as [Hx _]%Forall_cons. pose proof Hs as [Hxl Hs'].
    rewrite (valid_ptr_nonnull x Hx). wp_go. assert (x ≠ e) by set_solver.
    apply wp_st_elem; [by rewrite Hxl|]. wp_go.
    apply wp_st_elem; [simpl; by rewrite lookup_alter_ne, Hn by done|]. wp_go.
    apply wp_st_elem; [simpl; by rewrite lookup_alter_eq, lookup_alter_ne, Hn by done|].
    wp_go. eapply wp_st_list; [done|]. wp_go.
    eapply wp_st_list; [simpl; by rewrite lookup_insert_eq|]. wp_go.
    apply HQ; split; simpl; try done.
    + rewrite !lookup_insert_eq, !last_or_cons. simpl. do 2 f_equal.
      rewrite u32_count; simpl in *; lia.
    + split_and!.
      * by rewrite !lookup_alter_eq, lookup_alter_ne, Hn by done.
      * by rewrite !lookup_alter_ne, lookup_alter_eq, Hxl by done.
      * eapply seg_frame; [|done]. intros y Hy.
        apply NoDup_cons in Hnd as [??].
        by rewrite !lookup_alter_ne by set_solver.
    + intros. by rewrite !lookup_insert_ne by congruence.
    + intros. by rewrite !lookup_alter_ne by set_solver.
    + by rewrite !dom_alter_Z.
Qed.

(** Inserting after [item] and before [item]: the element [e] enters between the
    halves around a position. *)
Lemma wp_xlist_insert_after_unsafe s l l1 item l2 e Q :
  is_xlist s l (l1 ++ item :: l2) → e ∉ l1 ++ item :: l2 → valid_ptr e →
  is_Some (nodes s !! e) →
  (∀ s', is_xlist s' l (l1 ++ item :: e :: l2) →
     xframe s s' l (e :: l1 ++ item :: l2) → Q 1 s') →
  wp (xlist_insert_after_unsafe l item e) s Q.
Proof.
  intros Hx Hnin Hve [n Hn] HQ.
  apply is_xlist_split in Hx as (h & Hl & Hc & HL & HR & Hi & Hnd & Hv).
  destruct (fresh_middle (l1 ++ [item]) e l2) as (Hnd' & Hv' & Hlen);
    [by rewrite <- app_assoc..|done|].
  rewrite <- !app_assoc in Hnd', Hv'. simpl in Hnd', Hv'.
  assert (item ≠ e) by set_solver.
  pose proof Hnd as (_ & Hi1 & Hi2)%NoDup_middle.
  pose proof Hnd as (_ & _ & [_ Hnd2]%NoDup_cons)%NoDup_app.
  pose proof Hv as [_ [_ Hv2]%Forall_cons]%Forall_app.
  unfold xlist_insert_after_unsafe. wp_go.
  apply wp_st_elem; [by rewrite Hn|]. wp_go.
  eapply wp_ld_next; [simpl; by rewrite lookup_alter_ne, Hi by done|]. wp_go.
  apply wp_st_elem; [simpl; by rewrite lookup_alter_eq, Hn|]. wp_go.
  eapply wp_ld_next; [simpl; by rewrite !lookup_alter_eq, Hn|]. wp_go. simpl.
  rewrite if_flip. eapply (wp_link_right l h item l2 e); [done| |done|done|].
  { simpl. eapply rpart_frame; [|done]. intros y Hy.
    by rewrite !lookup_alter_ne by set_solver. }
  intros m2 t2 HR2 Hm2 Hd2. simpl in *. wp_go.
  rewrite !dom_alter_Z in Hd2.
  apply wp_st_elem; [simpl; by rewrite Hm2, !lookup_alter_ne, Hi by set_solver|].
  wp_go. eapply wp_st_list; [simpl; by rewrite lookup_insert_eq|]. wp_go.
  apply HQ; [|split; simpl].
  - replace (l1 ++ item :: e :: l2) with ((l1 ++ [item]) ++ e :: l2)
      by by rewrite <- app_assoc.
    eapply is_xlist_join_middle; simpl; [by rewrite lookup_insert_eq|..]; simpl.
    + destruct HL as [Hs1 ->]. split; [|by rewrite head_or_app].
      eapply (seg_set_next _ _ _ _ (head_or NULL l2)).
      { rewrite NoDup_app in Hnd |- *. set_solver by eauto using NoDup_singleton. }
      apply seg_app; split; [|split; [|done]].
      * eapply seg_frame; [|exact Hs1]. intros y Hy.
        rewrite NoDup_app in Hnd. by rewrite Hm2, !lookup_alter_ne by set_solver.
      * by rewrite Hm2, !lookup_alter_ne, Hi by set_solver.
    + eapply rpart_frame; [|exact HR2]. intros y Hy.
      by rewrite lookup_alter_ne by set_solver.
    + rewrite lookup_alter_ne by done.
      by rewrite Hm2, !lookup_alter_eq, Hn, last_or_app by set_solver.
    + rewrite !length_app in *. simpl in *. rewrite u32_count; lia.
    + by rewrite <- app_assoc.
    + by rewrite <- app_assoc.
  - intros. by rewrite !lookup_insert_ne by congruence.
  - intros. rewrite lookup_alter_ne, Hm2, !lookup_alter_ne by set_solver. done.
  - by rewrite !dom_alter_Z.
Qed.

Lemma wp_xlist_insert_before_unsafe s l l1 item l2 e Q :
  is_xlist s l (l1 ++ item :: l2) → e ∉ l1 ++ item :: l2 → valid_ptr e →
  is_Some (nodes s !! e) →
  (∀ s', is_xlist s' l (l1 ++ e :: item :: l2) →
     xframe s s' l (e :: l1 ++ item :: l2) → Q 1 s') →
  wp (xlist_insert_before_unsafe l item e) s Q.
Proof.
  intros Hx Hnin Hve [n Hn] HQ.
  apply is_xlist_split in Hx as (h & Hl & Hc & HL & HR & Hi & Hnd & Hv).
  destruct (fresh_middle l1 e (item :: l2)) as (Hnd' & Hv' & Hlen); [done..|].
  assert (item ≠ e) by set_solver.
  pose proof Hnd as (_ & Hi1 & Hi2)%NoDup_middle.
  pose proof Hnd as (Hnd1 & _ & _)%NoDup_app.
  pose proof Hv as [Hv1 _]%Forall_app.
  unfold xlist_insert_before_unsafe. wp_go.
  eapply wp_ld_prev; [simpl; by rewrite Hi|]. wp_go.
  apply wp_st_elem; [by rewrite Hn|]. wp_go.
  apply wp_st_elem; [simpl; by rewrite lookup_alter_eq, Hn|]. wp_go.
  eapply wp_ld_prev; [simpl; by rewrite !lookup_alter_eq, Hn|]. wp_go. simpl.
  rewrite if_flip. eapply (wp_link_left l h l1 item e); [done| |done|done|].
  { simpl. eapply lpart_frame; [|done]. intros y Hy.
    by rewrite !lookup_alter_ne by set_solver. }
  intros m2 f2 HL2 Hm2 Hd2. simpl in *. wp_go.
  rewrite !dom_alter_Z in Hd2.
  apply wp_st_elem; [simpl; by rewrite Hm2, !lookup_alter_ne, Hi by set_solver|].
  wp_go. eapply wp_st_list; [simpl; by rewrite lookup_insert_eq|]. wp_go.
  apply HQ; [|split; simpl].
  - eapply is_xlist_join_middle; simpl; [by rewrite lookup_insert_eq|..]; simpl.
    + eapply lpart_frame; [|exact HL2]. intros y Hy.
      by rewrite lookup_alter_ne by set_solver.
    + destruct HR as [Hs2 ->]. split; [|by rewrite last_or_cons].
      simpl. split.
      * by rewrite lookup_alter_eq, Hm2, !lookup_alter_ne, Hi by set_solver.
      * eapply seg_frame; [|exact Hs2]. intros y Hy.
        rewrite NoDup_app in Hnd.
        by rewrite lookup_alter_ne, Hm2, !lookup_alter_ne by set_solver.
    + rewrite lookup_alter_ne by done.
      by rewrite Hm2, !lookup_alter_eq, Hn by set_solver.
    + rewrite !length_app in *. simpl in *. rewrite u32_count; lia.
    + done.
    + done.
  - intros. by rewrite !lookup_insert_ne by congruence.
  - intros. rewrite lookup_alter_ne, Hm2, !lookup_alter_ne by set_solver. done.
  - by rewrite !dom_alter_Z.
Qed.

(** The extractions: the element leaves the list reset to its initial state, an
    empty list yields [NULL] and stays as it is. *)
Lemma wp_xlist_extract_first s l xs Q :
  is_xlist s l xs →
  (xs = [] → Q NULL s) →
  (∀ x xs' s', xs = x :: xs' → is_xlist s' l xs' → xframe s s' l xs →
     nodes s' !! x = Some (ListElem NULL NULL) → Q x s') →
  wp (xlist_extract_first l) s Q.
Proof.
  intros Hx HQ0 HQ. pose proof Hx as [Hh Hs Hnd Hv].
  unfold xlist_extract_first. wp_go. eapply wp_ld_list; [done|]. wp_go.
  destruct xs as [|x xs]; cbn [xl_first head_or]; [by apply HQ0|].
  pose proof Hv as [Hvx Hvs]%Forall_cons. rewrite (valid_ptr_nonnull x Hvx).
  pose proof Hs as [Hxl Hs']. wp_go. simpl. wp_go.
  eapply wp_ld_next; [done|]. wp_go.
  eapply wp_st_list; [done|]. wp_go. cbn [le_next xl_first xl_last xl_count].
  pose proof Hnd as [Hxn Hnds]%NoDup_cons.
  eapply (wp_link_right l _ x xs NULL _ _); [simpl; by rewrite lookup_insert_eq| |done|done|].
  { simpl. split; [done|]. by rewrite last_or_cons. }
  intros m2 t2 HR2 Hm2 Hd2. simpl in *. wp_go.
  eapply wp_st_list; [simpl; by rewrite lookup_insert_eq|]. wp_go.
  apply wp_st_elem; [simpl; by rewrite Hm2, Hxl|]. wp_go.
  apply wp_st_elem; [simpl; by rewrite lookup_alter_eq, Hm2, Hxl|]. wp_go.
  pose proof (is_xlist_count _ _ _ Hx) as Hc. simpl in Hc.
  eapply (HQ x xs); [done| |split; simpl|simpl].
  - apply (is_xlist_join _ l (XListHdr (head_or NULL xs) t2 (Z.of_nat (length xs))) [] xs);
      simpl; [| |..|done|done].
    + rewrite lookup_insert_eq. simpl. do 2 f_equal. rewrite u32_count; lia.
    + done.
    + eapply rpart_frame; [|exact HR2]. intros y Hy.
      by rewrite !lookup_alter_ne by set_solver.
    + done.
  - intros. by rewrite !lookup_insert_ne by congruence.
  - intros. rewrite !lookup_alter_ne, Hm2 by set_solver. done.
  - by rewrite !dom_alter_Z.
  - by rewrite !lookup_alter_eq, Hm2, Hxl.
Qed.

Lemma wp_xlist_extract_last s l xs Q :
  is_xlist s l xs →
  (xs = [] → Q NULL s) →
  (∀ x xs' s', xs = xs' ++ [x] → is_xlist s' l xs' → xframe s s' l xs →
     nodes s' !! x = Some (ListElem NULL NULL) → Q x s') →
  wp (xlist_extract_last l) s Q.
Proof.
  intros Hx HQ0 HQ. pose proof Hx as [Hh Hs Hnd Hv].
  unfold xlist_extract_last. wp_go. eapply wp_ld_list; [done|]. wp_go.
  destruct xs as [|x xs _] using rev_ind; [by apply HQ0|].
  cbn [xl_last]. rewrite last_or_app.
  pose proof Hv as [Hvs [Hvx _]%Forall_cons]%Forall_app.
  rewrite (valid_ptr_nonnull x Hvx).
  pose proof Hs as (Hs' & Hxl & _)%seg_app. simpl in Hs', Hxl. simpl. wp_go.
  eapply wp_ld_prev; [done|]. wp_go.
  eapply wp_st_list; [done|]. wp_go. cbn [le_prev xl_first xl_last xl_count].
  pose proof Hnd as (Hnds & Hxn & _)%NoDup_app.
  eapply (wp_link_left l _ xs x NULL _ _); [simpl; by rewrite lookup_insert_eq| |done|done|].
  { simpl. split; [done|]. by rewrite head_or_app. }
  intros m2 f2 HL2 Hm2 Hd2. simpl in *. wp_go.
  eapply wp_st_list; [simpl; by rewrite lookup_insert_eq|]. wp_go.
  apply wp_st_elem; [simpl; by rewrite Hm2, Hxl by set_solver|]. wp_go.
  apply wp_st_elem; [simpl; by rewrite lookup_alter_eq, Hm2, Hxl by set_solver|]. wp_go.
  pose proof (is_xlist_count _ _ _ Hx) as Hc. rewrite length_app in Hc. simpl in Hc.
  eapply (HQ x xs); [done| |split; simpl|simpl].
  - assert (xs = xs ++ []) as -> by by rewrite app_nil_r.
    apply (is_xlist_join _ l (XListHdr f2 (last_or NULL xs) (Z.of_nat (length xs))) xs []);
      simpl; rewrite ?app_nil_r; [| |done|done..].
    + rewrite !lookup_insert_eq, ?app_nil_r. simpl. do 2 f_equal.
      rewrite length_app, u32_count; simpl; lia.
    + eapply lpart_frame; [|exact HL2]. intros y Hy.
      by rewrite !lookup_alter_ne by set_solver.
  - intros. by rewrite !lookup_insert_ne by congruence.
  - intros. rewrite !lookup_alter_ne, Hm2 by set_solver. done.
  - by rewrite !dom_alter_Z.
  - by rewrite !lookup_alter_eq, Hm2, Hxl by set_solver.
Qed.

Lemma wp_xlist_init s l Q :
  is_Some (lists s !! l) →
  (∀ s', is_xlist s' l [] → xframe s s' l [] → Q 1 s') →
  wp (xlist_init l) s Q.
Proof.
  intros [h Hl] HQ. unfold xlist_init. wp_go.
  eapply wp_st_list; [done|]. wp_go.
  do 2 (eapply wp_st_list; [simpl; by rewrite lookup_insert_eq|]; wp_go).
  apply HQ; split; simpl; try done.
  - by rewrite !lookup_insert_eq.
  - constructor.
  - intros. by rewrite !lookup_insert_ne by congruence.
Qed.

Lemma wp_xlist_elem_init s e (Q : Z → xstore → Prop) :
  e ∈ dom (nodes s) → Q 1 (XStore (<[e := ListElem NULL NULL]> (nodes s)) (lists s)) →
  wp (xlist_elem_init e) s Q.
Proof.
  intros [n Hn]%elem_of_dom HQ. unfold xlist_elem_init, st_next, st_prev. wp_go.
  unfold wp at 1, st_elem. rewrite Hn. wp_go. unfold wp at 1, st_elem. cbn [nodes lists].
  rewrite lookup_insert_eq, insert_insert_eq. by wp_go.
Qed.

Lemma wp_xlist_isempty s l xs Q :
  is_xlist s l xs → Q (if decide (xs = []) then 1 else 0) s →
  wp (xlist_isempty l) s Q.
Proof.
  intros [Hh _ _ _] HQ. unfold xlist_isempty. wp_go.
  eapply wp_ld_list; [done|]. wp_go. by destruct xs.
Qed.

Lemma wp_xlist_peek_first s l xs Q :
  is_xlist s l xs → Q (head_or NULL xs) s → wp (xlist_peek_first l) s Q.
Proof.
  intros [Hh _ _ _] HQ. unfold xlist_peek_first. wp_go.
  eapply wp_ld_list; [done|]. by wp_go.
Qed.

Lemma wp_xlist_peek_last s l xs Q :
  is_xlist s l xs → Q (last_or NULL xs) s → wp (xlist_peek_last l) s Q.
Proof.
  intros [Hh _ _ _] HQ. unfold xlist_peek_last. wp_go.
  eapply wp_ld_list; [done|]. by wp_go.
Qed.

Lemma wp_xlist_dump_loop fuel p xs acc s Q :
  (length xs < fuel)%nat → seg (nodes s) p xs NULL → Forall valid_ptr xs →
  Q (acc ++ xs) s → wp (xlist_dump_loop fuel (head_or NULL xs) acc) s Q.
Proof.
  revert p xs acc.
  induction fuel as [|fuel IH]; intros p xs acc Hf Hs Hv HQ; [lia|].
  destruct xs as [|x xs]; simpl in Hf, Hs |- *.
  - apply wp_ret. by rewrite app_nil_r in HQ.
  - apply Forall_cons in Hv as [Hx Hv]. destruct Hs as [Hn Hs].
    rewrite (valid_ptr_nonnull x Hx). apply wp_bind.
    eapply wp_ld_next; [done|]. simpl. eapply IH; [lia|done..|].
    by rewrite <- app_assoc.
Qed.

Lemma wp_xlist_dump_elements s l xs Q :
  is_xlist s l xs → Q xs s → wp (xlist_dump_elements l) s Q.
Proof.
  intros [Hh Hs Hnd Hv] HQ. unfold xlist_dump_elements. wp_go.
  eapply wp_ld_list; [done|]. wp_go. cbn [xl_first].
  eapply wp_xlist_dump_loop; [|done..].
  unfold search_fuel. pose proof (seg_size _ _ _ _ Hnd Hs). lia.
Qed.

(** ** Circular lists

    [ring m ys]: the elements [ys] are linked in a cycle. A rotation of a ring is
    the same ring, so every position of a circular list is the middle. *)

Definition ring (m : gmap Z list_elem) (ys : list Z) : Prop :=
  seg m (last_or NULL ys) ys (head_or NULL ys).

Record is_clist (s : xstore) (l : Z) (xs : list Z) : Prop := {
  ic_ring : ring (nodes s) (l :: xs);
  ic_nodup : NoDup (l :: xs);
  ic_valid : Forall valid_ptr (l :: xs) }.

Lemma ring_rot m l1 l2 : ring m (l1 ++ l2) ↔ ring m (l2 ++ l1).
Proof.
  destruct l1 as [|a l1]; [by rewrite app_nil_r|].
  destruct l2 as [|b l2]; [by rewrite app_nil_r|].
  unfold ring. rewrite !seg_app, !last_or_app_app, !head_or_app, !last_or_cons.
  simpl. tauto.
Qed.

Definition set_prev (p v : Z) : gmap Z list_elem → gmap Z list_elem :=
  alter (λ n, ListElem v (le_next n)) p.

Definition set_next (p v : Z) : gmap Z list_elem → gmap Z list_elem :=
  alter (λ n, ListElem (le_prev n) v) p.

Lemma set_prev_next_comm p v q w m :
  set_prev p v (set_next q w m) = set_next q w (set_prev p v m).
Proof.
  unfold set_prev, set_next. destruct (decide (p = q)) as [->|].
  - apply map_eq. intros i. destruct (decide (i = q)) as [->|].
    + rewrite !lookup_alter_eq. by destruct (m !! q).
    + by rewrite !lookup_alter_ne.
  - by apply alter_alter_ne.
Qed.

(** Entering a fresh element [e] between [a] and its successor. *)
Lemma ring_insert m a ys e :
  NoDup (e :: a :: ys) → ring m (a :: ys) →
  m !! e = Some (ListElem a (head_or a ys)) →
  ring (set_next a e (set_prev (head_or a ys) e m)) (a :: e :: ys).
Proof.
  intros [Hea [Hay Hys]%NoDup_cons]%NoDup_cons Hr He.
  unfold ring in *. rewrite !last_or_cons in *. simpl in *.
  destruct Hr as [Ha Hs]. destruct ys as [|y ys]; simpl in *.
  - unfold set_next, set_prev. rewrite last_or_nil in Ha.
    rewrite !lookup_alter_eq, Ha. simpl. split_and!; [done| |done].
    by rewrite !lookup_alter_ne by set_solver.
  - destruct Hs as [Hy Hs]. unfold set_next, set_prev. split_and!.
    + rewrite lookup_alter_eq, lookup_alter_ne, Ha by set_solver.
      by rewrite !last_or_cons.
    + by rewrite !lookup_alter_ne by set_solver.
    + by rewrite lookup_alter_ne, lookup_alter_eq, Hy by set_solver.
    + eapply seg_frame; [|done]. intros z Hz.
      apply NoDup_cons in Hys as [??].
      by rewrite !lookup_alter_ne by set_solver.
Qed.

(** Closing the ring over a removed element [e]. *)
Lemma ring_delete m e ys :
  ys ≠ [] → NoDup (e :: ys) → ring m (e :: ys) →
  ring (set_next (last_or NULL ys) (head_or NULL ys)
         (set_prev (head_or NULL ys) (last_or NULL ys) m)) ys.
Proof.
  intros Hne [He Hnd]%NoDup_cons Hr. unfold ring in *.
  rewrite last_or_cons in Hr. simpl in Hr. destruct Hr as [_ Hs].
  destruct ys as [|y ys]; [done|]. cbn [head_or] in *.
  apply (seg_set_prev _ _ _ _ _ (last_or NULL (y :: ys))) in Hs; [|done].
  destruct (exists_last (l := y :: ys)) as (zs & z & E); [done|].
  rewrite E in Hs |- *. rewrite last_or_app in *.
  apply seg_set_next with (n := e); [by rewrite <- E|done].
Qed.

(** What a routine on a circular list may change: the elements [es]. *)
Record nframe (s s' : xstore) (es : list Z) : Prop := {
  nf_lists : lists s' = lists s;
  nf_nodes : ∀ x, x ∉ es → nodes s' !! x = nodes s !! x;
  nf_dom : dom (nodes s') = dom (nodes s) }.

Lemma is_clist_frame s s' l es ys :
  nframe s s' es → (∀ x, x ∈ l :: ys → x ∉ es) → is_clist s l ys → is_clist s' l ys.
Proof.
  intros [_ Hn _] Hdis [Hr Hnd Hv]. split; [|done..].
  eapply seg_frame; [|done]. auto.
Qed.

Lemma ring_lookup m l ys :
  ring m (l :: ys) → m !! l = Some (ListElem (last_or l ys) (head_or l ys)).
Proof. unfold ring. rewrite last_or_cons. by intros [? _]. Qed.

Lemma ring_size m ys : NoDup ys → ring m ys → (length ys ≤ size m)%nat.
Proof. apply seg_size. Qed.

Lemma wp_clist_init s l Q :
  valid_ptr l → is_Some (nodes s !! l) →
  (∀ s', is_clist s' l [] → nframe s s' [l] → Q tt s') →
  wp (clist_init l) s Q.
Proof.
  intros Hv [n Hn] HQ. unfold clist_init. wp_go.
  apply wp_st_elem; [by rewrite Hn|].
  apply wp_st_elem; [simpl; by rewrite lookup_alter_eq, Hn|].
  apply HQ; split; simpl.
  - split; [|done]. by rewrite !lookup_alter_eq, Hn.
  - apply NoDup_singleton.
  - by apply Forall_singleton.
  - done.
  - intros. by rewrite !lookup_alter_ne by set_solver.
  - by rewrite !dom_alter_Z.
Qed.

Lemma wp_clist_add_head s l xs e Q :
  is_clist s l xs → e ∉ l :: xs → valid_ptr e → is_Some (nodes s !! e) →
  (∀ s', is_clist s' l (e :: xs) → nframe s s' (e :: l :: xs) → Q tt s') →
  wp (clist_add_head l e) s Q.
Proof.
  intros [Hr Hnd Hv] Hnin Hve [n Hn] HQ. unfold clist_add_head. wp_go.
  pose proof (ring_lookup _ _ _ Hr) as Hl. assert (l ≠ e) by set_solver.
  eapply wp_ld_next; [done|]. wp_go. simpl.
  apply wp_st_elem; [by rewrite Hn|]. wp_go.
  apply wp_st_elem; [simpl; by rewrite lookup_alter_eq, Hn|]. wp_go.
  eapply wp_ld_next; [simpl; by rewrite !lookup_alter_ne, Hl by done|]. wp_go. simpl.
  assert (head_or l xs ≠ e) by (destruct xs; set_solver).
  apply wp_st_elem.
  { simpl. rewrite !lookup_alter_ne by done. eapply seg_dom; [exact Hr|].
    destruct xs; set_solver. }
  wp_go. apply wp_st_elem.
  { simpl. destruct (decide (l = head_or l xs)) as [E|].
    - by rewrite <- E, lookup_alter_eq, !lookup_alter_ne, Hl by done.
    - by rewrite !lookup_alter_ne, Hl by done. }
  assert (NoDup (e :: l :: xs)) as Hnd' by by apply NoDup_cons.
  apply HQ; split; simpl.
  - apply ring_insert; [done| |by rewrite !lookup_alter_eq, Hn].
    eapply seg_frame; [|exact Hr]. intros y Hy. by rewrite !lookup_alter_ne by set_solver.
  - apply NoDup_cons in Hnd. rewrite !NoDup_cons. set_solver.
  - apply Forall_cons in Hv as [??]. by repeat (apply Forall_cons; split).
  - done.
  - intros. rewrite !lookup_alter_ne; [done|..]; destruct xs; set_solver.
  - by rewrite !dom_alter_Z.
Qed.

Lemma wp_clist_add_tail s l xs e Q :
  is_clist s l xs → e ∉ l :: xs → valid_ptr e → is_Some (nodes s !! e) →
  (∀ s', is_clist s' l (xs ++ [e]) → nframe s s' (e :: l :: xs) → Q tt s') →
  wp (clist_add_tail l e) s Q.
Proof.
  intros [Hr Hnd Hv] Hnin Hve [n Hn] HQ. unfold clist_add_tail. wp_go.
  pose proof (ring_lookup _ _ _ Hr) as Hl. assert (l ≠ e) by set_solver.
  eapply wp_ld_prev; [done|]. wp_go. simpl.
  apply wp_st_elem; [by rewrite Hn|]. wp_go.
  apply wp_st_elem; [simpl; by rewrite lookup_alter_eq, Hn|]. wp_go.
  eapply wp_ld_prev; [simpl; by rewrite !lookup_alter_ne, Hl by done|]. wp_go. simpl.
  assert (last_or l xs ∈ l :: xs) as Hlast.
  { destruct xs as [|x xs _] using rev_ind; [by left|].
    rewrite last_or_app. set_solver. }
  assert (last_or l xs ≠ e) by set_solver.
  apply wp_st_elem.
  { simpl. rewrite !lookup_alter_ne by done. by eapply seg_dom. }
  wp_go. apply wp_st_elem.
  { simpl. destruct (decide (l = last_or l xs)) as [E|].
    - by rewrite <- E, lookup_alter_eq, !lookup_alter_ne, Hl by done.
    - by rewrite !lookup_alter_ne, Hl by done. }
  apply HQ; split; simpl.
  - fold (set_next (last_or l xs) e). fold (set_prev l e).
    set (m1 := alter _ e (alter _ e (nodes s))).
    assert (ring m1 (l :: xs)) as Hr1.
    { eapply seg_frame; [|exact Hr]. intros y Hy.
      unfold m1. by rewrite !lookup_alter_ne by set_solver. }
    assert (m1 !! e = Some (ListElem (last_or l xs) l)) as He
      by (unfold m1; by rewrite !lookup_alter_eq, Hn).
    clearbody m1. rewrite set_prev_next_comm.
    change (l :: xs ++ [e]) with ((l :: xs) ++ [e]).
    destruct xs as [|x xs _] using rev_ind.
    + apply (ring_insert m1 l [] e); [|done..]. rewrite !NoDup_cons in *. set_solver.
    + rewrite last_or_app in *. rewrite app_comm_cons in Hr1 |- *.
      rewrite <- app_assoc. rewrite ring_rot in Hr1. apply ring_rot. simpl.
      apply (ring_insert m1 x (l :: xs) e); [|done..].
      rewrite app_comm_cons, NoDup_app in Hnd. rewrite !NoDup_cons in *. set_solver.
  - rewrite app_comm_cons, NoDup_app. split_and!; [done|set_solver|apply NoDup_singleton].
  - rewrite app_comm_cons. apply Forall_app. by rewrite Forall_singleton.
  - done.
  - intros. rewrite !lookup_alter_ne; [done|..]; set_solver.
  - by rewrite !dom_alter_Z.
Qed.

Lemma wp_clist_remove s l l1 e l2 Q :
  is_clist s l (l1 ++ e :: l2) →
  (∀ s', is_clist s' l (l1 ++ l2) → nframe s s' (l :: l1 ++ e :: l2) →
     nodes s' !! e = Some (ListElem NULL NULL) → Q tt s') →
  wp (clist_remove e) s Q.
Proof.
  intros [Hr Hnd Hv] HQ. unfold clist_remove. wp_go.
  rewrite app_comm_cons in Hr, Hnd, Hv. rewrite ring_rot in Hr.
  apply Forall_middle in Hv as [_ Hv].
  apply NoDup_middle in Hnd as (Hnd & He1 & He2). simpl in Hr.
  set (ys := l2 ++ l :: l1) in *.
  assert (e ∉ ys) as He by (unfold ys; set_solver).
  assert (NoDup (e :: ys)) as Hnde.
  { apply NoDup_cons. split; [done|].
    rewrite NoDup_app in Hnd. apply NoDup_app. set_solver. }
  assert (ys ≠ []) as Hne by (unfold ys; by destruct l2).
  pose proof (ring_lookup _ _ _ Hr) as Hl.
  assert (head_or e ys = head_or NULL ys ∧ head_or NULL ys ∈ ys) as [Eh Hh].
  { unfold ys. destruct l2; set_solver. }
  assert (last_or e ys = last_or NULL ys ∧ last_or NULL ys ∈ ys) as [El Ht].
  { unfold ys. rewrite !last_or_app_app, !last_or_cons.
    destruct l1 as [|? ? _] using rev_ind; rewrite ?last_or_app; set_solver. }
  rewrite Eh, El in Hl.
  eapply wp_ld_next; [done|]. wp_go. eapply wp_ld_prev; [done|]. wp_go. simpl.
  assert (is_Some (nodes s !! head_or NULL ys)) by (eapply seg_dom; [exact Hr|set_solver]).
  assert (is_Some (nodes s !! last_or NULL ys)) by (eapply seg_dom; [exact Hr|set_solver]).
  apply wp_st_elem; [done|]. wp_go.
  eapply wp_ld_prev; [simpl; rewrite lookup_alter_ne by set_solver; done|]. wp_go.
  eapply wp_ld_next; [simpl; rewrite lookup_alter_ne by set_solver; done|]. wp_go. simpl.
  apply wp_st_elem.
  { simpl. rewrite <- elem_of_dom, dom_alter_Z, elem_of_dom. done. }
  wp_go.
  apply wp_st_elem; [simpl; by rewrite !lookup_alter_ne, Hl by set_solver|]. wp_go.
  apply wp_st_elem; [simpl; by rewrite lookup_alter_eq, !lookup_alter_ne, Hl by set_solver|].
  apply HQ; [|split; simpl|].
  - split; simpl; [|done..].
    rewrite app_comm_cons. apply ring_rot. eapply seg_frame; [|by eapply ring_delete].
    intros y Hy. by rewrite 2!lookup_alter_ne by (intros ->; done).
  - done.
  - intros x Hx. assert (∀ y, y ∈ e :: ys → y ≠ x) as Hxy.
    { intros y Hy ->. apply Hx. unfold ys in Hy. clear -Hy. set_solver. }
    rewrite !lookup_alter_ne; [done|apply Hxy..]; (left || by right).
  - by rewrite !dom_alter_Z.
  - simpl. by rewrite !lookup_alter_eq, !lookup_alter_ne, Hl by set_solver.
Qed.

Lemma wp_clist_extract_head s l xs Q :
  is_clist s l xs →
  (xs = [] → Q NULL s) →
  (∀ x xs' s', xs = x :: xs' → is_clist s' l xs' → nframe s s' (l :: xs) →
     nodes s' !! x = Some (ListElem NULL NULL) → Q x s') →
  wp (clist_extract_head l) s Q.
Proof.
  intros Hc HQ0 HQ. pose proof Hc as [Hr Hnd _].
  unfold clist_extract_head. wp_go. pose proof (ring_lookup _ _ _ Hr) as Hl.
  eapply wp_ld_next; [done|]. simpl. destruct xs as [|x xs]; simpl.
  - rewrite Z.eqb_refl. simpl. wp_go. by apply HQ0.
  - assert (x =? l = false) as -> by (rewrite NoDup_cons in Hnd; apply Z.eqb_neq; set_solver).
    simpl. wp_go. eapply wp_ld_next; [done|]. wp_go. simpl.
    eapply (wp_clist_remove s l [] x xs); [done|]. intros. wp_go. by eapply HQ.
Qed.

Lemma wp_clist_extract_tail s l xs Q :
  is_clist s l xs →
  (xs = [] → Q NULL s) →
  (∀ x xs' s', xs = xs' ++ [x] → is_clist s' l xs' → nframe s s' (l :: xs) →
     nodes s' !! x = Some (ListElem NULL NULL) → Q x s') →
  wp (clist_extract_tail l) s Q.
Proof.
  intros Hc HQ0 HQ. pose proof Hc as [Hr Hnd _].
  unfold clist_extract_tail. wp_go. pose proof (ring_lookup _ _ _ Hr) as Hl.
  eapply wp_ld_prev; [done|]. simpl. destruct xs as [|x xs _] using rev_ind; simpl.
  - rewrite last_or_nil, Z.eqb_refl. simpl. wp_go. by apply HQ0.
  - rewrite last_or_app in *.
    assert (x =? l = false) as -> by (rewrite NoDup_cons in Hnd; apply Z.eqb_neq; set_solver).
    simpl. wp_go. eapply wp_ld_prev; [done|]. wp_go. simpl.
    eapply (wp_clist_remove s l xs x []); [done|]. intros s'. rewrite app_nil_r.
    intros. wp_go. by eapply HQ.
Qed.

(** The counting walk from an element [y] to the end of the ring. *)
Lemma wp_clist_count_loop fuel l p y ys r s (Q : Z → xstore → Prop) :
  (length ys < fuel)%nat → seg (nodes s) p (y :: ys) l → l ∉ ys →
  Q (u32 (r + Z.of_nat (S (length ys)))) s →
  wp (clist_count_loop fuel l y r) s Q.
Proof.
  revert p y ys r. induction fuel as [|fuel IH]; intros p y ys r Hf [Hy Hs] Hl HQ; [lia|].
  simpl. apply wp_bind. eapply wp_ld_next; [done|].
  destruct ys as [|z ys]; simpl in *.
  - rewrite Z.eqb_refl. simpl. by apply wp_ret.
  - assert (z =? l = false) as -> by (apply Z.eqb_neq; set_solver).
    simpl. eapply (IH y z ys); [lia|done|set_solver|]. rewrite uwrap_add_l.
    replace (r + 1 + Z.of_nat (S (length ys))) with
      (r + Z.of_nat (S (S (length ys)))) by lia. done.
Qed.

Lemma wp_clist_count s l xs (Q : Z → xstore → Prop) :
  is_clist s l xs → Q (Z.of_nat (length xs) + 1) s → wp (clist_count l) s Q.
Proof.
  intros [Hr Hnd Hv] HQ. unfold clist_count. wp_go.
  pose proof (ring_size _ _ Hnd Hr). pose proof (NoDup_valid_ptr_length _ Hnd Hv).
  cbn [length] in *.
  eapply wp_clist_count_loop; [|exact Hr|by apply NoDup_cons in Hnd as [??]|].
  - unfold search_fuel. lia.
  - rewrite uwrap_small by lia.
    by replace (0 + Z.of_nat (S (length xs))) with (Z.of_nat (length xs) + 1) by lia.
Qed.

(** ** The list a header stands for: an abstract specification

    The routines as operations on a plain duplicate-free list. [None] marks a
    misuse the C code does not guard against: an element added twice, an
    unchecked routine given an element that is not on the list. *)

Inductive xop :=
  | AddFirst (e : Z)
  | AddLast (e : Z)
  | ExtractFirst
  | ExtractLast
  | Remove (e : Z)
  | RemoveUnsafe (e : Z)
  | InsertAfter (item e : Z)
  | InsertAfterUnsafe (item e : Z)
  | InsertBefore (item e : Z)
  | InsertBeforeUnsafe (item e : Z)
  | PeekFirst
  | PeekLast
  | IsEmpty.

Definition xop_run (l : Z) (op : xop) : M xstore Z :=
  match op with
  | AddFirst e => xlist_add_first l e
  | AddLast e => xlist_add_last l e
  | ExtractFirst => xlist_extract_first l
  | ExtractLast => xlist_extract_last l
  | Remove e => xlist_remove l e
  | RemoveUnsafe e => xlist_remove_unsafe l e
  | InsertAfter i e => xlist_insert_after l i e
  | InsertAfterUnsafe i e => xlist_insert_after_unsafe l i e
  | InsertBefore i e => xlist_insert_before l i e
  | InsertBeforeUnsafe i e => xlist_insert_before_unsafe l i e
  | PeekFirst => xlist_peek_first l
  | PeekLast => xlist_peek_last l
  | IsEmpty => xlist_isempty l
  end.

(** The elements an operation brings into the list. *)
Definition xop_elems (op : xop) : list Z :=
  match op with
  | AddFirst e | AddLast e | InsertAfter _ e | InsertAfterUnsafe _ e
  | InsertBefore _ e | InsertBeforeUnsafe _ e => [e]
  | _ => []
  end.

Fixpoint insert_after (i e : Z) (xs : list Z) : list Z :=
  match xs with
  | [] => []
  | x :: xs => if decide (x = i) then x :: e :: xs else x :: insert_after i e xs
  end.

Fixpoint insert_before (i e : Z) (xs : list Z) : list Z :=
  match xs with
  | [] => []
  | x :: xs => if decide (x = i) then e :: x :: xs else x :: insert_before i e xs
  end.

Definition xop_spec (op : xop) (xs : list Z) : option (Z * list Z) :=
  match op with
  | AddFirst e => if decide (e ∈ xs) then None else Some (1, e :: xs)
  | AddLast e => if decide (e ∈ xs) then None else Some (1, xs ++ [e])
  | ExtractFirst => Some (head_or NULL xs, tail xs)
  | ExtractLast => Some (last_or NULL xs, removelast xs)
  | Remove e =>
      if decide (e ∈ xs) then Some (1, without e xs) else Some (0, xs)
  | RemoveUnsafe e =>
      if decide (e ∈ xs) then Some (1, without e xs) else None
  | InsertAfter i e =>
      if decide (e ∈ xs) then None
      else if decide (i ∈ xs) then Some (1, insert_after i e xs) else Some (0, xs)
  | InsertAfterUnsafe i e =>
      if decide (e ∉ xs ∧ i ∈ xs) then Some (1, insert_after i e xs) else None
  | InsertBefore i e =>
      if decide (e ∈ xs) then None
      else if decide (i ∈ xs) then Some (1, insert_before i e xs) else Some (0, xs)
  | InsertBeforeUnsafe i e =>
      if decide (e ∉ xs ∧ i ∈ xs) then Some (1, insert_before i e xs) else None
  | PeekFirst => Some (head_or NULL xs, xs)
  | PeekLast => Some (last_or NULL xs, xs)
  | IsEmpty => Some (if decide (xs = []) then 1 else 0, xs)
  end.

(** An object of the store that may be put on a list. *)
Definition elem_ok (s : xstore) (e : Z) : Prop := valid_ptr e ∧ e ∈ dom (nodes s).

#[export] Instance elem_ok_dec s e : Decision (elem_ok s e) := ltac:(unfold elem_ok; apply _).

Lemma insert_after_middle l1 i l2 e :
  NoDup (l1 ++ i :: l2) → insert_after i e (l1 ++ i :: l2) = l1 ++ i :: e :: l2.
Proof.
  intros (_ & H1 & _)%NoDup_middle. induction l1 as [|x l1 IH]; simpl.
  - by rewrite decide_True.
  - rewrite decide_False by set_solver. rewrite IH by set_solver. done.
Qed.

Lemma insert_before_middle l1 i l2 e :
  NoDup (l1 ++ i :: l2) → insert_before i e (l1 ++ i :: l2) = l1 ++ e :: i :: l2.
Proof.
  intros (_ & H1 & _)%NoDup_middle. induction l1 as [|x l1 IH]; simpl.
  - by rewrite decide_True.
  - rewrite decide_False by set_solver. rewrite IH by set_solver. done.
Qed.

Lemma removelast_app_last (xs : list Z) x : removelast (xs ++ [x]) = xs.
Proof. by apply removelast_last. Qed.

Lemma xframe_weaken s s' l es es' :
  (∀ x, x ∈ es → x ∈ es') → xframe s s' l es → xframe s s' l es'.
Proof. intros Hsub [Hl Hn Hd]. split; auto. Qed.

(** One operation: the routine returns what the specification says and leaves
    the list the specification describes; only this list's header, its elements
    and the new element change. *)
Lemma wp_xop_run s l op xs r xs' (Q : Z → xstore → Prop) :
  is_xlist s l xs → Forall (elem_ok s) (xop_elems op) →
  xop_spec op xs = Some (r, xs') →
  (∀ s', is_xlist s' l xs' → xframe s s' l (xop_elems op ++ xs) → Q r s') →
  wp (xop_run l op) s Q.
Proof.
  intros Hx He Hspec HQ. pose proof Hx as [_ _ Hnd _].
  destruct op; simpl in *; simplify_option_eq;
    try (apply Forall_singleton in He as [? ?%elem_of_dom]);
    repeat match goal with
    | H : _ ∉ _ ∧ _ ∈ _ |- _ => destruct H
    end;
    try match goal with
    | H : _ ∈ xs |- _ => apply list_elem_of_split in H as (l1 & l2 & ->);
        rewrite ?without_middle, ?insert_after_middle, ?insert_before_middle in HQ by done
    end.
  - by eapply wp_xlist_add_first.
  - by eapply wp_xlist_add_last.
  - eapply wp_xlist_extract_first; [done| |].
    + intros ->. by apply HQ.
    + intros x xs' s' -> ???. by apply HQ.
  - eapply wp_xlist_extract_last; [done| |].
    + intros ->. by apply HQ.
    + intros x xs' s' -> ???. rewrite last_or_app, removelast_app_last in HQ.
      by apply HQ.
  - eapply wp_xlist_remove_in; [done|]. auto.
  - eapply wp_xlist_remove_notin; [done..|]. apply HQ; [done|apply xframe_refl].
  - eapply wp_xlist_remove_unsafe; [done|]. auto.
  - unfold xlist_insert_after. wp_go. eapply wp_xlist_find; [done|].
    rewrite bool_decide_eq_true_2 by set_solver.
    eapply (wp_xlist_insert_after_unsafe s l l1 item l2 e); auto.
  - unfold xlist_insert_after. wp_go. eapply wp_xlist_find; [done|].
    rewrite bool_decide_eq_false_2 by done. wp_go. apply HQ; [done|apply xframe_refl].
  - eapply (wp_xlist_insert_after_unsafe s l l1 item l2 e); auto.
  - unfold xlist_insert_before. wp_go. eapply wp_xlist_find; [done|].
    rewrite bool_decide_eq_true_2 by set_solver.
    eapply (wp_xlist_insert_before_unsafe s l l1 item l2 e); auto.
  - unfold xlist_insert_before. wp_go. eapply wp_xlist_find; [done|].
    rewrite bool_decide_eq_false_2 by done. wp_go. apply HQ; [done|apply xframe_refl].
  - eapply (wp_xlist_insert_before_unsafe s l l1 item l2 e); auto.
  - eapply wp_xlist_peek_first; [done|]. apply HQ; [done|apply xframe_refl].
  - eapply wp_xlist_peek_last; [done|]. apply HQ; [done|apply xframe_refl].
  - eapply wp_xlist_isempty; [done|]. rewrite decide_True by done.
    apply HQ; [done|apply xframe_refl].
  - eapply wp_xlist_isempty; [done|]. rewrite decide_False by done.
    apply HQ; [done|apply xframe_refl].
Qed.

Lemma elem_of_insert_after i e xs x :
  x ∈ insert_after i e xs → x ∈ xs ∨ x = e.
Proof. induction xs; simpl; try case_decide; set_solver. Qed.

Lemma elem_of_insert_before i e xs x :
  x ∈ insert_before i e xs → x ∈ xs ∨ x = e.
Proof. induction xs; simpl; try case_decide; set_solver. Qed.

(** Only the elements an operation names can enter the list. *)
Lemma xop_spec_elems op xs r xs' x :
  xop_spec op xs = Some (r, xs') → x ∈ xs' → x ∈ xs ∨ x ∈ xop_elems op.
Proof.
  destruct op; simpl; intros H Hx; simplify_option_eq;
    try apply elem_of_insert_after in Hx; try apply elem_of_insert_before in Hx;
    try apply list_elem_of_filter in Hx; try set_solver.
  - destruct xs; set_solver.
  - destruct xs as [|? ? _] using rev_ind; [by left|].
    rewrite removelast_app_last in Hx. set_solver.
Qed.

(** The simulation, within a set [E] of elements that includes the list and
    every element the operations mention. *)
Lemma xop_simulates l E :
  simulates (xop_run l) xop_spec
    (λ s xs, is_xlist s l xs ∧ ∀ x, x ∈ xs → x ∈ E)
    (λ s op, Forall (elem_ok s) (xop_elems op) ∧ ∀ x, x ∈ xop_elems op → x ∈ E)
    (λ s s', xframe s s' l E).
Proof.
  intros s xs op r xs' [Hx HE] [He HEe] Hspec.
  eapply wp_xop_run; [done..|]. intros s' Hx' Hf. split_and!; [done..| |].
  - intros x Hx1. destruct (xop_spec_elems _ _ _ _ x Hspec Hx1); auto.
  - eapply xframe_weaken; [|done]. intros x [|]%elem_of_app; auto.
Qed.

Lemma elem_ok_keep l E s s' op :
  xframe s s' l E →
  Forall (elem_ok s) (xop_elems op) ∧ (∀ x, x ∈ xop_elems op → x ∈ E) →
  Forall (elem_ok s') (xop_elems op) ∧ (∀ x, x ∈ xop_elems op → x ∈ E).
Proof.
  intros Hf [He HE]. split; [|done]. eapply Forall_impl; [done|].
  intros e [??]. split; [done|]. by rewrite (xf_dom _ _ _ _ Hf).
Qed.

#[export] Instance xframe_preorder l E : PreOrder (λ s s', xframe s s' l E).
Proof.
  split; [intros s; apply xframe_refl|]. intros s1 s2 s3. apply xframe_trans.
Qed.

(** ** The circular list as a double-ended queue *)

Inductive cop :=
  | CAddHead (e : Z)
  | CAddTail (e : Z)
  | CRemove (e : Z)
  | CExtractHead
  | CExtractTail
  | CPeekHead
  | CPeekTail
  | CIsEmpty.

Definition cop_run (l : Z) (op : cop) : M xstore Z :=
  match op with
  | CAddHead e => clist_add_head l e;; mret 0
  | CAddTail e => clist_add_tail l e;; mret 0
  | CRemove e => clist_remove e;; mret 0
  | CExtractHead => clist_extract_head l
  | CExtractTail => clist_extract_tail l
  | CPeekHead => clist_peek_head l
  | CPeekTail => clist_peek_tail l
  | CIsEmpty => b ← clist_isempty l; mret (if b : bool then 1 else 0)
  end.

Definition cop_elems (op : cop) : list Z :=
  match op with CAddHead e | CAddTail e => [e] | _ => [] end.

Definition cop_spec (l : Z) (op : cop) (xs : list Z) : option (Z * list Z) :=
  match op with
  | CAddHead e => if decide (e ∈ l :: xs) then None else Some (0, e :: xs)
  | CAddTail e => if decide (e ∈ l :: xs) then None else Some (0, xs ++ [e])
  | CRemove e => if decide (e ∈ xs) then Some (0, without e xs) else None
  | CExtractHead => Some (head_or NULL xs, tail xs)
  | CExtractTail => Some (last_or NULL xs, removelast xs)
  | CPeekHead => Some (head_or NULL xs, xs)
  | CPeekTail => Some (last_or NULL xs, xs)
  | CIsEmpty => Some (if decide (xs = []) then 1 else 0, xs)
  end.

Lemma clist_neq s l xs x : is_clist s l xs → x ∈ xs → (x =? l) = false.
Proof. intros [_ [Hl _]%NoDup_cons _] Hx. apply Z.eqb_neq. set_solver. Qed.

Lemma wp_clist_peeks s l xs (Q : Z → xstore → Prop) :
  is_clist s l xs →
  (Q (head_or NULL xs) s → wp (clist_peek_head l) s Q) ∧
  (Q (last_or NULL xs) s → wp (clist_peek_tail l) s Q).
Proof.
  intros Hc. pose proof Hc as [Hr _ _]. pose proof (ring_lookup _ _ _ Hr) as Hl.
  split; intros HQ; unfold clist_peek_head, clist_peek_tail; wp_go.
  - eapply wp_ld_next; [done|]. simpl. destruct xs as [|x xs]; simpl.
    + by rewrite Z.eqb_refl.
    + rewrite (clist_neq _ _ _ _ Hc) by set_solver. by eapply wp_ld_next.
  - eapply wp_ld_prev; [done|]. simpl. destruct xs as [|x xs _] using rev_ind; simpl.
    + by rewrite last_or_nil, Z.eqb_refl.
    + rewrite last_or_app in *. rewrite (clist_neq _ _ _ _ Hc) by set_solver.
      eapply wp_ld_prev; [done|]. simpl. done.
Qed.

Lemma wp_cop_run s l op xs r xs' (Q : Z → xstore → Prop) :
  is_clist s l xs → Forall (elem_ok s) (cop_elems op) →
  cop_spec l op xs = Some (r, xs') →
  (∀ s', is_clist s' l xs' → dom (nodes s') = dom (nodes s) → Q r s') →
  wp (cop_run l op) s Q.
Proof.
  intros Hx He Hspec HQ. pose proof Hx as [Hr Hnd _].
  pose proof Hnd as [_ Hnd']%NoDup_cons.
  destruct op; simpl in *; simplify_option_eq;
    try (apply Forall_singleton in He as [? ?%elem_of_dom]).
  - wp_go. eapply wp_clist_add_head; [done..|]. intros s' ? [_ _ ?]. wp_go. auto.
  - wp_go. eapply wp_clist_add_tail; [done..|]. intros s' ? [_ _ ?]. wp_go. auto.
  - apply list_elem_of_split in H as (l1 & l2 & ->). rewrite without_middle in HQ by done.
    wp_go. eapply wp_clist_remove; [done|]. intros s' ? [_ _ ?] _. wp_go. auto.
  - eapply wp_clist_extract_head; [done| |]; [intros ->; by apply HQ|].
    intros x xs' s' -> ? [_ _ ?] _. auto.
  - eapply wp_clist_extract_tail; [done| |]; [intros ->; by apply HQ|].
    intros x xs' s' -> ? [_ _ ?] _. rewrite last_or_app, removelast_app_last in HQ. auto.
  - eapply wp_clist_peeks; eauto.
  - eapply wp_clist_peeks; eauto.
  - unfold clist_isempty. wp_go. eapply wp_ld_next; [by apply ring_lookup|].
    wp_go. simpl. rewrite Z.eqb_refl. by apply HQ.
  - unfold clist_isempty. wp_go. eapply wp_ld_next; [by apply ring_lookup|].
    destruct xs' as [|x xs]; [done|]. wp_go. simpl.
    rewrite (clist_neq _ _ _ _ Hx) by set_solver. by apply HQ.
Qed.

Lemma cop_simulates l :
  simulates (cop_run l) (cop_spec l) (λ s xs, is_clist s l xs)
    (λ s op, Forall (elem_ok s) (cop_elems op)) (λ s s', dom (nodes s') = dom (nodes s)).
Proof. intros s xs op r xs' Hx He Hspec. by eapply wp_cop_run. Qed.

Lemma cop_keep s s' op :
  dom (nodes s') = dom (nodes s) →
  Forall (elem_ok s) (cop_elems op) → Forall (elem_ok s') (cop_elems op).
Proof.
  intros Hd H. eapply Forall_impl; [done|]. intros e [??]. split; [done|]. by rewrite Hd.
Qed.

#[export] Instance dom_preorder : PreOrder (λ s s', dom (nodes s') = dom (nodes s)).
Proof. split; [done|]. intros s1 s2 s3 ??. congruence. Qed.

(** ** Properties *)

(** C32: the pointer routines of [xlist_t] refine the operations on plain
    duplicate-free lists: on any store where header [l] holds [xs], any sequence
    of operations the specification accepts runs to completion, returns exactly
    the specified results, leaves [l] holding the specified list (with its first,
    last and count fields right, the count never wrapping), and changes no other
    header and no element outside [xs] and the added elements, so every list
    disjoint from these survives. *)
Theorem xlist_refines ops s l xs rs xs' :
  is_xlist s l xs → Forall (elem_ok s) (ops ≫= xop_elems) →
  specs xop_spec ops xs = Some (rs, xs') →
  ∃ s', runs (xop_run l) ops s = Ok (rs, s') ∧ is_xlist s' l xs' ∧
    (∀ l' ys, l' ≠ l → (∀ y, y ∈ ys → y ∉ xs ++ (ops ≫= xop_elems)) →
       is_xlist s l' ys → is_xlist s' l' ys).
Proof.
  intros Hx He Hspec. set (E := xs ++ (ops ≫= xop_elems)).
  destruct (simulates_runs _ _ _ _ _ (elem_ok_keep l E) (xop_simulates l E) ops s xs rs xs')
    as (s' & Hr & [Hx' _] & Hf); [| |done|].
  - split; [done|]. set_solver.
  - apply Forall_forall. intros op Hop. rewrite Forall_forall in He. split.
    + apply Forall_forall. intros e Hin. apply He, list_elem_of_bind; eauto.
    + intros e Hin. apply elem_of_app. right. apply list_elem_of_bind; eauto.
  - exists s'. split_and!; [done..|]. intros l' ys Hne Hdis.
    by eapply is_xlist_frame.
Qed.

(** A store with two lists: header 1 holds the elements 10 and 20, header 2 the
    element 40; the element 30 is on no list. *)
Definition example_store : xstore := XStore
  (list_to_map [(10, ListElem 0 20); (20, ListElem 10 0); (30, ListElem 0 0);
                (40, ListElem 0 0)])
  (list_to_map [(1, XListHdr 10 20 2); (2, XListHdr 40 40 1)]).

Lemma example_store_lists :
  is_xlist example_store 1 [10; 20] ∧ is_xlist example_store 2 [40].
Proof.
  split; split; [reflexivity|repeat split; reflexivity|by_decide|by_decide|
    reflexivity|repeat split; reflexivity|by_decide|by_decide].
Qed.

Definition example_ops : list xop :=
  [AddFirst 30; Remove 10; Remove 10; ExtractLast; InsertAfter 30 10; ExtractFirst;
   IsEmpty].

Lemma xlist_refines_witness :
  ∃ s', runs (xop_run 1) example_ops example_store = Ok ([1; 1; 0; 20; 1; 30; 0], s') ∧
    is_xlist s' 1 [10] ∧ is_xlist s' 2 [40].
Proof.
  destruct (xlist_refines example_ops example_store 1 [10; 20]
    [1; 1; 0; 20; 1; 30; 0] [10]) as (s' & H1 & H2 & H3).
  - apply example_store_lists.
  - by_decide.
  - reflexivity.
  - exists s'. split_and!; [done..|]. apply H3; [lia| |apply example_store_lists].
    intros y ->%list_elem_of_singleton. by_decide.
Defined.

(** The circular list of [list.h] refines a double-ended queue: additions at
    either end, removal of an item from the middle, extraction and inspection of
    either end and the emptiness test return what they return on the plain list,
    in any sequence. *)
Theorem clist_refines ops s l xs rs xs' :
  is_clist s l xs → Forall (λ op, Forall (elem_ok s) (cop_elems op)) ops →
  specs (cop_spec l) ops xs = Some (rs, xs') →
  ∃ s', runs (cop_run l) ops s = Ok (rs, s') ∧ is_clist s' l xs'.
Proof.
  intros Hx He Hspec.
  destruct (simulates_runs _ _ _ _ _ cop_keep (cop_simulates l) ops s xs rs xs')
    as (s' & Hr & Hx' & _); eauto.
Qed.

(** A circular list with head 1 and the items 10 and 20; 30 is on no list. *)
Definition example_ring : xstore := XStore
  (list_to_map [(1, ListElem 20 10); (10, ListElem 1 20); (20, ListElem 10 1);
                (30, ListElem 0 0)]) ∅.

Lemma example_ring_ok : is_clist example_ring 1 [10; 20].
Proof.
  split; [repeat split; reflexivity|by_decide|by_decide].
Qed.

Lemma clist_refines_witness :
  ∃ s', runs (cop_run 1) [CAddTail 30; CExtractHead; CRemove 20; CExtractHead; CIsEmpty]
      example_ring = Ok ([0; 10; 0; 30; 1], s') ∧ is_clist s' 1 [].
Proof.
  apply (clist_refines _ example_ring 1 [10; 20]).
  - apply example_ring_ok.
  - by_decide.
  - reflexivity.
Defined.

(** [clist_count], whose comment promises the count of items in the list,
    counts the head too: a list of [n] items has count [n + 1], the empty list 1. *)
Theorem clist_count_counts_head s l xs :
  is_clist s l xs → clist_count l s = Ok (Z.of_nat (length xs) + 1, s).
Proof.
  intros Hc. destruct (wp_run (clist_count l) s (Z.of_nat (length xs) + 1) (eq s))
    as (s' & -> & <-); [by eapply wp_clist_count|done].
Qed.

Lemma clist_count_counts_head_witness :
  clist_count 1 example_ring = Ok (3, example_ring).
Proof. apply (clist_count_counts_head example_ring 1 [10; 20]), example_ring_ok. Defined.
