(* ===== verification/Queue.v ===== *)
(** * Queues: [kernel/util/queue.c]

    A singly linked queue with head and tail pointers and an element count. As
    for the lists, elements and queue headers live in two maps indexed by
    address. *)

From S2P Require Import Prelude Links.
From stdpp Require Import gmap list.
#[local] Open Scope Z_scope.

(** ** Data *)

(** [queue_t] *)
Record queue := QueueHdr { q_head : Z; q_tail : Z; q_count : Z }.

(** The elements ([queue_elem_t], only a [next] pointer) and the queues. *)
Record qstore := QStore { qelems : gmap Z Z; queues : gmap Z queue }.

Definition ld_qnext (p : Z) : M qstore Z := load (λ s, qelems s !! p).

Definition st_qnext (p v : Z) : M qstore unit := λ s,
  match qelems s !! p with
  | Some _ => Ok (tt, QStore (<[p := v]> (qelems s)) (queues s))
  | None => Fault
  end.

Definition ld_queue (q : Z) : M qstore queue := load (λ s, queues s !! q).

Definition st_queue (q : Z) (f : queue → queue) : M qstore unit := λ s,
  match queues s !! q with
  | Some h => Ok (tt, QStore (qelems s) (<[q := f h]> (queues s)))
  | None => Fault
  end.

Definition st_head (q v : Z) : M qstore unit :=
  st_queue q (λ h, QueueHdr v (q_tail h) (q_count h)).

Definition st_tail (q v : Z) : M qstore unit :=
  st_queue q (λ h, QueueHdr (q_head h) v (q_count h)).

Definition st_qcount (q : Z) (f : Z → Z) : M qstore unit :=
  st_queue q (λ h, QueueHdr (q_head h) (q_tail h) (u32 (f (q_count h)))).

(** ** Operations *)

Definition queue_init (q : Z) : M qstore Z :=
  st_tail q NULL;; st_head q NULL;; st_qcount q (λ _, 0);; mret 1.

Definition queue_elem_init (e : Z) : M qstore Z := st_qnext e NULL;; mret 1.

(** The loop of [queue_remove], [temp] at the current element, [last] at the one
    before it. *)
Fixpoint queue_remove_loop (fuel : nat) (q e temp last : Z) : M qstore Z :=
  match fuel with
  | O => hang
  | S fuel =>
      if temp =? NULL then mret 0
      else if temp =? e then
        n ← ld_qnext temp;
        (if negb (last =? NULL) then st_qnext last n else st_head q n);;
        h ← ld_queue q;
        when (q_tail h =? temp) (st_tail q last);;
        st_qcount q (λ c, c - 1);;
        st_qnext e NULL;;
        mret 1
      else n ← ld_qnext temp; queue_remove_loop fuel q e n temp
  end.

Definition qfuel (s : qstore) : nat := S (size (qelems s)).
Arguments qfuel : simpl never.

Definition queue_remove (q e : Z) : M qstore Z :=
  h ← ld_queue q;
  fuel ← gets qfuel;
  queue_remove_loop fuel q e (q_head h) NULL.

Definition queue_enqueue (q e : Z) : M qstore Z :=
  h ← ld_queue q;
  (if q_tail h =? NULL then st_tail q e;; st_head q e
   else st_qnext (q_tail h) e;; st_tail q e);;
  st_qnext e NULL;;
  st_qcount q (λ c, c + 1);;
  mret 1.

Definition queue_dequeue (q : Z) : M qstore Z :=
  h ← ld_queue q;
  let e := q_head h in
  when (negb (q_head h =? NULL)) (n ← ld_qnext (q_head h); st_head q n);;
  h ← ld_queue q;
  when (q_tail h =? e) (st_tail q NULL);;
  when (negb (e =? NULL)) (st_qcount q (λ c, c - 1));;
  mret e.

Definition queue_peek (q : Z) : M qstore Z :=
  h ← ld_queue q; mret (q_head h).

(** [true] is [(bool)(-1)]. *)
Definition queue_isempty (q : Z) : M qstore Z :=
  h ← ld_queue q; mret (if q_count h =? 0 then -1 else 0).

(** ** Representation *)

Record is_queue (s : qstore) (q : Z) (xs : list Z) : Prop := {
  iq_hdr : queues s !! q =
    Some (QueueHdr (head_or NULL xs) (last_or NULL xs) (Z.of_nat (length xs)));
  iq_seg : qseg (qelems s) xs NULL;
  iq_nodup : NoDup xs;
  iq_valid : Forall valid_ptr xs }.

Lemma wp_ld_qnext p v s Q : qelems s !! p = Some v → Q v s → wp (ld_qnext p) s Q.
Proof. intros. by eapply wp_load. Qed.

Lemma wp_ld_queue q h s Q : queues s !! q = Some h → Q h s → wp (ld_queue q) s Q.
Proof. intros. by eapply wp_load. Qed.

Lemma wp_st_qnext p v s Q :
  is_Some (qelems s !! p) → Q tt (QStore (alter (λ _, v) p (qelems s)) (queues s)) →
  wp (st_qnext p v) s Q.
Proof.
  intros [w Hw] HQ. unfold wp, st_qnext. rewrite Hw.
  assert (alter (λ _, v) p (qelems s) = <[p := v]> (qelems s)) as <-; [|done].
  apply map_eq. intros i. destruct (decide (i = p)) as [->|].
  - by rewrite lookup_alter_eq, lookup_insert_eq, Hw.
  - by rewrite lookup_alter_ne, lookup_insert_ne.
Qed.

Lemma wp_st_queue q f h s Q :
  queues s !! q = Some h → Q tt (QStore (qelems s) (<[q := f h]> (queues s))) →
  wp (st_queue q f) s Q.
Proof. intros Hh HQ. unfold wp, st_queue. by rewrite Hh. Qed.

Lemma is_queue_count s q xs : is_queue s q xs → 0 ≤ Z.of_nat (length xs) < 2 ^ 32.
Proof. intros [_ _ Hnd Hv]. split; [lia|]. by apply NoDup_valid_ptr_length. Qed.

(** ** Specifications *)

Lemma wp_queue_enqueue s q xs e Q :
  is_queue s q xs → e ∉ xs → valid_ptr e → e ∈ dom (qelems s) →
  (∀ s', is_queue s' q (xs ++ [e]) → dom (qelems s') = dom (qelems s) → Q 1 s') →
  wp (queue_enqueue q e) s Q.
Proof.
  intros [Hh Hs Hnd Hv] He Hve [n Hn]%elem_of_dom HQ.
  assert (NoDup (xs ++ [e])) as Hnd' by (apply NoDup_app; split_and!;
    [done|set_solver|apply NoDup_singleton]).
  assert (Forall valid_ptr (xs ++ [e])) as Hv' by (apply Forall_app; by rewrite Forall_singleton).
  pose proof (NoDup_valid_ptr_length _ Hnd' Hv') as Hlen.
  rewrite length_app in Hlen; simpl in Hlen.
  unfold queue_enqueue. wp_go. eapply wp_ld_queue; [done|]. wp_go. cbn [q_tail].
  destruct xs as [|x xs _] using rev_ind; simpl.
  - wp_go. eapply wp_st_queue; [done|]. wp_go.
    eapply wp_st_queue; [simpl; by rewrite lookup_insert_eq|]. wp_go.
    apply wp_st_qnext; [simpl; by rewrite Hn|]. wp_go.
    eapply wp_st_queue; [simpl; by rewrite lookup_insert_eq|]. wp_go.
    apply HQ; [split; simpl|simpl; by rewrite dom_alter_Z]; try done.
    + by rewrite !lookup_insert_eq.
    + by rewrite lookup_alter_eq, Hn.
  - rewrite last_or_app. pose proof Hv as [_ [Hx _]%Forall_cons]%Forall_app.
    assert (x =? NULL = false) as -> by (unfold valid_ptr, NULL in *; lia).
    assert (x ≠ e) by set_solver. pose proof Hs as [_ [Hxl _]]%qseg_app.
    wp_go. apply wp_st_qnext; [by rewrite Hxl|]. wp_go.
    eapply wp_st_queue; [done|]. wp_go.
    apply wp_st_qnext; [simpl; by rewrite lookup_alter_ne, Hn by done|]. wp_go.
    eapply wp_st_queue; [simpl; by rewrite lookup_insert_eq|]. wp_go.
    apply HQ; [split; simpl|simpl; by rewrite !dom_alter_Z]; try done.
    + rewrite !lookup_insert_eq, last_or_app, (head_or_app _ (xs ++ [x])), !head_or_app.
      simpl. do 2 f_equal. rewrite length_app in Hlen. simpl in Hlen.
      rewrite !length_app, uwrap_small; simpl; lia.
    + apply qseg_app. split.
      * apply qseg_alter; [done|]. simpl. by eapply qseg_set_last.
      * simpl. by rewrite lookup_alter_eq, lookup_alter_ne, Hn by done.
Qed.

Lemma wp_queue_dequeue s q xs Q :
  is_queue s q xs →
  (∀ s', is_queue s' q (tail xs) → qelems s' = qelems s → Q (head_or NULL xs) s') →
  wp (queue_dequeue q) s Q.
Proof.
  intros Hq HQ. pose proof (is_queue_count _ _ _ Hq) as Hc.
  pose proof Hq as [Hh Hs Hnd Hv].
  unfold queue_dequeue. wp_go. eapply wp_ld_queue; [done|]. wp_go. cbn [q_head].
  destruct xs as [|x xs]; simpl.
  - wp_go. eapply wp_ld_queue; [done|]. wp_go. simpl.
    wp_go. eapply wp_st_queue; [done|]. wp_go. apply HQ; [split; simpl; try done|done].
    by rewrite lookup_insert_eq.
  - pose proof Hv as [Hx Hvs]%Forall_cons. pose proof Hs as [Hxl Hs'].
    pose proof Hnd as [Hxn Hnds]%NoDup_cons.
    assert (x =? NULL = false) as -> by (unfold valid_ptr, NULL in *; lia). simpl. wp_go.
    eapply wp_ld_qnext; [done|]. wp_go. eapply wp_st_queue; [done|]. wp_go.
    eapply wp_ld_queue; [simpl; by rewrite lookup_insert_eq|]. wp_go. simpl.
    rewrite last_or_cons. simpl in Hc.
    destruct xs as [|y xs _] using rev_ind.
    + rewrite last_or_nil, Z.eqb_refl. simpl.
      eapply wp_st_queue; [simpl; by rewrite lookup_insert_eq|]. wp_go.
      eapply wp_st_queue; [simpl; by rewrite lookup_insert_eq|]. wp_go.
      apply HQ; [split; simpl; try done|done]. by rewrite !lookup_insert_eq.
    + rewrite last_or_app. assert (y =? x = false) as -> by (apply Z.eqb_neq; set_solver).
      simpl. wp_go. eapply wp_st_queue; [simpl; by rewrite lookup_insert_eq|]. wp_go.
      apply HQ; [split; simpl; try done|done].
      rewrite !lookup_insert_eq, !last_or_app. simpl. do 2 f_equal.
      rewrite uwrap_small; lia.
Qed.

(** The removal loop standing between [l1] and [l2]. *)
Lemma wp_queue_remove_loop fuel s q e l1 l2 Q :
  (length l2 < fuel)%nat → is_queue s q (l1 ++ l2) → e ∉ l1 →
  (e ∉ l2 → Q 0 s) →
  (∀ l2a l2b s', l2 = l2a ++ e :: l2b → is_queue s' q (l1 ++ l2a ++ l2b) →
     dom (qelems s') = dom (qelems s) → qelems s' !! e = Some NULL → Q 1 s') →
  wp (queue_remove_loop fuel q e (head_or NULL l2) (last_or NULL l1)) s Q.
Proof.
  revert l1 l2. induction fuel as [|fuel IH]; intros l1 l2 Hf Hq He HQ0 HQ; [lia|].
  destruct l2 as [|x l2]; simpl in Hf |- *; [apply wp_ret, HQ0; set_solver|].
  pose proof (is_queue_count _ _ _ Hq) as Hc.
  pose proof Hq as [Hh Hs Hnd Hv].
  apply Forall_app in Hv as [Hv1 [Hx Hv2]%Forall_cons].
  pose proof Hs as (Hs1 & Hxl & Hs2)%qseg_app. simpl in Hs1, Hxl, Hs2.
  apply NoDup_app in Hnd as (Hnd1 & Hdis & [Hx2 Hnd2]%NoDup_cons).
  assert (x =? NULL = false) as -> by (unfold valid_ptr, NULL in *; lia).
  destruct (x =? e) eqn:Exe; bool_to_prop.
  - subst x. wp_go. eapply wp_ld_qnext; [done|]. wp_go.
    set (m1 := if decide (l1 = []) then qelems s
               else alter (λ _, head_or NULL l2) (last_or NULL l1) (qelems s)).
    set (h1 := QueueHdr (head_or (head_or NULL l2) l1) (last_or e l2)
                 (Z.of_nat (length (l1 ++ e :: l2)))).
    assert (dom m1 = dom (qelems s)) as Hd1.
    { unfold m1. case_decide; [done|]. by rewrite dom_alter_Z. }
    assert (qseg m1 (l1 ++ l2) NULL ∧ is_Some (m1 !! e)) as [Hm1 Hem1].
    { rewrite <- elem_of_dom, Hd1, elem_of_dom, Hxl. split; [|eauto]. unfold m1.
      case_decide as E; [by subst|]. destruct l1 as [|z l1 _] using rev_ind; [done|].
      rewrite last_or_app. apply qseg_app. split; [by eapply qseg_set_last|].
      apply qseg_alter; [|done]. set_solver. }
    assert (wp (if negb (last_or NULL l1 =? NULL)
        then st_qnext (last_or NULL l1) (head_or NULL l2) else st_head q (head_or NULL l2)) s
        (λ _ s', s' = QStore m1 (<[q := h1]> (queues s)))) as Hlink.
    { unfold m1. destruct l1 as [|z l1 _] using rev_ind; simpl.
      - eapply wp_st_queue; [done|]. simpl. by rewrite last_or_cons.
      - rewrite last_or_app. rewrite decide_False by by destruct l1.
        apply Forall_app in Hv1 as [_ [Hz _]%Forall_cons].
        assert (z =? NULL = false) as -> by (unfold valid_ptr, NULL in *; lia).
        apply wp_st_qnext; [eapply qseg_dom; [exact Hs|set_solver]|].
        f_equal. rewrite insert_id; [done|]. rewrite Hh. unfold h1. do 2 f_equal.
        + by rewrite !head_or_app.
        + by rewrite last_or_app_app, last_or_cons. }
    eapply wp_mono; [exact Hlink|]. intros _ s1 ->. wp_go.
    eapply wp_ld_queue; [simpl; by rewrite lookup_insert_eq|]. wp_go. cbn [q_tail h1].
    set (h2 := QueueHdr (q_head h1) (last_or (last_or NULL l1) l2) (q_count h1)).
    apply (wp_mono _ _ (λ _ s', s' = QStore m1 (<[q := h2]> (queues s)))).
    { unfold h2. apply wp_when; intros Et; bool_to_prop.
      - assert (l2 = []) as ->.
        { destruct l2 as [|y l2 _] using rev_ind; [done|].
          rewrite last_or_app in Et. set_solver. }
        eapply wp_st_queue; [simpl; by rewrite lookup_insert_eq|]. simpl.
        by rewrite insert_insert_eq.
      - destruct l2 as [|y l2 _] using rev_ind; [by rewrite last_or_nil in Et|].
        unfold h1. simpl. by rewrite !last_or_app. }
    intros _ s2 ->. wp_go.
    eapply wp_st_queue; [simpl; by rewrite lookup_insert_eq|]. wp_go.
    apply wp_st_qnext; [done|]. wp_go.
    rewrite length_app in Hc; simpl in Hc.
    eapply (HQ [] l2); [done|split; simpl|simpl; by rewrite dom_alter_Z|simpl].
    + rewrite lookup_insert_eq, head_or_app, last_or_app_app. do 2 f_equal.
      rewrite uwrap_small; rewrite !length_app; simpl; lia.
    + apply qseg_alter; [set_solver|done].
    + apply NoDup_app. set_solver.
    + by apply Forall_app.
    + rewrite lookup_alter_eq. by destruct Hem1 as [? ->].
  - wp_go. eapply wp_ld_qnext; [done|]. wp_go.
    rewrite <- (last_or_app NULL x l1). apply IH; [lia| |set_solver| |].
    + by rewrite <- app_assoc.
    + intros ?. apply HQ0. set_solver.
    + intros l2a l2b s' -> Hq'. apply (HQ (x :: l2a) l2b); [done|].
      by rewrite <- app_assoc in Hq'.
Qed.

Lemma wp_queue_remove s q xs e Q :
  is_queue s q xs → (e ∉ xs → Q 0 s) →
  (∀ l1 l2 s', xs = l1 ++ e :: l2 → is_queue s' q (l1 ++ l2) →
     dom (qelems s') = dom (qelems s) → Q 1 s') →
  wp (queue_remove q e) s Q.
Proof.
  intros Hq HQ0 HQ. pose proof Hq as [Hh Hs Hnd Hv]. unfold queue_remove. wp_go.
  eapply wp_ld_queue; [done|]. wp_go. cbn [q_head].
  apply (wp_queue_remove_loop _ s q e [] xs); [|done|set_solver|done|by eauto].
  unfold qfuel. pose proof (qseg_size _ _ _ Hnd Hs). lia.
Qed.

(** ** Abstract specification and refinement *)

Inductive qop := Enqueue (e : Z) | Dequeue | QRemove (e : Z) | Peek | QIsEmpty.

Definition qop_run (q : Z) (op : qop) : M qstore Z :=
  match op with
  | Enqueue e => queue_enqueue q e
  | Dequeue => queue_dequeue q
  | QRemove e => queue_remove q e
  | Peek => queue_peek q
  | QIsEmpty => queue_isempty q
  end.

Definition qop_elems (op : qop) : list Z :=
  match op with Enqueue e => [e] | _ => [] end.

(** The first-in first-out queue; [None]: an element enqueued twice. *)
Definition qop_spec (op : qop) (xs : list Z) : option (Z * list Z) :=
  match op with
  | Enqueue e => if decide (e ∈ xs) then None else Some (1, xs ++ [e])
  | Dequeue => Some (head_or NULL xs, tail xs)
  | QRemove e =>
      if decide (e ∈ xs) then Some (1, without e xs) else Some (0, xs)
  | Peek => Some (head_or NULL xs, xs)
  | QIsEmpty => Some (if decide (xs = []) then -1 else 0, xs)
  end.

Definition qelem_ok (s : qstore) (e : Z) : Prop := valid_ptr e ∧ e ∈ dom (qelems s).

#[export] Instance qelem_ok_dec s e : Decision (qelem_ok s e) := ltac:(unfold qelem_ok; apply _).

Lemma wp_qop_run s q op xs r xs' (Q : Z → qstore → Prop) :
  is_queue s q xs → Forall (qelem_ok s) (qop_elems op) →
  qop_spec op xs = Some (r, xs') →
  (∀ s', is_queue s' q xs' → dom (qelems s') = dom (qelems s) → Q r s') →
  wp (qop_run q op) s Q.
Proof.
  intros Hq He Hspec HQ. pose proof Hq as [Hh _ Hnd _].
  destruct op; simpl in *; simplify_option_eq.
  - apply Forall_singleton in He as [??]. by eapply wp_queue_enqueue.
  - eapply wp_queue_dequeue; [done|]. intros s' ? E. apply HQ; [done|by rewrite E].
  - eapply wp_queue_remove; [done|done|]. intros l1 l2 s' -> ??.
    rewrite without_middle in HQ by done. by apply HQ.
  - eapply wp_queue_remove; [done| |]; [by intros; apply HQ|].
    intros l1 l2 s' -> ??. set_solver.
  - unfold queue_peek. wp_go. eapply wp_ld_queue; [done|]. wp_go. by apply HQ.
  - unfold queue_isempty. wp_go. eapply wp_ld_queue; [done|]. wp_go. by apply HQ.
  - unfold queue_isempty. wp_go. eapply wp_ld_queue; [done|]. wp_go.
    destruct xs'; [done|]. by apply HQ.
Qed.

Lemma qop_simulates q :
  simulates (qop_run q) qop_spec (λ s xs, is_queue s q xs)
    (λ s op, Forall (qelem_ok s) (qop_elems op)) (λ s s', dom (qelems s') = dom (qelems s)).
Proof. intros s xs op r xs' Hx He Hspec. by eapply wp_qop_run. Qed.

Lemma qop_keep s s' op :
  dom (qelems s') = dom (qelems s) →
  Forall (qelem_ok s) (qop_elems op) → Forall (qelem_ok s') (qop_elems op).
Proof.
  intros Hd H. eapply Forall_impl; [done|]. intros e [??]. split; [done|]. by rewrite Hd.
Qed.

#[export] Instance qdom_preorder : PreOrder (λ s s', dom (qelems s') = dom (qelems s)).
Proof. split; [done|]. intros s1 s2 s3 ??. congruence. Qed.

(** ** Properties *)

(** The pointer queue refines the first-in first-out queue on plain lists:
    every sequence of enqueues of elements not yet queued, dequeues, removals
    from any position (of absent elements too), peeks and emptiness tests runs to
    completion with the specified results and ends with the specified contents,
    head, tail and count. *)
Theorem queue_refines ops s q xs rs xs' :
  is_queue s q xs → Forall (λ op, Forall (qelem_ok s) (qop_elems op)) ops →
  specs qop_spec ops xs = Some (rs, xs') →
  ∃ s', runs (qop_run q) ops s = Ok (rs, s') ∧ is_queue s' q xs'.
Proof.
  intros Hx He Hspec.
  destruct (simulates_runs _ _ _ _ _ qop_keep (qop_simulates q) ops s xs rs xs')
    as (s' & Hr & Hx' & _); eauto.
Qed.

(** A queue at 1 holding 10; 20 and 30 are free. *)
Definition example_queue : qstore := QStore
  (list_to_map [(10, 0); (20, 0); (30, 7)]) (list_to_map [(1, QueueHdr 10 10 1)]).

Lemma queue_refines_witness :
  ∃ s', runs (qop_run 1) [Enqueue 20; Enqueue 30; QRemove 20; Dequeue; QRemove 10; Peek;
                    Dequeue; Dequeue; QIsEmpty; Enqueue 10] example_queue =
    Ok ([1; 1; 1; 10; 0; 30; 30; 0; -1; 1], s') ∧ is_queue s' 1 [10].
Proof.
  apply (queue_refines _ example_queue 1 [10]).
  - split; [reflexivity|repeat split; reflexivity|by_decide|by_decide].
  - by_decide.
  - reflexivity.
Defined.
