(* ===== verification/VmPage.v ===== *)
(** * Physical pages: [kernel/vm/vm_page.c]

    The kernel keeps one [vm_page_t] for every physical page, in the array
    [all_pages], and threads the pages on three lists (free, cleared, in use)
    through the list node they begin with. The state of the model is the static
    data of the file: the list store of XList, the page objects by address, the
    statistics [VM_State], the lock, and the contents of the page frames. *)

From S2P Require Import Prelude Spinlock XList.
From stdpp Require Import gmap list.
#[local] Open Scope Z_scope.

(** ** Data *)

(** [vm_page_t]; its first field, the list node, lives in the list store at the
    same address. *)
Record vm_page := VmPage { ppn : Z; wire_count : Z; ptype : Z; pstate : Z }.

Definition sizeof_vm_page : Z := 20.

Definition VM_PAGE_TYPE_PHYSICAL : Z := 0.
Definition VM_PAGE_STATE_ACTIVE : Z := 0.
Definition VM_PAGE_STATE_INACTIVE : Z := 1.
Definition VM_PAGE_STATE_FREE : Z := 2.
Definition VM_PAGE_STATE_CLEAR : Z := 3.
Definition VM_PAGE_STATE_WIRED : Z := 4.
Definition VM_PAGE_STATE_BUSY : Z := 5.
Definition VM_PAGE_STATE_UNUSED : Z := 6.

(** [vm_stat_t] *)
Record vm_stat := VmStat {
  physical_page_size : Z; total_physical_pages : Z;
  active_pages : Z; inactive_pages : Z; wired_pages : Z; busy_pages : Z;
  clear_pages : Z; free_pages : Z; unused_pages : Z }.

(** The part of [kernel_args_t] this file reads: ranges as (start, size). *)
Record kargs := Kargs {
  phys_mem_range : list (Z * Z); phys_alloc_range : list (Z * Z) }.

(** The static data of the file. *)
Record vms := Vms {
  xs : xstore; cpus : cpu; pages : gmap Z vm_page; frames : gmap Z (list Z);
  VM_State : vm_stat;
  all_pages : Z; physical_page_offset : Z; total_pages_count : Z }.

(** Addresses of the three lists and of the lock. *)
Definition free_pages_list : Z := 1.
Definition clear_pages_list : Z := 2.
Definition active_pages_list : Z := 3.
Definition page_lock : Z := 4.

(** [&all_pages[i]] *)
Definition page_ptr (s : vms) (i : Z) : Z := all_pages s + sizeof_vm_page * i.

(** ** Access to the state *)

Definition upd_xs x s := Vms x (cpus s) (pages s) (frames s) (VM_State s)
  (all_pages s) (physical_page_offset s) (total_pages_count s).
Definition upd_cpu c s := Vms (xs s) c (pages s) (frames s) (VM_State s)
  (all_pages s) (physical_page_offset s) (total_pages_count s).
Definition upd_pages m s := Vms (xs s) (cpus s) m (frames s) (VM_State s)
  (all_pages s) (physical_page_offset s) (total_pages_count s).
Definition upd_frames m s := Vms (xs s) (cpus s) (pages s) m (VM_State s)
  (all_pages s) (physical_page_offset s) (total_pages_count s).
Definition upd_stat v s := Vms (xs s) (cpus s) (pages s) (frames s) v
  (all_pages s) (physical_page_offset s) (total_pages_count s).

Abbreviation on_lists := (zoom xs upd_xs).
Abbreviation on_cpu := (zoom cpus upd_cpu).

Definition ld_page (p : Z) : M vms vm_page := load (λ s, pages s !! p).

Definition st_page (p : Z) (f : vm_page → vm_page) : M vms unit := λ s,
  match pages s !! p with
  | Some pg => Ok (tt, upd_pages (<[p := f pg]> (pages s)) s)
  | None => Fault
  end.

(** The state is a 4-bit field. *)
Definition st_state (p k : Z) : M vms unit :=
  st_page p (λ g, VmPage (ppn g) (wire_count g) (ptype g) (uwrap 4 k)).

(** [VM_State.<counter of state k> += d] in 32 bits. *)
Definition stat_add (k d : Z) (v : vm_stat) : vm_stat :=
  let 'VmStat ps tp a i w b c f u := v in
  if k =? VM_PAGE_STATE_ACTIVE then VmStat ps tp (u32 (a + d)) i w b c f u
  else if k =? VM_PAGE_STATE_INACTIVE then VmStat ps tp a (u32 (i + d)) w b c f u
  else if k =? VM_PAGE_STATE_FREE then VmStat ps tp a i w b c (u32 (f + d)) u
  else if k =? VM_PAGE_STATE_CLEAR then VmStat ps tp a i w b (u32 (c + d)) f u
  else if k =? VM_PAGE_STATE_WIRED then VmStat ps tp a i (u32 (w + d)) b c f u
  else if k =? VM_PAGE_STATE_BUSY then VmStat ps tp a i w (u32 (b + d)) c f u
  else if k =? VM_PAGE_STATE_UNUSED then VmStat ps tp a i w b c f (u32 (u + d))
  else v.

Definition count_page (k d : Z) : M vms unit :=
  modify (λ s, upd_stat (stat_add k d (VM_State s)) s).

(** ** Local operations on lists and pages *)

Definition put_page_to_list (l page : Z) : M vms unit :=
  on_lists (xlist_add_last l page);; mret tt.

(** [containerof] subtracts the offset 0: no element gives no page. *)
Definition get_page_from_list (l : Z) : M vms Z :=
  tmp ← on_lists (xlist_extract_first l); mret tmp.

Definition remove_page_from_list (l page : Z) : M vms unit :=
  on_lists (xlist_remove l page);; mret tt.

Definition move_page_to_list (list_from list_to page : Z) : M vms unit :=
  when (negb (list_from =? list_to))
    (on_lists (xlist_remove list_from page);;
     on_lists (xlist_add_last list_to page);; mret tt).

(** The switch on the state a page leaves: its counter goes down, the result is
    the list the page is on. *)
Definition source_list (state : Z) : M vms Z :=
  if state =? VM_PAGE_STATE_ACTIVE then
    count_page VM_PAGE_STATE_ACTIVE (-1);; mret active_pages_list
  else if state =? VM_PAGE_STATE_INACTIVE then
    count_page VM_PAGE_STATE_INACTIVE (-1);; mret active_pages_list
  else if state =? VM_PAGE_STATE_UNUSED then
    count_page VM_PAGE_STATE_UNUSED (-1);; mret active_pages_list
  else if state =? VM_PAGE_STATE_WIRED then
    count_page VM_PAGE_STATE_WIRED (-1);; mret active_pages_list
  else if state =? VM_PAGE_STATE_BUSY then
    count_page VM_PAGE_STATE_BUSY (-1);; mret active_pages_list
  else if state =? VM_PAGE_STATE_FREE then
    count_page VM_PAGE_STATE_FREE (-1);; mret free_pages_list
  else if state =? VM_PAGE_STATE_CLEAR then
    count_page VM_PAGE_STATE_CLEAR (-1);; mret clear_pages_list
  else panic.

(** The switch on the state a page enters. *)
Definition target_list (state : Z) : M vms Z :=
  if state =? VM_PAGE_STATE_ACTIVE then
    count_page VM_PAGE_STATE_ACTIVE 1;; mret active_pages_list
  else if state =? VM_PAGE_STATE_INACTIVE then
    count_page VM_PAGE_STATE_INACTIVE 1;; mret active_pages_list
  else if state =? VM_PAGE_STATE_UNUSED then
    count_page VM_PAGE_STATE_UNUSED 1;; mret active_pages_list
  else if state =? VM_PAGE_STATE_WIRED then
    count_page VM_PAGE_STATE_WIRED 1;; mret active_pages_list
  else if state =? VM_PAGE_STATE_BUSY then
    count_page VM_PAGE_STATE_BUSY 1;; mret active_pages_list
  else if state =? VM_PAGE_STATE_FREE then
    count_page VM_PAGE_STATE_FREE 1;; mret free_pages_list
  else if state =? VM_PAGE_STATE_CLEAR then
    count_page VM_PAGE_STATE_CLEAR 1;; mret clear_pages_list
  else panic.

Definition set_page_state (page page_state : Z) : M vms Z :=
  pg ← ld_page page;
  if pstate pg =? page_state then mret 0
  else
    from_list ← source_list (pstate pg);
    to_list ← target_list page_state;
    move_page_to_list from_list to_list page;;
    st_state page page_state;;
    mret 0.

(** The page frame at physical address [pa] is filled with zeroes; the temporary
    mapping [vm_pmap_get_ppage] makes and [vm_pmap_put_ppage] drops is not part of
    the model. *)
Definition clear_page (pa : Z) : M vms unit :=
  modify (λ s, upd_frames (<[pa := replicate (Z.to_nat PAGE_SIZE) 0]> (frames s)) s).

(** ** Look-up *)

Definition vm_page_lookup (page_num : Z) : M vms Z :=
  off ← gets physical_page_offset;
  if page_num <? off then mret NULL
  else
    let page_num := u32 (page_num - off) in
    total ← gets total_pages_count;
    if total <=? page_num then mret NULL
    else gets (λ s, page_ptr s page_num).

(** ** Initialization *)

(** [last_phys_page] after the loop over the ranges: the last one decides. *)
Definition last_phys_page (ranges : list (Z * Z)) : Z :=
  foldl (λ _ r, u32 (u32 (r.1 + r.2) / PAGE_SIZE - 1)) 0 ranges.

Definition vm_page_preinit (ka : kargs) : M vms Z :=
  on_lists (xlist_init free_pages_list);;
  on_lists (xlist_init clear_pages_list);;
  on_lists (xlist_init active_pages_list);;
  on_cpu (spin_init page_lock);;
  first ← load (λ _, phys_mem_range ka !! 0%nat);
  let off := first.1 / PAGE_SIZE in
  let total := u32 (last_phys_page (phys_mem_range ka) - off + 1) in
  modify (λ s, Vms (xs s) (cpus s) (pages s) (frames s)
    (let 'VmStat _ _ a i w b c f u := VM_State s in VmStat PAGE_SIZE total a i w b c f u)
    (all_pages s) off total);;
  mret 0.

(** ** Marking pages used *)

Definition mark_page_inuse (page : Z) : M vms unit :=
  pg ← ld_page page;
  if (pstate pg =? VM_PAGE_STATE_CLEAR) || (pstate pg =? VM_PAGE_STATE_FREE) then
    set_page_state page VM_PAGE_STATE_UNUSED;; mret tt
  else mret tt.

Fixpoint mark_loop (n : nat) (start_page i : Z) : M vms unit :=
  match n with
  | O => mret tt
  | S n =>
      a ← gets (λ s, page_ptr s (u32 (start_page + i)));
      mark_page_inuse a;;
      mark_loop n start_page (i + 1)
  end.

Definition vm_page_mark_range_inuse (start_page len_pages : Z) : M vms Z :=
  off ← gets physical_page_offset;
  if start_page <? off then mret ERR_INVALID_ARGS
  else
    let start_page := u32 (start_page - off) in
    total ← gets total_pages_count;
    if total <=? u32 (start_page + len_pages) then mret ERR_INVALID_ARGS
    else
      irqs_state ← on_cpu (spin_lock_irqsave page_lock);
      mark_loop (Z.to_nat len_pages) start_page 0;;
      on_cpu (spin_unlock_irqrstor page_lock irqs_state);;
      mret NO_ERROR.

Definition vm_page_mark_page_inuse (page : Z) : M vms Z :=
  vm_page_mark_range_inuse page 1.

(** The loop over the pages of the array, from index [i]. *)
Fixpoint init_loop (n : nat) (i : Z) : M vms unit :=
  match n with
  | O => mret tt
  | S n =>
      a ← gets (λ s, page_ptr s i);
      off ← gets physical_page_offset;
      st_page a (λ _, VmPage (u32 (off + i)) 0 VM_PAGE_TYPE_PHYSICAL VM_PAGE_STATE_FREE);;
      count_page VM_PAGE_STATE_FREE 1;;
      put_page_to_list free_pages_list a;;
      init_loop n (i + 1)
  end.

Fixpoint mark_ranges (ranges : list (Z * Z)) : M vms unit :=
  match ranges with
  | [] => mret tt
  | r :: ranges =>
      vm_page_mark_range_inuse (r.1 / PAGE_SIZE) (r.2 / PAGE_SIZE);;
      mark_ranges ranges
  end.

(** [base]: the address [vm_alloc_from_kargs] returns for the array. *)
Definition vm_page_init (ka : kargs) (base : Z) : M vms Z :=
  modify (λ s, Vms (xs s) (cpus s) (pages s) (frames s) (VM_State s) base
    (physical_page_offset s) (total_pages_count s));;
  n ← gets total_pages_count;
  init_loop (Z.to_nat n) 0;;
  mark_ranges (phys_alloc_range ka);;
  mret NO_ERROR.

(** ** Allocation *)

Definition page_frame_clear (p : Z) : M vms unit :=
  pg ← ld_page p; clear_page (u32 (ppn pg * PAGE_SIZE)).

(** The switch that takes a page off its list when it may be allocated; [false]
    when its state does not allow it. *)
Definition take_page (p : Z) : M vms bool :=
  pg ← ld_page p;
  if pstate pg =? VM_PAGE_STATE_FREE then
    remove_page_from_list free_pages_list p;;
    count_page VM_PAGE_STATE_FREE (-1);; mret true
  else if pstate pg =? VM_PAGE_STATE_CLEAR then
    remove_page_from_list clear_pages_list p;;
    count_page VM_PAGE_STATE_CLEAR (-1);; mret true
  else if pstate pg =? VM_PAGE_STATE_UNUSED then
    count_page VM_PAGE_STATE_UNUSED (-1);; mret true
  else mret false.

(** The page becomes busy and, unless it was unused and so already there, enters
    the list of pages in use; the result is its previous state. *)
Definition make_busy (p : Z) : M vms Z :=
  pg ← ld_page p;
  let old_page_state := pstate pg in
  st_state p VM_PAGE_STATE_BUSY;;
  count_page VM_PAGE_STATE_BUSY 1;;
  when (negb (old_page_state =? VM_PAGE_STATE_UNUSED))
    (put_page_to_list active_pages_list p);;
  mret old_page_state.

Definition vm_page_alloc_specific (page_num page_state : Z) : M vms Z :=
  irqs_state ← on_cpu (spin_lock_irqsave page_lock);
  p ← vm_page_lookup page_num;
  r ← (if p =? NULL then mret (NULL, VM_PAGE_STATE_BUSY)
       else
         ok ← take_page p;
         if ok : bool then old ← make_busy p; mret (p, old)
         else mret (NULL, VM_PAGE_STATE_BUSY));
  on_cpu (spin_unlock_irqrstor page_lock irqs_state);;
  let '(p, old_page_state) := r in
  when (negb (p =? NULL) && (page_state =? VM_PAGE_STATE_CLEAR) &&
        ((old_page_state =? VM_PAGE_STATE_FREE) ||
         (old_page_state =? VM_PAGE_STATE_UNUSED)))
    (page_frame_clear p);;
  mret p.

(** [for(i = first; i < first + npages; i++)] with the bound computed in 32 bits:
    the number of iterations. *)
Definition range_iters (first npages : Z) : nat := Z.to_nat (u32 (first + npages) - first).

Definition allocatable (k : Z) : bool :=
  (k =? VM_PAGE_STATE_FREE) || (k =? VM_PAGE_STATE_CLEAR) ||
  (k =? VM_PAGE_STATE_UNUSED).

Fixpoint check_range (n : nat) (i : Z) : M vms bool :=
  match n with
  | O => mret true
  | S n =>
      p ← vm_page_lookup i;
      if p =? NULL then mret false
      else
        pg ← ld_page p;
        if negb (allocatable (pstate pg)) then mret false else check_range n (i + 1)
  end.

(** The loop that allocates; the result is [need_clear]. *)
Fixpoint take_range (n : nat) (i page_state : Z) (need_clear : bool) : M vms bool :=
  match n with
  | O => mret need_clear
  | S n =>
      p ← gets (λ s, page_ptr s i);
      ok ← take_page p;
      if negb ok then panic
      else
        old ← make_busy p;
        take_range n (i + 1) page_state
          (need_clear || ((page_state =? VM_PAGE_STATE_CLEAR) &&
             ((old =? VM_PAGE_STATE_FREE) || (old =? VM_PAGE_STATE_UNUSED))))
  end.

Fixpoint clear_range (n : nat) (i : Z) : M vms unit :=
  match n with
  | O => mret tt
  | S n => p ← gets (λ s, page_ptr s i); page_frame_clear p;; clear_range n (i + 1)
  end.

Definition vm_page_alloc_specific_range (first_page_num npages page_state : Z) : M vms Z :=
  if npages =? 0 then mret NULL
  else
    irqs_state ← on_cpu (spin_lock_irqsave page_lock);
    ok ← check_range (range_iters first_page_num npages) first_page_num;
    if ok : bool then
      off ← gets physical_page_offset;
      let first := u32 (first_page_num - off) in
      need_clear ← take_range (range_iters first npages) first page_state false;
      first_page ← gets (λ s, page_ptr s first);
      on_cpu (spin_unlock_irqrstor page_lock irqs_state);;
      when need_clear (clear_range (range_iters first npages) first);;
      mret first_page
    else
      on_cpu (spin_unlock_irqrstor page_lock irqs_state);; mret NULL.

(** The two lists of [vm_page_alloc], the preferred one first; [None] for a state
    one cannot ask for. *)
Definition alloc_lists (page_state : Z) : option (Z * Z) :=
  if page_state =? VM_PAGE_STATE_FREE then Some (free_pages_list, clear_pages_list)
  else if page_state =? VM_PAGE_STATE_CLEAR then Some (clear_pages_list, free_pages_list)
  else None.

Definition vm_page_alloc (page_state : Z) : M vms Z :=
  match alloc_lists page_state with
  | None => mret NULL
  | Some (pages_list, spare_pages_list) =>
      irqs_state ← on_cpu (spin_lock_irqsave page_lock);
      p ← get_page_from_list pages_list;
      r ← (if p =? NULL then
             p ← get_page_from_list spare_pages_list;
             if p =? NULL then panic else mret (p, spare_pages_list)
           else mret (p, pages_list));
      let '(p, pages_list) := r in
      (if pages_list =? free_pages_list then count_page VM_PAGE_STATE_FREE (-1)
       else count_page VM_PAGE_STATE_CLEAR (-1));;
      pg ← ld_page p;
      let old_page_state := pstate pg in
      st_state p VM_PAGE_STATE_BUSY;;
      count_page VM_PAGE_STATE_BUSY 1;;
      put_page_to_list active_pages_list p;;
      on_cpu (spin_unlock_irqrstor page_lock irqs_state);;
      when ((page_state =? VM_PAGE_STATE_CLEAR) &&
            (old_page_state =? VM_PAGE_STATE_FREE)) (page_frame_clear p);;
      mret p
  end.

(** The inner loop of [vm_page_alloc_range] from index [i] of the window that
    starts at [start]: [inr tt] when all pages of the window are free, [inl i]
    with the value of [i] after the [i++] that follows the first one that is not. *)
Fixpoint scan_window (n : nat) (start i : Z) : M vms (Z + unit) :=
  match n with
  | O => mret (inr tt)
  | S n =>
      p ← gets (λ s, page_ptr s (u32 (start + i)));
      pg ← ld_page p;
      if negb (pstate pg =? VM_PAGE_STATE_FREE) && negb (pstate pg =? VM_PAGE_STATE_CLEAR)
      then mret (inl (i + 1))
      else scan_window n start (i + 1)
  end.

Fixpoint busy_loop (n : nat) (start i : Z) : M vms unit :=
  match n with
  | O => mret tt
  | S n =>
      p ← gets (λ s, page_ptr s (u32 (start + i)));
      set_page_state p VM_PAGE_STATE_BUSY;;
      busy_loop n start (i + 1)
  end.

(** The outer loop: [start] grows in every iteration that does not end it. *)
Fixpoint find_window (fuel : nat) (start npages : Z) : M vms Z :=
  match fuel with
  | O => hang
  | S fuel =>
      total ← gets total_pages_count;
      if total <=? u32 (start + npages) then mret NULL
      else
        r ← scan_window (Z.to_nat npages) start 0;
        match r with
        | inr _ =>
            busy_loop (Z.to_nat npages) start 0;;
            gets (λ s, page_ptr s start)
        | inl i =>
            let start := u32 (start + i) in
            if total <=? start then mret NULL else find_window fuel start npages
        end
  end.

Definition vm_page_alloc_range (page_state npages : Z) : M vms Z :=
  irqs_state ← on_cpu (spin_lock_irqsave page_lock);
  fuel ← gets (λ s, S (Z.to_nat (total_pages_count s)));
  first_page ← find_window fuel 0 npages;
  on_cpu (spin_unlock_irqrstor page_lock irqs_state);;
  mret first_page.

Definition vm_page_set_state (page page_state : Z) : M vms Z :=
  irqs_state ← on_cpu (spin_lock_irqsave page_lock);
  err ← set_page_state page page_state;
  on_cpu (spin_unlock_irqrstor page_lock irqs_state);;
  mret err.

Definition vm_page_pages_count : M vms Z := gets total_pages_count.

Definition vm_page_free_pages_count : M vms Z :=
  f ← on_lists (ld_list free_pages_list);
  c ← on_lists (ld_list clear_pages_list);
  mret (u32 (xl_count f + xl_count c)).

(** ** Pages from the kernel arguments, before the lists exist *)

Definition is_page_in_phys_range (ranges : list (Z * Z)) (paddr : Z) : bool :=
  existsb (λ r, (r.1 <=? paddr) && (paddr <? u32 (r.1 + r.2))) ranges.

(** The loop over the allocated ranges, [before] those already passed. *)
Fixpoint alloc_ppage_loop (mem before ranges : list (Z * Z)) : option (Z * list (Z * Z)) :=
  match ranges with
  | [] => None
  | r :: rest =>
      let next_page := u32 (r.1 + r.2) in
      let collides :=
        match rest with
        | [] => false
        | r' :: _ => negb (r'.2 =? 0) && (r'.1 <=? next_page)
        end in
      if negb collides && is_page_in_phys_range mem next_page then
        let r' := (r.1, u32 (r.2 + PAGE_SIZE)) in
        Some (u32 (r'.1 + r'.2 - PAGE_SIZE) / PAGE_SIZE, before ++ r' :: rest)
      else alloc_ppage_loop mem (before ++ [r]) rest
  end.

(** The page number, 0 when there is none, and the updated arguments. *)
Definition vm_alloc_ppage_from_kargs (ka : kargs) : Z * kargs :=
  match alloc_ppage_loop (phys_mem_range ka) [] (phys_alloc_range ka) with
  | Some (pg, ranges) => (pg, Kargs (phys_mem_range ka) ranges)
  | None => (0, ka)
  end.

(** ** Lists as classes of pages

    [lists_rep x cls]: each of the three lists of the store [x] holds exactly the
    addresses its class [cls l] describes. *)

Definition page_lists : list Z := [free_pages_list; clear_pages_list; active_pages_list].

Definition lists_rep (x : xstore) (cls : Z → Z → Prop) : Prop :=
  ∀ l, l ∈ page_lists → ∃ ys, is_xlist x l ys ∧ ∀ a, a ∈ ys ↔ cls l a.

#[export] Instance lists_rep_proper x :
  Proper (pointwise_relation Z (pointwise_relation Z iff) ==> iff) (lists_rep x).
Proof.
  intros c1 c2 Hc. unfold lists_rep. split; intros H l (ys & Hy & Hiff)%H;
    exists ys; split; try done; intros a; rewrite Hiff; [|symmetry]; apply Hc.
Qed.

Definition disjoint_classes (cls : Z → Z → Prop) : Prop :=
  ∀ l1 l2 a, cls l1 a → cls l2 a → l1 = l2.

Section lists_rep.
Context (x : xstore) (cls : Z → Z → Prop).
Hypothesis Hrep : lists_rep x cls.
Hypothesis Hdis : disjoint_classes cls.

(** The lists other than [l] survive an operation on the elements of [l] and on
    one that is on no other list. *)
Lemma lists_rep_frame l ys es x' :
  is_xlist x l ys → (∀ a, a ∈ ys ↔ cls l a) →
  xframe x x' l es → (∀ a, a ∈ es → ∀ l', l' ≠ l → ¬ cls l' a) →
  ∀ l', l' ∈ page_lists → l' ≠ l →
  ∃ ys', is_xlist x' l' ys' ∧ ∀ a, a ∈ ys' ↔ cls l' a.
Proof.
  intros Hx Hys Hf Hes l' Hl' Hne. destruct (Hrep l' Hl') as (ys' & Hx' & Hiff).
  exists ys'. split; [|done]. eapply is_xlist_frame; [done..| |done].
  intros a Ha Hin. by apply (Hes a Hin l' Hne), Hiff.
Qed.

Lemma wp_lists_remove l a Q :
  l ∈ page_lists → cls l a →
  (∀ x', lists_rep x' (λ l' b, cls l' b ∧ b ≠ a) → dom (nodes x') = dom (nodes x) →
     Q 1 x') →
  wp (xlist_remove l a) x Q.
Proof.
  intros Hl Ha HQ. destruct (Hrep l Hl) as (ys & Hx & Hiff).
  pose proof Ha as (l1 & l2 & ->)%Hiff%list_elem_of_split.
  eapply wp_xlist_remove_in; [done|]. intros x' Hx' Hf _.
  apply HQ; [|apply Hf]. intros l' Hl'. destruct (decide (l' = l)) as [->|Hne].
  - exists (l1 ++ l2). split; [done|]. intros b. rewrite <- Hiff.
    destruct Hx as [_ _ (_ & H1 & H2)%NoDup_middle _].
    destruct (decide (b = a)); set_solver.
  - destruct (lists_rep_frame l _ _ x' Hx Hiff Hf) with l' as (ys' & Hy & Hy'); [|done..|].
    { intros b Hb%Hiff l'' Hn Hc. by apply Hn, (Hdis _ _ b). }
    exists ys'. split; [done|]. intros b. rewrite Hy'.
    split; [|tauto]. intros Hb. split; [done|]. intros ->. by apply Hne, (Hdis _ _ a).
Qed.

Lemma wp_lists_add_last l a Q :
  l ∈ page_lists → (∀ l', ¬ cls l' a) → valid_ptr a → a ∈ dom (nodes x) →
  (∀ x', lists_rep x' (λ l' b, cls l' b ∨ l' = l ∧ b = a) →
     dom (nodes x') = dom (nodes x) → Q 1 x') →
  wp (xlist_add_last l a) x Q.
Proof.
  intros Hl Ha Hv Hd%elem_of_dom HQ. destruct (Hrep l Hl) as (ys & Hx & Hiff).
  eapply wp_xlist_add_last; [done| |done..|].
  { intros Hin. by apply (Ha l), Hiff. }
  intros x' Hx' Hf. apply HQ; [|apply Hf].
  intros l' Hl'. destruct (decide (l' = l)) as [->|Hne].
  - exists (ys ++ [a]). split; [done|]. intros b. rewrite <- Hiff. set_solver.
  - destruct (lists_rep_frame l _ _ x' Hx Hiff Hf) with l' as (ys' & Hy & Hy'); [|done..|].
    { intros b [->|Hb]%elem_of_cons l'' Hn Hc; [by eapply Ha|].
      by apply Hn, (Hdis _ _ b); [|apply Hiff]. }
    exists ys'. split; [done|]. intros b. rewrite Hy'. naive_solver.
Qed.

Lemma wp_lists_extract l Q :
  l ∈ page_lists → (∀ a, cls l a → valid_ptr a) →
  ((∀ a, ¬ cls l a) → Q NULL x) →
  (∀ a x', cls l a → lists_rep x' (λ l' b, cls l' b ∧ b ≠ a) →
     dom (nodes x') = dom (nodes x) → Q a x') →
  wp (xlist_extract_first l) x Q.
Proof.
  intros Hl Hval HQ0 HQ. destruct (Hrep l Hl) as (ys & Hx & Hiff).
  eapply wp_xlist_extract_first; [done| |].
  - intros ->. apply HQ0. intros a Ha%Hiff. set_solver.
  - intros a ys' x' -> Hx' Hf _. apply HQ; [apply Hiff; by left| |apply Hf].
    intros l' Hl'. destruct (decide (l' = l)) as [->|Hne].
    + exists ys'. split; [done|]. intros b. rewrite <- Hiff.
      destruct Hx as [_ _ [Hn _]%NoDup_cons _]. destruct (decide (b = a)); set_solver.
    + destruct (lists_rep_frame l _ _ x' Hx Hiff Hf) with l' as (ys & Hy & Hy'); [|done..|].
      { intros b Hb%Hiff l'' Hn Hc. by apply Hn, (Hdis _ _ b). }
      exists ys. split; [done|]. intros b. rewrite Hy'. split; [|tauto].
      intros Hb. split; [done|]. intros ->.
      by apply Hne, (Hdis _ _ a); [|apply Hiff; left].
Qed.
End lists_rep.

(** ** The invariant *)

Definition is_state (k : Z) : Prop := 0 ≤ k ≤ 6.

(** The list a page in state [k] is on. *)
Definition list_of (k : Z) : Z :=
  if k =? VM_PAGE_STATE_FREE then free_pages_list
  else if k =? VM_PAGE_STATE_CLEAR then clear_pages_list
  else active_pages_list.

(** The counter of [VM_State] for state [k]. *)
Definition counter (k : Z) (v : vm_stat) : Z :=
  if k =? VM_PAGE_STATE_ACTIVE then active_pages v
  else if k =? VM_PAGE_STATE_INACTIVE then inactive_pages v
  else if k =? VM_PAGE_STATE_FREE then free_pages v
  else if k =? VM_PAGE_STATE_CLEAR then clear_pages v
  else if k =? VM_PAGE_STATE_WIRED then wired_pages v
  else if k =? VM_PAGE_STATE_BUSY then busy_pages v
  else unused_pages v.

Definition in_state (m : gmap Z vm_page) (a k : Z) : Prop :=
  ∃ p, m !! a = Some p ∧ pstate p = k.

(** How many pages are in state [k]. *)
Definition count (k : Z) (m : gmap Z vm_page) : Z :=
  Z.of_nat (size (filter (λ ap, pstate ap.2 = k) m)).

(** The page [a] is on list [l]. *)
Definition page_class (m : gmap Z vm_page) (l a : Z) : Prop :=
  ∃ p, m !! a = Some p ∧ list_of (pstate p) = l.

Definition with_state (k : Z) (p : vm_page) : vm_page :=
  VmPage (ppn p) (wire_count p) (ptype p) k.

Record vmp_inv (s : vms) : Prop := {
  vi_geom : 0 < all_pages s ∧ 0 ≤ total_pages_count s ∧
    all_pages s + sizeof_vm_page * total_pages_count s < 2 ^ 32 ∧
    0 ≤ physical_page_offset s ∧
    physical_page_offset s + total_pages_count s ≤ 2 ^ 20;
  vi_dom : ∀ a, is_Some (pages s !! a) ↔
    ∃ i, 0 ≤ i < total_pages_count s ∧ a = page_ptr s i;
  vi_page : ∀ i p, pages s !! page_ptr s i = Some p →
    ppn p = physical_page_offset s + i ∧ is_state (pstate p);
  vi_nodes : ∀ a, is_Some (pages s !! a) → a ∈ dom (nodes (xs s));
  vi_lists : lists_rep (xs s) (page_class (pages s));
  vi_stat : ∀ k, is_state k → counter k (VM_State s) = count k (pages s) }.

(** Outside a critical section. *)
Definition unlocked (s : vms) : Prop :=
  locks (cpus s) !! page_lock = Some SPIN_UNLOCKED.

(** What the routines on pages leave alone. *)
Record same_rest (s s' : vms) : Prop := {
  sr_all : all_pages s' = all_pages s;
  sr_off : physical_page_offset s' = physical_page_offset s;
  sr_total : total_pages_count s' = total_pages_count s;
  sr_cpus : cpus s' = cpus s;
  sr_frames : frames s' = frames s }.

#[export] Instance same_rest_preorder : PreOrder same_rest.
Proof.
  split; [done|]. intros s1 s2 s3 [] []. split; congruence.
Qed.

Lemma same_rest_ptr s s' i : same_rest s s' → page_ptr s' i = page_ptr s i.
Proof. intros []. unfold page_ptr. congruence. Qed.

Lemma list_of_in k : list_of k ∈ page_lists.
Proof. unfold list_of. repeat case_match; set_solver. Qed.

Lemma page_class_disjoint m : disjoint_classes (page_class m).
Proof. intros l1 l2 a (p1 & H1 & <-) (p2 & H2 & <-). congruence. Qed.

Lemma page_ptr_inj s i j : page_ptr s i = page_ptr s j → i = j.
Proof. unfold page_ptr, sizeof_vm_page. lia. Qed.

Lemma vi_valid s a p : vmp_inv s → pages s !! a = Some p → valid_ptr a.
Proof.
  intros [Hg Hd _ _ _ _] Ha. destruct (proj1 (Hd a)) as (i & Hi & ->); [eauto|].
  unfold valid_ptr, page_ptr, sizeof_vm_page in *. lia.
Qed.

(** ** Counting pages *)

Lemma count_insert_new k a p (m : gmap Z vm_page) :
  m !! a = None → count k (<[a := p]> m) = count k m + (if decide (pstate p = k) then 1 else 0).
Proof.
  intros Ha. unfold count. rewrite map_filter_insert. simpl. case_decide as E.
  - rewrite map_size_insert_None; [lia|]. apply map_lookup_filter_None. by left.
  - rewrite map_filter_delete_not; [lia|]. intros q Hq. congruence.
Qed.

Lemma count_update k a p q (m : gmap Z vm_page) :
  m !! a = Some p →
  count k (<[a := q]> m) = count k m - (if decide (pstate p = k) then 1 else 0)
    + (if decide (pstate q = k) then 1 else 0).
Proof.
  intros Ha. rewrite <- insert_delete_eq, count_insert_new by apply lookup_delete_eq.
  rewrite <- (insert_delete_id m a p Ha) at 2.
  rewrite count_insert_new by apply lookup_delete_eq. lia.
Qed.

Lemma count_range k m : 0 ≤ count k m ≤ Z.of_nat (size m).
Proof.
  unfold count. split; [lia|]. apply Nat2Z.inj_le, map_size_filter.
Qed.

Lemma vi_size s : vmp_inv s → Z.of_nat (size (pages s)) < 2 ^ 32.
Proof.
  intros [Hg Hd _ _ _ _].
  assert (size (pages s) ≤ Z.to_nat (total_pages_count s))%nat; [|unfold sizeof_vm_page in *; lia].
  rewrite <- size_dom. etransitivity; [apply subseteq_size with
    (Y := list_to_set (page_ptr s <$> seqZ 0 (total_pages_count s)))|].
  - intros a (i & Hi & ->)%elem_of_dom%Hd. apply elem_of_list_to_set, list_elem_of_fmap.
    exists i. split; [done|]. apply elem_of_seqZ. lia.
  - rewrite size_list_to_set, length_fmap, length_seqZ; [lia|].
    apply NoDup_fmap_2_strong, NoDup_seqZ. intros i j _ _. apply page_ptr_inj.
Qed.

Lemma is_state_cases k : is_state k →
  k = 0 ∨ k = 1 ∨ k = 2 ∨ k = 3 ∨ k = 4 ∨ k = 5 ∨ k = 6.
Proof. unfold is_state. lia. Qed.

Lemma counter_stat_add j k d v : is_state j → is_state k →
  counter j (stat_add k d v) =
  if decide (j = k) then u32 (counter j v + d) else counter j v.
Proof.
  intros Hj%is_state_cases Hk%is_state_cases. destruct v.
  destruct_or! Hj; destruct_or! Hk; subst; reflexivity.
Qed.

(** The counters after a page has moved from one state to another. *)
Lemma stat_move s a p k j :
  vmp_inv s → pages s !! a = Some p → is_state k → is_state (pstate p) → is_state j →
  counter j (stat_add k 1 (stat_add (pstate p) (-1) (VM_State s))) =
  count j (<[a := with_state k p]> (pages s)).
Proof.
  intros Hi Ha Hk Hp Hj. pose proof (vi_size s Hi) as Hs.
  rewrite !counter_stat_add by done. rewrite (vi_stat s Hi) by done.
  assert (Hc := count_range j (<[a := with_state k p]> (pages s))).
  rewrite map_size_insert_Some in Hc by eauto.
  rewrite (count_update j a p (with_state k p)) in * by done. simpl in *.
  pose proof (count_range j (pages s)).
  repeat case_decide; subst; autorewrite with wrap; try rewrite uwrap_small; lia.
Qed.

Lemma source_list_ok k s : is_state k →
  source_list k s = Ok (list_of k, upd_stat (stat_add k (-1) (VM_State s)) s).
Proof. intros Hk%is_state_cases. by destruct_or! Hk; subst. Qed.

Lemma target_list_ok k s : is_state k →
  target_list k s = Ok (list_of k, upd_stat (stat_add k 1 (VM_State s)) s).
Proof. intros Hk%is_state_cases. by destruct_or! Hk; subst. Qed.

Lemma wp_ld_page a p s Q : pages s !! a = Some p → Q p s → wp (ld_page a) s Q.
Proof. intros. by eapply wp_load. Qed.

Lemma wp_st_state a p k s Q :
  pages s !! a = Some p → is_state k →
  Q tt (upd_pages (<[a := with_state k p]> (pages s)) s) → wp (st_state a k) s Q.
Proof.
  intros Ha Hk HQ. unfold wp, st_state, st_page. rewrite Ha.
  by rewrite uwrap_small by (unfold is_state in Hk; simpl; lia).
Qed.

(** The invariant after a page has changed its state, its lists and counters
    having followed. *)
Lemma inv_change s s' a p k :
  vmp_inv s → pages s !! a = Some p → is_state k →
  all_pages s' = all_pages s → physical_page_offset s' = physical_page_offset s →
  total_pages_count s' = total_pages_count s →
  pages s' = <[a := with_state k p]> (pages s) →
  VM_State s' = stat_add k 1 (stat_add (pstate p) (-1) (VM_State s)) →
  dom (nodes (xs s')) = dom (nodes (xs s)) →
  lists_rep (xs s') (page_class (pages s')) →
  vmp_inv s'.
Proof.
  intros Hi Ha Hk E1 E2 E3 Ep Ev Ed Hl.
  pose proof Hi as [Hg Hd Hpg Hn _ _].
  assert (∀ b, is_Some (pages s' !! b) ↔ is_Some (pages s !! b)) as Hdom.
  { intros b. rewrite Ep, lookup_insert. case_decide; subst; [|done].
    rewrite Ha. by split; eauto. }
  assert (∀ i, page_ptr s' i = page_ptr s i) as Eptr by (intros i; unfold page_ptr; congruence).
  assert (is_state (pstate p)) as Hp.
  { destruct (proj1 (Hd a)) as (i & ? & ->); [eauto|]. by destruct (Hpg i p). }
  split.
  - by rewrite E1, E2, E3.
  - intros b. rewrite Hdom, Hd, E3. by setoid_rewrite Eptr.
  - intros i q. rewrite Eptr, E2, Ep, lookup_insert. case_decide as E; [|apply Hpg].
    intros [= <-]. subst a. destruct (Hpg i p Ha). by split.
  - intros b Hb%Hdom%Hn. by rewrite Ed.
  - done.
  - intros j Hj. rewrite Ev, Ep. by apply stat_move.
Qed.

(** The classes after the change, whichever lists the states are on. *)
Lemma page_class_change m a p k l b :
  m !! a = Some p →
  page_class (<[a := with_state k p]> m) l b ↔
  page_class m l b ∧ b ≠ a ∨ l = list_of k ∧ b = a.
Proof.
  intros Ha. unfold page_class. rewrite lookup_insert. case_decide as E.
  - subst. split; [|naive_solver]. intros (q & [= <-] & <-). by right.
  - naive_solver.
Qed.

(** ** [set_page_state] *)

Lemma wp_move_page_to_list s m a p k Q :
  lists_rep (xs s) (page_class m) → m !! a = Some p →
  valid_ptr a → a ∈ dom (nodes (xs s)) →
  (∀ x', lists_rep x' (page_class (<[a := with_state k p]> m)) →
     dom (nodes x') = dom (nodes (xs s)) → Q tt (upd_xs x' s)) →
  wp (move_page_to_list (list_of (pstate p)) (list_of k) a) s Q.
Proof.
  intros Hl Ha Hv Hdom HQ. unfold move_page_to_list.
  pose proof (page_class_disjoint m) as Hdis.
  assert (page_class m (list_of (pstate p)) a) as Hca by (exists p; done).
  apply wp_when; intros E; bool_to_prop.
  - wp_go. eapply wp_lists_remove; [done|done|apply list_of_in|done|].
    intros x1 Hl1 Hd1. wp_go.
    eapply (wp_lists_add_last x1); [exact Hl1| |apply list_of_in|tauto|done| |].
    { intros l1 l2 b [??] [??]. eauto. }
    { simpl. by rewrite Hd1. }
    intros x2 Hl2 Hd2. wp_go. apply HQ; [|by rewrite Hd2].
    eapply lists_rep_proper; [|exact Hl2]. intros l b. by apply page_class_change.
  - assert (s = upd_xs (xs s) s) as -> by by destruct s. apply HQ; [|done].
    eapply lists_rep_proper; [|exact Hl]. intros l b. rewrite page_class_change by done.
    destruct (decide (b = a)) as [->|]; [|tauto].
    rewrite <- E. split; [naive_solver|]. intros Hc. right. split; [|done]. by eapply Hdis.
Qed.

Lemma wp_set_page_state s a p k Q :
  vmp_inv s → pages s !! a = Some p → is_state k →
  (∀ s', vmp_inv s' → same_rest s s' →
     pages s' = <[a := with_state k p]> (pages s) → Q 0 s') →
  wp (set_page_state a k) s Q.
Proof.
  intros Hi Ha Hk HQ. unfold set_page_state. wp_go. eapply wp_ld_page; [done|].
  assert (is_state (pstate p)) as Hp.
  { destruct (proj1 (vi_dom s Hi a)) as (i & ? & ->); [eauto|].
    by destruct (vi_page s Hi i p). }
  apply wp_if; intros E; bool_to_prop.
  - apply wp_ret, HQ; [done|done|]. subst k. rewrite insert_id; [done|].
    rewrite Ha. by destruct p.
  - wp_go. eapply wp_of_ok; [by apply source_list_ok|]. wp_go.
    eapply wp_of_ok; [by apply target_list_ok|]. wp_go.
    eapply (wp_move_page_to_list _ (pages s)); [exact (vi_lists s Hi)|done|by eapply vi_valid| |].
    { apply (vi_nodes s Hi). eauto. }
    intros x' Hl Hd. wp_go. eapply wp_st_state; [done|done|].
    wp_go. apply HQ; [|by split|done]. by eapply (inv_change s _ a p k).
Qed.

(** ** Critical sections of the page lock *)

Definition locked (s : vms) : vms :=
  upd_cpu (Cpu (<[page_lock := SPIN_LOCKED]> (locks (cpus s))) false) s.

Lemma vmp_inv_cpu c s : vmp_inv s → vmp_inv (upd_cpu c s).
Proof. intros []. by split. Qed.

Lemma vmp_inv_frames f s : vmp_inv s → vmp_inv (upd_frames f s).
Proof. intros []. by split. Qed.

Lemma wp_lock s (Q : bool → vms → Prop) :
  unlocked s → Q (irqs (cpus s)) (locked s) →
  wp (on_cpu (spin_lock_irqsave page_lock)) s Q.
Proof. intros Hu HQ. wp_go. by apply wp_spin_lock_irqsave. Qed.

Lemma wp_unlock s0 s (Q : unit → vms → Prop) :
  unlocked s0 → cpus s = cpus (locked s0) → Q tt (upd_cpu (cpus s0) s) →
  wp (on_cpu (spin_unlock_irqrstor page_lock (irqs (cpus s0)))) s Q.
Proof.
  intros Hu Hc HQ. wp_go. apply wp_spin_unlock_irqrstor.
  - rewrite Hc. simpl. rewrite lookup_insert_eq. eauto.
  - rewrite Hc. simpl. by rewrite unlock_locked.
Qed.

(** A change made inside the critical section, seen from outside. *)
Lemma same_rest_unlock s s' : same_rest (locked s) s' → same_rest s (upd_cpu (cpus s) s').
Proof. by intros []. Qed.

(** ** Taking a page *)

Lemma allocatable_cases k : allocatable k = true →
  k = VM_PAGE_STATE_FREE ∨ k = VM_PAGE_STATE_CLEAR ∨ k = VM_PAGE_STATE_UNUSED.
Proof.
  unfold allocatable. rewrite !orb_true_iff, !Z.eqb_eq. tauto.
Qed.

(** The page becomes busy, given that the lists and the counters already lack it
    in its old state. *)
Lemma wp_put_busy s s1 a p Q :
  vmp_inv s → pages s !! a = Some p → pstate p ≠ VM_PAGE_STATE_UNUSED →
  all_pages s1 = all_pages s → physical_page_offset s1 = physical_page_offset s →
  total_pages_count s1 = total_pages_count s →
  pages s1 = <[a := with_state VM_PAGE_STATE_BUSY p]> (pages s) →
  VM_State s1 = stat_add VM_PAGE_STATE_BUSY 1 (stat_add (pstate p) (-1) (VM_State s)) →
  lists_rep (xs s1) (λ l b, page_class (pages s) l b ∧ b ≠ a) →
  dom (nodes (xs s1)) = dom (nodes (xs s)) →
  (∀ x', vmp_inv (upd_xs x' s1) → Q tt (upd_xs x' s1)) →
  wp (put_page_to_list active_pages_list a) s1 Q.
Proof.
  intros Hi Ha Hp E1 E2 E3 Ep Ev Hl Hd HQ. unfold put_page_to_list. wp_go.
  eapply (wp_lists_add_last (xs s1)); [exact Hl| |set_solver|tauto|by eapply vi_valid| |].
  { intros l1 l2 b [H1 _] [H2 _]. by eapply page_class_disjoint. }
  { rewrite Hd. apply (vi_nodes s Hi). eauto. }
  intros x' Hl' Hd'. wp_go. apply HQ.
  eapply (inv_change s _ a p VM_PAGE_STATE_BUSY); try done.
  - simpl. by rewrite Hd'.
  - simpl. rewrite Ep. eapply lists_rep_proper; [|exact Hl'].
    intros l b. by rewrite page_class_change.
Qed.

(** [take_page] then [make_busy]: the caller that finds the page allocatable turns
    it into a busy page. *)
Lemma wp_take_busy s a p (Q : Z → vms → Prop) :
  vmp_inv s → pages s !! a = Some p → allocatable (pstate p) = true →
  (∀ s', vmp_inv s' → same_rest s s' →
     pages s' = <[a := with_state VM_PAGE_STATE_BUSY p]> (pages s) → Q (pstate p) s') →
  wp (take_page a) s (λ ok s1, ok = true ∧ wp (make_busy a) s1 Q).
Proof.
  intros Hi Ha Hall HQ. pose proof (vi_lists s Hi) as Hl.
  assert (is_state VM_PAGE_STATE_BUSY) as Hb by (unfold is_state; by vm_compute).
  assert (page_class (pages s) (list_of (pstate p)) a) as Hca by (exists p; done).
  unfold take_page, remove_page_from_list, count_page. wp_go.
  eapply wp_ld_page; [done|].
  apply allocatable_cases in Hall as [E|[E|E]]; rewrite E in Hca, HQ |- *;
    simpl; wp_go.
  1,2: eapply wp_lists_remove; [exact Hl|apply page_class_disjoint|set_solver|done|];
    intros x1 Hl1 Hd1; wp_go; split; [done|]; unfold make_busy, count_page; wp_go;
    (eapply wp_ld_page; [done|]); wp_go; (eapply wp_st_state; [done|done|]); wp_go;
    rewrite E; simpl;
    (eapply (wp_put_busy s _ a p); [done|done|by rewrite E|done|done|done|done|
      by rewrite E|done|done|]); intros x2 Hi2; wp_go;
    apply HQ; [done|by split|done].
  split; [done|]. unfold make_busy, count_page. wp_go.
  eapply wp_ld_page; [done|]. wp_go. eapply wp_st_state; [done|done|]. wp_go.
  rewrite E. simpl. wp_go. apply HQ; [|by split|done].
  eapply (inv_change s _ a p VM_PAGE_STATE_BUSY); try done; simpl; [by rewrite E|].
  eapply lists_rep_proper; [|exact Hl]. intros l b. rewrite page_class_change by done.
  destruct (decide (b = a)) as [->|]; [|tauto]. split; [naive_solver|].
  intros Hc. right. split; [|done]. by eapply page_class_disjoint.
Qed.

Lemma wp_take_page_fails s a p (Q : bool → vms → Prop) :
  pages s !! a = Some p → allocatable (pstate p) = false → Q false s →
  wp (take_page a) s Q.
Proof.
  intros Ha Hall HQ. unfold take_page. wp_go. eapply wp_ld_page; [done|].
  unfold allocatable in Hall. bool_to_prop.
  repeat (apply wp_if; intros ?; bool_to_prop; [done|]). by apply wp_ret.
Qed.

(** ** Look-up *)

Lemma wp_vm_page_lookup s n (Q : Z → vms → Prop) :
  vmp_inv s → 0 ≤ n < 2 ^ 32 →
  Q (if decide (physical_page_offset s ≤ n < physical_page_offset s + total_pages_count s)
     then page_ptr s (n - physical_page_offset s) else NULL) s →
  wp (vm_page_lookup n) s Q.
Proof.
  intros Hi Hn HQ. unfold vm_page_lookup. wp_go. pose proof (vi_geom s Hi) as Hg.
  apply wp_if; intros E1; bool_to_prop.
  - rewrite decide_False in HQ by lia. by apply wp_ret.
  - wp_go. rewrite uwrap_small by lia. apply wp_if; intros E2; bool_to_prop.
    + rewrite decide_False in HQ by lia. by apply wp_ret.
    + rewrite decide_True in HQ by lia. by wp_go.
Qed.

Lemma vi_index s i :
  vmp_inv s → 0 ≤ i < total_pages_count s → ∃ p, pages s !! page_ptr s i = Some p ∧
    ppn p = physical_page_offset s + i ∧ is_state (pstate p).
Proof.
  intros Hi Hr. destruct (proj2 (vi_dom s Hi (page_ptr s i))) as [p Hp]; [eauto|].
  exists p. split; [done|]. by apply (vi_page s Hi i).
Qed.

Lemma vi_addr s a p :
  vmp_inv s → pages s !! a = Some p → ∃ i, 0 ≤ i < total_pages_count s ∧ a = page_ptr s i ∧
    ppn p = physical_page_offset s + i ∧ is_state (pstate p).
Proof.
  intros Hi Ha. destruct (proj1 (vi_dom s Hi a)) as (i & Hr & ->); [eauto|].
  exists i. destruct (vi_page s Hi i p Ha). done.
Qed.

Lemma page_ptr_nonnull s i : vmp_inv s → 0 ≤ i → (page_ptr s i =? NULL) = false.
Proof.
  intros Hi Hr. pose proof (vi_geom s Hi). apply Z.eqb_neq.
  unfold page_ptr, sizeof_vm_page, NULL in *. lia.
Qed.
