(* ===== verification/VmPageSpec.v ===== *)
(** * Physical pages: what the operations of VmPage promise

    The lemmas say what each operation of [kernel/vm/vm_page.c] does to the array
    of pages, the properties at the end state it for whole calls. *)

From S2P Require Import Prelude Spinlock XList VmPage.
From stdpp Require Import gmap list.
#[local] Open Scope Z_scope.

(** ** Changes to ranges of pages *)

(** Every page of [s] is in [s'] what [f] makes of it, given its index. *)
Definition changed (f : Z → vm_page → vm_page) (s s' : vms) : Prop :=
  ∀ i p, pages s !! page_ptr s i = Some p → pages s' !! page_ptr s i = Some (f i p).

(** [f] on the [n] pages from index [lo], the identity on the others. *)
Definition on_range (lo : Z) (n : nat) (f : vm_page → vm_page) (i : Z) (p : vm_page) :
    vm_page :=
  if decide (lo ≤ i < lo + Z.of_nat n) then f p else p.

Lemma changed_nil lo f s : changed (on_range lo 0 f) s s.
Proof. intros i p Hp. unfold on_range. by rewrite decide_False by lia. Qed.

Lemma changed_cons s s1 s2 lo n f p :
  pages s !! page_ptr s lo = Some p →
  pages s1 = <[page_ptr s lo := f p]> (pages s) → same_rest s s1 →
  changed (on_range (lo + 1) n f) s1 s2 → changed (on_range lo (S n) f) s s2.
Proof.
  intros Hp E1 Hr Hc i q Hq. specialize (Hc i).
  rewrite (same_rest_ptr _ _ i Hr) in Hc. rewrite E1 in Hc.
  unfold on_range in *. destruct (decide (i = lo)) as [->|Hne].
  - assert (q = p) as -> by congruence. rewrite lookup_insert_eq in Hc.
    rewrite (Hc _ eq_refl), decide_False, decide_True by lia. done.
  - rewrite lookup_insert_ne in Hc by (intros E%page_ptr_inj; lia).
    rewrite (Hc _ Hq). repeat case_decide; done || lia.
Qed.

(** A change seen from outside the critical section. *)
Lemma changed_unlock f s s' :
  changed f (locked s) s' → changed f s (upd_cpu (cpus s) s').
Proof. done. Qed.

(** What a routine that keeps the invariant does to the pages. *)
Definition page_step (f : Z → vm_page → vm_page) (s s' : vms) : Prop :=
  vmp_inv s' ∧ same_rest s s' ∧ changed f s s'.

Lemma page_step_ext f g s s' :
  (∀ i p, pages s !! page_ptr s i = Some p → f i p = g i p) →
  page_step f s s' → page_step g s s'.
Proof.
  intros E (? & ? & Hc). split_and!; [done..|]. intros i p Hp. rewrite (Hc i p Hp).
  by rewrite E.
Qed.

Lemma page_step_unlock f s s' :
  page_step f (locked s) s' → page_step f s (upd_cpu (cpus s) s').
Proof.
  intros (? & ? & Hc). split_and!; [by apply vmp_inv_cpu|by apply same_rest_unlock|exact Hc].
Qed.

Lemma page_step_cons s s1 s2 lo n f p :
  pages s !! page_ptr s lo = Some p →
  pages s1 = <[page_ptr s lo := f p]> (pages s) → same_rest s s1 →
  page_step (on_range (lo + 1) n f) s1 s2 → page_step (on_range lo (S n) f) s s2.
Proof.
  intros Hp E Hr (? & ? & ?). split_and!; [done|by etransitivity|].
  by eapply changed_cons.
Qed.

(** ** Marking pages used *)

(** What [vm_page_mark_range_inuse] makes of a page. *)
Definition marked (p : vm_page) : vm_page :=
  if (pstate p =? VM_PAGE_STATE_CLEAR) || (pstate p =? VM_PAGE_STATE_FREE)
  then with_state VM_PAGE_STATE_UNUSED p else p.

Lemma wp_mark_page_inuse s a p (Q : unit → vms → Prop) :
  vmp_inv s → pages s !! a = Some p →
  (∀ s', vmp_inv s' → same_rest s s' → pages s' = <[a := marked p]> (pages s) → Q tt s') →
  wp (mark_page_inuse a) s Q.
Proof.
  intros Hi Ha HQ. unfold mark_page_inuse, marked in *. wp_go. eapply wp_ld_page; [done|].
  apply wp_if; intros E; rewrite E in HQ.
  - wp_go. eapply wp_set_page_state; [done..|by vm_compute|]. intros s' ???. wp_go. by apply HQ.
  - wp_go. apply HQ; [done|done|]. by rewrite insert_id.
Qed.

Lemma wp_mark_loop n start : ∀ i s (Q : unit → vms → Prop),
  vmp_inv s → 0 ≤ start + i → start + i + Z.of_nat n ≤ total_pages_count s →
  (∀ s', page_step (on_range (start + i) n marked) s s' → Q tt s') →
  wp (mark_loop n start i) s Q.
Proof.
  induction n as [|n IH]; intros i s Q Hi H0 Hn HQ; cbn [mark_loop].
  - wp_go. apply HQ. split_and!; [done|done|apply changed_nil].
  - pose proof (vi_geom s Hi). wp_go. rewrite uwrap_small by lia.
    destruct (vi_index s (start + i) Hi) as (p & Hp & _ & _); [lia|].
    eapply wp_mark_page_inuse; [done..|]. intros s1 Hi1 Hr1 E1.
    apply IH; [done|lia|rewrite (sr_total _ _ Hr1); lia|].
    intros s2 Hs2. apply HQ. eapply page_step_cons; [done..|].
    by replace (start + i + 1) with (start + (i + 1)) by lia.
Qed.

(** [vm_page_mark_range_inuse] accepts the range, given that the sum of its bounds
    does not wrap. *)
Definition range_accepted (s : vms) (start len : Z) : Prop :=
  physical_page_offset s ≤ start ∧
  start - physical_page_offset s + len < total_pages_count s.

#[export] Instance range_accepted_dec s start len : Decision (range_accepted s start len) :=
  ltac:(unfold range_accepted; apply _).

Lemma wp_mark_range_inuse s start len (Q : Z → vms → Prop) :
  vmp_inv s → unlocked s → 0 ≤ start < 2 ^ 32 → 0 ≤ len → start + len < 2 ^ 32 →
  (¬ range_accepted s start len → Q ERR_INVALID_ARGS s) →
  (range_accepted s start len → ∀ s', page_step
     (on_range (start - physical_page_offset s) (Z.to_nat len) marked) s s' → Q NO_ERROR s') →
  wp (vm_page_mark_range_inuse start len) s Q.
Proof.
  intros Hi Hu Hs Hl Hw HQ1 HQ2. unfold vm_page_mark_range_inuse, range_accepted in *.
  pose proof (vi_geom s Hi). wp_go.
  apply wp_if; intros E1; bool_to_prop; [wp_go; apply HQ1; lia|]. wp_go.
  rewrite (uwrap_small 32 (start - _)), uwrap_small by lia.
  apply wp_if; intros E2; bool_to_prop; [wp_go; apply HQ1; lia|]. wp_go.
  apply wp_spin_lock_irqsave; [done|]. wp_go.
  apply wp_mark_loop; [by apply (vmp_inv_cpu _ s)|lia|simpl; lia|].
  intros s' Hs'. apply wp_bind. apply wp_unlock; [done|by apply Hs'|]. wp_go.
  apply HQ2; [lia|]. apply page_step_unlock. by rewrite Z.add_0_r in Hs'.
Qed.

(** ** Initialization *)

(** What [vm_page_init] finds: [base] is memory for the array of pages, the lists
    are empty and the counters zero, as [vm_page_preinit] and the loader leave
    them. *)
Record init_pre (base : Z) (s : vms) : Prop := {
  ip_geom : 0 < base ∧ 0 ≤ total_pages_count s ∧
    base + sizeof_vm_page * total_pages_count s < 2 ^ 32 ∧
    0 ≤ physical_page_offset s ∧
    physical_page_offset s + total_pages_count s ≤ 2 ^ 20;
  ip_dom : ∀ a, is_Some (pages s !! a) ↔
    ∃ i, 0 ≤ i < total_pages_count s ∧ a = base + sizeof_vm_page * i;
  ip_nodes : ∀ a, is_Some (pages s !! a) → a ∈ dom (nodes (xs s));
  ip_lists : ∀ l, l ∈ page_lists → is_xlist (xs s) l [];
  ip_stat : ∀ k, is_state k → counter k (VM_State s) = 0 }.

Lemma size_array (m : gmap Z vm_page) base n :
  0 ≤ n → (∀ a, is_Some (m !! a) ↔ ∃ i, 0 ≤ i < n ∧ a = base + sizeof_vm_page * i) →
  Z.of_nat (size m) = n.
Proof.
  intros Hn Hd.
  assert (dom m = list_to_set ((λ i, base + sizeof_vm_page * i) <$> seqZ 0 n)) as E.
  { apply set_eq. intros a. rewrite elem_of_dom, Hd, elem_of_list_to_set, list_elem_of_fmap.
    setoid_rewrite elem_of_seqZ. naive_solver lia. }
  rewrite <- size_dom, E, size_list_to_set, length_fmap, length_seqZ; [lia|].
  apply NoDup_fmap_2_strong, NoDup_seqZ. unfold sizeof_vm_page. intros; lia.
Qed.

Lemma count_uniform k k' (m : gmap Z vm_page) :
  (∀ a p, m !! a = Some p → pstate p = k') →
  count k m = if decide (k = k') then Z.of_nat (size m) else 0.
Proof.
  intros H. unfold count. case_decide as E.
  - rewrite map_filter_id; [done|]. intros a p Hp. simpl. rewrite E. eauto.
  - rewrite map_empty_filter_2; [done|]. intros a p Hp. simpl. rewrite (H a p Hp). congruence.
Qed.

(** The state of the loop of [vm_page_init] before the iteration at index [i]. *)
Record init_at (i : Z) (s : vms) : Prop := {
  ia_geom : 0 < all_pages s ∧ 0 ≤ i ≤ total_pages_count s ∧
    all_pages s + sizeof_vm_page * total_pages_count s < 2 ^ 32 ∧
    0 ≤ physical_page_offset s ∧
    physical_page_offset s + total_pages_count s ≤ 2 ^ 20;
  ia_dom : ∀ a, is_Some (pages s !! a) ↔
    ∃ i, 0 ≤ i < total_pages_count s ∧ a = page_ptr s i;
  ia_done : ∀ j, 0 ≤ j < i → pages s !! page_ptr s j =
    Some (VmPage (physical_page_offset s + j) 0 VM_PAGE_TYPE_PHYSICAL VM_PAGE_STATE_FREE);
  ia_nodes : ∀ a, is_Some (pages s !! a) → a ∈ dom (nodes (xs s));
  ia_lists : lists_rep (xs s) (λ l a, l = free_pages_list ∧ ∃ j, 0 ≤ j < i ∧ a = page_ptr s j);
  ia_stat : ∀ k, is_state k → counter k (VM_State s) = if decide (k = VM_PAGE_STATE_FREE) then i else 0 }.

(** A fresh machine: all pages free. *)
Definition all_free (s : vms) : Prop :=
  ∀ i, 0 ≤ i < total_pages_count s → pages s !! page_ptr s i =
    Some (VmPage (physical_page_offset s + i) 0 VM_PAGE_TYPE_PHYSICAL VM_PAGE_STATE_FREE).

Lemma init_at_end s : init_at (total_pages_count s) s → vmp_inv s ∧ all_free s.
Proof.
  intros [Hg Hd Hdone Hn Hl Hst]. split; [|done]. split; try done; [tauto|..].
  - intros i p Hp. destruct (proj1 (Hd (page_ptr s i))) as (j & Hj & E%page_ptr_inj); [eauto|].
    subst j. rewrite Hdone in Hp by done. by simplify_eq.
  - eapply lists_rep_proper; [|exact Hl]. intros l a. split.
    + intros (p & Hp & <-). destruct (proj1 (Hd a)) as (j & Hj & ->); [eauto|].
      rewrite Hdone in Hp by done. simplify_eq. eauto.
    + intros (-> & j & Hj & ->). eexists. split; [by apply Hdone|done].
  - intros k Hk. rewrite Hst by done. rewrite (count_uniform k VM_PAGE_STATE_FREE).
    + rewrite (size_array _ (all_pages s) (total_pages_count s)); [done|lia|done].
    + intros a p Hp. destruct (proj1 (Hd a)) as (j & Hj & ->); [eauto|].
      rewrite Hdone in Hp by done. by simplify_eq.
Qed.

Lemma wp_init_loop n : ∀ i s (Q : unit → vms → Prop),
  init_at i s → i + Z.of_nat n = total_pages_count s →
  (∀ s', vmp_inv s' → all_free s' → same_rest s s' → Q tt s') →
  wp (init_loop n i) s Q.
Proof.
  induction n as [|n IH]; intros i s Q Hi Hn HQ; cbn [init_loop].
  - wp_go. replace i with (total_pages_count s) in Hi by lia.
    apply init_at_end in Hi as []. by apply HQ.
  - pose proof Hi as [Hg Hd Hdone Hnd Hl Hst]. wp_go.
    destruct (proj2 (Hd (page_ptr s i))) as [p Hp]; [exists i; split; [lia|done]|].
    unfold put_page_to_list, count_page.
    eapply wp_of_ok; [unfold st_page; by rewrite Hp|]. wp_go.
    rewrite (uwrap_small 32 (_ + i)) by lia.
    assert (valid_ptr (page_ptr s i)) as Hv
      by (unfold valid_ptr, page_ptr, sizeof_vm_page in *; lia).
    eapply (wp_lists_add_last (xs s)); [exact Hl| |set_solver| |done|eauto|].
    { intros l1 l2 b [-> _] [-> _]. done. }
    { intros l (-> & j & Hj & E%page_ptr_inj). lia. }
    intros x' Hl' Hdx. wp_go. apply IH; [|simpl; lia|].
    2: { intros s' H1 H2 [E1 E2 E3 E4 E5]. by apply HQ; [| |split]. }
    split; simpl; try done; [lia|..].
    + intros a. rewrite lookup_insert. case_decide; subst; [|apply Hd].
      rewrite <- Hd. rewrite Hp. by split; eauto.
    + intros j Hj. rewrite lookup_insert. case_decide as E.
      * apply (page_ptr_inj s) in E as ->. done.
      * apply Hdone. assert (j ≠ i) by (by intros ->). lia.
    + intros a Ha. rewrite Hdx. apply Hnd. rewrite lookup_insert in Ha.
      case_decide; subst; eauto.
    + eapply lists_rep_proper; [|exact Hl']. intros l a. split.
      * intros (-> & j & Hj & ->). destruct (decide (j = i)) as [->|]; [tauto|].
        left. split; [done|]. exists j. split; [lia|done].
      * intros [(-> & j & Hj & ->)|[-> ->]]; split; try done; eexists; (split; [|done]); lia.
    + intros k Hk. rewrite counter_stat_add, Hst by (done || by vm_compute).
      case_decide; [|done]. apply uwrap_small. lia.
Qed.

Lemma lists_rep_empty x cls :
  (∀ l, l ∈ page_lists → is_xlist x l []) → (∀ l a, ¬ cls l a) → lists_rep x cls.
Proof. intros Hl Hc l Hin. exists []. split; [auto|]. set_solver. Qed.

Lemma init_at_start base s :
  init_pre base s →
  init_at 0 (Vms (xs s) (cpus s) (pages s) (frames s) (VM_State s) base
    (physical_page_offset s) (total_pages_count s)).
Proof.
  intros [Hg Hd Hn Hl Hst]. split; simpl; try done; [lia|lia|..].
  - apply lists_rep_empty; [done|]. intros l a (_ & j & ? & _). lia.
  - intros k Hk. rewrite Hst by done. by case_decide.
Qed.

(** Page index [i] lies in one of the ranges that [vm_page_mark_range_inuse]
    accepts. *)
Definition reserved (s : vms) (ranges : list (Z * Z)) (i : Z) : Prop :=
  Exists (λ r, range_accepted s (r.1 / PAGE_SIZE) (r.2 / PAGE_SIZE) ∧
    r.1 / PAGE_SIZE ≤ physical_page_offset s + i < r.1 / PAGE_SIZE + r.2 / PAGE_SIZE) ranges.

#[export] Instance reserved_dec s ranges i : Decision (reserved s ranges i) :=
  ltac:(unfold reserved; apply _).

Definition reserve (s : vms) (ranges : list (Z * Z)) (i : Z) (p : vm_page) : vm_page :=
  if decide (reserved s ranges i) then marked p else p.

Lemma marked_idemp p : marked (marked p) = marked p.
Proof.
  unfold marked.
  destruct ((pstate p =? VM_PAGE_STATE_CLEAR) || (pstate p =? VM_PAGE_STATE_FREE)) eqn:E;
    [done|by rewrite E].
Qed.

Lemma reserved_same s s' ranges i :
  same_rest s s' → reserved s' ranges i ↔ reserved s ranges i.
Proof.
  intros []. unfold reserved, range_accepted. rewrite !Exists_exists. naive_solver congruence.
Qed.

Lemma page_step_trans f g s s1 s2 :
  page_step f s s1 → page_step g s1 s2 → page_step (λ i p, g i (f i p)) s s2.
Proof.
  intros (? & Hr & Hf) (? & Hr2 & Hg). split_and!; [done|by transitivity s1|].
  intros i p Hp. specialize (Hg i). rewrite (same_rest_ptr _ _ i Hr) in Hg. eauto.
Qed.

Lemma page_step_refl s : vmp_inv s → page_step (λ _ p, p) s s.
Proof. intros. split_and!; [done|done|]. by intros i p Hp. Qed.

Definition range_ok (r : Z * Z) : Prop := 0 ≤ r.1 < 2 ^ 32 ∧ 0 ≤ r.2 < 2 ^ 32.

#[export] Instance range_ok_dec r : Decision (range_ok r) := ltac:(unfold range_ok; apply _).

Lemma wp_mark_ranges ranges : ∀ s (Q : unit → vms → Prop),
  vmp_inv s → unlocked s → Forall range_ok ranges →
  (∀ s', page_step (reserve s ranges) s s' → Q tt s') →
  wp (mark_ranges ranges) s Q.
Proof.
  induction ranges as [|r ranges IH]; intros s Q Hi Hu Hok HQ; cbn [mark_ranges].
  - wp_go. apply HQ. eapply page_step_ext, page_step_refl; [|done].
    intros i p _. unfold reserve. by rewrite decide_False by by intros ?%Exists_nil.
  - apply Forall_cons in Hok as [[H1 H2] Hok]. wp_go.
    assert (0 ≤ r.1 / PAGE_SIZE < 2 ^ 20 ∧ 0 ≤ r.2 / PAGE_SIZE < 2 ^ 20) as [Hr1 Hr2].
    { unfold PAGE_SIZE. split; split; try apply Z.div_pos;
        try apply Z.div_lt_upper_bound; lia. }
    apply wp_mark_range_inuse; [done|done|lia|lia|lia|..].
    + intros Hno. apply IH; [done|done|done|]. intros s' Hs'. apply HQ.
      eapply page_step_ext; [|done]. intros i p _. unfold reserve.
      f_equal. apply decide_ext. unfold reserved. rewrite Exists_cons. tauto.
    + intros Hyes s1 Hs1. pose proof Hs1 as (Hi1 & Hrest & _).
      apply IH; [done|unfold unlocked; by rewrite (sr_cpus _ _ Hrest)|done|].
      intros s2 Hs2. apply HQ. eapply page_step_ext; [|by eapply page_step_trans].
      intros i p _. unfold reserve, on_range.
      pose proof (reserved_same s s1 ranges i Hrest) as Hsame.
      destruct (decide (reserved s (r :: ranges) i)) as [Hin|Hin];
        unfold reserved in Hin at 1; rewrite Exists_cons in Hin;
        repeat case_decide; try done; try (by rewrite marked_idemp);
        exfalso; unfold reserved in *; intuition lia.
Qed.

Lemma wp_vm_page_init s ka base (Q : Z → vms → Prop) :
  init_pre base s → unlocked s → Forall range_ok (phys_alloc_range ka) →
  (∀ s', vmp_inv s' → all_pages s' = base →
     physical_page_offset s' = physical_page_offset s →
     total_pages_count s' = total_pages_count s → cpus s' = cpus s → frames s' = frames s →
     (∀ i, 0 ≤ i < total_pages_count s → pages s' !! page_ptr s' i =
        Some (VmPage (physical_page_offset s + i) 0 VM_PAGE_TYPE_PHYSICAL
          (if decide (reserved s (phys_alloc_range ka) i) then VM_PAGE_STATE_UNUSED
           else VM_PAGE_STATE_FREE))) → Q NO_ERROR s') →
  wp (vm_page_init ka base) s Q.
Proof.
  intros Hp Hu Hok HQ. unfold vm_page_init. wp_go.
  apply wp_init_loop; [by apply init_at_start| |].
  { destruct Hp. simpl. lia. }
  intros s1 Hi1 Hfree [E1 E2 E3 E4 E5]. simpl in *. wp_go.
  apply wp_mark_ranges; [done|unfold unlocked; by rewrite E4|done|].
  intros s2 (Hi2 & [F1 F2 F3 F4 F5] & Hc). wp_go. apply HQ; try congruence.
  intros i Hr. rewrite <- E3 in Hr. specialize (Hc _ _ (Hfree i Hr)).
  unfold page_ptr at 1. rewrite F1. fold (page_ptr s1 i). rewrite Hc, E2.
  unfold reserve, marked.
  assert (reserved s1 (phys_alloc_range ka) i ↔ reserved s (phys_alloc_range ka) i).
  { unfold reserved, range_accepted. by rewrite E2, E3. }
  repeat case_decide; tauto.
Qed.

(** ** Allocation *)

Definition busied : vm_page → vm_page := with_state VM_PAGE_STATE_BUSY.

(** The frame of the page is zeroes. *)
Definition zeroed (fr : gmap Z (list Z)) (p : vm_page) : Prop :=
  fr !! (ppn p * PAGE_SIZE) = Some (replicate (Z.to_nat PAGE_SIZE) 0).

Lemma vi_frame_addr s a p :
  vmp_inv s → pages s !! a = Some p → 0 ≤ ppn p * PAGE_SIZE < 2 ^ 32.
Proof.
  intros Hi Ha. destruct (vi_addr s a p Hi Ha) as (i & Hr & -> & E & _).
  pose proof (vi_geom s Hi). unfold PAGE_SIZE. lia.
Qed.

Lemma wp_page_frame_clear s a p (Q : unit → vms → Prop) :
  vmp_inv s → pages s !! a = Some p →
  Q tt (upd_frames (<[ppn p * PAGE_SIZE := replicate (Z.to_nat PAGE_SIZE) 0]> (frames s)) s) →
  wp (page_frame_clear a) s Q.
Proof.
  intros Hi Ha HQ. unfold page_frame_clear, clear_page. wp_go. eapply wp_ld_page; [done|].
  wp_go. by rewrite uwrap_small by by eapply vi_frame_addr.
Qed.

(** A frame no allocation touches keeps its contents. *)
Definition frames_kept (s s' : vms) (P : Z → Prop) : Prop :=
  ∀ pa, ¬ P pa → frames s' !! pa = frames s !! pa.

Lemma wp_take_page s a p (K : bool → vms → Prop) :
  vmp_inv s → pages s !! a = Some p → allocatable (pstate p) = true →
  (∀ s1, wp (make_busy a) s1 (λ old s', old = pstate p ∧ vmp_inv s' ∧ same_rest s s' ∧
     pages s' = <[a := busied p]> (pages s)) → K true s1) →
  wp (take_page a) s K.
Proof.
  intros Hi Ha Hall HK. eapply wp_mono; [eapply (wp_take_busy s a p (λ old s', old = pstate p ∧ vmp_inv s' ∧ same_rest s s' ∧
     pages s' = <[a := busied p]> (pages s)))|]; try done.
  intros ok s1 [-> H]. by apply HK.
Qed.

(** The outcome of the allocation of one page [p] at [a], [clear] telling whether
    its frame is filled with zeroes. *)
Record page_taken (a : Z) (p : vm_page) (clear : bool) (s s' : vms) : Prop := {
  pt_inv : vmp_inv s';
  pt_cpus : cpus s' = cpus s;
  pt_ptr : ∀ i, page_ptr s' i = page_ptr s i;
  pt_pages : pages s' = <[a := busied p]> (pages s);
  pt_frames : frames s' = if clear then
      <[ppn p * PAGE_SIZE := replicate (Z.to_nat PAGE_SIZE) 0]> (frames s) else frames s }.

(** The tail of the allocators: unlock, then clear the frame when asked to. *)
Lemma wp_finish_alloc s s1 a p (c : bool) (Q : Z → vms → Prop) :
  unlocked s → vmp_inv s1 → same_rest (locked s) s1 →
  pages s !! a = Some p → pages s1 = <[a := busied p]> (pages s) →
  (∀ s', page_taken a p c s s' → Q a s') →
  wp (on_cpu (spin_unlock_irqrstor page_lock (irqs (cpus s)));;
      when c (page_frame_clear a);; mret a) s1 Q.
Proof.
  intros Hu Hi Hr Ha Ep HQ. apply wp_bind.
  pose proof (same_rest_unlock _ _ Hr) as Hr'.
  assert (∀ i, page_ptr s1 i = page_ptr s i) as Eptr.
  { intros i. by rewrite (same_rest_ptr _ _ i Hr). }
  apply wp_unlock; [done|by apply Hr|]. apply wp_bind.
  destruct c; cbn [when].
  - eapply (wp_page_frame_clear _ a (busied p)); [by apply vmp_inv_cpu|simpl; by rewrite Ep, lookup_insert_eq|].
    wp_go. apply HQ. split; try done; [by apply vmp_inv_frames, vmp_inv_cpu|].
    simpl. by rewrite (sr_frames _ _ Hr).
  - wp_go. apply HQ. split; try done; [by apply vmp_inv_cpu|]. by rewrite (sr_frames _ _ Hr').
Qed.

Lemma wp_unlock_same s (Q : unit → vms → Prop) :
  unlocked s → Q tt s →
  wp (on_cpu (spin_unlock_irqrstor page_lock (irqs (cpus s)))) (locked s) Q.
Proof. intros Hu HQ. apply wp_unlock; [done|done|]. by destruct s. Qed.

Lemma wp_vm_page_alloc_specific s n st (Q : Z → vms → Prop) :
  vmp_inv s → unlocked s → 0 ≤ n < 2 ^ 32 →
  (∀ i p s', n = physical_page_offset s + i → 0 ≤ i < total_pages_count s →
     pages s !! page_ptr s i = Some p → allocatable (pstate p) = true →
     page_taken (page_ptr s i) p
       ((st =? VM_PAGE_STATE_CLEAR) && negb (pstate p =? VM_PAGE_STATE_CLEAR)) s s' →
     Q (page_ptr s i) s') →
  ((∀ p, pages s !! page_ptr s (n - physical_page_offset s) = Some p →
     allocatable (pstate p) = false) → Q NULL s) →
  wp (vm_page_alloc_specific n st) s Q.
Proof.
  intros Hi Hu Hn HQ1 HQ2. pose proof (vmp_inv_cpu (cpus (locked s)) s Hi) as Hi0.
  unfold vm_page_alloc_specific. apply wp_bind, wp_lock; [done|].
  apply wp_bind, wp_vm_page_lookup; [done|done|]. set (i := n - physical_page_offset s).
  change (page_ptr (locked s) (n - _)) with (page_ptr s i). simpl.
  case_decide as Hrange.
  - destruct (vi_index s i Hi) as (p & Hp & Hppn & _); [lia|].
    pose proof (page_ptr_nonnull s i Hi ltac:(lia)) as Hnn. rewrite Hnn.
    apply wp_bind, wp_bind. destruct (allocatable (pstate p)) eqn:Hall.
    + eapply (wp_take_page (locked s)); [done..|]. intros s1 Hb.
      apply wp_bind. eapply wp_mono; [exact Hb|]. intros _ s2 (-> & Hi2 & Hr2 & E2).
      apply wp_ret. rewrite Hnn.
      eapply (wp_finish_alloc s _ _ p); [done..|]. intros s' Hs'.
      apply (HQ1 i p); [lia|lia|done|done|].
      apply allocatable_cases in Hall. destruct_or! Hall; by rewrite Hall in *.
    + eapply (wp_take_page_fails (locked s)); [done..|]. apply wp_ret.
      apply wp_bind, wp_unlock_same; [done|]. wp_go. apply HQ2.
      intros q Hq. by assert (q = p) as -> by (fold i in Hq; congruence).
  - apply wp_bind. apply wp_ret, wp_bind, wp_unlock_same; [done|]. wp_go. apply HQ2.
    intros p Hp. destruct (vi_addr s _ p Hi Hp) as (j & Hj & E%page_ptr_inj & _). lia.
Qed.

Lemma list_of_alloc k st l spare :
  alloc_lists st = Some (l, spare) →
  (list_of k = l ↔ k = st) ∧
  (list_of k = spare ↔ k = if st =? VM_PAGE_STATE_FREE then VM_PAGE_STATE_CLEAR else VM_PAGE_STATE_FREE).
Proof.
  unfold alloc_lists. intros H. repeat case_match; bool_to_prop; simplify_eq;
    unfold list_of; simpl; repeat case_match; bool_to_prop; subst; by split.
Qed.

Lemma upd_xs_id s : upd_xs (xs s) s = s.
Proof. by destruct s. Qed.

Lemma wp_get_page s l (K : Z → vms → Prop) :
  vmp_inv s → l ∈ page_lists →
  ((∀ a p, pages s !! a = Some p → list_of (pstate p) ≠ l) → K NULL s) →
  (∀ a p x', pages s !! a = Some p → list_of (pstate p) = l →
     lists_rep x' (λ l' b, page_class (pages s) l' b ∧ b ≠ a) →
     dom (nodes x') = dom (nodes (xs s)) → K a (upd_xs x' s)) →
  wp (get_page_from_list l) s K.
Proof.
  intros Hi Hl HK1 HK2. unfold get_page_from_list. wp_go.
  eapply wp_lists_extract; [exact (vi_lists s Hi)|apply page_class_disjoint|done|..].
  - intros a (p & Hp & _). by eapply vi_valid.
  - intros H. wp_go. rewrite upd_xs_id. apply HK1. intros a p Hp E. apply (H a). by exists p.
  - intros a x' (p & Hp & E) ??. wp_go. by eapply HK2.
Qed.

(** [vm_page_alloc] once it has a page off its list. *)
Lemma wp_alloc_found s st a p l x' (Q : Z → vms → Prop) :
  vmp_inv s → unlocked s → pages s !! a = Some p →
  pstate p = VM_PAGE_STATE_FREE ∨ pstate p = VM_PAGE_STATE_CLEAR → l = list_of (pstate p) →
  lists_rep x' (λ l b, page_class (pages s) l b ∧ b ≠ a) → dom (nodes x') = dom (nodes (xs s)) →
  (∀ s', page_taken a p
     ((st =? VM_PAGE_STATE_CLEAR) && (pstate p =? VM_PAGE_STATE_FREE)) s s' → Q a s') →
  wp ((if l =? free_pages_list then count_page VM_PAGE_STATE_FREE (-1)
       else count_page VM_PAGE_STATE_CLEAR (-1));;
      pg ← ld_page a;
      st_state a VM_PAGE_STATE_BUSY;;
      count_page VM_PAGE_STATE_BUSY 1;;
      put_page_to_list active_pages_list a;;
      on_cpu (spin_unlock_irqrstor page_lock (irqs (cpus s)));;
      when ((st =? VM_PAGE_STATE_CLEAR) && (pstate pg =? VM_PAGE_STATE_FREE)) (page_frame_clear a);;
      mret a) (upd_xs x' (locked s)) Q.
Proof.
  intros Hi Hu Ha Hk -> Hl Hd HQ. pose proof (vmp_inv_cpu (cpus (locked s)) s Hi) as Hi0.
  apply wp_bind. eapply (wp_of_ok _ _ tt (upd_stat (stat_add (pstate p) (-1) (VM_State s))
    (upd_xs x' (locked s)))); [by destruct Hk as [-> | ->]|].
  unfold count_page. wp_go. eapply wp_ld_page; [done|]. wp_go.
  eapply wp_st_state; [done|by vm_compute|]. wp_go.
  eapply (wp_put_busy (locked s) _ a p); try done; [by destruct Hk as [-> | ->]|].
  intros x2 Hi2. eapply (wp_finish_alloc s _ a p); done.
Qed.

(** No page is in state [k]. *)
Definition none_in (k : Z) (s : vms) : Prop :=
  ∀ a p, pages s !! a = Some p → pstate p ≠ k.

(** The state [vm_page_alloc] falls back to. *)
Definition spare_state (st : Z) : Z :=
  if st =? VM_PAGE_STATE_FREE then VM_PAGE_STATE_CLEAR else VM_PAGE_STATE_FREE.

Lemma wp_vm_page_alloc s st a0 p0 (Q : Z → vms → Prop) :
  vmp_inv s → unlocked s → st = VM_PAGE_STATE_FREE ∨ st = VM_PAGE_STATE_CLEAR →
  pages s !! a0 = Some p0 → pstate p0 = VM_PAGE_STATE_FREE ∨ pstate p0 = VM_PAGE_STATE_CLEAR →
  (∀ a p s', pages s !! a = Some p →
     pstate p = st ∨ none_in st s ∧ pstate p = spare_state st →
     page_taken a p
       ((st =? VM_PAGE_STATE_CLEAR) && (pstate p =? VM_PAGE_STATE_FREE)) s s' → Q a s') →
  wp (vm_page_alloc st) s Q.
Proof.
  intros Hi Hu Hst H0 Hp0 HQ. pose proof (vmp_inv_cpu (cpus (locked s)) s Hi) as Hi0.
  assert (∃ l spare, alloc_lists st = Some (l, spare) ∧ l ∈ page_lists ∧ spare ∈ page_lists)
    as (l & spare & E & Hl & Hsp).
  { destruct Hst; subst; do 2 eexists; split_and!; [done|set_solver..]. }
  unfold vm_page_alloc. rewrite E. apply wp_bind, wp_lock; [done|].
  pose proof (λ k, proj1 (list_of_alloc k st l spare E)) as El.
  pose proof (λ k, proj2 (list_of_alloc k st l spare E)) as Es.
  assert (∀ a p, pages s !! a = Some p → (a =? NULL) = false) as Hnn.
  { intros a p Ha%(vi_valid s); [|done]. unfold valid_ptr, NULL in *. lia. }
  assert (∀ k, k = st ∨ k = spare_state st → k = VM_PAGE_STATE_FREE ∨ k = VM_PAGE_STATE_CLEAR) as Hk.
  { unfold spare_state. intros k. destruct Hst; subst; simpl; tauto. }
  apply wp_bind. apply wp_get_page; [done|done| |].
  - intros Hnone. simpl. apply wp_bind, wp_bind. apply wp_get_page; [done|done| |].
    { intros Hnone2. exfalso. specialize (Hnone _ _ H0). specialize (Hnone2 _ _ H0).
      rewrite El in Hnone. rewrite Es in Hnone2. destruct Hst, Hp0; subst; simpl in *; congruence. }
    intros a p x' Ha Hlist Hx Hd. rewrite (Hnn a p) by done. apply wp_ret.
    eapply wp_alloc_found; [done..| | |done|done|].
    + apply Hk. right. by apply Es.
    + by symmetry.
    + intros s' Hs'. eapply HQ; [done| |done]. right. split; [|by apply Es].
      intros b q Hq Eq. by apply (Hnone b q), El.
  - intros a p x' Ha Hlist Hx Hd. rewrite (Hnn a p) by done. apply wp_bind, wp_ret.
    eapply wp_alloc_found; [done..| | |done|done|].
    + apply Hk. left. by apply El.
    + by symmetry.
    + intros s' Hs'. eapply HQ; [done| |done]. left. by apply El.
Qed.

Lemma vm_page_alloc_empty s st :
  vmp_inv s → unlocked s → st = VM_PAGE_STATE_FREE ∨ st = VM_PAGE_STATE_CLEAR →
  none_in VM_PAGE_STATE_FREE s → none_in VM_PAGE_STATE_CLEAR s → vm_page_alloc st s = Panic.
Proof.
  intros Hi Hu Hst Hf Hc. pose proof (vmp_inv_cpu (cpus (locked s)) s Hi) as Hi0.
  assert (∀ l, l ∈ [free_pages_list; clear_pages_list] →
    get_page_from_list l (locked s) = Ok (NULL, locked s)) as Hget.
  { intros l Hl.
    destruct (wp_run (get_page_from_list l) (locked s) NULL (λ s', s' = locked s)) as (? & ? & ->);
      [|done].
    apply wp_get_page; [done|set_solver|done|]. intros a p x' Ha El. exfalso.
    specialize (Hf a p Ha). specialize (Hc a p Ha). unfold list_of in El.
    repeat case_match; bool_to_prop; subst; set_solver. }
  assert (on_cpu (spin_lock_irqsave page_lock) s = Ok (irqs (cpus s), locked s)) as Elock.
  { destruct (wp_run (on_cpu (spin_lock_irqsave page_lock)) s (irqs (cpus s))
      (λ s', s' = locked s)) as (? & ? & ->); [by apply wp_lock|done]. }
  unfold vm_page_alloc. destruct Hst as [-> | ->]; simpl; unfold mbind, M_bind; rewrite Elock;
    (rewrite Hget by set_solver); simpl; unfold mbind, M_bind; by rewrite Hget by set_solver.
Qed.

(** ** Ranges *)

(** The page number [n] belongs to the array and its page can be allocated. *)
Definition can_alloc (s : vms) (n : Z) : Prop :=
  ∃ p, pages s !! page_ptr s (n - physical_page_offset s) = Some p ∧
    allocatable (pstate p) = true.

Lemma wp_check_range n : ∀ i s (Q : bool → vms → Prop),
  vmp_inv s → 0 ≤ i → i + Z.of_nat n < 2 ^ 32 →
  ((∀ j, i ≤ j < i + Z.of_nat n → can_alloc s j) → Q true s) →
  ((∃ j, i ≤ j < i + Z.of_nat n ∧ ¬ can_alloc s j) → Q false s) →
  wp (check_range n i) s Q.
Proof.
  induction n as [|n IH]; intros i s Q Hi H0 Hn HQ1 HQ2; cbn [check_range].
  - wp_go. apply HQ1. lia.
  - wp_go. apply wp_vm_page_lookup; [done|lia|]. case_decide as Hr.
    + rewrite page_ptr_nonnull by (done || lia).
      destruct (vi_index s (i - physical_page_offset s) Hi) as (p & Hp & _ & _); [lia|].
      wp_go. eapply wp_ld_page; [done|]. destruct (allocatable (pstate p)) eqn:E; simpl.
      * apply IH; [done|lia|lia|..].
        -- intros H. apply HQ1. intros j Hj. destruct (decide (j = i)) as [->|]; [by exists p|].
           apply H. lia.
        -- intros (j & Hj & H). apply HQ2. exists j. split; [lia|done].
      * apply wp_ret, HQ2. exists i. split; [lia|]. intros (q & Hq & Eq). congruence.
    + simpl. apply wp_ret, HQ2. exists i. split; [lia|]. intros (q & Hq & _).
      destruct (vi_addr s _ q Hi Hq) as (j & Hj & E%page_ptr_inj & _). lia.
Qed.

(** Pages of the range that were not clear make an allocation of clear pages fill
    the whole range. *)
Definition needs_clear (s : vms) (st first : Z) (n : nat) : Prop :=
  st = VM_PAGE_STATE_CLEAR ∧ ∃ j p, first ≤ j < first + Z.of_nat n ∧
    pages s !! page_ptr s j = Some p ∧ pstate p ≠ VM_PAGE_STATE_CLEAR.

Lemma needs_clear_cons s s1 st first n p :
  pages s !! page_ptr s first = Some p →
  pages s1 = <[page_ptr s first := busied p]> (pages s) → same_rest s s1 →
  needs_clear s st first (S n) ↔
  st = VM_PAGE_STATE_CLEAR ∧ pstate p ≠ VM_PAGE_STATE_CLEAR ∨ needs_clear s1 st (first + 1) n.
Proof.
  intros Hp E Hr. unfold needs_clear.
  assert (∀ j, first + 1 ≤ j → pages s1 !! page_ptr s1 j = pages s !! page_ptr s j) as Ej.
  { intros j Hj. rewrite E, (same_rest_ptr _ _ _ Hr), lookup_insert_ne; [done|].
    intros ?%page_ptr_inj. lia. }
  split.
  - intros (-> & j & q & Hj & Hq & Hne). destruct (decide (j = first)) as [->|].
    + left. split; [done|]. congruence.
    + right. split; [done|]. exists j, q. rewrite Ej by lia. split; [lia|done].
  - intros [[-> Hne]|(-> & j & q & Hj & Hq & Hne)]; (split; [done|]).
    + exists first, p. split; [lia|done].
    + exists j, q. rewrite <- Ej by lia. split; [lia|done].
Qed.

Lemma wp_take_range n : ∀ i s st nc (Q : bool → vms → Prop),
  vmp_inv s →
  (∀ j, i ≤ j < i + Z.of_nat n → can_alloc s (physical_page_offset s + j)) →
  (∀ b s', (b = true ↔ nc = true ∨ needs_clear s st i n) →
     page_step (on_range i n busied) s s' → Q b s') →
  wp (take_range n i st nc) s Q.
Proof.
  induction n as [|n IH]; intros i s st nc Q Hi Hall HQ; cbn [take_range].
  - wp_go. apply HQ; [|split_and!; [done|done|apply changed_nil]].
    unfold needs_clear. split; [tauto|]. intros [?|(_ & j & ? & ? & _)]; [done|lia].
  - destruct (Hall i) as (p & Hp & Hst); [lia|].
    replace (physical_page_offset s + i - physical_page_offset s) with i in Hp by lia.
    wp_go. eapply wp_take_page; [done..|]. intros s1 Hb. simpl. wp_go.
    eapply wp_mono; [exact Hb|]. intros _ s2 (-> & Hi2 & Hr2 & E2).
    apply IH; [done|..].
    + intros j Hj. destruct (Hall j) as (q & Hq & Eq); [lia|]. exists q. split; [|done].
      rewrite (sr_off _ _ Hr2), (same_rest_ptr _ _ _ Hr2), E2.
      rewrite lookup_insert_ne; [done|]. intros ?%page_ptr_inj. lia.
    + intros b s' Hbn Hs'. apply HQ; [|by eapply page_step_cons].
      rewrite Hbn, (needs_clear_cons s s2 st i n p) by done.
      rewrite !orb_true_iff, andb_true_iff, orb_true_iff, !Z.eqb_eq.
      apply allocatable_cases in Hst. unfold VM_PAGE_STATE_FREE, VM_PAGE_STATE_CLEAR,
        VM_PAGE_STATE_UNUSED in *. intuition lia.
Qed.

(** [fr'] is [fr] with the frames of the pages [first .. first + n - 1] of the
    array filled with zeroes. *)
Definition cleared_range (off first : Z) (n : nat) (fr fr' : gmap Z (list Z)) : Prop :=
  (∀ j, first ≤ j < first + Z.of_nat n →
     fr' !! ((off + j) * PAGE_SIZE) = Some (replicate (Z.to_nat PAGE_SIZE) 0)) ∧
  (∀ pa, (∀ j, first ≤ j < first + Z.of_nat n → pa ≠ (off + j) * PAGE_SIZE) →
     fr' !! pa = fr !! pa).

Lemma wp_clear_range n : ∀ i s (Q : unit → vms → Prop),
  vmp_inv s → 0 ≤ i → i + Z.of_nat n ≤ total_pages_count s →
  (∀ fr, cleared_range (physical_page_offset s) i n (frames s) fr → Q tt (upd_frames fr s)) →
  wp (clear_range n i) s Q.
Proof.
  induction n as [|n IH]; intros i s Q Hi H0 Hn HQ; cbn [clear_range].
  - wp_go. replace s with (upd_frames (frames s) s) by (by destruct s).
    apply HQ. split; [lia|done].
  - destruct (vi_index s i Hi) as (p & Hp & E & _); [lia|].
    wp_go. eapply wp_page_frame_clear; [done..|].
    apply IH; [by apply vmp_inv_frames|lia|simpl; lia|].
    simpl. intros fr [H1 H2]. rewrite E in *. apply HQ. split.
    + intros j Hj. destruct (decide (j = i)) as [->|]; [|apply H1; lia].
      rewrite H2; [by rewrite lookup_insert_eq|]. unfold PAGE_SIZE. intros; lia.
    + intros pa Hpa. rewrite H2, lookup_insert_ne; [done| |].
      * apply not_eq_sym, Hpa. lia.
      * intros j Hj. apply Hpa. lia.
Qed.

(** The outcome of the allocation of the pages [first .. first + n - 1] of the
    array. *)
Record range_taken (st first : Z) (n : nat) (s s' : vms) : Prop := {
  rt_inv : vmp_inv s';
  rt_cpus : cpus s' = cpus s;
  rt_ptr : ∀ i, page_ptr s' i = page_ptr s i;
  rt_pages : changed (on_range first n busied) s s';
  rt_clear : needs_clear s st first n →
    cleared_range (physical_page_offset s) first n (frames s) (frames s');
  rt_frames : ¬ needs_clear s st first n → frames s' = frames s }.

Lemma can_alloc_range s n :
  vmp_inv s → can_alloc s n →
  physical_page_offset s ≤ n < physical_page_offset s + total_pages_count s.
Proof.
  intros Hi (p & Hp & _). destruct (vi_addr s _ p Hi Hp) as (j & Hj & E%page_ptr_inj & _). lia.
Qed.

Lemma range_iters_ok first npages :
  0 ≤ first → 0 ≤ npages → first + npages < 2 ^ 32 →
  range_iters first npages = Z.to_nat npages.
Proof. intros. unfold range_iters. rewrite uwrap_small by lia. f_equal. lia. Qed.

Lemma wp_vm_page_alloc_specific_range s first npages st (Q : Z → vms → Prop) :
  vmp_inv s → unlocked s → 0 ≤ first → 0 < npages → first + npages < 2 ^ 32 →
  ((∀ n, first ≤ n < first + npages → can_alloc s n) → ∀ s',
     range_taken st (first - physical_page_offset s) (Z.to_nat npages) s s' →
     Q (page_ptr s (first - physical_page_offset s)) s') →
  ((∃ n, first ≤ n < first + npages ∧ ¬ can_alloc s n) → Q NULL s) →
  wp (vm_page_alloc_specific_range first npages st) s Q.
Proof.
  intros Hi Hu Hf Hn Hw HQ1 HQ2. pose proof (vmp_inv_cpu (cpus (locked s)) s Hi) as Hi0.
  unfold vm_page_alloc_specific_range. apply wp_if; intros E; bool_to_prop; [lia|].
  apply wp_bind, wp_lock; [done|]. apply wp_bind.
  rewrite range_iters_ok by lia. apply wp_check_range; [done|lia|lia|..].
  - intros Hall. rewrite Z2Nat.id in Hall by lia.
    change (∀ n, first ≤ n < first + npages → can_alloc s n) in Hall.
    pose proof (can_alloc_range s first Hi (Hall first ltac:(lia))).
    pose proof (can_alloc_range s (first + npages - 1) Hi (Hall (first + npages - 1) ltac:(lia))).
    pose proof (vi_geom s Hi). set (i := first - physical_page_offset s).
    apply wp_bind, wp_gets. simpl. rewrite (uwrap_small 32 (_ - _)) by lia. fold i.
    rewrite range_iters_ok by lia. apply wp_bind. apply wp_take_range; [done|..].
    { intros j Hj. apply Hall. simpl. lia. }
    intros need s1 Hneed Hs0. pose proof (page_step_unlock _ _ _ Hs0) as (Hi1 & Hr1 & Hc1).
    apply wp_bind, wp_gets. apply wp_bind, wp_unlock; [done|by apply Hs0|].
    change (page_ptr s1 i) with (page_ptr (upd_cpu (cpus s) s1) i).
    rewrite (same_rest_ptr _ _ i Hr1). apply wp_bind.
    assert (need = true ↔ needs_clear s st i (Z.to_nat npages)) as Hneed'.
    { rewrite Hneed. split; [by intros [?|?]|]. by right. }
    apply wp_when; intros ->.
    + apply wp_clear_range; [done|lia|rewrite (sr_total _ _ Hr1); lia|].
      intros fr Hfr. apply wp_ret, HQ1; [done|]. split; try done.
      * by apply vmp_inv_frames.
      * intros j. by rewrite <- (same_rest_ptr _ _ j Hr1).
      * intros _. by rewrite (sr_off _ _ Hr1), (sr_frames _ _ Hr1) in Hfr.
      * intros []. by apply Hneed'.
    + apply wp_ret, HQ1; [done|]. split; try done.
      * intros j. by apply same_rest_ptr.
      * intros ?%Hneed'. done.
      * intros _. by apply Hr1.
  - intros (j & Hj & Hno). apply wp_bind, wp_unlock_same; [done|]. apply wp_ret, HQ2.
    exists j. split; [lia|exact Hno].
Qed.

(** ** Searching for a range *)

(** A window of free or clear pages. *)
Definition free_window (s : vms) (start n : Z) : Prop :=
  ∀ j, start ≤ j < start + n → ∃ p, pages s !! page_ptr s j = Some p ∧
    (pstate p = VM_PAGE_STATE_FREE ∨ pstate p = VM_PAGE_STATE_CLEAR).

Lemma wp_scan_window n : ∀ start i s (Q : Z + unit → vms → Prop),
  vmp_inv s → 0 ≤ start → 0 ≤ i → start + i + Z.of_nat n ≤ total_pages_count s →
  (free_window s (start + i) (Z.of_nat n) → Q (inr tt) s) →
  (∀ j, i ≤ j < i + Z.of_nat n → ¬ free_window s (start + j) 1 → Q (inl (j + 1)) s) →
  wp (scan_window n start i) s Q.
Proof.
  induction n as [|n IH]; intros start i s Q Hi H0 H1 Hn HQ1 HQ2; cbn [scan_window].
  - wp_go. apply HQ1. intros j Hj. lia.
  - pose proof (vi_geom s Hi). wp_go. rewrite uwrap_small by lia.
    destruct (vi_index s (start + i) Hi) as (p & Hp & _ & _); [lia|].
    eapply wp_ld_page; [done|]. apply wp_if; intros E.
    + apply wp_ret, HQ2; [lia|]. intros Hw. destruct (Hw (start + i)) as (q & Hq & Hs); [lia|].
      simplify_eq. destruct Hs as [Hs|Hs]; rewrite Hs in E; vm_compute in E; discriminate.
    + assert (pstate p = VM_PAGE_STATE_FREE ∨ pstate p = VM_PAGE_STATE_CLEAR) as Hs.
      { rewrite <- !Z.eqb_eq. destruct (pstate p =? VM_PAGE_STATE_FREE), (pstate p =? VM_PAGE_STATE_CLEAR); auto. }
      apply IH; [done|lia|lia|lia|..].
      * intros Hw. apply HQ1. intros j Hj. destruct (decide (j = start + i)) as [->|]; [by exists p|].
        apply Hw. lia.
      * intros j Hj. apply HQ2. lia.
Qed.

Lemma wp_busy_loop n : ∀ start i s (Q : unit → vms → Prop),
  vmp_inv s → 0 ≤ start → 0 ≤ i → start + i + Z.of_nat n ≤ total_pages_count s →
  (∀ s', page_step (on_range (start + i) n busied) s s' → Q tt s') →
  wp (busy_loop n start i) s Q.
Proof.
  induction n as [|n IH]; intros start i s Q Hi H0 H1 Hn HQ; cbn [busy_loop].
  - wp_go. apply HQ. split_and!; [done|done|apply changed_nil].
  - pose proof (vi_geom s Hi). wp_go. rewrite uwrap_small by lia.
    destruct (vi_index s (start + i) Hi) as (p & Hp & _ & _); [lia|].
    eapply wp_set_page_state; [done|done|by vm_compute|]. intros s1 Hi1 Hr1 E1.
    apply IH; [done|lia|lia|rewrite (sr_total _ _ Hr1); lia|].
    intros s2 Hs2. apply HQ. eapply page_step_cons; [done..|].
    by replace (start + i + 1) with (start + (i + 1)) by lia.
Qed.

Lemma wp_find_window fuel : ∀ start npages s (Q : Z → vms → Prop),
  vmp_inv s → 0 ≤ start → 0 ≤ npages → total_pages_count s + npages < 2 ^ 32 →
  total_pages_count s - start < Z.of_nat fuel → start ≤ total_pages_count s →
  (∀ w, 0 ≤ w < start → ¬ free_window s w npages) →
  (∀ w s', 0 ≤ w → w + npages < total_pages_count s → free_window s w npages →
     (∀ w', 0 ≤ w' < w → ¬ free_window s w' npages) →
     page_step (on_range w (Z.to_nat npages) busied) s s' → Q (page_ptr s w) s') →
  ((∀ w, 0 ≤ w → w + npages < total_pages_count s → ¬ free_window s w npages) → Q NULL s) →
  wp (find_window fuel start npages) s Q.
Proof.
  induction fuel as [|fuel IH]; intros start npages s Q Hi H0 Hnp Hw Hfuel Hst Hbef HQ1 HQ2; [lia|].
  cbn [find_window]. wp_go. rewrite (uwrap_small 32 (start + npages)) by lia.
  apply wp_if; intros E; bool_to_prop.
  { apply wp_ret, HQ2. intros w ??. apply Hbef. lia. }
  wp_go. apply wp_scan_window; [done|lia|lia|lia|..].
  - intros Hfree. rewrite Z2Nat.id, Z.add_0_r in Hfree by lia.
    wp_go. apply wp_busy_loop; [done|lia|lia|lia|]. intros s' Hs'. rewrite Z.add_0_r in Hs'.
    wp_go. rewrite (same_rest_ptr s) by apply Hs'. by apply HQ1.
  - intros j Hj Hno. simpl.
    assert (∀ w, 0 ≤ w < start + (j + 1) → ¬ free_window s w npages) as Hbef'.
    { intros w Hr Hfw. destruct (decide (w < start)); [by apply (Hbef w); [lia|]|].
      apply Hno. intros k Hk. apply Hfw. lia. }
    rewrite (uwrap_small 32) by lia.
    apply wp_if; intros E2; bool_to_prop.
    + apply wp_ret, HQ2. intros w ??. apply Hbef'. lia.
    + apply IH; try done; lia.
Qed.

Lemma wp_vm_page_alloc_range s st npages (Q : Z → vms → Prop) :
  vmp_inv s → unlocked s → 0 ≤ npages → total_pages_count s + npages < 2 ^ 32 →
  (∀ w s', 0 ≤ w → w + npages < total_pages_count s → free_window s w npages →
     (∀ w', 0 ≤ w' < w → ¬ free_window s w' npages) →
     page_step (on_range w (Z.to_nat npages) busied) s s' → Q (page_ptr s w) s') →
  ((∀ w, 0 ≤ w → w + npages < total_pages_count s → ¬ free_window s w npages) → Q NULL s) →
  wp (vm_page_alloc_range st npages) s Q.
Proof.
  intros Hi Hu Hn Hw HQ1 HQ2. pose proof (vmp_inv_cpu (cpus (locked s)) s Hi) as Hi0.
  unfold vm_page_alloc_range. apply wp_bind, wp_lock; [done|].
  apply wp_bind, wp_gets, wp_bind. pose proof (vi_geom s Hi).
  apply wp_find_window; [done|lia|done|done|simpl; lia|simpl; lia|lia|..].
  - intros w s' H0 H1 H2 H3 Hs'. apply wp_bind, wp_unlock; [done|by apply Hs'|].
    by apply wp_ret, HQ1, page_step_unlock.
  - intros Hno. apply wp_bind, wp_unlock_same; [done|]. by apply wp_ret, HQ2.
Qed.

(** ** Pages from the kernel arguments *)

#[local] Ltac Zify.zify_post_hook ::= Z.to_euclidean_division_equations.

(** The ranges the loader hands over: page-aligned, not empty, sorted, disjoint,
    between [lo] and [top]. *)
Fixpoint ranges_in (lo top : Z) (rs : list (Z * Z)) : Prop :=
  match rs with
  | [] => lo ≤ top
  | r :: rs =>
      lo ≤ r.1 ∧ 0 < r.2 ∧ r.1 mod PAGE_SIZE = 0 ∧ r.2 mod PAGE_SIZE = 0 ∧
      ranges_in (r.1 + r.2) top rs
  end.

Definition covered (rs : list (Z * Z)) (a : Z) : Prop :=
  Exists (λ r, r.1 ≤ a < r.1 + r.2) rs.

(** Physical memory, below [top]. *)
Definition memory_below (top : Z) (mem : list (Z * Z)) : Prop :=
  top ≤ 2 ^ 32 - PAGE_SIZE ∧ top mod PAGE_SIZE = 0 ∧
  Forall (λ r, 0 ≤ r.1 ∧ 0 ≤ r.2 ∧ r.1 + r.2 ≤ top) mem.

(** The page after the range [r] is physical memory and before the next range. *)
Definition growable (mem : list (Z * Z)) (r : Z * Z) (rest : list (Z * Z)) : Prop :=
  covered mem (r.1 + r.2) ∧
  match rest with [] => True | r' :: _ => r.1 + r.2 < r'.1 end.

Definition grown (r : Z * Z) : Z * Z := (r.1, r.2 + PAGE_SIZE).

Definition end_of (lo : Z) (rs : list (Z * Z)) : Z := foldl (λ _ r, r.1 + r.2) lo rs.

Lemma ranges_in_top lo top rs : ranges_in lo top rs → lo ≤ top.
Proof.
  revert lo. induction rs as [|r rs IH]; intros lo; simpl; [done|].
  intros (? & ? & _ & _ & H%IH). lia.
Qed.

Lemma ranges_in_app lo top rs1 rs2 :
  ranges_in lo top (rs1 ++ rs2) →
  ranges_in (end_of lo rs1) top rs2 ∧ (∀ a, covered rs1 a → a < end_of lo rs1) ∧ lo ≤ end_of lo rs1.
Proof.
  revert lo. induction rs1 as [|r rs1 IH]; intros lo; simpl.
  - intros H. split_and!; [done| |done]. by intros a ?%Exists_nil.
  - intros (? & ? & _ & _ & (H1 & H2 & H3)%IH). split_and!; [done| |lia].
    intros a [Ha|Ha]%Exists_cons; [lia|auto].
Qed.

Lemma ranges_in_lower lo top rs a : ranges_in lo top rs → covered rs a → lo ≤ a.
Proof.
  revert lo. induction rs as [|r rs IH]; intros lo; simpl.
  - by intros _ ?%Exists_nil.
  - intros (? & ? & _ & _ & H) [Ha|Ha]%Exists_cons; [lia|]. specialize (IH _ H Ha). lia.
Qed.

Lemma phys_range_spec top mem a :
  memory_below top mem → is_page_in_phys_range mem a = true ↔ covered mem a.
Proof.
  intros (Ht & _ & Hm). unfold is_page_in_phys_range, covered, PAGE_SIZE in *.
  induction Hm as [|r mem Hr Hm IH]; simpl; [by rewrite Exists_nil|].
  rewrite orb_true_iff, IH, Exists_cons, andb_true_iff, Z.leb_le, Z.ltb_lt.
  by rewrite uwrap_small by lia.
Qed.

Lemma ranges_in_replace lo top rs1 rs2 rs2' :
  (∀ l, ranges_in l top rs2 → ranges_in l top rs2') →
  ranges_in lo top (rs1 ++ rs2) → ranges_in lo top (rs1 ++ rs2').
Proof.
  intros Hstep. revert lo. induction rs1 as [|q rs1 IH]; intros lo; simpl; [apply Hstep|].
  intros (? & ? & ? & ? & H). split_and!; auto.
Qed.

Lemma covered_below top mem a : memory_below top mem → covered mem a → a < top.
Proof.
  intros (_ & _ & Hm) (q & Hq & Hr)%Exists_exists. rewrite Forall_forall in Hm.
  specialize (Hm q Hq). lia.
Qed.

(** Growing a range by one page keeps the ranges well formed. *)
Lemma ranges_in_grown lo top mem rs1 r rest :
  memory_below top mem → growable mem r rest →
  ranges_in lo top (rs1 ++ r :: rest) → ranges_in lo top (rs1 ++ grown r :: rest).
Proof.
  intros Hm [Hc Hn]. apply ranges_in_replace.
  intros l (H1 & H2 & H3 & H4 & H5). unfold grown. simpl in *.
  assert ((r.1 + r.2) mod PAGE_SIZE = 0) as Ha by (unfold PAGE_SIZE in *; lia).
  split_and!; [done|unfold PAGE_SIZE; lia|done|unfold PAGE_SIZE in *; lia|].
  destruct rest as [|r' rest]; simpl in *.
  - apply (covered_below top) in Hc; [|done]. destruct Hm as (_ & Ht & _).
    unfold PAGE_SIZE in *. lia.
  - destruct H5 as (? & ? & ? & ? & ?). unfold PAGE_SIZE in *. split_and!; try done; lia.
Qed.

Lemma covered_grown rs1 r rest a : 0 < r.2 →
  covered (rs1 ++ grown r :: rest) a ↔
  covered (rs1 ++ r :: rest) a ∨ r.1 + r.2 ≤ a < r.1 + r.2 + PAGE_SIZE.
Proof.
  intros H. unfold covered, grown, PAGE_SIZE. rewrite !Exists_app, !Exists_cons. simpl.
  destruct (decide (r.1 ≤ a < r.1 + r.2)), (decide (r.1 ≤ a < r.1 + r.2 + 4096)); intuition lia.
Qed.

(** The page past a growable range was not allocated. *)
Lemma growable_fresh lo top mem rs1 r rest a :
  growable mem r rest → ranges_in lo top (rs1 ++ r :: rest) →
  r.1 + r.2 ≤ a < r.1 + r.2 + PAGE_SIZE → ¬ covered (rs1 ++ r :: rest) a.
Proof.
  intros [_ Hn] (H & Hlt & _)%ranges_in_app Ha Hc. simpl in H.
  destruct H as (H1 & H2 & H3 & H4 & H5).
  unfold covered in Hc. rewrite Exists_app, Exists_cons in Hc.
  destruct Hc as [Hc|[Hc|Hc]]; [specialize (Hlt a Hc); lia|lia|].
  destruct rest as [|r' rest]; [by apply Exists_nil in Hc|]. simpl in H5.
  pose proof (ranges_in_lower r'.1 top (r' :: rest) a) as Hlow. simpl in Hlow.
  assert (r'.1 ≤ a) by (apply Hlow; [split_and!; try tauto; lia|done]).
  unfold PAGE_SIZE in *. lia.
Qed.

Lemma alloc_ppage_loop_spec lo top mem : ∀ rs before,
  0 ≤ lo → memory_below top mem → ranges_in lo top rs →
  (∃ rs1 r rest, rs = rs1 ++ r :: rest ∧ growable mem r rest ∧
     alloc_ppage_loop mem before rs =
       Some ((r.1 + r.2) / PAGE_SIZE, before ++ rs1 ++ grown r :: rest)) ∨
  (∀ rs1 r rest, rs = rs1 ++ r :: rest → ¬ growable mem r rest) ∧
     alloc_ppage_loop mem before rs = None.
Proof.
  intros rs. revert lo. induction rs as [|r rs IH]; intros lo before H0 Hm Hr; cbn [alloc_ppage_loop].
  - right. split; [|done]. by intros [].
  - simpl in Hr. destruct Hr as (H1 & H2 & H3 & H4 & H5).
    pose proof (ranges_in_top _ _ _ H5). pose proof Hm as (Ht & _). unfold PAGE_SIZE in Ht.
    rewrite (uwrap_small 32 (r.1 + r.2)) by lia. cbv zeta.
    set (collides := match rs with [] => false | r' :: _ => _ end).
    assert (collides = false ↔ match rs with [] => True | r' :: _ => r.1 + r.2 < r'.1 end) as Hcol.
    { destruct rs as [|r' rs]; simpl; [done|]. unfold collides.
      simpl in H5. rewrite (proj2 (Z.eqb_neq r'.2 0)) by lia. simpl. by rewrite Z.leb_gt. }
    destruct (negb collides && is_page_in_phys_range mem (r.1 + r.2)) eqn:E.
    + left. bool_to_prop. exists [], r, rs. split_and!; [done| |].
      * split; [by eapply phys_range_spec|by apply Hcol].
      * assert (r.1 + r.2 < top) by (by eapply covered_below, phys_range_spec).
        simpl. unfold PAGE_SIZE in *. rewrite !(uwrap_small 32) by (rewrite ?uwrap_small; lia).
        do 3 f_equal. lia.
    + assert (¬ growable mem r rs) as Hng.
      { intros [Hc Hn]. apply (phys_range_spec top) in Hc; [|done].
        apply Hcol in Hn. rewrite Hc, Hn in E. done. }
      destruct (IH (r.1 + r.2) (before ++ [r])) as [(rs1 & q & rest & -> & Hg & ->)|[Hno ->]];
        [lia|done|done|left|right].
      * exists (r :: rs1), q, rest. split_and!; [done|done|]. by rewrite <- app_assoc.
      * split; [|done]. intros [|q rs1] r1 rest E1; simplify_eq/=; [done|]. by eapply Hno.
Qed.

(** ** A booted machine

    Four pages from page 16 on, the second one taken by the loader. *)

Definition example_base : Z := 4096.

Definition example_kargs : kargs := Kargs [(0x10000, 0x4000)] [(0x11000, 0x1000)].

Definition example_raw : vms :=
  let addrs := (λ i, example_base + sizeof_vm_page * i) <$> seqZ 0 4 in
  Vms (XStore (list_to_map ((λ a, (a, ListElem 0 0)) <$> addrs))
        (list_to_map [(1, XListHdr 0 0 0); (2, XListHdr 0 0 0); (3, XListHdr 0 0 0)]))
      (Cpu {[page_lock := SPIN_UNLOCKED]} true)
      (list_to_map ((λ a, (a, VmPage 0 0 0 0)) <$> addrs)) ∅
      (VmStat PAGE_SIZE 4 0 0 0 0 0 0 0) 0 16 4.

Definition example_vms : vms :=
  match vm_page_init example_kargs example_base example_raw with
  | Ok (_, s) => s
  | _ => example_raw
  end.

Lemma example_raw_pre : init_pre example_base example_raw.
Proof.
  split.
  - by_decide.
  - intros a.
    assert (dom (pages example_raw) =
      list_to_set ((λ i, example_base + sizeof_vm_page * i) <$> seqZ 0 4)) as E by by_decide.
    rewrite <- (elem_of_dom (D := gset Z)), E, elem_of_list_to_set, list_elem_of_fmap.
    setoid_rewrite elem_of_seqZ. change (total_pages_count example_raw) with 4.
    naive_solver lia.
  - intros a Ha. apply (elem_of_dom (D := gset Z)) in Ha. revert a Ha.
    change (dom (pages example_raw) ⊆ dom (nodes (xs example_raw))). by_decide.
  - intros l Hl. set_unfold in Hl.
    destruct_or! Hl; subst; (split; [reflexivity|done|constructor|constructor]).
  - intros k Hk%is_state_cases. by destruct_or! Hk; subst.
Qed.

Lemma example_inv : vmp_inv example_vms ∧ unlocked example_vms.
Proof.
  assert (wp (vm_page_init example_kargs example_base) example_raw
    (λ _ s', vmp_inv s' ∧ unlocked s')) as H.
  { apply wp_vm_page_init; [apply example_raw_pre|done|by_decide|].
    intros s' ? _ _ _ E _ _. split; [done|]. unfold unlocked. by rewrite E. }
  unfold wp in H. unfold example_vms.
  by destruct (vm_page_init _ _ _) as [[r s']| | |].
Qed.

(** ** Properties *)

#[local] Opaque example_vms.

(** From empty lists and zero counters, [vm_page_init] builds the array of
    pages and establishes the invariant of the module: every page is in a valid
    state, on exactly the list of its state, and every counter of [VM_State] is
    the number of pages in that state. Pages in a range the loader allocated are
    unused, all others free. *)
Theorem vm_page_init_establishes s ka base :
  init_pre base s → unlocked s → Forall range_ok (phys_alloc_range ka) →
  ∃ s', vm_page_init ka base s = Ok (NO_ERROR, s') ∧
    vmp_inv s' ∧ unlocked s' ∧ all_pages s' = base ∧
    (∀ i, 0 ≤ i < total_pages_count s → pages s' !! page_ptr s' i =
       Some (VmPage (physical_page_offset s + i) 0 VM_PAGE_TYPE_PHYSICAL
         (if decide (reserved s (phys_alloc_range ka) i) then VM_PAGE_STATE_UNUSED
          else VM_PAGE_STATE_FREE))).
Proof.
  intros Hp Hu Hok. apply wp_run, wp_vm_page_init; [done..|].
  intros s' ???? E ??. split_and!; try done. unfold unlocked. by rewrite E.
Qed.

Lemma vm_page_init_establishes_witness :
  ∃ s', vm_page_init example_kargs example_base example_raw = Ok (NO_ERROR, s') ∧
    vmp_inv s' ∧ pages s' !! page_ptr s' 1 = Some (VmPage 17 0 0 VM_PAGE_STATE_UNUSED) ∧
    pages s' !! page_ptr s' 3 = Some (VmPage 19 0 0 VM_PAGE_STATE_FREE).
Proof.
  destruct (vm_page_init_establishes example_raw example_kargs example_base)
    as (s' & Hr & Hi & _ & _ & Hp); [apply example_raw_pre|reflexivity|by_decide|].
  exists s'. split_and!; [done|done|apply (Hp 1); by_decide|apply (Hp 3); by_decide].
Defined.

Lemma wp_vm_page_set_state s a p k (Q : Z → vms → Prop) :
  vmp_inv s → unlocked s → pages s !! a = Some p → is_state k →
  (∀ s', vmp_inv s' → same_rest s s' → pages s' = <[a := with_state k p]> (pages s) → Q 0 s') →
  wp (vm_page_set_state a k) s Q.
Proof.
  intros Hi Hu Ha Hk HQ. pose proof (vmp_inv_cpu (cpus (locked s)) s Hi) as Hi0.
  unfold vm_page_set_state. apply wp_bind, wp_lock; [done|].
  apply wp_bind. eapply wp_set_page_state; [done..|]. intros s1 Hi1 Hr1 E1.
  apply wp_bind, wp_unlock; [done|by apply Hr1|]. apply wp_ret.
  apply HQ; [by apply vmp_inv_cpu|by apply same_rest_unlock|done].
Qed.

(** C7: [vm_page_set_state] on a page of the array moves it to any of the seven
    states: the invariant is kept (so the lists and the counters follow), no other
    page, no frame and not the interrupt state change, the lock is released; a
    state that does not exist makes the kernel panic. *)
Theorem vm_page_set_state_correct s a p k :
  vmp_inv s → unlocked s → pages s !! a = Some p →
  (is_state k → ∃ s', vm_page_set_state a k s = Ok (0, s') ∧ vmp_inv s' ∧ same_rest s s' ∧
     pages s' = <[a := with_state k p]> (pages s)) ∧
  (¬ is_state k → vm_page_set_state a k s = Panic).
Proof.
  intros Hi Hu Ha. split.
  - intros Hk. apply wp_run. eapply wp_vm_page_set_state; try done.
  - intros Hk. destruct (vi_addr s a p Hi Ha) as (i & _ & _ & _ & Hp).
    unfold vm_page_set_state, mbind, M_bind.
    destruct (wp_run (on_cpu (spin_lock_irqsave page_lock)) s (irqs (cpus s))
      (λ s', s' = locked s)) as (? & -> & ->); [by apply wp_lock|].
    unfold set_page_state, mbind, M_bind, ld_page, load. simpl. rewrite Ha.
    assert ((pstate p =? k) = false) as -> by (apply Z.eqb_neq; congruence).
    rewrite source_list_ok by done. unfold target_list.
    repeat case_match; bool_to_prop; try done; exfalso; apply Hk; subst; by_decide.
Qed.

Lemma vm_page_set_state_correct_witness :
  (∃ s', vm_page_set_state (page_ptr example_vms 2) VM_PAGE_STATE_WIRED example_vms = Ok (0, s') ∧
     vmp_inv s' ∧ same_rest example_vms s' ∧
     pages s' = <[page_ptr example_vms 2 := VmPage 18 0 0 VM_PAGE_STATE_WIRED]> (pages example_vms)) ∧
  vm_page_set_state (page_ptr example_vms 2) 7 example_vms = Panic.
Proof.
  destruct (vm_page_set_state_correct example_vms (page_ptr example_vms 2)
    (VmPage 18 0 0 VM_PAGE_STATE_FREE) VM_PAGE_STATE_WIRED) as [H _];
    [apply example_inv|apply example_inv|vm_compute; reflexivity|].
  split; [apply H; by vm_compute|].
  eapply (vm_page_set_state_correct example_vms (page_ptr example_vms 2)
    (VmPage 18 0 0 VM_PAGE_STATE_FREE)); [apply example_inv|apply example_inv| |].
  - vm_compute. reflexivity.
  - intros [_ H7]. by apply H7.
Defined.

(** C4: [vm_page_alloc], asked for a free or a clear page, returns a page of that
    state when there is one and one of the other state only when there is none;
    the page becomes busy, is zero-filled exactly when a clear page was asked for
    and a free one found, and nothing else changes. It panics exactly when
    neither state has a page, and refuses every other state. *)
Theorem vm_page_alloc_correct s st :
  vmp_inv s → unlocked s →
  (st = VM_PAGE_STATE_FREE ∨ st = VM_PAGE_STATE_CLEAR →
   (none_in VM_PAGE_STATE_FREE s ∧ none_in VM_PAGE_STATE_CLEAR s ∧ vm_page_alloc st s = Panic) ∨
   ∃ a p s', vm_page_alloc st s = Ok (a, s') ∧ pages s !! a = Some p ∧
     (pstate p = st ∨ none_in st s ∧ pstate p = spare_state st) ∧
     page_taken a p ((st =? VM_PAGE_STATE_CLEAR) && (pstate p =? VM_PAGE_STATE_FREE)) s s') ∧
  (¬ (st = VM_PAGE_STATE_FREE ∨ st = VM_PAGE_STATE_CLEAR) → vm_page_alloc st s = Ok (NULL, s)).
Proof.
  intros Hi Hu. split.
  - intros Hst.
    destruct (decide (map_Forall (λ _ p, pstate p ≠ VM_PAGE_STATE_FREE ∧
      pstate p ≠ VM_PAGE_STATE_CLEAR) (pages s))) as [Hno|Hyes].
    + left. split_and!; [by intros a p []%Hno..|].
      apply vm_page_alloc_empty; try done; by intros a p []%Hno.
    + right. apply map_not_Forall in Hyes as (a0 & p0 & H0 & Hp0); [|apply _].
      assert (pstate p0 = VM_PAGE_STATE_FREE ∨ pstate p0 = VM_PAGE_STATE_CLEAR) as Hs.
      { destruct (decide (pstate p0 = VM_PAGE_STATE_FREE)),
          (decide (pstate p0 = VM_PAGE_STATE_CLEAR)); tauto. }
      assert (wp (vm_page_alloc st) s (λ a s', ∃ p, pages s !! a = Some p ∧
        (pstate p = st ∨ none_in st s ∧ pstate p = spare_state st) ∧
        page_taken a p ((st =? VM_PAGE_STATE_CLEAR) && (pstate p =? VM_PAGE_STATE_FREE)) s s'))
        as (a & s' & E & p & H)%wp_ok by (eapply wp_vm_page_alloc; eauto).
      by exists a, p, s'.
  - intros Hst. unfold vm_page_alloc, alloc_lists.
    repeat case_match; bool_to_prop; simplify_eq; tauto.
Qed.

Lemma vm_page_alloc_correct_witness :
  ∃ a p s', vm_page_alloc VM_PAGE_STATE_CLEAR example_vms = Ok (a, s') ∧
    pages example_vms !! a = Some p ∧ pstate p = VM_PAGE_STATE_FREE ∧ vmp_inv s' ∧
    frames s' !! (ppn p * PAGE_SIZE) = Some (replicate (Z.to_nat PAGE_SIZE) 0).
Proof.
  assert (map_Forall (λ _ p, pstate p ≠ VM_PAGE_STATE_CLEAR) (pages example_vms)) as Hnc
    by by_decide.
  destruct (vm_page_alloc_correct example_vms VM_PAGE_STATE_CLEAR) as [H _];
    [apply example_inv|apply example_inv|].
  destruct H as [(H & _ & _)|(a & p & s' & E & Ha & [Hp|[_ Hp]] & Ht)]; [by right| | |].
  - exfalso. refine (H (page_ptr example_vms 0) (VmPage 16 0 0 2) _ eq_refl).
    vm_compute. reflexivity.
  - by destruct (Hnc a p Ha).
  - exists a, p, s'. split_and!; [done|done|done|apply Ht|].
    rewrite (pt_frames _ _ _ _ _ Ht), Hp. apply lookup_insert_eq.
Defined.

(** [vm_page_alloc_specific] hands out the page of the given number when the
    number belongs to the array and the page is free, clear or unused: the page
    becomes busy, its frame is zero-filled exactly when a clear page was asked for
    and it was not clear, nothing else changes. In all other cases it returns
    [NULL] and changes nothing, the lock and the interrupt state included. *)
Theorem vm_page_alloc_specific_correct s n st :
  vmp_inv s → unlocked s → 0 ≤ n < 2 ^ 32 →
  (¬ can_alloc s n ∧ vm_page_alloc_specific n st s = Ok (NULL, s)) ∨
  ∃ i p s', n = physical_page_offset s + i ∧ pages s !! page_ptr s i = Some p ∧
    allocatable (pstate p) = true ∧ vm_page_alloc_specific n st s = Ok (page_ptr s i, s') ∧
    page_taken (page_ptr s i) p
      ((st =? VM_PAGE_STATE_CLEAR) && negb (pstate p =? VM_PAGE_STATE_CLEAR)) s s'.
Proof.
  intros Hi Hu Hn.
  assert (wp (vm_page_alloc_specific n st) s (λ a s',
    (¬ can_alloc s n ∧ a = NULL ∧ s' = s) ∨
    ∃ i p, n = physical_page_offset s + i ∧ pages s !! page_ptr s i = Some p ∧
      allocatable (pstate p) = true ∧ a = page_ptr s i ∧
      page_taken (page_ptr s i) p
        ((st =? VM_PAGE_STATE_CLEAR) && negb (pstate p =? VM_PAGE_STATE_CLEAR)) s s'))
    as (a & s' & E & H)%wp_ok.
  { apply wp_vm_page_alloc_specific; [done..| |].
    - intros i p s' -> ????. right. by exists i, p.
    - intros Hno. left. split_and!; try done. intros (p & Hp & Ha). by rewrite (Hno p Hp) in Ha. }
  rewrite E. destruct H as [(? & -> & ->)|(i & p & ? & ? & ? & -> & ?)]; [by left|right].
  by exists i, p, s'.
Qed.

Lemma vm_page_alloc_specific_correct_witness :
  vm_page_alloc_specific 20 VM_PAGE_STATE_FREE example_vms = Ok (NULL, example_vms) ∧
  ∃ s', vm_page_alloc_specific 17 VM_PAGE_STATE_CLEAR example_vms =
          Ok (page_ptr example_vms 1, s') ∧
    page_taken (page_ptr example_vms 1) (VmPage 17 0 0 VM_PAGE_STATE_UNUSED) true example_vms s'.
Proof.
  assert (physical_page_offset example_vms = 16) as Eoff by (vm_compute; reflexivity).
  assert (pages example_vms !! page_ptr example_vms 1 = Some (VmPage 17 0 0 VM_PAGE_STATE_UNUSED))
    as E1 by (vm_compute; reflexivity).
  assert (pages example_vms !! page_ptr example_vms 4 = None) as E4 by (vm_compute; reflexivity).
  destruct example_inv as [Hi Hu]. split.
  - destruct (vm_page_alloc_specific_correct example_vms 20 VM_PAGE_STATE_FREE)
      as [[_ ?]|(i & p & s' & Hn & Hp & _)]; [done|done|by_decide|done|].
    exfalso. rewrite Eoff in Hn. assert (i = 4) as -> by lia. by rewrite E4 in Hp.
  - destruct (vm_page_alloc_specific_correct example_vms 17 VM_PAGE_STATE_CLEAR)
      as [[Hno _]|(i & p & s' & Hn & Hp & _ & Hr & Ht)]; [done|done|by_decide| |].
    + exfalso. apply Hno. eexists. rewrite Eoff. split; [exact E1|reflexivity].
    + rewrite Eoff in Hn. assert (i = 1) as -> by lia.
      rewrite E1 in Hp. injection Hp as <-. exists s'. split; [exact Hr|exact Ht].
Defined.

(** [vm_page_alloc_specific_range] is all or nothing: when every page of the
    range belongs to the array and is free, clear or unused, all of them become
    busy and no other page changes, and the frames of the whole range are
    zero-filled when a clear range was asked for and one of the pages was not
    clear; otherwise the result is [NULL] and nothing changes. *)
Theorem vm_page_alloc_specific_range_correct s first npages st :
  vmp_inv s → unlocked s → 0 ≤ first → 0 < npages → first + npages < 2 ^ 32 →
  ((∀ n, first ≤ n < first + npages → can_alloc s n) → ∃ s',
     vm_page_alloc_specific_range first npages st s =
       Ok (page_ptr s (first - physical_page_offset s), s') ∧
     range_taken st (first - physical_page_offset s) (Z.to_nat npages) s s') ∧
  (∀ n, first ≤ n < first + npages → ¬ can_alloc s n →
     vm_page_alloc_specific_range first npages st s = Ok (NULL, s)).
Proof.
  intros Hi Hu Hf Hn Hw. split.
  - intros Hall. apply wp_run, wp_vm_page_alloc_specific_range; try done.
    intros (n & Hn1 & Hn2). by destruct Hn2; apply Hall.
  - intros n Hr Hno.
    destruct (wp_run (vm_page_alloc_specific_range first npages st) s NULL (λ s', s' = s))
      as (? & -> & ->); [|done].
    apply wp_vm_page_alloc_specific_range; try done. intros Hall. by destruct Hno; apply Hall.
Qed.

Lemma vm_page_alloc_specific_range_correct_witness :
  (∃ s', vm_page_alloc_specific_range 16 4 VM_PAGE_STATE_FREE example_vms =
     Ok (page_ptr example_vms 0, s') ∧ vmp_inv s') ∧
  vm_page_alloc_specific_range 18 3 VM_PAGE_STATE_FREE example_vms = Ok (NULL, example_vms).
Proof.
  assert (physical_page_offset example_vms = 16) as Eoff by (vm_compute; reflexivity).
  destruct example_inv as [Hi Hu]. split.
  - destruct (vm_page_alloc_specific_range_correct example_vms 16 4 VM_PAGE_STATE_FREE)
      as [H _]; [done|done|lia|lia|lia|].
    destruct H as (s' & Hr & Ht).
    + intros n Hn. unfold can_alloc. rewrite Eoff.
      assert (n = 16 ∨ n = 17 ∨ n = 18 ∨ n = 19) as Hc by lia.
      destruct_or! Hc; subst; eexists; (split; [vm_compute; reflexivity|reflexivity]).
    + rewrite Eoff in Hr. exists s'. split; [exact Hr|apply Ht].
  - apply (vm_page_alloc_specific_range_correct example_vms 18 3 VM_PAGE_STATE_FREE)
      with (n := 20); [done|done|lia|lia|lia|lia|].
    intros (p & Hp & _). rewrite Eoff in Hp. revert Hp. vm_compute. discriminate.
Defined.

(** [vm_page_alloc_range] is first fit over the array without its last page:
    it takes the first window of free or clear pages that ends before the last
    page of the array, makes its pages busy and returns its first page; when there
    is none it returns [NULL] and changes nothing. *)
Theorem vm_page_alloc_range_first_fit s st npages :
  vmp_inv s → unlocked s → 0 ≤ npages → total_pages_count s + npages < 2 ^ 32 →
  (∃ w s', vm_page_alloc_range st npages s = Ok (page_ptr s w, s') ∧
     0 ≤ w ∧ w + npages < total_pages_count s ∧ free_window s w npages ∧
     (∀ w', 0 ≤ w' < w → ¬ free_window s w' npages) ∧
     page_step (on_range w (Z.to_nat npages) busied) s s') ∨
  ((∀ w, 0 ≤ w → w + npages < total_pages_count s → ¬ free_window s w npages) ∧
   vm_page_alloc_range st npages s = Ok (NULL, s)).
Proof.
  intros Hi Hu Hn Hw.
  assert (wp (vm_page_alloc_range st npages) s (λ a s',
    (∃ w, a = page_ptr s w ∧ 0 ≤ w ∧ w + npages < total_pages_count s ∧
       free_window s w npages ∧ (∀ w', 0 ≤ w' < w → ¬ free_window s w' npages) ∧
       page_step (on_range w (Z.to_nat npages) busied) s s') ∨
    ((∀ w, 0 ≤ w → w + npages < total_pages_count s → ¬ free_window s w npages) ∧
     a = NULL ∧ s' = s))) as (a & s' & -> & H)%wp_ok.
  { apply wp_vm_page_alloc_range; try done; [|tauto]. intros w s' ?????. left. by exists w. }
  destruct H as [(w & -> & ?)|(? & -> & ->)]; [left|by right]. by exists w, s'.
Qed.

Lemma vm_page_alloc_range_first_fit_witness :
  ∃ w s', vm_page_alloc_range VM_PAGE_STATE_FREE 1 example_vms = Ok (page_ptr example_vms w, s') ∧
    w = 0 ∧ page_step (on_range w 1 busied) example_vms s'.
Proof.
  assert (total_pages_count example_vms = 4) as Et by (vm_compute; reflexivity).
  destruct example_inv as [Hi Hu].
  assert (free_window example_vms 0 1) as Hfree.
  { intros j Hj. assert (j = 0) as -> by lia. eexists.
    split; [vm_compute; reflexivity|by left]. }
  destruct (vm_page_alloc_range_first_fit example_vms VM_PAGE_STATE_FREE 1)
    as [(w & s' & Hr & H0 & H1 & Hw & Hf & Hs)|[Hno _]]; [done|done|lia|rewrite Et; lia| |].
  - exists w, s'. split_and!; [done| |done].
    destruct (decide (w = 0)); [done|]. exfalso. by apply (Hf 0); [lia|].
  - exfalso. apply (Hno 0); [lia|rewrite Et; lia|done].
Defined.

(** The last page is out of reach of [vm_page_alloc_range]: even when all
    pages of the array are free, a request for all of them fails. *)
Theorem vm_page_alloc_range_misses_last s st :
  vmp_inv s → unlocked s → all_free s → total_pages_count s < 2 ^ 31 →
  free_window s 0 (total_pages_count s) ∧
  vm_page_alloc_range st (total_pages_count s) s = Ok (NULL, s).
Proof.
  intros Hi Hu Hfree Ht. pose proof (vi_geom s Hi). split.
  - intros j Hj. eexists. split; [by apply Hfree|by left].
  - destruct (wp_run (vm_page_alloc_range st (total_pages_count s)) s NULL (λ s', s' = s))
      as (? & -> & ->); [|done].
    apply wp_vm_page_alloc_range; try done; lia.
Qed.

(** The machine of the example before the loader's range is marked. *)
Definition example_fresh : vms :=
  match vm_page_init (Kargs [] []) example_base example_raw with
  | Ok (_, s) => s
  | _ => example_raw
  end.

Lemma example_fresh_inv :
  vmp_inv example_fresh ∧ unlocked example_fresh ∧ all_free example_fresh ∧
  total_pages_count example_fresh = 4.
Proof.
  assert (wp (vm_page_init (Kargs [] []) example_base) example_raw
    (λ _ s', vmp_inv s' ∧ unlocked s' ∧ all_free s' ∧ total_pages_count s' = 4)) as H.
  { apply wp_vm_page_init; [apply example_raw_pre|done|by_decide|].
    intros s' ? _ E1 E2 E _ Hp. split_and!; [done|unfold unlocked; by rewrite E| |done].
    intros i Hr. rewrite E2 in Hr. rewrite (Hp i Hr), E1. by rewrite decide_False by
      (intros ?%Exists_nil; done). }
  unfold wp in H. unfold example_fresh.
  by destruct (vm_page_init _ _ _) as [[r s']| | |].
Qed.

Lemma vm_page_alloc_range_misses_last_witness :
  vm_page_alloc_range VM_PAGE_STATE_FREE 4 example_fresh = Ok (NULL, example_fresh).
Proof.
  destruct example_fresh_inv as (Hi & Hu & Hf & Ht). rewrite <- Ht.
  apply (vm_page_alloc_range_misses_last example_fresh VM_PAGE_STATE_FREE); [done..|].
  rewrite Ht. lia.
Defined.

(** [vm_page_mark_range_inuse] turns the free and clear pages of the range
    into unused pages and touches no other page; it refuses, with no effect, the
    ranges that start before the array or reach its last page. *)
Theorem vm_page_mark_range_inuse_correct s start len :
  vmp_inv s → unlocked s → 0 ≤ start < 2 ^ 32 → 0 ≤ len → start + len < 2 ^ 32 →
  (range_accepted s start len ∧ ∃ s', vm_page_mark_range_inuse start len s = Ok (NO_ERROR, s') ∧
     page_step (on_range (start - physical_page_offset s) (Z.to_nat len) marked) s s') ∨
  (¬ range_accepted s start len ∧
     vm_page_mark_range_inuse start len s = Ok (ERR_INVALID_ARGS, s)).
Proof.
  intros Hi Hu Hs Hl Hw.
  assert (wp (vm_page_mark_range_inuse start len) s (λ r s',
    (range_accepted s start len ∧ r = NO_ERROR ∧
       page_step (on_range (start - physical_page_offset s) (Z.to_nat len) marked) s s') ∨
    (¬ range_accepted s start len ∧ r = ERR_INVALID_ARGS ∧ s' = s))) as (r & s' & -> & H)%wp_ok.
  { apply wp_mark_range_inuse; try done; [by right|]. intros ? s' ?. by left. }
  destruct H as [(? & -> & ?)|(? & -> & ->)]; [left|by right]. eauto.
Qed.

Lemma vm_page_mark_range_inuse_correct_witness :
  (∃ s', vm_page_mark_range_inuse 17 2 example_vms = Ok (NO_ERROR, s') ∧
     pages s' !! page_ptr example_vms 2 = Some (VmPage 18 0 0 VM_PAGE_STATE_UNUSED)) ∧
  vm_page_mark_range_inuse 19 1 example_vms = Ok (ERR_INVALID_ARGS, example_vms).
Proof.
  assert (physical_page_offset example_vms = 16) as Eoff by (vm_compute; reflexivity).
  destruct example_inv as [Hi Hu]. split.
  - destruct (vm_page_mark_range_inuse_correct example_vms 17 2)
      as [(_ & s' & Hr & _ & _ & Hc)|[Hno _]]; [done|done|lia|lia|lia| |].
    + exists s'. split; [exact Hr|]. rewrite Eoff in Hc.
      exact (Hc 2 (VmPage 18 0 0 VM_PAGE_STATE_FREE) ltac:(vm_compute; reflexivity)).
    + exfalso. apply Hno. by_decide.
  - destruct (vm_page_mark_range_inuse_correct example_vms 19 1)
      as [(Hyes & _)|[_ Hr]]; [done|done|lia|lia|lia| |exact Hr].
    exfalso. apply (bool_decide_pack _) in Hyes. revert Hyes. vm_compute. tauto.
Defined.

(** looking up the number of a page gives the page, and looking up a number
    that is not a page's gives [NULL]; the look-up changes nothing. *)
Theorem vm_page_lookup_roundtrip s n :
  vmp_inv s → 0 ≤ n < 2 ^ 32 →
  (∃ a p, pages s !! a = Some p ∧ ppn p = n ∧ vm_page_lookup n s = Ok (a, s)) ∨
  ((∀ a p, pages s !! a = Some p → ppn p ≠ n) ∧ vm_page_lookup n s = Ok (NULL, s)).
Proof.
  intros Hi Hn.
  destruct (wp_run (vm_page_lookup n) s
    (if decide (physical_page_offset s ≤ n < physical_page_offset s + total_pages_count s)
     then page_ptr s (n - physical_page_offset s) else NULL) (λ s', s' = s)) as (? & -> & ->).
  { by apply wp_vm_page_lookup. }
  case_decide as Hr; [left|right].
  - destruct (vi_index s (n - physical_page_offset s) Hi) as (p & Hp & E & _); [lia|].
    exists (page_ptr s (n - physical_page_offset s)), p. split_and!; [done|lia|done].
  - split; [|done]. intros a p Ha. destruct (vi_addr s a p Hi Ha) as (i & ? & _ & -> & _). lia.
Qed.

Lemma vm_page_lookup_roundtrip_witness :
  vm_page_lookup 18 example_vms = Ok (page_ptr example_vms 2, example_vms).
Proof.
  assert (physical_page_offset example_vms = 16) as Eoff by (vm_compute; reflexivity).
  destruct example_inv as [Hi Hu].
  assert (pages example_vms !! page_ptr example_vms 2 = Some (VmPage 18 0 0 VM_PAGE_STATE_FREE))
    as E2 by (vm_compute; reflexivity).
  destruct (vm_page_lookup_roundtrip example_vms 18) as [(a & p & Ha & Hp & Hr)|[Hno _]];
    [done|lia| |].
  - destruct (vi_addr example_vms a p Hi Ha) as (i & _ & E & Ei & _). rewrite Eoff in Ei.
    assert (i = 2) as -> by lia. rewrite E in Hr. exact Hr.
  - exfalso. exact (Hno _ _ E2 eq_refl).
Defined.

(** [vm_alloc_ppage_from_kargs] returns the page after an allocated range: a
    page of physical memory no range covered, which the updated arguments cover,
    their ranges still sorted and disjoint; 0 comes back exactly when no range can
    grow, and then the arguments are unchanged. *)
Theorem vm_alloc_ppage_from_kargs_correct ka top :
  memory_below top (phys_mem_range ka) → ranges_in 0 top (phys_alloc_range ka) →
  (∃ pg ranges, vm_alloc_ppage_from_kargs ka = (pg, Kargs (phys_mem_range ka) ranges) ∧
     pg ≠ 0 ∧ covered (phys_mem_range ka) (pg * PAGE_SIZE) ∧ ranges_in 0 top ranges ∧
     (∀ a, pg * PAGE_SIZE ≤ a < (pg + 1) * PAGE_SIZE → ¬ covered (phys_alloc_range ka) a) ∧
     (∀ a, covered ranges a ↔
        covered (phys_alloc_range ka) a ∨ pg * PAGE_SIZE ≤ a < (pg + 1) * PAGE_SIZE)) ∨
  (∀ rs1 r rest, phys_alloc_range ka = rs1 ++ r :: rest →
     ¬ growable (phys_mem_range ka) r rest) ∧ vm_alloc_ppage_from_kargs ka = (0, ka).
Proof.
  intros Hm Hr. destruct ka as [mem rs]. simpl in *. unfold vm_alloc_ppage_from_kargs. simpl.
  destruct (alloc_ppage_loop_spec 0 top mem rs []) as [(rs1 & r & rest & -> & Hg & ->)|[Hno ->]];
    [lia|done|done|left|by right].
  pose proof (ranges_in_app 0 top rs1 (r :: rest) Hr) as (Hr2 & _ & H0).
  simpl in Hr2. destruct Hr2 as (H1 & H2 & H3 & H4 & _).
  assert ((r.1 + r.2) / PAGE_SIZE * PAGE_SIZE = r.1 + r.2) as E.
  { unfold PAGE_SIZE in *. generalize dependent (end_of 0 rs1). intros. lia. }
  do 2 eexists. split; [done|]. rewrite !Z.mul_add_distr_r, E. split_and!.
  - intros Hz. rewrite Hz in E. lia.
  - apply Hg.
  - by eapply ranges_in_grown.
  - intros a Ha. eapply growable_fresh; [done..|]. unfold PAGE_SIZE in *. lia.
  - intros a. rewrite (covered_grown rs1 r rest) by done. by rewrite Z.mul_1_l.
Qed.

Lemma vm_alloc_ppage_from_kargs_correct_witness :
  ∃ pg ranges, vm_alloc_ppage_from_kargs example_kargs = (pg, Kargs [(0x10000, 0x4000)] ranges) ∧
    pg = 18 ∧ ranges_in 0 0x14000 ranges ∧ covered ranges 0x12abc.
Proof.
  destruct (vm_alloc_ppage_from_kargs_correct example_kargs 0x14000)
    as [(pg & rs & E & _ & _ & Hr & _ & Hc)|[_ E]].
  - by_decide.
  - simpl. by_decide.
  - exists pg, rs. split; [exact E|].
    assert (fst (vm_alloc_ppage_from_kargs example_kargs) = 18) as F by reflexivity.
    rewrite E in F. simpl in F. split_and!; [exact F|exact Hr|].
    apply Hc. right. rewrite F. by_decide.
  - assert (fst (vm_alloc_ppage_from_kargs example_kargs) = 18) as F by reflexivity.
    rewrite E in F. discriminate.
Defined.
