(* ===== verification/CType.v ===== *)
(** * Character classes: [lib/phlox/ctype.c]

    The class table of the C library and the routines that test it; [unsigned char]
    is a [Z] in [0 .. 255]. *)

From S2P Require Import Prelude.
From stdpp Require Import gmap list.
#[local] Open Scope Z_scope.

Definition _U : Z := 0x01.
Definition _L : Z := 0x02.
Definition _D : Z := 0x04.
Definition _C : Z := 0x08.
Definition _P : Z := 0x10.
Definition _S : Z := 0x20.
Definition _X : Z := 0x40.
Definition _SP : Z := 0x80.

(** The table, as runs (class, how many characters in a row). *)
Definition _ctype_runs : list (Z * nat) :=
  [(_C, 9%nat); (Z.lor _C _S, 5%nat); (_C, 18%nat);
   (Z.lor _S _SP, 1%nat); (_P, 15%nat); (_D, 10%nat); (_P, 7%nat);
   (Z.lor _U _X, 6%nat); (_U, 20%nat); (_P, 6%nat);
   (Z.lor _L _X, 6%nat); (_L, 20%nat); (_P, 4%nat); (_C, 1%nat);
   (0, 32%nat);
   (Z.lor _S _SP, 1%nat); (_P, 31%nat);
   (_U, 23%nat); (_P, 1%nat); (_U, 7%nat); (_L, 24%nat); (_P, 1%nat); (_L, 8%nat)].

Definition _ctype : list Z := _ctype_runs ≫= λ r, replicate r.2 r.1.

Definition ismask (x : Z) : Z := nth (Z.to_nat (u8 x)) _ctype 0.

Definition test (c mask : Z) : bool := negb (Z.land (ismask c) mask =? 0).

Definition isalnum (c : Z) : bool := test c (Z.lor _U (Z.lor _L _D)).

Definition isalpha (c : Z) : bool := test c (Z.lor _U _L).

Definition iscntrl (c : Z) : bool := test c _C.

Definition isdigit (c : Z) : bool := test c _D.

Definition isgraph (c : Z) : bool := test c (Z.lor _P (Z.lor _U (Z.lor _L _D))).

Definition islower (c : Z) : bool := test c _L.

Definition isprint (c : Z) : bool := test c (Z.lor _P (Z.lor _U (Z.lor _L (Z.lor _D _SP)))).

Definition ispunct (c : Z) : bool := test c _P.

Definition isspace (c : Z) : bool := test c _S.

Definition isupper (c : Z) : bool := test c _U.

Definition isxdigit (c : Z) : bool := test c (Z.lor _D _X).

Definition isascii (c : Z) : bool := u8 c <=? 0x7f.

Definition toascii (c : Z) : Z := Z.land (u8 c) 0x7f.

(** ['A'-'a'] is -32. *)
Definition tolower (c : Z) : Z := if isupper c then u8 (c - (-32)) else c.

Definition toupper (c : Z) : Z := if islower c then u8 (c - 32) else c.

(** ** Facts by evaluation over the 256 characters *)

Definition bytes : list Z := seqZ 0 256.

Lemma bytes_spec c : c ∈ bytes ↔ 0 ≤ c < 256.
Proof. unfold bytes. rewrite elem_of_seqZ. lia. Qed.

Lemma forall_bytes (P : Z → bool) : forallb P bytes = true → ∀ c, 0 ≤ c < 256 → P c = true.
Proof.
  rewrite forallb_forall. intros H c Hc. apply H, list_elem_of_In. by apply bytes_spec.
Qed.

Lemma ctype_length : length _ctype = 256%nat.
Proof. reflexivity. Qed.

(** [c] is one of the letters ['A' .. 'Z'] or of the upper-case half of Latin-1. *)
Definition upper_latin1 (c : Z) : bool :=
  (65 <=? c) && (c <=? 90) || (192 <=? c) && (c <=? 222) && negb (c =? 215).

Definition lower_latin1 (c : Z) : bool :=
  (97 <=? c) && (c <=? 122) || (223 <=? c) && (c <=? 255) && negb (c =? 247).

Lemma isupper_spec c : 0 ≤ c < 256 → isupper c = upper_latin1 c.
Proof.
  intros Hc. apply eqb_prop.
  exact (forall_bytes (λ c, eqb (isupper c) (upper_latin1 c)) eq_refl c Hc).
Qed.

Lemma islower_spec c : 0 ≤ c < 256 → islower c = lower_latin1 c.
Proof.
  intros Hc. apply eqb_prop.
  exact (forall_bytes (λ c, eqb (islower c) (lower_latin1 c)) eq_refl c Hc).
Qed.

(** The lower-case letter of a character, given by its code. *)
Definition lower (c : Z) : Z := if upper_latin1 c then c + 32 else c.

Lemma tolower_spec c : 0 ≤ c < 256 → tolower c = lower c.
Proof.
  intros Hc. apply Z.eqb_eq.
  exact (forall_bytes (λ c, tolower c =? lower c) eq_refl c Hc).
Qed.

Lemma tolower_range c : 0 ≤ c < 256 → 0 ≤ tolower c < 256.
Proof.
  intros Hc.
  pose proof (forall_bytes (λ c, (0 <=? tolower c) && (tolower c <? 256)) eq_refl c Hc) as H.
  cbv beta in H. bool_to_prop. lia.
Qed.

(** ** Properties *)

(** case conversion agrees with the class table: [tolower] maps every upper
    case character to a lower case one and [toupper] maps it back, both leave
    every other character alone, and [toupper] yields an upper case character for
    every lower case one except 0xDF and 0xFF, which have no upper case form in
    Latin-1 and come out as the punctuation 0xBF and the lower case 0xDF. *)
Theorem case_conversion c :
  0 ≤ c < 256 →
  (isupper c = true → islower (tolower c) = true ∧ toupper (tolower c) = c) ∧
  (isupper c = false → tolower c = c) ∧ (islower c = false → toupper c = c) ∧
  (islower c = true → isupper (toupper c) = negb ((c =? 0xDF) || (c =? 0xFF))).
Proof.
  intros Hc. pose proof (forall_bytes (λ c,
    implb (isupper c) (islower (tolower c) && (toupper (tolower c) =? c)) &&
    implb (negb (isupper c)) (tolower c =? c) && implb (negb (islower c)) (toupper c =? c) &&
    implb (islower c) (eqb (isupper (toupper c)) (negb ((c =? 0xDF) || (c =? 0xFF)))))
    eq_refl c Hc) as H.
  rewrite !andb_true_iff, !implb_true_iff, !negb_true_iff, andb_true_iff, !Z.eqb_eq in H.
  rewrite eqb_true_iff in H. tauto.
Qed.

Lemma case_conversion_witness :
  islower (tolower 65) = true ∧ toupper (tolower 65) = 65 ∧ isupper (toupper 0xDF) = false.
Proof.
  destruct (case_conversion 65) as ([H1 H2] & _); [lia|reflexivity|].
  destruct (case_conversion 0xDF) as (_ & _ & _ & H3); [lia|].
  split_and!; [exact H1|exact H2|exact (H3 eq_refl)].
Defined.
