(* ===== verification/CString.v ===== *)
(** * Byte strings: [lib/string/*.c]

    The memory is a finite map from addresses to bytes; an access outside it is a
    fault. A [char] is signed on this target, so a loaded [char] is the byte
    wrapped to the range [-128 .. 127]. Loops over strings run on fuel that one
    more than the number of bytes of the memory always covers: they move through
    ever greater addresses. Loops over a count are structural. *)

From S2P Require Import Prelude CType.
From stdpp Require Import gmap list.
#[local] Open Scope Z_scope.

(** ** Memory *)

Abbreviation mem := (gmap Z Z).

(** An [unsigned char]. *)
Definition ldb (p : Z) : M mem Z := load (λ m, m !! p).

(** A [char]. *)
Definition ldc (p : Z) : M mem Z := b ← ldb p; mret (s8 b).

Definition stb (p v : Z) : M mem unit := λ m,
  match m !! p with
  | Some _ => Ok (tt, <[p := u8 v]> m)
  | None => Fault
  end.

Definition mfuel (m : mem) : nat := S (size m).

(** Run a loop with fuel from the memory it starts on. *)
Definition with_fuel {A} (f : nat → M mem A) : M mem A :=
  fuel ← gets mfuel; f fuel.

(** ** Lengths *)

Fixpoint strlen_loop (fuel : nat) (s i : Z) : M mem Z :=
  match fuel with
  | O => hang
  | S fuel =>
      c ← ldc (s + i);
      if negb (c =? 0) then strlen_loop fuel s (u32 (i + 1)) else mret i
  end.

Definition strlen (s : Z) : M mem Z := with_fuel (λ fuel, strlen_loop fuel s 0).

Fixpoint strnlen_loop (count : nat) (s sc : Z) : M mem Z :=
  match count with
  | O => mret (sc - s)
  | S count =>
      c ← ldc sc;
      if negb (c =? 0) then strnlen_loop count s (sc + 1) else mret (sc - s)
  end.

Definition strnlen (s count : Z) : M mem Z := strnlen_loop (Z.to_nat count) s s.

(** ** Copying *)

(** The copy [*dest++ = *src++] while the character is not zero. *)
Fixpoint strcpy_loop (fuel : nat) (dest src : Z) : M mem unit :=
  match fuel with
  | O => hang
  | S fuel =>
      c ← ldc src;
      stb dest c;;
      if negb (c =? 0) then strcpy_loop fuel (dest + 1) (src + 1) else mret tt
  end.

Definition strcpy (dest src : Z) : M mem Z :=
  with_fuel (λ fuel, strcpy_loop fuel dest src);; mret dest.

(** The end of the string [dest]. *)
Fixpoint seek_end (fuel : nat) (dest : Z) : M mem Z :=
  match fuel with
  | O => hang
  | S fuel =>
      c ← ldc dest;
      if negb (c =? 0) then seek_end fuel (dest + 1) else mret dest
  end.

Definition strcat (dest src : Z) : M mem Z :=
  d ← with_fuel (λ fuel, seek_end fuel dest);
  with_fuel (λ fuel, strcpy_loop fuel d src);;
  mret dest.

Fixpoint strncpy_loop (count : nat) (dest src : Z) : M mem unit :=
  match count with
  | O => mret tt
  | S count =>
      c ← ldc src;
      stb dest c;;
      if negb (c =? 0) then strncpy_loop count (dest + 1) (src + 1) else mret tt
  end.

Definition strncpy (dest src count : Z) : M mem Z :=
  strncpy_loop (Z.to_nat count) dest src;; mret dest.

(** The copying loop of [strncat], [count] not zero. *)
Fixpoint strncat_loop (count : nat) (dest src : Z) : M mem unit :=
  match count with
  | O => mret tt
  | S count =>
      c ← ldc src;
      stb dest c;;
      if negb (c =? 0) then
        match count with
        | O => stb (dest + 1) 0
        | _ => strncat_loop count (dest + 1) (src + 1)
        end
      else mret tt
  end.

Definition strncat (dest src count : Z) : M mem Z :=
  when (0 <? count)
    (d ← with_fuel (λ fuel, seek_end fuel dest);
     strncat_loop (Z.to_nat count) d src);;
  mret dest.

(** [for(i = 0; ((i < s-1) && src[i]); i++) dst[i] = src[i];] with [n] iterations
    left: the value of [i] at the end. *)
Fixpoint lcopy_loop (n : nat) (dst src i : Z) : M mem Z :=
  match n with
  | O => mret i
  | S n =>
      c ← ldc (src + i);
      if negb (c =? 0) then
        c ← ldc (src + i);
        stb (dst + i) c;;
        lcopy_loop n dst src (i + 1)
      else mret i
  end.

Definition strlcpy (dst src s : Z) : M mem Z :=
  if s =? 0 then strlen src
  else
    i ← lcopy_loop (Z.to_nat (s - 1)) dst src 0;
    stb (dst + i) 0;;
    l ← strlen (src + i);
    mret (u32 (i + l)).

Definition strlcat (dst src s : Z) : M mem Z :=
  j ← strnlen dst s;
  if s =? 0 then l ← strlen src; mret (u32 (j + l))
  else
    let dst := dst + j in
    i ← lcopy_loop (Z.to_nat (s - 1)) dst src 0;
    stb (dst + i) 0;;
    l ← strlen (src + i);
    mret (u32 (j + i + l)).

(** ** Comparing *)

Fixpoint strcmp_loop (fuel : nat) (cs ct : Z) : M mem Z :=
  match fuel with
  | O => hang
  | S fuel =>
      a ← ldc cs;
      b ← ldc ct;
      let res := s8 (a - b) in
      if negb (res =? 0) then mret res
      else
        a ← ldc cs;
        if a =? 0 then mret res else strcmp_loop fuel (cs + 1) (ct + 1)
  end.

Definition strcmp (cs ct : Z) : M mem Z := with_fuel (λ fuel, strcmp_loop fuel cs ct).

Definition strcoll (s1 s2 : Z) : M mem Z := strcmp s1 s2.

Fixpoint strncmp_loop (count : nat) (cs ct : Z) (res : Z) : M mem Z :=
  match count with
  | O => mret res
  | S count =>
      a ← ldc cs;
      b ← ldc ct;
      let res := s8 (a - b) in
      if negb (res =? 0) then mret res
      else
        a ← ldc cs;
        if a =? 0 then mret res else strncmp_loop count (cs + 1) (ct + 1) res
  end.

Definition strncmp (cs ct count : Z) : M mem Z := strncmp_loop (Z.to_nat count) cs ct 0.

(** The [do] loop of [strnicmp], [len] not zero; the result is [(c1, c2)]. *)
Fixpoint strnicmp_loop (len : nat) (s1 s2 c1 c2 : Z) : M mem (Z * Z) :=
  match len with
  | O => mret (c1, c2)
  | S len =>
      c1 ← ldb s1;
      c2 ← ldb s2;
      if c1 =? 0 then mret (c1, c2)
      else if c2 =? 0 then mret (c1, c2)
      else if c1 =? c2 then strnicmp_loop len (s1 + 1) (s2 + 1) c1 c2
      else
        let c1 := tolower c1 in
        let c2 := tolower c2 in
        if negb (c1 =? c2) then mret (c1, c2)
        else strnicmp_loop len (s1 + 1) (s2 + 1) c1 c2
  end.

Definition strnicmp (s1 s2 len : Z) : M mem Z :=
  cc ← strnicmp_loop (Z.to_nat len) s1 s2 0 0;
  mret (cc.1 - cc.2).

Fixpoint memcmp_loop (count : nat) (su1 su2 res : Z) : M mem Z :=
  match count with
  | O => mret res
  | S count =>
      a ← ldb su1;
      b ← ldb su2;
      let res := s8 (a - b) in
      if negb (res =? 0) then mret res else memcmp_loop count (su1 + 1) (su2 + 1) res
  end.

Definition memcmp (cs ct count : Z) : M mem Z := memcmp_loop (Z.to_nat count) cs ct 0.

(** ** Searching *)

Fixpoint strchr_loop (fuel : nat) (s c : Z) : M mem Z :=
  match fuel with
  | O => hang
  | S fuel =>
      b ← ldc s;
      if negb (b =? s8 c) then
        b ← ldc s;
        if b =? 0 then mret NULL else strchr_loop fuel (s + 1) c
      else mret s
  end.

Definition strchr (s c : Z) : M mem Z := with_fuel (λ fuel, strchr_loop fuel s c).

Fixpoint strrchr_loop (fuel : nat) (s c last : Z) : M mem Z :=
  match fuel with
  | O => hang
  | S fuel =>
      b ← ldc s;
      if negb (b =? 0) then
        strrchr_loop fuel (s + 1) c (if b =? c then s else last)
      else mret last
  end.

Definition strrchr (s c : Z) : M mem Z :=
  with_fuel (λ fuel, strrchr_loop fuel s c (if negb (c =? 0) then NULL else s)).

(** The inner loop of [strspn] and [strpbrk]: is [b] one of the characters of the
    string [a]? *)
Fixpoint one_of (fuel : nat) (b a : Z) : M mem bool :=
  match fuel with
  | O => hang
  | S fuel =>
      c ← ldc a;
      if negb (c =? 0) then
        c ← ldc a;
        if b =? c then mret true else one_of fuel b (a + 1)
      else mret false
  end.

Fixpoint strspn_loop (fuel : nat) (p accept count : Z) : M mem Z :=
  match fuel with
  | O => hang
  | S fuel =>
      b ← ldc p;
      if negb (b =? 0) then
        found ← with_fuel (λ fuel, one_of fuel b accept);
        if negb found then mret count
        else strspn_loop fuel (p + 1) accept (u32 (count + 1))
      else mret count
  end.

Definition strspn (s accept : Z) : M mem Z :=
  with_fuel (λ fuel, strspn_loop fuel s accept 0).

Fixpoint strpbrk_loop (fuel : nat) (sc1 ct : Z) : M mem Z :=
  match fuel with
  | O => hang
  | S fuel =>
      b ← ldc sc1;
      if negb (b =? 0) then
        found ← with_fuel (λ fuel, one_of fuel b ct);
        if found : bool then mret sc1 else strpbrk_loop fuel (sc1 + 1) ct
      else mret NULL
  end.

Definition strpbrk (cs ct : Z) : M mem Z := with_fuel (λ fuel, strpbrk_loop fuel cs ct).

(** [while(l1 >= l2)]: [l1] is decremented, so [n] bounds the iterations. *)
Fixpoint strstr_loop (n : nat) (s1 s2 l1 l2 : Z) : M mem Z :=
  if l2 <=? l1 then
    match n with
    | O => hang
    | S n =>
        let l1 := l1 - 1 in
        r ← memcmp s1 s2 l2;
        if r =? 0 then mret s1 else strstr_loop n (s1 + 1) s2 l1 l2
    end
  else mret NULL.

Definition strstr (s1 s2 : Z) : M mem Z :=
  l2 ← strlen s2;
  let l2 := s32 l2 in
  if l2 =? 0 then mret s1
  else
    l1 ← strlen s1;
    let l1 := s32 l1 in
    strstr_loop (Z.to_nat (l1 + 1)) s1 s2 l1 l2.

Fixpoint memchr_loop (n : nat) (b x i : Z) : M mem Z :=
  match n with
  | O => mret NULL
  | S n =>
      c ← ldb (b + i);
      if c =? x then mret (b + i) else memchr_loop n b x (i + 1)
  end.

Definition memchr (buf c len : Z) : M mem Z :=
  memchr_loop (Z.to_nat len) buf (Z.land c 0xff) 0.

Fixpoint memscan_loop (size : nat) (p c : Z) : M mem Z :=
  match size with
  | O => mret p
  | S size =>
      b ← ldb p;
      if b =? c then mret p else memscan_loop size (p + 1) c
  end.

Definition memscan (addr c size : Z) : M mem Z := memscan_loop (Z.to_nat size) addr c.

(** ** Tokens *)

(** [strtok] keeps its position in the static variable [___strtok]. *)
Record tstate := TState { tmem : mem; ___strtok : Z }.

Abbreviation on_mem := (zoom tmem (λ m s, TState m (___strtok s))).

Definition st_strtok (v : Z) : M tstate unit := modify (λ s, TState (tmem s) v).

Definition strtok (s ct : Z) : M tstate Z :=
  saved ← gets ___strtok;
  let sbegin := if negb (s =? NULL) then s else saved in
  if sbegin =? NULL then mret NULL
  else
    n ← on_mem (strspn sbegin ct);
    let sbegin := sbegin + n in
    c ← on_mem (ldc sbegin);
    if c =? 0 then st_strtok NULL;; mret NULL
    else
      send ← on_mem (strpbrk sbegin ct);
      send ← (if send =? NULL then mret send
              else
                c ← on_mem (ldc send);
                if negb (c =? 0) then on_mem (stb send 0);; mret (send + 1) else mret send);
      st_strtok send;;
      mret sbegin.

(** ** Blocks of memory

    The portable versions; a machine word is four bytes. *)

Definition lsize : Z := 4.

Definition lmask : Z := lsize - 1.

(** The copy [*d++ = *s++], [n] times: the pointers at the end. *)
Fixpoint bytes_up (n : nat) (d s : Z) : M mem (Z * Z) :=
  match n with
  | O => mret (d, s)
  | S n => c ← ldc s; stb d c;; bytes_up n (d + 1) (s + 1)
  end.

(** The copy [*--d = *--s], [n] times. *)
Fixpoint bytes_down (n : nat) (d s : Z) : M mem (Z * Z) :=
  match n with
  | O => mret (d, s)
  | S n => c ← ldc (s - 1); stb (d - 1) c;; bytes_down n (d - 1) (s - 1)
  end.

(** The copy [*d = *s] on words: the four bytes are loaded before any is stored. *)
Definition copy_word (d s : Z) : M mem unit :=
  b0 ← ldb s; b1 ← ldb (s + 1); b2 ← ldb (s + 2); b3 ← ldb (s + 3);
  stb d b0;; stb (d + 1) b1;; stb (d + 2) b2;; stb (d + 3) b3.

Fixpoint words_up (n : nat) (d s : Z) : M mem (Z * Z) :=
  match n with
  | O => mret (d, s)
  | S n => copy_word d s;; words_up n (d + lsize) (s + lsize)
  end.

Fixpoint words_down (n : nat) (d s : Z) : M mem (Z * Z) :=
  match n with
  | O => mret (d, s)
  | S n => copy_word (d - lsize) (s - lsize);; words_down n (d - lsize) (s - lsize)
  end.

(** The forward copy of [memcpy] and [memmove]. *)
Definition copy_up (d s count : Z) : M mem unit :=
  ds_c ← (if negb (Z.land (Z.lor d s) lmask =? 0) then
            let len := if negb (Z.land (Z.lxor d s) lmask =? 0) || (count <? lsize)
                       then s32 count else lsize - Z.land d lmask in
            ds ← bytes_up (Z.to_nat len) d s; mret (ds, u32 (count - len))
          else mret ((d, s), count));
  let '((d, s), count) := ds_c : (Z * Z) * Z in
  ds ← words_up (Z.to_nat (s32 (count / lsize))) d s;
  bytes_up (Z.to_nat (Z.land count lmask)) ds.1 ds.2;;
  mret tt.

(** The backward copy of [memmove]. *)
Definition copy_down (d s count : Z) : M mem unit :=
  let d := d + count in
  let s := s + count in
  ds_c ← (if negb (Z.land (Z.lor d s) lmask =? 0) then
            let len := if negb (Z.land (Z.lxor d s) lmask =? 0) || (count <=? lsize)
                       then s32 count else Z.land d lmask in
            ds ← bytes_down (Z.to_nat len) d s; mret (ds, u32 (count - len))
          else mret ((d, s), count));
  let '((d, s), count) := ds_c : (Z * Z) * Z in
  ds ← words_down (Z.to_nat (s32 (count / lsize))) d s;
  bytes_down (Z.to_nat (Z.land count lmask)) ds.1 ds.2;;
  mret tt.

Definition memcpy (dest src count : Z) : M mem Z :=
  if (count =? 0) || (dest =? src) then mret dest
  else copy_up dest src count;; mret dest.

Definition memmove (dest src count : Z) : M mem Z :=
  if (count =? 0) || (dest =? src) then mret dest
  else
    (if s32 dest <? s32 src then copy_up dest src count else copy_down dest src count);;
    mret dest.

Definition bcopy (src dest count : Z) : M mem Z := memcpy dest src count.

(** The store [*xs++ = c], [n] times. *)
Fixpoint fill_bytes (n : nat) (xs c : Z) : M mem Z :=
  match n with
  | O => mret xs
  | S n => stb xs c;; fill_bytes n (xs + 1) c
  end.

(** A little-endian store of the 32-bit [cc]. *)
Definition st_word (p cc : Z) : M mem unit :=
  stb p cc;; stb (p + 1) (Z.shiftr cc 8);; stb (p + 2) (Z.shiftr cc 16);;
  stb (p + 3) (Z.shiftr cc 24).

Fixpoint fill_words (n : nat) (xs cc : Z) : M mem Z :=
  match n with
  | O => mret xs
  | S n => st_word xs cc;; fill_words n (xs + 4) cc
  end.

Definition memset (s c count : Z) : M mem Z :=
  let len := Z.land (u32 (- s)) 3 in
  let cc := Z.land c 0xff in
  xs_c ← (if len <? count then
            let count := count - len in
            let cc := Z.lor cc (Z.shiftl cc 8) in
            let cc := Z.lor cc (Z.shiftl cc 16) in
            xs ← fill_bytes (Z.to_nat len) s c;
            xs ← fill_words (Z.to_nat (count / 4)) xs cc;
            mret (xs, Z.land count 3)
          else mret (s, count));
  fill_bytes (Z.to_nat xs_c.2) xs_c.1 c;;
  mret s.

Definition bzero (dst count : Z) : M mem unit := memset dst 0 count;; mret tt.

Definition strxfrm (dest src n : Z) : M mem Z :=
  len ← strlen src;
  when (negb (n =? 0))
    (let copy_len := if len <? n then len else n - 1 in
     memcpy dest src copy_len;;
     stb (dest + copy_len) 0);;
  mret len.
