(* ===== verification/CStringSpec.v ===== *)
(** * Byte strings: what the routines of CString compute

    Strings and blocks of memory as lists of bytes, a lemma for each loop, the
    properties of the library at the end. *)

From S2P Require Import Prelude CType CString.
From stdpp Require Import gmap list.
#[local] Open Scope Z_scope.

(** ** Characters *)

Definition is_byte (b : Z) : Prop := 0 ≤ b < 256.

Lemma s8_bytes (a b : Z) : is_byte a → is_byte b → s8 a = s8 b ↔ a = b.
Proof.
  unfold is_byte, swrap. intros Ha Hb. split; [|by intros ->]. intros E.
  Z.to_euclidean_division_equations. change (2 ^ 8) with 256 in *. change (2 ^ (8 - 1)) with 128 in *. lia.
Qed.

Lemma s8_0 : s8 0 = 0.
Proof. done. Qed.

Lemma s8_zero b : is_byte b → s8 b = 0 ↔ b = 0.
Proof. intros Hb. rewrite <- s8_0 at 1. apply s8_bytes; [done|unfold is_byte; lia]. Qed.

Lemma s8_eqb a b : is_byte a → is_byte b → (s8 a =? s8 b) = (a =? b).
Proof.
  intros Ha Hb. apply eq_true_iff_eq. rewrite !Z.eqb_eq. by apply s8_bytes.
Qed.

Lemma s8_eqb0 b : is_byte b → (s8 b =? 0) = (b =? 0).
Proof. intros Hb. apply eq_true_iff_eq. rewrite !Z.eqb_eq. by apply s8_zero. Qed.

Lemma u8_s8 b : is_byte b → u8 (s8 b) = b.
Proof.
  unfold is_byte, uwrap, swrap. intros Hb. change (2 ^ 8) with 256. change (2 ^ (8 - 1)) with 128.
  Z.to_euclidean_division_equations. lia.
Qed.

Lemma u8_byte b : is_byte b → u8 b = b.
Proof. intros. by apply uwrap_small. Qed.

(** The difference [strcmp] takes, of signed characters, wraps to the same signed
    character as the difference of the bytes. *)
Lemma s8_sub a b : s8 (s8 a - s8 b) = s8 (a - b).
Proof.
  unfold swrap. change (2 ^ 8) with 256. change (2 ^ (8 - 1)) with 128.
  Z.to_euclidean_division_equations. lia.
Qed.

Lemma s8_sub_zero a b : is_byte a → is_byte b → s8 (a - b) = 0 ↔ a = b.
Proof.
  unfold is_byte, swrap. change (2 ^ 8) with 256. change (2 ^ (8 - 1)) with 128.
  intros. Z.to_euclidean_division_equations. lia.
Qed.

(** ** Blocks of memory *)

(** The bytes [bs] lie at [p]. *)
Fixpoint bytes_at (m : mem) (p : Z) (bs : list Z) : Prop :=
  match bs with
  | [] => True
  | b :: bs => m !! p = Some b ∧ bytes_at m (p + 1) bs
  end.

(** [m] with the bytes [bs] stored at [p]. *)
Fixpoint bytes_put (p : Z) (bs : list Z) (m : mem) : mem :=
  match bs with
  | [] => m
  | b :: bs => bytes_put (p + 1) bs (<[p := b]> m)
  end.

(** There is memory for [n] bytes at [p]. *)
Definition room (m : mem) (p : Z) (n : nat) : Prop :=
  ∀ a, p ≤ a < p + Z.of_nat n → is_Some (m !! a).

Definition len (bs : list Z) : Z := Z.of_nat (length bs).

Lemma len_cons b bs : len (b :: bs) = len bs + 1.
Proof. unfold len. simpl. lia. Qed.

Lemma len_nonneg bs : 0 ≤ len bs.
Proof. unfold len. lia. Qed.

Lemma len_app bs1 bs2 : len (bs1 ++ bs2) = len bs1 + len bs2.
Proof. unfold len. rewrite length_app. lia. Qed.

Lemma bytes_at_lookup m bs : ∀ p,
  bytes_at m p bs ↔ ∀ i b, bs !! i = Some b → m !! (p + Z.of_nat i) = Some b.
Proof.
  induction bs as [|b bs IH]; intros p; simpl; [done|]. rewrite IH. split.
  - intros [Hb H] [|i] b' E; simplify_eq/=; [by rewrite Z.add_0_r|].
    replace (p + Z.of_nat (S i)) with (p + 1 + Z.of_nat i) by lia. auto.
  - intros H. split; [by rewrite <- (H 0%nat b), Z.add_0_r|].
    intros i b' E. replace (p + 1 + Z.of_nat i) with (p + Z.of_nat (S i)) by lia. by apply H.
Qed.

Lemma bytes_at_app m p bs1 bs2 :
  bytes_at m p (bs1 ++ bs2) ↔ bytes_at m p bs1 ∧ bytes_at m (p + len bs1) bs2.
Proof.
  revert p. induction bs1 as [|b bs1 IH]; intros p; simpl.
  - unfold len. simpl. rewrite Z.add_0_r. tauto.
  - rewrite IH, len_cons. replace (p + 1 + len bs1) with (p + (len bs1 + 1)) by lia. tauto.
Qed.

Lemma bytes_at_frame m m' p bs :
  (∀ a, p ≤ a < p + len bs → m' !! a = m !! a) → bytes_at m p bs → bytes_at m' p bs.
Proof.
  rewrite !bytes_at_lookup. intros Hf H i b E. rewrite Hf; [auto|].
  apply lookup_lt_Some in E. unfold len. lia.
Qed.

Lemma bytes_at_room m p bs : bytes_at m p bs → room m p (length bs).
Proof.
  rewrite bytes_at_lookup. intros H a Ha.
  destruct (lookup_lt_is_Some_2 bs (Z.to_nat (a - p))) as [b E]; [lia|].
  exists b. rewrite <- (H _ _ E). f_equal. lia.
Qed.

Lemma bytes_put_lookup bs : ∀ p m a,
  bytes_put p bs m !! a =
  if decide (p ≤ a < p + len bs) then bs !! Z.to_nat (a - p) else m !! a.
Proof.
  induction bs as [|b bs IH]; intros p m a; cbn [bytes_put].
  - rewrite decide_False; [done|]. unfold len. simpl. lia.
  - rewrite IH, len_cons. pose proof (len_nonneg bs). destruct (decide (a = p)) as [->|Hne].
    + rewrite decide_False, decide_True by lia. rewrite lookup_insert_eq, Z.sub_diag. done.
    + rewrite lookup_insert_ne by congruence. repeat case_decide; try lia; [|done].
      replace (Z.to_nat (a - p)) with (S (Z.to_nat (a - (p + 1)))) by lia. done.
Qed.

Lemma bytes_put_out bs p m a : ¬ (p ≤ a < p + len bs) → bytes_put p bs m !! a = m !! a.
Proof. intros. by rewrite bytes_put_lookup, decide_False. Qed.

Lemma bytes_at_put p bs m : bytes_at (bytes_put p bs m) p bs.
Proof.
  apply bytes_at_lookup. intros i b E. rewrite bytes_put_lookup.
  pose proof (lookup_lt_Some _ _ _ E). rewrite decide_True by (unfold len; lia).
  by replace (Z.to_nat (p + Z.of_nat i - p)) with i by lia.
Qed.

Lemma bytes_put_app p bs1 bs2 m :
  bytes_put p (bs1 ++ bs2) m = bytes_put (p + len bs1) bs2 (bytes_put p bs1 m).
Proof.
  revert p m. induction bs1 as [|b bs1 IH]; intros p m; cbn.
  - by rewrite Z.add_0_r.
  - rewrite IH, len_cons. f_equal. lia.
Qed.

Lemma room_put p bs m q n : room m q n → room (bytes_put p bs m) q n.
Proof.
  intros H a Ha. rewrite bytes_put_lookup. case_decide as Hd; [|by apply H].
  apply lookup_lt_is_Some_2. unfold len in *. lia.
Qed.

Lemma room_insert m p b q n : room m q n → room (<[p := b]> m) q n.
Proof. exact (room_put p [b] m q n). Qed.

Lemma room_S m p n : room m p (S n) → is_Some (m !! p) ∧ room m (p + 1) n.
Proof. intros H. split; [apply H; lia|]. intros a Ha. apply H. lia. Qed.

Lemma bytes_at_size m p bs : bytes_at m p bs → (length bs ≤ size m)%nat.
Proof.
  revert m p. induction bs as [|b bs IH]; intros m p; simpl; [lia|].
  intros [Hb H]. assert (bytes_at (delete p m) (p + 1) bs) as H'.
  { eapply bytes_at_frame; [|exact H]. intros a Ha. rewrite lookup_delete_ne; [done|lia]. }
  apply IH in H'. rewrite map_size_delete_Some in H' by eauto.
  assert (size m ≠ 0%nat); [|lia]. intros E%map_size_empty_inv. subst m. done.
Qed.

(** ** Strings *)

(** The string of the characters [cs], none of them 0, lies at [p], with its
    terminator. *)
Fixpoint str_at (m : mem) (p : Z) (cs : list Z) : Prop :=
  match cs with
  | [] => m !! p = Some 0
  | c :: cs => m !! p = Some c ∧ 0 < c < 256 ∧ str_at m (p + 1) cs
  end.

Definition chars (cs : list Z) : Prop := Forall (λ c, 0 < c < 256) cs.

Lemma str_at_bytes m p cs : str_at m p cs ↔ bytes_at m p (cs ++ [0]) ∧ chars cs.
Proof.
  revert p. unfold chars. induction cs as [|c cs IH]; intros p; simpl.
  - split; [done|tauto].
  - rewrite IH, Forall_cons. tauto.
Qed.

Lemma str_at_app m p cs1 cs2 :
  str_at m p (cs1 ++ cs2) ↔ bytes_at m p cs1 ∧ chars cs1 ∧ str_at m (p + len cs1) cs2.
Proof.
  rewrite !str_at_bytes, <- app_assoc, bytes_at_app. unfold chars. rewrite Forall_app. tauto.
Qed.

Lemma str_at_frame m m' p cs :
  (∀ a, p ≤ a ≤ p + len cs → m' !! a = m !! a) → str_at m p cs → str_at m' p cs.
Proof.
  rewrite !str_at_bytes. intros Hf [H Hc]. split; [|done].
  eapply bytes_at_frame; [|exact H]. intros a Ha. apply Hf.
  rewrite len_app in Ha. unfold len in *. simpl in Ha. lia.
Qed.

Lemma str_at_fuel m p cs : str_at m p cs → (length cs < mfuel m)%nat.
Proof.
  intros [H%bytes_at_size _]%str_at_bytes. rewrite length_app in H. unfold mfuel. simpl in *. lia.
Qed.

Lemma str_at_len m p cs : str_at m p cs → ∃ b, m !! p = Some b ∧ is_byte b.
Proof. destruct cs; simpl; [|intros (? & ? & _)]; eexists; split; eauto; unfold is_byte; lia. Qed.

(** ** Loads and stores *)

Lemma wp_ldb p b m (Q : Z → mem → Prop) : m !! p = Some b → Q b m → wp (ldb p) m Q.
Proof. intros. by eapply wp_load. Qed.

Lemma wp_ldc p b m (Q : Z → mem → Prop) : m !! p = Some b → Q (s8 b) m → wp (ldc p) m Q.
Proof. intros. unfold ldc. wp_go. eapply wp_ldb; [done|]. by wp_go. Qed.

Lemma wp_stb p v m (Q : unit → mem → Prop) :
  is_Some (m !! p) → Q tt (<[p := u8 v]> m) → wp (stb p v) m Q.
Proof. intros [b Hb] HQ. unfold wp, stb. by rewrite Hb. Qed.

Lemma wp_with_fuel {A} (f : nat → M mem A) m Q : wp (f (mfuel m)) m Q → wp (with_fuel f) m Q.
Proof. intros. unfold with_fuel. by wp_go. Qed.

(** ** Scanning *)

(** The length of the longest prefix of characters that satisfy [P]. *)
Fixpoint span (P : Z → bool) (cs : list Z) : Z :=
  match cs with
  | [] => 0
  | c :: cs => if P c then 1 + span P cs else 0
  end.

(** The address of the first character that satisfies [P], in the string [cs] at
    [p]; [NULL] when there is none. *)
Definition find_ptr (P : Z → bool) (p : Z) (cs : list Z) : Z :=
  let n := span (λ c, negb (P c)) cs in
  if n =? len cs then NULL else p + n.

Definition among (ds : list Z) (c : Z) : bool := bool_decide (c ∈ ds).

Lemma span_range P cs : 0 ≤ span P cs ≤ len cs.
Proof.
  induction cs as [|c cs IH]; cbn [span]; [done|]. rewrite len_cons. case_match; lia.
Qed.

Lemma span_full P cs : span P cs = len cs ↔ Forall (λ c, P c = true) cs.
Proof.
  induction cs as [|c cs IH]; cbn [span]; [done|]. rewrite len_cons, Forall_cons.
  pose proof (span_range P cs). destruct (P c); [|split; [lia|naive_solver]].
  rewrite <- IH. intuition lia.
Qed.

Lemma find_ptr_nil P p : find_ptr P p [] = NULL.
Proof. done. Qed.

Lemma find_ptr_cons P p c cs :
  find_ptr P p (c :: cs) = if P c then p else find_ptr P (p + 1) cs.
Proof.
  unfold find_ptr. cbn [span]. rewrite len_cons. pose proof (span_range (λ c, negb (P c)) cs).
  destruct (P c); cbn [negb].
  - rewrite (proj2 (Z.eqb_neq 0 (len cs + 1))); lia.
  - set (n := span _ cs) in *. destruct (Z.eqb_spec (1 + n) (len cs + 1)),
      (Z.eqb_spec n (len cs)); lia.
Qed.

Lemma wp_strlen_loop fuel : ∀ cs s i m (Q : Z → mem → Prop),
  (length cs < fuel)%nat → str_at m (s + i) cs → 0 ≤ i → i + len cs < 2 ^ 32 →
  Q (i + len cs) m → wp (strlen_loop fuel s i) m Q.
Proof.
  induction fuel as [|fuel IH]; intros cs s i m Q Hf Hs Hi Hl HQ; [lia|]. cbn [strlen_loop].
  destruct cs as [|c cs]; simpl in Hs, Hf.
  - wp_go. eapply wp_ldc; [done|]. simpl. wp_go. by rewrite Z.add_0_r in HQ.
  - destruct Hs as (Hc & Hr & Hs). rewrite len_cons in *. pose proof (len_nonneg cs).
    wp_go. eapply wp_ldc; [done|].
    rewrite s8_eqb0, (proj2 (Z.eqb_neq c 0)) by (unfold is_byte; lia). simpl.
    rewrite uwrap_small by lia. apply (IH cs); [lia| |lia|lia|].
    + by rewrite Z.add_assoc.
    + by replace (i + 1 + len cs) with (i + (len cs + 1)) by lia.
Qed.

Lemma wp_strlen m s cs (Q : Z → mem → Prop) :
  str_at m s cs → len cs < 2 ^ 32 → Q (len cs) m → wp (strlen s) m Q.
Proof.
  intros Hs Hl HQ. apply wp_with_fuel, (wp_strlen_loop _ cs); try done; [by eapply str_at_fuel|].
  by rewrite Z.add_0_r.
Qed.

Lemma wp_strnlen_loop n : ∀ cs s sc m (Q : Z → mem → Prop),
  str_at m sc cs → Q (sc - s + Z.min (Z.of_nat n) (len cs)) m → wp (strnlen_loop n s sc) m Q.
Proof.
  induction n as [|n IH]; intros cs s sc m Q Hs HQ; cbn [strnlen_loop].
  - wp_go. pose proof (len_nonneg cs). by rewrite Z.min_l, Z.add_0_r in HQ by lia.
  - destruct cs as [|c cs]; simpl in Hs.
    + wp_go. eapply wp_ldc; [done|]. simpl. wp_go.
      by rewrite Z.min_r, Z.add_0_r in HQ by (unfold len; simpl; lia).
    + destruct Hs as (Hc & Hr & Hs). rewrite len_cons in *. wp_go. eapply wp_ldc; [done|].
      rewrite s8_eqb0, (proj2 (Z.eqb_neq c 0)) by (unfold is_byte; lia). simpl.
      apply (IH cs); [done|].
      by replace (sc + 1 - s + Z.min (Z.of_nat n) (len cs)) with
        (sc - s + Z.min (Z.of_nat (S n)) (len cs + 1)) by lia.
Qed.

Lemma wp_strnlen m s n cs (Q : Z → mem → Prop) :
  str_at m s cs → 0 ≤ n → Q (Z.min n (len cs)) m → wp (strnlen s n) m Q.
Proof.
  intros Hs Hn HQ. apply (wp_strnlen_loop _ cs); [done|].
  by rewrite Z2Nat.id, Z.sub_diag by done.
Qed.

Lemma wp_strchr_loop fuel : ∀ cs s c m (Q : Z → mem → Prop),
  (length cs < fuel)%nat → str_at m s cs → 0 < c < 256 →
  Q (find_ptr (Z.eqb c) s cs) m → wp (strchr_loop fuel s c) m Q.
Proof.
  induction fuel as [|fuel IH]; intros cs s c m Q Hf Hs Hc HQ; [lia|]. cbn [strchr_loop].
  destruct cs as [|d cs]; simpl in Hs, Hf.
  - wp_go. eapply wp_ldc; [done|].
    rewrite s8_eqb, (proj2 (Z.eqb_neq 0 c)) by (unfold is_byte; lia). simpl. wp_go.
    eapply wp_ldc; [done|]. simpl. by wp_go.
  - destruct Hs as (Hd & Hr & Hs). rewrite find_ptr_cons in HQ. wp_go. eapply wp_ldc; [done|].
    rewrite s8_eqb, Z.eqb_sym by (unfold is_byte; lia). destruct (c =? d); simpl.
    + by wp_go.
    + wp_go. eapply wp_ldc; [done|].
      rewrite s8_eqb0, (proj2 (Z.eqb_neq d 0)) by (unfold is_byte; lia).
      apply (IH cs); try done; lia.
Qed.

(** [strrchr] keeps the last occurrence seen so far. *)
Fixpoint last_ptr (c p : Z) (cs : list Z) (last : Z) : Z :=
  match cs with
  | [] => last
  | d :: cs => last_ptr c (p + 1) cs (if c =? d then p else last)
  end.

Lemma last_ptr_spec c cs : ∀ p last,
  (c ∉ cs ∧ last_ptr c p cs last = last) ∨
  ∃ cs1 cs2, cs = cs1 ++ c :: cs2 ∧ c ∉ cs2 ∧ last_ptr c p cs last = p + len cs1.
Proof.
  induction cs as [|d cs IH]; intros p last; cbn [last_ptr]; [left; split; [set_solver|done]|].
  destruct (IH (p + 1) (if c =? d then p else last)) as [[Hn ->]|(cs1 & cs2 & -> & Hn & ->)].
  - destruct (c =? d) eqn:E; bool_to_prop.
    + subst d. right. exists [], cs. split_and!; [done|done|]. unfold len; simpl; lia.
    + left. split; [set_solver|done].
  - right. exists (d :: cs1), cs2. split_and!; [done|done|]. rewrite len_cons. lia.
Qed.

Lemma wp_strrchr_loop fuel : ∀ cs s c last m (Q : Z → mem → Prop),
  (length cs < fuel)%nat → str_at m s cs → 0 ≤ c < 128 →
  Q (last_ptr c s cs last) m → wp (strrchr_loop fuel s c last) m Q.
Proof.
  induction fuel as [|fuel IH]; intros cs s c last m Q Hf Hs Hc HQ; [lia|]. cbn [strrchr_loop].
  destruct cs as [|d cs]; simpl in Hs, Hf.
  - wp_go. eapply wp_ldc; [done|]. simpl. by wp_go.
  - destruct Hs as (Hd & Hr & Hs). cbn [last_ptr] in HQ. wp_go. eapply wp_ldc; [done|].
    assert ((s8 d =? c) = (c =? d)) as ->.
    { rewrite <- (swrap_small 8 c) at 1 by (simpl; lia).
      rewrite s8_eqb by (unfold is_byte; lia). apply Z.eqb_sym. }
    rewrite s8_eqb0, (proj2 (Z.eqb_neq d 0)) by (unfold is_byte; lia). simpl.
    apply (IH cs); try done; lia.
Qed.

Lemma wp_one_of fuel : ∀ ds b a m (Q : bool → mem → Prop),
  (length ds < fuel)%nat → str_at m a ds → is_byte b →
  Q (among ds b) m → wp (one_of fuel (s8 b) a) m Q.
Proof.
  induction fuel as [|fuel IH]; intros ds b a m Q Hf Hs Hb HQ; [lia|]. cbn [one_of].
  destruct ds as [|d ds]; simpl in Hs, Hf.
  - wp_go. eapply wp_ldc; [done|]. simpl. wp_go. done.
  - destruct Hs as (Hd & Hr & Hs). wp_go. eapply wp_ldc; [done|].
    rewrite s8_eqb0, (proj2 (Z.eqb_neq d 0)) by (unfold is_byte; lia). simpl.
    wp_go. eapply wp_ldc; [done|]. rewrite s8_eqb by (done || unfold is_byte; lia).
    destruct (b =? d) eqn:E; bool_to_prop.
    + wp_go. unfold among in HQ. rewrite bool_decide_true in HQ by set_solver. done.
    + apply (IH ds); try done; [lia|]. unfold among in *.
      erewrite bool_decide_ext; [done|]. set_solver.
Qed.

Lemma wp_strspn_loop fuel : ∀ cs ds p a count m (Q : Z → mem → Prop),
  (length cs < fuel)%nat → str_at m p cs → str_at m a ds →
  0 ≤ count → count + len cs < 2 ^ 32 →
  Q (count + span (among ds) cs) m → wp (strspn_loop fuel p a count) m Q.
Proof.
  induction fuel as [|fuel IH]; intros cs ds p a count m Q Hf Hs Ha Hc Hl HQ; [lia|].
  cbn [strspn_loop]. destruct cs as [|c cs]; simpl in Hs, Hf.
  - wp_go. eapply wp_ldc; [done|]. simpl. wp_go. by rewrite Z.add_0_r in HQ.
  - destruct Hs as (Hd & Hr & Hs). rewrite len_cons in Hl. pose proof (len_nonneg cs).
    wp_go. eapply wp_ldc; [done|].
    rewrite s8_eqb0, (proj2 (Z.eqb_neq c 0)) by (unfold is_byte; lia). simpl. wp_go.
    apply wp_with_fuel. eapply wp_one_of; [by eapply str_at_fuel|done|unfold is_byte; lia|].
    cbn [span] in HQ. destruct (among ds c); simpl.
    + rewrite uwrap_small by lia. apply (IH cs ds); try done; [lia|lia|lia|].
      by replace (count + 1 + span (among ds) cs) with (count + (1 + span (among ds) cs)) by lia.
    + wp_go. by rewrite Z.add_0_r in HQ.
Qed.

Lemma wp_strspn m s a cs ds (Q : Z → mem → Prop) :
  str_at m s cs → str_at m a ds → len cs < 2 ^ 32 →
  Q (span (among ds) cs) m → wp (strspn s a) m Q.
Proof.
  intros Hs Ha Hl HQ.
  apply wp_with_fuel, (wp_strspn_loop _ cs ds); try done; by eapply str_at_fuel.
Qed.

Lemma wp_strpbrk_loop fuel : ∀ cs ds p a m (Q : Z → mem → Prop),
  (length cs < fuel)%nat → str_at m p cs → str_at m a ds →
  Q (find_ptr (among ds) p cs) m → wp (strpbrk_loop fuel p a) m Q.
Proof.
  induction fuel as [|fuel IH]; intros cs ds p a m Q Hf Hs Ha HQ; [lia|].
  cbn [strpbrk_loop]. destruct cs as [|c cs]; simpl in Hs, Hf.
  - wp_go. eapply wp_ldc; [done|]. simpl. by wp_go.
  - destruct Hs as (Hd & Hr & Hs). rewrite find_ptr_cons in HQ. wp_go. eapply wp_ldc; [done|].
    rewrite s8_eqb0, (proj2 (Z.eqb_neq c 0)) by (unfold is_byte; lia). simpl. wp_go.
    apply wp_with_fuel. eapply wp_one_of; [by eapply str_at_fuel|done|unfold is_byte; lia|].
    destruct (among ds c); [by wp_go|]. apply (IH cs ds); try done; lia.
Qed.

Lemma wp_strpbrk m s a cs ds (Q : Z → mem → Prop) :
  str_at m s cs → str_at m a ds →
  Q (find_ptr (among ds) s cs) m → wp (strpbrk s a) m Q.
Proof. intros. apply wp_with_fuel, (wp_strpbrk_loop _ cs ds); try done; by eapply str_at_fuel. Qed.

(** ** Copying *)

(** Blocks of [n1] bytes at [p] and [n2] bytes at [q] do not overlap. *)
Definition apart (p n1 q n2 : Z) : Prop := p + n1 ≤ q ∨ q + n2 ≤ p.

Lemma str_at_insert m p v q cs :
  ¬ (q ≤ p ≤ q + len cs) → str_at m q cs → str_at (<[p := v]> m) q cs.
Proof. intros Hn. apply str_at_frame. intros a Ha. rewrite lookup_insert_ne; [done|]. lia. Qed.

Lemma wp_strcpy_loop fuel : ∀ cs d s m (Q : unit → mem → Prop),
  (length cs < fuel)%nat → str_at m s cs → room m d (S (length cs)) →
  apart d (len cs + 1) s (len cs + 1) →
  Q tt (bytes_put d (cs ++ [0]) m) → wp (strcpy_loop fuel d s) m Q.
Proof.
  induction fuel as [|fuel IH]; intros cs d s m Q Hf Hs Hr Hap HQ; [lia|]. cbn [strcpy_loop].
  apply room_S in Hr as [Hd Hr]. destruct cs as [|c cs]; simpl in Hs, Hf, HQ.
  - wp_go. eapply wp_ldc; [done|]. wp_go. apply wp_stb; [done|]. simpl. by wp_go.
  - destruct Hs as (Hc & Hb & Hs). rewrite len_cons in Hap. pose proof (len_nonneg cs).
    wp_go. eapply wp_ldc; [done|]. wp_go. apply wp_stb; [done|].
    rewrite u8_s8, s8_eqb0, (proj2 (Z.eqb_neq c 0)) by (unfold is_byte; lia). simpl.
    unfold apart in *. apply (IH cs); [lia| |by apply room_insert|unfold apart; lia|done].
    apply str_at_insert; [lia|done].
Qed.

(** The forward copying loops behave like [strcpy] on the characters they take. *)
Lemma wp_strncpy_loop n : ∀ cs d s m (Q : unit → mem → Prop),
  str_at m s cs → room m d (Nat.min n (S (length cs))) →
  apart d (len cs + 1) s (len cs + 1) →
  Q tt (bytes_put d (take n (cs ++ [0])) m) → wp (strncpy_loop n d s) m Q.
Proof.
  induction n as [|n IH]; intros cs d s m Q Hs Hr Hap HQ; cbn [strncpy_loop]; [by wp_go|].
  apply room_S in Hr as [Hd Hr]. destruct cs as [|c cs]; simpl in Hs, HQ, Hr.
  - wp_go. eapply wp_ldc; [done|]. wp_go. apply wp_stb; [done|]. simpl. wp_go.
    by rewrite take_nil in HQ.
  - destruct Hs as (Hc & Hb & Hs). rewrite len_cons in Hap. pose proof (len_nonneg cs).
    wp_go. eapply wp_ldc; [done|]. wp_go. apply wp_stb; [done|].
    rewrite u8_s8, s8_eqb0, (proj2 (Z.eqb_neq c 0)) by (unfold is_byte; lia). simpl.
    unfold apart in *. apply (IH cs); [|by apply room_insert|unfold apart; lia|done].
    apply str_at_insert; [lia|done].
Qed.

Lemma wp_strncat_loop n : ∀ cs d s m (Q : unit → mem → Prop),
  (0 < n)%nat → str_at m s cs → room m d (S (Nat.min n (length cs))) →
  apart d (len cs + 1) s (len cs + 1) →
  Q tt (bytes_put d (take n cs ++ [0]) m) → wp (strncat_loop n d s) m Q.
Proof.
  induction n as [|n IH]; intros cs d s m Q Hn Hs Hr Hap HQ; [lia|]. cbn [strncat_loop].
  apply room_S in Hr as [Hd Hr]. destruct cs as [|c cs]; simpl in Hs, HQ, Hr.
  - wp_go. eapply wp_ldc; [done|]. wp_go. apply wp_stb; [done|]. simpl. by wp_go.
  - destruct Hs as (Hc & Hb & Hs). rewrite len_cons in Hap. pose proof (len_nonneg cs).
    wp_go. eapply wp_ldc; [done|]. wp_go. apply wp_stb; [done|].
    rewrite u8_s8, s8_eqb0, (proj2 (Z.eqb_neq c 0)) by (unfold is_byte; lia). simpl.
    apply (room_insert _ d c) in Hr. unfold apart in *. destruct n as [|n].
    + simpl in *. apply wp_stb; [|done]. exact (proj1 (room_S _ _ 0%nat Hr)).
    + apply (IH cs); [lia| |done|unfold apart; lia|done].
      apply str_at_insert; [lia|done].
Qed.

Lemma wp_seek_end fuel : ∀ cs d m (Q : Z → mem → Prop),
  (length cs < fuel)%nat → str_at m d cs → Q (d + len cs) m → wp (seek_end fuel d) m Q.
Proof.
  induction fuel as [|fuel IH]; intros cs d m Q Hf Hs HQ; [lia|]. cbn [seek_end].
  destruct cs as [|c cs]; simpl in Hs, Hf.
  - wp_go. eapply wp_ldc; [done|]. simpl. wp_go. by rewrite Z.add_0_r in HQ.
  - destruct Hs as (Hc & Hb & Hs). wp_go. eapply wp_ldc; [done|].
    rewrite s8_eqb0, (proj2 (Z.eqb_neq c 0)) by (unfold is_byte; lia). simpl.
    apply (IH cs); [lia|done|]. rewrite len_cons in HQ.
    by replace (d + 1 + len cs) with (d + (len cs + 1)) by lia.
Qed.

Lemma wp_lcopy_loop n : ∀ cs d s i m (Q : Z → mem → Prop),
  str_at m (s + i) cs → room m (d + i) (Nat.min n (length cs)) →
  apart d (i + Z.of_nat n) s (i + len cs + 1) → 0 ≤ i →
  Q (i + Z.of_nat (Nat.min n (length cs))) (bytes_put (d + i) (take n cs) m) →
  wp (lcopy_loop n d s i) m Q.
Proof.
  induction n as [|n IH]; intros cs d s i m Q Hs Hr Hap Hi HQ; cbn [lcopy_loop].
  - wp_go. by rewrite Z.add_0_r in HQ.
  - destruct cs as [|c cs]; simpl in Hs, HQ, Hr.
    + wp_go. eapply wp_ldc; [done|]. simpl. wp_go. by rewrite Z.add_0_r in HQ.
    + apply room_S in Hr as [Hd Hr]. destruct Hs as (Hc & Hb & Hs).
      rewrite len_cons in Hap. pose proof (len_nonneg cs). unfold apart in *.
      wp_go. eapply wp_ldc; [done|].
      rewrite s8_eqb0, (proj2 (Z.eqb_neq c 0)) by (unfold is_byte; lia). simpl.
      wp_go. eapply wp_ldc; [done|]. wp_go. apply wp_stb; [done|].
      rewrite u8_s8 by (unfold is_byte; lia).
      rewrite <- Z.add_assoc in Hr, HQ. apply (IH cs); [|by apply room_insert|unfold apart; lia|lia|].
      * rewrite Z.add_assoc. apply str_at_insert; [lia|done].
      * by replace (i + 1 + Z.of_nat (Nat.min n (length cs))) with
          (i + Z.of_nat (S (Nat.min n (length cs)))) by lia.
Qed.

Lemma wp_strlcpy m d s cs n (Q : Z → mem → Prop) :
  str_at m s cs → (0 < n)%nat → room m d (S (length cs)) →
  apart d (len cs + 1) s (len cs + 1) → apart d (Z.of_nat n) s (len cs + 1) → len cs < 2 ^ 32 →
  Q (len cs) (bytes_put d (take (n - 1) cs ++ [0]) m) → wp (strlcpy d s (Z.of_nat n)) m Q.
Proof.
  intros Hs Hn Hr Hap Hapn Hl HQ. pose proof (len_nonneg cs). unfold strlcpy.
  rewrite (proj2 (Z.eqb_neq (Z.of_nat n) 0)) by lia.
  replace (Z.to_nat (Z.of_nat n - 1)) with (n - 1)%nat by lia. wp_go.
  set (k := Nat.min (n - 1) (length cs)).
  assert (length (take (n - 1) cs) = k) as Hk by (by rewrite length_take).
  assert (len (take k cs) = Z.of_nat k) as El by (unfold len; rewrite length_take; lia).
  eapply (wp_lcopy_loop _ cs); rewrite ?Z.add_0_r;
    [done|intros a Ha; apply Hr; lia|unfold apart in *; lia|lia|]. fold k. rewrite Z.add_0_l.
  wp_go. apply wp_stb; [apply (room_put _ _ _ d (S k)); [intros a Ha; apply Hr|]; lia|].
  change (u8 0) with 0. rewrite bytes_put_app in HQ. unfold len in HQ at 2. rewrite Hk in HQ.
  wp_go. eapply (wp_strlen _ _ (drop k cs)); unfold len; rewrite ?length_drop.
  - rewrite <- (take_drop k cs) in Hs. apply str_at_app in Hs as (_ & _ & Hs). rewrite El in Hs.
    eapply str_at_frame; [|exact Hs]. intros a Ha. unfold len in Ha. rewrite length_drop in Ha.
    rewrite lookup_insert_ne, bytes_put_out; [done| |]; unfold apart, len in *; rewrite ?Hk; lia.
  - unfold len in Hl. lia.
  - unfold len in *. wp_go. rewrite uwrap_small by lia.
    by replace (Z.of_nat k + Z.of_nat (length cs - k)) with (Z.of_nat (length cs)) by lia.
Qed.

(** ** Comparing *)

(** The signed-character difference at the first position where the lists differ. *)
Fixpoint first_diff (xs ys : list Z) : Z :=
  match xs, ys with
  | x :: xs, y :: ys => if x =? y then first_diff xs ys else s8 (x - y)
  | _, _ => 0
  end.

Lemma first_diff_zero xs : ∀ ys,
  Forall is_byte xs → Forall is_byte ys → length xs = length ys →
  first_diff xs ys = 0 ↔ xs = ys.
Proof.
  induction xs as [|x xs IH]; intros [|y ys]; try done.
  rewrite !Forall_cons. intros [Hx Hxs] [Hy Hys] [= Hl]. cbn [first_diff].
  destruct (Z.eqb_spec x y) as [->|Hne].
  - rewrite IH by done. naive_solver.
  - rewrite s8_sub_zero by done. naive_solver.
Qed.

Lemma first_diff_str cs : ∀ ds,
  chars cs → chars ds → first_diff (cs ++ [0]) (ds ++ [0]) = 0 ↔ cs = ds.
Proof.
  unfold chars. induction cs as [|c cs IH]; intros [|d ds]; rewrite ?Forall_cons.
  - done.
  - intros _ [Hd _]. cbn [first_diff app]. rewrite (proj2 (Z.eqb_neq 0 d)) by lia.
    rewrite s8_sub_zero by (unfold is_byte; lia). split; [lia|done].
  - intros [Hc _] _. cbn [first_diff app]. rewrite (proj2 (Z.eqb_neq c 0)) by lia.
    rewrite s8_sub_zero by (unfold is_byte; lia). split; [lia|done].
  - intros [Hc Hcs] [Hd Hds]. cbn [first_diff app]. destruct (Z.eqb_spec c d) as [->|Hne].
    + rewrite IH by done. naive_solver.
    + rewrite s8_sub_zero by (unfold is_byte; lia). naive_solver.
Qed.

Lemma s8_sub_eqb a b : is_byte a → is_byte b → (s8 (a - b) =? 0) = (a =? b).
Proof.
  intros Ha Hb. apply eq_true_iff_eq. rewrite !Z.eqb_eq. by apply s8_sub_zero.
Qed.

Lemma wp_strcmp_loop fuel : ∀ cs ds p q m (Q : Z → mem → Prop),
  (length cs < fuel)%nat → str_at m p cs → str_at m q ds →
  Q (first_diff (cs ++ [0]) (ds ++ [0])) m → wp (strcmp_loop fuel p q) m Q.
Proof.
  induction fuel as [|fuel IH]; intros cs ds p q m Q Hf Hp Hq HQ; [lia|]. cbn [strcmp_loop].
  destruct (str_at_len m q ds Hq) as (b & Hb & Hbb). wp_go.
  destruct cs as [|c cs]; simpl in Hp, Hf.
  - eapply wp_ldc; [done|]. wp_go. eapply wp_ldc; [done|]. rewrite s8_sub, s8_sub_eqb by done.
    destruct ds as [|d ds]; simpl in Hq.
    + simplify_eq. simpl. wp_go. eapply wp_ldc; [done|]. simpl. wp_go. done.
    + destruct Hq as (Hd & Hr & _). simplify_eq. cbn [first_diff app] in HQ.
      destruct (Z.eqb_spec 0 d); [lia|]. simpl. wp_go. done.
  - destruct Hp as (Hc & Hr & Hp).
    eapply wp_ldc; [done|]. wp_go. eapply wp_ldc; [done|].
    rewrite s8_sub, s8_sub_eqb by (done || unfold is_byte; lia).
    destruct ds as [|d ds]; simpl in Hq; [|destruct Hq as (Hd & Hrd & Hq)]; simplify_eq;
      cbn [first_diff app] in HQ.
    + rewrite (proj2 (Z.eqb_neq c 0)) in HQ |- * by lia. simpl. by wp_go.
    + destruct (c =? d); simpl; [|by wp_go]. wp_go. eapply wp_ldc; [done|].
      rewrite s8_eqb0, (proj2 (Z.eqb_neq c 0)) by (unfold is_byte; lia).
      apply (IH cs ds); try done; lia.
Qed.

Lemma wp_strcmp m p q cs ds (Q : Z → mem → Prop) :
  str_at m p cs → str_at m q ds →
  Q (first_diff (cs ++ [0]) (ds ++ [0])) m → wp (strcmp p q) m Q.
Proof. intros. apply wp_with_fuel, (wp_strcmp_loop _ cs ds); try done; by eapply str_at_fuel. Qed.

Lemma wp_memcmp_loop xs : ∀ ys p q m (Q : Z → mem → Prop),
  length xs = length ys → Forall is_byte xs → Forall is_byte ys →
  bytes_at m p xs → bytes_at m q ys →
  Q (first_diff xs ys) m → wp (memcmp_loop (length xs) p q 0) m Q.
Proof.
  induction xs as [|x xs IH]; intros [|y ys] p q m Q; try done.
  rewrite !Forall_cons. intros [= Hl] [Hx Hxs] [Hy Hys] [Hp Hps] [Hq Hqs] HQ.
  cbn [length memcmp_loop first_diff] in *. wp_go. eapply wp_ldb; [done|].
  wp_go. eapply wp_ldb; [done|]. rewrite s8_sub_eqb by done.
    destruct (Z.eqb_spec x y) as [->|Hne]; simpl; [|by wp_go].
    rewrite Z.sub_diag. change (s8 0) with 0. by apply (IH ys).
Qed.

Lemma wp_memcmp m p q xs ys (Q : Z → mem → Prop) :
  length xs = length ys → Forall is_byte xs → Forall is_byte ys →
  bytes_at m p xs → bytes_at m q ys →
  Q (first_diff xs ys) m → wp (memcmp p q (len xs)) m Q.
Proof. intros. unfold memcmp, len. rewrite Nat2Z.id. by eapply wp_memcmp_loop. Qed.

Lemma wp_strncmp_loop n : ∀ cs ds p q m (Q : Z → mem → Prop),
  str_at m p cs → str_at m q ds →
  Q (first_diff (take n (cs ++ [0])) (take n (ds ++ [0]))) m → wp (strncmp_loop n p q 0) m Q.
Proof.
  induction n as [|n IH]; intros cs ds p q m Q Hp Hq HQ; cbn [strncmp_loop]; [by wp_go|].
  destruct (str_at_len m q ds Hq) as (b & Hb & Hbb). wp_go.
  destruct cs as [|c cs]; simpl in Hp.
  - eapply wp_ldc; [done|]. wp_go. eapply wp_ldc; [done|]. rewrite s8_sub, s8_sub_eqb by done.
    destruct ds as [|d ds]; simpl in Hq.
    + simplify_eq. simpl. wp_go. eapply wp_ldc; [done|]. simpl. wp_go.
      simpl in HQ. by rewrite take_nil in HQ.
    + destruct Hq as (Hd & Hr & _). simplify_eq. cbn [first_diff app take] in HQ.
      destruct (Z.eqb_spec 0 d); [lia|]. simpl. wp_go. done.
  - destruct Hp as (Hc & Hr & Hp).
    eapply wp_ldc; [done|]. wp_go. eapply wp_ldc; [done|].
    rewrite s8_sub, s8_sub_eqb by (done || unfold is_byte; lia).
    destruct ds as [|d ds]; simpl in Hq; [|destruct Hq as (Hd & Hrd & Hq)]; simplify_eq;
      cbn [first_diff app take] in HQ.
    + rewrite (proj2 (Z.eqb_neq c 0)) in HQ |- * by lia. simpl. by wp_go.
    + destruct (Z.eqb_spec c d) as [->|]; simpl; [|by wp_go]. wp_go. eapply wp_ldc; [done|].
      rewrite s8_eqb0, (proj2 (Z.eqb_neq d 0)) by (unfold is_byte; lia).
      rewrite Z.sub_diag. change (s8 0) with 0. by apply (IH cs ds).
Qed.

(** Equality up to case of the first [n] characters. *)
Definition same_ignoring_case (n : nat) (cs ds : list Z) : Prop :=
  lower <$> take n cs = lower <$> take n ds.

Lemma lower_nonzero c : 0 < c < 256 → lower c ≠ 0.
Proof. unfold lower. case_match; lia. Qed.

Lemma wp_strnicmp_loop n : ∀ cs ds p q c (m : mem) (Q : Z * Z → mem → Prop),
  str_at m p cs → str_at m q ds →
  (∀ c1 c2, c1 = c2 ↔ same_ignoring_case n cs ds → Q (c1, c2) m) →
  wp (strnicmp_loop n p q c c) m Q.
Proof.
  unfold same_ignoring_case.
  induction n as [|n IH]; intros cs ds p q c0 m Q Hp Hq HQ; cbn [strnicmp_loop];
    [by wp_go; apply HQ|].
  destruct (str_at_len m q ds Hq) as (b & Hb & Hbb). wp_go.
  destruct cs as [|c cs]; simpl in Hp.
  - eapply wp_ldb; [done|]. wp_go. eapply wp_ldb; [done|]. simpl. wp_go. apply HQ.
    destruct ds as [|d ds]; simpl in Hq; [|destruct Hq as (Hd & Hr & _)]; simplify_eq; [done|].
    simpl. split; [lia|done].
  - destruct Hp as (Hc & Hr & Hp). eapply wp_ldb; [done|]. wp_go. eapply wp_ldb; [done|].
    rewrite (proj2 (Z.eqb_neq c 0)) by lia.
    destruct ds as [|d ds]; simpl in Hq; [|destruct Hq as (Hd & Hrd & Hq)]; simplify_eq; simpl.
    + wp_go. apply HQ. split; [lia|done].
    + rewrite (proj2 (Z.eqb_neq d 0)) by lia. simpl in HQ.
      rewrite !tolower_spec by (unfold is_byte in *; lia).
      destruct (Z.eqb_spec c d) as [->|Hne].
      * apply (IH cs ds); [done|done|]. intros c1 c2 H. apply HQ. rewrite H. split; [intros E; f_equal; exact E|].
        by intros [=].
      * destruct (Z.eqb_spec (lower c) (lower d)) as [E|Hne2]; simpl.
        -- rewrite E. apply (IH cs ds); [done|done|]. intros c1 c2 H. apply HQ. rewrite H, E.
           split; [intros E'; f_equal; exact E'|]. by intros [=].
        -- wp_go. apply HQ. split; [done|]. by intros [=].
Qed.

(** ** Blocks *)

Lemma land_3 x : Z.land x 3 = x mod 4.
Proof. exact (Z.land_ones x 2 ltac:(lia)). Qed.

Lemma bytes_put_app_r p bs1 bs2 m :
  bytes_put p (bs1 ++ bs2) m = bytes_put p bs1 (bytes_put (p + len bs1) bs2 m).
Proof.
  rewrite bytes_put_app. apply map_eq. intros a. rewrite !bytes_put_lookup.
  pose proof (len_nonneg bs1). pose proof (len_nonneg bs2). by repeat case_decide; try lia.
Qed.

(** Copying [n] bytes upwards (downwards) never reads a byte it has overwritten. *)
Definition up_ok (d s n : Z) : Prop := d ≤ s ∨ s + n ≤ d.

Definition down_ok (d s n : Z) : Prop := s ≤ d ∨ d + n ≤ s.

Lemma bytes_at_put_keep m p bs q cs :
  p + len bs ≤ q ∨ q + len cs ≤ p → bytes_at m q cs → bytes_at (bytes_put p bs m) q cs.
Proof.
  intros Ha. apply bytes_at_frame. intros a Hr. rewrite bytes_put_out; [done|].
  pose proof (len_nonneg bs). lia.
Qed.

Lemma wp_bytes_up bs : ∀ d s m (Q : Z * Z → mem → Prop),
  Forall is_byte bs → bytes_at m s bs → room m d (length bs) → up_ok d s (len bs) →
  Q (d + len bs, s + len bs) (bytes_put d bs m) → wp (bytes_up (length bs) d s) m Q.
Proof.
  induction bs as [|b bs IH]; intros d s m Q Hb Hs Hr Hok HQ; cbn [length bytes_up].
  - wp_go. by rewrite !Z.add_0_r in HQ.
  - apply Forall_cons in Hb as [Hb Hbs]. destruct Hs as [Hs1 Hs].
    apply room_S in Hr as [Hd Hr]. rewrite len_cons in *. unfold up_ok in *.
    pose proof (len_nonneg bs).
    wp_go. eapply wp_ldc; [done|]. wp_go. apply wp_stb; [done|]. rewrite u8_s8 by done.
    apply IH; [done| |by apply room_insert|unfold up_ok; lia|].
    + apply (bytes_at_put_keep m d [b]); [unfold len at 1; simpl; lia|done].
    + by replace (d + 1 + len bs, s + 1 + len bs) with (d + (len bs + 1), s + (len bs + 1))
        by (f_equal; lia).
Qed.

Lemma wp_bytes_down bs : ∀ d s m (Q : Z * Z → mem → Prop),
  Forall is_byte bs → bytes_at m s bs → room m d (length bs) → down_ok d s (len bs) →
  Q (d, s) (bytes_put d bs m) →
  wp (bytes_down (length bs) (d + len bs) (s + len bs)) m Q.
Proof.
  induction bs as [|b bs IH] using rev_ind; intros d s m Q Hb Hs Hr Hok HQ.
  - rewrite !Z.add_0_r. cbn [length bytes_down]. by wp_go.
  - apply Forall_app in Hb as [Hbs [Hb _]%Forall_cons]. rewrite length_app, Nat.add_1_r in *.
    apply bytes_at_app in Hs as [Hs [Hs1 _]]. rewrite len_app in *.
    change (len [b]) with 1 in *. cbn [bytes_down]. pose proof (len_nonneg bs).
    replace (s + (len bs + 1) - 1) with (s + len bs) by lia.
    replace (d + (len bs + 1) - 1) with (d + len bs) by lia.
    wp_go. eapply wp_ldc; [done|]. wp_go. apply wp_stb; [apply Hr; unfold len in *; lia|].
    rewrite u8_s8 by done. unfold down_ok in *. apply IH; [done| | |unfold down_ok; lia|].
    + apply (bytes_at_put_keep m _ [b]); [unfold len at 2; simpl; lia|done].
    + apply room_insert. intros a Ha. apply Hr. lia.
    + by rewrite bytes_put_app_r in HQ.
Qed.

Lemma wp_copy_word d s b0 b1 b2 b3 m (Q : unit → mem → Prop) :
  Forall is_byte [b0; b1; b2; b3] → bytes_at m s [b0; b1; b2; b3] → room m d 4 →
  Q tt (bytes_put d [b0; b1; b2; b3] m) → wp (copy_word d s) m Q.
Proof.
  intros Hb Hs Hr HQ. destruct Hs as (H0 & H1 & H2 & H3 & _).
  repeat rewrite Forall_cons in Hb. destruct Hb as (? & ? & ? & ? & _).
  rewrite <- !Z.add_assoc in *. unfold copy_word.
  do 4 (wp_go; eapply wp_ldb; [done|]).
  wp_go. apply wp_stb; [apply Hr; lia|]. rewrite u8_byte by done. apply (room_insert _ d b0) in Hr.
  wp_go. apply wp_stb; [apply Hr; lia|]. rewrite u8_byte by done. apply (room_insert _ (d + 1) b1) in Hr.
  wp_go. apply wp_stb; [apply Hr; lia|]. rewrite u8_byte by done. apply (room_insert _ (d + 2) b2) in Hr.
  wp_go. apply wp_stb; [apply Hr; lia|]. rewrite u8_byte by done.
  simpl in HQ. by rewrite <- !Z.add_assoc in HQ.
Qed.

(** Words, as groups of four bytes. *)
Lemma four_bytes n (bs : list Z) :
  length bs = (4 * S n)%nat → ∃ b0 b1 b2 b3 bs', bs = b0 :: b1 :: b2 :: b3 :: bs' ∧
    length bs' = (4 * n)%nat.
Proof.
  intros H. destruct bs as [|b0 [|b1 [|b2 [|b3 bs']]]]; simpl in H; try lia.
  exists b0, b1, b2, b3, bs'. split; [done|lia].
Qed.

Lemma wp_words_up n : ∀ bs d s m (Q : Z * Z → mem → Prop),
  length bs = (4 * n)%nat → Forall is_byte bs → bytes_at m s bs → room m d (length bs) →
  up_ok d s (len bs) →
  Q (d + len bs, s + len bs) (bytes_put d bs m) → wp (words_up n d s) m Q.
Proof.
  induction n as [|n IH]; intros bs d s m Q Hl Hb Hs Hr Hok HQ; cbn [words_up].
  - destruct bs; [|simpl in Hl; lia]. wp_go. by rewrite !Z.add_0_r in HQ.
  - destruct (four_bytes n bs Hl) as (b0 & b1 & b2 & b3 & bs' & -> & Hl').
    change (b0 :: b1 :: b2 :: b3 :: bs') with ([b0; b1; b2; b3] ++ bs') in *.
    set (w := [b0; b1; b2; b3]) in *. assert (len w = 4) as Hw by done.
    apply Forall_app in Hb as [Hb Hbs]. apply bytes_at_app in Hs as [Hs1 Hs].
    rewrite bytes_put_app, len_app, Hw in *. pose proof (len_nonneg bs'). unfold up_ok in *.
    rewrite length_app in Hr. change (length w) with 4%nat in Hr.
    wp_go. eapply wp_copy_word; [done|done|intros a Ha; apply Hr; lia|]. fold w.
    unfold lsize. apply (IH bs'); [done|done| |apply room_put; intros a Ha; apply Hr; lia|
      unfold up_ok; lia|].
    + apply bytes_at_put_keep; [lia|done].
    + by rewrite <- !Z.add_assoc.
Qed.

Lemma four_bytes_end n (bs : list Z) :
  length bs = (4 * S n)%nat → ∃ bs' b0 b1 b2 b3, bs = bs' ++ [b0; b1; b2; b3] ∧
    length bs' = (4 * n)%nat.
Proof.
  intros H. assert (length (drop (4 * n) bs) = 4%nat) as Hd by (rewrite length_drop; lia).
  destruct (drop (4 * n) bs) as [|b0 [|b1 [|b2 [|b3 [|]]]]] eqn:E; try done.
  exists (take (4 * n) bs), b0, b1, b2, b3. split; [by rewrite <- E, take_drop|].
  rewrite length_take. lia.
Qed.

Lemma wp_words_down n : ∀ bs d s m (Q : Z * Z → mem → Prop),
  length bs = (4 * n)%nat → Forall is_byte bs → bytes_at m s bs → room m d (length bs) →
  down_ok d s (len bs) →
  Q (d, s) (bytes_put d bs m) → wp (words_down n (d + len bs) (s + len bs)) m Q.
Proof.
  induction n as [|n IH]; intros bs d s m Q Hl Hb Hs Hr Hok HQ; cbn [words_down].
  - destruct bs; [|simpl in Hl; lia]. wp_go. by rewrite !Z.add_0_r.
  - destruct (four_bytes_end n bs Hl) as (bs' & b0 & b1 & b2 & b3 & -> & Hl').
    set (w := [b0; b1; b2; b3]) in *. assert (len w = 4) as Hw by done.
    apply Forall_app in Hb as [Hbs Hb]. apply bytes_at_app in Hs as [Hs Hs1].
    rewrite bytes_put_app_r, len_app, Hw in *. pose proof (len_nonneg bs'). unfold down_ok in *.
    rewrite length_app in Hr. change (length w) with 4%nat in Hr. unfold lsize.
    replace (d + (len bs' + 4) - 4) with (d + len bs') by lia.
    replace (s + (len bs' + 4) - 4) with (s + len bs') by lia.
    wp_go. eapply wp_copy_word; [done|done|intros a Ha; apply Hr; unfold len in *; lia|].
    apply IH; [done|done| |apply room_put; intros a Ha; apply Hr; lia|unfold down_ok; lia|done].
    apply bytes_at_put_keep; [fold w; lia|done].
Qed.

(** The pieces of a block: a head of [a] bytes, whole words, a tail of less than a
    word. *)
Lemma pieces (bs : list Z) n :
  (n ≤ length bs)%nat → ∃ h w t, bs = h ++ w ++ t ∧ length h = n ∧
    length w = (4 * ((length bs - n) / 4))%nat ∧ length t = ((length bs - n) mod 4)%nat.
Proof.
  intros Hn. set (k := ((length bs - n) / 4)%nat).
  pose proof (Nat.div_mod (length bs - n) 4 ltac:(lia)) as E. fold k in E.
  exists (take n bs), (take (4 * k) (drop n bs)), (drop (4 * k) (drop n bs)).
  rewrite !take_drop, !length_take, !length_drop. split_and!; [done|lia..].
Qed.

Lemma wp_copy_tail bs n d s m (K : unit → mem → Prop) :
  len bs < 2 ^ 31 → (n ≤ length bs)%nat →
  Forall is_byte bs → bytes_at m s bs → room m d (length bs) → up_ok d s (len bs) →
  K tt (bytes_put d bs m) →
  wp (bytes_up n d s) m (λ ds m1,
    wp (ds ← words_up (Z.to_nat (s32 ((len bs - Z.of_nat n) / lsize))) ds.1 ds.2;
        bytes_up (Z.to_nat (Z.land (len bs - Z.of_nat n) lmask)) ds.1 ds.2;; mret tt) m1 K).
Proof.
  intros Hl Hn Hb Hs Hr Hok HK. destruct (pieces bs n Hn) as (h & w & t & E & Hh & Hw & Ht).
  unfold lmask, lsize. rewrite land_3.
  assert (len bs - Z.of_nat n = Z.of_nat (length bs - n)) as -> by (unfold len; lia).
  rewrite <- (Nat2Z.inj_div _ 4), <- (Nat2Z.inj_mod _ 4), Nat2Z.id.
  assert (((length bs - n) / 4 ≤ length bs)%nat).
  { etransitivity; [apply Nat.Div0.div_le_mono with (b := length bs); lia|].
    apply Nat.Div0.div_le_upper_bound. lia. }
  unfold len in Hl. rewrite swrap_small; [|lia|]. 2: { generalize dependent ((length bs - n) / 4)%nat. intros k. simpl. lia. }
  rewrite Nat2Z.id, <- Ht. subst n bs. apply Forall_app in Hb as [Hbh [Hbw Hbt]%Forall_app].
  apply bytes_at_app in Hs as [Hsh [Hsw Hst]%bytes_at_app].
  rewrite !length_app in Hr. unfold up_ok in Hok. rewrite !len_app in Hok.
  rewrite !bytes_put_app in HK.
  pose proof (len_nonneg h). pose proof (len_nonneg w). pose proof (len_nonneg t).
  apply wp_bytes_up; [done|done|intros a Ha; apply Hr; lia|unfold up_ok; lia|]. simpl.
  wp_go. apply (wp_words_up _ w); [done|done| | |unfold up_ok; lia|].
  { apply bytes_at_put_keep; [lia|done]. }
  { apply room_put. intros a Ha. apply Hr. unfold len in *. lia. }
  simpl. wp_go. apply wp_bytes_up; [done| | |unfold up_ok; lia|by wp_go].
  - do 2 (apply bytes_at_put_keep; [lia|]). done.
  - do 2 apply room_put. intros a Ha. apply Hr. unfold len in *. lia.
Qed.

Lemma len_small bs : len bs < 2 ^ 31 → s32 (len bs) = len bs.
Proof. intros. pose proof (len_nonneg bs). apply swrap_small; simpl; lia. Qed.

Lemma len_to_nat bs : Z.to_nat (len bs) = length bs.
Proof. apply Nat2Z.id. Qed.

Lemma wp_copy_up bs d s m (Q : unit → mem → Prop) :
  len bs < 2 ^ 31 →
  Forall is_byte bs → bytes_at m s bs → room m d (length bs) → up_ok d s (len bs) →
  Q tt (bytes_put d bs m) → wp (copy_up d s (len bs)) m Q.
Proof.
  intros Hl Hb Hs Hr Hok HQ. pose proof (len_nonneg bs).
  assert (∀ n, (n ≤ length bs)%nat → wp (bytes_up n d s) m (λ ds m1,
    wp (ds ← words_up (Z.to_nat (s32 ((len bs - Z.of_nat n) / lsize))) ds.1 ds.2;
        bytes_up (Z.to_nat (Z.land (len bs - Z.of_nat n) lmask)) ds.1 ds.2;; mret tt) m1 Q))
    as Htail by (intros n Hn; by apply wp_copy_tail).
  unfold copy_up. wp_go. apply wp_if; intros _.
  - set (n := if _ : bool then _ else _).
    assert (0 ≤ n ≤ len bs) as Hn.
    { unfold n, lmask, lsize. change (4 - 1) with 3. rewrite (land_3 d), len_small by done.
      pose proof (Z.mod_pos_bound d 4 ltac:(lia)).
      destruct (negb _ || _) eqn:E; bool_to_prop; unfold lsize in *; lia. }
    wp_go. eapply wp_mono; [apply (Htail (Z.to_nat n)); unfold len in Hn; lia|].
    intros ds m1 H1. wp_go. rewrite Z2Nat.id in H1 by lia. rewrite uwrap_small by lia.
    by destruct ds.
  - apply wp_ret. specialize (Htail 0%nat ltac:(lia)). cbn [bytes_up] in Htail.
    rewrite Z.sub_0_r in Htail. exact Htail.
Qed.

Lemma wp_copy_head bs n d s m (K : unit → mem → Prop) :
  len bs < 2 ^ 31 → (n ≤ length bs)%nat →
  Forall is_byte bs → bytes_at m s bs → room m d (length bs) → down_ok d s (len bs) →
  K tt (bytes_put d bs m) →
  wp (bytes_down n (d + len bs) (s + len bs)) m (λ ds m1,
    wp (ds ← words_down (Z.to_nat (s32 ((len bs - Z.of_nat n) / lsize))) ds.1 ds.2;
        bytes_down (Z.to_nat (Z.land (len bs - Z.of_nat n) lmask)) ds.1 ds.2;; mret tt) m1 K).
Proof.
  intros Hl Hn Hb Hs Hr Hok HK.
  assert (∃ h w t, bs = h ++ w ++ t ∧ length t = n ∧
    length w = (4 * ((length bs - n) / 4))%nat ∧ length h = ((length bs - n) mod 4)%nat)
    as (h & w & t & E & Ht & Hw & Hh).
  { set (r := ((length bs - n) mod 4)%nat). set (k := ((length bs - n) / 4)%nat).
    pose proof (Nat.div_mod (length bs - n) 4 ltac:(lia)) as E. fold k r in E.
    exists (take r bs), (take (4 * k) (drop r bs)), (drop (4 * k) (drop r bs)).
    rewrite !take_drop, !length_take, !length_drop. split_and!; [done|lia..]. }
  unfold lmask, lsize. change (4 - 1) with 3. rewrite land_3.
  assert (len bs - Z.of_nat n = Z.of_nat (length bs - n)) as -> by (unfold len; lia).
  rewrite <- (Nat2Z.inj_div _ 4), <- (Nat2Z.inj_mod _ 4), Nat2Z.id.
  assert (((length bs - n) / 4 ≤ length bs)%nat).
  { etransitivity; [apply Nat.Div0.div_le_mono with (b := length bs); lia|].
    apply Nat.Div0.div_le_upper_bound. lia. }
  unfold len in Hl. rewrite swrap_small; [|lia|].
  2: { generalize dependent ((length bs - n) / 4)%nat. intros k. simpl. lia. }
  rewrite Nat2Z.id, <- Hh. subst n bs.
  apply Forall_app in Hb as [Hbh [Hbw Hbt]%Forall_app].
  apply bytes_at_app in Hs as [Hsh [Hsw Hst]%bytes_at_app].
  rewrite !length_app in Hr. unfold down_ok in Hok. rewrite !len_app in *.
  rewrite bytes_put_app_r, (bytes_put_app_r _ w) in HK.
  pose proof (len_nonneg h). pose proof (len_nonneg w). pose proof (len_nonneg t).
  rewrite !(Z.add_assoc _ (len h)), !(Z.add_assoc _ (len w)).
  apply wp_bytes_down; [done|done|intros a Ha; apply Hr; unfold len in *; lia|
    unfold down_ok; lia|]. simpl.
  wp_go. apply (wp_words_down _ w); [done|done| | |unfold down_ok; lia|].
  { apply bytes_at_put_keep; [lia|done]. }
  { apply room_put. intros a Ha. apply Hr. unfold len in *. lia. }
  simpl. wp_go. apply wp_bytes_down; [done| | |unfold down_ok; lia|by wp_go].
  - do 2 (apply bytes_at_put_keep; [lia|]). done.
  - do 2 apply room_put. intros a Ha. apply Hr. unfold len in *. lia.
Qed.

Lemma wp_copy_down bs d s m (Q : unit → mem → Prop) :
  len bs < 2 ^ 31 →
  Forall is_byte bs → bytes_at m s bs → room m d (length bs) → down_ok d s (len bs) →
  Q tt (bytes_put d bs m) → wp (copy_down d s (len bs)) m Q.
Proof.
  intros Hl Hb Hs Hr Hok HQ. pose proof (len_nonneg bs).
  assert (∀ n, (n ≤ length bs)%nat → wp (bytes_down n (d + len bs) (s + len bs)) m (λ ds m1,
    wp (ds ← words_down (Z.to_nat (s32 ((len bs - Z.of_nat n) / lsize))) ds.1 ds.2;
        bytes_down (Z.to_nat (Z.land (len bs - Z.of_nat n) lmask)) ds.1 ds.2;; mret tt) m1 Q))
    as Htail by (intros n Hn; by apply wp_copy_head).
  unfold copy_down. wp_go. apply wp_if; intros _.
  - set (n := if _ : bool then _ else _).
    assert (0 ≤ n ≤ len bs) as Hn.
    { unfold n, lmask, lsize. change (4 - 1) with 3. rewrite (land_3 (d + _)), len_small by done.
      pose proof (Z.mod_pos_bound (d + len bs) 4 ltac:(lia)).
      destruct (negb _ || _) eqn:E; bool_to_prop; unfold lsize in *; lia. }
    wp_go. eapply wp_mono; [apply (Htail (Z.to_nat n)); unfold len in Hn; lia|].
    intros ds m1 H1. wp_go. rewrite Z2Nat.id in H1 by lia. rewrite uwrap_small by lia.
    by destruct ds.
  - apply wp_ret. specialize (Htail 0%nat ltac:(lia)). cbn [bytes_down] in Htail.
    rewrite Z.sub_0_r in Htail. exact Htail.
Qed.

(** ** Filling *)

Lemma bytes_put_cons p b bs m : bytes_put p (b :: bs) m = bytes_put (p + 1) bs (<[p := b]> m).
Proof. done. Qed.

Lemma wp_fill_bytes n : ∀ xs c m (Q : Z → mem → Prop),
  room m xs n → Q (xs + Z.of_nat n) (bytes_put xs (replicate n (u8 c)) m) →
  wp (fill_bytes n xs c) m Q.
Proof.
  induction n as [|n IH]; intros xs c m Q Hr HQ; cbn [fill_bytes].
  - wp_go. by rewrite Z.add_0_r in HQ.
  - apply room_S in Hr as [Hd Hr]. wp_go. apply wp_stb; [done|].
    apply IH; [by apply room_insert|].
    by replace (xs + 1 + Z.of_nat n) with (xs + Z.of_nat (S n)) by lia.
Qed.

(** The word of four equal bytes that [memset] builds. *)
Definition word_of (b : Z) : Z :=
  let cc := Z.lor b (Z.shiftl b 8) in Z.lor cc (Z.shiftl cc 16).

Lemma word_of_bytes b : is_byte b →
  u8 (word_of b) = b ∧ u8 (Z.shiftr (word_of b) 8) = b ∧
  u8 (Z.shiftr (word_of b) 16) = b ∧ u8 (Z.shiftr (word_of b) 24) = b.
Proof.
  intros Hb. pose proof (forall_bytes (λ b, (u8 (word_of b) =? b) &&
    (u8 (Z.shiftr (word_of b) 8) =? b) && (u8 (Z.shiftr (word_of b) 16) =? b) &&
    (u8 (Z.shiftr (word_of b) 24) =? b)) eq_refl b Hb) as H.
  cbv beta in H. bool_to_prop. done.
Qed.

Lemma wp_fill_words n : ∀ xs b m (Q : Z → mem → Prop),
  is_byte b → room m xs (4 * n) →
  Q (xs + Z.of_nat (4 * n)) (bytes_put xs (replicate (4 * n) b) m) →
  wp (fill_words n xs (word_of b)) m Q.
Proof.
  induction n as [|n IH]; intros xs b m Q Hb Hr HQ; cbn [fill_words].
  - wp_go. by rewrite Z.add_0_r in HQ.
  - destruct (word_of_bytes b Hb) as (E0 & E1 & E2 & E3). unfold st_word.
    replace (4 * S n)%nat with (4 + 4 * n)%nat in * by lia.
    rewrite replicate_add, bytes_put_app in HQ. change (len (replicate 4 b)) with 4 in HQ.
    cbn [replicate bytes_put] in HQ. rewrite <- !Z.add_assoc in HQ. simpl (1 + _) in HQ.
    wp_go. apply wp_stb; [apply Hr; lia|]. rewrite E0. apply (room_insert _ xs b) in Hr.
    wp_go. apply wp_stb; [apply Hr; lia|]. rewrite E1. apply (room_insert _ (xs + 1) b) in Hr.
    wp_go. apply wp_stb; [apply Hr; lia|]. rewrite E2. apply (room_insert _ (xs + 2) b) in Hr.
    wp_go. apply wp_stb; [apply Hr; lia|]. rewrite E3. apply (room_insert _ (xs + 3) b) in Hr.
    apply IH; [done|intros a Ha; apply Hr; lia|].
    by replace (xs + 4 + Z.of_nat (4 * n)) with (xs + Z.of_nat (4 + 4 * n)) by lia.
Qed.

Lemma land_255 c : Z.land c 0xff = u8 c.
Proof. exact (Z.land_ones c 8 ltac:(lia)). Qed.

Lemma wp_memset s c n m (Q : Z → mem → Prop) :
  room m s n → Q s (bytes_put s (replicate n (u8 c)) m) → wp (memset s c (Z.of_nat n)) m Q.
Proof.
  intros Hr HQ. unfold memset. rewrite land_3, land_255.
  set (l := u32 (- s) mod 4). assert (0 ≤ l < 4) as Hl by (apply Z.mod_pos_bound; lia).
  assert (is_byte (u8 c)) as Hb by (apply uwrap_range; lia).
  fold (word_of (u8 c)). cbv zeta. wp_go. apply wp_if; intros E; bool_to_prop.
  - set (h := Z.to_nat l). set (w := ((n - h) / 4)%nat). set (t := ((n - h) mod 4)%nat).
    assert (n = h + (4 * w + t))%nat as En.
    { pose proof (Nat.div_mod (n - h) 4 ltac:(lia)) as F. fold w t in F. unfold h in *. lia. }
    assert (Z.to_nat ((Z.of_nat n - l) / 4) = w) as ->.
    { unfold w. replace (Z.of_nat n - l) with (Z.of_nat (n - h)) by (unfold h; lia).
      rewrite <- (Nat2Z.inj_div _ 4). apply Nat2Z.id. }
    assert (Z.to_nat (Z.land (Z.of_nat n - l) 3) = t) as Et.
    { rewrite land_3. unfold t. replace (Z.of_nat n - l) with (Z.of_nat (n - h)) by (unfold h; lia).
      rewrite <- (Nat2Z.inj_mod _ 4). apply Nat2Z.id. }
    clearbody w t. rewrite En in Hr, HQ. rewrite !replicate_add, !bytes_put_app in HQ.
    wp_go. apply wp_fill_bytes; [intros a Ha; apply Hr; lia|]. wp_go.
    apply wp_fill_words; [done|apply room_put; intros a Ha; apply Hr; lia|]. wp_go. simpl.
    rewrite Et. apply wp_fill_bytes; [do 2 apply room_put; intros a Ha; apply Hr; lia|].
    unfold len in HQ. rewrite !length_replicate in HQ. by wp_go.
  - wp_go. simpl. rewrite Nat2Z.id. apply wp_fill_bytes; [done|]. by wp_go.
Qed.

(** ** [strstr] *)

(** [ds] is a prefix of [cs]. *)
Definition starts_with (ds cs : list Z) : Prop := take (length ds) cs = ds.

(** The first position where [ds] occurs in [cs]. *)
Definition first_match (ds cs : list Z) (i : nat) : Prop :=
  starts_with ds (drop i cs) ∧ ∀ j, (j < i)%nat → ¬ starts_with ds (drop j cs).

Definition no_match (ds cs : list Z) : Prop := ∀ i, ¬ starts_with ds (drop i cs).

Lemma chars_bytes cs : chars cs → Forall is_byte cs.
Proof. intros H. eapply Forall_impl; [exact H|]. unfold is_byte. simpl. lia. Qed.

Lemma bytes_at_drop m p bs i :
  bytes_at m p bs → (i ≤ length bs)%nat → bytes_at m (p + Z.of_nat i) (drop i bs).
Proof.
  intros H Hi. rewrite <- (take_drop i bs) in H. apply bytes_at_app in H as [_ H].
  unfold len in H. by rewrite length_take_le in H by done.
Qed.

Lemma bytes_at_take m p bs i : bytes_at m p bs → bytes_at m p (take i bs).
Proof. intros H. rewrite <- (take_drop i bs) in H. by apply bytes_at_app in H as [H _]. Qed.

Lemma wp_strstr_loop n : ∀ cs ds p q m (Q : Z → mem → Prop),
  len cs < Z.of_nat n → ds ≠ [] → chars cs → chars ds → bytes_at m p cs → bytes_at m q ds →
  (∀ i, first_match ds cs i → Q (p + Z.of_nat i) m) → (no_match ds cs → Q NULL m) →
  wp (strstr_loop n p q (len cs) (len ds)) m Q.
Proof.
  induction n as [|n IH]; intros cs ds p q m Q Hn Hne Hcs Hds Hp Hq HQ1 HQ2;
    [pose proof (len_nonneg cs); lia|].
  cbn [strstr_loop]. apply wp_if; intros E; bool_to_prop.
  - assert (length (take (length ds) cs) = length ds) as Hlen by (rewrite length_take; unfold len in E; lia).
    assert (Forall is_byte (take (length ds) cs)) as Hbt by by apply Forall_take, chars_bytes.
    assert (len ds = len (take (length ds) cs)) as El by (unfold len; lia).
    wp_go. rewrite El. eapply (wp_memcmp _ _ _ (take (length ds) cs) ds);
      [done|done|by apply chars_bytes|by apply bytes_at_take|done|].
    rewrite <- El. apply wp_if; intros F; bool_to_prop.
    + apply first_diff_zero in F; [|done|by apply chars_bytes|done].
      wp_go. specialize (HQ1 0%nat). rewrite Z.add_0_r in HQ1. apply HQ1.
      split; [exact F|]. intros j Hj. lia.
    + assert (¬ starts_with ds cs) as Hnot.
      { intros F2. apply F. unfold starts_with in F2. rewrite F2.
        apply first_diff_zero; [by apply chars_bytes|by apply chars_bytes|done|done]. }
      destruct cs as [|c cs]; [destruct ds; [done|rewrite len_cons in E; pose proof (len_nonneg ds);
        unfold len at 2 in E; simpl in E; lia]|].
      rewrite len_cons in *. replace (len cs + 1 - 1) with (len cs) by lia.
      destruct Hp as [_ Hp]. apply Forall_cons in Hcs as [_ Hcs].
      apply IH; try done; [lia|..].
      * intros i [Hi Hj]. replace (p + 1 + Z.of_nat i) with (p + Z.of_nat (S i)) by lia.
        apply HQ1. split; [exact Hi|]. intros [|j] Hlt; [done|]. apply Hj. lia.
      * intros Hno. apply HQ2. intros [|i]; [done|apply Hno].
  - wp_go. apply HQ2. intros i Hi. unfold starts_with in Hi.
    apply (f_equal length) in Hi. rewrite length_take, length_drop in Hi. unfold len in E. lia.
Qed.

Lemma wp_strstr m p q cs ds (Q : Z → mem → Prop) :
  str_at m p cs → str_at m q ds → len cs < 2 ^ 31 - 1 → len ds < 2 ^ 31 →
  (∀ i, first_match ds cs i → Q (p + Z.of_nat i) m) → (no_match ds cs → Q NULL m) →
  wp (strstr p q) m Q.
Proof.
  intros Hp Hq Hlc Hld HQ1 HQ2. unfold strstr. wp_go.
  eapply wp_strlen; [done|lia|]. rewrite len_small by done.
  apply str_at_bytes in Hq as [[Hqb _]%bytes_at_app Hqc].
  apply wp_if; intros E; bool_to_prop.
  - wp_go. specialize (HQ1 0%nat). rewrite Z.add_0_r in HQ1. apply HQ1.
    destruct ds; [|rewrite len_cons in E; pose proof (len_nonneg ds); lia].
    split; [done|lia].
  - wp_go. eapply wp_strlen; [done|lia|]. rewrite len_small by lia.
    apply str_at_bytes in Hp as [[Hpb _]%bytes_at_app Hpc].
    pose proof (len_nonneg cs). apply wp_strstr_loop; try done; [lia|by intros ->].
Qed.

(** ** [strtok] *)

(** A string cut at its longest prefix of characters that satisfy [P]. *)
Lemma span_split P cs : ∃ pre rest, cs = pre ++ rest ∧ len pre = span P cs ∧
  Forall (λ c, P c = true) pre ∧ match rest with [] => True | c :: _ => P c = false end.
Proof.
  induction cs as [|c cs (pre & rest & -> & Hl & Hf & Hr)]; cbn [span].
  - by exists [], [].
  - destruct (P c) eqn:E.
    + exists (c :: pre), rest. split_and!; [done|rewrite len_cons, <- Hl; lia|by constructor|done].
    + by exists [], (c :: pre ++ rest).
Qed.

Lemma among_true ds c : among ds c = true ↔ c ∈ ds.
Proof. apply bool_decide_eq_true. Qed.

Lemma among_false ds c : among ds c = false ↔ c ∉ ds.
Proof. apply bool_decide_eq_false. Qed.

(** What a call of [strtok] does with the string [cs] at [p] from which it goes on,
    the delimiters [ds] being at [ct]: no token is left, or the last one is
    returned, or a token is returned that a delimiter ended. *)
Inductive strtok_outcome (m : mem) (p ct : Z) (cs ds : list Z) : Z → tstate → Prop :=
  | tok_none :
      Forall (λ c, c ∈ ds) cs → strtok_outcome m p ct cs ds NULL (TState m NULL)
  | tok_last pre tok :
      cs = pre ++ tok → Forall (λ c, c ∈ ds) pre → tok ≠ [] → Forall (λ c, c ∉ ds) tok →
      str_at m (p + len pre) tok →
      strtok_outcome m p ct cs ds (p + len pre) (TState m NULL)
  | tok_next pre tok d rest m' next :
      cs = pre ++ tok ++ d :: rest → Forall (λ c, c ∈ ds) pre →
      tok ≠ [] → Forall (λ c, c ∉ ds) tok → d ∈ ds →
      next = p + len pre + len tok + 1 → m' = <[next - 1 := 0]> m →
      str_at m' (p + len pre) tok → str_at m' next rest → str_at m' ct ds →
      strtok_outcome m p ct cs ds (p + len pre) (TState m' next).

Lemma wp_strtok m p ct cs ds s saved (Q : Z → tstate → Prop) :
  p = (if s =? NULL then saved else s) → 0 < p →
  str_at m p cs → str_at m ct ds → len cs < 2 ^ 32 → apart p (len cs + 1) ct (len ds + 1) →
  (∀ r σ, strtok_outcome m p ct cs ds r σ → Q r σ) →
  wp (strtok s ct) (TState m saved) Q.
Proof.
  intros Ep H0 Hs Ht Hl Hap HQ. unfold strtok. wp_go.
  assert ((if negb (s =? NULL) then s else saved) = p) as Ep'.
  { rewrite Ep. by destruct (s =? NULL). }
  cbn [___strtok]. rewrite Ep'. clear Ep Ep'. rewrite (proj2 (Z.eqb_neq p NULL)) by (unfold NULL; lia).
  destruct (span_split (among ds) cs) as (pre & rest & -> & Hpre & Hfp & Hr).
  apply str_at_app in Hs as (Hsp & Hcp & Hs). rewrite len_app in *.
  assert (Forall (λ c, c ∈ ds) pre) as Hfp' by (eapply Forall_impl; [exact Hfp|]; intros c; apply among_true).
  wp_go. simpl. eapply (wp_strspn _ _ _ (pre ++ rest) ds);
    [by apply str_at_app|done|by rewrite len_app|]. rewrite <- Hpre.
  wp_go. simpl. destruct rest as [|c rest].
  { eapply wp_ldc; [exact Hs|]. simpl. wp_go. apply HQ, tok_none. by rewrite app_nil_r. }
  pose proof Hs as (Hc & Hrc & _). eapply wp_ldc; [exact Hc|].
  rewrite s8_eqb0, (proj2 (Z.eqb_neq c 0)) by (unfold is_byte; lia).
  set (q := p + len pre) in *. pose proof (len_nonneg pre).
  wp_go. simpl. eapply (wp_strpbrk _ q ct (c :: rest) ds); [done|done|].
  destruct (span_split (λ c, negb (among ds c)) (c :: rest))
    as (tok & rest2 & E & Htok & Hft & Hr2).
  assert (Forall (λ c, c ∉ ds) tok) as Hft'.
  { eapply Forall_impl; [exact Hft|]. simpl. intros x Hx. apply among_false. by destruct (among ds x). }
  assert (tok ≠ []) as Hne.
  { intros ->. simpl in E. subst rest2. rewrite Hr in Hr2. done. }
  unfold find_ptr. rewrite <- Htok, E, len_app in *. pose proof (len_nonneg tok).
  destruct rest2 as [|d rest2].
  - rewrite app_nil_r in Hs. change (len []) with 0 in *. rewrite Z.add_0_r, Z.eqb_refl. simpl.
    wp_go. apply HQ. rewrite app_nil_r. by eapply tok_last.
  - apply str_at_app in Hs as (Hst & Hct & Hs2). pose proof Hs2 as (Hd & Hrd & Hs3).
    rewrite len_cons in *. pose proof (len_nonneg rest2).
    rewrite (proj2 (Z.eqb_neq (len tok) _)) by lia.
    rewrite (proj2 (Z.eqb_neq (q + len tok) NULL)) by (unfold NULL, q; lia).
    wp_go. simpl. eapply wp_ldc; [exact Hd|].
    rewrite s8_eqb0, (proj2 (Z.eqb_neq d 0)) by (unfold is_byte; lia). simpl.
    wp_go. simpl. apply wp_stb; [eauto|]. change (u8 0) with 0. wp_go. simpl. apply HQ.
    assert (d ∈ ds) as Hdd by (apply among_true; by destruct (among ds d)).
    assert (q + len tok = q + len tok + 1 - 1) as Eq by lia.
    eapply (tok_next m p ct _ ds pre tok d rest2); try done; [by rewrite <- Eq|..].
    + apply str_at_bytes. split; [|done]. apply bytes_at_app. split.
      * apply (bytes_at_put_keep m _ [0]); [lia|done].
      * split; [|done]. apply lookup_insert_eq.
    + apply str_at_insert; [lia|done].
    + unfold apart in Hap. apply str_at_insert; [unfold q in *; lia|done].
Qed.

(** ** An example memory

    [str p cs] stores a string; the strings are given by their character codes. *)

#[export] Instance str_at_dec m p cs : Decision (str_at m p cs).
Proof. revert p. induction cs; intros p; simpl; apply _. Defined.

#[export] Instance bytes_at_dec m p bs : Decision (bytes_at m p bs).
Proof. revert p. induction bs; intros p; simpl; apply _. Defined.

#[export] Instance chars_dec cs : Decision (chars cs) := ltac:(unfold chars; apply _).

#[export] Instance apart_dec p n q k : Decision (apart p n q k) := ltac:(unfold apart; apply _).

(** "ab,cd" at 100, ",;" at 200, "cd" at 300, 16 bytes of space at 400. *)
Definition example_mem : mem :=
  bytes_put 100 [97; 98; 44; 99; 100; 0] (bytes_put 200 [44; 59; 0]
    (bytes_put 300 [99; 100; 0] (bytes_put 400 (replicate 16 7) ∅))).

Lemma example_room n : (n ≤ 16)%nat → room example_mem 400 n.
Proof.
  intros Hn a Ha. apply (bytes_at_room example_mem 400 (replicate 16 7)); [|simpl; lia].
  by_decide.
Qed.

(** ** Properties *)

(** The scanning routines compute the length, the bounded length, the length
    of the longest prefix of accepted characters, the first character of a set
    and the first and last occurrence of a character, and change nothing; the last
    occurrence of the character 0, where the standard asks for the terminator, is
    reported at the start of the string. *)
Theorem scan_correct m s t cs ds n c :
  str_at m s cs → str_at m t ds → len cs < 2 ^ 32 → 0 ≤ n → 0 < c < 128 →
  strlen s m = Ok (len cs, m) ∧
  strnlen s n m = Ok (Z.min n (len cs), m) ∧
  strspn s t m = Ok (span (among ds) cs, m) ∧
  strpbrk s t m = Ok (find_ptr (among ds) s cs, m) ∧
  strchr s c m = Ok (find_ptr (Z.eqb c) s cs, m) ∧
  (∃ r, strrchr s c m = Ok (r, m) ∧
     ((c ∉ cs ∧ r = NULL) ∨ ∃ cs1 cs2, cs = cs1 ++ c :: cs2 ∧ c ∉ cs2 ∧ r = s + len cs1)) ∧
  strrchr s 0 m = Ok (s, m).
Proof.
  intros Hs Ht Hl Hn Hc.
  assert (∀ (p : M mem Z) r, (∀ Q : Z → mem → Prop, Q r m → wp p m Q) → p m = Ok (r, m)) as Hrun.
  { intros p r H. destruct (wp_run p m r (λ m', m' = m)) as (? & -> & ->); [by apply H|done]. }
  split_and!; [apply Hrun; intros Q HQ..| |apply Hrun; intros Q HQ].
  - by eapply wp_strlen.
  - by eapply wp_strnlen.
  - by eapply wp_strspn.
  - by eapply wp_strpbrk.
  - apply wp_with_fuel, (wp_strchr_loop _ cs); [by eapply str_at_fuel|done|lia|done].
  - exists (last_ptr c s cs NULL). split.
    + apply Hrun. intros Q HQ. apply wp_with_fuel, (wp_strrchr_loop _ cs);
        [by eapply str_at_fuel|done|lia|]. by rewrite (proj2 (Z.eqb_neq c 0)) by lia.
    + destruct (last_ptr_spec c cs s NULL) as [?|(cs1 & cs2 & ? & ? & ?)]; [by left|right].
      by exists cs1, cs2.
  - apply wp_with_fuel, (wp_strrchr_loop _ cs); [by eapply str_at_fuel|done|lia|].
    change (if negb (0 =? 0) then NULL else s) with s.
    destruct (last_ptr_spec 0 cs s s) as [[_ ->]|(cs1 & cs2 & -> & _)]; [done|].
    apply str_at_bytes in Hs as [_ [_ [? _]%Forall_cons]%Forall_app]. lia.
Qed.

Lemma scan_correct_witness :
  strlen 100 example_mem = Ok (5, example_mem) ∧ strspn 300 100 example_mem = Ok (2, example_mem) ∧
  strrchr 100 0 example_mem = Ok (100, example_mem).
Proof.
  destruct (scan_correct example_mem 100 200 [97; 98; 44; 99; 100] [44; 59] 3 99)
    as (H1 & _ & _ & _ & _ & _ & H2); [by_decide|by_decide|by_decide|lia|lia|].
  destruct (scan_correct example_mem 300 100 [99; 100] [97; 98; 44; 99; 100] 3 99)
    as (_ & _ & H3 & _); [by_decide|by_decide|by_decide|lia|lia|].
  split_and!; [exact H1|exact H3|exact H2].
Defined.

(** The copying routines store exactly the bytes they promise and nothing
    else: [strcpy] the string with its terminator, [strcat] the same at the end of
    the destination, [strncpy] at most [n] bytes of it (with no padding and, when
    the string is too long, no terminator), [strncat] at most [n] characters and a
    terminator, [strlcpy] at most [n - 1] characters and a terminator, returning
    the length it would have needed. *)
Theorem copy_correct m d s cs es n :
  str_at m s cs → str_at m d es → room m d (length es + length cs + 1) →
  apart d (len es + len cs + 1) s (len cs + 1) → apart d (Z.of_nat n) s (len cs + 1) →
  len cs < 2 ^ 32 → (0 < n)%nat →
  strcpy d s m = Ok (d, bytes_put d (cs ++ [0]) m) ∧
  strcat d s m = Ok (d, bytes_put (d + len es) (cs ++ [0]) m) ∧
  strncpy d s (Z.of_nat n) m = Ok (d, bytes_put d (take n (cs ++ [0])) m) ∧
  strncat d s (Z.of_nat n) m = Ok (d, bytes_put (d + len es) (take n cs ++ [0]) m) ∧
  strlcpy d s (Z.of_nat n) m = Ok (len cs, bytes_put d (take (n - 1) cs ++ [0]) m).
Proof.
  intros Hs Hd Hr Hap Hapn Hl Hn. pose proof (len_nonneg cs). pose proof (len_nonneg es).
  assert (∀ (p : M mem Z) r m', (∀ Q : Z → mem → Prop, Q r m' → wp p m Q) → p m = Ok (r, m')) as Hrun.
  { intros p r m' H1. destruct (wp_run p m r (λ x, x = m')) as (? & -> & ->); [by apply H1|done]. }
  assert (∀ p k, d ≤ p → p + Z.of_nat k ≤ d + Z.of_nat (length es + length cs + 1) → room m p k)
    as Hroom by (intros p k ?? a Ha; apply Hr; lia).
  unfold apart in Hap. split_and!; apply Hrun; intros Q HQ.
  - unfold strcpy. wp_go. apply wp_with_fuel, (wp_strcpy_loop _ cs);
      [by eapply str_at_fuel|done|apply Hroom; lia|unfold apart; lia|by wp_go].
  - unfold strcat. wp_go. apply wp_with_fuel, (wp_seek_end _ es); [by eapply str_at_fuel|done|].
    wp_go. apply wp_with_fuel, (wp_strcpy_loop _ cs); [by eapply str_at_fuel|done| | |by wp_go].
    + apply Hroom; unfold len; lia.
    + unfold apart; lia.
  - unfold strncpy. rewrite Nat2Z.id. wp_go. eapply wp_strncpy_loop;
      [done|apply Hroom; lia|unfold apart; lia|by wp_go].
  - unfold strncat. rewrite Nat2Z.id. wp_go. apply wp_when; intros E; bool_to_prop; [|lia].
    wp_go. apply wp_with_fuel, (wp_seek_end _ es); [by eapply str_at_fuel|done|].
    eapply wp_strncat_loop; [done|done| |unfold apart; lia|by wp_go].
    apply Hroom; unfold len; lia.
  - apply (wp_strlcpy _ _ _ cs n); try done; [apply Hroom; lia|unfold apart; lia].
Qed.

(** The same memory with the empty string at 400. *)
Definition example_mem0 : mem := <[400 := 0]> example_mem.

Lemma copy_correct_witness :
  strcpy 400 300 example_mem0 = Ok (400, bytes_put 400 [99; 100; 0] example_mem0) ∧
  strlcpy 400 300 2 example_mem0 = Ok (2, bytes_put 400 [99; 0] example_mem0).
Proof.
  assert (room example_mem0 400 3) as Hr by (apply room_insert, example_room; lia).
  destruct (copy_correct example_mem0 400 300 [99; 100] [] 2) as (H1 & _ & _ & _ & H2);
    [by_decide|by_decide|exact Hr|by_decide|by_decide|by_decide|lia|].
  split; [exact H1|exact H2].
Defined.

(** [strlcat] does not keep to the size it is given: when the destination is
    not empty and the source has at least [n - 1] characters, it stores the
    terminator at [d + len es + n - 1], past the [n] bytes of the destination
    buffer, and it always copies up to [n - 1] characters whatever is already
    there. *)
Theorem strlcat_overruns m d s cs es n :
  str_at m s cs → str_at m d es → room m d (length es + n) →
  apart d (len es + Z.of_nat n) s (len cs + 1) → len es + len cs < 2 ^ 32 →
  (0 < length es < n)%nat → (n - 1 ≤ length cs)%nat →
  ∃ m', strlcat d s (Z.of_nat n) m = Ok (len es + len cs, m') ∧
    m' = bytes_put (d + len es) (take (n - 1) cs ++ [0]) m ∧
    d + Z.of_nat n ≤ d + len es + Z.of_nat n - 1 ∧
    m' !! (d + len es + Z.of_nat n - 1) = Some 0.
Proof.
  intros Hs Hd Hr Hap Hl Hn Hc. pose proof (len_nonneg cs). pose proof (len_nonneg es).
  assert (length (take (n - 1) cs) = (n - 1)%nat) as Hk by (rewrite length_take; lia).
  assert (len (take (n - 1) cs) = Z.of_nat (n - 1)) as El by (unfold len; lia).
  eexists. split_and!; [|done|unfold len; lia|].
  - destruct (wp_run (strlcat d s (Z.of_nat n)) m (len es + len cs)
      (λ x, x = bytes_put (d + len es) (take (n - 1) cs ++ [0]) m)) as (? & -> & ->); [|done].
    unfold strlcat. wp_go. eapply wp_strnlen; [exact Hd|lia|].
    rewrite Z.min_r, (proj2 (Z.eqb_neq (Z.of_nat n) 0)) by (unfold len; lia).
    replace (Z.to_nat (Z.of_nat n - 1)) with (n - 1)%nat by lia. wp_go.
    eapply (wp_lcopy_loop _ cs); rewrite ?Z.add_0_r;
      [done|intros a Ha; apply Hr; unfold len in *; lia|unfold apart, len in *; lia|lia|].
    rewrite Z.add_0_l, Nat.min_l by lia. wp_go.
    apply wp_stb; [apply (room_put _ _ _ d (length es + n)); [done|unfold len; lia]|].
    change (u8 0) with 0. wp_go.
    eapply (wp_strlen _ _ (drop (n - 1) cs)); unfold len; rewrite ?length_drop.
    + rewrite <- (take_drop (n - 1) cs) in Hs. apply str_at_app in Hs as (_ & _ & Hs).
      rewrite El in Hs. eapply str_at_frame; [|exact Hs]. intros a Ha.
      unfold len in Ha. rewrite length_drop in Ha.
      rewrite lookup_insert_ne, bytes_put_out; [done| |]; unfold apart, len in *; rewrite ?Hk; lia.
    + unfold len in Hl. lia.
    + unfold len in *. wp_go. rewrite uwrap_small by lia. split; [lia|].
      rewrite bytes_put_app. unfold len. by rewrite Hk.
  - rewrite bytes_put_app, El. simpl. replace (d + len es + Z.of_nat n - 1) with
      (d + len es + Z.of_nat (n - 1)) by lia. apply lookup_insert_eq.
Qed.

(** A buffer of three bytes at 400 that holds "a". *)
Definition example_mem1 : mem := <[401 := 0]> (<[400 := 97]> example_mem).

Lemma strlcat_overruns_witness :
  ∃ m', strlcat 400 300 3 example_mem1 = Ok (3, m') ∧ m' !! 403 = Some 0.
Proof.
  destruct (strlcat_overruns example_mem1 400 300 [99; 100] [97] 3) as (m' & H & _ & _ & Hm);
    [by_decide|by_decide| |by_decide|by_decide|simpl; lia|simpl; lia|].
  - do 2 apply room_insert. apply example_room. simpl; lia.
  - exists m'. split; [exact H|exact Hm].
Defined.

(** The comparing routines find the first difference: [strcmp], [strncmp] and
    [memcmp] return it as a signed character, so the result is zero exactly when
    the strings (their first [n] characters, the blocks) are equal; [strnicmp]
    returns zero exactly when the first [n] characters are equal up to case. *)
Theorem compare_correct m p q cs ds n xs ys :
  str_at m p cs → str_at m q ds →
  length xs = length ys → Forall is_byte xs → Forall is_byte ys →
  bytes_at m p xs → bytes_at m q ys →
  (strcmp p q m = Ok (first_diff (cs ++ [0]) (ds ++ [0]), m) ∧
     (first_diff (cs ++ [0]) (ds ++ [0]) = 0 ↔ cs = ds)) ∧
  strncmp p q (Z.of_nat n) m = Ok (first_diff (take n (cs ++ [0])) (take n (ds ++ [0])), m) ∧
  (memcmp p q (len xs) m = Ok (first_diff xs ys, m) ∧ (first_diff xs ys = 0 ↔ xs = ys)) ∧
  (∃ r, strnicmp p q (Z.of_nat n) m = Ok (r, m) ∧ (r = 0 ↔ same_ignoring_case n cs ds)).
Proof.
  intros Hp Hq Hl Hx Hy Hpx Hqy.
  assert (∀ (r : M mem Z) v, (∀ Q : Z → mem → Prop, Q v m → wp r m Q) → r m = Ok (v, m)) as Hrun.
  { intros r v H. destruct (wp_run r m v (λ m', m' = m)) as (? & -> & ->); [by apply H|done]. }
  split; [split|split; [|split; [split|]]].
  - apply Hrun. intros Q HQ. by eapply wp_strcmp.
  - apply first_diff_str; by eapply str_at_bytes.
  - apply Hrun. intros Q HQ. unfold strncmp. rewrite Nat2Z.id. by eapply wp_strncmp_loop.
  - apply Hrun. intros Q HQ. by eapply wp_memcmp.
  - by apply first_diff_zero.
  - assert (wp (strnicmp p q (Z.of_nat n)) m (λ r m', m' = m ∧ (r = 0 ↔ same_ignoring_case n cs ds)))
      as (r & m' & -> & -> & ?)%wp_ok; [|by exists r].
    unfold strnicmp. rewrite Nat2Z.id. wp_go. eapply wp_strnicmp_loop; [done|done|].
    intros c1 c2 H. wp_go. split; [done|]. rewrite <- H. simpl. lia.
Qed.

#[export] Instance is_byte_dec b : Decision (is_byte b) := ltac:(unfold is_byte; apply _).

Lemma compare_correct_witness :
  strcmp 100 300 example_mem = Ok (97 - 99, example_mem) ∧
  ∃ r, strnicmp 300 300 2 example_mem = Ok (r, example_mem) ∧ r = 0.
Proof.
  destruct (compare_correct example_mem 100 300 [97; 98; 44; 99; 100] [99; 100] 2 [97] [99])
    as ([H1 _] & _); [by_decide|by_decide|done|by_decide|by_decide|by_decide|by_decide|].
  destruct (compare_correct example_mem 300 300 [99; 100] [99; 100] 2 [99] [99])
    as (_ & _ & _ & r & H2 & Hr); [by_decide|by_decide|done|by_decide|by_decide|by_decide|by_decide|].
  split; [exact H1|]. exists r. split; [exact H2|]. apply Hr. reflexivity.
Defined.

(** the truncation of the difference to a signed character makes [strcmp] no
    order: three strings whose first characters rise by less than 128 at each step
    and by more than 128 in all are each reported as less than the next one, and
    the last as less than the first. *)
Theorem strcmp_cycle m p q r a b c cs ds es :
  str_at m p (a :: cs) → str_at m q (b :: ds) → str_at m r (c :: es) →
  0 < b - a < 128 → 0 < c - b < 128 → 128 < c - a →
  ∃ x y z, strcmp p q m = Ok (x, m) ∧ x < 0 ∧ strcmp q r m = Ok (y, m) ∧ y < 0 ∧
    strcmp r p m = Ok (z, m) ∧ z < 0.
Proof.
  intros Hp Hq Hr Hab Hbc Hac.
  assert (∀ p1 q1 x1 y1 xs ys, str_at m p1 (x1 :: xs) → str_at m q1 (y1 :: ys) → x1 ≠ y1 →
    strcmp p1 q1 m = Ok (s8 (x1 - y1), m)) as Hrun.
  { intros p1 q1 x1 y1 xs ys H1 H2 Hne.
    destruct (wp_run (strcmp p1 q1) m (s8 (x1 - y1)) (λ m', m' = m)) as (? & -> & ->); [|done].
    eapply wp_strcmp; [done..|]. simpl. by rewrite (proj2 (Z.eqb_neq x1 y1)). }
  pose proof Hp as (_ & ? & _). pose proof Hr as (_ & ? & _).
  exists (s8 (a - b)), (s8 (b - c)), (s8 (c - a)).
  split_and!; try (eapply Hrun; [done|done|lia]);
    unfold swrap; change (2 ^ 8) with 256; change (2 ^ (8 - 1)) with 128;
    Z.to_euclidean_division_equations; lia.
Qed.

(** The strings of the single characters 1, 100 and 200. *)
Definition example_chars : mem :=
  bytes_put 10 [1; 0] (bytes_put 20 [100; 0] (bytes_put 30 [200; 0] ∅)).

Lemma strcmp_cycle_witness :
  ∃ x y z, strcmp 10 20 example_chars = Ok (x, example_chars) ∧ x < 0 ∧
    strcmp 20 30 example_chars = Ok (y, example_chars) ∧ y < 0 ∧
    strcmp 30 10 example_chars = Ok (z, example_chars) ∧ z < 0.
Proof.
  apply (strcmp_cycle example_chars 10 20 30 1 100 200 [] [] []); [by_decide..|lia|lia|lia].
Defined.

(** Storing what is there already. *)
Lemma bytes_put_same d bs m : bytes_at m d bs → bytes_put d bs m = m.
Proof.
  intros Hs. apply map_eq. intros a. rewrite bytes_put_lookup. case_decide as Ha; [|done].
  rewrite bytes_at_lookup in Hs. destruct (lookup_lt_is_Some_2 bs (Z.to_nat (a - d))) as [b Eb];
    [unfold len in Ha; lia|]. rewrite Eb, <- (Hs _ _ Eb). f_equal. lia.
Qed.

(** The shortcut of the copies: nothing to copy, or a copy onto itself. *)
Lemma copy_nothing d s bs m :
  bytes_at m s bs → (len bs =? 0) || (d =? s) = true → bytes_put d bs m = m.
Proof.
  intros Hs E. apply orb_true_iff in E as [E|E]; bool_to_prop.
  - destruct bs; [done|]. rewrite len_cons in E. pose proof (len_nonneg bs). lia.
  - subst s. by apply bytes_put_same.
Qed.

Lemma wp_memcpy d s bs m (Q : Z → mem → Prop) :
  len bs < 2 ^ 31 → Forall is_byte bs → bytes_at m s bs → room m d (length bs) → up_ok d s (len bs) →
  Q d (bytes_put d bs m) → wp (memcpy d s (len bs)) m Q.
Proof.
  intros Hl Hb Hs Hr Hup HQ. unfold memcpy. apply wp_if; intros E.
  - wp_go. by rewrite (copy_nothing d s bs m) in HQ.
  - wp_go. apply wp_copy_up; auto.
Qed.

(** The block routines: [memset] stores [n] copies of the byte, and [memmove]
    and [memcpy] copy the block as it was before the call, whatever its alignment
    and whichever of words and single bytes they move; [memmove] also when the
    blocks overlap in either direction (as long as both lie in the same half of
    the address space: the comparison of the addresses is signed), [memcpy] when
    they are disjoint or the destination is the lower one. *)
Theorem blocks_correct m d s bs c n :
  Forall is_byte bs → bytes_at m s bs → room m d (Nat.max n (length bs)) →
  0 ≤ d < 2 ^ 32 → 0 ≤ s < 2 ^ 32 → len bs < 2 ^ 31 →
  ((d < 2 ^ 31 ↔ s < 2 ^ 31) ∨ apart d (len bs) s (len bs) →
     memmove d s (len bs) m = Ok (d, bytes_put d bs m)) ∧
  (up_ok d s (len bs) → memcpy d s (len bs) m = Ok (d, bytes_put d bs m)) ∧
  memset d c (Z.of_nat n) m = Ok (d, bytes_put d (replicate n (u8 c)) m).
Proof.
  intros Hb Hs Hr Hd Hss Hl. pose proof (len_nonneg bs).
  assert (room m d (length bs)) as Hrb by (intros a Ha; apply Hr; lia).
  assert (∀ (p : M mem Z) m', (∀ Q : Z → mem → Prop, Q d m' → wp p m Q) → p m = Ok (d, m')) as Hrun.
  { intros p m' H1. destruct (wp_run p m d (λ x, x = m')) as (? & -> & ->); [by apply H1|done]. }
  split_and!; [intros Hcase; apply Hrun; intros Q HQ|intros Hup; apply Hrun; intros Q HQ|].
  - unfold memmove. apply wp_if; intros E; [wp_go; by rewrite (copy_nothing d s bs m) in HQ|]. wp_go.
    assert (s32 d <? s32 s = true → up_ok d s (len bs)) as Hup.
    { unfold up_ok, apart in *. rewrite Z.ltb_lt. unfold swrap. change (32 - 1) with 31.
      intros Hlt. destruct Hcase as [Hc|Hc]; [|lia].
      Z.to_euclidean_division_equations. lia. }
    assert (s32 d <? s32 s = false → down_ok d s (len bs)) as Hdown.
    { unfold down_ok, apart in *. rewrite Z.ltb_ge. unfold swrap. change (32 - 1) with 31.
      intros Hlt. destruct Hcase as [Hc|Hc]; [|lia].
      Z.to_euclidean_division_equations. lia. }
    apply wp_if; intros F; [apply wp_copy_up|apply wp_copy_down]; auto; by wp_go.
  - by apply wp_memcpy.
  - apply Hrun. intros Q HQ. apply wp_memset; [|done]. intros a Ha. apply Hr. lia.
Qed.

(** Nine bytes at 401 moved two places down and one up, over themselves. *)
Definition example_block : mem := bytes_put 400 [1; 2; 3; 4; 5; 6; 7; 8; 9; 10; 11; 12] ∅.

Lemma blocks_correct_witness :
  memmove 400 402 9 example_block = Ok (400, bytes_put 400 [3; 4; 5; 6; 7; 8; 9; 10; 11] example_block) ∧
  memmove 403 402 9 example_block = Ok (403, bytes_put 403 [3; 4; 5; 6; 7; 8; 9; 10; 11] example_block) ∧
  memset 401 258 7 example_block = Ok (401, bytes_put 401 (replicate 7 2) example_block).
Proof.
  assert (∀ p, 400 ≤ p ≤ 403 → room example_block p 9) as Hr.
  { intros p Hp a Ha. apply (bytes_at_room example_block 400 [1; 2; 3; 4; 5; 6; 7; 8; 9; 10; 11; 12]);
      [by_decide|simpl; lia]. }
  destruct (blocks_correct example_block 400 402 [3; 4; 5; 6; 7; 8; 9; 10; 11] 258 7)
    as (H1 & _); [by_decide|by_decide|apply Hr; lia|lia|lia|by_decide|].
  destruct (blocks_correct example_block 403 402 [3; 4; 5; 6; 7; 8; 9; 10; 11] 258 7)
    as (H2 & _); [by_decide|by_decide|apply Hr; lia|lia|lia|by_decide|].
  destruct (blocks_correct example_block 401 402 [3] 258 7)
    as (_ & _ & H3); [by_decide|by_decide|intros a Ha; apply (Hr 401 ltac:(lia)); simpl in Ha; lia|lia|lia|by_decide|].
  split_and!; [apply H1; left; lia|apply H2; left; lia|exact H3].
Defined.

(** [strtok], called with a string or, to go on, with [NULL], skips the
    delimiters, returns the next token terminated in place, and remembers the rest
    of the string: a further call continues there; when only delimiters are left
    it returns [NULL] and forgets the string. *)
Theorem strtok_correct m p ct cs ds s saved :
  p = (if s =? NULL then saved else s) → 0 < p →
  str_at m p cs → str_at m ct ds → len cs < 2 ^ 32 → apart p (len cs + 1) ct (len ds + 1) →
  ∃ r σ, strtok s ct (TState m saved) = Ok (r, σ) ∧ strtok_outcome m p ct cs ds r σ.
Proof.
  intros. apply (wp_ok _ _ (strtok_outcome m p ct cs ds)). by eapply wp_strtok.
Qed.

Lemma strtok_correct_witness :
  ∃ r σ, strtok 100 200 (TState example_mem 0) = Ok (r, σ) ∧
    strtok_outcome example_mem 100 200 [97; 98; 44; 99; 100] [44; 59] r σ ∧ r = 100.
Proof.
  destruct (strtok_correct example_mem 100 200 [97; 98; 44; 99; 100] [44; 59] 100 0)
    as (r & σ & H & Ho); [reflexivity|lia|by_decide|by_decide|by_decide|by_decide|].
  exists r, σ. split_and!; [exact H|exact Ho|].
  assert (match strtok 100 200 (TState example_mem 0) with Ok (r, _) => r | _ => 0 end = 100) as E
    by reflexivity.
  by rewrite H in E.
Defined.

(** [strstr] returns the first occurrence of the second string in the first
    one, [NULL] when there is none. *)
Theorem strstr_first m p q cs ds :
  str_at m p cs → str_at m q ds → len cs < 2 ^ 31 - 1 → len ds < 2 ^ 31 →
  (∃ i, first_match ds cs i ∧ strstr p q m = Ok (p + Z.of_nat i, m)) ∨
  (no_match ds cs ∧ strstr p q m = Ok (NULL, m)).
Proof.
  intros Hp Hq Hc Hd.
  assert (wp (strstr p q) m (λ r m', m' = m ∧ ((∃ i, first_match ds cs i ∧ r = p + Z.of_nat i) ∨
    (no_match ds cs ∧ r = NULL)))) as (r & m' & -> & -> & H)%wp_ok.
  { eapply wp_strstr; [done..| |]; intros; (split; [done|]); [left; eauto|by right]. }
  destruct H as [(i & ? & ->)|[? ->]]; [left|right]; eauto.
Qed.

Lemma strstr_first_witness :
  ∃ i, strstr 100 300 example_mem = Ok (100 + Z.of_nat i, example_mem) ∧
    first_match [99; 100] [97; 98; 44; 99; 100] i.
Proof.
  destruct (strstr_first example_mem 100 300 [97; 98; 44; 99; 100] [99; 100])
    as [(i & H1 & H2)|[Hno _]]; [by_decide|by_decide|by_decide|by_decide| |].
  - exists i. split; [exact H2|exact H1].
  - exfalso. apply (Hno 3%nat). reflexivity.
Defined.
