(* ===== verification/HashTable.v ===== *)
(** * Hash tables: [kernel/util/hash_table.c]

    A table keeps its elements in chains, one for each bucket, threaded through a
    link inside the elements. The state of the model is the links of the elements
    that exist and the table structures, by address. The hasher and the comparison
    are functions the client supplies: they read the key inside an element, which
    the table never changes, so they are functions of the addresses. *)

From S2P Require Import Prelude Links.
From stdpp Require Import gmap list.
#[local] Open Scope Z_scope.

(** ** Data *)

(** [struct hash_table]: the bucket array by value; [static]: the flag
    [HASH_TABLE_FLAG_STATIC]. *)
Record hash_table := HashTable {
  table : list Z; table_size : Z; num_elems : Z; num_buckets : Z; static : bool }.

(** [struct hash_table_iterator] *)
Record iterator := Iterator { i_table : Z; i_bucket : Z; i_node : Z }.

(** The links by element address and the structures. *)
Record hstore := HStore { nexts : gmap Z Z; tabs : gmap Z hash_table }.

(** The client's functions: [hash_func elem key range], [compare_func elem key],
    the latter possibly missing. *)
Class HashClient := {
  hash_func : Z → Z → Z → Z;
  compare_func : option (Z → Z → Z) }.

Definition NEXT (e : Z) : M hstore Z := load (λ s, nexts s !! e).

Definition PUT_IN_NEXT (e val : Z) : M hstore unit := λ s,
  match nexts s !! e with
  | Some _ => Ok (tt, HStore (<[e := val]> (nexts s)) (tabs s))
  | None => Fault
  end.

Definition ld_tab (t : Z) : M hstore hash_table := load (λ s, tabs s !! t).

Definition st_tab (t : Z) (f : hash_table → hash_table) : M hstore unit := λ s,
  match tabs s !! t with
  | Some h => Ok (tt, HStore (nexts s) (<[t := f h]> (tabs s)))
  | None => Fault
  end.

(** [ht->table[i]] *)
Definition ld_bucket (t i : Z) : M hstore Z :=
  h ← ld_tab t; load (λ _, if 0 <=? i then table h !! Z.to_nat i else None).

Definition st_bucket (t i v : Z) : M hstore unit :=
  ld_bucket t i;;
  st_tab t (λ h, HashTable (<[Z.to_nat i := v]> (table h)) (table_size h) (num_elems h)
    (num_buckets h) (static h)).

Definition add_elems (t d : Z) : M hstore unit :=
  st_tab t (λ h, HashTable (table h) (table_size h) (u32 (num_elems h + d)) (num_buckets h)
    (static h)).

Definition add_buckets (t d : Z) : M hstore unit :=
  st_tab t (λ h, HashTable (table h) (table_size h) (num_elems h) (u32 (num_buckets h + d))
    (static h)).

Definition new_tab (t : Z) (h : hash_table) : M hstore unit :=
  modify (λ s, HStore (nexts s) (<[t := h]> (tabs s))).

(** A chain visits every element at most once unless it is cyclic. *)
Definition hfuel (s : hstore) : nat := S (size (nexts s)).

(** ** Creation *)

Definition sizeof_hash_table : Z := 32.

Definition sizeof_node : Z := 4.

Definition HASH_TABLE_STATIC_SIZE (a : Z) : Z := sizeof_hash_table + a * sizeof_node.

(** [ht], [arr]: what the two calls of [kmalloc] return. *)
Definition hash_table_init (ht arr size : Z) : M hstore Z :=
  if ht =? NULL then mret NULL
  else if arr =? NULL then mret NULL
  else
    new_tab ht (HashTable (replicate (Z.to_nat size) NULL) size 0 0 false);;
    mret ht.

Definition hash_table_init_static (area area_size : Z) : M hstore Z :=
  if area_size <? HASH_TABLE_STATIC_SIZE 1 then mret NULL
  else
    let size := (area_size - sizeof_hash_table) / sizeof_node in
    new_tab area (HashTable (replicate (Z.to_nat size) NULL) size 0 0 true);;
    mret area.

Definition hash_table_uninit (t : Z) : M hstore Z :=
  h ← ld_tab t;
  if static h then mret 1
  else modify (λ s, HStore (nexts s) (delete t (tabs s)));; mret 0.

Section ops.
Context `{HashClient}.

(** ** Operations on elements *)

Definition hash_table_insert (t elem : Z) : M hstore Z :=
  h ← ld_tab t;
  let hash := hash_func elem NULL (table_size h) in
  head ← ld_bucket t hash;
  PUT_IN_NEXT elem head;;
  when (head =? NULL) (add_buckets t 1);;
  st_bucket t hash elem;;
  add_elems t 1;;
  mret 0.

(** Walk the chain from [i]: is [elem] on it? *)
Fixpoint on_chain (fuel : nat) (i elem : Z) : M hstore bool :=
  match fuel with
  | O => hang
  | S fuel =>
      if i =? NULL then mret false
      else if i =? elem then mret true
      else i ← NEXT i; on_chain fuel i elem
  end.

Definition hash_table_insert_safe (t elem : Z) : M hstore Z :=
  h ← ld_tab t;
  let hash := hash_func elem NULL (table_size h) in
  head ← ld_bucket t hash;
  fuel ← gets hfuel;
  found ← on_chain fuel head elem;
  if found : bool then mret 1
  else
    PUT_IN_NEXT elem head;;
    when (head =? NULL) (add_buckets t 1);;
    st_bucket t hash elem;;
    add_elems t 1;;
    mret 0.

Fixpoint remove_loop (fuel : nat) (t hash elem last_i i : Z) : M hstore Z :=
  match fuel with
  | O => hang
  | S fuel =>
      if i =? NULL then mret 1
      else if i =? elem then
        (if negb (last_i =? NULL) then n ← NEXT i; PUT_IN_NEXT last_i n
         else n ← NEXT i; st_bucket t hash n);;
        b ← ld_bucket t hash;
        when (b =? NULL) (add_buckets t (-1));;
        add_elems t (-1);;
        mret 0
      else n ← NEXT i; remove_loop fuel t hash elem i n
  end.

Definition hash_table_remove (t elem : Z) : M hstore Z :=
  h ← ld_tab t;
  let hash := hash_func elem NULL (table_size h) in
  head ← ld_bucket t hash;
  fuel ← gets hfuel;
  remove_loop fuel t hash elem NULL head.

Definition hash_table_find (t elem : Z) : M hstore Z :=
  h ← ld_tab t;
  head ← ld_bucket t (hash_func elem NULL (table_size h));
  fuel ← gets hfuel;
  found ← on_chain fuel head elem;
  mret (if found : bool then elem else NULL).

(** The first element of the chain the comparison accepts. *)
Fixpoint lookup_loop (compare : Z → Z → Z) (fuel : nat) (i key : Z) : M hstore Z :=
  match fuel with
  | O => hang
  | S fuel =>
      if i =? NULL then mret NULL
      else if compare i key =? 0 then mret i
      else i ← NEXT i; lookup_loop compare fuel i key
  end.

Definition hash_table_lookup (t key : Z) : M hstore Z :=
  match compare_func with
  | None => mret NULL
  | Some compare =>
      h ← ld_tab t;
      head ← ld_bucket t (hash_func NULL key (table_size h));
      fuel ← gets hfuel;
      lookup_loop compare fuel head key
  end.

(** ** Iteration *)

Definition hash_table_rewind (i : iterator) : iterator := Iterator (i_table i) (-1) NULL.

(** [i]: what [kmalloc] returns for the iterator structure. *)
Definition hash_table_open (i t : Z) : option iterator :=
  if i =? NULL then None else Some (hash_table_rewind (Iterator t 0 0)).

(** The first used bucket from [index] on, [n] buckets being left. *)
Fixpoint used_bucket (n : nat) (bs : list Z) (index : Z) : Z :=
  match n with
  | O => index
  | S n =>
      if negb (default NULL (bs !! Z.to_nat index) =? NULL) then index
      else used_bucket n bs (index + 1)
  end.

Fixpoint next_loop (fuel : nat) (i : iterator) : M hstore iterator :=
  match fuel with
  | O => hang
  | S fuel =>
      h ← ld_tab (i_table i);
      i ← (if i_node i =? NULL then
             let start := u32 (i_bucket i + 1) in
             let index := used_bucket (Z.to_nat (table_size h - start)) (table h) start in
             let node := if index <? table_size h
                         then default NULL (table h !! Z.to_nat index) else i_node i in
             mret (Iterator (i_table i) (s32 index) node)
           else n ← NEXT (i_node i); mret (Iterator (i_table i) (i_bucket i) n));
      if (i_node i =? NULL) && (u32 (i_bucket i) <? table_size h) then next_loop fuel i
      else mret i
  end.

(** The element and the iterator after the call. *)
Definition hash_table_next (i : iterator) : M hstore (Z * iterator) :=
  h ← ld_tab (i_table i);
  i ← next_loop (S (S (Z.to_nat (table_size h)))) i;
  mret (i_node i, i).

(** [while((elem = hash_table_next(&i)) != NULL) callback(elem);] *)
Fixpoint foreach_loop (fuel : nat) (i : iterator) (callback : Z → M hstore unit) : M hstore unit :=
  match fuel with
  | O => hang
  | S fuel =>
      r ← hash_table_next i;
      if r.1 =? NULL then mret tt
      else callback r.1;; foreach_loop fuel r.2 callback
  end.

Definition hash_table_foreach (t : Z) (callback : Z → M hstore unit) : M hstore unit :=
  fuel ← gets hfuel;
  foreach_loop fuel (hash_table_rewind (Iterator t 0 0)) callback.

(** ** Resizing

    [tmp]: the address of the local structure; [arr]: what [kmalloc] returns. The
    loop that moves the elements inserts the element the iterator stands on. *)
Definition resize_loop (fuel : nat) (i : iterator) (tmp : Z) : M hstore unit :=
  foreach_loop fuel i (λ elem, hash_table_insert tmp elem;; mret tt).

Definition hash_table_resize (fuel : nat) (t tmp arr new_size : Z) : M hstore Z :=
  h ← ld_tab t;
  if (new_size =? 0) || (table_size h =? new_size) || static h then mret 1
  else if arr =? NULL then mret 1
  else
    new_tab tmp (HashTable (replicate (Z.to_nat new_size) NULL) new_size 0 0 (static h));;
    resize_loop fuel (hash_table_rewind (Iterator t 0 0)) tmp;;
    h' ← ld_tab tmp;
    new_tab t h';;
    mret 0.
End ops.

(** ** Counters *)

Definition hash_table_size (t : Z) : M hstore Z := h ← ld_tab t; mret (table_size h).

Definition hash_table_count (t : Z) : M hstore Z := h ← ld_tab t; mret (num_elems h).

Definition hash_table_buckets (t : Z) : M hstore Z := h ← ld_tab t; mret (num_buckets h).

(** ** Representation *)

(** What the table relies on: the hasher maps into the range it is given, and an
    element and a key the comparison accepts hash alike. *)
Class HashLaws `{HashClient} : Prop := {
  hash_range e n : 0 < n → 0 ≤ hash_func e NULL n < n;
  key_range k n : 0 < n → 0 ≤ hash_func NULL k n < n;
  compare_hash compare e k n : compare_func = Some compare → compare e k = 0 →
    hash_func e NULL n = hash_func NULL k n }.

(** The number of used buckets. *)
Definition used (chains : list (list Z)) : Z := Z.of_nat (length (filter (.≠ []) chains)).

Definition size_of (chains : list (list Z)) : Z := Z.of_nat (length chains).

Record is_hash `{HashClient} (s : hstore) (t : Z) (chains : list (list Z)) : Prop := {
  ih_tab : ∃ st, tabs s !! t = Some (HashTable (head_or NULL <$> chains) (size_of chains)
    (Z.of_nat (length (concat chains))) (used chains) st);
  ih_size : 0 < size_of chains < 2 ^ 31;
  ih_seg : Forall (λ c, qseg (nexts s) c NULL) chains;
  ih_hash : ∀ i c e, chains !! i = Some c → e ∈ c →
    hash_func e NULL (size_of chains) = Z.of_nat i;
  ih_nodup : NoDup (concat chains);
  ih_valid : Forall valid_ptr (concat chains) }.

(** ** Chains as the parts of a list *)

Lemma chains_split (chains : list (list Z)) i c :
  chains !! i = Some c → ∃ l1 l2, chains = l1 ++ c :: l2 ∧ length l1 = i ∧
    ∀ c', <[i := c']> chains = l1 ++ c' :: l2.
Proof.
  intros Hc. exists (take i chains), (drop (S i) chains). split_and!.
  - by rewrite take_drop_middle.
  - apply length_take_le. apply lookup_lt_Some in Hc. lia.
  - intros c'. rewrite insert_take_drop; [done|]. by apply lookup_lt_Some in Hc.
Qed.

Lemma concat_middle (l1 l2 : list (list Z)) c :
  concat (l1 ++ c :: l2) ≡ₚ c ++ concat (l1 ++ l2).
Proof. rewrite !concat_app. simpl. by rewrite Permutation_app_swap_app. Qed.

Lemma used_middle l1 c l2 :
  used (l1 ++ c :: l2) = used (l1 ++ l2) + (if decide (c = []) then 0 else 1).
Proof.
  unfold used. rewrite !filter_app, filter_cons. repeat case_decide; try done.
  all: rewrite !length_app; simpl; lia.
Qed.

Lemma used_range chains : 0 ≤ used chains ≤ size_of chains.
Proof. unfold used, size_of. pose proof (length_filter (.≠ []) chains). lia. Qed.

Lemma size_of_insert chains i c : size_of (<[i := c]> chains) = size_of chains.
Proof. unfold size_of. by rewrite length_insert. Qed.

Lemma elem_of_chain (chains : list (list Z)) i c e :
  chains !! i = Some c → e ∈ c → e ∈ concat chains.
Proof.
  intros (l1 & l2 & -> & _)%chains_split He. rewrite concat_middle. set_solver.
Qed.

Lemma elem_of_concat_lookup (chains : list (list Z)) e :
  e ∈ concat chains → ∃ i c, chains !! i = Some c ∧ e ∈ c.
Proof.
  induction chains as [|c chains IH]; simpl; [by intros ?%not_elem_of_nil|].
  intros [He|(i & c' & Hi & He)%IH]%elem_of_app; [by exists 0%nat, c|by exists (S i), c'].
Qed.

(** ** Loads and stores *)

Lemma wp_NEXT e n s (Q : Z → hstore → Prop) : nexts s !! e = Some n → Q n s → wp (NEXT e) s Q.
Proof. intros. by eapply wp_load. Qed.

Lemma wp_ld_tab t h s (Q : hash_table → hstore → Prop) :
  tabs s !! t = Some h → Q h s → wp (ld_tab t) s Q.
Proof. intros. by eapply wp_load. Qed.

Lemma wp_PUT_IN_NEXT e v s (Q : unit → hstore → Prop) :
  is_Some (nexts s !! e) → Q tt (HStore (<[e := v]> (nexts s)) (tabs s)) →
  wp (PUT_IN_NEXT e v) s Q.
Proof. intros [n Hn] HQ. unfold wp, PUT_IN_NEXT. by rewrite Hn. Qed.

Lemma wp_st_tab t f h s (Q : unit → hstore → Prop) :
  tabs s !! t = Some h → Q tt (HStore (nexts s) (<[t := f h]> (tabs s))) → wp (st_tab t f) s Q.
Proof. intros Hh HQ. unfold wp, st_tab. by rewrite Hh. Qed.

Lemma wp_ld_bucket t h i b s (Q : Z → hstore → Prop) :
  tabs s !! t = Some h → table h !! i = Some b → Q b s → wp (ld_bucket t (Z.of_nat i)) s Q.
Proof.
  intros Ht Hb HQ. unfold ld_bucket. wp_go. eapply wp_ld_tab; [done|].
  eapply wp_load; [|done]. rewrite Nat2Z.id, (proj2 (Z.leb_le 0 (Z.of_nat i))) by lia. done.
Qed.

Lemma wp_st_bucket t h i v s (Q : unit → hstore → Prop) :
  tabs s !! t = Some h → is_Some (table h !! i) →
  Q tt (HStore (nexts s) (<[t := HashTable (<[i := v]> (table h)) (table_size h) (num_elems h)
    (num_buckets h) (static h)]> (tabs s))) → wp (st_bucket t (Z.of_nat i) v) s Q.
Proof.
  intros Ht [b Hb] HQ. unfold st_bucket. wp_go. eapply wp_ld_bucket; [done..|].
  eapply wp_st_tab; [done|]. by rewrite Nat2Z.id.
Qed.

Section proofs.
Context `{HashLaws}.
Implicit Types (s : hstore) (t e : Z) (chains : list (list Z)).

(** The chain an element hashes to. *)
Lemma hash_chain s t chains e :
  is_hash s t chains → ∃ i c, hash_func e NULL (size_of chains) = Z.of_nat i ∧
    chains !! i = Some c ∧ (e ∈ concat chains ↔ e ∈ c).
Proof.
  intros Hh. pose proof (hash_range e (size_of chains) (proj1 (ih_size _ _ _ Hh))) as Hr.
  destruct (lookup_lt_is_Some_2 chains (Z.to_nat (hash_func e NULL (size_of chains)))) as [c Hc].
  { unfold size_of in *. lia. }
  exists (Z.to_nat (hash_func e NULL (size_of chains))), c. split_and!; [lia|done|].
  split; [|by eapply elem_of_chain].
  intros (j & c' & Hj & He)%elem_of_concat_lookup.
  pose proof (ih_hash _ _ _ Hh j c' e Hj He) as E. rewrite E, Nat2Z.id in Hc. congruence.
Qed.

Lemma chain_facts s t chains i c :
  is_hash s t chains → chains !! i = Some c →
  qseg (nexts s) c NULL ∧ NoDup c ∧ Forall valid_ptr c ∧ (length c < hfuel s)%nat.
Proof.
  intros Hh Hc. pose proof (proj1 (Forall_lookup _ _) (ih_seg _ _ _ Hh) i c Hc) as Hs.
  destruct (chains_split _ _ _ Hc) as (l1 & l2 & -> & _).
  pose proof (ih_nodup _ _ _ Hh) as Hn. rewrite concat_middle in Hn.
  pose proof (ih_valid _ _ _ Hh) as Hv. rewrite concat_middle in Hv.
  apply NoDup_app in Hn as (Hn & _). apply Forall_app in Hv as [Hv _].
  split_and!; [done..|]. unfold hfuel. pose proof (qseg_size _ _ _ Hn Hs). lia.
Qed.

Lemma hash_count s t chains : is_hash s t chains → Z.of_nat (length (concat chains)) < 2 ^ 32.
Proof. intros Hh. apply NoDup_valid_ptr_length; apply Hh. Qed.

Lemma wp_on_chain fuel : ∀ c s e (Q : bool → hstore → Prop),
  (length c < fuel)%nat → qseg (nexts s) c NULL → Forall valid_ptr c →
  Q (bool_decide (e ∈ c)) s → wp (on_chain fuel (head_or NULL c) e) s Q.
Proof.
  induction fuel as [|fuel IH]; intros c s e Q Hf Hs Hv HQ; [lia|]. cbn [on_chain].
  destruct c as [|x c]; simpl in Hf, Hs |- *.
  - apply wp_ret. by rewrite bool_decide_false in HQ by set_solver.
  - apply Forall_cons in Hv as [Hx Hv]. destruct Hs as [Hn Hs].
    rewrite (proj2 (Z.eqb_neq x NULL)) by (unfold valid_ptr, NULL in *; lia).
    destruct (Z.eqb_spec x e) as [->|Hne].
    + apply wp_ret. by rewrite bool_decide_true in HQ by set_solver.
    + wp_go. eapply wp_NEXT; [done|]. apply IH; [lia|done|done|].
      erewrite bool_decide_ext; [done|]. set_solver.
Qed.

Lemma wp_lookup_loop compare fuel : ∀ c s k (Q : Z → hstore → Prop),
  (length c < fuel)%nat → qseg (nexts s) c NULL → Forall valid_ptr c →
  (∀ e, e ∈ c → compare e k = 0 → Q e s) → ((∀ e, e ∈ c → compare e k ≠ 0) → Q NULL s) →
  wp (lookup_loop compare fuel (head_or NULL c) k) s Q.
Proof.
  induction fuel as [|fuel IH]; intros c s k Q Hf Hs Hv HQ1 HQ2; [lia|]. cbn [lookup_loop].
  destruct c as [|x c]; simpl in *; [apply wp_ret, HQ2; set_solver|].
  apply Forall_cons in Hv as [Hx Hv]. destruct Hs as [Hn Hs].
  rewrite (proj2 (Z.eqb_neq x NULL)) by (unfold valid_ptr, NULL in *; lia).
  destruct (Z.eqb_spec (compare x k) 0) as [E|E].
  - apply wp_ret, HQ1; [by left|done].
  - wp_go. eapply wp_NEXT; [done|]. apply IH; [lia|done|done|..].
    + intros e He. apply HQ1. by right.
    + intros Hno. apply HQ2. intros e [->|He]%elem_of_cons; [done|auto].
Qed.

(** ** Changing one chain *)

(** The state after chain [i] has become [c'], the links of the other chains
    untouched. *)
Lemma is_hash_change s s' t chains i c c' st :
  is_hash s t chains → chains !! i = Some c →
  tabs s' !! t = Some (HashTable (<[i := head_or NULL c']> (head_or NULL <$> chains))
    (size_of chains) (Z.of_nat (length (concat chains)) - Z.of_nat (length c) + Z.of_nat (length c'))
    (used chains - (if decide (c = []) then 0 else 1) + (if decide (c' = []) then 0 else 1)) st) →
  qseg (nexts s') c' NULL →
  (∀ x, x ∉ c → x ∉ c' → nexts s' !! x = nexts s !! x) →
  (∀ e, e ∈ c' → hash_func e NULL (size_of chains) = Z.of_nat i) →
  (∀ e, e ∈ c' → e ∉ c → e ∉ concat chains) →
  NoDup c' → Forall valid_ptr c' →
  is_hash s' t (<[i := c']> chains).
Proof.
  intros Hh Hc Ht Hs Hf Hhash Hnew Hnd Hv.
  destruct (chains_split _ _ _ Hc) as (l1 & l2 & E & Hl & Hins).
  pose proof (ih_nodup _ _ _ Hh) as Hn0. pose proof (ih_valid _ _ _ Hh) as Hv0.
  rewrite E, concat_middle in Hn0, Hv0.
  apply NoDup_app in Hn0 as (Hnc & Hdis & Hnr). apply Forall_app in Hv0 as [_ Hvr].
  assert (∀ x, x ∈ c' → x ∉ concat (l1 ++ l2)) as Hdis'.
  { intros x Hx Hin. destruct (decide (x ∈ c)) as [Hxc|Hxc]; [by eapply Hdis|].
    apply (Hnew x Hx Hxc). rewrite E, concat_middle. set_solver. }
  split.
  - exists st. rewrite Ht, size_of_insert, <- list_fmap_insert, Hins. f_equal. f_equal.
    + rewrite !concat_app, E, !length_app, concat_app. simpl. rewrite !length_app. lia.
    + rewrite E, !used_middle. lia.
  - rewrite size_of_insert. apply Hh.
  - rewrite Hins. pose proof (ih_seg _ _ _ Hh) as Hseg. rewrite E in Hseg.
    rewrite Forall_app, Forall_cons in Hseg |- *. destruct Hseg as (H1 & _ & H2).
    assert (∀ l, l ⊆ l1 ++ l2 → Forall (λ c, qseg (nexts s) c NULL) l →
      Forall (λ c, qseg (nexts s') c NULL) l) as Hkeep.
    { intros l Hsub Hl'. rewrite Forall_forall in Hl' |- *. intros d Hd.
      eapply qseg_frame; [|by apply Hl']. intros x Hx.
      assert (x ∈ concat (l1 ++ l2)) as Hin.
      { apply Hsub, list_elem_of_lookup in Hd as [j Hj]. by eapply elem_of_chain. }
      apply Hf; intros ?; [by eapply Hdis|by eapply Hdis']. }
    split_and!; [apply Hkeep; set_solver|done|apply Hkeep; set_solver].
  - intros j d e Hj He. rewrite size_of_insert. destruct (decide (j = i)) as [->|Hne].
    + rewrite list_lookup_insert_eq in Hj by (by apply lookup_lt_Some in Hc).
      simplify_eq. by apply Hhash.
    + rewrite list_lookup_insert_ne in Hj by done. by eapply (ih_hash _ _ _ Hh).
  - rewrite Hins, concat_middle. apply NoDup_app. split_and!; [done| |done]. intros x. apply Hdis'.
  - rewrite Hins, concat_middle. by apply Forall_app.
Qed.
End proofs.

(** ** The operations *)

(** What every operation leaves alone. *)
Definition hkeep (s s' : hstore) : Prop := dom (nexts s') = dom (nexts s).

#[export] Instance hkeep_preorder : PreOrder hkeep.
Proof. split; [done|]. unfold hkeep. intros s1 s2 s3. congruence. Qed.

Definition helem_ok (s : hstore) (e : Z) : Prop := valid_ptr e ∧ e ∈ dom (nexts s).

#[export] Instance helem_ok_dec s e : Decision (helem_ok s e) :=
  ltac:(unfold helem_ok; apply _).

Section ops_proofs.
Context `{HashLaws}.

(** The stores of the two insertion routines, the bucket being [i]. *)
Lemma wp_link_front s t chains i c e st (Q : Z → hstore → Prop) :
  is_hash s t chains → chains !! i = Some c →
  tabs s !! t = Some (HashTable (head_or NULL <$> chains) (size_of chains)
    (Z.of_nat (length (concat chains))) (used chains) st) →
  hash_func e NULL (size_of chains) = Z.of_nat i → e ∉ concat chains → helem_ok s e →
  (∀ s', is_hash s' t (<[i := e :: c]> chains) → hkeep s s' → Q 0 s') →
  wp (PUT_IN_NEXT e (head_or NULL c);;
      when (head_or NULL c =? NULL) (add_buckets t 1);;
      st_bucket t (Z.of_nat i) e;; add_elems t 1;; mret 0) s Q.
Proof.
  intros Hh Hc Ht Hi He [Hv Hd] HQ.
  destruct (chain_facts s t chains i c Hh Hc) as (Hs & Hnd & Hvc & _).
  pose proof (elem_of_chain chains i c) as Hin.
  assert (Z.of_nat (length (concat chains)) + 1 < 2 ^ 32) as Hn.
  { pose proof (NoDup_valid_ptr_length (e :: concat chains)) as Hl.
    simpl in Hl. rewrite NoDup_cons, Forall_cons in Hl. destruct Hh.
    assert (Z.of_nat (S (length (concat chains))) < 2 ^ 32) by auto. lia. }
  pose proof (used_range chains) as Hu. pose proof (ih_size _ _ _ Hh) as Hz.
  assert ((head_or NULL c =? NULL) = bool_decide (c = [])) as ->.
  { destruct c as [|x c]; [done|]. apply Forall_cons in Hvc as [Hx _].
    rewrite bool_decide_false by done. apply Z.eqb_neq. unfold valid_ptr, NULL in *. simpl. lia. }
  wp_go. apply wp_PUT_IN_NEXT; [by apply elem_of_dom|]. wp_go.
  set (h1 := HashTable (head_or NULL <$> chains) (size_of chains)
    (Z.of_nat (length (concat chains))) (used chains + (if decide (c = []) then 1 else 0)) st).
  assert (∀ K : unit → hstore → Prop,
    K tt (HStore (<[e := head_or NULL c]> (nexts s)) (<[t := h1]> (tabs s))) →
    wp (when (bool_decide (c = [])) (add_buckets t 1))
      (HStore (<[e := head_or NULL c]> (nexts s)) (tabs s)) K) as Hwhen.
  { intros K HK. apply wp_when; rewrite ?bool_decide_eq_true, ?bool_decide_eq_false; intros E.
    - eapply wp_st_tab; [done|]. simpl. rewrite uwrap_small by lia.
      unfold h1 in HK. by rewrite decide_True in HK.
    - unfold h1 in HK. rewrite decide_False, Z.add_0_r, (insert_id (tabs s)) in HK by done.
      done. }
  apply Hwhen. wp_go. eapply wp_st_bucket; [apply lookup_insert_eq| |].
  { simpl. rewrite list_lookup_fmap, Hc. by eexists. }
  wp_go. eapply wp_st_tab; [apply lookup_insert_eq|]. simpl. rewrite uwrap_small by lia.
  wp_go. apply HQ.
  - eapply (is_hash_change s _ t chains i c (e :: c) st); try done; simpl.
    + rewrite !insert_insert_eq, lookup_insert_eq. do 2 f_equal; repeat case_decide; lia || done.
    + split; [by rewrite lookup_insert_eq|]. eapply qseg_frame; [|exact Hs].
      intros x Hx. rewrite lookup_insert_ne; [done|]. intros ->. auto.
    + intros x Hx1 Hx2. rewrite lookup_insert_ne; [done|]. set_solver.
    + intros x [->|Hx]%elem_of_cons; [done|]. by eapply (ih_hash _ _ _ Hh).
    + intros x [->|Hx]%elem_of_cons; done.
    + apply NoDup_cons. auto.
    + by apply Forall_cons.
  - unfold hkeep. simpl. by apply dom_insert_in.
Qed.

Lemma wp_hash_table_insert s t chains e (Q : Z → hstore → Prop) :
  is_hash s t chains → e ∉ concat chains → helem_ok s e →
  (∀ i c s', chains !! i = Some c → is_hash s' t (<[i := e :: c]> chains) → hkeep s s' → Q 0 s') →
  wp (hash_table_insert t e) s Q.
Proof.
  intros Hh He Hok HQ. pose proof (ih_tab _ _ _ Hh) as [st Ht].
  destruct (hash_chain s t chains e Hh) as (i & c & Ei & Hc & _).
  unfold hash_table_insert. wp_go. eapply wp_ld_tab; [done|]. wp_go. simpl. rewrite Ei.
  eapply wp_ld_bucket; [done|simpl; by rewrite list_lookup_fmap, Hc|].
  eapply wp_link_front; eauto.
Qed.

Lemma wp_hash_table_insert_safe s t chains e (Q : Z → hstore → Prop) :
  is_hash s t chains → helem_ok s e → (e ∈ concat chains → Q 1 s) →
  (e ∉ concat chains → ∀ i c s', chains !! i = Some c →
     is_hash s' t (<[i := e :: c]> chains) → hkeep s s' → Q 0 s') →
  wp (hash_table_insert_safe t e) s Q.
Proof.
  intros Hh Hok HQ1 HQ2. pose proof (ih_tab _ _ _ Hh) as [st Ht].
  destruct (hash_chain s t chains e Hh) as (i & c & Ei & Hc & Hin).
  destruct (chain_facts s t chains i c Hh Hc) as (Hs & _ & Hvc & Hf).
  unfold hash_table_insert_safe. wp_go. eapply wp_ld_tab; [done|]. wp_go. simpl. rewrite Ei.
  eapply wp_ld_bucket; [done|simpl; by rewrite list_lookup_fmap, Hc|]. wp_go.
  apply wp_on_chain; [done..|]. case_bool_decide as E.
  - wp_go. by apply HQ1, Hin.
  - assert (e ∉ concat chains) as He by by rewrite Hin. eapply wp_link_front; eauto.
Qed.

(** The bookkeeping of [hash_table_remove], once the chain [c1 ++ e :: c2] of bucket
    [i] has become [c1 ++ c2]. *)
Lemma wp_unlinked s s1 t chains i st e c1 c2 (Q : Z → hstore → Prop) :
  is_hash s t chains → chains !! i = Some (c1 ++ e :: c2) →
  tabs s1 !! t = Some (HashTable (<[i := head_or NULL (c1 ++ c2)]> (head_or NULL <$> chains))
    (size_of chains) (Z.of_nat (length (concat chains))) (used chains) st) →
  qseg (nexts s1) (c1 ++ c2) NULL → (∀ x, x ∉ c1 ++ c2 → nexts s1 !! x = nexts s !! x) →
  dom (nexts s1) = dom (nexts s) →
  (∀ s', is_hash s' t (<[i := c1 ++ c2]> chains) → hkeep s s' → Q 0 s') →
  wp (b ← ld_bucket t (Z.of_nat i);
      when (b =? NULL) (add_buckets t (-1));; add_elems t (-1);; mret 0) s1 Q.
Proof.
  intros Hh Hc Ht Hs Hf Hd HQ.
  destruct (chain_facts s t chains i _ Hh Hc) as (_ & Hnd & Hv & _).
  apply NoDup_middle in Hnd as (Hnd & _). apply Forall_middle in Hv as [_ Hv].
  pose proof (hash_count _ _ _ Hh) as Hn. pose proof (used_range chains) as Hu.
  pose proof (ih_size _ _ _ Hh) as Hz. pose proof (lookup_lt_Some _ _ _ Hc) as Hi.
  assert (length (c1 ++ e :: c2) = S (length (c1 ++ c2))) as Hlen
    by (rewrite !length_app; simpl; lia).
  assert (1 ≤ used chains ∧ (length (c1 ++ e :: c2) ≤ length (concat chains))%nat) as [Hu1 Hle].
  { destruct (chains_split _ _ _ Hc) as (l1 & l2 & -> & _). rewrite used_middle.
    rewrite concat_middle, (length_app (_ ++ _)). rewrite decide_False by by destruct c1.
    pose proof (used_range (l1 ++ l2)). lia. }
  assert ((head_or NULL (c1 ++ c2) =? NULL) = bool_decide (c1 ++ c2 = [])) as Eb.
  { destruct (c1 ++ c2) as [|x c]; [done|]. apply Forall_cons in Hv as [Hx _].
    rewrite bool_decide_false by done. apply Z.eqb_neq. unfold valid_ptr, NULL in *. simpl. lia. }
  wp_go. eapply wp_ld_bucket; [done|simpl; apply list_lookup_insert_eq; by rewrite length_fmap|].
  rewrite Eb.
  set (h2 := HashTable (<[i := head_or NULL (c1 ++ c2)]> (head_or NULL <$> chains)) (size_of chains)
    (Z.of_nat (length (concat chains)))
    (used chains - 1 + (if decide (c1 ++ c2 = []) then 0 else 1)) st).
  assert (∀ K : unit → hstore → Prop, K tt (HStore (nexts s1) (<[t := h2]> (tabs s1))) →
    wp (when (bool_decide (c1 ++ c2 = [])) (add_buckets t (-1))) s1 K) as Hwhen.
  { intros K HK. unfold h2 in HK.
    apply wp_when; rewrite ?bool_decide_eq_true, ?bool_decide_eq_false; intros E.
    - eapply wp_st_tab; [done|]. simpl. rewrite uwrap_small by lia.
      by rewrite decide_True, Z.add_0_r in HK.
    - rewrite decide_False, Z.sub_add, (insert_id (tabs s1)) in HK by done. by destruct s1. }
  wp_go. apply Hwhen. wp_go. eapply wp_st_tab; [apply lookup_insert_eq|]. simpl.
  rewrite uwrap_small by lia. wp_go. apply HQ; [|done].
  eapply (is_hash_change s _ t chains i (c1 ++ e :: c2) (c1 ++ c2) st); try done; simpl.
  - rewrite insert_insert_eq, lookup_insert_eq. rewrite Hlen.
    rewrite (decide_False (P := c1 ++ e :: c2 = [])) by by destruct c1. do 2 f_equal; lia.
  - intros x _ Hx. auto.
  - intros x Hx. eapply (ih_hash _ _ _ Hh); [done|]. set_solver.
  - intros x Hx Hno. set_solver.
Qed.

(** The walk of [hash_table_remove]: [done] is the part of the chain it passed. *)
Lemma wp_remove_loop s t chains i st e (Q : Z → hstore → Prop) fuel : ∀ c1 c2,
  is_hash s t chains → chains !! i = Some (c1 ++ c2) →
  tabs s !! t = Some (HashTable (head_or NULL <$> chains) (size_of chains)
    (Z.of_nat (length (concat chains))) (used chains) st) →
  (length c2 < fuel)%nat → e ∉ c1 → (e ∉ c2 → Q 1 s) →
  (∀ c3 c4 s', c2 = c3 ++ e :: c4 → is_hash s' t (<[i := c1 ++ c3 ++ c4]> chains) →
     hkeep s s' → Q 0 s') →
  wp (remove_loop fuel t (Z.of_nat i) e (last_or NULL c1) (head_or NULL c2)) s Q.
Proof.
  induction fuel as [|fuel IH]; intros c1 c2 Hh Hc Ht Hf He HQ1 HQ2; [lia|]. cbn [remove_loop].
  destruct (chain_facts s t chains i _ Hh Hc) as (Hs & Hnd & Hv & _).
  destruct c2 as [|x c2]; simpl in Hf |- *; [apply wp_ret, HQ1; set_solver|].
  apply Forall_app in Hv as [Hv1 [Hvx Hv2]%Forall_cons].
  apply qseg_app in Hs as [Hs1 [Hx Hs2]]. simpl in Hs1.
  rewrite (proj2 (Z.eqb_neq x NULL)) by (unfold valid_ptr, NULL in *; lia).
  destruct (Z.eqb_spec x e) as [->|Hne].
  - specialize (HQ2 [] c2). apply NoDup_middle in Hnd as (Hnd & _ & He2).
    assert (∀ s1, tabs s1 !! t = Some (HashTable (<[i := head_or NULL (c1 ++ c2)]>
        (head_or NULL <$> chains)) (size_of chains) (Z.of_nat (length (concat chains)))
        (used chains) st) → qseg (nexts s1) (c1 ++ c2) NULL →
      (∀ x, x ∉ c1 ++ c2 → nexts s1 !! x = nexts s !! x) → dom (nexts s1) = dom (nexts s) →
      wp (b ← ld_bucket t (Z.of_nat i);
          when (b =? NULL) (add_buckets t (-1));; add_elems t (-1);; mret 0) s1 Q) as Htail.
    { intros s1 ????. eapply (wp_unlinked s s1 t chains i st e c1 c2); eauto. }
    destruct c1 as [|y c1 _] using rev_ind.
    + wp_go. simpl. wp_go. eapply wp_NEXT; [done|].
      eapply wp_st_bucket; [done|simpl; by rewrite list_lookup_fmap, Hc|].
      apply Htail; [apply lookup_insert_eq|done|done|done].
    + rewrite last_or_app. apply Forall_app in Hv1 as [_ [Hvy _]%Forall_cons].
      rewrite (proj2 (Z.eqb_neq y NULL)) by (unfold valid_ptr, NULL in *; lia).
      pose proof Hs1 as [_ [Hy _]]%qseg_app.
      apply NoDup_app in Hnd as (Hnd1 & Hdis & _).
      wp_go. simpl. wp_go. eapply wp_NEXT; [done|]. apply wp_PUT_IN_NEXT; [by eexists|].
      apply Htail; simpl.
      * rewrite Ht. do 2 f_equal. rewrite list_insert_id; [done|].
        rewrite list_lookup_fmap, Hc. simpl. f_equal. rewrite <- !app_assoc, !head_or_app. done.
      * apply qseg_app. split; [by eapply qseg_insert_last|]. eapply qseg_frame; [|exact Hs2].
        intros z Hz. rewrite lookup_insert_ne; [done|]. intros ->. apply (Hdis z); set_solver.
      * intros z Hz. rewrite lookup_insert_ne; [done|]. set_solver.
      * apply dom_insert_in. apply elem_of_dom. by eexists.
  - wp_go. eapply wp_NEXT; [done|].
    replace x with (last_or NULL (c1 ++ [x])) by apply last_or_app.
    apply IH; [done|by rewrite <- app_assoc|done|lia|set_solver|..].
    + intros Hno. apply HQ1. set_solver.
    + intros c3 c4 s' -> Hh' Hk. apply (HQ2 (x :: c3) c4); [done| |done].
      by rewrite <- app_assoc in Hh'.
Qed.

Lemma wp_hash_table_remove s t chains e (Q : Z → hstore → Prop) :
  is_hash s t chains → (e ∉ concat chains → Q 1 s) →
  (∀ i c1 c2 s', chains !! i = Some (c1 ++ e :: c2) →
     is_hash s' t (<[i := c1 ++ c2]> chains) → hkeep s s' → Q 0 s') →
  wp (hash_table_remove t e) s Q.
Proof.
  intros Hh HQ1 HQ2. pose proof (ih_tab _ _ _ Hh) as [st Ht].
  destruct (hash_chain s t chains e Hh) as (i & c & Ei & Hc & Hin).
  destruct (chain_facts s t chains i c Hh Hc) as (_ & _ & _ & Hf).
  unfold hash_table_remove. wp_go. eapply wp_ld_tab; [done|]. wp_go. simpl. rewrite Ei.
  eapply wp_ld_bucket; [done|simpl; by rewrite list_lookup_fmap, Hc|]. wp_go.
  apply (wp_remove_loop s t chains i st e Q _ [] c); try done; [set_solver|..].
  - intros Hno. apply HQ1. by rewrite Hin.
  - intros c3 c4 s' -> Hh' Hk. by eapply HQ2.
Qed.

Lemma wp_hash_table_find s t chains e (Q : Z → hstore → Prop) :
  is_hash s t chains → Q (if decide (e ∈ concat chains) then e else NULL) s →
  wp (hash_table_find t e) s Q.
Proof.
  intros Hh HQ. pose proof (ih_tab _ _ _ Hh) as [st Ht].
  destruct (hash_chain s t chains e Hh) as (i & c & Ei & Hc & Hin).
  destruct (chain_facts s t chains i c Hh Hc) as (Hs & _ & Hv & Hf).
  unfold hash_table_find. wp_go. eapply wp_ld_tab; [done|]. wp_go. simpl. rewrite Ei.
  eapply wp_ld_bucket; [done|simpl; by rewrite list_lookup_fmap, Hc|]. wp_go.
  apply wp_on_chain; [done..|]. wp_go. case_bool_decide; case_decide; tauto.
Qed.

Lemma wp_hash_table_lookup s t chains k compare (Q : Z → hstore → Prop) :
  is_hash s t chains → compare_func = Some compare →
  (∀ e, e ∈ concat chains → compare e k = 0 → Q e s) →
  ((∀ e, e ∈ concat chains → compare e k ≠ 0) → Q NULL s) →
  wp (hash_table_lookup t k) s Q.
Proof.
  intros Hh Hcmp HQ1 HQ2. pose proof (ih_tab _ _ _ Hh) as [st Ht].
  pose proof (key_range k (size_of chains) (proj1 (ih_size _ _ _ Hh))) as Hr.
  set (i := Z.to_nat (hash_func NULL k (size_of chains))).
  destruct (lookup_lt_is_Some_2 chains i) as [c Hc]; [unfold i, size_of in *; lia|].
  destruct (chain_facts s t chains i c Hh Hc) as (Hs & _ & Hv & Hf).
  unfold hash_table_lookup. rewrite Hcmp. wp_go. eapply wp_ld_tab; [done|]. wp_go. simpl.
  replace (hash_func NULL k (size_of chains)) with (Z.of_nat i) by (unfold i; lia).
  eapply wp_ld_bucket; [done|simpl; by rewrite list_lookup_fmap, Hc|]. wp_go.
  apply wp_lookup_loop; [done..| |].
  - intros e He. apply HQ1. by eapply elem_of_chain.
  - intros Hno. apply HQ2. intros e (j & d & Hj & He)%elem_of_concat_lookup E.
    apply (Hno e); [|done].
    pose proof (ih_hash _ _ _ Hh j d e Hj He) as Eh.
    rewrite (compare_hash compare e k _ Hcmp E) in Eh.
    assert (j = i) as -> by (unfold i; lia). congruence.
Qed.

(** ** Iteration *)

(** What an iterator has still to visit, [todo] being the rest of the chain it
    stands on without the element it returned last. *)
Definition itr_at (chains : list (list Z)) (i : iterator) (rest : list Z) : Prop :=
  (i_node i = NULL ∧ -1 ≤ i_bucket i < size_of chains ∧
     rest = concat (drop (Z.to_nat (i_bucket i + 1)) chains)) ∨
  ∃ b c1 x c2, chains !! b = Some (c1 ++ x :: c2) ∧ i_bucket i = Z.of_nat b ∧ i_node i = x ∧
    rest = c2 ++ concat (drop (S b) chains).

Lemma used_bucket_spec (chains : list (list Z)) n : ∀ index,
  Forall (Forall valid_ptr) chains → (index + n = length chains)%nat →
  (used_bucket n (head_or NULL <$> chains) (Z.of_nat index) = size_of chains ∧
     concat (drop index chains) = []) ∨
  ∃ b x c, used_bucket n (head_or NULL <$> chains) (Z.of_nat index) = Z.of_nat b ∧
    chains !! b = Some (x :: c) ∧
    concat (drop index chains) = x :: c ++ concat (drop (S b) chains).
Proof.
  induction n as [|n IH]; intros index Hv Hn; cbn [used_bucket].
  - left. split; [unfold size_of; lia|]. by rewrite drop_ge by lia.
  - destruct (lookup_lt_is_Some_2 chains index) as [c Hc]; [lia|].
    rewrite Nat2Z.id, list_lookup_fmap, Hc. simpl.
    rewrite (drop_S _ _ _ Hc). cbn [concat]. destruct c as [|x c].
    + simpl. replace (Z.of_nat index + 1) with (Z.of_nat (S index)) by lia. apply IH; [done|lia].
    + right. exists index, x, c. pose proof (proj1 (Forall_lookup _ _) Hv _ _ Hc) as Hvc.
      apply Forall_cons in Hvc as [Hx _]. simpl.
      rewrite (proj2 (Z.eqb_neq x NULL)) by (unfold valid_ptr, NULL in *; lia). done.
Qed.

Lemma chains_valid s t chains : is_hash s t chains → Forall (Forall valid_ptr) chains.
Proof.
  intros Hh. apply Forall_forall. intros c Hc. apply Forall_forall. intros x Hx.
  apply list_elem_of_lookup in Hc as [i Hi].
  eapply (proj1 (Forall_forall _ _) (ih_valid _ _ _ Hh)), elem_of_chain; done.
Qed.

(** The structure of the table at [t], whatever the links of its elements. *)
Definition tab_at (s : hstore) (t : Z) (chains : list (list Z)) : Prop :=
  (∃ n u st, tabs s !! t = Some (HashTable (head_or NULL <$> chains) (size_of chains) n u st)) ∧
  0 < size_of chains < 2 ^ 31 ∧ Forall (Forall valid_ptr) chains.

Lemma is_hash_tab_at s t chains : is_hash s t chains → tab_at s t chains.
Proof.
  intros Hh. split_and!; [|apply Hh..|by eapply chains_valid].
  destruct (ih_tab _ _ _ Hh) as [st ->]. eauto.
Qed.

(** The iterator at the end of a chain: on to the next used bucket. *)
Lemma wp_next_bucket s t chains i rest fuel (Q : iterator → hstore → Prop) :
  tab_at s t chains → i_table i = t → i_node i = NULL → -1 ≤ i_bucket i < size_of chains →
  rest = concat (drop (Z.to_nat (i_bucket i + 1)) chains) →
  (∀ i', i_table i' = t → i_node i' = head_or NULL rest →
     (rest ≠ [] → itr_at chains i' (tail rest)) → Q i' s) →
  wp (next_loop (S fuel) i) s Q.
Proof.
  intros ((n & u & st & Ht) & Hz & Hv) Et En Hb -> HQ. cbn [next_loop]. wp_go. rewrite Et.
  eapply wp_ld_tab; [done|]. wp_go. rewrite En, Z.eqb_refl. cbn [table table_size].
  rewrite (uwrap_small 32 (_ + 1)) by lia.
  set (idx := Z.to_nat (i_bucket i + 1)) in *.
  replace (i_bucket i + 1) with (Z.of_nat idx) by (unfold idx; lia).
  destruct (used_bucket_spec chains (length chains - idx) idx Hv)
    as [[Eu Er]|(b & x & c & Eu & Hc & Er)]; [unfold size_of in *; lia| |];
    replace (Z.to_nat (size_of chains - Z.of_nat idx)) with (length chains - idx)%nat
      by (unfold size_of; lia); rewrite Eu; wp_go; cbn [i_node i_bucket i_table].
  - rewrite Z.ltb_irrefl, swrap_small, uwrap_small by (simpl; lia). simpl.
    rewrite Z.ltb_irrefl. simpl. wp_go. rewrite Er in HQ. by apply HQ.
  - pose proof (lookup_lt_Some _ _ _ Hc) as Hlt. unfold size_of in *.
    rewrite (proj2 (Z.ltb_lt (Z.of_nat b) _)) by lia.
    rewrite Nat2Z.id, list_lookup_fmap, Hc. simpl.
    pose proof (proj1 (Forall_lookup _ _) Hv _ _ Hc) as [Hx _]%Forall_cons.
    rewrite (proj2 (Z.eqb_neq x NULL)) by (unfold valid_ptr, NULL in *; lia). simpl. wp_go.
    rewrite Er in HQ. apply HQ; [done|done|]. intros _. right. exists b, [], x, c.
    split_and!; [done| |done|done]. simpl. apply swrap_small; simpl; lia.
Qed.

(** The first call after a rewind. *)
Lemma wp_next_first s t chains i (Q : Z * iterator → hstore → Prop) :
  tab_at s t chains → i_table i = t → i_node i = NULL → -1 ≤ i_bucket i < size_of chains →
  (∀ i', let rest := concat (drop (Z.to_nat (i_bucket i + 1)) chains) in
     i_table i' = t → i_node i' = head_or NULL rest →
     (rest ≠ [] → itr_at chains i' (tail rest)) → Q (head_or NULL rest, i') s) →
  wp (hash_table_next i) s Q.
Proof.
  intros Hh Et En Hb HQ. pose proof Hh as ((n & u & st & Ht) & _).
  unfold hash_table_next. wp_go. rewrite Et. eapply wp_ld_tab; [done|]. wp_go. cbn [table_size].
  eapply wp_next_bucket; [done..|]. intros i' Et' En' Hr. wp_go. rewrite En'. by apply HQ.
Qed.

(** The call with the iterator on element [x], whose link is [n]. *)
Lemma wp_next_step s t chains i b x n (Q : Z * iterator → hstore → Prop) :
  tab_at s t chains → i_table i = t → i_node i = x → x ≠ NULL →
  i_bucket i = Z.of_nat b → (b < length chains)%nat → nexts s !! x = Some n →
  (n ≠ NULL → Q (n, Iterator t (Z.of_nat b) n) s) →
  (n = NULL → ∀ i', let rest := concat (drop (S b) chains) in
     i_table i' = t → i_node i' = head_or NULL rest →
     (rest ≠ [] → itr_at chains i' (tail rest)) → Q (head_or NULL rest, i') s) →
  wp (hash_table_next i) s Q.
Proof.
  intros Hh Et En Hx Eb Hb Hn HQ1 HQ2. pose proof Hh as ((c & u & st & Ht) & Hz & _).
  unfold hash_table_next. wp_go. rewrite Et. eapply wp_ld_tab; [done|]. wp_go. cbn [table_size].
  remember (S (Z.to_nat (size_of chains))) as f eqn:Ef. cbn [next_loop]. subst f.
  wp_go. rewrite Et. eapply wp_ld_tab; [done|]. wp_go. rewrite En, (proj2 (Z.eqb_neq x NULL)) by done.
  wp_go. eapply wp_NEXT; [done|]. wp_go. cbn [i_node i_bucket table_size].
  rewrite Eb, (uwrap_small 32 (Z.of_nat b)) by (unfold size_of in *; lia).
  rewrite (proj2 (Z.ltb_lt (Z.of_nat b) (size_of chains))) by (unfold size_of; lia).
  destruct (Z.eqb_spec n NULL) as [->|Hne]; cbn [andb].
  - eapply wp_next_bucket; try done; simpl; [unfold size_of; lia|].
    replace (Z.to_nat (Z.of_nat b + 1)) with (S b) by lia.
    intros i' Et' En' Hr. wp_go. rewrite En'. by apply HQ2.
  - wp_go. by apply HQ1.
Qed.

(** On a table in order: the first element still to visit, [NULL] when there is
    none. *)
Lemma wp_hash_table_next s t chains i rest (Q : Z * iterator → hstore → Prop) :
  is_hash s t chains → i_table i = t → itr_at chains i rest →
  (∀ i', i_table i' = t → i_node i' = head_or NULL rest →
     (rest ≠ [] → itr_at chains i' (tail rest)) → Q (head_or NULL rest, i') s) →
  wp (hash_table_next i) s Q.
Proof.
  intros Hh Et Hat HQ. pose proof (is_hash_tab_at _ _ _ Hh) as Hta.
  destruct Hat as [(En & Hb & ->)|(b & c1 & x & c2 & Hc & Eb & En & ->)].
  - eapply wp_next_first; [done..|]. by intros i' ? ? ? ?; apply HQ.
  - destruct (chain_facts s t chains b _ Hh Hc) as (Hs & _ & Hv & _).
    apply qseg_app in Hs as [_ [Hx _]]. apply Forall_app in Hv as [_ [Hvx Hv2]%Forall_cons].
    eapply (wp_next_step s t chains i b x _); [done|done|done|unfold valid_ptr, NULL in *; lia|
      done|by apply lookup_lt_Some in Hc|done|..].
    + intros Hne. destruct c2 as [|y c2]; [done|]. apply HQ; [done|done|].
      intros _. right. exists b, (c1 ++ [x]), y, c2. split_and!; [by rewrite <- app_assoc|done..].
    + intros Hne. destruct c2 as [|y c2].
      * intros i' ????. by apply HQ.
      * apply Forall_cons in Hv2 as [Hy _]. simpl in Hne. unfold valid_ptr, NULL in *. lia.
Qed.

(** A client that collects the elements the iterator returns. *)
Fixpoint collect (fuel : nat) (i : iterator) : M hstore (list Z) :=
  match fuel with
  | O => hang
  | S fuel =>
      r ← hash_table_next i;
      if r.1 =? NULL then mret [] else es ← collect fuel r.2; mret (r.1 :: es)
  end.

Lemma wp_collect s t chains fuel : ∀ i rest (Q : list Z → hstore → Prop),
  is_hash s t chains → i_table i = t → itr_at chains i rest → Forall valid_ptr rest →
  (length rest < fuel)%nat → Q rest s → wp (collect fuel i) s Q.
Proof.
  induction fuel as [|fuel IH]; intros i rest Q Hh Et Hat Hv Hf HQ; [lia|]. cbn [collect].
  wp_go. eapply wp_hash_table_next; [done..|]. intros i' Et' _ Hat'. simpl.
  destruct rest as [|x rest]; simpl in *; [by wp_go|].
  apply Forall_cons in Hv as [Hx Hv].
  rewrite (proj2 (Z.eqb_neq x NULL)) by (unfold valid_ptr, NULL in *; lia).
  wp_go. eapply (IH i' rest); [done|done|by apply Hat'|done|lia|]. by wp_go.
Qed.
End ops_proofs.

(** ** Resizing *)

Section resize.
Context `{HashLaws}.

Lemma fmap_replicate_nil n : head_or NULL <$> replicate n [] = replicate n NULL.
Proof. by rewrite fmap_replicate. Qed.

Lemma concat_replicate_nil n : concat (replicate n ([] : list Z)) = [].
Proof. by induction n. Qed.

Lemma used_replicate_nil n : used (replicate n []) = 0.
Proof. unfold used. induction n; [done|]. cbn [replicate]. by rewrite filter_cons_False by auto. Qed.

Lemma is_hash_empty s t n st :
  tabs s !! t = Some (HashTable (replicate n NULL) (Z.of_nat n) 0 0 st) →
  0 < Z.of_nat n < 2 ^ 31 → is_hash s t (replicate n []).
Proof.
  intros Ht Hn. split.
  - exists st. rewrite fmap_replicate_nil, concat_replicate_nil, used_replicate_nil.
    unfold size_of. by rewrite length_replicate.
  - unfold size_of. by rewrite length_replicate.
  - apply Forall_replicate. done.
  - intros i c e [-> _]%lookup_replicate_1 He. set_solver.
  - rewrite concat_replicate_nil. constructor.
  - rewrite concat_replicate_nil. constructor.
Qed.

(** An insertion, exactly, into a bucket whose index and head are known. *)
Lemma insert_run s t h i e v :
  tabs s !! t = Some h → hash_func e NULL (table_size h) = Z.of_nat i →
  table h !! i = Some v → is_Some (nexts s !! e) →
  hash_table_insert t e s = Ok (0, HStore (<[e := v]> (nexts s))
    (<[t := HashTable (<[i := e]> (table h)) (table_size h) (u32 (num_elems h + 1))
      (if v =? NULL then u32 (num_buckets h + 1) else num_buckets h) (static h)]> (tabs s))).
Proof.
  intros Ht Hi Hv He.
  match goal with |- _ = Ok (0, ?x) => set (s1 := x) end.
  destruct (wp_run (hash_table_insert t e) s 0 (λ s', s' = s1)) as (? & -> & ->); [|done].
  unfold hash_table_insert. wp_go. eapply wp_ld_tab; [done|]. wp_go. rewrite Hi.
  eapply wp_ld_bucket; [done..|]. wp_go. apply wp_PUT_IN_NEXT; [done|]. wp_go.
  apply wp_when; intros E; [eapply wp_st_tab; [done|]|]; wp_go;
    (eapply wp_st_bucket; [simpl; rewrite ?lookup_insert_eq; done|by eexists|]); wp_go;
    (eapply wp_st_tab; [apply lookup_insert_eq|]); wp_go; (split; [done|]); unfold s1; simpl;
    by rewrite !insert_insert_eq, E.
Qed.

Lemma bind_hang {S A B} (m : M S A) (f : A → M S B) s a s' :
  m s = Ok (a, s') → f a s' = Hang → (m ≫= f) s = Hang.
Proof. intros Hm Hf. unfold mbind, M_bind. by rewrite Hm. Qed.

(** The iterator stands on [x], which the last insertion put at the head of bucket
    [h] of the new table, in front of [y]. *)
Definition ping_pong (s : hstore) (t tmp : Z) (chains : list (list Z)) (b h : nat) (x y : Z) : Prop :=
  tab_at s t chains ∧ (b < length chains)%nat ∧ x ≠ NULL ∧ y ≠ NULL ∧
  nexts s !! x = Some y ∧ is_Some (nexts s !! y) ∧
  ∃ hd, tabs s !! tmp = Some hd ∧ table hd !! h = Some x ∧
    hash_func x NULL (table_size hd) = Z.of_nat h ∧ hash_func y NULL (table_size hd) = Z.of_nat h.

(** From there the loop inserts the two elements in turn for ever. *)
Lemma ping_pong_hangs t tmp chains b h fuel : ∀ s x y,
  t ≠ tmp → ping_pong s t tmp chains b h x y →
  resize_loop fuel (Iterator t (Z.of_nat b) x) tmp s = Hang.
Proof.
  unfold resize_loop. induction fuel as [|fuel IH]; [done|]. intros s x y Hne
    (Hta & Hb & Hx & Hy & Hxy & [n Hyn] & hd & Ht & Hh & Ex & Ey). cbn [foreach_loop].
  assert (hash_table_next (Iterator t (Z.of_nat b) x) s = Ok ((y, Iterator t (Z.of_nat b) y), s)) as E.
  { destruct (wp_run (hash_table_next (Iterator t (Z.of_nat b) x)) s (y, Iterator t (Z.of_nat b) y)
      (λ s', s' = s)) as (? & -> & ->); [|done].
    eapply (wp_next_step s t chains _ b x y); try done. }
  eapply bind_hang; [exact E|]. simpl. rewrite (proj2 (Z.eqb_neq y NULL)) by done.
  eapply bind_hang.
  { unfold mbind, M_bind. erewrite insert_run; [done|exact Ht|exact Ey|exact Hh|by eexists]. }
  apply (IH _ y x); [done|]. destruct Hta as [Htab Hta].
  split_and!; simpl; [split; [|exact Hta]| |done|done|by rewrite lookup_insert_eq| |].
  - destruct Htab as (n' & u & st & Htab). exists n', u, st. simpl. by rewrite lookup_insert_ne.
  - done.
  - rewrite lookup_insert. case_decide; eauto.
  - eexists. split; [by rewrite lookup_insert_eq|]. simpl. split_and!; [|done|done].
    apply list_lookup_insert_eq. by apply lookup_lt_Some in Hh.
Qed.

(** The table is only read through its structure. *)
Lemma is_hash_move s s' t t' chains :
  is_hash s t chains → nexts s' = nexts s → tabs s' !! t' = tabs s !! t → is_hash s' t' chains.
Proof.
  intros [Ht Hz Hs Hh Hn Hv] E1 E2. split; try done; [by rewrite E2|by rewrite E1].
Qed.

(** The state in which the elements begin to move. *)
Definition resize_start (s : hstore) (tmp new_size : Z) : hstore :=
  HStore (nexts s) (<[tmp := HashTable (replicate (Z.to_nat new_size) NULL) new_size 0 0 false]> (tabs s)).

Lemma resize_prefix s t tmp arr new_size h fuel :
  tabs s !! t = Some h → static h = false → 0 < new_size → table_size h ≠ new_size → arr ≠ NULL →
  hash_table_resize fuel t tmp arr new_size s =
  (resize_loop fuel (Iterator t (-1) NULL) tmp;;
   h' ← ld_tab tmp; new_tab t h';; mret 0) (resize_start s tmp new_size).
Proof.
  intros Ht Hst Hn Hne Ha. unfold hash_table_resize. unfold mbind at 1, M_bind at 1.
  unfold ld_tab at 1, load. rewrite Ht, Hst.
  rewrite (proj2 (Z.eqb_neq new_size 0)), (proj2 (Z.eqb_neq _ new_size)),
    (proj2 (Z.eqb_neq arr NULL)) by (done || lia). done.
Qed.

(** The first element has moved: its link is [NULL], the iterator stands on it. *)
Lemma resize_first_step s t tmp new_size chains x rest :
  is_hash s t chains → t ≠ tmp → 0 < new_size < 2 ^ 31 → concat chains = x :: rest →
  x ∈ dom (nexts s) → ∃ i b c1 c2 h s1,
    i_table i = t ∧ i_node i = x ∧ i_bucket i = Z.of_nat b ∧ chains !! b = Some (c1 ++ x :: c2) ∧
    rest = c2 ++ concat (drop (S b) chains) ∧ x ≠ NULL ∧
    hash_func x NULL new_size = Z.of_nat h ∧
    nexts s1 = <[x := NULL]> (nexts s) ∧ tab_at s1 t chains ∧
    is_hash s1 tmp (<[h := [x]]> (replicate (Z.to_nat new_size) [])) ∧
    ∀ fuel, resize_loop (S fuel) (Iterator t (-1) NULL) tmp (resize_start s tmp new_size) =
      resize_loop fuel i tmp s1.
Proof.
  intros Hh Hne Hn Econ Hx. set (s0 := resize_start s tmp new_size).
  pose proof (is_hash_tab_at _ _ _ Hh) as (Htab & Hz & Hv).
  assert (tab_at s0 t chains) as Hta.
  { split; [|done]. destruct Htab as (n & u & st & Ht). exists n, u, st.
    unfold s0. simpl. by rewrite lookup_insert_ne. }
  assert (is_hash s0 tmp (replicate (Z.to_nat new_size) [])) as Hemp.
  { eapply (is_hash_empty _ _ _ false); unfold s0; simpl; [|lia].
    rewrite lookup_insert_eq. by rewrite Z2Nat.id by lia. }
  assert (wp (hash_table_next (Iterator t (-1) NULL)) s0 (λ r s', s' = s0 ∧ r.1 = x ∧
    i_table r.2 = t ∧ i_node r.2 = x ∧ itr_at chains r.2 rest)) as ([x' i] & s' & Enext & -> & Ex & Et & En & Hat)%wp_ok.
  { eapply (wp_next_first s0 t chains); try done; [simpl; lia|].
    intros i'. cbv zeta. change (drop _ chains) with chains. rewrite Econ.
    intros Et En Hat. simpl. split_and!; auto. }
  assert (valid_ptr x) as Hvx.
  { pose proof (ih_valid _ _ _ Hh) as Hval. rewrite Econ in Hval. by apply Forall_cons in Hval as [? _]. }
  assert (x ≠ NULL) as Hx0 by (unfold valid_ptr, NULL in *; lia). simpl in Ex, Et, En. subst x'.
  destruct Hat as [(En' & _)|(b & c1 & x' & c2 & Hc & Eb & En' & Er)];
    [exfalso; simpl in En'; congruence|]. simpl in Eb, En'. rewrite En in En'. subst x'.
  destruct (hash_chain s0 tmp _ x Hemp) as (h & c & Eh & Hch & _).
  apply lookup_replicate_1 in Hch as Hch'. destruct Hch' as [-> Hlt].
  assert (size_of (replicate (Z.to_nat new_size) []) = new_size) as Esz
    by (unfold size_of; rewrite length_replicate; lia). rewrite Esz in Eh.
  set (h0 := HashTable (replicate (Z.to_nat new_size) NULL) new_size 0 0 false).
  pose proof (insert_run s0 tmp h0 h x NULL (lookup_insert_eq _ _ _) Eh
    (lookup_replicate_2 _ _ _ Hlt) (proj1 (elem_of_dom _ _) Hx)) as Eins.
  destruct (wp_run (hash_table_insert tmp x) s0 0 (λ s', ∃ i, is_hash s' tmp (<[i := [x]]> (replicate (Z.to_nat new_size) [])) ∧ hash_func x NULL new_size = Z.of_nat i))
    as (s1 & Es1 & h' & Hh1 & Eh').
  { eapply wp_hash_table_insert; [exact Hemp|rewrite concat_replicate_nil; set_solver|by split|].
    intros j d s' Hj Hs' _. split; [done|]. apply lookup_replicate_1 in Hj as [-> Hj].
    exists j. split; [done|].
    rewrite <- Esz. rewrite <- (size_of_insert _ j [x]). eapply (ih_hash _ _ _ Hs').
    - apply list_lookup_insert_eq. by rewrite length_replicate.
    - by left. }
  assert (h' = h) as -> by lia. rewrite Eins in Es1. injection Es1 as Es1.
  exists i, b, c1, c2, h, s1. split_and!; try done; subst s1; [done| |].
  - split; [|done]. destruct Htab as (n & u & st & Ht). exists n, u, st. simpl.
    by rewrite !lookup_insert_ne.
  - intros fuel. unfold resize_loop. cbn [foreach_loop]. unfold mbind, M_bind. fold s0.
    rewrite Enext. simpl. rewrite (proj2 (Z.eqb_neq x NULL)) by done. by rewrite Eins.
Qed.
End resize.
