(* ===== verification/HashTableSpec.v ===== *)
(** * What hash tables do

    The table refines a finite set of elements; lookups by key; iteration visits
    every element once; what resizing a table in use does. *)

From S2P Require Import Prelude Links HashTable.
From stdpp Require Import gmap list.
#[local] Open Scope Z_scope.

(** ** Abstract specification: a finite set *)

Inductive hop := HInsert (e : Z) | HInsertSafe (e : Z) | HRemove (e : Z) | HFind (e : Z) | HCount.

Definition hop_run `{HashClient} (t : Z) (op : hop) : M hstore Z :=
  match op with
  | HInsert e => hash_table_insert t e
  | HInsertSafe e => hash_table_insert_safe t e
  | HRemove e => hash_table_remove t e
  | HFind e => hash_table_find t e
  | HCount => hash_table_count t
  end.

Definition hop_elems (op : hop) : list Z :=
  match op with HInsert e | HInsertSafe e => [e] | _ => [] end.

(** [None]: [hash_table_insert] of an element that is already in the table. *)
Definition hop_spec (op : hop) (X : gset Z) : option (Z * gset Z) :=
  match op with
  | HInsert e => if decide (e ∈ X) then None else Some (0, {[e]} ∪ X)
  | HInsertSafe e => if decide (e ∈ X) then Some (1, X) else Some (0, {[e]} ∪ X)
  | HRemove e => if decide (e ∈ X) then Some (0, X ∖ {[e]}) else Some (1, X)
  | HFind e => Some (if decide (e ∈ X) then e else NULL, X)
  | HCount => Some (Z.of_nat (size X), X)
  end.

(** The elements of a table. *)
Definition elems_of (chains : list (list Z)) : gset Z := list_to_set (concat chains).

Definition is_hset `{HashClient} (t : Z) (s : hstore) (X : gset Z) : Prop :=
  ∃ chains, is_hash s t chains ∧ elems_of chains = X.

Lemma elem_of_elems chains e : e ∈ elems_of chains ↔ e ∈ concat chains.
Proof. apply elem_of_list_to_set. Qed.

Lemma elems_of_insert chains i c c' :
  chains !! i = Some c →
  ∃ l1 l2, elems_of chains = list_to_set c ∪ list_to_set (concat (l1 ++ l2)) ∧
    elems_of (<[i := c']> chains) = list_to_set c' ∪ list_to_set (concat (l1 ++ l2)) ∧
    chains = l1 ++ c :: l2.
Proof.
  intros (l1 & l2 & E & _ & Hins)%chains_split. exists l1, l2. unfold elems_of.
  rewrite Hins, E. split_and!; [| |done].
  all: rewrite (list_to_set_perm_L _ _ (concat_middle _ _ _)); apply list_to_set_app_L.
Qed.

Lemma elems_of_single n h x : (h < n)%nat → elems_of (<[h := [x]]> (replicate n [])) = {[x]}.
Proof.
  intros Hh. destruct (elems_of_insert (replicate n []) h [] [x]) as (l1 & l2 & E1 & -> & _).
  { by apply lookup_replicate_2. }
  unfold elems_of in E1. rewrite concat_replicate_nil in E1. simpl in *. set_solver.
Qed.

Section proofs.
Context `{HashLaws}.

Lemma elems_add s t chains i c e :
  is_hash s t chains → chains !! i = Some c → elems_of (<[i := e :: c]> chains) = {[e]} ∪ elems_of chains.
Proof.
  intros Hh Hc. destruct (elems_of_insert chains i c (e :: c) Hc) as (l1 & l2 & -> & -> & _).
  by rewrite list_to_set_cons, (assoc_L (∪)).
Qed.

Lemma elems_remove s t chains i c1 e c2 :
  is_hash s t chains → chains !! i = Some (c1 ++ e :: c2) →
  elems_of (<[i := c1 ++ c2]> chains) = elems_of chains ∖ {[e]}.
Proof.
  intros Hh Hc. destruct (elems_of_insert chains i _ (c1 ++ c2) Hc) as (l1 & l2 & -> & -> & E).
  pose proof (ih_nodup _ _ _ Hh) as Hn. rewrite E, concat_middle in Hn.
  apply NoDup_app in Hn as (Hn & Hdis & _). apply NoDup_middle in Hn as (_ & ? & ?).
  assert (e ∉ concat (l1 ++ l2)) by (apply Hdis; set_solver).
  rewrite !list_to_set_app_L, list_to_set_cons. set_solver.
Qed.

Lemma wp_hop_run s t op X r X' (Q : Z → hstore → Prop) :
  is_hset t s X → Forall (helem_ok s) (hop_elems op) → hop_spec op X = Some (r, X') →
  (∀ s', is_hset t s' X' → hkeep s s' → Q r s') → wp (hop_run t op) s Q.
Proof.
  intros (chains & Hh & <-) He Hspec HQ.
  destruct op as [e|e|e|e|]; simpl in *; try (rewrite Forall_singleton in He).
  - case_decide as Hin; simplify_eq. rewrite elem_of_elems in Hin.
    eapply (wp_hash_table_insert _ _ chains); [done|done|done|]. intros i c s' Hc Hh' Hk. apply HQ; [|done].
    eexists. split; [done|]. by eapply elems_add.
  - eapply (wp_hash_table_insert_safe _ _ chains); [done|done| |].
    + intros Hin%elem_of_elems. rewrite decide_True in Hspec by done. simplify_eq.
      apply HQ; [by eexists|done].
    + intros Hin i c s' Hc Hh' Hk. rewrite <- elem_of_elems in Hin.
      rewrite decide_False in Hspec by done. simplify_eq. apply HQ; [|done].
      eexists. split; [done|]. by eapply elems_add.
  - eapply wp_hash_table_remove; [done| |].
    + intros Hin. rewrite <- elem_of_elems in Hin. rewrite decide_False in Hspec by done.
      simplify_eq. apply HQ; [by eexists|done].
    + intros i c1 c2 s' Hc Hh' Hk. rewrite decide_True in Hspec.
      2: { apply elem_of_elems. eapply elem_of_chain; [done|]. set_solver. }
      simplify_eq. apply HQ; [|done]. eexists. split; [done|]. by eapply elems_remove.
  - simplify_eq. eapply wp_hash_table_find; [done|].
    rewrite (decide_ext _ _ _ _ (elem_of_elems chains e)) in HQ. apply HQ; [by eexists|done].
  - simplify_eq. destruct (ih_tab _ _ _ Hh) as [st Ht]. unfold hash_table_count. wp_go.
    eapply wp_ld_tab; [done|]. wp_go. simpl. unfold elems_of in HQ.
    rewrite size_list_to_set in HQ by apply Hh. apply HQ; [by eexists|done].
Qed.

Lemma hop_simulates t :
  simulates (hop_run t) hop_spec (is_hset t) (λ s op, Forall (helem_ok s) (hop_elems op)) hkeep.
Proof. intros s X op r X' Hx He Hspec. by eapply wp_hop_run. Qed.

Lemma hop_keep s s' op :
  hkeep s s' → Forall (helem_ok s) (hop_elems op) → Forall (helem_ok s') (hop_elems op).
Proof.
  intros Hd H'. eapply Forall_impl; [done|]. intros e [??]. split; [done|]. by rewrite Hd.
Qed.

(** C30: a hash table refines a finite set: every sequence of insertions of elements
    not yet in the table, safe insertions, removals, searches and counts runs to
    completion with the results of the set operations, and ends with a well formed
    table that holds exactly the elements of the set, each once in the bucket it
    hashes to, with the element and bucket counters right. *)
Theorem hash_refines ops s t X rs X' :
  is_hset t s X → Forall (λ op, Forall (helem_ok s) (hop_elems op)) ops →
  specs hop_spec ops X = Some (rs, X') →
  ∃ s', runs (hop_run t) ops s = Ok (rs, s') ∧ is_hset t s' X'.
Proof.
  intros Hx He Hspec.
  destruct (simulates_runs _ _ _ _ _ hop_keep (hop_simulates t) ops s X rs X')
    as (s' & Hr & Hx' & _); eauto.
Qed.

(** [hash_table_lookup] returns an element the comparison accepts for the key
    whenever the table holds one, [NULL] otherwise, and changes nothing; without a
    comparison function it returns [NULL]. *)
Theorem hash_lookup_correct s t chains key :
  is_hash s t chains →
  match compare_func with
  | None => hash_table_lookup t key s = Ok (NULL, s)
  | Some compare => ∃ r, hash_table_lookup t key s = Ok (r, s) ∧
      (r ≠ NULL → r ∈ elems_of chains ∧ compare r key = 0) ∧
      (r = NULL ↔ ∀ e, e ∈ elems_of chains → compare e key ≠ 0)
  end.
Proof.
  intros Hh. destruct compare_func as [compare|] eqn:E.
  - cut (wp (hash_table_lookup t key) s (λ r s', s' = s ∧
      (r ≠ NULL → r ∈ elems_of chains ∧ compare r key = 0) ∧
      (r = NULL ↔ ∀ e, e ∈ elems_of chains → compare e key ≠ 0))).
    { intros (r & s' & Hr & -> & H')%wp_ok. by exists r. }
    eapply wp_hash_table_lookup; [done..| |].
    + intros e He Hk. rewrite <- elem_of_elems in He. split_and!; [done..|]. split.
      * intros ->. apply elem_of_elems in He.
        pose proof (proj1 (Forall_forall _ _) (ih_valid _ _ _ Hh) _ He) as Hv.
        unfold valid_ptr, NULL in Hv. lia.
      * intros Hno. by destruct (Hno e He).
    + intros Hno. split_and!; [done|done|]. split; [|done]. intros _ e He%elem_of_elems. by apply Hno.
  - unfold hash_table_lookup. by rewrite E.
Qed.

(** An iteration from [hash_table_rewind] to the first [NULL] of
    [hash_table_next] returns every element of the table exactly once, and changes
    nothing, whatever the bucket sizes. *)
Theorem hash_iterates s t chains i :
  is_hash s t chains → i_table i = t →
  ∃ es, collect (hfuel s) (hash_table_rewind i) s = Ok (es, s) ∧ NoDup es ∧
    list_to_set es = elems_of chains.
Proof.
  intros Hh Et. cut (wp (collect (hfuel s) (hash_table_rewind i)) s (λ es s', s' = s ∧ NoDup es ∧
    list_to_set es = elems_of chains)).
  { intros (es & s' & Hr & -> & H')%wp_ok. by exists es. }
  pose proof (ih_size _ _ _ Hh) as Hz.
  eapply (wp_collect s t chains _ _ (concat chains)); [done|done| |apply Hh| |].
  - left. simpl. split_and!; [done|lia|lia|done].
  - unfold hfuel. assert (list_to_set (concat chains) ⊆ dom (nexts s)) as Hsub.
    { intros x (i' & c & Hc & Hx)%elem_of_list_to_set%elem_of_concat_lookup.
      destruct (chain_facts s t chains i' c Hh Hc) as (Hs & _).
      apply elem_of_dom. by eapply qseg_dom. }
    apply subseteq_size in Hsub. rewrite size_list_to_set, size_dom in Hsub by apply Hh. lia.
  - split_and!; [done|apply Hh|done].
Qed.

(** ** Resizing a table in use *)

(** An element is on one chain, at one place. *)
Lemma same_chain s t chains b b' c1 c2 c x :
  is_hash s t chains → chains !! b = Some (c1 ++ x :: c2) → chains !! b' = Some (x :: c) →
  b' = b ∧ c1 = [] ∧ c2 = c.
Proof.
  intros Hh Hb Hb'.
  assert (b' = b) as ->.
  { pose proof (ih_hash _ _ _ Hh b _ x Hb ltac:(set_solver)).
    pose proof (ih_hash _ _ _ Hh b' _ x Hb' ltac:(set_solver)). lia. }
  destruct (chain_facts s t chains b _ Hh Hb) as (_ & (_ & Hx & _)%NoDup_middle & _).
  rewrite Hb in Hb'. destruct c1 as [|z c1]; simplify_eq/=; [done|]. set_solver.
Qed.

(** The next call with the iterator on the element that moved last, its link
    being [NULL]. *)
Lemma next_after_move s t chains i b x :
  tab_at s t chains → i_table i = t → i_node i = x → i_bucket i = Z.of_nat b →
  (b < length chains)%nat → x ≠ NULL → nexts s !! x = Some NULL →
  let rest := concat (drop (S b) chains) in
  ∃ i', hash_table_next i s = Ok ((head_or NULL rest, i'), s) ∧ i_table i' = t ∧
    i_node i' = head_or NULL rest ∧ (rest ≠ [] → itr_at chains i' (tail rest)).
Proof.
  intros Hta Et En Eb Hb Hx Hn rest.
  cut (wp (hash_table_next i) s (λ r s', s' = s ∧ r.1 = head_or NULL rest ∧ i_table r.2 = t ∧
    i_node r.2 = head_or NULL rest ∧ (rest ≠ [] → itr_at chains r.2 (tail rest)))).
  { intros ([y i'] & s' & Hr & -> & Hy & H')%wp_ok. simpl in Hy. subst y. by exists i'. }
  eapply (wp_next_step s t chains i b x NULL); done.
Qed.

Lemma hang_bind {S A B} (m : M S A) (f : A → M S B) s : m s = Hang → (m ≫= f) s = Hang.
Proof. intros Hm. unfold mbind, M_bind. by rewrite Hm. Qed.

(** The second element falls into the bucket the first one is in. *)
Lemma move_hangs s t tmp n chains i h x y rest i' fuel :
  tab_at s t chains → t ≠ tmp → is_hash s tmp (<[h := [x]]> (replicate (Z.to_nat n) [])) →
  hash_func x NULL n = Z.of_nat h → hash_func x NULL n = hash_func y NULL n → 0 < n →
  valid_ptr y → is_Some (nexts s !! y) → x ≠ NULL → x ≠ y → is_Some (nexts s !! x) →
  hash_table_next i s = Ok ((y, i'), s) → i_table i' = t → i_node i' = y → itr_at chains i' rest →
  resize_loop fuel i tmp s = Hang.
Proof.
  intros Hta Hne Hh1 Ehx Exy Hn Hvy Hy Hx0 Hxy Hx Enext Et' En' Hat.
  assert (y ≠ NULL) as Hy0 by (unfold valid_ptr, NULL in *; lia).
  destruct Hat as [(E & _)|(b2 & c1 & y' & c2 & Hc2 & Eb2 & E & _)]; [congruence|].
  rewrite En' in E. subst y'. pose proof (hash_range x n Hn).
  assert (size_of (<[h := [x]]> (replicate (Z.to_nat n) [])) = n) as Esz
    by (unfold size_of; rewrite length_insert, length_replicate; lia).
  destruct (ih_tab _ _ _ Hh1) as [st1 Ht1]. rewrite Esz in Ht1.
  unfold resize_loop. destruct fuel as [|fuel]; [done|]. cbn [foreach_loop].
  eapply bind_hang; [exact Enext|]. simpl. rewrite (proj2 (Z.eqb_neq y NULL)) by done.
  assert ((head_or NULL <$> <[h := [x]]> (replicate (Z.to_nat n) [])) !! h = Some x) as Eh.
  { rewrite list_lookup_fmap, list_lookup_insert_eq by (rewrite length_replicate; lia). done. }
  eapply bind_hang.
  { unfold mbind, M_bind. erewrite insert_run; [done|exact Ht1| |exact Eh|done]. simpl. congruence. }
  assert (i' = Iterator t (Z.of_nat b2) y) as -> by (destruct i'; simpl in *; congruence).
  eapply (ping_pong_hangs t tmp chains b2 h fuel _ y x); [done|].
  destruct Hta as [(m & u & st & Ht) Hta].
  split_and!; simpl.
  - split; [|done]. exists m, u, st. simpl. by rewrite lookup_insert_ne.
  - by apply lookup_lt_Some in Hc2.
  - done.
  - done.
  - by rewrite lookup_insert_eq.
  - by rewrite lookup_insert_ne.
  - eexists. split; [by rewrite lookup_insert_eq|]. simpl. split_and!; [|congruence|done].
    apply list_lookup_insert_eq. rewrite length_fmap, length_insert, length_replicate. lia.
Qed.

(** What [hash_table_resize] does to a table in use: the iterator that walks
    the old chains follows links [hash_table_insert] has already overwritten. When all
    elements are in one bucket, only the first survives: the resized table holds that
    element and no other. When the first two elements are alone in their buckets and
    fall into one bucket of the new table, the call never returns, whatever the fuel. *)
Theorem hash_table_resize_moves_one s t tmp arr n h chains x rest :
  is_hash s t chains → tabs s !! t = Some h → static h = false → t ≠ tmp →
  0 < n < 2 ^ 31 → table_size h ≠ n → arr ≠ NULL → concat chains = x :: rest →
  ((∃ b, chains !! b = Some (x :: rest)) → ∃ s', is_hset t s' {[x]} ∧
     ∀ fuel, (2 ≤ fuel)%nat → hash_table_resize fuel t tmp arr n s = Ok (0, s')) ∧
  (∀ y rest', rest = y :: rest' → (∃ b, chains !! b = Some [x]) →
     hash_func x NULL n = hash_func y NULL n →
     ∀ fuel, hash_table_resize fuel t tmp arr n s = Hang).
Proof.
  intros Hh Ht Hst Hne Hn Hsz Ha Econ.
  assert (Forall (λ e, is_Some (nexts s !! e)) (concat chains)) as Hdom.
  { apply Forall_forall. intros e (j & c & Hc & He)%elem_of_concat_lookup.
    destruct (chain_facts s t chains j c Hh Hc) as (Hs & _). by eapply qseg_dom. }
  assert (x ∈ dom (nexts s)) as Hx.
  { rewrite Econ in Hdom. apply elem_of_dom. by apply Forall_cons in Hdom as [? _]. }
  destruct (resize_first_step s t tmp n chains x rest Hh Hne Hn Econ Hx)
    as (i & b & c1 & c2 & hx & s1 & Et & En & Eb & Hc & Er & Hx0 & Ehx & Es1 & Hta & Hh1 & Hstep).
  pose proof (lookup_lt_Some _ _ _ Hc) as Hlt.
  assert (nexts s1 !! x = Some NULL) as Hx1 by (rewrite Es1; apply lookup_insert_eq).
  destruct (next_after_move s1 t chains i b x Hta Et En Eb Hlt Hx0 Hx1)
    as (i' & Enext & Et' & En' & Hat).
  assert (∀ fuel, hash_table_resize fuel t tmp arr n s =
    (resize_loop fuel (Iterator t (-1) NULL) tmp;; h' ← ld_tab tmp; new_tab t h';; mret 0)
      (resize_start s tmp n)) as Hpre.
  { intros fuel. eapply resize_prefix; done || lia. }
  split.
  - intros [b' Hb']. destruct (same_chain s t chains b b' c1 c2 rest x Hh Hc Hb') as (-> & -> & ->).
    assert (concat (drop (S b) chains) = []) as Erest.
    { apply (f_equal length) in Er. rewrite length_app in Er.
      apply nil_length_inv. lia. }
    rewrite Erest in Enext. simpl in Enext. destruct (ih_tab _ _ _ Hh1) as [st1 Ht1].
    eexists (HStore (nexts s1) (<[t := _]> (tabs s1))). split.
    + eexists. split; [eapply is_hash_move; [exact Hh1|done|]|].
      * simpl. rewrite lookup_insert_eq. by symmetry.
      * apply elems_of_single. pose proof (hash_range x n). lia.
    + intros [|[|fuel]] Hf; [lia..|]. rewrite Hpre. unfold mbind at 1, M_bind at 1.
      rewrite Hstep. unfold resize_loop. cbn [foreach_loop]. unfold mbind, M_bind.
      rewrite Enext. simpl. unfold ld_tab, load. by rewrite Ht1.
  - intros y rest' -> [b' Hb'] Ehash fuel. rewrite Hpre.
    destruct (same_chain s t chains b b' c1 c2 [] x Hh Hc Hb') as (-> & -> & ->).
    simpl in Er. rewrite <- Er in Enext, En', Hat. specialize (Hat ltac:(done)).
    apply hang_bind. destruct fuel as [|fuel]; [done|]. rewrite Hstep.
    rewrite Econ in Hdom. apply Forall_cons in Hdom as [_ [Hy _]%Forall_cons].
    pose proof (ih_valid _ _ _ Hh) as Hv. rewrite Econ in Hv.
    apply Forall_cons in Hv as [_ [Hvy _]%Forall_cons].
    pose proof (ih_nodup _ _ _ Hh) as Hnd. rewrite Econ in Hnd.
    apply NoDup_cons in Hnd as [Hxy _].
    eapply (move_hangs s1 t tmp n chains i hx x y rest' i'); try done.
    + lia.
    + rewrite Es1. rewrite lookup_insert. by case_decide.
    + intros ->. set_solver.
Qed.
End proofs.

(** ** A client

    Elements and keys hash to their address modulo the size; an element matches the
    key of the same value. *)
Definition example_client : HashClient := {|
  hash_func e k n := (if k =? NULL then e else k) mod n;
  compare_func := Some (λ e k, e - k) |}.

Lemma example_laws : @HashLaws example_client.
Proof.
  split; unfold hash_func; simpl.
  - intros. by apply Z.mod_pos_bound.
  - intros. by apply Z.mod_pos_bound.
  - intros compare e k n [= <-] E. assert (e = k) as -> by lia. unfold NULL.
    by destruct (Z.eqb_spec k 0) as [->|].
Qed.

(** A table of three buckets at 1 with 12, 9 in bucket 0 and 7 in bucket 1; 8 and
    10 are free elements. *)
Definition example_chains : list (list Z) := [[12; 9]; [7]; []].

Definition example_htab : hstore := HStore
  (list_to_map [(12, 9); (9, 0); (7, 0); (8, 5); (10, 0)])
  (list_to_map [(1, HashTable [12; 7; 0] 3 3 2 false)]).

Lemma example_is_hash : @is_hash example_client example_htab 1 example_chains.
Proof.
  split.
  - exists false. reflexivity.
  - split; reflexivity.
  - repeat constructor.
  - intros [|[|[|i]]] c e Hc He; simpl in Hc; simplify_eq;
      repeat (apply elem_of_cons in He as [->|He]; [reflexivity|]); by apply elem_of_nil in He.
  - by_decide.
  - by_decide.
Qed.

Lemma hash_refines_witness :
  ∃ s', runs (@hop_run example_client 1) [HFind 9; HInsert 10; HInsertSafe 12; HRemove 12; HRemove 8;
      HInsertSafe 8; HCount; HFind 12] example_htab =
    Ok ([9; 0; 1; 0; 1; 0; 4; 0], s') ∧
    @is_hset example_client 1 s' {[8; 10; 7; 9]}.
Proof.
  apply (@hash_refines example_client example_laws _ example_htab 1 {[12; 9; 7]}).
  - exists example_chains. split; [apply example_is_hash|by_decide].
  - by_decide.
  - vm_compute. reflexivity.
Defined.

Lemma hash_lookup_correct_witness :
  ∃ r, @hash_table_lookup example_client 1 9 example_htab = Ok (r, example_htab) ∧
    (r ≠ NULL → r ∈ elems_of example_chains ∧ r - 9 = 0) ∧
    (r = NULL ↔ ∀ e, e ∈ elems_of example_chains → e - 9 ≠ 0).
Proof.
  exact (@hash_lookup_correct example_client example_laws example_htab 1 example_chains 9
    example_is_hash).
Defined.

Lemma hash_iterates_witness :
  ∃ es, collect (hfuel example_htab) (hash_table_rewind (Iterator 1 0 0)) example_htab =
    Ok (es, example_htab) ∧ NoDup es ∧ list_to_set es = elems_of example_chains.
Proof.
  exact (@hash_iterates example_client example_htab 1 example_chains
    (Iterator 1 0 0) example_is_hash eq_refl).
Defined.

(** One bucket in use with two elements; two buckets in use with one each. *)
Definition example_one : hstore := HStore
  (list_to_map [(12, 9); (9, 0)]) (list_to_map [(1, HashTable [12; 0; 0] 3 2 1 false)]).

Definition example_two : hstore := HStore
  (list_to_map [(12, 0); (10, 0)]) (list_to_map [(1, HashTable [12; 10; 0] 3 2 2 false)]).

Lemma example_one_is : @is_hash example_client example_one 1 [[12; 9]; []; []].
Proof.
  split; [by exists false|split; reflexivity|repeat constructor| |by_decide|by_decide].
  intros [|[|[|i]]] c e Hc He; simpl in Hc; simplify_eq;
    repeat (apply elem_of_cons in He as [->|He]; [reflexivity|]); by apply elem_of_nil in He.
Qed.

Lemma example_two_is : @is_hash example_client example_two 1 [[12]; [10]; []].
Proof.
  split; [by exists false|split; reflexivity|repeat constructor| |by_decide|by_decide].
  intros [|[|[|i]]] c e Hc He; simpl in Hc; simplify_eq;
    repeat (apply elem_of_cons in He as [->|He]; [reflexivity|]); by apply elem_of_nil in He.
Qed.

Lemma hash_table_resize_moves_one_witness :
  (∃ s', @is_hset example_client 1 s' {[12]} ∧ ∀ fuel, (2 ≤ fuel)%nat →
     @hash_table_resize example_client fuel 1 50 60 5 example_one = Ok (0, s')) ∧
  (∀ fuel, @hash_table_resize example_client fuel 1 50 60 2 example_two = Hang).
Proof.
  split.
  - eapply (@hash_table_resize_moves_one example_client example_laws example_one 1 50 60 5 _
      [[12; 9]; []; []] 12 [9]); try exact example_one_is; try reflexivity; try discriminate;
      try (split; reflexivity). by exists 0%nat.
  - eapply (@hash_table_resize_moves_one example_client example_laws example_two 1 50 60 2 _
      [[12]; [10]; []] 12 [10]); try exact example_two_is; try reflexivity; try discriminate;
      try (split; reflexivity). by exists 0%nat.
Defined.
