(* ===== verification/HashFunc.v ===== *)
(** * Hash functions: the string and integer hashes of [kernel/util/hash_table.c]

    A string hash folds a step over the characters, read as signed [char]s from a
    byte memory; an integer hash mixes the bits of a 32-bit key. All arithmetic is
    unsigned, wrapping at 32 bits. *)

From Stdlib Require Import Znumtheory.
From S2P Require Import Prelude CType CString CStringSpec.
From stdpp Require Import gmap list.
#[local] Open Scope Z_scope.

(** ** String hashes *)

(** [for( ; *str; ++str) a = step(a, *str);] *)
Fixpoint str_fold {A} (step : A → Z → A) (fuel : nat) (a : A) (str : Z) : M mem A :=
  match fuel with
  | O => hang
  | S fuel =>
      c ← ldc str;
      if negb (c =? 0) then str_fold step fuel (step a c) (str + 1) else mret a
  end.

Definition str_hash {A} (step : A → Z → A) (a : A) (str : Z) : M mem A :=
  with_fuel (λ fuel, str_fold step fuel a str).

(** The pair of [hash] and [a], [b] being constant. *)
Definition rs_step (ha : Z * Z) (c : Z) : Z * Z :=
  (u32 (ha.1 * ha.2 + c), u32 (ha.2 * 378551)).

Definition hash_func_str_rs (str : Z) : M mem Z :=
  ha ← str_hash rs_step (0, 63689) str; mret ha.1.

Definition js_step (hash c : Z) : Z :=
  Z.lxor hash (u32 (Z.shiftl hash 5 + c + Z.shiftr hash 2)).

Definition hash_func_str_js : Z → M mem Z := str_hash js_step 1315423911.

(** [ThreeQuarters] is 24, [OneEighth] 4. *)
Definition HighBits : Z := u32 (Z.shiftl 0xFFFFFFFF 28).

Definition pjw_step (hash c : Z) : Z :=
  let hash := u32 (Z.shiftl hash 4 + c) in
  let test := Z.land hash HighBits in
  if negb (test =? 0) then Z.land (Z.lxor hash (Z.shiftr test 24)) (u32 (Z.lnot HighBits))
  else hash.

Definition hash_func_str_pjw : Z → M mem Z := str_hash pjw_step 0.

Definition elf_step (hash c : Z) : Z :=
  let hash := u32 (Z.shiftl hash 4 + c) in
  let x := Z.land hash 0xF0000000 in
  let hash := if negb (x =? 0) then Z.lxor hash (Z.shiftr x 24) else hash in
  Z.land hash (u32 (Z.lnot x)).

Definition hash_func_str_elf : Z → M mem Z := str_hash elf_step 0.

Definition bkdr_step (hash c : Z) : Z := u32 (hash * 131 + c).

Definition hash_func_str_bkdr : Z → M mem Z := str_hash bkdr_step 0.

Definition sdbm_step (hash c : Z) : Z := u32 (c + Z.shiftl hash 6 + Z.shiftl hash 16 - hash).

Definition hash_func_str_sdbm : Z → M mem Z := str_hash sdbm_step 0.

Definition djb_step (hash c : Z) : Z := u32 (Z.shiftl hash 5 + hash + c).

Definition hash_func_str_djb : Z → M mem Z := str_hash djb_step 5381.

Definition dek_step (hash c : Z) : Z :=
  Z.lxor (Z.lxor (u32 (Z.shiftl hash 5)) (Z.shiftr hash 27)) (u32 c).

Definition hash_func_str_dek (str : Z) : M mem Z :=
  hash ← strlen str; str_hash dek_step hash str.

Definition bp_step (hash c : Z) : Z := Z.lxor (u32 (Z.shiftl hash 7)) (u32 c).

Definition hash_func_str_bp : Z → M mem Z := str_hash bp_step 0.

Definition fnv_step (hash c : Z) : Z := Z.lxor (u32 (hash * 0x811C9DC5)) (u32 c).

Definition hash_func_str_fnv : Z → M mem Z := str_hash fnv_step 0.

(** The pair of [hash] and [i]. *)
Definition ap_step (hi : Z * Z) (c : Z) : Z * Z :=
  let '(hash, i) := hi in
  (Z.lxor hash
    (if Z.land i 1 =? 0 then Z.lxor (u32 (Z.shiftl hash 7)) (u32 (c * Z.shiftr hash 3))
     else u32 (Z.lnot (Z.lxor (u32 (Z.shiftl hash 11 + c)) (Z.shiftr hash 5)))),
   u32 (i + 1)).

Definition hash_func_str_ap (str : Z) : M mem Z :=
  hi ← str_hash ap_step (0xAAAAAAAA, 0) str; mret hi.1.

Definition newos_step (hash c : Z) : Z :=
  let hash := Z.lxor hash (Z.shiftr hash 28) in
  let hash := u32 (Z.shiftl hash 4) in
  Z.lxor hash (u32 c).

Definition hash_func_str_newos : Z → M mem Z := str_hash newos_step 0.

Definition str_hashes : list (Z → M mem Z) :=
  [hash_func_str_rs; hash_func_str_js; hash_func_str_pjw; hash_func_str_elf; hash_func_str_bkdr;
   hash_func_str_sdbm; hash_func_str_djb; hash_func_str_dek; hash_func_str_bp;
   hash_func_str_fnv; hash_func_str_ap; hash_func_str_newos].

(** ** Integer hashes *)

Definition hash_func_int_32shift (key : Z) : Z :=
  let key := u32 (Z.lnot key + Z.shiftl key 15) in
  let key := Z.lxor key (Z.shiftr key 12) in
  let key := u32 (key + Z.shiftl key 2) in
  let key := Z.lxor key (Z.shiftr key 4) in
  let key := u32 (key * 2057) in
  Z.lxor key (Z.shiftr key 16).

Definition hash_func_int_32shiftmult (key : Z) : Z :=
  let c2 := 0x27d4eb2d in
  let key := Z.lxor (Z.lxor key 61) (Z.shiftr key 16) in
  let key := u32 (key + Z.shiftl key 3) in
  let key := Z.lxor key (Z.shiftr key 4) in
  let key := u32 (key * c2) in
  Z.lxor key (Z.shiftr key 15).

Definition hash_func_int_rj (key : Z) : Z :=
  let key := u32 (key + 0x7ed55d16 + Z.shiftl key 12) in
  let key := Z.lxor (Z.lxor key 0xc761c23c) (Z.shiftr key 19) in
  let key := u32 (key + 0x165667b1 + Z.shiftl key 5) in
  let key := Z.lxor (u32 (key + 0xd3a2646c)) (u32 (Z.shiftl key 9)) in
  let key := u32 (key + 0xfd7046c5 + Z.shiftl key 3) in
  Z.lxor (Z.lxor key 0xb55a4f09) (Z.shiftr key 16).

Definition hash_func_int_java (key : Z) : Z :=
  let key := Z.lxor key (Z.lxor (Z.shiftr key 20) (Z.shiftr key 12)) in
  Z.lxor (Z.lxor key (Z.shiftr key 7)) (Z.shiftr key 4).

(** *** Steps stay in 32 bits *)

Lemma word_step :
  (∀ h c, word h → word (js_step h c)) ∧ (∀ h c, word h → word (pjw_step h c)) ∧
  (∀ h c, word h → word (elf_step h c)) ∧ (∀ h c, word h → word (dek_step h c)) ∧
  (∀ h c, word h → word (bp_step h c)) ∧ (∀ h c, word h → word (fnv_step h c)) ∧
  (∀ h c, word h → word (newos_step h c)).
Proof.
  split_and!; intros h c Hh; unfold js_step, pjw_step, elf_step, dek_step, bp_step, fnv_step,
    newos_step; repeat case_match; repeat first [apply word_u32 | apply word_lxor | apply word_land |
      apply word_shiftr | done].
Qed.

Lemma word_rs_step ha c : word ha.1 → word (rs_step ha c).1.
Proof. intros. apply word_u32. Qed.

Lemma word_ap_step hi c : word hi.1 → word (ap_step hi c).1.
Proof. destruct hi as [h i]. simpl. intros. case_match; auto with word. Qed.

(** ** Strings *)

Lemma wp_str_fold {A} (step : A → Z → A) fuel : ∀ cs a p m (Q : A → mem → Prop),
  (length cs < fuel)%nat → str_at m p cs → Q (foldl step a (s8 <$> cs)) m →
  wp (str_fold step fuel a p) m Q.
Proof.
  induction fuel as [|fuel IH]; intros cs a p m Q Hf Hs HQ; [lia|]. cbn [str_fold].
  destruct cs as [|c cs]; simpl in Hs, Hf, HQ.
  - wp_go. eapply wp_ldc; [done|]. simpl. by wp_go.
  - destruct Hs as (Hc & Hr & Hs). wp_go. eapply wp_ldc; [done|].
    rewrite s8_eqb0, (proj2 (Z.eqb_neq c 0)) by (unfold is_byte; lia). simpl.
    apply (IH cs); [lia|done|done].
Qed.

Lemma wp_str_hash {A} (step : A → Z → A) a p m cs (Q : A → mem → Prop) :
  str_at m p cs → Q (foldl step a (s8 <$> cs)) m → wp (str_hash step a p) m Q.
Proof. intros Hs HQ. apply wp_with_fuel, (wp_str_fold _ _ cs); [by eapply str_at_fuel|done..]. Qed.

(** A run of a hash on a string, the value left open. *)
Lemma str_hash_run {A} (step : A → Z → A) a p m cs :
  str_at m p cs → str_hash step a p m = Ok (foldl step a (s8 <$> cs), m).
Proof.
  intros Hs. edestruct (wp_run (str_hash step a p) m (foldl step a (s8 <$> cs)) (λ m', m' = m)) as (? & E & ->);
    [|exact E]. by eapply wp_str_hash.
Qed.

Lemma foldl_inv {A B} (P : A → Prop) (f : A → B → A) xs : ∀ a,
  P a → (∀ a x, P a → P (f a x)) → P (foldl f a xs).
Proof. induction xs as [|x xs IH]; intros a Ha Hf; simpl; auto. Qed.

Lemma strlen_run p m cs : str_at m p cs → len cs < 2 ^ 32 → strlen p m = Ok (len cs, m).
Proof.
  intros Hs Hl. destruct (wp_run (strlen p) m (len cs) (λ m', m' = m)) as (? & E & ->); [|exact E].
  by eapply wp_strlen.
Qed.

(** ELF and PJW clear the same bits. *)
Lemma HighBits_bit i : 0 ≤ i → Z.testbit HighBits i = (28 <=? i) && (i <? 32).
Proof.
  intros Hi. change HighBits with (Z.shiftl (Z.ones 4) 28).
  rewrite Z.shiftl_spec by lia. destruct (Z.leb_spec 28 i); simpl.
  - destruct (Z.ltb_spec i 32); [apply Z.ones_spec_low|apply Z.ones_spec_high]; lia.
  - apply Z.testbit_neg_r. lia.
Qed.

Lemma pjw_elf_step hash c : pjw_step hash c = elf_step hash c.
Proof.
  unfold pjw_step, elf_step. set (h := u32 _). change 0xF0000000 with HighBits.
  set (x := Z.land h HighBits). assert (word h) as Hh by apply word_u32.
  destruct (Z.eqb_spec x 0) as [->|Hx]; cbn [negb]; apply Z.bits_inj'; intros i Hi.
  - rewrite Z.land_spec, word_not_bit, Z.bits_0 by done.
    destruct (Z.ltb_spec i 32); simpl; [by rewrite andb_true_r|]. by rewrite word_testbit.
  - rewrite !Z.land_spec, !word_not_bit, Z.lxor_spec, Z.shiftr_spec by done. unfold x.
    rewrite !Z.land_spec, !HighBits_bit by lia.
    destruct (Z.ltb_spec i 32), (Z.leb_spec 28 i), (Z.leb_spec 28 (i + 24)),
      (Z.ltb_spec (i + 24) 32), (Z.testbit h i) eqn:E; simpl; try lia; try done;
      rewrite ?andb_false_r, ?andb_true_r; try done.
Qed.

Lemma foldl_ext_fun {A B} (f g : A → B → A) xs : (∀ a x, f a x = g a x) → ∀ a, foldl f a xs = foldl g a xs.
Proof. intros Hfg. induction xs as [|x xs IH]; intros a; simpl; [done|]. by rewrite Hfg, IH. Qed.

(** The value of a polynomial with the coefficients [cs], the first one leading. *)
Definition horner (k seed : Z) (cs : list Z) : Z := foldl (λ h c, h * k + c) seed cs.

Lemma foldl_horner (step : Z → Z → Z) k cs : (∀ h c, step h c = u32 (h * k + c)) →
  ∀ h h', h = u32 h' → foldl step h cs = u32 (horner k h' cs).
Proof.
  intros Hs. unfold horner. induction cs as [|c cs IH]; intros h h' ->; [done|]. simpl.
  apply IH. rewrite Hs. unfold uwrap. rewrite <- Zplus_mod_idemp_l, Zmult_mod_idemp_l.
  by rewrite Zplus_mod_idemp_l.
Qed.

(** [k^n * seed + k^(n-1) * c1 + ... + cn] *)
Lemma horner_app k seed cs c : horner k seed (cs ++ [c]) = horner k seed cs * k + c.
Proof. unfold horner. by rewrite foldl_app. Qed.

Lemma shiftl_mul x k n : 0 ≤ n → k = 2 ^ n → Z.shiftl x n = x * k.
Proof. intros ? ->. by apply Z.shiftl_mul_pow2. Qed.

(** ** Injective mixing *)

Definition inj32 (f : Z → Z) : Prop := ∀ x y, word x → word y → f x = f y → x = y.

Definition mixes (f : Z → Z) : Prop := inj32 f ∧ ∀ x, word x → word (f x).

Lemma mixes_comp f g : mixes f → mixes g → mixes (λ x, g (f x)).
Proof. intros [Hf Hfr] [Hg Hgr]. split; [|by auto]. intros x y Hx Hy E. apply Hf; auto. Qed.

Lemma mixes_ext f g : (∀ x, f x = g x) → mixes f → mixes g.
Proof.
  intros E [Hi Hr]. split; [|intros; rewrite <- E; auto]. intros x y. rewrite <- !E. apply Hi.
Qed.

(** A word equal to the xor of two of its right shifts is zero. *)
Lemma xorshift_zero z a b : 0 ≤ z → 0 < a → 0 < b →
  z = Z.lxor (Z.shiftr z a) (Z.shiftr z b) → z = 0.
Proof.
  intros Hz Ha Hb E. destruct (decide (z = 0)) as [|Hne]; [done|exfalso].
  assert (Z.testbit z (Z.log2 z) = true) as Ht by (apply Z.bit_log2; lia).
  pose proof (Z.log2_nonneg z). rewrite E in Ht at 1.
  rewrite Z.lxor_spec, !Z.shiftr_spec, !(Z.bits_above_log2 z) in Ht; done || lia.
Qed.

Lemma lxor_cancel a b x y : Z.lxor x a = Z.lxor y b → Z.lxor x y = Z.lxor a b.
Proof.
  intros E. apply Z.bits_inj'. intros i Hi. apply (f_equal (λ z, Z.testbit z i)) in E.
  rewrite !Z.lxor_spec in *. by destruct (Z.testbit x i), (Z.testbit y i), (Z.testbit a i), (Z.testbit b i).
Qed.

Lemma inj32_xorshift2 a b : 0 < a → 0 < b →
  inj32 (λ x, Z.lxor x (Z.lxor (Z.shiftr x a) (Z.shiftr x b))).
Proof.
  intros Ha Hb x y Hx Hy E. apply lxor_cancel in E. apply Z.lxor_eq.
  apply (xorshift_zero _ a b); [apply Z.lxor_nonneg; unfold word in *; lia|done..|].
  rewrite E at 1. rewrite !Z.shiftr_lxor. apply Z.bits_inj'. intros i Hi. rewrite !Z.lxor_spec.
  by destruct (Z.testbit (Z.shiftr x a) i), (Z.testbit (Z.shiftr y a) i),
    (Z.testbit (Z.shiftr x b) i), (Z.testbit (Z.shiftr y b) i).
Qed.

Lemma inj32_xorshift a : 0 < a → inj32 (λ x, Z.lxor x (Z.shiftr x a)).
Proof.
  intros Ha x y Hx Hy E. apply lxor_cancel in E. apply Z.lxor_eq.
  apply (xorshift_zero _ a 64); [apply Z.lxor_nonneg; unfold word in *; lia|lia..|].
  assert (word (Z.lxor x y)) as Hw by auto with word.
  rewrite (Z.shiftr_div_pow2 _ 64), Z.div_small, Z.lxor_0_r
    by (unfold word in *; lia).
  rewrite E at 1. by rewrite Z.shiftr_lxor.
Qed.

Lemma inj32_affine a c : Z.gcd a (2 ^ 32) = 1 → inj32 (λ x, u32 (x * a + c)).
Proof.
  intros Hg x y Hx Hy E. unfold uwrap in E.
  assert ((2 ^ 32 | a * (x - y))) as Hd.
  { apply Z.mod_divide; [lia|]. replace (a * (x - y)) with (x * a + c - (y * a + c)) by ring.
    by rewrite Zminus_mod, E, Z.sub_diag. }
  apply Gauss in Hd; [|apply rel_prime_sym, Zgcd_1_rel_prime; done].
  destruct Hd as [k Hk]. unfold word in *. assert (k = 0) as -> by nia. lia.
Qed.

Lemma inj32_xor_const c : inj32 (λ x, Z.lxor x c).
Proof. intros x y _ _ E. apply lxor_cancel in E. rewrite Z.lxor_nilpotent in E. by apply Z.lxor_eq. Qed.

Lemma mod_bits x y n : 0 ≤ n →
  x mod 2 ^ n = y mod 2 ^ n ↔ ∀ i, 0 ≤ i < n → Z.testbit x i = Z.testbit y i.
Proof.
  intros Hn. split.
  - intros E i Hi. rewrite <- (Z.mod_pow2_bits_low x n), E by lia. apply Z.mod_pow2_bits_low. lia.
  - intros Hb. apply Z.bits_inj'. intros i Hi. destruct (decide (i < n)).
    + rewrite !Z.mod_pow2_bits_low by lia. apply Hb. lia.
    + by rewrite !Z.mod_pow2_bits_high by lia.
Qed.

Lemma mod_add_const x y c n : x mod n = y mod n → (x + c) mod n = (y + c) mod n.
Proof. intros E. by rewrite <- Zplus_mod_idemp_l, E, Zplus_mod_idemp_l. Qed.

(** [(key + c) ^ (key << k)]: the low bits determine the next one. *)
Lemma inj32_add_shift c k : 0 < k → inj32 (λ x, Z.lxor (u32 (x + c)) (u32 (Z.shiftl x k))).
Proof.
  intros Hk x y Hx Hy E.
  assert (∀ n : nat, Z.of_nat n ≤ 32 → x mod 2 ^ Z.of_nat n = y mod 2 ^ Z.of_nat n) as Hn.
  2: { specialize (Hn 32%nat ltac:(lia)). unfold word in *. by rewrite !Z.mod_small in Hn. }
  induction n as [|n IH]; intros Hn; [by rewrite !Z.mod_1_r|].
  specialize (IH ltac:(lia)). set (w := Z.of_nat n) in *. pose proof (proj1 (mod_bits x y w ltac:(lia)) IH) as Hb.
  pose proof (proj1 (mod_bits _ _ w ltac:(lia)) (mod_add_const x y c _ IH)) as Hc.
  assert (Z.testbit (x + c) w = Z.testbit (y + c) w) as En.
  { apply (f_equal (λ z, Z.testbit z w)) in E. unfold uwrap in E.
    rewrite !Z.lxor_spec, !Z.mod_pow2_bits_low, !Z.shiftl_spec in E by lia.
    assert (Z.testbit x (w - k) = Z.testbit y (w - k)) as Ek.
    { destruct (decide (0 ≤ w - k)); [apply Hb; lia|by rewrite !Z.testbit_neg_r by lia]. }
    rewrite Ek in E. by destruct (Z.testbit (x + c) w), (Z.testbit (y + c) w), (Z.testbit y (w - k)). }
  replace x with (x + c + - c) by lia. replace y with (y + c + - c) by lia.
  apply mod_add_const, mod_bits; [lia|]. intros i Hi.
  destruct (decide (i = w)) as [->|]; [done|]. apply Hc. lia.
Qed.

Lemma mixes_affine f a c : (∀ x, f x = u32 (x * a + c)) → Z.gcd a (2 ^ 32) = 1 → mixes f.
Proof.
  intros E Hg. apply (mixes_ext (λ x, u32 (x * a + c))); [done|].
  split; [by apply inj32_affine|]. intros x _. apply word_u32.
Qed.

Lemma mixes_xorshift k : 0 < k → mixes (λ x, Z.lxor x (Z.shiftr x k)).
Proof. intros Hk. split; [by apply inj32_xorshift|]. intros x Hx. auto with word. Qed.

Lemma mixes_xorshift2 a b : 0 < a → 0 < b →
  mixes (λ x, Z.lxor x (Z.lxor (Z.shiftr x a) (Z.shiftr x b))).
Proof. intros Ha Hb. split; [by apply inj32_xorshift2|]. intros x Hx. auto 6 with word. Qed.

Lemma mixes_xor_const k c : 0 < k → word c → mixes (λ x, Z.lxor (Z.lxor x c) (Z.shiftr x k)).
Proof.
  intros Hk Hc. apply (mixes_ext (λ x, Z.lxor (Z.lxor x (Z.shiftr x k)) c)).
  { intros x. by rewrite !Z.lxor_assoc, (Z.lxor_comm c). }
  apply (mixes_comp _ (λ y, Z.lxor y c)); [by apply mixes_xorshift|].
  split; [apply inj32_xor_const|]. auto with word.
Qed.

Lemma mixes_add_shift c k : 0 < k → mixes (λ x, Z.lxor (u32 (x + c)) (u32 (Z.shiftl x k))).
Proof. intros Hk. split; [by apply inj32_add_shift|]. auto with word. Qed.

(** A mixing function as its steps, one after the other. *)
Lemma mixes_chain (fs : list (Z → Z)) :
  Forall mixes fs → mixes (λ key, foldl (λ k f, f k) key fs).
Proof.
  induction 1 as [|f fs Hf _ IH]; simpl; [split; [by intros x y ?? E|done]|]. exact (mixes_comp f _ Hf IH).
Qed.

Lemma mixes_steps f fs : (∀ x, foldl (λ k g, g k) x fs = f x) → Forall mixes fs → mixes f.
Proof. intros E Hfs. eapply mixes_ext; [exact E|]. by apply mixes_chain. Qed.

Ltac steps fs := apply (mixes_steps _ fs);
  [intros x; cbv beta zeta iota delta
     [hash_func_int_32shift hash_func_int_32shiftmult hash_func_int_rj foldl]; reflexivity|];
  repeat apply Forall_cons_2; try apply Forall_nil_2.

(** Multiplications, written with shifts or not. *)
Ltac affine a c := apply (mixes_affine _ a c); [|reflexivity]; intros x; unfold Z.lnot;
  rewrite ?Z.shiftl_mul_pow2 by lia; f_equal; lia.

Lemma mixes_32shift : mixes hash_func_int_32shift.
Proof.
  steps ([λ k, u32 (Z.lnot k + Z.shiftl k 15); λ k, Z.lxor k (Z.shiftr k 12);
    λ k, u32 (k + Z.shiftl k 2); λ k, Z.lxor k (Z.shiftr k 4); λ k, u32 (k * 2057);
    λ k, Z.lxor k (Z.shiftr k 16)]);  try by apply mixes_xorshift.
  - affine 32767 (-1).
  - affine 5 0.
  - affine 2057 0.
Qed.

Lemma mixes_32shiftmult : mixes hash_func_int_32shiftmult.
Proof.
  steps ([λ k, Z.lxor (Z.lxor k 61) (Z.shiftr k 16); λ k, u32 (k + Z.shiftl k 3);
    λ k, Z.lxor k (Z.shiftr k 4); λ k, u32 (k * 0x27d4eb2d); λ k, Z.lxor k (Z.shiftr k 15)]);  try by apply mixes_xorshift.
  - by apply mixes_xor_const.
  - affine 9 0.
  - affine 0x27d4eb2d 0.
Qed.

Lemma mixes_rj : mixes hash_func_int_rj.
Proof.
  steps ([λ k, u32 (k + 0x7ed55d16 + Z.shiftl k 12);
    λ k, Z.lxor (Z.lxor k 0xc761c23c) (Z.shiftr k 19); λ k, u32 (k + 0x165667b1 + Z.shiftl k 5);
    λ k, Z.lxor (u32 (k + 0xd3a2646c)) (u32 (Z.shiftl k 9));
    λ k, u32 (k + 0xfd7046c5 + Z.shiftl k 3);
    λ k, Z.lxor (Z.lxor k 0xb55a4f09) (Z.shiftr k 16)]);  try by apply mixes_xor_const.
  - affine 4097 0x7ed55d16.
  - affine 33 0x165667b1.
  - by apply mixes_add_shift.
  - affine 9 0xfd7046c5.
Qed.

Lemma mixes_java : mixes hash_func_int_java.
Proof.
  apply (mixes_steps _ [λ k, Z.lxor k (Z.lxor (Z.shiftr k 20) (Z.shiftr k 12));
    λ k, Z.lxor k (Z.lxor (Z.shiftr k 7) (Z.shiftr k 4))]).
  - intros x. unfold hash_func_int_java. simpl. by rewrite !Z.lxor_assoc.
  - repeat apply Forall_cons_2; [by apply mixes_xorshift2..|apply Forall_nil_2].
Qed.

(** ** Properties *)

(** Each of the twelve string hashes, run on a string that lies anywhere in a
    memory, terminates with a 32-bit value and reads only: the value depends on the
    characters alone, so equal strings at different addresses, in different
    memories, have equal hashes, as a table that hashes its keys by content needs. *)
Theorem str_hashes_by_content f cs p q m m' :
  f ∈ str_hashes → str_at m p cs → str_at m' q cs → len cs < 2 ^ 32 →
  ∃ h, f p m = Ok (h, m) ∧ f q m' = Ok (h, m') ∧ word h.
Proof.
  intros Hf Hp Hq Hl.
  assert (∀ (step : Z → Z → Z) a, word a → (∀ a c, word a → word (step a c)) →
    ∃ h, str_hash step a p m = Ok (h, m) ∧ str_hash step a q m' = Ok (h, m') ∧ word h) as Hfold.
  { intros step a Ha Hs. exists (foldl step a (s8 <$> cs)).
    rewrite !(str_hash_run _ _ _ _ cs) by done. split_and!; [done..|]. by apply foldl_inv. }
  assert (∀ (step : Z * Z → Z → Z * Z) a, word a.1 → (∀ a c, word a.1 → word (step a c).1) →
    ∃ h, (ha ← str_hash step a p; mret ha.1) m = Ok (h, m) ∧
      (ha ← str_hash step a q; mret ha.1) m' = Ok (h, m') ∧ word h) as Hfold2.
  { intros step a Ha Hs. exists (foldl step a (s8 <$> cs)).1. unfold mbind, M_bind.
    rewrite !(str_hash_run _ _ _ _ cs) by done. split_and!; [done..|].
    by apply (foldl_inv (λ a, word a.1)). }
  assert (hash_func_str_dek p m = str_hash dek_step (len cs) p m ∧
    hash_func_str_dek q m' = str_hash dek_step (len cs) q m') as [Ed1 Ed2].
  { unfold hash_func_str_dek, mbind, M_bind. by rewrite !(strlen_run _ _ cs). }
  destruct word_step as (? & ? & ? & ? & ? & ? & ?). pose proof word_rs_step.
  pose proof word_ap_step. pose proof (len_nonneg cs).
  assert (∀ x, bool_decide (word x) = true → word x) by (intros ?; apply bool_decide_eq_true_1).
  assert (word (len cs)) by (unfold word; lia).
  unfold str_hashes in Hf. repeat (apply elem_of_cons in Hf as [->|Hf]);
    try (by apply not_elem_of_nil in Hf); rewrite ?Ed1, ?Ed2; (apply Hfold || apply Hfold2);
    auto; intros; apply word_u32.
Qed.

(** The hashes named after Kernighan (BKDR), sdbm and Bernstein (DJB) are the
    polynomials of the characters with the multipliers 131, 65599 and 33, modulo
    [2^32], and the Weinberger (PJW) and ELF hashes are the same function. *)
Theorem str_hash_values p m cs :
  str_at m p cs →
  hash_func_str_bkdr p m = Ok (u32 (horner 131 0 (s8 <$> cs)), m) ∧
  hash_func_str_sdbm p m = Ok (u32 (horner 65599 0 (s8 <$> cs)), m) ∧
  hash_func_str_djb p m = Ok (u32 (horner 33 5381 (s8 <$> cs)), m) ∧
  hash_func_str_pjw p m = hash_func_str_elf p m.
Proof.
  intros Hs. unfold hash_func_str_bkdr, hash_func_str_sdbm, hash_func_str_djb,
    hash_func_str_pjw, hash_func_str_elf. rewrite !(str_hash_run _ _ _ _ cs) by done.
  split_and!; do 2 f_equal.
  - by apply foldl_horner.
  - apply foldl_horner; [|done]. intros h c. unfold sdbm_step. f_equal.
    rewrite (shiftl_mul h 64), (shiftl_mul h 65536) by done. lia.
  - apply foldl_horner; [|done]. intros h c. unfold djb_step. f_equal.
    rewrite (shiftl_mul h 32) by done. lia.
  - apply foldl_ext_fun, pjw_elf_step.
Qed.

(** The four integer hashes map 32-bit keys to 32-bit values one to one: no two
    keys share a full hash. *)
Theorem int_hashes_injective :
  Forall (λ f, ∀ x y, word x → word y → word (f x) ∧ (f x = f y → x = y))
    [hash_func_int_32shift; hash_func_int_32shiftmult; hash_func_int_rj; hash_func_int_java].
Proof.
  assert (∀ f, mixes f → ∀ x y, word x → word y → word (f x) ∧ (f x = f y → x = y)) as Hm.
  { intros f [Hi Hr] x y Hx Hy. split; [by apply Hr|by apply Hi]. }
  repeat apply Forall_cons_2; try apply Forall_nil_2; apply Hm.
  - apply mixes_32shift.
  - apply mixes_32shiftmult.
  - apply mixes_rj.
  - apply mixes_java.
Qed.

(** ** Witnesses *)

(** The string "Ab" at 100. *)
Definition example_str : mem := list_to_map [(100, 65); (101, 98); (102, 0)].

Definition example_str2 : mem := list_to_map [(7, 65); (8, 98); (9, 0); (10, 33)].

Lemma example_str_at : str_at example_str 100 [65; 98] ∧ str_at example_str2 7 [65; 98].
Proof. repeat split. Qed.

Lemma str_hashes_by_content_witness :
  hash_func_str_newos 100 example_str = Ok (1138, example_str) ∧
  ∃ h, hash_func_str_newos 100 example_str = Ok (h, example_str) ∧
    hash_func_str_newos 7 example_str2 = Ok (h, example_str2) ∧ word h.
Proof.
  split; [reflexivity|].
  apply (str_hashes_by_content hash_func_str_newos [65; 98]); [|apply example_str_at..|reflexivity].
  unfold str_hashes. do 11 right. left.
Defined.

Lemma str_hash_values_witness :
  hash_func_str_djb 100 example_str = Ok (u32 (horner 33 5381 [65; 98]), example_str).
Proof. apply (str_hash_values 100 example_str [65; 98]). apply example_str_at. Defined.

Lemma int_hashes_injective_witness :
  word (hash_func_int_32shift 3) ∧ (hash_func_int_32shift 3 = hash_func_int_32shift 4 → 3 = 4).
Proof.
  pose proof int_hashes_injective as Hf. apply Forall_cons in Hf as [Hf _].
  apply Hf; split; reflexivity || discriminate.
Defined.
