(* ===== verification/Heap.v ===== *)
(** * The kernel heap: [kernel/heap.c]

    The heap is a table of page descriptors followed by the pages it hands out.
    Blocks come from bins by size; a bin keeps a list of freed blocks, linked
    through their first words, and an area of blocks not used yet. The state of the
    model is the static data of the file, the words of the heap pages (32-bit words
    by address, a byte fill being a fill with the repeated byte) and the processor
    with the heap lock. *)

From S2P Require Import Prelude Links Spinlock.
From stdpp Require Import gmap list.
#[local] Open Scope Z_scope.

(** ** Data *)

(** [struct heap_page]: bit fields of 5, 9, 1 and 1 bits. *)
Record heap_page := HeapPage {
  bin_index : Z; pg_free_count : Z; cleaning : Z; in_use : Z }.

Definition sizeof_heap_page : Z := 2.

Record heap_bin := HeapBin {
  element_size : Z; grow_size : Z; alloc_count : Z;
  free_list : Z; free_count : Z; raw_list : Z; raw_count : Z }.

Record heap := Heap {
  hcpu : cpu; words : gmap Z Z; heap_alloc_table : list heap_page; heap_table_ptr : Z;
  heap_base_ptr : Z; heap_base : Z; heap_size : Z; bins : list heap_bin; threading : bool }.

Definition fresh_bin (size grow : Z) : heap_bin := HeapBin size grow 0 0 0 0 0.

(** The initial contents of [bins]: 16 bytes to 2 Kb, then 1 to 24 pages. *)
Definition bins_init : list heap_bin :=
  [fresh_bin 16 PAGE_SIZE; fresh_bin 32 PAGE_SIZE; fresh_bin 64 PAGE_SIZE;
   fresh_bin 128 PAGE_SIZE; fresh_bin 256 PAGE_SIZE; fresh_bin 512 PAGE_SIZE;
   fresh_bin 1024 PAGE_SIZE; fresh_bin 2048 PAGE_SIZE;
   fresh_bin 0x1000 0x1000; fresh_bin 0x2000 0x2000; fresh_bin 0x3000 0x3000;
   fresh_bin 0x4000 0x4000; fresh_bin 0x5000 0x5000; fresh_bin 0x6000 0x6000;
   fresh_bin 0x7000 0x7000; fresh_bin 0x8000 0x8000; fresh_bin 0x9000 0x9000;
   fresh_bin 0xa000 0xa000; fresh_bin 0xb000 0xb000; fresh_bin 0xc000 0xc000;
   fresh_bin 0xd000 0xd000; fresh_bin 0xe000 0xe000; fresh_bin 0xf000 0xf000;
   fresh_bin 0x10000 0x10000; fresh_bin 0x11000 0x11000; fresh_bin 0x12000 0x12000;
   fresh_bin 0x13000 0x13000; fresh_bin 0x14000 0x14000; fresh_bin 0x15000 0x15000;
   fresh_bin 0x16000 0x16000; fresh_bin 0x17000 0x17000; fresh_bin 0x18000 0x18000].

Definition bin_count : Z := 32.

(** The address of [heap_lock]. *)
Definition heap_lock : Z := 1.

(** ** Access to the state *)

Definition upd_hcpu c h := Heap c (words h) (heap_alloc_table h) (heap_table_ptr h)
  (heap_base_ptr h) (heap_base h) (heap_size h) (bins h) (threading h).
Definition upd_words w h := Heap (hcpu h) w (heap_alloc_table h) (heap_table_ptr h)
  (heap_base_ptr h) (heap_base h) (heap_size h) (bins h) (threading h).
Definition upd_table t h := Heap (hcpu h) (words h) t (heap_table_ptr h)
  (heap_base_ptr h) (heap_base h) (heap_size h) (bins h) (threading h).
Definition upd_base_ptr p h := Heap (hcpu h) (words h) (heap_alloc_table h) (heap_table_ptr h)
  p (heap_base h) (heap_size h) (bins h) (threading h).
Definition upd_bins b h := Heap (hcpu h) (words h) (heap_alloc_table h) (heap_table_ptr h)
  (heap_base_ptr h) (heap_base h) (heap_size h) b (threading h).

Abbreviation on_hcpu := (zoom hcpu upd_hcpu).

Definition ld_word (a : Z) : M heap Z := load (λ h, words h !! a).

Definition st_word32 (a v : Z) : M heap unit := λ h,
  match words h !! a with
  | Some _ => Ok (tt, upd_words (<[a := v]> (words h)) h)
  | None => Fault
  end.

Definition ld_bin (i : nat) : M heap heap_bin := load (λ h, bins h !! i).

Definition st_bin (i : nat) (f : heap_bin → heap_bin) : M heap unit := λ h,
  match bins h !! i with
  | Some b => Ok (tt, upd_bins (<[i := f b]> (bins h)) h)
  | None => Fault
  end.

Definition ld_hpage (i : Z) : M heap heap_page :=
  load (λ h, if 0 <=? i then heap_alloc_table h !! Z.to_nat i else None).

Definition st_hpage (i : Z) (f : heap_page → heap_page) : M heap unit :=
  ld_hpage i;; modify (λ h, upd_table (alter f (Z.to_nat i) (heap_alloc_table h)) h).

(** [page->free_count += d] on 9 bits. *)
Definition add_page_free (i d : Z) : M heap unit :=
  st_hpage i (λ p, HeapPage (bin_index p) (uwrap 9 (pg_free_count p + d)) (cleaning p) (in_use p)).

(** [simple_lock]: spin with [thread_yield] between the attempts. *)
Definition simple_lock (l : Z) : M cpu unit :=
  r ← spin_trylock l; if r =? 0 then hang else mret tt.

Definition simple_unlock (l : Z) : M cpu unit := spin_unlock l.

(** The interrupt state saved when there are no threads yet. *)
Definition HEAP_LOCK : M heap bool :=
  t ← gets threading;
  if t : bool then on_hcpu (simple_lock heap_lock);; mret false
  else on_hcpu (spin_lock_irqsave heap_lock).

Definition HEAP_UNLOCK (irq_state : bool) : M heap unit :=
  t ← gets threading;
  if t : bool then on_hcpu (simple_unlock heap_lock)
  else on_hcpu (spin_unlock_irqrstor heap_lock irq_state).

(** A body between [HEAP_LOCK] and [HEAP_UNLOCK]. *)
Definition heap_critical {A} (body : M heap A) : M heap A :=
  irq_state ← HEAP_LOCK; a ← body; HEAP_UNLOCK irq_state;; mret a.

(** ** Initialization *)

Definition heap_init (new_heap_base new_heap_size : Z) : M heap Z :=
  let page_entries := PAGE_SIZE / sizeof_heap_page in
  let size := u32 (Z.land (new_heap_size * page_entries / (page_entries + 1)) PAGE_MASK) in
  let base := u32 (new_heap_base + PAGE_ALIGN (size / page_entries)) in
  modify (λ h, Heap (hcpu h) (words h)
    (replicate (Z.to_nat (size / PAGE_SIZE)) (HeapPage 0 0 0 0))
    new_heap_base base base size (bins h) (threading h));;
  on_hcpu (spin_init heap_lock);;
  mret NO_ERROR.

Definition heap_init_postthread : M heap Z :=
  modify (λ h, Heap (hcpu h) (words h) (heap_alloc_table h) (heap_table_ptr h)
    (heap_base_ptr h) (heap_base h) (heap_size h) (bins h) true);;
  mret NO_ERROR.

Definition heap_init_postsem : M heap Z := mret NO_ERROR.

(** ** Allocation *)

(** The descriptor of page [i] becomes the one of a page of bin [k]. *)
Definition take_heap_page (k : nat) (i : Z) : M heap unit :=
  bs ← gets bins;
  let n := match bs !! k with
    | Some b => if element_size b <? PAGE_SIZE then PAGE_SIZE / element_size b else 1
    | None => 1
    end in
  st_hpage i (λ _, HeapPage (uwrap 5 (Z.of_nat k)) (uwrap 9 n) 0 1).

(** [for(addr = ...; addr < new_heap_ptr; addr += PAGE_SIZE)], [n] pages to go. *)
Fixpoint mark_heap_pages (n : nat) (k : nat) (addr : Z) : M heap unit :=
  match n with
  | O => mret tt
  | S n =>
      base ← gets heap_base;
      take_heap_page k ((addr - base) / PAGE_SIZE);;
      mark_heap_pages n k (addr + PAGE_SIZE)
  end.

Definition raw_alloc (size : Z) (k : nat) : M heap Z :=
  h ← get;
  let new_heap_ptr := u32 (heap_base_ptr h + PAGE_ALIGN size) in
  (if u32 (heap_base h + heap_size h) <? new_heap_ptr then panic else mret tt);;
  mark_heap_pages
    (Z.to_nat ((new_heap_ptr - heap_base_ptr h + PAGE_SIZE - 1) / PAGE_SIZE)) k
    (heap_base_ptr h);;
  retval ← gets heap_base_ptr;
  modify (upd_base_ptr new_heap_ptr);;
  mret retval.

(** The first bin whose elements hold [size] bytes. *)
Fixpoint find_bin (bs : list heap_bin) (size : Z) (k : nat) : option nat :=
  match bs with
  | [] => None
  | b :: bs => if size <=? element_size b then Some k else find_bin bs size (S k)
  end.

(** [page[i].free_count += d] for [i] from [i], [n] pages to go. *)
Fixpoint count_pages (n : nat) (page i d : Z) : M heap unit :=
  match n with
  | O => mret tt
  | S n => add_page_free (page + i) d;; count_pages n page (i + 1) d
  end.

(** [kmalloc] with the heap locked. *)
Definition kmalloc_locked (size : Z) : M heap Z :=
  bs ← gets bins;
  match find_bin bs size 0 with
  | None => panic
  | Some k =>
      b ← ld_bin k;
      address ← (if negb (free_list b =? NULL) then
          next ← ld_word (free_list b);
          st_bin k (λ b, HeapBin (element_size b) (grow_size b) (alloc_count b) next
            (u32 (free_count b - 1)) (raw_list b) (raw_count b));;
          mret (free_list b)
        else
          when (raw_count b =? 0) (
            raw ← raw_alloc (grow_size b) k;
            st_bin k (λ b, HeapBin (element_size b) (grow_size b) (alloc_count b) (free_list b)
              (free_count b) raw (grow_size b / element_size b)));;
          b ← ld_bin k;
          st_bin k (λ b, HeapBin (element_size b) (grow_size b) (alloc_count b) (free_list b)
            (free_count b) (u32 (raw_list b + element_size b)) (u32 (raw_count b - 1)));;
          mret (raw_list b));
      st_bin k (λ b, HeapBin (element_size b) (grow_size b) (u32 (alloc_count b + 1)) (free_list b)
        (free_count b) (raw_list b) (raw_count b));;
      base ← gets heap_base;
      let page := (address - base) / PAGE_SIZE in
      add_page_free (page + 0) (-1);;
      count_pages (Z.to_nat (element_size b / PAGE_SIZE - 1)) page 1 (-1);;
      mret address
  end.

Definition kmalloc (size : Z) : M heap Z := heap_critical (kmalloc_locked size).

(** ** Release *)

(** The pages of the block agree on the bin; each gets one more free block. *)
Fixpoint release_pages (n : nat) (page i index : Z) : M heap unit :=
  match n with
  | O => mret tt
  | S n =>
      p ← ld_hpage (page + i);
      (if negb (bin_index p =? index) then panic else mret tt);;
      add_page_free (page + i) 1;;
      release_pages n page (i + 1) index
  end.

(** The walk of the free list looks for [address]. *)
Fixpoint paranoid_walk (fuel : nat) (temp address : Z) : M heap unit :=
  match fuel with
  | O => hang
  | S fuel =>
      if temp =? NULL then mret tt
      else if temp =? address then panic
      else next ← ld_word temp; paranoid_walk fuel next address
  end.

(** [memset(address, 0x99, n * 4)] *)
Fixpoint wipe (n : nat) (address : Z) : M heap unit :=
  match n with
  | O => mret tt
  | S n => st_word32 address 0x99999999;; wipe n (address + 4)
  end.

(** [kfree] with the heap locked, up to the page counters: the bin of the block. *)
Definition kfree_checks (address : Z) : M heap (nat * heap_bin) :=
  base ← gets heap_base;
  let page := (address - base) / PAGE_SIZE in
  p ← ld_hpage page;
  (if bin_count <=? bin_index p then panic else mret tt);;
  let k := Z.to_nat (bin_index p) in
  b ← ld_bin k;
  (if (element_size b <=? PAGE_SIZE) && negb (address mod element_size b =? 0) then panic
   else mret tt);;
  release_pages (Z.to_nat (element_size b / PAGE_SIZE)) page 0 (bin_index p);;
  mret (k, b).

(** The rest of it: the paranoid check, the wipe, the free list. *)
Definition kfree_locked (address : Z) : M heap unit :=
  kb ← kfree_checks address;
  fuel ← gets (λ h, S (size (words h)));
  paranoid_walk fuel (free_list kb.2) address;;
  wipe (Z.to_nat (element_size kb.2 / 4)) address;;
  st_word32 address (free_list kb.2);;
  st_bin kb.1 (λ b, HeapBin (element_size b) (grow_size b) (u32 (alloc_count b - 1)) address
    (u32 (free_count b + 1)) (raw_list b) (raw_count b)).

Definition kfree (address : Z) : M heap unit :=
  if address =? NULL then mret tt
  else
    h ← get;
    (if (address <? heap_base h) || (u32 (heap_base h + heap_size h) <=? address) then panic
     else mret tt);;
    heap_critical (kfree_locked address).

(** [address]: the address of a pointer variable. *)
Definition kfree_and_null (address : Z) : M heap unit :=
  if address =? NULL then mret tt
  else
    p ← ld_word address;
    if p =? NULL then mret tt
    else kfree p;; st_word32 address NULL.

(** The assertion of the kernels built for debugging included. *)
Definition kmalloc_pages (npages : Z) : M heap Z :=
  p ← kmalloc (u32 (npages * PAGE_SIZE));
  if p =? NULL then mret NULL
  else (if negb (p mod PAGE_SIZE =? 0) then panic else mret tt);; mret p.
