(* ===== verification/HeapSpec.v ===== *)
(** * What the kernel heap does

    The invariant: the area below [heap_base_ptr] is cut into regions of one bin
    each, a region into blocks; every block is handed out, on the free list of its
    bin, or in the unused area of its bin, and only one of these. *)

From S2P Require Import Prelude Links Spinlock Heap.
From stdpp Require Import gmap list.
#[local] Open Scope Z_scope.

(** ** Sizes of the bins *)

Definition esz (k : nat) : Z := default 0 (element_size <$> bins_init !! k).

Definition gsz (k : nat) : Z := default 0 (grow_size <$> bins_init !! k).

Definition nbins : nat := 32.

Record sizes_ok (k : nat) : Prop := {
  so_pos : 16 ≤ esz k ≤ 0x18000;
  so_16 : esz k mod 16 = 0;
  so_grow : gsz k mod PAGE_SIZE = 0 ∧ 4096 ≤ gsz k ≤ 0x18000;
  so_div : gsz k mod esz k = 0;
  so_kind : esz k < PAGE_SIZE ∧ gsz k = PAGE_SIZE ∨
            PAGE_SIZE ≤ esz k ∧ gsz k = esz k }.

Lemma bin_sizes k : (k < nbins)%nat → sizes_ok k.
Proof.
  intros Hk. do 32 (destruct k as [|k]; [split; vm_compute; intuition congruence|]).
  unfold nbins in Hk. lia.
Qed.

(** ** Regions and blocks *)

(** The regions from [base] on, in the order of their allocation: start and bin. *)
Fixpoint layout (base : Z) (rs : list nat) : list (Z * nat) :=
  match rs with
  | [] => []
  | k :: rs => (base, k) :: layout (base + gsz k) rs
  end.

Definition top (base : Z) (rs : list nat) : Z := foldl (λ b k, b + gsz k) base rs.

(** [a] is a block of bin [k]. *)
Definition block (base : Z) (rs : list nat) (a : Z) (k : nat) : Prop :=
  ∃ start i, (start, k) ∈ layout base rs ∧ 0 ≤ i < gsz k / esz k ∧ a = start + esz k * i.

Lemma layout_snoc base rs k : layout base (rs ++ [k]) = layout base rs ++ [(top base rs, k)].
Proof.
  revert base. induction rs as [|j rs IH]; intros base; simpl; [done|].
  by rewrite IH.
Qed.

Lemma top_snoc base rs k : top base (rs ++ [k]) = top base rs + gsz k.
Proof. unfold top. by rewrite foldl_app. Qed.

Definition bins_of (rs : list nat) : Prop := Forall (λ k, (k < nbins)%nat) rs.

Lemma layout_bounds rs : ∀ base start k, bins_of rs → (start, k) ∈ layout base rs →
  (k < nbins)%nat ∧ base ≤ start ∧ start + gsz k ≤ top base rs ∧ (start - base) mod PAGE_SIZE = 0.
Proof.
  induction rs as [|j rs IH]; intros base start k Hb Hin; simpl in Hin; [by apply not_elem_of_nil in Hin|].
  apply Forall_cons in Hb as [Hj Hb]. pose proof (so_grow _ (bin_sizes j Hj)) as [Hm Hg].
  assert (base + gsz j ≤ top (base + gsz j) rs) as Ht.
  { clear -Hb. generalize (base + gsz j). induction rs as [|i rs IH]; intros b; simpl; [lia|].
    apply Forall_cons in Hb as [Hi Hb]. pose proof (so_grow _ (bin_sizes i Hi)) as [_ Hg].
    specialize (IH Hb (b + gsz i)). unfold top in *. simpl. lia. }
  unfold top in *. simpl. apply elem_of_cons in Hin as [[= -> ->]|Hin].
  - rewrite Z.sub_diag. split_and!; [done|lia..|done].
  - apply IH in Hin as (? & ? & ? & Hmod); [|done]. split_and!; [done|lia|done|].
    replace (start - base) with (start - (base + gsz j) + gsz j) by lia.
    rewrite Zplus_mod, Hmod, Hm. done.
Qed.

Lemma layout_apart rs : ∀ base s k s' k', bins_of rs →
  (s, k) ∈ layout base rs → (s', k') ∈ layout base rs →
  s = s' ∧ k = k' ∨ s + gsz k ≤ s' ∨ s' + gsz k' ≤ s.
Proof.
  induction rs as [|j rs IH]; intros base s k s' k' Hb H1 H2; simpl in *; [by apply not_elem_of_nil in H1|].
  apply Forall_cons in Hb as [Hj Hb].
  apply elem_of_cons in H1 as [E1|H1]; apply elem_of_cons in H2 as [E2|H2]; simplify_eq.
  - by left.
  - apply layout_bounds in H2; [lia|done].
  - apply layout_bounds in H1; [lia|done].
  - by eapply IH.
Qed.

Section blocks.
Context (base : Z) (rs : list nat) (Hb : bins_of rs).

(** A block lies in its region, aligned as the region allows. *)
Lemma block_bounds a k : block base rs a k →
  (k < nbins)%nat ∧ base ≤ a ∧ a + esz k ≤ top base rs ∧
  (esz k ≤ PAGE_SIZE → (a - base) mod esz k = 0) ∧ (a - base) mod 16 = 0 ∧
  ∃ start, (start, k) ∈ layout base rs ∧ start ≤ a ∧ a + esz k ≤ start + gsz k ∧
    (PAGE_SIZE ≤ esz k → a = start).
Proof.
  intros (s & i & Hin & Hi & ->). apply layout_bounds in Hin as Hl; [|done].
  destruct Hl as (Hk & Hs & Ht & Hm). destruct (bin_sizes k Hk) as [Hp H16 Hg Hd Hkind].
  pose proof (Z.div_exact (gsz k) (esz k) ltac:(lia)) as [_ E]. specialize (E Hd).
  assert (esz k * i + esz k ≤ gsz k) by nia.
  assert ((esz k | PAGE_SIZE) ∨ gsz k = esz k) as Hor.
  { destruct Hkind as [[_ Eg]|[_ Eg]]; [left|by right].
    rewrite <- Eg. apply Z.mod_divide; [lia|done]. }
  split_and!; [done|nia|lia| | |].
  - intros Hle. apply Z.mod_divide; [lia|]. replace (s + esz k * i - base) with ((s - base) + i * esz k) by ring.
    apply Z.divide_add_r; [|apply Z.divide_factor_r].
    apply Z.mod_divide in Hm; [|done]. destruct Hor as [Hor|Hor]; [by etransitivity|].
    etransitivity; [|exact Hm]. apply Z.mod_divide; [lia|].
    destruct Hkind as [[? ?]|[? ?]]; [lia|]. assert (esz k = PAGE_SIZE) as -> by lia. done.
  - apply Z.mod_divide; [lia|]. replace (s + esz k * i - base) with ((s - base) + i * esz k) by ring.
    apply Z.divide_add_r; [|apply Z.divide_mul_r, Z.mod_divide; [lia|done]].
    apply Z.mod_divide in Hm; [|done]. etransitivity; [|exact Hm]. by exists 256.
  - exists s. split_and!; [done|nia|lia|]. intros Hge.
    destruct Hkind as [[? ?]|[? Eg]]; [lia|]. rewrite Eg, Z.div_same in Hi by lia.
    assert (i = 0) as -> by lia. lia.
Qed.

(** Different blocks do not overlap. *)
Lemma block_apart a k b j : block base rs a k → block base rs b j →
  a = b ∧ k = j ∨ a + esz k ≤ b ∨ b + esz j ≤ a.
Proof.
  intros (s & i & Hin & Hi & ->) (s' & i' & Hin' & Hi' & ->).
  pose proof (layout_bounds _ _ _ _ Hb Hin) as (Hk & _).
  pose proof (layout_bounds _ _ _ _ Hb Hin') as (Hj & _).
  destruct (bin_sizes k Hk) as [Hp _ _ Hd _], (bin_sizes j Hj) as [Hp' _ _ Hd' _].
  pose proof (proj2 (Z.div_exact (gsz k) (esz k) ltac:(lia)) Hd) as E.
  pose proof (proj2 (Z.div_exact (gsz j) (esz j) ltac:(lia)) Hd') as E'.
  destruct (layout_apart _ _ _ _ _ _ Hb Hin Hin') as [[-> ->]|[Hl|Hl]].
  - destruct (Z.lt_trichotomy i i') as [?|[->|?]]; [right; left; nia|by left|right; right; nia].
  - right; left. nia.
  - right; right. nia.
Qed.
End blocks.

Lemma block_snoc base rs k a j :
  block base (rs ++ [k]) a j ↔
  block base rs a j ∨ j = k ∧ ∃ i, 0 ≤ i < gsz k / esz k ∧ a = top base rs + esz k * i.
Proof.
  unfold block. rewrite layout_snoc. split.
  - intros (s & i & [Hin|Hin]%elem_of_app & Hi & ->); [left; eauto|].
    apply list_elem_of_singleton in Hin. simplify_eq. eauto.
  - intros [(s & i & Hin & Hi & ->)|(-> & i & Hi & ->)].
    + exists s, i. rewrite elem_of_app. auto.
    + exists (top base rs), i. rewrite elem_of_app, list_elem_of_singleton. auto.
Qed.

(** ** The invariant *)

(** [a] is in the area bin [b] has not used yet. *)
Definition raw_block (b : heap_bin) (a : Z) : Prop :=
  ∃ i, 0 ≤ i < raw_count b ∧ a = raw_list b + element_size b * i.

(** How many of the blocks [live] belong to bin [k]. *)
Definition in_bin (live : gmap Z nat) (k : nat) : Z :=
  Z.of_nat (size (filter (λ p, p.2 = k) live)).

(** Bin [k] with the free list [fl], [live] being the blocks in use, by address. *)
Record bin_inv (w : gmap Z Z) (base : Z) (rs : list nat) (live : gmap Z nat) (k : nat)
    (fl : list Z) (b : heap_bin) : Prop := {
  bi_size : element_size b = esz k;
  bi_grow : grow_size b = gsz k;
  bi_head : free_list b = head_or NULL fl;
  bi_seg : qseg w fl NULL;
  bi_nodup : NoDup fl;
  bi_free a : a ∈ fl → block base rs a k ∧ live !! a = None ∧ ¬ raw_block b a;
  bi_raw a : raw_block b a → block base rs a k ∧ live !! a = None;
  bi_all a : block base rs a k → live !! a = Some k ∨ a ∈ fl ∨ raw_block b a;
  bi_count : 0 ≤ raw_count b ≤ 256;
  bi_alloc : alloc_count b = u32 (in_bin live k);
  bi_frees : free_count b = u32 (Z.of_nat (length fl)) }.

(** The descriptors of the pages of the regions name their bins. *)
Definition pages_ok (base : Z) (rs : list nat) (t : list heap_page) : Prop :=
  ∀ s k i, (s, k) ∈ layout base rs → 0 ≤ i < gsz k / PAGE_SIZE →
    ∃ p, t !! Z.to_nat ((s - base) / PAGE_SIZE + i) = Some p ∧ bin_index p = Z.of_nat k.

Record heap_inv (h : heap) (live : gmap Z nat) (rs : list nat) (frees : nat → list Z) : Prop := {
  hi_rs : bins_of rs;
  hi_len : length (bins h) = nbins;
  hi_bins k b : bins h !! k = Some b → bin_inv (words h) (heap_base h) rs live k (frees k) b;
  hi_live a k : live !! a = Some k → block (heap_base h) rs a k;
  hi_top : heap_base_ptr h = top (heap_base h) rs;
  hi_base : 0 < heap_base h ∧ heap_base h mod PAGE_SIZE = 0;
  hi_room : heap_base_ptr h ≤ heap_base h + heap_size h ∧ heap_base h + heap_size h ≤ 2 ^ 32 - 2 ^ 17;
  hi_size : heap_size h mod PAGE_SIZE = 0;
  hi_pages : pages_ok (heap_base h) rs (heap_alloc_table h);
  hi_table : Z.of_nat (length (heap_alloc_table h)) = heap_size h / PAGE_SIZE;
  hi_words w : heap_base h ≤ w < heap_base h + heap_size h → w mod 4 = 0 → w ∈ dom (words h) }.

(** The heap is in order and [live] are the blocks in use. *)
Definition heap_ok (h : heap) (live : gmap Z nat) : Prop :=
  locks (hcpu h) !! heap_lock = Some SPIN_UNLOCKED ∧ ∃ rs frees, heap_inv h live rs frees.

(** Descriptors that changed in their counters only. *)
Definition same_bins (t t' : list heap_page) : Prop := bin_index <$> t' = bin_index <$> t.

#[export] Instance same_bins_preorder : PreOrder same_bins.
Proof. split; [done|]. unfold same_bins. intros t1 t2 t3. congruence. Qed.

Lemma same_bins_lookup t t' i p :
  same_bins t t' → t !! i = Some p → ∃ p', t' !! i = Some p' ∧ bin_index p' = bin_index p.
Proof.
  intros E Hp. assert ((bin_index <$> t') !! i = Some (bin_index p)) as H.
  { rewrite E, list_lookup_fmap, Hp. done. }
  rewrite list_lookup_fmap in H. destruct (t' !! i); simplify_eq/=. eauto.
Qed.

Lemma same_bins_pages base rs t t' : same_bins t t' → pages_ok base rs t → pages_ok base rs t'.
Proof.
  intros E Hp s k i Hin Hi. destruct (Hp s k i Hin Hi) as (p & Ht & Ek).
  destruct (same_bins_lookup _ _ _ _ E Ht) as (p' & ? & ?). exists p'. split; [done|congruence].
Qed.

Lemma same_bins_length t t' : same_bins t t' → length t' = length t.
Proof. intros E. apply (f_equal length) in E. by rewrite !length_fmap in E. Qed.

(** ** One block changes hands *)

Lemma in_bin_other live live' a k j :
  (∀ x, x ≠ a → live' !! x = live !! x) → (∀ i, live !! a = Some i → i = k) →
  (∀ i, live' !! a = Some i → i = k) → j ≠ k → in_bin live' j = in_bin live j.
Proof.
  intros He H1 H2 Hj. unfold in_bin. do 2 f_equal. apply map_eq. intros x.
  apply option_eq. intros i. rewrite !map_lookup_filter_Some. simpl.
  destruct (decide (x = a)) as [->|]; [|by rewrite He].
  split; intros [Hx ->]; exfalso; apply Hj; auto.
Qed.

Lemma in_bin_insert live a k : live !! a = None → in_bin (<[a := k]> live) k = in_bin live k + 1.
Proof.
  intros Ha. unfold in_bin. rewrite map_filter_insert_True by done.
  rewrite map_size_insert_None; [lia|]. apply map_lookup_filter_None. by left.
Qed.

Lemma in_bin_delete live a k : live !! a = Some k → in_bin (delete a live) k = in_bin live k - 1.
Proof.
  intros Ha. rewrite <- (insert_delete_id live a k) at 2 by done.
  rewrite in_bin_insert by apply lookup_delete_eq. lia.
Qed.

(** Words outside a block. *)
Definition kept_outside (w w' : gmap Z Z) (a n : Z) : Prop :=
  dom w' = dom w ∧ ∀ x, x < a ∨ a + n ≤ x → w' !! x = w !! x.

Section change.
Context (h h' : heap) (live live' : gmap Z nat) (rs : list nat) (frees : nat → list Z).
Context (k : nat) (b b' : heap_bin) (fl' : list Z) (a : Z).
Context (Hh : heap_inv h live rs frees) (Hb : bins h !! k = Some b).
Context (Ha : block (heap_base h) rs a k).
Context (Hne : ∀ x, x ≠ a → live' !! x = live !! x).
Context (Hlive : ∀ i, live' !! a = Some i → i = k).
Context (Hbins : bins h' = <[k := b']> (bins h)).
Context (Hsame : heap_base h' = heap_base h ∧ heap_size h' = heap_size h ∧
  heap_base_ptr h' = heap_base_ptr h).
Context (Htab : same_bins (heap_alloc_table h) (heap_alloc_table h')).
Context (Hw : kept_outside (words h) (words h') a (esz k)).
Context (Hb' : bin_inv (words h') (heap_base h) rs live' k fl' b').

(** The other bins do not notice. *)
Lemma other_bin j bj : j ≠ k → bins h !! j = Some bj →
  bin_inv (words h') (heap_base h) rs live' j (frees j) bj.
Proof.
  intros Hj Hbj. pose proof (hi_rs _ _ _ _ Hh) as Hrs.
  assert (∀ x, block (heap_base h) rs x j → x ≠ a ∧ (x < a ∨ a + esz k ≤ x)) as Hx.
  { intros x Hx. pose proof (block_bounds _ _ Hrs _ _ Hx) as (Hj' & _).
    pose proof (block_bounds _ _ Hrs _ _ Ha) as (Hk' & _).
    pose proof (so_pos _ (bin_sizes _ Hj')). pose proof (so_pos _ (bin_sizes _ Hk')).
    destruct (block_apart _ _ Hrs _ _ _ _ Hx Ha) as [[_ ?]|[?|?]]; [done|lia..]. }
  destruct (hi_bins _ _ _ _ Hh j bj Hbj) as [H1 H2 H3 Hseg Hnd Hfree Hraw Hall Hc Hal Hf].
  split; try done.
  - eapply qseg_frame; [|exact Hseg]. intros x Hin. apply Hw, Hx. by apply Hfree.
  - intros x Hin. destruct (Hfree x Hin) as (Hbl & Hl & Hr). rewrite Hne by by apply Hx. done.
  - intros x Hin. destruct (Hraw x Hin) as (Hbl & Hl). rewrite Hne by by apply Hx. done.
  - intros x Hbl. rewrite Hne by by apply Hx. by apply Hall.
  - rewrite Hal. f_equal. symmetry. apply (in_bin_other live live' a k j); [done| |done|done].
    intros i Hi. apply (hi_live _ _ _ _ Hh) in Hi.
    pose proof (block_bounds _ _ Hrs _ _ Hi) as (Hi' & _).
    pose proof (block_bounds _ _ Hrs _ _ Ha) as (Hk' & _).
    pose proof (so_pos _ (bin_sizes _ Hi')). pose proof (so_pos _ (bin_sizes _ Hk')).
    destruct (block_apart _ _ Hrs _ _ _ _ Hi Ha) as [[_ ?]|[?|?]]; [done|lia..].
Qed.

Lemma heap_inv_change : heap_inv h' live' rs (λ j, if decide (j = k) then fl' else frees j).
Proof.
  destruct Hsame as (E1 & E2 & E3). pose proof Hh as [Hrs Hlen _ Hl Htop Hbase Hroom Hsz Hp Ht Hwd].
  split; rewrite ?E1, ?E2, ?E3; try done.
  - by rewrite Hbins, length_insert.
  - intros j bj Hj. rewrite Hbins in Hj. case_decide as Ej.
    + subst j. rewrite list_lookup_insert_eq in Hj by (by apply lookup_lt_Some in Hb).
      by simplify_eq.
    + rewrite list_lookup_insert_ne in Hj by done. by apply other_bin.
  - intros x i Hx. destruct (decide (x = a)) as [->|Hxa].
    + by rewrite (Hlive i Hx).
    + rewrite Hne in Hx by done. by apply Hl.
  - by eapply same_bins_pages.
  - by rewrite (same_bins_length _ _ Htab).
  - intros w Hw1 Hw2. rewrite (proj1 Hw). by apply Hwd.
Qed.
End change.

(** ** How a bin changes *)

Section bin_changes.
Context (w : gmap Z Z) (base : Z) (rs : list nat) (live : gmap Z nat) (k : nat).
Context (fl : list Z) (b : heap_bin) (Hrs : bins_of rs).

(** The first free block is handed out. *)
Lemma bin_take_free a :
  bin_inv w base rs live k (a :: fl) b →
  bin_inv w base rs (<[a := k]> live) k fl
    (HeapBin (element_size b) (grow_size b) (u32 (alloc_count b + 1)) (head_or NULL fl)
       (u32 (free_count b - 1)) (raw_list b) (raw_count b)).
Proof.
  intros [H1 H2 H3 [_ Hseg] Hnd Hfree Hraw Hall Hc Hal Hf]. apply NoDup_cons in Hnd as [Ha Hnd].
  destruct (Hfree a ltac:(by left)) as (Hbl & Hl & Hnr).
  split; simpl; try done; unfold raw_block in *; simpl in *.
  - intros x Hx. assert (x ≠ a) by (intros ->; done). rewrite lookup_insert_ne by done.
    apply Hfree. by right.
  - intros x Hx. assert (x ≠ a) by (intros ->; done). rewrite lookup_insert_ne by done. by apply Hraw.
  - intros x Hx. rewrite lookup_insert. case_decide as E; [by left|].
    destruct (Hall x Hx) as [?|[[->|?]%elem_of_cons|?]]; auto. done.
  - rewrite Hal, in_bin_insert by done. by rewrite uwrap_add_l.
  - rewrite Hf, uwrap_sub_l. simpl. f_equal. lia.
Qed.

(** The first block of the unused area is handed out. *)
Lemma bin_take_raw :
  bin_inv w base rs live k fl b → 0 < raw_count b → (k < nbins)%nat →
  top base rs < 2 ^ 32 → 0 ≤ base →
  bin_inv w base rs (<[raw_list b := k]> live) k fl
    (HeapBin (element_size b) (grow_size b) (u32 (alloc_count b + 1)) (free_list b)
       (free_count b) (u32 (raw_list b + element_size b)) (u32 (raw_count b - 1))).
Proof.
  intros [H1 H2 H3 Hseg Hnd Hfree Hraw Hall Hc Hal Hf] Hp Hk Htop Hbase.
  pose proof (so_pos _ (bin_sizes _ Hk)) as Hz. set (a := raw_list b) in *.
  assert (raw_block b a) as Ha by (exists 0; split; [lia|unfold a; lia]).
  destruct (Hraw a Ha) as [Hbl Hl].
  pose proof (block_bounds _ _ Hrs _ _ Hbl) as (_ & Hlo & Hhi & _).
  rewrite (uwrap_small 32 (a + _)), (uwrap_small 32 (raw_count b - 1)) by lia.
  assert (∀ x, raw_block (HeapBin (element_size b) (grow_size b) (u32 (alloc_count b + 1)) (free_list b)
       (free_count b) (a + element_size b) (raw_count b - 1)) x ↔ raw_block b x ∧ x ≠ a) as Hr.
  { intros x. unfold raw_block. simpl. fold a. rewrite H1. split.
    - intros (i & Hi & ->). split; [exists (i + 1); split; [lia|ring]|nia].
    - intros [(i & Hi & ->) Hne]. exists (i - 1). split; [|ring].
      assert (i ≠ 0) by (intros ->; apply Hne; lia). lia. }
  split; simpl; try done; try lia.
  - intros x Hx. destruct (Hfree x Hx) as (? & ? & ?). rewrite Hr.
    assert (x ≠ a) by congruence. rewrite lookup_insert_ne by done. tauto.
  - intros x [Hx Hne]%Hr. rewrite lookup_insert_ne by done. by apply Hraw.
  - intros x Hx. rewrite Hr, lookup_insert. case_decide as E; [by left|].
    destruct (Hall x Hx) as [?|[?|?]]; auto.
  - rewrite Hal, in_bin_insert by done. by rewrite uwrap_add_l.
Qed.

(** Block [a] comes back; [w'] holds the link in its first word. *)
Lemma bin_give_back w' a :
  bin_inv w base rs live k fl b → live !! a = Some k → block base rs a k → (k < nbins)%nat →
  kept_outside w w' a (esz k) → w' !! a = Some (free_list b) →
  bin_inv w' base rs (delete a live) k (a :: fl)
    (HeapBin (element_size b) (grow_size b) (u32 (alloc_count b - 1)) a
       (u32 (free_count b + 1)) (raw_list b) (raw_count b)).
Proof.
  intros [H1 H2 H3 Hseg Hnd Hfree Hraw Hall Hc Hal Hf] Hl Hbl Hk Hw Hwa.
  pose proof (so_pos _ (bin_sizes _ Hk)) as Hz.
  assert (a ∉ fl) as Ha by (intros Ha; apply Hfree in Ha; naive_solver congruence).
  split; simpl; try done; unfold raw_block in *; simpl in *.
  - split; [by rewrite Hwa, H3|]. eapply qseg_frame; [|exact Hseg]. intros x Hx. apply Hw.
    destruct (Hfree x Hx) as (Hbx & _).
    destruct (block_apart _ _ Hrs _ _ _ _ Hbx Hbl) as [[-> _]|[?|?]]; [done|lia..].
  - by apply NoDup_cons.
  - intros x Hx. rewrite lookup_delete. case_decide as E.
    + subst x. split_and!; [done..|]. intros Hr. apply Hraw in Hr. naive_solver congruence.
    + apply Hfree. apply elem_of_cons in Hx as [->|?]; done.
  - intros x Hx. rewrite lookup_delete. case_decide as E.
    + subst x. apply Hraw in Hx. naive_solver.
    + by apply Hraw.
  - intros x Hx. rewrite lookup_delete. case_decide as E.
    + subst x. right; left. by left.
    + destruct (Hall x Hx) as [?|[?|?]]; auto. right; left. by right.
  - rewrite Hal, in_bin_delete by done. by rewrite uwrap_sub_l.
  - rewrite Hf, uwrap_add_l. f_equal. lia.
Qed.

(** A new region at the top becomes the unused area. *)
Lemma bin_grow :
  bin_inv w base rs live k fl b → (k < nbins)%nat → raw_count b = 0 →
  (∀ a j, live !! a = Some j → block base rs a j) →
  bin_inv w base (rs ++ [k]) live k fl
    (HeapBin (element_size b) (grow_size b) (alloc_count b) (free_list b)
       (free_count b) (top base rs) (grow_size b / element_size b)).
Proof.
  intros [H1 H2 H3 Hseg Hnd Hfree Hraw Hall Hc Hal Hf] Hk Hz Hlive.
  pose proof (bin_sizes _ Hk) as [Hp _ [_ Hg] Hd Hkind].
  assert (∀ x j i, block base rs x j → 0 ≤ i → x ≠ top base rs + esz k * i) as Hold.
  { intros x j i Hx Hi ->. pose proof (block_bounds _ _ Hrs _ _ Hx) as (Hj & _ & Hhi & _).
    pose proof (so_pos _ (bin_sizes _ Hj)). nia. }
  assert (∀ x, block base rs x k → ¬ raw_block b x) as Hno.
  { intros x _ (i & Hi & _). lia. }
  split; simpl; try done; unfold raw_block in *; simpl in *; rewrite ?H1, ?H2.
  - intros x Hx. destruct (Hfree x Hx) as (Hbl & Hl & _). split_and!; [by apply block_snoc; left|done|].
    intros (i & Hi & E). eapply Hold; eauto. lia.
  - intros x (i & Hi & ->). split; [apply block_snoc; right; eauto|].
    destruct (live !! _) eqn:El; [|done]. apply Hlive in El. exfalso. eapply (Hold _ _ i); eauto. lia.
  - intros x [Hx|(_ & Hx)]%block_snoc; [|auto].
    destruct (Hall x Hx) as [?|[?|?]]; auto. exfalso. by eapply Hno.
  - split; [apply Z.div_pos; lia|].
    destruct Hkind as [[? ->]|[? ->]]; [|rewrite Z.div_same; lia].
    apply Z.div_le_upper_bound; [lia|]. unfold PAGE_SIZE. lia.
Qed.
End bin_changes.

(** ** Page descriptors *)

Lemma same_bins_alter f t i :
  (∀ p, bin_index (f p) = bin_index p) → same_bins t (alter f i t).
Proof.
  intros Hf. unfold same_bins. apply list_eq. intros j. rewrite !list_lookup_fmap.
  destruct (decide (i = j)) as [->|].
  - rewrite list_lookup_alter_eq. destruct (t !! j); simpl; congruence.
  - by rewrite list_lookup_alter_ne.
Qed.

Lemma wp_st_hpage i f h (Q : unit → heap → Prop) :
  0 ≤ i < Z.of_nat (length (heap_alloc_table h)) →
  Q tt (upd_table (alter f (Z.to_nat i) (heap_alloc_table h)) h) → wp (st_hpage i f) h Q.
Proof.
  intros Hi HQ. destruct (lookup_lt_is_Some_2 (heap_alloc_table h) (Z.to_nat i)) as [p Hp]; [lia|].
  unfold st_hpage, ld_hpage. wp_go. eapply wp_load; [|by wp_go].
  rewrite (proj2 (Z.leb_le 0 i)) by lia. done.
Qed.

Lemma upd_table_table t t' h : upd_table t (upd_table t' h) = upd_table t h.
Proof. done. Qed.

Lemma upd_table_same h : upd_table (heap_alloc_table h) h = h.
Proof. by destruct h. Qed.

Lemma wp_add_page_free i d h (Q : unit → heap → Prop) :
  0 ≤ i < Z.of_nat (length (heap_alloc_table h)) →
  (∀ t, same_bins (heap_alloc_table h) t → Q tt (upd_table t h)) → wp (add_page_free i d) h Q.
Proof. intros Hi HQ. apply wp_st_hpage; [done|]. apply HQ. by apply same_bins_alter. Qed.

Lemma wp_count_pages n : ∀ page i d h (Q : unit → heap → Prop),
  (∀ j, i ≤ j < i + Z.of_nat n → 0 ≤ page + j < Z.of_nat (length (heap_alloc_table h))) →
  (∀ t, same_bins (heap_alloc_table h) t → Q tt (upd_table t h)) →
  wp (count_pages n page i d) h Q.
Proof.
  induction n as [|n IH]; intros page i d h Q Hr HQ; cbn [count_pages].
  - wp_go. rewrite <- (upd_table_same h). by apply HQ.
  - wp_go. apply wp_add_page_free; [apply Hr; lia|]. intros t Ht. apply IH.
    + intros j Hj. simpl. rewrite (same_bins_length _ _ Ht). apply Hr. lia.
    + intros t' Ht'. apply HQ. by transitivity t.
Qed.

(** The pages of a block know its bin. *)
Definition block_page (h : heap) (a : Z) (k : nat) (j : Z) : Prop :=
  let i := (a - heap_base h) / PAGE_SIZE + j in
  0 ≤ i < Z.of_nat (length (heap_alloc_table h)) ∧
  ∃ p, heap_alloc_table h !! Z.to_nat i = Some p ∧ bin_index p = Z.of_nat k.

Lemma block_pages h live rs frees a k j :
  heap_inv h live rs frees → block (heap_base h) rs a k → 0 ≤ j → j = 0 ∨ j < esz k / PAGE_SIZE →
  block_page h a k j.
Proof.
  intros Hh Hbl Hj Hj'. pose proof (hi_rs _ _ _ _ Hh) as Hrs.
  pose proof (block_bounds _ _ Hrs _ _ Hbl) as (Hk & Hlo & _ & _ & _ & s & Hin & Hs & He & Hal).
  pose proof (layout_bounds _ _ _ _ Hrs Hin) as (_ & Hs0 & _ & Hm).
  destruct (bin_sizes k Hk) as [Hp _ [Hgm Hg] Hd Hkind]. unfold PAGE_SIZE in *.
  assert ((a - heap_base h) / 4096 = (s - heap_base h) / 4096 ∧ j < gsz k / 4096) as [E Hjg].
  { destruct Hkind as [[? Eg]|[? Eg]].
    - rewrite Eg in *. rewrite Z.div_small in Hj' by lia. split; [|change (4096 / 4096) with 1; lia].
      pose proof (proj2 (Z.div_exact (s - heap_base h) 4096 ltac:(lia)) Hm).
      symmetry. apply Z.div_unique with (r := (a - s)); lia.
    - rewrite Hal by lia. split; [done|]. rewrite Eg. destruct Hj' as [->|]; [|done].
      apply Z.div_str_pos. lia. }
  destruct (hi_pages _ _ _ _ Hh s k j Hin ltac:(unfold PAGE_SIZE; lia)) as (p & Hp' & Ek).
  unfold block_page, PAGE_SIZE in *. rewrite E. pose proof (lookup_lt_Some _ _ _ Hp') as Hlt.
  assert (0 ≤ (s - heap_base h) / 4096) by (apply Z.div_pos; lia). split; [lia|eauto].
Qed.

(** ** Growing *)

Lemma heap_size_pages h live rs frees :
  heap_inv h live rs frees → heap_size h = Z.of_nat (length (heap_alloc_table h)) * PAGE_SIZE.
Proof.
  intros Hh. rewrite (hi_table _ _ _ _ Hh), Z.mul_comm. apply Z.div_exact; [done|apply Hh].
Qed.

Lemma top_page rs base : bins_of rs → (top base rs - base) mod PAGE_SIZE = 0 ∧ base ≤ top base rs.
Proof.
  revert base. induction rs as [|k rs IH] using rev_ind; intros base Hb.
  - simpl. rewrite Z.sub_diag. done.
  - apply Forall_app in Hb as [Hb [Hk _]%Forall_cons]. rewrite top_snoc.
    destruct (IH base Hb) as [Hm Hle]. pose proof (so_grow _ (bin_sizes _ Hk)) as [Hg ?].
    split; [|lia]. replace (top base rs + gsz k - base) with (top base rs - base + gsz k) by lia.
    by rewrite Zplus_mod, Hm, Hg.
Qed.

(** [take_heap_page]: the descriptor, the other ones untouched. *)
Lemma wp_mark_heap_pages n : ∀ k i h (Q : unit → heap → Prop),
  (k < nbins)%nat → 0 ≤ i → i + Z.of_nat n ≤ Z.of_nat (length (heap_alloc_table h)) →
  (∀ t, length t = length (heap_alloc_table h) →
    (∀ j, i ≤ Z.of_nat j < i + Z.of_nat n → ∃ p, t !! j = Some p ∧ bin_index p = Z.of_nat k) →
    (∀ j, Z.of_nat j < i → t !! j = heap_alloc_table h !! j) → Q tt (upd_table t h)) →
  wp (mark_heap_pages n k (heap_base h + i * PAGE_SIZE)) h Q.
Proof.
  induction n as [|n IH]; intros k i h Q Hk Hi Hlen HQ; cbn [mark_heap_pages].
  - wp_go. rewrite <- (upd_table_same h). apply HQ; [done| |done]. intros j ?. lia.
  - wp_go. unfold take_heap_page. wp_go.
    replace ((heap_base h + i * PAGE_SIZE - heap_base h) / PAGE_SIZE) with i
      by (unfold PAGE_SIZE; rewrite Z.add_simpl_l, Z.div_mul; lia).
    apply wp_st_hpage; [lia|]. set (p := HeapPage _ _ _ _).
    replace (heap_base h + i * PAGE_SIZE + PAGE_SIZE) with (heap_base h + (i + 1) * PAGE_SIZE) by ring.
    set (h1 := upd_table _ h). change (heap_base h) with (heap_base h1).
    apply IH; [done|lia|unfold h1; simpl; rewrite length_alter; lia|].
    intros t Hl Ht Ho. apply (HQ t).
    + rewrite Hl. unfold h1. simpl. by rewrite length_alter.
    + intros j Hj. destruct (decide (i = Z.of_nat j)) as [->|]; [|apply Ht; lia].
      rewrite Ho by lia. unfold h1. simpl. rewrite Nat2Z.id, list_lookup_alter_eq.
      destruct (lookup_lt_is_Some_2 (heap_alloc_table h) j) as [q ->]; [lia|].
      eexists. split; [done|]. simpl. unfold nbins in Hk. apply uwrap_small. lia.
    + intros j Hj. rewrite Ho by lia. unfold h1. simpl. apply list_lookup_alter_ne. lia.
Qed.

Lemma page_align_gsz k : (k < nbins)%nat → PAGE_ALIGN (gsz k) = gsz k.
Proof.
  intros Hk. destruct (bin_sizes k Hk) as [_ _ [Hm Hg] _ _].
  rewrite PAGE_ALIGN_up by (unfold PAGE_SIZE; lia). unfold PAGE_SIZE in *.
  apply Z.div_exact in Hm; [|done]. rewrite Hm at 2. rewrite Z.mul_comm. f_equal.
  symmetry. apply Z.div_unique with (r := 4095); lia.
Qed.

Definition grown_bin (b : heap_bin) (p : Z) : heap_bin :=
  HeapBin (element_size b) (grow_size b) (alloc_count b) (free_list b) (free_count b) p
    (grow_size b / element_size b).

Lemma inv_grow h live rs frees k b t :
  heap_inv h live rs frees → bins h !! k = Some b → raw_count b = 0 →
  heap_base_ptr h + gsz k ≤ heap_base h + heap_size h →
  length t = length (heap_alloc_table h) →
  (∀ j, let i := (heap_base_ptr h - heap_base h) / PAGE_SIZE in
     i ≤ Z.of_nat j < i + gsz k / PAGE_SIZE → ∃ p, t !! j = Some p ∧ bin_index p = Z.of_nat k) →
  (∀ j, Z.of_nat j < (heap_base_ptr h - heap_base h) / PAGE_SIZE → t !! j = heap_alloc_table h !! j) →
  heap_inv (upd_bins (<[k := grown_bin b (heap_base_ptr h)]> (bins h))
    (upd_base_ptr (heap_base_ptr h + gsz k) (upd_table t h))) live (rs ++ [k]) frees.
Proof.
  intros Hh Hb Hz Hfit Hlt Hnew Hold. pose proof Hh as [Hrs Hlen Hbins Hl Htop Hbase Hroom Hsz Hp Ht Hwd].
  assert (k < nbins)%nat as Hk by (rewrite <- Hlen; by apply lookup_lt_Some in Hb).
  pose proof (top_page rs (heap_base h) Hrs) as [Hmod Hle]. rewrite <- Htop in Hmod, Hle.
  split; simpl; try done.
  - apply Forall_app. split; [done|by apply Forall_singleton].
  - by rewrite length_insert.
  - intros j bj Hj. destruct (decide (j = k)) as [->|Hjk].
    + rewrite list_lookup_insert_eq in Hj by (by apply lookup_lt_Some in Hb). simplify_eq.
      rewrite Htop. apply bin_grow; auto.
    + rewrite list_lookup_insert_ne in Hj by done.
      destruct (Hbins j bj Hj) as [H1 H2 H3 Hseg Hnd Hfree Hraw Hall Hc Hal Hf].
      assert (∀ x, block (heap_base h) (rs ++ [k]) x j ↔ block (heap_base h) rs x j) as Hbs.
      { intros x. rewrite block_snoc. split; [intros [?|[? _]]; done|by left]. }
      split; try done.
      * intros x Hx. rewrite Hbs. by apply Hfree.
      * intros x Hx. rewrite Hbs. by apply Hraw.
      * intros x Hx%Hbs. by apply Hall.
  - intros a j Ha. apply block_snoc. left. by apply Hl.
  - by rewrite top_snoc, Htop.
  - lia.
  - intros s j i Hin Hi. rewrite layout_snoc in Hin. apply elem_of_app in Hin as [Hin|Hin].
    + destruct (Hp s j i Hin Hi) as (p & Hpt & Ek). exists p. split; [|done]. rewrite Hold; [done|].
      pose proof (layout_bounds _ _ _ _ Hrs Hin) as (Hj & Hs & He & Hm).
      rewrite <- Htop in He. destruct (bin_sizes j Hj) as [_ _ [Hgm Hg] _ _]. unfold PAGE_SIZE in *.
      pose proof (Z.div_pos (s - heap_base h) 4096 ltac:(lia) ltac:(lia)).
      rewrite Z2Nat.id by lia. apply Z.lt_le_trans with ((s - heap_base h) / 4096 + gsz j / 4096); [lia|].
      apply Z.div_exact in Hm; [|done]. apply Z.div_exact in Hgm; [|done].
      apply Z.div_le_lower_bound; lia.
    + apply list_elem_of_singleton in Hin. simplify_eq. rewrite <- Htop.
      assert (0 ≤ (heap_base_ptr h - heap_base h) / PAGE_SIZE)
        by (apply Z.div_pos; unfold PAGE_SIZE; lia).
      apply Hnew. rewrite Z2Nat.id by lia. lia.
  - by rewrite Hlt.
Qed.

(** Where the heap has no room for a region of bin [k] the kernel panics. *)
Lemma wp_raw_alloc h live rs frees k b (Q : Z → heap → Prop) :
  heap_inv h live rs frees → bins h !! k = Some b →
  heap_base_ptr h + gsz k ≤ heap_base h + heap_size h →
  (∀ t, length t = length (heap_alloc_table h) →
     (∀ j, let i := (heap_base_ptr h - heap_base h) / PAGE_SIZE in
        i ≤ Z.of_nat j < i + gsz k / PAGE_SIZE → ∃ p, t !! j = Some p ∧ bin_index p = Z.of_nat k) →
     (∀ j, Z.of_nat j < (heap_base_ptr h - heap_base h) / PAGE_SIZE → t !! j = heap_alloc_table h !! j) →
     Q (heap_base_ptr h) (upd_base_ptr (heap_base_ptr h + gsz k) (upd_table t h))) →
  wp (raw_alloc (gsz k) k) h Q.
Proof.
  intros Hh Hb Hfit HQ. pose proof Hh as [Hrs Hlen Hbins Hl Htop Hbase Hroom Hsz Hp Ht Hwd].
  assert (k < nbins)%nat as Hk by (rewrite <- Hlen; by apply lookup_lt_Some in Hb).
  pose proof (top_page rs (heap_base h) Hrs) as [Hmod Hle]. rewrite <- Htop in Hmod, Hle.
  pose proof (so_grow _ (bin_sizes _ Hk)) as [Hgm Hg].
  pose proof (heap_size_pages _ _ _ _ Hh) as Hpg.
  unfold raw_alloc. wp_go. rewrite page_align_gsz, !uwrap_small by (done || lia).
  rewrite (proj2 (Z.ltb_ge _ _)) by lia. wp_go.
  set (i := (heap_base_ptr h - heap_base h) / PAGE_SIZE) in *.
  assert (heap_base_ptr h = heap_base h + i * PAGE_SIZE) as Eb.
  { apply Z.div_exact in Hmod; [|done]. unfold i. lia. }
  assert (heap_base_ptr h + gsz k - heap_base_ptr h + PAGE_SIZE - 1 = gsz k + (PAGE_SIZE - 1)) as -> by lia.
  assert (gsz k = gsz k / PAGE_SIZE * PAGE_SIZE) as Eg.
  { apply Z.div_exact in Hgm; [|done]. lia. }
  assert ((gsz k + (PAGE_SIZE - 1)) / PAGE_SIZE = gsz k / PAGE_SIZE) as ->.
  { rewrite Eg at 1. rewrite Z.add_comm, Z.div_add by done. done. }
  unfold PAGE_SIZE in *.
  assert (0 ≤ i) by (unfold i; apply Z.div_pos; lia). assert (0 ≤ gsz k / 4096) by (apply Z.div_pos; lia).
  rewrite Eb at 1. apply wp_mark_heap_pages; [done|done|unfold PAGE_SIZE; lia|].
  intros t Hlt Hnew Hold. wp_go. apply HQ; [done| |done]. intros j Hj. apply Hnew. lia.
Qed.

Lemma raw_alloc_panics h live rs frees k b :
  heap_inv h live rs frees → bins h !! k = Some b →
  heap_base h + heap_size h < heap_base_ptr h + gsz k → raw_alloc (gsz k) k h = Panic.
Proof.
  intros Hh Hb Hfit. pose proof Hh as [Hrs Hlen _ _ Htop Hbase Hroom _ _ _ _].
  assert (k < nbins)%nat as Hk by (rewrite <- Hlen; by apply lookup_lt_Some in Hb).
  pose proof (top_page rs (heap_base h) Hrs) as [_ Hle]. rewrite <- Htop in Hle.
  pose proof (so_grow _ (bin_sizes _ Hk)) as [Hgm Hg].
  unfold raw_alloc, mbind, M_bind, get. rewrite page_align_gsz, !uwrap_small by (done || lia).
  by rewrite (proj2 (Z.ltb_lt _ _)) by lia.
Qed.

(** ** Locking *)

Lemma inv_hcpu h live rs frees c : heap_inv h live rs frees → heap_inv (upd_hcpu c h) live rs frees.
Proof. intros [??????????]. by split. Qed.

(** The section between the lock and the unlock runs with some processor state and
    ends with the one before. *)
Lemma wp_critical {A} h (body : M heap A) (Q : A → heap → Prop) :
  locks (hcpu h) !! heap_lock = Some SPIN_UNLOCKED →
  (∀ c, wp body (upd_hcpu c h) (λ a h1, hcpu h1 = c ∧ threading h1 = threading h ∧
     Q a (upd_hcpu (hcpu h) h1))) →
  wp (heap_critical body) h Q.
Proof.
  intros Hl Hbody. unfold heap_critical, HEAP_LOCK, HEAP_UNLOCK. wp_go. destruct (threading h) eqn:Et; wp_go.
  - unfold simple_lock, spin_trylock. wp_go. eapply wp_of_ok; [by apply atomic_set_ret_ok|].
    wp_go. change (SPIN_UNLOCKED =? 0) with true. cbv iota. change (1 =? 0) with false. cbv iota.
    wp_go. eapply wp_mono; [apply Hbody|]. intros a h1 (Ec & Et1 & HQ). wp_go.
    rewrite Et1. wp_go. apply wp_spin_unlock; rewrite Ec; simpl;
      [rewrite lookup_insert_eq; by eexists|]. wp_go. by rewrite unlock_locked.
  - apply wp_spin_lock_irqsave; [done|]. wp_go. eapply wp_mono; [apply Hbody|].
    intros a h1 (Ec & Et1 & HQ). wp_go. rewrite Et1. wp_go.
    apply wp_spin_unlock_irqrstor; rewrite Ec; simpl; [rewrite lookup_insert_eq; by eexists|].
    wp_go. by rewrite unlock_locked.
Qed.

(** ** Allocation *)

(** Bin [k] is the smallest with room for [size] bytes. *)
Definition best_bin (size : Z) (k : nat) : Prop :=
  (k < nbins)%nat ∧ size ≤ esz k ∧ ∀ j, (j < k)%nat → esz j < size.

Lemma find_bin_from bs size : ∀ k0,
  match find_bin bs size k0 with
  | Some k => ∃ i b, k = (k0 + i)%nat ∧ bs !! i = Some b ∧ size ≤ element_size b ∧
      ∀ j b, (j < i)%nat → bs !! j = Some b → element_size b < size
  | None => ∀ b, b ∈ bs → element_size b < size
  end.
Proof.
  induction bs as [|b bs IH]; intros k0; cbn [find_bin]; [by intros ? ?%not_elem_of_nil|].
  destruct (Z.leb_spec size (element_size b)).
  - exists 0%nat, b. split_and!; [lia|done|done|]. intros. lia.
  - specialize (IH (S k0)). destruct (find_bin bs size (S k0)) as [k|].
    + destruct IH as (i & b' & -> & Hb & Hs & Hmin). exists (S i), b'. split_and!; [lia|done|done|].
      intros [|j] c Hj Hc; simpl in Hc; [by simplify_eq|]. apply (Hmin j); [lia|done].
    + intros b' [->|Hb]%elem_of_cons; [done|auto].
Qed.

Lemma find_bin_spec h live rs frees size :
  heap_inv h live rs frees →
  match find_bin (bins h) size 0 with
  | Some k => best_bin size k ∧ is_Some (bins h !! k)
  | None => 0x18000 < size
  end.
Proof.
  intros Hh. pose proof (find_bin_from (bins h) size 0) as Hf.
  assert (∀ j, (j < nbins)%nat → ∃ b, bins h !! j = Some b ∧ element_size b = esz j) as Hsz.
  { intros j Hj. rewrite <- (hi_len _ _ _ _ Hh) in Hj.
    destruct (lookup_lt_is_Some_2 _ _ Hj) as [b Hb]. exists b. split; [done|].
    by apply (hi_bins _ _ _ _ Hh) in Hb as [? _]. }
  destruct (find_bin _ _ _) as [k|].
  - destruct Hf as (i & b & -> & Hb & Hs & Hmin). simpl. pose proof (lookup_lt_Some _ _ _ Hb) as Hi.
    rewrite (hi_len _ _ _ _ Hh) in Hi. destruct (Hsz i Hi) as (b' & Hb' & Es).
    assert (b' = b) as -> by congruence. split; [|by eexists]. split_and!; [done|lia|].
    intros j Hj. destruct (Hsz j ltac:(lia)) as (c & Hc & <-). by eapply Hmin.
  - destruct (Hsz 31%nat ltac:(unfold nbins; lia)) as (b & Hb & Es).
    change (esz 31) with 0x18000 in Es. rewrite <- Es. apply Hf. by eapply list_elem_of_lookup_2.
Qed.

Lemma inv_table h live rs frees t :
  same_bins (heap_alloc_table h) t → heap_inv h live rs frees → heap_inv (upd_table t h) live rs frees.
Proof.
  intros Ht [??????????]. split; simpl; try done; [by eapply same_bins_pages|].
  by rewrite (same_bins_length _ _ Ht).
Qed.

Lemma wp_ld_bin k b h (Q : heap_bin → heap → Prop) : bins h !! k = Some b → Q b h → wp (ld_bin k) h Q.
Proof. intros. by eapply wp_load. Qed.

Lemma wp_st_bin k f b h (Q : unit → heap → Prop) :
  bins h !! k = Some b → Q tt (upd_bins (<[k := f b]> (bins h)) h) → wp (st_bin k f) h Q.
Proof. intros Hb HQ. unfold wp, st_bin. by rewrite Hb. Qed.

(** What no operation changes. *)
Definition hstatic (h h' : heap) : Prop :=
  hcpu h' = hcpu h ∧ threading h' = threading h ∧ heap_base h' = heap_base h ∧
  heap_size h' = heap_size h ∧ heap_table_ptr h' = heap_table_ptr h.

Definition count_alloc (b : heap_bin) : heap_bin :=
  HeapBin (element_size b) (grow_size b) (u32 (alloc_count b + 1)) (free_list b)
    (free_count b) (raw_list b) (raw_count b).

(** The end of [kmalloc], the block [a] being chosen. *)
Lemma wp_kmalloc_tail h k b2 a n live rs frees (Q : Z → heap → Prop) :
  bins h !! k = Some b2 → n = Z.to_nat (esz k / PAGE_SIZE - 1) →
  heap_inv (upd_bins (<[k := count_alloc b2]> (bins h)) h) live rs frees →
  block (heap_base h) rs a k →
  (∀ t, same_bins (heap_alloc_table h) t →
     Q a (upd_table t (upd_bins (<[k := count_alloc b2]> (bins h)) h))) →
  wp (st_bin k count_alloc;;
      base ← gets heap_base;
      let page := (a - base) / PAGE_SIZE in
      add_page_free (page + 0) (-1);; count_pages n page 1 (-1);; mret a) h Q.
Proof.
  intros Hb -> Hh Hbl HQ. wp_go. eapply wp_st_bin; [done|]. wp_go. cbv zeta. wp_go. simpl.
  set (h1 := upd_bins _ h) in *.
  assert (∀ j, 0 ≤ j → j = 0 ∨ j < esz k / PAGE_SIZE →
    0 ≤ (a - heap_base h) / PAGE_SIZE + j < Z.of_nat (length (heap_alloc_table h))) as Hpg.
  { intros j Hj Hj'. by destruct (block_pages h1 live rs frees a k j Hh Hbl Hj Hj') as (? & _). }
  apply wp_add_page_free; [apply Hpg; auto with lia|]. intros t Ht. wp_go.
  apply wp_count_pages.
  - intros j Hj. simpl. rewrite (same_bins_length _ _ Ht). simpl. apply Hpg; [lia|].
    right. lia.
  - intros t' Ht'. wp_go. rewrite upd_table_table. apply HQ. by transitivity t.
Qed.

(** The heap after an allocation of block [a] of bin [k]. *)
Definition allocated (h h' : heap) (live : gmap Z nat) (a : Z) (k : nat) : Prop :=
  (∃ rs frees, heap_inv h' (<[a := k]> live) rs frees ∧ block (heap_base h) rs a k ∧
     ∀ b j, live !! b = Some j → block (heap_base h) rs b j) ∧
  live !! a = None ∧ words h' = words h ∧ hstatic h h'.

Lemma wp_take_free h live rs frees k b a fl (Q : Z → heap → Prop) :
  heap_inv h live rs frees → bins h !! k = Some b → frees k = a :: fl →
  (∀ h', allocated h h' live a k → Q a h') →
  wp (next ← ld_word (free_list b);
      address ← (st_bin k (λ b, HeapBin (element_size b) (grow_size b) (alloc_count b) next
        (u32 (free_count b - 1)) (raw_list b) (raw_count b));; mret (free_list b));
      st_bin k count_alloc;;
      base ← gets heap_base;
      let page := (address - base) / PAGE_SIZE in
      add_page_free (page + 0) (-1);;
      count_pages (Z.to_nat (esz k / PAGE_SIZE - 1)) page 1 (-1);; mret address) h Q.
Proof.
  intros Hh Hb Efl HQ. pose proof (hi_rs _ _ _ _ Hh) as Hrs.
  pose proof (hi_bins _ _ _ _ Hh k b Hb) as Hbin. rewrite Efl in Hbin.
  destruct (bi_free _ _ _ _ _ _ _ Hbin a ltac:(by left)) as (Hbl & Hl & _).
  assert (free_list b = a) as -> by apply Hbin.
  pose proof (bi_seg _ _ _ _ _ _ _ Hbin) as [Hseg _].
  apply wp_bind. eapply wp_load; [exact Hseg|]. wp_flat. apply wp_bind. eapply wp_st_bin; [done|].
  match goal with |- wp _ (upd_bins (<[k := ?x]> _) _) _ => set (b1 := x) end.
  set (h1 := upd_bins _ h).
  assert (heap_inv (upd_bins (<[k := count_alloc b1]> (bins h1)) h1) (<[a := k]> live) rs
    (λ j, if decide (j = k) then fl else frees j)) as Hh1.
  { eapply (heap_inv_change h _ live _ rs frees k b (count_alloc b1) fl a); try done; simpl.
    - intros x Hx. by rewrite lookup_insert_ne.
    - intros i. rewrite lookup_insert_eq. congruence.
    - by rewrite list_insert_insert_eq.
    - by apply (bin_take_free (words h) (heap_base h) rs live k fl b). }
  apply wp_bind, wp_ret. apply (wp_kmalloc_tail h1 k b1 a _ (<[a := k]> live) rs (λ j, if decide (j = k) then fl else frees j)).
  - apply list_lookup_insert_eq. by apply lookup_lt_Some in Hb.
  - done.
  - done.
  - done.
  - intros t Ht. apply HQ. split_and!; try done. eexists rs, _.
    split_and!; [by apply inv_table|done|apply Hh].
Qed.

Lemma wp_take_raw h live rs frees k b (Q : Z → heap → Prop) :
  heap_inv h live rs frees → bins h !! k = Some b → 0 < raw_count b →
  (∀ h', allocated h h' live (raw_list b) k → Q (raw_list b) h') →
  wp (b ← ld_bin k;
      address ← (st_bin k (λ b, HeapBin (element_size b) (grow_size b) (alloc_count b) (free_list b)
        (free_count b) (u32 (raw_list b + element_size b)) (u32 (raw_count b - 1)));;
        mret (raw_list b));
      st_bin k count_alloc;;
      base ← gets heap_base;
      let page := (address - base) / PAGE_SIZE in
      add_page_free (page + 0) (-1);;
      count_pages (Z.to_nat (esz k / PAGE_SIZE - 1)) page 1 (-1);; mret address) h Q.
Proof.
  intros Hh Hb Hp HQ. pose proof (hi_rs _ _ _ _ Hh) as Hrs.
  assert (k < nbins)%nat as Hk by (rewrite <- (hi_len _ _ _ _ Hh); by apply lookup_lt_Some in Hb).
  pose proof (hi_bins _ _ _ _ Hh k b Hb) as Hbin.
  pose proof (hi_room _ _ _ _ Hh) as Hroom. rewrite (hi_top _ _ _ _ Hh) in Hroom.
  destruct (bi_raw _ _ _ _ _ _ _ Hbin (raw_list b)) as (Hbl & Hl); [exists 0; lia|].
  apply wp_bind. eapply wp_ld_bin; [done|]. wp_flat. apply wp_bind. eapply wp_st_bin; [done|].
  match goal with |- wp _ (upd_bins (<[k := ?x]> _) _) _ => set (b1 := x) end.
  set (h1 := upd_bins _ h).
  assert (heap_inv (upd_bins (<[k := count_alloc b1]> (bins h1)) h1) (<[raw_list b := k]> live) rs
    (λ j, if decide (j = k) then frees k else frees j)) as Hh1.
  { eapply (heap_inv_change h _ live _ rs frees k b (count_alloc b1) (frees k) (raw_list b)); try done; simpl.
    - intros x Hx. by rewrite lookup_insert_ne.
    - intros i. rewrite lookup_insert_eq. congruence.
    - by rewrite list_insert_insert_eq.
    - apply (bin_take_raw (words h) (heap_base h) rs live k (frees k) b); [done|done|done|done|lia|]. pose proof (hi_base _ _ _ _ Hh). lia. }
  apply wp_bind, wp_ret. eapply (wp_kmalloc_tail h1 k b1 (raw_list b)); [|done|exact Hh1|done|].
  - apply list_lookup_insert_eq. by apply lookup_lt_Some in Hb.
  - intros t Ht. apply HQ. split_and!; try done. eexists rs, _.
    split_and!; [by apply inv_table|done|apply Hh].
Qed.

(** No free block of bin [k], no unused one, and no room for a region. *)
Definition exhausted (h : heap) (k : nat) : Prop :=
  ∃ b, bins h !! k = Some b ∧ free_list b = NULL ∧ raw_count b = 0 ∧
    heap_base h + heap_size h < heap_base_ptr h + gsz k.

#[export] Instance exhausted_dec h k : Decision (exhausted h k).
Proof.
  destruct (bins h !! k) as [b|] eqn:E.
  - destruct (decide (free_list b = NULL ∧ raw_count b = 0 ∧
      heap_base h + heap_size h < heap_base_ptr h + gsz k)) as [H|H].
    + left. exists b. by split.
    + right. intros (b' & Hb & H'). apply H. by simplify_eq.
  - right. intros (b & ? & _). congruence.
Defined.

(** The heap after an allocation of a block of bin [k] at [a]: inside the heap,
    aligned, apart from all blocks in use. *)
Definition kmalloc_post (h : heap) (live : gmap Z nat) (k : nat) (a : Z) (h' : heap) : Prop :=
  heap_ok h' (<[a := k]> live) ∧ hstatic h h' ∧ words h' = words h ∧
  heap_base h ≤ a ∧ a + esz k ≤ heap_base h + heap_size h ∧
  (a - heap_base h) mod 16 = 0 ∧ (PAGE_SIZE ≤ esz k → (a - heap_base h) mod PAGE_SIZE = 0) ∧
  ∀ b j, live !! b = Some j → a + esz k ≤ b ∨ b + esz j ≤ a.

Lemma allocated_post h h' live a k c :
  locks (hcpu h) !! heap_lock = Some SPIN_UNLOCKED →
  allocated (upd_hcpu c h) h' live a k → kmalloc_post h live k a (upd_hcpu (hcpu h) h').
Proof.
  intros Hlk ((rs & frees & Hh & Hbl & Hlive) & Hl & Hw & (E1 & E2 & E3 & E4 & E5)). simpl in *.
  pose proof (hi_rs _ _ _ _ Hh) as Hrs.
  pose proof (block_bounds _ _ Hrs _ _ Hbl) as (Hk & Hlo & Hhi & _ & H16 & s & Hin & _ & _ & Hal).
  pose proof (hi_room _ _ _ _ Hh) as Hroom. rewrite (hi_top _ _ _ _ Hh), E3, E4 in Hroom.
  split_and!; [|done|done|lia|lia|done| |].
  - split; [done|]. exists rs, frees. by apply inv_hcpu.
  - intros Hge. rewrite Hal by done. apply layout_bounds in Hin as (_ & _ & _ & Hm); done.
  - intros b j Hb. specialize (Hlive b j Hb).
    pose proof (block_bounds _ _ Hrs _ _ Hlive) as (Hj & _).
    destruct (block_apart _ _ Hrs _ _ _ _ Hbl Hlive) as [[-> _]|?]; [congruence|done].
Qed.

Lemma wp_kmalloc_locked h live rs frees size k (Q : Z → heap → Prop) :
  heap_inv h live rs frees → find_bin (bins h) size 0 = Some k → ¬ exhausted h k →
  (∀ a h', allocated h h' live a k → Q a h') → wp (kmalloc_locked size) h Q.
Proof.
  intros Hh Ef Hex HQ. pose proof (find_bin_spec h live rs frees size Hh) as Hf.
  rewrite Ef in Hf. destruct Hf as [(Hk & _) [b Hb]].
  pose proof (hi_bins _ _ _ _ Hh k b Hb) as Hbin.
  pose proof (bi_size _ _ _ _ _ _ _ Hbin) as Es. pose proof (bi_grow _ _ _ _ _ _ _ Hbin) as Eg.
  pose proof (bi_head _ _ _ _ _ _ _ Hbin) as Ehd. pose proof (bi_count _ _ _ _ _ _ _ Hbin) as Hc.
  unfold kmalloc_locked. wp_go. rewrite Ef. wp_go. eapply wp_ld_bin; [done|].
  rewrite Es, Eg. fold count_alloc. destruct (frees k) as [|a fl] eqn:Efl; simpl in Ehd; rewrite Ehd.
  - change (negb (NULL =? NULL)) with false. cbv iota.
    destruct (Z.eqb_spec (raw_count b) 0) as [Ez|Hz]; cbn [when].
    + destruct (decide (heap_base h + heap_size h < heap_base_ptr h + gsz k)) as [Hf|Hf];
        [destruct Hex; by exists b|].
      wp_flat. apply wp_bind. eapply wp_raw_alloc; [done|done|lia|].
      intros t Ht1 Ht2 Ht3. wp_flat. apply wp_bind. eapply wp_st_bin; [done|].
      pose proof (inv_grow h live rs frees k b t Hh Hb Ez ltac:(lia) Ht1 Ht2 Ht3) as Hh1.
      wp_flat. eapply wp_take_raw; [exact Hh1| | |].
      * simpl. apply list_lookup_insert_eq. by apply lookup_lt_Some in Hb.
      * simpl. rewrite Es, Eg. destruct (bin_sizes k Hk) as [? _ [_ ?] _ [[? ?]|[? ?]]];
          apply Z.div_str_pos; unfold PAGE_SIZE in *; lia.
      * intros h' Ha. apply HQ. destruct Ha as (Ha & Hl & Hw & Hs). split_and!; try done.
    + wp_flat. apply wp_bind, wp_ret. wp_flat. eapply wp_take_raw; [done|done|lia|]. intros h'. apply HQ.
  - pose proof (bi_free _ _ _ _ _ _ _ Hbin a) as Hfree.
    destruct (Hfree ltac:(by left)) as (Hbl & _).
    pose proof (block_bounds _ _ (hi_rs _ _ _ _ Hh) _ _ Hbl) as (_ & Hlo & _).
    pose proof (hi_base _ _ _ _ Hh) as [Hb0 _].
    rewrite (proj2 (Z.eqb_neq a NULL)) by (unfold NULL; lia). cbn [negb]. wp_flat.
    rewrite <- Ehd. eapply wp_take_free; [done|done|done|]. intros h' Ha. by apply HQ.
Qed.

Lemma critical_panics {A} h (body : M heap A) :
  locks (hcpu h) !! heap_lock = Some SPIN_UNLOCKED →
  (∀ c, body (upd_hcpu c h) = Panic) → heap_critical body h = Panic.
Proof.
  intros Hl Hb. unfold heap_critical, HEAP_LOCK, simple_lock, spin_trylock, spin_lock_irqsave,
    local_irqs_save_and_disable, local_irqs_disable, atomic_set_ret, atomic_get, atomic_set,
    zoom, gets, modify, load, mbind, M_bind.
  destruct (threading h); simpl; rewrite Hl; simpl; rewrite ?Hl; simpl; by rewrite Hb.
Qed.

Lemma kmalloc_locked_panics h live rs frees size :
  heap_inv h live rs frees →
  (∀ k, find_bin (bins h) size 0 = Some k → exhausted h k) → kmalloc_locked size h = Panic.
Proof.
  intros Hh Hex. pose proof (find_bin_spec h live rs frees size Hh) as Hf.
  unfold kmalloc_locked, gets, mbind, M_bind. destruct (find_bin _ _ _) as [k|]; [|done].
  destruct (Hex k eq_refl) as (b & Hb & Efl & Ez & Hfit).
  pose proof (bi_grow _ _ _ _ _ _ _ (hi_bins _ _ _ _ Hh k b Hb)) as Eg.
  unfold ld_bin, load. rewrite Hb, Efl, Ez, Eg. simpl. unfold mbind, M_bind.
  by rewrite (raw_alloc_panics h live rs frees k b).
Qed.

Lemma kmalloc_spec h live size :
  heap_ok h live →
  (0x18000 < size → kmalloc size h = Panic) ∧
  (size ≤ 0x18000 → ∃ k, best_bin size k ∧
     if decide (exhausted h k) then kmalloc size h = Panic
     else ∃ a h', kmalloc size h = Ok (a, h') ∧ a ≠ NULL ∧ kmalloc_post h live k a h').
Proof.
  intros (Hl & rs & frees & Hh).
  pose proof (find_bin_spec h live rs frees size Hh) as Hf.
  destruct (find_bin (bins h) size 0) as [k|] eqn:Ef.
  2: { split; [|lia]. intros _. apply critical_panics; [done|]. intros c.
    eapply kmalloc_locked_panics; [by apply inv_hcpu|]. simpl. by rewrite Ef. }
  destruct Hf as [Hk _]. pose proof Hk as (Hk1 & Hk2 & _).
  pose proof (so_pos _ (bin_sizes _ Hk1)). split; [lia|]. intros _. exists k. split; [done|].
  case_decide as Hex.
  - apply critical_panics; [done|]. intros c. eapply kmalloc_locked_panics; [by apply inv_hcpu|].
    simpl. rewrite Ef. by intros ? [= <-].
  - cut (wp (kmalloc size) h (λ a h', a ≠ NULL ∧ kmalloc_post h live k a h')).
    { intros (a & h' & E & ?)%wp_ok. by exists a, h'. }
    apply wp_critical; [done|]. intros c. eapply (wp_kmalloc_locked _ live rs frees size k);
      [by apply inv_hcpu|done|done|]. intros a h' Ha. pose proof Ha as (_ & _ & _ & (E1 & E2 & E3 & _)).
    split_and!; [done|done| |by eapply allocated_post].
    pose proof (allocated_post h h' live a k c Hl Ha) as (_ & _ & _ & Hlo & _).
    pose proof (hi_base _ _ _ _ Hh) as [? _]. unfold NULL. lia.
Qed.

(** C1: [kmalloc]. A request above 96 Kb panics. For any other there is a
    smallest bin that holds it; when that bin has neither a freed nor an unused block and
    the heap no room for a new region, the kernel panics; otherwise the call returns
    a block of that bin, inside the heap, 16-byte aligned (page aligned from one page
    on), disjoint from every block in use, and leaves the heap in order with the block in
    use and all contents untouched. *)
Theorem kmalloc_correct h live size :
  heap_ok h live →
  (0x18000 < size → kmalloc size h = Panic) ∧
  (size ≤ 0x18000 → ∃ k, best_bin size k ∧
     if decide (exhausted h k) then kmalloc size h = Panic
     else ∃ a h', kmalloc size h = Ok (a, h') ∧ a ≠ NULL ∧ kmalloc_post h live k a h').
Proof. apply kmalloc_spec. Qed.

(** ** Release *)

Lemma wp_ld_hpage i p h (Q : heap_page → heap → Prop) :
  0 ≤ i → heap_alloc_table h !! Z.to_nat i = Some p → Q p h → wp (ld_hpage i) h Q.
Proof. intros Hi Hp HQ. eapply wp_load; [|done]. by rewrite (proj2 (Z.leb_le 0 i)). Qed.

Lemma wp_release_pages n : ∀ page i index h (Q : unit → heap → Prop),
  (∀ j, i ≤ j < i + Z.of_nat n → 0 ≤ page + j ∧
     ∃ p, heap_alloc_table h !! Z.to_nat (page + j) = Some p ∧ bin_index p = index) →
  (∀ t, same_bins (heap_alloc_table h) t → (n = 0%nat → t = heap_alloc_table h) →
     Q tt (upd_table t h)) →
  wp (release_pages n page i index) h Q.
Proof.
  induction n as [|n IH]; intros page i index h Q Hr HQ; cbn [release_pages].
  - wp_go. rewrite <- (upd_table_same h). by apply HQ.
  - wp_go. destruct (Hr i ltac:(lia)) as (H0 & p & Hp & Ei). eapply wp_ld_hpage; [done..|].
    rewrite Ei, Z.eqb_refl. cbn [negb]. wp_go.
    apply wp_add_page_free; [apply lookup_lt_Some in Hp; lia|]. intros t Ht. apply IH.
    + intros j Hj. destruct (Hr j ltac:(lia)) as (? & q & Hq & Ej). split; [done|].
      destruct (same_bins_lookup _ _ _ _ Ht Hq) as (q' & ? & ?). exists q'. simpl.
      split; [done|congruence].
    + intros t' Ht' _. apply HQ; [by transitivity t|done].
Qed.

Lemma paranoid_walk_run fuel : ∀ fl h a,
  (length fl < fuel)%nat → qseg (words h) fl NULL → NULL ∉ fl →
  paranoid_walk fuel (head_or NULL fl) a h = if decide (a ∈ fl) then Panic else Ok (tt, h).
Proof.
  induction fuel as [|fuel IH]; intros fl h a Hf Hs Hv; [lia|]. cbn [paranoid_walk].
  destruct fl as [|x fl]; cbn [head_or qseg length] in *.
  - rewrite Z.eqb_refl. by rewrite decide_False by set_solver.
  - destruct Hs as [Hx Hs]. rewrite (proj2 (Z.eqb_neq x NULL)) by set_solver.
    destruct (Z.eqb_spec x a) as [->|Hne]; [by rewrite decide_True by set_solver|].
    unfold mbind, M_bind, ld_word, load. rewrite Hx, IH by (done || lia || set_solver).
    repeat case_decide; set_solver.
Qed.

Lemma wp_wipe n : ∀ a h (Q : unit → heap → Prop),
  (∀ j, 0 ≤ j < Z.of_nat n → a + 4 * j ∈ dom (words h)) →
  (∀ w, kept_outside (words h) w a (4 * Z.of_nat n) →
     (∀ j, 0 ≤ j < Z.of_nat n → w !! (a + 4 * j) = Some 0x99999999) → Q tt (upd_words w h)) →
  wp (wipe n a) h Q.
Proof.
  induction n as [|n IH]; intros a h Q Hr HQ; cbn [wipe].
  - wp_go. replace h with (upd_words (words h) h) by by destruct h. apply HQ; [done|].
    intros j ?. lia.
  - wp_go. pose proof (Hr 0 ltac:(lia)) as H0. rewrite Z.mul_0_r, Z.add_0_r in H0.
    apply elem_of_dom in H0 as H0'. destruct H0' as [v Hv]. unfold st_word32 at 1, wp. rewrite Hv.
    match goal with |- context [wipe n (a + 4) ?x] => set (h1 := x) end.
    assert (dom (words h1) = dom (words h)) as Hd.
    { unfold h1. simpl. rewrite dom_insert_L. set_solver. }
    apply (IH (a + 4) h1).
    + intros j Hj. rewrite Hd. replace (a + 4 + 4 * j) with (a + 4 * (j + 1)) by lia. apply Hr. lia.
    + intros w [Hdw Hw] Hfill. apply (HQ w).
      * split; [by rewrite Hdw|]. intros x Hx. rewrite Hw by lia. unfold h1. simpl.
        rewrite lookup_insert_ne; [done|lia].
      * intros j Hj. destruct (decide (j = 0)) as [->|].
        -- rewrite Z.mul_0_r, Z.add_0_r, Hw by lia. apply lookup_insert_eq.
        -- replace (a + 4 * j) with (a + 4 + 4 * (j - 1)) by lia. apply Hfill. lia.
Qed.

(** The heap after the release of block [a] of bin [k]. *)
Definition kfree_post (h : heap) (live : gmap Z nat) (k : nat) (a : Z) (h' : heap) : Prop :=
  heap_ok h' (delete a live) ∧ hstatic h h' ∧
  dom (words h') = dom (words h) ∧
  (∀ x, x < a ∨ a + esz k ≤ x → words h' !! x = words h !! x) ∧
  (∀ j, 1 ≤ j < esz k / 4 → words h' !! (a + 4 * j) = Some 0x99999999) ∧
  (esz k < PAGE_SIZE → heap_alloc_table h' = heap_alloc_table h) ∧
  ∃ b, bins h' !! k = Some b ∧ free_list b = a.

(** The checks pass on a block, in use or free. *)
Lemma wp_kfree_checks h live rs frees a k (Q : nat * heap_bin → heap → Prop) :
  heap_inv h live rs frees → block (heap_base h) rs a k →
  (∀ t b, bins h !! k = Some b → same_bins (heap_alloc_table h) t →
     (esz k < PAGE_SIZE → t = heap_alloc_table h) → Q (k, b) (upd_table t h)) →
  wp (kfree_checks a) h Q.
Proof.
  intros Hh Hbl HQ. pose proof (hi_rs _ _ _ _ Hh) as Hrs.
  pose proof (block_bounds _ _ Hrs _ _ Hbl) as (Hk & Hlo & Hhi & Hal & H16 & _).
  destruct (bin_sizes k Hk) as [Hp Hp16 _ Hd Hkind].
  pose proof (hi_base _ _ _ _ Hh) as [Hb0 Hbm]. pose proof (hi_room _ _ _ _ Hh) as Hroom.
  rewrite (hi_top _ _ _ _ Hh) in Hroom.
  assert (∀ j, 0 ≤ j → j = 0 ∨ j < esz k / PAGE_SIZE → block_page h a k j) as Hpages.
  { intros j. by eapply block_pages. }
  destruct (lookup_lt_is_Some_2 (bins h) k) as [b Hb]; [by rewrite (hi_len _ _ _ _ Hh)|].
  pose proof (hi_bins _ _ _ _ Hh k b Hb) as Hbin. pose proof (bi_size _ _ _ _ _ _ _ Hbin) as Es.
  unfold kfree_checks. wp_go. destruct (Hpages 0) as (Hr0 & p & Hpt & Ek); [lia|by left|].
  rewrite Z.add_0_r in Hr0, Hpt. eapply wp_ld_hpage; [lia|done|]. rewrite Ek.
  rewrite (proj2 (Z.leb_gt _ _)) by (unfold bin_count, nbins in *; lia). wp_go.
  rewrite Nat2Z.id. eapply wp_ld_bin; [done|]. rewrite Es.
  assert ((esz k <=? PAGE_SIZE) && negb (a mod esz k =? 0) = false) as ->.
  { destruct (Z.leb_spec (esz k) PAGE_SIZE) as [Hle|]; [|done]. simpl. apply negb_false_iff, Z.eqb_eq.
    specialize (Hal Hle). apply Z.mod_divide; [lia|]. replace a with (a - heap_base h + heap_base h) by lia.
    apply Z.divide_add_r; [apply Z.mod_divide; [lia|done]|].
    apply Z.mod_divide in Hbm; [|done]. etransitivity; [|exact Hbm].
    destruct Hkind as [[_ Eg]|[? _]]; [rewrite <- Eg; apply Z.mod_divide; [lia|done]|].
    assert (esz k = PAGE_SIZE) as -> by lia. done. }
  wp_go. apply wp_release_pages.
  { intros j Hj. destruct (Hpages j) as (Hr & q & Hq & Ej); [lia|right; lia|]. split; [lia|eauto]. }
  intros t Ht Ht0. wp_go. apply HQ; [done|done|].
  intros Hlt. apply Ht0. by rewrite Z.div_small by lia.
Qed.

Lemma wp_kfree_locked h live rs frees a k (Q : unit → heap → Prop) :
  heap_inv h live rs frees → live !! a = Some k →
  (∀ h' frees', heap_inv h' (delete a live) rs frees' → hstatic h h' →
     kept_outside (words h) (words h') a (esz k) →
     (∀ j, 1 ≤ j < esz k / 4 → words h' !! (a + 4 * j) = Some 0x99999999) →
     (esz k < PAGE_SIZE → heap_alloc_table h' = heap_alloc_table h) →
     (∃ b, bins h' !! k = Some b ∧ free_list b = a) → Q tt h') →
  wp (kfree_locked a) h Q.
Proof.
  intros Hh Ha HQ. pose proof (hi_rs _ _ _ _ Hh) as Hrs.
  pose proof (hi_live _ _ _ _ Hh a k Ha) as Hbl.
  pose proof (block_bounds _ _ Hrs _ _ Hbl) as (Hk & Hlo & Hhi & _ & H16 & _).
  destruct (bin_sizes k Hk) as [Hp Hp16 _ _ _].
  pose proof (hi_base _ _ _ _ Hh) as [Hb0 Hbm]. pose proof (hi_room _ _ _ _ Hh) as Hroom.
  rewrite (hi_top _ _ _ _ Hh) in Hroom.
  assert (4 * Z.of_nat (Z.to_nat (esz k / 4)) = esz k) as E4.
  { rewrite Z2Nat.id by (apply Z.div_pos; lia). symmetry. apply Z.div_exact; [done|].
    apply Z.mod_divide; [done|]. apply Z.mod_divide in Hp16; [|done]. etransitivity; [|exact Hp16].
    by exists 4. }
  assert ((4 | a)) as Ha4.
  { replace a with (a - heap_base h + heap_base h) by lia. apply Z.divide_add_r.
    - apply Z.mod_divide in H16; [|done]. etransitivity; [|exact H16]. by exists 4.
    - apply Z.mod_divide in Hbm; [|done]. etransitivity; [|exact Hbm]. by exists 1024. }
  unfold kfree_locked. wp_go. eapply wp_kfree_checks; [done..|]. intros t b Hb Ht Ht0.
  pose proof (hi_bins _ _ _ _ Hh k b Hb) as Hbin. pose proof (bi_size _ _ _ _ _ _ _ Hbin) as Es.
  cbn [fst snd]. rewrite Es. wp_go. set (fl := frees k) in *.
  pose proof (bi_seg _ _ _ _ _ _ _ Hbin) as Hseg. pose proof (bi_nodup _ _ _ _ _ _ _ Hbin) as Hnd.
  assert (NULL ∉ fl ∧ a ∉ fl) as [Hn0 Hna].
  { split; intros Hin; destruct (bi_free _ _ _ _ _ _ _ Hbin _ Hin) as (Hb1 & ? & _); [|congruence].
    pose proof (block_bounds _ _ Hrs _ _ Hb1) as (_ & ? & _). unfold NULL in *. lia. }
  eapply wp_of_ok.
  { rewrite (bi_head _ _ _ _ _ _ _ Hbin). rewrite paranoid_walk_run; [by rewrite decide_False| |done|done].
    simpl. pose proof (qseg_size _ _ _ Hnd Hseg). lia. }
  cbv beta. wp_go. assert (∀ x, a ≤ x < a + esz k → (4 | x) → x ∈ dom (words h)) as Hdom.
  { intros x Hx Hx4. apply (hi_words _ _ _ _ Hh); [lia|by apply Z.mod_divide]. }
  apply wp_wipe.
  { intros j Hj. simpl. apply Hdom; [lia|]. by apply Z.divide_add_r; [|apply Z.divide_factor_l]. }
  simpl. rewrite E4. intros w [Hdw Hw] Hfill. wp_go.
  assert (a ∈ dom w) as Haw by (rewrite Hdw; apply Hdom; [lia|done]).
  set (w' := <[a := free_list b]> w).
  assert (kept_outside (words h) w' a (esz k)) as Hw'.
  { split; [unfold w'; rewrite dom_insert_L, Hdw; set_solver|].
    intros x Hx. unfold w'. rewrite lookup_insert_ne by lia. by apply Hw. }
  apply elem_of_dom in Haw as [v Hv]. unfold st_word32 at 1, wp at 1. simpl. rewrite Hv.
  eapply wp_st_bin; [done|]. simpl.
  eapply (HQ _ (λ j, if decide (j = k) then a :: fl else frees j)); simpl; try done.
  - eapply (heap_inv_change h _ live (delete a live) rs frees k b _ (a :: fl) a); try done; simpl.
    + intros x Hx. by rewrite lookup_delete_ne.
    + intros i. by rewrite lookup_delete_eq.
    + apply (bin_give_back (words h)); try done. apply lookup_insert_eq.
  - intros j Hj. rewrite lookup_insert_ne by lia. apply Hfill. lia.
  - eexists. rewrite list_lookup_insert_eq by by apply lookup_lt_Some in Hb. done.
Qed.

Lemma block_in_heap h live rs frees a k :
  heap_inv h live rs frees → block (heap_base h) rs a k →
  (k < nbins)%nat ∧ a ≠ NULL ∧ heap_base h ≤ a < heap_base h + heap_size h ∧
  heap_base h + heap_size h < 2 ^ 32 ∧ 0 ≤ heap_base h + heap_size h.
Proof.
  intros Hh Hbl. pose proof (block_bounds _ _ (hi_rs _ _ _ _ Hh) _ _ Hbl) as (Hk & Hlo & Hhi & _).
  pose proof (so_pos _ (bin_sizes _ Hk)). pose proof (hi_room _ _ _ _ Hh) as Hroom.
  rewrite (hi_top _ _ _ _ Hh) in Hroom. pose proof (hi_base _ _ _ _ Hh). unfold NULL. lia.
Qed.

Lemma kfree_inside h a :
  a ≠ NULL ∧ heap_base h ≤ a < heap_base h + heap_size h ∧
    heap_base h + heap_size h < 2 ^ 32 ∧ 0 ≤ heap_base h + heap_size h →
  kfree a h = heap_critical (kfree_locked a) h.
Proof.
  intros (Hne & Ha & Hsz). unfold kfree. rewrite (proj2 (Z.eqb_neq a NULL)) by done.
  unfold mbind, M_bind, get. rewrite uwrap_small by lia.
  by rewrite (proj2 (Z.ltb_ge a _)), (proj2 (Z.leb_gt _ a)) by lia.
Qed.

Lemma wp_panic {S A B} (m : M S A) (f : A → M S B) s :
  wp m s (λ a s', f a s' = Panic) → (m ≫= f) s = Panic.
Proof. unfold wp, mbind, M_bind. by destruct (m s) as [[a s']| | |]. Qed.

(** A block at the head of the free list is not freed again. *)
Lemma kfree_locked_twice h live rs frees a k b :
  heap_inv h live rs frees → block (heap_base h) rs a k → bins h !! k = Some b → free_list b = a →
  kfree_locked a h = Panic.
Proof.
  intros Hh Hbl Hb Ea. pose proof (block_in_heap _ _ _ _ _ _ Hh Hbl) as (_ & Ha & _).
  apply wp_panic. eapply wp_kfree_checks; [done..|]. intros t b' Hb' _ _.
  assert (b' = b) as -> by congruence. unfold gets, mbind, M_bind. cbn [fst snd].
  rewrite Ea. cbn [paranoid_walk]. by rewrite (proj2 (Z.eqb_neq a NULL)), Z.eqb_refl by done.
Qed.

Lemma kfree_spec h live a k :
  heap_ok h live → live !! a = Some k →
  ∃ h', kfree a h = Ok (tt, h') ∧ kfree_post h live k a h' ∧ kfree a h' = Panic.
Proof.
  intros (Hl & rs & frees & Hh) Ha.
  cut (wp (kfree a) h (λ _ h', kfree_post h live k a h' ∧ kfree a h' = Panic)).
  { intros ([] & h' & E & ?)%wp_ok. by exists h'. }
  pose proof (hi_live _ _ _ _ Hh a k Ha) as Hbl.
  pose proof (block_in_heap h live rs frees a k Hh Hbl) as (Hk & Hin).
  unfold wp. rewrite kfree_inside by done. apply wp_critical; [done|]. intros c.
  eapply (wp_kfree_locked _ live rs frees a k); [by apply inv_hcpu|done|].
  intros h' frees' Hh' Hs [Hd Hw] Hfill Ht Hb. pose proof Hs as (E1 & E2 & E3 & E4 & E5). simpl in *.
  split_and!; [done|done| |].
  + split_and!; try done. split; [done|]. eexists rs, frees'. by apply inv_hcpu.
  + rewrite kfree_inside by (simpl; rewrite E3, E4; done).
    apply critical_panics; [done|]. intros c'. destruct Hb as (b & Hb & Efl).
    apply (kfree_locked_twice _ (delete a live) rs frees' a k b); [by repeat apply inv_hcpu| |done|done].
    simpl. by rewrite E3.
Qed.

(** C5: [kfree] of a block in use returns; the block joins the free list of its bin as its
    first element (the next allocation from the bin returns it), is filled with the
    byte 0x99 after its link, and no other word changes; a second [kfree] of it panics.
    Addresses outside the heap panic, [NULL] does nothing. The descriptors of the pages of
    blocks below a page are not touched: the free count [kmalloc] lowered stays lowered. *)
Theorem kfree_correct h live a :
  heap_ok h live →
  kfree NULL h = Ok (tt, h) ∧
  (a ≠ NULL → a < heap_base h ∨ heap_base h + heap_size h ≤ a → kfree a h = Panic) ∧
  (∀ k, live !! a = Some k → ∃ h', kfree a h = Ok (tt, h') ∧ kfree_post h live k a h' ∧
     kfree a h' = Panic).
Proof.
  intros (Hl & rs & frees & Hh). split_and!; [done| |].
  - intros Hne Ha. pose proof (hi_room _ _ _ _ Hh) as Hroom. pose proof (hi_base _ _ _ _ Hh) as Hb.
    pose proof (top_page rs (heap_base h) (hi_rs _ _ _ _ Hh)) as [_ Htop].
    rewrite <- (hi_top _ _ _ _ Hh) in Htop.
    unfold kfree. rewrite (proj2 (Z.eqb_neq a NULL)) by done. unfold mbind, M_bind, get.
    rewrite uwrap_small by lia.
    assert ((a <? heap_base h) || (heap_base h + heap_size h <=? a) = true) as ->; [|done].
    apply orb_true_iff. rewrite Z.ltb_lt, Z.leb_le. lia.
  - intros k Ha. apply (kfree_spec h live a k); [|done]. by split; [|eexists _, _].
Qed.


(** ** Initialization *)

Lemma block_nil base a k : ¬ block base [] a k.
Proof. intros (s & i & Hin & _). by apply not_elem_of_nil in Hin. Qed.

Lemma fresh_bins k b : bins_init !! k = Some b →
  b = fresh_bin (esz k) (gsz k).
Proof.
  intros Hb. pose proof (lookup_lt_Some _ _ _ Hb) as Hk. unfold esz, gsz. rewrite Hb. simpl.
  do 32 (destruct k as [|k]; [simpl in Hb; by injection Hb as <-|]). simpl in Hk. lia.
Qed.

(** The sizes [heap_init] computes for [n] pages. *)
Lemma heap_layout n base :
  0 ≤ base → 2 ≤ n → base + n * PAGE_SIZE ≤ 2 ^ 32 - 2 ^ 17 →
  let size := u32 (Z.land (n * PAGE_SIZE * 2048 / 2049) PAGE_MASK) in
  let hh := n * 2048 / 2049 in let t := (2 * hh + 4095) / 4096 in
  size = hh * PAGE_SIZE ∧ u32 (base + PAGE_ALIGN (size / 2048)) = base + t * PAGE_SIZE ∧
  1 ≤ hh ∧ hh + t ≤ n ∧ 2 * hh ≤ t * PAGE_SIZE.
Proof.
  intros Hb Hn Hr size hh t. unfold PAGE_SIZE in *.
  assert (2049 * hh ≤ 2048 * n ∧ 1 ≤ hh) as [Hh Hh1].
  { pose proof (Z.mul_div_le (n * 2048) 2049 ltac:(lia)). split; [unfold hh; lia|].
    unfold hh. apply Z.div_le_lower_bound; lia. }
  assert (4096 * t ≤ 2 * hh + 4095 ∧ 2 * hh ≤ 4096 * t) as [Ht Ht'].
  { unfold t. pose proof (Z.mul_div_le (2 * hh + 4095) 4096 ltac:(lia)).
    pose proof (Z.mul_succ_div_gt (2 * hh + 4095) 4096 ltac:(lia)). lia. }
  assert (0 ≤ n * 4096 * 2048 / 2049 < 2 ^ 32) as Hx.
  { split; [apply Z.div_pos; lia|]. apply Z.div_lt_upper_bound; lia. }
  assert (size = hh * 4096) as Es.
  { unfold size. rewrite land_PAGE_MASK by done. unfold PAGE_SIZE.
    rewrite Z.div_div by lia. rewrite (Z.mul_comm 2049 4096), <- Z.div_div by lia.
    replace (n * 4096 * 2048) with (n * 2048 * 4096) by ring. rewrite Z.div_mul by lia.
    apply uwrap_small. fold hh. lia. }
  split_and!; [done| |done|lia|lia].
  rewrite Es. replace (hh * 4096) with (2 * hh * 2048) by ring. rewrite Z.div_mul by lia.
  rewrite PAGE_ALIGN_up by (unfold PAGE_SIZE; lia). unfold PAGE_SIZE.
  replace (2 * hh + 4096 - 1) with (2 * hh + 4095) by lia. fold t. apply uwrap_small. lia.
Qed.

Lemma fresh_heap_inv c w t p b z n tr :
  0 < b → b mod PAGE_SIZE = 0 → 0 ≤ n → z = n * PAGE_SIZE → b + z ≤ 2 ^ 32 - 2 ^ 17 →
  Z.of_nat (length t) = n → (∀ x, b ≤ x < b + z → x mod 4 = 0 → x ∈ dom w) →
  heap_inv (Heap c w t p b b z bins_init tr) ∅ [] (λ _, []).
Proof.
  intros Hb Hbm Hn -> Hr Ht Hw. assert (0 ≤ n * PAGE_SIZE) by (unfold PAGE_SIZE; lia).
  split; simpl; try done.
  - constructor.
  - intros k x Hk. apply fresh_bins in Hk as ->. split; simpl; try done.
    + constructor.
    + intros a Ha. by apply not_elem_of_nil in Ha.
    + intros a (i & Hi & _). simpl in Hi. lia.
    + intros a Ha. by apply block_nil in Ha.
  - lia.
  - by apply Z.mod_mul.
  - intros s k i Hin. by apply not_elem_of_nil in Hin.
  - rewrite Z.div_mul by done. done.
Qed.

(** [heap_init] on a page aligned region of whole pages, two at least, lays out
    the descriptor table and the heap inside the region without overlap, with one descriptor
    for every page, and establishes the invariant with no block in use. *)
Theorem heap_init_establishes h base n :
  0 < base → base mod PAGE_SIZE = 0 → 2 ≤ n → base + n * PAGE_SIZE ≤ 2 ^ 32 - 2 ^ 17 →
  bins h = bins_init → heap_lock ∈ dom (locks (hcpu h)) →
  (∀ w, base ≤ w < base + n * PAGE_SIZE → w mod 4 = 0 → w ∈ dom (words h)) →
  ∃ h', heap_init base (n * PAGE_SIZE) h = Ok (NO_ERROR, h') ∧ heap_ok h' ∅ ∧
    heap_table_ptr h' = base ∧
    base + sizeof_heap_page * Z.of_nat (length (heap_alloc_table h')) ≤ heap_base h' ∧
    heap_base h' + heap_size h' ≤ base + n * PAGE_SIZE ∧ 0 < heap_size h' ∧
    heap_base_ptr h' = heap_base h' ∧ words h' = words h.
Proof.
  intros Hb Hbm Hn Hr Hbins Hlk Hw.
  destruct (heap_layout n base ltac:(lia) Hn Hr) as (Es & Eb & Hh1 & Hfit & Htab).
  apply elem_of_dom in Hlk as [v Hv].
  edestruct (wp_run (heap_init base (n * PAGE_SIZE)) h NO_ERROR) as (h' & E & HP);
    [|exists h'; split; [exact E|exact HP]].
  unfold heap_init. wp_go. change (PAGE_SIZE / sizeof_heap_page) with 2048.
  change (2048 + 1) with 2049. rewrite Es in Eb |- *. rewrite Eb.
  unfold wp, spin_init, atomic_set. simpl. rewrite Hv. split; [done|].
  set (hh := n * 2048 / 2049) in *. set (t := (2 * hh + 4095) / 4096) in *.
  assert (hh * PAGE_SIZE / PAGE_SIZE = hh) as Ediv by (apply Z.div_mul; done).
  rewrite Ediv. unfold PAGE_SIZE in *.
  assert (0 ≤ t) by (unfold t; apply Z.div_pos; lia).
  split_and!; simpl; try done; rewrite ?length_replicate, ?Z2Nat.id; try lia.
  2: { unfold sizeof_heap_page. lia. }
  split; [apply lookup_insert_eq|]. exists [], (λ _, []). rewrite Hbins.
  apply (fresh_heap_inv _ _ _ _ (base + t * 4096) (hh * 4096) hh); unfold PAGE_SIZE in *; simpl;
    try done; try lia.
  - by rewrite Z.mod_add.
  - rewrite length_replicate. lia.
  - intros x Hx1 Hx2. apply Hw; [lia|done].
Qed.

(** ** Witnesses *)

(** [n] words from address [a] on. *)
Definition word_area (a : Z) (n : nat) : gmap Z Z :=
  list_to_map ((λ i : nat, (a + 4 * Z.of_nat i, 0)) <$> seq 0 n).

Lemma word_area_dom a n w : a ≤ w < a + 4 * Z.of_nat n → (w - a) mod 4 = 0 → w ∈ dom (word_area a n).
Proof.
  intros Hw Hm. unfold word_area. rewrite dom_list_to_map_L. apply elem_of_list_to_set.
  rewrite <- list_fmap_compose. apply list_elem_of_fmap. exists (Z.to_nat ((w - a) / 4)). simpl.
  apply Z.div_exact in Hm; [|done]. assert (0 ≤ (w - a) / 4) by (apply Z.div_pos; lia).
  split; [rewrite Z2Nat.id by done; lia|]. apply elem_of_seq. lia.
Qed.

#[local] Opaque word_area.

(** A region of two pages at 4096: one page of table, one of blocks. *)
Definition example_region : heap := Heap (Cpu {[1 := 0]} true) (word_area 4096 2048) [] 0 0 0 0
  bins_init false.

Definition example_heap : heap := Heap (Cpu {[1 := 0]} true) (word_area 4096 2048)
  [HeapPage 0 0 0 0] 4096 8192 8192 4096 bins_init false.

Lemma heap_init_establishes_witness :
  ∃ h', heap_init 4096 (2 * PAGE_SIZE) example_region = Ok (NO_ERROR, h') ∧ heap_ok h' ∅ ∧
    heap_table_ptr h' = 4096 ∧
    4096 + sizeof_heap_page * Z.of_nat (length (heap_alloc_table h')) ≤ heap_base h' ∧
    heap_base h' + heap_size h' ≤ 4096 + 2 * PAGE_SIZE ∧ 0 < heap_size h' ∧
    heap_base_ptr h' = heap_base h' ∧ words h' = words example_region.
Proof.
  apply (heap_init_establishes example_region 4096 2); try (unfold PAGE_SIZE; lia); try reflexivity.
  intros w Hw Hm. apply word_area_dom; [unfold PAGE_SIZE in Hw; lia|]. by rewrite Zminus_mod, Hm.
Defined.

Lemma example_heap_ok : heap_ok example_heap ∅.
Proof.
  split; [reflexivity|]. exists [], (λ _, []).
  eapply (fresh_heap_inv _ _ _ _ 8192 4096 1); [lia|done|lia|done|lia|done|].
  intros x Hx Hm. apply word_area_dom; [lia|]. by rewrite Zminus_mod, Hm.
Qed.

Lemma kmalloc_correct_witness :
  kmalloc 0x18001 example_heap = Panic ∧
  ∃ k, best_bin 100 k ∧
    if decide (exhausted example_heap k) then kmalloc 100 example_heap = Panic
    else ∃ a h', kmalloc 100 example_heap = Ok (a, h') ∧ a ≠ NULL ∧
      kmalloc_post example_heap ∅ k a h'.
Proof.
  split.
  - apply (kmalloc_correct example_heap ∅ 0x18001 example_heap_ok). reflexivity.
  - apply (kmalloc_correct example_heap ∅ 100 example_heap_ok). lia.
Defined.

Lemma kfree_correct_witness :
  ∃ a h1 h2, kmalloc 100 example_heap = Ok (a, h1) ∧ kfree a h1 = Ok (tt, h2) ∧
    kfree a h2 = Panic.
Proof.
  destruct (proj2 (kmalloc_spec example_heap ∅ 100 example_heap_ok) ltac:(lia))
    as (k & Hk & Hm).
  assert (k = 3%nat) as ->.
  { destruct Hk as (_ & H1 & H2). destruct (decide (k < 3)%nat).
    - do 3 (destruct k as [|k]; [by destruct H1|]). lia.
    - destruct (decide (k = 3%nat)) as [|Hne]; [done|]. specialize (H2 3%nat ltac:(lia)).
      vm_compute in H2. discriminate. }
  rewrite decide_False in Hm.
  2: { intros (b & Hb & _ & _ & Hf). vm_compute in Hf. discriminate. }
  destruct Hm as (a & h1 & E1 & _ & (Hok & _)).
  destruct (proj2 (proj2 (kfree_correct h1 _ a Hok)) 3%nat (lookup_insert_eq _ _ _))
    as (h2 & E2 & _ & E3).
  by exists a, h1, h2.
Defined.
