(* ===== verification/AvlPure.v ===== *)
(** * AVL trees as values

    The trees the nodes of the store form, the path from the root to a place in a
    tree, and the algorithms of AvlTree on them. Nodes are named by their addresses;
    a side is [false] for child 0 and [true] for child 1. *)

From S2P Require Import Prelude.
From stdpp Require Import list.
#[local] Open Scope Z_scope.

Inductive tree := Leaf | Node (l : tree) (x b : Z) (r : tree).

(** The node [x] with [t] on side [d] and [o] on the other one. *)
Definition mk (d : bool) (x b : Z) (t o : tree) : tree :=
  if d then Node o x b t else Node t x b o.

Definition side (d : bool) (t : tree) : tree :=
  match t with Leaf => Leaf | Node l _ _ r => if d then r else l end.

Definition root (t : tree) : Z := match t with Leaf => NULL | Node _ x _ _ => x end.

Definition bal (t : tree) : Z := match t with Leaf => 0 | Node _ _ b _ => b end.

Fixpoint elems (t : tree) : list Z :=
  match t with Leaf => [] | Node l x _ r => elems l ++ x :: elems r end.

Fixpoint height (t : tree) : Z :=
  match t with Leaf => 0 | Node l _ _ r => 1 + Z.max (height l) (height r) end.

(** Every balance field is the height difference, and at most one. *)
Fixpoint avl (t : tree) : Prop :=
  match t with
  | Leaf => True
  | Node l _ b r => b = height r - height l ∧ -1 ≤ b ≤ 1 ∧ avl l ∧ avl r
  end.

(** The balance of a node whose side [d] is the taller one. *)
Definition heavy (d : bool) : Z := if d then 1 else -1.

(** One step of the path up: the focus is child [fd] of [fx], [fo] the other child. *)
Record frame := Frame { fd : bool; fx : Z; fb : Z; fo : tree }.

(** Paths start at the focus. *)
Fixpoint plug (c : list frame) (t : tree) : tree :=
  match c with
  | [] => t
  | f :: c => plug c (mk (fd f) (fx f) (fb f) t (fo f))
  end.

(** The elements before and after the focus. *)
Fixpoint before (c : list frame) : list Z :=
  match c with
  | [] => []
  | f :: c => before c ++ if fd f then elems (fo f) ++ [fx f] else []
  end.

Fixpoint after (c : list frame) : list Z :=
  match c with
  | [] => []
  | f :: c => (if fd f then [] else fx f :: elems (fo f)) ++ after c
  end.

(** ** The algorithms *)

(** Side [d] of [x] is two higher; the flag: the result is lower than that side plus one. *)
Definition rotate (d : bool) (x : Z) (t o : tree) : tree * bool :=
  let a := side d t in
  let c := side (negb d) t in
  if negb (bal t =? - heavy d) then
    (mk d (root t) (bal t - heavy d) a (mk d x (heavy d - bal t) c o), bal t - heavy d =? 0)
  else
    (mk d (root c) 0
       (mk d (root t) (if bal c =? - heavy d then heavy d else 0) a (side d c))
       (mk d x (if bal c =? heavy d then - heavy d else 0) (side (negb d) c) o), true).

(** The tree at the focus has become [t], one higher than before. *)
Fixpoint grow (c : list frame) (t : tree) : tree :=
  match c with
  | [] => t
  | Frame d x b o :: c =>
      let nb := b + heavy d in
      if nb =? 0 then plug c (mk d x 0 t o)
      else if negb (b =? 0) then plug c (rotate d x t o).1
      else grow c (mk d x nb t o)
  end.

(** The tree at the focus has become [t], one lower than before. *)
Fixpoint shrink (c : list frame) (t : tree) : tree :=
  match c with
  | [] => t
  | Frame d x b o :: c =>
      let nb := b - heavy d in
      if b =? 0 then plug c (mk d x nb t o)
      else if nb =? 0 then shrink c (mk d x 0 t o)
      else
        let r := rotate (negb d) x o t in
        if r.2 then shrink c r.1 else plug c r.1
  end.

(** ** Elements *)

Lemma elems_mk d x b t o :
  elems (mk d x b t o) = if d then elems o ++ x :: elems t else elems t ++ x :: elems o.
Proof. by destruct d. Qed.

Lemma elems_plug c : ∀ t, elems (plug c t) = before c ++ elems t ++ after c.
Proof.
  induction c as [|[d x b o] c IH]; intros t; simpl; [by rewrite app_nil_r|].
  rewrite IH, elems_mk. destruct d; simpl; by rewrite <- !app_assoc.
Qed.

Lemma plug_app c1 c2 t : plug (c1 ++ c2) t = plug c2 (plug c1 t).
Proof. revert t. induction c1 as [|f c1 IH]; intros t; simpl; auto. Qed.

Lemma before_app c1 c2 : before (c1 ++ c2) = before c2 ++ before c1.
Proof. induction c1 as [|f c1 IH]; simpl; [by rewrite app_nil_r|]. by rewrite IH, app_assoc. Qed.

Lemma after_app c1 c2 : after (c1 ++ c2) = after c1 ++ after c2.
Proof. induction c1 as [|f c1 IH]; simpl; [done|]. by rewrite IH, app_assoc. Qed.

Lemma tree_mk d t : t ≠ Leaf → t = mk d (root t) (bal t) (side d t) (side (negb d) t).
Proof. intros Ht. destruct t; [done|]. by destruct d. Qed.

Lemma height_nonneg t : 0 ≤ height t.
Proof. induction t; simpl; lia. Qed.

Lemma height_leaf t : height t = 0 → t = Leaf.
Proof. destruct t; [done|]. simpl. pose proof (height_nonneg t1). pose proof (height_nonneg t2). lia. Qed.

Lemma height_mk d x b t o : height (mk d x b t o) = 1 + Z.max (height t) (height o).
Proof. destruct d; simpl; lia. Qed.

Lemma avl_mk d x b t o :
  avl (mk d x b t o) ↔ b = heavy d * (height t - height o) ∧ -1 ≤ b ≤ 1 ∧ avl t ∧ avl o.
Proof. destruct d; simpl; unfold heavy; intuition lia. Qed.

(** What it takes for the rotation to find the nodes it moves. *)
Definition can_rotate (d : bool) (t : tree) : Prop :=
  t ≠ Leaf ∧ (bal t = - heavy d → side (negb d) t ≠ Leaf).

Lemma rotate_elems d x b t o : can_rotate d t → elems (rotate d x t o).1 = elems (mk d x b t o).
Proof.
  intros [Ht Hc]. destruct t as [|l y cb r]; [done|]. unfold rotate. simpl bal in *.
  destruct (Z.eqb_spec cb (- heavy d)) as [E|E]; [specialize (Hc E)|clear Hc]; destruct d; simpl in *.
  - destruct l; [done|]. simpl; rewrite <- ?app_assoc; simpl; by rewrite <- ?app_assoc.
  - destruct r; [done|]. simpl; rewrite <- ?app_assoc; simpl; by rewrite <- ?app_assoc.
  - rewrite <- ?app_assoc. simpl. by rewrite <- ?app_assoc.
  - rewrite <- ?app_assoc. simpl. by rewrite <- ?app_assoc.
Qed.

Lemma heavy_negb d : heavy (negb d) = - heavy d.
Proof. by destruct d. Qed.

Lemma heavy_cases d : heavy d = 1 ∨ heavy d = -1.
Proof. destruct d; auto. Qed.

Ltac hv d := let E := fresh in destruct (heavy_cases d) as [E|E]; rewrite E in *.

(** A tree two higher than its sibling can be rotated, to an AVL tree. *)
Lemma rotate_avl d x t o :
  avl t → avl o → height t = height o + 2 →
  can_rotate d t ∧ avl (rotate d x t o).1 ∧
  height (rotate d x t o).1 = height t + (if (rotate d x t o).2 then 0 else 1) ∧
  (rotate d x t o).2 = negb (bal t =? 0).
Proof.
  intros Ht Ho Hh. pose proof (height_nonneg o).
  destruct t as [|l y cb r]; [simpl in Hh; lia|].
  pose proof (height_nonneg l). pose proof (height_nonneg r).
  assert (can_rotate d (Node l y cb r)) as Hcan.
  { split; [done|]. simpl. intros Ecb E. destruct Ht as (Hb & Hr & _).
    destruct d; simpl in *; subst; simpl in *; lia. }
  split; [done|]. destruct Hcan as [_ Hc]. destruct Ht as (Hb & Hr & Hl & Hr').
  unfold rotate. simpl bal in *.
  destruct (Z.eqb_spec cb (- heavy d)) as [E|E]; [specialize (Hc E)|clear Hc];
    destruct d; simpl in *.
  - destruct l as [|gl g gb gr]; [done|]. simpl in *. destruct Hl as (? & ? & ? & ?).
    pose proof (height_nonneg gl). pose proof (height_nonneg gr).
    rewrite (proj2 (Z.eqb_neq cb 0)) by lia.
    change (- (1)) with (-1) in *.
    destruct (Z.eqb_spec gb (-1)), (Z.eqb_spec gb 1); (split_and!; lia || done).
  - destruct r as [|gl g gb gr]; [done|]. simpl in *. destruct Hr' as (? & ? & ? & ?).
    pose proof (height_nonneg gl). pose proof (height_nonneg gr).
    rewrite (proj2 (Z.eqb_neq cb 0)) by lia.
    change (- -1) with 1 in *.
    destruct (Z.eqb_spec gb 1), (Z.eqb_spec gb (-1)); (split_and!; lia || done).
  - destruct (Z.eqb_spec (cb - 1) 0), (Z.eqb_spec cb 0); (split_and!; lia || done).
  - destruct (Z.eqb_spec (cb - -1) 0), (Z.eqb_spec cb 0); (split_and!; lia || done).
Qed.

(** ** Balance of the whole tree *)

Lemma avl_plug_focus c : ∀ t, avl (plug c t) → avl t.
Proof.
  induction c as [|[d x b o] c IH]; intros t; simpl; [done|]. intros H%IH. apply avl_mk in H. tauto.
Qed.

(** A tree of the same height can take the place of the focus. *)
Lemma avl_plug_same c : ∀ t t', avl (plug c t) → avl t' → height t' = height t → avl (plug c t').
Proof.
  induction c as [|[d x b o] c IH]; intros t t' Ht Ht' Hh; simpl in *; [done|].
  pose proof (avl_plug_focus _ _ Ht) as Hm. apply avl_mk in Hm as (? & ? & ? & ?).
  apply (IH _ _ Ht); [apply avl_mk; rewrite Hh; tauto|]. by rewrite !height_mk, Hh.
Qed.

Lemma grow_avl c : ∀ t t', avl (plug c t) → avl t' → height t' = height t + 1 →
  bal t' ≠ 0 ∨ t = Leaf →
  avl (grow c t') ∧ elems (grow c t') = before c ++ elems t' ++ after c.
Proof.
  induction c as [|[d x b o] c IH]; intros t t' Ht Ht' Hh Hbal; simpl in *; [by rewrite app_nil_r|].
  pose proof (avl_plug_focus _ _ Ht) as Hm. apply avl_mk in Hm as (Hb & Hr & Hat & Hao).
  pose proof (height_nonneg t). pose proof (height_nonneg o).
  assert (∀ l, l = before c ++ elems (mk d x b t' o) ++ after c →
    l = (before c ++ if d then elems o ++ [x] else []) ++ elems t' ++
      (if d then [] else x :: elems o) ++ after c) as Hel.
  { intros l ->. rewrite elems_mk. destruct d; simpl; by rewrite <- !app_assoc. }
  destruct (Z.eqb_spec (b + heavy d) 0) as [E|E].
  - split; [|apply Hel; by rewrite elems_plug, !elems_mk].
    apply (avl_plug_same c _ _ Ht); [apply avl_mk|rewrite !height_mk];
      hv d; (split_and?; done || lia).
  - destruct (Z.eqb_spec b 0) as [->|Hb0]; cbn [negb].
    + assert (height o = height t) by (hv d; lia).
      destruct (IH (mk d x 0 t o) (mk d x (0 + heavy d) t' o)) as [Hg1 Hg2]; [done| | | |].
      * apply avl_mk. hv d; split_and!; done || lia.
      * rewrite !height_mk. lia.
      * left. by destruct d.
      * split; [done|]. apply Hel. by rewrite Hg2, !elems_mk.
    + destruct (rotate_avl d x t' o Ht' Hao) as (Hc & Ha & Hht & Hfl);
        [hv d; lia|].
      assert (bal t' ≠ 0) as Hb' by (destruct Hbal as [?| ->]; [done|]; cbn [height] in Hb; hv d; lia).
      rewrite (proj2 (Z.eqb_neq (bal t') 0)) in Hfl by done. rewrite Hfl in Hht. cbn [negb] in Hht.
      split; [|apply Hel; rewrite elems_plug; by rewrite (rotate_elems d x b)].
      apply (avl_plug_same c _ _ Ht); [done|]. rewrite height_mk. hv d; lia.
Qed.

Lemma shrink_avl c : ∀ t t', avl (plug c t) → avl t' → height t' = height t - 1 →
  avl (shrink c t') ∧ elems (shrink c t') = before c ++ elems t' ++ after c.
Proof.
  induction c as [|[d x b o] c IH]; intros t t' Ht Ht' Hh; simpl in *; [by rewrite app_nil_r|].
  pose proof (avl_plug_focus _ _ Ht) as Hm. apply avl_mk in Hm as (Hb & Hr & Hat & Hao).
  pose proof (height_nonneg t'). pose proof (height_nonneg o).
  assert (∀ l, l = before c ++ elems (mk d x b t' o) ++ after c →
    l = (before c ++ if d then elems o ++ [x] else []) ++ elems t' ++
      (if d then [] else x :: elems o) ++ after c) as Hel.
  { intros l ->. rewrite elems_mk. destruct d; simpl; by rewrite <- !app_assoc. }
  destruct (Z.eqb_spec b 0) as [->|Hb0].
  - split; [|apply Hel; by rewrite elems_plug, !elems_mk].
    apply (avl_plug_same c _ _ Ht); [apply avl_mk|rewrite !height_mk];
      hv d; (split_and?; done || lia).
  - destruct (Z.eqb_spec (b - heavy d) 0) as [E|E].
    + destruct (IH (mk d x b t o) (mk d x 0 t' o)) as [Hg1 Hg2]; [done| | |].
      * apply avl_mk. hv d; split_and!; done || lia.
      * rewrite !height_mk. hv d; lia.
      * split; [done|]. apply Hel. by rewrite Hg2, !elems_mk.
    + destruct (rotate_avl (negb d) x o t' Hao Ht') as (Hc & Ha & Hht & Hfl);
        [hv d; lia|].
      assert (elems (rotate (negb d) x o t').1 = elems (mk d x b t' o)) as Hre.
      { rewrite (rotate_elems _ _ b) by done. by destruct d. }
      destruct (rotate (negb d) x o t').2.
      * destruct (IH (mk d x b t o) (rotate (negb d) x o t').1) as [Hg1 Hg2]; [done|done| |].
        -- rewrite height_mk. hv d; lia.
        -- split; [done|]. apply Hel. by rewrite Hg2, Hre.
      * split; [|apply Hel; by rewrite elems_plug, Hre].
        apply (avl_plug_same c _ _ Ht); [done|]. rewrite height_mk. hv d; lia.
Qed.

Lemma height_elems t : height t ≤ Z.of_nat (length (elems t)).
Proof. induction t; simpl; [lia|]. rewrite length_app. simpl. lia. Qed.

(** An AVL tree of height [h] has at least [2^(h/2) - 1] elements. *)
Lemma avl_height_elems t : avl t → 2 ^ (height t / 2) ≤ Z.of_nat (length (elems t)) + 1.
Proof.
  intros Ht. remember (Z.to_nat (height t)) as n eqn:En. revert t Ht En.
  induction (lt_wf n) as [n _ IH]. intros t Ht ->.
  destruct t as [|l x b r]; [done|]. destruct Ht as (Hb & Hr & Hl & Hr').
  pose proof (height_nonneg l). pose proof (height_nonneg r).
  simpl elems. rewrite length_app. cbn [length height] in *.
  destruct (decide (height l = 0 ∧ height r = 0)) as [[E1 E2]|Hne].
  { rewrite E1, E2. change ((1 + Z.max 0 0) / 2) with 0. lia. }
  assert (2 ^ (height l / 2) ≤ Z.of_nat (length (elems l)) + 1) as H1 by (eapply IH; [|done|done]; lia).
  assert (2 ^ (height r / 2) ≤ Z.of_nat (length (elems r)) + 1) as H2 by (eapply IH; [|done|done]; lia).
  set (h := Z.max (height l) (height r)) in *.
  assert ((1 + h) / 2 = 1 + (h - 1) / 2) as ->.
  { replace (1 + h) with (h - 1 + 1 * 2) by lia. rewrite Z.div_add by lia. lia. }
  assert (0 ≤ (h - 1) / 2) by (apply Z.div_pos; lia). rewrite Z.pow_add_r by lia.
  assert (2 ^ ((h - 1) / 2) ≤ 2 ^ (height l / 2)) by (apply Z.pow_le_mono_r; [lia|apply Z.div_le_mono; lia]).
  assert (2 ^ ((h - 1) / 2) ≤ 2 ^ (height r / 2)) by (apply Z.pow_le_mono_r; [lia|apply Z.div_le_mono; lia]).
  lia.
Qed.

(** ** What rebalancing relies on

    The balances are in range, and the nodes a rotation moves are there. *)

Definition in_range (b : Z) : Prop := -1 ≤ b ≤ 1.

Fixpoint grow_ok (c : list frame) (t : tree) : Prop :=
  match c with
  | [] => True
  | Frame d x b o :: c =>
      in_range b ∧
      if b + heavy d =? 0 then True
      else if negb (b =? 0) then can_rotate d t ∧ in_range (bal t)
      else grow_ok c (mk d x (b + heavy d) t o)
  end.

Fixpoint shrink_ok (c : list frame) (t : tree) : Prop :=
  match c with
  | [] => True
  | Frame d x b o :: c =>
      in_range b ∧
      if b =? 0 then True
      else if b - heavy d =? 0 then shrink_ok c (mk d x 0 t o)
      else can_rotate (negb d) o ∧ in_range (bal o) ∧
        ((rotate (negb d) x o t).2 = true → shrink_ok c (rotate (negb d) x o t).1)
  end.

Lemma avl_bal t : avl t → in_range (bal t).
Proof. unfold in_range. destruct t; simpl; [lia|tauto]. Qed.

Lemma grow_ok_avl c : ∀ t t', avl (plug c t) → avl t' → height t' = height t + 1 → grow_ok c t'.
Proof.
  induction c as [|[d x b o] c IH]; intros t t' Ht Ht' Hh; simpl in *; [done|].
  pose proof (avl_plug_focus _ _ Ht) as Hm. apply avl_mk in Hm as (Hb & Hr & Hat & Hao).
  split; [done|]. destruct (Z.eqb_spec (b + heavy d) 0) as [E|E]; [done|].
  destruct (Z.eqb_spec b 0) as [->|Hb0]; cbn [negb].
  - apply (IH (mk d x 0 t o)); [done| |rewrite !height_mk; hv d; lia].
    apply avl_mk. hv d; split_and!; done || lia.
  - split; [|by apply avl_bal]. apply (rotate_avl d x t' o); [done..|hv d; lia].
Qed.

Lemma shrink_ok_avl c : ∀ t t', avl (plug c t) → avl t' → height t' = height t - 1 → shrink_ok c t'.
Proof.
  induction c as [|[d x b o] c IH]; intros t t' Ht Ht' Hh; simpl in *; [done|].
  pose proof (avl_plug_focus _ _ Ht) as Hm. apply avl_mk in Hm as (Hb & Hr & Hat & Hao).
  split; [done|]. destruct (Z.eqb_spec b 0) as [->|Hb0]; [done|].
  destruct (Z.eqb_spec (b - heavy d) 0) as [E|E].
  - apply (IH (mk d x b t o)); [done| |rewrite !height_mk; hv d; lia].
    apply avl_mk. hv d; split_and!; done || lia.
  - destruct (rotate_avl (negb d) x o t' Hao Ht') as (Hc & Ha & Hht & Hfl); [hv d; lia|].
    split_and!; [done|by apply avl_bal|]. intros E2. rewrite E2 in Hht.
    apply (IH (mk d x b t o)); [done|done|]. rewrite height_mk. hv d; lia.
Qed.
