(* ===== verification/AvlTree.v ===== *)
(** * AVL trees: [kernel/util/avl_tree.c]

    The nodes of a tree are embedded in the client's data at an offset kept in the
    tree. The state of the model is the nodes and the tree headers by address; the
    comparison is a function of data addresses the client supplies. The assertions
    of the kernels built for debugging are part of the model, as panics. Loops run on
    fuel that covers a path through all nodes. *)

From S2P Require Import Prelude.
From stdpp Require Import gmap list.
#[local] Open Scope Z_scope.

(** ** Data *)

(** [avl_tree_node_t]; the two children as two fields. *)
Record anode := ANode {
  child0 : Z; child1 : Z; avl_parent : Z; avl_child_index : Z; avl_balance : Z }.

(** [avl_tree_t] *)
Record atree := ATree {
  avl_root : Z; avl_offset : Z; avl_numnodes : Z; avl_size : Z }.

(** [avl_tree_index_t] *)
Record aindex := AIndex { ix_node : Z; ix_child : Z }.

Record astore := AStore { anodes : gmap Z anode; atrees : gmap Z atree }.

(** The client's [avl_compare] on data. *)
Class AvlClient := { avl_compare : Z → Z → Z }.

(** ** Access *)

(** [n->avl_child[i]] *)
Definition avl_child (n : anode) (i : Z) : Z := if i =? 0 then child0 n else child1 n.

Definition with_child (i v : Z) (n : anode) : anode :=
  if i =? 0 then ANode v (child1 n) (avl_parent n) (avl_child_index n) (avl_balance n)
  else ANode (child0 n) v (avl_parent n) (avl_child_index n) (avl_balance n).

Definition with_parent (p : Z) (n : anode) : anode :=
  ANode (child0 n) (child1 n) p (avl_child_index n) (avl_balance n).

Definition with_index (c : Z) (n : anode) : anode :=
  ANode (child0 n) (child1 n) (avl_parent n) (uwrap 16 c) (avl_balance n).

Definition with_balance (b : Z) (n : anode) : anode :=
  ANode (child0 n) (child1 n) (avl_parent n) (avl_child_index n) (s16 b).

Definition ld_node (p : Z) : M astore anode := load (λ s, anodes s !! p).

Definition st_node (p : Z) (f : anode → anode) : M astore unit := λ s,
  match anodes s !! p with
  | Some n => Ok (tt, AStore (<[p := f n]> (anodes s)) (atrees s))
  | None => Fault
  end.

Definition ld_tree (t : Z) : M astore atree := load (λ s, atrees s !! t).

Definition st_tree (t : Z) (f : atree → atree) : M astore unit := λ s,
  match atrees s !! t with
  | Some h => Ok (tt, AStore (anodes s) (<[t := f h]> (atrees s)))
  | None => Fault
  end.

Definition ld_child (p i : Z) : M astore Z := n ← ld_node p; mret (avl_child n i).

Definition st_child (p i v : Z) : M astore unit := st_node p (with_child i v).

Definition AVL_XPARENT (p : Z) : M astore Z := n ← ld_node p; mret (avl_parent n).

Definition AVL_SETPARENT (p v : Z) : M astore unit := st_node p (with_parent v).

Definition AVL_XCHILD (p : Z) : M astore Z := n ← ld_node p; mret (avl_child_index n).

Definition AVL_SETCHILD (p v : Z) : M astore unit := st_node p (with_index v).

Definition AVL_XBALANCE (p : Z) : M astore Z := n ← ld_node p; mret (avl_balance n).

Definition AVL_SETBALANCE (p v : Z) : M astore unit := st_node p (with_balance v).

Definition set_root (t v : Z) : M astore unit :=
  st_tree t (λ h, ATree v (avl_offset h) (avl_numnodes h) (avl_size h)).

Definition add_nodes (t d : Z) : M astore unit :=
  st_tree t (λ h, ATree (avl_root h) (avl_offset h) (u32 (avl_numnodes h + d)) (avl_size h)).

Definition AVL_NODE2DATA (n o : Z) : Z := u32 (n - o).

Definition AVL_DATA2NODE (d o : Z) : Z := u32 (d + o).

Definition avl_child2balance (i : Z) : Z := if i =? 0 then -1 else 1.

Definition avl_balance2child (i : Z) : Z := if i =? 2 then 1 else 0.

Definition ASSERT (b : bool) : M astore unit := if b then mret tt else panic.

Definition afuel (s : astore) : nat := S (size (anodes s)).

Definition sizeof_avl_tree_node : Z := 16.

(** ** Rotation *)

(** Make [child] the child [which] of [parent], or the root. *)
Definition link_child (tree parent which child : Z) : M astore unit :=
  if negb (parent =? NULL) then st_child parent which child else set_root tree child.

(** Move the subtree [n], if any, below [p]. *)
Definition adopt (n p i : Z) : M astore unit :=
  when (negb (n =? NULL)) (AVL_SETPARENT n p;; AVL_SETCHILD n i).

Definition avl_tree_rotation (tree node balance : Z) : M astore Z :=
  let left := if balance <? 0 then 0 else 1 in
  let right := 1 - left in
  let left_heavy := Z.shiftr balance 1 in
  let right_heavy := - left_heavy in
  parent ← AVL_XPARENT node;
  child ← ld_child node left;
  which_child ← AVL_XCHILD node;
  child_bal ← AVL_XBALANCE child;
  if negb (child_bal =? right_heavy) then
    let child_bal := child_bal + right_heavy in
    cright ← ld_child child right;
    st_child node left cright;;
    adopt cright node left;;
    st_child child right node;;
    AVL_SETBALANCE node (- child_bal);;
    AVL_SETCHILD node right;;
    AVL_SETPARENT node child;;
    AVL_SETBALANCE child child_bal;;
    AVL_SETCHILD child which_child;;
    AVL_SETPARENT child parent;;
    link_child tree parent which_child child;;
    mret (if child_bal =? 0 then 1 else 0)
  else
    gchild ← ld_child child right;
    gleft ← ld_child gchild left;
    gright ← ld_child gchild right;
    st_child node left gright;;
    adopt gright node left;;
    st_child child right gleft;;
    adopt gleft child right;;
    balance ← AVL_XBALANCE gchild;
    st_child gchild left child;;
    AVL_SETBALANCE child (if balance =? right_heavy then left_heavy else 0);;
    AVL_SETPARENT child gchild;;
    AVL_SETCHILD child left;;
    st_child gchild right node;;
    AVL_SETBALANCE node (if balance =? left_heavy then right_heavy else 0);;
    AVL_SETPARENT node gchild;;
    AVL_SETCHILD node right;;
    AVL_SETBALANCE gchild 0;;
    AVL_SETPARENT gchild parent;;
    AVL_SETCHILD gchild which_child;;
    link_child tree parent which_child gchild;;
    mret 1.

(** ** Walks *)

(** [while(node->avl_child[i]) node = node->avl_child[i];] *)
Fixpoint descend (fuel : nat) (node i : Z) : M astore Z :=
  match fuel with
  | O => hang
  | S fuel =>
      n ← ld_child node i;
      if negb (n =? NULL) then descend fuel n i else mret node
  end.

(** Up through the parents until the way came from child [i]; [NULL] at the root. *)
Fixpoint ascend (fuel : nat) (node i : Z) : M astore Z :=
  match fuel with
  | O => hang
  | S fuel =>
      was_child ← AVL_XCHILD node;
      node ← AVL_XPARENT node;
      if node =? NULL then mret NULL
      else if was_child =? i then mret node
      else ascend fuel node i
  end.

Definition avl_tree_walk (tree oldnode left : Z) : M astore Z :=
  h ← ld_tree tree;
  let off := avl_offset h in
  let node := AVL_DATA2NODE oldnode off in
  let right := 1 - left in
  if node =? NULL then mret NULL
  else
    fuel ← gets afuel;
    c ← ld_child node left;
    if negb (c =? NULL) then
      n ← descend fuel c right; mret (AVL_NODE2DATA n off)
    else
      n ← ascend fuel node right;
      mret (if n =? NULL then NULL else AVL_NODE2DATA n off).

(** The last node on the path along children [i], [prev] being the one before [node]. *)
Fixpoint outermost (fuel : nat) (node prev i : Z) : M astore Z :=
  match fuel with
  | O => hang
  | S fuel =>
      if negb (node =? NULL) then n ← ld_child node i; outermost fuel n node i
      else mret prev
  end.

Definition avl_tree_first (tree : Z) : M astore Z :=
  h ← ld_tree tree; fuel ← gets afuel;
  prev ← outermost fuel (avl_root h) NULL 0;
  mret (if negb (prev =? NULL) then AVL_NODE2DATA prev (avl_offset h) else NULL).

Definition avl_tree_last (tree : Z) : M astore Z :=
  h ← ld_tree tree; fuel ← gets afuel;
  prev ← outermost fuel (avl_root h) NULL 1;
  mret (if negb (prev =? NULL) then AVL_NODE2DATA prev (avl_offset h) else NULL).

(** ** Creation and destruction *)

Definition avl_tree_create (tree size offset : Z) : M astore unit :=
  ASSERT (negb (tree =? NULL));;
  ASSERT (0 <? size);;
  ASSERT (u32 (offset + sizeof_avl_tree_node) <=? size);;
  modify (λ s, AStore (anodes s) (<[tree := ATree NULL offset 0 size]> (atrees s))).

Definition avl_tree_destroy (tree : Z) : M astore Z :=
  ASSERT (negb (tree =? NULL));;
  h ← ld_tree tree;
  ASSERT (avl_numnodes h =? 0);;
  ASSERT (avl_root h =? NULL);;
  mret (avl_numnodes h).

Definition avl_tree_numnodes (tree : Z) : M astore Z :=
  ASSERT (negb (tree =? NULL));;
  h ← ld_tree tree; mret (avl_numnodes h).

Section ops.
Context `{AvlClient}.

(** ** Search *)

(** The data found, or [NULL] and the insertion point. *)
Fixpoint find_loop (fuel : nat) (off value node prev child : Z) : M astore (Z * aindex) :=
  match fuel with
  | O => hang
  | S fuel =>
      if node =? NULL then mret (NULL, AIndex prev child)
      else
        let diff := avl_compare value (AVL_NODE2DATA node off) in
        ASSERT ((-1 <=? diff) && (diff <=? 1));;
        if diff =? 0 then mret (AVL_NODE2DATA node off, AIndex NULL 0)
        else
          let child := avl_balance2child (1 + diff) in
          n ← ld_child node child;
          find_loop fuel off value n node child
  end.

Definition avl_tree_find (tree value : Z) : M astore (Z * aindex) :=
  h ← ld_tree tree; fuel ← gets afuel;
  find_loop fuel (avl_offset h) value (avl_root h) NULL 0.

Definition avl_tree_nearest (tree : Z) (where_ : aindex) (direction : Z) : M astore Z :=
  h ← ld_tree tree;
  if ix_node where_ =? NULL then ASSERT (avl_root h =? NULL);; mret NULL
  else
    let data := AVL_NODE2DATA (ix_node where_) (avl_offset h) in
    if negb (ix_child where_ =? direction) then mret data
    else avl_tree_walk tree data direction.

(** ** Insertion *)

(** Adjust the balances from [node] up, a subtree at its [which_child] having grown. *)
Fixpoint insert_up (fuel : nat) (tree node which_child : Z) : M astore unit :=
  match fuel with
  | O => hang
  | S fuel =>
      if node =? NULL then mret tt
      else
        old_balance ← AVL_XBALANCE node;
        let new_balance := old_balance + avl_child2balance which_child in
        if new_balance =? 0 then AVL_SETBALANCE node 0
        else if negb (old_balance =? 0) then
          avl_tree_rotation tree node new_balance;; mret tt
        else
          AVL_SETBALANCE node new_balance;;
          parent ← AVL_XPARENT node;
          which_child ← AVL_XCHILD node;
          insert_up fuel tree parent which_child
  end.

Definition avl_tree_insert (tree new_data : Z) (where_ : aindex) : M astore unit :=
  ASSERT (negb (tree =? NULL));;
  h ← ld_tree tree;
  let parent := ix_node where_ in
  let which_child := ix_child where_ in
  let node := AVL_DATA2NODE new_data (avl_offset h) in
  add_nodes tree 1;;
  st_child node 0 NULL;;
  st_child node 1 NULL;;
  AVL_SETCHILD node which_child;;
  AVL_SETBALANCE node 0;;
  AVL_SETPARENT node parent;;
  (if negb (parent =? NULL) then
     c ← ld_child parent which_child;
     ASSERT (c =? NULL);;
     st_child parent which_child node
   else
     ASSERT (avl_root h =? NULL);;
     set_root tree node);;
  fuel ← gets afuel;
  insert_up fuel tree parent which_child.

(** [new_data] belongs on side [child] of the data at [node]. *)
Definition assert_side (off new_data node child : Z) : M astore unit :=
  let diff := avl_compare new_data (AVL_NODE2DATA node off) in
  ASSERT ((-1 <=? diff) && (diff <=? 1));;
  ASSERT (negb (diff =? 0));;
  ASSERT (if 0 <? diff then child =? 1 else child =? 0).

Fixpoint insert_here_loop (fuel : nat) (off new_data node child : Z) : M astore Z :=
  match fuel with
  | O => hang
  | S fuel =>
      n ← ld_child node child;
      if negb (n =? NULL) then
        assert_side off new_data node child;;
        insert_here_loop fuel off new_data n child
      else mret node
  end.

Definition avl_tree_insert_here (tree new_data here direction : Z) : M astore unit :=
  ASSERT (negb (tree =? NULL));; ASSERT (negb (new_data =? NULL));; ASSERT (negb (here =? NULL));;
  ASSERT ((direction =? 0) || (direction =? 1));;
  h ← ld_tree tree;
  let off := avl_offset h in
  let node := AVL_DATA2NODE here off in
  let child := direction in
  assert_side off new_data node child;;
  c ← ld_child node child;
  nc ← (if negb (c =? NULL) then
      let child := 1 - child in
      fuel ← gets afuel;
      node ← insert_here_loop fuel off new_data c child;
      assert_side off new_data node child;;
      mret (node, child)
    else mret (node, child));
  c ← ld_child nc.1 nc.2;
  ASSERT (c =? NULL);;
  avl_tree_insert tree new_data (AIndex nc.1 nc.2).

(** [NULL] when an equal element is in the tree. *)
Definition avl_tree_add (tree new_node : Z) : M astore Z :=
  r ← avl_tree_find tree new_node;
  if negb (r.1 =? NULL) then mret NULL
  else avl_tree_insert tree new_node r.2;; mret new_node.

(** ** Removal *)

(** Adjust the balances from [node] up, its subtree at [which_child] having shrunk. *)
Fixpoint remove_up (fuel : nat) (tree node which_child : Z) : M astore unit :=
  match fuel with
  | O => hang
  | S fuel =>
      old_balance ← AVL_XBALANCE node;
      let new_balance := old_balance - avl_child2balance which_child in
      parent ← AVL_XPARENT node;
      which_child ← AVL_XCHILD node;
      if old_balance =? 0 then AVL_SETBALANCE node new_balance
      else
        go_on ← (if new_balance =? 0 then AVL_SETBALANCE node new_balance;; mret true
                 else r ← avl_tree_rotation tree node new_balance; mret (negb (r =? 0)));
        if (go_on : bool) && negb (parent =? NULL) then remove_up fuel tree parent which_child
        else mret tt
  end.

(** [node] takes the place of [delete]; its own place is taken by the local node [tmp]. *)
Definition exchange (tree delete node left tmp : Z) : M astore unit :=
  let right := 1 - left in
  n ← ld_node node;
  modify (λ s, AStore (<[tmp := n]> (anodes s)) (atrees s));;
  d ← ld_node delete;
  st_node node (λ _, d);;
  c ← ld_child node left;
  when (c =? node) (st_child node left tmp);;
  parent ← AVL_XPARENT node;
  which ← AVL_XCHILD node;
  link_child tree parent which node;;
  c ← ld_child node left; AVL_SETPARENT c node;;
  c ← ld_child node right; AVL_SETPARENT c node;;
  parent ← AVL_XPARENT tmp;
  which ← AVL_XCHILD tmp;
  st_child parent which tmp;;
  c1 ← ld_child tmp 1;
  let which_child := if negb (c1 =? 0) then 1 else 0 in
  c ← ld_child tmp which_child;
  when (negb (c =? NULL)) (AVL_SETPARENT c tmp).

(** Exchange a node that has two children with its neighbour in the order on the
    taller side. *)
Definition swap_out (tree delete tmp : Z) : M astore unit :=
  old_balance ← AVL_XBALANCE delete;
  let left := avl_balance2child (old_balance + 1) in
  let right := 1 - left in
  c ← ld_child delete left;
  fuel ← gets afuel;
  node ← descend fuel c right;
  exchange tree delete node left tmp.

(** Take out the node [delete], which has one child at most. *)
Definition unlink (tree delete : Z) : M astore unit :=
  h ← ld_tree tree;
  ASSERT (0 <? avl_numnodes h);;
  add_nodes tree (-1);;
  n ← ld_node delete;
  let parent := avl_parent n in
  let which_child := avl_child_index n in
  let node := if negb (child0 n =? NULL) then child0 n else child1 n in
  adopt node parent which_child;;
  if parent =? NULL then set_root tree node
  else
    st_child parent which_child node;;
    fuel ← gets afuel;
    remove_up fuel tree parent which_child.

(** The removal proper, of a node of the tree; [tmp]: the address of the local node. *)
Definition take_out (tree delete tmp : Z) : M astore unit :=
  n ← ld_node delete;
  delete ← (if negb (child0 n =? NULL) && negb (child1 n =? NULL)
            then swap_out tree delete tmp;; mret tmp else mret delete);
  unlink tree delete.

Definition remove_body (tree data tmp : Z) : M astore Z :=
  ASSERT (negb (tree =? NULL));;
  r ← (if data =? NULL then mret (NULL, AIndex NULL 0) else avl_tree_find tree data);
  if (data =? NULL) || negb (r.1 =? data) then mret NULL
  else
    h ← ld_tree tree;
    take_out tree (AVL_DATA2NODE data (avl_offset h)) tmp;;
    mret data.

(** The local node is gone when the call returns. *)
Definition avl_tree_remove (tree data tmp : Z) : M astore Z :=
  r ← remove_body tree data tmp;
  modify (λ s, AStore (delete tmp (anodes s)) (atrees s));;
  mret r.
End ops.

(** ** Destruction node by node *)

(** [done:] the cookie for the next call. *)
Definition destroy_done (tree node parent : Z) : M astore (Z * aindex) :=
  h ← ld_tree tree;
  let data := AVL_NODE2DATA node (avl_offset h) in
  if parent =? NULL then
    ASSERT (node =? avl_root h);; mret (data, AIndex NULL 1)
  else
    child ← AVL_XCHILD node; mret (data, AIndex parent child).

(** [check_right_side:] the one child a node on the left may have. *)
Definition destroy_check_right (tree node parent : Z) : M astore (Z * aindex) :=
  n ← ld_node node;
  if negb (child1 n =? NULL) then
    ASSERT (avl_balance n =? 1);;
    c ← ld_node (child1 n);
    ASSERT ((child0 c =? NULL) && (child1 c =? NULL));;
    destroy_done tree (child1 n) node
  else
    ASSERT (avl_balance n <=? 0);;
    destroy_done tree node parent.

(** Down the left side from [node], keeping the parent. *)
Fixpoint leftmost (fuel : nat) (node parent : Z) : M astore (Z * Z) :=
  match fuel with
  | O => hang
  | S fuel =>
      c ← ld_child node 0;
      if negb (c =? NULL) then leftmost fuel c node else mret (node, parent)
  end.

Definition avl_tree_destroy_nodes (tree : Z) (cookie : aindex) : M astore (Z * aindex) :=
  if (ix_node cookie =? NULL) && (ix_child cookie =? 0) then
    first ← avl_tree_first tree;
    if first =? NULL then mret (NULL, AIndex NULL 1)
    else
      h ← ld_tree tree;
      let node := AVL_DATA2NODE first (avl_offset h) in
      parent ← AVL_XPARENT node;
      destroy_check_right tree node parent
  else if ix_node cookie =? NULL then
    h ← ld_tree tree;
    when (negb (avl_root h =? NULL)) (
      ASSERT (avl_numnodes h =? 1);;
      set_root tree NULL;;
      st_tree tree (λ h, ATree (avl_root h) (avl_offset h) 0 (avl_size h)));;
    mret (NULL, cookie)
  else
    let parent := ix_node cookie in
    let child := ix_child cookie in
    st_child parent child NULL;;
    h ← ld_tree tree;
    ASSERT (1 <? avl_numnodes h);;
    add_nodes tree (-1);;
    c1 ← ld_child parent 1;
    if (child =? 1) || (c1 =? NULL) then
      grandparent ← AVL_XPARENT parent;
      destroy_done tree parent grandparent
    else
      fuel ← gets afuel;
      np ← leftmost fuel c1 parent;
      destroy_check_right tree np.1 np.2.
