(* ===== verification/AvlTreeSpec.v ===== *)
(** * What AVL trees do: the nodes in the store

    The nodes of a store that form a tree value, and that the routines of AvlTree
    carry out the algorithms of AvlPure on them. *)

From stdpp Require Import gmap list.
From S2P Require Import Prelude AvlPure AvlTree.
#[local] Open Scope Z_scope.

(** ** Representation *)

(** A node with [f] on side [d] and [o] on the other one. *)
Definition mkn (d : bool) (f o p ci b : Z) : anode :=
  if d then ANode o f p ci b else ANode f o p ci b.

(** The tree [t] hangs below [p], as its child [ci]. *)
Fixpoint tree_at (m : gmap Z anode) (t : tree) (p ci : Z) : Prop :=
  match t with
  | Leaf => True
  | Node l x b r => m !! x = Some (ANode (root l) (root r) p ci b) ∧
      tree_at m l x 0 ∧ tree_at m r x 1
  end.

(** Parent and child index of the focus. *)
Definition cparent (c : list frame) : Z := match c with [] => NULL | f :: _ => fx f end.

Definition cdir (c : list frame) : Z := match c with [] => 0 | f :: _ => Z.b2z (fd f) end.

(** The nodes of the path and of the trees off it. *)
Fixpoint celems (c : list frame) : list Z :=
  match c with [] => [] | f :: c => fx f :: elems (fo f) ++ celems c end.

(** The path from the root [r] to the focus [f]. *)
Fixpoint ctx_at (m : gmap Z anode) (r : Z) (c : list frame) (f : Z) : Prop :=
  match c with
  | [] => r = f
  | F :: c => m !! fx F = Some (mkn (fd F) f (root (fo F)) (cparent c) (cdir c) (fb F)) ∧
      tree_at m (fo F) (fx F) (1 - Z.b2z (fd F)) ∧ ctx_at m r c (fx F)
  end.

Lemma root_mk d x b t o : root (mk d x b t o) = x.
Proof. by destruct d. Qed.

Lemma tree_at_mk m d x b t o p ci :
  tree_at m (mk d x b t o) p ci ↔ m !! x = Some (mkn d (root t) (root o) p ci b) ∧
    tree_at m t x (Z.b2z d) ∧ tree_at m o x (1 - Z.b2z d).
Proof. destruct d; simpl; tauto. Qed.

Lemma tree_at_plug m c : ∀ t,
  tree_at m (plug c t) NULL 0 ↔
  tree_at m t (cparent c) (cdir c) ∧ ctx_at m (root (plug c t)) c (root t).
Proof.
  induction c as [|[d x b o] c IH]; intros t; simpl; [tauto|].
  rewrite IH, tree_at_mk, root_mk. tauto.
Qed.

(** The root of a tree does not depend on what is at the end of a path. *)
Lemma plug_root c : ∀ t, root (plug c t) = default (root t) (last (map fx c)).
Proof.
  induction c as [|[d x b o] c IH]; intros t; [done|]. simpl plug. rewrite IH, root_mk.
  cbn [map fx]. rewrite last_cons. by destruct (last _).
Qed.

Lemma elems_plug_perm c : ∀ t, elems (plug c t) ≡ₚ elems t ++ celems c.
Proof.
  induction c as [|[d x b o] c IH]; intros t; simpl; [by rewrite app_nil_r|].
  rewrite IH, elems_mk. destruct d; solve_Permutation.
Qed.

Lemma tree_at_frame m m' t p ci :
  (∀ z, z ∈ elems t → m' !! z = m !! z) → tree_at m t p ci → tree_at m' t p ci.
Proof.
  revert p ci. induction t as [|l IHl x b r IHr]; intros p ci Hf; [done|]. simpl in *.
  intros (Hx & Hl & Hr). split_and!; [rewrite Hf; [done|set_solver]|..];
    [apply IHl|apply IHr]; auto; intros z Hz; apply Hf; set_solver.
Qed.

Lemma ctx_at_frame m m' r c f :
  (∀ z, z ∈ celems c → m' !! z = m !! z) → ctx_at m r c f → ctx_at m' r c f.
Proof.
  revert f. induction c as [|[d x b o] c IH]; intros f Hf; [done|]. simpl in *.
  intros (Hx & Ho & Hc). split_and!; [rewrite Hf; [done|set_solver]| |].
  - eapply tree_at_frame; [|done]. intros z Hz. apply Hf. set_solver.
  - apply IH; [|done]. intros z Hz. apply Hf. set_solver.
Qed.

Lemma root_elem t : root t ≠ NULL → root t ∈ elems t.
Proof. destruct t; simpl; [done|set_solver]. Qed.

Lemma tree_at_root m t p ci : tree_at m t p ci → root t ≠ NULL → is_Some (m !! root t).
Proof. destruct t; simpl; [done|]. naive_solver. Qed.

(** ** Nodes *)

Lemma wp_ld_node p n s (Q : anode → astore → Prop) : anodes s !! p = Some n → Q n s → wp (ld_node p) s Q.
Proof. intros. by eapply wp_load. Qed.

Lemma wp_st_node p f n s (Q : unit → astore → Prop) :
  anodes s !! p = Some n → Q tt (AStore (<[p := f n]> (anodes s)) (atrees s)) → wp (st_node p f) s Q.
Proof. intros Hn HQ. unfold wp, st_node. by rewrite Hn. Qed.

Lemma wp_ld_child p i n s (Q : Z → astore → Prop) :
  anodes s !! p = Some n → Q (avl_child n i) s → wp (ld_child p i) s Q.
Proof. intros. unfold ld_child. wp_go. eapply wp_ld_node; [done|]. by wp_go. Qed.

Lemma wp_XPARENT p n s (Q : Z → astore → Prop) :
  anodes s !! p = Some n → Q (avl_parent n) s → wp (AVL_XPARENT p) s Q.
Proof. intros. unfold AVL_XPARENT. wp_go. eapply wp_ld_node; [done|]. by wp_go. Qed.

Lemma wp_XCHILD p n s (Q : Z → astore → Prop) :
  anodes s !! p = Some n → Q (avl_child_index n) s → wp (AVL_XCHILD p) s Q.
Proof. intros. unfold AVL_XCHILD. wp_go. eapply wp_ld_node; [done|]. by wp_go. Qed.

Lemma wp_XBALANCE p n s (Q : Z → astore → Prop) :
  anodes s !! p = Some n → Q (avl_balance n) s → wp (AVL_XBALANCE p) s Q.
Proof. intros. unfold AVL_XBALANCE. wp_go. eapply wp_ld_node; [done|]. by wp_go. Qed.

Lemma wp_ld_tree t h s (Q : atree → astore → Prop) : atrees s !! t = Some h → Q h s → wp (ld_tree t) s Q.
Proof. intros. by eapply wp_load. Qed.

Lemma wp_st_tree t f h s (Q : unit → astore → Prop) :
  atrees s !! t = Some h → Q tt (AStore (anodes s) (<[t := f h]> (atrees s))) → wp (st_tree t f) s Q.
Proof. intros Hn HQ. unfold wp, st_tree. by rewrite Hn. Qed.

Lemma wp_ASSERT b s (Q : unit → astore → Prop) : b = true → Q tt s → wp (ASSERT b) s Q.
Proof. by intros ->. Qed.

Lemma child_mkn d f o p ci b : avl_child (mkn d f o p ci b) (Z.b2z d) = f.
Proof. by destruct d. Qed.

Lemma child_mkn' d f o p ci b : avl_child (mkn d f o p ci b) (1 - Z.b2z d) = o.
Proof. by destruct d. Qed.

Lemma with_child_mkn d v f o p ci b : with_child (Z.b2z d) v (mkn d f o p ci b) = mkn d v o p ci b.
Proof. by destruct d. Qed.

Lemma with_child_mkn' d v f o p ci b :
  with_child (1 - Z.b2z d) v (mkn d f o p ci b) = mkn d f v p ci b.
Proof. by destruct d. Qed.

Lemma with_parent_mkn d q f o p ci b : with_parent q (mkn d f o p ci b) = mkn d f o q ci b.
Proof. by destruct d. Qed.

Lemma with_index_mkn d i f o p ci b : with_index i (mkn d f o p ci b) = mkn d f o p (uwrap 16 i) b.
Proof. by destruct d. Qed.

Lemma with_balance_mkn d v f o p ci b : with_balance v (mkn d f o p ci b) = mkn d f o p ci (s16 v).
Proof. by destruct d. Qed.

Lemma parent_mkn d f o p ci b : avl_parent (mkn d f o p ci b) = p.
Proof. by destruct d. Qed.

Lemma index_mkn d f o p ci b : avl_child_index (mkn d f o p ci b) = ci.
Proof. by destruct d. Qed.

Lemma balance_mkn d f o p ci b : avl_balance (mkn d f o p ci b) = b.
Proof. by destruct d. Qed.

Lemma index_b2z d : uwrap 16 (Z.b2z d) = Z.b2z d.
Proof. by destruct d. Qed.

Lemma index_b2z' d : uwrap 16 (1 - Z.b2z d) = 1 - Z.b2z d.
Proof. by destruct d. Qed.

Lemma index_cdir c : uwrap 16 (cdir c) = cdir c.
Proof. destruct c as [|[[] ???] c]; done. Qed.

Lemma s16_small b : -1 ≤ b ≤ 1 → s16 b = b.
Proof. intros. apply swrap_small; lia. Qed.

Create HintDb avl.
#[export] Hint Rewrite child_mkn child_mkn' with_child_mkn with_child_mkn' with_parent_mkn
  with_index_mkn with_balance_mkn parent_mkn index_mkn balance_mkn index_b2z index_b2z'
  index_cdir : avl.

(** [adopt] as a function of the nodes. *)
Definition reparent (n p i : Z) (m : gmap Z anode) : gmap Z anode :=
  if n =? NULL then m else alter (λ nd, with_index i (with_parent p nd)) n m.

Lemma wp_adopt n p i s (Q : unit → astore → Prop) :
  (n ≠ NULL → is_Some (anodes s !! n)) →
  Q tt (AStore (reparent n p i (anodes s)) (atrees s)) → wp (adopt n p i) s Q.
Proof.
  intros Hn HQ. unfold adopt, reparent in *. destruct (Z.eqb_spec n NULL) as [->|Hne]; simpl.
  - wp_go. by destruct s.
  - destruct (Hn Hne) as [nd Hnd]. wp_go. eapply wp_st_node; [done|]. wp_go.
    eapply wp_st_node; [apply lookup_insert_eq|]. simpl. rewrite insert_insert_eq.
    replace (alter _ n (anodes s)) with (<[n := with_index i (with_parent p nd)]> (anodes s)) in HQ;
      [done|]. apply map_eq. intros z. destruct (decide (z = n)) as [->|].
    + by rewrite lookup_insert_eq, lookup_alter_eq, Hnd.
    + by rewrite lookup_insert_ne, lookup_alter_ne.
Qed.

Lemma lookup_reparent_ne n p i m z : z ≠ n → reparent n p i m !! z = m !! z.
Proof. intros. unfold reparent. case_match; [done|]. by rewrite lookup_alter_ne. Qed.

Lemma lookup_reparent_notin t p i m z : z ∉ elems t → reparent (root t) p i m !! z = m !! z.
Proof.
  intros Hz. unfold reparent. case_match eqn:E; [done|]. apply Z.eqb_neq, root_elem in E.
  rewrite lookup_alter_ne; [done|]. by intros <-.
Qed.

Lemma tree_at_reparent m t p ci q i :
  NoDup (elems t) → NULL ∉ elems t → uwrap 16 i = i → tree_at m t p ci →
  tree_at (reparent (root t) q i m) t q i.
Proof.
  intros Hn H0 Hi. destruct t as [|l x b r]; [done|]. simpl in *. intros (Hx & Hl & Hr).
  apply NoDup_middle in Hn as (_ & Hxl & Hxr).
  assert (∀ z, z ≠ x → reparent x q i m !! z = m !! z) as Hz by (intros; by apply lookup_reparent_ne).
  split_and!; [|eapply tree_at_frame; [|done]..].
  - unfold reparent. rewrite (proj2 (Z.eqb_neq x NULL)) by set_solver.
    rewrite lookup_alter_eq, Hx. simpl. unfold with_index. simpl. by rewrite Hi.
  - intros z Hin. apply Hz. by intros ->.
  - intros z Hin. apply Hz. by intros ->.
Qed.

(** The tree [T] is the one of header [h] at [tr]. *)
Record avl_state (s : astore) (tr : Z) (h : atree) (T : tree) : Prop := {
  as_head : atrees s !! tr = Some h;
  as_root : avl_root h = root T;
  as_tree : tree_at (anodes s) T NULL 0;
  as_nodup : NoDup (elems T);
  as_valid : Forall valid_ptr (elems T) }.

Definition root_set (h : atree) (r : Z) : atree :=
  ATree r (avl_offset h) (avl_numnodes h) (avl_size h).

(** What is left alone outside the nodes [xs]. *)
Definition aouts (xs : list Z) (m m' : gmap Z anode) : Prop :=
  dom m' = dom m ∧ ∀ z, z ∉ xs → m' !! z = m !! z.

(** The last stores of a change at the focus: the link from above. [m1]: the nodes
    before them, the path still as it was. *)
Lemma wp_link_child s tr h c r f t' (Q : unit → astore → Prop) :
  atrees s !! tr = Some h → ctx_at (anodes s) r c f → avl_root h = r →
  tree_at (anodes s) t' (cparent c) (cdir c) →
  NoDup (elems t' ++ celems c) → Forall valid_ptr (elems t' ++ celems c) →
  (∀ m', tree_at m' (plug c t') NULL 0 → aouts (celems c) (anodes s) m' →
     Q tt (AStore m' (<[tr := root_set h (root (plug c t'))]> (atrees s)))) →
  wp (link_child tr (cparent c) (cdir c) (root t')) s Q.
Proof.
  intros Hh Hc Hr Ht Hn Hv HQ. unfold link_child. destruct c as [|[d x b o] c]; simpl in *.
  - change (negb (NULL =? NULL)) with false. cbv iota. eapply wp_st_tree; [done|].
    apply (HQ (anodes s)); [done|]. by split.
  - destruct Hc as (Hx & Ho & Hc). rewrite Forall_app, Forall_cons in Hv. destruct Hv as (_ & Hvx & _).
    rewrite (proj2 (Z.eqb_neq x NULL)) by (unfold valid_ptr, NULL in *; lia). cbn [negb].
    eapply wp_st_node; [done|]. rewrite with_child_mkn.
    apply NoDup_app in Hn as (_ & Hd & (Hxn & Hoc)%NoDup_cons).
    assert (∀ z, z ≠ x → <[x := mkn d (root t') (root o) (cparent c) (cdir c) b]> (anodes s) !! z =
      anodes s !! z) as Hz by (intros; by rewrite lookup_insert_ne).
    assert (ctx_at (<[x := mkn d (root t') (root o) (cparent c) (cdir c) b]> (anodes s)) r c x) as Hc'.
    { eapply ctx_at_frame; [|done]. intros z Hin. apply Hz. intros ->. set_solver. }
    assert (root (plug c (mk d x b t' o)) = r) as Er.
    { clear -Hc. revert Hc. generalize (mk d x b t' o) (root_mk d x b t' o).
      revert x. induction c as [|[d' x' b' o'] c IH]; simpl; intros x t <-; [done|].
      intros (_ & _ & Hc). eapply IH; [apply root_mk|done]. }
    specialize (HQ (<[x := mkn d (root t') (root o) (cparent c) (cdir c) b]> (anodes s))).
    rewrite Er in HQ. replace (<[tr := root_set h r]> (atrees s)) with (atrees s) in HQ.
    2: { symmetry. apply insert_id. rewrite Hh. f_equal. subst r. by destruct h. }
    apply HQ.
    + apply tree_at_plug. rewrite Er, root_mk. split; [|done]. apply tree_at_mk.
      split_and!; [apply lookup_insert_eq|..]; (eapply tree_at_frame; [|done]);
        intros z Hin; apply Hz; intros ->; set_solver.
    + split; [rewrite dom_insert_L; apply elem_of_dom_2 in Hx; set_solver|].
      intros z Hin. apply Hz. set_solver.
Qed.

Lemma tree_at_dom m t p ci : tree_at m t p ci → ∀ z, z ∈ elems t → z ∈ dom m.
Proof.
  revert p ci. induction t as [|l IHl x b r IHr]; intros p ci; simpl; [set_solver|].
  intros (Hx & Hl & Hr) z. apply elem_of_dom_2 in Hx.
  rewrite elem_of_app, elem_of_cons. naive_solver.
Qed.

(** The fuel covers all the nodes of the tree. *)
Lemma elems_fuel s tr h T : avl_state s tr h T → (length (elems T) < afuel s)%nat.
Proof.
  intros [_ _ Ht Hn _]. unfold afuel. rewrite <- size_dom. apply Nat.lt_succ_r.
  rewrite <- (size_list_to_set (C := gset Z) (elems T)) by done. apply subseteq_size.
  intros z Hz%elem_of_list_to_set. by eapply tree_at_dom.
Qed.

(** ** Rotation *)

(** Step through the accesses to nodes whose contents are known. *)
Ltac ane := solve [assumption | congruence | apply not_eq_sym; assumption | intros ->; contradiction].

Ltac alk := cbn [anodes atrees];
  repeat first [rewrite lookup_insert_eq | rewrite lookup_insert_ne by ane |
                rewrite lookup_reparent_notin by assumption];
  first [eassumption | reflexivity].

Ltac astep :=
  lazymatch goal with
  | |- wp (_ ≫= _) _ _ => apply wp_bind
  | |- wp (mret _) _ _ => apply wp_ret
  | |- wp (ld_child _ _) _ _ => eapply wp_ld_child; [alk|]
  | |- wp (AVL_XPARENT _) _ _ => eapply wp_XPARENT; [alk|]
  | |- wp (AVL_XCHILD _) _ _ => eapply wp_XCHILD; [alk|]
  | |- wp (AVL_XBALANCE _) _ _ => eapply wp_XBALANCE; [alk|]
  | |- wp (st_child _ _ _) _ _ => unfold st_child
  | |- wp (AVL_SETPARENT _ _) _ _ => unfold AVL_SETPARENT
  | |- wp (AVL_SETCHILD _ _) _ _ => unfold AVL_SETCHILD
  | |- wp (AVL_SETBALANCE _ _) _ _ => unfold AVL_SETBALANCE
  | |- wp (st_node _ _) _ _ => eapply wp_st_node; [alk|]
  end; cbv beta; cbn [anodes atrees]; autorewrite with avl.

(** The outcome of a rotation at the focus of [c]. *)
Definition rotated (s : astore) (tr : Z) (h : atree) (c : list frame) (d : bool) (x : Z)
    (t o : tree) (s' : astore) : Prop :=
  ∃ m', s' = AStore m' (<[tr := root_set h (root (plug c (rotate d x t o).1))]> (atrees s)) ∧
    tree_at m' (plug c (rotate d x t o).1) NULL 0 ∧
    aouts (elems (plug c (rotate d x t o).1)) (anodes s) m'.

Definition z_flag (b : bool) : Z := if b then 1 else 0.

(** The facts about distinct nodes that the accesses need. *)
Ltac split_nodup := repeat match goal with
  | H : NoDup (_ :: _) |- _ => apply NoDup_cons in H as [? H]
  | H : NoDup (_ ++ _) |- _ => apply NoDup_app in H as (? & ? & H)
  | H : Forall valid_ptr (_ :: _) |- _ => apply Forall_cons in H as [? H]
  | H : Forall valid_ptr (_ ++ _) |- _ => apply Forall_app in H as [? H]
  | H : _ ∉ _ :: _ |- _ => apply not_elem_of_cons in H as [? H]
  | H : _ ∉ _ ++ _ |- _ => apply not_elem_of_app in H as [? H]
  end.

(** An element of a list is in none of the lists disjoint from it. *)
Ltac disjoin Hz :=
  repeat match goal with
  | H : ∀ x, x ∈ ?L → x ∉ _ |- _ => match type of Hz with ?z ∈ L => specialize (H z Hz) end
  end; split_nodup.

Lemma valid_ne x : valid_ptr x → x ≠ NULL.
Proof. unfold valid_ptr, NULL. lia. Qed.

Lemma two_heavy d : (2 * heavy d <? 0) = negb d ∧ Z.shiftr (2 * heavy d) 1 = heavy d.
Proof. by destruct d. Qed.

Lemma if_b2z (d : bool) : (if negb d then 0 else 1) = Z.b2z d.
Proof. by destruct d. Qed.

Lemma bal_mk d x b t o : bal (mk d x b t o) = b.
Proof. by destruct d. Qed.

Lemma side_mk d x b t o : side d (mk d x b t o) = t.
Proof. by destruct d. Qed.

Lemma side_mk' d x b t o : side (negb d) (mk d x b t o) = o.
Proof. by destruct d. Qed.

Lemma reparent_congr n p i m m' z : m !! z = m' !! z → reparent n p i m !! z = reparent n p i m' !! z.
Proof.
  intros E. unfold reparent. case_match; [done|]. destruct (decide (z = n)) as [->|].
  - by rewrite !lookup_alter_eq, E.
  - by rewrite !lookup_alter_ne.
Qed.

Lemma dom_reparent n p i m : dom (reparent n p i m) = dom m.
Proof. unfold reparent. case_match; [done|]. by rewrite dom_alter_Z. Qed.

Lemma dom_insert_to (m : gmap Z anode) D k v : dom m = D → k ∈ D → dom (<[k := v]> m) = D.
Proof. intros <-. apply dom_insert_in. Qed.

Lemma dom_reparent_to n p i m D : dom m = D → dom (reparent n p i m) = D.
Proof. intros <-. apply dom_reparent. Qed.

(** A chain of stores to nodes that are there. *)
Ltac dom_chain := repeat first
  [reflexivity | apply dom_reparent_to | apply dom_insert_to; [|assumption]].

(** The last step: the new subtree [t'] stands in [m1], the path is still the old one. *)
Lemma finish_link s tr h c f t' n m1 (Q : unit → astore → Prop) :
  root t' = n →
  atrees s !! tr = Some h → ctx_at (anodes s) (avl_root h) c f →
  tree_at m1 t' (cparent c) (cdir c) →
  NoDup (elems t' ++ celems c) → Forall valid_ptr (elems t' ++ celems c) →
  (∀ z, z ∉ elems t' → m1 !! z = anodes s !! z) → dom m1 = dom (anodes s) →
  (∀ m', tree_at m' (plug c t') NULL 0 → aouts (elems (plug c t')) (anodes s) m' →
     Q tt (AStore m' (<[tr := root_set h (root (plug c t'))]> (atrees s)))) →
  wp (link_child tr (cparent c) (cdir c) n) (AStore m1 (atrees s)) Q.
Proof.
  intros <- Hh Hc Ht Hn Hv Hout Hdom HQ. pose proof Hn as (_ & Hd & _)%NoDup_app.
  eapply (wp_link_child (AStore m1 (atrees s)) tr h c _ f); try done.
  { simpl. eapply ctx_at_frame; [|exact Hc]. intros z Hz. apply Hout. intros Hin. by apply (Hd z). }
  simpl. intros m' Ht' [Hd' Ho']. apply HQ; [done|]. split; [congruence|].
  intros z Hz. rewrite elems_plug_perm in Hz. apply not_elem_of_app in Hz as [Hz1 Hz2].
  rewrite Ho' by done. by apply Hout.
Qed.

(** The child is not heavy on the inner side: one rotation. *)
Lemma rotate_outer s tr h c d x b o y cb a ci (Q : Z → astore → Prop) :
  let t := mk d y cb a ci in
  atrees s !! tr = Some h → avl_root h = root (plug c (mk d x b t o)) →
  cb = 0 ∨ cb = heavy d →
  tree_at (anodes s) (plug c (mk d x b t o)) NULL 0 →
  NoDup (elems (plug c (mk d x b t o))) → Forall valid_ptr (elems (plug c (mk d x b t o))) →
  (∀ s', rotated s tr h c d x t o s' → Q (z_flag (rotate d x t o).2) s') →
  wp (avl_tree_rotation tr x (2 * heavy d)) s Q.
Proof.
  intros t Hh Hr Hcb Ht Hn Hv HQ. apply tree_at_plug in Ht as [Ht Hc]. rewrite root_mk in Hc.
  apply tree_at_mk in Ht as (Hx & Ht & Ho). unfold t in Ht, Hx. apply tree_at_mk in Ht as (Hy & Ha & Hci).
  rewrite root_mk in Hx.
  rewrite elems_plug_perm in Hn, Hv.
  assert (elems (mk d x b t o) ≡ₚ x :: y :: elems a ++ elems ci ++ elems o) as Hp.
  { rewrite elems_mk. unfold t. rewrite elems_mk. destruct d; solve_Permutation. }
  rewrite Hp in Hn, Hv.
  pose proof Hn as Hn0. cbn [app] in Hn0. rewrite <- !app_assoc in Hn0.
  assert (∀ t', elems t' ≡ₚ x :: y :: elems a ++ elems ci ++ elems o →
    NoDup (elems t' ++ celems c) ∧ Forall valid_ptr (elems t' ++ celems c)) as Hnew
    by (by intros t' ->).
  split_nodup. assert (x ≠ NULL) by by apply valid_ne. assert (y ≠ NULL) by by apply valid_ne.
  unfold avl_tree_rotation. destruct (two_heavy d) as [-> ->]. rewrite if_b2z.
  repeat astep.
  assert (negb (cb =? - heavy d) = true) as Ecb.
  { apply negb_true_iff, Z.eqb_neq. destruct (heavy_cases d); lia. }
  rewrite Ecb. repeat astep. apply wp_adopt.
  { cbn [anodes]. intros Hne. pose proof (root_elem _ Hne).
    rewrite lookup_insert_ne by ane. by eapply tree_at_root. }
  repeat astep.
  assert ((rotate d x t o).1 = mk d y (cb - heavy d) a (mk d x (heavy d - cb) ci o) ∧
    (rotate d x t o).2 = (cb - heavy d =? 0)) as [Er1 Er2].
  { unfold rotate, t. rewrite bal_mk, root_mk, side_mk, side_mk', Ecb. done. }
  rewrite Er2 in HQ. unfold rotated in HQ. rewrite Er1 in HQ.
  change (cb + - heavy d) with (cb - heavy d).
  assert (-1 ≤ cb - heavy d ≤ 1) by (destruct (heavy_cases d); lia).
  rewrite !s16_small by lia. replace (- (cb - heavy d)) with (heavy d - cb) by lia.
  set (t' := mk d y (cb - heavy d) a (mk d x (heavy d - cb) ci o)) in *.
  match goal with |- wp _ (AStore ?m _) _ => set (m1 := m) end.
  assert (elems t' ≡ₚ x :: y :: elems a ++ elems ci ++ elems o) as Hp'.
  { unfold t'. rewrite !elems_mk. destruct d; solve_Permutation. }
  assert (∀ z, z ≠ x → z ≠ y → z ∉ elems ci → m1 !! z = anodes s !! z) as Hout.
  { intros z Hz1 Hz2 Hz3. unfold m1. alk. }
  assert (∀ z, z ∈ elems ci → m1 !! z = reparent (root ci) x (Z.b2z d) (anodes s) !! z) as Hin.
  { intros z Hz. assert (z ≠ x) by ane. assert (z ≠ y) by ane. unfold m1.
    rewrite !lookup_insert_ne by ane. apply reparent_congr. by rewrite lookup_insert_ne. }
  assert (dom m1 = dom (anodes s)) as Hdom.
  { unfold m1. apply elem_of_dom_2 in Hx, Hy.
    dom_chain. }
  assert (m1 !! y = Some (mkn d (root a) x (cparent c) (cdir c) (cb - heavy d))) as Hy1
    by (unfold m1; alk).
  assert (m1 !! x = Some (mkn d (root ci) (root o) y (1 - Z.b2z d) (heavy d - cb))) as Hx1
    by (unfold m1; alk).
  clearbody m1.
  apply (finish_link s tr h c x t' y m1); [apply root_mk|done|by rewrite Hr| | | | |done|].
  - unfold t'. rewrite tree_at_mk, root_mk, tree_at_mk. split_and!; [done| |done| |].
    + eapply tree_at_frame; [|done]. intros z Hz. disjoin Hz. apply Hout; ane.
    + eapply tree_at_frame; [exact Hin|]. eapply tree_at_reparent; [done| |by destruct d|done].
      by apply valid_not_null.
    + eapply tree_at_frame; [|done]. intros z Hz. apply Hout; [ane..|].
      intros Hz'. disjoin Hz'. contradiction.
  - by apply Hnew.
  - by apply Hnew.
  - intros z Hz. rewrite Hp' in Hz. split_nodup. by apply Hout.
  - intros m' Hm1 Hm2. apply wp_ret, HQ. by exists m'.
Qed.

(** The child is heavy on the inner side: two rotations at once. *)
Lemma rotate_inner s tr h c d x b o y a g gb gl gr (Q : Z → astore → Prop) :
  let t := mk d y (- heavy d) a (mk d g gb gl gr) in
  atrees s !! tr = Some h → avl_root h = root (plug c (mk d x b t o)) →
  tree_at (anodes s) (plug c (mk d x b t o)) NULL 0 →
  NoDup (elems (plug c (mk d x b t o))) → Forall valid_ptr (elems (plug c (mk d x b t o))) →
  (∀ s', rotated s tr h c d x t o s' → Q (z_flag (rotate d x t o).2) s') →
  wp (avl_tree_rotation tr x (2 * heavy d)) s Q.
Proof.
  intros t Hh Hr Ht Hn Hv HQ. apply tree_at_plug in Ht as [Ht Hc]. rewrite root_mk in Hc.
  apply tree_at_mk in Ht as (Hx & Ht & Ho). unfold t in Ht, Hx. apply tree_at_mk in Ht as (Hy & Ha & Ht).
  apply tree_at_mk in Ht as (Hg & Hgl & Hgr). rewrite root_mk in Hx, Hy.
  rewrite elems_plug_perm in Hn, Hv.
  set (el := x :: y :: g :: elems a ++ elems gl ++ elems gr ++ elems o).
  assert (elems (mk d x b t o) ≡ₚ el) as Hp.
  { unfold el, t. rewrite !elems_mk. destruct d; solve_Permutation. }
  rewrite Hp in Hn, Hv.
  assert (∀ t', elems t' ≡ₚ el →
    NoDup (elems t' ++ celems c) ∧ Forall valid_ptr (elems t' ++ celems c)) as Hnew
    by (by intros t' ->).
  unfold el in Hn, Hv. cbn [app] in Hn. rewrite <- !app_assoc in Hn.
  split_nodup. assert (x ≠ NULL) by by apply valid_ne. assert (y ≠ NULL) by by apply valid_ne.
  assert (g ≠ NULL) by by apply valid_ne.
  unfold avl_tree_rotation. destruct (two_heavy d) as [-> ->]. rewrite if_b2z.
  repeat astep. rewrite Z.eqb_refl. cbn [negb]. repeat astep.
  apply wp_adopt.
  { cbn [anodes]. intros Hne. pose proof (root_elem _ Hne).
    rewrite lookup_insert_ne by ane. by eapply tree_at_root. }
  repeat astep. apply wp_adopt.
  { cbn [anodes]. intros Hne. pose proof (root_elem _ Hne) as Hz. disjoin Hz.
    rewrite lookup_insert_ne, lookup_reparent_notin, lookup_insert_ne by ane.
    by eapply tree_at_root. }
  repeat astep.
  set (yb := if gb =? - heavy d then heavy d else 0).
  set (xb := if gb =? heavy d then - heavy d else 0).
  assert ((rotate d x t o) = (mk d g 0 (mk d y yb a gl) (mk d x xb gr o), true)) as Er.
  { unfold rotate, t. rewrite bal_mk, root_mk, side_mk, side_mk', Z.eqb_refl. cbn [negb].
    by rewrite bal_mk, root_mk, side_mk, side_mk'. }
  rewrite Er in HQ. unfold rotated in HQ. rewrite Er in HQ. cbn [fst snd] in HQ.
  assert (-1 ≤ yb ≤ 1 ∧ -1 ≤ xb ≤ 1) as [??]
    by (unfold yb, xb; destruct (heavy_cases d); repeat case_match; lia).
  rewrite !s16_small by lia.
  set (t' := mk d g 0 (mk d y yb a gl) (mk d x xb gr o)) in *.
  match goal with |- wp _ (AStore ?m _) _ => set (m1 := m) end.
  assert (elems t' ≡ₚ el) as Hp'.
  { unfold el, t'. rewrite !elems_mk. destruct d; solve_Permutation. }
  assert (∀ z, z ≠ x → z ≠ y → z ≠ g → z ∉ elems gl → z ∉ elems gr → m1 !! z = anodes s !! z)
    as Hout by (intros z Hz1 Hz2 Hz3 Hz4 Hz5; unfold m1; alk).
  assert (∀ z, z ∈ elems gl → m1 !! z = reparent (root gl) y (1 - Z.b2z d) (anodes s) !! z) as Hinl.
  { intros z Hz. assert (z ≠ x) by ane. assert (z ≠ y) by ane. assert (z ≠ g) by ane. disjoin Hz.
    unfold m1. rewrite !lookup_insert_ne by ane. apply reparent_congr.
    by rewrite lookup_insert_ne, lookup_reparent_notin, lookup_insert_ne by ane. }
  assert (∀ z, z ∈ elems gr → m1 !! z = reparent (root gr) x (Z.b2z d) (anodes s) !! z) as Hinr.
  { intros z Hz. assert (z ≠ x) by ane. assert (z ≠ y) by ane. assert (z ≠ g) by ane.
    assert (z ∉ elems gl) by (intros Hz'; disjoin Hz'; contradiction).
    unfold m1. rewrite !lookup_insert_ne, lookup_reparent_notin, lookup_insert_ne by ane.
    apply reparent_congr. by rewrite lookup_insert_ne. }
  assert (dom m1 = dom (anodes s)) as Hdom.
  { unfold m1. apply elem_of_dom_2 in Hx, Hy, Hg. dom_chain. }
  assert (m1 !! y = Some (mkn d (root a) (root gl) g (Z.b2z d) yb)) as Hy1 by (unfold m1; alk).
  assert (m1 !! x = Some (mkn d (root gr) (root o) g (1 - Z.b2z d) xb)) as Hx1 by (unfold m1; alk).
  assert (m1 !! g = Some (mkn d y x (cparent c) (cdir c) 0)) as Hg1 by (unfold m1; alk).
  clearbody m1. unfold el in Hp'.
  apply (finish_link s tr h c x t' g m1); [apply root_mk|done|by rewrite Hr| | | | |done|].
  - unfold t'. rewrite !tree_at_mk, !root_mk. split_and!; [done|done| | |done| |].
    + eapply tree_at_frame; [|done]. intros z Hz. disjoin Hz. apply Hout; ane.
    + eapply tree_at_frame; [exact Hinl|]. eapply tree_at_reparent; [done| |by destruct d|done].
      by apply valid_not_null.
    + eapply tree_at_frame; [exact Hinr|]. eapply tree_at_reparent; [done| |by destruct d|done].
      by apply valid_not_null.
    + eapply tree_at_frame; [|done]. intros z Hz. apply Hout; [ane..| |];
        intros Hz'; disjoin Hz'; contradiction.
  - by apply Hnew.
  - by apply Hnew.
  - intros z Hz. rewrite Hp' in Hz. split_nodup. by apply Hout.
  - intros m' Hm1 Hm2. apply wp_ret, (HQ (AStore m' _)). by exists m'.
Qed.

(** ** Rebalancing *)

(** The nodes of [T] have been rearranged to [T']. *)
Definition turns (s : astore) (tr : Z) (h : atree) (T T' : tree) (s' : astore) : Prop :=
  ∃ m', s' = AStore m' (<[tr := root_set h (root T')]> (atrees s)) ∧
    tree_at m' T' NULL 0 ∧ aouts (elems T) (anodes s) m' ∧ elems T' ≡ₚ elems T.

Lemma turns_state s tr h T T' s' :
  avl_state s tr h T → turns s tr h T T' s' → avl_state s' tr (root_set h (root T')) T'.
Proof.
  intros [Hh Hr Ht Hn Hv] (m' & -> & Ht' & _ & Hp).
  split; cbn [atrees anodes]; [by rewrite lookup_insert_eq|done|done|by rewrite Hp|by rewrite Hp].
Qed.

Lemma aouts_perm xs ys m m' : xs ≡ₚ ys → aouts xs m m' → aouts ys m m'.
Proof. intros Hp [Hd Ho]. split; [done|]. intros z Hz. apply Ho. by rewrite Hp. Qed.

Lemma aouts_trans xs m m1 m2 : aouts xs m m1 → aouts xs m1 m2 → aouts xs m m2.
Proof.
  intros [Hd1 Ho1] [Hd2 Ho2]. split; [congruence|]. intros z Hz. by rewrite Ho2, Ho1.
Qed.

Lemma turns_trans s tr h T1 T2 T3 s1 s2 :
  turns s tr h T1 T2 s1 → turns s1 tr (root_set h (root T2)) T2 T3 s2 → turns s tr h T1 T3 s2.
Proof.
  intros (m1 & -> & _ & Ho1 & Hp1) (m2 & -> & Ht2 & Ho2 & Hp2). exists m2. cbn [atrees anodes] in *.
  rewrite insert_insert_eq. split_and!; [done|done| |by rewrite Hp2].
  eapply aouts_trans; [done|]. eapply aouts_perm; [exact Hp1|done].
Qed.

Lemma turns_refl s tr h T : avl_state s tr h T → turns s tr h T T s.
Proof.
  intros [Hh Hr Ht Hn Hv]. exists (anodes s). split_and!; try done.
  destruct s as [m ts], h as [r off n sz]; simpl in *; subst. by rewrite insert_id.
Qed.

Lemma as_mk d t : t ≠ Leaf → ∃ x b l r, t = mk d x b l r.
Proof. intros. rewrite (tree_mk d t) by done. eauto. Qed.

Lemma wp_rotation s tr h c d x b t o (Q : Z → astore → Prop) :
  avl_state s tr h (plug c (mk d x b t o)) → can_rotate d t → -1 ≤ bal t ≤ 1 →
  (∀ s', turns s tr h (plug c (mk d x b t o)) (plug c (rotate d x t o).1) s' →
     Q (z_flag (rotate d x t o).2) s') →
  wp (avl_tree_rotation tr x (2 * heavy d)) s Q.
Proof.
  intros [Hh Hr Ht Hn Hv] Hcan Hb HQ.
  assert (∀ s', rotated s tr h c d x t o s' → Q (z_flag (rotate d x t o).2) s') as HQ'.
  { intros s' (m' & -> & Ht' & Ho). apply HQ. exists m'.
    assert (elems (plug c (rotate d x t o).1) ≡ₚ elems (plug c (mk d x b t o))) as Hp
      by by rewrite !elems_plug, (rotate_elems _ _ b).
    split_and!; [done|done|by eapply aouts_perm|done]. }
  clear HQ. destruct Hcan as [Hne Hc].
  destruct (as_mk d t Hne) as (y & cb & a & ci & ->). rewrite bal_mk, side_mk' in *.
  destruct (Z.eqb_spec cb (- heavy d)) as [->|E].
  - destruct (as_mk d ci (Hc eq_refl)) as (g & gb & gl & gr & ->). eapply rotate_inner; done.
  - eapply rotate_outer; [done|done| |done..]. destruct (heavy_cases d); lia.
Qed.

(** A new balance for the node at the end of the path. *)
Lemma wp_set_balance s tr h c d x b t o nb (Q : unit → astore → Prop) :
  avl_state s tr h (plug c (mk d x b t o)) → -1 ≤ nb ≤ 1 →
  (∀ s', turns s tr h (plug c (mk d x b t o)) (plug c (mk d x nb t o)) s' → Q tt s') →
  wp (AVL_SETBALANCE x nb) s Q.
Proof.
  intros [Hh Hr Ht Hn Hv] Hb HQ. apply tree_at_plug in Ht as [Ht Hc]. rewrite root_mk in Hc.
  apply tree_at_mk in Ht as (Hx & Ht & Ho). rewrite elems_plug_perm in Hn, Hv.
  assert (elems (mk d x b t o) ≡ₚ x :: elems t ++ elems o) as Hp.
  { rewrite elems_mk. destruct d; solve_Permutation. }
  assert (elems (mk d x nb t o) = elems (mk d x b t o)) as Hp' by by rewrite !elems_mk.
  assert (root (plug c (mk d x nb t o)) = root (plug c (mk d x b t o))) as Er
    by by rewrite !plug_root, !root_mk.
  rewrite Hp in Hn. cbn [app] in Hn. rewrite <- !app_assoc in Hn. split_nodup.
  unfold AVL_SETBALANCE. eapply wp_st_node; [done|]. autorewrite with avl. rewrite s16_small by lia.
  apply HQ. eexists. split; [f_equal|split_and!]; cbn [anodes atrees].
  - rewrite Er, <- Hr. symmetry. apply insert_id. rewrite Hh. by destruct h.
  - apply tree_at_plug. rewrite root_mk, Er, tree_at_mk. split_and!; [apply lookup_insert_eq|..].
    + eapply tree_at_frame; [|done]. intros z Hz. by rewrite lookup_insert_ne by ane.
    + eapply tree_at_frame; [|done]. intros z Hz. by rewrite lookup_insert_ne by ane.
    + eapply ctx_at_frame; [|done]. intros z Hz. by rewrite lookup_insert_ne by ane.
  - split; [apply dom_insert_in; by apply elem_of_dom_2 in Hx|]. intros z Hz.
    rewrite elems_plug_perm, Hp in Hz. split_nodup. by rewrite lookup_insert_ne by ane.
  - by rewrite !elems_plug_perm, Hp'.
Qed.

Lemma cparent_plug s tr h c t : avl_state s tr h (plug c t) → c ≠ [] → cparent c ≠ NULL.
Proof.
  intros [_ _ _ _ Hv] Hc. rewrite elems_plug_perm, Forall_app in Hv. destruct Hv as [_ Hv].
  destruct c as [|f c]; [done|]. inversion Hv. by apply valid_ne.
Qed.

(** The node at the end of the path. *)
Lemma avl_state_node s tr h c d x b t o :
  avl_state s tr h (plug (Frame d x b o :: c) t) →
  anodes s !! x = Some (mkn d (root t) (root o) (cparent c) (cdir c) b).
Proof. intros [_ _ Ht _ _]. by apply tree_at_plug in Ht as [_ (Hx & _)]. Qed.

Lemma balance_dir d : avl_child2balance (Z.b2z d) = heavy d.
Proof. by destruct d. Qed.

Lemma insert_up_grow c : ∀ fuel s tr h t (Q : unit → astore → Prop),
  avl_state s tr h (plug c t) → grow_ok c t → (length c < fuel)%nat →
  (∀ s', turns s tr h (plug c t) (grow c t) s' → Q tt s') →
  wp (insert_up fuel tr (cparent c) (cdir c)) s Q.
Proof.
  induction c as [|[d x b o] c IH]; intros fuel s tr h t Q Hs Hok Hf HQ;
    (destruct fuel as [|fuel]; [lia|]); cbn [insert_up].
  { apply wp_ret, HQ. by apply turns_refl. }
  pose proof (cparent_plug _ _ _ _ _ Hs ltac:(done)) as Hx. pose proof (avl_state_node _ _ _ _ _ _ _ _ _ Hs).
  cbn [cparent cdir fx fd plug fb fo] in *. rewrite (proj2 (Z.eqb_neq x NULL)) by done.
  apply wp_bind. eapply wp_XBALANCE; [done|]. rewrite balance_mkn, balance_dir.
  cbn [grow_ok grow] in *. destruct Hok as [Hr Hok]. unfold in_range in Hr.
  destruct (Z.eqb_spec (b + heavy d) 0) as [E|E].
  { eapply wp_set_balance; [done|lia|]. done. }
  destruct (Z.eqb_spec b 0) as [->|Hb]; cbn [negb].
  - apply wp_bind. eapply wp_set_balance; [done|hv d; lia|]. intros s1 Hs1.
    pose proof (turns_state _ _ _ _ _ _ Hs Hs1) as Hst1.
    pose proof (avl_state_node _ _ _ _ _ _ _ _ _ Hst1).
    apply wp_bind. eapply wp_XPARENT; [done|]. apply wp_bind. eapply wp_XCHILD; [done|].
    rewrite parent_mkn, index_mkn. eapply IH; [done|done|simpl in Hf; lia|].
    intros s2 Hs2. apply HQ. by eapply turns_trans.
  - assert (b + heavy d = 2 * heavy d) as -> by (hv d; lia). apply wp_bind.
    eapply wp_rotation; [done|apply Hok..|]. intros s' Hs'. by apply wp_ret, HQ.
Qed.

Lemma mk_negb d x b t o : mk d x b t o = mk (negb d) x b o t.
Proof. by destruct d. Qed.

Lemma heavy_minus d b : b - heavy d = b + heavy (negb d).
Proof. rewrite heavy_negb. lia. Qed.

Lemma remove_up_shrink c : ∀ fuel s tr h t (Q : unit → astore → Prop),
  c ≠ [] → avl_state s tr h (plug c t) → shrink_ok c t → (length c ≤ fuel)%nat →
  (∀ s', turns s tr h (plug c t) (shrink c t) s' → Q tt s') →
  wp (remove_up fuel tr (cparent c) (cdir c)) s Q.
Proof.
  induction c as [|[d x b o] c IH]; intros fuel s tr h t Q Hc Hs Hok Hf HQ; [done|].
  destruct fuel as [|fuel]; [simpl in Hf; lia|]. cbn [remove_up cparent cdir fx fd].
  pose proof (avl_state_node _ _ _ _ _ _ _ _ _ Hs) as Hx.
  apply wp_bind. eapply wp_XBALANCE; [done|]. apply wp_bind. eapply wp_XPARENT; [done|].
  apply wp_bind. eapply wp_XCHILD; [done|].
  rewrite balance_mkn, balance_dir, parent_mkn, index_mkn.
  cbn [shrink_ok shrink plug fd fx fb fo] in *. destruct Hok as [Hr Hok]. unfold in_range in Hr.
  destruct (Z.eqb_spec b 0) as [->|Hb].
  { eapply wp_set_balance; [done|hv d; lia|]. done. }
  (* the way on, once the focus is [t1] *)
  assert (∀ s1 t1 (go : bool), turns s tr h (plug c (mk d x b t o)) (plug c t1) s1 →
    (go = true → shrink_ok c t1) →
    (∀ s', turns s tr h (plug c (mk d x b t o)) (if go then shrink c t1 else plug c t1) s' → Q tt s') →
    wp (if go && negb (cparent c =? NULL) then remove_up fuel tr (cparent c) (cdir c) else mret tt) s1 Q)
    as Hon.
  { intros s1 t1 go Hs1 Hok1 HQ1. pose proof (turns_state _ _ _ _ _ _ Hs Hs1) as Hst1.
    destruct go; [|by apply wp_ret, HQ1]. cbn [andb].
    destruct c as [|f c].
    - by apply wp_ret, HQ1.
    - rewrite (proj2 (Z.eqb_neq _ NULL)) by (by eapply cparent_plug). cbn [negb].
      eapply IH; [done|done|by apply Hok1|simpl in *; lia|].
      intros s2 Hs2. apply HQ1. by eapply turns_trans. }
  apply wp_bind. destruct (Z.eqb_spec (b - heavy d) 0) as [E|E].
  - apply wp_bind. rewrite E. eapply wp_set_balance; [done|lia|]. intros s1 Hs1. apply wp_ret.
    by apply (Hon s1 (mk d x 0 t o) true).
  - rewrite heavy_minus in *.
    assert (b + heavy (negb d) = 2 * heavy (negb d)) as -> by (rewrite heavy_negb in *; hv d; lia).
    destruct Hok as (Hcan & Hbo & Hok).
    rewrite (mk_negb d) in *. apply wp_bind.
    eapply wp_rotation; [done|done|done|]. intros s1 Hs1. apply wp_ret.
    destruct (rotate (negb d) x o t) as [t1 go]. cbn [fst snd] in *.
    replace (negb (z_flag go =? 0)) with go by (by destruct go).
    apply (Hon s1 t1 go); [done|done|]. destruct go; done.
Qed.
