(* ===== verification/AvlSet.v ===== *)
(** * AVL trees as ordered sets

    The tree of a header kept in the order of the client's comparison: search, insertion
    and removal on it. *)

From stdpp Require Import gmap list sorting.
From S2P Require Import Prelude AvlPure AvlTree AvlTreeSpec.
#[local] Open Scope Z_scope.

(** ** Linking and unlinking nodes *)

(** The header for the tree [T]. *)
Definition header (h : atree) (T : tree) : atree :=
  ATree (root T) (avl_offset h) (Z.of_nat (length (elems T))) (avl_size h).

Lemma length_path c t : (length c ≤ length (elems (plug c t)))%nat.
Proof.
  rewrite elems_plug_perm, length_app.
  enough (length c ≤ length (celems c))%nat by lia.
  induction c as [|f c IH]; simpl; [lia|]. rewrite length_app. lia.
Qed.

Lemma turns_header s tr h h1 T T' s' :
  turns s tr h1 T T' s' → avl_offset h1 = avl_offset h → avl_size h1 = avl_size h →
  avl_numnodes h1 = Z.of_nat (length (elems T)) →
  atrees s' = <[tr := header h T']> (atrees s) ∧ root_set h1 (root T') = header h T'.
Proof.
  intros (m' & -> & _ & _ & Hp) Ho Hz Hn. cbn [atrees].
  assert (root_set h1 (root T') = header h T') as ->; [|done].
  unfold root_set, header. by rewrite Ho, Hz, Hn, Hp.
Qed.

(** Linking the node [n], whose fields are set, at the end of the path. *)
Lemma wp_attach s tr h c n nn (Q : unit → astore → Prop) :
  avl_state s tr h (plug c Leaf) → valid_ptr n → n ∉ elems (plug c Leaf) → n ∈ dom (anodes s) →
  (∀ m', let T' := plug c (Node Leaf n 0 Leaf) in
     let h' := ATree (root T') (avl_offset h) nn (avl_size h) in
     let s' := AStore m' (<[tr := h']> (atrees s)) in
     avl_state s' tr h' T' → aouts (n :: elems (plug c Leaf)) (anodes s) m' → Q tt s') →
  wp (if negb (cparent c =? NULL) then
        c0 ← ld_child (cparent c) (cdir c);
        ASSERT (c0 =? NULL);; st_child (cparent c) (cdir c) n
      else ASSERT (avl_root h =? NULL);; set_root tr n)
    (AStore (<[n := ANode NULL NULL (cparent c) (cdir c) 0]> (anodes s))
       (<[tr := ATree (avl_root h) (avl_offset h) nn (avl_size h)]> (atrees s))) Q.
Proof.
  intros Hs Hv Hn Hd HQ. pose proof Hs as [Hh Hr Ht Hnd Hvs].
  pose proof (cparent_plug _ _ _ _ _ Hs) as Hp.
  set (nd := ANode NULL NULL (cparent c) (cdir c) 0).
  set (h1 := ATree (avl_root h) (avl_offset h) nn (avl_size h)).
  set (s1 := AStore _ _). rewrite elems_plug_perm in Hn, Hnd, Hvs. cbn [elems app] in *.
  pose proof Ht as [_ Hc]%tree_at_plug.
  assert (∀ z, z ∈ celems c → anodes s1 !! z = anodes s !! z) as Hz.
  { intros z Hz. simpl. rewrite lookup_insert_ne; [done|]. by intros ->. }
  assert (wp (link_child tr (cparent c) (cdir c) (root (Node Leaf n 0 Leaf))) s1 Q) as Hlink.
  { eapply (wp_link_child s1 tr h1 c _ NULL);
      [apply lookup_insert_eq|eapply ctx_at_frame; [exact Hz|exact Hc]|exact Hr| | | |].
    - simpl. split; [apply lookup_insert_eq|done].
    - simpl. by constructor.
    - simpl. by constructor.
    - simpl. intros m' Ht' [Hd1 Ho1]. rewrite insert_insert_eq. apply HQ.
      + split; cbn [atrees anodes avl_root]; [by rewrite lookup_insert_eq|done|done|..];
          rewrite elems_plug_perm; simpl; by constructor.
      + split; [rewrite Hd1; by apply dom_insert_in|].
        intros z Hz'. rewrite elems_plug_perm in Hz'. simpl in Hz'.
        apply not_elem_of_cons in Hz' as [??]. rewrite Ho1 by done. by rewrite lookup_insert_ne. }
  unfold link_child in Hlink. destruct c as [|[d x b o] c]; cbn [cparent cdir fx fd] in *.
  - change (NULL =? NULL) with true in *. cbn [negb] in *.
    apply wp_bind, wp_ASSERT; [by rewrite Hr|]. done.
  - rewrite (proj2 (Z.eqb_neq x NULL)) in * by by apply Hp. cbn [negb] in *.
    apply wp_bind. eapply wp_ld_child; [rewrite Hz; [apply Hc|simpl; set_solver]|].
    rewrite child_mkn. cbn [fd]. by apply wp_bind, wp_ASSERT.
Qed.


Lemma avl_state_focus s tr h c d x b t o :
  avl_state s tr h (plug c (mk d x b t o)) →
  anodes s !! x = Some (mkn d (root t) (root o) (cparent c) (cdir c) b).
Proof. apply (avl_state_node s tr h c d x b t o). Qed.

Lemma only_child d t p ci b :
  let n := mkn d (root t) NULL p ci b in
  (if negb (child0 n =? NULL) then child0 n else child1 n) = root t.
Proof.
  destruct d; simpl; [done|]. destruct (Z.eqb_spec (root t) NULL) as [E|]; simpl; [by rewrite E|done].
Qed.

(** The tree [t] in the place of the node [n] above it. *)
Lemma wp_bypass s tr h c d n nb t (Q : unit → astore → Prop) :
  avl_state s tr h (plug c (mk d n nb t Leaf)) →
  (∀ m', let h' := root_set h (root (plug c t)) in
     let s' := AStore m' (<[tr := h']> (atrees s)) in
     avl_state s' tr h' (plug c t) → aouts (elems (plug c (mk d n nb t Leaf))) (anodes s) m' →
     Q tt s') →
  wp (adopt (root t) (cparent c) (cdir c);; link_child tr (cparent c) (cdir c) (root t)) s Q.
Proof.
  intros Hs HQ. pose proof Hs as [Hh Hr Ht Hnd Hv].
  assert (elems (plug c (mk d n nb t Leaf)) ≡ₚ n :: elems t ++ celems c) as Hp.
  { rewrite elems_plug_perm, elems_mk. destruct d; solve_Permutation. }
  rewrite Hp in Hnd, Hv. apply NoDup_cons in Hnd as [Hnn Hnd]. apply Forall_cons in Hv as [Hvn Hv].
  apply tree_at_plug in Ht as [Ht Hc]. apply tree_at_mk in Ht as (_ & Ht & _). rewrite root_mk in Hc.
  assert (∀ z, z ∈ celems c → reparent (root t) (cparent c) (cdir c) (anodes s) !! z = anodes s !! z)
    as Hz.
  { intros z Hz. apply NoDup_app in Hnd as (_ & Hd & _). apply lookup_reparent_notin.
    intros Hin. by apply (Hd z). }
  apply wp_bind, wp_adopt; [by eapply tree_at_root|].
  eapply (wp_link_child _ tr h c _ n); [done|eapply ctx_at_frame; [exact Hz|exact Hc]|exact Hr| |done..|].
  - simpl. pose proof Hnd as (Hnt & _ & _)%NoDup_app. pose proof Hv as [Hvt _]%Forall_app.
    eapply tree_at_reparent; [done|by apply valid_not_null|by rewrite index_cdir|done].
  - simpl. intros m' Ht' [Hd1 Ho1]. apply HQ.
    + split; cbn [atrees anodes root_set avl_root]; [by rewrite lookup_insert_eq|done|done|..];
        by rewrite elems_plug_perm.
    + split; [by rewrite Hd1, dom_reparent|]. intros z Hz'. rewrite Hp in Hz'.
      apply not_elem_of_cons in Hz' as [_ [??]%not_elem_of_app]. rewrite Ho1 by done.
      by apply lookup_reparent_notin.
Qed.

(** Taking out a node with one child at most. *)
Lemma unlink_spec s tr h c d n nb t (Q : unit → astore → Prop) :
  let T := plug c (mk d n nb t Leaf) in
  avl_state s tr h T → avl T → avl_numnodes h = Z.of_nat (length (elems T)) →
  (∀ s', avl_state s' tr (header h (shrink c t)) (shrink c t) →
     aouts (elems T) (anodes s) (anodes s') →
     atrees s' = <[tr := header h (shrink c t)]> (atrees s) → Q tt s') →
  wp (unlink tr n) s Q.
Proof.
  intros T Hs Ha Hct HQ. pose proof Hs as [Hh Hr Ht Hnd Hv].
  assert (elems T ≡ₚ n :: elems (plug c t)) as Hp.
  { unfold T. rewrite !elems_plug_perm, elems_mk. destruct d; solve_Permutation. }
  pose proof (avl_plug_focus _ _ Ha) as (_ & _ & Hat & _)%avl_mk.
  assert (height t = height (mk d n nb t Leaf) - 1) as Hht.
  { rewrite height_mk. pose proof (height_nonneg t). simpl. lia. }
  pose proof (shrink_ok_avl _ _ _ Ha Hat Hht) as Hok.
  unfold unlink. apply wp_bind. eapply wp_ld_tree; [done|].
  apply wp_bind, wp_ASSERT; [apply Z.ltb_lt; rewrite Hct, Hp; simpl; lia|].
  unfold add_nodes. apply wp_bind. eapply wp_st_tree; [done|].
  set (h1 := ATree _ _ _ _).
  assert (avl_numnodes h1 = Z.of_nat (length (elems (plug c t)))) as Hc1.
  { simpl. pose proof (NoDup_valid_ptr_length _ Hnd Hv) as Hlt. rewrite Hct, Hp in *. simpl in *.
    rewrite uwrap_small; lia. }
  assert (avl_state (AStore (anodes s) (<[tr := h1]> (atrees s))) tr h1 T) as Hs1.
  { split; simpl; [by rewrite lookup_insert_eq|done..]. }
  apply wp_bind. eapply wp_ld_node; [by apply (avl_state_focus _ _ _ _ _ _ _ _ _ Hs1)|].
  cbn [root]. rewrite only_child, parent_mkn, index_mkn.
  assert (∀ m', let h' := root_set h1 (root (plug c t)) in
    let s' := AStore m' (<[tr := h']> (<[tr := h1]> (atrees s))) in
    avl_state s' tr h' (plug c t) → aouts (elems T) (anodes s) m' →
    wp (if cparent c =? NULL then mret tt else
          fuel ← gets afuel; remove_up fuel tr (cparent c) (cdir c)) s' Q) as Hup.
  { intros m' h' s' Hs' Ho. pose proof (cparent_plug _ _ _ _ _ Hs') as Hp'.
    assert (∀ s2, turns s' tr h' (plug c t) (shrink c t) s2 → Q tt s2) as HQ2.
    { intros s2 Hs2. pose proof (turns_state _ _ _ _ _ _ Hs' Hs2) as Hst2.
      destruct (turns_header s' tr h h' (plug c t) (shrink c t) s2) as [Ht2 Eh]; [done..|].
      rewrite Eh in Hst2. apply HQ; [done| |].
      - destruct Hs2 as (m2 & -> & _ & Ho2 & _). simpl in *. eapply aouts_trans; [done|].
        destruct Ho2 as [Hd2 Ho2]. split; [done|]. intros z Hz. apply Ho2. intros Hin. apply Hz.
        rewrite Hp. by apply list_elem_of_further.
      - rewrite Ht2. simpl. by rewrite !insert_insert_eq. }
    destruct c as [|F c].
    - change (cparent [] =? NULL) with true. apply wp_ret, HQ2. by apply turns_refl.
    - rewrite (proj2 (Z.eqb_neq _ NULL)) by by apply Hp'. apply wp_bind, wp_gets.
      eapply remove_up_shrink; [done|done|done| |done].
      eapply Nat.lt_le_incl, Nat.le_lt_trans; [apply (length_path (F :: c) t)|]. by eapply elems_fuel. }
  assert (wp (adopt (root t) (cparent c) (cdir c);; link_child tr (cparent c) (cdir c) (root t))
    (AStore (anodes s) (<[tr := h1]> (atrees s)))
    (λ _ s', wp (if cparent c =? NULL then mret tt else
          fuel ← gets afuel; remove_up fuel tr (cparent c) (cdir c)) s' Q)) as Hby.
  { eapply wp_bypass; [exact Hs1|]. exact Hup. }
  clear Hup. unfold link_child in Hby. destruct (cparent c =? NULL); cbn [negb] in Hby.
  - eapply wp_mono; [exact Hby|]. intros [] s'. done.
  - apply wp_regroup, wp_bind. exact Hby.
Qed.

(** ** The comparison *)

(** What the client's comparison promises. *)
Class AvlOrder (C : AvlClient) : Prop := {
  cmp_range v w : -1 ≤ avl_compare v w ≤ 1;
  cmp_flip v w : avl_compare w v = - avl_compare v w;
  cmp_trans u v w : avl_compare u v = -1 → avl_compare v w = -1 → avl_compare u w = -1 }.

(** What it promises if data that compare as equal are interchangeable. Intervals that
    compare as equal when they overlap have only the order. *)
Class AvlLaws (C : AvlClient) : Prop := {
  cmp_order :: AvlOrder C;
  cmp_equal u v w : avl_compare u v = 0 → avl_compare u w = avl_compare v w }.

Section set.
Context `{C : AvlClient} `{!AvlOrder C}.

Definition cmp_lt (v w : Z) : Prop := avl_compare v w = -1.

Definition data (off n : Z) : Z := AVL_NODE2DATA n off.

(** The data in the order of the tree. *)
Definition contents (off : Z) (T : tree) : list Z := map (data off) (elems T).

(** The nodes of a place in the tree of [v]. *)
Definition place (off v : Z) (c : list frame) : Prop :=
  Forall (λ z, cmp_lt (data off z) v) (before c) ∧ Forall (λ z, cmp_lt v (data off z)) (after c).

Definition found (off v : Z) (T : tree) (r : Z * aindex) : Prop :=
  (∃ x, x ∈ elems T ∧ avl_compare v (data off x) = 0 ∧ r = (data off x, AIndex NULL 0)) ∨
  (∃ c, plug c Leaf = T ∧ place off v c ∧ r = (NULL, AIndex (cparent c) (cdir c))).

Lemma cmp_irrefl v w : cmp_lt v w → ¬ cmp_lt w v.
Proof. unfold cmp_lt. rewrite (cmp_flip v w). lia. Qed.

#[export] Instance cmp_lt_trans : Transitive cmp_lt.
Proof. intros u v w. apply cmp_trans. Qed.

Lemma contents_plug off c t : contents off (plug c t) =
  map (data off) (before c) ++ contents off t ++ map (data off) (after c).
Proof. unfold contents. by rewrite elems_plug, !map_app. Qed.

(** One step down the tree towards [v]. *)
Lemma place_step off v c d x b t o :
  StronglySorted cmp_lt (contents off (plug c (mk d x b t o))) → place off v c →
  avl_compare v (data off x) = heavy d → place off v (Frame d x b o :: c).
Proof.
  intros Hso [Hb Ha] Hc. rewrite contents_plug in Hso.
  apply sorted_app in Hso as (_ & (Hso & _)%sorted_app & _).
  unfold contents in Hso. rewrite elems_mk in Hso.
  destruct d; rewrite map_app in Hso; apply sorted_app in Hso as (_ & Hs2 & Hs3);
    (split; simpl; [|done] || (split; simpl; [by rewrite app_nil_r|])).
  - assert (cmp_lt (data off x) v) as Hxv by (unfold cmp_lt; rewrite (cmp_flip v); rewrite Hc; done).
    apply Forall_app. split; [done|]. apply Forall_app. split; [|by constructor].
    apply Forall_forall. intros z Hz. etrans; [|exact Hxv]. apply Hs3; [|simpl; set_solver].
    apply list_elem_of_In, in_map. by apply list_elem_of_In.
  - constructor; [exact Hc|]. apply Forall_app. split; [|done].
    apply StronglySorted_inv in Hs2 as [_ Hs2].
    apply Forall_forall. intros z Hz. trans (data off x); [exact Hc|].
    apply (proj1 (Forall_forall _ _) Hs2).
    apply list_elem_of_In, in_map. by apply list_elem_of_In.
Qed.

Lemma find_loop_correct off v t : ∀ fuel c s tr h (Q : Z * aindex → astore → Prop),
  avl_state s tr h (plug c t) → place off v c →
  StronglySorted cmp_lt (contents off (plug c t)) →
  height t < Z.of_nat fuel →
  (∀ r, found off v (plug c t) r → Q r s) →
  wp (find_loop fuel off v (root t) (cparent c) (cdir c)) s Q.
Proof.
  induction t as [|l IHl x b r IHr]; intros fuel c s tr h Q Hs Hp Hso Hf HQ;
    (destruct fuel as [|fuel];
      [match type of Hf with height ?u < _ => pose proof (height_nonneg u) end; lia|]); cbn [find_loop root].
  { apply wp_ret, HQ. right. by exists c. }
  pose proof Hs as [Hh Hr Ht Hn Hv].
  assert (valid_ptr x) as Hx.
  { apply (proj1 (Forall_forall _ _) Hv). rewrite elems_plug. simpl. set_solver. }
  rewrite (proj2 (Z.eqb_neq x NULL)) by by apply valid_ne.
  pose proof (cmp_range v (data off x)) as Hrg. fold (data off x).
  apply wp_bind, wp_ASSERT; [apply andb_true_iff; rewrite !Z.leb_le; lia|].
  pose proof Ht as [(Hx' & Hl' & Hr') _]%tree_at_plug.
  destruct (Z.eqb_spec (avl_compare v (data off x)) 0) as [E|E].
  { apply wp_ret, HQ. left. exists x. split_and!; [|done|done]. rewrite elems_plug. simpl. set_solver. }
  simpl in Hf. apply wp_bind.
  assert (avl_compare v (data off x) = -1 ∨ avl_compare v (data off x) = 1) as [E'|E'] by lia;
    rewrite E'; (eapply wp_ld_child; [exact Hx'|]).
  - apply (IHl fuel (Frame false x b r :: c) s tr h); [done| |done|lia|done].
    by apply (place_step off v c false x b l r).
  - apply (IHr fuel (Frame true x b l :: c) s tr h); [done| |done|lia|done].
    by apply (place_step off v c true x b r l).
Qed.

(** ** The state of an ordered set *)

(** The header [tr] keeps the nodes of [T], in order, balanced, and counted. *)
Record avl_set (s : astore) (tr : Z) (h : atree) (T : tree) : Prop := {
  aset_state : avl_state s tr h T;
  aset_avl : avl T;
  aset_sorted : StronglySorted cmp_lt (contents (avl_offset h) T);
  aset_count : avl_numnodes h = Z.of_nat (length (elems T)) }.

Lemma avl_tree_find_spec s tr h T v (Q : Z * aindex → astore → Prop) :
  avl_set s tr h T → (∀ r, found (avl_offset h) v T r → Q r s) → wp (avl_tree_find tr v) s Q.
Proof.
  intros [Hs Ha Hso Hc] HQ. unfold avl_tree_find.
  apply wp_bind. eapply wp_ld_tree; [apply Hs|]. apply wp_bind, wp_gets.
  rewrite (as_root _ _ _ _ Hs).
  apply (find_loop_correct (avl_offset h) v T _ [] s tr h); [done|by split; constructor|done| |done].
  pose proof (elems_fuel _ _ _ _ Hs). pose proof (height_elems T). lia.
Qed.

(** A node goes to its place. *)
Lemma place_sorted off c n :
  StronglySorted cmp_lt (contents off (plug c Leaf)) → place off (data off n) c →
  StronglySorted cmp_lt (map (data off) (before c) ++ data off n :: map (data off) (after c)).
Proof.
  rewrite contents_plug. intros (H1 & H2 & H3)%sorted_app [Hb Ha].
  apply sorted_app. split_and!; [done| |].
  - constructor; [done|]. apply Forall_map. done.
  - intros x y Hx [->|Hy]%elem_of_cons; [|by apply H3].
    apply list_elem_of_fmap in Hx as (z & -> & Hz). by apply (proj1 (Forall_forall _ _) Hb).
Qed.

(** ** Insertion *)

(** From [s] to [s'] the header has come to keep [T']; only the nodes [xs] have changed. *)
Definition set_to (s : astore) (tr : Z) (h : atree) (T' : tree) (xs : list Z) (s' : astore) : Prop :=
  avl_set s' tr (header h T') T' ∧ aouts xs (anodes s) (anodes s') ∧
  atrees s' = <[tr := header h T']> (atrees s).

(** The insertion point [c] gets the new element. *)
Lemma avl_tree_insert_spec s tr h c v (Q : unit → astore → Prop) :
  let n := AVL_DATA2NODE v (avl_offset h) in
  let T := plug c Leaf in
  let T' := grow c (Node Leaf n 0 Leaf) in
  tr ≠ NULL → avl_set s tr h T → place (avl_offset h) v c → data (avl_offset h) n = v →
  valid_ptr n → n ∉ elems T → n ∈ dom (anodes s) →
  (∀ s', set_to s tr h T' (n :: elems T) s' → elems T' = before c ++ n :: after c → Q tt s') →
  wp (avl_tree_insert tr v (AIndex (cparent c) (cdir c))) s Q.
Proof.
  intros n T T' Htr [Hs Ha Hso Hct] Hpl Hdn Hvn Hn Hd HQ. pose proof Hs as [Hh Hr Ht Hnd Hv].
  destruct (grow_avl c Leaf (Node Leaf n 0 Leaf)) as [HaT HeT];
    [done|simpl; lia|done|by right|]. fold T' in HaT, HeT. cbn [elems app] in HeT.
  pose proof (grow_ok_avl c Leaf (Node Leaf n 0 Leaf) Ha ltac:(simpl; lia) eq_refl) as Hok.
  unfold avl_tree_insert. apply wp_bind, wp_ASSERT; [by rewrite (proj2 (Z.eqb_neq tr NULL))|].
  apply wp_bind. eapply wp_ld_tree; [done|]. cbn [ix_node ix_child]. fold n.
  unfold add_nodes. apply wp_bind. eapply wp_st_tree; [done|]. apply elem_of_dom in Hd as [nd Hnd'].
  repeat astep. rewrite !insert_insert_eq.
  unfold with_child, with_index, with_balance, with_parent. simpl. rewrite index_cdir.
  change (s16 0) with 0. apply (wp_attach s tr h c n); [done..|by apply elem_of_dom_2 in Hnd'|].
  intros m1 T1 h1 s1 Hs1 Ho1. apply wp_bind, wp_gets.
  eapply insert_up_grow; [done|done| |].
  { eapply Nat.le_lt_trans; [apply (length_path c (Node Leaf n 0 Leaf))|]. by eapply elems_fuel. }
  intros s2 Hs2. fold T' in Hs2.
  assert (Permutation (elems T1) (n :: elems T)) as Hp1 by (unfold T1, T; by rewrite !elems_plug_perm).
  assert (avl_numnodes h1 = Z.of_nat (length (elems T1))) as Hcn.
  { simpl. rewrite Hct, Hp1. simpl. rewrite uwrap_small; [lia|].
    destruct Hs1 as [_ _ _ Hnd1 Hv1]. pose proof (NoDup_valid_ptr_length _ Hnd1 Hv1) as Hlt.
    rewrite Hp1 in Hlt. simpl in Hlt. fold T. lia. }
  pose proof (turns_state _ _ _ _ _ _ Hs1 Hs2) as Hst2.
  destruct (turns_header s1 tr h h1 T1 T' s2) as [Ht2 Eh]; [done..|]. rewrite Eh in Hst2.
  apply HQ; [|done]. split_and!.
  - split; [done|done| |done]. simpl. unfold contents. rewrite HeT, map_app. simpl. rewrite Hdn.
    pose proof (place_sorted (avl_offset h) c n) as Hps. rewrite Hdn in Hps. by apply Hps.
  - destruct Hs2 as (m2 & -> & _ & Ho2 & _). eapply aouts_trans; [exact Ho1|].
    eapply aouts_perm; [exact Hp1|done].
  - rewrite Ht2. simpl. by rewrite insert_insert_eq.
Qed.

End set.
