(* ===== verification/AvlRemove.v ===== *)
(** * Removal from an AVL tree

    The exchange of a node that has two children with its neighbour, and
    [avl_tree_remove]. *)

From stdpp Require Import gmap list sorting.
From S2P Require Import Prelude AvlPure AvlTree AvlTreeSpec AvlSet.
#[local] Open Scope Z_scope.

(** ** The node of an element, and its neighbour *)

Lemma elems_split T x : x ∈ elems T → ∃ c l b r, T = plug c (Node l x b r).
Proof.
  intros Hx. enough (∀ c, ∃ c' l b r, plug c T = plug c' (Node l x b r)) as H by apply (H []).
  induction T as [|l IHl y b r IHr]; intros c; simpl in Hx; [set_solver|].
  apply elem_of_app in Hx as [Hx|[->|Hx]%elem_of_cons].
  - apply (IHl Hx (Frame false y b r :: c)).
  - by exists c, l, b, r.
  - apply (IHr Hx (Frame true y b l :: c)).
Qed.

(** Down the children [e] to the last one. *)
Lemma wp_descend e u : ∀ fuel s p ci (Q : Z → astore → Prop),
  tree_at (anodes s) u p ci → u ≠ Leaf → NULL ∉ elems u → (length (elems u) < fuel)%nat →
  (∀ c2 y yb yt, u = plug c2 (mk (negb e) y yb yt Leaf) → Forall (λ f, fd f = e) c2 → Q y s) →
  wp (descend fuel (root u) (Z.b2z e)) s Q.
Proof.
  induction u as [|l IHl x b r IHr]; intros fuel s p ci Q Ht Hne H0 Hf HQ; [done|].
  destruct fuel as [|fuel]; [simpl in Hf; lia|]. cbn [descend].
  simpl in H0, Hf. rewrite length_app in Hf. simpl in Hf.
  destruct Ht as (Hx & Hl & Hr). apply wp_bind. eapply wp_ld_child; [exact Hx|].
  assert (∀ f o, Node l x b r = mk e x b f o →
    (∀ Q : Z → astore → Prop, f ≠ Leaf → 
     (∀ c2 y yb yt, f = plug c2 (mk (negb e) y yb yt Leaf) → Forall (λ f, fd f = e) c2 → Q y s) →
     wp (descend fuel (root f) (Z.b2z e)) s Q) → NULL ∉ elems f →
    wp (if negb (root f =? NULL) then descend fuel (root f) (Z.b2z e) else mret x) s Q) as Hstep.
  { intros f o E Hd Hf0. destruct (Z.eqb_spec (root f) NULL) as [E0|E0]; cbn [negb].
    - apply wp_ret. assert (f = Leaf) as ->.
      { destruct f; [done|]. simpl in E0. subst. exfalso. apply Hf0. simpl. apply elem_of_app.
        right. apply list_elem_of_here. }
      apply (HQ [] x b o); [|constructor]. rewrite E. by destruct e.
    - apply Hd; [by intros ->|]. intros c2 y yb yt Ef Hc2. apply (HQ (c2 ++ [Frame e x b o]) y yb yt).
      + rewrite plug_app, <- Ef. exact E.
      + apply Forall_app. split; [done|]. by constructor. }
  apply not_elem_of_app in H0 as [H0l [_ H0r]%not_elem_of_cons].
  destruct e; [apply (Hstep r l eq_refl)|apply (Hstep l r eq_refl)]; try done; intros Q' Hn HQ'.
  - eapply IHr; [done|done|done|lia|done].
  - eapply IHl; [done|done|done|lia|done].
Qed.

(** ** Paths below a node *)

(** [c] as a path below the child [ci] of [p]. *)
Definition sparent (c : list frame) (p : Z) : Z := match c with [] => p | f :: _ => fx f end.

Definition sdir (c : list frame) (ci : Z) : Z := match c with [] => ci | f :: _ => Z.b2z (fd f) end.

Fixpoint seg_at (m : gmap Z anode) (c : list frame) (p ci f : Z) : Prop :=
  match c with
  | [] => True
  | F :: c => m !! fx F = Some (mkn (fd F) f (root (fo F)) (sparent c p) (sdir c ci) (fb F)) ∧
      tree_at m (fo F) (fx F) (1 - Z.b2z (fd F)) ∧ seg_at m c p ci (fx F)
  end.

Lemma tree_at_seg m c p ci : ∀ t,
  tree_at m (plug c t) p ci ↔ tree_at m t (sparent c p) (sdir c ci) ∧ seg_at m c p ci (root t).
Proof.
  induction c as [|[d x b o] c IH]; intros t; simpl; [tauto|].
  rewrite IH, tree_at_mk, root_mk. tauto.
Qed.

Lemma seg_at_frame m m' c p ci f :
  (∀ z, z ∈ celems c → m' !! z = m !! z) → seg_at m c p ci f → seg_at m' c p ci f.
Proof.
  revert f. induction c as [|[d x b o] c IH]; intros f Hf; [done|]. simpl in *.
  intros (Hx & Ho & Hc). split_and!; [rewrite Hf; [done|set_solver]| |].
  - eapply tree_at_frame; [|done]. intros z Hz. apply Hf. set_solver.
  - apply IH; [|done]. intros z Hz. apply Hf. set_solver.
Qed.

Lemma cparent_sparent c : cparent c = sparent c NULL.
Proof. by destruct c. Qed.

Lemma cdir_sdir c : cdir c = sdir c 0.
Proof. by destruct c. Qed.

Lemma sparent_app c1 c2 p : sparent (c1 ++ c2) p = sparent c1 (sparent c2 p).
Proof. by destruct c1. Qed.

Lemma sdir_app c1 c2 p : sdir (c1 ++ c2) p = sdir c1 (sdir c2 p).
Proof. by destruct c1. Qed.

Lemma tree_at_with_parent m t p ci q :
  t ≠ Leaf → NoDup (elems t) → tree_at m t p ci →
  tree_at (alter (with_parent q) (root t) m) t q ci.
Proof.
  intros Hne Hn. destruct t as [|l x b r]; [done|]. simpl in *. intros (Hx & Hl & Hr).
  apply NoDup_middle in Hn as (_ & Hxl & Hxr).
  split_and!; [by rewrite lookup_alter_eq, Hx|eapply tree_at_frame; [|done]..];
    intros z Hz; apply lookup_alter_ne; by intros ->.
Qed.

(** Another focus for the path. *)
Lemma seg_at_with_child m c p ci f f' :
  c ≠ [] → NoDup (celems c) → seg_at m c p ci f →
  seg_at (alter (with_child (sdir c ci) f') (sparent c p) m) c p ci f'.
Proof.
  intros Hne Hn. destruct c as [|[d x b o] c]; [done|]. simpl in *. intros (Hx & Ho & Hc).
  apply NoDup_cons in Hn as [Hxn Hn]. apply not_elem_of_app in Hxn as [? ?].
  split_and!; [by rewrite lookup_alter_eq, Hx; simpl; rewrite with_child_mkn| |].
  - eapply tree_at_frame; [|done]. intros z Hz. apply lookup_alter_ne. by intros ->.
  - eapply seg_at_frame; [|done]. intros z Hz. apply lookup_alter_ne. by intros ->.
Qed.

(** ** The exchange *)

Lemma wp_st_alter p f s (Q : unit → astore → Prop) :
  p ∈ dom (anodes s) → Q tt (AStore (alter f p (anodes s)) (atrees s)) → wp (st_node p f) s Q.
Proof.
  intros [nd Hnd]%elem_of_dom HQ. eapply wp_st_node; [done|].
  replace (<[p := f nd]> (anodes s)) with (alter f p (anodes s)); [done|].
  apply map_eq. intros z. destruct (decide (z = p)) as [->|].
  - by rewrite lookup_insert_eq, lookup_alter_eq, Hnd.
  - by rewrite lookup_insert_ne, lookup_alter_ne.
Qed.

(** The link from above to another focus [y]. *)
Definition above (c : list frame) (y : Z) (m : gmap Z anode) : gmap Z anode :=
  if decide (c = []) then m else alter (with_child (cdir c) y) (cparent c) m.

Definition top (c : list frame) (x : Z) : Z := default x (last (map fx c)).

Lemma dom_above c y m : dom (above c y m) = dom m.
Proof. unfold above. case_decide; [done|]. apply dom_alter_Z. Qed.

Lemma wp_link_above tr y c s h x (Q : unit → astore → Prop) :
  atrees s !! tr = Some h → avl_root h = top c x →
  (c ≠ [] → cparent c ≠ NULL ∧ cparent c ∈ dom (anodes s)) →
  Q tt (AStore (above c y (anodes s)) (<[tr := root_set h (top c y)]> (atrees s))) →
  wp (link_child tr (cparent c) (cdir c) y) s Q.
Proof.
  intros Hh Hr Hc HQ. unfold link_child, above, top in *. destruct (decide (c = [])) as [->|Hne].
  - eapply wp_st_tree; [done|]. done.
  - destruct (Hc Hne) as [Hp Hd]. rewrite (proj2 (Z.eqb_neq _ _)) by done. cbn [negb].
    unfold st_child. apply wp_st_alter; [done|].
    assert (default y (last (map fx c)) = avl_root h) as E.
    { rewrite Hr. destruct (exists_last Hne) as (c' & F & ->). rewrite map_app. cbn [map].
      by rewrite !last_snoc. }
    rewrite E in HQ. rewrite insert_id in HQ; [done|]. rewrite Hh. by destruct h.
Qed.

Lemma ctx_at_above m r c x y :
  NoDup (celems c) → ctx_at m r c x → ctx_at (above c y m) (top c y) c y.
Proof.
  intros Hn Hc. unfold above. destruct c as [|[d z b o] c]; [done|]. rewrite decide_False by done.
  simpl in *. destruct Hc as (Hz & Ho & Hc). apply NoDup_cons in Hn as [Hzn Hn].
  apply not_elem_of_app in Hzn as [? ?].
  assert (r = top (Frame d z b o :: c) y) as ->.
  { clear -Hc. revert z Hc. induction c as [|F c IH]; intros z Hc; simpl in *; [done|].
    destruct Hc as (_ & _ & Hc). by apply IH in Hc. }
  split_and!; [by rewrite lookup_alter_eq, Hz; simpl; rewrite with_child_mkn| |].
  - eapply tree_at_frame; [|done]. intros w Hw. apply lookup_alter_ne. by intros ->.
  - eapply ctx_at_frame; [|done]. intros w Hw. apply lookup_alter_ne. by intros ->.
Qed.

Lemma lookup_above_notin c y m z : z ∉ celems c → above c y m !! z = m !! z.
Proof.
  unfold above. destruct c as [|F c]; [done|]. rewrite decide_False by done. simpl.
  intros [? _]%not_elem_of_cons. by rewrite lookup_alter_ne.
Qed.

(** Steps over stores to nodes known to be there. *)
Ltac indom := cbn [anodes]; first
  [ assumption
  | rewrite dom_alter_Z; indom
  | rewrite dom_above; indom
  | rewrite dom_insert_L; apply elem_of_union; first [left; by apply elem_of_singleton | right; indom] ].

Ltac glk := cbn [anodes atrees];
  repeat first [rewrite lookup_insert_eq | rewrite lookup_insert_ne by ane |
                rewrite lookup_alter_eq | rewrite lookup_alter_ne by ane |
                rewrite lookup_above_notin by assumption].

Ltac glook := glk; repeat match goal with H : _ !! _ = Some _ |- _ => rewrite H end;
  cbn [fmap option_fmap option_map]; autorewrite with avl; reflexivity.

Ltac gstep :=
  lazymatch goal with
  | |- wp (_ ≫= _) _ _ => apply wp_bind
  | |- wp (mret _) _ _ => apply wp_ret
  | |- wp (gets _) _ _ => apply wp_gets
  | |- wp (modify _) _ _ => apply wp_modify
  | |- wp (ld_node _) _ _ => eapply wp_ld_node; [glook|]
  | |- wp (ld_child _ _) _ _ => eapply wp_ld_child; [glook|]
  | |- wp (AVL_XPARENT _) _ _ => eapply wp_XPARENT; [glook|]
  | |- wp (AVL_XCHILD _) _ _ => eapply wp_XCHILD; [glook|]
  | |- wp (AVL_XBALANCE _) _ _ => eapply wp_XBALANCE; [glook|]
  | |- wp (st_child _ _ _) _ _ => unfold st_child
  | |- wp (AVL_SETPARENT _ _) _ _ => unfold AVL_SETPARENT
  | |- wp (st_node _ _) _ _ => apply wp_st_alter; [indom|]
  end; cbv beta; cbn [anodes atrees]; autorewrite with avl.

(** What the exchange needs of the nodes, and what it leaves. *)
Definition swapped (s : astore) (tr : Z) (h : atree) (T T1 : tree) (tmp : Z) (s' : astore) : Prop :=
  ∃ m', let h1 := root_set h (root T1) in
    s' = AStore m' (<[tr := h1]> (atrees s)) ∧ avl_state s' tr h1 T1 ∧
    dom m' = {[tmp]} ∪ dom (anodes s) ∧ (∀ z, z ∉ tmp :: elems T → m' !! z = anodes s !! z).

Lemma only_child1 d t p ci b :
  let n := mkn d (root t) (root Leaf) p ci b in
  avl_child n (if negb (avl_child n 1 =? 0) then 1 else 0) = root t.
Proof.
  destruct d; [|done]. unfold avl_child, mkn. cbn [child0 child1 root].
  change (1 =? 0) with false. cbv iota zeta. by destruct (Z.eqb_spec (root t) 0) as [->|].
Qed.

(** [AVL_SETPARENT] where there is a node. *)
Definition setp (n p : Z) (m : gmap Z anode) : gmap Z anode :=
  if n =? NULL then m else alter (with_parent p) n m.

Lemma wp_setp n p s (Q : unit → astore → Prop) :
  (n ≠ NULL → n ∈ dom (anodes s)) → Q tt (AStore (setp n p (anodes s)) (atrees s)) →
  wp (when (negb (n =? NULL)) (st_node n (with_parent p))) s Q.
Proof.
  intros Hn HQ. unfold setp in HQ. destruct (Z.eqb_spec n NULL) as [E|E]; simpl.
  - apply wp_ret. by destruct s.
  - apply wp_st_alter; auto.
Qed.

Lemma lookup_setp_notin t p m z : z ∉ elems t → setp (root t) p m !! z = m !! z.
Proof.
  intros Hz. unfold setp. case_match eqn:E; [done|]. apply Z.eqb_neq, root_elem in E.
  rewrite lookup_alter_ne; [done|]. by intros <-.
Qed.

Lemma setp_congr n p m m' z : m !! z = m' !! z → setp n p m !! z = setp n p m' !! z.
Proof.
  intros E. unfold setp. case_match; [done|]. destruct (decide (z = n)) as [->|].
  - by rewrite !lookup_alter_eq, E.
  - by rewrite !lookup_alter_ne.
Qed.

Lemma alter_congr (f : anode → anode) n (m m' : gmap Z anode) z :
  m !! z = m' !! z → alter f n m !! z = alter f n m' !! z.
Proof.
  intros E. destruct (decide (z = n)) as [->|].
  - by rewrite !lookup_alter_eq, E.
  - by rewrite !lookup_alter_ne.
Qed.

Lemma above_congr c y m m' z : m !! z = m' !! z → above c y m !! z = above c y m' !! z.
Proof. intros E. unfold above. case_decide; [done|]. by apply alter_congr. Qed.

Lemma dom_setp n p m : dom (setp n p m) = dom m.
Proof. unfold setp. case_match; [done|]. apply dom_alter_Z. Qed.

Lemma tree_at_setp m t p ci q :
  NoDup (elems t) → Forall valid_ptr (elems t) → tree_at m t p ci →
  tree_at (setp (root t) q m) t q ci.
Proof.
  intros Hn Hv Ht. destruct t as [|l x b r]; [done|]. unfold setp. rewrite (proj2 (Z.eqb_neq _ _)).
  - by eapply tree_at_with_parent.
  - simpl. apply valid_ne. eapply (proj1 (Forall_forall _ _) Hv). simpl. apply elem_of_app. right.
    apply list_elem_of_here.
Qed.

(** [y] with the tree [t1] in the place of [x] with [t]. *)
Lemma swapped_intro s tr h c d x b t o y t1 tmp m1 :
  let T := plug c (mk d x b t o) in
  avl_state s tr h T → tmp ∉ dom (anodes s) → valid_ptr tmp → y :: elems t1 ≡ₚ tmp :: elems t →
  o ≠ Leaf → tree_at m1 t1 y (Z.b2z d) →
  m1 !! y = Some (mkn d (root t1) (root o) (cparent c) (cdir c) b) →
  (∀ z, z ∈ elems o → m1 !! z = alter (with_parent y) (root o) (anodes s) !! z) →
  (∀ z, z ∈ celems c → m1 !! z = above c y (anodes s) !! z) →
  dom m1 = {[tmp]} ∪ dom (anodes s) →
  (∀ z, z ∉ tmp :: elems T → m1 !! z = anodes s !! z) →
  swapped s tr h T (plug c (mk d y b t1 o)) tmp
    (AStore m1 (<[tr := root_set h (top c y)]> (atrees s))).
Proof.
  intros T Hs Htmp Hvt Hp Hoo Ht1 Hy Ho Hc Hd Hout. pose proof Hs as [Hh Hr Ht Hnd Hv].
  assert (tmp ∉ elems T) as Htn by (intros Hin; apply Htmp; by eapply tree_at_dom).
  assert (elems T ≡ₚ x :: elems t ++ elems o ++ celems c) as HpT.
  { unfold T. rewrite elems_plug_perm, elems_mk. destruct d; solve_Permutation. }
  assert (elems (plug c (mk d y b t1 o)) ≡ₚ tmp :: elems t ++ elems o ++ celems c) as HpT1.
  { rewrite elems_plug_perm, elems_mk, (app_comm_cons (elems t)), <- Hp. destruct d; solve_Permutation. }
  rewrite HpT in Hnd, Hv, Htn. apply NoDup_cons in Hnd as [_ Hnd]. apply Forall_cons in Hv as [_ Hv].
  apply not_elem_of_cons in Htn as [_ Htn].
  apply tree_at_plug in Ht as [Ht Hcx]. apply tree_at_mk in Ht as (_ & _ & Hox). rewrite root_mk in Hcx.
  assert (root (plug c (mk d y b t1 o)) = top c y) as Er by by rewrite plug_root, root_mk.
  exists m1. rewrite Er. split_and!; [done| |done|done].
  split; cbn [atrees anodes root_set avl_root]; [by rewrite lookup_insert_eq|done| | |].
  - apply tree_at_plug. rewrite root_mk, tree_at_mk, Er. split_and!; [done|done| |].
    + eapply tree_at_frame; [exact Ho|]. eapply tree_at_with_parent; [done| |done].
      by apply NoDup_app in Hnd as (_ & _ & (? & _)%NoDup_app).
    + eapply ctx_at_frame; [exact Hc|]. eapply ctx_at_above; [|done].
      by apply NoDup_app in Hnd as (_ & _ & (_ & _ & ?)%NoDup_app).
  - rewrite HpT1. by constructor.
  - rewrite HpT1. by constructor.
Qed.

Lemma cparent_dom s tr h c t :
  avl_state s tr h (plug c t) → c ≠ [] → cparent c ≠ NULL ∧ cparent c ∈ dom (anodes s).
Proof.
  intros Hs Hne. split; [by eapply cparent_plug|].
  destruct Hs as [_ _ Ht _ _]. eapply tree_at_dom; [done|]. rewrite elems_plug_perm.
  destruct c; [done|]. simpl. apply elem_of_app. right. apply list_elem_of_here.
Qed.

(** The neighbour is a child of the node. *)
Lemma exchange_near s tr h c d x b o y yb yt tmp (Q : unit → astore → Prop) :
  let T := plug c (mk d x b (mk d y yb yt Leaf) o) in
  avl_state s tr h T → o ≠ Leaf → tmp ∉ dom (anodes s) → valid_ptr tmp →
  (∀ s', swapped s tr h T (plug c (mk d y b (mk d tmp yb yt Leaf) o)) tmp s' → Q tt s') →
  wp (exchange tr x y (Z.b2z d) tmp) s Q.
Proof.
  intros T Hs Hoo Htmp Hvt HQ. pose proof Hs as [Hh Hr Ht Hnd Hv].
  assert (elems T ≡ₚ x :: y :: elems yt ++ elems o ++ celems c) as Hp.
  { unfold T. rewrite elems_plug_perm, !elems_mk. destruct d; solve_Permutation. }
  assert (tmp ∉ elems T) as Htn by (intros Hin; apply Htmp; by eapply tree_at_dom).
  rewrite Hp in Hnd, Hv, Htn.
  apply tree_at_plug in Ht as [Ht Hc]. apply tree_at_mk in Ht as (Hx & Ht & Ho).
  apply tree_at_mk in Ht as (Hy & Hyt & _). rewrite !root_mk in *.
  split_nodup.
  assert (root o ≠ NULL) as Hro.
  { destruct o; [done|]. simpl in *. split_nodup. by apply valid_ne. }
  pose proof (root_elem _ Hro) as Hro'.
  assert (root o ∈ dom (anodes s)) as Hod by (eapply tree_at_dom; [exact Ho|by apply root_elem]).
  assert (y ∈ dom (anodes s)) by by apply elem_of_dom_2 in Hy.
  assert (root o ≠ y) by ane.
  assert (root o ≠ tmp) by (intros E; by rewrite E in Hod).
  assert (avl_root h = top c x) as Hrt by (rewrite Hr; unfold T; by rewrite plug_root, root_mk).
  unfold exchange. repeat gstep. rewrite Z.eqb_refl. cbn [when]. repeat gstep.
  eapply wp_link_above; [done|exact Hrt| |].
  { intros Hne. destruct (cparent_dom _ _ _ _ _ Hs Hne) as [? ?]. split; [done|indom]. }
  repeat gstep.
  rewrite only_child1. apply wp_setp.
  { intros Hne. assert (root yt ∈ dom (anodes s))
      by (eapply tree_at_dom; [exact Hyt|by apply root_elem]). indom. }
  apply HQ. cbn [anodes atrees].
  match goal with |- swapped _ _ _ _ _ _ (AStore ?m _) => set (m1 := m) end.
  assert (m1 !! tmp = Some (mkn d (root yt) (root Leaf) y (Z.b2z d) yb)) as Et.
  { unfold m1. rewrite lookup_setp_notin by done. glook. }
  assert (∀ z, z ∈ elems yt → m1 !! z = setp (root yt) tmp (anodes s) !! z) as Eyt.
  { intros z Hz. disjoin Hz. assert (z ≠ y) by ane. assert (z ≠ tmp) by ane.
    unfold m1. apply setp_congr. by glk. }
  assert (∀ z, z ∉ elems yt → z ≠ y → z ≠ tmp → z ∉ celems c → z ≠ root o → m1 !! z = anodes s !! z)
    as Eout by (intros; unfold m1; rewrite lookup_setp_notin by done; by glk).
  apply (swapped_intro s tr h c d x b (mk d y yb yt Leaf) o y (mk d tmp yb yt Leaf)); try done.
  - rewrite !elems_mk. destruct d; solve_Permutation.
  - apply tree_at_mk. split_and!; [done| |done]. eapply tree_at_frame; [exact Eyt|].
    by eapply tree_at_setp.
  - unfold m1. rewrite lookup_setp_notin, root_mk by done. glook.
  - intros z Hz. disjoin Hz. assert (z ≠ y) by ane. assert (z ≠ tmp) by ane.
    assert (z ∉ elems yt) by (intros Hz'; disjoin Hz'; contradiction).
    unfold m1. rewrite lookup_setp_notin by done. rewrite lookup_alter_ne by ane.
    apply alter_congr. by glk.
  - intros z Hz. assert (z ≠ y) by ane. assert (z ≠ tmp) by ane.
    assert (z ∉ elems yt) by (intros Hz'; disjoin Hz'; contradiction).
    assert (z ∉ elems o) by (intros Hz'; disjoin Hz'; contradiction).
    unfold m1. rewrite lookup_setp_notin by done. rewrite !lookup_alter_ne by ane.
    apply above_congr. by glk.
  - unfold m1. by rewrite dom_setp, !dom_alter_Z, dom_above, !dom_alter_Z, dom_insert_L.
  - intros z Hz. unfold T in Hp. rewrite Hp in Hz. split_nodup. apply Eout; ane.
Qed.

Lemma plug_not_leaf c : ∀ t, t ≠ Leaf → plug c t ≠ Leaf.
Proof. induction c as [|[[] x b o] c IH]; intros t Ht; simpl; [done|by apply IH..]. Qed.

Lemma top_in c x : c ≠ [] → top c x ∈ celems c.
Proof.
  unfold top. induction c as [|F c IH]; [done|]. intros _. cbn [map celems]. rewrite last_cons.
  destruct c as [|G c]; [apply list_elem_of_here|]. specialize (IH ltac:(done)).
  destruct (last (map fx (G :: c))) eqn:E; [|by apply last_None in E].
  apply list_elem_of_further, elem_of_app. by right.
Qed.

Lemma sparent_in c p : c ≠ [] → sparent c p ∈ celems c.
Proof. destruct c; [done|]. intros _. apply list_elem_of_here. Qed.

(** The neighbour is further down, at the end of [c2]. *)
Lemma exchange_far s tr h c d x b o c2 y yb yt tmp (Q : unit → astore → Prop) :
  let t := plug c2 (mk d y yb yt Leaf) in
  let T := plug c (mk d x b t o) in
  c2 ≠ [] → avl_state s tr h T → o ≠ Leaf → tmp ∉ dom (anodes s) → valid_ptr tmp →
  (∀ s', swapped s tr h T (plug c (mk d y b (plug c2 (mk d tmp yb yt Leaf)) o)) tmp s' → Q tt s') →
  wp (exchange tr x y (Z.b2z d) tmp) s Q.
Proof.
  intros t T Hc2 Hs Hoo Htmp Hvt HQ. pose proof Hs as [Hh Hr Ht Hnd Hv].
  assert (elems T ≡ₚ x :: y :: elems yt ++ celems c2 ++ elems o ++ celems c) as Hp.
  { unfold T, t. rewrite elems_plug_perm, elems_mk.
    destruct d; rewrite elems_plug_perm; simpl; solve_Permutation. }
  assert (tmp ∉ elems T) as Htn by (intros Hin; apply Htmp; by eapply tree_at_dom).
  rewrite Hp in Hnd, Hv, Htn.
  apply tree_at_plug in Ht as [Ht Hc]. apply tree_at_mk in Ht as (Hx & Ht & Ho).
  pose proof Ht as [Hy Hseg]%tree_at_seg. apply tree_at_mk in Hy as (Hy & Hyt & _).
  rewrite !root_mk in *.
  assert (root t = top c2 y) as Ert by by (unfold t; rewrite plug_root, root_mk).
  assert (NoDup (elems t)) as Hndt.
  { unfold t. rewrite elems_plug_perm. apply NoDup_cons in Hnd as [_ Hnd].
    rewrite (app_assoc (elems yt)), app_comm_cons in Hnd. apply NoDup_app in Hnd as [Hnd _].
    rewrite elems_mk. destruct d; simpl; [done|]. rewrite <- app_assoc. simpl.
    by rewrite Permutation_middle in Hnd. }
  pose proof (top_in c2 y Hc2) as Htop. pose proof (sparent_in c2 x Hc2) as Hpar.
  rewrite <- Ert in Htop. set (P := sparent c2 x) in *.
  split_nodup.
  assert (root o ≠ NULL) as Hro.
  { destruct o; [done|]. simpl in *. split_nodup. by apply valid_ne. }
  pose proof (root_elem _ Hro) as Hro'.
  assert (root o ∈ dom (anodes s)) as Hod by (eapply tree_at_dom; [exact Ho|by apply root_elem]).
  assert (y ∈ dom (anodes s)) by by apply elem_of_dom_2 in Hy.
  assert (root o ≠ y) by ane.
  assert (root o ≠ tmp) by (intros E; by rewrite E in Hod).
  assert (root t ≠ y) by ane. assert (root t ≠ tmp) by ane.
  assert (P ≠ y) by ane. assert (P ≠ tmp) by ane.
  assert (avl_root h = top c x) as Hrt by (rewrite Hr; unfold T; by rewrite plug_root, root_mk).
  assert (root t ∈ dom (anodes s)) as Htd.
  { eapply tree_at_dom; [exact Ht|]. unfold t. rewrite elems_plug_perm. apply elem_of_app. by right. }
  assert (P ∈ dom (anodes s)) as Hpd.
  { eapply tree_at_dom; [exact Ht|]. unfold t. rewrite elems_plug_perm. apply elem_of_app. by right. }
  unfold exchange. repeat gstep. rewrite (proj2 (Z.eqb_neq (root t) y)) by done. cbn [when]. repeat gstep.
  eapply wp_link_above; [done|exact Hrt| |].
  { intros Hne. destruct (cparent_dom _ _ _ _ _ Hs Hne) as [? ?]. split; [done|indom]. }
  repeat gstep. rewrite only_child1. apply wp_setp.
  { intros Hne. assert (root yt ∈ dom (anodes s))
      by (eapply tree_at_dom; [exact Hyt|by apply root_elem]). indom. }
  apply HQ. cbn [anodes atrees].
  match goal with |- swapped _ _ _ _ _ _ (AStore ?m _) => set (m1 := m) end.
  assert (∀ z, z ∉ elems yt → z ≠ y → z ≠ tmp → z ∉ celems c → z ≠ root o → z ≠ root t → z ≠ P →
    m1 !! z = anodes s !! z) as Eout by (intros; unfold m1; rewrite lookup_setp_notin by done; by glk).
  assert (sparent c2 y = P) as Esp by by destruct c2.
  apply (swapped_intro s tr h c d x b t o y (plug c2 (mk d tmp yb yt Leaf))); try done.
  - rewrite elems_plug_perm. unfold t. rewrite elems_plug_perm, !elems_mk. destruct d; solve_Permutation.
  - apply tree_at_seg. rewrite Esp, root_mk, tree_at_mk. split_and!; [| |done|].
    + unfold m1. rewrite lookup_setp_notin by done. glook.
    + eapply tree_at_frame; [|eapply tree_at_setp; [done|done|exact Hyt]].
      intros z Hz. disjoin Hz. assert (z ≠ y) by ane. assert (z ≠ tmp) by ane.
      assert (z ≠ root t) by ane. assert (z ≠ P) by ane. unfold m1. apply setp_congr. by glk.
    + pose proof (tree_at_with_parent _ t _ _ y (plug_not_leaf c2 (mk d y yb yt Leaf) ltac:(by destruct d)) Hndt Ht)
        as Ht5.
      apply tree_at_seg in Ht5 as [_ Hs5]. rewrite root_mk in Hs5.
      apply (seg_at_with_child _ _ _ _ _ tmp Hc2 H3) in Hs5. rewrite Esp in Hs5.
      eapply seg_at_frame; [|exact Hs5]. intros z Hz. disjoin Hz.
      assert (z ≠ y) by ane. assert (z ≠ tmp) by ane. assert (z ≠ root o) by ane.
      assert (z ∉ elems yt) by (intros Hz'; disjoin Hz'; contradiction).
      unfold m1. rewrite lookup_setp_notin by done. apply alter_congr.
      rewrite lookup_alter_ne by ane. apply alter_congr. by glk.
  - rewrite plug_root, root_mk. unfold m1. rewrite lookup_setp_notin by done. glk.
    rewrite Hy. cbn [fmap option_fmap option_map].
    rewrite Ert. do 2 f_equal. unfold top. destruct (exists_last Hc2) as (c' & F & ->).
    rewrite map_app. cbn [map]. by rewrite !last_snoc.
  - intros z Hz. disjoin Hz. assert (z ≠ y) by ane. assert (z ≠ tmp) by ane.
    assert (z ∉ elems yt) by (intros Hz'; disjoin Hz'; contradiction).
    assert (z ∉ celems c2) by (intros Hz'; disjoin Hz'; contradiction).
    assert (z ≠ root t) by ane. assert (z ≠ P) by ane.
    unfold m1. rewrite lookup_setp_notin by done. rewrite lookup_alter_ne by ane.
    apply alter_congr. by glk.
  - intros z Hz. assert (z ≠ y) by ane. assert (z ≠ tmp) by ane.
    assert (z ∉ elems yt) by (intros Hz'; disjoin Hz'; contradiction).
    assert (z ∉ celems c2) by (intros Hz'; disjoin Hz'; contradiction).
    assert (z ∉ elems o) by (intros Hz'; disjoin Hz'; contradiction).
    assert (z ≠ root t) by ane. assert (z ≠ P) by ane.
    unfold m1. rewrite lookup_setp_notin by done. rewrite !lookup_alter_ne by ane.
    apply above_congr. by glk.
  - unfold m1. by rewrite dom_setp, !dom_alter_Z, dom_above, !dom_alter_Z, dom_insert_L.
  - intros z Hz. unfold T in Hp. rewrite Hp in Hz. split_nodup. apply Eout; ane.
Qed.

(** A node with two children, and the neighbour on its taller side. *)
Lemma swap_out_spec s tr h c d x b t o tmp (Q : unit → astore → Prop) :
  let T := plug c (mk d x b t o) in
  avl_state s tr h T → d = (b =? 1) → in_range b → t ≠ Leaf → o ≠ Leaf →
  tmp ∉ dom (anodes s) → valid_ptr tmp →
  (∀ c2 y yb yt s', t = plug c2 (mk d y yb yt Leaf) → Forall (λ f, fd f = negb d) c2 →
     swapped s tr h T (plug (c2 ++ Frame d y b o :: c) (mk d tmp yb yt Leaf)) tmp s' → Q tt s') →
  wp (swap_out tr x tmp) s Q.
Proof.
  intros T Hs Hd Hb Hto Hoo Htmp Hvt HQ. pose proof Hs as [Hh Hr Ht Hnd Hv].
  pose proof (avl_state_focus _ _ _ _ _ _ _ _ _ Hs) as Hx.
  pose proof Ht as [(_ & Htt & _)%tree_at_mk _]%tree_at_plug.
  assert (elems T ≡ₚ elems t ++ x :: elems o ++ celems c) as Hp.
  { unfold T. rewrite elems_plug_perm, elems_mk. destruct d; solve_Permutation. }
  assert (avl_balance2child (b + 1) = Z.b2z d) as Eb.
  { subst d. unfold avl_balance2child, in_range in *. destruct (Z.eqb_spec b 1) as [->|]; [done|].
    by rewrite (proj2 (Z.eqb_neq _ _)) by lia. }
  unfold swap_out. apply wp_bind. eapply wp_XBALANCE; [exact Hx|]. rewrite balance_mkn, Eb.
  apply wp_bind. eapply wp_ld_child; [exact Hx|]. rewrite child_mkn. apply wp_bind, wp_gets, wp_bind.
  replace (1 - Z.b2z d) with (Z.b2z (negb d)) by by destruct d.
  eapply wp_descend; [exact Htt|done| | |].
  - apply valid_not_null. rewrite Hp in Hv. by apply Forall_app in Hv as [? _].
  - pose proof (elems_fuel _ _ _ _ Hs) as Hf. rewrite Hp, length_app in Hf. lia.
  - intros c2 y yb yt Et Hc2. rewrite negb_involutive in Et.
    assert (∀ s', swapped s tr h T (plug c (mk d y b (plug c2 (mk d tmp yb yt Leaf)) o)) tmp s' → Q tt s')
      as HQ'.
    { intros s' Hs'. apply (HQ c2 y yb yt); [done|done|]. by rewrite plug_app. }
    unfold T in *. subst t. destruct c2 as [|F c2].
    + by eapply (exchange_near s tr h c d x b o y yb yt).
    + by eapply (exchange_far s tr h c d x b o (F :: c2) y yb yt).
Qed.

Lemma height_plug c : ∀ t t', height t = height t' → height (plug c t) = height (plug c t').
Proof.
  induction c as [|[d x b o] c IH]; intros t t' Hh; simpl; [done|]. apply IH. by rewrite !height_mk, Hh.
Qed.

(** The exchange keeps the shape and, but for the names, the order. *)
Lemma swap_avl c d x b o c2 y yb yt tmp :
  avl (plug c (mk d x b (plug c2 (mk d y yb yt Leaf)) o)) →
  avl (plug (c2 ++ Frame d y b o :: c) (mk d tmp yb yt Leaf)).
Proof.
  intros Ha. rewrite plug_app. simpl.
  assert (height (mk d tmp yb yt Leaf) = height (mk d y yb yt Leaf)) as Hh by by rewrite !height_mk.
  pose proof (avl_plug_focus _ _ Ha) as (Hb & Hr & Ht & Ho)%avl_mk.
  assert (avl (plug c2 (mk d tmp yb yt Leaf))) as Ht'.
  { apply (avl_plug_same c2 _ _ Ht); [|done]. pose proof (avl_plug_focus _ _ Ht) as Hy.
    apply avl_mk. by apply avl_mk in Hy. }
  apply (avl_plug_same c _ _ Ha); [apply avl_mk|rewrite !height_mk];
    by rewrite (height_plug c2 (mk d tmp yb yt Leaf) (mk d y yb yt Leaf)).
Qed.

Lemma after_right c : Forall (λ f, fd f = true) c → after c = [].
Proof. induction 1 as [|[d x b o] c Hd _ IH]; [done|]. simpl in *. by subst. Qed.

Lemma before_left c : Forall (λ f, fd f = false) c → before c = [].
Proof. induction 1 as [|[d x b o] c Hd _ IH]; [done|]. simpl in *. subst. by rewrite IH. Qed.

(** The elements of [T] are those of [T'] and [x] in its place. *)
Definition removes (x : Z) (T T' : tree) : Prop :=
  ∃ l1 l2, elems T = l1 ++ x :: l2 ∧ elems T' = l1 ++ l2.

Lemma swap_removes c d x b o c2 y yb yt T' :
  Forall (λ f, fd f = negb d) c2 →
  elems T' = before (c2 ++ Frame d y b o :: c) ++ elems yt ++ after (c2 ++ Frame d y b o :: c) →
  removes x (plug c (mk d x b (plug c2 (mk d y yb yt Leaf)) o)) T'.
Proof.
  intros Hc2 E. unfold removes. rewrite E, elems_plug, elems_mk, before_app, after_app.
  destruct d; rewrite elems_plug; simpl in *.
  - rewrite (before_left c2 Hc2).
    exists (before c ++ elems o), (y :: elems yt ++ after c2 ++ after c).
    split; repeat (rewrite <- ?app_assoc, ?app_nil_r; simpl); reflexivity.
  - rewrite (after_right c2 Hc2).
    exists (before c ++ before c2 ++ elems yt ++ [y]), (elems o ++ after c).
    split; repeat (rewrite <- ?app_assoc, ?app_nil_r; simpl); reflexivity.
Qed.

Lemma swap_perm c d x b o c2 y yb yt tmp :
  x :: elems (plug (c2 ++ Frame d y b o :: c) (mk d tmp yb yt Leaf)) ≡ₚ
  tmp :: elems (plug c (mk d x b (plug c2 (mk d y yb yt Leaf)) o)).
Proof.
  rewrite plug_app. simpl. rewrite !elems_plug_perm, !elems_mk.
  destruct d; rewrite !elems_plug_perm; simpl; solve_Permutation.
Qed.

(** ** [avl_tree_remove] *)

Lemma data_node off x : valid_ptr x → AVL_DATA2NODE (AVL_NODE2DATA x off) off = x.
Proof.
  intros Hx. unfold AVL_DATA2NODE, AVL_NODE2DATA. rewrite uwrap_add_l.
  replace (x - off + off) with x by lia. apply uwrap_small. unfold valid_ptr in Hx. lia.
Qed.

(** Removal of the node [x], the outcome in terms of the tree values. *)
Lemma remove_node s tr h c l x b r tmp (Q : unit → astore → Prop) :
  let T := plug c (Node l x b r) in
  avl_state s tr h T → avl T → avl_numnodes h = Z.of_nat (length (elems T)) →
  tmp ∉ dom (anodes s) → valid_ptr tmp →
  (∀ T' s', avl T' → removes x T T' → avl_state s' tr (header h T') T' →
     dom (anodes s') ∖ {[tmp]} = dom (anodes s) →
     (∀ z, z ∉ tmp :: elems T → anodes s' !! z = anodes s !! z) →
     atrees s' = <[tr := header h T']> (atrees s) → Q tt s') →
  wp (take_out tr x tmp) s Q.
Proof.
  intros T Hs Ha Hct Htmp Hvt HQ. pose proof Hs as [Hh Hr Ht Hnd Hv].
  assert (∀ u, (∃ d o, Node l x b r = mk d x b u o) → u = Leaf ↔ root u = NULL) as Hleaf.
  { intros u (d & o & Eu). destruct u as [|ul u ub ur]; [done|]. split; [done|]. simpl. intros ->.
    exfalso. apply (valid_not_null _ Hv). unfold T.
    rewrite elems_plug_perm, Eu, elems_mk.
    apply elem_of_app. left. destruct d; simpl; set_solver +. }
  unfold take_out. apply wp_bind. eapply wp_ld_node; [apply tree_at_plug in Ht as [(Hx & _) _]; exact Hx|].
  cbn [child0 child1].
  pose proof (Hleaf l ltac:(by exists false, r)) as Hl. pose proof (Hleaf r ltac:(by exists true, l)) as Hr'.
  assert (∀ d t, Node l x b r = mk d x b t Leaf → wp (unlink tr x) s Q) as Hone.
  { intros d t E. unfold T in *. rewrite E in *. eapply unlink_spec; [done|done|done|].
    pose proof (avl_plug_focus _ _ Ha) as (_ & _ & Hat & _)%avl_mk.
    assert (height t = height (mk d x b t Leaf) - 1) as Hht.
    { rewrite height_mk. pose proof (height_nonneg t). simpl. lia. }
    destruct (shrink_avl _ _ _ Ha Hat Hht) as [Ha' He'].
    intros s' Hs' [Hd1 Ho1] Et. apply (HQ (shrink c t)); [done| |done| | |done].
    - unfold removes. rewrite He', elems_plug, elems_mk.
      destruct d; [exists (before c), (elems t ++ after c)|exists (before c ++ elems t), (after c)];
        split; repeat (rewrite <- ?app_assoc, ?app_nil_r; simpl); reflexivity.
    - rewrite Hd1. set_solver.
    - intros z [_ Hz]%not_elem_of_cons. by apply Ho1. }
  destruct (Z.eqb_spec (root l) NULL) as [E|E]; cbn [negb andb].
  { apply wp_bind, wp_ret. apply (Hone true r). by rewrite (proj2 Hl E). }
  destruct (Z.eqb_spec (root r) NULL) as [E'|E']; cbn [negb].
  { apply wp_bind, wp_ret. apply (Hone false l). by rewrite (proj2 Hr' E'). }
  set (d := b =? 1). destruct (as_mk d (Node l x b r) ltac:(done)) as (x' & b' & t & o & Em).
  assert (x' = x ∧ b' = b ∧ t ≠ Leaf ∧ o ≠ Leaf) as (-> & -> & Hto & Hoo).
  { destruct d; inversion Em; subst; naive_solver. }
  clear Hone Hleaf Hl Hr'. unfold T in *. rewrite Em in *.
  pose proof (avl_plug_focus _ _ Ha) as (_ & Hrb & _)%avl_mk.
  apply wp_bind, wp_bind. eapply swap_out_spec; [done|done|done|done|done|done|done|].
  intros c2 y yb yt s1 Et Hc2 (m1 & -> & Hs1 & Hd1 & Ho1). apply wp_ret.
  subst t. pose proof (swap_avl _ _ _ _ _ _ _ _ _ tmp Ha) as Ha1.
  set (C1 := c2 ++ Frame d y b o :: c) in *. set (T1 := plug C1 (mk d tmp yb yt Leaf)) in *.
  pose proof (avl_plug_focus _ _ Ha1) as (_ & _ & Hat & _)%avl_mk.
  assert (height yt = height (mk d tmp yb yt Leaf) - 1) as Hht.
  { rewrite height_mk. pose proof (height_nonneg yt). simpl. lia. }
  destruct (shrink_avl _ _ _ Ha1 Hat Hht) as [Ha' He'].
  pose proof (swap_perm c d x b o c2 y yb yt tmp) as Hp. fold C1 T1 in Hp.
  pose proof (Permutation_length Hp) as Hlen. injection Hlen as Hlen.
  eapply unlink_spec; [exact Hs1|done|fold T1; cbn [avl_numnodes root_set]; by rewrite Hct, Hlen|].
  intros s2 Hs2 [Hd2 Ho2] Et2. cbn [atrees anodes] in *.
  apply (HQ (shrink C1 yt)); [done|by eapply swap_removes|done| | |].
  - rewrite Hd2, Hd1. set_solver.
  - intros z Hz. rewrite Ho2; [by apply Ho1|]. intros Hz'. apply Hz.
    rewrite <- Hp. by apply list_elem_of_further.
  - rewrite Et2, insert_insert_eq. done.
Qed.
