(* ===== verification/AvlWalk.v ===== *)
(** * Walks over an AVL tree

    The outermost nodes, and the neighbours of a node in the order. *)

From stdpp Require Import gmap list.
From S2P Require Import Prelude AvlPure AvlTree AvlTreeSpec AvlSet AvlRemove.
#[local] Open Scope Z_scope.

#[export] Instance leaf_dec t : Decision (t = Leaf).
Proof. destruct t; [by left|by right]. Defined.

(** The last one of the nodes on side [e], or [d]. *)
Definition outer (e : bool) (l : list Z) (d : Z) : Z := default d (if e then last l else head l).

Lemma outer_mk e x b f o d : outer e (elems (mk e x b f o)) d = outer e (elems f) x.
Proof.
  unfold outer. rewrite elems_mk. destruct e.
  - rewrite last_app_cons, last_cons. by destruct (last _).
  - by destruct (elems f).
Qed.

Lemma wp_outermost e t : ∀ fuel s p ci d (Q : Z → astore → Prop),
  tree_at (anodes s) t p ci → NULL ∉ elems t → height t < Z.of_nat fuel →
  Q (outer e (elems t) d) s → wp (outermost fuel (root t) d (Z.b2z e)) s Q.
Proof.
  induction t as [|l IHl x b r IHr]; intros fuel s p ci d Q Ht H0 Hf HQ;
    (destruct fuel as [|fuel];
      [match type of Hf with height ?u < _ => pose proof (height_nonneg u) end; lia|]);
    cbn [outermost root]; [change (NULL =? NULL) with true; apply wp_ret; by destruct e|].
  simpl in H0, Hf. apply not_elem_of_app in H0 as [H0l [Hx0 H0r]%not_elem_of_cons].
  rewrite (proj2 (Z.eqb_neq x NULL)) by done. cbn [negb]. destruct Ht as (Hx & Hl & Hr).
  apply wp_bind. eapply wp_ld_child; [exact Hx|].
  destruct e; [change (Node l x b r) with (mk true x b r l) in HQ|
               change (Node l x b r) with (mk false x b l r) in HQ]; rewrite outer_mk in HQ.
  - eapply IHr; [done|done|lia|done].
  - eapply IHl; [done|done|lia|done].
Qed.

(** The nearest node above the focus that has it on its side [e]. *)
Fixpoint up (e : bool) (c : list frame) : Z :=
  match c with
  | [] => NULL
  | F :: c => if Bool.eqb (fd F) e then fx F else up e c
  end.

Lemma wp_ascend e c : ∀ fuel s r x n (Q : Z → astore → Prop),
  ctx_at (anodes s) r c x → anodes s !! x = Some n →
  avl_parent n = cparent c → avl_child_index n = cdir c → Forall valid_ptr (celems c) →
  (length c < fuel)%nat → Q (up e c) s → wp (ascend fuel x (Z.b2z e)) s Q.
Proof.
  induction c as [|[d y b o] c IH]; intros fuel s r x n Q Hc Hx Hp Hi Hv Hf HQ;
    (destruct fuel as [|fuel]; [simpl in Hf; lia|]); cbn [ascend];
    apply wp_bind; (eapply wp_XCHILD; [done|]); apply wp_bind; (eapply wp_XPARENT; [done|]);
    rewrite Hp, Hi; [by apply wp_ret|].
  simpl in Hc, Hv. destruct Hc as (Hy & _ & Hc). apply Forall_cons in Hv as [Hvy Hv].
  apply Forall_app in Hv as [_ Hv]. cbn [cparent cdir fx fd up] in *.
  rewrite (proj2 (Z.eqb_neq y NULL)) by by apply valid_ne.
  destruct (Bool.eqb_spec d e) as [->|Hne].
  - rewrite Z.eqb_refl. by apply wp_ret.
  - rewrite (proj2 (Z.eqb_neq _ _)) by by destruct d, e.
    eapply IH; [done|done|by rewrite parent_mkn|by rewrite index_mkn|done|simpl in Hf; lia|done].
Qed.

Lemma up_after c : up false c = outer false (after c) NULL.
Proof. unfold outer. induction c as [|[[] x b o] c IH]; simpl; [done|by rewrite IH|done]. Qed.

Lemma up_before c : up true c = outer true (before c) NULL.
Proof.
  unfold outer. induction c as [|[[] x b o] c IH]; simpl; [done| |by rewrite app_nil_r, IH].
  by rewrite app_assoc, last_snoc.
Qed.

(** The neighbour on side [d] of an element between [l1] and [l2]. *)
Definition neighbour (d : bool) (l1 l2 : list Z) : Z :=
  if d then outer false l2 NULL else outer true l1 NULL.

Lemma descend_outer e c2 y yb yt d :
  Forall (λ f, fd f = e) c2 → outer e (elems (plug c2 (mk (negb e) y yb yt Leaf))) d = y.
Proof.
  intros Hc. unfold outer. rewrite elems_plug, elems_mk. destruct e; simpl.
  - by rewrite (after_right c2 Hc), app_nil_r, app_assoc, last_snoc.
  - by rewrite (before_left c2 Hc).
Qed.

Lemma elems_nil t : elems t = [] → t = Leaf.
Proof. destruct t as [|l x b r]; [done|]. simpl. by intros [_ ?]%app_nil. Qed.

Lemma neighbour_mk c d t o :
  neighbour d (before c ++ if d then elems o else elems t) ((if d then elems t else elems o) ++ after c) =
  if decide (t = Leaf) then up (negb d) c else outer (negb d) (elems t) NULL.
Proof.
  unfold neighbour. destruct d; simpl.
  - case_decide as E; [subst; symmetry; apply up_after|]. unfold outer.
    destruct (elems t) eqn:Et; [by apply elems_nil in Et|done].
  - case_decide as E; [subst; simpl; by rewrite app_nil_r, up_before|]. unfold outer.
    destruct (elems t) as [|z l _] eqn:Et using rev_ind; [by apply elems_nil in Et|].
    by rewrite app_assoc, !last_snoc.
Qed.

(** The walk in direction [d] from the node [x] with subtree [t] on that side. *)
Lemma walk_mk s tr h c d x b t o (Q : Z → astore → Prop) :
  let off := avl_offset h in
  avl_state s tr h (plug c (mk d x b t o)) →
  (let n := if decide (t = Leaf) then up (negb d) c else outer (negb d) (elems t) NULL in
   Q (if n =? NULL then NULL else AVL_NODE2DATA n off) s) →
  wp (avl_tree_walk tr (AVL_NODE2DATA x off) (Z.b2z d)) s Q.
Proof.
  intros off Hs HQ. pose proof Hs as [Hh Hr Ht Hnd Hv].
  pose proof (avl_state_focus _ _ _ _ _ _ _ _ _ Hs) as Hx.
  assert (elems (plug c (mk d x b t o)) ≡ₚ elems t ++ x :: elems o ++ celems c) as Hp.
  { rewrite elems_plug_perm, elems_mk. destruct d; solve_Permutation. }
  pose proof (elems_fuel _ _ _ _ Hs) as Hf. pose proof (length_path c (mk d x b t o)) as Hfc.
  rewrite Hp in Hv. apply Forall_app in Hv as [Hvt [Hvx Hv]%Forall_cons].
  apply Forall_app in Hv as [_ Hvc].
  apply tree_at_plug in Ht as [Ht Hc]. apply tree_at_mk in Ht as (_ & Ht & _). rewrite root_mk in Hc.
  unfold avl_tree_walk. apply wp_bind. eapply wp_ld_tree; [done|]. fold off.
  rewrite data_node by done. rewrite (proj2 (Z.eqb_neq x NULL)) by by apply valid_ne.
  apply wp_bind, wp_gets, wp_bind. eapply wp_ld_child; [exact Hx|]. rewrite child_mkn.
  replace (1 - Z.b2z d) with (Z.b2z (negb d)) by by destruct d.
  destruct (decide (t = Leaf)) as [->|Hne].
  - change (root Leaf =? NULL) with true. cbn [negb]. apply wp_bind.
    eapply wp_ascend; [exact Hc|exact Hx|by rewrite parent_mkn|by rewrite index_mkn|done|lia|].
    by apply wp_ret.
  - assert (root t ∈ elems t) as Hrt by (destruct t; [done|]; simpl; set_solver +).
    assert (root t ≠ NULL) as Hr0 by (apply valid_ne, (proj1 (Forall_forall _ _) Hvt), Hrt).
    rewrite (proj2 (Z.eqb_neq _ _)) by done. cbn [negb]. apply wp_bind.
    eapply wp_descend; [exact Ht|done|by apply valid_not_null|rewrite Hp, length_app in Hf; lia|].
    intros c2 y yb yt -> Hc2. apply wp_ret. rewrite descend_outer in HQ by done. cbv zeta in HQ.
    rewrite (proj2 (Z.eqb_neq y NULL)) in HQ; [done|]. apply valid_ne, (proj1 (Forall_forall _ _) Hvt).
    rewrite elems_plug_perm, elems_mk. destruct d; set_solver +.
Qed.
