(* ===== verification/AvlOrdered.v ===== *)
(** * The contract of AVL trees

    A tree refines the list of its data in the order of the comparison: adding inserts
    in order, the walk goes to the neighbours, and searches take a number of steps
    logarithmic in the number of nodes. *)

From stdpp Require Import gmap list sorting.
From S2P Require Import Prelude AvlPure AvlTree AvlTreeSpec AvlSet AvlRemove AvlWalk.
#[local] Open Scope Z_scope.

Section ordered.
Context `{C : AvlClient} `{!AvlOrder C}.

#[export] Instance cmp_lt_dec v w : Decision (cmp_lt v w) := ltac:(unfold cmp_lt; apply _).

(** ** Ordered lists *)

(** The place of [v] in the list. *)
Definition lesser (v : Z) (l : list Z) : list Z := filter (λ w, cmp_lt w v) l.

Definition greater (v : Z) (l : list Z) : list Z := filter (λ w, cmp_lt v w) l.

Definition equals (v : Z) (l : list Z) : list Z := filter (λ w, avl_compare v w = 0) l.

Definition first (l : list Z) : Z := default NULL (head l).

Definition final (l : list Z) : Z := default NULL (last l).

Lemma cmp_refl v : avl_compare v v = 0.
Proof. pose proof (cmp_flip v v). lia. Qed.

Lemma sorted_NoDup l : StronglySorted cmp_lt l → NoDup l.
Proof.
  induction 1 as [|v l _ IH Hv]; constructor; [|done]. intros Hin.
  apply (proj1 (Forall_forall _ _) Hv) in Hin. unfold cmp_lt in Hin. rewrite cmp_refl in Hin. lia.
Qed.

Lemma filter_all (P : Z → Prop) `{∀ x, Decision (P x)} l : Forall P l → filter P l = l.
Proof. induction 1 as [|x l Hx _ IH]; [done|]. by rewrite filter_cons_True, IH. Qed.

Lemma filter_none (P : Z → Prop) `{∀ x, Decision (P x)} l : Forall (λ x, ¬ P x) l → filter P l = [].
Proof. induction 1 as [|x l Hx _ IH]; [done|]. by rewrite filter_cons_False. Qed.

(** Where everything before is less than [v], and everything after is greater. *)
Lemma split_place l1 l2 v :
  Forall (λ w, cmp_lt w v) l1 → Forall (cmp_lt v) l2 →
  lesser v (l1 ++ l2) = l1 ∧ greater v (l1 ++ l2) = l2 ∧ equals v (l1 ++ l2) = [].
Proof.
  intros H1 H2. unfold lesser, greater, equals. rewrite !filter_app. split_and!.
  - rewrite filter_all, filter_none, app_nil_r; [done| |done].
    eapply Forall_impl; [done|]. intros w. apply cmp_irrefl.
  - rewrite filter_none, filter_all; [done|done|].
    eapply Forall_impl; [exact H1|]. intros w. apply cmp_irrefl.
  - rewrite !filter_none; [done|..].
    + eapply Forall_impl; [exact H2|]. unfold cmp_lt. intros w ->. lia.
    + eapply Forall_impl; [exact H1|]. unfold cmp_lt. intros w Hw. rewrite (cmp_flip w v). lia.
Qed.

(** Around [v] itself. *)
Lemma split_self l1 v l2 :
  StronglySorted cmp_lt (l1 ++ v :: l2) →
  lesser v (l1 ++ v :: l2) = l1 ∧ greater v (l1 ++ v :: l2) = l2 ∧ equals v (l1 ++ v :: l2) = [v].
Proof.
  intros (_ & [_ H2]%StronglySorted_inv & H1)%sorted_app.
  destruct (split_place l1 l2 v) as (Hl & Hg & He); [|done|].
  { apply Forall_forall. intros u Hu. apply H1; [done|]. apply list_elem_of_here. }
  unfold lesser, greater, equals in *. rewrite filter_app in Hl, Hg, He. rewrite !filter_app, !filter_cons.
  rewrite !(decide_False (P := cmp_lt v v)) by (unfold cmp_lt; rewrite cmp_refl; lia).
  rewrite (decide_True (P := avl_compare v v = 0)) by apply cmp_refl. split_and!; [done|done|].
  apply app_nil in He as [-> ->]. done.
Qed.

(** Only [v] itself compares as equal to [v] among data in order. *)
Lemma sorted_equal l v w : StronglySorted cmp_lt l → v ∈ l → w ∈ l → avl_compare v w = 0 → w = v.
Proof.
  intros Hs (l1 & l2 & ->)%list_elem_of_split Hw E. destruct (split_self _ _ _ Hs) as (_ & _ & Ee).
  apply list_elem_of_singleton. rewrite <- Ee. by apply list_elem_of_filter.
Qed.

(** ** What the operations do to the list *)

(** The tree of header [tr] holds the data [l]. *)
Definition is_aset (s : astore) (tr off : Z) (l : list Z) : Prop :=
  tr ≠ NULL ∧ NULL ∉ l ∧ ∃ h T, avl_set s tr h T ∧ avl_offset h = off ∧ l = contents off T.

(** The node embedded in the data [v]. *)
Definition has_node (s : astore) (off v : Z) : Prop :=
  let n := AVL_DATA2NODE v off in
  v ≠ NULL ∧ valid_ptr n ∧ data off n = v ∧ n ∈ dom (anodes s).

(** [v] in its place, unless there is an equal element. *)
Definition add (v : Z) (l : list Z) : Z * list Z :=
  if decide (equals v l = []) then (v, lesser v l ++ v :: greater v l) else (NULL, l).

Definition remove (v : Z) (l : list Z) : Z * list Z :=
  if decide (v ∈ l) then (v, without v l) else (NULL, l).

(** What an operation leaves alone: the other trees, and the nodes but those of the data
    [l]; no node comes or goes. *)
Record aframe (off : Z) (s : astore) (tr : Z) (l : list Z) (s' : astore) : Prop := {
  af_dom : dom (anodes s') = dom (anodes s);
  af_trees tr' : tr' ≠ tr → atrees s' !! tr' = atrees s !! tr';
  af_nodes n : n ∉ map (λ v, AVL_DATA2NODE v off) l → anodes s' !! n = anodes s !! n }.

Lemma aframe_refl off s tr l : aframe off s tr l s.
Proof. done. Qed.

(** The nodes of the tree are those of its data. *)
Lemma nodes_of_contents off T :
  Forall valid_ptr (elems T) → map (λ v, AVL_DATA2NODE v off) (contents off T) = elems T.
Proof.
  unfold contents. rewrite map_map. induction 1 as [|x l Hx _ IH]; [done|]. simpl. rewrite IH. f_equal.
  by apply data_node.
Qed.

Lemma add_aset s tr off l v (Q : Z → astore → Prop) :
  is_aset s tr off l → has_node s off v →
  (∀ s', is_aset s' tr off (add v l).2 → aframe off s tr (v :: l) s' → Q (add v l).1 s') →
  wp (avl_tree_add tr v) s Q.
Proof.
  intros Hl (Hv0 & Hvn & Hdn & Hnd) HQ. pose proof Hl as (Htr & H0 & h & T & Hs & <- & ->).
  unfold avl_tree_add. apply wp_bind. eapply avl_tree_find_spec; [done|]. intros r Hr.
  pose proof Hr as [(x & Hx & E & ->)|(c & <- & Hpl & ->)]; cbn [fst snd].
  - assert (data (avl_offset h) x ∈ contents (avl_offset h) T) as Hin by by apply list_elem_of_fmap_2.
    rewrite (proj2 (Z.eqb_neq _ NULL)) by (intros E'; rewrite E' in Hin; done). cbn [negb].
    apply wp_ret. unfold add in HQ. rewrite decide_False in HQ; [by apply (HQ s); [|apply aframe_refl]|].
    intros En. apply (not_elem_of_nil (data (avl_offset h) x)). rewrite <- En.
    by apply list_elem_of_filter.
  - destruct (split_place (map (data (avl_offset h)) (before c)) (map (data (avl_offset h)) (after c)) v)
      as (Hl1 & Hl2 & Hl3); [by apply Forall_map, Hpl..|].
    apply wp_bind. eapply avl_tree_insert_spec; [done|done|done|done|done| |done|].
    + rewrite elems_plug. simpl. intros Hin%elem_of_app. destruct Hpl as [Hb Ha].
      assert (cmp_lt v v) as Hlt; [|unfold cmp_lt in Hlt; rewrite cmp_refl in Hlt; lia].
      destruct Hin as [Hin|Hin].
      * apply (proj1 (Forall_forall _ _) Hb) in Hin. by rewrite Hdn in Hin.
      * apply (proj1 (Forall_forall _ _) Ha) in Hin. by rewrite Hdn in Hin.
    + intros s' (Hs' & [Hd Ho] & Et) He. apply wp_ret.
      assert (add v (contents (avl_offset h) (plug c Leaf)) =
        (v, contents (avl_offset h) (grow c (Node Leaf (AVL_DATA2NODE v (avl_offset h)) 0 Leaf)))) as Ea.
      { unfold add. rewrite contents_plug. simpl. rewrite Hl1, Hl2, decide_True by done.
        unfold contents. rewrite He, map_app. simpl. by rewrite Hdn. }
      rewrite Ea in HQ. apply HQ.
      2: { split; [done|by intros tr' Hne; rewrite Et, lookup_insert_ne|]. intros n Hn. apply Ho.
        rewrite <- (nodes_of_contents (avl_offset h) _ (as_valid _ _ _ _ (aset_state _ _ _ _ Hs))). exact Hn. }
      split_and!; [done| |by eexists _, _].
      unfold contents. rewrite He, map_app. simpl. rewrite Hdn.
      rewrite contents_plug in H0. simpl in H0. intros [?|[?|?]%elem_of_cons]%elem_of_app; [|done|];
        apply H0, elem_of_app; auto.
Qed.

(** A search finds [v] itself exactly if it is there. *)
Lemma found_self off v T r :
  StronglySorted cmp_lt (contents off T) → v ≠ NULL → found off v T r → r.1 = v ↔ v ∈ contents off T.
Proof.
  intros Hs H0 [(x & Hx & E & ->)|(c & <- & [Hb Ha] & ->)]; simpl.
  - assert (data off x ∈ contents off T) as Hin by by apply list_elem_of_fmap_2.
    split; [by intros <-|]. intros Hv. by eapply sorted_equal.
  - split; [done|]. rewrite contents_plug. simpl. intros [Hin|Hin]%elem_of_app; exfalso.
    + apply list_elem_of_fmap in Hin as (z & -> & Hz). apply (proj1 (Forall_forall _ _) Hb) in Hz.
      unfold cmp_lt in Hz. rewrite cmp_refl in Hz. lia.
    + apply list_elem_of_fmap in Hin as (z & -> & Hz). apply (proj1 (Forall_forall _ _) Ha) in Hz.
      unfold cmp_lt in Hz. rewrite cmp_refl in Hz. lia.
Qed.

Lemma remove_aset s tr off l v tmp (Q : Z → astore → Prop) :
  is_aset s tr off l → tmp ∉ dom (anodes s) → valid_ptr tmp →
  (∀ s', is_aset s' tr off (remove v l).2 → aframe off s tr l s' → Q (remove v l).1 s') →
  wp (avl_tree_remove tr v tmp) s Q.
Proof.
  intros Hl Htmp Hvt HQ. pose proof Hl as (Htr & H0 & h & T & Hs & <- & ->).
  pose proof Hs as [Hst Ha Hso Hct]. set (off := avl_offset h) in *.
  assert (v ∉ contents off T → wp (mret NULL) s (λ r s', wp
    (modify (λ s, AStore (delete tmp (anodes s)) (atrees s));; mret r) s' Q)) as Hnone.
  { intros Hn. unfold remove in HQ. rewrite decide_False in HQ by done. apply wp_ret, wp_bind, wp_modify, wp_ret.
    apply not_elem_of_dom in Htmp. rewrite delete_id by done. destruct s. by apply HQ. }
  unfold avl_tree_remove, remove_body. apply wp_bind, wp_bind, wp_ASSERT; [by rewrite (proj2 (Z.eqb_neq _ _))|].
  apply wp_bind. destruct (Z.eqb_spec v NULL) as [->|Hv].
  { apply wp_ret. by apply Hnone. }
  eapply avl_tree_find_spec; [done|]. intros r Hr. apply (found_self _ _ _ _ Hso Hv) in Hr.
  cbn [orb]. destruct (Z.eqb_spec r.1 v) as [E|E]; cbn [negb]; fold off in Hr.
  2: { apply Hnone. by rewrite <- Hr. }
  clear Hnone. assert (v ∈ contents off T) as Hin by by apply Hr.
  unfold remove in HQ. rewrite decide_True in HQ by done. cbn [fst snd] in HQ.
  apply list_elem_of_fmap in Hin as (x & Ex & Hx).
  assert (valid_ptr x) as Hvx by (apply (proj1 (Forall_forall _ _) (as_valid _ _ _ _ Hst)), Hx).
  apply wp_bind. eapply wp_ld_tree; [apply Hst|]. fold off.
  assert (AVL_DATA2NODE v off = x) as -> by (rewrite Ex; by apply data_node).
  destruct (elems_split _ _ Hx) as (c & lt & b & rt & ET). subst T.
  apply wp_bind. eapply remove_node; [done|done|done|done|done|].
  intros T' s1 Ha' (l1 & l2 & E1 & E2) Hs1 Hd1 Ho1 Et1.
  apply wp_ret, wp_bind, wp_modify, wp_ret. clear E Hr. subst v.
  unfold contents in *. rewrite E1, map_app in *. simpl in *.
  rewrite without_middle in HQ by by apply sorted_NoDup.
  assert (StronglySorted cmp_lt (map (data off) l1 ++ map (data off) l2)) as Hso'.
  { apply sorted_app in Hso as (? & [? _]%StronglySorted_inv & H12). apply sorted_app.
    split_and!; [done|done|]. intros y z Hy Hz. apply H12; [done|]. by apply list_elem_of_further. }
  apply HQ.
  2: { split; cbn [anodes atrees].
    - by rewrite dom_delete_L.
    - intros tr' Hne. rewrite Et1. by apply lookup_insert_ne.
    - intros n Hn. destruct (decide (n = tmp)) as [->|Hnt].
      + rewrite lookup_delete_eq. by apply not_elem_of_dom in Htmp.
      + rewrite lookup_delete_ne by done. apply Ho1. apply not_elem_of_cons. split; [done|].
        pose proof (nodes_of_contents off _ (as_valid _ _ _ _ Hst)) as En. unfold contents in En.
        rewrite E1, map_app in En. simpl in En. by rewrite <- En. }
  split_and!; [done| |].
  { intros Hin. apply H0. apply elem_of_app in Hin as [?|?]; apply elem_of_app; [by left|].
    right. by apply list_elem_of_further. }
  exists (header h T'), T'. split_and!; [|done|unfold contents; by rewrite E2, map_app].
  split; [|done| |done].
  - destruct Hs1 as [Hh1 Hr1 Ht1 Hn1 Hv1]. split; cbn [atrees anodes]; [done|done| |done|done].
    eapply tree_at_frame; [|exact Ht1]. intros z Hz. apply lookup_delete_ne. intros <-.
    apply Htmp. eapply tree_at_dom; [apply Hst|]. rewrite E1. rewrite E2 in Hz.
    apply elem_of_app in Hz as [?|?]; apply elem_of_app; [by left|]. right. by apply list_elem_of_further.
  - unfold contents. simpl. by rewrite E2, map_app.
Qed.

(** The outermost data. *)
Lemma outer_first off l : NULL ∉ l →
  (let n := outer false l NULL in if negb (n =? NULL) then data off n else NULL) = first (map (data off) l).
Proof.
  intros H0. destruct l as [|x l]; [done|].
  assert (x ≠ NULL) by (intros ->; apply H0, list_elem_of_here).
  change (outer false (x :: l) NULL) with x. cbv zeta. by rewrite (proj2 (Z.eqb_neq x NULL)).
Qed.

Lemma outer_final off l : NULL ∉ l →
  (let n := outer true l NULL in if negb (n =? NULL) then data off n else NULL) = final (map (data off) l).
Proof.
  intros H0. destruct l as [|x l _] using rev_ind; [done|].
  assert (x ≠ NULL) by (intros ->; apply H0, elem_of_app; right; apply list_elem_of_here).
  unfold outer, final. rewrite map_app. cbn [map]. rewrite !last_snoc. cbv zeta. cbn [default from_option id].
  by rewrite (proj2 (Z.eqb_neq x NULL)).
Qed.

Lemma outermost_aset s tr off l (e : bool) (Q : Z → astore → Prop) :
  is_aset s tr off l → Q (if e then final l else first l) s →
  wp (h ← ld_tree tr; fuel ← gets afuel; prev ← outermost fuel (avl_root h) NULL (Z.b2z e);
      mret (if negb (prev =? NULL) then AVL_NODE2DATA prev (avl_offset h) else NULL)) s Q.
Proof.
  intros (Htr & H0 & h & T & Hs & <- & ->) HQ. destruct Hs as [Hst _ _ _].
  pose proof (elems_fuel _ _ _ _ Hst). pose proof (height_elems T).
  destruct Hst as [Hh Hr Ht Hnd Hv].
  apply wp_bind. eapply wp_ld_tree; [done|]. apply wp_bind, wp_gets, wp_bind. rewrite Hr.
  pose proof (valid_not_null _ Hv). unfold contents in HQ.
  eapply wp_outermost; [done|done|lia|]. apply wp_ret.
  destruct e; [by rewrite <- outer_final in HQ|by rewrite <- outer_first in HQ].
Qed.

Lemma first_aset s tr off l (Q : Z → astore → Prop) :
  is_aset s tr off l → Q (first l) s → wp (avl_tree_first tr) s Q.
Proof. apply (outermost_aset s tr off l false). Qed.

Lemma last_aset s tr off l (Q : Z → astore → Prop) :
  is_aset s tr off l → Q (final l) s → wp (avl_tree_last tr) s Q.
Proof. apply (outermost_aset s tr off l true). Qed.

Lemma numnodes_aset s tr off l (Q : Z → astore → Prop) :
  is_aset s tr off l → Q (Z.of_nat (length l)) s → wp (avl_tree_numnodes tr) s Q.
Proof.
  intros (Htr & H0 & h & T & Hs & <- & ->) HQ. unfold avl_tree_numnodes.
  apply wp_bind, wp_ASSERT; [by rewrite (proj2 (Z.eqb_neq _ _))|].
  apply wp_bind. eapply wp_ld_tree; [apply Hs|]. apply wp_ret. rewrite (aset_count _ _ _ _ Hs).
  unfold contents in HQ. by rewrite length_map in HQ.
Qed.

(** The neighbours of [v], which need not be in the list. *)
Definition next_to (d : bool) (v : Z) (l : list Z) : Z :=
  if d then first (greater v l) else final (lesser v l).

Lemma neighbour_data off d l1 l2 : NULL ∉ l1 → NULL ∉ l2 →
  (let n := neighbour d l1 l2 in if n =? NULL then NULL else AVL_NODE2DATA n off) =
  if d then first (map (data off) l2) else final (map (data off) l1).
Proof.
  intros H1 H2. unfold neighbour. destruct d.
  - rewrite <- outer_first by done. cbv zeta. by destruct (_ =? _).
  - rewrite <- outer_final by done. cbv zeta. by destruct (_ =? _).
Qed.

Lemma walk_aset s tr off l v d (Q : Z → astore → Prop) :
  is_aset s tr off l → v ∈ l → Q (next_to d v l) s → wp (avl_tree_walk tr v (Z.b2z d)) s Q.
Proof.
  intros (Htr & H0 & h & T & Hs & <- & ->) Hin HQ. destruct Hs as [Hst _ Hso _].
  pose proof (valid_not_null _ (as_valid _ _ _ _ Hst)) as Hnn.
  apply list_elem_of_fmap in Hin as (x & -> & Hx).
  destruct (elems_split _ _ Hx) as (c & lt & b & rt & ->).
  destruct (as_mk d (Node lt x b rt) ltac:(done)) as (x' & b' & t & o & Em).
  assert (x' = x) as -> by (by destruct d; inversion Em). rewrite Em in *.
  eapply walk_mk; [done|]. rewrite <- (neighbour_mk c d t o). cbv zeta.
  rewrite elems_plug, elems_mk in Hnn. unfold contents in *. rewrite elems_plug, elems_mk in Hso, HQ.
  assert (before c ++ (if d then elems o ++ x :: elems t else elems t ++ x :: elems o) ++ after c =
    (before c ++ if d then elems o else elems t) ++ x :: (if d then elems t else elems o) ++ after c) as E
    by (destruct d; by rewrite <- !app_assoc).
  rewrite E in *. clear E. apply not_elem_of_app in Hnn as [Hn1 [_ Hn2]%not_elem_of_cons].
  rewrite neighbour_data by done. rewrite map_app in Hso, HQ. simpl in Hso, HQ. unfold next_to in HQ.
  destruct (split_self _ (data (avl_offset h) x) _ Hso) as (El & Eg & _).
  by destruct d; [rewrite Eg in HQ|rewrite El in HQ].
Qed.

Lemma nearest_aset s tr off l v d (Q : Z → astore → Prop) :
  is_aset s tr off l → equals v l = [] → Q (next_to d v l) s →
  wp (r ← avl_tree_find tr v; avl_tree_nearest tr r.2 (Z.b2z d)) s Q.
Proof.
  intros (Htr & H0 & h & T & Hs & <- & ->) He HQ. apply wp_bind.
  eapply avl_tree_find_spec; [done|]. intros r [(x & Hx & E & _)|(c & <- & Hpl & ->)].
  { exfalso. apply (not_elem_of_nil (data (avl_offset h) x)). rewrite <- He.
    apply list_elem_of_filter. split; [done|]. by apply list_elem_of_fmap_2. }
  destruct Hs as [Hst _ _ _]. pose proof Hst as [Hh Hr Ht Hnd Hv].
  unfold avl_tree_nearest. cbn [snd ix_node ix_child]. apply wp_bind. eapply wp_ld_tree; [done|].
  assert (next_to d v (contents (avl_offset h) (plug c Leaf)) =
    let n := neighbour d (before c) (after c) in
    if n =? NULL then NULL else AVL_NODE2DATA n (avl_offset h)) as En.
  { pose proof (valid_not_null _ Hv) as Hn0. rewrite elems_plug in Hn0. simpl in Hn0.
    apply not_elem_of_app in Hn0 as [? ?]. rewrite neighbour_data by done.
    rewrite contents_plug. simpl. unfold next_to.
    destruct (split_place (map (data (avl_offset h)) (before c)) (map (data (avl_offset h)) (after c)) v)
      as (-> & -> & _); [by apply Forall_map, Hpl..|]. done. }
  rewrite En in HQ. clear En.
  destruct c as [|[e x b o] c]; cbn [cparent cdir fx fd].
  - change (NULL =? NULL) with true. cbv iota. apply wp_bind, wp_ASSERT; [by rewrite Hr|].
    apply wp_ret. by destruct d.
  - assert (x ≠ NULL) as Hx.
    { apply valid_ne, (proj1 (Forall_forall _ _) Hv). rewrite elems_plug_perm. simpl. apply list_elem_of_here. }
    rewrite (proj2 (Z.eqb_neq x NULL)) by done. destruct (Z.eqb_spec (Z.b2z e) (Z.b2z d)) as [E|E]; cbn [negb].
    + assert (e = d) as -> by (by destruct e, d).
      eapply walk_mk; [exact Hst|]. rewrite decide_True by done. cbv zeta in HQ |- *.
      replace (up (negb d) c) with
        (neighbour d (before (Frame d x b o :: c)) (after (Frame d x b o :: c))); [done|].
      unfold neighbour. destruct d; simpl; [by rewrite up_after|by rewrite app_nil_r, up_before].
    + apply wp_ret. cbv zeta in HQ.
      replace (neighbour d _ _) with x in HQ; [by rewrite (proj2 (Z.eqb_neq x NULL)) in HQ|].
      unfold neighbour, outer. destruct d, e; try done. simpl. by rewrite app_assoc, last_snoc.
Qed.

End ordered.

Section laws.
Context `{C : AvlClient} `{!AvlLaws C}.

(** Around an element that is equal to [v]. *)
Lemma split_equal l1 w l2 v :
  StronglySorted cmp_lt (l1 ++ w :: l2) → avl_compare v w = 0 →
  lesser v (l1 ++ w :: l2) = l1 ∧ greater v (l1 ++ w :: l2) = l2 ∧ equals v (l1 ++ w :: l2) = [w].
Proof.
  intros (_ & [_ H2]%StronglySorted_inv & H1)%sorted_app E.
  assert (∀ u, avl_compare v u = avl_compare w u) as Ev by (intros; by apply cmp_equal).
  assert (∀ u, avl_compare u v = avl_compare u w) as Ev'.
  { intros u. rewrite (cmp_flip v u), (cmp_flip w u), Ev. done. }
  destruct (split_place l1 l2 v) as (Hl & Hg & He).
  { apply Forall_forall. intros u Hu. unfold cmp_lt. rewrite Ev'. apply H1; [done|].
    apply list_elem_of_here. }
  { eapply Forall_impl; [exact H2|]. intros u. unfold cmp_lt. by rewrite Ev. }
  unfold lesser, greater, equals in *. rewrite filter_app in Hl, Hg, He. rewrite !filter_app, !filter_cons.
  rewrite (decide_False (P := cmp_lt w v)) by (unfold cmp_lt; rewrite Ev', cmp_refl; lia).
  rewrite (decide_False (P := cmp_lt v w)) by (unfold cmp_lt; rewrite Ev, cmp_refl; lia).
  rewrite decide_True by done. split_and!; [done|done|].
  apply app_nil in He as [-> ->]. done.
Qed.

Lemma found_equals off v T r :
  StronglySorted cmp_lt (contents off T) → found off v T r → r.1 = first (equals v (contents off T)).
Proof.
  intros Hs [(x & Hx & E & ->)|(c & <- & [Hb Ha] & ->)]; simpl.
  - destruct (list_elem_of_split _ _ Hx) as (l1 & l2 & Hl). unfold contents in *. rewrite Hl in *.
    rewrite map_app in *. simpl in *.
    by destruct (split_equal _ _ _ _ Hs E) as (_ & _ & ->).
  - rewrite contents_plug. simpl.
    by destruct (split_place (map (data off) (before c)) (map (data off) (after c)) v)
      as (_ & _ & ->); [by apply Forall_map..|].
Qed.

Lemma find_aset s tr off l v (Q : Z * aindex → astore → Prop) :
  is_aset s tr off l →
  (∀ r, r.1 = first (equals v l) → Q r s) → wp (avl_tree_find tr v) s Q.
Proof.
  intros (_ & _ & h & T & Hs & <- & ->) HQ. eapply avl_tree_find_spec; [done|].
  intros r Hr. apply HQ. apply found_equals; [apply Hs|done].
Qed.

(** ** The abstract machine *)

Inductive aop :=
  | AAdd (v : Z) | ARemove (v : Z) | AFind (v : Z) | AFirst | ALast | ANumnodes
  | AWalk (v : Z) (d : bool) | ANearest (v : Z) (d : bool).

(** The operations on the tree of [tr], removal with its local node at [tmp]. *)
Definition aop_run (tr tmp : Z) (op : aop) : M astore Z :=
  match op with
  | AAdd v => avl_tree_add tr v
  | ARemove v => avl_tree_remove tr v tmp
  | AFind v => r ← avl_tree_find tr v; mret r.1
  | AFirst => avl_tree_first tr
  | ALast => avl_tree_last tr
  | ANumnodes => avl_tree_numnodes tr
  | AWalk v d => avl_tree_walk tr v (Z.b2z d)
  | ANearest v d => r ← avl_tree_find tr v; avl_tree_nearest tr r.2 (Z.b2z d)
  end.

(** The same on ordered lists; walks start at an element, and insertion points are of
    elements that are not there. *)
Definition aop_spec (op : aop) (l : list Z) : option (Z * list Z) :=
  match op with
  | AAdd v => Some (add v l)
  | ARemove v => Some (remove v l)
  | AFind v => Some (first (equals v l), l)
  | AFirst => Some (first l, l)
  | ALast => Some (final l, l)
  | ANumnodes => Some (Z.of_nat (length l), l)
  | AWalk v d => if decide (v ∈ l) then Some (next_to d v l, l) else None
  | ANearest v d => if decide (equals v l = []) then Some (next_to d v l, l) else None
  end.

(** Additions are of data that have a node; the local node is apart from all nodes. *)
Definition aop_ok (off tmp : Z) (s : astore) (op : aop) : Prop :=
  tmp ∉ dom (anodes s) ∧ valid_ptr tmp ∧
  match op with AAdd v => has_node s off v | _ => True end.

#[export] Instance aop_ok_dec off tmp s op : Decision (aop_ok off tmp s op).
Proof. unfold aop_ok, has_node. destruct op; apply _. Defined.

Definition akeep (s s' : astore) : Prop := dom (anodes s') = dom (anodes s).

#[export] Instance akeep_preorder : PreOrder akeep.
Proof. split; unfold akeep; [by intros ?|intros ???; congruence]. Qed.

Lemma aop_keep off tmp s s' op : akeep s s' → aop_ok off tmp s op → aop_ok off tmp s' op.
Proof. unfold akeep, aop_ok, has_node. intros ->. done. Qed.

Lemma aop_simulates tr off tmp :
  simulates (aop_run tr tmp) aop_spec (λ s, is_aset s tr off) (aop_ok off tmp) akeep.
Proof.
  intros s l op r l' Hl (Ht & Hv & Hop) Hspec.
  destruct op; simpl in *; try case_decide; try done;
    injection Hspec as Hspec; try (subst r l').
  - eapply add_aset; [done|done|]. intros s' Hl' [Hd _ _]. by rewrite Hspec in *.
  - eapply remove_aset; [done|done|done|]. intros s' Hl' [Hd _ _]. by rewrite Hspec in *.
  - apply wp_bind. eapply find_aset; [done|]. intros r Hr. by apply wp_ret.
  - by eapply first_aset.
  - by eapply last_aset.
  - by eapply numnodes_aset.
  - by eapply walk_aset.
  - by eapply nearest_aset.
Qed.
End laws.

(** ** The theorems *)

Section theorems.
Context `{C : AvlClient} `{!AvlLaws C}.

(** C2: an AVL tree refines the ordered list of its data: every sequence of additions,
    removals, searches, queries for the first and last element, walks to the neighbours
    of an element and queries for the neighbours of an insertion point runs to completion
    with the results of the list operations, and ends with a balanced, well-formed
    tree that holds the list in the order of the comparison, with the node counter
    right. *)
Theorem avl_refines ops s tr off tmp l rs l' :
  is_aset s tr off l → Forall (aop_ok off tmp s) ops →
  specs aop_spec ops l = Some (rs, l') →
  ∃ s', runs (aop_run tr tmp) ops s = Ok (rs, s') ∧ is_aset s' tr off l'.
Proof.
  intros Hl Hok Hspec.
  destruct (simulates_runs _ _ _ _ _ (aop_keep off tmp) (aop_simulates tr off tmp) ops s l rs l')
    as (s' & Hr & Hx & _); eauto.
Qed.


Lemma create_aset s tr off size (Q : unit → astore → Prop) :
  tr ≠ NULL → 0 ≤ off → off + sizeof_avl_tree_node ≤ size < 2 ^ 32 →
  (∀ s', is_aset s' tr off [] → anodes s' = anodes s → Q tt s') → wp (avl_tree_create tr size off) s Q.
Proof.
  intros Htr Hoff Hsz HQ. unfold sizeof_avl_tree_node in *.
  unfold avl_tree_create. apply wp_bind, wp_ASSERT; [by rewrite (proj2 (Z.eqb_neq _ _))|].
  apply wp_bind, wp_ASSERT; [by apply Z.ltb_lt; lia|].
  apply wp_bind, wp_ASSERT; [apply Z.leb_le; unfold sizeof_avl_tree_node; rewrite uwrap_small; lia|].
  apply wp_modify, HQ; [|done]. unfold is_aset. split_and!; [done|set_solver +|].
  exists (ATree NULL off 0 size), Leaf. split_and!; [|done|done].
  split; [|done|constructor|done]. split; cbn [atrees anodes]; [by rewrite lookup_insert_eq|..]; done || constructor.
Qed.

(** C34: a search visits at most [2 log2 (n + 1) + 1] of the [n] nodes: with that many
    turns of its loop, and the one that ends it, it comes to its result. *)
Theorem avl_find_logarithmic s tr off l v :
  is_aset s tr off l →
  ∃ h r, atrees s !! tr = Some h ∧
    find_loop (Z.to_nat (2 * Z.log2 (Z.of_nat (length l) + 1) + 2)) off v (avl_root h) NULL 0 s = Ok (r, s) ∧
    r.1 = first (equals v l).
Proof.
  intros (_ & _ & h & T & Hs & <- & ->). exists h. pose proof Hs as [Hst Ha Hso _].
  rewrite (as_root _ _ _ _ Hst).
  assert (height T < Z.of_nat (Z.to_nat
    (2 * Z.log2 (Z.of_nat (length (contents (avl_offset h) T)) + 1) + 2))) as Hf.
  { pose proof (Z.log2_nonneg (Z.of_nat (length (contents (avl_offset h) T)) + 1)).
    rewrite Z2Nat.id by lia. unfold contents. rewrite length_map.
    pose proof (avl_height_elems T Ha) as Hh. apply Z.log2_le_mono in Hh.
    pose proof (height_nonneg T).
    rewrite Z.log2_pow2 in Hh by (apply Z.div_pos; lia).
    pose proof (Z.mul_succ_div_gt (height T) 2 ltac:(lia)). lia. }
  destruct (wp_ok _ _ _ (find_loop_correct (avl_offset h) v T _ [] s tr h
    (λ r s', r.1 = first (equals v (contents (avl_offset h) T)) ∧ s' = s) Hst
    ltac:(by split; constructor) Hso Hf
    ltac:(intros r Hr; split; [by apply found_equals|done]))) as (r & s' & Hrun & Hr & ->).
  exists r. split_and!; [apply Hst|done|done].
Qed.

(** creating a tree makes it the empty set, whatever was at its address, and
    leaves every node alone; destroying a tree returns the number of its nodes, and
    stops the kernel unless there are none left. *)
Theorem avl_create_destroy s tr off size l :
  tr ≠ NULL → 0 ≤ off → off + sizeof_avl_tree_node ≤ size < 2 ^ 32 →
  (∃ s', avl_tree_create tr size off s = Ok (tt, s') ∧ is_aset s' tr off [] ∧ anodes s' = anodes s) ∧
  (is_aset s tr off l →
     avl_tree_destroy tr s = if decide (l = []) then Ok (0, s) else Panic).
Proof.
  intros Htr Hoff Hsz. unfold sizeof_avl_tree_node in *. split.
  - assert (wp (avl_tree_create tr size off) s (λ r s', r = tt ∧ is_aset s' tr off [] ∧ anodes s' = anodes s))
      as (r & s' & Hr & -> & Hs')%wp_ok; [by apply create_aset|by exists s'].
  - intros (_ & _ & h & T & [[Hh Hr Ht Hnd Hv] _ _ Hct] & <- & ->).
    unfold avl_tree_destroy, ASSERT, ld_tree, load, mbind, M_bind, mret, M_ret.
    rewrite (proj2 (Z.eqb_neq _ _)) by done. cbn [negb]. rewrite Hh.
    destruct (decide (contents (avl_offset h) T = [])) as [E|E].
    + apply map_eq_nil, elems_nil in E. subst T. simpl in Hct, Hr. by rewrite Hct, Hr.
    + rewrite (proj2 (Z.eqb_neq (avl_numnodes h) 0)); [done|]. rewrite Hct.
      unfold contents in E. destruct (elems T); [done|]. simpl. lia.
Qed.
End theorems.

(** One rotation step, at a node whose side [d] has become two higher than the
    other one, the stored balance being the sum that says so: it puts an AVL tree with
    the same data in the same order in the place of the subtree, keeps the rest of the
    tree, and tells with 1 that the subtree is as high as its higher side was, with 0
    that it is one higher than that. *)
Theorem avl_rotation_correct s tr h c d x b t o :
  avl_state s tr h (plug c (mk d x b t o)) → avl t → avl o → height t = height o + 2 →
  ∃ t' s', avl_tree_rotation tr x (2 * heavy d) s = Ok (height t + 1 - height t', s') ∧
    avl t' ∧ elems t' = elems (mk d x b t o) ∧ avl_state s' tr (root_set h (root (plug c t'))) (plug c t') ∧
    ∀ z, z ∉ elems (plug c (mk d x b t o)) → anodes s' !! z = anodes s !! z.
Proof.
  intros Hs Ht Ho Hh. destruct (rotate_avl d x t o Ht Ho Hh) as (Hcan & Ha & Hht & _).
  assert (wp (avl_tree_rotation tr x (2 * heavy d)) s (λ r s',
    r = z_flag (rotate d x t o).2 ∧ turns s tr h (plug c (mk d x b t o)) (plug c (rotate d x t o).1) s'))
    as (r & s' & Hr & -> & Hs')%wp_ok by (eapply wp_rotation; [done|done|by apply avl_bal|done]).
  exists (rotate d x t o).1, s'. split_and!.
  - rewrite Hr, Hht. do 2 f_equal. destruct (rotate d x t o).2; simpl; lia.
  - done.
  - by apply rotate_elems.
  - by eapply turns_state.
  - destruct Hs' as (m' & -> & _ & [_ Hout] & _). exact Hout.
Qed.

(** ** Examples *)

(** Data compared by their addresses. *)
#[export] Instance address_client : AvlClient := {| avl_compare := λ v w, Z.sgn (v - w) |}.

#[export] Instance address_laws : AvlLaws address_client.
Proof.
  split; [split|]; simpl; intros.
  - destruct (Z.sgn_spec (v - w)) as [[_ ->]|[[_ ->]|[_ ->]]]; lia.
  - rewrite <- Z.sgn_opp. f_equal. lia.
  - apply Z.sgn_neg_iff in H, H0. apply Z.sgn_neg_iff. lia.
  - apply Z.sgn_null_iff in H. f_equal. lia.
Qed.

(** Nodes, at offset 4 in the data at 10, 30, ... 130, and an empty tree at 1. *)
Definition example_nodes : astore := AStore
  (list_to_map (map (λ v, (v + 4, ANode 7 7 7 7 7)) [10; 30; 50; 70; 90; 110; 130]))
  (list_to_map [(1, ATree NULL 4 0 32)]).

Lemma example_empty : is_aset example_nodes 1 4 [].
Proof.
  split_and!; [done|by_decide|]. exists (ATree NULL 4 0 32), Leaf. split_and!; [|done|done].
  split; [|done|constructor|done]. split; [reflexivity|done|done|constructor|constructor].
Qed.

Lemma avl_refines_witness :
  ∃ s', runs (aop_run 1 1000) [AAdd 30; AAdd 10; AAdd 90; AAdd 50; AAdd 130; AAdd 110; AAdd 50; ARemove 30;
      ARemove 70; AFind 110; AFirst; ALast; ANumnodes; AWalk 90 true; AWalk 90 false; ANearest 100 true;
      ANearest 5 false] example_nodes =
    Ok ([30; 10; 90; 50; 130; 110; 0; 30; 0; 110; 10; 130; 5; 110; 50; 110; 0], s') ∧
    is_aset s' 1 4 [10; 50; 90; 110; 130].
Proof.
  apply (avl_refines _ example_nodes 1 4 1000 [] _ [10; 50; 90; 110; 130]).
  - exact example_empty.
  - by_decide.
  - vm_compute. reflexivity.
Defined.

(** The root 54 with 34 on the left, and 14 on the left of that: it leans. *)
Definition example_lean : tree := Node (Node (Node Leaf 14 0 Leaf) 34 (-1) Leaf) 54 (-1) Leaf.

Definition example_leaning : astore := AStore
  (list_to_map [(54, ANode 34 0 0 0 (-1)); (34, ANode 14 0 54 0 (-1)); (14, ANode 0 0 34 0 0)])
  (list_to_map [(1, ATree 54 4 3 32)]).

(** The same three nodes, balanced. *)
Definition example_even : tree := Node (Node Leaf 14 0 Leaf) 34 0 (Node Leaf 54 0 Leaf).

Definition example_balanced : astore := AStore
  (list_to_map [(34, ANode 14 54 0 0 0); (14, ANode 0 0 34 0 0); (54, ANode 0 0 34 1 0)])
  (list_to_map [(1, ATree 34 4 3 32)]).

Lemma example_aset : is_aset example_balanced 1 4 [10; 30; 50].
Proof.
  split; [done|split; [by_decide|]]. exists (ATree 34 4 3 32), example_even. split_and!; [|done|done].
  split; [|simpl; lia|repeat constructor|done].
  split; [reflexivity|done|by vm_compute|by_decide|by_decide].
Qed.

Lemma avl_find_logarithmic_witness :
  ∃ h r, atrees example_balanced !! 1 = Some h ∧
    find_loop (Z.to_nat (2 * Z.log2 (Z.of_nat 3 + 1) + 2)) 4 50 (avl_root h) NULL 0 example_balanced =
      Ok (r, example_balanced) ∧ r.1 = 50.
Proof. exact (avl_find_logarithmic example_balanced 1 4 [10; 30; 50] 50 example_aset). Defined.

Lemma avl_create_destroy_witness :
  (∃ s', avl_tree_create 1 32 4 example_balanced = Ok (tt, s') ∧ is_aset s' 1 4 [] ∧
     anodes s' = anodes example_balanced) ∧
  avl_tree_destroy 1 example_balanced = Panic.
Proof.
  destruct (avl_create_destroy example_balanced 1 4 32 [10; 30; 50]) as [H1 H2];
    [done|done|by unfold sizeof_avl_tree_node|].
  split; [exact H1|]. exact (H2 example_aset).
Defined.

Lemma avl_rotation_correct_witness :
  ∃ t' s', avl_tree_rotation 1 54 (-2) example_leaning = Ok (3 - height t', s') ∧
    avl t' ∧ elems t' = [14; 34; 54] ∧ avl_state s' 1 (root_set (ATree 54 4 3 32) (root t')) t' ∧
    ∀ z, z ∉ [14; 34; 54] → anodes s' !! z = anodes example_leaning !! z.
Proof.
  apply (avl_rotation_correct example_leaning 1 (ATree 54 4 3 32) [] false 54 (-1)
    (Node (Node Leaf 14 0 Leaf) 34 (-1) Leaf) Leaf); [|simpl; lia|done|done].
  split; [reflexivity|done|by vm_compute|by_decide|by_decide].
Defined.
