(* ===== verification/AvlIndex.v ===== *)
(** * Insertion points of AVL trees

    A client that keeps its data in a tree and in a list in the same order looks for the
    place of a new element in the tree, inserts there, and puts the element on the list next
    to the parent node of the place. What such a place is, in terms of the ordered data, and
    how trees are seen by clients whose comparison or whose other nodes change. *)

From stdpp Require Import gmap list sorting.
From S2P Require Import Prelude AvlPure AvlTree AvlTreeSpec AvlSet AvlRemove AvlOrdered.
#[local] Open Scope Z_scope.

(** ** Trees and their surroundings *)

(** The comparison matters on the data of the tree only. *)
Lemma sorted_client (C C' : AvlClient) l :
  (∀ v w, v ∈ l → w ∈ l → @avl_compare C' v w = @avl_compare C v w) →
  StronglySorted (@cmp_lt C) l → StronglySorted (@cmp_lt C') l.
Proof.
  intros HC Hso. revert HC. induction Hso as [|x l Hl IH Hx]; intros HC; constructor.
  - apply IH. intros v w ??. by apply HC; apply list_elem_of_further.
  - apply Forall_forall. intros y Hy. apply (proj1 (Forall_forall _ _) Hx) in Hy as Hxy.
    unfold cmp_lt in *. rewrite HC; set_solver.
Qed.

Lemma aset_client (C C' : AvlClient) s tr off l :
  (∀ v w, v ∈ l → w ∈ l → @avl_compare C' v w = @avl_compare C v w) →
  @is_aset C s tr off l → @is_aset C' s tr off l.
Proof.
  intros HC (Htr & H0 & h & T & [Hs Ha Hso Hc] & <- & ->). split_and!; [done|done|].
  exists h, T. split_and!; [|done|done]. split; [done|done| |done]. exact (sorted_client C C' _ HC Hso).
Qed.

Section frame.
Context `{C : AvlClient}.

(** A tree whose header and nodes are left alone. *)
Lemma aset_frame s s' tr off l :
  is_aset s tr off l → atrees s' !! tr = atrees s !! tr →
  (∀ v, v ∈ l → anodes s' !! AVL_DATA2NODE v off = anodes s !! AVL_DATA2NODE v off) → is_aset s' tr off l.
Proof.
  intros (Htr & H0 & h & T & [Hs Ha Hso Hc] & <- & ->) Et Hn. split_and!; [done|done|].
  exists h, T. split_and!; [|done|done]. split; [|done|done|done]. destruct Hs. split; rewrite ?Et; try done.
  eapply tree_at_frame; [|exact as_tree]. intros z Hz.
  specialize (Hn (data (avl_offset h) z)). unfold data at 2 3 in Hn.
  rewrite data_node in Hn by by apply (proj1 (Forall_forall _ _) as_valid).
  apply Hn. by apply list_elem_of_fmap_2.
Qed.

(** Another tree, whose data are others. *)
Lemma aset_apart off s tr l s' tr' l' :
  aframe off s tr l s' → tr' ≠ tr → (∀ v w, v ∈ l' → w ∈ l → AVL_DATA2NODE v off ≠ AVL_DATA2NODE w off) →
  is_aset s tr' off l' → is_aset s' tr' off l'.
Proof.
  intros [_ Ht Hn] Hne Hap Hl. eapply aset_frame; [done|by apply Ht|]. intros v Hv. apply Hn.
  intros (w & E & Hw)%list_elem_of_fmap. by apply (Hap v w).
Qed.

Lemma aset_in_nodes s tr off l v : is_aset s tr off l → v ∈ l → has_node s off v.
Proof.
  intros (_ & H0 & h & T & [[_ _ Ht _ Hv] _ _ _] & <- & ->) Hin.
  apply list_elem_of_fmap in Hin as Hx. destruct Hx as (x & -> & Hx).
  assert (valid_ptr x) as Hvx by by apply (proj1 (Forall_forall _ _) Hv).
  assert (AVL_DATA2NODE (data (avl_offset h) x) (avl_offset h) = x) as En by by apply data_node.
  unfold has_node. rewrite En. split_and!; [by intros E; rewrite E in Hin|done|done|]. by eapply tree_at_dom.
Qed.
End frame.

(** ** Places *)

Section place.
Context `{C : AvlClient} `{!AvlOrder C}.

Lemma aset_sorted s tr off l : is_aset s tr off l → StronglySorted cmp_lt l.
Proof. intros (_ & _ & h & T & [_ _ Hso _] & <- & ->). exact Hso. Qed.

(** The insertion point [ix] of [v] in the tree of [tr], with the data before and after. *)
Definition aplace (s : astore) (tr off v : Z) (l1 l2 : list Z) (ix : aindex) : Prop :=
  ∃ h c, avl_set s tr h (plug c Leaf) ∧ avl_offset h = off ∧ place off v c ∧
    ix = AIndex (cparent c) (cdir c) ∧ l1 = map (data off) (before c) ∧ l2 = map (data off) (after c).

(** A search finds an element that compares as equal, or the place. *)
Lemma wp_find_index s tr off l v (Q : Z * aindex → astore → Prop) :
  is_aset s tr off l →
  (∀ x ix, x ∈ l → x ≠ NULL → avl_compare v x = 0 → Q (x, ix) s) →
  (∀ l1 l2 ix, l = l1 ++ l2 → Forall (λ w, cmp_lt w v) l1 → Forall (cmp_lt v) l2 →
     aplace s tr off v l1 l2 ix → Q (NULL, ix) s) →
  wp (avl_tree_find tr v) s Q.
Proof.
  intros (Htr & H0 & h & T & Hs & <- & ->) H1 H2. eapply avl_tree_find_spec; [done|].
  intros r [(x & Hx & E & ->)|(c & <- & Hpl & ->)].
  - assert (data (avl_offset h) x ∈ contents (avl_offset h) T) as Hin by by apply list_elem_of_fmap_2.
    apply H1; [done|by intros E'; rewrite E' in Hin|done].
  - rewrite contents_plug in H2.
    apply (H2 (map (data (avl_offset h)) (before c)) (map (data (avl_offset h)) (after c)));
      [done|by apply Forall_map, Hpl..|by exists h, c].
Qed.

(** The parent node of the place is that of the next or of the last element around it. *)
Lemma place_parent s tr off v l1 l2 ix :
  aplace s tr off v l1 l2 ix →
  (ix_node ix = NULL ∧ l1 = [] ∧ l2 = []) ∨
  (ix_child ix = 0 ∧ ∃ p l, l2 = p :: l ∧ valid_ptr (ix_node ix) ∧ data off (ix_node ix) = p) ∨
  (ix_child ix = 1 ∧ ∃ p l, l1 = l ++ [p] ∧ valid_ptr (ix_node ix) ∧ data off (ix_node ix) = p).
Proof.
  intros (h & c & [[_ _ _ _ Hv] _ _ _] & <- & _ & -> & -> & ->).
  destruct c as [|[d x b o] c]; simpl; [by left|right].
  assert (valid_ptr x) as Hx.
  { apply (proj1 (Forall_forall _ _) Hv). rewrite elems_plug_perm. simpl. set_solver. }
  destruct d; simpl; [right|left].
  - split; [done|]. eexists _, _. split; [by rewrite !map_app, app_assoc|done].
  - split; [done|]. by eexists _, _.
Qed.

(** Insertion at the place. *)
Lemma wp_insert_place s tr off l1 l2 ix v (Q : unit → astore → Prop) :
  tr ≠ NULL → NULL ∉ l1 ++ l2 → aplace s tr off v l1 l2 ix → has_node s off v →
  (∀ s', is_aset s' tr off (l1 ++ v :: l2) → aframe off s tr (v :: l1 ++ l2) s' → Q tt s') →
  wp (avl_tree_insert tr v ix) s Q.
Proof.
  intros Htr H0 (h & c & Hs & <- & Hpl & -> & -> & ->) (Hv0 & Hvn & Hdn & Hnd) HQ.
  pose proof Hpl as [Hb Ha]. assert (contents (avl_offset h) (plug c Leaf) =
    map (data (avl_offset h)) (before c) ++ map (data (avl_offset h)) (after c)) as Ec
    by by rewrite contents_plug.
  eapply avl_tree_insert_spec; [done|done|done|done|done| |done|].
  - rewrite elems_plug. simpl.
    assert (∀ z, data (avl_offset h) z = v → ¬ cmp_lt (data (avl_offset h) z) v ∧ ¬ cmp_lt v (data (avl_offset h) z)) as Hirr.
    { intros z ->. unfold cmp_lt. rewrite cmp_refl. lia. }
    intros [Hin|Hin]%elem_of_app.
    + apply (proj1 (Forall_forall _ _) Hb) in Hin. by apply (proj1 (Hirr _ Hdn)).
    + apply (proj1 (Forall_forall _ _) Ha) in Hin. by apply (proj2 (Hirr _ Hdn)).
  - intros s' (Hs' & [Hd Ho] & Et) He. apply HQ.
    + split_and!; [done| |].
      * intros [?|[?|?]%elem_of_cons]%elem_of_app; [|done|]; apply H0, elem_of_app; auto.
      * eexists _, _. split_and!; [exact Hs'|done|]. unfold contents. rewrite He, map_app. simpl. by rewrite Hdn.
    + split; [done|by intros tr' Hne; rewrite Et, lookup_insert_ne|]. intros n Hn. apply Ho.
      rewrite <- (nodes_of_contents (avl_offset h) _ (as_valid _ _ _ _ (aset_state _ _ _ _ Hs))), Ec. exact Hn.
Qed.
End place.

(** The same place, to another client and for another element that compares alike. *)
Lemma aplace_client (C C' : AvlClient) s tr off v v' l1 l2 ix :
  (∀ w w', w ∈ l1 ++ l2 → w' ∈ l1 ++ l2 → @avl_compare C' w w' = @avl_compare C w w') →
  (∀ w, w ∈ l1 ++ l2 → @avl_compare C' w v' = @avl_compare C w v ∧ @avl_compare C' v' w = @avl_compare C v w) →
  @aplace C s tr off v l1 l2 ix → @aplace C' s tr off v' l1 l2 ix.
Proof.
  intros Hll Hv (h & c & [Hs Ha Hso Hc] & <- & [Hb Haf] & -> & -> & ->). exists h, c.
  split_and!; [|done| |done..].
  - split; [done|done| |done]. rewrite contents_plug in *. exact (sorted_client C C' _ Hll Hso).
  - split; apply Forall_forall; intros z Hz.
    + apply (proj1 (Forall_forall _ _) Hb) in Hz as H. unfold cmp_lt in *. rewrite (proj1 (Hv (data (avl_offset h) z) ltac:(set_solver))). exact H.
    + apply (proj1 (Forall_forall _ _) Haf) in Hz as H. unfold cmp_lt in *. rewrite (proj2 (Hv (data (avl_offset h) z) ltac:(set_solver))). exact H.
Qed.

