(* ===== verification/Sched.v ===== *)
(** * The scheduler: [kernel/scheduler.c]

    Ready threads wait in 128 queues by dynamic priority. The state of the model is the
    static data of the file, the list store of the queues, the threads (the fields the
    scheduler uses), the flags of processes, and the processor with the locks, for the
    one processor the kernel is built for. A thread is on a queue through the list node
    inside it. The assertions of debugging kernels are part of the model, as panics; the
    switch of the machine context is the change of the current thread. *)

From S2P Require Import Prelude Spinlock XList.
From stdpp Require Import gmap list.
#[local] Open Scope Z_scope.

(** ** Parameters *)

Definition HZ : Z := 250.

Definition THREAD_DEFAULT_QUANTA : Z := 60.
Definition THREAD_MINIMUM_QUANTA : Z := 20.
Definition THREAD_QUANTA_GRANULARITY : Z := 10.
Definition THREAD_NUM_PRIORITY_LEVELS : Z := 128.
Definition THREAD_LOWEST_PIORITY : Z := 0.

Definition SCHED_TICK_TYPES_COUNT : Z := 8.
Definition SCHED_TICK_TYPES_MASK : Z := SCHED_TICK_TYPES_COUNT - 1.
Definition SCHED_ESTIMATION_TICK : Z := SCHED_TICK_TYPES_COUNT - 1.
Definition SCHED_QUANTA_THRESHOLD2 : Z := 1.
Definition SCHED_FACTOR_BASE : Z := THREAD_DEFAULT_QUANTA.
Definition SCHED_FACTOR_A : Z := 200.
Definition SCHED_FACTOR_BTHR : Z := 50.
Definition SCHED_FACTOR_BMAX : Z := 8.
Definition SCHED_QUEUE_BONUS_THRESHOLD2 : Z := 4.
Definition SCHED_QUEUE_LOOKAHEAD_DEPTH : nat := 10.
Definition SCHED_MAX_THREAD_BONUS : Z := 8.
Definition SCHED_MAX_THREAD_PENALTY : Z := 8.

(** The conversions in the type of the argument, [w] bits wide and signed. *)
Definition SCHED_TICKS2MSEC (w a : Z) : Z := Z.quot (swrap w (a * (1000 + Z.rem 1000 HZ))) HZ.

Definition SCHED_MSEC2TICKS (a : Z) : Z := Z.quot (swrap 32 (a * HZ)) (1000 + Z.rem 1000 HZ).

Definition SCHED_POLICY_ORDINARY : Z := 0.
Definition SCHED_POLICY_INTERACTIVE : Z := 1.
Definition SCHED_POLICY_HW_HANDLER : Z := 5.
Definition SCHED_POLICY_INTERRUPT : Z := 6.

Definition THREAD_STATE_READY : Z := 0.
Definition THREAD_STATE_BIRTH : Z := 1.
Definition THREAD_STATE_DEATH : Z := 2.
Definition THREAD_STATE_RUNNING : Z := 3.
Definition THREAD_STATE_WAITING : Z := 4.
Definition THREAD_STATE_SLEEPING : Z := 5.
Definition THREAD_STATE_SUSPENDED : Z := 6.
Definition THREAD_STATE_DEAD : Z := 7.

Definition THREAD_FLAG_RESCHEDULE : Z := 1.

Definition PROCESS_FLAG_INTERACTIVE : Z := 1.

(** ** Data *)

(** [thread_t]: the fields the scheduler uses; [th_cpu] is the number of the processor
    the pointer designates, if it is not [NULL]. *)
Record thread := Thread {
  th_process : Z; th_cpu : option Z; th_state : Z; th_next_state : Z; th_flags : Z;
  th_preempt_count : Z; th_jiffies : Z; th_ijiffies : Z; th_policy : Z;
  th_s_prio : Z; th_d_prio : Z; th_sched_stamp : Z; th_carrots_sticks : Z }.

(** The static data of the file, with [runqueues[0].total_count] and [idle_threads[0]]. *)
Record sched := Sched {
  sc_lists : xstore; sc_cpu : cpu; sc_threads : gmap Z thread; sc_proc_flags : gmap Z Z;
  sched_ticks : Z; sched_lost_ticks : Z; sched_tick_type : Z; quanta : Z; shuffle_factor : Z;
  total_count : Z; idle_thread : Z; current_thread : Z }.

(** Addresses of the locks and queues; a thread's lock and list node are inside it. *)
Definition sched_lock : Z := 4.

Definition rq_lock : Z := 8.

Definition rq_queue (prio : Z) : Z := 20 + 12 * prio.

Definition thread_lock (th : Z) : Z := u32 (th + 12).

Definition sched_list_node (th : Z) : Z := u32 (th + 176).

Definition node_thread (n : Z) : Z := u32 (n - 176).

(** ** Access *)

Definition upd_lists x s := Sched x (sc_cpu s) (sc_threads s) (sc_proc_flags s) (sched_ticks s)
  (sched_lost_ticks s) (sched_tick_type s) (quanta s) (shuffle_factor s) (total_count s)
  (idle_thread s) (current_thread s).
Definition upd_cpu x s := Sched (sc_lists s) x (sc_threads s) (sc_proc_flags s) (sched_ticks s)
  (sched_lost_ticks s) (sched_tick_type s) (quanta s) (shuffle_factor s) (total_count s)
  (idle_thread s) (current_thread s).
Definition upd_threads x s := Sched (sc_lists s) (sc_cpu s) x (sc_proc_flags s) (sched_ticks s)
  (sched_lost_ticks s) (sched_tick_type s) (quanta s) (shuffle_factor s) (total_count s)
  (idle_thread s) (current_thread s).
Definition upd_ticks t l s := Sched (sc_lists s) (sc_cpu s) (sc_threads s) (sc_proc_flags s) t l
  (sched_tick_type s) (quanta s) (shuffle_factor s) (total_count s) (idle_thread s) (current_thread s).
Definition upd_tick_type x s := Sched (sc_lists s) (sc_cpu s) (sc_threads s) (sc_proc_flags s)
  (sched_ticks s) (sched_lost_ticks s) x (quanta s) (shuffle_factor s) (total_count s)
  (idle_thread s) (current_thread s).
Definition upd_params q f s := Sched (sc_lists s) (sc_cpu s) (sc_threads s) (sc_proc_flags s)
  (sched_ticks s) (sched_lost_ticks s) (sched_tick_type s) q f (total_count s)
  (idle_thread s) (current_thread s).
Definition upd_count x s := Sched (sc_lists s) (sc_cpu s) (sc_threads s) (sc_proc_flags s)
  (sched_ticks s) (sched_lost_ticks s) (sched_tick_type s) (quanta s) (shuffle_factor s) x
  (idle_thread s) (current_thread s).
Definition upd_idle x s := Sched (sc_lists s) (sc_cpu s) (sc_threads s) (sc_proc_flags s)
  (sched_ticks s) (sched_lost_ticks s) (sched_tick_type s) (quanta s) (shuffle_factor s)
  (total_count s) x (current_thread s).
Definition upd_current x s := Sched (sc_lists s) (sc_cpu s) (sc_threads s) (sc_proc_flags s)
  (sched_ticks s) (sched_lost_ticks s) (sched_tick_type s) (quanta s) (shuffle_factor s)
  (total_count s) (idle_thread s) x.

Abbreviation on_queues := (zoom sc_lists upd_lists).
Abbreviation on_cpu := (zoom sc_cpu upd_cpu).

Definition ld_thread (p : Z) : M sched thread := load (λ s, sc_threads s !! p).

Definition st_thread (p : Z) (f : thread → thread) : M sched unit := λ s,
  match sc_threads s !! p with
  | Some t => Ok (tt, upd_threads (<[p := f t]> (sc_threads s)) s)
  | None => Fault
  end.

Definition ld_proc_flags (p : Z) : M sched Z := load (λ s, sc_proc_flags s !! p).

Definition with_state st nx t := Thread (th_process t) (th_cpu t) st nx (th_flags t)
  (th_preempt_count t) (th_jiffies t) (th_ijiffies t) (th_policy t) (th_s_prio t) (th_d_prio t)
  (th_sched_stamp t) (th_carrots_sticks t).
Definition with_flags f t := Thread (th_process t) (th_cpu t) (th_state t) (th_next_state t) f
  (th_preempt_count t) (th_jiffies t) (th_ijiffies t) (th_policy t) (th_s_prio t) (th_d_prio t)
  (th_sched_stamp t) (th_carrots_sticks t).
Definition with_cpu c t := Thread (th_process t) c (th_state t) (th_next_state t) (th_flags t)
  (th_preempt_count t) (th_jiffies t) (th_ijiffies t) (th_policy t) (th_s_prio t) (th_d_prio t)
  (th_sched_stamp t) (th_carrots_sticks t).
Definition with_prio p t := Thread (th_process t) (th_cpu t) (th_state t) (th_next_state t)
  (th_flags t) (th_preempt_count t) (th_jiffies t) (th_ijiffies t) (th_policy t) (th_s_prio t) p
  (th_sched_stamp t) (th_carrots_sticks t).
Definition with_s_prio p t := Thread (th_process t) (th_cpu t) (th_state t) (th_next_state t)
  (th_flags t) (th_preempt_count t) (th_jiffies t) (th_ijiffies t) (th_policy t) p (th_d_prio t)
  (th_sched_stamp t) (th_carrots_sticks t).
Definition with_stamp x t := Thread (th_process t) (th_cpu t) (th_state t) (th_next_state t)
  (th_flags t) (th_preempt_count t) (th_jiffies t) (th_ijiffies t) (th_policy t) (th_s_prio t)
  (th_d_prio t) x (th_carrots_sticks t).
Definition with_jiffies j i t := Thread (th_process t) (th_cpu t) (th_state t) (th_next_state t)
  (th_flags t) (th_preempt_count t) j i (th_policy t) (th_s_prio t) (th_d_prio t)
  (th_sched_stamp t) (th_carrots_sticks t).
Definition with_carrots c t := Thread (th_process t) (th_cpu t) (th_state t) (th_next_state t)
  (th_flags t) (th_preempt_count t) (th_jiffies t) (th_ijiffies t) (th_policy t) (th_s_prio t)
  (th_d_prio t) (th_sched_stamp t) c.
Definition with_preempt c t := Thread (th_process t) (th_cpu t) (th_state t) (th_next_state t)
  (th_flags t) c (th_jiffies t) (th_ijiffies t) (th_policy t) (th_s_prio t) (th_d_prio t)
  (th_sched_stamp t) (th_carrots_sticks t).

Definition ASSERT_MSG (b : bool) : M sched unit := if b then mret tt else panic.

(** [thread->lock != 0] *)
Definition assert_locked (th : Z) : M sched unit :=
  l ← on_cpu (atomic_get (thread_lock th)); ASSERT_MSG (negb (l =? 0)).

Definition thread_lock_thread (th : Z) : M sched unit := on_cpu (spin_lock (thread_lock th)).

Definition thread_unlock_thread (th : Z) : M sched unit := on_cpu (spin_unlock (thread_lock th)).

Definition thread_get_current_thread : M sched Z := gets current_thread.

Definition thread_get_current_thread_locked : M sched Z :=
  th ← thread_get_current_thread; thread_lock_thread th;; mret th.

(** [rq->queue[prio].count] *)
Definition queue_count (prio : Z) : M sched Z := h ← on_queues (ld_list (rq_queue prio)); mret (xl_count h).

Definition count_threads (d : Z) : M sched unit := modify (λ s, upd_count (u32 (total_count s + d)) s).

(** ** Run queues *)

Definition rq_peek_head_thread (prio : Z) : M sched Z :=
  n ← on_queues (xlist_peek_first (rq_queue prio)); mret (node_thread n).

Definition rq_peek_next_thread (th : Z) : M sched Z :=
  n ← on_queues (ld_next (sched_list_node th));
  mret (if negb (n =? NULL) then node_thread n else NULL).

Definition rq_pop_head_thread (prio : Z) : M sched Z :=
  n ← on_queues (xlist_extract_first (rq_queue prio));
  count_threads (-1);;
  mret (node_thread n).

Definition rq_extract_thread (th : Z) : M sched Z :=
  t ← ld_thread th;
  on_queues (xlist_remove_unsafe (rq_queue (th_d_prio t)) (sched_list_node th));;
  count_threads (-1);;
  mret th.

Definition rq_put_thread (th : Z) : M sched unit :=
  t ← ld_thread th;
  when (match th_cpu t with Some n => negb (n =? 0) | None => true end)
    (st_thread th (with_cpu (Some 0)));;
  ASSERT_MSG (th_state t =? THREAD_STATE_READY);;
  nx ← on_queues (ld_next (sched_list_node th));
  pv ← on_queues (ld_prev (sched_list_node th));
  ASSERT_MSG ((nx =? NULL) && (pv =? NULL));;
  on_queues (xlist_add_last (rq_queue (th_d_prio t)) (sched_list_node th));;
  count_threads 1.

(** The policy that counts for a thread. *)
Definition policy_level (t : thread) : M sched Z :=
  if th_policy t =? SCHED_POLICY_INTERACTIVE then
    f ← ld_proc_flags (th_process t);
    mret (if Z.land f PROCESS_FLAG_INTERACTIVE =? 0 then SCHED_POLICY_ORDINARY else th_policy t)
  else mret (th_policy t).

Definition significant_thread (t1 t2 : Z) : M sched Z :=
  a ← ld_thread t1; pl1 ← policy_level a;
  b ← ld_thread t2; pl2 ← policy_level b;
  mret (if pl1 >=? pl2 then t1 else t2).

Definition sys_bonus : list Z := [0; 0; 0; 0; 0; 0; 0; 0; -1; -1].

Definition ord_bonus : list Z := [3; 2; 2; 1; 0; 0; -1; -2; -3; -3].

(** The index into the bonus arrays: tenths of the quantum used. *)
Definition quantum_tenth (t : thread) : Z :=
  let n := 10 in
  let ptyi := Z.quot (Z.quot (s32 (100 * s32 (th_ijiffies t - th_jiffies t))) (th_ijiffies t)) n in
  if ptyi <? 0 then 0 else if n <=? ptyi then n - 1 else ptyi.

(** The new value of [carrots_sticks]. *)
Definition carrots_value (t : thread) : Z :=
  let ptyi := Z.to_nat (quantum_tenth t) in
  if (th_policy t =? SCHED_POLICY_INTERRUPT) || (th_policy t =? SCHED_POLICY_HW_HANDLER)
  then sys_bonus !!! ptyi
  else
    let b := ord_bonus !!! ptyi in
    let c := s32 (th_carrots_sticks t + b) in
    let c := if b =? 0 then
               if 0 <? c then c - 1 else if c <? 0 then c + 1 else c
             else c in
    if SCHED_MAX_THREAD_BONUS <? c then SCHED_MAX_THREAD_BONUS
    else if c <? - SCHED_MAX_THREAD_PENALTY then - SCHED_MAX_THREAD_PENALTY
    else c.

Definition carrots_and_sticks (th : Z) : M sched Z :=
  t ← ld_thread th;
  if th_ijiffies t =? 0 then fault
  else st_thread th (with_carrots (carrots_value t));; mret (carrots_value t).

(** The priority a waiting thread has come to deserve. *)
Definition aged_prio (ticks_msec factor count : Z) (t : thread) : Z :=
  let queue_bonus := Z.shiftr count SCHED_QUEUE_BONUS_THRESHOLD2 in
  let new_prio := s32 (th_s_prio t + Z.quot (swrap 64 (ticks_msec - th_sched_stamp t)) factor +
                       queue_bonus + th_carrots_sticks t) in
  if THREAD_NUM_PRIORITY_LEVELS - 1 <? new_prio then THREAD_NUM_PRIORITY_LEVELS - 1 else new_prio.

(** One queue of the shuffle. *)
Definition shuffle_queue (ticks_msec prio : Z) : M sched unit :=
  count ← queue_count prio;
  if count =? 0 then mret tt
  else
    th ← rq_peek_head_thread prio;
    t ← ld_thread th;
    factor ← gets shuffle_factor;
    if factor =? 0 then fault
    else
      let new_prio := aged_prio ticks_msec factor count t in
      if th_d_prio t <? new_prio then
        rq_pop_head_thread prio;;
        st_thread th (with_prio new_prio);;
        rq_put_thread th
      else mret tt.

Fixpoint shuffle_loop (n : nat) (ticks_msec prio : Z) : M sched unit :=
  match n with
  | O => mret tt
  | S n =>
      if prio <? THREAD_NUM_PRIORITY_LEVELS - 1 then
        shuffle_queue ticks_msec prio;;
        shuffle_loop n ticks_msec (prio + SCHED_TICK_TYPES_COUNT)
      else mret tt
  end.

(** Sixteen steps of 8 pass the last queue. *)
Definition sched_shuffle_runqueue_head (tick_type : Z) : M sched unit :=
  ticks ← gets sched_ticks;
  shuffle_loop 17 (SCHED_TICKS2MSEC 64 ticks) tick_type.

(** ** Initialisation *)

Fixpoint init_queues (n : nat) (i : Z) : M sched unit :=
  match n with
  | O => mret tt
  | S n => on_queues (xlist_init (rq_queue i));; init_queues n (i + 1)
  end.

Definition sched_init_runqueue : M sched unit :=
  on_cpu (spin_init rq_lock);;
  modify (upd_count 0);;
  init_queues (Z.to_nat THREAD_NUM_PRIORITY_LEVELS) 0.

Definition scheduler_init : M sched Z := on_cpu (spin_init sched_lock);; mret NO_ERROR.

Definition scheduler_init_per_cpu : M sched Z := sched_init_runqueue;; mret NO_ERROR.

(** ** The scheduling lock *)

Definition sched_lock_acquire : M sched unit := on_cpu (spin_lock sched_lock).

Definition sched_lock_release : M sched unit := on_cpu (spin_unlock sched_lock).

Definition sched_lock_tryacquire : M sched Z := on_cpu (spin_trylock sched_lock).

(** ** The timer *)

(** New estimates of the quantum and of the shuffle factor. *)
Definition new_quanta (count : Z) : Z :=
  let q := s32 (u32 (THREAD_DEFAULT_QUANTA - Z.shiftr count SCHED_QUANTA_THRESHOLD2)) in
  if q <? THREAD_MINIMUM_QUANTA then THREAD_MINIMUM_QUANTA else q.

Definition new_shuffle_factor (count : Z) : Z :=
  let a := count / SCHED_FACTOR_A in
  let a := if a =? 0 then 1 else a in
  let b := if count =? 0 then SCHED_FACTOR_BMAX else SCHED_FACTOR_BTHR / count in
  let b := if SCHED_FACTOR_BMAX <? b then SCHED_FACTOR_BMAX else b in
  let b := if b =? 0 then 1 else b in
  u32 (a * SCHED_FACTOR_BASE) / b.

(** Is there a thread in a queue above [low]? [n] queues to go from [prio] down. *)
Fixpoint better_queue (n : nat) (prio low : Z) : M sched bool :=
  match n with
  | O => mret false
  | S n =>
      if low <? prio then
        c ← queue_count prio;
        if negb (c =? 0) then mret true else better_queue n (prio - 1) low
      else mret false
  end.

(** The quantum of the running thread: should it be rescheduled? *)
Definition check_running (run_th ticks_out : Z) : M sched bool :=
  t ← ld_thread run_th;
  if (th_preempt_count t =? 0) && (Z.land (th_flags t) THREAD_FLAG_RESCHEDULE =? 0) then
    idle ← gets idle_thread;
    let is_idle := idle =? run_th in
    let j := s32 (th_jiffies t - ticks_out) in
    when (negb is_idle) (st_thread run_th (with_jiffies (if j <=? 0 then 0 else j) (th_ijiffies t)));;
    t ← ld_thread run_th;
    resched ←
      (if negb is_idle && (j <=? 0) then mret true
       else if is_idle || (THREAD_QUANTA_GRANULARITY <=? SCHED_TICKS2MSEC 32 (s32 (th_ijiffies t - th_jiffies t)))
       then better_queue (Z.to_nat THREAD_NUM_PRIORITY_LEVELS) (THREAD_NUM_PRIORITY_LEVELS - 1) (th_d_prio t)
       else mret false);
    when resched (st_thread run_th (with_flags (Z.lor (th_flags t) THREAD_FLAG_RESCHEDULE)));;
    mret resched
  else mret false.

Definition scheduler_timer : M sched bool :=
  got ← sched_lock_tryacquire;
  if got =? 0 then
    modify (λ s, upd_ticks (sched_ticks s) (s32 (sched_lost_ticks s + 1)) s);; mret false
  else
    lost ← gets sched_lost_ticks;
    let ticks_out := s32 (lost + 1) in
    modify (λ s, upd_ticks (swrap 64 (sched_ticks s + ticks_out)) 0 s);;
    run_th ← thread_get_current_thread;
    on_cpu (spin_lock rq_lock);;
    modify (λ s, upd_tick_type (Z.land (sched_tick_type s + 1) SCHED_TICK_TYPES_MASK) s);;
    tt_ ← gets sched_tick_type;
    sched_shuffle_runqueue_head tt_;;
    when (tt_ =? SCHED_ESTIMATION_TICK)
      (modify (λ s, upd_params (new_quanta (total_count s)) (new_shuffle_factor (total_count s)) s));;
    resched ← check_running run_th ticks_out;
    on_cpu (spin_unlock rq_lock);;
    sched_lock_release;;
    mret resched.

(** ** Threads *)

Definition sched_add_idle_thread (th : Z) : M sched unit :=
  idle ← gets idle_thread;
  ASSERT_MSG (idle =? 0);;
  st_thread th (with_state THREAD_STATE_RUNNING THREAD_STATE_READY);;
  st_thread th (λ t, with_s_prio (-1) (with_prio (-1) t));;
  modify (upd_idle th).

Definition sched_add_thread (th : Z) : M sched unit :=
  assert_locked th;;
  t ← ld_thread th;
  ASSERT_MSG ((th_state t =? THREAD_STATE_BIRTH) || (th_state t =? THREAD_STATE_WAITING) ||
              (th_state t =? THREAD_STATE_SLEEPING) || (th_state t =? THREAD_STATE_SUSPENDED));;
  when (THREAD_NUM_PRIORITY_LEVELS - 1 <? th_s_prio t)
    (st_thread th (with_s_prio (THREAD_NUM_PRIORITY_LEVELS - 1)));;
  st_thread th (with_state THREAD_STATE_READY THREAD_STATE_RUNNING);;
  st_thread th (λ t, with_prio (th_s_prio t) t);;
  ticks ← gets sched_ticks;
  st_thread th (with_stamp (SCHED_TICKS2MSEC 64 ticks));;
  irqs_state ← on_cpu (spin_lock_irqsave rq_lock);
  rq_put_thread th;;
  on_cpu (spin_unlock_irqrstor rq_lock irqs_state).

Definition sched_remove_thread (th : Z) : M sched unit :=
  assert_locked th;;
  t ← ld_thread th;
  ASSERT_MSG (th_state t =? THREAD_STATE_READY);;
  match th_cpu t with
  | Some 0 =>
      irqs_state ← on_cpu (spin_lock_irqsave rq_lock);
      rq_extract_thread th;;
      on_cpu (spin_unlock_irqrstor rq_lock irqs_state)
  | _ => fault
  end.

Definition sched_capture_cpu : M sched Z :=
  th ← thread_get_current_thread;
  st_thread th (λ t, with_preempt (s32 (th_preempt_count t + 1)) t);;
  t ← ld_thread th; mret (th_preempt_count t).

Definition sched_release_cpu : M sched Z :=
  th ← thread_get_current_thread;
  t ← ld_thread th;
  let tmp := s32 (th_preempt_count t - 1) in
  let tmp := if tmp <? 0 then 0 else tmp in
  st_thread th (with_preempt tmp);; mret tmp.

(** ** Rescheduling *)

Definition sched_complete_context_switch : M sched unit :=
  th ← thread_get_current_thread;
  thread_unlock_thread th;;
  sched_lock_release;;
  on_cpu local_irqs_enable.

(** The walk along a queue for the most significant of its first threads; [n] is the
    counter of the loop before its test. *)
Fixpoint lookahead (n : nat) (next_thrd tmp_next : Z) : M sched Z :=
  match n with
  | O => mret next_thrd
  | S n =>
      tmp_next ← rq_peek_next_thread tmp_next;
      if negb (tmp_next =? NULL) && negb (Nat.eqb n 0) then
        next_thrd ← significant_thread next_thrd tmp_next;
        lookahead n next_thrd tmp_next
      else mret next_thrd
  end.

(** The search of the queues from [prio] down; [n] queues to go. *)
Fixpoint pick_thread (n : nat) (prio : Z) : M sched Z :=
  match n with
  | O => mret NULL
  | S n =>
      c ← queue_count prio;
      if c =? 0 then pick_thread n (prio - 1)
      else if 1 <? c then
        hd ← rq_peek_head_thread prio;
        th ← lookahead SCHED_QUEUE_LOOKAHEAD_DEPTH hd hd;
        rq_extract_thread th
      else rq_pop_head_thread prio
  end.

(** The dynamic priority of a thread that goes back to the queues. *)
Definition clamp_prio (p : Z) : Z :=
  if THREAD_NUM_PRIORITY_LEVELS - 1 <? p then THREAD_NUM_PRIORITY_LEVELS - 1
  else if p <? THREAD_LOWEST_PIORITY then THREAD_LOWEST_PIORITY else p.

(** What becomes of the current thread; [true]: it goes on running. *)
Definition put_current (curr : Z) : M sched bool :=
  t ← ld_thread curr;
  q ← gets quanta;
  if th_state t =? THREAD_STATE_RUNNING then
    st_thread curr (with_jiffies (SCHED_MSEC2TICKS q) (SCHED_MSEC2TICKS q));; mret true
  else if th_state t =? THREAD_STATE_READY then
    c ← carrots_and_sticks curr;
    st_thread curr (λ t, with_prio (clamp_prio (s32 (th_s_prio t + c))) t);;
    rq_put_thread curr;; mret false
  else if (th_state t =? THREAD_STATE_WAITING) || (th_state t =? THREAD_STATE_SLEEPING) ||
          (th_state t =? THREAD_STATE_SUSPENDED) || (th_state t =? THREAD_STATE_DEATH)
  then mret false
  else panic.

Definition arch_sched_context_switch (t_to : Z) : M sched unit := modify (upd_current t_to).

(** The end of a reschedule; [th]: the thread the search found. *)
Definition switch_to (th idle ticks : Z) : M sched unit :=
  on_cpu (spin_unlock rq_lock);;
  q ← gets quanta;
  next ← (if negb (th =? NULL) then
            st_thread th (with_jiffies (SCHED_MSEC2TICKS q) (SCHED_MSEC2TICKS q));; mret th
          else mret idle);
  thread_lock_thread next;;
  st_thread next (λ t, with_state THREAD_STATE_RUNNING (th_next_state t) t);;
  st_thread next (with_stamp (SCHED_TICKS2MSEC 64 ticks));;
  arch_sched_context_switch next;;
  sched_complete_context_switch.

Definition sched_reschedule : M sched unit :=
  l ← on_cpu (atomic_get sched_lock);
  ASSERT_MSG (negb (l =? 0));;
  curr ← thread_get_current_thread_locked;
  idle ← gets idle_thread;
  let is_idle := idle =? curr in
  on_cpu (spin_lock rq_lock);;
  ticks ← gets sched_ticks;
  st_thread curr (with_stamp (SCHED_TICKS2MSEC 64 ticks));;
  st_thread curr (λ t, with_flags (Z.ldiff (th_flags t) THREAD_FLAG_RESCHEDULE) t);;
  st_thread curr (λ t, with_state (th_next_state t) THREAD_STATE_READY t);;
  go_on ← (if negb is_idle then put_current curr else mret false);
  if (go_on : bool) then
    on_cpu (spin_unlock rq_lock);;
    thread_unlock_thread curr;;
    sched_lock_release;;
    on_cpu local_irqs_enable
  else
    thread_unlock_thread curr;;
    next ← pick_thread (Z.to_nat THREAD_NUM_PRIORITY_LEVELS) (THREAD_NUM_PRIORITY_LEVELS - 1);
    switch_to next idle ticks.
