(* ===== verification/SchedSpec.v ===== *)
(** * What the scheduler does

    The invariant of the run queues, and what the routines of Sched do to them. *)

From stdpp Require Import gmap list.
From S2P Require Import Prelude Spinlock XList Sched.
#[local] Open Scope Z_scope.

(** ** Queues by priority *)

Definition in_prio (p : Z) : Prop := 0 ≤ p < THREAD_NUM_PRIORITY_LEVELS.

(** A change of one queue. *)
Definition qset (p : Z) (l : list Z) (qs : Z → list Z) : Z → list Z :=
  λ q, if decide (q = p) then l else qs q.

(** All ready threads. *)
Definition ready (qs : Z → list Z) : list Z := seqZ 0 THREAD_NUM_PRIORITY_LEVELS ≫= qs.

Lemma qset_eq p l qs : qset p l qs p = l.
Proof. unfold qset. by rewrite decide_True. Qed.

Lemma qset_ne p l qs q : q ≠ p → qset p l qs q = qs q.
Proof. intros. unfold qset. by rewrite decide_False. Qed.

Lemma elem_of_ready qs th : th ∈ ready qs ↔ ∃ p, in_prio p ∧ th ∈ qs p.
Proof.
  unfold ready. rewrite list_elem_of_bind. unfold in_prio, THREAD_NUM_PRIORITY_LEVELS.
  setoid_rewrite elem_of_seqZ. naive_solver lia.
Qed.

Lemma ready_split p qs : in_prio p → ∃ l1 l2, ∀ l, ready (qset p l qs) = l1 ++ l ++ l2.
Proof.
  intros Hp. assert (p ∈ seqZ 0 THREAD_NUM_PRIORITY_LEVELS) as Hin
    by (apply elem_of_seqZ; unfold in_prio in Hp; lia).
  apply list_elem_of_split in Hin as (ps1 & ps2 & E).
  pose proof (NoDup_seqZ 0 THREAD_NUM_PRIORITY_LEVELS) as Hnd. rewrite E in Hnd.
  apply NoDup_middle in Hnd as (_ & H1 & H2).
  exists (ps1 ≫= qs), (ps2 ≫= qs). intros l. unfold ready. rewrite E, bind_app, bind_cons, qset_eq.
  assert (∀ ps, p ∉ ps → (ps ≫= qset p l qs) = (ps ≫= qs)) as Hps.
  { induction ps as [|q ps IH]; intros Hq; [done|]. apply not_elem_of_cons in Hq as [??].
    rewrite !bind_cons, qset_ne, IH by done. done. }
  by rewrite !Hps.
Qed.

Lemma qset_id p qs : ∀ q, qset p (qs p) qs q = qs q.
Proof. intros q. unfold qset. case_decide; congruence. Qed.

Lemma ready_ext qs qs' : (∀ p, qs p = qs' p) → ready qs = ready qs'.
Proof. intros E. unfold ready. induction (seqZ _ _) as [|p ps IH]; [done|]. by rewrite !bind_cons, E, IH. Qed.

Lemma ready_change p l qs : in_prio p → ∃ r, ready qs ≡ₚ qs p ++ r ∧ ready (qset p l qs) ≡ₚ l ++ r.
Proof.
  intros Hp. destruct (ready_split p qs Hp) as (l1 & l2 & E). exists (l1 ++ l2).
  rewrite <- (ready_ext (qset p (qs p) qs) qs) by apply qset_id. rewrite !E.
  split; solve_Permutation.
Qed.

(** ** The invariant *)

(** A thread structure lies within the address space. *)
Definition addr_ok (th : Z) : Prop := 0 < th ∧ th + 176 < 2 ^ 32.

(** [qs]: the threads of each queue, by address, in order. *)
Record sched_inv (s : sched) (qs : Z → list Z) : Prop := {
  si_lists p : in_prio p → is_xlist (sc_lists s) (rq_queue p) (map sched_list_node (qs p));
  si_ready p th : in_prio p → th ∈ qs p → ∃ t, sc_threads s !! th = Some t ∧
    th_state t = THREAD_STATE_READY ∧ th_d_prio t = p ∧ th_cpu t = Some 0;
  si_free th : th ∈ dom (sc_threads s) → th ∉ ready qs →
    nodes (sc_lists s) !! sched_list_node th = Some (ListElem NULL NULL);
  si_nodes th : th ∈ dom (sc_threads s) → is_Some (nodes (sc_lists s) !! sched_list_node th);
  si_addr th : th ∈ dom (sc_threads s) → addr_ok th;
  si_count : total_count s = Z.of_nat (length (ready qs));
  si_carrots th t : sc_threads s !! th = Some t →
    - SCHED_MAX_THREAD_PENALTY ≤ th_carrots_sticks t ≤ SCHED_MAX_THREAD_BONUS;
  si_procs th t : sc_threads s !! th = Some t → is_Some (sc_proc_flags s !! th_process t);
  si_quanta : THREAD_MINIMUM_QUANTA ≤ quanta s ≤ THREAD_DEFAULT_QUANTA;
  si_factor : 0 < shuffle_factor s }.

Lemma sched_list_node_ok th : addr_ok th → sched_list_node th = th + 176.
Proof. intros [??]. unfold sched_list_node. apply uwrap_small. lia. Qed.

Lemma node_thread_ok th : addr_ok th → node_thread (sched_list_node th) = th.
Proof.
  intros Ha. rewrite sched_list_node_ok by done. unfold node_thread. destruct Ha.
  replace (th + 176 - 176) with th by lia. apply uwrap_small. lia.
Qed.

Lemma sched_list_node_valid th : addr_ok th → valid_ptr (sched_list_node th).
Proof. intros Ha. rewrite sched_list_node_ok by done. destruct Ha. unfold valid_ptr. lia. Qed.

(** The state with other queues, threads and count. *)
Definition rq_state (x : xstore) (m : gmap Z thread) (c : Z) (s : sched) : sched :=
  upd_count c (upd_threads m (upd_lists x s)).

Lemma NoDup_ready s qs : sched_inv s qs → NoDup (ready qs).
Proof.
  intros Hs. unfold ready.
  assert (∀ p, p ∈ seqZ 0 THREAD_NUM_PRIORITY_LEVELS → in_prio p) as Hps
    by (intros p Hp%elem_of_seqZ; unfold in_prio; lia).
  pose proof (NoDup_seqZ 0 THREAD_NUM_PRIORITY_LEVELS) as Hnd. revert Hps Hnd.
  induction (seqZ 0 THREAD_NUM_PRIORITY_LEVELS) as [|p ps IH]; intros Hps Hnd;
    [constructor|]. apply NoDup_cons in Hnd as [Hp Hnd]. rewrite bind_cons. apply NoDup_app. split_and!.
  - pose proof (ix_nodup _ _ _ (si_lists _ _ Hs p (Hps p (list_elem_of_here _ _)))) as Hn.
    by eapply NoDup_fmap_1.
  - intros th Hth (q & Hq & Hin)%list_elem_of_bind.
    destruct (si_ready _ _ Hs p th) as (t & Ht & _ & Hd & _); [apply Hps, list_elem_of_here|done|].
    destruct (si_ready _ _ Hs q th) as (t' & Ht' & _ & Hd' & _);
      [apply Hps; by apply list_elem_of_further|done|].
    assert (p = q) as -> by congruence. done.
  - apply IH; [|done]. intros q Hq. apply Hps. by apply list_elem_of_further.
Qed.

Lemma ready_addr s qs th : sched_inv s qs → th ∈ ready qs → addr_ok th ∧ th ∈ dom (sc_threads s).
Proof.
  intros Hs (p & Hp & Hth)%elem_of_ready. destruct (si_ready _ _ Hs p th Hp Hth) as (t & Ht & _).
  apply elem_of_dom_2 in Ht. split; [by apply (si_addr _ _ Hs)|done].
Qed.

Lemma ready_bound s qs : sched_inv s qs → Z.of_nat (length (ready qs)) + 1 < 2 ^ 32.
Proof.
  intros Hs.
  assert (NoDup (1 :: map sched_list_node (ready qs)) ∧ Forall valid_ptr (1 :: map sched_list_node (ready qs)))
    as [Hn Hv].
  { pose proof (NoDup_ready _ _ Hs) as Hn. pose proof (λ th, ready_addr s qs th Hs) as Ha.
    split; constructor.
    - intros (th & E & Hth)%list_elem_of_fmap. destruct (Ha _ Hth) as [Hok _].
      rewrite sched_list_node_ok in E by done. destruct Hok. lia.
    - revert Hn Ha. induction (ready qs) as [|th l IH]; intros Hn Ha; simpl; [constructor|].
      apply NoDup_cons in Hn as [Hth Hn]. constructor.
      + intros (th' & E & Hth')%list_elem_of_fmap. apply Hth.
        rewrite !sched_list_node_ok in E by (apply Ha; set_solver). by assert (th = th') as -> by lia.
      + apply IH; [done|]. intros ??. apply Ha. by apply list_elem_of_further.
    - done.
    - apply Forall_map, Forall_forall. intros th Hth. apply sched_list_node_valid. by apply Ha. }
  pose proof (NoDup_valid_ptr_length _ Hn Hv) as Hl. simpl in Hl. rewrite length_map in Hl. lia.
Qed.

Lemma rq_queue_inj p q : rq_queue p = rq_queue q → p = q.
Proof. unfold rq_queue. lia. Qed.

Lemma node_inj th th' : addr_ok th → addr_ok th' → sched_list_node th = sched_list_node th' → th = th'.
Proof. intros H1 H2. rewrite !sched_list_node_ok by done. lia. Qed.

Lemma node_notin l th :
  addr_ok th → (∀ th', th' ∈ l → addr_ok th') → th ∉ l → sched_list_node th ∉ map sched_list_node l.
Proof.
  intros Ha Hl Hth (th' & E & Hin)%list_elem_of_fmap. apply Hth.
  by rewrite (node_inj th th') by auto.
Qed.

(** Queues other than [p] do not notice a change to [p] and to the nodes of [ths]. *)
Lemma other_queues s qs p q x ths :
  sched_inv s qs → xframe (sc_lists s) x (rq_queue p) (map sched_list_node ths) → in_prio q → q ≠ p →
  (∀ th, th ∈ ths → th ∈ dom (sc_threads s)) → (∀ th, th ∈ qs q → th ∉ ths) →
  is_xlist x (rq_queue q) (map sched_list_node (qs q)).
Proof.
  intros Hs Hx Hq Hne Hd Hdis. eapply is_xlist_frame; [exact Hx| | |by apply (si_lists _ _ Hs)].
  - intros E. by apply Hne, rq_queue_inj.
  - intros n (th & -> & Hth)%list_elem_of_fmap. apply node_notin; [| |by apply Hdis].
    + eapply ready_addr; [done|]. apply elem_of_ready. eauto.
    + intros th' Hth'. by apply (si_addr _ _ Hs), Hd.
Qed.

Lemma queue_disjoint s qs p q th : sched_inv s qs → in_prio p → in_prio q → th ∈ qs p → th ∈ qs q → p = q.
Proof.
  intros Hs Hp Hq H1 H2. destruct (si_ready _ _ Hs p th Hp H1) as (t & Ht & _ & Hd & _).
  destruct (si_ready _ _ Hs q th Hq H2) as (t' & Ht' & _ & Hd' & _). congruence.
Qed.

(** ** Putting a thread on a queue *)

(** What has to hold of a thread that is put. *)
Definition puttable (s : sched) (qs : Z → list Z) (th : Z) (t : thread) : Prop :=
  sc_threads s !! th = Some t ∧ th ∉ ready qs ∧ th_state t = THREAD_STATE_READY ∧ in_prio (th_d_prio t).

Lemma wp_rq_put_thread s qs th t (Q : unit → sched → Prop) :
  sched_inv s qs → puttable s qs th t →
  (∀ x c, let s' := rq_state x (<[th := with_cpu (Some 0) t]> (sc_threads s)) c s in
     sched_inv s' (qset (th_d_prio t) (qs (th_d_prio t) ++ [th]) qs) → Q tt s') →
  wp (rq_put_thread th) s Q.
Proof.
  intros Hs (Ht & Hth & Hst & Hp) HQ.
  assert (th ∈ dom (sc_threads s)) as Hd by by apply elem_of_dom_2 in Ht.
  pose proof (si_addr _ _ Hs _ Hd) as Haddr.
  unfold rq_put_thread. apply wp_bind. eapply wp_load; [done|].
  assert (∀ Q' : unit → sched → Prop, Q' tt (upd_threads (<[th := with_cpu (Some 0) t]> (sc_threads s)) s) →
    wp (when (match th_cpu t with Some n => negb (n =? 0) | None => true end)
      (st_thread th (with_cpu (Some 0)))) s Q') as Hcpu.
  { intros Q' HQ'. apply wp_when.
    - intros _. unfold wp, st_thread. by rewrite Ht.
    - intros E. replace (<[th := with_cpu (Some 0) t]> (sc_threads s)) with (sc_threads s) in HQ'.
      2: { symmetry. apply insert_id. rewrite Ht. destruct t as [? [n|] ???????????]; simpl in E; [|done].
           apply negb_false_iff, Z.eqb_eq in E. by subst. }
      by destruct s. }
  apply wp_bind, Hcpu. clear Hcpu. rewrite Hst. apply wp_bind, wp_ret.
  pose proof (si_free _ _ Hs _ Hd Hth) as Hn.
  apply wp_bind, wp_zoom. eapply wp_ld_next; [exact Hn|]. apply wp_bind, wp_zoom.
  eapply wp_ld_prev; [exact Hn|]. apply wp_bind, wp_ret. apply wp_bind, wp_zoom.
  set (p := th_d_prio t) in *.
  assert (∀ q, in_prio q → th ∉ qs q) as Hnq by (intros q Hq Hin; apply Hth, elem_of_ready; eauto).
  eapply wp_xlist_add_last; [by apply (si_lists _ _ Hs)| | | |].
  { apply node_notin; [done| |by apply Hnq].
    intros th' Hth'. eapply ready_addr; [done|]. apply elem_of_ready. eauto. }
  { by apply sched_list_node_valid. } { by eexists. }
  intros x Hx Hfr. apply wp_modify.
  pose proof (ready_bound _ _ Hs) as Hb. pose proof (si_count _ _ Hs) as Hc.
  destruct (ready_change p (qs p ++ [th]) qs Hp) as (r & Er & Er').
  assert (ready (qset p (qs p ++ [th]) qs) ≡ₚ th :: ready qs) as Hr by (rewrite Er', Er; solve_Permutation).
  apply HQ. change [sched_list_node th] with (map sched_list_node [th]) in Hx. rewrite <- map_app in Hx.
  change (sched_list_node th :: map sched_list_node (qs p)) with (map sched_list_node (th :: qs p)) in Hfr.
  split; cbn [rq_state upd_count upd_threads upd_lists sc_lists sc_threads total_count sc_proc_flags quanta
    shuffle_factor].
  - intros q Hq. destruct (decide (q = p)) as [->|Hne]; [by rewrite qset_eq|]. rewrite qset_ne by done.
    eapply other_queues; [done|exact Hfr|done|done| |].
    + intros th' [->|Hin]%elem_of_cons; [done|]. eapply ready_addr; [done|]. apply elem_of_ready. eauto.
    + intros th' Hin [->|Hin']%elem_of_cons; [by apply (Hnq q)|]. apply Hne. by eapply queue_disjoint.
  - intros q th' Hq Hin. destruct (decide (th' = th)) as [->|Hne].
    + rewrite lookup_insert_eq. eexists. split; [done|]. simpl. split_and!; [done| |done].
      destruct (decide (q = p)) as [->|Hnp]; [done|]. rewrite qset_ne in Hin by done. by apply Hnq in Hin.
    + rewrite lookup_insert_ne by done. destruct (decide (q = p)) as [->|Hnp].
      * rewrite qset_eq in Hin. apply elem_of_app in Hin as [Hin|?%list_elem_of_singleton]; [|done].
        by apply (si_ready _ _ Hs).
      * rewrite qset_ne in Hin by done. by apply (si_ready _ _ Hs).
  - intros th' Hd' Hnr. rewrite dom_insert_in in Hd' by done. rewrite Hr in Hnr.
    apply not_elem_of_cons in Hnr as [Hne Hnr].
    rewrite (xf_nodes _ _ _ _ Hfr); [by apply (si_free _ _ Hs)|]. apply node_notin; [by apply (si_addr _ _ Hs)| |].
    + intros th'' [->|Hin]%elem_of_cons; [done|]. eapply ready_addr; [done|]. apply elem_of_ready. eauto.
    + intros [?|Hin]%elem_of_cons; [done|]. apply Hnr, elem_of_ready. eauto.
  - intros th' Hd'. rewrite dom_insert_in in Hd' by done. apply elem_of_dom. rewrite (xf_dom _ _ _ _ Hfr).
    apply elem_of_dom. by apply (si_nodes _ _ Hs).
  - intros th' Hd'. rewrite dom_insert_in in Hd' by done. by apply (si_addr _ _ Hs).
  - rewrite Hc, Hr. simpl. rewrite uwrap_small; lia.
  - intros th' t' [[-> <-]|[? ?]]%lookup_insert_Some; [apply (si_carrots _ _ Hs _ _ Ht)|by eapply (si_carrots _ _ Hs)].
  - intros th' t' [[-> <-]|[? ?]]%lookup_insert_Some; [apply (si_procs _ _ Hs _ _ Ht)|by eapply (si_procs _ _ Hs)].
  - apply (si_quanta _ _ Hs).
  - apply (si_factor _ _ Hs).
Qed.

(** ** Taking a thread off its queue *)

(** The thread [th] between [l1] and [l2] leaves the queue [p]. *)
Lemma sched_inv_taken s qs p l1 th l2 x :
  sched_inv s qs → in_prio p → qs p = l1 ++ th :: l2 →
  is_xlist x (rq_queue p) (map sched_list_node (l1 ++ l2)) →
  xframe (sc_lists s) x (rq_queue p) (map sched_list_node (l1 ++ th :: l2)) →
  nodes x !! sched_list_node th = Some (ListElem NULL NULL) →
  sched_inv (upd_count (u32 (total_count s + -1)) (upd_lists x s)) (qset p (l1 ++ l2) qs) ∧
  th ∉ ready (qset p (l1 ++ l2) qs) ∧ ready qs ≡ₚ th :: ready (qset p (l1 ++ l2) qs).
Proof.
  intros Hs Hp E Hx Hfr Hn.
  destruct (ready_change p (l1 ++ l2) qs Hp) as (r & Er & Er'). rewrite E in Er.
  assert (ready qs ≡ₚ th :: ready (qset p (l1 ++ l2) qs)) as Hr by (rewrite Er', Er; solve_Permutation).
  pose proof (NoDup_ready _ _ Hs) as Hnd. rewrite Hr in Hnd. apply NoDup_cons in Hnd as [Hth _].
  split; [|done].
  assert (∀ th', th' ∈ qs p → addr_ok th' ∧ th' ∈ dom (sc_threads s)) as Ha.
  { intros th' Hin. eapply ready_addr; [done|]. apply elem_of_ready. eauto. }
  split; cbn [upd_count upd_threads upd_lists sc_lists sc_threads total_count sc_proc_flags quanta
    shuffle_factor].
  - intros q Hq. destruct (decide (q = p)) as [->|Hne]; [by rewrite qset_eq|]. rewrite qset_ne by done.
    rewrite <- E in Hfr. eapply other_queues; [done|exact Hfr|done|done| |].
    + intros th' Hin. by apply Ha.
    + intros th' Hin Hin'. apply Hne. by eapply queue_disjoint.
  - intros q th' Hq Hin. destruct (decide (q = p)) as [->|Hne].
    + rewrite qset_eq in Hin. apply (si_ready _ _ Hs); [done|]. rewrite E.
      apply elem_of_app in Hin as [?|?]; apply elem_of_app; [by left|right; by apply list_elem_of_further].
    + rewrite qset_ne in Hin by done. by apply (si_ready _ _ Hs).
  - intros th' Hd' Hnr. destruct (decide (th' = th)) as [->|Hne]; [done|].
    assert (th' ∉ ready qs) as Hnr' by (rewrite Hr; intros [?|?]%elem_of_cons; done).
    rewrite (xf_nodes _ _ _ _ Hfr); [by apply (si_free _ _ Hs)|]. rewrite <- E.
    apply node_notin; [by apply (si_addr _ _ Hs)|intros th'' ?; by apply Ha|].
    intros Hin. apply Hnr', elem_of_ready. eauto.
  - intros th' Hd'. apply elem_of_dom. rewrite (xf_dom _ _ _ _ Hfr). apply elem_of_dom. by apply (si_nodes _ _ Hs).
  - by apply (si_addr _ _ Hs).
  - pose proof (ready_bound _ _ Hs) as Hb. rewrite (si_count _ _ Hs). rewrite Hr in *. simpl in *.
    rewrite uwrap_small; lia.
  - by apply (si_carrots _ _ Hs).
  - by apply (si_procs _ _ Hs).
  - apply (si_quanta _ _ Hs).
  - apply (si_factor _ _ Hs).
Qed.

(** [th] has left the queue [p]. *)
Definition taken (s : sched) (qs : Z → list Z) (p th : Z) (s' : sched) (qs' : Z → list Z) : Prop :=
  ∃ x c l1 l2, s' = upd_count c (upd_lists x s) ∧ qs p = l1 ++ th :: l2 ∧ qs' = qset p (l1 ++ l2) qs ∧
    sched_inv s' qs' ∧ th ∉ ready qs'.

Lemma wp_rq_extract_thread s qs p th (Q : Z → sched → Prop) :
  sched_inv s qs → in_prio p → th ∈ qs p →
  (∀ s' qs', taken s qs p th s' qs' → Q th s') → wp (rq_extract_thread th) s Q.
Proof.
  intros Hs Hp Hin HQ. destruct (si_ready _ _ Hs p th Hp Hin) as (t & Ht & _ & Hd & _).
  destruct (list_elem_of_split _ _ Hin) as (l1 & l2 & E).
  pose proof (si_lists _ _ Hs p Hp) as Hl. rewrite E, map_app in Hl. simpl in Hl.
  unfold rq_extract_thread. apply wp_bind. eapply wp_load; [done|]. rewrite Hd.
  apply wp_bind, wp_zoom. eapply wp_xlist_remove_unsafe; [exact Hl|]. intros x Hx Hfr Hn.
  apply wp_bind, wp_modify, wp_ret.
  change (sched_list_node th :: map sched_list_node l2) with (map sched_list_node (th :: l2)) in Hfr.
  rewrite <- map_app in Hx, Hfr.
  destruct (sched_inv_taken s qs p l1 th l2 x Hs Hp E Hx Hfr Hn) as (Hs' & Hth & _).
  eapply HQ. eexists x, _, l1, l2. split_and!; [reflexivity|done|reflexivity|done|done].
Qed.

Lemma wp_rq_pop_head_thread s qs p th l (Q : Z → sched → Prop) :
  sched_inv s qs → in_prio p → qs p = th :: l →
  (∀ s' qs', taken s qs p th s' qs' → Q th s') → wp (rq_pop_head_thread p) s Q.
Proof.
  intros Hs Hp E HQ. pose proof (si_lists _ _ Hs p Hp) as Hl. rewrite E in Hl.
  assert (addr_ok th) as Ha.
  { eapply ready_addr; [done|]. apply elem_of_ready. exists p. rewrite E. split; [done|apply list_elem_of_here]. }
  unfold rq_pop_head_thread. apply wp_bind, wp_zoom. eapply wp_xlist_extract_first; [exact Hl|done|].
  intros n ns x En Hx Hfr Hn. simpl in En. injection En as <- <-. apply wp_bind, wp_modify, wp_ret.
  rewrite node_thread_ok by done.
  destruct (sched_inv_taken s qs p [] th l x Hs Hp E Hx Hfr Hn) as (Hs' & Hth & _).
  eapply HQ. eexists x, _, [], l. split_and!; [reflexivity|done|reflexivity|done|done].
Qed.

Lemma wp_queue_count s qs p (Q : Z → sched → Prop) :
  sched_inv s qs → in_prio p → Q (Z.of_nat (length (qs p))) s → wp (queue_count p) s Q.
Proof.
  intros Hs Hp HQ. unfold queue_count. apply wp_bind, wp_zoom.
  eapply wp_ld_list; [apply (si_lists _ _ Hs p Hp)|]. simpl. rewrite length_map.
  apply wp_ret. by destruct s.
Qed.

Lemma wp_rq_peek_head_thread s qs p th l (Q : Z → sched → Prop) :
  sched_inv s qs → in_prio p → qs p = th :: l → Q th s → wp (rq_peek_head_thread p) s Q.
Proof.
  intros Hs Hp E HQ. pose proof (si_lists _ _ Hs p Hp) as Hl. rewrite E in Hl.
  unfold rq_peek_head_thread. apply wp_bind, wp_zoom. eapply wp_xlist_peek_first; [exact Hl|].
  simpl. apply wp_ret. rewrite node_thread_ok; [by destruct s|].
  eapply ready_addr; [done|]. apply elem_of_ready. exists p. rewrite E. split; [done|apply list_elem_of_here].
Qed.

Lemma head_or_map (f : Z → Z) l d : head_or d (map f l) = match l with [] => d | x :: _ => f x end.
Proof. by destruct l. Qed.

Lemma wp_rq_peek_next_thread s qs p l1 th l2 (Q : Z → sched → Prop) :
  sched_inv s qs → in_prio p → qs p = l1 ++ th :: l2 →
  Q (head_or NULL l2) s → wp (rq_peek_next_thread th) s Q.
Proof.
  intros Hs Hp E HQ. pose proof (si_lists _ _ Hs p Hp) as [_ Hl _ _].
  rewrite E, map_app in Hl. simpl in Hl. apply seg_app in Hl as [_ [Hn _]].
  unfold rq_peek_next_thread. apply wp_bind, wp_zoom. eapply wp_ld_next; [exact Hn|]. apply wp_ret.
  simpl. rewrite head_or_map. destruct l2 as [|th' l2].
  - change (NULL =? NULL) with true. by destruct s.
  - assert (addr_ok th') as Ha.
    { eapply ready_addr; [done|]. apply elem_of_ready. exists p. rewrite E. split; [done|]. set_solver +. }
    rewrite (proj2 (Z.eqb_neq _ NULL)), node_thread_ok by
      (done || (pose proof (sched_list_node_valid _ Ha); unfold valid_ptr, NULL in *; lia)).
    by destruct s.
Qed.

(** ** The choice of a thread *)

(** The policy level that counts for a thread. *)
Definition level (s : sched) (th : Z) : Z :=
  match sc_threads s !! th with
  | Some t =>
      if th_policy t =? SCHED_POLICY_INTERACTIVE then
        match sc_proc_flags s !! th_process t with
        | Some f => if Z.land f PROCESS_FLAG_INTERACTIVE =? 0 then SCHED_POLICY_ORDINARY else th_policy t
        | None => 0
        end
      else th_policy t
  | None => 0
  end.

Definition more_significant (lvl : Z → Z) (a b : Z) : Z := if lvl a >=? lvl b then a else b.

(** The first of the most significant threads among the first ten of a queue. *)
Definition best (lvl : Z → Z) (l : list Z) : Z :=
  match l with
  | [] => NULL
  | x :: l => foldl (more_significant lvl) x (take (SCHED_QUEUE_LOOKAHEAD_DEPTH - 1) l)
  end.

Lemma wp_significant_thread s qs a b (Q : Z → sched → Prop) :
  sched_inv s qs → a ∈ dom (sc_threads s) → b ∈ dom (sc_threads s) →
  Q (more_significant (level s) a b) s → wp (significant_thread a b) s Q.
Proof.
  intros Hs [ta Ha]%elem_of_dom [tb Hb]%elem_of_dom HQ.
  assert (∀ th t (Q' : Z → sched → Prop), sc_threads s !! th = Some t → Q' (level s th) s →
    wp (policy_level t) s Q') as Hlvl.
  { intros th t Q' Ht HQ'. unfold level in HQ'. rewrite Ht in HQ'.
    destruct (si_procs _ _ Hs _ _ Ht) as [f Hf]. rewrite Hf in HQ'. unfold policy_level.
    destruct (th_policy t =? SCHED_POLICY_INTERACTIVE); [|by apply wp_ret].
    apply wp_bind. eapply wp_load; [done|]. by apply wp_ret. }
  unfold significant_thread. apply wp_bind. eapply wp_load; [done|]. apply wp_bind, (Hlvl a); [done|].
  apply wp_bind. eapply wp_load; [done|]. apply wp_bind, (Hlvl b); [done|]. by apply wp_ret.
Qed.

Lemma best_in lvl l : l ≠ [] → best lvl l ∈ l.
Proof.
  destruct l as [|x l]; [done|]. intros _. unfold best.
  assert (∀ m, foldl (more_significant lvl) x m ∈ x :: m) as H.
  { intros m. revert x. induction m as [|y m IH]; intros x; simpl; [apply list_elem_of_here|].
    specialize (IH (more_significant lvl x y)). apply elem_of_cons in IH as [->|IH].
    - unfold more_significant. case_match; [apply list_elem_of_here|].
      apply list_elem_of_further, list_elem_of_here.
    - by do 2 apply list_elem_of_further. }
  specialize (H (take (SCHED_QUEUE_LOOKAHEAD_DEPTH - 1) l)).
  apply elem_of_cons in H as [->|H]; [apply list_elem_of_here|]. apply list_elem_of_further.
  apply elem_of_take in H as (i & Hi & _). by eapply list_elem_of_lookup_2.
Qed.

Lemma wp_lookahead n : ∀ s qs p l1 th l2 best (Q : Z → sched → Prop),
  sched_inv s qs → in_prio p → qs p = l1 ++ th :: l2 → best ∈ qs p →
  Q (foldl (more_significant (level s)) best (take n l2)) s → wp (lookahead (S n) best th) s Q.
Proof.
  induction n as [|n IH]; intros s qs p l1 th l2 best Q Hs Hp E Hb HQ; cbn [lookahead];
    (apply wp_bind; eapply wp_rq_peek_next_thread; [done|done|exact E|]).
  { rewrite andb_false_r. by apply wp_ret. }
  destruct l2 as [|th' l2]; [by apply wp_ret|]. cbn [head_or].
  assert (∀ z, z ∈ qs p → addr_ok z ∧ z ∈ dom (sc_threads s)) as Ha.
  { intros z Hz. eapply ready_addr; [done|]. apply elem_of_ready. eauto. }
  assert (th' ∈ qs p) as Hth' by (rewrite E; set_solver +).
  destruct (Ha th' Hth') as [[Hpos _] Hd]. rewrite (proj2 (Z.eqb_neq th' NULL)) by (unfold NULL; lia).
  cbn [negb andb Nat.eqb]. apply wp_bind. eapply wp_significant_thread; [done|by apply Ha|done|].
  apply (IH s qs p (l1 ++ [th]) th' l2); [done|done| | |done].
  - by rewrite <- app_assoc.
  - unfold more_significant. by case_match.
Qed.

(** What the search takes from the queues. *)
Definition picked (s : sched) (qs : Z → list Z) (n : Z) (th : Z) (s' : sched) (qs' : Z → list Z) : Prop :=
  (th = NULL ∧ s' = s ∧ qs' = qs ∧ ∀ q, 0 ≤ q < n → qs q = []) ∨
  (∃ p, 0 ≤ p < n ∧ qs p ≠ [] ∧ (∀ q, p < q < n → qs q = []) ∧ th = best (level s) (qs p) ∧
     taken s qs p th s' qs').

Lemma wp_pick_thread n : ∀ s qs (Q : Z → sched → Prop),
  sched_inv s qs → Z.of_nat n ≤ THREAD_NUM_PRIORITY_LEVELS →
  (∀ th s' qs', picked s qs (Z.of_nat n) th s' qs' → Q th s') →
  wp (pick_thread n (Z.of_nat n - 1)) s Q.
Proof.
  induction n as [|n IH]; intros s qs Q Hs Hn HQ; cbn [pick_thread].
  { apply wp_ret. apply (HQ NULL s qs). left. split_and!; [done..|]. lia. }
  replace (Z.of_nat (S n) - 1) with (Z.of_nat n) by lia.
  assert (in_prio (Z.of_nat n)) as Hp by (unfold in_prio; lia).
  apply wp_bind. eapply wp_queue_count; [done|done|].
  destruct (qs (Z.of_nat n)) as [|th l] eqn:E; cbn [length].
  - change (Z.of_nat 0 =? 0) with true. cbv iota. apply (IH s qs); [done|lia|].
    intros th s' qs' [(-> & -> & -> & He)|(p & Hpn & Hne & He & Hth & Ht)]; eapply HQ.
    + left. split_and!; [done..|]. intros q Hq. destruct (decide (q = Z.of_nat n)) as [->|]; [done|].
      apply He. lia.
    + right. exists p. split_and!; [lia|lia|done| |done|done]. intros q Hq.
      destruct (decide (q = Z.of_nat n)) as [->|]; [done|]. apply He. lia.
  - rewrite (proj2 (Z.eqb_neq (Z.of_nat (S (length l))) 0)) by lia.
    assert (∀ th' s' qs', th' = best (level s) (qs (Z.of_nat n)) → taken s qs (Z.of_nat n) th' s' qs' →
      Q th' s') as HQ'.
    { intros th' s' qs' Eb Ht. eapply HQ. right. exists (Z.of_nat n). split_and!; [lia|lia|by rewrite E|lia|done|done]. }
    case_match eqn:El.
    + apply wp_bind. eapply wp_rq_peek_head_thread; [done|done|exact E|]. apply wp_bind.
      apply (wp_lookahead 9 s qs (Z.of_nat n) [] th l); [done|done|done|rewrite E; apply list_elem_of_here|].
      change (foldl _ th (take 9 l)) with (best (level s) (th :: l)). rewrite <- E.
      eapply wp_rq_extract_thread; [done|done| |].
      * apply best_in. by rewrite E.
      * intros s' qs' Ht. by eapply HQ'.
    + eapply wp_rq_pop_head_thread; [done|done|exact E|]. intros s' qs' Ht. eapply HQ'; [|done].
      rewrite E. apply Z.ltb_ge in El. by destruct l; [|simpl in El; lia].
Qed.

(** ** Threads *)

Lemma sched_inv_thread s qs th t t' :
  sched_inv s qs → sc_threads s !! th = Some t →
  - SCHED_MAX_THREAD_PENALTY ≤ th_carrots_sticks t' ≤ SCHED_MAX_THREAD_BONUS →
  th_process t' = th_process t →
  th ∉ ready qs ∨ (th_state t' = th_state t ∧ th_d_prio t' = th_d_prio t ∧ th_cpu t' = th_cpu t) →
  sched_inv (upd_threads (<[th := t']> (sc_threads s)) s) qs.
Proof.
  intros Hs Ht Hc Hp Hq. assert (th ∈ dom (sc_threads s)) as Hd by by apply elem_of_dom_2 in Ht.
  split; cbn [upd_threads sc_lists sc_threads total_count sc_proc_flags quanta shuffle_factor].
  - apply (si_lists _ _ Hs).
  - intros p th' Hpp Hin. destruct (decide (th' = th)) as [->|Hne].
    + rewrite lookup_insert_eq. exists t'. split; [done|].
      destruct Hq as [Hq|(E1 & E2 & E3)]; [exfalso; apply Hq, elem_of_ready; eauto|].
      destruct (si_ready _ _ Hs p th Hpp Hin) as (t1 & Ht1 & ?). simplify_eq. by rewrite E1, E2, E3.
    + rewrite lookup_insert_ne by done. by apply (si_ready _ _ Hs).
  - intros th' Hd'. rewrite dom_insert_in in Hd' by done. by apply (si_free _ _ Hs).
  - intros th' Hd'. rewrite dom_insert_in in Hd' by done. by apply (si_nodes _ _ Hs).
  - intros th' Hd'. rewrite dom_insert_in in Hd' by done. by apply (si_addr _ _ Hs).
  - apply (si_count _ _ Hs).
  - intros th' t1 [[-> <-]|[? ?]]%lookup_insert_Some; [done|]. by eapply (si_carrots _ _ Hs).
  - intros th' t1 [[-> <-]|[? ?]]%lookup_insert_Some; [rewrite Hp|]; by eapply (si_procs _ _ Hs).
  - apply (si_quanta _ _ Hs).
  - apply (si_factor _ _ Hs).
Qed.

(** The invariant does not speak of the processor, the clock and who runs. *)
Lemma sched_inv_env s s' qs :
  sched_inv s qs → sc_lists s' = sc_lists s → sc_threads s' = sc_threads s →
  total_count s' = total_count s → sc_proc_flags s' = sc_proc_flags s →
  THREAD_MINIMUM_QUANTA ≤ quanta s' ≤ THREAD_DEFAULT_QUANTA → 0 < shuffle_factor s' →
  sched_inv s' qs.
Proof. intros [] E1 E2 E3 E4 Hq Hf. split; rewrite ?E1, ?E2, ?E3, ?E4; done. Qed.

Lemma not_ready s qs th t :
  sched_inv s qs → sc_threads s !! th = Some t → th_state t ≠ THREAD_STATE_READY → th ∉ ready qs.
Proof.
  intros Hs Ht Hst (p & Hp & Hin)%elem_of_ready.
  destruct (si_ready _ _ Hs p th Hp Hin) as (t' & Ht' & Hr & _). congruence.
Qed.

Lemma wp_st_thread th f t s (Q : unit → sched → Prop) :
  sc_threads s !! th = Some t → Q tt (upd_threads (<[th := f t]> (sc_threads s)) s) →
  wp (st_thread th f) s Q.
Proof. intros Ht HQ. unfold wp, st_thread. by rewrite Ht. Qed.

(** A lock that is free, or taken. *)
Definition free_lock (s : sched) (a : Z) : Prop := locks (sc_cpu s) !! a = Some SPIN_UNLOCKED.

Definition held_lock (s : sched) (a : Z) : Prop := ∃ l, locks (sc_cpu s) !! a = Some l ∧ l ≠ 0.

Lemma wp_assert_locked th s (Q : unit → sched → Prop) :
  held_lock s (thread_lock th) → Q tt s → wp (assert_locked th) s Q.
Proof.
  intros (l & Hl & Hne) HQ. unfold assert_locked. apply wp_bind, wp_zoom. eapply wp_load; [exact Hl|].
  unfold ASSERT_MSG. rewrite (proj2 (Z.eqb_neq l 0)) by done. apply wp_ret. by destruct s.
Qed.

(** A thread as it is added to the queues. *)
Definition queued (s : sched) (t : thread) : thread :=
  let p := Z.min (THREAD_NUM_PRIORITY_LEVELS - 1) (th_s_prio t) in
  Thread (th_process t) (Some 0) THREAD_STATE_READY THREAD_STATE_RUNNING (th_flags t)
    (th_preempt_count t) (th_jiffies t) (th_ijiffies t) (th_policy t) p p
    (SCHED_TICKS2MSEC 64 (sched_ticks s)) (th_carrots_sticks t).

Definition addable : list Z :=
  [THREAD_STATE_BIRTH; THREAD_STATE_WAITING; THREAD_STATE_SLEEPING; THREAD_STATE_SUSPENDED].

Lemma addable_test st :
  (st =? THREAD_STATE_BIRTH) || (st =? THREAD_STATE_WAITING) || (st =? THREAD_STATE_SLEEPING) ||
    (st =? THREAD_STATE_SUSPENDED) = bool_decide (st ∈ addable).
Proof.
  destruct (bool_decide_reflect (st ∈ addable)) as [H|H]; unfold addable in H.
  - repeat apply elem_of_cons in H as [->|H]; [done..|]. by apply elem_of_nil in H.
  - repeat apply not_elem_of_cons in H as [? H].
    by repeat match goal with H : st ≠ ?x |- _ => rewrite (proj2 (Z.eqb_neq st x) H); clear H end.
Qed.

(** A chain of stores to one thread. *)
Ltac th_step := first
  [ apply wp_bind; th_step
  | eapply wp_st_thread; [cbn [upd_threads sc_threads]; first [apply lookup_insert_eq | eassumption]|] ].

(** The static priority is cut to the highest one. *)
Lemma wp_clip th t s (Q : unit → sched → Prop) :
  sc_threads s !! th = Some t →
  Q tt (upd_threads (<[th := with_s_prio (Z.min (THREAD_NUM_PRIORITY_LEVELS - 1) (th_s_prio t)) t]> (sc_threads s)) s) →
  wp (when (THREAD_NUM_PRIORITY_LEVELS - 1 <? th_s_prio t)
        (st_thread th (with_s_prio (THREAD_NUM_PRIORITY_LEVELS - 1)))) s Q.
Proof.
  intros Ht HQ. apply wp_when; intros E; bool_to_prop.
  - eapply wp_st_thread; [done|]. by rewrite Z.min_l in HQ by lia.
  - rewrite Z.min_r in HQ by lia. rewrite insert_id in HQ by (rewrite Ht; by destruct t). by destruct s.
Qed.

Lemma wp_sched_add_thread s qs th t (Q : unit → sched → Prop) :
  sched_inv s qs → sc_threads s !! th = Some t → held_lock s (thread_lock th) → free_lock s rq_lock →
  0 ≤ th_s_prio t → th_state t ∈ addable →
  (∀ x c, let s' := rq_state x (<[th := queued s t]> (sc_threads s)) c s in
     let p := Z.min (THREAD_NUM_PRIORITY_LEVELS - 1) (th_s_prio t) in
     sched_inv s' (qset p (qs p ++ [th]) qs) → Q tt s') →
  wp (sched_add_thread th) s Q.
Proof.
  intros Hs Ht Hl Hrq Hp Hst HQ.
  assert (th ∉ ready qs) as Hth.
  { eapply not_ready; [done|done|]. intros E. rewrite E in Hst.
    by apply (bool_decide_eq_false_1 (THREAD_STATE_READY ∈ addable)) in Hst. }
  unfold sched_add_thread. apply wp_bind, wp_assert_locked; [done|].
  apply wp_bind. eapply wp_load; [done|]. apply wp_bind. rewrite addable_test, bool_decide_true by done.
  apply wp_ret. apply wp_bind. set (p := Z.min (THREAD_NUM_PRIORITY_LEVELS - 1) (th_s_prio t)) in *.
  apply (wp_clip th t); [done|]. fold p.
  apply wp_bind. eapply wp_st_thread; [apply lookup_insert_eq|].
  apply wp_bind. eapply wp_st_thread; [apply lookup_insert_eq|].
  apply wp_bind, wp_gets, wp_bind. eapply wp_st_thread; [apply lookup_insert_eq|].
  cbn [upd_threads sc_threads]. rewrite !insert_insert_eq.
  apply wp_bind, wp_zoom, wp_spin_lock_irqsave; [exact Hrq|].
  match goal with |- wp _ (upd_cpu _ (upd_threads (<[th := ?t1]> _) _)) _ => set (t' := t1) end.
  match goal with |- wp _ ?s1 _ => set (s1' := s1) end.
  assert (sched_inv s1' qs) as Hs1.
  { eapply (sched_inv_env (upd_threads (<[th := t']> (sc_threads s)) s)); try done.
    - eapply sched_inv_thread; [done|exact Ht|exact (si_carrots _ _ Hs th t Ht)|done|by left].
    - apply (si_quanta _ _ Hs).
    - apply (si_factor _ _ Hs). }
  apply wp_bind. eapply (wp_rq_put_thread s1' qs th t'); [done| |].
  { split_and!; [apply lookup_insert_eq|done|done|]. unfold in_prio. simpl. fold p.
    unfold p, THREAD_NUM_PRIORITY_LEVELS. lia. }
  intros x c s2 Hs2. apply wp_zoom, wp_spin_unlock_irqrstor; [simpl; by rewrite lookup_insert_eq|].
  cbn [sc_cpu s2 s1' rq_state upd_count upd_threads upd_lists upd_cpu locks irqs].
  rewrite insert_insert_eq, insert_id by exact Hrq.
  specialize (HQ x c). cbv zeta in HQ. unfold rq_state in *. simpl.
  assert (queued s t = with_cpu (Some 0) t') as Eq by done. rewrite Eq in HQ.
  subst s1' s2. simpl in *. rewrite insert_insert_eq in *.
  destruct s as [sl [lk iq] sth spf]. simpl in *. apply HQ. eapply sched_inv_env; [exact Hs2|try done..].
  - apply (si_quanta _ _ Hs).
  - apply (si_factor _ _ Hs).
Qed.

Lemma wp_sched_remove_thread s qs p th (Q : unit → sched → Prop) :
  sched_inv s qs → in_prio p → th ∈ qs p → held_lock s (thread_lock th) → free_lock s rq_lock →
  (∀ s' qs', taken s qs p th s' qs' → Q tt s') → wp (sched_remove_thread th) s Q.
Proof.
  intros Hs Hp Hin Hl Hrq HQ. destruct (si_ready _ _ Hs p th Hp Hin) as (t & Ht & Hst & Hd & Hc).
  unfold sched_remove_thread. apply wp_bind, wp_assert_locked; [done|].
  apply wp_bind. eapply wp_load; [done|]. apply wp_bind. rewrite Hst. apply wp_ret. rewrite Hc.
  apply wp_bind, wp_zoom, wp_spin_lock_irqsave; [exact Hrq|].
  match goal with |- wp _ ?s1 _ => set (s1' := s1) end.
  assert (sched_inv s1' qs) as Hs1
    by (eapply (sched_inv_env s); try done; [apply (si_quanta _ _ Hs)|apply (si_factor _ _ Hs)]).
  apply wp_bind. eapply wp_rq_extract_thread; [done|exact Hp|done|].
  intros s2 qs2 (x & c & l1 & l2 & -> & E & -> & Hs2 & Hth).
  apply wp_zoom, wp_spin_unlock_irqrstor; [simpl; by rewrite lookup_insert_eq|].
  simpl. rewrite insert_insert_eq, insert_id by exact Hrq.
  eapply HQ. exists x, c, l1, l2. split_and!; [|done|reflexivity| |done].
  - by destruct s as [sl [lk iq]].
  - eapply sched_inv_env; [exact Hs2|try done..]; [apply (si_quanta _ _ Hs)|apply (si_factor _ _ Hs)].
Qed.

(** ** Rescheduling *)

(** The addresses of the locks. *)
Lemma thread_lock_ok th : addr_ok th → thread_lock th = th + 12.
Proof. intros [??]. unfold thread_lock. apply uwrap_small. lia. Qed.

(** Everything free that was, or [a]. *)
Definition locks_but (s s' : sched) (a : Z) : Prop := ∀ b, b ≠ a → free_lock s b → free_lock s' b.

(** A store to the current thread by a function that keeps policy and process. *)
Definition keeps_policy (f : thread → thread) : Prop :=
  ∀ t, th_policy (f t) = th_policy t ∧ th_process (f t) = th_process t.

Lemma level_upd s s' th t t' :
  sc_threads s !! th = Some t → th_policy t' = th_policy t → th_process t' = th_process t →
  sc_threads s' = <[th := t']> (sc_threads s) → sc_proc_flags s' = sc_proc_flags s →
  ∀ z, level s' z = level s z.
Proof.
  intros Ht E1 E2 Em Ep z. unfold level. rewrite Em, Ep. destruct (decide (z = th)) as [->|Hne].
  - by rewrite lookup_insert_eq, Ht, E1, E2.
  - by rewrite lookup_insert_ne.
Qed.

Lemma best_ext lvl lvl' l : (∀ z, lvl z = lvl' z) → best lvl l = best lvl' l.
Proof.
  intros E. destruct l as [|x l]; [done|]. unfold best. generalize (take (SCHED_QUEUE_LOOKAHEAD_DEPTH - 1) l).
  intros m. revert x. induction m as [|y m IH]; intros x; simpl; [done|].
  rewrite IH. unfold more_significant. by rewrite !E.
Qed.

(** The outcome of the search: the thread that runs next, and the queues without it. *)
Definition chosen (lvl : Z → Z) (idle : Z) (qs : Z → list Z) (next : Z) (qs' : Z → list Z) : Prop :=
  (next = idle ∧ qs' = qs ∧ ∀ q, in_prio q → qs q = []) ∨
  (∃ p l1 l2, in_prio p ∧ (∀ q, in_prio q → p < q → qs q = []) ∧ next = best lvl (qs p) ∧
     qs p = l1 ++ next :: l2 ∧ qs' = qset p (l1 ++ l2) qs).

(** The thread that runs: with a whole quantum, unless it is the idle thread. *)
Definition running (s : sched) (idle th : Z) : Prop :=
  ∃ t, sc_threads s !! th = Some t ∧ th_state t = THREAD_STATE_RUNNING ∧
    (th ≠ idle → th_jiffies t = SCHED_MSEC2TICKS (quanta s) ∧ th_ijiffies t = SCHED_MSEC2TICKS (quanta s)).

Lemma wp_switch_to s qs th idle ticks t (Q : unit → sched → Prop) :
  let next := if th =? NULL then idle else th in
  sched_inv s qs → sc_threads s !! next = Some t → next ∉ ready qs → (th = NULL ∨ th ≠ idle) →
  is_Some (locks (sc_cpu s) !! rq_lock) → is_Some (locks (sc_cpu s) !! sched_lock) →
  free_lock s (thread_lock next) →
  (∀ s', sched_inv s' qs → current_thread s' = next → running s' idle next → irqs (sc_cpu s') = true →
     (∀ b, b ∈ [rq_lock; sched_lock] ∨ free_lock s b → free_lock s' b) → Q tt s') →
  wp (switch_to th idle ticks) s Q.
Proof.
  intros next Hs Ht Hnr Hth Hlr Hls Hfree HQ. unfold switch_to.
  assert (next ∈ dom (sc_threads s)) as Hd by by apply elem_of_dom_2 in Ht.
  pose proof (si_addr _ _ Hs _ Hd) as Ha. pose proof (thread_lock_ok _ Ha) as El. destruct Ha as [Hpos _].
  apply wp_bind, wp_zoom, wp_spin_unlock; [done|]. apply wp_bind, wp_gets. cbn [upd_cpu quanta].
  set (q := SCHED_MSEC2TICKS (quanta s)). set (t1 := if th =? NULL then t else with_jiffies q q t).
  assert (∀ (s1 : sched) (Q' : Z → sched → Prop), sc_threads s1 = sc_threads s →
    Q' next (upd_threads (<[next := t1]> (sc_threads s1)) s1) →
    wp (if negb (th =? NULL) then st_thread th (with_jiffies q q);; mret th else mret idle) s1 Q') as Hj.
  { intros s1 Q' E HQ'. unfold next, t1 in *. destruct (th =? NULL); cbn [negb].
    - apply wp_ret. rewrite insert_id in HQ' by (rewrite E; done). by destruct s1.
    - apply wp_bind. eapply wp_st_thread; [rewrite E; done|]. by apply wp_ret. }
  apply wp_bind, Hj; [done|]. clear Hj.
  apply wp_bind, wp_zoom, wp_spin_lock.
  { cbn [upd_cpu upd_threads sc_cpu locks]. rewrite lookup_insert_ne; [exact Hfree|]. rewrite El. unfold rq_lock. lia. }
  apply wp_bind. eapply wp_st_thread; [apply lookup_insert_eq|].
  apply wp_bind. eapply wp_st_thread; [apply lookup_insert_eq|].
  cbn [upd_cpu upd_threads sc_threads sc_cpu locks irqs]. rewrite !insert_insert_eq.
  apply wp_bind, wp_modify. unfold sched_complete_context_switch, thread_get_current_thread.
  apply wp_bind, wp_gets. cbn [upd_current current_thread].
  apply wp_bind, wp_zoom, wp_spin_unlock; [simpl; by rewrite lookup_insert_eq|].
  apply wp_bind, wp_zoom, wp_spin_unlock.
  { destruct Hls as [ls Hls]. exists ls. simpl.
    rewrite !lookup_insert_ne; [exact Hls|unfold rq_lock, sched_lock in *; lia..]. }
  apply wp_zoom. unfold local_irqs_enable. apply wp_modify.
  cbn [upd_cpu upd_threads upd_current sc_threads sc_cpu locks irqs].
  set (t2 := with_stamp _ _). apply HQ.
  - assert (sched_inv (upd_threads (<[next := t2]> (sc_threads s)) s) qs) as Hs2.
    { eapply sched_inv_thread; [done|exact Ht| | |by left].
      - pose proof (si_carrots _ _ Hs _ _ Ht) as Hc. unfold t2, t1. by destruct (th =? NULL).
      - unfold t2, t1. by destruct (th =? NULL). }
    eapply sched_inv_env; [exact Hs2|try done..]; [apply (si_quanta _ _ Hs)|apply (si_factor _ _ Hs)].
  - done.
  - exists t2. split_and!; [apply lookup_insert_eq|done|]. intros Hne. unfold t2, t1. simpl.
    unfold next in *. destruct (Z.eqb_spec th NULL) as [E|E]; [done|]. done.
  - done.
  - intros b Hb. unfold free_lock in *. cbn [upd_cpu sc_cpu locks].
    destruct (decide (b = sched_lock)) as [->|H1]; [by rewrite lookup_insert_eq|].
    rewrite lookup_insert_ne by done.
    destruct (decide (b = thread_lock next)) as [->|H2]; [by rewrite lookup_insert_eq|].
    rewrite !lookup_insert_ne by done.
    destruct (decide (b = rq_lock)) as [->|H3]; [by rewrite lookup_insert_eq|]. rewrite lookup_insert_ne by done.
    destruct Hb as [Hb|Hb]; [|done]. exfalso.
    apply elem_of_cons in Hb as [->|[->|Hb%elem_of_nil]%elem_of_cons]; done.
Qed.

(** Where the current thread goes by its next state. *)
Definition requeued (s : sched) (t : thread) : Z := clamp_prio (s32 (th_s_prio t + carrots_value t)).

Definition after_put (s : sched) (qs : Z → list Z) (t : thread) : Z → list Z :=
  if decide (current_thread s ≠ idle_thread s ∧ th_next_state t = THREAD_STATE_READY)
  then qset (requeued s t) (qs (requeued s t) ++ [current_thread s]) qs else qs.

Lemma clamp_prio_in p : in_prio (clamp_prio p).
Proof.
  unfold clamp_prio, in_prio, THREAD_NUM_PRIORITY_LEVELS, THREAD_LOWEST_PIORITY.
  repeat case_match; bool_to_prop; lia.
Qed.

Lemma carrots_range t :
  - SCHED_MAX_THREAD_PENALTY ≤ carrots_value t ≤ SCHED_MAX_THREAD_BONUS.
Proof.
  unfold carrots_value, SCHED_MAX_THREAD_PENALTY, SCHED_MAX_THREAD_BONUS. case_match.
  - assert (Forall (λ b, -1 ≤ b ≤ 0) sys_bonus) as Hf by by_decide.
    destruct (lookup_lt_is_Some_2 sys_bonus (Z.to_nat (quantum_tenth t))) as [b Hb].
    { unfold quantum_tenth. simpl. repeat case_match; bool_to_prop; lia. }
    rewrite (list_lookup_total_correct _ _ _ Hb). pose proof (Forall_lookup_1 _ _ _ _ Hf Hb). simpl in *. lia.
  - repeat case_match; bool_to_prop; lia.
Qed.

(** The current thread once it has been told to leave the processor. *)
Definition leaving (s : sched) (t : thread) : thread :=
  with_state (th_next_state t) THREAD_STATE_READY
    (with_flags (Z.ldiff (th_flags t) THREAD_FLAG_RESCHEDULE)
       (with_stamp (SCHED_TICKS2MSEC 64 (sched_ticks s)) t)).

(** The states a thread may be rescheduled to. *)
Definition next_states : list Z :=
  [THREAD_STATE_READY; THREAD_STATE_RUNNING; THREAD_STATE_WAITING; THREAD_STATE_SLEEPING;
   THREAD_STATE_SUSPENDED; THREAD_STATE_DEATH].

(** A thread that is ready again, and one that is not. *)
Lemma wp_put_ready s qs th t (Q : bool → sched → Prop) :
  let p := clamp_prio (s32 (th_s_prio t + carrots_value t)) in
  sched_inv s qs → sc_threads s !! th = Some t → th ∉ ready qs → th_state t = THREAD_STATE_READY →
  th_ijiffies t ≠ 0 →
  (∀ x c t', let s' := rq_state x (<[th := t']> (sc_threads s)) c s in
     th_policy t' = th_policy t → th_process t' = th_process t →
     sched_inv s' (qset p (qs p ++ [th]) qs) → Q false s') →
  wp (put_current th) s Q.
Proof.
  intros p Hs Ht Hth Hst Hij HQ. unfold put_current. apply wp_bind. eapply wp_load; [done|].
  apply wp_bind, wp_gets. rewrite Hst. change (THREAD_STATE_READY =? THREAD_STATE_RUNNING) with false.
  change (THREAD_STATE_READY =? THREAD_STATE_READY) with true. cbv iota.
  apply wp_bind. unfold carrots_and_sticks. apply wp_bind. eapply wp_load; [done|].
  rewrite (proj2 (Z.eqb_neq (th_ijiffies t) 0)) by done. apply wp_bind. eapply wp_st_thread; [done|].
  apply wp_ret. apply wp_bind. eapply wp_st_thread; [apply lookup_insert_eq|].
  cbn [upd_threads sc_threads]. rewrite insert_insert_eq.
  match goal with |- wp _ (upd_threads (<[th := ?t1]> _) _) _ => set (t1' := t1) end.
  set (s1 := upd_threads _ _).
  assert (sched_inv (upd_threads (<[th := t1']> (sc_threads s)) s) qs) as Hs1.
  { eapply sched_inv_thread; [done|exact Ht|apply carrots_range|done|by left]. }
  assert (sched_inv s1 qs) as Hs1' by
    (eapply sched_inv_env; [exact Hs1|try done..]; [apply (si_quanta _ _ Hs)|apply (si_factor _ _ Hs)]).
  apply wp_bind. eapply (wp_rq_put_thread s1 qs th t1'); [done| |].
  { split_and!; [apply lookup_insert_eq|done|done|apply clamp_prio_in]. }
  intros x c s2 Hs2. apply wp_ret. specialize (HQ x c (with_cpu (Some 0) t1') eq_refl eq_refl).
  unfold s2, s1, rq_state in *. cbn [upd_threads upd_lists upd_count sc_threads sc_lists] in *.
  rewrite insert_insert_eq in *. apply HQ. exact Hs2.
Qed.

Lemma wp_put_away th t s (Q : bool → sched → Prop) :
  sc_threads s !! th = Some t → th_state t ∈ next_states → th_state t ≠ THREAD_STATE_READY →
  (th_state t = THREAD_STATE_RUNNING →
     Q true (upd_threads (<[th := with_jiffies (SCHED_MSEC2TICKS (quanta s)) (SCHED_MSEC2TICKS (quanta s)) t]>
       (sc_threads s)) s)) →
  (th_state t ≠ THREAD_STATE_RUNNING → Q false s) →
  wp (put_current th) s Q.
Proof.
  intros Ht Hin Hnr Hrun Hoff. unfold put_current. apply wp_bind. eapply wp_load; [done|].
  apply wp_bind, wp_gets. unfold next_states in Hin.
  destruct (Z.eqb_spec (th_state t) THREAD_STATE_RUNNING) as [E|E].
  { apply wp_bind. eapply wp_st_thread; [done|]. by apply wp_ret, Hrun. }
  rewrite (proj2 (Z.eqb_neq _ THREAD_STATE_READY)) by done. specialize (Hoff E).
  apply elem_of_cons in Hin as [?|[?|Hin]%elem_of_cons]; [done..|].
  by repeat (apply elem_of_cons in Hin as [->|Hin]; [exact Hoff|]); apply elem_of_nil in Hin.
Qed.

(** Facts about what has been picked. *)
Lemma picked_next s qs th s' qs' idle :
  picked s qs THREAD_NUM_PRIORITY_LEVELS th s' qs' → sched_inv s qs → idle ∈ dom (sc_threads s) →
  idle ∉ ready qs →
  let next := if th =? NULL then idle else th in
  sched_inv s' qs' ∧ next ∈ dom (sc_threads s) ∧ next ∉ ready qs' ∧ (th = NULL ∨ th ≠ idle) ∧
  chosen (level s) idle qs next qs' ∧ sc_threads s' = sc_threads s ∧ sc_cpu s' = sc_cpu s ∧
  quanta s' = quanta s.
Proof.
  intros Hpick Hs Hid Hnr. destruct Hpick as [(-> & -> & -> & He)|(p & Hp & Hne & He & Hth & Ht)].
  - simpl. split_and!; try done; [by left|]. left. split_and!; done.
  - destruct Ht as (x & c & l1 & l2 & -> & E & -> & Hs' & Hthr).
    assert (th ∈ ready qs) as Hin by (apply elem_of_ready; exists p; rewrite E; split; [done|set_solver +]).
    destruct (ready_addr _ _ _ Hs Hin) as [[Hpos _] Hd].
    rewrite (proj2 (Z.eqb_neq th NULL)) by (unfold NULL; lia).
    split_and!; try done.
    + right. intros ->. done.
    + right. exists p, l1, l2. split_and!; [done| |done|done|done]. intros q Hq Hlt. apply He.
      destruct Hq. lia.
Qed.

(** The rest of [sched_reschedule] for a thread that leaves the processor. *)
Lemma wp_leave s qs curr idle ticks (Q : unit → sched → Prop) :
  sched_inv s qs → curr ∈ dom (sc_threads s) → idle ∈ dom (sc_threads s) → idle ∉ ready qs →
  is_Some (locks (sc_cpu s) !! thread_lock curr) → is_Some (locks (sc_cpu s) !! rq_lock) →
  is_Some (locks (sc_cpu s) !! sched_lock) →
  (∀ th, th ∈ dom (sc_threads s) → th ≠ curr → free_lock s (thread_lock th)) →
  (∀ next s' qs', sched_inv s' qs' → chosen (level s) idle qs next qs' → current_thread s' = next →
     next ∉ ready qs' → running s' idle next → irqs (sc_cpu s') = true →
     (∀ b, b ∈ [thread_lock curr; rq_lock; sched_lock] ∨ free_lock s b → free_lock s' b) → Q tt s') →
  wp (thread_unlock_thread curr;;
      next ← pick_thread (Z.to_nat THREAD_NUM_PRIORITY_LEVELS) (THREAD_NUM_PRIORITY_LEVELS - 1);
      switch_to next idle ticks) s Q.
Proof.
  intros Hs Hcd Hid Hin Hlc Hlr Hls Hfree HQ.
  pose proof (si_addr _ _ Hs) as Haddr. pose proof (Haddr _ Hcd) as [Hcp _].
  pose proof (thread_lock_ok _ (Haddr _ Hcd)) as Ecl.
  apply wp_bind, wp_zoom, wp_spin_unlock; [done|].
  match goal with |- wp _ ?s1 _ => set (s1' := s1) end.
  assert (sched_inv s1' qs) as Hs1
    by (eapply (sched_inv_env s); try done; [apply (si_quanta _ _ Hs)|apply (si_factor _ _ Hs)]).
  apply wp_bind. change (THREAD_NUM_PRIORITY_LEVELS - 1) with (Z.of_nat (Z.to_nat THREAD_NUM_PRIORITY_LEVELS) - 1).
  eapply wp_pick_thread; [exact Hs1|done|]. intros th s2 qs2 Hpick.
  change (Z.of_nat (Z.to_nat THREAD_NUM_PRIORITY_LEVELS)) with THREAD_NUM_PRIORITY_LEVELS in Hpick.
  destruct (picked_next _ _ _ _ _ idle Hpick Hs1 Hid Hin) as (Hs2 & Hnd & Hnr & Hne & Hch & Et & Ec & Eq).
  set (next := if th =? NULL then idle else th) in *.
  pose proof Hnd as [t Ht]%elem_of_dom. pose proof (Haddr _ Hnd) as [Hnp _].
  pose proof (thread_lock_ok _ (Haddr _ Hnd)) as Enl.
  assert (∀ b, b = thread_lock curr ∨ free_lock s b → free_lock s2 b) as Hl2.
  { intros b Hb. unfold free_lock. rewrite Ec. simpl. destruct (decide (b = thread_lock curr)) as [->|Hb'].
    - by rewrite lookup_insert_eq.
    - rewrite lookup_insert_ne by done. by destruct Hb. }
  eapply (wp_switch_to s2 qs2 th idle ticks t); [done|rewrite Et; exact Ht|done|done| | | |].
  - rewrite Ec. simpl. rewrite lookup_insert_ne; [done|]. rewrite Ecl. unfold rq_lock. lia.
  - rewrite Ec. simpl. rewrite lookup_insert_ne; [done|]. rewrite Ecl. unfold sched_lock. lia.
  - apply Hl2. destruct (decide (next = curr)) as [E|E]; [left; by rewrite <- E|right; by apply Hfree].
  - intros s3 Hs3 Hcur Hrun Hirq Hlk. apply (HQ next s3 qs2); try done.
    intros b [[->|[->|[->|Hb%elem_of_nil]%elem_of_cons]%elem_of_cons]%elem_of_cons|Hb]; [|..|done|].
    + apply Hlk. right. apply Hl2. by left.
    + apply Hlk. left. set_solver +.
    + apply Hlk. left. set_solver +.
    + apply Hlk. right. apply Hl2. by right.
Qed.

Lemma wp_sched_reschedule s qs t (Q : unit → sched → Prop) :
  let curr := current_thread s in
  let idle := idle_thread s in
  sched_inv s qs → sc_threads s !! curr = Some t → curr ∉ ready qs →
  idle ∈ dom (sc_threads s) → idle ∉ ready qs →
  held_lock s sched_lock → free_lock s rq_lock →
  (∀ th, th ∈ dom (sc_threads s) → free_lock s (thread_lock th)) →
  (curr = idle ∨ th_next_state t ∈ next_states ∧ th_ijiffies t ≠ 0) →
  (∀ next s' qs', sched_inv s' qs' → current_thread s' = next → next ∉ ready qs' → running s' idle next →
     irqs (sc_cpu s') = true → free_lock s' sched_lock → (∀ b, free_lock s b → free_lock s' b) →
     (if decide (curr ≠ idle ∧ th_next_state t = THREAD_STATE_RUNNING) then next = curr ∧ qs' = qs
      else chosen (level s) idle (after_put s qs t) next qs') → Q tt s') →
  wp sched_reschedule s Q.
Proof.
  intros curr idle Hs Ht Hcr Hid Hir (lk & Hlk & Hl0) Hrq Hfree Hnext HQ.
  assert (curr ∈ dom (sc_threads s)) as Hcd by by apply elem_of_dom_2 in Ht.
  pose proof (si_addr _ _ Hs _ Hcd) as [Hcp _].
  pose proof (thread_lock_ok _ (si_addr _ _ Hs _ Hcd)) as Ecl.
  unfold sched_reschedule. apply wp_bind, wp_zoom. eapply wp_load; [exact Hlk|]. apply wp_bind.
  unfold ASSERT_MSG. rewrite (proj2 (Z.eqb_neq lk 0)) by done. apply wp_ret.
  apply wp_bind. unfold thread_get_current_thread_locked, thread_get_current_thread.
  apply wp_bind, wp_gets, wp_bind, wp_zoom, wp_spin_lock; [by apply Hfree|]. apply wp_ret.
  apply wp_bind, wp_gets, wp_bind, wp_zoom, wp_spin_lock.
  { cbn [upd_cpu sc_cpu locks]. rewrite lookup_insert_ne; [exact Hrq|]. cbn [current_thread upd_cpu].
    fold curr. rewrite Ecl. unfold rq_lock. lia. }
  apply wp_bind, wp_gets. apply wp_bind. eapply wp_st_thread; [exact Ht|].
  apply wp_bind. eapply wp_st_thread; [apply lookup_insert_eq|].
  apply wp_bind. eapply wp_st_thread; [apply lookup_insert_eq|].
  cbn [upd_cpu upd_threads sc_threads sc_cpu locks irqs sched_ticks idle_thread current_thread].
  rewrite !insert_insert_eq. fold curr idle.
  change (with_state _ THREAD_STATE_READY _) with (leaving s t).
  match goal with |- wp _ ?x _ => set (s1 := x) end.
  assert (sched_inv s1 qs) as Hs1.
  { eapply (sched_inv_env (upd_threads (<[curr := leaving s t]> (sc_threads s)) s)); try done.
    - eapply sched_inv_thread; [done|exact Ht|exact (si_carrots _ _ Hs _ _ Ht)|done|by left].
    - apply (si_quanta _ _ Hs).
    - apply (si_factor _ _ Hs). }
  assert (sc_threads s1 !! curr = Some (leaving s t)) as Ht1 by apply lookup_insert_eq.
  assert (∀ a, a ≠ rq_lock → a ≠ thread_lock curr → locks (sc_cpu s1) !! a = locks (sc_cpu s) !! a) as Hl1.
  { intros a H1 H2. simpl. by rewrite !lookup_insert_ne. }
  assert (∀ z, level s1 z = level s z) as Hlv by (by apply (level_upd s s1 curr t (leaving s t))).
  (* the thread leaves, from the state [s2] in which it has been put away *)
  assert (∀ s2 qs2, sched_inv s2 qs2 → idle ∉ ready qs2 → sc_cpu s2 = sc_cpu s1 →
    dom (sc_threads s2) = dom (sc_threads s) → (∀ z, level s2 z = level s z) → qs2 = after_put s qs t →
    ¬ (curr ≠ idle ∧ th_next_state t = THREAD_STATE_RUNNING) →
    wp (thread_unlock_thread curr;;
        next ← pick_thread (Z.to_nat THREAD_NUM_PRIORITY_LEVELS) (THREAD_NUM_PRIORITY_LEVELS - 1);
        switch_to next idle (sched_ticks s)) s2 Q) as Hleave.
  { intros s2 qs2 Hs2 Hi2 Ec Ed Hlv2 Eq Hnr. eapply wp_leave; rewrite ?Ed, ?Ec; try done.
    - simpl. rewrite lookup_insert_ne by (rewrite Ecl; unfold rq_lock; lia). by rewrite lookup_insert_eq.
    - simpl. rewrite lookup_insert_eq. by eexists.
    - rewrite Hl1; [by eexists|done|]. rewrite Ecl. unfold sched_lock. lia.
    - intros th Hd Hne. unfold free_lock. pose proof (si_addr _ _ Hs _ Hd) as [Hp _].
      pose proof (thread_lock_ok _ (si_addr _ _ Hs _ Hd)) as El.
      rewrite Ec, Hl1; [by apply Hfree| |]; rewrite ?Ecl, El; unfold rq_lock; lia.
    - intros next s3 qs3 Hs3 Hch Hcur Hnr3 Hrun Hirq Hlk3. eapply HQ; try done.
      + apply Hlk3. left. set_solver +.
      + intros b Hb. destruct (decide (b = rq_lock)) as [->|H1]; [apply Hlk3; left; set_solver +|].
        destruct (decide (b = thread_lock curr)) as [->|H2]; [apply Hlk3; left; set_solver +|].
        apply Hlk3. right. unfold free_lock. rewrite Ec, Hl1; done.
      + rewrite decide_False by done. subst qs2.
        destruct Hch as [?|(p & l1 & l2 & Hp & Hhi & Hb & Hsp)]; [by left|right].
        exists p, l1, l2. split_and!; try done; [|apply Hsp..]. rewrite Hb. by apply best_ext. }
  apply wp_bind. destruct (Z.eqb_spec idle curr) as [Ei|Ei]; cbn [negb].
  { apply wp_ret. apply (Hleave s1 qs); try done.
    - cbn [s1 upd_threads sc_threads]. by rewrite dom_insert_in.
    - unfold after_put. rewrite decide_False by (intros [? _]; done). done.
    - intros [? _]. done. }
  destruct Hnext as [?|[Hns Hij]]; [congruence|].
  destruct (decide (th_next_state t = THREAD_STATE_READY)) as [Er|Er].
  - eapply (wp_put_ready s1 qs curr (leaving s t)); [done|done|done|done|done|].
    intros x c t' s2 Ep1 Ep2 Hs2. cbv beta iota. apply (Hleave s2 (after_put s qs t)); try done.
    + unfold after_put. rewrite decide_True by done. exact Hs2.
    + unfold after_put. rewrite decide_True by done. intros Hin.
      destruct (ready_change (requeued s t) (qs (requeued s t) ++ [current_thread s]) qs (clamp_prio_in _))
        as (r & E1 & E2). apply Hir. rewrite E2 in Hin. rewrite E1.
      apply elem_of_app in Hin as [[?|?%list_elem_of_singleton]%elem_of_app|?];
        [apply elem_of_app; by left|done|apply elem_of_app; by right].
    + cbn [s2 s1 rq_state upd_threads upd_count upd_lists sc_threads].
      by rewrite !dom_insert_in by (rewrite ?dom_insert_in; done).
    + intros z. rewrite <- Hlv. by apply (level_upd s1 s2 curr (leaving s t) t').
    + intros [_ E]. rewrite E in Er. done.
  - eapply wp_put_away; [exact Ht1|done|done| |].
    + intros E. change (th_state (leaving s t)) with (th_next_state t) in E. cbv iota.
      apply wp_bind, wp_zoom, wp_spin_unlock; [simpl; by rewrite lookup_insert_eq|].
      apply wp_bind, wp_zoom, wp_spin_unlock.
      { simpl. rewrite !lookup_insert_ne by (rewrite Ecl; unfold rq_lock; lia). by rewrite lookup_insert_eq. }
      apply wp_bind, wp_zoom, wp_spin_unlock.
      { exists lk. simpl. rewrite !lookup_insert_ne by (rewrite ?Ecl; unfold rq_lock, sched_lock; lia). exact Hlk. }
      apply wp_zoom. unfold local_irqs_enable. apply wp_modify.
      apply (HQ curr _ qs); try done.
      * eapply (sched_inv_env (upd_threads (<[curr := with_jiffies (SCHED_MSEC2TICKS (quanta s))
          (SCHED_MSEC2TICKS (quanta s)) (leaving s t)]> (sc_threads s1)) s1)); try done.
        -- eapply sched_inv_thread; [exact Hs1|exact Ht1|exact (si_carrots _ _ Hs _ _ Ht)|done|by left].
        -- apply (si_quanta _ _ Hs).
        -- apply (si_factor _ _ Hs).
      * eexists. split_and!; [apply lookup_insert_eq|exact E|done].
      * unfold free_lock. simpl. by rewrite lookup_insert_eq.
      * intros b Hb. unfold free_lock. simpl.
        destruct (decide (b = sched_lock)) as [->|H1]; [by rewrite lookup_insert_eq|]. rewrite lookup_insert_ne by done.
        destruct (decide (b = thread_lock curr)) as [->|H2]; [by rewrite lookup_insert_eq|]. rewrite lookup_insert_ne by done.
        destruct (decide (b = rq_lock)) as [->|H3]; [by rewrite lookup_insert_eq|]. by rewrite !lookup_insert_ne.
      * by rewrite decide_True.
    + intros E. change (th_state (leaving s t)) with (th_next_state t) in E. apply (Hleave s1 qs); try done.
      * cbn [s1 upd_threads sc_threads]. by rewrite dom_insert_in.
      * unfold after_put. rewrite decide_False by (intros [_ ?]; done). done.
      * intros [_ ?]. done.
Qed.
