(* ===== verification/SchedTimer.v ===== *)
(** * The timer of the scheduler

    What the shuffle of the run queues and the timer interrupt do: the ageing of the
    threads at the heads of the queues, as a function of the queues, and the tick. *)

From stdpp Require Import gmap list.
From S2P Require Import Prelude Spinlock XList Sched SchedSpec.
#[local] Open Scope Z_scope.

(** ** Ageing *)

(** The thread at the head of the queue [p] moves to the queue it has come to deserve,
    if that is a higher one. *)
Definition aged (m : gmap Z thread) (ticks factor : Z) (qs : Z → list Z) (p : Z) : Z → list Z :=
  match qs p with
  | [] => qs
  | th :: l =>
      match m !! th with
      | Some t =>
          let new := aged_prio ticks factor (Z.of_nat (length (qs p))) t in
          if p <? new then qset new (qset p l qs new ++ [th]) (qset p l qs) else qs
      | None => qs
      end
  end.

(** The queues a tick looks at. *)
Fixpoint classes (n : nat) (p : Z) : list Z :=
  match n with
  | O => []
  | S n => if p <? THREAD_NUM_PRIORITY_LEVELS - 1 then p :: classes n (p + SCHED_TICK_TYPES_COUNT) else []
  end.

Definition visited (tick : Z) : list Z :=
  filter (λ p, p mod SCHED_TICK_TYPES_COUNT = tick) (seqZ 0 (THREAD_NUM_PRIORITY_LEVELS - 1)).

Lemma classes_visited tick : 0 ≤ tick < SCHED_TICK_TYPES_COUNT → classes 17 tick = visited tick.
Proof.
  unfold SCHED_TICK_TYPES_COUNT. intros Ht.
  assert (tick ∈ seqZ 0 8) as Hin by (apply elem_of_seqZ; lia).
  assert (Forall (λ tick, classes 17 tick = visited tick) (seqZ 0 8)) as Hf by by_decide.
  exact (proj1 (Forall_forall _ _) Hf _ Hin).
Qed.

(** Threads that differ in their dynamic priorities at most. *)
Definition same_but_prio (m m' : gmap Z thread) : Prop :=
  ∀ th, with_prio 0 <$> m' !! th = with_prio 0 <$> m !! th.

#[export] Instance same_but_prio_preorder : PreOrder same_but_prio.
Proof. split; [by intros m th|]. intros m1 m2 m3 H1 H2 th. by rewrite H2. Qed.

Lemma aged_prio_same ticks factor count t t' :
  with_prio 0 t' = with_prio 0 t → aged_prio ticks factor count t' = aged_prio ticks factor count t.
Proof. destruct t, t'. unfold with_prio, aged_prio. simpl. intros E. by injection E as -> -> -> -> -> -> -> -> -> -> -> ->. Qed.

Lemma aged_same m m' ticks factor qs p :
  same_but_prio m m' → aged m' ticks factor qs p = aged m ticks factor qs p.
Proof.
  intros Hm. unfold aged. destruct (qs p) as [|th l]; [done|]. specialize (Hm th).
  destruct (m' !! th) as [t'|], (m !! th) as [t|]; simpl in Hm; [|done..].
  apply Some_inj in Hm. by rewrite (aged_prio_same _ _ _ t t') by done.
Qed.

(** What a shuffle may change: the lists, the counter and the dynamic priorities. *)
Definition shuffle_frame (s s' : sched) : Prop :=
  ∃ x m c, s' = rq_state x m c s ∧ same_but_prio (sc_threads s) m.

#[export] Instance shuffle_frame_preorder : PreOrder shuffle_frame.
Proof.
  split.
  - intros s. exists (sc_lists s), (sc_threads s), (total_count s). split; [by destruct s|done].
  - intros s1 s2 s3 (x & m & c & -> & H1) (x' & m' & c' & -> & H2). exists x', m', c'.
    split; [done|]. by transitivity m.
Qed.

(** The outcome of a shuffle that turns the queues [qs] into [qs']. *)
Definition shuffle_to (s : sched) (qs : Z → list Z) (s' : sched) (qs' : Z → list Z) : Prop :=
  sched_inv s' qs' ∧ shuffle_frame s s' ∧ ready qs' ≡ₚ ready qs ∧
  (∀ th, th ∉ ready qs → sc_threads s' !! th = sc_threads s !! th) ∧
  (∀ p q th, in_prio p → in_prio q → th ∈ qs p → th ∈ qs' q → p ≤ q).

Lemma shuffle_to_refl s qs : sched_inv s qs → shuffle_to s qs s qs.
Proof.
  intros Hs. split_and!; [done|done|done|done|]. intros p q th Hp Hq H1 H2.
  by rewrite (queue_disjoint _ _ _ _ _ Hs Hp Hq H1 H2).
Qed.

Lemma shuffle_to_trans s qs s1 qs1 s2 qs2 :
  shuffle_to s qs s1 qs1 → shuffle_to s1 qs1 s2 qs2 → shuffle_to s qs s2 qs2.
Proof.
  intros (Hs1 & F1 & P1 & T1 & R1) (Hs2 & F2 & P2 & T2 & R2). split_and!.
  - done.
  - by transitivity s1.
  - by rewrite P2.
  - intros th Hth. rewrite T2, T1; [done|done|by rewrite P1].
  - intros p q th Hp Hq H1 H2.
    assert (th ∈ ready qs1) as (r & Hr & H3)%elem_of_ready by (rewrite P1; apply elem_of_ready; eauto).
    specialize (R1 p r th Hp Hr H1 H3). specialize (R2 r q th Hr Hq H3 H2). lia.
Qed.

(** Moving a thread from the head of a queue to the end of another one. *)
Lemma ready_move qs p new th l :
  in_prio p → in_prio new → qs p = th :: l →
  ready (qset new (qset p l qs new ++ [th]) (qset p l qs)) ≡ₚ ready qs.
Proof.
  intros Hp Hnew E.
  destruct (ready_change p l qs Hp) as (r & E1 & E2).
  destruct (ready_change new (qset p l qs new ++ [th]) (qset p l qs) Hnew) as (r' & E3 & E4).
  rewrite E4. transitivity (th :: ready (qset p l qs)); [rewrite E3; solve_Permutation|].
  by rewrite E2, E1, E.
Qed.

Lemma aged_prio_max ticks factor count t : aged_prio ticks factor count t < THREAD_NUM_PRIORITY_LEVELS.
Proof. unfold aged_prio, THREAD_NUM_PRIORITY_LEVELS. case_match; bool_to_prop; lia. Qed.

(** The move itself, for the thread [th] the queue [p] begins with. *)
Lemma wp_promote s qs p th l t new (Q : unit → sched → Prop) :
  let qs' := qset new (qset p l qs new ++ [th]) (qset p l qs) in
  sched_inv s qs → in_prio p → qs p = th :: l → sc_threads s !! th = Some t →
  p < new < THREAD_NUM_PRIORITY_LEVELS →
  (∀ s', shuffle_to s qs s' qs' → Q tt s') →
  wp (rq_pop_head_thread p;; st_thread th (with_prio new);; rq_put_thread th) s Q.
Proof.
  intros qs' Hs Hp E Ht Hnew HQ.
  assert (th ∈ qs p) as Hin by (rewrite E; apply list_elem_of_here).
  assert (in_prio new) as Hnp by (unfold in_prio in *; lia).
  destruct (si_ready _ _ Hs p th Hp Hin) as (t0 & Ht0 & Hst & Hd & Hc). simplify_eq.
  apply wp_bind. eapply wp_rq_pop_head_thread; [done|done|done|].
  intros s1 qs1 (x & c & l1 & l2 & Es1 & E1 & Eq1 & Hs1 & Hnr1).
  assert (l1 ++ l2 = l) as El.
  { assert (NoDup (qs (th_d_prio t))) as Hn by
      (eapply NoDup_fmap_1; apply (ix_nodup _ _ _ (si_lists _ _ Hs _ Hp))).
    rewrite E1 in E, Hn. destruct l1 as [|y l1]; simpl in *; [by simplify_eq|].
    injection E as -> _. apply NoDup_cons in Hn as [Hn _]. set_solver. }
  rewrite El in *. subst qs1.
  assert (sc_threads s1 = sc_threads s) as Et by by rewrite Es1.
  apply wp_bind. eapply wp_st_thread; [by rewrite Et|].
  set (t1 := with_prio new t). set (s2 := upd_threads _ s1).
  assert (sched_inv s2 (qset (th_d_prio t) l qs)) as Hs2.
  { eapply sched_inv_thread; [done|by rewrite Et|exact (si_carrots _ _ Hs _ _ Ht)|done|by left]. }
  eapply (wp_rq_put_thread s2 _ th t1); [exact Hs2| |].
  { split_and!; [apply lookup_insert_eq|done|done|done]. }
  intros x' c' s3 Hs3. apply HQ. split_and!.
  - exact Hs3.
  - exists x', (sc_threads s3), c'. split; [unfold s3, s2; by rewrite Es1|]. intros th'.
    unfold s3, s2, rq_state. cbn [upd_threads upd_lists upd_count sc_threads]. rewrite insert_insert_eq, Et.
    destruct (decide (th' = th)) as [->|Hne]; [|by rewrite lookup_insert_ne].
    rewrite lookup_insert_eq, Ht. unfold t1. simpl. rewrite <- Hc. done.
  - by apply ready_move.
  - intros th' Hth'. unfold s3, s2, rq_state. cbn [upd_threads upd_lists upd_count sc_threads].
    rewrite Et, !lookup_insert_ne; [done|..]; intros <-; apply Hth', elem_of_ready; eauto.
  - intros p' q th' Hp' Hq H1 H2. destruct (decide (th' = th)) as [->|Hne].
    + rewrite (queue_disjoint _ _ _ _ _ Hs Hp' Hp H1 Hin) in *.
      destruct (si_ready _ _ Hs3 q th Hq H2) as (t3 & Ht3 & _ & <- & _).
      unfold s3, s2, rq_state in Ht3. cbn [upd_threads upd_lists upd_count sc_threads] in Ht3.
      rewrite insert_insert_eq, lookup_insert_eq in Ht3. apply Some_inj in Ht3 as <-. simpl. lia.
    + assert (th' ∈ qs q) as H3.
      { unfold qs' in H2. destruct (decide (q = new)) as [->|Hqn].
        - rewrite qset_eq, qset_ne in H2 by lia.
          apply elem_of_app in H2 as [?|?%list_elem_of_singleton]; done.
        - rewrite qset_ne in H2 by done. destruct (decide (q = th_d_prio t)) as [->|Hqp].
          + rewrite qset_eq in H2. rewrite E. by apply list_elem_of_further.
          + by rewrite qset_ne in H2. }
      by rewrite (queue_disjoint _ _ _ _ _ Hs Hp' Hq H1 H3).
Qed.

Lemma wp_shuffle_queue s qs ticks p (Q : unit → sched → Prop) :
  sched_inv s qs → in_prio p →
  (∀ s', shuffle_to s qs s' (aged (sc_threads s) ticks (shuffle_factor s) qs p) → Q tt s') →
  wp (shuffle_queue ticks p) s Q.
Proof.
  intros Hs Hp HQ. unfold shuffle_queue. apply wp_bind. eapply wp_queue_count; [done|done|].
  unfold aged in HQ. destruct (qs p) as [|th l] eqn:E.
  { change (Z.of_nat (length (A:=Z) []) =? 0) with true. apply wp_ret, HQ. by apply shuffle_to_refl. }
  rewrite (proj2 (Z.eqb_neq (Z.of_nat (length (th :: l))) 0)) by (simpl; lia).
  apply wp_bind. eapply wp_rq_peek_head_thread; [done|done|exact E|].
  destruct (si_ready _ _ Hs p th Hp) as (t & Ht & _ & Hd & _); [rewrite E; apply list_elem_of_here|].
  apply wp_bind. eapply wp_load; [done|]. apply wp_bind, wp_gets.
  pose proof (si_factor _ _ Hs). rewrite (proj2 (Z.eqb_neq (shuffle_factor s) 0)) by lia.
  rewrite Ht in HQ. cbv zeta in *. rewrite Hd. case_match eqn:Ep.
  - apply Z.ltb_lt in Ep. eapply wp_promote; [done|done|exact E|done| |exact HQ].
    split; [done|apply aged_prio_max].
  - apply wp_ret, HQ. by apply shuffle_to_refl.
Qed.

Lemma shuffle_frame_factor s s' : shuffle_frame s s' → shuffle_factor s' = shuffle_factor s.
Proof. by intros (x & m & c & -> & _). Qed.

Lemma shuffle_frame_threads s s' : shuffle_frame s s' → same_but_prio (sc_threads s) (sc_threads s').
Proof. by intros (x & m & c & -> & ?). Qed.

Lemma wp_shuffle_loop n : ∀ s qs ticks p (Q : unit → sched → Prop),
  sched_inv s qs → 0 ≤ p →
  (∀ s', shuffle_to s qs s' (foldl (aged (sc_threads s) ticks (shuffle_factor s)) qs (classes n p)) → Q tt s') →
  wp (shuffle_loop n ticks p) s Q.
Proof.
  induction n as [|n IH]; intros s qs ticks p Q Hs Hp HQ; cbn [shuffle_loop classes] in *.
  { apply wp_ret, HQ. by apply shuffle_to_refl. }
  destruct (Z.ltb_spec p (THREAD_NUM_PRIORITY_LEVELS - 1)) as [Hlt|_].
  2: { apply wp_ret, HQ. by apply shuffle_to_refl. }
  apply wp_bind. eapply wp_shuffle_queue; [done|unfold in_prio; lia|]. intros s1 H1.
  pose proof H1 as (Hs1 & Hfr & _). eapply IH; [done|unfold SCHED_TICK_TYPES_COUNT; lia|].
  intros s2 H2. apply HQ. eapply shuffle_to_trans; [done|].
  rewrite (shuffle_frame_factor _ _ Hfr) in H2.
  assert (∀ l qs', foldl (aged (sc_threads s1) ticks (shuffle_factor s)) qs' l =
                   foldl (aged (sc_threads s) ticks (shuffle_factor s)) qs' l) as Ef.
  { induction l as [|q l IHl]; intros qs'; simpl; [done|].
    rewrite IHl. f_equal. apply aged_same. by apply shuffle_frame_threads. }
  simpl. rewrite <- Ef. exact H2.
Qed.

(** The queues after a tick. *)
Definition shuffled (s : sched) (ticks tick : Z) (qs : Z → list Z) : Z → list Z :=
  foldl (aged (sc_threads s) (SCHED_TICKS2MSEC 64 ticks) (shuffle_factor s)) qs (visited tick).

Lemma wp_sched_shuffle_runqueue_head s qs tick (Q : unit → sched → Prop) :
  sched_inv s qs → 0 ≤ tick < SCHED_TICK_TYPES_COUNT →
  (∀ s', shuffle_to s qs s' (shuffled s (sched_ticks s) tick qs) → Q tt s') →
  wp (sched_shuffle_runqueue_head tick) s Q.
Proof.
  intros Hs Ht HQ. unfold sched_shuffle_runqueue_head. apply wp_bind, wp_gets.
  eapply wp_shuffle_loop; [done|unfold SCHED_TICK_TYPES_COUNT in Ht; lia|]. intros s' H'. apply HQ.
  unfold shuffled. by rewrite <- classes_visited.
Qed.

(** ** The quantum of the running thread *)

(** Is there a ready thread of a priority above [low]? *)
Definition waiting_above (qs : Z → list Z) (low n : Z) : bool :=
  existsb (λ p, (low <? p) && negb (bool_decide (qs p = []))) (seqZ 0 n).

Lemma waiting_above_succ qs low n : 0 ≤ n →
  waiting_above qs low (n + 1) = waiting_above qs low n || ((low <? n) && negb (bool_decide (qs n = []))).
Proof.
  intros Hn. unfold waiting_above. rewrite seqZ_app by lia. rewrite existsb_app. simpl.
  rewrite orb_false_r. by rewrite Z.add_0_l.
Qed.

Lemma waiting_above_none qs low n : n - 1 ≤ low → waiting_above qs low n = false.
Proof.
  intros Hn. unfold waiting_above. apply not_true_iff_false. intros (p & Hp & Hb)%existsb_exists.
  apply list_elem_of_In, elem_of_seqZ in Hp. bool_to_prop. lia.
Qed.

Lemma wp_better_queue n : ∀ s qs low (Q : bool → sched → Prop),
  sched_inv s qs → Z.of_nat n ≤ THREAD_NUM_PRIORITY_LEVELS →
  Q (waiting_above qs low (Z.of_nat n)) s → wp (better_queue n (Z.of_nat n - 1) low) s Q.
Proof.
  induction n as [|n IH]; intros s qs low Q Hs Hn HQ; cbn [better_queue]; [by apply wp_ret|].
  replace (Z.of_nat (S n) - 1) with (Z.of_nat n) by lia.
  replace (Z.of_nat (S n)) with (Z.of_nat n + 1) in HQ by lia.
  destruct (Z.ltb_spec low (Z.of_nat n)) as [Hlt|Hge].
  2: { rewrite waiting_above_none in HQ by lia. by apply wp_ret. }
  apply wp_bind. eapply wp_queue_count; [done|unfold in_prio; lia|].
  rewrite waiting_above_succ in HQ by lia. rewrite (proj2 (Z.ltb_lt _ _) Hlt) in HQ.
  destruct (qs (Z.of_nat n)) as [|th l]; cbn [length].
  - change (Z.of_nat 0 =? 0) with true. cbn [negb]. apply (IH s qs); [done|lia|].
    rewrite bool_decide_true, orb_false_r in HQ by done. done.
  - rewrite (proj2 (Z.eqb_neq (Z.of_nat (S (length l))) 0)) by lia. apply wp_ret.
    rewrite bool_decide_false, orb_true_r in HQ by done. done.
Qed.

(** May the thread be preempted, and is it not yet marked? *)
Definition preemptible (t : thread) : bool :=
  (th_preempt_count t =? 0) && (Z.land (th_flags t) THREAD_FLAG_RESCHEDULE =? 0).

(** The running thread has used up its quantum, or a better one is waiting and it has run
    for the least time it is due. *)
Definition due (qs : Z → list Z) (is_idle : bool) (t : thread) (out : Z) : bool :=
  let j := s32 (th_jiffies t - out) in
  preemptible t &&
  (negb is_idle && (j <=? 0) ||
   (is_idle || (THREAD_QUANTA_GRANULARITY <=? SCHED_TICKS2MSEC 32 (s32 (th_ijiffies t - j)))) &&
   waiting_above qs (th_d_prio t) THREAD_NUM_PRIORITY_LEVELS).

Definition ticked (qs : Z → list Z) (is_idle : bool) (t : thread) (out : Z) : thread :=
  let j := s32 (th_jiffies t - out) in
  let t1 := if preemptible t && negb is_idle then with_jiffies (Z.max 0 j) (th_ijiffies t) t else t in
  if due qs is_idle t out then with_flags (Z.lor (th_flags t) THREAD_FLAG_RESCHEDULE) t1 else t1.

Lemma wp_check_running s qs th t out (Q : bool → sched → Prop) :
  ∀ is_idle, is_idle = (idle_thread s =? th) →
  sched_inv s qs → sc_threads s !! th = Some t →
  Q (due qs is_idle t out) (upd_threads (<[th := ticked qs is_idle t out]> (sc_threads s)) s) →
  wp (check_running th out) s Q.
Proof.
  intros is_idle Eidle Hs Ht HQ. unfold check_running. apply wp_bind. eapply wp_load; [done|].
  assert (Q false s → wp (mret false) s Q) as Hret by (intros ?; by apply wp_ret).
  unfold ticked, due in HQ. fold (preemptible t). destruct (preemptible t); cbn [andb] in HQ.
  2: { apply Hret. rewrite insert_id in HQ by done. by destruct s. }
  clear Hret. apply wp_bind, wp_gets. rewrite <- Eidle. cbv zeta in *.
  set (j := s32 (th_jiffies t - out)) in *.
  assert ((if j <=? 0 then 0 else j) = Z.max 0 j) as -> by (destruct (Z.leb_spec j 0); lia).
  set (t1 := if negb is_idle then with_jiffies (Z.max 0 j) (th_ijiffies t) t else t) in *.
  set (s1 := upd_threads (<[th := t1]> (sc_threads s)) s).
  apply wp_bind. assert (∀ Q' : unit → sched → Prop, Q' tt s1 →
    wp (when (negb is_idle) (st_thread th (with_jiffies (Z.max 0 j) (th_ijiffies t)))) s Q') as Hj.
  { intros Q' HQ'. unfold s1, t1 in HQ'. apply wp_when; intros E; rewrite E in HQ'; [by eapply wp_st_thread|].
    rewrite insert_id in HQ' by done. by destruct s. }
  apply Hj. clear Hj. apply wp_bind. eapply wp_load; [apply lookup_insert_eq|].
  assert (sched_inv s1 qs) as Hs1.
  { eapply sched_inv_thread; [done|exact Ht| | |right]; unfold t1; destruct is_idle; try done;
      exact (si_carrots _ _ Hs _ _ Ht). }
  assert (th_flags t1 = th_flags t ∧ th_d_prio t1 = th_d_prio t ∧ th_ijiffies t1 = th_ijiffies t) as (Ef & Ed & Ei)
    by (unfold t1; by destruct is_idle).
  set (b := negb is_idle && (j <=? 0) || _) in HQ. apply wp_bind.
  assert (∀ Q' : bool → sched → Prop, Q' b s1 →
    wp (if negb is_idle && (j <=? 0) then mret true
        else if is_idle || (THREAD_QUANTA_GRANULARITY <=? SCHED_TICKS2MSEC 32 (s32 (th_ijiffies t1 - th_jiffies t1)))
        then better_queue (Z.to_nat THREAD_NUM_PRIORITY_LEVELS) (THREAD_NUM_PRIORITY_LEVELS - 1) (th_d_prio t1)
        else mret false) s1 Q') as Hb.
  { intros Q' HQ'. unfold b in HQ'. destruct (negb is_idle && (j <=? 0)) eqn:E1; [by apply wp_ret|].
    cbn [orb] in HQ'.
    assert (is_idle || (THREAD_QUANTA_GRANULARITY <=? SCHED_TICKS2MSEC 32 (s32 (th_ijiffies t1 - th_jiffies t1))) =
            is_idle || (THREAD_QUANTA_GRANULARITY <=? SCHED_TICKS2MSEC 32 (s32 (th_ijiffies t - j)))) as ->.
    { unfold t1. destruct is_idle; [done|]. simpl in *. bool_to_prop. by rewrite Z.max_r by lia. }
    destruct (is_idle || _); [|by apply wp_ret]. cbn [andb] in HQ'. rewrite Ed.
    change (THREAD_NUM_PRIORITY_LEVELS - 1) with (Z.of_nat (Z.to_nat THREAD_NUM_PRIORITY_LEVELS) - 1).
    by eapply wp_better_queue. }
  apply Hb. clear Hb. apply wp_bind. apply wp_when.
  - intros E. eapply wp_st_thread; [apply lookup_insert_eq|]. apply wp_ret. rewrite E in *. rewrite Ef.
    unfold s1. cbn [upd_threads sc_threads]. by rewrite insert_insert_eq.
  - intros E. apply wp_ret. by rewrite E in *.
Qed.

(** ** Estimates *)

Lemma new_quanta_range count : 0 ≤ count < 2 ^ 32 →
  THREAD_MINIMUM_QUANTA ≤ new_quanta count ≤ THREAD_DEFAULT_QUANTA ∧
  new_quanta count = Z.max THREAD_MINIMUM_QUANTA (THREAD_DEFAULT_QUANTA - count / 2).
Proof.
  intros Hc. unfold new_quanta, THREAD_MINIMUM_QUANTA, THREAD_DEFAULT_QUANTA, SCHED_QUANTA_THRESHOLD2.
  rewrite Z.shiftr_div_pow2 by lia. change (2 ^ 1) with 2.
  assert (0 ≤ count / 2 < 2 ^ 31) as Hh by (split; [apply Z.div_pos; lia|apply Z.div_lt_upper_bound; lia]).
  assert (s32 (u32 (60 - count / 2)) = 60 - count / 2) as ->.
  { destruct (decide (0 ≤ 60 - count / 2)) as [H|H].
    - rewrite uwrap_small, swrap_small; lia.
    - unfold uwrap. replace ((60 - count / 2) mod 2 ^ 32) with (60 - count / 2 + 1 * 2 ^ 32)
        by (rewrite <- (Z_mod_plus_full (60 - count / 2) 1); symmetry; apply Z.mod_small; lia).
      unfold swrap.
      replace (60 - count / 2 + 1 * 2 ^ 32 + 2 ^ (32 - 1)) with (60 - count / 2 + 2 ^ (32 - 1) + 1 * 2 ^ 32) by lia.
      rewrite Z_mod_plus_full. apply (swrap_small 32); lia. }
  destruct (Z.ltb_spec (60 - count / 2) 20); lia.
Qed.

Lemma new_shuffle_factor_range count : 0 ≤ count < 2 ^ 32 → 7 ≤ new_shuffle_factor count < 2 ^ 32.
Proof.
  intros Hc. unfold new_shuffle_factor, SCHED_FACTOR_A, SCHED_FACTOR_BASE, THREAD_DEFAULT_QUANTA,
    SCHED_FACTOR_BTHR, SCHED_FACTOR_BMAX.
  set (a := if count / 200 =? 0 then 1 else count / 200).
  assert (0 ≤ count / 200 ≤ 2 ^ 32 / 200) as Hd by (split; [apply Z.div_pos; lia|apply Z.div_le_mono; lia]).
  change (2 ^ 32 / 200) with 21474836 in Hd.
  assert (1 ≤ a ≤ 21474836) as Ha by (unfold a; destruct (Z.eqb_spec (count / 200) 0); lia).
  set (b0 := if count =? 0 then 8 else 50 / count). set (b1 := if 8 <? b0 then 8 else b0).
  set (b := if b1 =? 0 then 1 else b1).
  assert (0 ≤ b0) by (unfold b0; destruct (Z.eqb_spec count 0); [lia|apply Z.div_pos; lia]).
  assert (1 ≤ b ≤ 8) as Hb by
    (unfold b, b1; destruct (Z.ltb_spec 8 b0); simpl; [lia|destruct (Z.eqb_spec b0 0); lia]).
  clearbody a b. rewrite uwrap_small by lia. split.
  - apply Z.div_le_lower_bound; lia.
  - apply Z.div_lt_upper_bound; nia.
Qed.

(** ** The tick *)

(** The state after a tick in which the timer got the scheduler's lock. *)
Record ticked_state (s : sched) (qs : Z → list Z) (t : thread) (b : bool) (s' : sched) (qs' : Z → list Z)
  : Prop := {
  tk_inv : sched_inv s' qs';
  tk_queues : qs' = shuffled s (sched_ticks s') (sched_tick_type s') qs;
  tk_ready : ready qs' ≡ₚ ready qs;
  tk_raised p q th : in_prio p → in_prio q → th ∈ qs p → th ∈ qs' q → p ≤ q;
  tk_ticks : sched_ticks s' = swrap 64 (sched_ticks s + s32 (sched_lost_ticks s + 1)) ∧ sched_lost_ticks s' = 0;
  tk_type : sched_tick_type s' = (sched_tick_type s + 1) mod SCHED_TICK_TYPES_COUNT;
  tk_result : b = due qs' (idle_thread s =? current_thread s) t (s32 (sched_lost_ticks s + 1));
  tk_running : sc_threads s' !! current_thread s =
    Some (ticked qs' (idle_thread s =? current_thread s) t (s32 (sched_lost_ticks s + 1)));
  tk_estimate :
    let n := Z.of_nat (length (ready qs)) in
    if decide (sched_tick_type s' = SCHED_ESTIMATION_TICK)
    then quanta s' = new_quanta n ∧ shuffle_factor s' = new_shuffle_factor n
    else quanta s' = quanta s ∧ shuffle_factor s' = shuffle_factor s;
  tk_rest : sc_cpu s' = sc_cpu s ∧ current_thread s' = current_thread s ∧ idle_thread s' = idle_thread s }.

Lemma tick_mask x : Z.land x SCHED_TICK_TYPES_MASK = x mod SCHED_TICK_TYPES_COUNT.
Proof. change SCHED_TICK_TYPES_MASK with (Z.ones 3). by rewrite Z.land_ones. Qed.

Lemma wp_scheduler_timer s qs t (Q : bool → sched → Prop) :
  sched_inv s qs → sc_threads s !! current_thread s = Some t → current_thread s ∉ ready qs →
  free_lock s sched_lock → free_lock s rq_lock →
  (∀ b s' qs', ticked_state s qs t b s' qs' → Q b s') → wp scheduler_timer s Q.
Proof.
  intros Hs Ht Hnr Hsl Hrl HQ. unfold scheduler_timer. apply wp_bind, wp_zoom.
  eapply wp_spin_trylock; [exact Hsl|]. apply wp_bind, wp_gets. cbn [upd_cpu sched_lost_ticks].
  set (out := s32 (sched_lost_ticks s + 1)) in *.
  apply wp_bind, wp_modify, wp_bind, wp_gets, wp_bind, wp_zoom, wp_spin_lock.
  { simpl. by rewrite lookup_insert_ne. }
  apply wp_bind, wp_modify, wp_bind, wp_gets.
  match goal with |- wp _ ?s1 _ => set (s1' := s1) end.
  assert (sched_inv s1' qs) as Hs1
    by (eapply (sched_inv_env s); try done; [apply (si_quanta _ _ Hs)|apply (si_factor _ _ Hs)]).
  assert (0 ≤ sched_tick_type s1' < SCHED_TICK_TYPES_COUNT) as Htt.
  { simpl. rewrite tick_mask. by apply Z.mod_pos_bound. }
  apply wp_bind. eapply wp_sched_shuffle_runqueue_head; [exact Hs1|exact Htt|].
  intros s2 (Hs2 & (x & m & c & Es2 & _) & Hperm & Hsame & Hup).
  set (qs' := shuffled _ _ _ _) in *.
  assert (0 ≤ total_count s2 < 2 ^ 32 ∧ total_count s2 = Z.of_nat (length (ready qs))) as [Hc Ec].
  { rewrite (si_count _ _ Hs2). pose proof (ready_bound _ _ Hs2). rewrite Hperm in *. lia. }
  apply wp_bind. set (est := sched_tick_type s1' =? SCHED_ESTIMATION_TICK).
  set (s3 := if est then upd_params (new_quanta (total_count s2)) (new_shuffle_factor (total_count s2)) s2 else s2).
  assert (sched_inv s3 qs') as Hs3.
  { unfold s3. destruct est; [|done]. eapply (sched_inv_env s2); try done; simpl.
    - by apply new_quanta_range.
    - pose proof (new_shuffle_factor_range _ Hc). lia. }
  assert (sc_threads s3 = sc_threads s2) as Et3 by (unfold s3; by destruct est).
  eapply (wp_mono _ _ (λ _ s', s' = s3)); [by apply wp_when; intros E; unfold s3; rewrite E|].
  intros _ ? ->. apply wp_bind.
  eapply (wp_check_running s3 qs' (current_thread s) t out); [reflexivity|exact Hs3| |].
  { rewrite Et3, Hsame by done. exact Ht. }
  assert (sc_cpu s3 = sc_cpu s1' ∧ idle_thread s3 = idle_thread s ∧ current_thread s3 = current_thread s ∧
    sched_ticks s3 = sched_ticks s1' ∧ sched_lost_ticks s3 = 0 ∧ sched_tick_type s3 = sched_tick_type s1')
    as (E1 & E2 & E3 & E4 & E5 & E6) by (unfold s3; rewrite Es2; by destruct est).
  rewrite E2. set (b := due _ _ _ _) in *. set (t' := ticked _ _ _ _) in *.
  apply wp_bind, wp_zoom, wp_spin_unlock.
  { cbn [upd_threads sc_cpu]. rewrite E1. simpl. rewrite lookup_insert_eq. by eexists. }
  apply wp_bind, wp_zoom, wp_spin_unlock.
  { cbn [upd_threads upd_cpu sc_cpu locks]. rewrite E1. simpl.
    rewrite !lookup_insert_ne, lookup_insert_eq by done. by eexists. }
  apply wp_ret. apply (HQ b _ qs').
  assert (current_thread s ∉ ready qs') as Hnr' by by rewrite Hperm.
  assert (sc_threads s3 !! current_thread s = Some t) as Ht3 by by rewrite Et3, Hsame.
  split; cbn [upd_cpu upd_threads sc_threads sched_ticks sched_lost_ticks sched_tick_type quanta shuffle_factor
    sc_cpu current_thread idle_thread locks irqs];
    rewrite ?E1, ?E2, ?E3, ?E4, ?E5, ?E6.
  - eapply (sched_inv_env (upd_threads (<[current_thread s := t']> (sc_threads s3)) s3)); try done.
    + eapply sched_inv_thread; [exact Hs3|exact Ht3| | |by left].
      * pose proof (si_carrots _ _ Hs _ _ Ht). unfold t', ticked. by repeat case_match.
      * unfold t', ticked. by repeat case_match.
    + apply (si_quanta _ _ Hs3).
    + apply (si_factor _ _ Hs3).
  - done.
  - done.
  - exact Hup.
  - done.
  - simpl. apply tick_mask.
  - done.
  - apply lookup_insert_eq.
  - cbv zeta. rewrite <- Ec. unfold s3, est. case_decide as E.
    + by rewrite (proj2 (Z.eqb_eq _ _)).
    + rewrite (proj2 (Z.eqb_neq _ _)) by done. by rewrite Es2.
  - split_and!; [|done|done]. simpl. rewrite !(insert_insert_ne _ sched_lock) by done.
    destruct s as [? [lk ir] ?]. simpl in *. unfold free_lock in *. simpl in *.
    by rewrite !insert_insert_eq, (insert_id lk sched_lock), (insert_id lk rq_lock).
Qed.
