(* ===== verification/SchedProps.v ===== *)
(** * The contract of the scheduler

    What a caller may rely on: the run queues are empty after initialisation; a thread
    that is added waits at the end of the queue of its priority, and one that is removed
    leaves its queue; a tick ages the waiting threads and marks the running one when it
    is due; a reschedule gives the processor to the most significant of the first threads
    of the highest queue. *)

From stdpp Require Import gmap list.
From S2P Require Import Prelude Spinlock XList Sched SchedSpec SchedTimer.
#[local] Open Scope Z_scope.

(** ** Initialisation *)

(** What the memory holds before the scheduler is started. *)
Record startable (s : sched) : Prop := {
  st_queues p : in_prio p → is_Some (lists (sc_lists s) !! rq_queue p);
  st_nodes th : th ∈ dom (sc_threads s) → nodes (sc_lists s) !! sched_list_node th = Some (ListElem NULL NULL);
  st_addr th : th ∈ dom (sc_threads s) → addr_ok th;
  st_carrots th t : sc_threads s !! th = Some t →
    - SCHED_MAX_THREAD_PENALTY ≤ th_carrots_sticks t ≤ SCHED_MAX_THREAD_BONUS;
  st_procs th t : sc_threads s !! th = Some t → is_Some (sc_proc_flags s !! th_process t);
  st_quanta : THREAD_MINIMUM_QUANTA ≤ quanta s ≤ THREAD_DEFAULT_QUANTA;
  st_factor : 0 < shuffle_factor s;
  st_rq_lock : is_Some (locks (sc_cpu s) !! rq_lock);
  st_sched_lock : is_Some (locks (sc_cpu s) !! sched_lock) }.

Lemma wp_init_queues n : ∀ i s (Q : unit → sched → Prop),
  0 ≤ i → i + Z.of_nat n = THREAD_NUM_PRIORITY_LEVELS →
  (∀ p, in_prio p → is_Some (lists (sc_lists s) !! rq_queue p)) →
  (∀ x, (∀ p, i ≤ p < THREAD_NUM_PRIORITY_LEVELS → is_xlist x (rq_queue p) []) →
        (∀ p, 0 ≤ p < i → lists x !! rq_queue p = lists (sc_lists s) !! rq_queue p) →
        (∀ e, nodes x !! e = nodes (sc_lists s) !! e) → Q tt (upd_lists x s)) →
  wp (init_queues n i) s Q.
Proof.
  induction n as [|n IH]; intros i s Q Hi Hn Hex HQ; cbn [init_queues].
  { apply wp_ret. specialize (HQ (sc_lists s)). destruct s. apply HQ; try done. intros p ?. lia. }
  apply wp_bind, wp_zoom. eapply wp_xlist_init; [apply Hex; unfold in_prio; lia|]. intros x1 Hx1 Hf1.
  assert (∀ p, p ≠ i → lists x1 !! rq_queue p = lists (sc_lists s) !! rq_queue p) as Hl1.
  { intros p Hne. apply (xf_lists _ _ _ _ Hf1). intros E%rq_queue_inj. done. }
  assert (∀ e, nodes x1 !! e = nodes (sc_lists s) !! e) as Hn1
    by (intros e; apply (xf_nodes _ _ _ _ Hf1), not_elem_of_nil).
  apply (IH (i + 1)); [lia|lia| |].
  - intros p Hp. simpl. destruct (decide (p = i)) as [->|Hne]; [rewrite (ix_hdr _ _ _ Hx1); by eexists|].
    rewrite Hl1 by done. by apply Hex.
  - simpl. intros x2 Hx2 Hl2 Hn2. apply HQ.
    + intros p Hp. destruct (decide (p = i)) as [->|Hne]; [|apply Hx2; lia].
      split; [rewrite Hl2 by lia; apply (ix_hdr _ _ _ Hx1)|done|constructor|done].
    + intros p Hp. rewrite Hl2, Hl1; [done|lia|lia].
    + intros e. by rewrite Hn2, Hn1.
Qed.

Lemma ready_empty : ready (λ _, []) = [].
Proof. by_decide. Qed.

Lemma wp_start s (Q : Z → sched → Prop) :
  startable s →
  (∀ x, let s' := upd_count 0 (upd_lists x (upd_cpu (Cpu (<[rq_lock := SPIN_UNLOCKED]> (<[sched_lock := SPIN_UNLOCKED]>
          (locks (sc_cpu s)))) (irqs (sc_cpu s))) s)) in
     sched_inv s' (λ _, []) → Q NO_ERROR s') →
  wp (scheduler_init;; scheduler_init_per_cpu) s Q.
Proof.
  intros [] HQ. unfold scheduler_init, scheduler_init_per_cpu, sched_init_runqueue, spin_init.
  apply wp_bind, wp_bind, wp_zoom, wp_spin_unlock; [done|]. apply wp_ret.
  apply wp_bind, wp_bind, wp_zoom, wp_spin_unlock.
  { simpl. by rewrite lookup_insert_ne. }
  apply wp_bind, wp_modify. apply wp_init_queues; [lia|done|exact st_queues0|].
  cbn [upd_count upd_cpu sc_lists locks irqs sc_cpu]. intros x Hx _ Hn. apply wp_ret.
  assert (∀ th, th ∈ dom (sc_threads s) → nodes x !! sched_list_node th = Some (ListElem NULL NULL)) as Hfree
    by (intros th Hd; rewrite Hn; by apply st_nodes0).
  apply HQ. split; cbn [upd_count upd_cpu upd_lists sc_lists sc_threads total_count sc_proc_flags quanta
    shuffle_factor]; try done.
  - intros p th _ Hin. by apply elem_of_nil in Hin.
  - intros th Hd _. by apply Hfree.
  - intros th Hd. rewrite Hfree by done. by eexists.
Qed.

(** ** Ageing does not leave a thread behind *)

(** Visiting another queue appends to [p] one thread at most. *)
Lemma aged_appends m ticks factor qs q p :
  q ≠ p → ∃ r, aged m ticks factor qs q p = qs p ++ r ∧ (length r ≤ 1)%nat.
Proof.
  intros Hne. assert (∃ r, qs p = qs p ++ r ∧ (length r ≤ 1)%nat) as Hid
    by (exists []; rewrite app_nil_r; simpl; split; [done|lia]).
  unfold aged. destruct (qs q) as [|th l]; [done|]. destruct (m !! th) as [t|]; [|done].
  destruct (q <? _); [|done]. unfold qset at 1. case_decide as E.
  - subst p. exists [th]. rewrite qset_ne by done. split; [done|simpl; lia].
  - by rewrite qset_ne.
Qed.

Lemma aged_all_appends m ticks factor l : ∀ qs p,
  p ∉ l → ∃ r, foldl (aged m ticks factor) qs l p = qs p ++ r ∧ (length r ≤ length l)%nat.
Proof.
  induction l as [|q l IH]; intros qs p Hp; simpl.
  { exists []. rewrite app_nil_r. simpl. split; [done|lia]. }
  apply not_elem_of_cons in Hp as [Hne Hp].
  destruct (IH (aged m ticks factor qs q) p Hp) as (r & -> & Hr).
  destruct (aged_appends m ticks factor qs q p) as (r' & -> & Hr'); [done|].
  exists (r' ++ r). rewrite app_assoc, length_app. split; [done|lia].
Qed.

(** A wait long enough pays off up to the highest queue. *)
Definition longest_wait (factor : Z) : Z :=
  (THREAD_NUM_PRIORITY_LEVELS - 1 + SCHED_MAX_THREAD_PENALTY) * factor.

Lemma aged_prio_top ticks factor count t :
  0 < factor → 0 ≤ count < 2 ^ 33 → 0 ≤ th_s_prio t < THREAD_NUM_PRIORITY_LEVELS →
  - SCHED_MAX_THREAD_PENALTY ≤ th_carrots_sticks t ≤ SCHED_MAX_THREAD_BONUS →
  longest_wait factor ≤ ticks - th_sched_stamp t < 2 ^ 30 →
  aged_prio ticks factor count t = THREAD_NUM_PRIORITY_LEVELS - 1.
Proof.
  unfold longest_wait, aged_prio, THREAD_NUM_PRIORITY_LEVELS, SCHED_MAX_THREAD_PENALTY, SCHED_MAX_THREAD_BONUS,
    SCHED_QUEUE_BONUS_THRESHOLD2.
  intros Hf Hc Hp Hb Hw. set (w := ticks - th_sched_stamp t) in *.
  rewrite (swrap_small 64) by lia. rewrite Z.quot_div_nonneg by lia. rewrite Z.shiftr_div_pow2 by lia.
  assert (135 ≤ w / factor < 2 ^ 30) as Hq.
  { split; [apply Z.div_le_lower_bound; lia|apply Z.div_lt_upper_bound; nia]. }
  assert (0 ≤ count / 2 ^ 4 < 2 ^ 29) as Hc'
    by (split; [apply Z.div_pos; lia|apply Z.div_lt_upper_bound; lia]).
  rewrite swrap_small by lia. destruct (Z.ltb_spec (128 - 1) (th_s_prio t + w / factor + count / 2 ^ 4 + th_carrots_sticks t)); lia.
Qed.

Lemma visited_spec tick p : p ∈ visited tick → p < THREAD_NUM_PRIORITY_LEVELS - 1.
Proof. unfold visited. intros [_ H%elem_of_seqZ]%list_elem_of_filter. lia. Qed.

(** A thread at the head of a queue that is visited moves to the highest queue. *)
Lemma shuffled_promotes s qs ticks tick p th l t :
  sched_inv s qs → p ∈ visited tick → in_prio p → qs p = th :: l → sc_threads s !! th = Some t →
  0 ≤ th_s_prio t < THREAD_NUM_PRIORITY_LEVELS →
  longest_wait (shuffle_factor s) ≤ SCHED_TICKS2MSEC 64 ticks - th_sched_stamp t < 2 ^ 30 →
  th ∈ shuffled s ticks tick qs (THREAD_NUM_PRIORITY_LEVELS - 1).
Proof.
  intros Hs Hin Hp E Ht Hsp Hw. unfold shuffled. pose proof (visited_spec _ _ Hin) as Hlt.
  set (top := THREAD_NUM_PRIORITY_LEVELS - 1) in *.
  assert (top ∉ visited tick) as Htop by (intros ?%visited_spec; lia).
  assert (NoDup (visited tick)) as Hnd by (apply NoDup_filter, NoDup_seqZ).
  assert (length (visited tick) ≤ 127)%nat as Hlen.
  { unfold visited. etransitivity; [apply length_filter|]. by rewrite length_seqZ. }
  destruct (list_elem_of_split _ _ Hin) as (l1 & l2 & Ev). rewrite Ev in *.
  apply NoDup_middle in Hnd as (_ & Hp1 & _). rewrite foldl_app. simpl.
  destruct (aged_all_appends (sc_threads s) (SCHED_TICKS2MSEC 64 ticks) (shuffle_factor s) l1 qs p Hp1)
    as (r & Er & Hr).
  set (qs1 := foldl _ qs l1) in *. set (qs2 := aged _ _ _ qs1 p).
  assert (th ∈ qs2 top) as H2.
  { unfold qs2, aged. rewrite Er, E. cbn [app]. rewrite Ht. cbv zeta.
    assert (Z.of_nat (length (th :: l ++ r)) < 2 ^ 33) as Hb.
    { pose proof (ready_bound _ _ Hs). destruct (ready_change p [] qs Hp) as (rest & Ep & _).
      rewrite Ep, length_app, E in H. rewrite length_app in Hlen. simpl in *. rewrite length_app. lia. }
    rewrite aged_prio_top; [|apply (si_factor _ _ Hs)|lia|done|exact (si_carrots _ _ Hs _ _ Ht)|done].
    fold top. rewrite (proj2 (Z.ltb_lt p top) Hlt), qset_eq. apply elem_of_app. right. apply list_elem_of_here. }
  destruct (aged_all_appends (sc_threads s) (SCHED_TICKS2MSEC 64 ticks) (shuffle_factor s) l2 qs2 top)
    as (r2 & -> & _); [set_solver|]. apply elem_of_app. by left.
Qed.

(** ** The theorems *)

(** [scheduler_init] and [scheduler_init_per_cpu] return [NO_ERROR] and leave empty run
    queues that satisfy the invariant, with both locks free. *)
Theorem sched_start_correct s :
  startable s →
  ∃ s', (scheduler_init;; scheduler_init_per_cpu) s = Ok (NO_ERROR, s') ∧ sched_inv s' (λ _, []) ∧
    total_count s' = 0 ∧ sc_threads s' = sc_threads s ∧ free_lock s' rq_lock ∧ free_lock s' sched_lock.
Proof.
  intros Hs. apply wp_run. apply wp_start; [done|]. intros x s' Hinv. split; [done|].
  split_and!; try done; unfold free_lock; simpl.
  - apply lookup_insert_eq.
  - rewrite lookup_insert_ne by done. apply lookup_insert_eq.
Qed.

(** A thread that is new, waiting, sleeping or suspended is added at the end of the queue
    of its static priority, cut to the highest one; its state becomes ready, everything else
    stays as it is, the locks and the interrupt flag included. In any other state the kernel
    panics. *)
Theorem sched_add_thread_correct s qs th t :
  sched_inv s qs → sc_threads s !! th = Some t → held_lock s (thread_lock th) → free_lock s rq_lock →
  0 ≤ th_s_prio t →
  let p := Z.min (THREAD_NUM_PRIORITY_LEVELS - 1) (th_s_prio t) in
  if decide (th_state t ∈ addable)
  then ∃ s', sched_add_thread th s = Ok (tt, s') ∧ sched_inv s' (qset p (qs p ++ [th]) qs) ∧
         sc_threads s' = <[th := queued s t]> (sc_threads s) ∧ sc_cpu s' = sc_cpu s ∧
         current_thread s' = current_thread s
  else sched_add_thread th s = Panic.
Proof.
  intros Hs Ht Hl Hr Hp p. case_decide as Hst.
  - apply wp_run. eapply wp_sched_add_thread; [done..|]. intros x c s' p' Hs'. by split_and!.
  - destruct Hl as (l & Hl & Hne). unfold sched_add_thread, assert_locked, zoom, atomic_get, load.
    unfold mbind, M_bind. rewrite Hl. unfold ASSERT_MSG. rewrite (proj2 (Z.eqb_neq l 0)) by done. simpl.
    unfold ld_thread, load. simpl. rewrite Ht. rewrite addable_test, bool_decide_false by done. done.
Qed.

(** The only place of a thread in a queue it was put at the end of. *)
Lemma last_of_queue (l l1 l2 : list Z) th : th ∉ l → l ++ [th] = l1 ++ th :: l2 → l1 ++ l2 = l.
Proof.
  revert l1. induction l as [|x l IH]; intros [|y l1] Hin E; simpl in *; [by destruct l2|..].
  - injection E as _ E. by destruct l1.
  - injection E as -> _. set_solver.
  - injection E as -> E. f_equal. apply IH; [set_solver|done].
Qed.

(** Adding a thread and removing it again leaves every queue, the count, the locks and the
    interrupt flag as they were. *)
Theorem sched_add_remove s qs th t :
  sched_inv s qs → sc_threads s !! th = Some t → held_lock s (thread_lock th) → free_lock s rq_lock →
  0 ≤ th_s_prio t → th_state t ∈ addable →
  ∃ s' qs', (sched_add_thread th;; sched_remove_thread th) s = Ok (tt, s') ∧ sched_inv s' qs' ∧
    (∀ p, qs' p = qs p) ∧ total_count s' = total_count s ∧ sc_cpu s' = sc_cpu s.
Proof.
  intros Hs Ht Hl Hr Hp Hst. set (p := Z.min (THREAD_NUM_PRIORITY_LEVELS - 1) (th_s_prio t)).
  assert (in_prio p) as Hin by (unfold p, in_prio, THREAD_NUM_PRIORITY_LEVELS; lia).
  assert (th ∉ ready qs) as Hnr.
  { eapply not_ready; [done|done|]. intros E. rewrite E in Hst.
    by apply (bool_decide_eq_false_1 (THREAD_STATE_READY ∈ addable)) in Hst. }
  assert (wp (sched_add_thread th;; sched_remove_thread th) s (λ _ s', ∃ qs', sched_inv s' qs' ∧
    (∀ p, qs' p = qs p) ∧ total_count s' = total_count s ∧ sc_cpu s' = sc_cpu s)) as H.
  { apply wp_bind. eapply wp_sched_add_thread; [done..|]. intros x c s1 p' Hs1. subst p'. fold p in Hs1.
    apply (wp_sched_remove_thread s1 _ p th _ Hs1 Hin); [|done|done|].
    { rewrite qset_eq. set_solver +. }
    intros s2 qs2 (x2 & c2 & l1 & l2 & -> & E & -> & Hs2 & _).
    rewrite qset_eq in E. apply last_of_queue in E as El.
    2: { intros ?. apply Hnr, elem_of_ready. eauto. }
    rewrite El in Hs2. eexists. split; [exact Hs2|].
    assert (∀ q, qset p (qs p) (qset p (qs p ++ [th]) qs) q = qs q) as Eq.
    { intros q. unfold qset. repeat case_decide; congruence. }
    split_and!; [exact Eq| |done]. rewrite (si_count _ _ Hs2), (si_count _ _ Hs). f_equal. f_equal.
    by apply ready_ext. }
  apply wp_ok in H as ([] & s' & -> & qs' & H). exists s', qs'. by split.
Qed.

(** C6: The timer interrupt. When the scheduler's lock is taken, the tick is counted as lost
    and nothing else happens. Otherwise all ticks are accounted for, the queues age as the
    reference function says (no thread is lost, none sinks), the estimates follow on the last
    tick of the cycle, the running thread pays for its ticks, and the result and its mark say
    whether it is due to be rescheduled; the locks are free again. *)
Theorem scheduler_timer_correct s qs t l :
  sched_inv s qs → sc_threads s !! current_thread s = Some t → current_thread s ∉ ready qs →
  free_lock s rq_lock → locks (sc_cpu s) !! sched_lock = Some l → l ∈ [SPIN_UNLOCKED; SPIN_LOCKED] →
  if decide (l = SPIN_UNLOCKED)
  then ∃ b s' qs', scheduler_timer s = Ok (b, s') ∧ ticked_state s qs t b s' qs'
  else scheduler_timer s = Ok (false, upd_ticks (sched_ticks s) (s32 (sched_lost_ticks s + 1)) s).
Proof.
  intros Hs Ht Hnr Hr Hl Hv. case_decide as E.
  - subst l. assert (wp scheduler_timer s (λ b s', ∃ qs', ticked_state s qs t b s' qs')) as H
      by (eapply wp_scheduler_timer; eauto).
    apply wp_ok in H as (b & s' & ? & qs' & ?). eauto.
  - assert (l = SPIN_LOCKED) as -> by set_solver.
    assert (wp scheduler_timer s (λ b s', b = false ∧
      s' = upd_ticks (sched_ticks s) (s32 (sched_lost_ticks s + 1)) s)) as H.
    { unfold scheduler_timer. apply wp_bind, wp_zoom. eapply wp_spin_trylock; [exact Hl|].
      apply wp_bind, wp_modify, wp_ret. split; [done|]. rewrite insert_id by done.
      by destruct s as [? [? ?] ?]. }
    apply wp_ok in H as (b & s' & -> & -> & ->). done.
Qed.

(** C8: No thread waits for ever: once the thread at the head of a queue has waited for
    135 times the shuffle factor, the tick that visits its queue moves it to the highest
    queue, whatever its static priority and its penalty. Every queue is visited by one tick
    in eight. *)
Theorem sched_no_starvation s qs t p th l tw :
  sched_inv s qs → sc_threads s !! current_thread s = Some t → current_thread s ∉ ready qs →
  free_lock s rq_lock → free_lock s sched_lock →
  in_prio p → p < THREAD_NUM_PRIORITY_LEVELS - 1 →
  p mod SCHED_TICK_TYPES_COUNT = (sched_tick_type s + 1) mod SCHED_TICK_TYPES_COUNT →
  qs p = th :: l → sc_threads s !! th = Some tw → 0 ≤ th_s_prio tw < THREAD_NUM_PRIORITY_LEVELS →
  let now := swrap 64 (sched_ticks s + s32 (sched_lost_ticks s + 1)) in
  longest_wait (shuffle_factor s) ≤ SCHED_TICKS2MSEC 64 now - th_sched_stamp tw < 2 ^ 30 →
  ∃ b s' qs', scheduler_timer s = Ok (b, s') ∧ sched_inv s' qs' ∧ th ∈ qs' (THREAD_NUM_PRIORITY_LEVELS - 1).
Proof.
  intros Hs Ht Hnr Hr Hl Hp Hlt Hmod E Htw Hsp now Hw.
  assert (wp scheduler_timer s (λ b s', ∃ qs', ticked_state s qs t b s' qs')) as H
    by (eapply wp_scheduler_timer; eauto).
  apply wp_ok in H as (b & s' & Hrun & qs' & Htk). exists b, s', qs'. split; [done|].
  split; [apply (tk_inv _ _ _ _ _ _ Htk)|]. rewrite (tk_queues _ _ _ _ _ _ Htk).
  destruct (tk_ticks _ _ _ _ _ _ Htk) as [-> _]. rewrite (tk_type _ _ _ _ _ _ Htk).
  apply (shuffled_promotes s qs now _ p th l tw); try done.
  apply list_elem_of_filter. split; [done|]. apply elem_of_seqZ. unfold in_prio in Hp. lia.
Qed.

(** The outcome of a reschedule of the thread [t] that was running. *)
Record rescheduled (s : sched) (qs : Z → list Z) (t : thread) (s' : sched) (qs' : Z → list Z) : Prop := {
  re_inv : sched_inv s' qs';
  re_running : running s' (idle_thread s) (current_thread s');
  re_off_queues : current_thread s' ∉ ready qs';
  re_irqs : irqs (sc_cpu s') = true;
  re_locks : free_lock s' sched_lock ∧ ∀ b, free_lock s b → free_lock s' b;
  re_choice :
    if decide (current_thread s ≠ idle_thread s ∧ th_next_state t = THREAD_STATE_RUNNING)
    then current_thread s' = current_thread s ∧ qs' = qs
    else chosen (level s) (idle_thread s) (after_put s qs t) (current_thread s') qs' }.

(** C3: A reschedule, with the scheduler's lock held. A thread that asked to go on running
    runs on, with a whole quantum. Otherwise the current thread, if it is still ready, goes to
    the end of the queue of its new priority, and the processor is given to the first of the
    most significant among the first ten threads of the highest queue with threads, or to the
    idle thread when there is none; locks are free and interrupts enabled at the end. *)
Theorem sched_reschedule_correct s qs t :
  let curr := current_thread s in
  let idle := idle_thread s in
  sched_inv s qs → sc_threads s !! curr = Some t → curr ∉ ready qs →
  idle ∈ dom (sc_threads s) → idle ∉ ready qs →
  held_lock s sched_lock → free_lock s rq_lock →
  (∀ th, th ∈ dom (sc_threads s) → free_lock s (thread_lock th)) →
  (curr = idle ∨ th_next_state t ∈ next_states ∧ th_ijiffies t ≠ 0) →
  ∃ s' qs', sched_reschedule s = Ok (tt, s') ∧ rescheduled s qs t s' qs'.
Proof.
  intros curr idle Hs Ht Hnr Hd Hi Hsl Hrl Hfree Hnext.
  assert (wp sched_reschedule s (λ _ s', ∃ qs', rescheduled s qs t s' qs')) as H.
  { eapply wp_sched_reschedule; [done..|].
    intros next s' qs' Hs' <- Hnr' Hrun Hirq Hsl' Hlk Hch. by exists qs'. }
  apply wp_ok in H as ([] & s' & Hrun & qs' & H). eauto.
Qed.

(** The scheduler's estimates stay in range, whatever the number of ready threads: quanta
    between 20 and 60 ms, never less than five ticks, so that no share of a quantum divides by
    zero; a shuffle factor of at least 7; bonuses between -8 and 8; priorities that name a
    queue. *)
Theorem sched_estimates_bounded count t p :
  0 ≤ count < 2 ^ 32 →
  new_quanta count = Z.max THREAD_MINIMUM_QUANTA (THREAD_DEFAULT_QUANTA - count / 2) ∧
  THREAD_MINIMUM_QUANTA ≤ new_quanta count ≤ THREAD_DEFAULT_QUANTA ∧
  5 ≤ SCHED_MSEC2TICKS (new_quanta count) ≤ 15 ∧
  7 ≤ new_shuffle_factor count < 2 ^ 32 ∧
  - SCHED_MAX_THREAD_PENALTY ≤ carrots_value t ≤ SCHED_MAX_THREAD_BONUS ∧
  in_prio (clamp_prio p).
Proof.
  intros Hc. destruct (new_quanta_range count Hc) as [Hq Eq].
  pose proof (new_shuffle_factor_range count Hc). pose proof (carrots_range t). pose proof (clamp_prio_in p).
  split_and!; try tauto.
  all: unfold SCHED_MSEC2TICKS, HZ, THREAD_MINIMUM_QUANTA, THREAD_DEFAULT_QUANTA in *;
    change (1000 + Z.rem 1000 250) with 1000; rewrite swrap_small, Z.quot_div_nonneg by lia.
  - apply Z.div_le_lower_bound; lia.
  - apply Z.lt_succ_r, Z.div_lt_upper_bound; lia.
Qed.

(** The assertions hold callers to their locks: adding or removing a thread whose lock is
    free, rescheduling without the scheduler's lock, and a second idle thread panic. *)
Theorem sched_assertions s th :
  (free_lock s (thread_lock th) → sched_add_thread th s = Panic ∧ sched_remove_thread th s = Panic) ∧
  (free_lock s sched_lock → sched_reschedule s = Panic) ∧
  (idle_thread s ≠ 0 → sched_add_idle_thread th s = Panic).
Proof.
  assert (∀ a, free_lock s a → on_cpu (atomic_get a) s = Ok (0, s)) as Hget.
  { intros a Ha. unfold zoom, atomic_get, load. rewrite Ha. by destruct s. }
  split_and!.
  - intros Hl. unfold sched_add_thread, sched_remove_thread, assert_locked, mbind, M_bind.
    by rewrite (Hget _ Hl).
  - intros Hl. unfold sched_reschedule, mbind, M_bind. by rewrite (Hget _ Hl).
  - intros Hi. unfold sched_add_idle_thread, mbind, M_bind, gets, ASSERT_MSG.
    by rewrite (proj2 (Z.eqb_neq (idle_thread s) 0)).
Qed.

(** ** A small machine *)

Lemma sched_inv_cpu s qs c : sched_inv s qs → sched_inv (upd_cpu c s) qs.
Proof. intros Hs. apply (sched_inv_env s); try done; [apply (si_quanta _ _ Hs)|apply (si_factor _ _ Hs)]. Qed.

Lemma sched_inv_clock s qs n l tick : sched_inv s qs → sched_inv (upd_tick_type tick (upd_ticks n l s)) qs.
Proof. intros Hs. apply (sched_inv_env s); try done; [apply (si_quanta _ _ Hs)|apply (si_factor _ _ Hs)]. Qed.

(** The idle thread 1000, the running thread 2000 and a new one, 3000, which is locked. *)
Definition boot : sched :=
  let th st nx sp dp := Thread 1 (Some 0) st nx 0 0 3 15 SCHED_POLICY_ORDINARY sp dp 0 0 in
  Sched (XStore (list_to_map (map (λ t, (sched_list_node t, ListElem NULL NULL)) [1000; 2000; 3000]))
                (list_to_map (map (λ p, (rq_queue p, XListHdr 7 7 7)) (seqZ 0 THREAD_NUM_PRIORITY_LEVELS))))
        (Cpu (list_to_map [(sched_lock, 1); (rq_lock, 1); (1012, 0); (2012, 0); (3012, 1)]) false)
        (list_to_map [(1000, th THREAD_STATE_RUNNING THREAD_STATE_READY (-1) (-1));
                      (2000, th THREAD_STATE_RUNNING THREAD_STATE_READY 30 30);
                      (3000, th THREAD_STATE_BIRTH THREAD_STATE_READY 40 40)])
        {[1 := 0]} 0 0 0 THREAD_DEFAULT_QUANTA (THREAD_DEFAULT_QUANTA / SCHED_FACTOR_BMAX) 3 1000 2000.

Lemma boot_threads (P : Z → thread → Prop) :
  map_Forall P (sc_threads boot) → ∀ th t, sc_threads boot !! th = Some t → P th t.
Proof. intros H th t Ht. by apply H. Qed.

Lemma boot_dom (P : Z → Prop) : Forall P [1000; 2000; 3000] → ∀ th, th ∈ dom (sc_threads boot) → P th.
Proof.
  intros H th Hd. assert (th ∈ elements (dom (sc_threads boot))) as Hin by by apply elem_of_elements.
  assert (elements (dom (sc_threads boot)) ≡ₚ [1000; 2000; 3000]) as E by by_decide.
  rewrite E in Hin. by apply (proj1 (Forall_forall _ _) H).
Qed.

Lemma boot_startable : startable boot.
Proof.
  split.
  - intros p Hp. assert (Forall (λ p, is_Some (lists (sc_lists boot) !! rq_queue p))
      (seqZ 0 THREAD_NUM_PRIORITY_LEVELS)) as H by by_decide.
    apply (proj1 (Forall_forall _ _) H), elem_of_seqZ. unfold in_prio in Hp. lia.
  - apply boot_dom. by repeat (constructor; [vm_compute; reflexivity|]).
  - apply boot_dom. unfold addr_ok. by_decide.
  - apply boot_threads. by_decide.
  - apply boot_threads. by_decide.
  - done.
  - done.
  - by eexists.
  - by eexists.
Qed.

Definition started : sched := outcome (scheduler_init;; scheduler_init_per_cpu) boot.

Lemma started_inv : sched_inv started (λ _, []).
Proof.
  apply (wp_outcome _ _ (λ s, sched_inv s (λ _, []))), wp_start; [exact boot_startable|]. by intros x s'.
Qed.

Definition added : sched := outcome (sched_add_thread 3000) started.

(** The thread 3000 waits in the queue 40. *)
Definition waiting : Z → list Z := qset 40 [3000] (λ _, []).

Lemma started_new : ∃ t, sc_threads started !! 3000 = Some t ∧ th_s_prio t = 40 ∧ th_state t ∈ addable.
Proof. eexists. split; [vm_compute; reflexivity|]. split; [done|by_decide]. Qed.

Lemma started_locks :
  held_lock started (thread_lock 3000) ∧ free_lock started rq_lock ∧ free_lock started sched_lock.
Proof. split; [exists 1; split; [vm_compute; reflexivity|done]|split; vm_compute; reflexivity]. Qed.

Lemma added_inv : sched_inv added waiting.
Proof.
  destruct started_new as (t & Ht & Hp & Hst). destruct started_locks as (Hl & Hr & _).
  apply (wp_outcome _ _ (λ s, sched_inv s waiting)). eapply wp_sched_add_thread; [exact started_inv|exact Ht|exact Hl|exact Hr|lia|exact Hst|].
  rewrite Hp. intros x c s' p' Hs'. exact Hs'.
Qed.

(** The scheduler's lock is taken for a reschedule, and the thread's is free again. *)
Definition leaving_state : sched :=
  upd_cpu (Cpu (list_to_map [(sched_lock, 1); (rq_lock, 0); (1012, 0); (2012, 0); (3012, 0)]) false) added.

Lemma leaving_inv : sched_inv leaving_state waiting.
Proof. apply sched_inv_cpu, added_inv. Qed.

Lemma sched_start_correct_witness :
  startable boot ∧ ∃ s', (scheduler_init;; scheduler_init_per_cpu) boot = Ok (NO_ERROR, s') ∧
    sched_inv s' (λ _, []) ∧ total_count s' = 0 ∧ sc_threads s' = sc_threads boot ∧
    free_lock s' rq_lock ∧ free_lock s' sched_lock.
Proof. split; [exact boot_startable|]. apply (sched_start_correct boot), boot_startable. Defined.

Lemma sched_add_thread_correct_witness :
  ∃ t s', sc_threads started !! 3000 = Some t ∧ sched_add_thread 3000 started = Ok (tt, s') ∧
    sched_inv s' (qset (Z.min 127 (th_s_prio t)) [3000] (λ _, [])).
Proof.
  destruct started_new as (t & Ht & Hp & Hst). destruct started_locks as (Hl & Hr & _).
  pose proof (sched_add_thread_correct started (λ _, []) 3000 t started_inv Ht Hl Hr) as H.
  rewrite decide_True in H by done. destruct H as (s' & Hrun & Hs' & _); [lia|].
  exists t, s'. by split_and!.
Defined.

Lemma sched_add_remove_witness :
  ∃ s' qs', (sched_add_thread 3000;; sched_remove_thread 3000) started = Ok (tt, s') ∧
    sched_inv s' qs' ∧ (∀ p, qs' p = []) ∧ total_count s' = total_count started ∧ sc_cpu s' = sc_cpu started.
Proof.
  destruct started_new as (t & Ht & Hp & Hst). destruct started_locks as (Hl & Hr & _).
  apply (sched_add_remove started (λ _, []) 3000 t started_inv Ht Hl Hr); [lia|done].
Defined.

Lemma added_running : ∃ t, sc_threads added !! current_thread added = Some t ∧
  current_thread added ∉ ready waiting ∧ free_lock added rq_lock ∧ free_lock added sched_lock ∧
  th_d_prio t = 30 ∧ th_jiffies t = 3.
Proof.
  eexists. split; [vm_compute; reflexivity|]. split; [by_decide|]. by split_and!; vm_compute.
Qed.

(** The better thread is not noticed until the running one has had 10 ms. *)
Lemma scheduler_timer_correct_witness :
  ∃ t b s' qs', scheduler_timer added = Ok (b, s') ∧ ticked_state added waiting t b s' qs'.
Proof.
  destruct added_running as (t & Ht & Hnr & Hr & Hl & _).
  pose proof (scheduler_timer_correct added waiting t SPIN_UNLOCKED added_inv Ht Hnr Hr Hl) as H.
  rewrite decide_True in H by done. destruct H as (b & s' & qs' & H); [set_solver +|]. exists t, b, s', qs'. exact H.
Defined.

#[local] Opaque started added.

(** The same machine much later. *)
Definition starving : sched := upd_tick_type 7 (upd_ticks 399 0 added).

Lemma starving_inv : sched_inv starving waiting.
Proof. apply sched_inv_clock, added_inv. Qed.

Lemma added_waiting : ∃ t, sc_threads added !! 3000 = Some t ∧ th_s_prio t = 40 ∧ th_sched_stamp t = 0.
Proof. eexists. split; [vm_compute; reflexivity|]. done. Qed.

Lemma starving_facts : ∃ t tw,
  sc_threads starving !! current_thread starving = Some t ∧ current_thread starving ∉ ready waiting ∧
  free_lock starving rq_lock ∧ free_lock starving sched_lock ∧
  sc_threads starving !! 3000 = Some tw ∧ th_s_prio tw = 40 ∧ th_sched_stamp tw = 0.
Proof.
  destruct added_running as (t & Ht & Hnr & Hr & Hl & _). destruct added_waiting as (tw & Htw & Hp & Hst).
  exists t, tw. exact (conj Ht (conj Hnr (conj Hr (conj Hl (conj Htw (conj Hp Hst)))))).
Qed.

Lemma starving_clock :
  sched_tick_type starving = 7 ∧ shuffle_factor starving = 7 ∧ sched_ticks starving = 399 ∧ sched_lost_ticks starving = 0.
Proof. split_and!; vm_compute; reflexivity. Qed.

Lemma sched_no_starvation_witness :
  ∃ b s' qs', scheduler_timer starving = Ok (b, s') ∧ sched_inv s' qs' ∧ 3000 ∈ qs' 127.
Proof.
  destruct starving_facts as (t & tw & Ht & Hnr & Hr & Hl & Htw & Hp & Hst).
  destruct starving_clock as (E1 & E2 & E3 & E4).
  apply (sched_no_starvation starving waiting t 40 3000 [] tw starving_inv Ht Hnr Hr Hl).
  - unfold in_prio. by_decide.
  - by_decide.
  - rewrite E1. reflexivity.
  - reflexivity.
  - exact Htw.
  - rewrite Hp. by_decide.
  - rewrite Hst, E2, E3, E4. by_decide.
Defined.

Lemma leaving_facts :
  ∃ t, sc_threads leaving_state !! 2000 = Some t ∧ th_next_state t = THREAD_STATE_READY ∧ th_ijiffies t = 15 ∧
    2000 ∉ ready waiting ∧ 1000 ∈ dom (sc_threads leaving_state) ∧ 1000 ∉ ready waiting ∧
    held_lock leaving_state sched_lock ∧ free_lock leaving_state rq_lock.
Proof.
  eexists. split; [vm_compute; reflexivity|]. split_and!; try by_decide.
  - exists 1. split; [vm_compute; reflexivity|done].
  - vm_compute. reflexivity.
Qed.

Lemma leaving_locks : ∀ th, th ∈ dom (sc_threads leaving_state) → free_lock leaving_state (thread_lock th).
Proof.
  intros th Hd. assert (th ∈ dom (sc_threads boot)) as Hb by (revert Hd; vm_compute; done).
  revert th Hb Hd. refine (boot_dom _ _). repeat constructor; intros _; vm_compute; reflexivity.
Qed.

(** The thread 3000, of priority 40, takes the processor from 2000. *)
Lemma sched_reschedule_correct_witness :
  ∃ t s' qs', sched_reschedule leaving_state = Ok (tt, s') ∧ rescheduled leaving_state waiting t s' qs'.
Proof.
  destruct leaving_facts as (t & Ht & Hn & Hj & Hnr & Hd & Hi & Hl & Hr). exists t.
  apply (sched_reschedule_correct leaving_state waiting t leaving_inv Ht Hnr Hd Hi Hl Hr leaving_locks).
  right. rewrite Hn, Hj. split; [by_decide|done].
Defined.

Lemma sched_estimates_bounded_witness :
  0 ≤ 30 < 2 ^ 32 ∧ 5 ≤ SCHED_MSEC2TICKS (new_quanta 30) ≤ 15.
Proof.
  split; [done|].
  apply (sched_estimates_bounded 30 (Thread 1 None 0 0 0 0 0 15 SCHED_POLICY_ORDINARY 30 30 0 0) 200). done.
Defined.
