(* ===== verification/Alloc.v ===== *)
(** * Memory allocation, as the clients of the heap see it

    A client asks for blocks and gives them back. What it relies on is stated once, by a
    class of allocators and a class of their laws; the kernel heap is an instance. *)

From stdpp Require Import gmap list.
From S2P Require Import Prelude Spinlock Heap HeapSpec.
#[local] Open Scope Z_scope.

Class Allocator := {
  al_state : Type;
  al_alloc : Z → M al_state Z;
  al_free : Z → M al_state unit }.

(** [al_live h L]: the allocator is in order and [L] are the blocks in use; [al_room h size]:
    a request of [size] bytes can be met. *)
Class AllocLaws (A : Allocator) := {
  al_live : al_state → gset Z → Prop;
  al_room : al_state → Z → Prop;
  al_alloc_ok h L size (Q : Z → al_state → Prop) :
    al_live h L → al_room h size → 0 ≤ size →
    (∀ a h', a ∉ L → 0 < a → a + size ≤ 2 ^ 32 → al_live h' ({[a]} ∪ L) → Q a h') →
    wp (al_alloc size) h Q;
  al_alloc_exhausted h L size : al_live h L → ¬ al_room h size → al_alloc size h = Panic;
  al_free_ok h L a (Q : unit → al_state → Prop) :
    al_live h L → a ∈ L → (∀ h', al_live h' (L ∖ {[a]}) → Q tt h') → wp (al_free a) h Q }.

(** ** The kernel heap *)

#[export] Instance heap_allocator : Allocator := {|
  al_state := heap; al_alloc := kmalloc; al_free := kfree |}.

Definition heap_live (h : heap) (L : gset Z) : Prop := ∃ live, heap_ok h live ∧ dom live = L.

Definition heap_room (h : heap) (size : Z) : Prop :=
  size ≤ 0x18000 ∧ ∀ k, best_bin size k → ¬ exhausted h k.

Lemma best_bin_unique size k k' : best_bin size k → best_bin size k' → k = k'.
Proof.
  intros (_ & H1 & H2) (_ & H3 & H4). destruct (lt_eq_lt_dec k k') as [[Hlt| ->]|Hlt]; [|done|].
  - specialize (H4 _ Hlt). lia.
  - specialize (H2 _ Hlt). lia.
Qed.

Lemma heap_alloc_ok h L size (Q : Z → heap → Prop) :
  heap_live h L → heap_room h size → 0 ≤ size →
  (∀ a h', a ∉ L → 0 < a → a + size ≤ 2 ^ 32 → heap_live h' ({[a]} ∪ L) → Q a h') →
  wp (kmalloc size) h Q.
Proof.
  intros (live & Hh & <-) [Hs Hroom] H0 HQ. destruct (proj2 (kmalloc_spec h live size Hh) Hs) as (k & Hk & H).
  rewrite decide_False in H by by apply Hroom. destruct H as (a & h' & E & Hne & Hp).
  eapply wp_of_ok; [done|]. destruct Hp as (Hh' & _ & _ & Hlo & Hhi & _ & _ & Hd).
  destruct Hk as (Hkn & Hsz & _). pose proof Hh as (_ & rs & frees & Hinv).
  pose proof (hi_room _ _ _ _ Hinv). pose proof (hi_base _ _ _ _ Hinv) as [? _].
  apply HQ; [|lia|lia|].
  - intros [j Hj]%elem_of_dom. destruct (bin_sizes k Hkn) as [Hpos _ _ _ _].
    pose proof (Hd _ _ Hj) as [?|Hd']; [lia|].
    pose proof (hi_live _ _ _ _ Hinv _ _ Hj) as Hb.
    pose proof (block_bounds _ _ (hi_rs _ _ _ _ Hinv) _ _ Hb) as (Hj' & _).
    destruct (bin_sizes j Hj'). lia.
  - eexists. split; [exact Hh'|]. by rewrite dom_insert_L.
Qed.

Lemma heap_alloc_exhausted h L size : heap_live h L → ¬ heap_room h size → kmalloc size h = Panic.
Proof.
  intros (live & Hh & _) Hno. destruct (decide (size ≤ 0x18000)) as [Hs|Hs].
  - destruct (proj2 (kmalloc_spec h live size Hh) Hs) as (k & Hk & H). case_decide as Hx; [done|].
    destruct Hno. split; [done|]. intros k' Hk'. by rewrite (best_bin_unique _ _ _ Hk' Hk).
  - apply (proj1 (kmalloc_spec h live size Hh)). lia.
Qed.

Lemma heap_free_ok h L a (Q : unit → heap → Prop) :
  heap_live h L → a ∈ L → (∀ h', heap_live h' (L ∖ {[a]}) → Q tt h') → wp (kfree a) h Q.
Proof.
  intros (live & Hh & <-) [k Ha]%elem_of_dom HQ. destruct (kfree_spec h live a k Hh Ha) as (h' & E & Hp & _).
  eapply wp_of_ok; [done|]. apply HQ. exists (delete a live). split; [apply Hp|]. by rewrite dom_delete_L.
Qed.

#[export] Instance heap_laws : AllocLaws heap_allocator := {|
  al_live := heap_live; al_room := heap_room; al_alloc_ok := heap_alloc_ok;
  al_alloc_exhausted := heap_alloc_exhausted; al_free_ok := heap_free_ok |}.
