(* ===== verification/Timer.v ===== *)
(** * Timer events: [kernel/timer.c]

    Events wait in a queue by delta: each event keeps the number of ticks between the one
    before it and its own time. Sleeping threads are given back to the scheduler, timeout
    calls are handed to a handler thread, which finds them by identifier in an AVL tree.
    The state of the model is the static data of the file, the events, their list nodes,
    tree nodes and run locks, the state of the allocator the events come from and the state
    of the scheduler. [calls] records the timeout routines that have been called. What a
    block holds when it is allocated is a parameter. *)

From S2P Require Import Prelude Spinlock XList AvlTree Alloc Sched.
From stdpp Require Import gmap list.
#[local] Open Scope Z_scope.

(** ** Data *)

(** [event_t]: the union of the data of timeout calls and of sleeping threads. *)
Inductive event_kind :=
  | Timeout (id routine data : Z) (canceled : bool)
  | Wake (thread : Z).

Record event := Event { ev_delta : Z; ev_kind : event_kind }.

Definition sizeof_event : Z := 52.

Definition ev_node (e : Z) : Z := u32 (e + 28).

Definition node_event (n : Z) : Z := u32 (n - 28).

Definition tree_node : Z := 36.

Definition events_lock : Z := 1.

Definition timeouts_lock : Z := 2.

Definition events_queue : Z := 4.

Definition ready_timeouts_queue : Z := 16.

Definition timeouts_tree : Z := 28.

Definition INVALID_TIMEOUTID : Z := 0.

Definition INT_FLAGS_NOFLAGS : Z := 0.

Definition INT_FLAGS_RESCHED : Z := 1.

Definition TIMER_MSEC_PER_SEC : Z := 1000.

Definition TIMER_TICKS_TO_TIME (tick u : Z) : Z := Z.quot (swrap 64 (tick * (u + Z.rem u HZ))) HZ.

Section timer.
Context {A : Allocator}.

(** What fresh memory holds. *)
Record junk := Junk { junk_elem : list_elem; junk_anode : anode; junk_lock : Z; junk_delta : Z }.

Record timer := TimerState {
  tm_sched : sched; tm_heap : al_state; tm_lists : xstore; tm_events : gmap Z event;
  tm_runs : gmap Z Z; tm_tree : astore; timer_ticks : Z; next_timeout_id : Z;
  events_ticks_lost : Z; timeout_calls_thread : Z; calls : list (Z * Z * Z) }.

(** ** Access *)

Definition upd_sched x s := TimerState x (tm_heap s) (tm_lists s) (tm_events s) (tm_runs s) (tm_tree s)
  (timer_ticks s) (next_timeout_id s) (events_ticks_lost s) (timeout_calls_thread s) (calls s).
Definition upd_heap x s := TimerState (tm_sched s) x (tm_lists s) (tm_events s) (tm_runs s) (tm_tree s)
  (timer_ticks s) (next_timeout_id s) (events_ticks_lost s) (timeout_calls_thread s) (calls s).
Definition upd_lists x s := TimerState (tm_sched s) (tm_heap s) x (tm_events s) (tm_runs s) (tm_tree s)
  (timer_ticks s) (next_timeout_id s) (events_ticks_lost s) (timeout_calls_thread s) (calls s).
Definition upd_events x s := TimerState (tm_sched s) (tm_heap s) (tm_lists s) x (tm_runs s) (tm_tree s)
  (timer_ticks s) (next_timeout_id s) (events_ticks_lost s) (timeout_calls_thread s) (calls s).
Definition upd_runs x s := TimerState (tm_sched s) (tm_heap s) (tm_lists s) (tm_events s) x (tm_tree s)
  (timer_ticks s) (next_timeout_id s) (events_ticks_lost s) (timeout_calls_thread s) (calls s).
Definition upd_tree x s := TimerState (tm_sched s) (tm_heap s) (tm_lists s) (tm_events s) (tm_runs s) x
  (timer_ticks s) (next_timeout_id s) (events_ticks_lost s) (timeout_calls_thread s) (calls s).
Definition upd_ticks t l s := TimerState (tm_sched s) (tm_heap s) (tm_lists s) (tm_events s) (tm_runs s)
  (tm_tree s) t (next_timeout_id s) l (timeout_calls_thread s) (calls s).
Definition upd_next x s := TimerState (tm_sched s) (tm_heap s) (tm_lists s) (tm_events s) (tm_runs s)
  (tm_tree s) (timer_ticks s) x (events_ticks_lost s) (timeout_calls_thread s) (calls s).
Definition upd_calls x s := TimerState (tm_sched s) (tm_heap s) (tm_lists s) (tm_events s) (tm_runs s)
  (tm_tree s) (timer_ticks s) (next_timeout_id s) (events_ticks_lost s) (timeout_calls_thread s) x.

Abbreviation on_sched := (zoom tm_sched upd_sched).
Abbreviation on_heap := (zoom tm_heap upd_heap).
Abbreviation on_events := (zoom tm_lists upd_lists).
Abbreviation on_tree := (zoom tm_tree upd_tree).

Definition on_irqs {B} (m : M cpu B) : M timer B := on_sched (zoom sc_cpu upd_cpu m).

(** The run locks of the events, on the same processor. *)
Definition on_run_locks {B} : M cpu B → M timer B :=
  zoom (λ s, Cpu (tm_runs s) (irqs (sc_cpu (tm_sched s))))
       (λ c s, upd_sched (upd_cpu (Cpu (locks (sc_cpu (tm_sched s))) (irqs c)) (tm_sched s)) (upd_runs (locks c) s)).

Definition ld_event (e : Z) : M timer event := load (λ s, tm_events s !! e).

Definition st_event (e : Z) (v : event) : M timer unit := modify (λ s, upd_events (<[e := v]> (tm_events s)) s).

Definition with_delta (d : Z) (v : event) : event := Event d (ev_kind v).

Definition cancel (v : event) : event :=
  Event (ev_delta v) (match ev_kind v with
                      | Timeout id r d _ => Timeout id r d true
                      | Wake th => Wake th
                      end).

(** [e->id] *)
Definition event_id (v : event) : Z := match ev_kind v with Timeout id _ _ _ => id | Wake _ => 0 end.

(** [compare_timeout_id] on the events of a state; [ids] gives the identifiers of objects
    outside the heap. *)
Definition compare_timeout_id (ids : Z → Z) (e1 e2 : Z) : Z :=
  if ids e2 <? ids e1 then 1 else if ids e1 <? ids e2 then -1 else 0.

Definition timeout_client (ids : Z → Z) : AvlClient := {| avl_compare := compare_timeout_id ids |}.

Definition ids_of (m : gmap Z event) (e : Z) : Z := default 0 (event_id <$> m !! e).

(** The identifiers when a lookup key [tid] is at the address [key]. *)
Definition ids_key (m : gmap Z event) (key tid e : Z) : Z := if e =? key then tid else ids_of m e.

(** ** Memory of events *)

Definition add_object (j : junk) (e : Z) (k : event_kind) (s : timer) : timer :=
  upd_events (<[e := Event (junk_delta j) k]> (tm_events s))
    (upd_lists (XStore (<[ev_node e := junk_elem j]> (nodes (tm_lists s))) (lists (tm_lists s)))
      (upd_tree (AStore (<[AVL_DATA2NODE e tree_node := junk_anode j]> (anodes (tm_tree s))) (atrees (tm_tree s)))
        (upd_runs (<[e := junk_lock j]> (tm_runs s)) s))).

Definition drop_object (e : Z) (s : timer) : timer :=
  upd_events (delete e (tm_events s))
    (upd_lists (XStore (delete (ev_node e) (nodes (tm_lists s))) (lists (tm_lists s)))
      (upd_tree (AStore (delete (AVL_DATA2NODE e tree_node) (anodes (tm_tree s))) (atrees (tm_tree s)))
        (upd_runs (delete e (tm_runs s)) s))).

(** [kmalloc(sizeof(event_t))] and the stores of the fields but [delta]. *)
Definition new_event (j : junk) (k : event_kind) : M timer Z :=
  e ← on_heap (al_alloc sizeof_event);
  if e =? NULL then panic else modify (add_object j e k);; mret e.

Definition free_event (e : Z) : M timer unit := on_heap (al_free e);; modify (drop_object e).

(** ** The events queue *)

Definition get_next_timeout_id : M timer Z :=
  retval ← gets next_timeout_id;
  modify (λ s, upd_next (u32 (next_timeout_id s + 1)) s);;
  if retval =? INVALID_TIMEOUTID then panic else mret retval.

Definition peek_next_event (e : Z) : M timer Z :=
  if e =? NULL then mret NULL
  else
    n ← on_events (xlist_peek_next (ev_node e));
    if n =? NULL then mret NULL
    else n ← on_events (xlist_peek_next (ev_node e)); mret (node_event n).

Definition peek_first_event : M timer Z :=
  e ← on_events (xlist_peek_first events_queue);
  mret (if e =? NULL then NULL else node_event e).

Definition extract_first_event : M timer Z :=
  e ← on_events (xlist_extract_first events_queue);
  mret (if e =? NULL then NULL else node_event e).

Definition destroy_first_event : M timer unit :=
  e ← on_events (xlist_extract_first events_queue);
  if e =? NULL then mret tt else free_event (node_event e).

(** The walk for the event to insert before, and the delta left; [fuel]: the events and one. *)
Fixpoint find_place (fuel : nat) (evt tick : Z) : M timer (Z * Z) :=
  match fuel with
  | O => hang
  | S fuel =>
      if evt =? NULL then mret (evt, tick)
      else
        v ← ld_event evt;
        if tick <? ev_delta v then
          st_event evt (with_delta (s32 (ev_delta v - tick)) v);; mret (evt, tick)
        else if tick =? ev_delta v then
          evt ← peek_next_event evt; mret (evt, 0)
        else
          evt ← peek_next_event evt; find_place fuel evt (s32 (tick - ev_delta v))
  end.

Definition add_new_event_nolock (new_evt tick : Z) : M timer unit :=
  evt ← peek_first_event;
  fuel ← gets (λ s, S (size (tm_events s)));
  r ← find_place fuel evt tick;
  v ← ld_event new_evt;
  st_event new_evt (with_delta r.2 v);;
  (if negb (r.1 =? NULL)
   then on_events (xlist_insert_before_unsafe events_queue (ev_node r.1) (ev_node new_evt))
   else on_events (xlist_add_last events_queue (ev_node new_evt)));;
  mret tt.

Definition extract_timeout_event : M timer Z :=
  e ← on_events (xlist_extract_first ready_timeouts_queue);
  mret (if e =? NULL then NULL else node_event e).

Definition enqueue_timeout_event (evt : Z) : M timer unit :=
  on_events (xlist_add_last ready_timeouts_queue (ev_node evt));; mret tt.

(** ** The timer tick *)

Definition wake_thread (th : Z) : M timer unit :=
  on_sched (thread_lock_thread th);; on_sched (sched_add_thread th);; on_sched (thread_unlock_thread th).

(** The handler thread is made ready to run. *)
Definition wake_handler : M timer unit :=
  th ← gets timeout_calls_thread;
  on_sched (thread_lock_thread th);;
  t ← on_sched (ld_thread th);
  when (th_state t =? THREAD_STATE_SUSPENDED) (on_sched (sched_add_thread th));;
  t ← on_sched (ld_thread th);
  when (th_next_state t =? THREAD_STATE_SUSPENDED)
    (on_sched (st_thread th (λ t, with_state (th_state t) THREAD_STATE_READY t)));;
  on_sched (thread_unlock_thread th).

(** The loop over the queue; [woken]: the handler thread has been made ready. *)
Fixpoint fire_loop (fuel : nat) (ticks : Z) (woken resched : bool) : M timer bool :=
  match fuel with
  | O => hang
  | S fuel =>
      evt ← peek_first_event;
      if evt =? NULL then mret resched
      else
        v ← ld_event evt;
        let d := s32 (ev_delta v - ticks) in
        st_event evt (with_delta d v);;
        if d <=? 0 then
          match ev_kind v with
          | Wake th => wake_thread th;; destroy_first_event;; fire_loop fuel (s32 (- d)) woken true
          | Timeout _ _ _ _ =>
              extract_first_event;;
              enqueue_timeout_event evt;;
              when (negb woken) wake_handler;;
              fire_loop fuel (s32 (- d)) true true
          end
        else mret resched
  end.

Definition timer_schedule_event : M timer bool :=
  got ← on_irqs (spin_trylock events_lock);
  if got =? 0 then
    modify (λ s, upd_ticks (timer_ticks s) (s32 (events_ticks_lost s + 1)) s);; mret false
  else
    lost ← gets events_ticks_lost;
    modify (λ s, upd_ticks (timer_ticks s) 0 s);;
    fuel ← gets (λ s, S (size (tm_events s)));
    resched ← fire_loop fuel (s32 (lost + 1)) false false;
    on_irqs (spin_unlock events_lock);;
    mret resched.

Definition timer_tick : M timer Z :=
  modify (λ s, upd_ticks (swrap 64 (timer_ticks s + 1)) (events_ticks_lost s) s);;
  r1 ← timer_schedule_event;
  let ret := if (r1 : bool) then Z.lor INT_FLAGS_NOFLAGS INT_FLAGS_RESCHED else INT_FLAGS_NOFLAGS in
  r2 ← on_sched scheduler_timer;
  mret (if (r2 : bool) then Z.lor ret INT_FLAGS_RESCHED else ret).

Definition timer_get_ticks : M timer Z :=
  irqs_state ← on_irqs local_irqs_save_and_disable;
  ticks_cpy ← gets timer_ticks;
  on_irqs (local_irqs_restore irqs_state);;
  mret ticks_cpy.

Definition timer_get_time : M timer Z :=
  ticks ← timer_get_ticks; mret (TIMER_TICKS_TO_TIME ticks TIMER_MSEC_PER_SEC).

(** ** Sleeping threads *)

Definition timer_lull_thread (j : junk) (th ticks : Z) : M timer Z :=
  on_sched (assert_locked th);;
  t ← on_sched (ld_thread th);
  on_sched (ASSERT_MSG ((th_state t =? THREAD_STATE_READY) || (th_state t =? THREAD_STATE_RUNNING)));;
  on_sched (ASSERT_MSG ((th_next_state t =? THREAD_STATE_READY) || (th_next_state t =? THREAD_STATE_RUNNING)));;
  new_evt ← new_event j (Wake th);
  on_sched (st_thread th (λ t, with_state (th_state t) THREAD_STATE_SLEEPING t));;
  when (th_state t =? THREAD_STATE_READY)
    (on_sched (st_thread th (λ t, with_state THREAD_STATE_SLEEPING (th_next_state t) t)));;
  irqs_state ← on_irqs (spin_lock_irqsave events_lock);
  add_new_event_nolock new_evt (s32 ticks);;
  on_irqs (spin_unlock_irqrstor events_lock irqs_state);;
  mret NO_ERROR.

(** ** Timeout calls *)

Definition timer_timeout_sched (j : junk) (routine data ticks : Z) : M timer Z :=
  e ← on_heap (al_alloc sizeof_event);
  if e =? NULL then panic
  else
    id ← get_next_timeout_id;
    modify (add_object j e (Timeout id routine data false));;
    on_run_locks (spin_init e);;
    irqs_state ← on_irqs (spin_lock_irqsave events_lock);
    on_irqs (spin_lock timeouts_lock);;
    add_new_event_nolock e (s32 ticks);;
    ids ← gets (λ s, ids_of (tm_events s));
    r ← on_tree (@avl_tree_add (timeout_client ids) timeouts_tree e);
    (if r =? NULL then panic else mret tt);;
    on_irqs (spin_unlock timeouts_lock);;
    on_irqs (spin_unlock_irqrstor events_lock irqs_state);;
    v ← ld_event e;
    mret (event_id v).

(** The event of an identifier; [key]: the address of the lookup key on the stack. *)
Definition find_timeout (key tid : Z) : M timer Z :=
  ids ← gets (λ s, ids_key (tm_events s) key tid);
  r ← on_tree (@avl_tree_find (timeout_client ids) timeouts_tree key);
  mret r.1.

Definition timer_timeout_cancel (key tid : Z) : M timer unit :=
  irqs_state ← on_irqs (spin_lock_irqsave timeouts_lock);
  evt ← find_timeout key tid;
  when (negb (evt =? NULL)) (v ← ld_event evt; st_event evt (cancel v));;
  on_irqs (spin_unlock_irqrstor timeouts_lock irqs_state).

(** One turn of the synchronised cancellation; [true]: it has to be retried, the thread
    yields and turns again. *)
Definition cancel_sync_turn (key tid : Z) : M timer bool :=
  irqs_state ← on_irqs (spin_lock_irqsave timeouts_lock);
  evt ← find_timeout key tid;
  retry ← (if negb (evt =? NULL) then
             r ← on_run_locks (spin_trylock evt);
             let retry := r =? 0 in
             when (negb retry) (v ← ld_event evt; st_event evt (cancel v));;
             mret retry
           else mret false);
  on_irqs (spin_unlock_irqrstor timeouts_lock irqs_state);;
  mret retry.

(** [yields]: what the other threads do before this one runs again, turn by turn. *)
Fixpoint timer_timeout_cancel_sync (yields : list (M timer unit)) (key tid : Z) : M timer unit :=
  retry ← cancel_sync_turn key tid;
  if (retry : bool) then
    match yields with
    | [] => hang
    | y :: yields => y;; timer_timeout_cancel_sync yields key tid
    end
  else mret tt.

(** One turn of the handler thread; [tmp]: the address of the local node of
    [avl_tree_remove]. [false]: there was nothing to do, the thread suspends itself. *)
Definition timeout_calls_handler (tmp : Z) : M timer bool :=
  irqs_state ← on_irqs (spin_lock_irqsave events_lock);
  evt ← extract_timeout_event;
  on_irqs (spin_unlock_irqrstor events_lock irqs_state);;
  if evt =? NULL then mret false
  else
    v ← ld_event evt;
    match ev_kind v with
    | Wake _ => panic
    | Timeout id routine data _ =>
        on_run_locks (spin_lock evt);;
        v ← ld_event evt;
        when (match ev_kind v with Timeout _ _ _ c => negb c | Wake _ => false end)
          (modify (λ s, upd_calls (calls s ++ [(routine, id, data)]) s));;
        on_run_locks (spin_unlock evt);;
        irqs_state ← on_irqs (spin_lock_irqsave timeouts_lock);
        ids ← gets (λ s, ids_of (tm_events s));
        r ← on_tree (@avl_tree_remove (timeout_client ids) timeouts_tree evt tmp);
        (if r =? NULL then panic else mret tt);;
        on_irqs (spin_unlock_irqrstor timeouts_lock irqs_state);;
        free_event evt;;
        mret true
    end.

(** The turns of the handler thread until it suspends itself; the fuel of [handler_run]: a
    turn for every event and the last one. *)
Fixpoint handler_loop (fuel : nat) (tmp : Z) : M timer unit :=
  match fuel with
  | O => hang
  | S fuel =>
      more ← timeout_calls_handler tmp;
      if (more : bool) then handler_loop fuel tmp else mret tt
  end.

Definition handler_run (tmp : Z) : M timer unit :=
  fuel ← gets (λ s, S (size (tm_events s))); handler_loop fuel tmp.

(** ** Initialisation *)

(** [init_event]: [sizeof(event_t)] is not used by the tree. *)
Definition timer_init : M timer Z :=
  on_irqs (spin_init events_lock);;
  on_irqs (spin_init timeouts_lock);;
  on_events (xlist_init events_queue);;
  on_events (xlist_init ready_timeouts_queue);;
  on_tree (avl_tree_create timeouts_tree sizeof_event tree_node);;
  modify (upd_next 1);;
  mret NO_ERROR.
End timer.
