(* ===== verification/TimerQueue.v ===== *)
(** * The events queue

    The queue as an agenda: what it means for the deltas is a list of events with the
    times they are due at, counted from the next tick, in order. *)

From stdpp Require Import gmap list sorting.
From S2P Require Import Prelude Spinlock XList AvlTree Alloc Sched Timer.
#[local] Open Scope Z_scope.

(** ** Agendas *)

Definition delta (m : gmap Z event) (e : Z) : Z := default 0 (ev_delta <$> m !! e).

(** The events with the times they are due at, the first delta counted from [t]. *)
Fixpoint agenda (m : gmap Z event) (t : Z) (evs : list Z) : list (Z * Z) :=
  match evs with
  | [] => []
  | e :: evs => (t + delta m e, e) :: agenda m (t + delta m e) evs
  end.

(** An event due at [t] goes behind the earlier ones and the first of those due at [t]. *)
Fixpoint insert_event (t e : Z) (l : list (Z * Z)) : list (Z * Z) :=
  match l with
  | [] => [(t, e)]
  | (t', e') :: l' =>
      if t <? t' then (t, e) :: l
      else if t =? t' then (t', e') :: (t, e) :: l'
      else (t', e') :: insert_event t e l'
  end.

Definition shift (n : Z) (l : list (Z * Z)) : list (Z * Z) := map (λ p, (p.1 - n, p.2)) l.

Lemma agenda_ext m m' evs : (∀ e, e ∈ evs → delta m' e = delta m e) → ∀ t, agenda m' t evs = agenda m t evs.
Proof.
  induction evs as [|e evs IH]; intros Hd t; simpl; [done|].
  rewrite Hd by apply list_elem_of_here. f_equal. apply IH. intros e' ?. apply Hd. by apply list_elem_of_further.
Qed.

Lemma agenda_shift m n evs : ∀ t, agenda m (t - n) evs = shift n (agenda m t evs).
Proof.
  induction evs as [|e evs IH]; intros t; simpl; [done|].
  replace (t - n + delta m e) with (t + delta m e - n) by lia. by rewrite IH.
Qed.

Lemma agenda_events m t evs : (agenda m t evs).*2 = evs.
Proof. revert t. induction evs as [|e evs IH]; intros t; simpl; [done|]. by rewrite IH. Qed.

Lemma length_agenda m t evs : length (agenda m t evs) = length evs.
Proof. rewrite <- (agenda_events m t evs) at 2. by rewrite length_fmap. Qed.

Lemma delta_insert_eq m e v : delta (<[e := v]> m) e = ev_delta v.
Proof. unfold delta. by rewrite lookup_insert_eq. Qed.

Lemma delta_insert_ne m e v e' : e' ≠ e → delta (<[e := v]> m) e' = delta m e'.
Proof. intros. unfold delta. by rewrite lookup_insert_ne. Qed.

(** Due times are in order. *)
Definition in_order (l : list (Z * Z)) : Prop := StronglySorted Z.le l.*1.

Lemma agenda_from m evs : ∀ t, (∀ e, e ∈ evs → 0 ≤ delta m e) → Forall (λ p, t ≤ p.1) (agenda m t evs).
Proof.
  induction evs as [|e evs IH]; intros t Hd; simpl; [constructor|].
  assert (0 ≤ delta m e) by apply Hd, list_elem_of_here. constructor; [simpl; lia|].
  eapply Forall_impl; [apply (IH (t + delta m e)); intros e' ?; apply Hd; by apply list_elem_of_further|].
  intros p; simpl; lia.
Qed.

Lemma agenda_sorted m evs : ∀ t, (∀ e, e ∈ evs → 0 ≤ delta m e) → in_order (agenda m t evs).
Proof.
  unfold in_order. induction evs as [|e evs IH]; intros t Hd; simpl; [constructor|]. constructor.
  - apply IH. intros e' ?. apply Hd. by apply list_elem_of_further.
  - apply Forall_map. apply (agenda_from m evs (t + delta m e)). intros e' ?. apply Hd.
    by apply list_elem_of_further.
Qed.

(** ** The invariant of the queues *)

(** An event lies within the address space. *)
Definition ev_ok (e : Z) : Prop := 0 < e ∧ e + sizeof_event ≤ 2 ^ 32.

Section queue.
Context {A : Allocator}.
Implicit Types s : timer.

(** [evs]: the events of the queue; [rdy]: the timeout calls that are ready. *)
Record queue_inv (s : timer) (evs rdy : list Z) : Prop := {
  qi_events : is_xlist (tm_lists s) events_queue (map ev_node evs);
  qi_ready : is_xlist (tm_lists s) ready_timeouts_queue (map ev_node rdy);
  qi_addr e : e ∈ dom (tm_events s) → ev_ok e;
  qi_in e : e ∈ evs ++ rdy → e ∈ dom (tm_events s);
  qi_nodup : NoDup (evs ++ rdy);
  qi_nodes e : e ∈ dom (tm_events s) → is_Some (nodes (tm_lists s) !! ev_node e);
  qi_delta e : e ∈ evs → 0 ≤ delta (tm_events s) e < 2 ^ 31 }.

Lemma ev_node_ok e : ev_ok e → ev_node e = e + 28.
Proof. unfold ev_ok, sizeof_event. intros [??]. unfold ev_node. apply uwrap_small. lia. Qed.

Lemma node_event_ok e : ev_ok e → node_event (ev_node e) = e.
Proof.
  intros He. rewrite ev_node_ok by done. unfold node_event, ev_ok, sizeof_event in *.
  replace (e + 28 - 28) with e by lia. apply uwrap_small. lia.
Qed.

Lemma ev_node_valid e : ev_ok e → valid_ptr (ev_node e).
Proof. intros He. rewrite ev_node_ok by done. unfold ev_ok, sizeof_event, valid_ptr in *. lia. Qed.

Lemma ev_node_inj e e' : ev_ok e → ev_ok e' → ev_node e = ev_node e' → e = e'.
Proof. intros He He'. rewrite !ev_node_ok by done. lia. Qed.

Lemma ev_node_null e : ev_ok e → (ev_node e =? NULL) = false.
Proof. intros He. apply Z.eqb_neq. pose proof (ev_node_valid e He). unfold valid_ptr, NULL in *. lia. Qed.

Lemma ev_node_notin e l : ev_ok e → (∀ e', e' ∈ l → ev_ok e') → e ∉ l → ev_node e ∉ map ev_node l.
Proof.
  intros He Hl Hn (e' & E & Hin)%list_elem_of_fmap. apply Hn.
  by rewrite (ev_node_inj e e' He (Hl _ Hin) E).
Qed.

Lemma queue_ok s evs rdy e : queue_inv s evs rdy → e ∈ evs ++ rdy → ev_ok e.
Proof. intros Hq He. by apply (qi_addr _ _ _ Hq), (qi_in _ _ _ Hq). Qed.

Lemma wp_peek_first_event s evs rdy (Q : Z → timer → Prop) :
  queue_inv s evs rdy → Q (head_or NULL evs) s → wp peek_first_event s Q.
Proof.
  intros Hq HQ. unfold peek_first_event. apply wp_bind, wp_zoom.
  eapply wp_xlist_peek_first; [apply (qi_events _ _ _ Hq)|]. apply wp_ret. destruct evs as [|e evs]; simpl.
  - by destruct s.
  - assert (ev_ok e) by (eapply queue_ok; [done|apply list_elem_of_here]).
    rewrite ev_node_null, node_event_ok by done. by destruct s.
Qed.

Lemma wp_peek_next_event s rdy l1 e l2 (Q : Z → timer → Prop) :
  queue_inv s (l1 ++ e :: l2) rdy → Q (head_or NULL l2) s → wp (peek_next_event e) s Q.
Proof.
  intros Hq HQ. assert (∀ x, x ∈ l1 ++ e :: l2 → ev_ok x) as Hok
    by (intros x Hx; eapply queue_ok; [done|]; apply elem_of_app; by left).
  assert (ev_ok e) as He by (apply Hok, elem_of_app; right; apply list_elem_of_here).
  pose proof (qi_events _ _ _ Hq) as [_ Hl _ _]. rewrite map_app in Hl. simpl in Hl.
  apply seg_app in Hl as [_ [Hn _]].
  assert (∀ Q' : Z → xstore → Prop, Q' (head_or NULL (map ev_node l2)) (tm_lists s) →
    wp (xlist_peek_next (ev_node e)) (tm_lists s) Q') as Hpk.
  { intros Q' HQ'. unfold xlist_peek_next. eapply wp_ld_next; [exact Hn|]. exact HQ'. }
  unfold peek_next_event. destruct He as [Hpos Hsz]. rewrite (proj2 (Z.eqb_neq e NULL)) by (unfold NULL; lia).
  apply wp_bind, wp_zoom, Hpk. destruct l2 as [|e' l2].
  - cbn [map head_or]. change (NULL =? NULL) with true. apply wp_ret. by destruct s.
  - cbn [map head_or]. assert (ev_ok e') as He'
      by (apply Hok, elem_of_app; right; apply list_elem_of_further, list_elem_of_here).
    rewrite ev_node_null by done. apply wp_bind, wp_zoom.
    change (tm_lists (upd_lists _ s)) with (tm_lists s). apply Hpk. apply wp_ret. cbn [map head_or].
    rewrite node_event_ok by done. by destruct s.
Qed.

(** Changes of the events that keep their kinds. *)
Definition same_kinds (m m' : gmap Z event) : Prop := ∀ e, ev_kind <$> m' !! e = ev_kind <$> m !! e.

#[export] Instance same_kinds_preorder : PreOrder same_kinds.
Proof. split; [by intros m e|]. intros m1 m2 m3 H1 H2 e. by rewrite H2. Qed.

Lemma same_kinds_dom m m' : same_kinds m m' → dom m' = dom m.
Proof.
  intros Hk. apply set_eq. intros e. rewrite !elem_of_dom. specialize (Hk e).
  destruct (m' !! e), (m !! e); simpl in Hk; split; intros [??]; try done; by eexists.
Qed.

Lemma same_kinds_delta m e d v : m !! e = Some v → same_kinds m (<[e := with_delta d v]> m).
Proof.
  intros Hv e'. destruct (decide (e' = e)) as [->|Hne].
  - by rewrite lookup_insert_eq, Hv.
  - by rewrite lookup_insert_ne.
Qed.

Lemma queue_inv_deltas s evs rdy m :
  queue_inv s evs rdy → same_kinds (tm_events s) m → (∀ e, e ∈ evs → 0 ≤ delta m e < 2 ^ 31) →
  queue_inv (upd_events m s) evs rdy.
Proof.
  intros Hq Hk Hd. apply same_kinds_dom in Hk as Hdom. destruct Hq. split; simpl; try done; by rewrite ?Hdom.
Qed.

Lemma lookup_delta m e : e ∈ dom m → ∃ v, m !! e = Some v ∧ ev_delta v = delta m e.
Proof. intros [v Hv]%elem_of_dom. exists v. unfold delta. by rewrite Hv. Qed.

(** ** Insertion *)

(** What the walk over [evs] finds for [tick]. *)
Definition place_found (m : gmap Z event) (evs : list Z) (tick : Z) (r : Z * Z) (m' : gmap Z event) : Prop :=
  ∃ l1 l2, evs = l1 ++ l2 ∧ r.1 = head_or NULL l2 ∧ 0 ≤ r.2 < 2 ^ 31 ∧ same_kinds m m' ∧
    (∀ e, e ∉ evs → m' !! e = m !! e) ∧ (∀ e, e ∈ evs → 0 ≤ delta m' e < 2 ^ 31) ∧
    (∀ e t v, e ∉ evs → ev_delta v = r.2 →
       agenda (<[e := v]> m') t (l1 ++ e :: l2) = insert_event (t + tick) e (agenda m t evs)).

Lemma agenda_insert_notin m e v l t : e ∉ l → agenda (<[e := v]> m) t l = agenda m t l.
Proof. intros He. apply agenda_ext. intros e' Hin. apply delta_insert_ne. by intros ->. Qed.

Lemma agenda_app m l1 l2 t : ∃ t', agenda m t (l1 ++ l2) = agenda m t l1 ++ agenda m t' l2.
Proof.
  revert t. induction l1 as [|e l1 IH]; intros t; [by exists t|]. simpl.
  destruct (IH (t + delta m e)) as [t' ->]. by exists t'.
Qed.

Lemma wp_find_place evs : ∀ fuel s pre rdy tick (Q : Z * Z → timer → Prop),
  queue_inv s (pre ++ evs) rdy → 0 ≤ tick < 2 ^ 31 → (length evs < fuel)%nat →
  (∀ r m', place_found (tm_events s) evs tick r m' → Q r (upd_events m' s)) →
  wp (find_place fuel (head_or NULL evs) tick) s Q.
Proof.
  induction evs as [|e evs IH]; intros [|fuel] s pre rdy tick Q Hq Ht Hf HQ; try (simpl in Hf; lia);
    cbn [find_place head_or].
  { apply wp_ret. specialize (HQ (NULL, tick) (tm_events s)). destruct s. apply HQ.
    exists [], []. split_and!; try done; cbn [fst snd]; try lia; [by intros e ?%elem_of_nil|].
    intros e t v _ Ed. simpl. by rewrite delta_insert_eq, Ed. }
  assert (e ∈ (pre ++ e :: evs) ++ rdy) as Hin by (rewrite <- app_assoc; set_solver +).
  pose proof (queue_ok _ _ _ _ Hq Hin) as [Hpos _]. rewrite (proj2 (Z.eqb_neq e NULL)) by (unfold NULL; lia).
  destruct (lookup_delta _ _ (qi_in _ _ _ Hq _ Hin)) as (v & Hv & Ed).
  assert (∀ x, x ∈ e :: evs → 0 ≤ delta (tm_events s) x < 2 ^ 31) as Hdl
    by (intros x Hx; apply (qi_delta _ _ _ Hq), elem_of_app; by right).
  pose proof (Hdl e (list_elem_of_here _ _)) as Hde.
  assert (e ∉ evs) as Hne.
  { pose proof (qi_nodup _ _ _ Hq) as Hnd. rewrite <- app_assoc in Hnd. apply NoDup_app in Hnd as (_ & _ & Hnd).
    simpl in Hnd. apply NoDup_cons in Hnd as [Hnd _]. intros ?. apply Hnd, elem_of_app. by left. }
  apply wp_bind. eapply wp_load; [done|]. rewrite Ed. destruct (Z.ltb_spec tick (delta (tm_events s) e)).
  - apply wp_bind, wp_modify, wp_ret. apply HQ. exists [], (e :: evs). rewrite swrap_small by lia.
    split_and!; cbn [fst snd]; try done; try lia.
    + by apply same_kinds_delta.
    + intros x Hx. rewrite lookup_insert_ne; [done|]. intros ->. apply Hx, list_elem_of_here.
    + intros x Hx. destruct (decide (x = e)) as [->|?]; [rewrite delta_insert_eq; simpl; lia|].
      rewrite delta_insert_ne by done. by apply Hdl.
    + intros x t w Hx Ew. apply not_elem_of_cons in Hx as [Hxe Hx]. simpl. rewrite delta_insert_eq, Ew.
      rewrite (delta_insert_ne _ x) by done. rewrite delta_insert_eq. simpl.
      rewrite (proj2 (Z.ltb_lt (t + tick) _)) by lia. f_equal. f_equal; [f_equal; lia|].
      rewrite !agenda_insert_notin by done. f_equal. lia.
  - destruct (Z.eqb_spec tick (delta (tm_events s) e)) as [->|Hgt].
    + apply wp_bind. eapply wp_peek_next_event; [exact Hq|]. apply wp_ret.
      specialize (HQ (head_or NULL evs, 0) (tm_events s)). destruct s. apply HQ.
      exists [e], evs. split_and!; cbn [fst snd]; try done; try lia. intros x t w Hx Ew. apply not_elem_of_cons in Hx as [Hxe Hx].
      simpl in *. rewrite (delta_insert_ne _ x _ e), delta_insert_eq, Ew, Z.ltb_irrefl, Z.eqb_refl by done.
      rewrite Z.add_0_r. by rewrite agenda_insert_notin.
    + apply wp_bind. eapply wp_peek_next_event; [exact Hq|].
      rewrite swrap_small by lia. apply (IH fuel s (pre ++ [e]) rdy); [by rewrite <- app_assoc|lia|simpl in Hf; lia|].
      intros r m' (l1 & l2 & -> & Er & Hr & Hk & Hsame & Hd' & Hag). apply HQ. exists (e :: l1), l2.
      assert (delta m' e = delta (tm_events s) e) as Ede by (unfold delta; by rewrite Hsame).
      split_and!; try done; try lia.
      * intros x Hx. apply Hsame. intros ?. apply Hx. by apply list_elem_of_further.
      * intros x [->|Hx]%elem_of_cons; [by rewrite Ede|by apply Hd'].
      * intros x t w Hx Ew. apply not_elem_of_cons in Hx as [Hxe Hx]. simpl.
        rewrite (delta_insert_ne _ x _ e), Ede by done.
        rewrite (proj2 (Z.ltb_ge (t + tick) _)), (proj2 (Z.eqb_neq (t + tick) _)) by lia. f_equal.
        rewrite (Hag x (t + delta (tm_events s) e) w Hx Ew). f_equal. lia.
Qed.

(** The other queue, when one of the two changes. *)
Lemma other_queue (x x' : xstore) q q' es l :
  xframe x x' q (map ev_node es) → q ≠ q' → is_xlist x q' (map ev_node l) →
  (∀ e, e ∈ es → ev_ok e) → (∀ e, e ∈ l → ev_ok e ∧ e ∉ es) → is_xlist x' q' (map ev_node l).
Proof.
  intros Hf Hne Hx Hes Hl. eapply is_xlist_frame; [exact Hf|done| |exact Hx].
  intros n (e & -> & He)%list_elem_of_fmap. destruct (Hl e He). by apply ev_node_notin.
Qed.

Lemma xframe_nodes x x' q es n : xframe x x' q es → is_Some (nodes x !! n) → is_Some (nodes x' !! n).
Proof. intros Hf Hn. apply elem_of_dom. rewrite (xf_dom _ _ _ _ Hf). by apply elem_of_dom. Qed.

(** The state after an insertion. *)
Definition inserted (s : timer) (evs rdy : list Z) (e tick : Z) (s' : timer) (evs' : list Z) : Prop :=
  ∃ x m l1 l2, s' = upd_lists x (upd_events m s) ∧ evs = l1 ++ l2 ∧ evs' = l1 ++ e :: l2 ∧
    queue_inv s' evs' rdy ∧ same_kinds (tm_events s) m ∧
    agenda m 0 evs' = insert_event tick e (agenda (tm_events s) 0 evs).

Lemma queue_inv_insert s l1 l2 rdy e x m :
  queue_inv s (l1 ++ l2) rdy → e ∈ dom (tm_events s) → e ∉ (l1 ++ l2) ++ rdy → same_kinds (tm_events s) m →
  (∀ y, y ∈ l1 ++ e :: l2 → 0 ≤ delta m y < 2 ^ 31) →
  is_xlist x events_queue (map ev_node (l1 ++ e :: l2)) →
  xframe (tm_lists s) x events_queue (map ev_node (e :: l1 ++ l2)) →
  queue_inv (upd_lists x (upd_events m s)) (l1 ++ e :: l2) rdy.
Proof.
  intros Hq Hd Hn Hk Hdl Hx Hf. pose proof (same_kinds_dom _ _ Hk) as Edom.
  assert (∀ y, y ∈ l1 ++ e :: l2 → y = e ∨ y ∈ l1 ++ l2) as Hmem
    by (intros y; rewrite !elem_of_app, elem_of_cons; tauto).
  split; cbn [upd_lists upd_events tm_lists tm_events]; rewrite ?Edom.
  - done.
  - eapply other_queue; [exact Hf|done|apply (qi_ready _ _ _ Hq)|..].
    + intros y [->|Hy]%elem_of_cons; [by apply (qi_addr _ _ _ Hq)|].
      eapply queue_ok; [done|]. apply elem_of_app. by left.
    + intros y Hy. split; [eapply queue_ok; [done|]; apply elem_of_app; by right|].
      intros [->|Hy']%elem_of_cons; [apply Hn, elem_of_app; by right|].
      pose proof (qi_nodup _ _ _ Hq) as (_ & Hdis & _)%NoDup_app. by apply (Hdis y).
  - apply (qi_addr _ _ _ Hq).
  - intros y [Hy|Hy]%elem_of_app.
    + destruct (Hmem y Hy) as [->|Hy']; [done|]. apply (qi_in _ _ _ Hq), elem_of_app. by left.
    + apply (qi_in _ _ _ Hq), elem_of_app. by right.
  - rewrite <- app_assoc. simpl. apply NoDup_middle. rewrite app_assoc.
    rewrite <- app_assoc in Hn. rewrite !not_elem_of_app in Hn.
    split_and!; [apply (qi_nodup _ _ _ Hq)|tauto|rewrite not_elem_of_app; tauto].
  - intros y Hy. eapply xframe_nodes; [done|]. by apply (qi_nodes _ _ _ Hq).
  - done.
Qed.

Lemma evs_ok s evs rdy : queue_inv s evs rdy → ∀ e, e ∈ evs → ev_ok e.
Proof. intros Hq e He. eapply queue_ok; [done|]. apply elem_of_app. by left. Qed.

Lemma length_events s evs rdy : queue_inv s evs rdy → (length evs ≤ size (tm_events s))%nat.
Proof.
  intros Hq. rewrite <- size_dom. pose proof (qi_nodup _ _ _ Hq) as (Hn & _)%NoDup_app.
  rewrite <- (size_list_to_set (C := gset Z) evs Hn). apply subseteq_size.
  intros e He%elem_of_list_to_set. apply (qi_in _ _ _ Hq), elem_of_app. by left.
Qed.

Lemma wp_add_new_event_nolock s evs rdy e tick (Q : unit → timer → Prop) :
  queue_inv s evs rdy → e ∈ dom (tm_events s) → e ∉ evs ++ rdy → 0 ≤ tick < 2 ^ 31 →
  (∀ s' evs', inserted s evs rdy e tick s' evs' → Q tt s') →
  wp (add_new_event_nolock e tick) s Q.
Proof.
  intros Hq Hd Hn Ht HQ. unfold add_new_event_nolock. apply wp_bind. eapply wp_peek_first_event; [done|].
  apply wp_bind, wp_gets, wp_bind. pose proof (length_events _ _ _ Hq) as Hlen.
  apply (wp_find_place evs _ s [] rdy); [done|done|lia|].
  intros r m (l1 & l2 & -> & Er & Hr & Hk & Hsame & Hdl & Hag).
  pose proof (not_elem_of_app (l1 ++ l2) rdy e) as [Hn' _]. destruct (Hn' Hn) as [Hne _].
  pose proof Hd as [v Hv]%elem_of_dom. apply wp_bind. eapply wp_load; [simpl; by rewrite Hsame|].
  apply wp_bind, wp_modify. cbn [upd_events tm_events].
  set (m2 := <[e := with_delta r.2 v]> m).
  assert (same_kinds (tm_events s) m2) as Hk2.
  { transitivity m; [done|]. apply same_kinds_delta. by rewrite Hsame. }
  assert (∀ y, y ∈ l1 ++ e :: l2 → 0 ≤ delta m2 y < 2 ^ 31) as Hd2.
  { intros y Hy. destruct (decide (y = e)) as [->|Hye]; [by unfold m2; rewrite delta_insert_eq|].
    unfold m2. rewrite delta_insert_ne by done. apply Hdl. revert Hy.
    rewrite !elem_of_app, elem_of_cons. tauto. }
  assert (∀ x, is_xlist x events_queue (map ev_node (l1 ++ e :: l2)) →
    xframe (tm_lists s) x events_queue (map ev_node (e :: l1 ++ l2)) →
    Q tt (upd_lists x (upd_events m2 s))) as HQ'.
  { intros x Hx Hf. eapply HQ. exists x, m2, l1, l2. split_and!; try done.
    - by apply queue_inv_insert.
    - rewrite <- (Z.add_0_l tick). by apply Hag. }
  assert (ev_node e ∉ map ev_node (l1 ++ l2)) as Hnn.
  { apply ev_node_notin; [by apply (qi_addr _ _ _ Hq)|by apply (evs_ok s _ rdy)|done]. }
  assert (valid_ptr (ev_node e)) as Hvn by (by apply ev_node_valid, (qi_addr _ _ _ Hq)).
  pose proof (qi_events _ _ _ Hq) as Hx. pose proof (qi_nodes _ _ _ Hq e Hd) as Hnd.
  apply wp_bind. rewrite Er. destruct l2 as [|e2 l2]; cbn [head_or].
  - change (NULL =? NULL) with true. cbn [negb]. rewrite app_nil_r in *. apply wp_zoom.
    eapply wp_xlist_add_last; [exact Hx|done|done|done|]. intros x Hx' Hf. apply wp_ret, HQ'.
    + by rewrite map_app.
    + done.
  - assert (ev_ok e2) as [Hpos Hsz] by (apply (evs_ok s _ _ Hq), elem_of_app; right; apply list_elem_of_here).
    rewrite (proj2 (Z.eqb_neq e2 NULL)) by (unfold NULL; lia). cbn [negb]. apply wp_zoom.
    rewrite map_app in Hx, Hnn. simpl in Hx, Hnn.
    eapply wp_xlist_insert_before_unsafe; [exact Hx|done|done|done|]. intros x Hx' Hf. apply wp_ret, HQ'.
    + by rewrite map_app.
    + simpl. by rewrite map_app.
Qed.
End queue.
