(* ===== verification/TimerInv.v ===== *)
(** * The invariant of the timer

    Every event is in one of the two queues, allocated and with its run lock and tree node;
    the tree holds the timeout calls in the order of their identifiers. What the steps of
    the routines do to it. *)

From stdpp Require Import gmap list sorting.
From S2P Require Import Prelude Spinlock XList AvlTree AvlTreeSpec AvlSet AvlRemove AvlOrdered Alloc Sched Timer TimerQueue.
#[local] Open Scope Z_scope.

(** ** The order of timeout calls *)

#[export] Instance timeout_laws ids : AvlLaws (timeout_client ids).
Proof.
  split; [split|]; simpl; unfold compare_timeout_id; intros; repeat case_match; bool_to_prop; lia.
Qed.

Abbreviation timeouts ids := (@is_aset (timeout_client ids)).

Lemma sorted_ids ids ids' l :
  (∀ e, e ∈ l → ids' e = ids e) → StronglySorted (@cmp_lt (timeout_client ids)) l →
  StronglySorted (@cmp_lt (timeout_client ids')) l.
Proof.
  intros Hids. induction 1 as [|x l Hl IH Hx]; constructor.
  - apply IH. intros e ?. apply Hids. by apply list_elem_of_further.
  - apply Forall_forall. intros y Hy. apply (proj1 (Forall_forall _ _) Hx) in Hy as Hxy.
    unfold cmp_lt in *. simpl in *. unfold compare_timeout_id in *.
    by rewrite (Hids x (list_elem_of_here _ _)), (Hids y (list_elem_of_further _ _ _ Hy)).
Qed.

Lemma aset_ids ids ids' s tr off l :
  (∀ e, e ∈ l → ids' e = ids e) → timeouts ids s tr off l → timeouts ids' s tr off l.
Proof.
  intros Hids (Htr & H0 & h & T & [Hs Ha Hso Hc] & <- & ->). split_and!; [done|done|].
  exists h, T. split_and!; [|done|done]. split; [done|done| |done]. by eapply sorted_ids.
Qed.

(** Nodes outside the tree do not matter. *)
Lemma aset_nodes ids s s' tr off l :
  timeouts ids s tr off l → atrees s' = atrees s →
  (∀ n, data off n ∈ l → valid_ptr n → anodes s' !! n = anodes s !! n) → timeouts ids s' tr off l.
Proof.
  intros (Htr & H0 & h & T & [Hs Ha Hso Hc] & <- & ->) Et Hn. split_and!; [done|done|].
  exists h, T. split_and!; [|done|done]. split; [|done|done|done]. destruct Hs. split; rewrite ?Et; try done.
  eapply tree_at_frame; [|exact as_tree]. intros z Hz. apply Hn.
  - by apply list_elem_of_fmap_2.
  - by apply (proj1 (Forall_forall _ _) as_valid).
Qed.

Lemma tree_node_ok e : ev_ok e → AVL_DATA2NODE e tree_node = e + 36.
Proof. unfold ev_ok, sizeof_event. intros [??]. apply uwrap_small. unfold tree_node. lia. Qed.

Lemma data_tree_node e : ev_ok e → data tree_node (AVL_DATA2NODE e tree_node) = e.
Proof.
  intros He. rewrite tree_node_ok by done. unfold data, AVL_NODE2DATA, tree_node, ev_ok, sizeof_event in *.
  replace (e + 36 - 36) with e by lia. apply uwrap_small. lia.
Qed.

(** ** The invariant *)

Definition is_timeout (m : gmap Z event) (e : Z) : Prop :=
  ∃ id r d c dl, m !! e = Some (Event dl (Timeout id r d c)).

#[export] Instance is_timeout_dec m e : Decision (is_timeout m e).
Proof.
  destruct (m !! e) as [[dl [id r d c|th]]|] eqn:E; [left; by eexists _, _, _, _, _|right..];
    intros (? & ? & ? & ? & ? & ?); congruence.
Defined.

Section inv.
Context {A : Allocator} {L : AllocLaws A}.
Implicit Types s : timer.

(** [tids]: the timeout calls by identifier. *)
Record events_inv (s : timer) (evs rdy tids : list Z) : Prop := {
  ei_queue : queue_inv s evs rdy;
  ei_dom e : e ∈ dom (tm_events s) → e ∈ evs ++ rdy;
  ei_live : ∃ live, al_live (tm_heap s) live ∧ dom (tm_events s) ⊆ live;
  ei_runs e : e ∈ dom (tm_events s) → e ∈ dom (tm_runs s);
  ei_anodes e : e ∈ dom (tm_events s) → AVL_DATA2NODE e tree_node ∈ dom (anodes (tm_tree s));
  ei_tree : timeouts (ids_of (tm_events s)) (tm_tree s) timeouts_tree tree_node tids;
  ei_tids e : e ∈ tids ↔ is_timeout (tm_events s) e;
  ei_rdy e : e ∈ rdy → is_timeout (tm_events s) e }.

Lemma same_kinds_ids m m' e : same_kinds m m' → ids_of m' e = ids_of m e.
Proof.
  intros Hk. specialize (Hk e). unfold ids_of. destruct (m' !! e) as [v'|], (m !! e) as [v|]; simpl in *; try done.
  unfold event_id. by injection Hk as ->.
Qed.

Lemma same_kinds_timeout m m' e : same_kinds m m' → is_timeout m' e ↔ is_timeout m e.
Proof.
  intros Hk. specialize (Hk e). unfold is_timeout.
  destruct (m' !! e) as [[dl' k']|], (m !! e) as [[dl k]|]; simpl in *; simplify_eq;
    split; intros (? & ? & ? & ? & ? & ?); simplify_eq; by eexists _, _, _, _, _.
Qed.

(** Steps that leave memory and tree alone. *)
Lemma events_inv_queue s evs rdy tids m x evs' rdy' :
  events_inv s evs rdy tids → same_kinds (tm_events s) m →
  queue_inv (upd_lists x (upd_events m s)) evs' rdy' → evs ++ rdy ⊆ evs' ++ rdy' →
  (∀ e, e ∈ rdy' → is_timeout (tm_events s) e) →
  events_inv (upd_lists x (upd_events m s)) evs' rdy' tids.
Proof.
  intros [] Hk Hq Hsub Hrdy. pose proof (same_kinds_dom _ _ Hk) as Ed.
  split; cbn [upd_lists upd_events tm_events tm_heap tm_runs tm_tree tm_lists]; rewrite ?Ed; try done.
  - auto.
  - eapply aset_ids; [|done]. intros e _. by apply same_kinds_ids.
  - intros e. rewrite same_kinds_timeout by done. done.
  - intros e He. apply (same_kinds_timeout _ _ e Hk). auto.
Qed.

Lemma events_inv_sched s evs rdy tids ss : events_inv s evs rdy tids → events_inv (upd_sched ss s) evs rdy tids.
Proof. intros [Hq ? ? ? ? ? ? ?]. split; try done. by destruct Hq. Qed.

(** An event that is in no queue and not in the tree goes back to the allocator. *)
Lemma is_xlist_drop (x : xstore) q l n :
  is_xlist x q l → n ∉ l → is_xlist (XStore (delete n (nodes x)) (lists x)) q l.
Proof.
  intros [Hh Hs Hnd Hv] Hn. split; [done| |done..]. simpl. eapply seg_frame; [|exact Hs].
  intros y Hy. apply lookup_delete_ne. by intros ->.
Qed.

Lemma queue_inv_drop s evs rdy e :
  queue_inv s evs rdy → e ∈ dom (tm_events s) → e ∉ evs ++ rdy → queue_inv (drop_object e s) evs rdy.
Proof.
  intros Hq Hd He. assert (ev_ok e) as Hok by by apply (qi_addr _ _ _ Hq).
  assert (∀ l, (∀ e', e' ∈ l → e' ∈ evs ++ rdy) → ev_node e ∉ map ev_node l) as Hx.
  { intros l Hl. apply ev_node_notin; [done| |intros ?; by apply He, Hl].
    intros e' ?. eapply queue_ok; [done|by apply Hl]. }
  assert (∀ e', e' ∈ dom (delete e (tm_events s)) → e' ≠ e ∧ e' ∈ dom (tm_events s)) as Hdel
    by (intros e'; rewrite dom_delete_L; set_solver).
  split; cbn [drop_object upd_events upd_lists upd_tree upd_runs tm_events tm_lists].
  - apply is_xlist_drop; [apply (qi_events _ _ _ Hq)|]. apply Hx. intros e' ?. apply elem_of_app. by left.
  - apply is_xlist_drop; [apply (qi_ready _ _ _ Hq)|]. apply Hx. intros e' ?. apply elem_of_app. by right.
  - intros e' [_ ?]%Hdel. by apply (qi_addr _ _ _ Hq).
  - intros e' Hin. rewrite dom_delete_L. apply elem_of_difference. split; [by apply (qi_in _ _ _ Hq)|].
    intros ->%elem_of_singleton. done.
  - apply (qi_nodup _ _ _ Hq).
  - intros e' [Hne Hd']%Hdel. cbn [nodes]. rewrite lookup_delete_ne; [by apply (qi_nodes _ _ _ Hq)|].
    intros E. apply Hne. symmetry. apply ev_node_inj; [done|by apply (qi_addr _ _ _ Hq)|done].
  - intros e' Hin. unfold delta. rewrite lookup_delete_ne; [by apply (qi_delta _ _ _ Hq)|].
    intros <-. apply He, elem_of_app. by left.
Qed.

Lemma ids_of_delete m e e' : e' ≠ e → ids_of (delete e m) e' = ids_of m e'.
Proof. intros. unfold ids_of. by rewrite lookup_delete_ne. Qed.

Lemma is_timeout_delete m e e' : is_timeout (delete e m) e' ↔ e' ≠ e ∧ is_timeout m e'.
Proof.
  unfold is_timeout. destruct (decide (e' = e)) as [->|Hne].
  - rewrite lookup_delete_eq. split; [by intros (?&?&?&?&?&?)|]. by intros [? _].
  - rewrite lookup_delete_ne by done. tauto.
Qed.

Lemma wp_free_event s e live (Q : unit → timer → Prop) :
  al_live (tm_heap s) live → e ∈ live →
  (∀ h, al_live h (live ∖ {[e]}) → Q tt (drop_object e (upd_heap h s))) → wp (free_event e) s Q.
Proof.
  intros Hl He HQ. unfold free_event. apply wp_bind, wp_zoom. eapply al_free_ok; [exact Hl|done|].
  intros h Hh. apply wp_modify. by apply HQ.
Qed.

(** A block that is freed: it has left the queues and, if it was a timeout call, the tree. *)
Lemma events_inv_drop s evs rdy tids e h live :
  queue_inv s evs rdy → e ∈ dom (tm_events s) → e ∉ evs ++ rdy → e ∉ tids →
  (∀ e', e' ∈ dom (tm_events s) → e' = e ∨ e' ∈ evs ++ rdy) →
  al_live h (live ∖ {[e]}) → dom (tm_events s) ⊆ live →
  (∀ e, e ∈ dom (tm_events s) → e ∈ dom (tm_runs s)) →
  (∀ e, e ∈ dom (tm_events s) → AVL_DATA2NODE e tree_node ∈ dom (anodes (tm_tree s))) →
  timeouts (ids_of (tm_events s)) (tm_tree s) timeouts_tree tree_node tids →
  (∀ e', e' ≠ e → e' ∈ tids ↔ is_timeout (tm_events s) e') →
  (∀ e', e' ∈ rdy → is_timeout (tm_events s) e') →
  events_inv (drop_object e (upd_heap h s)) evs rdy tids.
Proof.
  intros Hq Hd He Ht Hdom Hlive Hsub Hruns Hnodes Htree Htids Hrdy.
  assert (ev_ok e) as Hok by by apply (qi_addr _ _ _ Hq).
  assert (∀ e', e' ∈ dom (delete e (tm_events s)) → e' ≠ e ∧ e' ∈ dom (tm_events s)) as Hdel
    by (intros e'; rewrite dom_delete_L; set_solver).
  split; cbn [drop_object upd_events upd_lists upd_tree upd_runs upd_heap tm_events tm_lists tm_heap tm_runs
    tm_tree anodes].
  - apply (queue_inv_drop (upd_heap h s)); [|done|done]. by destruct Hq.
  - intros e' [Hne Hd']%Hdel. destruct (Hdom e' Hd'); done.
  - exists (live ∖ {[e]}). split; [done|]. rewrite dom_delete_L. set_solver.
  - intros e' [Hne Hd']%Hdel. rewrite dom_delete_L. apply elem_of_difference. split; [by apply Hruns|].
    by intros ?%elem_of_singleton.
  - intros e' [Hne Hd']%Hdel. rewrite dom_delete_L. apply elem_of_difference. split; [by apply Hnodes|].
    intros E%elem_of_singleton. apply Hne. rewrite !tree_node_ok in E; [lia|done|by apply (qi_addr _ _ _ Hq)].
  - eapply aset_nodes; [eapply aset_ids; [|exact Htree]|done|].
    + intros e' He'. apply ids_of_delete. by intros ->.
    + intros n Hn _. cbn [anodes]. apply lookup_delete_ne. intros <-. by rewrite data_tree_node in Hn.
  - intros e'. rewrite is_timeout_delete. destruct (decide (e' = e)) as [->|Hne]; [tauto|].
    rewrite Htids by done. tauto.
  - intros e' He'. apply is_timeout_delete. split; [|by apply Hrdy]. intros ->. apply He, elem_of_app. by right.
Qed.
End inv.
