(* ===== verification/TimerTick.v ===== *)
(** * The tick of the events queue

    What [timer_schedule_event] does to the agenda, to the ready timeout calls and to the
    scheduler: the events that are due leave in order, threads are given back to the run
    queues, the handler thread is roused, the other events come nearer. *)

From stdpp Require Import gmap list sorting.
From S2P Require Import Prelude Spinlock XList AvlTree AvlTreeSpec AvlSet AvlRemove AvlOrdered Alloc Sched SchedSpec.
From S2P Require Import Timer TimerQueue TimerInv.
#[local] Open Scope Z_scope.

(** ** Giving threads back to the scheduler *)

(** The threads and the run queues, as far as waking goes. *)
Definition pool : Type := gmap Z thread * (Z → list Z).

Definition pool_wake (s : sched) (th : Z) (a : pool) : pool :=
  match a.1 !! th with
  | Some t =>
      let p := Z.min (THREAD_NUM_PRIORITY_LEVELS - 1) (th_s_prio t) in
      (<[th := queued s t]> a.1, qset p (a.2 p ++ [th]) a.2)
  | None => a
  end.

(** The handler thread leaves suspension, or its suspension is called off. *)
Definition pool_rouse (s : sched) (h : Z) (a : pool) : pool :=
  match a.1 !! h with
  | Some t =>
      if decide (th_state t = THREAD_STATE_SUSPENDED) then pool_wake s h a
      else if decide (th_next_state t = THREAD_STATE_SUSPENDED)
      then (<[h := with_state (th_state t) THREAD_STATE_READY t]> a.1, a.2)
      else a
  | None => a
  end.

(** The scheduler's state [s] with the threads and queues of [a]. *)
Definition pooled (s : sched) (a : pool) (s' : sched) : Prop :=
  sched_inv s' a.2 ∧ ∃ x c, s' = rq_state x a.1 c s.

(** A thread that may be added. *)
Definition sleeper (m : gmap Z thread) (th : Z) : Prop :=
  ∃ t, m !! th = Some t ∧ th_state t ∈ addable ∧ 0 ≤ th_s_prio t.

Lemma pooled_same s qs : sched_inv s qs → pooled s (sc_threads s, qs) s.
Proof. intros Hs. split; [done|]. exists (sc_lists s), (total_count s). by destruct s. Qed.

Lemma wp_lock_thread th s (Q : unit → sched → Prop) :
  free_lock s (thread_lock th) →
  Q tt (upd_cpu (Cpu (<[thread_lock th := SPIN_LOCKED]> (locks (sc_cpu s))) (irqs (sc_cpu s))) s) →
  wp (thread_lock_thread th) s Q.
Proof. intros Hl HQ. apply wp_zoom. by apply wp_spin_lock. Qed.

Lemma free_other s a b v i : a ≠ b → free_lock s a → free_lock (upd_cpu (Cpu (<[b := v]> (locks (sc_cpu s))) i) s) a.
Proof. intros Hne Ha. unfold free_lock. simpl. by rewrite lookup_insert_ne. Qed.

Lemma sched_inv_cpu' s qs c : sched_inv s qs → sched_inv (upd_cpu c s) qs.
Proof. intros Hs. apply (sched_inv_env s); try done; [apply (si_quanta _ _ Hs)|apply (si_factor _ _ Hs)]. Qed.

Lemma thread_lock_not_rq s qs th : sched_inv s qs → th ∈ dom (sc_threads s) → thread_lock th ≠ rq_lock ∧ thread_lock th ≠ sched_lock.
Proof.
  intros Hs Hd. pose proof (si_addr _ _ Hs _ Hd) as Ha. rewrite thread_lock_ok by done.
  destruct Ha. unfold rq_lock, sched_lock. lia.
Qed.

(** The handler thread is roused. *)
Definition handler_ok (m : gmap Z thread) (h : Z) : Prop :=
  ∃ t, m !! h = Some t ∧ (th_state t = THREAD_STATE_SUSPENDED → 0 ≤ th_s_prio t).

Lemma addable_suspended : THREAD_STATE_SUSPENDED ∈ addable.
Proof. unfold addable. set_solver +. Qed.

Section tick.
Context {A : Allocator} {L : AllocLaws A}.

Abbreviation on_sched := (zoom tm_sched upd_sched).

Definition locked (th : Z) (s : sched) : cpu := Cpu (<[thread_lock th := SPIN_LOCKED]> (locks (sc_cpu s))) (irqs (sc_cpu s)).

(** The end of a critical section on a thread's lock. *)
Lemma wp_unlock_thread th (s : timer) ss (Q : unit → timer → Prop) :
  free_lock (tm_sched s) (thread_lock th) → sc_cpu ss = locked th (tm_sched s) →
  Q tt (upd_sched (upd_cpu (sc_cpu (tm_sched s)) ss) s) →
  wp (on_sched (thread_unlock_thread th)) (upd_sched ss s) Q.
Proof.
  intros Hl Hc HQ. apply wp_zoom, wp_zoom, wp_spin_unlock; cbn [upd_sched tm_sched]; rewrite Hc.
  { simpl. rewrite lookup_insert_eq. by eexists. }
  simpl. rewrite insert_insert_eq, insert_id by done. by destruct s as [[? [? ?] ?] ?].
Qed.

(** A thread is added while its lock is held, inside a routine that works on the base state [s0]. *)
Lemma wp_add_locked (s0 s : sched) a th (Q : unit → sched → Prop) :
  pooled s0 a s → sleeper a.1 th → free_lock s (thread_lock th) → free_lock s rq_lock →
  (∀ s', sc_cpu s' = locked th s → pooled s0 (pool_wake s0 th a) (upd_cpu (sc_cpu s) s') → Q tt s') →
  wp (sched_add_thread th) (upd_cpu (locked th s) s) Q.
Proof.
  intros [Hs (x & c & Es)] (t & Ht & Hst & Hp) Hl Hr HQ.
  assert (sc_threads s = a.1) as Em by by rewrite Es.
  assert (th ∈ dom (sc_threads s)) as Hd by (rewrite Em; by apply elem_of_dom_2 in Ht).
  destruct (thread_lock_not_rq _ _ _ Hs Hd) as [Hrq _].
  eapply (wp_sched_add_thread _ a.2 th t); [by apply sched_inv_cpu'|by rewrite <- Em in Ht|..]; try done.
  { exists SPIN_LOCKED. simpl. rewrite lookup_insert_eq. done. }
  { by apply free_other. }
  intros x' c' s' p Hs'. apply HQ; [done|]. unfold pool_wake. rewrite Ht. split.
  - apply (sched_inv_cpu' s' _ (sc_cpu s)), Hs'.
  - exists x', c'. subst s'. rewrite Es. by destruct s0 as [? [? ?] ?].
Qed.

Lemma pooled_cpu s0 a s : pooled s0 a s → sc_cpu s = sc_cpu s0 ∧ sc_threads s = a.1.
Proof. by intros [_ (x & c & ->)]. Qed.

Lemma wp_wake_thread (s0 : sched) (s : timer) a th (Q : unit → timer → Prop) :
  pooled s0 a (tm_sched s) → sleeper a.1 th → free_lock (tm_sched s) (thread_lock th) →
  free_lock (tm_sched s) rq_lock →
  (∀ ss, pooled s0 (pool_wake s0 th a) ss → Q tt (upd_sched ss s)) →
  wp (wake_thread th) s Q.
Proof.
  intros Hs Hsl Hl Hr HQ. unfold wake_thread. apply wp_bind, wp_zoom, wp_lock_thread; [done|].
  apply wp_bind, wp_zoom. eapply (wp_add_locked s0 (tm_sched s) a); [done..|]. intros ss Hc Hs'.
  apply (wp_unlock_thread th s ss); [done|done|]. by apply HQ.
Qed.

Lemma wp_wake_handler (s0 : sched) (s : timer) a (Q : unit → timer → Prop) :
  let h := timeout_calls_thread s in
  pooled s0 a (tm_sched s) → handler_ok a.1 h → free_lock (tm_sched s) (thread_lock h) →
  free_lock (tm_sched s) rq_lock →
  (∀ ss, pooled s0 (pool_rouse s0 h a) ss → Q tt (upd_sched ss s)) →
  wp wake_handler s Q.
Proof.
  intros h Hs (t & Ht & Hp) Hl Hr HQ. unfold wake_handler. apply wp_bind, wp_gets. fold h.
  assert (sc_threads (tm_sched s) = a.1) as Em by (by destruct Hs as [_ (x & c & ->)]).
  apply wp_bind, wp_zoom, wp_lock_thread; [done|].
  apply wp_bind, wp_zoom. eapply wp_load; [simpl; rewrite Em; exact Ht|].
  unfold pool_rouse in HQ. rewrite Ht in HQ. apply wp_bind. case_decide as Est.
  - rewrite (proj2 (Z.eqb_eq _ _)) by done. cbn [when]. apply wp_zoom.
    eapply (wp_add_locked s0 (tm_sched s) a); [done|by exists t; rewrite Est; auto using addable_suspended|done..|].
    intros ss Hc Hs'. specialize (HQ _ Hs'). unfold pool_wake in Hs'. rewrite Ht in Hs'.
    destruct Hs' as [_ (x & c & Es)]. apply (f_equal sc_threads) in Es. simpl in Es.
    apply wp_bind, wp_zoom. eapply wp_load; [simpl; rewrite Es; apply lookup_insert_eq|].
    apply wp_bind, wp_ret. by apply (wp_unlock_thread h s ss).
  - rewrite (proj2 (Z.eqb_neq _ _)) by done. cbn [when]. apply wp_ret.
    apply wp_bind, wp_zoom. eapply wp_load; [simpl; rewrite Em; exact Ht|]. apply wp_bind.
    destruct Hs as [Hs (x & c & Es)]. case_decide as Enx.
    + rewrite (proj2 (Z.eqb_eq _ _)) by done. cbn [when]. apply wp_zoom.
      eapply wp_st_thread; [simpl; rewrite Em; exact Ht|].
      apply (wp_unlock_thread h s); [done|done|]. apply HQ. split.
      * eapply sched_inv_cpu', (sched_inv_thread _ _ _ t); [by apply sched_inv_cpu'|simpl; by rewrite Em| |done|by right].
        rewrite <- Em in Ht. apply (si_carrots _ _ Hs _ _ Ht).
      * exists x, c. simpl. rewrite Em. rewrite Es. by destruct s0 as [? [? ?] ?].
    + rewrite (proj2 (Z.eqb_neq _ _)) by done. cbn [when]. apply wp_ret.
      apply (wp_unlock_thread h s); [done|done|]. apply HQ. split.
      * by repeat apply sched_inv_cpu'.
      * exists x, c. simpl. rewrite Es. by destruct s0 as [? [? ?] ?].
Qed.
(** ** The loop *)

(** What is due within [n] ticks, and what is not. *)
Definition due (n : Z) (l : list (Z * Z)) : list (Z * Z) := filter (λ p, p.1 ≤ n) l.

Definition later (n : Z) (l : list (Z * Z)) : list (Z * Z) := filter (λ p, n < p.1) l.

Lemma due_cons n t e l : due n ((t, e) :: l) = if decide (t ≤ n) then (t, e) :: due n l else due n l.
Proof. unfold due. by rewrite filter_cons. Qed.

Lemma later_cons n t e l : later n ((t, e) :: l) = if decide (n < t) then (t, e) :: later n l else later n l.
Proof. unfold later. by rewrite filter_cons. Qed.

Lemma shift_cons n t e l : shift n ((t, e) :: l) = (t - n, e) :: shift n l.
Proof. done. Qed.

Lemma due_shift n k l : (due n (shift (- k) l)).*2 = (due (n - k) l).*2.
Proof.
  induction l as [|[t e] l IH]; [done|]. rewrite shift_cons, !due_cons.
  destruct (decide (t - - k ≤ n)), (decide (t ≤ n - k)); try lia; [|exact IH]. by rewrite !fmap_cons, IH.
Qed.

Lemma later_shift n k l : shift n (later n (shift (- k) l)) = shift (n - k) (later (n - k) l).
Proof.
  induction l as [|[t e] l IH]; [done|]. rewrite shift_cons, !later_cons.
  destruct (decide (n < t - - k)), (decide (n - k < t)); try lia; [|exact IH].
  rewrite !shift_cons, IH. f_equal. f_equal. lia.
Qed.

Lemma due_none n l : Forall (λ p, n < p.1) l → due n l = [] ∧ later n l = l.
Proof.
  unfold due, later. induction 1 as [|[t e] l H _ [IH1 IH2]]; [done|]. rewrite !filter_cons. simpl in *.
  rewrite decide_False, decide_True by lia. by rewrite IH1, IH2.
Qed.

Lemma due_incl n l e : e ∈ (due n l).*2 → e ∈ l.*2.
Proof.
  intros ([t e'] & -> & [_ H]%list_elem_of_filter)%list_elem_of_fmap. by apply (list_elem_of_fmap_2 snd) in H.
Qed.

(** One event that is due; [acc]: has the handler thread been roused, and the threads. *)
Definition pool_fire (s0 : sched) (h : Z) (m : gmap Z event) (acc : bool * pool) (e : Z) : bool * pool :=
  match ev_kind <$> m !! e with
  | Some (Wake th) => (acc.1, pool_wake s0 th acc.2)
  | Some (Timeout _ _ _ _) => (true, if acc.1 then acc.2 else pool_rouse s0 h acc.2)
  | None => acc
  end.

Lemma pool_fire_ext s0 h m m' l : ∀ acc,
  (∀ e, e ∈ l → ev_kind <$> m' !! e = ev_kind <$> m !! e) →
  foldl (pool_fire s0 h m') acc l = foldl (pool_fire s0 h m) acc l.
Proof.
  induction l as [|e l IH]; intros acc Hk; simpl; [done|].
  rewrite IH by (intros e' ?; apply Hk; by apply list_elem_of_further). f_equal.
  unfold pool_fire. by rewrite Hk by apply list_elem_of_here.
Qed.

(** The threads that sleep on events. *)
Fixpoint sleeping_on (m : gmap Z event) (evs : list Z) : list Z :=
  match evs with
  | [] => []
  | e :: evs =>
      match ev_kind <$> m !! e with
      | Some (Wake th) => th :: sleeping_on m evs
      | _ => sleeping_on m evs
      end
  end.

Lemma sleeping_on_ext m m' evs : (∀ e, e ∈ evs → ev_kind <$> m' !! e = ev_kind <$> m !! e) →
  sleeping_on m' evs = sleeping_on m evs.
Proof.
  induction evs as [|e evs IH]; intros Hk; simpl; [done|].
  rewrite Hk by apply list_elem_of_here. rewrite IH; [done|]. intros e' ?. apply Hk. by apply list_elem_of_further.
Qed.

(** What the events need of the threads: those that sleep may be added, each for one event,
    the handler thread is there, and the locks are free. *)
Record fire_pre (s0 : sched) (h : Z) (m : gmap Z event) (evs : list Z) (woken : bool) (a : pool) : Prop := {
  fp_sleep th : th ∈ sleeping_on m evs → sleeper a.1 th ∧ free_lock s0 (thread_lock th);
  fp_nodup : NoDup (h :: sleeping_on m evs);
  fp_handler : woken = false → handler_ok a.1 h ∧ free_lock s0 (thread_lock h);
  fp_rq : free_lock s0 rq_lock }.

Lemma pool_wake_other s0 th a th' : th' ≠ th → (pool_wake s0 th a).1 !! th' = a.1 !! th'.
Proof. intros. unfold pool_wake. case_match; [|done]. simpl. by rewrite lookup_insert_ne. Qed.

Lemma pool_rouse_other s0 h a th' : th' ≠ h → (pool_rouse s0 h a).1 !! th' = a.1 !! th'.
Proof.
  intros. unfold pool_rouse. case_match; [|done]. case_decide; [by apply pool_wake_other|].
  case_decide; [|done]. simpl. by rewrite lookup_insert_ne.
Qed.

Lemma fire_pre_wake s0 h m e evs woken a th :
  fire_pre s0 h m (e :: evs) woken a → ev_kind <$> m !! e = Some (Wake th) →
  fire_pre s0 h m evs woken (pool_wake s0 th a) ∧ sleeper a.1 th ∧ free_lock s0 (thread_lock th).
Proof.
  intros [Hs Hnd Hh Hr] He. simpl in *. rewrite He in *.
  apply NoDup_cons in Hnd as [Hh' Hnd]. apply NoDup_cons in Hnd as [Hth Hnd].
  rewrite elem_of_cons in Hh'.
  destruct (Hs th (list_elem_of_here _ _)) as [Hsl Hlk]. split; [|done]. split.
  - intros th' Hin. destruct (Hs th' (list_elem_of_further _ _ _ Hin)) as [(t & Ht & ?) ?]. split; [|done].
    exists t. rewrite pool_wake_other; [done|]. intros ->. done.
  - apply NoDup_cons. split; [|done]. intros ?. apply Hh'. by right.
  - intros Hw. destruct (Hh Hw) as [(t & Ht & ?) ?]. split; [|done]. exists t.
    rewrite pool_wake_other; [done|]. intros ->. apply Hh'. by left.
  - done.
Qed.

Lemma fire_pre_rouse s0 h m e evs woken a id r d c :
  fire_pre s0 h m (e :: evs) woken a → ev_kind <$> m !! e = Some (Timeout id r d c) →
  fire_pre s0 h m evs true (if woken then a else pool_rouse s0 h a).
Proof.
  intros [Hs Hnd Hh Hr] He. simpl in *. rewrite He in *. split; [|done|done|done].
  intros th Hin. destruct (Hs th Hin) as [(t & Ht & ?) ?]. split; [|done]. exists t. destruct woken; [done|].
  rewrite pool_rouse_other; [done|]. intros ->. by apply NoDup_cons in Hnd as [? _].
Qed.

Lemma fire_pre_ext s0 h m m' evs woken a :
  (∀ e, e ∈ evs → ev_kind <$> m' !! e = ev_kind <$> m !! e) →
  fire_pre s0 h m evs woken a → fire_pre s0 h m' evs woken a.
Proof. intros Hk [H1 H2 H3 H4]. split; rewrite ?(sleeping_on_ext _ _ _ Hk); done. Qed.

(** What stays as it is. *)
Definition same_rest (s s' : timer) : Prop :=
  timer_ticks s' = timer_ticks s ∧ next_timeout_id s' = next_timeout_id s ∧
  events_ticks_lost s' = events_ticks_lost s ∧ timeout_calls_thread s' = timeout_calls_thread s ∧ calls s' = calls s.

(** The events that are left keep their run locks; no tree node comes to be. *)
Definition same_memory (s s' : timer) : Prop :=
  (∀ e, e ∈ dom (tm_events s') → tm_runs s' !! e = tm_runs s !! e) ∧
  dom (anodes (tm_tree s')) ⊆ dom (anodes (tm_tree s)).

Lemma same_memory_trans s s1 s' : dom (tm_events s') ⊆ dom (tm_events s1) →
  same_memory s s1 → same_memory s1 s' → same_memory s s'.
Proof.
  intros Hsub [H1 H2] [H3 H4]. split; [|by etransitivity]. intros e He. rewrite H3 by done. apply H1. by apply Hsub.
Qed.

(** The outcome of [n] ticks on the queue [evs]. *)
Record fired (s0 : sched) (s : timer) (evs rdy tids : list Z) (n : Z) (woken : bool) (a : pool) (s' : timer)
  : Prop := {
  fi_inv : events_inv s' (later n (agenda (tm_events s) 0 evs)).*2
             (rdy ++ filter (is_timeout (tm_events s)) (due n (agenda (tm_events s) 0 evs)).*2) tids;
  fi_agenda : agenda (tm_events s') 0 (later n (agenda (tm_events s) 0 evs)).*2 =
    shift n (later n (agenda (tm_events s) 0 evs));
  fi_pool : pooled s0 (foldl (pool_fire s0 (timeout_calls_thread s) (tm_events s)) (woken, a)
    (due n (agenda (tm_events s) 0 evs)).*2).2 (tm_sched s');
  fi_kinds e : e ∈ dom (tm_events s') → ev_kind <$> tm_events s' !! e = ev_kind <$> tm_events s !! e;
  fi_rest : same_rest s s';
  fi_memory : same_memory s s' }.
(** The head leaves the events queue. *)
Lemma queue_inv_take s e evs rdy m x :
  queue_inv s (e :: evs) rdy → same_kinds (tm_events s) m →
  (∀ e', e' ∈ evs → delta m e' = delta (tm_events s) e') →
  is_xlist x events_queue (map ev_node evs) → xframe (tm_lists s) x events_queue (map ev_node (e :: evs)) →
  queue_inv (upd_lists x (upd_events m s)) evs rdy ∧ e ∉ evs ++ rdy.
Proof.
  intros Hq Hk Hd Hx Hf. pose proof (qi_nodup _ _ _ Hq) as Hnd. simpl in Hnd. apply NoDup_cons in Hnd as [Hne Hnd].
  split; [|done]. pose proof (same_kinds_dom _ _ Hk) as Edom.
  split; cbn [upd_lists upd_events tm_lists tm_events]; rewrite ?Edom; try done.
  - eapply other_queue; [exact Hf|done|apply (qi_ready _ _ _ Hq)|by apply (evs_ok s _ rdy)|].
    intros y Hy. split; [eapply queue_ok; [done|]; apply elem_of_app; by right|].
    pose proof (qi_nodup _ _ _ Hq) as (_ & Hdis & _)%NoDup_app. intros Hy'. by apply (Hdis y).
  - apply (qi_addr _ _ _ Hq).
  - intros y Hy. apply (qi_in _ _ _ Hq). by apply list_elem_of_further.
  - intros y Hy. eapply xframe_nodes; [done|]. by apply (qi_nodes _ _ _ Hq).
  - intros y Hy. rewrite Hd by done. apply (qi_delta _ _ _ Hq). by apply list_elem_of_further.
Qed.

(** An event goes to the end of the ready timeout calls. *)
Lemma queue_inv_enqueue s evs rdy e x :
  queue_inv s evs rdy → e ∈ dom (tm_events s) → e ∉ evs ++ rdy →
  is_xlist x ready_timeouts_queue (map ev_node (rdy ++ [e])) →
  xframe (tm_lists s) x ready_timeouts_queue (map ev_node (e :: rdy)) →
  queue_inv (upd_lists x s) evs (rdy ++ [e]).
Proof.
  intros Hq Hd He Hx Hf. rewrite not_elem_of_app in He. destruct He as [He1 He2].
  pose proof (qi_nodup _ _ _ Hq) as Hnd.
  split; cbn [upd_lists tm_lists tm_events]; try done.
  - eapply other_queue; [exact Hf|done|apply (qi_events _ _ _ Hq)|..].
    + intros y [->|Hy]%elem_of_cons; [by apply (qi_addr _ _ _ Hq)|].
      eapply queue_ok; [done|]. apply elem_of_app. by right.
    + intros y Hy. split; [by apply (evs_ok s evs rdy)|]. apply NoDup_app in Hnd as (_ & Hdis & _).
      intros [->|Hy']%elem_of_cons; [done|]. by apply (Hdis y).
  - apply (qi_addr _ _ _ Hq).
  - intros y. rewrite app_assoc. intros [Hy|Hy%list_elem_of_singleton]%elem_of_app; [|by subst y].
    by apply (qi_in _ _ _ Hq).
  - rewrite app_assoc. apply NoDup_app. split_and!; [done| |apply NoDup_singleton].
    intros y Hy Hye%list_elem_of_singleton. subst y. apply elem_of_app in Hy as [?|?]; done.
  - intros y Hy. eapply xframe_nodes; [done|]. by apply (qi_nodes _ _ _ Hq).
  - apply (qi_delta _ _ _ Hq).
Qed.

Lemma is_timeout_kind m e : is_timeout m e ↔ ∃ id r d c, ev_kind <$> m !! e = Some (Timeout id r d c).
Proof.
  unfold is_timeout. split.
  - intros (id & r & d & c & dl & ->). by eexists _, _, _, _.
  - intros (id & r & d & c & H). destruct (m !! e) as [[dl k]|]; [|done]. simpl in H. injection H as ->.
    by eexists _, _, _, _, _.
Qed.

(** The end of a sleep: the event is destroyed. *)
Lemma events_inv_wake s e evs rdy tids m th x ss h live :
  events_inv s (e :: evs) rdy tids → ev_kind <$> tm_events s !! e = Some (Wake th) →
  same_kinds (tm_events s) m → queue_inv (upd_lists x (upd_events m s)) evs rdy → e ∉ evs ++ rdy →
  al_live (tm_heap s) live → dom (tm_events s) ⊆ live → al_live h (live ∖ {[e]}) →
  events_inv (drop_object e (upd_heap h (upd_lists x (upd_sched ss (upd_events m s))))) evs rdy tids.
Proof.
  intros [Hq0 Hdom Hlv Hruns Hnodes Htree Htids Hrdy] Hkind Hk Hq He Hl Hsub Hh.
  pose proof (same_kinds_dom _ _ Hk) as Ed.
  assert (¬ is_timeout (tm_events s) e) as Hnt.
  { intros (? & ? & ? & ? & ?)%is_timeout_kind. congruence. }
  eapply events_inv_drop; cbn [upd_lists upd_sched upd_events tm_events tm_heap tm_runs tm_tree tm_lists];
    rewrite ?Ed; try done.
  - by destruct Hq.
  - apply (qi_in _ _ _ Hq0). apply list_elem_of_here.
  - by rewrite Htids.
  - intros e' Hd'. apply Hdom in Hd'. simpl in Hd'. by apply elem_of_cons in Hd'.
  - eapply aset_ids; [|done]. intros e' _. by apply same_kinds_ids.
  - intros e' _. rewrite Htids. symmetry. by apply same_kinds_timeout.
  - intros e' He'. apply (same_kinds_timeout _ _ _ Hk). by apply Hrdy.
Qed.

(** The agenda of the rest, when the head is due. *)
Lemma agenda_rest m m' e evs n :
  (∀ e', e' ∈ evs → delta m' e' = delta m e') → delta m e ≤ n →
  let k := delta m e in
  (due n (agenda m 0 (e :: evs))).*2 = e :: (due (n - k) (agenda m' 0 evs)).*2 ∧
  (later n (agenda m 0 (e :: evs))).*2 = (later (n - k) (agenda m' 0 evs)).*2 ∧
  shift n (later n (agenda m 0 (e :: evs))) = shift (n - k) (later (n - k) (agenda m' 0 evs)).
Proof.
  intros Hd Hn k. cbn [agenda]. rewrite (agenda_ext _ _ _ Hd). rewrite Z.add_0_l. fold k.
  assert (agenda m k evs = shift (- k) (agenda m 0 evs)) as -> by (rewrite <- agenda_shift; f_equal; lia).
  rewrite due_cons, later_cons, decide_True, decide_False by lia. rewrite fmap_cons, due_shift.
  split_and!; [done| |apply later_shift].
  assert (∀ n l, (shift n l).*2 = l.*2) as Hs2
    by (intros n' l; unfold shift; rewrite <- list_fmap_compose; by apply list_fmap_ext).
  rewrite <- (Hs2 n (later n _)), later_shift. by rewrite Hs2.
Qed.
(** Nothing is due. *)
Lemma fired_none s0 s evs rdy tids n woken a m :
  events_inv s evs rdy tids → pooled s0 a (tm_sched s) → same_kinds (tm_events s) m →
  (∀ e, e ∈ evs → 0 ≤ delta m e < 2 ^ 31) → agenda m 0 evs = shift n (agenda (tm_events s) 0 evs) →
  Forall (λ p, n < p.1) (agenda (tm_events s) 0 evs) →
  fired s0 s evs rdy tids n woken a (upd_events m s).
Proof.
  intros Hi Hp Hk Hd Ha Hf. destruct (due_none _ _ Hf) as [E1 E2].
  assert (upd_events m s = upd_lists (tm_lists s) (upd_events m s)) as Es by done.
  split; rewrite ?E1, ?E2, ?agenda_events; simpl; try done.
  - rewrite app_nil_r, Es. eapply events_inv_queue; [done|done| |done|apply (ei_rdy _ _ _ _ Hi)].
    rewrite <- Es. eapply queue_inv_deltas; [apply Hi|done|done].
Qed.

Lemma fired_refl s0 s rdy tids n woken a :
  events_inv s [] rdy tids → pooled s0 a (tm_sched s) → fired s0 s [] rdy tids n woken a s.
Proof.
  intros Hi Hp. assert (s = upd_events (tm_events s) s) as Es by by destruct s.
  rewrite Es at 2. apply fired_none; try done. by intros e ?%elem_of_nil.
Qed.

Lemma filter_same (P P' : Z → Prop) `{!∀ x, Decision (P x)} `{!∀ x, Decision (P' x)} (l : list Z) :
  (∀ x, x ∈ l → P x ↔ P' x) → filter P l = filter P' l.
Proof.
  induction l as [|x l IH]; intros Hl; [done|]. rewrite !filter_cons.
  rewrite IH by (intros y ?; apply Hl; by apply list_elem_of_further).
  apply decide_ext, Hl, list_elem_of_here.
Qed.

(** The head has fired, [s1] is the state then. *)
Lemma fired_step s0 s s1 e evs rdy rdy' tids n woken woken' a a' s' :
  let k := delta (tm_events s) e in
  k ≤ n → e ∉ evs →
  (∀ e', e' ∈ evs → tm_events s1 !! e' = tm_events s !! e') →
  (∀ e', e' ∈ dom (tm_events s1) → ev_kind <$> tm_events s1 !! e' = ev_kind <$> tm_events s !! e') →
  rdy' = rdy ++ filter (is_timeout (tm_events s)) [e] →
  (woken', a') = pool_fire s0 (timeout_calls_thread s) (tm_events s) (woken, a) e →
  same_rest s s1 → same_memory s s1 → dom (tm_events s') ⊆ dom (tm_events s1) →
  fired s0 s1 evs rdy' tids (n - k) woken' a' s' →
  fired s0 s (e :: evs) rdy tids n woken a s'.
Proof.
  intros k Hk Hne Hsame Hkinds -> Hpool Hrest Hmem Hsub [H1 H2 H3 H4 H5 H6].
  destruct (agenda_rest (tm_events s) (tm_events s1) e evs n) as (E1 & E2 & E3).
  { intros e' He'. unfold delta. by rewrite Hsame. }
  { done. }
  fold k in E1, E2, E3.
  assert (∀ e', e' ∈ (due (n - k) (agenda (tm_events s1) 0 evs)).*2 → e' ∈ evs) as Hin.
  { intros e' He'%due_incl. by rewrite agenda_events in He'. }
  split; rewrite ?E1, ?E2, ?E3; try done.
  - assert (filter (is_timeout (tm_events s)) (e :: (due (n - k) (agenda (tm_events s1) 0 evs)).*2) =
      filter (is_timeout (tm_events s)) [e] ++ filter (is_timeout (tm_events s1)) (due (n - k) (agenda (tm_events s1) 0 evs)).*2)
      as ->; [|by rewrite app_assoc].
    change (e :: (due (n - k) (agenda (tm_events s1) 0 evs)).*2)
      with ([e] ++ (due (n - k) (agenda (tm_events s1) 0 evs)).*2).
    rewrite filter_app. f_equal. apply filter_same. intros e' He'. unfold is_timeout. by rewrite Hsame by by apply Hin.
  - destruct Hrest as (_ & _ & _ & Eh & _). rewrite Eh in H3. cbn [foldl]. rewrite <- Hpool.
    erewrite <- pool_fire_ext; [exact H3|]. intros e' He'. by rewrite Hsame by by apply Hin.
  - intros e' He'. rewrite H4 by done. apply Hkinds. by apply Hsub.
  - destruct Hrest as (R1 & R2 & R3 & R4 & R5), H5 as (S1 & S2 & S3 & S4 & S5). split_and!; congruence.
  - by eapply same_memory_trans.
Qed.
Lemma wp_group2 {S X1 X2 X} (m1 : M S X1) (m2 : M S X2) (m3 : M S X) s (Q : X → S → Prop) :
  wp ((m1;; m2);; m3) s Q → wp (m1;; m2;; m3) s Q.
Proof. unfold wp, mbind, M_bind. by destruct (m1 s) as [[? s1]| | |]. Qed.

Lemma wp_group3 {S X1 X2 X3 X} (m1 : M S X1) (m2 : M S X2) (m3 : M S X3) (m4 : M S X) s (Q : X → S → Prop) :
  wp ((m1;; m2;; m3);; m4) s Q → wp (m1;; m2;; m3;; m4) s Q.
Proof.
  unfold wp, mbind, M_bind. destruct (m1 s) as [[? s1]| | |]; [|done..]. by destruct (m2 s1) as [[? s2]| | |].
Qed.

(** Does anything fall due within [n] ticks? *)
Definition any_due (n : Z) (l : list (Z * Z)) : bool := negb (bool_decide (due n l = [])).

Lemma wp_take_first (s : timer) l (Q : Z → timer → Prop) :
  is_xlist (tm_lists s) events_queue l → l ≠ [] →
  (∀ n l' x, l = n :: l' → is_xlist x events_queue l' → xframe (tm_lists s) x events_queue l → Q n (upd_lists x s)) →
  wp (zoom tm_lists upd_lists (xlist_extract_first events_queue)) s Q.
Proof.
  intros Hl Hne HQ. apply wp_zoom. eapply wp_xlist_extract_first; [exact Hl|done|]. intros n l' x -> Hx Hf _. by eapply HQ.
Qed.

(** A thread's sleep is over: the thread is given back, the event destroyed. *)
Lemma wp_fire_wake s0 s a e evs rdy tids th m (Q : unit → timer → Prop) :
  events_inv s (e :: evs) rdy tids → pooled s0 a (tm_sched s) → ev_kind <$> tm_events s !! e = Some (Wake th) →
  same_kinds (tm_events s) m → (∀ e', e' ∈ evs → delta m e' = delta (tm_events s) e') →
  sleeper a.1 th → free_lock s0 (thread_lock th) → free_lock s0 rq_lock →
  (∀ ss h x, let s' := drop_object e (upd_heap h (upd_lists x (upd_sched ss (upd_events m s)))) in
     events_inv s' evs rdy tids → pooled s0 (pool_wake s0 th a) ss → Q tt s') →
  wp (wake_thread th;; destroy_first_event) (upd_events m s) Q.
Proof.
  intros Hi Hp Hkind Hk Hd Hsl Hlk Hrq HQ. pose proof (ei_queue _ _ _ _ Hi) as Hq.
  destruct (pooled_cpu _ _ _ Hp) as [Ec _].
  apply wp_bind, (wp_wake_thread s0 _ a); try done.
  { unfold free_lock. simpl. by rewrite Ec. }
  { unfold free_lock. simpl. by rewrite Ec. }
  intros ss Hss. unfold destroy_first_event. apply wp_bind.
  eapply wp_take_first; [apply (qi_events _ _ _ Hq)|done|]. intros n l' x [= <- <-] Hx Hf.
  assert (ev_ok e) as He by (apply (evs_ok s (e :: evs) rdy Hq), list_elem_of_here).
  rewrite ev_node_null, node_event_ok by done.
  destruct (queue_inv_take s e evs rdy m x Hq Hk Hd Hx Hf) as [Hq' Hne].
  destruct (ei_live _ _ _ _ Hi) as (live & Hl & Hsub).
  eapply (wp_free_event _ e live); [exact Hl| |].
  { apply Hsub, (qi_in _ _ _ Hq), list_elem_of_here. }
  intros h Hh. apply HQ; [|done]. by eapply events_inv_wake.
Qed.

(** A timeout call is ready: it goes to the other queue, the handler is roused once. *)
Lemma wp_fire_timeout s0 s a e evs rdy tids m (woken : bool) id r d c (Q : unit → timer → Prop) :
  events_inv s (e :: evs) rdy tids → pooled s0 a (tm_sched s) →
  ev_kind <$> tm_events s !! e = Some (Timeout id r d c) →
  same_kinds (tm_events s) m → (∀ e', e' ∈ evs → delta m e' = delta (tm_events s) e') →
  (woken = false → handler_ok a.1 (timeout_calls_thread s) ∧ free_lock s0 (thread_lock (timeout_calls_thread s))) →
  free_lock s0 rq_lock →
  (∀ ss x, let s' := upd_sched ss (upd_lists x (upd_events m s)) in
     events_inv s' evs (rdy ++ [e]) tids →
     pooled s0 (if woken then a else pool_rouse s0 (timeout_calls_thread s) a) ss → Q tt s') →
  wp (extract_first_event;; enqueue_timeout_event e;; when (negb woken) wake_handler) (upd_events m s) Q.
Proof.
  intros Hi Hp Hkind Hk Hd Hw Hrq HQ. pose proof (ei_queue _ _ _ _ Hi) as Hq.
  destruct (pooled_cpu _ _ _ Hp) as [Ec _]. pose proof (same_kinds_dom _ _ Hk) as Ed.
  assert (ev_ok e) as He by (apply (evs_ok s (e :: evs) rdy Hq), list_elem_of_here).
  assert (e ∈ dom (tm_events s)) as Hin by apply (qi_in _ _ _ Hq), list_elem_of_here.
  apply wp_bind. unfold extract_first_event. apply wp_bind.
  eapply wp_take_first; [apply (qi_events _ _ _ Hq)|done|]. intros n l' x [= <- <-] Hx Hf. apply wp_ret.
  destruct (queue_inv_take s e evs rdy m x Hq Hk Hd Hx Hf) as [Hq' Hne].
  apply wp_bind. unfold enqueue_timeout_event. apply wp_bind, wp_zoom.
  eapply wp_xlist_add_last; [apply (qi_ready _ _ _ Hq')| |by apply ev_node_valid| |].
  { apply ev_node_notin; [done| |]; [|intros ?; apply Hne, elem_of_app; by right].
    intros e' ?. eapply queue_ok; [exact Hq|]. apply elem_of_app. by right. }
  { apply (qi_nodes _ _ _ Hq'). simpl. by rewrite Ed. }
  intros x2 Hx2 Hf2. apply wp_ret.
  assert (queue_inv (upd_lists x2 (upd_lists x (upd_events m s))) evs (rdy ++ [e])) as Hq2.
  { apply queue_inv_enqueue; [done|simpl; by rewrite Ed|done|by rewrite map_app|done]. }
  assert (events_inv (upd_lists x2 (upd_events m s)) evs (rdy ++ [e]) tids) as Hi2.
  { eapply events_inv_queue; [exact Hi|done|exact Hq2| |].
    - intros y. rewrite !elem_of_app, elem_of_cons, list_elem_of_singleton. tauto.
    - intros y [Hy|Hy%list_elem_of_singleton]%elem_of_app; [by apply (ei_rdy _ _ _ _ Hi)|]. subst y.
      apply is_timeout_kind. by eexists _, _, _, _. }
  destruct woken; cbn [negb when]; [apply wp_ret|].
  2: { destruct (Hw eq_refl) as [Hh Hl]. eapply (wp_wake_handler s0 _ a); try done.
    { unfold free_lock. simpl. by rewrite Ec. }
    { unfold free_lock. simpl. by rewrite Ec. }
    intros ss Hss. apply HQ; [|done]. by apply events_inv_sched. }
  specialize (HQ (tm_sched s) x2). apply HQ; [|done].
  apply (events_inv_sched _ _ _ _ (tm_sched s)) in Hi2. exact Hi2.
Qed.
Lemma wp_fire_loop evs : ∀ fuel s s0 a rdy tids n woken resched (Q : bool → timer → Prop),
  events_inv s evs rdy tids → pooled s0 a (tm_sched s) →
  fire_pre s0 (timeout_calls_thread s) (tm_events s) evs woken a → 0 ≤ n < 2 ^ 31 → (length evs < fuel)%nat →
  (∀ s', fired s0 s evs rdy tids n woken a s' → dom (tm_events s') ⊆ dom (tm_events s) →
     Q (resched || any_due n (agenda (tm_events s) 0 evs)) s') →
  wp (fire_loop fuel n woken resched) s Q.
Proof.
  induction evs as [|e evs IH]; intros [|fuel] s s0 a rdy tids n woken resched Q Hi Hp Hpre Hn Hf HQ;
    try (simpl in Hf; lia); cbn [fire_loop];
    (apply wp_bind; eapply wp_peek_first_event; [apply Hi|]); cbn [head_or].
  { apply wp_ret. specialize (HQ s). rewrite orb_false_r in HQ. apply HQ; [by apply fired_refl|done]. }
  pose proof (ei_queue _ _ _ _ Hi) as Hq.
  assert (e ∈ dom (tm_events s)) as Hin by apply (qi_in _ _ _ Hq), list_elem_of_here.
  destruct (qi_addr _ _ _ Hq e Hin) as [Hpos _]. rewrite (proj2 (Z.eqb_neq e NULL)) by (unfold NULL; lia).
  destruct (lookup_delta _ _ Hin) as (v & Hv & Ed). apply wp_bind. eapply wp_load; [done|].
  pose proof (qi_delta _ _ _ Hq e (list_elem_of_here _ _)) as Hde. rewrite Ed.
  set (k := delta (tm_events s) e) in *. rewrite (swrap_small 32 (k - n)) by lia.
  apply wp_bind, wp_modify. set (m := <[e := with_delta (k - n) v]> (tm_events s)).
  assert (same_kinds (tm_events s) m) as Hk by by apply same_kinds_delta.
  assert (e ∉ evs) as Hne.
  { pose proof (qi_nodup _ _ _ Hq) as [Hne _]%NoDup_cons. intros ?. apply Hne, elem_of_app. by left. }
  assert (∀ e', e' ∈ evs → m !! e' = tm_events s !! e') as Hsame
    by (intros e' ?; apply lookup_insert_ne; by intros ->).
  assert (∀ e', e' ∈ evs → delta m e' = delta (tm_events s) e') as Hd by (intros e' ?; unfold delta; by rewrite Hsame).
  assert (ev_kind <$> tm_events s !! e = Some (ev_kind v)) as Hkind by by rewrite Hv.
  destruct (Z.leb_spec (k - n) 0) as [Hle|Hgt].
  2: { apply wp_ret. assert (Forall (λ p, n < p.1) (agenda (tm_events s) 0 (e :: evs))) as Hall.
    { constructor; [simpl; fold k; lia|]. eapply Forall_impl; [apply (agenda_from _ evs (0 + k))|].
      - intros e' ?. apply (qi_delta _ _ _ Hq). by apply list_elem_of_further.
      - intros p. simpl. lia. }
    unfold any_due in HQ. destruct (due_none _ _ Hall) as [Edue _]. rewrite Edue in HQ.
    rewrite bool_decide_true, orb_false_r in HQ by done. apply HQ.
    - eapply fired_none; try done.
      + intros e' [->|He']%elem_of_cons; [unfold m; rewrite delta_insert_eq; simpl; lia|].
        rewrite Hd by done. apply (qi_delta _ _ _ Hq). by apply list_elem_of_further.
      + assert (delta m e = k - n) as Edm by (unfold m; by rewrite delta_insert_eq).
        cbn [agenda]. rewrite Edm, (agenda_ext _ _ _ Hd), !Z.add_0_l. fold k.
        rewrite shift_cons, agenda_shift. done.
    - simpl. by rewrite (same_kinds_dom _ _ Hk). }
  rewrite swrap_small by lia. replace (- (k - n)) with (n - k) by lia.
  assert (any_due n (agenda (tm_events s) 0 (e :: evs)) = true) as Hany.
  { unfold any_due. cbn [agenda]. fold k. rewrite due_cons, decide_True by lia. by rewrite bool_decide_false. }
  rewrite Hany, orb_true_r in HQ. apply same_kinds_dom in Hk as Edom.
  destruct (ev_kind v) as [id r d c|th] eqn:Ekind.
  - apply wp_group3, wp_bind. eapply (wp_fire_timeout s0 s a e evs rdy tids m woken id r d c); try done.
    { apply (fp_handler _ _ _ _ _ _ Hpre). }
    { apply (fp_rq _ _ _ _ _ _ Hpre). }
    intros ss x s1 Hi1 Hp1. eapply (IH fuel s1); [exact Hi1|exact Hp1| |lia|simpl in Hf; lia|].
    { eapply fire_pre_ext; [|eapply fire_pre_rouse; [exact Hpre|exact Hkind]].
      intros e' He'. cbn [s1 upd_sched upd_lists upd_events tm_events]. by rewrite Hsame. }
    intros s' Hf' Hsub. apply HQ.
    + eapply (fired_step s0 s s1); try exact Hf'; try done.
      * fold k. lia.
      * rewrite filter_cons_True; [done|]. apply is_timeout_kind. eauto.
      * unfold pool_fire. by rewrite Hkind.
    + etransitivity; [exact Hsub|]. simpl. by rewrite Edom.
  - apply wp_group2, wp_bind.
    destruct (fire_pre_wake _ _ _ _ _ _ _ th Hpre) as (Hpre' & Hsl & Hlk); [exact Hkind|].
    eapply (wp_fire_wake s0 s a e evs rdy tids th m); try done.
    { apply (fp_rq _ _ _ _ _ _ Hpre). }
    intros ss h x s1 Hi1 Hp1. eapply (IH fuel s1); [exact Hi1|exact Hp1| |lia|simpl in Hf; lia|].
    { eapply fire_pre_ext; [|exact Hpre']. intros e' He'. simpl. rewrite lookup_delete_ne by (by intros ->).
      by rewrite Hsame. }
    intros s' Hf' Hsub. apply HQ.
    + eapply (fired_step s0 s s1); try exact Hf'; try done.
      * fold k. lia.
      * intros e' He'. simpl. rewrite lookup_delete_ne by (by intros ->). by rewrite Hsame.
      * intros e' He'. simpl in *. rewrite dom_delete_L in He'. rewrite lookup_delete_ne by set_solver. apply Hk.
      * rewrite filter_cons_False; [by rewrite app_nil_r|]. intros (? & ? & ? & ? & ?)%is_timeout_kind. congruence.
      * unfold pool_fire. by rewrite Hkind.
      * split; simpl; rewrite dom_delete_L; [|set_solver +]. intros e' He'. apply lookup_delete_ne. set_solver.
    + etransitivity; [exact Hsub|]. simpl. rewrite dom_delete_L, Edom. set_solver +.
Qed.
(** ** The tick *)

(** The timer is in order, [qs] are the run queues; the threads its events need are there
    and the locks are free. *)
Record timer_ok (s : timer) (evs rdy tids : list Z) (qs : Z → list Z) : Prop := {
  to_events : events_inv s evs rdy tids;
  to_sched : sched_inv (tm_sched s) qs;
  to_pre : fire_pre (tm_sched s) (timeout_calls_thread s) (tm_events s) evs false (sc_threads (tm_sched s), qs);
  to_lock : free_lock (tm_sched s) events_lock;
  to_tlock : free_lock (tm_sched s) timeouts_lock }.

(** The state when the queue has been worked on for [n] ticks. *)
Definition ticked_to (s : timer) (evs rdy tids : list Z) (qs : Z → list Z) (n : Z) (s' : timer) : Prop :=
  fired (tm_sched s) (upd_ticks (timer_ticks s) 0 s) evs rdy tids n false (sc_threads (tm_sched s), qs) s'.

Lemma fire_pre_cpu s0 c h m evs woken a :
  (∀ x, x ≠ events_lock → free_lock s0 x → free_lock (upd_cpu c s0) x) →
  (∀ th, th ∈ dom a.1 → thread_lock th ≠ events_lock) →
  fire_pre s0 h m evs woken a → fire_pre (upd_cpu c s0) h m evs woken a.
Proof.
  intros Hc Hne [H1 H2 H3 H4]. split.
  - intros th Hth. destruct (H1 th Hth) as [Hsl Hl]. split; [done|]. apply Hc; [|done]. apply Hne.
    destruct Hsl as (t & Ht & _). by apply elem_of_dom_2 in Ht.
  - done.
  - intros Hw. destruct (H3 Hw) as [Hh Hl]. split; [done|]. apply Hc; [|done]. apply Hne.
    destruct Hh as (t & Ht & _). by apply elem_of_dom_2 in Ht.
  - by apply Hc.
Qed.

Lemma thread_lock_not_timer s qs th :
  sched_inv s qs → th ∈ dom (sc_threads s) → thread_lock th ≠ events_lock ∧ thread_lock th ≠ timeouts_lock.
Proof.
  intros Hs Hd. pose proof (si_addr _ _ Hs _ Hd) as Ha. rewrite thread_lock_ok by done.
  destruct Ha. unfold events_lock, timeouts_lock. lia.
Qed.

Lemma wp_timer_schedule_event s evs rdy tids qs (Q : bool → timer → Prop) :
  let n := s32 (events_ticks_lost s + 1) in
  timer_ok s evs rdy tids qs → 0 ≤ n →
  (∀ s', ticked_to s evs rdy tids qs n s' → Q (any_due n (agenda (tm_events s) 0 evs)) s') →
  wp timer_schedule_event s Q.
Proof.
  intros n [Hi Hs Hpre Hl Htl] Hn HQ. unfold timer_schedule_event.
  apply wp_bind, wp_zoom, wp_zoom. eapply wp_spin_trylock; [exact Hl|]. change (SPIN_UNLOCKED =? 0) with true. cbv iota.
  change (1 =? 0) with false. cbv iota.
  apply wp_bind, wp_gets, wp_bind, wp_modify, wp_bind, wp_gets. cbn [upd_sched upd_ticks events_ticks_lost tm_events].
  fold n. set (lk := Cpu _ _).
  set (s1 := upd_ticks _ _ _).
  assert (n < 2 ^ 31) as Hn2.
  { unfold n, swrap. pose proof (Z.mod_pos_bound (events_ticks_lost s + 1 + 2 ^ (32 - 1)) (2 ^ 32)). lia. }
  apply wp_bind.
  apply (wp_fire_loop evs _ s1 (upd_cpu lk (tm_sched s)) (sc_threads (tm_sched s), qs) rdy tids n).
  - destruct Hi as [Hq ? ? ? ? ? ? ?]. split; try done. by destruct Hq.
  - apply (pooled_same (upd_cpu lk (tm_sched s)) qs). by apply sched_inv_cpu'.
  - apply fire_pre_cpu; [|intros th Hd; by apply (thread_lock_not_timer _ _ _ Hs Hd)|exact Hpre].
    intros x Hne Hx. unfold free_lock. simpl. by rewrite lookup_insert_ne.
  - lia.
  - pose proof (length_events _ _ _ (ei_queue _ _ _ _ Hi)). lia.
  - intros s2 [F1 F2 F3 F4 F5 F6] _. cbn [orb]. apply wp_bind, wp_zoom, wp_zoom. apply wp_spin_unlock.
    { destruct (pooled_cpu _ _ _ F3) as [-> _]. simpl. rewrite lookup_insert_eq. by eexists. }
    apply wp_ret. apply HQ. split; try done.
    + by apply events_inv_sched.
    + destruct (pooled_cpu _ _ _ F3) as [Ec _]. destruct F3 as [Hs2 (x & c & Es)]. split; [by apply sched_inv_cpu'|].
      exists x, c. cbn [upd_sched tm_sched]. rewrite Ec. cbn [lk upd_cpu sc_cpu locks irqs].
      rewrite insert_insert_eq, insert_id by done. rewrite Es. by destruct (tm_sched s) as [? [? ?] ?].
Qed.
End tick.
