(* ===== verification/TimerRuns.v ===== *)
(** * Runs of the timer

    Tick after tick: the invariant goes on, and the events fire at their times. *)

From stdpp Require Import gmap list sorting.
From S2P Require Import Prelude Spinlock XList AvlTree Alloc Sched SchedSpec Timer TimerQueue TimerInv TimerTick.
#[local] Open Scope Z_scope.

Section runs.
Context {A : Allocator} {L : AllocLaws A}.

(** ** Agendas over time *)

Lemma in_order_cons t e l : in_order ((t, e) :: l) → in_order l ∧ Forall (λ p, t ≤ p.1) l.
Proof. unfold in_order. rewrite fmap_cons. intros [Hs Ht]%StronglySorted_inv. split; [exact Hs|]. by rewrite Forall_fmap in Ht. Qed.

Lemma due_later n l : in_order l → l = due n l ++ later n l.
Proof.
  induction l as [|[t e] l IH]; [done|]. intros [Hs Ht]%in_order_cons.
  rewrite due_cons, later_cons. destruct (decide (t ≤ n)) as [Hle|Hgt].
  - rewrite decide_False by lia. simpl. f_equal. by apply IH.
  - rewrite decide_True by lia. assert (Forall (λ p, n < p.1) l) as Hall.
    { eapply Forall_impl; [exact Ht|]. intros p. simpl. lia. }
    destruct (due_none _ _ Hall) as [-> ->]. done.
Qed.

Lemma shift_shift n k l : shift k (shift n l) = shift (n + k) l.
Proof. induction l as [|[t e] l IH]; [done|]. rewrite !shift_cons, IH. f_equal. f_equal. lia. Qed.

Lemma shift_events n l : (shift n l).*2 = l.*2.
Proof. induction l as [|[t e] l IH]; [done|]. rewrite shift_cons, !fmap_cons, IH. done. Qed.

(** [n] ticks and then [k] ticks are [n + k] ticks. *)
Lemma later_after n k l : 0 ≤ k →
  later k (shift n (later n l)) = shift n (later (n + k) l).
Proof.
  intros Hk. induction l as [|[t e] l IH]; [done|].
  rewrite !later_cons. destruct (decide (n < t)) as [Hlt|Hge].
  - rewrite shift_cons, later_cons, IH. destruct (decide (k < t - n)), (decide (n + k < t)); try lia; [|done].
    by rewrite shift_cons.
  - by rewrite decide_False by lia.
Qed.

Lemma due_after n k l : 0 ≤ k → in_order l →
  (due (n + k) l).*2 = (due n l).*2 ++ (due k (shift n (later n l))).*2.
Proof.
  intros Hk. induction l as [|[t e] l IH]; [done|]. intros [Hs Ht]%in_order_cons. rewrite !later_cons, !due_cons.
  destruct (decide (n < t)) as [Hlt|Hge].
  - assert (Forall (λ p, n < p.1) l) as Hall by (eapply Forall_impl; [exact Ht|]; intros p; simpl; lia).
    destruct (due_none _ _ Hall) as [E1 E2]. rewrite (decide_False (P := t ≤ n)) by lia.
    specialize (IH Hs). rewrite E1, E2 in IH. rewrite E1, E2, shift_cons, due_cons.
    destruct (decide (t ≤ n + k)), (decide (t - n ≤ k)); try lia; [by rewrite !fmap_cons, IH|exact IH].
  - rewrite !decide_True by lia. rewrite !fmap_cons, IH by done. by rewrite <- app_comm_cons.
Qed.

(** ** The threads while events fire *)

Lemma fire_pre_rouse' s0 h m e evs a id r d c (b : bool) :
  fire_pre s0 h m (e :: evs) false a → ev_kind <$> m !! e = Some (Timeout id r d c) →
  fire_pre s0 h m evs false (if b then a else pool_rouse s0 h a).
Proof.
  intros Hpre He. pose proof (fire_pre_rouse _ _ _ _ _ false _ _ _ _ _ Hpre He) as [H1 H2 _ H4].
  pose proof Hpre as [P1 P2 P3 P4]. simpl in P1. rewrite He in P1. destruct (P3 eq_refl) as [(t & Ht & Hp) Hl].
  destruct b; split; try done.
  intros _. split; [|done]. unfold handler_ok, pool_rouse. rewrite Ht. case_decide as E1.
  - unfold pool_wake. rewrite Ht. simpl. rewrite lookup_insert_eq. eexists. by split.
  - case_decide as E2; simpl; [rewrite lookup_insert_eq|rewrite Ht]; eexists; by split.
Qed.

Lemma fire_pre_fold s0 h m D : ∀ evs b a,
  fire_pre s0 h m (D ++ evs) false a → (∀ e, e ∈ D → is_Some (m !! e)) →
  fire_pre s0 h m evs false (foldl (pool_fire s0 h m) (b, a) D).2.
Proof.
  induction D as [|e D IH]; intros evs b a Hpre Hin; [done|]. simpl.
  destruct (Hin e (list_elem_of_here _ _)) as [v Hv].
  assert (∀ e, e ∈ D → is_Some (m !! e)) as Hin' by (intros e' ?; apply Hin; by apply list_elem_of_further).
  assert (ev_kind <$> m !! e = Some (ev_kind v)) as Hk by by rewrite Hv.
  unfold pool_fire at 2. rewrite Hk. destruct (ev_kind v) as [id r d c|th].
  - apply IH; [|done]. by eapply fire_pre_rouse'.
  - apply IH; [|done]. by apply (fire_pre_wake s0 h m e (D ++ evs) false a th).
Qed.

(** No thread leaves the run queues; those that were asleep come to them. *)
Lemma pool_wake_ready s0 th a : (∀ x, x ∈ ready a.2 → x ∈ ready (pool_wake s0 th a).2) ∧
  (sleeper a.1 th → th ∈ ready (pool_wake s0 th a).2).
Proof.
  unfold pool_wake, sleeper. destruct (a.1 !! th) as [t|] eqn:Et; [|split; [done|by intros (? & ? & _)]].
  set (p := Z.min (THREAD_NUM_PRIORITY_LEVELS - 1) (th_s_prio t)). cbn [snd].
  split.
  - intros x (q & Hq & Hx)%elem_of_ready. apply elem_of_ready. exists q. split; [done|].
    destruct (decide (q = p)) as [->|Hne]; [rewrite qset_eq; apply elem_of_app; by left|by rewrite qset_ne].
  - intros (t' & [= <-] & _ & Hp). apply elem_of_ready. exists p. rewrite qset_eq. split.
    + unfold p, in_prio, THREAD_NUM_PRIORITY_LEVELS. lia.
    + apply elem_of_app. right. apply list_elem_of_here.
Qed.

Lemma pool_rouse_ready s0 h a x : x ∈ ready a.2 → x ∈ ready (pool_rouse s0 h a).2.
Proof.
  intros Hx. unfold pool_rouse. case_match; [|done]. case_decide; [by apply (proj1 (pool_wake_ready _ _ _))|].
  by case_decide.
Qed.

Lemma pool_fire_ready s0 h m e acc x : x ∈ ready acc.2.2 → x ∈ ready (pool_fire s0 h m acc e).2.2.
Proof.
  intros Hx. destruct acc as [b a]. simpl in Hx. unfold pool_fire. case_match; [|done]. case_match; simpl.
  - destruct b; [done|]. by apply pool_rouse_ready.
  - by apply (proj1 (pool_wake_ready _ _ _)).
Qed.

Lemma fold_ready s0 h m D : ∀ acc x, x ∈ ready acc.2.2 → x ∈ ready (foldl (pool_fire s0 h m) acc D).2.2.
Proof. induction D as [|e D IH]; intros acc x Hx; [done|]. simpl. by apply IH, pool_fire_ready. Qed.

Lemma fold_wakes s0 h m D : ∀ evs b a e th,
  fire_pre s0 h m (D ++ evs) false a → (∀ e, e ∈ D → is_Some (m !! e)) →
  e ∈ D → ev_kind <$> m !! e = Some (Wake th) → th ∈ ready (foldl (pool_fire s0 h m) (b, a) D).2.2.
Proof.
  induction D as [|e' D IH]; intros evs b a e th Hpre Hin He Hk; [by apply elem_of_nil in He|].
  destruct (Hin e' (list_elem_of_here _ _)) as [v Hv].
  assert (∀ e, e ∈ D → is_Some (m !! e)) as Hin' by (intros ? ?; apply Hin; by apply list_elem_of_further).
  assert (ev_kind <$> m !! e' = Some (ev_kind v)) as Hk' by by rewrite Hv.
  simpl. apply elem_of_cons in He as [->|He].
  - apply fold_ready. unfold pool_fire. rewrite Hk. simpl.
    destruct (fire_pre_wake s0 h m e' (D ++ evs) false a th Hpre Hk) as (_ & Hsl & _).
    by apply (proj2 (pool_wake_ready _ _ _)).
  - unfold pool_fire at 2. rewrite Hk'. destruct (ev_kind v) as [id r d c|th'].
    + eapply IH; [|done|exact He|done]. by eapply fire_pre_rouse'.
    + eapply IH; [|done|exact He|done]. by apply (fire_pre_wake s0 h m e' (D ++ evs) false a th').
Qed.
(** ** From tick to tick *)

Lemma fire_pre_sched s0 s0' h m evs b a :
  sc_cpu s0' = sc_cpu s0 → fire_pre s0 h m evs b a → fire_pre s0' h m evs b a.
Proof. intros E [H1 H2 H3 H4]. unfold free_lock in *. by split; unfold free_lock; rewrite ?E. Qed.

(** The threads an event of [D] woke are in the run queues [qs']. *)
Definition awake (m : gmap Z event) (D : list Z) (qs' : Z → list Z) : Prop :=
  ∀ e th, e ∈ D → ev_kind <$> m !! e = Some (Wake th) → th ∈ ready qs'.

(** The outcome of ticks in which [n] ticks of time pass. *)
Record ticked_ok (s : timer) (evs rdy tids : list Z) (qs : Z → list Z) (n : Z) (s' : timer) (qs' : Z → list Z)
  : Prop := {
  tk_ok : timer_ok s' (later n (agenda (tm_events s) 0 evs)).*2
            (rdy ++ filter (is_timeout (tm_events s)) (due n (agenda (tm_events s) 0 evs)).*2) tids qs';
  tk_agenda : agenda (tm_events s') 0 (later n (agenda (tm_events s) 0 evs)).*2 =
    shift n (later n (agenda (tm_events s) 0 evs));
  tk_awake : awake (tm_events s) (due n (agenda (tm_events s) 0 evs)).*2 qs';
  tk_stay x : x ∈ ready qs → x ∈ ready qs';
  tk_kinds e : e ∈ dom (tm_events s') → ev_kind <$> tm_events s' !! e = ev_kind <$> tm_events s !! e;
  tk_lost : events_ticks_lost s' = 0;
  tk_memory : same_memory s s';
  tk_rest : timer_ticks s' = timer_ticks s ∧ next_timeout_id s' = next_timeout_id s ∧ calls s' = calls s ∧
    timeout_calls_thread s' = timeout_calls_thread s;
  tk_cpu : sc_cpu (tm_sched s') = sc_cpu (tm_sched s) ∧ current_thread (tm_sched s') = current_thread (tm_sched s) }.

Lemma agenda_order s evs rdy t : queue_inv s evs rdy → in_order (agenda (tm_events s) t evs).
Proof. intros Hq. apply agenda_sorted. intros e He. by apply (qi_delta _ _ _ Hq). Qed.

Lemma agenda_split s evs rdy n : queue_inv s evs rdy →
  evs = (due n (agenda (tm_events s) 0 evs)).*2 ++ (later n (agenda (tm_events s) 0 evs)).*2.
Proof.
  intros Hq. rewrite <- fmap_app, <- due_later by (by eapply agenda_order). by rewrite agenda_events.
Qed.

Lemma ticked_to_ok s evs rdy tids qs n s' :
  timer_ok s evs rdy tids qs → ticked_to s evs rdy tids qs n s' → ∃ qs', ticked_ok s evs rdy tids qs n s' qs'.
Proof.
  intros [Hi Hs Hpre Hl Htl] [F1 F2 F3 F4 F5 F6]. cbn [upd_ticks tm_events timeout_calls_thread] in *.
  pose proof (ei_queue _ _ _ _ Hi) as Hq. pose proof (agenda_split _ _ _ n Hq) as Esp.
  set (D := (due n (agenda (tm_events s) 0 evs)).*2) in *.
  set (R := (later n (agenda (tm_events s) 0 evs)).*2) in *.
  set (a' := (foldl _ _ D).2) in *.
  assert (∀ e, e ∈ D → is_Some (tm_events s !! e)) as Hin.
  { intros e He. apply elem_of_dom, (qi_in _ _ _ Hq), elem_of_app. left. rewrite Esp. apply elem_of_app. by left. }
  destruct (pooled_cpu _ _ _ F3) as [Ec Em]. destruct F3 as [Hs' (x & c & Es')].
  destruct F5 as (R1 & R2 & R3 & R4 & R5).
  assert (fire_pre (tm_sched s) (timeout_calls_thread s) (tm_events s) R false a') as Hpre'.
  { unfold a'. apply fire_pre_fold; [by rewrite <- Esp|done]. }
  exists a'.2. split; try done.
  - split.
    + done.
    + done.
    + rewrite R4. cbn [upd_ticks timeout_calls_thread]. apply (fire_pre_sched (tm_sched s)); [done|].
      eapply fire_pre_ext; [|rewrite Em; destruct a'; exact Hpre'].
      intros e He. apply F4. apply (qi_in _ _ _ (ei_queue _ _ _ _ F1)). apply elem_of_app. by left.
    + unfold free_lock. by rewrite Ec.
    + unfold free_lock. by rewrite Ec.
  - intros e th He Hk. unfold a'. eapply fold_wakes; [|done|done|exact Hk]. rewrite <- Esp. exact Hpre.
  - intros y Hy. by apply fold_ready.
  - split; [exact Ec|]. by rewrite Es'.
Qed.

Lemma wp_tick s evs rdy tids qs (Q : bool → timer → Prop) :
  let n := s32 (events_ticks_lost s + 1) in
  timer_ok s evs rdy tids qs → 0 ≤ n →
  (∀ s' qs', ticked_ok s evs rdy tids qs n s' qs' → Q (any_due n (agenda (tm_events s) 0 evs)) s') →
  wp timer_schedule_event s Q.
Proof.
  intros n Hok Hn HQ. eapply wp_timer_schedule_event; [done|done|]. intros s' Hs'.
  destruct (ticked_to_ok _ _ _ _ _ _ _ Hok Hs') as [qs' H]. by eapply HQ.
Qed.

(** [k] ticks of the timer, one after the other, none of them lost. *)
Fixpoint ticks (k : nat) : M timer bool :=
  match k with
  | O => mret false
  | S k => r ← timer_schedule_event; r' ← ticks k; mret (r || r')
  end.

Lemma later_incl n l e : e ∈ (later n l).*2 → e ∈ l.*2.
Proof.
  intros ([t e'] & -> & [_ H]%list_elem_of_filter)%list_elem_of_fmap. by apply (list_elem_of_fmap_2 snd) in H.
Qed.

Lemma ticked_dom s evs rdy tids qs n s' qs' :
  timer_ok s evs rdy tids qs → ticked_ok s evs rdy tids qs n s' qs' → dom (tm_events s') ⊆ dom (tm_events s).
Proof.
  intros Hok Htk e He. pose proof (ei_queue _ _ _ _ (to_events _ _ _ _ _ Hok)) as Hq.
  apply (ei_dom _ _ _ _ (to_events _ _ _ _ _ (tk_ok _ _ _ _ _ _ _ _ Htk))) in He.
  apply (qi_in _ _ _ Hq). rewrite elem_of_app.
  apply elem_of_app in He as [He%later_incl|[He|[_ He%due_incl]%list_elem_of_filter]%elem_of_app];
    rewrite ?agenda_events in He; tauto.
Qed.

Lemma ticked_trans s s1 s2 evs rdy tids qs qs1 qs2 n k : 0 ≤ k →
  timer_ok s evs rdy tids qs →
  ticked_ok s evs rdy tids qs n s1 qs1 →
  ticked_ok s1 (later n (agenda (tm_events s) 0 evs)).*2
    (rdy ++ filter (is_timeout (tm_events s)) (due n (agenda (tm_events s) 0 evs)).*2) tids qs1 k s2 qs2 →
  ticked_ok s evs rdy tids qs (n + k) s2 qs2.
Proof.
  intros Hk Hok HA HB. pose proof (ticked_dom _ _ _ _ _ _ _ _ (tk_ok _ _ _ _ _ _ _ _ HA) HB) as Hdom.
  destruct HA as [A1 A2 A3 A4 A5 A6 AM A7 A8], HB as [B1 B2 B3 B4 B5 B6 BM B7 B8].
  pose proof (ei_queue _ _ _ _ (to_events _ _ _ _ _ Hok)) as Hq. pose proof (agenda_order _ _ _ 0 Hq) as Hord.
  set (ag := agenda (tm_events s) 0 evs) in *.
  assert (∀ e, e ∈ (due k (shift n (later n ag))).*2 → e ∈ dom (tm_events s1)) as Hin.
  { intros e He%due_incl. rewrite shift_events in He.
    apply (qi_in _ _ _ (ei_queue _ _ _ _ (to_events _ _ _ _ _ A1))), elem_of_app. by left. }
  rewrite A2 in B1, B2, B3. rewrite later_after in B1, B2 by done. rewrite shift_events in B1, B2.
  rewrite shift_shift in B2. split; fold ag.
  - rewrite due_after, filter_app by done. rewrite app_assoc.
    rewrite (filter_same (is_timeout (tm_events s)) (is_timeout (tm_events s1)) (due k _).*2); [exact B1|].
    intros e He%Hin. rewrite !is_timeout_kind. by rewrite A5.
  - exact B2.
  - rewrite due_after by done. intros e th [He|He]%elem_of_app Hkd; [by apply B4, (A3 e)|].
    apply (B3 e); [done|]. by rewrite A5 by by apply Hin.
  - intros x Hx. by apply B4, A4.
  - intros e He. rewrite B5 by done. by apply A5, Hdom.
  - done.
  - by eapply same_memory_trans.
  - destruct A7 as (?&?&?&?), B7 as (?&?&?&?). split_and!; congruence.
  - destruct A8, B8. split; congruence.
Qed.

Lemma any_due_split n k l : 0 ≤ k → in_order l →
  any_due (n + k) l = any_due n l || any_due k (shift n (later n l)).
Proof.
  intros Hk Hl. unfold any_due. pose proof (due_after n k l Hk Hl) as E.
  destruct (due n l) as [|p1 l1], (due k (shift n (later n l))) as [|p2 l2], (due (n + k) l) as [|p l3]; simpl in E;
    try done; rewrite !bool_decide_false by done; rewrite ?bool_decide_true by done; done.
Qed.

Lemma wp_ticks k : ∀ s evs rdy tids qs (Q : bool → timer → Prop),
  timer_ok s evs rdy tids qs → events_ticks_lost s = 0 →
  (∀ s' qs', ticked_ok s evs rdy tids qs (Z.of_nat k + 1) s' qs' →
     Q (any_due (Z.of_nat k + 1) (agenda (tm_events s) 0 evs)) s') →
  wp (ticks (S k)) s Q.
Proof.
  induction k as [|k IH]; intros s evs rdy tids qs Q Hok Hlost HQ.
  - cbn [ticks]. apply wp_bind. eapply wp_tick; [done|by rewrite Hlost|].
    intros s1 qs1 H1. apply wp_bind, wp_ret, wp_ret. rewrite orb_false_r, Hlost in *. by apply HQ in H1.
  - change (ticks (S (S k))) with (r ← timer_schedule_event; r' ← ticks (S k); mret (r || r')).
    apply wp_bind. eapply wp_tick; [done|by rewrite Hlost|]. intros s1 qs1 H1. rewrite Hlost in *.
    change (s32 (0 + 1)) with 1 in *. apply wp_bind.
    eapply (IH s1); [apply (tk_ok _ _ _ _ _ _ _ _ H1)|apply (tk_lost _ _ _ _ _ _ _ _ H1)|]. intros s2 qs2 H2.
    rewrite (tk_agenda _ _ _ _ _ _ _ _ H1). apply wp_ret.
    pose proof (ei_queue _ _ _ _ (to_events _ _ _ _ _ Hok)) as Hq.
    rewrite <- any_due_split; [|lia|by eapply agenda_order].
    assert (Z.of_nat (S k) + 1 = 1 + (Z.of_nat k + 1)) as E by lia. rewrite E in HQ.
    apply (HQ s2 qs2). eapply ticked_trans; [lia|exact Hok|exact H1|exact H2].
Qed.
End runs.
