(* ===== verification/TimerCalls.v ===== *)
(** * Scheduling and cancelling

    What [timer_timeout_sched], [timer_lull_thread], the cancellations and the handler
    thread do to the agenda, the tree and the events. *)

From stdpp Require Import gmap list sorting.
From S2P Require Import Prelude Spinlock XList AvlTree AvlTreeSpec AvlSet AvlRemove AvlOrdered Alloc Sched SchedSpec.
From S2P Require Import Timer TimerQueue TimerInv TimerTick.
#[local] Open Scope Z_scope.

Section calls.
Context {A : Allocator} {L : AllocLaws A}.
Implicit Types s : timer.

(** ** A new event *)

Lemma is_xlist_add (x : xstore) q l n v :
  is_xlist x q l → n ∉ l → is_xlist (XStore (<[n := v]> (nodes x)) (lists x)) q l.
Proof.
  intros [Hh Hs Hnd Hv] Hn. split; [done| |done..]. simpl. eapply seg_frame; [|exact Hs].
  intros y Hy. apply lookup_insert_ne. by intros ->.
Qed.

Lemma queue_inv_add s evs rdy j e k :
  queue_inv s evs rdy → ev_ok e → e ∉ dom (tm_events s) → queue_inv (add_object j e k s) evs rdy.
Proof.
  intros Hq He Hd. assert (∀ e', e' ∈ evs ++ rdy → e' ≠ e) as Hne
    by (intros e' Hin ->; by apply Hd, (qi_in _ _ _ Hq)).
  assert (∀ l, (∀ e', e' ∈ l → e' ∈ evs ++ rdy) → ev_node e ∉ map ev_node l) as Hx.
  { intros l Hl. apply ev_node_notin; [done| |intros Hin; by apply (Hne e), eq_refl; apply Hl].
    intros e' ?. eapply queue_ok; [done|by apply Hl]. }
  split; cbn [add_object upd_events upd_lists upd_tree upd_runs tm_events tm_lists].
  - apply is_xlist_add; [apply (qi_events _ _ _ Hq)|]. apply Hx. intros e' ?. apply elem_of_app. by left.
  - apply is_xlist_add; [apply (qi_ready _ _ _ Hq)|]. apply Hx. intros e' ?. apply elem_of_app. by right.
  - intros e'. rewrite dom_insert_L. intros [->%elem_of_singleton|?]%elem_of_union; [done|by apply (qi_addr _ _ _ Hq)].
  - intros e' Hin. rewrite dom_insert_L. apply elem_of_union_r. by apply (qi_in _ _ _ Hq).
  - apply (qi_nodup _ _ _ Hq).
  - intros e'. rewrite dom_insert_L. cbn [nodes]. rewrite lookup_insert. case_decide; [by eexists|].
    intros [->%elem_of_singleton|?]%elem_of_union; [done|by apply (qi_nodes _ _ _ Hq)].
  - intros e' Hin. rewrite delta_insert_ne; [by apply (qi_delta _ _ _ Hq)|].
    apply Hne, elem_of_app. by left.
Qed.

(** The queue routines do not look at the rest of the state. *)
Lemma queue_inv_same s s' evs rdy :
  tm_events s' = tm_events s → tm_lists s' = tm_lists s → queue_inv s evs rdy → queue_inv s' evs rdy.
Proof. intros E1 E2 []. split; rewrite ?E1, ?E2; done. Qed.

(** The events of [s'] are those of [s] and the new event [e] of kind [k]. *)
Definition one_more (m : gmap Z event) (e : Z) (k : event_kind) (m' : gmap Z event) : Prop :=
  e ∉ dom m ∧ ev_kind <$> m' !! e = Some k ∧ ∀ e', e' ≠ e → ev_kind <$> m' !! e' = ev_kind <$> m !! e'.

Lemma one_more_dom m e k m' : one_more m e k m' → dom m' = {[e]} ∪ dom m.
Proof.
  intros (_ & He & Hk). apply set_eq. intros e'. rewrite elem_of_union, elem_of_singleton, !elem_of_dom.
  destruct (decide (e' = e)) as [->|Hne].
  - destruct (m' !! e); [|done]. split; [by left|by eexists].
  - specialize (Hk e' Hne). destruct (m' !! e'), (m !! e'); try done; split; try (intros [??]; done); eauto.
    + intros [?|[??]]; done.
Qed.

Lemma one_more_kinds m e k m' m2 : one_more m e k m' → same_kinds m' m2 → one_more m e k m2.
Proof.
  intros (Hd & He & Hk) Hs. split_and!; [done|by rewrite Hs|]. intros e' Hne. rewrite Hs. by apply Hk.
Qed.

Lemma one_more_timeout m e k m' e' : one_more m e k m' →
  is_timeout m' e' ↔ (e' = e ∧ ∃ id r d c, k = Timeout id r d c) ∨ is_timeout m e'.
Proof.
  intros (Hd & He & Hk). rewrite !is_timeout_kind. destruct (decide (e' = e)) as [->|Hne].
  - rewrite He. apply not_elem_of_dom in Hd. rewrite Hd. split.
    + intros (id & r & d & c & [= ->]). left. split; [done|]. by eexists _, _, _, _.
    + intros [(_ & id & r & d & c & ->)|(? & ? & ? & ? & ?)]; [by eexists _, _, _, _|done].
  - rewrite Hk by done. split; [by right|]. intros [[? _]|?]; done.
Qed.

Lemma one_more_ids m e k m' e' : one_more m e k m' → e' ≠ e → ids_of m' e' = ids_of m e'.
Proof.
  intros (_ & _ & Hk) Hne. specialize (Hk e' Hne). unfold ids_of, event_id.
  destruct (m' !! e'), (m !! e'); simpl in *; try done. by injection Hk as ->.
Qed.

Lemma one_more_add s j e k : e ∉ dom (tm_events s) → one_more (tm_events s) e k (tm_events (add_object j e k s)).
Proof.
  intros Hd. split_and!; [done|simpl; by rewrite lookup_insert_eq|]. intros e' Hne. simpl. by rewrite lookup_insert_ne.
Qed.

(** A new event in the queue. *)
Lemma events_inv_more s evs rdy tids e k s' l1 l2 tids' live :
  events_inv s evs rdy tids → one_more (tm_events s) e k (tm_events s') →
  al_live (tm_heap s') ({[e]} ∪ live) → dom (tm_events s) ⊆ live →
  evs = l1 ++ l2 → queue_inv s' (l1 ++ e :: l2) rdy →
  {[e]} ∪ dom (tm_runs s) ⊆ dom (tm_runs s') →
  {[AVL_DATA2NODE e tree_node]} ∪ dom (anodes (tm_tree s)) ⊆ dom (anodes (tm_tree s')) →
  timeouts (ids_of (tm_events s')) (tm_tree s') timeouts_tree tree_node tids' →
  (∀ e', e' ∈ tids' ↔ is_timeout (tm_events s') e') →
  events_inv s' (l1 ++ e :: l2) rdy tids'.
Proof.
  intros Hi Hm Hl Hsub -> Hq Hr Ha Ht Hti. pose proof (one_more_dom _ _ _ _ Hm) as Ed.
  split; rewrite ?Ed; try done.
  - intros e' [->%elem_of_singleton|H%(ei_dom _ _ _ _ Hi)]%elem_of_union; [set_solver +|].
    revert H. rewrite !elem_of_app, elem_of_cons. tauto.
  - exists ({[e]} ∪ live). split; [done|]. set_solver.
  - intros e' He'. apply Hr. pose proof (ei_runs _ _ _ _ Hi e'). set_solver.
  - intros e' He'. apply Ha. pose proof (ei_anodes _ _ _ _ Hi e'). set_solver.
  - intros e' He'. apply (one_more_timeout _ _ _ _ _ Hm). right. by apply (ei_rdy _ _ _ _ Hi).
Qed.
(** The event [e] of kind [k] has been scheduled [tick] ticks ahead. *)
Record enqueued s (evs rdy tids : list Z) (e : Z) (k : event_kind) (tick : Z) s' (evs' tids' : list Z) : Prop := {
  en_inv : events_inv s' evs' rdy tids';
  en_more : one_more (tm_events s) e k (tm_events s');
  en_agenda : agenda (tm_events s') 0 evs' = insert_event tick e (agenda (tm_events s) 0 evs) }.

Lemma agenda_new s evs rdy tids e j k : events_inv s evs rdy tids → e ∉ dom (tm_events s) →
  agenda (tm_events (add_object j e k s)) 0 evs = agenda (tm_events s) 0 evs.
Proof.
  intros Hi He. apply agenda_ext. intros e' Hin. apply delta_insert_ne. intros ->.
  apply He, (qi_in _ _ _ (ei_queue _ _ _ _ Hi)), elem_of_app. by left.
Qed.

(** Memory for an event. *)
Lemma wp_alloc_event s evs rdy tids (Q : Z → timer → Prop) :
  events_inv s evs rdy tids → al_room (tm_heap s) sizeof_event →
  (∀ e h live, (e =? NULL) = false → ev_ok e → e ∉ dom (tm_events s) → dom (tm_events s) ⊆ live →
     al_live h ({[e]} ∪ live) → Q e (upd_heap h s)) →
  wp (zoom tm_heap upd_heap (al_alloc sizeof_event)) s Q.
Proof.
  intros Hi Hr HQ. destruct (ei_live _ _ _ _ Hi) as (live & Hl & Hsub). apply wp_zoom.
  eapply al_alloc_ok; [exact Hl|done|done|]. intros e h He Hpos Hsz Hh. eapply HQ; [|done| |exact Hsub|done].
  - apply Z.eqb_neq. unfold NULL. lia.
  - intros Hd. by apply He, Hsub.
Qed.

(** A thread that is put to sleep, seen by the scheduler. *)
Definition lulled (th : Z) (t : thread) (s : sched) : sched :=
  upd_threads (<[th := with_state
    (if decide (th_state t = THREAD_STATE_READY) then THREAD_STATE_SLEEPING else th_state t)
    THREAD_STATE_SLEEPING t]> (sc_threads s)) s.

Definition may_run (t : thread) : Prop :=
  th_state t ∈ [THREAD_STATE_READY; THREAD_STATE_RUNNING] ∧
  th_next_state t ∈ [THREAD_STATE_READY; THREAD_STATE_RUNNING].

Lemma may_run_test st : st ∈ [THREAD_STATE_READY; THREAD_STATE_RUNNING] →
  (st =? THREAD_STATE_READY) || (st =? THREAD_STATE_RUNNING) = true.
Proof. intros [->|[->|?%elem_of_nil]%elem_of_cons]%elem_of_cons; done. Qed.

Lemma wp_lull_states th t (s : timer) (Q : unit → timer → Prop) :
  sc_threads (tm_sched s) !! th = Some t →
  Q tt (upd_sched (lulled th t (tm_sched s)) s) →
  wp (zoom tm_sched upd_sched (st_thread th (λ t, with_state (th_state t) THREAD_STATE_SLEEPING t));;
      when (th_state t =? THREAD_STATE_READY)
        (zoom tm_sched upd_sched (st_thread th (λ t, with_state THREAD_STATE_SLEEPING (th_next_state t) t)))) s Q.
Proof.
  intros Ht HQ. apply wp_bind, wp_zoom. eapply wp_st_thread; [exact Ht|]. unfold lulled in HQ.
  apply wp_when; intros E; bool_to_prop.
  - apply wp_zoom. eapply wp_st_thread; [simpl; apply lookup_insert_eq|]. simpl.
    rewrite insert_insert_eq. rewrite decide_True in HQ by done. by destruct (tm_sched s).
  - by rewrite decide_False in HQ.
Qed.

Lemma wp_ASSERT_MSG b (ss : sched) (Q : unit → sched → Prop) : b = true → Q tt ss → wp (ASSERT_MSG b) ss Q.
Proof. intros -> HQ. by apply wp_ret. Qed.

Lemma upd_sched_same s : upd_sched (tm_sched s) s = s.
Proof. by destruct s. Qed.

Lemma wp_on_assert b s (Q : unit → timer → Prop) :
  b = true → Q tt s → wp (zoom tm_sched upd_sched (ASSERT_MSG b)) s Q.
Proof. intros Hb HQ. apply wp_zoom, wp_ASSERT_MSG; [done|]. by rewrite upd_sched_same. Qed.

Lemma wp_timer_lull_thread s evs rdy tids j th t ticks (Q : Z → timer → Prop) :
  events_inv s evs rdy tids → sc_threads (tm_sched s) !! th = Some t → may_run t →
  held_lock (tm_sched s) (thread_lock th) → free_lock (tm_sched s) events_lock →
  al_room (tm_heap s) sizeof_event → 0 ≤ ticks < 2 ^ 31 →
  (∀ e s' evs', enqueued s evs rdy tids e (Wake th) ticks s' evs' tids →
     tm_sched s' = lulled th t (tm_sched s) → same_rest s s' →
     (∀ e', e' ≠ e → tm_runs s' !! e' = tm_runs s !! e') → Q NO_ERROR s') →
  wp (timer_lull_thread j th ticks) s Q.
Proof.
  intros Hi Ht [H1 H2] Hlk Hev Hr Hn HQ. unfold timer_lull_thread.
  apply wp_bind, wp_zoom, wp_assert_locked; [done|]. rewrite upd_sched_same.
  apply wp_bind, wp_zoom. eapply wp_load; [exact Ht|]. rewrite upd_sched_same.
  apply wp_bind, wp_on_assert; [by apply may_run_test|]. apply wp_bind, wp_on_assert; [by apply may_run_test|].
  apply wp_bind. unfold new_event. apply wp_bind. eapply wp_alloc_event; [exact Hi|done|].
  intros e h live Hnull He Hd Hsub Hl. rewrite Hnull. apply wp_bind, wp_modify, wp_ret.
  apply wp_group2, wp_bind. eapply wp_lull_states; [exact Ht|]. apply wp_bind, wp_zoom, wp_zoom.
  apply wp_spin_lock_irqsave; [exact Hev|]. rewrite swrap_small by lia. apply wp_bind.
  set (s1 := upd_sched (upd_cpu _ _) _).
  assert (queue_inv s1 evs rdy) as Hq1.
  { apply (queue_inv_same (add_object j e (Wake th) s)); [done|done|].
    apply queue_inv_add; [apply Hi|done|done]. }
  assert (e ∉ evs ++ rdy) as Hne by (intros ?; by apply Hd, (qi_in _ _ _ (ei_queue _ _ _ _ Hi))).
  eapply (wp_add_new_event_nolock s1); [exact Hq1|simpl; rewrite dom_insert_L; set_solver +|done|done|].
  intros s2 evs2 (x & m & l1 & l2 & -> & -> & -> & Hq2 & Hk & Hag).
  apply wp_bind, wp_zoom, wp_zoom, wp_spin_unlock_irqrstor.
  { simpl. rewrite lookup_insert_eq. by eexists. }
  apply wp_ret.
  assert (one_more (tm_events s) e (Wake th) m) as Hm
    by (eapply one_more_kinds; [by apply one_more_add|exact Hk]).
  eapply HQ; [split| |done|].
  - eapply (events_inv_more s (l1 ++ l2)); [exact Hi|exact Hm|exact Hl|exact Hsub|done| |..].
    + eapply queue_inv_same; [| |exact Hq2]; done.
    + simpl. by rewrite dom_insert_L.
    + simpl. by rewrite dom_insert_L.
    + eapply aset_nodes; [eapply aset_ids; [|apply Hi]|done|].
      * intros e' He'. eapply one_more_ids; [exact Hm|]. intros ->.
        apply (ei_tids _ _ _ _ Hi) in He'. destruct He' as (? & ? & ? & ? & ? & Hx).
        by apply Hd; apply elem_of_dom; eexists.
      * intros n Hin _. cbn [upd_sched upd_lists upd_events tm_tree]. simpl. apply lookup_insert_ne. intros <-.
        rewrite data_tree_node in Hin by done. apply (ei_tids _ _ _ _ Hi) in Hin as (? & ? & ? & ? & ? & Hx).
        by apply Hd; apply elem_of_dom; eexists.
    + intros e'. simpl. rewrite (one_more_timeout _ _ _ _ _ Hm), (ei_tids _ _ _ _ Hi). split; [by right|].
      intros [(_ & ? & ? & ? & ? & ?)|?]; done.
  - exact Hm.
  - simpl in *. rewrite Hag. f_equal. eapply (agenda_new s); [exact Hi|done].
  - simpl. unfold lulled. by rewrite unlock_locked by done.
  - intros e' Hne'. simpl. by rewrite lookup_insert_ne.
Qed.
(** ** Timeout calls *)

(** The identifiers given out so far. *)
Definition ids_below s : Prop :=
  0 < next_timeout_id s ∧
  ∀ e, is_timeout (tm_events s) e → 0 < ids_of (tm_events s) e < next_timeout_id s.

Lemma aset_more ids s e v tids :
  timeouts ids (tm_tree s) timeouts_tree tree_node tids → ev_ok e → e ∉ tids →
  timeouts ids (AStore (<[AVL_DATA2NODE e tree_node := v]> (anodes (tm_tree s))) (atrees (tm_tree s)))
    timeouts_tree tree_node tids.
Proof.
  intros Ht He Hn. eapply aset_nodes; [exact Ht|done|]. intros n Hin _. simpl. apply lookup_insert_ne.
  intros <-. by rewrite data_tree_node in Hin.
Qed.

Lemma add_greatest ids e tids :
  (∀ e', e' ∈ tids → ids e' < ids e) → @add (timeout_client ids) e tids = (e, tids ++ [e]).
Proof.
  intros Hlt. assert (Forall (λ w, @cmp_lt (timeout_client ids) w e) tids) as Hall.
  { apply Forall_forall. intros w Hw. unfold cmp_lt. simpl. unfold compare_timeout_id. specialize (Hlt w Hw).
    rewrite (proj2 (Z.ltb_ge _ _)), (proj2 (Z.ltb_lt _ _)) by lia. lia. }
  destruct (split_place tids [] e Hall) as (E1 & E2 & E3); [constructor|]. rewrite app_nil_r in *.
  unfold add. by rewrite E3, E2, E1, decide_True.
Qed.

Lemma has_tree_node s e : ev_ok e → AVL_DATA2NODE e tree_node ∈ dom (anodes (tm_tree s)) →
  has_node (tm_tree s) tree_node e.
Proof.
  intros He Hd. split_and!; [unfold ev_ok, NULL in *; lia| |by apply data_tree_node|done].
  rewrite tree_node_ok by done. unfold valid_ptr, ev_ok, sizeof_event in *. lia.
Qed.

Lemma wp_on_init_run s e v (Q : unit → timer → Prop) :
  tm_runs s !! e = Some v → Q tt (upd_runs (<[e := SPIN_UNLOCKED]> (tm_runs s)) s) →
  wp (on_run_locks (spin_init e)) s Q.
Proof.
  intros He HQ. unfold on_run_locks, spin_init, atomic_set, wp, zoom. simpl. rewrite He. simpl.
  by destruct s as [[? [? ?] ?] ? ? ? ? ? ? ? ? ? ?].
Qed.
(** What [timer_timeout_sched] leaves. *)
Record timeout_added s (evs rdy tids : list Z) (routine data ticks : Z) (e : Z) s' (evs' : list Z) : Prop := {
  ta_enqueued : enqueued s evs rdy tids e (Timeout (next_timeout_id s) routine data false) ticks s' evs' (tids ++ [e]);
  ta_sched : tm_sched s' = tm_sched s;
  ta_ids : next_timeout_id s' = next_timeout_id s + 1 ∧ ids_below s';
  ta_run : tm_runs s' = <[e := SPIN_UNLOCKED]> (tm_runs s);
  ta_rest : timer_ticks s' = timer_ticks s ∧ events_ticks_lost s' = events_ticks_lost s ∧
    timeout_calls_thread s' = timeout_calls_thread s ∧ calls s' = calls s }.

Lemma ids_of_kind m e id r d c : ev_kind <$> m !! e = Some (Timeout id r d c) → ids_of m e = id.
Proof. unfold ids_of, event_id. destruct (m !! e) as [[dl k]|]; [|done]. simpl. by intros [= ->]. Qed.

(** The locks of the timer are given back as they were. *)
Lemma locks_back (lk : gmap Z Z) (a b : Z) :
  a ≠ b → lk !! a = Some SPIN_UNLOCKED → lk !! b = Some SPIN_UNLOCKED →
  <[a := SPIN_UNLOCKED]> (<[b := SPIN_UNLOCKED]> (<[b := SPIN_LOCKED]> (<[a := SPIN_LOCKED]> lk))) = lk.
Proof.
  intros Hab Ha Hb. rewrite insert_insert_eq, (insert_id _ b), insert_insert_eq, insert_id; [done|done|].
  rewrite lookup_insert_ne; done.
Qed.

Lemma wp_timer_timeout_sched s evs rdy tids j routine data ticks (Q : Z → timer → Prop) :
  events_inv s evs rdy tids → ids_below s → next_timeout_id s + 1 < 2 ^ 32 →
  free_lock (tm_sched s) events_lock → free_lock (tm_sched s) timeouts_lock →
  al_room (tm_heap s) sizeof_event → 0 ≤ ticks < 2 ^ 31 →
  (∀ e s' evs', timeout_added s evs rdy tids routine data ticks e s' evs' → Q (next_timeout_id s) s') →
  wp (timer_timeout_sched j routine data ticks) s Q.
Proof.
  intros Hi [Hpos Hids] Hnext Hev Htm Hr Hn HQ. unfold timer_timeout_sched.
  apply wp_bind. eapply wp_alloc_event; [exact Hi|done|]. intros e h live Hnull He Hd Hsub Hl. rewrite Hnull.
  apply wp_bind. unfold get_next_timeout_id. apply wp_bind, wp_gets, wp_bind, wp_modify.
  rewrite (proj2 (Z.eqb_neq _ _)) by (simpl; unfold INVALID_TIMEOUTID; lia). apply wp_ret.
  cbn [upd_heap next_timeout_id]. rewrite uwrap_small by lia. apply wp_bind, wp_modify, wp_bind.
  set (kd := Timeout (next_timeout_id s) routine data false).
  eapply wp_on_init_run; [apply lookup_insert_eq|]. apply wp_bind, wp_zoom, wp_zoom.
  apply wp_spin_lock_irqsave; [exact Hev|]. apply wp_bind, wp_zoom, wp_zoom, wp_spin_lock.
  { simpl. rewrite lookup_insert_ne by done. exact Htm. }
  rewrite swrap_small by lia. apply wp_bind. set (s1 := upd_sched (upd_cpu (Cpu _ _) _) _).
  assert (queue_inv s1 evs rdy) as Hq1.
  { apply (queue_inv_same (add_object j e kd s)); [done|done|].
    apply queue_inv_add; [apply Hi|done|done]. }
  assert (e ∉ evs ++ rdy) as Hne by (intros ?; by apply Hd, (qi_in _ _ _ (ei_queue _ _ _ _ Hi))).
  eapply (wp_add_new_event_nolock s1); [exact Hq1|simpl; rewrite dom_insert_L; set_solver +|done|done|].
  intros s2 evs2 (x & m & l1 & l2 & -> & -> & -> & Hq2 & Hk & Hag).
  assert (one_more (tm_events s) e kd m) as Hm by (eapply one_more_kinds; [by apply one_more_add|exact Hk]).
  assert (e ∉ tids) as Hnt.
  { intros (? & ? & ? & ? & ? & Hx)%(ei_tids _ _ _ _ Hi). by apply Hd; apply elem_of_dom; eexists. }
  assert (∀ e', e' ∈ tids → ids_of m e' = ids_of (tm_events s) e') as Hsame
    by (intros e' Hin; eapply one_more_ids; [exact Hm|]; by intros ->).
  assert (ids_of m e = next_timeout_id s) as Ee by (destruct Hm as (_ & Hme & _); eapply ids_of_kind; exact Hme).
  assert (@add (timeout_client (ids_of m)) e tids = (e, tids ++ [e])) as Eadd.
  { apply add_greatest. intros e' Hin. rewrite Hsame, Ee by done. by apply Hids, (ei_tids _ _ _ _ Hi). }
  apply wp_bind, wp_gets, wp_bind, wp_zoom.
  eapply (add_aset _ timeouts_tree tree_node tids).
  { eapply aset_more; [|done|done]. eapply aset_ids; [exact Hsame|apply Hi]. }
  { apply (has_tree_node s1); [done|]. simpl. rewrite dom_insert_L. set_solver +. }
  change (ids_of (tm_events (upd_lists x (upd_events m s1)))) with (ids_of m). rewrite Eadd.
  intros tr Htr [Hdom _ _]. cbn [fst snd] in *. rewrite Hnull. apply wp_bind, wp_ret.
  apply wp_bind, wp_zoom, wp_zoom, wp_spin_unlock.
  { simpl. rewrite lookup_insert_eq. by eexists. }
  apply wp_bind, wp_zoom, wp_zoom, wp_spin_unlock_irqrstor.
  { simpl. rewrite lookup_insert_ne, lookup_insert_ne, lookup_insert_eq by done. by eexists. }
  pose proof Hm as (_ & Hme & _). destruct (m !! e) as [v|] eqn:Ev; [|done]. simpl in Hme. injection Hme as Ek.
  apply wp_bind. eapply wp_load; [exact Ev|]. apply wp_ret. unfold event_id. rewrite Ek. cbn [kd].
  apply (HQ e _ (l1 ++ e :: l2)). split; try done.
  - split; [|exact Hm|].
    + eapply (events_inv_more s (l1 ++ l2)); [exact Hi|exact Hm|exact Hl|exact Hsub|done| |..].
      * eapply queue_inv_same; [| |exact Hq2]; done.
      * simpl. by rewrite !dom_insert_L; set_solver +.
      * simpl. rewrite Hdom. simpl. by rewrite dom_insert_L.
      * exact Htr.
      * intros e'. simpl. rewrite (one_more_timeout _ _ _ _ _ Hm), elem_of_app, (ei_tids _ _ _ _ Hi), list_elem_of_singleton.
        split; [intros [?| ->]; [by right|left; split; [done|by eexists _, _, _, _]]|intros [[? _]|?]; [by right|by left]].
    + simpl in *. rewrite Hag. f_equal. eapply (agenda_new s); [exact Hi|done].
  - simpl. destruct (tm_sched s) as [? [lk ?] ?] eqn:Es. unfold free_lock in *. simpl in *.
    unfold upd_cpu. simpl. by rewrite (locks_back lk events_lock timeouts_lock).
  - split; [done|]. split; [simpl; lia|]. intros e' [[-> _]|Hto]%(one_more_timeout _ _ _ _ e' Hm); simpl.
    + rewrite Ee. lia.
    + rewrite (one_more_ids _ _ _ _ e' Hm); [specialize (Hids e' Hto); lia|].
      intros ->. destruct Hto as (? & ? & ? & ? & ? & Hx). by apply Hd; apply elem_of_dom; eexists.
  - simpl. by rewrite insert_insert_eq.
Qed.
(** ** Finding and cancelling *)

(** The timeout call with the identifier [tid] is [e], or there is none and [e] is [NULL]. *)
Definition the_timeout s (tids : list Z) (tid e : Z) : Prop :=
  (e ∈ tids ∧ ids_of (tm_events s) e = tid) ∨ (e = NULL ∧ ∀ e', e' ∈ tids → ids_of (tm_events s) e' ≠ tid).

Lemma upd_tree_same s : upd_tree (tm_tree s) s = s.
Proof. by destruct s. Qed.

Lemma wp_find_timeout s evs rdy tids key tid (Q : Z → timer → Prop) :
  events_inv s evs rdy tids → key ∉ tids → (∀ e, the_timeout s tids tid e → Q e s) →
  wp (find_timeout key tid) s Q.
Proof.
  intros Hi Hk HQ. set (ids := ids_key (tm_events s) key tid).
  assert (∀ e, e ∈ tids → ids e = ids_of (tm_events s) e) as Hids.
  { intros e He. unfold ids, ids_key. by rewrite (proj2 (Z.eqb_neq _ _)) by (by intros ->). }
  assert (ids key = tid) as Ek by (unfold ids, ids_key; by rewrite Z.eqb_refl).
  unfold find_timeout. apply wp_bind, wp_gets, wp_bind, wp_zoom.
  eapply (find_aset _ timeouts_tree tree_node tids); [eapply aset_ids; [exact Hids|apply Hi]|].
  intros r Hr. apply wp_ret. rewrite upd_tree_same. apply HQ.
  change (r.1 = first (@equals (timeout_client ids) key tids)) in Hr. rewrite Hr. unfold first.
  assert (∀ e, e ∈ @equals (timeout_client ids) key tids ↔ e ∈ tids ∧ ids_of (tm_events s) e = tid) as Heq.
  { intros e. unfold equals. rewrite list_elem_of_filter. split.
    - intros [E He]. split; [done|]. rewrite <- Hids by done. simpl in E. unfold compare_timeout_id in E.
      rewrite Ek in E. repeat case_match; bool_to_prop; lia.
    - intros [He E]. split; [|done]. simpl. unfold compare_timeout_id. rewrite Ek, Hids, E, Z.ltb_irrefl by done. done. }
  destruct (@equals (timeout_client ids) key tids) as [|e l]; simpl.
  - right. split; [done|]. intros e' He' E. by apply (not_elem_of_nil e'), Heq.
  - left. apply Heq, list_elem_of_here.
Qed.

(** A state with other data of the event [e], of the same identifier. *)
Lemma events_inv_cancel s evs rdy tids e v :
  events_inv s evs rdy tids → tm_events s !! e = Some v →
  events_inv (upd_events (<[e := cancel v]> (tm_events s)) s) evs rdy tids ∧
  agenda (<[e := cancel v]> (tm_events s)) 0 evs = agenda (tm_events s) 0 evs.
Proof.
  intros [Hq Hdom Hlv Hruns Hnodes Htree Htids Hrdy] Hv. set (m := <[e := cancel v]> (tm_events s)).
  assert (dom m = dom (tm_events s)) as Ed by (unfold m; apply dom_insert_lookup_L; by eexists).
  assert (∀ e', delta m e' = delta (tm_events s) e') as Hd.
  { intros e'. unfold delta, m. destruct (decide (e' = e)) as [->|Hne];
      [by rewrite lookup_insert_eq, Hv|by rewrite lookup_insert_ne]. }
  assert (∀ e', ids_of m e' = ids_of (tm_events s) e') as Hids.
  { intros e'. unfold ids_of, m. destruct (decide (e' = e)) as [->|Hne]; [|by rewrite lookup_insert_ne].
    rewrite lookup_insert_eq, Hv. simpl. unfold event_id. simpl. by destruct (ev_kind v). }
  assert (∀ e', is_timeout m e' ↔ is_timeout (tm_events s) e') as Hto.
  { intros e'. unfold is_timeout, m. destruct (decide (e' = e)) as [->|Hne]; [|by rewrite lookup_insert_ne].
    rewrite lookup_insert_eq, Hv. unfold cancel. destruct v as [dl [id r d c|th]]; simpl;
      split; intros (? & ? & ? & ? & ? & ?); simplify_eq; by eexists _, _, _, _, _. }
  split; [|by apply agenda_ext]. destruct Hq. split; cbn [upd_events tm_events tm_heap tm_runs tm_tree]; rewrite ?Ed; try done.
  - split; cbn [upd_events tm_events tm_lists]; rewrite ?Ed; try done. intros e' He'. rewrite Hd. auto.
  - eapply aset_ids; [|done]. auto.
  - intros e'. by rewrite Hto.
  - intros e' He'. apply Hto. auto.
Qed.

Definition canceled_event (e : Z) s : timer :=
  match tm_events s !! e with Some v => upd_events (<[e := cancel v]> (tm_events s)) s | None => s end.

Lemma timeout_event s evs rdy tids e : events_inv s evs rdy tids → e ∈ tids →
  ∃ v, tm_events s !! e = Some v ∧ (e =? NULL) = false ∧ is_timeout (tm_events s) e.
Proof.
  intros Hi Ht. pose proof Ht as H%(ei_tids _ _ _ _ Hi). pose proof H as (? & ? & ? & ? & ? & Hv).
  eexists. split_and!; [exact Hv| |done]. apply Z.eqb_neq. apply elem_of_dom_2 in Hv.
  apply (qi_addr _ _ _ (ei_queue _ _ _ _ Hi)) in Hv. unfold ev_ok, NULL in *. lia.
Qed.

Lemma unlock_timer s a : free_lock (tm_sched s) a →
  upd_sched (upd_cpu (Cpu (<[a := SPIN_UNLOCKED]> (<[a := SPIN_LOCKED]> (locks (sc_cpu (tm_sched s)))))
    (irqs (sc_cpu (tm_sched s)))) (tm_sched s)) s = s.
Proof. intros Ha. rewrite unlock_locked by done. by destruct s as [[] ]. Qed.

Lemma wp_timer_timeout_cancel s evs rdy tids key tid (Q : unit → timer → Prop) :
  events_inv s evs rdy tids → key ∉ tids → free_lock (tm_sched s) timeouts_lock →
  (∀ e, the_timeout s tids tid e → Q tt (if decide (e = NULL) then s else canceled_event e s)) →
  wp (timer_timeout_cancel key tid) s Q.
Proof.
  intros Hi Hk Hl HQ. unfold timer_timeout_cancel. apply wp_bind, wp_zoom, wp_zoom.
  apply wp_spin_lock_irqsave; [exact Hl|]. set (s1 := upd_sched _ _). apply wp_bind.
  eapply (wp_find_timeout s1); [by apply events_inv_sched|done|]. intros e He. specialize (HQ e He).
  apply wp_bind. destruct He as [[Ht _]|[-> _]].
  - destruct (timeout_event s _ _ _ _ Hi Ht) as (v & Hv & Hn & _). rewrite Hn. cbn [negb when].
    rewrite decide_False in HQ by (by apply Z.eqb_neq in Hn). unfold canceled_event in HQ. rewrite Hv in HQ.
    apply wp_bind. eapply wp_load; [exact Hv|]. apply wp_modify, wp_zoom, wp_zoom, wp_spin_unlock_irqrstor.
    { simpl. rewrite lookup_insert_eq. by eexists. }
    simpl. rewrite <- (unlock_timer s _ Hl) in HQ. exact HQ.
  - rewrite decide_True in HQ by done. apply wp_ret, wp_zoom, wp_zoom, wp_spin_unlock_irqrstor.
    { simpl. rewrite lookup_insert_eq. by eexists. }
    simpl. rewrite <- (unlock_timer s _ Hl) in HQ. exact HQ.
Qed.
(** ** The handler thread *)

Lemma queue_inv_dequeue s evs e rdy x :
  queue_inv s evs (e :: rdy) → is_xlist x ready_timeouts_queue (map ev_node rdy) →
  xframe (tm_lists s) x ready_timeouts_queue (map ev_node (e :: rdy)) →
  queue_inv (upd_lists x s) evs rdy ∧ e ∉ evs ++ rdy.
Proof.
  intros Hq Hx Hf. pose proof (qi_nodup _ _ _ Hq) as Hnd. pose proof Hnd as (He & Hnd')%NoDup_middle.
  rewrite not_elem_of_app. split; [|tauto].
  split; cbn [upd_lists tm_lists tm_events]; try done; try apply Hq.
  - eapply other_queue; [exact Hf|done|apply (qi_events _ _ _ Hq)|..].
    + intros y Hy. eapply queue_ok; [done|]. apply elem_of_app. by right.
    + intros y Hy. split; [by apply (evs_ok s evs (e :: rdy))|]. apply NoDup_app in Hnd as (_ & Hdis & _).
      by apply Hdis.
  - intros y Hy. apply (qi_in _ _ _ Hq). apply elem_of_app in Hy as [?|?]; apply elem_of_app; [by left|].
    right. by apply list_elem_of_further.
  - intros y Hy. eapply xframe_nodes; [done|]. by apply (qi_nodes _ _ _ Hq).
Qed.

(** The call an event makes. *)
Definition call_of (v : event) : list (Z * Z * Z) :=
  match ev_kind v with Timeout id r d false => [(r, id, d)] | _ => [] end.

Definition calls_of (m : gmap Z event) (l : list Z) : list (Z * Z * Z) :=
  l ≫= λ e, match m !! e with Some v => call_of v | None => [] end.

(** The handler thread has dealt with the event [e]. *)
Record handled s (evs : list Z) (e : Z) (rdy tids : list Z) s' : Prop := {
  hd_inv : events_inv s' evs rdy (without e tids);
  hd_events : tm_events s' = delete e (tm_events s);
  hd_calls : calls s' = calls s ++ calls_of (tm_events s) [e];
  hd_runs : tm_runs s' = delete e (tm_runs s);
  hd_nodes : dom (anodes (tm_tree s')) ⊆ dom (anodes (tm_tree s));
  hd_rest : tm_sched s' = tm_sched s ∧ timer_ticks s' = timer_ticks s ∧ next_timeout_id s' = next_timeout_id s ∧
    events_ticks_lost s' = events_ticks_lost s ∧ timeout_calls_thread s' = timeout_calls_thread s }.

Lemma wp_on_run_set s e w v (Q : unit → timer → Prop) :
  tm_runs s !! e = Some w → Q tt (upd_runs (<[e := v]> (tm_runs s)) s) → wp (on_run_locks (atomic_set e v)) s Q.
Proof.
  intros He HQ. unfold on_run_locks, atomic_set, wp, zoom. simpl. rewrite He. simpl.
  by destruct s as [[? [? ?] ?] ? ? ? ? ? ? ? ? ? ?].
Qed.

Lemma wp_on_run_lock s e (Q : unit → timer → Prop) :
  tm_runs s !! e = Some SPIN_UNLOCKED → Q tt (upd_runs (<[e := SPIN_LOCKED]> (tm_runs s)) s) →
  wp (on_run_locks (spin_lock e)) s Q.
Proof.
  intros He HQ. apply wp_zoom. apply wp_spin_lock; [exact He|]. simpl.
  by destruct s as [[? [? ?] ?] ? ? ? ? ? ? ? ? ? ?].
Qed.
(** The critical section in which the handler thread takes an event. *)
Lemma wp_take_ready s evs rdy (Q : Z → timer → Prop) :
  queue_inv s evs rdy → free_lock (tm_sched s) events_lock →
  (rdy = [] → Q NULL s) →
  (∀ e rdy' x, rdy = e :: rdy' → queue_inv (upd_lists x s) evs rdy' → e ∉ evs ++ rdy' → Q e (upd_lists x s)) →
  wp (irqs_state ← on_irqs (spin_lock_irqsave events_lock); evt ← extract_timeout_event;
      on_irqs (spin_unlock_irqrstor events_lock irqs_state);; mret evt) s Q.
Proof.
  intros Hq Hl H0 H1. apply wp_bind, wp_zoom, wp_zoom, wp_spin_lock_irqsave; [exact Hl|].
  set (s1 := upd_sched _ _). apply wp_bind. unfold extract_timeout_event. apply wp_bind, wp_zoom.
  eapply wp_xlist_extract_first; [apply (qi_ready _ _ _ Hq)|..].
  - intros Hr%map_eq_nil. apply wp_ret, wp_bind, wp_zoom, wp_zoom, wp_spin_unlock_irqrstor.
    { simpl. rewrite lookup_insert_eq. by eexists. }
    apply wp_ret. specialize (H0 Hr). rewrite <- (unlock_timer s _ Hl) in H0. by destruct s.
  - intros n l x El Hx Hf _. destruct rdy as [|e rdy]; [done|]. simpl in El. injection El as <- <-.
    destruct (queue_inv_dequeue s evs e rdy x Hq Hx Hf) as [Hq' He].
    assert (ev_ok e) as Hok by (eapply queue_ok; [exact Hq|]; set_solver +).
    rewrite ev_node_null, node_event_ok by done. apply wp_ret, wp_bind, wp_zoom, wp_zoom, wp_spin_unlock_irqrstor.
    { simpl. rewrite lookup_insert_eq. by eexists. }
    apply wp_ret. specialize (H1 e rdy x eq_refl Hq' He). rewrite <- (unlock_timer s _ Hl) in H1.
    by destruct s.
Qed.

Lemma wp_handler_take {B} (f : Z → M timer B) s (Q : B → timer → Prop) :
  wp (evt ← (irqs_state ← on_irqs (spin_lock_irqsave events_lock); evt ← extract_timeout_event;
      on_irqs (spin_unlock_irqrstor events_lock irqs_state);; mret evt); f evt) s Q →
  wp (irqs_state ← on_irqs (spin_lock_irqsave events_lock); evt ← extract_timeout_event;
      on_irqs (spin_unlock_irqrstor events_lock irqs_state);; f evt) s Q.
Proof.
  unfold wp, mbind, M_bind, mret, M_ret. destruct (on_irqs _ s) as [[i s1]| | |]; [|done..].
  destruct (extract_timeout_event s1) as [[e s2]| | |]; [|done..]. by destruct (on_irqs _ s2) as [[u s3]| | |].
Qed.

(** The routine of an event is called, unless it was cancelled. *)
Lemma wp_run_routine s e id r d c dl (Q : unit → timer → Prop) :
  tm_events s !! e = Some (Event dl (Timeout id r d c)) → tm_runs s !! e = Some SPIN_UNLOCKED →
  Q tt (upd_calls (calls s ++ calls_of (tm_events s) [e]) s) →
  wp (on_run_locks (spin_lock e);;
      v ← ld_event e;
      when (match ev_kind v with Timeout _ _ _ c => negb c | Wake _ => false end)
        (modify (λ s, upd_calls (calls s ++ [(r, id, d)]) s));;
      on_run_locks (spin_unlock e)) s Q.
Proof.
  intros Hv Hr HQ. apply wp_bind, wp_on_run_lock; [done|]. apply wp_bind. eapply wp_load; [exact Hv|].
  apply wp_bind. unfold calls_of in HQ. simpl in HQ. rewrite Hv in HQ. simpl in HQ.
  assert (<[e := SPIN_UNLOCKED]> (<[e := SPIN_LOCKED]> (tm_runs s)) = tm_runs s) as Er
    by by rewrite insert_insert_eq, insert_id.
  apply wp_when; simpl; intros Ec; destruct c; try done.
  - apply wp_modify. eapply wp_on_run_set; [simpl; apply lookup_insert_eq|]. simpl. rewrite Er. by destruct s.
  - eapply wp_on_run_set; [simpl; apply lookup_insert_eq|]. simpl. rewrite Er.
    rewrite app_nil_r in HQ. by destruct s.
Qed.
Lemma elem_of_without e l x : x ∈ without e l ↔ x ≠ e ∧ x ∈ l.
Proof. unfold without. by rewrite list_elem_of_filter. Qed.

(** An event that has left the queues leaves the tree and is freed. *)
Lemma wp_retire s s1 evs e rdy tids tmp (Q : bool → timer → Prop) :
  events_inv s evs (e :: rdy) tids → queue_inv s1 evs rdy → e ∉ evs ++ rdy →
  tm_events s1 = tm_events s → tm_heap s1 = tm_heap s → tm_runs s1 = tm_runs s → tm_tree s1 = tm_tree s →
  free_lock (tm_sched s1) timeouts_lock → tmp ∉ dom (anodes (tm_tree s)) → valid_ptr tmp →
  (∀ s', events_inv s' evs rdy (without e tids) → tm_events s' = delete e (tm_events s) →
     tm_runs s' = delete e (tm_runs s) → dom (anodes (tm_tree s')) ⊆ dom (anodes (tm_tree s)) →
     tm_sched s' = tm_sched s1 → calls s' = calls s1 → same_rest s1 s' →
     Q true s') →
  wp (irqs_state ← on_irqs (spin_lock_irqsave timeouts_lock);
      ids ← gets (λ s, ids_of (tm_events s));
      r ← zoom tm_tree upd_tree (@avl_tree_remove (timeout_client ids) timeouts_tree e tmp);
      (if r =? NULL then panic else mret tt);;
      on_irqs (spin_unlock_irqrstor timeouts_lock irqs_state);;
      free_event e;;
      mret true) s1 Q.
Proof.
  intros Hi Hq He E1 E2 E3 E4 Hl Htmp Hvt HQ. pose proof Hi as [Hq0 Hdom Hlv Hruns Hnodes Htree Htids Hrdy].
  pose proof (Hrdy e (list_elem_of_here _ _)) as Hto. pose proof Hto as Ht%Htids.
  destruct (timeout_event s evs (e :: rdy) tids e Hi Ht) as (v & Hv & Hnull & _).
  assert (e ∈ dom (tm_events s)) as Hd by by apply elem_of_dom_2 in Hv.
  apply wp_bind, wp_zoom, wp_zoom, wp_spin_lock_irqsave; [exact Hl|].
  apply wp_bind, wp_gets, wp_bind, wp_zoom.
  change (tm_events (upd_sched _ s1)) with (tm_events s1). rewrite E1.
  change (tm_tree (upd_sched _ s1)) with (tm_tree s1). rewrite E4.
  eapply (remove_aset _ timeouts_tree tree_node tids); [exact Htree|done|done|].
  intros tr Htr [Hdtr _ _]. unfold remove in *. rewrite decide_True in * by done. cbn [fst snd] in *. rewrite Hnull.
  apply wp_bind, wp_ret, wp_bind, wp_zoom, wp_zoom, wp_spin_unlock_irqrstor.
  { simpl. rewrite lookup_insert_eq. by eexists. }
  destruct Hlv as (live & Hl1 & Hl2). apply wp_bind. eapply (wp_free_event _ e live).
  { simpl. rewrite E2. exact Hl1. }
  { by apply Hl2. }
  intros h Hh. apply wp_ret. apply HQ; try (by rewrite <- ?E1, <- ?E3).
  - eapply events_inv_drop; cbn [upd_sched upd_tree tm_events tm_heap tm_runs tm_tree]; rewrite ?E1, ?E3; try done.
    + eapply queue_inv_same; [| |exact Hq]; done.
    + intros [? _]%elem_of_without. done.
    + intros e' H%Hdom. destruct (decide (e' = e)) as [->|?]; [by left|right]. revert H.
      rewrite !elem_of_app, elem_of_cons. tauto.
    + by rewrite Hdtr.
    + intros e' Hne. rewrite elem_of_without, Htids. tauto.
    + intros e' He'. apply Hrdy. by apply list_elem_of_further.
  - simpl. rewrite dom_delete_L, Hdtr. set_solver +.
  - simpl. rewrite unlock_locked by done. by destruct (tm_sched s1).
Qed.

Lemma wp_group_run {S X1 X2 X3 X4 X} (m1 : M S X1) (m2 : M S X2) (f : X2 → M S X3) (m3 : M S X4) (k : M S X) (s : S)
    (Q : X → S → Prop) :
  wp ((m1;; v ← m2; f v;; m3);; k) s Q → wp (m1;; v ← m2; f v;; m3;; k) s Q.
Proof.
  unfold wp, mbind, M_bind. destruct (m1 s) as [[? s1]| | |]; [|done..]. destruct (m2 s1) as [[v s2]| | |]; [|done..].
  by destruct (f v s2) as [[? s3]| | |].
Qed.

Lemma wp_handler_turn s evs e rdy tids tmp (Q : bool → timer → Prop) :
  events_inv s evs (e :: rdy) tids → free_lock (tm_sched s) events_lock → free_lock (tm_sched s) timeouts_lock →
  tm_runs s !! e = Some SPIN_UNLOCKED → tmp ∉ dom (anodes (tm_tree s)) → valid_ptr tmp →
  (∀ s', handled s evs e rdy tids s' → Q true s') → wp (timeout_calls_handler tmp) s Q.
Proof.
  intros Hi Hl Htl Hr Htmp Hvt HQ. unfold timeout_calls_handler. apply wp_handler_take, wp_bind.
  eapply wp_take_ready; [apply Hi|done|done|]. intros e' rdy' x [= <- <-] Hq He.
  destruct (timeout_event s _ _ _ e Hi) as (v & _ & Hnull & (id & r & d & c & dl & Hv)).
  { apply (ei_tids _ _ _ _ Hi), (ei_rdy _ _ _ _ Hi), list_elem_of_here. }
  rewrite Hnull. apply wp_bind. eapply wp_load; [exact Hv|]. cbn [ev_kind].
  apply wp_group_run, wp_bind. eapply wp_run_routine; [exact Hv|exact Hr|].
  eapply (wp_retire s); [exact Hi| |done..|].
  { eapply queue_inv_same; [| |exact Hq]; done. }
  intros s' H1 H2 H3 Hn H4 H5 (H6 & H7 & H8 & H9 & H10). apply HQ. by split.
Qed.
(** ** Synchronised cancellation *)

Definition run_locked (e : Z) s : timer := upd_runs (<[e := SPIN_LOCKED]> (tm_runs s)) s.

Lemma wp_on_run_trylock s e l (Q : Z → timer → Prop) :
  tm_runs s !! e = Some l → Q (if l =? 0 then 1 else 0) (run_locked e s) →
  wp (on_run_locks (spin_trylock e)) s Q.
Proof.
  intros He HQ. apply wp_zoom. eapply wp_spin_trylock; [exact He|]. simpl.
  by destruct s as [[? [? ?] ?] ? ? ? ? ? ? ? ? ? ?].
Qed.

(** A turn retries while the routine runs, and else leaves the event cancelled and locked. *)
Lemma wp_cancel_sync_turn s evs rdy tids key tid l (Q : bool → timer → Prop) :
  events_inv s evs rdy tids → key ∉ tids → free_lock (tm_sched s) timeouts_lock →
  (∀ e, e ∈ tids → ids_of (tm_events s) e = tid → tm_runs s !! e = Some l) →
  (∀ e, the_timeout s tids tid e →
     if decide (e = NULL) then Q false s
     else if decide (l = 0) then Q false (run_locked e (canceled_event e s)) else Q true (run_locked e s)) →
  wp (cancel_sync_turn key tid) s Q.
Proof.
  intros Hi Hk Hl Hr HQ. unfold cancel_sync_turn. apply wp_bind, wp_zoom, wp_zoom.
  apply wp_spin_lock_irqsave; [exact Hl|]. set (s1 := upd_sched _ _). apply wp_bind.
  eapply (wp_find_timeout s1); [by apply events_inv_sched|done|]. intros e He. specialize (HQ e He).
  apply wp_bind. destruct He as [[Ht E]|[-> _]].
  - destruct (timeout_event s _ _ _ _ Hi Ht) as (v & Hv & Hn & _). rewrite Hn. cbn [negb].
    rewrite decide_False in HQ by (by apply Z.eqb_neq in Hn).
    apply wp_bind. eapply (wp_on_run_trylock s1 e l); [by apply Hr|].
    unfold run_locked, canceled_event in HQ. rewrite Hv in HQ.
    destruct (Z.eqb_spec l 0) as [->|Hne].
    + rewrite decide_True in HQ by done. change (1 =? 0) with false. cbn [negb when].
      apply wp_bind, wp_bind. eapply wp_load; [exact Hv|]. apply wp_modify, wp_ret, wp_bind, wp_zoom, wp_zoom.
      apply wp_spin_unlock_irqrstor; [simpl; rewrite lookup_insert_eq; by eexists|]. apply wp_ret. simpl.
      rewrite <- (unlock_timer s _ Hl) in HQ. exact HQ.
    + rewrite decide_False in HQ by done. change (0 =? 0) with true. cbn [negb when].
      apply wp_bind, wp_ret, wp_ret, wp_bind, wp_zoom, wp_zoom.
      apply wp_spin_unlock_irqrstor; [simpl; rewrite lookup_insert_eq; by eexists|]. apply wp_ret. simpl.
      rewrite <- (unlock_timer s _ Hl) in HQ. exact HQ.
  - rewrite decide_True in HQ by done. apply wp_ret, wp_bind, wp_zoom, wp_zoom.
    apply wp_spin_unlock_irqrstor; [simpl; rewrite lookup_insert_eq; by eexists|]. apply wp_ret. simpl.
    rewrite <- (unlock_timer s _ Hl) in HQ. exact HQ.
Qed.

(** The handler thread stops at an event whose run lock is taken. *)
Lemma bind_hangs {S X Y} (m : M S X) (f : X → M S Y) (s : S) : wp m s (λ a (t : S), f a t = Hang) → (m ≫= f) s = Hang.
Proof. unfold wp, mbind, M_bind. by destruct (m s) as [[a s']| | |]. Qed.

Lemma handler_take_hang (f : Z → M timer bool) s :
  (evt ← (irqs_state ← on_irqs (spin_lock_irqsave events_lock); evt ← extract_timeout_event;
      on_irqs (spin_unlock_irqrstor events_lock irqs_state);; mret evt); f evt) s = Hang →
  (irqs_state ← on_irqs (spin_lock_irqsave events_lock); evt ← extract_timeout_event;
      on_irqs (spin_unlock_irqrstor events_lock irqs_state);; f evt) s = Hang.
Proof.
  unfold mbind, M_bind, mret, M_ret. destruct (on_irqs _ s) as [[i s1]| | |]; [|done..].
  destruct (extract_timeout_event s1) as [[e s2]| | |]; [|done..]. by destruct (on_irqs _ s2) as [[u s3]| | |].
Qed.

Lemma handler_hangs s evs e rdy tids tmp :
  events_inv s evs (e :: rdy) tids → free_lock (tm_sched s) events_lock → tm_runs s !! e = Some SPIN_LOCKED →
  timeout_calls_handler tmp s = Hang.
Proof.
  intros Hi Hl Hr. unfold timeout_calls_handler. apply handler_take_hang, bind_hangs.
  eapply wp_take_ready; [apply Hi|done|done|]. intros e' rdy' x [= <- <-] Hq He.
  destruct (timeout_event s _ _ _ e Hi) as (v & _ & Hnull & (id & r & d & c & dl & Hv)).
  { apply (ei_tids _ _ _ _ Hi), (ei_rdy _ _ _ _ Hi), list_elem_of_here. }
  rewrite Hnull. apply bind_hangs. eapply wp_load; [exact Hv|]. cbn [ev_kind].
  unfold mbind at 1, M_bind at 1. assert (on_run_locks (spin_lock e) (upd_lists x s) = Hang) as ->; [|done].
  unfold on_run_locks, zoom, spin_lock, mbind, M_bind.
  rewrite (atomic_set_ret_ok _ _ SPIN_LOCKED) by exact Hr. done.
Qed.
End calls.
