(* ===== verification/TimerProps.v ===== *)
(** * The timer's contract

    The invariant of the whole timer, what the routines do to it, and the theorems about
    timeout calls and sleeping threads from their scheduling to their end. *)

From stdpp Require Import gmap list sorting.
From S2P Require Import Prelude Spinlock XList AvlPure AvlTree AvlTreeSpec AvlSet AvlRemove AvlOrdered Heap HeapSpec Alloc.
From S2P Require Import Sched SchedSpec SchedProps Timer TimerQueue TimerInv TimerTick TimerRuns TimerCalls.
#[local] Open Scope Z_scope.

Section props.
Context {A : Allocator} {L : AllocLaws A}.
Implicit Types s : timer.

(** ** The invariant *)

Record timer_inv s (evs rdy tids : list Z) (qs : Z → list Z) : Prop := {
  tv_ok : timer_ok s evs rdy tids qs;
  tv_ids : ids_below s;
  tv_runs e : is_timeout (tm_events s) e → tm_runs s !! e = Some SPIN_UNLOCKED }.

Lemma kept_timeout (m m' : gmap Z event) e : ev_kind <$> m' !! e = ev_kind <$> m !! e →
  (is_timeout m' e ↔ is_timeout m e) ∧ ids_of m' e = ids_of m e ∧ calls_of m' [e] = calls_of m [e].
Proof.
  intros Hk. rewrite !is_timeout_kind, Hk. split; [done|]. unfold ids_of, event_id, calls_of, call_of. simpl.
  destruct (m' !! e) as [v'|], (m !! e) as [v|]; simpl in *; try done. by injection Hk as ->.
Qed.

Lemma timeout_dom (m : gmap Z event) e : is_timeout m e → e ∈ dom m.
Proof. intros (? & ? & ? & ? & ? & H). by apply elem_of_dom_2 in H. Qed.

Lemma ticked_inv s evs rdy tids qs n s' qs' :
  timer_inv s evs rdy tids qs → ticked_ok s evs rdy tids qs n s' qs' →
  timer_inv s' (later n (agenda (tm_events s) 0 evs)).*2
    (rdy ++ filter (is_timeout (tm_events s)) (due n (agenda (tm_events s) 0 evs)).*2) tids qs'.
Proof.
  intros [Hok [Hn Hids] Hruns] Htk. pose proof (tk_kinds _ _ _ _ _ _ _ _ Htk) as Hk.
  destruct (tk_memory _ _ _ _ _ _ _ _ Htk) as [Hr _]. destruct (tk_rest _ _ _ _ _ _ _ _ Htk) as (_ & En & _).
  split; [apply (tk_ok _ _ _ _ _ _ _ _ Htk)|split; rewrite En; [done|]|].
  - intros e He. pose proof (Hk e (timeout_dom _ _ He)) as (Hto & -> & _)%kept_timeout. by apply Hids, Hto.
  - intros e He. rewrite Hr by (by apply timeout_dom). apply Hruns.
    pose proof (Hk e (timeout_dom _ _ He)) as (Hto & _)%kept_timeout. by apply Hto.
Qed.

(** More events for threads that may sleep. *)
Lemma sleeping_on_app m l1 l2 : sleeping_on m (l1 ++ l2) = sleeping_on m l1 ++ sleeping_on m l2.
Proof.
  induction l1 as [|e l1 IH]; simpl; [done|]. rewrite IH. destruct (ev_kind <$> m !! e) as [[]|]; done.
Qed.

Lemma fire_pre_more (ss : sched) h m m' e k evs l1 l2 b a :
  fire_pre ss h m evs b a → evs = l1 ++ l2 → e ∉ evs → one_more m e k m' → (∀ th, k ≠ Wake th) →
  fire_pre ss h m' (l1 ++ e :: l2) b a.
Proof.
  intros Hpre -> He (Hd & Hke & Hk) Hw.
  assert (sleeping_on m' (l1 ++ e :: l2) = sleeping_on m (l1 ++ l2)) as E.
  { change (e :: l2) with ([e] ++ l2). rewrite !sleeping_on_app.
    assert (sleeping_on m' [e] = []) as -> by (simpl; rewrite Hke; destruct k; [done|by destruct (Hw thread)]).
    f_equal; apply sleeping_on_ext; intros e' ?; apply Hk; intros ->; apply He, elem_of_app; auto. }
  destruct Hpre as [H1 H2 H3 H4]. split; rewrite ?E; done.
Qed.

Lemma inserted_split (m : gmap Z event) evs' t e l :
  (agenda m 0 evs').*2 = (insert_event t e l).*2 → ∃ l1 l2, l.*2 = l1 ++ l2 ∧ evs' = l1 ++ e :: l2.
Proof.
  rewrite agenda_events. intros ->. clear m. induction l as [|[t' e'] l IH]; simpl; [by exists [], []|].
  repeat case_match.
  - by exists [], (e' :: l.*2).
  - by exists [e'], (l.*2).
  - destruct IH as (l1 & l2 & E1 & E2). exists (e' :: l1), l2. split; [by rewrite <- app_comm_cons, <- E1|].
    by rewrite <- app_comm_cons, <- E2.
Qed.

Lemma timeout_added_inv s evs rdy tids qs r d n e s' evs' :
  timer_inv s evs rdy tids qs → timeout_added s evs rdy tids r d n e s' evs' →
  timer_inv s' evs' rdy (tids ++ [e]) qs.
Proof.
  intros [[Hi Hs Hpre Hl Htl] Hids Hruns] [[Hi' Hm Hag] Es [_ Hids'] Er (_ & _ & Eh & _)].
  pose proof (ei_queue _ _ _ _ Hi) as Hq. split; [split| |]; rewrite ?Es; try done.
  - destruct (inserted_split _ _ _ _ _ (f_equal (fmap snd) Hag)) as (l1 & l2 & E & ->).
    rewrite agenda_events in E. rewrite Eh. eapply fire_pre_more; [exact Hpre|done| |exact Hm|done].
    intros Hin. destruct Hm as (Hd & _). apply Hd, (qi_in _ _ _ Hq), elem_of_app. by left.
  - intros e' [[-> _]|Hto]%(one_more_timeout _ _ _ _ e' Hm); rewrite Er; [apply lookup_insert_eq|].
    rewrite lookup_insert_ne; [by apply Hruns|]. intros <-. destruct Hm as (Hd & _). by apply Hd, timeout_dom.
Qed.

Lemma canceled_inv s evs rdy tids qs e :
  timer_inv s evs rdy tids qs → timer_inv (canceled_event e s) evs rdy tids qs ∧
  agenda (tm_events (canceled_event e s)) 0 evs = agenda (tm_events s) 0 evs.
Proof.
  intros [[Hi Hs Hpre Hl Htl] [Hn Hids] Hruns]. unfold canceled_event.
  destruct (tm_events s !! e) as [v|] eqn:Hv; [|done]. destruct (events_inv_cancel _ _ _ _ _ _ Hi Hv) as [Hi' Hag].
  split; [|done].
  assert (∀ e', is_timeout (<[e := cancel v]> (tm_events s)) e' →
    is_timeout (tm_events s) e' ∧ ids_of (<[e := cancel v]> (tm_events s)) e' = ids_of (tm_events s) e') as Hto.
  { intros e' He'. pose proof He' as Ht%(ei_tids _ _ _ _ Hi')%(ei_tids _ _ _ _ Hi). split; [done|].
    unfold ids_of, event_id. destruct (decide (e' = e)) as [->|Hne]; [|by rewrite lookup_insert_ne].
    rewrite lookup_insert_eq, Hv. simpl. by destruct (ev_kind v). }
  split; [split| |]; cbn [upd_events tm_sched tm_events tm_runs timeout_calls_thread next_timeout_id]; try done.
  - destruct Hpre as [H1 H2 H3 H4].
    assert (sleeping_on (<[e := cancel v]> (tm_events s)) evs = sleeping_on (tm_events s) evs) as E.
    { clear -Hv. induction evs as [|e' evs IH]; simpl; [done|]. rewrite IH.
      destruct (decide (e' = e)) as [->|Hne]; [|by rewrite lookup_insert_ne].
      rewrite lookup_insert_eq, Hv. simpl. by destruct (ev_kind v). }
    split; rewrite ?E; done.
  - split; [done|]. intros e' He'. destruct (Hto e' He') as [Ht E].
    cbn [upd_events tm_events next_timeout_id] in *. rewrite E. by apply Hids.
  - intros e' He'. apply Hruns. by apply Hto.
Qed.

Lemma handled_inv s evs e rdy tids qs s' :
  timer_inv s evs (e :: rdy) tids qs → handled s evs e rdy tids s' → timer_inv s' evs rdy (without e tids) qs.
Proof.
  intros [[Hi Hs Hpre Hl Htl] [Hn Hids] Hruns] [Hi' Ee Ec Er _ (Es & _ & En & _ & Eh)].
  split; [split|split|]; rewrite ?Es, ?Ee, ?En, ?Eh; try done.
  - eapply fire_pre_ext; [|exact Hpre]. intros e' He'. rewrite lookup_delete_ne; [done|]. intros <-.
    pose proof (qi_nodup _ _ _ (ei_queue _ _ _ _ Hi)) as (_ & Hdis & _)%NoDup_app.
    apply (Hdis e He'), list_elem_of_here.
  - intros e' [Hne He']%is_timeout_delete. rewrite ids_of_delete by done. by apply Hids.
  - intros e' [Hne He']%is_timeout_delete. rewrite Er, lookup_delete_ne by done. by apply Hruns.
Qed.
(** ** The handler thread, until it suspends itself *)

Record drained s (rdy : list Z) s' : Prop := {
  dr_calls : calls s' = calls s ++ calls_of (tm_events s) rdy;
  dr_events e : tm_events s' !! e = if decide (e ∈ rdy) then None else tm_events s !! e;
  dr_sched : tm_sched s' = tm_sched s }.

Lemma calls_of_delete m e l : e ∉ l → calls_of (delete e m) l = calls_of m l.
Proof.
  unfold calls_of. induction l as [|e' l IH]; intros He; [done|]. apply not_elem_of_cons in He as [Hne He].
  rewrite !bind_cons, IH by done. by rewrite lookup_delete_ne.
Qed.

Lemma calls_of_cons m e l : calls_of m (e :: l) = calls_of m [e] ++ calls_of m l.
Proof. unfold calls_of. rewrite !bind_cons. simpl. by rewrite app_nil_r. Qed.

Lemma calls_of_app m l1 l2 : calls_of m (l1 ++ l2) = calls_of m l1 ++ calls_of m l2.
Proof. apply bind_app. Qed.

Lemma drained_step s evs e rdy tids s1 s' : NoDup (e :: rdy) →
  handled s evs e rdy tids s1 → drained s1 rdy s' → drained s (e :: rdy) s'.
Proof.
  intros [He _]%NoDup_cons [_ Ee Ec _ _ (Es & _)] [Dc De Ds]. split.
  - rewrite Dc, Ec, Ee, (calls_of_cons _ e rdy), calls_of_delete, app_assoc by done. done.
  - intros e'. rewrite De, Ee. destruct (decide (e' = e)) as [->|Hne].
    + rewrite (decide_False (P := e ∈ rdy)), decide_True by (done || apply list_elem_of_here). apply lookup_delete_eq.
    + rewrite lookup_delete_ne by done. apply decide_ext. rewrite elem_of_cons. tauto.
  - by rewrite Ds.
Qed.

Lemma handled_agenda s evs e rdy tids s' : events_inv s evs (e :: rdy) tids → handled s evs e rdy tids s' →
  agenda (tm_events s') 0 evs = agenda (tm_events s) 0 evs.
Proof.
  intros Hi [_ Ee _ _ _ _]. apply agenda_ext. intros e' He'. rewrite Ee. unfold delta. rewrite lookup_delete_ne; [done|].
  intros <-. pose proof (qi_nodup _ _ _ (ei_queue _ _ _ _ Hi)) as (_ & Hdis & _)%NoDup_app.
  apply (Hdis e He'), list_elem_of_here.
Qed.

Lemma wp_handler_loop rdy : ∀ fuel s evs tids qs tmp (Q : unit → timer → Prop),
  timer_inv s evs rdy tids qs → tmp ∉ dom (anodes (tm_tree s)) → valid_ptr tmp → (length rdy < fuel)%nat →
  (∀ s' tids', timer_inv s' evs [] tids' qs → drained s rdy s' →
     agenda (tm_events s') 0 evs = agenda (tm_events s) 0 evs → Q tt s') →
  wp (handler_loop fuel tmp) s Q.
Proof.
  induction rdy as [|e rdy IH]; intros [|fuel] s evs tids qs tmp Q Hinv Htmp Hvt Hf HQ; try (simpl in Hf; lia);
    cbn [handler_loop]; apply wp_bind; pose proof Hinv as [[Hi Hs Hpre Hl Htl] _ Hruns].
  - unfold timeout_calls_handler. apply wp_handler_take, wp_bind. eapply wp_take_ready; [apply Hi|done| |done].
    intros _. change (NULL =? NULL) with true. apply wp_ret, wp_ret. eapply HQ; [exact Hinv| |done].
    split; [by rewrite app_nil_r|done|done].
  - eapply wp_handler_turn; [exact Hi|done|done| |done|done|].
    { apply Hruns, (ei_rdy _ _ _ _ Hi), list_elem_of_here. }
    intros s1 H1. eapply (IH fuel s1); [by eapply handled_inv| |done|simpl in Hf; lia|].
    { intros Hin. by apply Htmp, (hd_nodes _ _ _ _ _ _ H1). }
    intros s' tids' Hinv' Hd Hag. eapply HQ; [exact Hinv'| |].
    + eapply drained_step; [|exact H1|exact Hd].
      pose proof (qi_nodup _ _ _ (ei_queue _ _ _ _ Hi)) as (_ & _ & Hnd)%NoDup_app. exact Hnd.
    + rewrite Hag. by eapply handled_agenda.
Qed.

Lemma length_ready s evs rdy : queue_inv s evs rdy → (length rdy < S (size (tm_events s)))%nat.
Proof.
  intros Hq. rewrite <- size_dom. pose proof (qi_nodup _ _ _ Hq) as (_ & _ & Hn)%NoDup_app.
  apply le_n_S. rewrite <- (size_list_to_set (C := gset Z) rdy Hn). apply subseteq_size.
  intros e He%elem_of_list_to_set. apply (qi_in _ _ _ Hq), elem_of_app. by right.
Qed.

Lemma wp_handler_run s evs rdy tids qs tmp (Q : unit → timer → Prop) :
  timer_inv s evs rdy tids qs → tmp ∉ dom (anodes (tm_tree s)) → valid_ptr tmp →
  (∀ s' tids', timer_inv s' evs [] tids' qs → drained s rdy s' →
     agenda (tm_events s') 0 evs = agenda (tm_events s) 0 evs → Q tt s') →
  wp (handler_run tmp) s Q.
Proof.
  intros Hinv Htmp Hvt HQ. unfold handler_run. apply wp_bind, wp_gets.
  eapply wp_handler_loop; [exact Hinv|done|done| |done].
  eapply length_ready, Hinv.
Qed.
(** ** Initialisation *)

Lemma wp_on_irqs_init s a (Q : unit → timer → Prop) :
  is_Some (locks (sc_cpu (tm_sched s)) !! a) →
  Q tt (upd_sched (upd_cpu (Cpu (<[a := SPIN_UNLOCKED]> (locks (sc_cpu (tm_sched s)))) (irqs (sc_cpu (tm_sched s))))
    (tm_sched s)) s) →
  wp (on_irqs (spin_init a)) s Q.
Proof. intros Ha HQ. apply wp_zoom, wp_zoom, wp_spin_unlock; done. Qed.

(** What [timer_init] finds: no events yet, memory for the locks and the list headers. *)
Record fresh_timer s : Prop := {
  ts_events : tm_events s = ∅;
  ts_live : ∃ live, al_live (tm_heap s) live;
  ts_lists : is_Some (lists (tm_lists s) !! events_queue) ∧ is_Some (lists (tm_lists s) !! ready_timeouts_queue);
  ts_locks : is_Some (locks (sc_cpu (tm_sched s)) !! events_lock) ∧ is_Some (locks (sc_cpu (tm_sched s)) !! timeouts_lock) }.

(** The scheduler with the locks [free] released. *)
Definition unlocked (s : sched) : sched :=
  upd_cpu (Cpu (<[timeouts_lock := SPIN_UNLOCKED]> (<[events_lock := SPIN_UNLOCKED]> (locks (sc_cpu s)))) (irqs (sc_cpu s))) s.

Lemma wp_timer_init s (Q : Z → timer → Prop) :
  fresh_timer s →
  (∀ s', events_inv s' [] [] [] → ids_below s' → tm_sched s' = unlocked (tm_sched s) →
     timeout_calls_thread s' = timeout_calls_thread s → tm_events s' = ∅ →
     anodes (tm_tree s') = anodes (tm_tree s) → tm_heap s' = tm_heap s → events_ticks_lost s' = events_ticks_lost s →
     next_timeout_id s' = 1 → Q NO_ERROR s') →
  wp timer_init s Q.
Proof.
  intros [He [live Hl] [Hl1 Hl2] [Hk1 Hk2]] HQ. unfold timer_init.
  apply wp_bind, wp_on_irqs_init; [done|]. apply wp_bind, wp_on_irqs_init.
  { simpl. by rewrite lookup_insert_ne. }
  apply wp_bind, wp_zoom, wp_xlist_init; [exact Hl1|]. intros x1 Hx1 F1.
  apply wp_bind, wp_zoom, wp_xlist_init.
  { simpl. by rewrite (xf_lists _ _ _ _ F1). }
  intros x2 Hx2 F2. apply wp_bind, wp_zoom.
  assert (is_xlist x2 events_queue []) as Hx1' by (eapply is_xlist_frame; [exact F2|done|by intros ? ?%elem_of_nil|done]).
  eapply (wp_of_ok (S := astore)); [reflexivity|]. apply wp_bind, wp_modify, wp_ret. apply HQ; try done.
  - split; cbn [upd_next upd_tree upd_lists upd_sched tm_events tm_heap tm_runs tm_tree]; rewrite ?He; try done;
      try set_solver +.
    + split; simpl; rewrite ?He; try done; try set_solver +; try (by intros e ?%elem_of_nil). constructor.
    + exists live. split; [done|]. set_solver +.
    + split; [done|split; [by intros ?%elem_of_nil|]]. exists (ATree NULL tree_node 0 sizeof_event), Leaf.
      split_and!; [|done|done]. split; [|done|constructor|done].
      split; cbn [atrees anodes]; [by rewrite lookup_insert_eq|done|done|constructor|constructor].
    + intros e. split; [by intros ?%elem_of_nil|]. by intros (? & ? & ? & ? & ? & ?).
  - split; [done|]. intros e. simpl. rewrite He. by intros (? & ? & ? & ? & ? & ?).
Qed.
(** ** Lost ticks *)

(** Somebody else holds the lock of the queue. *)
Definition busy s : timer :=
  upd_sched (upd_cpu (Cpu (<[events_lock := SPIN_LOCKED]> (locks (sc_cpu (tm_sched s)))) (irqs (sc_cpu (tm_sched s))))
    (tm_sched s)) s.

Lemma wp_lost_tick s k (Q : bool → timer → Prop) :
  Q false (upd_ticks (timer_ticks s) (s32 (k + 1)) (busy s)) →
  wp timer_schedule_event (upd_ticks (timer_ticks s) k (busy s)) Q.
Proof.
  intros HQ. unfold timer_schedule_event. apply wp_bind, wp_zoom, wp_zoom.
  eapply wp_spin_trylock; [simpl; apply lookup_insert_eq|]. change (SPIN_LOCKED =? 0) with false. cbv iota.
  change (0 =? 0) with true. cbv iota. apply wp_bind, wp_modify, wp_ret. simpl. rewrite insert_insert_eq. exact HQ.
Qed.

Lemma wp_lost_ticks k : ∀ s d (Q : bool → timer → Prop),
  0 ≤ d → d + Z.of_nat k < 2 ^ 31 →
  Q false (upd_ticks (timer_ticks s) (d + Z.of_nat k) (busy s)) →
  wp (ticks k) (upd_ticks (timer_ticks s) d (busy s)) Q.
Proof.
  induction k as [|k IH]; intros s d Q Hd Hk HQ.
  - apply wp_ret. by rewrite Z.add_0_r in HQ.
  - change (ticks (S k)) with (r ← timer_schedule_event; r' ← ticks k; mret (r || r')).
    apply wp_bind, wp_lost_tick, wp_bind. rewrite swrap_small by lia. apply IH; [lia|lia|]. apply wp_ret.
    by replace (d + 1 + Z.of_nat k) with (d + Z.of_nat (S k)) by lia.
Qed.

Lemma timer_inv_lost s evs rdy tids qs n :
  timer_inv s evs rdy tids qs → timer_inv (upd_ticks (timer_ticks s) n s) evs rdy tids qs.
Proof.
  intros [[[Hq ? ? ? ? ? ? ?] ? ? ? ?] [? ?] ?]. split; [split; try done; split; try done|split|]; try done. by destruct Hq.
Qed.

Lemma busy_unlock s n (Q : unit → timer → Prop) : free_lock (tm_sched s) events_lock →
  Q tt (upd_ticks (timer_ticks s) n s) →
  wp (on_irqs (spin_unlock events_lock)) (upd_ticks (timer_ticks s) n (busy s)) Q.
Proof.
  intros Hl HQ. apply wp_zoom, wp_zoom, wp_spin_unlock.
  { simpl. rewrite lookup_insert_eq. by eexists. }
  simpl. rewrite unlock_locked by done. by destruct s as [[? [? ?] ?] ? ? ? ? ? ? ? ? ? ?].
Qed.

Lemma busy_ticks s n : upd_ticks (timer_ticks s) n (busy s) = busy (upd_ticks (timer_ticks s) n s).
Proof. done. Qed.

(** ** Theorems: time *)

(** The outcome of [n] ticks: what is due has left the agenda in order, the rest is [n]
    ticks nearer; threads whose sleep is over are in the run queues, which lose nobody;
    the timeout calls that are due are ready. *)
Definition after_ticks s (evs rdy tids : list Z) (qs : Z → list Z) (n : Z) s' : Prop :=
  let ag := agenda (tm_events s) 0 evs in
  ∃ qs', timer_inv s' (later n ag).*2 (rdy ++ filter (is_timeout (tm_events s)) (due n ag).*2) tids qs' ∧
    agenda (tm_events s') 0 (later n ag).*2 = shift n (later n ag) ∧
    awake (tm_events s) (due n ag).*2 qs' ∧ (∀ th, th ∈ ready qs → th ∈ ready qs') ∧
    events_ticks_lost s' = 0 ∧ calls s' = calls s.

Lemma ticked_after s evs rdy tids qs n s' qs' :
  timer_inv s evs rdy tids qs → ticked_ok s evs rdy tids qs n s' qs' → after_ticks s evs rdy tids qs n s'.
Proof.
  intros Hinv Htk. exists qs'. split_and!; [by eapply ticked_inv|apply Htk..|]. apply (tk_rest _ _ _ _ _ _ _ _ Htk).
Qed.

(** C11: ticks of the timer: however the events are spread over [k + 1] ticks, they fire as
    if the agenda were cut at [k + 1]: those that are due leave it in the order of their
    times, sleeping threads are given back to the run queues, timeout calls become ready,
    and the others stay with their times [k + 1] ticks nearer; a reschedule is asked for
    exactly when something was due. *)
Theorem timer_ticks_correct k s evs rdy tids qs :
  timer_inv s evs rdy tids qs → events_ticks_lost s = 0 →
  let n := Z.of_nat k + 1 in
  ∃ s', ticks (S k) s = Ok (any_due n (agenda (tm_events s) 0 evs), s') ∧ after_ticks s evs rdy tids qs n s'.
Proof.
  intros Hinv Hlost n. apply wp_run. eapply wp_ticks; [apply Hinv|done|].
  intros s' qs' Htk. split; [done|]. by eapply ticked_after.
Qed.

(** Ticks that come while another processor holds the queue's lock are not lost: they
    are counted, ask for no reschedule and leave everything else alone, and the next tick
    makes up for all of them at once. *)
Theorem timer_lost_ticks_correct k s evs rdy tids qs :
  timer_inv s evs rdy tids qs → events_ticks_lost s = 0 → Z.of_nat k + 1 < 2 ^ 31 →
  let n := Z.of_nat k + 1 in
  ticks k (busy s) = Ok (false, upd_ticks (timer_ticks s) (Z.of_nat k) (busy s)) ∧
  ∃ s', (on_irqs (spin_unlock events_lock);; timer_schedule_event)
      (upd_ticks (timer_ticks s) (Z.of_nat k) (busy s)) =
    Ok (any_due n (agenda (tm_events s) 0 evs), s') ∧ after_ticks s evs rdy tids qs n s'.
Proof.
  intros Hinv Hlost Hk n. split.
  - assert (busy s = upd_ticks (timer_ticks s) 0 (busy s)) as E by (rewrite <- Hlost; by destruct s).
    assert (wp (ticks k) (busy s) (λ r s', r = false ∧ s' = upd_ticks (timer_ticks s) (Z.of_nat k) (busy s)))
      as (? & ? & ? & -> & ->)%wp_ok; [|done].
    rewrite E at 1. apply wp_lost_ticks; [lia|lia|]. by rewrite Z.add_0_l.
  - apply wp_run. apply wp_bind, busy_unlock; [apply (to_lock _ _ _ _ _ (tv_ok _ _ _ _ _ Hinv))|].
    eapply wp_tick; [apply (tv_ok _ _ _ _ _ (timer_inv_lost _ _ _ _ _ (Z.of_nat k) Hinv))| |];
      cbn [upd_ticks events_ticks_lost tm_events]; rewrite (swrap_small 32 (Z.of_nat k + 1)) by lia; [lia|].
    intros s' qs' Htk. split; [done|]. by eapply (ticked_after (upd_ticks (timer_ticks s) (Z.of_nat k) s));
      [apply timer_inv_lost|].
Qed.
(** ** Theorems: timeout calls *)

Lemma due_insert m n e l : e ∉ l.*2 → e ∈ (due m (insert_event n e l)).*2 ↔ n ≤ m.
Proof.
  intros He. assert (∀ l, e ∉ l.*2 → e ∈ (due m ((n, e) :: l)).*2 ↔ n ≤ m) as Hhere.
  { intros l' Hl. rewrite due_cons. case_decide; [split; [done|intros _; apply list_elem_of_here]|].
    split; [|done]. by intros ?%due_incl. }
  assert (∀ t x l', x ≠ e → e ∈ (due m ((t, x) :: l')).*2 ↔ e ∈ (due m l').*2) as Hskip.
  { intros t x l' Hne. rewrite due_cons. case_decide; [|done]. rewrite fmap_cons, elem_of_cons. simpl.
    split; [by intros [->|?]|by right]. }
  induction l as [|[t x] l IH]; simpl; [by apply Hhere|].
  rewrite fmap_cons in He. apply not_elem_of_cons in He as [Hne He]. simpl in Hne.
  repeat case_match; [by apply Hhere; rewrite fmap_cons; apply not_elem_of_cons|rewrite Hskip by done; by apply Hhere|].
  rewrite Hskip by done. by apply IH.
Qed.

(** The calls of one identifier. *)
Abbreviation with_id id := (filter (λ c : Z * Z * Z, c.1.2 = id)).

Lemma calls_of_other m id l : (∀ e, e ∈ l → ids_of m e ≠ id) → with_id id (calls_of m l) = [].
Proof.
  induction l as [|e l IH]; intros Hl; [done|]. rewrite calls_of_cons, filter_app.
  rewrite IH by (intros e' ?; apply Hl; by apply list_elem_of_further).
  specialize (Hl e (list_elem_of_here _ _)). unfold calls_of, call_of, ids_of, event_id in *. simpl.
  destruct (m !! e) as [[dl [i r d [|]|th]]|]; try done. simpl in *. by rewrite ?app_nil_r, filter_cons_False.
Qed.

Lemma calls_of_one m e id r d l :
  NoDup l → ev_kind <$> m !! e = Some (Timeout id r d false) → (∀ e', e' ∈ l → e' ≠ e → ids_of m e' ≠ id) →
  with_id id (calls_of m l) = if decide (e ∈ l) then [(r, id, d)] else [].
Proof.
  intros Hnd He Hl. case_decide as Hin.
  - apply list_elem_of_split in Hin as (l1 & l2 & ->). apply NoDup_middle in Hnd as (_ & H1 & H2).
    rewrite calls_of_app, calls_of_cons, !filter_app.
    rewrite (calls_of_other _ _ l1), (calls_of_other _ _ l2);
      [|intros e' ?; apply Hl; [set_solver|by intros ->]..].
    rewrite app_nil_r. unfold calls_of, call_of. simpl. destruct (m !! e) as [[dl k]|]; [|done].
    simpl in *. injection He as ->. simpl. by rewrite filter_cons_True.
  - apply calls_of_other. intros e' ?. apply Hl; [done|]. by intros ->.
Qed.

(** The events that have fired by the time the handler thread runs. *)
Definition fired_calls s (evs rdy : list Z) (n : Z) : list Z :=
  rdy ++ filter (is_timeout (tm_events s)) (due n (agenda (tm_events s) 0 evs)).*2.

(** Ticks, and then the handler thread: the calls of the events that have become due. *)
Lemma wp_ticks_run k s evs rdy tids qs :
  timer_inv s evs rdy tids qs → events_ticks_lost s = 0 →
  let R := fired_calls s evs rdy (Z.of_nat k + 1) in
  ∃ b s2, ticks (S k) s = Ok (b, s2) ∧
    ∀ tmp, tmp ∉ dom (anodes (tm_tree s2)) → valid_ptr tmp →
    ∃ s3, handler_run tmp s2 = Ok (tt, s3) ∧ calls s3 = calls s ++ calls_of (tm_events s) R ∧ NoDup R ∧
      ∀ e, e ∈ R → tm_events s3 !! e = None.
Proof.
  intros Hinv Hlost R.
  assert (wp (ticks (S k)) s (λ b s', ∃ qs', ticked_ok s evs rdy tids qs (Z.of_nat k + 1) s' qs'))
    as (b & s2 & E & qs' & Htk)%wp_ok by (eapply wp_ticks; [apply Hinv|done|]; eauto).
  exists b, s2. split; [done|]. intros tmp Htmp Hvt. pose proof (ticked_inv _ _ _ _ _ _ _ _ Hinv Htk) as Hinv2.
  assert (wp (handler_run tmp) s2 (λ _ s3, drained s2 R s3)) as ([] & s3 & E3 & [Dc De _])%wp_ok
    by (eapply wp_handler_run; [exact Hinv2|done|done|]; auto).
  pose proof (ei_queue _ _ _ _ (to_events _ _ _ _ _ (tv_ok _ _ _ _ _ Hinv2))) as Hq2.
  exists s3. split_and!; [done| | |].
  - rewrite Dc. destruct (tk_rest _ _ _ _ _ _ _ _ Htk) as (_ & _ & -> & _). f_equal.
    unfold calls_of. assert (∀ e, e ∈ R → e ∈ dom (tm_events s2)) as HR
      by (intros e He; apply (qi_in _ _ _ Hq2), elem_of_app; by right).
    pose proof (tk_kinds _ _ _ _ _ _ _ _ Htk) as Hk. clear -HR Hk. induction R as [|e R IH]; [done|].
    rewrite !bind_cons, IH by (intros e' ?; apply HR; by apply list_elem_of_further). f_equal.
    pose proof (Hk e (HR e (list_elem_of_here _ _))) as (_ & _ & E)%kept_timeout. unfold calls_of in E. simpl in E.
    by rewrite !app_nil_r in E.
  - by pose proof (qi_nodup _ _ _ Hq2) as (_ & _ & ?)%NoDup_app.
  - intros e He. rewrite De. by rewrite decide_True.
Qed.

(** C9: a timeout call, from scheduling to the end: [timer_timeout_sched] returns a new
    identifier; whatever else is pending, when [k + 1] ticks have passed and the handler
    thread has run, the routine has been called with the identifier and its data exactly
    once if it was scheduled at most [k + 1] ticks ahead, and not at all otherwise. *)
Theorem timer_timeout_correct k s evs rdy tids qs j routine d n :
  timer_inv s evs rdy tids qs → events_ticks_lost s = 0 → next_timeout_id s + 1 < 2 ^ 32 →
  al_room (tm_heap s) sizeof_event → 0 ≤ n < 2 ^ 31 →
  let id := next_timeout_id s in
  ∃ s1 b s2, timer_timeout_sched j routine d n s = Ok (id, s1) ∧ ticks (S k) s1 = Ok (b, s2) ∧
    ∀ tmp, tmp ∉ dom (anodes (tm_tree s2)) → valid_ptr tmp →
    ∃ s3 new, handler_run tmp s2 = Ok (tt, s3) ∧ calls s3 = calls s ++ new ∧
      with_id id new = if decide (n ≤ Z.of_nat k + 1) then [(routine, id, d)] else [].
Proof.
  intros Hinv Hlost Hnext Hroom Hn id. pose proof Hinv as [[Hi _ _ Hl Htl] Hids _].
  assert (wp (timer_timeout_sched j routine d n) s (λ r s1, r = id ∧ ∃ e evs1,
    timeout_added s evs rdy tids routine d n e s1 evs1)) as (s1 & E1 & e & evs1 & Hadd)%wp_run
    by (eapply wp_timer_timeout_sched; eauto).
  pose proof (timeout_added_inv _ _ _ _ _ _ _ _ _ _ _ Hinv Hadd) as Hinv1.
  destruct Hadd as [[_ Hm Hag] _ _ _ (_ & El & _ & Ec)].
  destruct (wp_ticks_run k s1 evs1 rdy (tids ++ [e]) qs Hinv1) as (b & s2 & E2 & H); [by rewrite El|].
  exists s1, b, s2. split_and!; [done|done|]. intros tmp Htmp Hvt.
  destruct (H tmp Htmp Hvt) as (s3 & E3 & Ec3 & Hnd & _). rewrite Ec in Ec3.
  eexists s3, _. split_and!; [done|exact Ec3|]. pose proof Hm as (Hd & Hke & _).
  pose proof (ei_queue _ _ _ _ Hi) as Hq. assert (∀ e', e' ∈ evs ++ rdy → e' ≠ e) as Hne
    by (intros e' Hin ->; by apply Hd, (qi_in _ _ _ Hq)).
  rewrite (calls_of_one _ e id routine d); [|done|done|].
  - apply decide_ext. unfold fired_calls. rewrite Hag, elem_of_app, list_elem_of_filter.
    rewrite due_insert by (rewrite agenda_events; intros Hin; by apply (Hne e), eq_refl; apply elem_of_app; left).
    split; [|intros ?; right; split; [|done]; apply is_timeout_kind; by eexists _, _, _, _].
    intros [Hin|[_ ?]]; [|done]. destruct (Hne e); [apply elem_of_app; by right|done].
  - intros e' He' Hne'. rewrite (one_more_ids _ _ _ _ _ Hm Hne').
    assert (is_timeout (tm_events s1) e') as Ht.
    { apply elem_of_app in He' as [He'|[? _]%list_elem_of_filter]; [|done].
      by apply (ei_rdy _ _ _ _ (to_events _ _ _ _ _ (tv_ok _ _ _ _ _ Hinv1))). }
    apply (one_more_timeout _ _ _ _ _ Hm) in Ht as [[? _]|Ht]; [done|]. destruct Hids as [_ Hids].
    specialize (Hids e' Ht). unfold id. lia.
Qed.
(** Identifiers tell timeout calls apart. *)
Lemma ids_unique s evs rdy tids e e' : events_inv s evs rdy tids →
  is_timeout (tm_events s) e → is_timeout (tm_events s) e' →
  ids_of (tm_events s) e = ids_of (tm_events s) e' → e = e'.
Proof.
  intros Hi He%(ei_tids _ _ _ _ Hi) He'%(ei_tids _ _ _ _ Hi) E.
  destruct (ei_tree _ _ _ _ Hi) as (_ & _ & h & T & [_ _ Hso _] & <- & El). rewrite <- El in Hso.
  apply list_elem_of_split in He as (l1 & l2 & Et). rewrite Et in Hso, He'.
  apply sorted_app in Hso as (_ & [_ H2]%StronglySorted_inv & H1).
  apply elem_of_app in He' as [Hin|[->|Hin]%elem_of_cons]; [|done|].
  - specialize (H1 e' e Hin (list_elem_of_here _ _)). unfold cmp_lt in H1. simpl in H1. unfold compare_timeout_id in H1.
    rewrite E, Z.ltb_irrefl in H1. lia.
  - apply (proj1 (Forall_forall _ _) H2) in Hin. unfold cmp_lt in Hin. simpl in Hin. unfold compare_timeout_id in Hin.
    rewrite E, Z.ltb_irrefl in Hin. lia.
Qed.

Abbreviation but_id id := (filter (λ c : Z * Z * Z, c.1.2 ≠ id)).

Lemma but_id_other m id l : (∀ e, e ∈ l → ids_of m e ≠ id) → but_id id (calls_of m l) = calls_of m l.
Proof.
  intros Hl. pose proof (calls_of_other m id l Hl) as E. induction (calls_of m l) as [|c cs IH]; [done|].
  rewrite filter_cons in E. case_decide; [done|]. rewrite filter_cons_True by done. f_equal. by apply IH.
Qed.

Lemma canceled_calls s evs rdy tids e l : events_inv s evs rdy tids →
  is_timeout (tm_events s) e → (∀ e', e' ∈ l → is_timeout (tm_events s) e') →
  calls_of (tm_events (canceled_event e s)) l = but_id (ids_of (tm_events s) e) (calls_of (tm_events s) l).
Proof.
  intros Hi He Hl. pose proof He as (id & r & d & c & dl & Hv). unfold canceled_event. rewrite Hv. cbn [upd_events tm_events].
  induction l as [|e' l IH]; [done|]. rewrite (calls_of_cons _ _ l), (calls_of_cons (tm_events s)), filter_app, IH
    by (intros ? ?; apply Hl; by apply list_elem_of_further). f_equal.
  destruct (decide (e' = e)) as [->|Hne].
  - unfold calls_of, call_of, ids_of, event_id. simpl. rewrite lookup_insert_eq, Hv. simpl.
    destruct c; [done|]. simpl. by rewrite filter_cons_False by auto.
  - rewrite but_id_other.
    + unfold calls_of. simpl. by rewrite lookup_insert_ne.
    + intros x Hx%list_elem_of_singleton. subst x. intros E. apply Hne.
      eapply ids_unique; [exact Hi|apply Hl, list_elem_of_here|done|done].
Qed.

Lemma fired_timeouts s evs rdy tids n e :
  events_inv s evs rdy tids → e ∈ fired_calls s evs rdy n → is_timeout (tm_events s) e.
Proof.
  intros Hi [He|[? _]%list_elem_of_filter]%elem_of_app; [by apply (ei_rdy _ _ _ _ Hi)|done].
Qed.

(** [timer_timeout_cancel_sync] takes the run lock of the event it cancels and does not
    give it back: when such an event becomes ready, the handler thread hangs on it. *)
Theorem timer_cancel_sync_hangs yields key tid tmp s evs e rdy tids qs :
  timer_inv s evs (e :: rdy) tids qs → ids_of (tm_events s) e = tid → key ∉ tids →
  ∃ s', timer_timeout_cancel_sync yields key tid s = Ok (tt, s') ∧ timeout_calls_handler tmp s' = Hang.
Proof.
  intros Hinv E Hkey. pose proof Hinv as [[Hi Hs Hpre Hl Htl] _ Hruns].
  pose proof (ei_rdy _ _ _ _ Hi e (list_elem_of_here _ _)) as Hto. pose proof Hto as Ht%(ei_tids _ _ _ _ Hi).
  destruct (timeout_event s _ _ _ _ Hi Ht) as (v & Hv & Hn%Z.eqb_neq & _).
  assert (wp (cancel_sync_turn key tid) s (λ r s', r = false ∧ s' = run_locked e (canceled_event e s)))
    as (s' & Er & ->)%wp_run.
  { eapply (wp_cancel_sync_turn s _ _ _ _ _ SPIN_UNLOCKED); [exact Hi|done|done| |].
    - intros e' He' _. apply Hruns. by apply (ei_tids _ _ _ _ Hi).
    - intros e' [[He' E']|[_ Hno]]; [|by destruct (Hno e Ht)].
      assert (e' = e) as -> by (eapply ids_unique; [exact Hi|by apply (ei_tids _ _ _ _ Hi)|done|by rewrite E']).
      rewrite decide_False, decide_True by done. done. }
  exists (run_locked e (canceled_event e s)). split.
  - destruct yields; simpl; unfold mbind, M_bind; by rewrite Er.
  - destruct (canceled_inv _ _ _ _ _ e Hinv) as [[[Hi' _ _ Hl' _] _ _] _].
    eapply (handler_hangs _ evs e rdy tids); [| |apply lookup_insert_eq].
    + destruct Hi' as [[] Hd' Hlv' Hr' Ha' Ht' Htd' Hrd']. split; try done. intros e' He'. simpl.
      rewrite dom_insert_L. apply elem_of_union_r. by apply Hr'.
    + exact Hl'.
Qed.

(** ** Theorems: sleeping threads *)

Lemma sleeping_on_state (s0 : sched) h m evs b a th t : fire_pre s0 h m evs b a → th ∈ sleeping_on m evs →
  a.1 !! th = Some t → th_state t ∈ addable.
Proof. intros Hpre Hin Ht. destruct (fp_sleep _ _ _ _ _ _ Hpre th Hin) as [(t' & Ht' & ? & _) _]. congruence. Qed.

Lemma fire_pre_lulled (s0 s0' : sched) h m m' e th t t' l1 l2 qs :
  fire_pre s0 h m (l1 ++ l2) false (sc_threads s0, qs) → one_more m e (Wake th) m' → e ∉ l1 ++ l2 →
  sc_threads s0 !! th = Some t → th_state t ∉ addable → th ≠ h →
  sc_threads s0' = <[th := t']> (sc_threads s0) → th_state t' ∈ addable → 0 ≤ th_s_prio t' →
  (∀ x, free_lock s0 x → free_lock s0' x) → free_lock s0' (thread_lock th) →
  fire_pre s0' h m' (l1 ++ e :: l2) false (sc_threads s0', qs).
Proof.
  intros Hpre (Hd & Hke & Hk) He Ht Hst Hh Em Hst' Hp' Hfree Hlk.
  assert (sleeping_on m (l1 ++ l2) = sleeping_on m' l1 ++ sleeping_on m' l2) as E.
  { rewrite sleeping_on_app. f_equal; symmetry; apply sleeping_on_ext; intros e' ?; apply Hk; intros ->;
      apply He, elem_of_app; auto. }
  assert (sleeping_on m' (l1 ++ e :: l2) = sleeping_on m' l1 ++ th :: sleeping_on m' l2) as E'.
  { rewrite sleeping_on_app. simpl. by rewrite Hke. }
  assert (th ∉ sleeping_on m (l1 ++ l2)) as Hnin.
  { intros Hin. by eapply Hst, sleeping_on_state. }
  destruct Hpre as [H1 H2 H3 H4]. rewrite E in *. split; rewrite ?E'.
  - intros th' Hin. rewrite Em. destruct (decide (th' = th)) as [->|Hne].
    + split; [|done]. exists t'. cbn [fst]. by rewrite lookup_insert_eq.
    + destruct (H1 th') as [(t2 & Ht2 & ?) ?].
      { revert Hin. rewrite !elem_of_app, elem_of_cons. tauto. }
      split; [|by apply Hfree]. exists t2. cbn [fst]. by rewrite lookup_insert_ne.
  - apply NoDup_cons in H2 as [H2 H2']. apply NoDup_cons. rewrite elem_of_app, elem_of_cons in *.
    split; [naive_solver|]. apply NoDup_middle. tauto.
  - intros _. destruct (H3 eq_refl) as [(t2 & Ht2 & ?) ?]. split; [|by apply Hfree]. exists t2. cbn [fst]. rewrite Em.
    by rewrite lookup_insert_ne.
  - by apply Hfree.
Qed.

(** The thread is lulled and its lock released. *)
Definition lull (j : junk) (th n : Z) : M timer Z :=
  r ← timer_lull_thread j th n; zoom tm_sched upd_sched (thread_unlock_thread th);; mret r.
(** A thread that may be lulled while it waits to run, but in no run queue. *)
Record lullable s (qs : Z → list Z) (th : Z) (t : thread) : Prop := {
  lu_thread : sc_threads (tm_sched s) !! th = Some t;
  lu_state : th_state t = THREAD_STATE_READY ∧ th_next_state t ∈ [THREAD_STATE_READY; THREAD_STATE_RUNNING];
  lu_prio : 0 ≤ th_s_prio t;
  lu_out : th ∉ ready qs;
  lu_other : th ≠ timeout_calls_thread s;
  lu_lock : held_lock (tm_sched s) (thread_lock th) }.

Lemma wp_lull s evs rdy tids qs j th t n (Q : Z → timer → Prop) :
  timer_inv s evs rdy tids qs → lullable s qs th t → al_room (tm_heap s) sizeof_event → 0 ≤ n < 2 ^ 31 →
  (∀ e s' evs', enqueued s evs rdy tids e (Wake th) n s' evs' tids → timer_inv s' evs' rdy tids qs →
     same_rest s s' → sc_threads (tm_sched s') !! th = Some (with_state THREAD_STATE_SLEEPING THREAD_STATE_SLEEPING t) →
     Q NO_ERROR s') →
  wp (lull j th n) s Q.
Proof.
  intros Hinv [Ht [Hst Hnx] Hp Hout Hh Hlk] Hroom Hn HQ. pose proof Hinv as [[Hi Hs Hpre Hl Htl] [Hid0 Hids] Hruns].
  unfold lull. apply wp_bind. eapply wp_timer_lull_thread; [exact Hi|exact Ht| |exact Hlk|exact Hl|done|done|].
  { split; [rewrite Hst; apply list_elem_of_here|done]. }
  intros e s1 evs1 [Hi1 Hm Hag] Es Hrest Hr1. apply wp_bind, wp_zoom, wp_zoom, wp_spin_unlock.
  { rewrite Es. simpl. destruct Hlk as (v & Hv & _). by eexists. }
  apply wp_ret. set (t' := with_state THREAD_STATE_SLEEPING THREAD_STATE_SLEEPING t).
  assert (lulled th t (tm_sched s) = upd_threads (<[th := t']> (sc_threads (tm_sched s))) (tm_sched s)) as El
    by (unfold lulled; by rewrite decide_True).
  rewrite El in Es. rewrite Es. set (s2 := upd_sched _ s1).
  assert (∀ x, free_lock (tm_sched s) x → free_lock (tm_sched s2) x) as Hfree.
  { intros x Hx. unfold free_lock. simpl. rewrite lookup_insert. by case_decide. }
  assert (∀ e', is_timeout (tm_events s1) e' → is_timeout (tm_events s) e') as Hto.
  { intros e' [[_ (? & ? & ? & ? & ?)]|?]%(one_more_timeout _ _ _ _ e' Hm); done. }
  pose proof (ei_queue _ _ _ _ Hi) as Hq.
  destruct Hrest as (R1 & R2 & R3 & R4 & R5).
  assert (e ∉ evs) as Hne by (intros Hin; destruct Hm as (Hd & _); apply Hd, (qi_in _ _ _ Hq), elem_of_app; by left).
  eapply (HQ e s2 evs1).
  - split; [by apply events_inv_sched|done|done].
  - split; [split|split|].
    + by apply events_inv_sched.
    + apply sched_inv_cpu'. eapply sched_inv_thread; [exact Hs|exact Ht|apply (si_carrots _ _ Hs _ _ Ht)|done|by left].
    + destruct (inserted_split _ _ _ _ _ (f_equal (fmap snd) Hag)) as (l1 & l2 & E & ->). rewrite agenda_events in E.
      subst evs. simpl. rewrite R4.
      eapply (fire_pre_lulled (tm_sched s) (tm_sched s2) _ _ _ e th t t'); [exact Hpre|exact Hm|done|exact Ht| |done|done| |done|exact Hfree|].
      * rewrite Hst. by_decide.
      * by_decide.
      * unfold free_lock. simpl. apply lookup_insert_eq.
    + by apply Hfree.
    + by apply Hfree.
    + simpl. by rewrite R2.
    + intros e' He'. simpl in *. rewrite R2. rewrite (one_more_ids _ _ _ _ _ Hm); [by apply Hids, Hto|].
      intros ->. destruct Hm as (Hd & _). by apply Hd, timeout_dom, Hto.
    + intros e' He'%Hto. simpl. rewrite Hr1; [by apply Hruns|]. intros ->. destruct Hm as (Hd & _).
      by apply Hd, timeout_dom.
  - done.
  - apply lookup_insert_eq.
Qed.
Lemma elem_of_sleeping_on m evs e th :
  e ∈ evs → ev_kind <$> m !! e = Some (Wake th) → th ∈ sleeping_on m evs.
Proof.
  induction evs as [|e' evs IH]; intros He Hk; [by apply elem_of_nil in He|]. simpl.
  apply elem_of_cons in He as [->|He]; [rewrite Hk; apply list_elem_of_here|].
  specialize (IH He Hk). repeat case_match; try done. by apply list_elem_of_further.
Qed.

Lemma asleep_not_ready s evs rdy tids qs e th :
  timer_inv s evs rdy tids qs → e ∈ evs → ev_kind <$> tm_events s !! e = Some (Wake th) → th ∉ ready qs.
Proof.
  intros [[_ Hs Hpre _ _] _ _] He Hk (p & Hp & Hin)%elem_of_ready.
  destruct (si_ready _ _ Hs p th Hp Hin) as (t & Ht & Hst & _).
  assert (th_state t ∈ addable) as Ha by (eapply sleeping_on_state; [exact Hpre|by eapply elem_of_sleeping_on|done]).
  rewrite Hst in Ha. by apply (bool_decide_eq_true_2 _) in Ha.
Qed.


(** ** Theorems: initialisation *)

Lemma wp_timer_start s qs (Q : Z → timer → Prop) :
  fresh_timer s → sched_inv (tm_sched s) qs → events_ticks_lost s = 0 →
  handler_ok (sc_threads (tm_sched s)) (timeout_calls_thread s) →
  free_lock (tm_sched s) (thread_lock (timeout_calls_thread s)) → free_lock (tm_sched s) rq_lock →
  (∀ s', timer_inv s' [] [] [] qs → tm_events s' = ∅ → events_ticks_lost s' = 0 → next_timeout_id s' = 1 →
     tm_heap s' = tm_heap s → tm_sched s' = unlocked (tm_sched s) →
     timeout_calls_thread s' = timeout_calls_thread s → Q NO_ERROR s') →
  wp timer_init s Q.
Proof.
  intros Hf Hs Hlost Hh Hl Hr HQ. eapply wp_timer_init; [done|].
  intros s' Hi Hids Es Eh Ee _ Ep El En.
  assert (∀ x, free_lock (tm_sched s) x → free_lock (tm_sched s') x) as Hfree.
  { intros x Hx. rewrite Es. unfold free_lock. simpl. rewrite !lookup_insert. by repeat case_decide. }
  apply HQ; try done; [|by rewrite El]. split; [split|done|].
  - done.
  - rewrite Es. by apply sched_inv_cpu'.
  - rewrite Eh, Ee, Es. split; rewrite <- ?Es; [by intros th ?%elem_of_nil|apply NoDup_singleton| |by apply Hfree].
    intros _. split; [cbn [fst]; rewrite Es; exact Hh|by apply Hfree].
  - rewrite Es. unfold free_lock. simpl. rewrite lookup_insert_ne by done. apply lookup_insert_eq.
  - rewrite Es. unfold free_lock. simpl. apply lookup_insert_eq.
  - intros e. rewrite Ee. by intros (? & ? & ? & ? & ? & ?).
Qed.

(** Initialisation: [timer_init] sets up locks, queues and tree and establishes the
    invariant, with nothing pending, of a timer whose handler thread is in the scheduler's
    care. *)
Theorem timer_init_correct s qs :
  fresh_timer s → sched_inv (tm_sched s) qs → events_ticks_lost s = 0 →
  handler_ok (sc_threads (tm_sched s)) (timeout_calls_thread s) →
  free_lock (tm_sched s) (thread_lock (timeout_calls_thread s)) → free_lock (tm_sched s) rq_lock →
  ∃ s', timer_init s = Ok (NO_ERROR, s') ∧ timer_inv s' [] [] [] qs ∧ tm_events s' = ∅ ∧ next_timeout_id s' = 1.
Proof. intros. apply wp_run. eapply wp_timer_start; eauto 10. Qed.
End props.

(** ** Examples *)

Definition thread_at (th : Z) : thread :=
  default (Thread 0 None 0 0 0 0 0 0 0 0 0 0 0) (sc_threads started !! th).

(** The thread 3000 is suspended, 2000 is about to be lulled. *)
Definition example_sched : sched :=
  upd_threads (<[2000 := with_state THREAD_STATE_READY THREAD_STATE_READY (thread_at 2000)]>
    (<[3000 := with_state THREAD_STATE_SUSPENDED THREAD_STATE_SUSPENDED (thread_at 3000)]> (sc_threads started)))
    (upd_cpu (Cpu (list_to_map [(rq_lock, 0); (2012, 1); (3012, 0); (events_lock, 7); (timeouts_lock, 7)]) true) started).

Definition example_timer : @timer heap_allocator :=
  TimerState example_sched example_heap
    (XStore ∅ (list_to_map [(events_queue, XListHdr 7 7 7); (ready_timeouts_queue, XListHdr 7 7 7)]))
    ∅ ∅ (AStore ∅ ∅) 0 0 0 3000 [].

Lemma started_thread th : bool_decide (is_Some (sc_threads started !! th)) = true →
  sc_threads started !! th = Some (thread_at th).
Proof. intros [t Ht]%bool_decide_eq_true. unfold thread_at. by rewrite Ht. Qed.

Lemma example_sched_inv : sched_inv example_sched (λ _, []).
Proof.
  assert (sc_threads started !! 2000 = Some (thread_at 2000)) as H2 by (apply started_thread; vm_compute; reflexivity).
  assert (sc_threads started !! 3000 = Some (thread_at 3000)) as H3 by (apply started_thread; vm_compute; reflexivity).
  assert (∀ th, th ∉ ready (λ _, [])) as Hr by (by intros th (? & _ & ?%elem_of_nil)%elem_of_ready).
  unfold example_sched. set (s0 := upd_cpu _ started).
  assert (sched_inv s0 (λ _, [])) as Hs0 by apply sched_inv_cpu', started_inv.
  pose proof (sched_inv_thread s0 _ 3000 _ (with_state THREAD_STATE_SUSPENDED THREAD_STATE_SUSPENDED (thread_at 3000))
    Hs0 H3 (si_carrots _ _ Hs0 _ _ H3) eq_refl (or_introl (Hr 3000))) as Hs1.
  refine (sched_inv_thread _ _ 2000 (thread_at 2000) (with_state THREAD_STATE_READY THREAD_STATE_READY (thread_at 2000)) Hs1 _
    (si_carrots _ _ Hs0 _ _ H2) eq_refl (or_introl (Hr 2000))).
  simpl. rewrite lookup_insert_ne by done. exact H2.
Qed.

Lemma example_init : fresh_timer example_timer ∧ events_ticks_lost example_timer = 0 ∧
  handler_ok (sc_threads (tm_sched example_timer)) (timeout_calls_thread example_timer) ∧
  free_lock (tm_sched example_timer) (thread_lock (timeout_calls_thread example_timer)) ∧
  free_lock (tm_sched example_timer) rq_lock.
Proof.
  split; [|split; [reflexivity|split; [|split; vm_compute; reflexivity]]].
  - split; [reflexivity|exists ∅, ∅; split; [exact example_heap_ok|reflexivity]|split|split]; eexists; vm_compute; reflexivity.
  - exists (with_state THREAD_STATE_SUSPENDED THREAD_STATE_SUSPENDED (thread_at 3000)).
    split; [vm_compute; reflexivity|]. intros _. by_decide.
Qed.

Definition booted : @timer heap_allocator := outcome timer_init example_timer.

#[local] Opaque started.

Lemma booted_inv : timer_inv booted [] [] [] (λ _, []) ∧ tm_events booted = ∅ ∧ events_ticks_lost booted = 0 ∧
  next_timeout_id booted = 1 ∧ tm_heap booted = (example_heap : @al_state heap_allocator) ∧ tm_sched booted = unlocked example_sched ∧
  timeout_calls_thread booted = 3000.
Proof.
  destruct example_init as (H1 & H2 & H3 & H4 & H5).
  apply (wp_outcome _ _ (λ s : @timer heap_allocator, timer_inv s [] [] [] (λ _, []) ∧ tm_events s = ∅ ∧ events_ticks_lost s = 0 ∧
    next_timeout_id s = 1 ∧ tm_heap s = (example_heap : @al_state heap_allocator) ∧ tm_sched s = unlocked example_sched ∧
    timeout_calls_thread s = 3000)).
  eapply wp_timer_start; [exact H1|exact example_sched_inv|exact H2|exact H3|exact H4|exact H5|].
  intros s' G1 G2 G3 G4 G5 G6 G7. exact (conj G1 (conj G2 (conj G3 (conj G4 (conj G5 (conj G6 G7)))))).
Qed.

Lemma example_heap_room : heap_room example_heap sizeof_event.
Proof.
  split; [by vm_compute|]. intros k Hk. assert (k = 2%nat) as ->.
  { destruct Hk as (_ & H1 & H2). destruct (decide (k < 2)%nat).
    - do 2 (destruct k as [|k]; [by destruct H1|]). lia.
    - destruct (decide (k = 2%nat)) as [|Hne]; [done|]. specialize (H2 2%nat ltac:(lia)).
      vm_compute in H2. discriminate. }
  intros (b & Hb & _ & _ & Hf). vm_compute in Hf. discriminate.
Qed.

#[local] Opaque booted.

Definition example_junk : junk := Junk (ListElem 7 7) (ANode 7 7 7 7 7) 7 7.

(** A timeout call is due at the second tick. *)
Definition pending : @timer heap_allocator := outcome (timer_timeout_sched example_junk 77 5 2) booted.

Lemma pending_inv : ∃ e, timer_inv pending [e] [] [e] (λ _, []) ∧ events_ticks_lost pending = 0 ∧
  agenda (tm_events pending) 0 [e] = [(2, e)] ∧ ids_of (tm_events pending) e = 1.
Proof.
  destruct booted_inv as (Hinv & _ & Hl & Hn & Hh & _). pose proof Hinv as [[Hi _ _ Hl1 Hl2] Hids _].
  apply (wp_outcome _ _ (λ s : @timer heap_allocator, ∃ e, timer_inv s [e] [] [e] (λ _, []) ∧ events_ticks_lost s = 0 ∧
    agenda (tm_events s) 0 [e] = [(2, e)] ∧ ids_of (tm_events s) e = 1)).
  eapply (wp_timer_timeout_sched booted [] [] []); [exact Hi|exact Hids|rewrite Hn; lia|exact Hl1|exact Hl2| |lia|].
  { rewrite Hh. exact example_heap_room. }
  intros e s' evs' Ha. pose proof (timeout_added_inv _ _ _ _ _ _ _ _ _ _ _ Hinv Ha) as Hinv'.
  destruct Ha as [[_ (_ & Hk & _) Hag] _ _ _ (_ & El & _)].
  assert (evs' = [e]) as -> by (rewrite <- (agenda_events (tm_events s') 0 evs'), Hag; done).
  exists e. rewrite El. split_and!; [exact Hinv'|exact Hl|exact Hag|].
  rewrite <- Hn. eapply ids_of_kind. exact Hk.
Qed.

#[local] Opaque pending.

Lemma timer_init_correct_witness :
  ∃ s', timer_init example_timer = Ok (NO_ERROR, s') ∧ timer_inv s' [] [] [] (λ _, []) ∧ tm_events s' = ∅ ∧
    next_timeout_id s' = 1.
Proof.
  destruct example_init as (H1 & H2 & H3 & H4 & H5).
  exact (timer_init_correct example_timer _ H1 example_sched_inv H2 H3 H4 H5).
Defined.

Lemma timer_ticks_correct_witness : ∃ e s', ticks 3 pending = Ok (true, s') ∧
  after_ticks pending [e] [] [e] (λ _, []) 3 s'.
Proof.
  destruct pending_inv as (e & Hinv & Hl & Hag & _). exists e.
  pose proof (timer_ticks_correct 2 pending _ _ _ _ Hinv Hl) as H. cbv zeta in H. rewrite Hag in H. exact H.
Defined.

Lemma timer_lost_ticks_correct_witness : ∃ e,
  ticks 2 (busy pending) = Ok (false, upd_ticks (timer_ticks pending) 2 (busy pending)) ∧
  ∃ s', (on_irqs (spin_unlock events_lock);; timer_schedule_event)
      (upd_ticks (timer_ticks pending) 2 (busy pending)) = Ok (true, s') ∧
    after_ticks pending [e] [] [e] (λ _, []) 3 s'.
Proof.
  destruct pending_inv as (e & Hinv & Hl & Hag & _). exists e.
  pose proof (timer_lost_ticks_correct 2 pending _ _ _ _ Hinv Hl ltac:(lia)) as H. cbv zeta in H.
  rewrite Hag in H. exact H.
Defined.

Lemma timer_timeout_correct_witness :
  ∃ s1 b s2, timer_timeout_sched example_junk 77 5 3 booted = Ok (1, s1) ∧ ticks 3 s1 = Ok (b, s2) ∧
    ∀ tmp, tmp ∉ dom (anodes (tm_tree s2)) → valid_ptr tmp →
    ∃ s3 new, handler_run tmp s2 = Ok (tt, s3) ∧ calls s3 = calls booted ++ new ∧
      filter (λ c : Z * Z * Z, c.1.2 = 1) new = [(77, 1, 5)].
Proof.
  destruct booted_inv as (Hinv & _ & Hl & Hn & Hh & _).
  pose proof (timer_timeout_correct 2 booted _ _ _ _ example_junk 77 5 3 Hinv Hl) as H. rewrite Hn in H.
  apply H; [lia| |lia]. rewrite Hh. exact example_heap_room.
Defined.

Lemma far_key e : ev_ok e → 2 ^ 32 - 4 ∉ [e].
Proof. intros [_ He] Hin%list_elem_of_singleton. unfold sizeof_event in He. lia. Qed.

Lemma pending_ok s e evs rdy tids qs : @timer_inv heap_allocator heap_laws s evs rdy tids qs → e ∈ tids → ev_ok e.
Proof.
  intros [[Hi _ _ _ _] _ _] He%(ei_tids _ _ _ _ Hi). apply (qi_addr _ _ _ (ei_queue _ _ _ _ Hi)).
  by apply timeout_dom.
Qed.

Lemma with_but id (l : list (Z * Z * Z)) : filter (λ c, c.1.2 = id) (filter (λ c, c.1.2 ≠ id) l) = [].
Proof.
  induction l as [|c l IH]; [done|]. rewrite filter_cons. case_decide; [|done]. by rewrite filter_cons_False.
Qed.


(** The timeout call has become due. *)
Definition overdue : @timer heap_allocator := outcome (ticks 3) pending.

Lemma overdue_inv : ∃ e qs, timer_inv overdue [] [e] [e] qs ∧ ids_of (tm_events overdue) e = 1.
Proof.
  destruct pending_inv as (e & Hinv & Hl & Hag & Hid). pose proof Hinv as [[Hi _ _ _ _] _ _].
  assert (is_timeout (tm_events pending) e) as Hto by (apply (ei_tids _ _ _ _ Hi), list_elem_of_here).
  apply (wp_outcome _ _ (λ s : @timer heap_allocator, ∃ e qs, timer_inv s [] [e] [e] qs ∧ ids_of (tm_events s) e = 1)).
  eapply wp_ticks; [apply Hinv|exact Hl|]. intros s' qs' Htk. exists e.
  pose proof (ticked_inv _ _ _ _ _ _ _ _ Hinv Htk) as Hinv'. rewrite Hag in Hinv'.
  change ((later (Z.of_nat 2 + 1) [(2, e)]).*2) with (@nil Z) in Hinv'.
  change ((due (Z.of_nat 2 + 1) [(2, e)]).*2) with [e] in Hinv'.
  rewrite filter_cons_True in Hinv' by exact Hto. cbn [app] in Hinv'.
  change (filter (is_timeout (tm_events pending)) []) with (@nil Z) in Hinv'.
  exists qs'. split; [exact Hinv'|]. rewrite <- Hid.
  assert (e ∈ dom (tm_events s')) as Hd.
  { pose proof Hinv' as [[Hi' _ _ _ _] _ _]. apply timeout_dom, (ei_tids _ _ _ _ Hi'), list_elem_of_here. }
  by pose proof (tk_kinds _ _ _ _ _ _ _ _ Htk e Hd) as (_ & -> & _)%kept_timeout.
Qed.

#[local] Opaque overdue.

Lemma timer_cancel_sync_hangs_witness :
  ∃ s', timer_timeout_cancel_sync [] (2 ^ 32 - 4) 1 overdue = Ok (tt, s') ∧ timeout_calls_handler 5 s' = Hang.
Proof.
  destruct overdue_inv as (e & qs & Hinv & Hid).
  apply (timer_cancel_sync_hangs [] (2 ^ 32 - 4) 1 5 overdue [] e [] [e] qs Hinv Hid).
  apply far_key. eapply pending_ok; [exact Hinv|apply list_elem_of_here].
Defined.

Lemma example_lullable : lullable booted (λ _, []) 2000 (with_state THREAD_STATE_READY THREAD_STATE_READY (thread_at 2000)).
Proof.
  destruct booted_inv as (_ & _ & _ & _ & _ & Es & Eh). split; rewrite ?Es, ?Eh.
  - vm_compute. reflexivity.
  - split; [reflexivity|by_decide].
  - by_decide.
  - by intros (? & _ & ?%elem_of_nil)%elem_of_ready.
  - by_decide.
  - exists 1. split; [vm_compute; reflexivity|by_decide].
Qed.

