(* ===== verification/MemoryMap.v ===== *)
(** * Memory maps of address spaces: [kernel/vm/vm_address_space.c]

    The part of the file that keeps the mappings of one address space: a memory map is a
    range of virtual addresses with a list and a tree of mappings, both in the order of
    their addresses. The state of the model is the maps and the mappings by address, the
    nodes of the lists and of the trees, and the state of the allocator the mappings come
    from. A mapping has two list nodes, in its map's list and in its object's list; the two
    kinds are kept in stores of their own. An address space is named by the address of its
    memory map. What a block holds when it is allocated is a parameter. *)

From S2P Require Import Prelude XList AvlTree Alloc.
From stdpp Require Import gmap list.
#[local] Open Scope Z_scope.

(** ** Data *)

(** [vm_memory_map_t], but for the headers of the list and of the tree. *)
Record memory_map := MMap { mm_base : Z; mm_size : Z; mm_aspace : Z }.

(** [vm_mapping_t], but for the nodes. *)
Record mapping := Mapping {
  mp_start : Z; mp_end : Z; mp_mmap : Z; mp_object : Z; mp_offset : Z; mp_type : Z; mp_protect : Z }.

Definition VM_MAPPING_TYPE_HOLE : Z := 0.

Definition VM_MAPPING_TYPE_OBJECT : Z := 1.

Definition sizeof_vm_mapping : Z := 60.

Definition mappings_list (mm : Z) : Z := u32 (mm + 12).

Definition mappings_tree (mm : Z) : Z := u32 (mm + 24).

Definition mapping_node (m : Z) : Z := u32 (m + 28).

Definition mapping_tree_node : Z := 36.

Definition obj_list_node (m : Z) : Z := u32 (m + 52).

(** [containerof] of the nodes *)
Definition node_mapping (n : Z) : Z := u32 (n - 28).

Definition tree_mapping (n : Z) : Z := u32 (n - mapping_tree_node).

Definition ERR_VM_BAD_ADDRESS : Z := s32 (0x81000000 + 3).

Definition ERR_VM_NO_MAPPING : Z := s32 (0x81000000 + 5).

Definition ERR_VM_NO_MAPPING_GAP : Z := s32 (0x81000000 + 6).

(** The first and the last address of a mapping. *)
Definition range (m : mapping) : Z * Z := (mp_start m, mp_end m).

(** [compare_mapping], [rg] giving the ranges of its arguments. *)
Definition compare_mapping (rg : Z → Z * Z) (m1 m2 : Z) : Z :=
  if (rg m2).2 <? (rg m1).1 then 1 else if (rg m1).2 <? (rg m2).1 then -1 else 0.

Definition mapping_client (rg : Z → Z * Z) : AvlClient := {| avl_compare := compare_mapping rg |}.

Section maps.
Context {A : Allocator}.

(** What fresh memory holds. *)
Record mjunk := MJunk { junk_node : list_elem; junk_obj_node : list_elem; junk_tree_node : anode }.

Record maps := Maps {
  ms_heap : al_state; ms_lists : xstore; ms_olists : xstore; ms_tree : astore;
  ms_mappings : gmap Z mapping; ms_maps : gmap Z memory_map }.

(** ** Access *)

Definition upd_heap x s := Maps x (ms_lists s) (ms_olists s) (ms_tree s) (ms_mappings s) (ms_maps s).
Definition upd_lists x s := Maps (ms_heap s) x (ms_olists s) (ms_tree s) (ms_mappings s) (ms_maps s).
Definition upd_olists x s := Maps (ms_heap s) (ms_lists s) x (ms_tree s) (ms_mappings s) (ms_maps s).
Definition upd_tree x s := Maps (ms_heap s) (ms_lists s) (ms_olists s) x (ms_mappings s) (ms_maps s).
Definition upd_mappings x s := Maps (ms_heap s) (ms_lists s) (ms_olists s) (ms_tree s) x (ms_maps s).
Definition upd_maps x s := Maps (ms_heap s) (ms_lists s) (ms_olists s) (ms_tree s) (ms_mappings s) x.

Abbreviation on_heap := (zoom ms_heap upd_heap).
Abbreviation on_lists := (zoom ms_lists upd_lists).
Abbreviation on_olists := (zoom ms_olists upd_olists).
Abbreviation on_tree := (zoom ms_tree upd_tree).

Definition ld_mapping (m : Z) : M maps mapping := load (λ s, ms_mappings s !! m).

Definition ld_map (mm : Z) : M maps memory_map := load (λ s, ms_maps s !! mm).

Definition ranges_of (ms : gmap Z mapping) (m : Z) : Z * Z := default (0, 0) (range <$> ms !! m).

(** The ranges when a dummy mapping of one address is at the address [key]. *)
Definition ranges_key (ms : gmap Z mapping) (key vaddr m : Z) : Z * Z :=
  if m =? key then (vaddr, vaddr) else ranges_of ms m.

(** ** Memory of mappings *)

Definition add_object (j : mjunk) (m : Z) (v : mapping) (s : maps) : maps :=
  Maps (ms_heap s)
    (XStore (<[mapping_node m := junk_node j]> (nodes (ms_lists s))) (lists (ms_lists s)))
    (XStore (<[obj_list_node m := junk_obj_node j]> (nodes (ms_olists s))) (lists (ms_olists s)))
    (AStore (<[AVL_DATA2NODE m mapping_tree_node := junk_tree_node j]> (anodes (ms_tree s))) (atrees (ms_tree s)))
    (<[m := v]> (ms_mappings s)) (ms_maps s).

Definition drop_object (m : Z) (s : maps) : maps :=
  Maps (ms_heap s)
    (XStore (delete (mapping_node m) (nodes (ms_lists s))) (lists (ms_lists s)))
    (XStore (delete (obj_list_node m) (nodes (ms_olists s))) (lists (ms_olists s)))
    (AStore (delete (AVL_DATA2NODE m mapping_tree_node) (anodes (ms_tree s))) (atrees (ms_tree s)))
    (delete m (ms_mappings s)) (ms_maps s).

Definition free_mapping (m : Z) : M maps unit := on_heap (al_free m);; modify (drop_object m).

(** ** Gaps *)

(** The walk over the mappings: [inl] the start of a gap, [inr] the first address after the
    last mapping; [fuel]: the nodes of the lists and one. *)
Fixpoint gap_loop (fuel : nat) (item start size : Z) : M maps (Z + Z) :=
  match fuel with
  | O => hang
  | S fuel =>
      if item =? NULL then mret (inr start)
      else
        m ← ld_mapping (node_mapping item);
        let end_ := u32 (mp_start m - 1) in
        if size <=? u32 (end_ - start + 1) then mret (inl start)
        else
          item ← on_lists (xlist_peek_next item);
          gap_loop fuel item (u32 (mp_end m + 1)) size
  end.

Definition locate_memory_gap (mm size : Z) : M maps (option Z) :=
  item ← on_lists (xlist_peek_first (mappings_list mm));
  v ← ld_map mm;
  if item =? NULL then mret (if size <=? mm_size v then Some (mm_base v) else None)
  else
    fuel ← gets (λ s, search_fuel (ms_lists s));
    r ← gap_loop fuel item (mm_base v) size;
    match r with
    | inl start => mret (Some start)
    | inr start =>
        let end_ := u32 (mm_base v + mm_size v - 1) in
        mret (if size <=? u32 (end_ - start + 1) then Some start else None)
    end.

(** ** Mappings in a map *)

Definition put_mapping_to_aspace (mm m : Z) : M maps bool :=
  rg ← gets (λ s, ranges_of (ms_mappings s));
  r ← on_tree (@avl_tree_find (mapping_client rg) (mappings_tree mm) m);
  if negb (r.1 =? NULL) then mret false
  else
    on_tree (avl_tree_insert (mappings_tree mm) m r.2);;
    if ix_node r.2 =? NULL then
      on_lists (xlist_add_first (mappings_list mm) (mapping_node m));; mret true
    else
      let parent := tree_mapping (ix_node r.2) in
      (if ix_child r.2 =? 0
       then on_lists (xlist_insert_before_unsafe (mappings_list mm) (mapping_node parent) (mapping_node m))
       else on_lists (xlist_insert_after_unsafe (mappings_list mm) (mapping_node parent) (mapping_node m)));;
      mret true.

(** [tmp]: where [avl_tree_remove] has its local node. *)
Definition remove_mapping_from_aspace (tmp mm m : Z) : M maps bool :=
  rg ← gets (λ s, ranges_of (ms_mappings s));
  r ← on_tree (@avl_tree_remove (mapping_client rg) (mappings_tree mm) m tmp);
  if r =? NULL then mret false
  else
    r ← on_lists (xlist_remove (mappings_list mm) (mapping_node m));
    mret (negb (r =? 0)).

(** The status, and what is stored through the argument [mapping], if anything is. *)
Definition vm_aspace_create_mapping_exactly (j : mjunk) (mm base size : Z) : M maps (Z * option Z) :=
  v ← ld_map mm;
  if (base <? mm_base v) || (mm_size v <? size) || (size =? 0) then mret (ERR_INVALID_ARGS, None)
  else
    m ← on_heap (al_alloc sizeof_vm_mapping);
    if m =? NULL then panic
    else
      modify (add_object j m
        (Mapping base (u32 (base + size - 1)) mm NULL 0 VM_MAPPING_TYPE_HOLE 0));;
      on_lists (xlist_elem_init (mapping_node m));;
      on_olists (xlist_elem_init (obj_list_node m));;
      ok ← put_mapping_to_aspace mm m;
      if ok : bool then mret (NO_ERROR, Some m)
      else free_mapping m;; mret (ERR_VM_BAD_ADDRESS, Some m).

(** The alignment in bytes, 0 for none, and what it may take away from a gap. *)
Definition align_bytes (npg_align : Z) : Z := if npg_align <? 2 then 0 else u32 (npg_align * PAGE_SIZE).

Definition align_pad (npg_align : Z) : Z :=
  if npg_align <? 2 then 0 else u32 (align_bytes npg_align - PAGE_SIZE).

Definition vm_aspace_create_mapping (j : mjunk) (mm size npg_align : Z) : M maps (Z * option Z) :=
  if size =? 0 then mret (ERR_INVALID_ARGS, None)
  else
    let size_pad := align_pad npg_align in
    let npg_align := align_bytes npg_align in
    g ← locate_memory_gap mm (u32 (size + size_pad));
    match g with
    | None => mret (ERR_VM_NO_MAPPING_GAP, None)
    | Some base_addr =>
        let base_addr :=
          if npg_align =? 0 then base_addr
          else u32 (u32 (base_addr + npg_align - 1) / npg_align * npg_align) in
        vm_aspace_create_mapping_exactly j mm base_addr size
    end.

Definition vm_aspace_delete_mapping (tmp mm m : Z) : M maps unit :=
  ok ← remove_mapping_from_aspace tmp mm m;
  if ok : bool then free_mapping m else panic.

(** [key]: where the dummy mapping is. *)
Definition vm_aspace_get_mapping (key mm vaddr : Z) : M maps (Z * option Z) :=
  v ← ld_map mm;
  if (vaddr <? mm_base v) || (u32 (mm_base v + mm_size v - 1) <? vaddr) then mret (ERR_VM_BAD_ADDRESS, None)
  else
    rg ← gets (λ s, ranges_key (ms_mappings s) key vaddr);
    r ← on_tree (@avl_tree_find (mapping_client rg) (mappings_tree mm) key);
    if r.1 =? NULL then mret (ERR_VM_NO_MAPPING, Some NULL) else mret (NO_ERROR, Some r.1).
End maps.
