(* ===== verification/MemoryMapSpec.v ===== *)
(** * The invariant of memory maps

    Each map has its mappings in a list and in a tree, both in the order of their addresses,
    and no two of them overlap. What the routines on single mappings do to the invariant. *)

From stdpp Require Import gmap list sorting.
From S2P Require Import Prelude XList AvlTree AvlTreeSpec AvlSet AvlRemove AvlOrdered AvlIndex Alloc MemoryMap.
#[local] Open Scope Z_scope.

(** ** The order of mappings *)

(** Whole ranges compare as ranges do; ranges that overlap compare as equal. *)
Lemma mapping_order rg : (∀ m, (rg m).1 ≤ (rg m).2) → AvlOrder (mapping_client rg).
Proof.
  intros Hr. split; simpl; unfold compare_mapping.
  - intros. repeat case_match; lia.
  - intros v w. pose proof (Hr v). pose proof (Hr w). repeat case_match; bool_to_prop; lia.
  - intros u v w. pose proof (Hr u). pose proof (Hr v). pose proof (Hr w).
    repeat case_match; bool_to_prop; lia.
Qed.

Definition before_range (r1 r2 : Z * Z) : Prop := r1.2 < r2.1.

Definition overlap (r1 r2 : Z * Z) : Prop := r1.1 ≤ r2.2 ∧ r2.1 ≤ r1.2.

#[export] Instance overlap_dec r1 r2 : Decision (overlap r1 r2) := ltac:(unfold overlap; apply _).

Lemma mapping_lt rg v w : (rg v).1 ≤ (rg v).2 → (rg w).1 ≤ (rg w).2 →
  @cmp_lt (mapping_client rg) v w ↔ before_range (rg v) (rg w).
Proof. intros. unfold cmp_lt, before_range. simpl. unfold compare_mapping. repeat case_match; bool_to_prop; lia. Qed.

Lemma mapping_eq rg v w : @avl_compare (mapping_client rg) v w = 0 ↔ overlap (rg v) (rg w).
Proof. unfold overlap. simpl. unfold compare_mapping. repeat case_match; bool_to_prop; lia. Qed.

(** ** Addresses of mappings and of their nodes *)

Definition mapping_ok (m : Z) : Prop := 0 < m ∧ m + sizeof_vm_mapping ≤ 2 ^ 32.

Section addresses.
Context (m : Z) (Hm : mapping_ok m).

Lemma mapping_node_eq : mapping_node m = m + 28.
Proof. destruct Hm. apply uwrap_small. unfold sizeof_vm_mapping in *. lia. Qed.

Lemma obj_list_node_eq : obj_list_node m = m + 52.
Proof. destruct Hm. apply uwrap_small. unfold sizeof_vm_mapping in *. lia. Qed.

Lemma mapping_tree_node_eq : AVL_DATA2NODE m mapping_tree_node = m + 36.
Proof. destruct Hm. apply uwrap_small. unfold sizeof_vm_mapping, mapping_tree_node in *. lia. Qed.

Lemma node_mapping_node : node_mapping (mapping_node m) = m.
Proof.
  rewrite mapping_node_eq. unfold node_mapping. replace (m + 28 - 28) with m by lia.
  destruct Hm. apply uwrap_small. unfold sizeof_vm_mapping in *. lia.
Qed.

Lemma data_mapping_node : data mapping_tree_node (AVL_DATA2NODE m mapping_tree_node) = m.
Proof.
  rewrite mapping_tree_node_eq. unfold data, AVL_NODE2DATA, mapping_tree_node.
  replace (m + 36 - 36) with m by lia. destruct Hm. apply uwrap_small. unfold sizeof_vm_mapping in *. lia.
Qed.

Lemma mapping_node_valid : valid_ptr (mapping_node m).
Proof. rewrite mapping_node_eq. destruct Hm. unfold valid_ptr, sizeof_vm_mapping in *. lia. Qed.

Lemma mapping_tree_node_valid : valid_ptr (AVL_DATA2NODE m mapping_tree_node).
Proof. rewrite mapping_tree_node_eq. destruct Hm. unfold valid_ptr, sizeof_vm_mapping in *. lia. Qed.

Lemma mapping_not_null : m ≠ NULL.
Proof. destruct Hm. unfold NULL. lia. Qed.
End addresses.

Lemma mapping_node_inj m m' : mapping_ok m → mapping_ok m' → mapping_node m = mapping_node m' → m = m'.
Proof. intros. rewrite !mapping_node_eq in * by done. lia. Qed.

Lemma tree_node_inj m m' : mapping_ok m → mapping_ok m' →
  AVL_DATA2NODE m mapping_tree_node = AVL_DATA2NODE m' mapping_tree_node → m = m'.
Proof. intros. rewrite !mapping_tree_node_eq in * by done. lia. Qed.

Lemma mapping_nodes_notin m l : mapping_ok m → Forall mapping_ok l → m ∉ l → mapping_node m ∉ map mapping_node l.
Proof.
  intros Hm Hl Hn (m' & E & Hin)%list_elem_of_fmap. apply Hn.
  rewrite (mapping_node_inj m m'); [done|done|by apply (proj1 (Forall_forall _ _) Hl)|done].
Qed.

(** The maps are apart as well. *)
Definition map_addr (mm : Z) : Prop := 0 < mm ∧ mm + 48 ≤ 2 ^ 32.

Lemma mappings_list_inj mm mm' : map_addr mm → map_addr mm' → mappings_list mm = mappings_list mm' → mm = mm'.
Proof. intros [] []. unfold mappings_list. rewrite !uwrap_small; lia. Qed.

Lemma mappings_tree_inj mm mm' : map_addr mm → map_addr mm' → mappings_tree mm = mappings_tree mm' → mm = mm'.
Proof. intros [] []. unfold mappings_tree. rewrite !uwrap_small; lia. Qed.

Lemma mappings_tree_not_null mm : map_addr mm → mappings_tree mm ≠ NULL.
Proof. intros []. unfold mappings_tree, NULL. rewrite uwrap_small; lia. Qed.

(** ** The invariant *)

Section spec.
Context {A : Allocator} {L : AllocLaws A}.
Implicit Types s : maps.

Abbreviation client s := (mapping_client (ranges_of (ms_mappings s))).

(** The map at [mm] holds the mappings [l]; the mappings [lone] are in no map yet, or no more. *)
Record map_ok (s : maps) (lone : gset Z) (mm : Z) (v : memory_map) (l : list Z) : Prop := {
  mo_map : ms_maps s !! mm = Some v;
  mo_list : is_xlist (ms_lists s) (mappings_list mm) (map mapping_node l);
  mo_tree : @is_aset (client s) (ms_tree s) (mappings_tree mm) mapping_tree_node l;
  mo_in m : m ∈ l ↔ m ∉ lone ∧ ∃ r, ms_mappings s !! m = Some r ∧ mp_mmap r = mm }.

(** The nodes of a mapping are there. *)
Definition has_nodes (s : maps) (m : Z) : Prop :=
  mapping_node m ∈ dom (nodes (ms_lists s)) ∧ obj_list_node m ∈ dom (nodes (ms_olists s)) ∧
  AVL_DATA2NODE m mapping_tree_node ∈ dom (anodes (ms_tree s)).

(** [M]: the maps and their mappings; [live]: the blocks in use. *)
Record maps_ok (s : maps) (M : gmap Z (list Z)) (live lone : gset Z) : Prop := {
  ok_map mm l : M !! mm = Some l → map_addr mm ∧ ∃ v, map_ok s lone mm v l;
  ok_mapping m r : ms_mappings s !! m = Some r →
    mapping_ok m ∧ 0 ≤ mp_start r ≤ mp_end r ∧ mp_end r < 2 ^ 32 ∧ mp_mmap r ∈ dom M ∧ has_nodes s m;
  ok_heap : al_live (ms_heap s) live;
  ok_live : dom (ms_mappings s) ⊆ live }.

Lemma ranges_of_lookup ms m r : ms !! m = Some r → ranges_of ms m = (mp_start r, mp_end r).
Proof. unfold ranges_of. by intros ->. Qed.

Section ok.
Context {s : maps} {M : gmap Z (list Z)} {live lone : gset Z} (Hs : maps_ok s M live lone).

Lemma ranges_ordered m : (ranges_of (ms_mappings s) m).1 ≤ (ranges_of (ms_mappings s) m).2.
Proof using Hs.
  unfold ranges_of. destruct (ms_mappings s !! m) as [r|] eqn:E; simpl; [|done].
  destruct (ok_mapping _ _ _ _ Hs _ _ E) as (_ & [] & _). done.
Qed.

Lemma maps_order : AvlOrder (client s).
Proof using Hs. apply mapping_order, ranges_ordered. Qed.

Lemma map_mapping_ok mm l m : M !! mm = Some l → m ∈ l → mapping_ok m.
Proof using Hs.
  intros Hm Hin. destruct (ok_map _ _ _ _ Hs _ _ Hm) as (_ & v & Hv).
  apply (mo_in _ _ _ _ _ Hv) in Hin as (_ & r & Hr & _). by apply (ok_mapping _ _ _ _ Hs) in Hr as [].
Qed.

Lemma map_mappings_ok mm l : M !! mm = Some l → Forall mapping_ok l.
Proof using Hs. intros Hm. apply Forall_forall. intros m Hin. by eapply map_mapping_ok. Qed.

(** The ranges of a map follow one another. *)
Lemma map_ranges_sorted mm l : M !! mm = Some l →
  StronglySorted before_range (map (ranges_of (ms_mappings s)) l).
Proof using Hs.
  intros Hm. destruct (ok_map _ _ _ _ Hs _ _ Hm) as (_ & v & Hv).
  pose proof (aset_sorted _ _ _ _ (mo_tree _ _ _ _ _ Hv)) as Hso. clear Hv Hm.
  induction Hso as [|m l Hl IH Hml]; simpl; constructor; [done|].
  apply Forall_map. eapply Forall_impl; [exact Hml|]. intros m' H.
  apply mapping_lt in H; [done|by apply ranges_ordered..].
Qed.

Lemma map_no_null mm l : M !! mm = Some l → NULL ∉ l.
Proof using Hs. intros Hm Hin. by apply (mapping_not_null NULL); [eapply map_mapping_ok|]. Qed.

(** Mappings of one map that overlap are the same. *)
Lemma map_overlap_same mm l m m' : M !! mm = Some l → m ∈ l → m' ∈ l →
  overlap (ranges_of (ms_mappings s) m) (ranges_of (ms_mappings s) m') → m' = m.
Proof using Hs.
  intros Hm Hin Hin' Hov. destruct (ok_map _ _ _ _ Hs _ _ Hm) as (_ & v & Hv). pose proof maps_order.
  eapply (sorted_equal (C := client s) l); [exact (aset_sorted _ _ _ _ (mo_tree _ _ _ _ _ Hv))|done|done|].
  by apply mapping_eq.
Qed.

Lemma map_NoDup mm l : M !! mm = Some l → NoDup l.
Proof using Hs.
  intros Hm. destruct (ok_map _ _ _ _ Hs _ _ Hm) as (_ & v & Hv). pose proof maps_order.
  exact (sorted_NoDup (C := client s) l (aset_sorted _ _ _ _ (mo_tree _ _ _ _ _ Hv))).
Qed.

(** A mapping is in one map. *)
Lemma maps_apart mm mm' l l' m : M !! mm = Some l → M !! mm' = Some l' → m ∈ l → m ∈ l' → mm = mm'.
Proof using Hs.
  intros Hm Hm' H H'. destruct (ok_map _ _ _ _ Hs _ _ Hm) as (_ & v & Hv).
  destruct (ok_map _ _ _ _ Hs _ _ Hm') as (_ & v' & Hv').
  apply (mo_in _ _ _ _ _ Hv) in H as (_ & r & Hr & <-). apply (mo_in _ _ _ _ _ Hv') in H' as (_ & r' & Hr' & <-).
  congruence.
Qed.
End ok.

(** ** Steps on the list and the tree of one map *)

(** A change of map [mm] to the mappings [l'] leaves the others alone; what it may touch are
    the nodes of the mappings [es]. *)
Lemma maps_ok_change s M live lone mm l l' es x t lone' :
  maps_ok s M live lone → M !! mm = Some l →
  is_xlist x (mappings_list mm) (map mapping_node l') →
  xframe (ms_lists s) x (mappings_list mm) (map mapping_node es) →
  @is_aset (client s) t (mappings_tree mm) mapping_tree_node l' →
  aframe mapping_tree_node (ms_tree s) (mappings_tree mm) es t →
  Forall mapping_ok es →
  (∀ m, m ∈ es → m ∈ l ∨ m ∈ lone) →
  (∀ m, m ∈ lone ∪ lone' → ∃ r, ms_mappings s !! m = Some r ∧ mp_mmap r = mm) →
  (∀ m, m ∈ l' ↔ m ∉ lone' ∧ ∃ r, ms_mappings s !! m = Some r ∧ mp_mmap r = mm) →
  maps_ok (upd_lists x (upd_tree t s)) (<[mm := l']> M) live lone'.
Proof.
  intros Hs Hm Hx Hxf Ht Htf Hes Hin Hlone Hl'. destruct (ok_map _ _ _ _ Hs _ _ Hm) as (Ha & v & Hv).
  split.
  - intros mm' l2. destruct (decide (mm' = mm)) as [->|Hne].
    + rewrite lookup_insert_eq. intros [= <-]. split; [done|]. exists v. split; [apply Hv|done|done|done].
    + rewrite lookup_insert_ne by done. intros Hm'.
      destruct (ok_map _ _ _ _ Hs _ _ Hm') as (Ha' & v' & Hv'). split; [done|]. exists v'.
      assert (∀ m, m ∈ l2 → m ∈ es → False) as Hap.
      { intros m Hm2 [Hm1|Hm1]%Hin; [by apply Hne; eapply (maps_apart Hs mm' mm)|].
        apply (mo_in _ _ _ _ _ Hv') in Hm2 as [Hm2 _]. done. }
      assert (Forall mapping_ok l2) as Hok by by eapply map_mappings_ok.
      split; [apply Hv'| | |].
      * eapply is_xlist_frame; [exact Hxf|by intros E%mappings_list_inj| |apply Hv'].
        intros n (m & -> & Hm2)%list_elem_of_fmap. apply mapping_nodes_notin; [|done|by intros ?; eapply Hap].
        by apply (proj1 (Forall_forall _ _) Hok).
      * eapply aset_apart; [exact Htf|by intros E%mappings_tree_inj| |apply Hv'].
        intros m w Hm2 Hw E. apply (Hap m); [done|]. rewrite (tree_node_inj m w); [done| | |done].
        -- by apply (proj1 (Forall_forall _ _) Hok).
        -- by apply (proj1 (Forall_forall _ _) Hes).
      * intros m. rewrite (mo_in _ _ _ _ _ Hv'). cbn [upd_lists upd_tree ms_mappings].
        split; intros (Hn & r & Hr & Er); (split; [|by exists r]); intros Hlo;
          destruct (Hlone m) as (r' & Hr' & Er'); try set_solver; congruence.
  - intros m r Hr. apply (ok_mapping _ _ _ _ Hs) in Hr as (? & ? & ? & ? & Hn). split_and!; try done; try lia.
    + rewrite dom_insert_L. set_solver.
    + destruct Hn as (? & ? & ?). split_and!; cbn [upd_lists upd_tree ms_lists ms_olists ms_tree];
        [by rewrite (xf_dom _ _ _ _ Hxf)|done|by rewrite (af_dom _ _ _ _ _ Htf)].
  - apply Hs.
  - apply Hs.
Qed.

(** Putting a mapping that is in no map into the map it says. *)
Lemma wp_put_mapping s M live mm l m r (Q : bool → maps → Prop) :
  maps_ok s M live {[m]} → M !! mm = Some l → ms_mappings s !! m = Some r → mp_mmap r = mm →
  (∀ m', m' ∈ l → overlap (range r) (ranges_of (ms_mappings s) m') → Q false s) →
  (∀ l1 l2 s', l = l1 ++ l2 →
     Forall (λ m', ¬ overlap (range r) (ranges_of (ms_mappings s) m')) l →
     maps_ok s' (<[mm := l1 ++ m :: l2]> M) live ∅ →
     ms_mappings s' = ms_mappings s → ms_maps s' = ms_maps s → Q true s') →
  wp (put_mapping_to_aspace mm m) s Q.
Proof.
  intros Hs Hm Hr Er Hfull Hput. destruct (ok_map _ _ _ _ Hs _ _ Hm) as (Ha & v & Hv).
  pose proof (maps_order Hs) as Ho. pose proof (map_mappings_ok Hs _ _ Hm) as Hok.
  destruct (ok_mapping _ _ _ _ Hs _ _ Hr) as (Hmo & _ & _ & _ & Hn1 & _ & Hn3).
  assert (m ∉ l) as Hnl by (rewrite (mo_in _ _ _ _ _ Hv); set_solver +).
  assert (range r = ranges_of (ms_mappings s) m) as Erg by (unfold ranges_of; by rewrite Hr).
  unfold put_mapping_to_aspace. wp_go. eapply wp_find_index; [apply Hv|..].
  { intros m' ix Hin H0 E. cbn [fst]. rewrite (proj2 (Z.eqb_neq m' NULL)) by done. wp_go.
    rewrite Erg in Hfull. apply mapping_eq in E. destruct s. by eapply Hfull. }
  intros l1 l2 ix El Hl1 Hl2 Hpl. cbn [fst snd]. rewrite Z.eqb_refl. cbn [negb]. wp_go.
  subst l. eapply (wp_insert_place (C := client s) _ _ _ l1 l2 ix m); [by apply mappings_tree_not_null|by eapply map_no_null|exact Hpl|..].
  { split_and!; [by apply mapping_not_null|by apply mapping_tree_node_valid|by apply data_mapping_node|exact Hn3]. }
  intros t Ht Htf.
  assert (Forall (λ m', ¬ overlap (range r) (ranges_of (ms_mappings s) m')) (l1 ++ l2)) as Hno.
  { rewrite Erg. apply Forall_forall. intros m' Hin Hov. apply mapping_eq in Hov.
    apply elem_of_app in Hin as [Hin|Hin].
    - apply (proj1 (Forall_forall _ _) Hl1) in Hin. unfold cmp_lt in Hin.
      pose proof (cmp_flip (C := client s) m' m). simpl in *. lia.
    - apply (proj1 (Forall_forall _ _) Hl2) in Hin. unfold cmp_lt in Hin. simpl in *. lia. }
  assert (∀ x, is_xlist x (mappings_list mm) (map mapping_node (l1 ++ m :: l2)) →
    xframe (ms_lists s) x (mappings_list mm) (map mapping_node (m :: l1 ++ l2)) →
    Q true (upd_lists x (upd_tree t s))) as HQ.
  { intros x Hx Hxf. apply (Hput l1 l2); try done.
    eapply (maps_ok_change s M live {[m]} mm (l1 ++ l2)); try done.
    - by constructor.
    - intros m' [->|?]%elem_of_cons; [right|left]; set_solver.
    - intros m' Hm'. assert (m' = m) as -> by set_solver. by exists r.
    - intros m'. rewrite elem_of_app, elem_of_cons. split.
      + intros Hin. split; [set_solver|]. assert (m' = m ∨ m' ∈ l1 ++ l2) as [->|Hin'] by set_solver; [by exists r|].
        by apply (mo_in _ _ _ _ _ Hv) in Hin' as [_ ?].
      + intros [_ H]. destruct (decide (m' = m)) as [->|Hne]; [by right; left|].
        assert (m' ∈ l1 ++ l2) as Hin by (apply (mo_in _ _ _ _ _ Hv); split; [set_solver|done]). set_solver. }
  pose proof (mo_list _ _ _ _ _ Hv) as Hx. rewrite !map_app in *. simpl in HQ. rewrite map_app in HQ.
  apply (mapping_nodes_notin m (l1 ++ l2) Hmo Hok) in Hnl. rewrite map_app in Hnl.
  apply elem_of_dom in Hn1. pose proof (mapping_node_valid m Hmo) as Hvm.
  destruct (place_parent _ _ _ _ _ _ _ Hpl) as [(E & -> & ->)|[(E & p & l & -> & Hvx & Hp)|(E & p & l & -> & Hvx & Hp)]].
  - rewrite E, Z.eqb_refl. wp_go. cbn [ms_lists upd_tree]. eapply wp_xlist_add_first; [exact Hx|done..|].
    intros x Hx' Hxf. wp_go. by apply HQ.
  - rewrite (valid_ptr_nonnull _ Hvx), E, Z.eqb_refl. unfold tree_mapping. change (u32 _) with (data mapping_tree_node (ix_node ix)).
    rewrite Hp. wp_go. cbn [ms_lists upd_tree].
    eapply wp_xlist_insert_before_unsafe; [exact Hx|done..|]. intros x Hx' Hxf. wp_go. by apply HQ.
  - rewrite (valid_ptr_nonnull _ Hvx), E. unfold tree_mapping. change (u32 _) with (data mapping_tree_node (ix_node ix)).
    rewrite Hp. change (1 =? 0) with false. cbv iota. wp_go. cbn [ms_lists upd_tree]. simpl in Hx. rewrite !map_app in *. cbn [map] in *.
    rewrite <- !app_assoc in *. cbn [app] in *.
    eapply wp_xlist_insert_after_unsafe; [exact Hx|done..|]. intros x Hx' Hxf. wp_go. by apply HQ.
Qed.

(** Taking a mapping out of its map. *)
Lemma wp_remove_mapping s M live mm l m tmp (Q : bool → maps → Prop) :
  maps_ok s M live ∅ → M !! mm = Some l → m ∈ l →
  tmp ∉ dom (anodes (ms_tree s)) → valid_ptr tmp →
  (∀ s', maps_ok s' (<[mm := without m l]> M) live {[m]} →
     ms_mappings s' = ms_mappings s → ms_maps s' = ms_maps s →
     dom (anodes (ms_tree s')) = dom (anodes (ms_tree s)) → Q true s') →
  wp (remove_mapping_from_aspace tmp mm m) s Q.
Proof.
  intros Hs Hm Hin Htmp Hvt HQ. destruct (ok_map _ _ _ _ Hs _ _ Hm) as (Ha & v & Hv).
  pose proof (maps_order Hs) as Ho. pose proof (map_mappings_ok Hs _ _ Hm) as Hok.
  pose proof (map_mapping_ok Hs _ _ _ Hm Hin) as Hmo.
  destruct (proj1 (mo_in _ _ _ _ _ Hv m) Hin) as (_ & r & Hr & Er).
  unfold remove_mapping_from_aspace. wp_go. eapply (remove_aset (C := client s)); [apply Hv|done|done|].
  intros t. unfold remove. rewrite decide_True by done. cbn [fst snd]. intros Ht Htf.
  rewrite (proj2 (Z.eqb_neq m NULL)) by by apply mapping_not_null. wp_go. cbn [ms_lists upd_tree].
  pose proof (mo_list _ _ _ _ _ Hv) as Hx. pose proof (aset_sorted _ _ _ _ (mo_tree _ _ _ _ _ Hv)) as Hso.
  apply sorted_NoDup in Hso. apply list_elem_of_split in Hin as (l1 & l2 & ->).
  rewrite without_middle in * by done. rewrite map_app in Hx. simpl in Hx.
  eapply wp_xlist_remove_in; [exact Hx|]. intros x Hx' Hxf _. wp_go. cbn [negb].
  pose proof Hso as (_ & Hn1 & Hn2)%NoDup_middle.
  assert (dom (anodes t) = dom (anodes (ms_tree s))) as Hd by apply Htf.
  apply HQ; [|done..].
  eapply (maps_ok_change s M live ∅ mm (l1 ++ m :: l2)); try done.
  - by rewrite map_app.
  - by rewrite map_app.
  - by left.
  - intros m' Hm'. assert (m' = m) as -> by set_solver. by exists r.
  - intros m'. pose proof (mo_in _ _ _ _ _ Hv m') as Hmi. split.
    + intros Hin. destruct (proj1 Hmi) as [_ ?]; [set_solver|]. split; [|done]. intros ->%elem_of_singleton.
      apply elem_of_app in Hin as [?|?]; done.
    + intros [Hne H]. assert (m' ∈ l1 ++ m :: l2) as Hin by (apply Hmi; split; [set_solver|done]). set_solver.
Qed.

(** A mapping in no map goes back to the allocator. *)
Lemma wp_free_mapping s M live m (Q : unit → maps → Prop) :
  maps_ok s M live {[m]} → m ∈ dom (ms_mappings s) →
  (∀ s', maps_ok s' M (live ∖ {[m]}) ∅ → ms_mappings s' = delete m (ms_mappings s) → ms_maps s' = ms_maps s →
     dom (anodes (ms_tree s')) ⊆ dom (anodes (ms_tree s)) → Q tt s') →
  wp (free_mapping m) s Q.
Proof.
  intros Hs Hd HQ. apply elem_of_dom in Hd as Hr. destruct Hr as [r Hr].
  destruct (ok_mapping _ _ _ _ Hs _ _ Hr) as (Hmo & _).
  unfold free_mapping. wp_go. eapply al_free_ok; [apply Hs|by apply (ok_live _ _ _ _ Hs)|]. intros h Hh. wp_go.
  apply HQ; [|done|done|simpl; rewrite dom_delete_L; set_solver +]. split.
  - intros mm l Hm. destruct (ok_map _ _ _ _ Hs _ _ Hm) as (Ha & v & Hv). split; [done|]. exists v.
    assert (m ∉ l) as Hnl by (rewrite (mo_in _ _ _ _ _ Hv); set_solver +).
    pose proof (map_mappings_ok Hs _ _ Hm) as Hok. split; cbn [drop_object upd_heap ms_maps ms_lists ms_tree ms_mappings].
    + apply Hv.
    + destruct (mo_list _ _ _ _ _ Hv) as [Hh' Hsg Hnd Hvd]. split; [done| |done..]. cbn [nodes].
      eapply seg_frame; [|exact Hsg]. intros n Hn. apply lookup_delete_ne. intros <-.
      by apply (mapping_nodes_notin m l) in Hn.
    + eapply (aset_client (client s)); [|eapply aset_frame; [apply (mo_tree _ _ _ _ _ Hv)|done|]].
      * intros v1 v2 Hv1 Hv2. simpl. unfold compare_mapping, ranges_of. by rewrite !lookup_delete_ne by (by intros ->).
      * intros w Hw. cbn [anodes]. apply lookup_delete_ne. intros E. apply Hnl.
        rewrite (tree_node_inj m w); [done|done|by apply (proj1 (Forall_forall _ _) Hok)|done].
    + intros m'. rewrite (mo_in _ _ _ _ _ Hv). destruct (decide (m' = m)) as [->|Hne].
      * rewrite lookup_delete_eq. set_solver.
      * rewrite lookup_delete_ne by done. set_solver.
  - intros m' r'. cbn [drop_object upd_heap ms_mappings]. intros [Hne Hr']%lookup_delete_Some.
    destruct (ok_mapping _ _ _ _ Hs _ _ Hr') as (Hmo' & ? & ? & ? & Hn1 & Hn2 & Hn3). split_and!; try done; try lia.
    assert (mapping_node m' ≠ mapping_node m ∧ obj_list_node m' ≠ obj_list_node m ∧
      AVL_DATA2NODE m' mapping_tree_node ≠ AVL_DATA2NODE m mapping_tree_node) as (? & ? & ?).
    { rewrite !mapping_node_eq, !obj_list_node_eq, !mapping_tree_node_eq by done. lia. }
    unfold has_nodes. simpl. rewrite !dom_delete_L. set_solver.
  - exact Hh.
  - cbn [drop_object upd_heap ms_mappings]. rewrite dom_delete_L. pose proof (ok_live _ _ _ _ Hs). set_solver.
Qed.

(** A new mapping, in no map yet. *)
Lemma add_object_ok s M live h m j r :
  maps_ok s M live ∅ → al_live h ({[m]} ∪ live) → m ∉ live → mapping_ok m →
  0 ≤ mp_start r ≤ mp_end r → mp_end r < 2 ^ 32 → mp_mmap r ∈ dom M →
  maps_ok (add_object j m r (upd_heap h s)) M ({[m]} ∪ live) {[m]}.
Proof.
  intros Hs Hh Hml Hmo Hr1 Hr2 Hrm. assert (m ∉ dom (ms_mappings s)) as Hmd by by intros ?%(ok_live _ _ _ _ Hs).
  split.
  - intros mm l Hm. destruct (ok_map _ _ _ _ Hs _ _ Hm) as (Ha & v & Hv). split; [done|]. exists v.
    pose proof (map_mappings_ok Hs _ _ Hm) as Hok.
    assert (m ∉ l) as Hnl.
    { intros (_ & r' & Hr' & _)%(mo_in _ _ _ _ _ Hv). by apply elem_of_dom_2 in Hr'. }
    split; cbn [add_object upd_heap ms_maps ms_lists ms_tree ms_mappings].
    + apply Hv.
    + destruct (mo_list _ _ _ _ _ Hv) as [Hh' Hsg Hnd Hvd]. split; [done| |done..]. cbn [nodes].
      eapply seg_frame; [|exact Hsg]. intros n Hn. apply lookup_insert_ne. intros <-.
      by apply (mapping_nodes_notin m l) in Hn.
    + eapply (aset_client (client s)); [|eapply aset_frame; [apply (mo_tree _ _ _ _ _ Hv)|done|]].
      * intros v1 v2 Hv1 Hv2. simpl. unfold compare_mapping, ranges_of. by rewrite !lookup_insert_ne by (by intros ->).
      * intros w Hw. cbn [anodes]. apply lookup_insert_ne. intros E. apply Hnl.
        rewrite (tree_node_inj m w); [done|done|by apply (proj1 (Forall_forall _ _) Hok)|done].
    + intros m'. rewrite (mo_in _ _ _ _ _ Hv). destruct (decide (m' = m)) as [->|Hne].
      * apply not_elem_of_dom in Hmd. rewrite Hmd. split; [by intros (_ & ? & ? & _)|set_solver +].
      * rewrite lookup_insert_ne by done. set_solver.
  - intros m' r'. cbn [add_object upd_heap ms_mappings]. unfold has_nodes. simpl. rewrite !dom_insert_L.
    intros [[<- <-]|[Hne Hr']]%lookup_insert_Some; [split_and!; try done; try lia; set_solver +|].
    destruct (ok_mapping _ _ _ _ Hs _ _ Hr') as (Hmo' & ? & ? & ? & Hn1 & Hn2 & Hn3). split_and!; try done; try lia; set_solver.
  - exact Hh.
  - cbn [add_object upd_heap ms_mappings]. rewrite dom_insert_L. pose proof (ok_live _ _ _ _ Hs). set_solver.
Qed.

(** The allocation and the initial stores. *)
Lemma wp_new_mapping {B} s (M : gmap Z (list Z)) live j r (f : Z → Prelude.M maps B) (Q : B → maps → Prop) :
  maps_ok s M live ∅ → al_room (ms_heap s) sizeof_vm_mapping →
  0 ≤ mp_start r ≤ mp_end r → mp_end r < 2 ^ 32 → mp_mmap r ∈ dom M →
  (∀ m s', maps_ok s' M ({[m]} ∪ live) {[m]} → m ∉ live → ms_mappings s' = <[m := r]> (ms_mappings s) →
     ms_maps s' = ms_maps s → wp (f m) s' Q) →
  wp (m ← zoom ms_heap upd_heap (al_alloc sizeof_vm_mapping);
      if m =? NULL then panic
      else
        modify (add_object j m r);;
        zoom ms_lists upd_lists (xlist_elem_init (mapping_node m));;
        zoom ms_olists upd_olists (xlist_elem_init (obj_list_node m));; f m) s Q.
Proof.
  intros Hs Hroom Hr1 Hr2 Hrm HQ. wp_go. eapply al_alloc_ok; [apply Hs|done|done|].
  intros m h Hml Hpos Hsz Hh. assert (mapping_ok m) as Hmo by done.
  rewrite (proj2 (Z.eqb_neq m NULL)) by by apply mapping_not_null. wp_go.
  apply wp_xlist_elem_init; [simpl; set_solver +|]. wp_go. apply wp_xlist_elem_init; [simpl; set_solver +|].
  set (s1 := upd_olists _ _).
  assert (s1 = add_object (MJunk (ListElem NULL NULL) (ListElem NULL NULL) (junk_tree_node j)) m r (upd_heap h s)) as ->.
  { unfold s1, upd_olists, upd_lists, add_object, upd_heap. simpl. by rewrite !insert_insert_eq. }
  apply HQ; [by apply add_object_ok|done..].
Qed.
End spec.
