(* ===== verification/MemoryMapProps.v ===== *)
(** * The contract of memory maps

    What creating, finding and deleting mappings does, on every branch, and the choice of a
    gap; a concrete map for the examples. *)

From stdpp Require Import gmap list sorting.
From S2P Require Import Prelude XList AvlTree AvlTreeSpec AvlSet AvlOrdered AvlIndex HeapSpec Alloc MemoryMap MemoryMapSpec.
#[local] Open Scope Z_scope.

(** The range of a mapping of [size] bytes at [base]. *)
Definition at_base (base size : Z) : Z * Z := (base, base + size - 1).

Section props.
Context {A : Allocator} {L : AllocLaws A}.
Implicit Types s : maps.

Abbreviation ranges s := (ranges_of (ms_mappings s)).

(** ** Creation at an address *)

Definition args_ok (v : memory_map) (base size : Z) : Prop := mm_base v ≤ base ∧ 0 < size ≤ mm_size v.

Definition hole (mm base size : Z) : mapping := Mapping base (base + size - 1) mm NULL 0 VM_MAPPING_TYPE_HOLE 0.

(** [m] is created at [base] between the mappings of the map. *)
Definition created s (M : gmap Z (list Z)) live mm base size m s' : Prop :=
  m ∉ live ∧ ms_mappings s' = <[m := hole mm base size]> (ms_mappings s) ∧ ms_maps s' = ms_maps s ∧
  ∃ l1 l2, M !! mm = Some (l1 ++ l2) ∧ maps_ok s' (<[mm := l1 ++ m :: l2]> M) ({[m]} ∪ live) ∅.

Lemma wp_create_exactly s (M : gmap Z (list Z)) live mm v l base size j (Q : Z * option Z → maps → Prop) :
  maps_ok s M live ∅ → M !! mm = Some l → ms_maps s !! mm = Some v →
  args_ok v base size → 0 ≤ base → base + size ≤ 2 ^ 32 → al_room (ms_heap s) sizeof_vm_mapping →
  (∀ m s', Exists (λ m', overlap (at_base base size) (ranges s m')) l →
     maps_ok s' M live ∅ → ms_mappings s' = ms_mappings s → ms_maps s' = ms_maps s →
     Q (ERR_VM_BAD_ADDRESS, Some m) s') →
  (∀ m s', Forall (λ m', ¬ overlap (at_base base size) (ranges s m')) l →
     created s M live mm base size m s' → Q (NO_ERROR, Some m) s') →
  wp (vm_aspace_create_mapping_exactly j mm base size) s Q.
Proof.
  intros Hs Hm Hv [Hb Hz] H0 Hsz Hroom Hbad Hgood. unfold vm_aspace_create_mapping_exactly.
  wp_go. eapply wp_load; [exact Hv|].
  rewrite (proj2 (Z.ltb_ge _ _)), (proj2 (Z.ltb_ge _ _)), (proj2 (Z.eqb_neq _ _)) by lia. cbn [orb].
  rewrite uwrap_small by lia. change (Mapping base _ mm NULL 0 VM_MAPPING_TYPE_HOLE 0) with (hole mm base size).
  eapply wp_new_mapping; [exact Hs|done|simpl; lia|simpl; lia|by apply elem_of_dom_2 in Hm|].
  intros m s1 Hs1 Hml Em1 Ev1. assert (ms_mappings s1 !! m = Some (hole mm base size)) as Hr
    by by rewrite Em1, lookup_insert_eq.
  assert (∀ m', m' ∈ l → ranges s1 m' = ranges s m') as Hrg.
  { intros m' Hin. destruct (ok_map _ _ _ _ Hs _ _ Hm) as (_ & v' & Hv').
    apply (mo_in _ _ _ _ _ Hv') in Hin as (_ & r & Hr' & _).
    unfold ranges_of. rewrite Em1, lookup_insert_ne; [done|]. intros <-.
    apply Hml, (ok_live _ _ _ _ Hs). by apply elem_of_dom_2 in Hr'. }
  wp_go. eapply wp_put_mapping; [exact Hs1|exact Hm|exact Hr|done|..].
  - intros m' Hin Hov. wp_go. eapply wp_free_mapping; [exact Hs1|by apply elem_of_dom_2 in Hr|].
    intros s2 Hs2 Em2 Ev2 _. wp_go. apply Hbad; [| | |by rewrite Ev2].
    + apply Exists_exists. exists m'. split; [done|]. by rewrite <- Hrg.
    + by replace (({[m]} ∪ live) ∖ {[m]}) with live in Hs2 by set_solver.
    + rewrite Em2, Em1. apply delete_insert_id. by apply not_elem_of_dom; intros ?%(ok_live _ _ _ _ Hs).
  - intros l1 l2 s2 -> Hno Hs2 Em2 Ev2. wp_go. apply Hgood.
    + apply Forall_forall. intros m' Hin. rewrite <- Hrg by done. by apply (proj1 (Forall_forall _ _) Hno).
    + split_and!; [done|by rewrite Em2|by rewrite Ev2|]. by exists l1, l2.
Qed.

(** ** Gaps *)

(** The map lies in the address space of the machine, and the mappings in the map. *)
Definition map_within s (v : memory_map) (l : list Z) : Prop :=
  0 ≤ mm_base v ∧ 0 < mm_size v ∧ mm_base v + mm_size v ≤ 2 ^ 32 ∧
  Forall (λ m, mm_base v ≤ (ranges s m).1 ∧ (ranges s m).2 < mm_base v + mm_size v) l.

(** [size] bytes at [a] in the map are free. *)
Definition free_at s (v : memory_map) (l : list Z) (size a : Z) : Prop :=
  mm_base v ≤ a ∧ a + size ≤ mm_base v + mm_size v ∧
  Forall (λ m, ¬ overlap (at_base a size) (ranges s m)) l.

(** The first free place. *)
Definition first_fit s (v : memory_map) (l : list Z) (size : Z) (r : option Z) : Prop :=
  match r with
  | Some g => free_at s v l size g ∧ ∀ a, free_at s v l size a → g ≤ a
  | None => ∀ a, ¬ free_at s v l size a
  end.

(** The walk over the ranges: the start of a gap, or the end of the last range. *)
Fixpoint walk_gap (start size : Z) (rs : list (Z * Z)) : Z + Z :=
  match rs with
  | [] => inr start
  | r :: rs => if size <=? r.1 - start then inl start else walk_gap (r.2 + 1) size rs
  end.

Definition next_gap (start limit size : Z) (rs : list (Z * Z)) : option Z :=
  match walk_gap start size rs with
  | inl g => Some g
  | inr e => if size <=? limit - e then Some e else None
  end.

Lemma next_gap_first rs : ∀ start limit size, 0 < size →
  StronglySorted before_range rs → Forall (λ r, r.1 ≤ r.2) rs →
  Forall (λ r, start ≤ r.1 ∧ r.2 < limit) rs → start ≤ limit →
  let fits a := start ≤ a ∧ a + size ≤ limit ∧ Forall (λ r, ¬ overlap (at_base a size) r) rs in
  match next_gap start limit size rs with
  | Some g => fits g ∧ ∀ a, fits a → g ≤ a
  | None => ∀ a, ¬ fits a
  end.
Proof.
  induction rs as [|[b e] rs IH]; intros start limit size Hz Hso Hr Hin Hl fits; unfold next_gap.
  { simpl. destruct (Z.leb_spec size (limit - start)); unfold fits.
    - split; [|by intros a (? & _)]. split_and!; [lia|lia|constructor].
    - intros a (? & ? & _). lia. }
  apply StronglySorted_inv in Hso as [Hso Hbe].
  inversion Hin as [|? ? [Hb He] Hin']; subst. inversion Hr as [|? ? Hber Hr']; subst. simpl in *.
  destruct (Z.leb_spec size (b - start)) as [Hsz|Hsz].
  { split; [|by intros a (? & _)]. unfold fits, overlap, at_base. simpl. split_and!; [lia|lia|].
    constructor; [simpl; lia|]. eapply Forall_impl; [exact Hbe|]. unfold before_range. intros [b' e']. simpl. lia. }
  specialize (IH (e + 1) limit size Hz Hso Hr').
  assert (Forall (λ r, e + 1 ≤ r.1 ∧ r.2 < limit) rs) as Hin2.
  { apply Forall_forall. intros r Hir. apply (proj1 (Forall_forall _ _) Hbe) in Hir as H1.
    apply (proj1 (Forall_forall _ _) Hin') in Hir as H2. unfold before_range in H1. simpl in H1. lia. }
  specialize (IH Hin2 ltac:(lia)). cbv zeta in IH.
  assert (∀ a, fits a ↔ e + 1 ≤ a ∧ a + size ≤ limit ∧ Forall (λ r, ¬ overlap (at_base a size) r) rs) as Hf.
  { intros a. unfold fits. rewrite Forall_cons. unfold overlap at 1, at_base. simpl. split; intros; split_and!; try tauto; lia. }
  fold (next_gap (e + 1) limit size rs). destruct (next_gap (e + 1) limit size rs) as [g|].
  - destruct IH as [IH1 IH2]. split; [by apply Hf|]. intros a Ha%Hf. by apply IH2.
  - intros a Ha%Hf. by apply (IH a).
Qed.

(** The walk ends after the last range. *)
Lemma walk_gap_end size limit rs : ∀ start e,
  Forall (λ r, start ≤ r.1 ∧ r.1 ≤ r.2 ∧ r.2 < limit) rs → StronglySorted before_range rs →
  walk_gap start size rs = inr e → (rs = [] ∧ e = start) ∨ start < e ≤ limit.
Proof.
  induction rs as [|r rs IH]; simpl; intros start e Hr Hso; [intros [= <-]; by left|].
  destruct (Z.leb_spec size (r.1 - start)); [done|]. apply Forall_cons in Hr as [Hr1 Hr].
  apply StronglySorted_inv in Hso as [Hso Hbe]. intros [[_ ->]|He]%IH; [right; lia|right; lia| |done].
  apply Forall_forall. intros r' Hin. apply (proj1 (Forall_forall _ _) Hr) in Hin as H1.
  apply (proj1 (Forall_forall _ _) Hbe) in Hin as H2. unfold before_range in H2. lia.
Qed.

Lemma wp_gap_loop s size limit l : ∀ p fuel start (Q : Z + Z → maps → Prop),
  seg (nodes (ms_lists s)) p (map mapping_node l) NULL →
  Forall mapping_ok l → Forall (λ m, m ∈ dom (ms_mappings s)) l →
  Forall (λ r, 0 ≤ start ≤ r.1 ∧ r.1 ≤ r.2 ∧ r.2 < limit) (map (ranges s) l) →
  StronglySorted before_range (map (ranges s) l) → limit ≤ 2 ^ 32 → (length l < fuel)%nat →
  Q (match walk_gap start size (map (ranges s) l) with inl g => inl g | inr e => inr (u32 e) end) s →
  wp (gap_loop fuel (head_or NULL (map mapping_node l)) (u32 start) size) s Q.
Proof.
  induction l as [|m l IH]; intros p fuel start Q Hsg Hok Hd Hr Hso Hl Hf HQ;
    (destruct fuel as [|fuel]; [simpl in *; lia|]).
  { simpl. by wp_go. }
  apply Forall_cons in Hok as [Hm Hok]. apply Forall_cons in Hd as [[r Hmr]%elem_of_dom Hd].
  simpl in Hr, Hso, Hsg, HQ. apply Forall_cons in Hr as [Hr1 Hr]. apply StronglySorted_inv in Hso as [Hso Hbe].
  destruct Hsg as [Hn Hsg]. rewrite (ranges_of_lookup _ _ _ Hmr) in *. simpl in Hr1, HQ.
  cbn [gap_loop map head_or].
  rewrite (valid_ptr_nonnull _ (mapping_node_valid m Hm)), node_mapping_node by done.
  wp_go. eapply wp_load; [exact Hmr|].
  assert (u32 (u32 (mp_start r - 1) - u32 start + 1) = mp_start r - start) as ->.
  { rewrite (uwrap_small 32 start) by lia.
    replace (u32 (mp_start r - 1) - start + 1) with (u32 (mp_start r - 1) - (start - 1)) by lia.
    rewrite uwrap_sub_l, uwrap_small; lia. }
  destruct (Z.leb_spec size (mp_start r - start)) as [Hz|Hz].
  { wp_go. by rewrite (uwrap_small 32 start) by lia. }
  wp_go. eapply wp_ld_next; [exact Hn|]. cbn [le_next]. simpl in Hf.
  replace (upd_lists (ms_lists s) s) with s by by destruct s.
  apply (IH (mapping_node m)); try done; try lia.
  apply Forall_forall. intros r' Hin. apply (proj1 (Forall_forall _ _) Hr) in Hin as H1.
  apply (proj1 (Forall_forall _ _) Hbe) in Hin as H2. unfold before_range in H2. simpl in H2. lia.
Qed.

Lemma within_ranges s M live lone mm l v : maps_ok s M live lone → M !! mm = Some l → map_within s v l →
  Forall (λ r, 0 ≤ mm_base v ≤ r.1 ∧ r.1 ≤ r.2 ∧ r.2 < mm_base v + mm_size v) (map (ranges s) l).
Proof.
  intros Hs Hm (H0 & _ & _ & Hw). apply Forall_map. eapply Forall_impl; [exact Hw|]. intros m. simpl.
  pose proof (ranges_ordered Hs m). lia.
Qed.

Lemma wp_locate_gap s M live mm v l size (Q : option Z → maps → Prop) :
  maps_ok s M live ∅ → M !! mm = Some l → ms_maps s !! mm = Some v → map_within s v l → 0 < size < 2 ^ 32 →
  (∀ r, first_fit s v l size r → Q r s) → wp (locate_memory_gap mm size) s Q.
Proof.
  intros Hs Hm Hv Hw Hz HQ. destruct (ok_map _ _ _ _ Hs _ _ Hm) as (_ & v' & Hv').
  assert (v' = v) as -> by (pose proof (mo_map _ _ _ _ _ Hv'); congruence).
  pose proof (within_ranges _ _ _ _ _ _ _ Hs Hm Hw) as Hr. pose proof (map_ranges_sorted Hs _ _ Hm) as Hso.
  pose proof (map_mappings_ok Hs _ _ Hm) as Hok. pose proof (mo_list _ _ _ _ _ Hv') as Hx.
  pose proof Hw as (H0 & Hz0 & Hlim & _).
  specialize (HQ (next_gap (mm_base v) (mm_base v + mm_size v) size (map (ranges s) l))).
  assert (Q (next_gap (mm_base v) (mm_base v + mm_size v) size (map (ranges s) l)) s) as HQ'.
  { apply HQ. pose proof (next_gap_first (map (ranges s) l) (mm_base v) (mm_base v + mm_size v) size) as Hg.
    cbv zeta in Hg. specialize (Hg ltac:(lia) Hso).
    specialize (Hg ltac:(eapply Forall_impl; [exact Hr|]; simpl; lia)).
    specialize (Hg ltac:(eapply Forall_impl; [exact Hr|]; simpl; lia) ltac:(lia)).
    unfold first_fit, free_at. destruct (next_gap _ _ _ _) as [g|].
    - rewrite Forall_map in Hg. destruct Hg as [Hg1 Hg2]. split; [done|]. intros a (? & ? & ?). apply Hg2. by rewrite Forall_map.
    - intros a (? & ? & ?). apply (Hg a). by rewrite Forall_map. }
  clear HQ. unfold locate_memory_gap. wp_go. eapply wp_xlist_peek_first; [exact Hx|]. wp_go.
  replace (upd_lists (ms_lists s) s) with s by by destruct s. eapply wp_load; [exact Hv|]. destruct l as [|m l].
  { simpl. wp_go. unfold next_gap in HQ'. simpl in HQ'. replace (mm_base v + mm_size v - mm_base v) with (mm_size v) in HQ' by lia.
    by destruct (size <=? mm_size v). }
  assert (Forall mapping_ok (m :: l)) as [Hmo _]%Forall_cons by done.
  cbn [map head_or]. rewrite (valid_ptr_nonnull _ (mapping_node_valid m Hmo)). wp_go.
  change (mapping_node m) with (head_or NULL (map mapping_node (m :: l))).
  replace (mm_base v) with (u32 (mm_base v)) at 1 by (rewrite uwrap_small; lia).
  eapply (wp_gap_loop s size (mm_base v + mm_size v)); try done; [apply Hx| | |].
  - apply Forall_forall. intros m' (_ & r & Hr' & _)%(mo_in _ _ _ _ _ Hv'). by apply elem_of_dom_2 in Hr'.
  - unfold search_fuel. pose proof (seg_size _ _ _ _ (ix_nodup _ _ _ Hx) (ix_seg _ _ _ Hx)) as Hsz.
    rewrite length_map in Hsz. simpl in *. lia.
  - unfold next_gap in HQ'. destruct (walk_gap (mm_base v) size (map (ranges s) (m :: l))) as [g|e] eqn:Ew; wp_go; [done|].
    apply (walk_gap_end _ (mm_base v + mm_size v)) in Ew as [[? _]|He]; [done| | |done].
    2: { eapply Forall_impl; [exact Hr|]. simpl. lia. }
    replace (u32 (u32 (mm_base v + mm_size v - 1) - u32 e + 1)) with (mm_base v + mm_size v - e).
    { destruct (Z.leb_spec size (mm_base v + mm_size v - e)); [|done]. by rewrite (uwrap_small 32 e) by lia. }
    rewrite (uwrap_small 32 (_ - 1)) by lia. destruct (decide (e = 2 ^ 32)) as [->|He2].
    { replace (mm_base v + mm_size v) with (2 ^ 32) by lia. reflexivity. }
    rewrite (uwrap_small 32 e), uwrap_small; lia.
Qed.

(** ** Creation at an aligned address of the map's choice *)

(** The first place is at the start of the map or just after a mapping. *)
Lemma first_fit_start s v l size g : 0 < size → first_fit s v l size (Some g) →
  g = mm_base v ∨ ∃ m, m ∈ l ∧ (ranges s m).2 + 1 = g.
Proof.
  intros Hz [(H1 & H2 & H3) Hmin]. destruct (decide (g = mm_base v)) as [|Hne]; [by left|right].
  destruct (decide (Exists (λ m, overlap (at_base (g - 1) size) (ranges s m)) l)) as [Hov|Hno].
  - apply Exists_exists in Hov as (m & Hin & Hov). exists m. split; [done|].
    apply (proj1 (Forall_forall _ _) H3) in Hin. unfold overlap, at_base in *. simpl in *. lia.
  - assert (g ≤ g - 1); [|lia]. apply Hmin. split_and!; [lia|lia|].
    apply Forall_Exists_neg. by intros H%Hno.
Qed.

(** Gaps start at page boundaries. *)
Definition page_map s (v : memory_map) (l : list Z) : Prop :=
  (PAGE_SIZE | mm_base v) ∧ Forall (λ m, (PAGE_SIZE | (ranges s m).2 + 1)) l.

(** What an alignment of [npg] pages makes of the address [g]. *)
Definition aligned (npg g : Z) : Z :=
  if npg <? 2 then g else (g + npg * PAGE_SIZE - 1) / (npg * PAGE_SIZE) * (npg * PAGE_SIZE).

Definition pad (npg : Z) : Z := if npg <? 2 then 0 else npg * PAGE_SIZE - PAGE_SIZE.

Lemma aligned_bounds npg g : (PAGE_SIZE | g) → g ≤ aligned npg g ≤ g + pad npg.
Proof.
  intros [k ->]. unfold aligned, pad. destruct (Z.ltb_spec npg 2); [lia|]. unfold PAGE_SIZE.
  replace (k * 4096 + npg * 4096 - 1) with ((k + npg - 1) * 4096 + 4095) by lia.
  rewrite (Z.mul_comm npg 4096), <- Z.div_div by lia.
  replace (((k + npg - 1) * 4096 + 4095) / 4096) with (k + npg - 1) by (apply Z.div_unique with 4095; lia).
  pose proof (Z.div_mod (k + npg - 1) npg ltac:(lia)). pose proof (Z.mod_pos_bound (k + npg - 1) npg ltac:(lia)). nia.
Qed.

Lemma aligned_divides npg g : 2 ≤ npg → (npg * PAGE_SIZE | aligned npg g).
Proof. intros. unfold aligned. rewrite (proj2 (Z.ltb_ge _ _)) by lia. by eexists. Qed.

Lemma wp_create s M live mm v l size npg j (Q : Z * option Z → maps → Prop) :
  maps_ok s M live ∅ → M !! mm = Some l → ms_maps s !! mm = Some v → map_within s v l → page_map s v l →
  0 ≤ npg → npg * PAGE_SIZE < 2 ^ 32 → (2 ≤ npg → PAGE_SIZE ≤ size) → 0 < size → size + pad npg < 2 ^ 32 →
  al_room (ms_heap s) sizeof_vm_mapping →
  ((∀ a, ¬ free_at s v l (size + pad npg) a) → Q (ERR_VM_NO_MAPPING_GAP, None) s) →
  (∀ g m s', first_fit s v l (size + pad npg) (Some g) → free_at s v l size (aligned npg g) →
     created s M live mm (aligned npg g) size m s' → Q (NO_ERROR, Some m) s') →
  wp (vm_aspace_create_mapping j mm size npg) s Q.
Proof.
  intros Hs Hm Hv Hw [Hpb Hpl] Hn0 Hn Hsz Hz Hp Hroom Hnone Hsome. pose proof Hw as (Hb0 & _ & Hlim & _).
  assert (0 ≤ pad npg) as Hp0 by (unfold pad, PAGE_SIZE; destruct (Z.ltb_spec npg 2); lia).
  unfold vm_aspace_create_mapping. rewrite (proj2 (Z.eqb_neq size 0)) by lia.
  assert (align_pad npg = pad npg ∧ align_bytes npg = if npg <? 2 then 0 else npg * PAGE_SIZE) as [-> ->].
  { unfold align_pad, align_bytes, pad, PAGE_SIZE in *. destruct (Z.ltb_spec npg 2); [done|].
    rewrite (uwrap_small 32 (npg * 4096)), uwrap_small by lia. done. }
  rewrite uwrap_small by lia. wp_go. eapply wp_locate_gap; [exact Hs|done|done|done|lia|].
  intros [g|] Hg; [|wp_go; by apply Hnone].
  assert ((PAGE_SIZE | g)) as Hgp.
  { apply first_fit_start in Hg as [->|(m & Hin & <-)]; [done| |lia]. by apply (proj1 (Forall_forall _ _) Hpl). }
  pose proof (aligned_bounds npg g Hgp) as Hab. pose proof Hg as [(Hg1 & Hg2 & Hg3) _].
  assert ((if (if npg <? 2 then 0 else npg * PAGE_SIZE) =? 0 then g
    else u32 (u32 (g + (if npg <? 2 then 0 else npg * PAGE_SIZE) - 1) / (if npg <? 2 then 0 else npg * PAGE_SIZE) *
      (if npg <? 2 then 0 else npg * PAGE_SIZE))) = aligned npg g) as ->.
  { unfold aligned, pad in *. destruct (Z.ltb_spec npg 2); [done|]. specialize (Hsz ltac:(lia)).
    unfold PAGE_SIZE in *. rewrite (proj2 (Z.eqb_neq _ 0)) by lia.
    rewrite (uwrap_small 32 (g + _ - 1)) by lia. apply uwrap_small. lia. }
  assert (free_at s v l size (aligned npg g)) as Hf.
  { split_and!; [lia|lia|]. eapply Forall_impl; [exact Hg3|]. unfold overlap, at_base. simpl. lia. }
  eapply wp_create_exactly; [done|done|done|split; [lia|destruct Hf as (? & ? & _); lia]|lia|lia|done| |].
  - intros m s' Hov _ _ _. destruct Hf as (_ & _ & Hf). apply Exists_exists in Hov as (m' & Hin & Hov).
    apply (proj1 (Forall_forall _ _) Hf) in Hin. done.
  - intros m s' _ Hc. by eapply Hsome.
Qed.

(** ** Search and deletion *)

Lemma wp_get_mapping s M live mm v l key vaddr (Q : Z * option Z → maps → Prop) :
  maps_ok s M live ∅ → M !! mm = Some l → ms_maps s !! mm = Some v →
  0 < mm_size v → 0 ≤ mm_base v → mm_base v + mm_size v ≤ 2 ^ 32 → key ∉ l →
  (¬ (mm_base v ≤ vaddr < mm_base v + mm_size v) → Q (ERR_VM_BAD_ADDRESS, None) s) →
  (mm_base v ≤ vaddr < mm_base v + mm_size v →
    (Forall (λ m, ¬ ((ranges s m).1 ≤ vaddr ≤ (ranges s m).2)) l → Q (ERR_VM_NO_MAPPING, Some NULL) s) ∧
    (∀ m, m ∈ l → (ranges s m).1 ≤ vaddr ≤ (ranges s m).2 → Q (NO_ERROR, Some m) s)) →
  wp (vm_aspace_get_mapping key mm vaddr) s Q.
Proof.
  intros Hs Hm Hv Hz Hb Hlim Hkey Hbad Hin. destruct (ok_map _ _ _ _ Hs _ _ Hm) as (_ & v' & Hv').
  unfold vm_aspace_get_mapping. wp_go. eapply wp_load; [exact Hv|]. rewrite uwrap_small by lia.
  destruct (Z.ltb_spec vaddr (mm_base v)); [wp_go; apply Hbad; lia|].
  destruct (Z.ltb_spec (mm_base v + mm_size v - 1) vaddr); [wp_go; apply Hbad; lia|]. cbn [orb].
  destruct (Hin ltac:(lia)) as [Hnone Hsome]. wp_go. set (rg := ranges_key (ms_mappings s) key vaddr).
  assert (∀ m, m ∈ l → rg m = ranges s m) as Erg.
  { intros m Hml. unfold rg, ranges_key. by rewrite (proj2 (Z.eqb_neq m key)) by (by intros ->). }
  assert (rg key = (vaddr, vaddr)) as Ek by (unfold rg, ranges_key; by rewrite Z.eqb_refl).
  assert (∀ m, (rg m).1 ≤ (rg m).2) as Hrg.
  { intros m. unfold rg, ranges_key. destruct (m =? key); [done|]. apply (ranges_ordered Hs). }
  pose proof (mapping_order rg Hrg) as Ho.
  destruct s as [h x ox t ms mms]. cbn [ms_tree ms_mappings] in *.
  eapply (wp_find_index (C := mapping_client rg)).
  { eapply (aset_client (mapping_client (ranges_of ms))); [|apply (mo_tree _ _ _ _ _ Hv')]. intros u w Hu Hwl. simpl. unfold compare_mapping.
    by rewrite !Erg. }
  - intros m ix Hml Hm0 E. cbn [fst]. rewrite (proj2 (Z.eqb_neq m NULL)) by done. wp_go.
    apply mapping_eq in E. rewrite Ek, (Erg m) in E by done. unfold overlap in E. simpl in E. apply Hsome; [done|]. simpl. lia.
  - intros l1 l2 ix El Hl1 Hl2 _. cbn [fst]. wp_go. apply Hnone. subst l. apply Forall_app. split.
    + apply Forall_forall. intros m Hml. apply (proj1 (Forall_forall _ _) Hl1) in Hml as Hlt.
      apply mapping_lt in Hlt; [|done..]. unfold before_range in Hlt. rewrite Ek, Erg in Hlt by set_solver. simpl in Hlt. lia.
    + apply Forall_forall. intros m Hml. apply (proj1 (Forall_forall _ _) Hl2) in Hml as Hlt.
      apply mapping_lt in Hlt; [|done..]. unfold before_range in Hlt. rewrite Ek, Erg in Hlt by set_solver. simpl in Hlt. lia.
Qed.

Lemma wp_delete_mapping s M live mm l m tmp (Q : unit → maps → Prop) :
  maps_ok s M live ∅ → M !! mm = Some l → m ∈ l → tmp ∉ dom (anodes (ms_tree s)) → valid_ptr tmp →
  (∀ s', maps_ok s' (<[mm := without m l]> M) (live ∖ {[m]}) ∅ →
     ms_mappings s' = delete m (ms_mappings s) → ms_maps s' = ms_maps s →
     dom (anodes (ms_tree s')) ⊆ dom (anodes (ms_tree s)) → Q tt s') →
  wp (vm_aspace_delete_mapping tmp mm m) s Q.
Proof.
  intros Hs Hm Hin Htmp Hvt HQ. destruct (ok_map _ _ _ _ Hs _ _ Hm) as (_ & v & Hv).
  destruct (proj1 (mo_in _ _ _ _ _ Hv m) Hin) as (_ & r & Hr & _).
  unfold vm_aspace_delete_mapping. wp_go. eapply wp_remove_mapping; [done..|].
  intros s1 Hs1 Em1 Ev1 Ed1. eapply wp_free_mapping; [exact Hs1|rewrite Em1; by apply elem_of_dom_2 in Hr|].
  intros s2 Hs2 Em2 Ev2 Ed2. apply HQ; [done|by rewrite Em2, Em1|by rewrite Ev2|by rewrite <- Ed1].
Qed.

(** ** The theorems *)

(** C25: creating a mapping at a given address, on every branch. Arguments below the map, too
    large for it or empty are refused and nothing changes; without memory the kernel stops;
    where a mapping of the map overlaps the range the request is refused and the state is as
    before, the memory given back; otherwise a memory hole of exactly the range has been put
    in its place in the order of the map's list and tree, and the other maps are as before. *)
Theorem create_exactly_correct s M live mm v l base size j :
  maps_ok s M live ∅ → M !! mm = Some l → ms_maps s !! mm = Some v → 0 ≤ base →
  (¬ args_ok v base size ∧ 0 ≤ size →
     vm_aspace_create_mapping_exactly j mm base size s = Ok ((ERR_INVALID_ARGS, None), s)) ∧
  (args_ok v base size → ¬ al_room (ms_heap s) sizeof_vm_mapping →
     vm_aspace_create_mapping_exactly j mm base size s = Panic) ∧
  (args_ok v base size → al_room (ms_heap s) sizeof_vm_mapping → base + size ≤ 2 ^ 32 →
     ∃ st m s', vm_aspace_create_mapping_exactly j mm base size s = Ok ((st, Some m), s') ∧
       if decide (Exists (λ m', overlap (at_base base size) (ranges s m')) l) then
         st = ERR_VM_BAD_ADDRESS ∧ maps_ok s' M live ∅ ∧ ms_mappings s' = ms_mappings s ∧ ms_maps s' = ms_maps s
       else st = NO_ERROR ∧ created s M live mm base size m s').
Proof.
  intros Hs Hm Hv H0. split_and!.
  - intros [Hno Hz]. unfold vm_aspace_create_mapping_exactly, mbind, M_bind, ld_map, load. rewrite Hv.
    assert ((base <? mm_base v) || (mm_size v <? size) || (size =? 0) = true) as ->; [|done].
    unfold args_ok in Hno. destruct (Z.ltb_spec base (mm_base v)), (Z.ltb_spec (mm_size v) size), (Z.eqb_spec size 0); try done. lia.
  - intros [Hb Hz] Hno. unfold vm_aspace_create_mapping_exactly, mbind, M_bind, ld_map, load. rewrite Hv.
    rewrite (proj2 (Z.ltb_ge _ _)), (proj2 (Z.ltb_ge _ _)), (proj2 (Z.eqb_neq _ _)) by lia. cbn [orb].
    unfold zoom. by rewrite (al_alloc_exhausted _ live) by (done || apply Hs).
  - intros Ha Hroom Hsz. assert (wp (vm_aspace_create_mapping_exactly j mm base size) s (λ r s', ∃ st m, r = (st, Some m) ∧
      if decide (Exists (λ m', overlap (at_base base size) (ranges s m')) l) then
         st = ERR_VM_BAD_ADDRESS ∧ maps_ok s' M live ∅ ∧ ms_mappings s' = ms_mappings s ∧ ms_maps s' = ms_maps s
       else st = NO_ERROR ∧ created s M live mm base size m s')) as (r & s' & E & st & m & -> & H)%wp_ok.
    + eapply wp_create_exactly; [done..| |].
      * intros m s' Hov Hs' Em Ev. eexists _, m. split; [done|]. by rewrite decide_True.
      * intros m s' Hov Hc. eexists _, m. split; [done|]. rewrite decide_False; [done|]. by apply Forall_Exists_neg in Hov.
    + by exists st, m, s'.
Qed.

(** C26: the search for a gap answers with the least address at which the requested number
    of bytes is free in the map, and fails only if there is none, for every map that lies
    in the address space, up to its very end. *)
Theorem locate_memory_gap_first_fit s M live mm v l size :
  maps_ok s M live ∅ → M !! mm = Some l → ms_maps s !! mm = Some v → map_within s v l → 0 < size < 2 ^ 32 →
  ∃ r, locate_memory_gap mm size s = Ok (r, s) ∧ first_fit s v l size r.
Proof.
  intros Hs Hm Hv Hw Hz. assert (wp (locate_memory_gap mm size) s (λ r s', s' = s ∧ first_fit s v l size r))
    as (r & s' & E & -> & H)%wp_ok by by eapply wp_locate_gap.
  by exists r.
Qed.

(** Creating a mapping at an address of the kernel's choice, in a map whose mappings
    end at page boundaries: it takes the first gap that has room for the size and the
    padding of the alignment, rounds its start up to the alignment, and puts a hole of
    exactly the size there, inside the map and apart from all others; it fails only if
    there is no such gap. Empty requests are refused. *)
Theorem create_mapping_correct s M live mm v l size npg j :
  maps_ok s M live ∅ → M !! mm = Some l → ms_maps s !! mm = Some v → map_within s v l → page_map s v l →
  0 ≤ npg → npg * PAGE_SIZE < 2 ^ 32 → size + pad npg < 2 ^ 32 → 0 ≤ size →
  (2 ≤ npg → PAGE_SIZE ≤ size) → al_room (ms_heap s) sizeof_vm_mapping →
  ∃ r s', vm_aspace_create_mapping j mm size npg s = Ok (r, s') ∧
    ((size = 0 ∧ r = (ERR_INVALID_ARGS, None) ∧ s' = s) ∨
     (0 < size ∧ r = (ERR_VM_NO_MAPPING_GAP, None) ∧ s' = s ∧ ∀ a, ¬ free_at s v l (size + pad npg) a) ∨
     ∃ g m, r = (NO_ERROR, Some m) ∧ first_fit s v l (size + pad npg) (Some g) ∧
       g ≤ aligned npg g ≤ g + pad npg ∧ (2 ≤ npg → (npg * PAGE_SIZE | aligned npg g)) ∧
       free_at s v l size (aligned npg g) ∧ created s M live mm (aligned npg g) size m s').
Proof.
  intros Hs Hm Hv Hw Hp Hn0 Hn Hsz Hz Hps Hroom. destruct (decide (size = 0)) as [->|Hne].
  { exists (ERR_INVALID_ARGS, None), s. split; [done|by left]. }
  assert (wp (vm_aspace_create_mapping j mm size npg) s (λ r s',
     (r = (ERR_VM_NO_MAPPING_GAP, None) ∧ s' = s ∧ ∀ a, ¬ free_at s v l (size + pad npg) a) ∨
     ∃ g m, r = (NO_ERROR, Some m) ∧ first_fit s v l (size + pad npg) (Some g) ∧
       free_at s v l size (aligned npg g) ∧ created s M live mm (aligned npg g) size m s')) as (r & s' & E & H)%wp_ok.
  { eapply wp_create; [done..|lia|done|done| |].
    - intros Hno. by left.
    - intros g m s' Hg Hf Hc. right. by exists g, m. }
  exists r, s'. split; [done|right]. destruct H as [(? & ? & ?)|(g & m & -> & Hg & Hf & Hc)]; [left|right].
  - split_and!; try done. lia.
  - exists g, m. split_and!; try done; [..|by apply aligned_divides].
    all: assert (0 ≤ pad npg) by (unfold pad, PAGE_SIZE; destruct (Z.ltb_spec npg 2); lia).
    all: apply aligned_bounds; apply first_fit_start in Hg as [->|(m' & Hin & <-)]; [apply Hp| |lia];
      by apply (proj1 (Forall_forall _ _) (proj2 Hp)).
Qed.

(** A search by address answers with the mapping whose range has the address, if there
    is one, with an error of its own if there is none, and with another one outside the
    map; nothing changes. *)
Theorem get_mapping_correct s M live mm v l key vaddr :
  maps_ok s M live ∅ → M !! mm = Some l → ms_maps s !! mm = Some v → map_within s v l → key ∉ l →
  ∃ r, vm_aspace_get_mapping key mm vaddr s = Ok (r, s) ∧
    if decide (mm_base v ≤ vaddr < mm_base v + mm_size v) then
      (r = (ERR_VM_NO_MAPPING, Some NULL) ∧ ∀ m, m ∈ l → ¬ (ranges s m).1 ≤ vaddr ≤ (ranges s m).2) ∨
      ∃ m, r = (NO_ERROR, Some m) ∧ m ∈ l ∧ (ranges s m).1 ≤ vaddr ≤ (ranges s m).2
    else r = (ERR_VM_BAD_ADDRESS, None).
Proof.
  intros Hs Hm Hv (? & ? & ? & _) Hkey.
  assert (wp (vm_aspace_get_mapping key mm vaddr) s (λ r s', s' = s ∧
    if decide (mm_base v ≤ vaddr < mm_base v + mm_size v) then
      (r = (ERR_VM_NO_MAPPING, Some NULL) ∧ ∀ m, m ∈ l → ¬ (ranges s m).1 ≤ vaddr ≤ (ranges s m).2) ∨
      ∃ m, r = (NO_ERROR, Some m) ∧ m ∈ l ∧ (ranges s m).1 ≤ vaddr ≤ (ranges s m).2
    else r = (ERR_VM_BAD_ADDRESS, None))) as (r & s' & E & -> & Hr)%wp_ok; [|by exists r].
  eapply wp_get_mapping; [done..| |].
  - intros Hout. by rewrite decide_False.
  - intros Hin. split; [intros Hno|intros m Hml Hr]; (split; [done|]); rewrite decide_True by done; [left|right].
    + split; [done|]. by apply Forall_forall.
    + by exists m.
Qed.

(** C27: a mapping that has been created is found at every address of its range that lies in
    the map, and deleting it gives back its memory and leaves every map with the mappings
    it had before. *)
Theorem mapping_roundtrip s M live mm v l base size j :
  maps_ok s M live ∅ → M !! mm = Some l → ms_maps s !! mm = Some v → map_within s v l →
  free_at s v l size base → 0 < size ≤ mm_size v → al_room (ms_heap s) sizeof_vm_mapping →
  ∃ m s1, vm_aspace_create_mapping_exactly j mm base size s = Ok ((NO_ERROR, Some m), s1) ∧
    (∀ key vaddr, base ≤ vaddr < base + size → key ≠ m → key ∉ l →
       vm_aspace_get_mapping key mm vaddr s1 = Ok ((NO_ERROR, Some m), s1)) ∧
    (∀ tmp, tmp ∉ dom (anodes (ms_tree s1)) → valid_ptr tmp →
       ∃ s2, vm_aspace_delete_mapping tmp mm m s1 = Ok (tt, s2) ∧
         maps_ok s2 M live ∅ ∧ ms_mappings s2 = ms_mappings s ∧ ms_maps s2 = ms_maps s).
Proof.
  intros Hs Hm Hv (Hb0 & Hz0 & Hlim & _) (Hf1 & Hf2 & Hf3) Hz Hroom.
  assert (wp (vm_aspace_create_mapping_exactly j mm base size) s (λ r s', ∃ m, r = (NO_ERROR, Some m) ∧
    created s M live mm base size m s')) as (r & s1 & E1 & m & -> & Hc)%wp_ok.
  { eapply wp_create_exactly; [done..|lia|lia|done| |].
    - intros m s' Hov _ _ _. by apply Forall_Exists_neg in Hov.
    - intros m s' _ Hc. by exists m. }
  destruct Hc as (Hml & Em1 & Ev1 & l1 & l2 & Hm' & Hs1). assert (l = l1 ++ l2) as -> by congruence.
  set (M1 := <[mm := l1 ++ m :: l2]> M) in *. assert (M1 !! mm = Some (l1 ++ m :: l2)) as Hm1 by apply lookup_insert_eq.
  assert (ms_maps s1 !! mm = Some v) as Hv1 by by rewrite Ev1.
  exists m, s1. split; [done|]. split.
  - intros key vaddr Hvr Hkm Hkl. assert (key ∉ l1 ++ m :: l2) as Hk by set_solver.
    assert (wp (vm_aspace_get_mapping key mm vaddr) s1 (λ r s', r = (NO_ERROR, Some m) ∧ s' = s1))
      as (r & s' & E & -> & ->)%wp_ok; [|done].
    assert (ranges s1 m = at_base base size) as Erm by by rewrite Em1, (ranges_of_lookup _ _ (hole mm base size)) by apply lookup_insert_eq.
    eapply wp_get_mapping; [done|exact Hm1|done|lia|lia|lia|done|lia|]. intros _. split.
    + intros Hno. exfalso. apply Forall_app in Hno as [_ [Hno _]%Forall_cons]. rewrite Erm in Hno. simpl in Hno. lia.
    + intros m' Hin Hr. assert (m' = m) as ->; [|done].
      apply (map_overlap_same Hs1 mm (l1 ++ m :: l2)); [done|set_solver +|done|].
      rewrite Erm. unfold overlap, at_base. simpl. lia.
  - intros tmp Htmp Hvt. assert (wp (vm_aspace_delete_mapping tmp mm m) s1 (λ _ s', maps_ok s' M live ∅ ∧
      ms_mappings s' = ms_mappings s ∧ ms_maps s' = ms_maps s)) as ([] & s2 & E & H)%wp_ok; [|by exists s2].
    assert (m ∉ dom (ms_mappings s)) as Hmd by by intros ?%(ok_live _ _ _ _ Hs).
    assert (m ∉ l1 ++ l2) as Hnl.
    { destruct (ok_map _ _ _ _ Hs _ _ Hm) as (_ & v' & Hv'). intros (_ & r & Hr & _)%(mo_in _ _ _ _ _ Hv').
      by apply elem_of_dom_2 in Hr. }
    eapply wp_delete_mapping; [done|exact Hm1|set_solver +|done|done|]. intros s2 Hs2 Em2 Ev2 _.
    split_and!; [|rewrite Em2, Em1; by apply delete_insert_id, not_elem_of_dom|by rewrite Ev2].
    replace (({[m]} ∪ live) ∖ {[m]}) with live in Hs2 by set_solver.
    unfold M1 in Hs2. rewrite insert_insert_eq in Hs2. rewrite without_middle in Hs2.
    + by rewrite insert_id in Hs2.
    + exact (map_NoDup Hs1 _ _ Hm1).
Qed.

(** The end of the map is not checked: a free range that begins in the map and is not
    larger than it is accepted although it goes past the end of the map, and the addresses
    of the mapping out there are then refused by the search. *)
Theorem create_exactly_past_end s M live mm v l base size j key :
  maps_ok s M live ∅ → M !! mm = Some l → ms_maps s !! mm = Some v →
  0 ≤ mm_base v ≤ base → 0 < size ≤ mm_size v → mm_base v + mm_size v < base + size ≤ 2 ^ 32 →
  Forall (λ m, ¬ overlap (at_base base size) (ranges s m)) l → al_room (ms_heap s) sizeof_vm_mapping →
  ∃ m s', vm_aspace_create_mapping_exactly j mm base size s = Ok ((NO_ERROR, Some m), s') ∧
    ms_mappings s' !! m = Some (hole mm base size) ∧
    vm_aspace_get_mapping key mm (base + size - 1) s' = Ok ((ERR_VM_BAD_ADDRESS, None), s').
Proof.
  intros Hs Hm Hv Hb Hz Hend Hno Hroom.
  destruct (wp_ok (vm_aspace_create_mapping_exactly j mm base size) s (λ r s', ∃ m, r = (NO_ERROR, Some m) ∧
    created s M live mm base size m s')) as (r & s' & E & m & -> & (_ & Em & Ev & _)).
  { eapply wp_create_exactly; [done..|split; lia|lia|lia|done| |].
    - intros m s' Hov _ _ _. by apply Forall_Exists_neg in Hov.
    - intros m s' _ Hc. by exists m. }
  exists m, s'. split_and!; [done|by rewrite Em, lookup_insert_eq|].
  unfold vm_aspace_get_mapping, mbind, M_bind, ld_map, load. rewrite Ev, Hv.
  rewrite (uwrap_small 32 (mm_base v + mm_size v - 1)) by lia.
  assert ((base + size - 1 <? mm_base v) || (mm_base v + mm_size v - 1 <? base + size - 1) = true) as ->; [|done].
  apply orb_true_iff. right. apply Z.ltb_lt. lia.
Qed.
End props.

(** ** Examples *)

(** Two maps of 16 pages at addresses of their own, one of them with a hole in its third page. *)
Definition example_map : memory_map := MMap 0x10000 0x10000 4900.

Definition example_maps : @maps heap_allocator := Maps example_heap
  (XStore ∅ (list_to_map [(mappings_list 5000, XListHdr 0 0 0); (mappings_list 6000, XListHdr 0 0 0)]))
  (XStore ∅ ∅)
  (AStore ∅ (list_to_map [(mappings_tree 5000, ATree NULL 36 0 60); (mappings_tree 6000, ATree NULL 36 0 60)]))
  ∅ (list_to_map [(5000, example_map); (6000, example_map)]).

Definition example_mjunk : mjunk := MJunk (ListElem 7 7) (ListElem 7 7) (ANode 7 7 7 7 7).

Lemma example_maps_ok : maps_ok example_maps {[5000 := []; 6000 := []]} ∅ ∅.
Proof.
  split; [|done|by exists ∅; split; [exact example_heap_ok|rewrite dom_empty_L]|set_solver +].
  intros mm l Hm. assert ((mm = 5000 ∨ mm = 6000) ∧ l = []) as [Hmm ->].
  { apply lookup_insert_Some in Hm as [[<- <-]|[_ Hm]]; [by split; [left|]|].
    apply lookup_singleton_Some in Hm as [<- <-]. by split; [right|]. }
  assert (map_addr mm) as Ha by (unfold map_addr; lia). split; [done|]. exists example_map.
  split.
  - destruct Hmm as [-> | ->]; reflexivity.
  - split; [destruct Hmm as [-> | ->]; reflexivity|done|constructor|constructor].
  - split; [by apply mappings_tree_not_null|]. split; [apply not_elem_of_nil|].
    exists (ATree NULL 36 0 60), AvlPure.Leaf. split_and!; [|done|done].
    split; [|done|constructor|done]. split; [destruct Hmm as [-> | ->]; reflexivity|done|done|constructor|constructor].
  - intros m. split; [by intros ?%not_elem_of_nil|]. intros (_ & r & Hr & _). done.
Qed.

Lemma example_maps_room : heap_room example_heap sizeof_vm_mapping.
Proof.
  split; [by vm_compute|]. intros k Hk. assert (k = 2%nat) as ->; [|by_decide].
  apply (best_bin_unique sizeof_vm_mapping); [done|]. split_and!; [by vm_compute; lia|by vm_compute|].
  intros j Hj. do 2 (destruct j as [|j]; [by vm_compute|]). lia.
Qed.

Definition mapped : @maps heap_allocator :=
  outcome (vm_aspace_create_mapping_exactly example_mjunk 5000 0x12000 PAGE_SIZE) example_maps.

(** The mapping is the first block of the heap. *)
Definition mapped_maps : gmap Z (list Z) := {[5000 := [8192]; 6000 := []]}.

Lemma mapped_ok : maps_ok mapped mapped_maps {[8192]} ∅ ∧
  ms_mappings mapped = {[8192 := hole 5000 0x12000 PAGE_SIZE]} ∧ ms_maps mapped = ms_maps example_maps.
Proof.
  destruct (create_exactly_correct example_maps _ _ 5000 example_map [] 0x12000 PAGE_SIZE example_mjunk
    example_maps_ok eq_refl eq_refl) as (_ & _ & H); [lia|].
  destruct H as (st & m & s' & E & H); [split; unfold example_map, PAGE_SIZE; simpl; lia|exact example_maps_room|unfold PAGE_SIZE; lia|].
  rewrite decide_False in H by (intros Hx; by inversion Hx). destruct H as (-> & _ & Em & Ev & l1 & l2 & El & Hs').
  assert (m = 8192) as ->.
  { assert ((λ r : res ((Z * option Z) * @maps heap_allocator), match r with Ok ((_, Some x), _) => x | _ => 0 end)
      (vm_aspace_create_mapping_exactly example_mjunk 5000 0x12000 PAGE_SIZE example_maps) = 8192) as E2 by (vm_compute; reflexivity).
    by rewrite E in E2. }
  unfold mapped, outcome. rewrite E. split_and!; [|done|done].
  assert (l1 = [] ∧ l2 = []) as [-> ->].
  { rewrite lookup_insert_eq in El. injection El as El. by apply eq_sym, app_nil in El. }
  clear E Em Ev. cbn [app] in Hs'. rewrite insert_insert_eq, union_empty_r_L in Hs'. exact Hs'.
Qed.

Lemma mapped_room : heap_room (ms_heap mapped) sizeof_vm_mapping.
Proof.
  split; [by vm_compute|]. intros k Hk. assert (k = 2%nat) as ->; [|by_decide].
  apply (best_bin_unique sizeof_vm_mapping); [done|]. split_and!; [by vm_compute; lia|by vm_compute|].
  intros j Hj. do 2 (destruct j as [|j]; [by vm_compute|]). lia.
Qed.

#[local] Opaque mapped.

Lemma mapped_map : mapped_maps !! 5000 = Some [8192] ∧
  ms_maps mapped !! 5000 = Some example_map ∧ ranges_of (ms_mappings mapped) 8192 = (0x12000, 0x12fff) ∧
  map_within mapped example_map [8192] ∧ page_map mapped example_map [8192].
Proof.
  destruct mapped_ok as (_ & Em & Ev). assert (ranges_of (ms_mappings mapped) 8192 = (0x12000, 0x12fff)) as Er
    by (rewrite Em; reflexivity).
  split_and!; [reflexivity|by rewrite Ev|done|..].
  - unfold map_within. rewrite Forall_singleton, Er. simpl. lia.
  - unfold page_map. rewrite Forall_singleton, Er. simpl. split; by apply Z.mod_divide.
Qed.

(** One page at the address of the hole, and one that reaches into it. *)
Lemma create_exactly_correct_witness :
  vm_aspace_create_mapping_exactly example_mjunk 5000 0x8000 PAGE_SIZE mapped = Ok ((ERR_INVALID_ARGS, None), mapped) ∧
  (∃ m s', vm_aspace_create_mapping_exactly example_mjunk 5000 0x11001 PAGE_SIZE mapped =
     Ok ((ERR_VM_BAD_ADDRESS, Some m), s') ∧ ms_mappings s' = ms_mappings mapped) ∧
  ∃ m s', vm_aspace_create_mapping_exactly example_mjunk 5000 0x11000 PAGE_SIZE mapped = Ok ((NO_ERROR, Some m), s') ∧
    ms_mappings s' !! m = Some (hole 5000 0x11000 PAGE_SIZE).
Proof.
  destruct mapped_ok as (Hs & _). destruct mapped_map as (Hm & Hv & Hr & _). split_and!.
  - apply (create_exactly_correct mapped _ _ 5000 example_map [8192] 0x8000 PAGE_SIZE example_mjunk Hs Hm Hv); [lia|].
    unfold args_ok, PAGE_SIZE. simpl. lia.
  - destruct (create_exactly_correct mapped _ _ 5000 example_map [8192] 0x11001 PAGE_SIZE example_mjunk Hs Hm Hv)
      as (_ & _ & H); [lia|]. destruct H as (st & m & s' & E & H); [by_decide|exact mapped_room|by_decide|].
    rewrite decide_True in H by (constructor; rewrite Hr; by_decide). destruct H as (-> & _ & Em & _).
    exists m, s'. split; [exact E|exact Em].
  - destruct (create_exactly_correct mapped _ _ 5000 example_map [8192] 0x11000 PAGE_SIZE example_mjunk Hs Hm Hv)
      as (_ & _ & H); [lia|]. destruct H as (st & m & s' & E & H); [by_decide|exact mapped_room|by_decide|].
    rewrite decide_False in H.
    + destruct H as (-> & _ & Em & _). exists m, s'. split; [exact E|]. by rewrite Em, lookup_insert_eq.
    + rewrite Exists_exists. intros (x & ->%list_elem_of_singleton & Hov). rewrite Hr in Hov.
      revert Hov. unfold overlap, at_base, PAGE_SIZE. simpl. lia.
Defined.

Lemma locate_memory_gap_first_fit_witness :
  ∃ r, locate_memory_gap 5000 0x3000 mapped = Ok (r, mapped) ∧ first_fit mapped example_map [8192] 0x3000 r.
Proof.
  destruct mapped_ok as (Hs & _). destruct mapped_map as (Hm & Hv & _ & Hw & _).
  apply (locate_memory_gap_first_fit mapped _ _ 5000 example_map [8192] 0x3000 Hs Hm Hv Hw). lia.
Defined.

(** Two pages at an alignment of four: the pages before the hole are not enough. *)
Lemma create_mapping_correct_witness :
  ∃ m s', vm_aspace_create_mapping example_mjunk 5000 0x2000 4 mapped = Ok ((NO_ERROR, Some m), s') ∧
    ms_mappings s' !! m = Some (hole 5000 0x14000 0x2000).
Proof.
  destruct mapped_ok as (Hs & _). destruct mapped_map as (Hm & Hv & Hr & Hw & Hp).
  destruct (create_mapping_correct mapped _ _ 5000 example_map [8192] 0x2000 4 example_mjunk Hs Hm Hv Hw Hp)
    as (r & s' & E & H); [by_decide..|by_decide|by_decide|exact mapped_room|].
  assert (free_at mapped example_map [8192] (0x2000 + pad 4) 0x13000) as Hf.
  { split_and!; [by_decide|by_decide|]. rewrite Forall_singleton, Hr. by_decide. }
  destruct H as [(? & _)|[(_ & _ & _ & Hno)|(g & m & -> & [(Hg1 & _ & Hg2) Hmin] & Ha & _ & _ & Hc)]]; [lia|destruct (Hno _ Hf)|].
  specialize (Hmin _ Hf). rewrite Forall_singleton, Hr in Hg2.
  assert (g = 0x13000) as ->.
  { revert Hg2. unfold overlap, at_base, pad, PAGE_SIZE in *. simpl in *. lia. }
  destruct Hc as (_ & Em & _). exists m, s'. split; [exact E|]. by rewrite Em, lookup_insert_eq.
Defined.

Lemma get_mapping_correct_witness :
  ∃ r, vm_aspace_get_mapping 77 5000 0x12345 mapped = Ok (r, mapped) ∧ r = (NO_ERROR, Some 8192).
Proof.
  destruct mapped_ok as (Hs & _). destruct mapped_map as (Hm & Hv & Hr & Hw & _).
  destruct (get_mapping_correct mapped _ _ 5000 example_map [8192] 77 0x12345 Hs Hm Hv Hw) as (r & E & H); [by_decide|].
  exists r. split; [exact E|]. rewrite decide_True in H by by_decide.
  destruct H as [[_ Hno]|(m & -> & ->%list_elem_of_singleton & _)]; [|done].
  exfalso. apply (Hno 8192); [by_decide|]. rewrite Hr. by_decide.
Defined.

Lemma mapping_roundtrip_witness :
  ∃ m s1, vm_aspace_create_mapping_exactly example_mjunk 5000 0x1f000 PAGE_SIZE mapped = Ok ((NO_ERROR, Some m), s1) ∧
    (77 ≠ m → vm_aspace_get_mapping 77 5000 0x1ffff s1 = Ok ((NO_ERROR, Some m), s1)).
Proof.
  destruct mapped_ok as (Hs & _). destruct mapped_map as (Hm & Hv & Hr & Hw & _).
  destruct (mapping_roundtrip mapped _ _ 5000 example_map [8192] 0x1f000 PAGE_SIZE example_mjunk Hs Hm Hv Hw)
    as (m & s1 & E & H & _).
  - split_and!; [by_decide|by_decide|]. rewrite Forall_singleton, Hr. by_decide.
  - by_decide.
  - exact mapped_room.
  - exists m, s1. split; [exact E|]. intros Hne. apply H; [by_decide|done|by_decide].
Defined.

Lemma create_exactly_past_end_witness :
  ∃ m s', vm_aspace_create_mapping_exactly example_mjunk 5000 0x1f000 0x2000 mapped = Ok ((NO_ERROR, Some m), s') ∧
    ms_mappings s' !! m = Some (hole 5000 0x1f000 0x2000) ∧
    vm_aspace_get_mapping 77 5000 0x20fff s' = Ok ((ERR_VM_BAD_ADDRESS, None), s').
Proof.
  destruct mapped_ok as (Hs & _). destruct mapped_map as (Hm & Hv & Hr & _).
  apply (create_exactly_past_end mapped _ _ 5000 example_map [8192] 0x1f000 0x2000 example_mjunk 77 Hs Hm Hv);
    [by_decide..| |exact mapped_room]. rewrite Forall_singleton, Hr. by_decide.
Defined.
