(* ===== verification/Mmu.v ===== *)
(** * Entries of page tables, and pages seen through a window

    The formats of [arch/i386/mmu_data.h] and the address arithmetic of
    [phlox/arch/i386/vm_translation_map.h]: entries are 32-bit words with fields of bits, four
    bytes each in the frame of their table, the least significant one first. The kernel
    reaches a frame through a window: an address the page mapper lends. What a client of the
    page mapper relies on is stated by a class of windows and a class of their laws. *)

From stdpp Require Import gmap list.
From S2P Require Import Prelude.
#[local] Open Scope Z_scope.

(** ** Bit fields *)

(** A field of [f_len] bits from bit [f_lo] on. *)
Record field := Field { f_lo : Z; f_len : Z }.

Definition fget (f : field) (w : Z) : Z := Z.land (Z.shiftr w (f_lo f)) (Z.ones (f_len f)).

Definition fset (f : field) (v w : Z) : Z :=
  Z.lor (Z.ldiff w (Z.shiftl (Z.ones (f_len f)) (f_lo f)))
    (Z.shiftl (Z.land v (Z.ones (f_len f))) (f_lo f)).

(** Present, writable, user, accessed, dirty, global, and the number of the frame. *)
Definition F_p : field := Field 0 1.

Definition F_rw : field := Field 1 1.

Definition F_us : field := Field 2 1.

Definition F_a : field := Field 5 1.

Definition F_d : field := Field 6 1.

Definition F_g : field := Field 8 1.

Definition F_base : field := Field 12 20.

(** ** Address arithmetic *)

Definition PAGE_SHIFT : Z := 12.

Definition MAX_PDENTS : Z := 1024.

Definition MAX_PTENTS : Z := 1024.

Definition ADDR_SHIFT (x : Z) : Z := Z.shiftr x PAGE_SHIFT.

Definition ADDR_REVERSE_SHIFT (x : Z) : Z := u32 (Z.shiftl x PAGE_SHIFT).

Definition VADDR_TO_PDENT (va : Z) : Z := va / PAGE_SIZE / MAX_PDENTS.

Definition VADDR_TO_PTENT (va : Z) : Z := (va / PAGE_SIZE) mod MAX_PTENTS.

Definition PDPTENT_TO_VADDR (pde pte : Z) : Z := u32 (pde * MAX_PDENTS * PAGE_SIZE + pte * PAGE_SIZE).

(** [ROUNDUP] and [ROUNDOWN] to pages *)
Definition ROUNDUP_PAGE (a : Z) : Z := Z.land (u32 (a + (PAGE_SIZE - 1))) PAGE_MASK.

Definition ROUNDOWN (a b : Z) : Z := a / b * b.

(** ** Words of a frame *)

Definition word_at (b : list Z) (i : Z) : option Z :=
  let k := Z.to_nat (4 * i) in
  b0 ← b !! k; b1 ← b !! S k; b2 ← b !! S (S k); b3 ← b !! S (S (S k));
  Some (b0 + 2 ^ 8 * b1 + 2 ^ 16 * b2 + 2 ^ 24 * b3).

Definition put_word (i w : Z) (b : list Z) : list Z :=
  list_inserts (Z.to_nat (4 * i)) [w mod 2 ^ 8; w / 2 ^ 8 mod 2 ^ 8; w / 2 ^ 16 mod 2 ^ 8; w / 2 ^ 24 mod 2 ^ 8] b.

(** ** The translation look-aside buffer

    What a routine asks of it: forgetting one page, or all but the global ones (the reload of
    CR3 of [arch_invalidate_TLB]). *)
Inductive tlb_op := FlushPage (va : Z) | FlushAll.

#[export] Instance tlb_op_eq_dec : EqDecision tlb_op.
Proof. solve_decision. Defined.

(** ** Windows *)

(** [win_get pa can_wait]: the status and the address stored through the pointer, if one is;
    [win_frame st va]: the physical page the processor finds at the page [va]. *)
Class Window := {
  win_state : Type;
  win_get : Z → bool → M win_state (Z * option Z);
  win_put : Z → M win_state Z;
  win_frame : win_state → Z → option Z }.

(** [win_ok st L]: the windows in [L], pairs of a virtual and a physical address, are lent. *)
Class WindowLaws (W : Window) := {
  win_ok : win_state → list (Z * Z) → Prop;
  win_slots : win_state → Z;
  win_frame_ok st L va pa : win_ok st L → (va, pa) ∈ L → pa mod PAGE_SIZE = 0 → win_frame st va = Some pa;
  win_get_ok st L pa b (Q : Z * option Z → win_state → Prop) :
    win_ok st L → Z.of_nat (length L) < win_slots st → 0 ≤ pa < 2 ^ 32 →
    (∀ va st', win_ok st' ((va, pa) :: L) → win_slots st' = win_slots st → Q (NO_ERROR, Some va) st') →
    wp (win_get pa b) st Q;
  win_put_ok st L1 L2 va pa (Q : Z → win_state → Prop) :
    win_ok st (L1 ++ (va, pa) :: L2) →
    (∀ st', win_ok st' (L1 ++ L2) → win_slots st' = win_slots st → Q NO_ERROR st') →
    wp (win_put va) st Q }.

(** ** Facts on fields *)

Definition field_ok (f : field) : Prop := 0 ≤ f_lo f ∧ 0 < f_len f ∧ f_lo f + f_len f ≤ 32.

Definition fields_apart (f g : field) : Prop := f_lo f + f_len f ≤ f_lo g ∨ f_lo g + f_len g ≤ f_lo f.

#[export] Instance field_ok_dec f : Decision (field_ok f) := ltac:(unfold field_ok; apply _).
#[export] Instance fields_apart_dec f g : Decision (fields_apart f g) := ltac:(unfold fields_apart; apply _).

Lemma fget_bit f w i : field_ok f → 0 ≤ i → Z.testbit (fget f w) i = (i <? f_len f) && Z.testbit w (f_lo f + i).
Proof.
  intros (? & ? & _) Hi. unfold fget. rewrite Z.land_spec, Z.shiftr_spec by done.
  rewrite (Z.add_comm i). destruct (Z.ltb_spec i (f_len f)).
  - rewrite Z.ones_spec_low by lia. simpl. by rewrite andb_true_r.
  - rewrite Z.ones_spec_high by lia. simpl. by rewrite andb_false_r.
Qed.

Lemma fset_bit f v w i : field_ok f → 0 ≤ i →
  Z.testbit (fset f v w) i = if (f_lo f <=? i) && (i <? f_lo f + f_len f) then Z.testbit v (i - f_lo f) else Z.testbit w i.
Proof.
  intros (? & ? & _) Hi. unfold fset. rewrite Z.lor_spec, Z.ldiff_spec, !Z.shiftl_spec by done.
  destruct (Z.leb_spec (f_lo f) i); simpl.
  - rewrite Z.land_spec. destruct (Z.ltb_spec i (f_lo f + f_len f)).
    + rewrite Z.ones_spec_low by lia. simpl. by rewrite andb_false_r, andb_true_r.
    + rewrite Z.ones_spec_high by lia. simpl. by rewrite andb_false_r, andb_true_r, orb_false_r.
  - rewrite !(Z.testbit_neg_r _ (i - f_lo f)) by lia. simpl. by rewrite andb_true_r, orb_false_r.
Qed.

Lemma fget_fset f v w : field_ok f → fget f (fset f v w) = uwrap (f_len f) v.
Proof.
  intros Hf. pose proof Hf as (? & ? & _). apply Z.bits_inj'. intros i Hi. rewrite fget_bit, fset_bit by (done || lia).
  unfold uwrap. destruct (Z.ltb_spec i (f_len f)); simpl.
  - rewrite Z.mod_pow2_bits_low by lia. rewrite (proj2 (Z.leb_le _ _)), (proj2 (Z.ltb_lt _ _)) by lia. simpl. f_equal. lia.
  - by rewrite Z.mod_pow2_bits_high by lia.
Qed.

Lemma fget_fset_ne f g v w : field_ok f → field_ok g → fields_apart f g → fget f (fset g v w) = fget f w.
Proof.
  intros Hf Hg Hfg. pose proof Hf as (? & ? & _). apply Z.bits_inj'. intros i Hi. rewrite !fget_bit by done.
  destruct (Z.ltb_spec i (f_len f)); simpl; [|done]. rewrite fset_bit by (done || lia).
  destruct (Z.leb_spec (f_lo g) (f_lo f + i)), (Z.ltb_spec (f_lo f + i) (f_lo g + f_len g)); simpl; try done.
  destruct Hfg; lia.
Qed.

Lemma fget_range f w : field_ok f → 0 ≤ fget f w < 2 ^ f_len f.
Proof. intros (? & ? & _). unfold fget. rewrite Z.land_ones by lia. apply Z.mod_pos_bound. lia. Qed.

Lemma fget_0 f : fget f 0 = 0.
Proof. unfold fget. by rewrite Z.shiftr_0_l, Z.land_0_l. Qed.

Lemma word_fset f v w : field_ok f → word w → word (fset f v w).
Proof.
  intros Hf Hw. pose proof Hf as (? & ? & ?). apply word_bits.
  - apply Z.bits_iff_nonneg_ex. exists 31. intros i Hi. rewrite fset_bit by (done || lia).
    rewrite (proj2 (Z.ltb_ge _ _)) by lia. rewrite andb_false_r. apply word_testbit; [done|lia].
  - intros i Hi. rewrite fset_bit by (done || lia). rewrite (proj2 (Z.ltb_ge _ _)) by lia.
    rewrite andb_false_r. by apply word_testbit.
Qed.

Lemma word_0 : word 0.
Proof. by_decide. Qed.

#[export] Hint Resolve word_0 : word.
#[export] Hint Extern 2 (word (fset _ _ _)) => apply word_fset; [by_decide|] : word.
(** Reading the fields of an entry under construction. *)
Ltac field_simpl := repeat first
  [ rewrite fget_fset by by_decide
  | rewrite fget_fset_ne by by_decide
  | rewrite fget_0 ].

(** ** Facts on words *)

Definition frame_ok (b : list Z) : Prop := length b = Z.to_nat PAGE_SIZE ∧ Forall (λ x, 0 ≤ x < 2 ^ 8) b.

Definition zero_frame : list Z := replicate (Z.to_nat PAGE_SIZE) 0.

Lemma zero_frame_ok : frame_ok zero_frame.
Proof. split; [apply length_replicate|]. apply Forall_replicate. lia. Qed.

Lemma word_at_zero i : 0 ≤ i < MAX_PTENTS → word_at zero_frame i = Some 0.
Proof.
  intros Hi. unfold MAX_PTENTS in Hi. unfold word_at, zero_frame, PAGE_SIZE.
  rewrite !lookup_replicate_2 by lia. done.
Qed.

Lemma word_at_some b i : frame_ok b → 0 ≤ i < MAX_PTENTS → ∃ w, word_at b i = Some w ∧ word w.
Proof.
  intros [Hl Hb] Hi. unfold MAX_PTENTS, PAGE_SIZE in *. unfold word_at.
  assert (∀ k, (k < 4)%nat → ∃ x, b !! (k + Z.to_nat (4 * i))%nat = Some x ∧ 0 ≤ x < 2 ^ 8) as H.
  { intros k Hk. destruct (lookup_lt_is_Some_2 b (k + Z.to_nat (4 * i))) as [x Hx]; [lia|].
    exists x. split; [done|]. by eapply Forall_lookup_1 in Hb. }
  destruct (H 0%nat) as (x0 & E0 & ?), (H 1%nat) as (x1 & E1 & ?), (H 2%nat) as (x2 & E2 & ?),
    (H 3%nat) as (x3 & E3 & ?); try lia. cbn [Nat.add] in *.
  rewrite E0, E1, E2, E3. simpl. eexists. split; [done|]. unfold word. lia.
Qed.

Lemma length_put_word i w b : length (put_word i w b) = length b.
Proof. apply length_inserts. Qed.

Lemma put_word_ok i w b : frame_ok b → frame_ok (put_word i w b).
Proof.
  intros [Hl Hb]. split; [by rewrite length_put_word|]. apply Forall_lookup_2. intros k x Hx.
  unfold put_word in Hx. apply list_lookup_inserts_Some in Hx as [[_ Hx]|(_ & _ & Hx)].
  - by eapply Forall_lookup_1 in Hb.
  - apply list_elem_of_lookup_2 in Hx. set_unfold. destruct_or!; subst; try done; apply Z.mod_pos_bound; lia.
Qed.

Lemma bytes_of_word w : word w →
  w mod 2 ^ 8 + 2 ^ 8 * (w / 2 ^ 8 mod 2 ^ 8) + 2 ^ 16 * (w / 2 ^ 16 mod 2 ^ 8) + 2 ^ 24 * (w / 2 ^ 24 mod 2 ^ 8) = w.
Proof.
  intros [H0 H1]. change (2 ^ 16) with (2 ^ 8 * 2 ^ 8). change (2 ^ 24) with (2 ^ 8 * 2 ^ 8 * 2 ^ 8).
  change (2 ^ 32) with (2 ^ 8 * 2 ^ 8 * 2 ^ 8 * 2 ^ 8) in H1.
  rewrite <- !Z.div_div by lia. Z.div_mod_to_equations. lia.
Qed.

Lemma word_at_put b i j w : frame_ok b → 0 ≤ i < MAX_PTENTS → 0 ≤ j < MAX_PTENTS → word w →
  word_at (put_word i w b) j = if decide (j = i) then Some w else word_at b j.
Proof.
  intros [Hl Hb] Hi Hj Hw. unfold MAX_PTENTS, PAGE_SIZE in *. unfold word_at, put_word. case_decide as E.
  - subst j. rewrite !list_lookup_inserts by (simpl; lia).
    rewrite !Nat.sub_succ_l, Nat.sub_diag by lia. simpl. f_equal. by apply bytes_of_word.
  - assert (∀ k, (k < 4)%nat → list_inserts (Z.to_nat (4 * i))
      [w mod 2 ^ 8; w / 2 ^ 8 mod 2 ^ 8; w / 2 ^ 16 mod 2 ^ 8; w / 2 ^ 24 mod 2 ^ 8] b !!
      (k + Z.to_nat (4 * j))%nat = b !! (k + Z.to_nat (4 * j))%nat) as H.
    { intros k Hk. destruct (Z.lt_ge_cases j i).
      - apply list_lookup_inserts_lt. lia.
      - apply list_lookup_inserts_ge. simpl. lia. }
    pose proof (H 0%nat ltac:(lia)) as E0. pose proof (H 1%nat ltac:(lia)) as E1.
    pose proof (H 2%nat ltac:(lia)) as E2. pose proof (H 3%nat ltac:(lia)) as E3.
    cbn [Nat.add] in *. by rewrite E0, E1, E2, E3.
Qed.
