(* ===== verification/PageMapper.v ===== *)
(** * The page mapper: [kernel/vm/vm_page_mapper.c]

    A pool of virtual addresses is cut into chunks with a descriptor each. A caller borrows
    the chunk that shows a physical address and gives it back; chunks in use are counted, and
    found again by their physical address in a tree. The state of the model is the static
    data of the file: the descriptors with their list and tree nodes, the state of the mutex,
    and that of the routine [map_chunk], which the user of the mapper passes. *)

From S2P Require Import Prelude XList AvlTree Mmu.
From stdpp Require Import gmap list.
#[local] Open Scope Z_scope.

(** ** What the mapper uses *)

(** The mutex of the pool. The statuses of its routines are ignored by the mapper. *)
Class PoolMutex := {
  mx_state : Type;
  mx_init : M mx_state unit;
  mx_lock : M mx_state Z;
  mx_unlock : M mx_state Z }.

(** [mx_raw]: there is memory for the mutex, whatever it holds. *)
Class MutexLaws (X : PoolMutex) := {
  mx_raw : mx_state → Prop;
  mx_free : mx_state → Prop;
  mx_held : mx_state → Prop;
  mx_init_ok st (Q : unit → mx_state → Prop) :
    mx_raw st → (∀ st', mx_free st' → Q tt st') → wp mx_init st Q;
  mx_lock_ok st (Q : Z → mx_state → Prop) :
    mx_free st → (∀ r st', mx_held st' → Q r st') → wp mx_lock st Q;
  mx_unlock_ok st (Q : Z → mx_state → Prop) :
    mx_held st → (∀ r st', mx_free st' → Q r st') → wp mx_unlock st Q }.

(** [map_chunk]; [cm_page st va]: the physical address that is seen at the chunk [va]. *)
Class ChunkMap := {
  cm_state : Type;
  cm_map : Z → Z → M cm_state Z;
  cm_page : cm_state → Z → option Z }.

(** [cm_ok st base size]: the chunks of a pool can be mapped. *)
Class ChunkLaws (C : ChunkMap) := {
  cm_ok : cm_state → Z → Z → Prop;
  cm_map_ok st base size pa va (Q : Z → cm_state → Prop) :
    cm_ok st base size → base ≤ va < base + size → va mod PAGE_SIZE = 0 →
    0 ≤ pa < 2 ^ 32 → pa mod PAGE_SIZE = 0 →
    (∀ st', cm_ok st' base size → cm_page st' va = Some pa →
       (∀ va', base ≤ va' < base + size → va' mod PAGE_SIZE = 0 → va' ≠ va → cm_page st' va' = cm_page st va') →
       Q NO_ERROR st') →
    wp (cm_map pa va) st Q }.

(** ** Data *)

(** [mapping_desc_t], but for the list node it begins with and the tree node. *)
Record mapping_desc := Desc { md_ref_count : Z; md_vaddr : Z; md_paddr : Z }.

Definition sizeof_mapping_desc : Z := 36.

Definition desc_tree_node : Z := 8.

Definition used_mappings : Z := 1.

Definition free_mappings : Z := 2.

Definition mappings_tree : Z := 3.

Definition ERR_VM_GENERAL : Z := s32 0x81000000.

(** [compare_mapping_desc], [pa] giving the physical addresses of its arguments. *)
Definition compare_mapping_desc (pa : Z → Z) (d1 d2 : Z) : Z :=
  if pa d2 <? pa d1 then 1 else if pa d1 <? pa d2 then -1 else 0.

Definition desc_client (pa : Z → Z) : AvlClient := {| avl_compare := compare_mapping_desc pa |}.

Section mapper.
Context {X : PoolMutex} {C : ChunkMap}.

(** The static data. *)
Record pmap := PMap {
  pm_lists : xstore; pm_tree : astore; pm_descs : gmap Z mapping_desc;
  pm_mutex : mx_state; pm_chunks : cm_state;
  map_pool_base : Z; map_pool_size : Z; map_pool_chunksize : Z;
  mappings : Z; mappings_count : Z }.

(** ** Access *)

Definition upd_lists x s := PMap x (pm_tree s) (pm_descs s) (pm_mutex s) (pm_chunks s)
  (map_pool_base s) (map_pool_size s) (map_pool_chunksize s) (mappings s) (mappings_count s).
Definition upd_tree x s := PMap (pm_lists s) x (pm_descs s) (pm_mutex s) (pm_chunks s)
  (map_pool_base s) (map_pool_size s) (map_pool_chunksize s) (mappings s) (mappings_count s).
Definition upd_descs x s := PMap (pm_lists s) (pm_tree s) x (pm_mutex s) (pm_chunks s)
  (map_pool_base s) (map_pool_size s) (map_pool_chunksize s) (mappings s) (mappings_count s).
Definition upd_mutex x s := PMap (pm_lists s) (pm_tree s) (pm_descs s) x (pm_chunks s)
  (map_pool_base s) (map_pool_size s) (map_pool_chunksize s) (mappings s) (mappings_count s).
Definition upd_chunks x s := PMap (pm_lists s) (pm_tree s) (pm_descs s) (pm_mutex s) x
  (map_pool_base s) (map_pool_size s) (map_pool_chunksize s) (mappings s) (mappings_count s).

Abbreviation on_lists := (zoom pm_lists upd_lists).
Abbreviation on_tree := (zoom pm_tree upd_tree).
Abbreviation on_mutex := (zoom pm_mutex upd_mutex).
Abbreviation on_chunks := (zoom pm_chunks upd_chunks).

Definition ld_desc (d : Z) : M pmap mapping_desc := load (λ s, pm_descs s !! d).

Definition st_desc (d : Z) (f : mapping_desc → mapping_desc) : M pmap unit := λ s,
  match pm_descs s !! d with
  | Some v => Ok (tt, upd_descs (<[d := f v]> (pm_descs s)) s)
  | None => Fault
  end.

(** [&mappings[i]] *)
Definition desc_ptr (s : pmap) (i : Z) : Z := u32 (mappings s + sizeof_mapping_desc * i).

Definition paddr_of (ds : gmap Z mapping_desc) (d : Z) : Z := default 0 (md_paddr <$> ds !! d).

(** The physical addresses when a local variable that holds [paddr] is taken for a
    descriptor at [key]. *)
Definition paddr_key (ds : gmap Z mapping_desc) (key paddr d : Z) : Z :=
  if d =? key then paddr else paddr_of ds d.

Definition add_ref (n : Z) (v : mapping_desc) : mapping_desc :=
  Desc (u32 (md_ref_count v + n)) (md_vaddr v) (md_paddr v).

(** ** Local routines *)

(** [key]: where [containerof] puts the descriptor that is looked for. *)
Definition tree_find_mapping (key paddr : Z) : M pmap (Z * aindex) :=
  pa ← gets (λ s, paddr_key (pm_descs s) key paddr);
  on_tree (@avl_tree_find (desc_client pa) mappings_tree key).

Definition tree_insert_mapping (d : Z) (where_ : aindex) : M pmap unit :=
  on_tree (avl_tree_insert mappings_tree d where_).

(** [tmp]: where [avl_tree_remove] has its local node. *)
Definition tree_remove_mapping (tmp d : Z) : M pmap Z :=
  pa ← gets (λ s, paddr_of (pm_descs s));
  on_tree (@avl_tree_remove (desc_client pa) mappings_tree d tmp).

Definition list_add_mapping (l d : Z) : M pmap unit := on_lists (xlist_add_last l d);; mret tt.

Definition list_remove_mapping (l d : Z) : M pmap Z := on_lists (xlist_remove_unsafe l d).

Definition list_extract_first_mapping (l : Z) : M pmap Z := on_lists (xlist_extract_first l).

(** ** Initialization *)

(** The loop that puts the chunks on the free list, from index [i]. *)
Fixpoint free_loop (n : nat) (i : Z) : M pmap unit :=
  match n with
  | O => mret tt
  | S n =>
      d ← gets (λ s, desc_ptr s i);
      va ← gets (λ s, u32 (map_pool_base s + u32 (i * map_pool_chunksize s)));
      st_desc d (λ v, Desc (md_ref_count v) va (md_paddr v));;
      list_add_mapping free_mappings d;;
      free_loop n (i + 1)
  end.

(** [&mappings[i]] before the loop: the memory is filled with zeroes. *)
Fixpoint clear_descs (n : nat) (i : Z) : M pmap unit :=
  match n with
  | O => mret tt
  | S n =>
      d ← gets (λ s, desc_ptr s i);
      modify (λ s, upd_descs (<[d := Desc 0 0 0]> (pm_descs s))
        (upd_lists (XStore (<[d := ListElem NULL NULL]> (nodes (pm_lists s))) (lists (pm_lists s)))
          (upd_tree (AStore (<[AVL_DATA2NODE d desc_tree_node := ANode NULL NULL NULL 0 0]> (anodes (pm_tree s)))
            (atrees (pm_tree s))) s)));;
      clear_descs n (i + 1)
  end.

(** [vspace], [mem]: the addresses [vm_alloc_vspace_from_kargs] and [vm_alloc_from_kargs]
    answer with; the result is the status and what is stored through [pool_base]. *)
Definition vm_page_mapper_init (vspace mem pool_size pool_chunksize pool_align : Z) : M pmap (Z * option Z) :=
  let set base mem := modify (λ s, PMap (pm_lists s) (pm_tree s) (pm_descs s) (pm_mutex s) (pm_chunks s)
    base pool_size pool_chunksize mem (pool_size / pool_chunksize)) in
  if negb (pool_size mod pool_chunksize =? 0) then panic
  else if vspace =? NULL then mem0 ← gets mappings; set vspace mem0;; mret (ERR_NO_MEMORY, None)
  else
    let base := u32 (u32 (vspace + pool_align - 1) / pool_align * pool_align) in
    set base mem;;
    if mem =? NULL then mret (ERR_NO_MEMORY, Some base)
    else
      n ← gets mappings_count;
      clear_descs (Z.to_nat n) 0;;
      on_tree (avl_tree_create mappings_tree sizeof_mapping_desc desc_tree_node);;
      on_lists (xlist_init used_mappings);;
      on_lists (xlist_init free_mappings);;
      free_loop (Z.to_nat n) 0;;
      on_mutex mx_init;;
      mret (NO_ERROR, Some base).

(** ** Borrowing and giving back *)

(** The free chunk [md] is made to show [paddr]. *)
Definition take_chunk (md : Z) (where_ : aindex) (paddr pa : Z) : M pmap (option (Z * option Z)) :=
  chunk ← gets map_pool_chunksize;
  st_desc md (add_ref 1);;
  st_desc md (λ v, Desc (md_ref_count v) (md_vaddr v) paddr);;
  v ← ld_desc md;
  let va := u32 (md_vaddr v + pa mod chunk) in
  list_add_mapping used_mappings md;;
  tree_insert_mapping md where_;;
  st ← on_chunks (cm_map (md_paddr v) (md_vaddr v));
  if negb (st =? NO_ERROR) then panic
  else
    on_mutex mx_unlock;;
    mret (Some (NO_ERROR, Some va)).

(** One round of [vm_pmap_get_ppage]; [None]: back to the label [restart]. *)
Definition get_round (key pa : Z) (can_wait : bool) : M pmap (option (Z * option Z)) :=
  chunk ← gets map_pool_chunksize;
  let paddr := ROUNDOWN pa chunk in
  on_mutex mx_lock;;
  r ← tree_find_mapping key paddr;
  let '(md, where_) := r in
  if negb (md =? NULL) then
    st_desc md (add_ref 1);;
    v ← ld_desc md;
    on_mutex mx_unlock;;
    mret (Some (NO_ERROR, Some (u32 (md_vaddr v + pa mod chunk))))
  else
    md ← list_extract_first_mapping free_mappings;
    if md =? NULL then
      on_mutex mx_unlock;;
      mret (if can_wait then None else Some (ERR_NO_MEMORY, None))
    else
      take_chunk md where_ paddr pa.

(** [fuel]: nobody gives a chunk back while the routine runs, so that a second round would
    not differ from the first. *)
Fixpoint get_loop (fuel : nat) (key pa : Z) (can_wait : bool) : M pmap (Z * option Z) :=
  match fuel with
  | O => hang
  | S fuel =>
      r ← get_round key pa can_wait;
      match r with
      | Some r => mret r
      | None => get_loop fuel key pa can_wait
      end
  end.

(** The status, and what is stored through [va], if anything is. *)
Definition vm_pmap_get_ppage (key pa : Z) (can_wait : bool) : M pmap (Z * option Z) :=
  get_loop 1 key pa can_wait.

(** The chunk [md] has no references left. *)
Definition release_chunk (tmp md : Z) : M pmap unit :=
  list_remove_mapping used_mappings md;;
  r ← tree_remove_mapping tmp md;
  if r =? 0 then panic else list_add_mapping free_mappings md.

Definition vm_pmap_put_ppage (tmp va : Z) : M pmap Z :=
  base ← gets map_pool_base; size ← gets map_pool_size; chunk ← gets map_pool_chunksize;
  if (va <? base) || (u32 (base + size) <=? va) then panic
  else
    let va := u32 (va - base) in
    on_mutex mx_lock;;
    md ← gets (λ s, desc_ptr s (va / chunk));
    v ← ld_desc md;
    if md_ref_count v =? 0 then panic
    else
      st_desc md (add_ref (-1));;
      v ← ld_desc md;
      when (md_ref_count v =? 0) (release_chunk tmp md);;
      on_mutex mx_unlock;;
      mret NO_ERROR.
End mapper.
