(* ===== verification/PageMapperSpec.v ===== *)
(** * The contract of the page mapper

    The invariant says which chunks are lent: a list of windows, pairs of a virtual and a
    physical address, determines the counters of the descriptors, the two lists and the
    tree. Borrowing adds a window, giving back removes it; so the mapper is an instance of
    the windows of Mmu. *)

From stdpp Require Import gmap list sorting.
From S2P Require Import Prelude XList AvlTree AvlTreeSpec AvlSet AvlRemove AvlOrdered AvlIndex Mmu PageMapper.
#[local] Open Scope Z_scope.

(** ** The order of descriptors *)

Lemma desc_order pa : AvlOrder (desc_client pa).
Proof.
  split; simpl; unfold compare_mapping_desc.
  - intros. repeat case_match; lia.
  - intros v w. repeat case_match; bool_to_prop; lia.
  - intros u v w. repeat case_match; bool_to_prop; lia.
Qed.

Lemma desc_eq pa v w : @avl_compare (desc_client pa) v w = 0 ↔ pa v = pa w.
Proof. simpl. unfold compare_mapping_desc. repeat case_match; bool_to_prop; lia. Qed.

(** Clients that give the same physical addresses compare alike. *)
Lemma desc_same pa pa' v w v' w' : pa' v' = pa v → pa' w' = pa w →
  @avl_compare (desc_client pa') v' w' = @avl_compare (desc_client pa) v w.
Proof. simpl. unfold compare_mapping_desc. by intros -> ->. Qed.

(** ** Windows and their chunks *)

Section geometry.
Variables (base chunk : Z).

(** The chunk a window is in, and how many windows a chunk has. *)
Definition slot_of (w : Z * Z) : Z := (w.1 - base) / chunk.

Definition refs (L : list (Z * Z)) (i : Z) : Z := Z.of_nat (length (filter (λ w, slot_of w = i) L)).

Lemma refs_cons w L i : refs (w :: L) i = (if decide (slot_of w = i) then 1 else 0) + refs L i.
Proof. unfold refs. rewrite filter_cons. case_decide; simpl; lia. Qed.

Lemma refs_middle w L1 L2 i : refs (L1 ++ w :: L2) i = (if decide (slot_of w = i) then 1 else 0) + refs (L1 ++ L2) i.
Proof.
  unfold refs. rewrite !filter_app, filter_cons, !length_app. case_decide; simpl; lia.
Qed.

Lemma refs_bound L i : 0 ≤ refs L i ≤ Z.of_nat (length L).
Proof. unfold refs. pose proof (length_filter (λ w, slot_of w = i) L). lia. Qed.

Lemma refs_in L i w : w ∈ L → slot_of w = i → 0 < refs L i.
Proof. intros (L1 & L2 & ->)%list_elem_of_split E. rewrite refs_middle, decide_True by done. pose proof (refs_bound (L1 ++ L2) i). lia. Qed.

(** Chunks that all have windows are no more than the windows. *)
Lemma refs_pigeonhole L n : 0 ≤ n → (∀ i, 0 ≤ i < n → refs L i ≠ 0) → n ≤ Z.of_nat (length L).
Proof.
  intros Hn Hall. assert (seqZ 0 n ⊆+ map slot_of L) as H.
  { apply NoDup_submseteq; [apply NoDup_seqZ|]. intros i Hi%elem_of_seqZ.
    destruct (filter (λ w, slot_of w = i) L) as [|w l] eqn:E.
    - destruct (Hall i); [lia|]. unfold refs. by rewrite E.
    - assert (w ∈ filter (λ w, slot_of w = i) L) as [Hw Hin]%list_elem_of_filter by (rewrite E; left).
      apply list_elem_of_fmap. by exists w. }
  apply submseteq_length in H. rewrite length_seqZ, length_map in H. lia.
Qed.

(** A physical address in the chunk at [va], and back. *)
Lemma chunk_offset i pa : 0 < chunk → slot_of (base + i * chunk + pa mod chunk, pa) = i.
Proof.
  intros Hc. unfold slot_of. simpl. pose proof (Z.mod_pos_bound pa chunk Hc).
  replace (base + i * chunk + pa mod chunk - base) with (pa mod chunk + i * chunk) by lia.
  rewrite Z.div_add, Z.div_small by lia. lia.
Qed.
End geometry.

(** ** The invariant *)

Section spec.
Context {X : PoolMutex} {XL : MutexLaws X} {C : ChunkMap} {CL : ChunkLaws C}.
Implicit Types s : pmap.

Abbreviation client s := (desc_client (paddr_of (pm_descs s))).

Definition dptr s (i : Z) : Z := mappings s + sizeof_mapping_desc * i.

Record pool_geometry s : Prop := {
  pg_chunk : 0 < map_pool_chunksize s;
  pg_pages : map_pool_chunksize s mod PAGE_SIZE = 0;
  pg_base : 0 ≤ map_pool_base s;
  pg_aligned : map_pool_base s mod PAGE_SIZE = 0;
  pg_count : 0 ≤ mappings_count s;
  pg_size : map_pool_size s = mappings_count s * map_pool_chunksize s;
  pg_end : map_pool_base s + map_pool_size s < 2 ^ 32;
  pg_mappings : 0 < mappings s ∧ mappings s + sizeof_mapping_desc * mappings_count s ≤ 2 ^ 32 }.

(** The descriptor [v] of chunk [i] while the windows [L] are lent. *)
Record desc_ok s (L : list (Z * Z)) (i : Z) (v : mapping_desc) : Prop := {
  do_index : 0 ≤ i < mappings_count s;
  do_vaddr : md_vaddr v = map_pool_base s + i * map_pool_chunksize s;
  do_paddr : 0 ≤ md_paddr v < 2 ^ 32 ∧ md_paddr v mod map_pool_chunksize s = 0;
  do_refs : md_ref_count v = refs (map_pool_base s) (map_pool_chunksize s) L i;
  do_seen : md_ref_count v ≠ 0 → cm_page (pm_chunks s) (md_vaddr v) = Some (md_paddr v) }.

(** A window lent. *)
Definition window_ok s (w : Z * Z) : Prop :=
  ∃ i v, pm_descs s !! dptr s i = Some v ∧ 0 ≤ w.2 < 2 ^ 32 ∧
    md_paddr v = ROUNDOWN w.2 (map_pool_chunksize s) ∧
    w.1 = map_pool_base s + i * map_pool_chunksize s + w.2 mod map_pool_chunksize s.

(** [used] and [free]: the descriptors on the lists; [known]: those in the tree. *)
Record pmap_rep s (L : list (Z * Z)) (used free known : list Z) : Prop := {
  pr_geometry : pool_geometry s;
  pr_all i : 0 ≤ i < mappings_count s → is_Some (pm_descs s !! dptr s i);
  pr_desc d v : pm_descs s !! d = Some v → ∃ i, d = dptr s i ∧ desc_ok s L i v;
  pr_used : is_xlist (pm_lists s) used_mappings used;
  pr_free : is_xlist (pm_lists s) free_mappings free;
  pr_tree : @is_aset (client s) (pm_tree s) mappings_tree desc_tree_node known;
  pr_in_used d : d ∈ used ↔ ∃ v, pm_descs s !! d = Some v ∧ md_ref_count v ≠ 0;
  pr_in_free d : d ∈ free ↔ ∃ v, pm_descs s !! d = Some v ∧ md_ref_count v = 0;
  pr_known d : d ∈ known ↔ d ∈ used;
  pr_nodes d : d ∈ dom (pm_descs s) → d ∈ dom (nodes (pm_lists s)) ∧
    AVL_DATA2NODE d desc_tree_node ∈ dom (anodes (pm_tree s));
  pr_windows w : w ∈ L → window_ok s w;
  pr_chunks : cm_ok (pm_chunks s) (map_pool_base s) (map_pool_size s);
  pr_mutex : mx_free (pm_mutex s) }.

(** [key], [tmp]: where the routines have their locals. *)
Record pmap_ok (key tmp : Z) s (L : list (Z * Z)) : Prop := {
  po_rep : ∃ used free known, pmap_rep s L used free known;
  po_len : Z.of_nat (length L) < 2 ^ 32;
  po_key : key ∉ dom (pm_descs s);
  po_tmp : tmp ∉ dom (anodes (pm_tree s)) ∧ valid_ptr tmp }.

(** ** Addresses of descriptors *)

Section rep.
Context {s : pmap} {L : list (Z * Z)} {used free known : list Z} (Hs : pmap_rep s L used free known).

Lemma dptr_range i : 0 ≤ i < mappings_count s → 0 < dptr s i ∧ dptr s i + sizeof_mapping_desc ≤ 2 ^ 32.
Proof using Hs. pose proof (pg_mappings _ (pr_geometry _ _ _ _ _ Hs)). unfold dptr, sizeof_mapping_desc in *. lia. Qed.

Lemma desc_ptr_eq i : 0 ≤ i < mappings_count s → desc_ptr s i = dptr s i.
Proof using Hs.
  intros Hi. pose proof (dptr_range i Hi). unfold desc_ptr. apply uwrap_small.
  unfold dptr, sizeof_mapping_desc in *. lia.
Qed.

Lemma dptr_inj i j : dptr s i = dptr s j → i = j.
Proof using. unfold dptr, sizeof_mapping_desc. lia. Qed.

Lemma desc_addr d : d ∈ dom (pm_descs s) → 0 < d ∧ d + sizeof_mapping_desc ≤ 2 ^ 32.
Proof using Hs.
  intros [v Hv]%elem_of_dom. destruct (pr_desc _ _ _ _ _ Hs _ _ Hv) as (i & -> & Hd).
  apply dptr_range, Hd.
Qed.

Lemma desc_valid d : d ∈ dom (pm_descs s) → valid_ptr d ∧ d ≠ NULL.
Proof using Hs. intros [? ?]%desc_addr. unfold valid_ptr, NULL, sizeof_mapping_desc in *. lia. Qed.

Lemma desc_node d : d ∈ dom (pm_descs s) → has_node (pm_tree s) desc_tree_node d.
Proof using Hs.
  intros Hd. destruct (desc_addr d Hd). destruct (desc_valid d Hd). destruct (pr_nodes _ _ _ _ _ Hs d Hd).
  assert (AVL_DATA2NODE d desc_tree_node = d + 8) as E
    by (apply uwrap_small; unfold desc_tree_node, sizeof_mapping_desc in *; lia).
  unfold has_node. split_and!; [done| |rewrite E|done].
  - rewrite E. unfold valid_ptr, sizeof_mapping_desc in *. lia.
  - unfold data, AVL_NODE2DATA, desc_tree_node. replace (d + 8 - 8) with d by lia. apply uwrap_small.
    unfold sizeof_mapping_desc in *. lia.
Qed.

Lemma used_desc d : d ∈ used → d ∈ dom (pm_descs s).
Proof using Hs. intros (v & Hv & _)%(pr_in_used _ _ _ _ _ Hs). by apply elem_of_dom_2 in Hv. Qed.

Lemma free_desc d : d ∈ free → d ∈ dom (pm_descs s).
Proof using Hs. intros (v & Hv & _)%(pr_in_free _ _ _ _ _ Hs). by apply elem_of_dom_2 in Hv. Qed.

Lemma free_not_used d : d ∈ free → d ∉ used.
Proof using Hs.
  intros (v & Hv & E)%(pr_in_free _ _ _ _ _ Hs) (v' & Hv' & E')%(pr_in_used _ _ _ _ _ Hs). congruence.
Qed.

Lemma window_slot w i v : pm_descs s !! dptr s i = Some v →
  w.1 = map_pool_base s + i * map_pool_chunksize s + w.2 mod map_pool_chunksize s →
  slot_of (map_pool_base s) (map_pool_chunksize s) w = i.
Proof using Hs.
  intros _ E. destruct w as [va pa]. simpl in *. subst va. apply chunk_offset, (pg_chunk _ (pr_geometry _ _ _ _ _ Hs)).
Qed.

(** A chunk without windows. *)
Lemma no_windows i v w : pm_descs s !! dptr s i = Some v → md_ref_count v = 0 → w ∈ L →
  slot_of (map_pool_base s) (map_pool_chunksize s) w ≠ i.
Proof using Hs.
  intros Hv H0 Hw E. destruct (pr_desc _ _ _ _ _ Hs _ _ Hv) as (j & Ej & Hd). apply dptr_inj in Ej as <-.
  pose proof (do_refs _ _ _ _ Hd). pose proof (refs_in _ _ _ _ _ Hw E). lia.
Qed.

Lemma chunk_in_pool i : 0 ≤ i < mappings_count s →
  let va := map_pool_base s + i * map_pool_chunksize s in
  map_pool_base s ≤ va ∧ va + map_pool_chunksize s ≤ map_pool_base s + map_pool_size s ∧ va mod PAGE_SIZE = 0.
Proof using Hs.
  intros Hi. destruct (pr_geometry _ _ _ _ _ Hs). simpl. rewrite pg_size0. split_and!; [nia|nia|].
  rewrite Z.add_mod, pg_aligned0, Z.mul_mod, pg_pages0, Z.mul_0_r by done. done.
Qed.

Lemma paddr_aligned x : x mod map_pool_chunksize s = 0 → x mod PAGE_SIZE = 0.
Proof using Hs.
  intros Hx. destruct (pr_geometry _ _ _ _ _ Hs). apply Z.mod_divide in Hx, pg_pages0; [|done|lia].
  apply Z.mod_divide; [done|]. by etransitivity.
Qed.

Lemma rounddown_ok pa : 0 ≤ pa < 2 ^ 32 →
  0 ≤ ROUNDOWN pa (map_pool_chunksize s) < 2 ^ 32 ∧ ROUNDOWN pa (map_pool_chunksize s) mod map_pool_chunksize s = 0.
Proof using Hs.
  intros Hpa. pose proof (pg_chunk _ (pr_geometry _ _ _ _ _ Hs)). unfold ROUNDOWN.
  rewrite Z.mod_mul by lia. split; [|done].
  pose proof (Z.mul_div_le pa (map_pool_chunksize s)). pose proof (Z.div_pos pa (map_pool_chunksize s)). nia.
Qed.
End rep.

(** ** A change of one descriptor *)

(** The state after the descriptor at [d] became [v], with new stores. *)
Definition changed s (d : Z) (v : mapping_desc) x t ch m : pmap :=
  upd_mutex m (upd_chunks ch (upd_tree t (upd_lists x (upd_descs (<[d := v]> (pm_descs s)) s)))).

Lemma window_keep s i v v' x t ch m w j u :
  pm_descs s !! dptr s i = Some v → pm_descs s !! dptr s j = Some u →
  (j = i → md_paddr v' = md_paddr v) →
  0 ≤ w.2 < 2 ^ 32 → md_paddr u = ROUNDOWN w.2 (map_pool_chunksize s) →
  w.1 = map_pool_base s + j * map_pool_chunksize s + w.2 mod map_pool_chunksize s →
  window_ok (changed s (dptr s i) v' x t ch m) w.
Proof.
  intros Hv Hu Hp Hw Ep Ew. destruct (decide (j = i)) as [->|Hne].
  - exists i, v'. split_and!; [by simpl; rewrite lookup_insert_eq|lia..| |done].
    rewrite Hp by done. assert (u = v) as -> by congruence. done.
  - exists j, u. split_and!; [|lia..|done|done]. simpl. rewrite lookup_insert_ne; [done|].
    intros E. by apply Hne, eq_sym, (dptr_inj (s := s)).
Qed.

Lemma rep_change s L L' used free known used' free' known' i v v' x t ch m :
  pmap_rep s L used free known → pm_descs s !! dptr s i = Some v →
  (∀ j, j ≠ i → refs (map_pool_base s) (map_pool_chunksize s) L' j = refs (map_pool_base s) (map_pool_chunksize s) L j) →
  desc_ok (changed s (dptr s i) v' x t ch m) L' i v' →
  is_xlist x used_mappings used' → is_xlist x free_mappings free' →
  @is_aset (desc_client (paddr_of (<[dptr s i := v']> (pm_descs s)))) t mappings_tree desc_tree_node known' →
  (∀ d, d ∈ used' ↔ if decide (d = dptr s i) then md_ref_count v' ≠ 0 else d ∈ used) →
  (∀ d, d ∈ free' ↔ if decide (d = dptr s i) then md_ref_count v' = 0 else d ∈ free) →
  (∀ d, d ∈ known' ↔ d ∈ used') →
  dom (nodes x) = dom (nodes (pm_lists s)) → dom (anodes t) = dom (anodes (pm_tree s)) →
  (∀ w, w ∈ L' → window_ok (changed s (dptr s i) v' x t ch m) w) →
  cm_ok ch (map_pool_base s) (map_pool_size s) →
  (∀ j, 0 ≤ j < mappings_count s → j ≠ i → let va := map_pool_base s + j * map_pool_chunksize s in
     cm_page ch va = cm_page (pm_chunks s) va) →
  mx_free m →
  pmap_rep (changed s (dptr s i) v' x t ch m) L' used' free' known'.
Proof.
  intros Hs Hv HL Hd' Hu Hf Ht Hiu Hif Hk Hdx Hdt Hw Hch Hpg Hm. pose proof Hs as [Hg Hall Hdesc _ _ _ Hu0 Hf0 _ Hn _ _ _].
  assert (∀ j, j ≠ i → dptr s i ≠ dptr s j) as Hne.
  { intros j Hji E. by apply Hji, eq_sym, (dptr_inj (s := s)). }
  split; simpl; try done.
  - by destruct Hg; split.
  - intros j Hj. destruct (decide (j = i)) as [->|Hji]; [by rewrite lookup_insert_eq|].
    rewrite lookup_insert_ne by by apply Hne. by apply Hall.
  - intros d u [[<- <-]|[Hdi Hd]]%lookup_insert_Some; [by exists i|].
    destruct (Hdesc _ _ Hd) as (j & -> & [Hj1 Hj2 Hj3 Hj4 Hj5]). exists j. split; [done|].
    assert (j ≠ i) as Hji by by intros ->. split; try done; simpl.
    + by rewrite HL.
    + intros Hr. rewrite Hj2, Hpg by done. rewrite <- Hj2. by apply Hj5.
  - intros d. rewrite Hiu. case_decide as E.
    + subst d. rewrite lookup_insert_eq. naive_solver.
    + by rewrite lookup_insert_ne, Hu0.
  - intros d. rewrite Hif. case_decide as E.
    + subst d. rewrite lookup_insert_eq. naive_solver.
    + by rewrite lookup_insert_ne, Hf0.
  - intros d. rewrite Hdx, Hdt, dom_insert_in by by apply elem_of_dom_2 in Hv. apply Hn.
Qed.

(** ** Finding a chunk *)

(** The client that looks for [paddr] through the local at [key] sees the tree as it is. *)
Lemma key_client key paddr s L used free known :
  pmap_rep s L used free known → key ∉ dom (pm_descs s) →
  @is_aset (desc_client (paddr_key (pm_descs s) key paddr)) (pm_tree s) mappings_tree desc_tree_node known.
Proof.
  intros Hs Hk. eapply (aset_client (desc_client (paddr_of (pm_descs s)))); [|apply (pr_tree _ _ _ _ _ Hs)]. intros v w Hv Hw.
  assert (∀ d, d ∈ known → paddr_key (pm_descs s) key paddr d = paddr_of (pm_descs s) d) as E.
  { intros d Hd%(pr_known _ _ _ _ _ Hs)%(used_desc Hs). unfold paddr_key.
    rewrite (proj2 (Z.eqb_neq d key)); [done|]. by intros ->. }
  apply desc_same; by apply E.
Qed.

Lemma paddr_of_some (ds : gmap Z mapping_desc) d v : ds !! d = Some v → paddr_of ds d = md_paddr v.
Proof. unfold paddr_of. by intros ->. Qed.

Lemma wp_tree_find key paddr s s1 L used free known (Q : Z * aindex → pmap → Prop) :
  pmap_rep s L used free known → key ∉ dom (pm_descs s) → pm_tree s1 = pm_tree s → pm_descs s1 = pm_descs s →
  (∀ i v ix, pm_descs s !! dptr s i = Some v → desc_ok s L i v → md_ref_count v ≠ 0 → md_paddr v = paddr →
     Q (dptr s i, ix) s1) →
  (∀ l1 l2 ix, known = l1 ++ l2 → Forall (λ d, paddr_of (pm_descs s) d ≠ paddr) known →
     @aplace (desc_client (paddr_key (pm_descs s) key paddr)) (pm_tree s) mappings_tree desc_tree_node key l1 l2 ix →
     Q (NULL, ix) s1) →
  wp (tree_find_mapping key paddr) s1 Q.
Proof.
  intros Hs Hk Et Ed H1 H2. pose proof (key_client key paddr s L used free known Hs Hk) as Ht.
  set (pa := paddr_key (pm_descs s) key paddr) in *. pose proof (desc_order pa).
  assert (upd_tree (pm_tree s) s1 = s1) as Es by (rewrite <- Et; by destruct s1).
  assert (pa key = paddr) as Ekey by (unfold pa, paddr_key; by rewrite Z.eqb_refl).
  assert (∀ d, d ∈ known → pa d = paddr_of (pm_descs s) d) as E.
  { intros d Hd%(pr_known _ _ _ _ _ Hs)%(used_desc Hs). unfold pa, paddr_key.
    rewrite (proj2 (Z.eqb_neq d key)); [done|]. by intros ->. }
  unfold tree_find_mapping. wp_go. rewrite Et, Ed. fold pa. eapply wp_find_index; [exact Ht|..].
  - intros d ix Hin _ Eq. rewrite Es. apply desc_eq in Eq. rewrite Ekey in Eq.
    pose proof (E d Hin) as Ed'. apply (pr_known _ _ _ _ _ Hs), (pr_in_used _ _ _ _ _ Hs) in Hin as (v & Hv & Hr).
    destruct (pr_desc _ _ _ _ _ Hs _ _ Hv) as (i & -> & Hd). apply (H1 i v); [done..|].
    rewrite (paddr_of_some _ _ _ Hv) in Ed'. congruence.
  - intros l1 l2 ix -> Hl1 Hl2 Hp. rewrite Es. apply (H2 l1 l2); [done| |done].
    apply Forall_forall. intros d Hd Ed'. rewrite <- E in Ed' by done.
    assert (@avl_compare (desc_client pa) d key = 0) as E1 by (apply desc_eq; congruence).
    assert (@avl_compare (desc_client pa) key d = 0) as E2 by (apply desc_eq; congruence).
    unfold cmp_lt in *. apply elem_of_app in Hd as [Hd|Hd].
    + apply (proj1 (Forall_forall _ _) Hl1) in Hd. lia.
    + apply (proj1 (Forall_forall _ _) Hl2) in Hd. lia.
Qed.

(** Counting does not move a descriptor in the tree. *)
Lemma paddr_add_ref (ds : gmap Z mapping_desc) d v n d' : ds !! d = Some v →
  paddr_of (<[d := add_ref n v]> ds) d' = paddr_of ds d'.
Proof.
  intros Hv. unfold paddr_of. destruct (decide (d' = d)) as [->|?]; [by rewrite lookup_insert_eq, Hv|by rewrite lookup_insert_ne].
Qed.

Lemma tree_add_ref s L used free known d v n : pmap_rep s L used free known → pm_descs s !! d = Some v →
  @is_aset (desc_client (paddr_of (<[d := add_ref n v]> (pm_descs s)))) (pm_tree s) mappings_tree desc_tree_node known.
Proof.
  intros Hs Hv. eapply (aset_client (desc_client (paddr_of (pm_descs s)))); [|apply (pr_tree _ _ _ _ _ Hs)].
  intros d1 d2 _ _. apply desc_same; by apply paddr_add_ref.
Qed.

(** ** Borrowing *)

(** A chunk that is in use is shared. *)
Lemma rep_share s L used free known i v pa m :
  pmap_rep s L used free known → pm_descs s !! dptr s i = Some v → md_ref_count v ≠ 0 →
  0 ≤ pa < 2 ^ 32 → md_paddr v = ROUNDOWN pa (map_pool_chunksize s) → Z.of_nat (length L) + 1 < 2 ^ 32 → mx_free m →
  pmap_rep (changed s (dptr s i) (add_ref 1 v) (pm_lists s) (pm_tree s) (pm_chunks s) m)
    ((map_pool_base s + i * map_pool_chunksize s + pa mod map_pool_chunksize s, pa) :: L) used free known.
Proof.
  intros Hs Hv Hr Hpa Ep HL Hm. pose proof (pg_chunk _ (pr_geometry _ _ _ _ _ Hs)) as Hc.
  destruct (pr_desc _ _ _ _ _ Hs _ _ Hv) as (j & Ej & Hd). apply (dptr_inj (s := s)) in Ej as <-.
  set (w := (_, pa)). assert (slot_of (map_pool_base s) (map_pool_chunksize s) w = i) as Ew by by apply chunk_offset.
  pose proof (refs_bound (map_pool_base s) (map_pool_chunksize s) L i) as Hb.
  assert (md_ref_count (add_ref 1 v) = md_ref_count v + 1) as Er.
  { simpl. rewrite (do_refs _ _ _ _ Hd) in *. apply uwrap_small. lia. }
  assert (md_ref_count v + 1 ≠ 0) as Hr1 by (rewrite (do_refs _ _ _ _ Hd); lia).
  eapply rep_change; try done; try apply Hs.
  - intros j Hj. rewrite refs_cons, decide_False by congruence. lia.
  - destruct Hd. split; simpl in *; try done.
    + rewrite refs_cons, decide_True by done. lia.
    + intros _. by apply do_seen0.
  - by eapply tree_add_ref.
  - intros d. case_decide as E; [|done]. subst d. rewrite (pr_in_used _ _ _ _ _ Hs). rewrite Er. naive_solver.
  - intros d. case_decide as E; [|done]. subst d. rewrite (pr_in_free _ _ _ _ _ Hs). rewrite Er. naive_solver.
  - intros w' [->|Hw]%elem_of_cons.
    + exists i, (add_ref 1 v). split_and!; [by simpl; rewrite lookup_insert_eq|simpl; lia..|done|done].
    + destruct (pr_windows _ _ _ _ _ Hs _ Hw) as (j & u & Hu & ? & ? & ?). eapply window_keep; try done.
Qed.

(** A free chunk is taken for a physical address that no chunk shows. *)
Lemma rep_take s L used free l1 l2 i v pa x t ch m :
  let d := dptr s i in
  let v' := Desc (u32 (md_ref_count v + 1)) (md_vaddr v) (ROUNDOWN pa (map_pool_chunksize s)) in
  pmap_rep s L used (d :: free) (l1 ++ l2) → pm_descs s !! d = Some v → 0 ≤ pa < 2 ^ 32 →
  is_xlist x used_mappings (used ++ [d]) → is_xlist x free_mappings free → dom (nodes x) = dom (nodes (pm_lists s)) →
  @is_aset (desc_client (paddr_of (<[d := v']> (pm_descs s)))) t mappings_tree desc_tree_node (l1 ++ d :: l2) →
  dom (anodes t) = dom (anodes (pm_tree s)) →
  cm_ok ch (map_pool_base s) (map_pool_size s) → cm_page ch (md_vaddr v) = Some (md_paddr v') →
  (∀ va, map_pool_base s ≤ va < map_pool_base s + map_pool_size s → va mod PAGE_SIZE = 0 → va ≠ md_vaddr v →
     cm_page ch va = cm_page (pm_chunks s) va) →
  mx_free m →
  pmap_rep (changed s d v' x t ch m)
    ((map_pool_base s + i * map_pool_chunksize s + pa mod map_pool_chunksize s, pa) :: L)
    (used ++ [d]) free (l1 ++ d :: l2).
Proof.
  intros d v' Hs Hv Hpa Hxu Hxf Hxd Ht Htd Hch Hseen Hother Hm.
  pose proof (pg_chunk _ (pr_geometry _ _ _ _ _ Hs)) as Hc.
  destruct (pr_desc _ _ _ _ _ Hs _ _ Hv) as (j & Ej & Hd). apply (dptr_inj (s := s)) in Ej as <-.
  assert (d ∈ d :: free) as H0 by left. apply (pr_in_free _ _ _ _ _ Hs) in H0 as (v0 & Hv0 & H0).
  assert (v0 = v) as -> by congruence.
  set (w := (_, pa)). assert (slot_of (map_pool_base s) (map_pool_chunksize s) w = i) as Ew by by apply chunk_offset.
  assert (md_ref_count v' = 1) as Er by (simpl; by rewrite H0).
  assert (d ∉ used) as Hdu by (apply (free_not_used Hs); left).
  pose proof (ix_nodup _ _ _ (pr_free _ _ _ _ _ Hs)) as [Hdf _]%NoDup_cons.
  eapply rep_change; try done.
  - intros j Hj. rewrite refs_cons, decide_False by congruence. lia.
  - destruct Hd. split; try done.
    + by apply (rounddown_ok Hs).
    + rewrite Er, refs_cons, decide_True by done. rewrite H0 in do_refs0.
      change (1 = 1 + refs (map_pool_base s) (map_pool_chunksize s) L i). lia.
  - intros d'. rewrite elem_of_app, list_elem_of_singleton. case_decide as E; [|naive_solver].
    subst d'. rewrite Er. naive_solver.
  - intros d'. pose proof (pr_in_free _ _ _ _ _ Hs d') as Hf. case_decide as E; [|set_solver].
    subst d'. rewrite Er. naive_solver.
  - intros d'. pose proof (pr_known _ _ _ _ _ Hs d') as Hk. set_solver.
  - intros w' [->|Hw]%elem_of_cons.
    + exists i, v'. split_and!; [by simpl; rewrite lookup_insert_eq|simpl; lia..|done|done].
    + destruct (pr_windows _ _ _ _ _ Hs _ Hw) as (j & u & Hu & ? & ? & ?). eapply window_keep; try done.
      intros ->. exfalso. eapply (no_windows Hs i v w'); try done. by eapply (window_slot Hs).
  - intros j Hj Hji va. destruct (chunk_in_pool Hs j Hj) as (? & ? & ?). apply Hother; [unfold va; lia|done|].
    rewrite (do_vaddr _ _ _ _ Hd). unfold va. intros E. apply Hji, (Z.mul_reg_r _ _ (map_pool_chunksize s)); lia.
Qed.

(** What stays as it is. *)
Definition same_pool s s' : Prop :=
  map_pool_base s' = map_pool_base s ∧ map_pool_size s' = map_pool_size s ∧
  map_pool_chunksize s' = map_pool_chunksize s ∧ mappings s' = mappings s ∧ mappings_count s' = mappings_count s.

Lemma changed_ok key tmp s L L' i v v' x t ch m used free known :
  pmap_ok key tmp s L → Z.of_nat (length L') < 2 ^ 32 → pm_descs s !! dptr s i = Some v →
  dom (anodes t) = dom (anodes (pm_tree s)) →
  pmap_rep (changed s (dptr s i) v' x t ch m) L' used free known →
  pmap_ok key tmp (changed s (dptr s i) v' x t ch m) L'.
Proof.
  intros [_ _ Hk [Ht ?]] HL Hv Hd Hr. split; [by exists used, free, known|done| |]; simpl.
  - rewrite dom_insert_in; [done|]. by apply elem_of_dom_2 in Hv.
  - by rewrite Hd.
Qed.

(** ** [vm_pmap_get_ppage] *)

Lemma wp_st_desc s d f v (Q : unit → pmap → Prop) :
  pm_descs s !! d = Some v → Q tt (upd_descs (<[d := f v]> (pm_descs s)) s) → wp (st_desc d f) s Q.
Proof. unfold wp, st_desc. by intros ->. Qed.

Lemma wp_ld_desc s d v (Q : mapping_desc → pmap → Prop) :
  pm_descs s !! d = Some v → Q v s → wp (ld_desc d) s Q.
Proof. intros. by eapply wp_load. Qed.

(** A physical address no chunk shows. *)
Definition unseen s (paddr : Z) : Prop :=
  ∀ d v, pm_descs s !! d = Some v → md_ref_count v ≠ 0 → md_paddr v ≠ paddr.

Definition all_used s : Prop := ∀ d v, pm_descs s !! d = Some v → md_ref_count v ≠ 0.

(** A pool without a chunk for [paddr]. *)
Definition exhausted s (paddr : Z) : Prop := all_used s ∧ unseen s paddr.

Lemma upd_mutex_rep s L used free known m : pmap_rep s L used free known → mx_free m →
  pmap_rep (upd_mutex m s) L used free known.
Proof.
  intros [Hg ? Hd] Hm. split; try done; [by destruct Hg; split|].
  intros d v Hv. destruct (Hd d v Hv) as (i & -> & Hdo). exists i. split; [done|]. by destruct Hdo; split.
Qed.

Lemma upd_mutex_ok key tmp s L m : pmap_ok key tmp s L → mx_free m → pmap_ok key tmp (upd_mutex m s) L.
Proof. intros [(u & f & k & Hr) ? ? ?] Hm. split; try done. exists u, f, k. by apply upd_mutex_rep. Qed.

(** The address of [pa] in chunk [i]. *)
Lemma window_addr s L used free known i v pa : pmap_rep s L used free known → desc_ok s L i v →
  let va := map_pool_base s + i * map_pool_chunksize s + pa mod map_pool_chunksize s in
  u32 (md_vaddr v + pa mod map_pool_chunksize s) = va ∧
  map_pool_base s ≤ va < map_pool_base s + map_pool_size s.
Proof.
  intros Hs Hd. pose proof (pr_geometry _ _ _ _ _ Hs) as Hg. destruct (chunk_in_pool Hs i (do_index _ _ _ _ Hd)) as (? & ? & _).
  pose proof (Z.mod_pos_bound pa (map_pool_chunksize s) (pg_chunk _ Hg)). pose proof (pg_base _ Hg). pose proof (pg_end _ Hg).
  rewrite (do_vaddr _ _ _ _ Hd). simpl. split; [|lia]. apply uwrap_small. lia.
Qed.

Lemma wp_take_chunk key tmp s L used free l1 l2 i v pa ix x m (Q : option (Z * option Z) → pmap → Prop) :
  pmap_ok key tmp s L → Z.of_nat (length L) + 1 < 2 ^ 32 → pmap_rep s L used (dptr s i :: free) (l1 ++ l2) → 0 ≤ pa < 2 ^ 32 →
  pm_descs s !! dptr s i = Some v → mx_held m →
  @aplace (desc_client (paddr_key (pm_descs s) key (ROUNDOWN pa (map_pool_chunksize s)))) (pm_tree s)
    mappings_tree desc_tree_node key l1 l2 ix →
  is_xlist x free_mappings free → xframe (pm_lists s) x free_mappings (dptr s i :: free) →
  is_Some (nodes x !! dptr s i) →
  (∀ va s', pmap_ok key tmp s' ((va, pa) :: L) → same_pool s s' →
     map_pool_base s ≤ va < map_pool_base s + map_pool_size s → Q (Some (NO_ERROR, Some va)) s') →
  wp (take_chunk (dptr s i) ix (ROUNDOWN pa (map_pool_chunksize s)) pa) (upd_lists x (upd_mutex m s)) Q.
Proof.
  intros Hok HL1 Hs Hpa Hv Hm0 Hpl Hx Hxf Hxd HQ. pose proof Hok as [_ HL Hkey Htmp].
  assert (dptr s i ∈ dptr s i :: free) as Hin by left.
  pose proof (free_desc Hs _ Hin) as Hdom. destruct (desc_valid Hs _ Hdom) as [Hvd Hnd].
  pose proof (free_not_used Hs _ Hin) as Hdu.
  destruct (pr_desc _ _ _ _ _ Hs _ _ Hv) as (i' & Ei & Hd). apply (dptr_inj (s := s)) in Ei as <-.
  destruct (window_addr s L used (dptr s i :: free) (l1 ++ l2) i v pa Hs Hd) as [E1 E2].
  unfold take_chunk. wp_go. cbn [map_pool_chunksize upd_lists upd_mutex].
  eapply wp_st_desc; [exact Hv|]. wp_go. eapply wp_st_desc; [by simpl; rewrite lookup_insert_eq|]. wp_go.
  eapply wp_ld_desc; [by simpl; rewrite lookup_insert_eq|]. wp_go. unfold list_add_mapping. wp_go.
  cbn [pm_lists upd_descs upd_lists add_ref md_ref_count md_vaddr md_paddr].
  eapply wp_xlist_add_last; [eapply is_xlist_frame; [exact Hxf|done| |apply (pr_used _ _ _ _ _ Hs)]|done|done| |].
  { intros d' Hd'. rewrite elem_of_cons. intros [->|Hf]; [done|].
    apply (free_not_used Hs d'); [by right|done]. }
  { exact Hxd. }
  intros x2 Hx2 Hxf2. wp_go.
  set (v' := Desc (u32 (md_ref_count v + 1)) (md_vaddr v) (ROUNDOWN pa (map_pool_chunksize s))).
  match goal with |- wp _ ?st _ => assert (st = upd_lists x2 (upd_descs (<[dptr s i := v']> (pm_descs s)) (upd_mutex m s))) as -> end.
  { unfold upd_lists, upd_descs, upd_mutex. simpl. by rewrite insert_insert_eq. }
  set (ds' := <[dptr s i := v']> (pm_descs s)).
  assert (∀ d, d ∈ l1 ++ l2 → paddr_of ds' d = paddr_key (pm_descs s) key (ROUNDOWN pa (map_pool_chunksize s)) d ∧ d ≠ NULL) as Hkn.
  { intros d Hk%(pr_known _ _ _ _ _ Hs). pose proof (used_desc Hs d Hk) as Hdd. split; [|by apply (desc_valid Hs)].
    unfold paddr_key. rewrite (proj2 (Z.eqb_neq d key)) by (by intros ->).
    unfold paddr_of, ds'. rewrite lookup_insert_ne; [done|]. by intros <-. }
  assert (paddr_of ds' (dptr s i) = paddr_key (pm_descs s) key (ROUNDOWN pa (map_pool_chunksize s)) key) as Hkd.
  { unfold paddr_key, paddr_of, ds'. by rewrite Z.eqb_refl, lookup_insert_eq. }
  pose proof (desc_order (paddr_of ds')) as Hord. unfold tree_insert_mapping. wp_go.
  eapply (wp_insert_place (C := desc_client (paddr_of ds')) _ _ _ l1 l2 ix (dptr s i)); [done| | |by apply (desc_node Hs)|].
  { intros Hk. by apply Hkn in Hk as [_ Hk]. }
  { eapply (aplace_client (desc_client (paddr_key (pm_descs s) key (ROUNDOWN pa (map_pool_chunksize s)))) _ _ _ _ key); [| |exact Hpl].
    - intros w w' Hw Hw'. apply desc_same; by apply Hkn.
    - intros w Hw. split; apply desc_same; first [exact Hkd | by apply Hkn]. }
  intros t Ht Htf. wp_go. cbn [pm_chunks upd_tree upd_lists upd_descs upd_mutex].
  destruct (rounddown_ok Hs pa Hpa) as [Hrd Hrm]. destruct (chunk_in_pool Hs i (do_index _ _ _ _ Hd)) as (Hc1 & Hc2 & Hc3).
  eapply cm_map_ok; [apply (pr_chunks _ _ _ _ _ Hs)|rewrite (do_vaddr _ _ _ _ Hd); pose proof (pg_chunk _ (pr_geometry _ _ _ _ _ Hs)); lia|by rewrite (do_vaddr _ _ _ _ Hd)|
    done|by apply (paddr_aligned Hs)|].
  intros ch Hch Hseen Hother. wp_go. cbn [negb]. change (NO_ERROR =? NO_ERROR) with true. cbn [negb]. wp_go.
  apply mx_unlock_ok; [done|]. intros r1 m1 Hm1. wp_go. rewrite E1.
  apply HQ; [|done|done].
  assert (∀ s2, s2 = changed s (dptr s i) v' x2 t ch m1 →
    pmap_ok key tmp s2 ((map_pool_base s + i * map_pool_chunksize s + pa mod map_pool_chunksize s, pa) :: L)) as H.
  { intros s2 ->. assert (dom (nodes x2) = dom (nodes (pm_lists s))) as Hxd2.
    { rewrite (xf_dom _ _ _ _ Hxf2). apply Hxf. }
    assert (is_xlist x2 free_mappings free) as Hx2f.
    { eapply is_xlist_frame; [exact Hxf2|done| |exact Hx]. intros d' Hd'. rewrite elem_of_cons. intros [->|Hu].
      - pose proof (ix_nodup _ _ _ (pr_free _ _ _ _ _ Hs)) as [? _]%NoDup_cons. done.
      - apply (free_not_used Hs d'); [by right|done]. }
    assert (dom (anodes t) = dom (anodes (pm_tree s))) as Htd by apply Htf.
    eapply changed_ok; [done|simpl; lia|done|done|].
    apply (rep_take s L used free l1 l2 i v pa x2 t ch m1 Hs Hv Hpa Hx2 Hx2f Hxd2 Ht Htd Hch Hseen Hother Hm1). }
  by apply H.
Qed.

Lemma wp_get_round key tmp s L pa (b : bool) (Q : option (Z * option Z) → pmap → Prop) :
  pmap_ok key tmp s L → Z.of_nat (length L) + 1 < 2 ^ 32 → 0 ≤ pa < 2 ^ 32 →
  (∀ va s', ¬ exhausted s (ROUNDOWN pa (map_pool_chunksize s)) → pmap_ok key tmp s' ((va, pa) :: L) → same_pool s s' →
     map_pool_base s ≤ va < map_pool_base s + map_pool_size s → Q (Some (NO_ERROR, Some va)) s') →
  (∀ s', pmap_ok key tmp s' L → same_pool s s' → pm_descs s' = pm_descs s →
     exhausted s (ROUNDOWN pa (map_pool_chunksize s)) →
     Q (if b then None else Some (ERR_NO_MEMORY, None)) s') →
  wp (get_round key pa b) s Q.
Proof.
  intros Hok HL Hpa HQ Hfull. pose proof Hok as [(used & free & known & Hs) _ Hkey Htmp].
  pose proof (pr_geometry _ _ _ _ _ Hs) as Hg. pose proof (pg_chunk _ Hg) as Hc.
  unfold get_round. wp_go. apply mx_lock_ok; [apply (pr_mutex _ _ _ _ _ Hs)|]. intros r0 m0 Hm0. wp_go.
  eapply (wp_tree_find _ _ s); [exact Hs|done|done|done|..].
  - intros i v ix Hv Hd Hr Ep. destruct (window_addr s L used free known i v pa Hs Hd) as [E1 E2].
    assert (dptr s i ≠ NULL) as Hn by (eapply (desc_valid Hs), elem_of_dom_2, Hv).
    rewrite (proj2 (Z.eqb_neq _ _) Hn). cbn [negb]. wp_go. eapply wp_st_desc; [exact Hv|]. wp_go.
    eapply wp_ld_desc; [by simpl; rewrite lookup_insert_eq|]. wp_go.
    apply mx_unlock_ok; [done|]. intros r1 m1 Hm1. wp_go. cbn [add_ref md_vaddr]. rewrite E1.
    apply HQ; [by intros [_ H]; apply (H _ _ Hv)| |done|done]. assert (∀ s2, s2 = changed s (dptr s i) (add_ref 1 v) (pm_lists s) (pm_tree s) (pm_chunks s) m1 →
      pmap_ok key tmp s2 ((map_pool_base s + i * map_pool_chunksize s + pa mod map_pool_chunksize s, pa) :: L)) as H.
    { intros s2 ->. eapply changed_ok; [done|simpl; lia|done|done|]. by apply rep_share. }
    by apply H.
  - intros l1 l2 ix -> Hno Hpl. rewrite Z.eqb_refl. cbn [negb]. wp_go.
    unfold list_extract_first_mapping. wp_go. eapply wp_xlist_extract_first; [apply (pr_free _ _ _ _ _ Hs)|..].
    + intros ->. rewrite Z.eqb_refl. wp_go. apply mx_unlock_ok; [done|]. intros r1 m1 Hm1. wp_go.
      assert (upd_mutex m1 (upd_lists (pm_lists (upd_mutex m0 s)) (upd_mutex m0 s)) = upd_mutex m1 s) as -> by by destruct s.
      apply Hfull; [by apply upd_mutex_ok|done|done|split].
      * intros d v Hv E. assert (d ∈ []) as []%not_elem_of_nil by (apply (pr_in_free _ _ _ _ _ Hs); by exists v).
      * intros d v Hv Hr E. assert (d ∈ l1 ++ l2) as Hd by (apply (pr_known _ _ _ _ _ Hs), (pr_in_used _ _ _ _ _ Hs); by exists v).
        apply (proj1 (Forall_forall _ _) Hno) in Hd. by rewrite (paddr_of_some _ _ _ Hv) in Hd.
    + intros d free' x -> Hx Hxf Hxd. assert (d ∈ d :: free') as Hin by left.
      destruct (desc_valid Hs d (free_desc Hs d Hin)) as [_ Hnd]. rewrite (proj2 (Z.eqb_neq _ _) Hnd).
      apply (pr_in_free _ _ _ _ _ Hs) in Hin as (v & Hv & H0).
      destruct (pr_desc _ _ _ _ _ Hs _ _ Hv) as (i & -> & _).
      eapply wp_take_chunk; try done. intros va s' Hok' Hsp Hva. apply HQ; try done. intros [H _]. by apply (H _ _ Hv).
Qed.

(** ** [vm_pmap_put_ppage] *)

(** A chunk loses a window: it stays in use, or is free again. *)
Lemma rep_unshare s L1 L2 used free known used' free' known' i v w x t m :
  pmap_rep s (L1 ++ w :: L2) used free known → pm_descs s !! dptr s i = Some v →
  slot_of (map_pool_base s) (map_pool_chunksize s) w = i →
  is_xlist x used_mappings used' → is_xlist x free_mappings free' → dom (nodes x) = dom (nodes (pm_lists s)) →
  @is_aset (desc_client (paddr_of (<[dptr s i := add_ref (-1) v]> (pm_descs s)))) t mappings_tree desc_tree_node known' →
  dom (anodes t) = dom (anodes (pm_tree s)) →
  (∀ d, d ∈ used' ↔ d ∈ used ∧ (d = dptr s i → md_ref_count v ≠ 1)) →
  (∀ d, d ∈ free' ↔ d ∈ free ∨ d = dptr s i ∧ md_ref_count v = 1) →
  (∀ d, d ∈ known' ↔ d ∈ used') → Z.of_nat (length (L1 ++ w :: L2)) < 2 ^ 32 → mx_free m →
  pmap_rep (changed s (dptr s i) (add_ref (-1) v) x t (pm_chunks s) m) (L1 ++ L2) used' free' known'.
Proof.
  intros Hs Hv Ew Hxu Hxf Hxd Ht Htd Hu Hf Hk HL Hm.
  destruct (pr_desc _ _ _ _ _ Hs _ _ Hv) as (j & Ej & Hd). apply (dptr_inj (s := s)) in Ej as <-.
  pose proof (refs_middle (map_pool_base s) (map_pool_chunksize s) w L1 L2 i) as Hr. rewrite decide_True in Hr by done.
  pose proof (refs_bound (map_pool_base s) (map_pool_chunksize s) (L1 ++ w :: L2) i) as Hb.
  pose proof (refs_bound (map_pool_base s) (map_pool_chunksize s) (L1 ++ L2) i) as Hb'.
  assert (md_ref_count v = 1 + refs (map_pool_base s) (map_pool_chunksize s) (L1 ++ L2) i) as E0
    by (rewrite (do_refs _ _ _ _ Hd); lia).
  assert (md_ref_count (add_ref (-1) v) = md_ref_count v - 1) as Er by (simpl; apply uwrap_small; lia).
  assert (dptr s i ∈ used) as Hdu by (apply (pr_in_used _ _ _ _ _ Hs); exists v; split; [done|lia]).
  assert (dptr s i ∉ free) as Hdf by (intros ?%(free_not_used Hs); done).
  eapply rep_change; try done; try apply Hs.
  - intros j Hj. rewrite refs_middle, decide_False by congruence. lia.
  - destruct Hd. split; try done.
    + rewrite Er. change (md_ref_count v - 1 = refs (map_pool_base s) (map_pool_chunksize s) (L1 ++ L2) i). lia.
    + intros _. apply do_seen0. lia.
  - intros d. rewrite Hu, Er. case_decide as E; [|naive_solver]. subst d. split; [|intros ?; split; [done|]]; lia.
  - intros d. rewrite Hf, Er. case_decide as E; [|naive_solver]. subst d. split; [|intros ?; right; split; [done|lia]].
    intros [?|[_ ?]]; [done|lia].
  - intros w' Hw'. assert (w' ∈ L1 ++ w :: L2) as Hw by set_solver.
    destruct (pr_windows _ _ _ _ _ Hs _ Hw) as (j & u & Hu' & ? & ? & ?). eapply window_keep; try done.
Qed.

Lemma wp_release s L used free known d v tmp s1 (Q : unit → pmap → Prop) :
  pmap_rep s L used free known → pm_descs s !! d = Some v → d ∈ used →
  tmp ∉ dom (anodes (pm_tree s)) → valid_ptr tmp →
  pm_lists s1 = pm_lists s → pm_tree s1 = pm_tree s → pm_descs s1 = <[d := add_ref (-1) v]> (pm_descs s) →
  (∀ used' known' x t, is_xlist x used_mappings used' → is_xlist x free_mappings (free ++ [d]) →
     dom (nodes x) = dom (nodes (pm_lists s)) →
     @is_aset (desc_client (paddr_of (pm_descs s1))) t mappings_tree desc_tree_node known' →
     dom (anodes t) = dom (anodes (pm_tree s)) →
     (∀ d', d' ∈ used' ↔ d' ∈ used ∧ d' ≠ d) → (∀ d', d' ∈ known' ↔ d' ∈ used') →
     Q tt (upd_lists x (upd_tree t s1))) →
  wp (release_chunk tmp d) s1 Q.
Proof.
  intros Hs Hv Hin Htmp Hvt Ex Et Ed HQ.
  pose proof (used_desc Hs d Hin) as Hdom. destruct (desc_valid Hs d Hdom) as [Hvd Hnd].
  assert (d ∉ free) as Hdf by by intros ?%(free_not_used Hs).
  assert (d ∈ known) as Hk by by apply (pr_known _ _ _ _ _ Hs).
  pose proof (pr_used _ _ _ _ _ Hs) as Hu. pose proof (ix_nodup _ _ _ Hu) as Hndu.
  pose proof Hin as (u1 & u2 & Eu)%list_elem_of_split. rewrite Eu in Hu, Hndu. apply NoDup_middle in Hndu as (_ & Hd1 & Hd2).
  unfold release_chunk, list_remove_mapping. wp_go. rewrite Ex.
  eapply wp_xlist_remove_unsafe; [exact Hu|]. intros x Hx Hxf Hxn. wp_go.
  pose proof (tree_add_ref s L used free known d v (-1) Hs Hv) as Ht. rewrite <- Ed in Ht.
  pose proof (desc_order (paddr_of (pm_descs s1))) as Hord.
  unfold tree_remove_mapping. wp_go. cbn [pm_tree pm_descs upd_lists]. rewrite Et.
  eapply remove_aset; [exact Ht|done|done|]. intros t. unfold remove. rewrite decide_True by done. cbn [fst snd].
  intros Ht' Htf. rewrite (proj2 (Z.eqb_neq d 0)) by done. wp_go. unfold list_add_mapping. wp_go.
  cbn [pm_lists upd_tree upd_lists].
  eapply wp_xlist_add_last; [eapply is_xlist_frame; [exact Hxf|done| |apply (pr_free _ _ _ _ _ Hs)]|done|done|by rewrite Hxn|].
  { intros d' Hd' Hu'. rewrite <- Eu in Hu'. by apply (free_not_used Hs d'). }
  intros x2 Hx2 Hxf2. wp_go.
  apply (HQ (u1 ++ u2) (without d known) x2 t); try done.
  - eapply is_xlist_frame; [exact Hxf2|done| |exact Hx]. intros d' Hd'. rewrite elem_of_cons. intros [->|Hf]; [set_solver|].
    apply (free_not_used Hs d' Hf). rewrite Eu. set_solver.
  - rewrite (xf_dom _ _ _ _ Hxf2). apply Hxf.
  - apply Htf.
  - intros d'. rewrite Eu. set_solver.
  - intros d'. unfold without. rewrite list_elem_of_filter, (pr_known _ _ _ _ _ Hs), Eu. set_solver.
Qed.

Lemma wp_put_ppage key tmp s L1 L2 va pa (Q : Z → pmap → Prop) :
  pmap_ok key tmp s (L1 ++ (va, pa) :: L2) →
  (∀ s', pmap_ok key tmp s' (L1 ++ L2) → same_pool s s' → Q NO_ERROR s') →
  wp (vm_pmap_put_ppage tmp va) s Q.
Proof.
  intros Hok HQ. pose proof Hok as [(used & free & known & Hs) HL Hkey [Htmp Hvt]].
  pose proof (pr_geometry _ _ _ _ _ Hs) as Hg. pose proof (pg_chunk _ Hg) as Hc.
  pose proof (pg_base _ Hg). pose proof (pg_end _ Hg).
  assert ((va, pa) ∈ L1 ++ (va, pa) :: L2) as Hin by set_solver.
  pose proof (pr_windows _ _ _ _ _ Hs _ Hin) as (i & v & Hv & Hpa & Ep & Ea). simpl in Hpa, Ep, Ea.
  pose proof (window_slot Hs (va, pa) i v Hv Ea) as Eslot.
  destruct (pr_desc _ _ _ _ _ Hs _ _ Hv) as (i' & Ei & Hd). apply (dptr_inj (s := s)) in Ei as <-.
  destruct (window_addr s _ _ _ _ _ _ pa Hs Hd) as [_ Hrange]. simpl in Hrange. rewrite <- Ea in Hrange.
  pose proof (refs_in _ _ _ _ _ Hin Eslot) as Hpos. rewrite <- (do_refs _ _ _ _ Hd) in Hpos.
  assert (Hlen : Z.of_nat (length (L1 ++ L2)) < 2 ^ 32) by (rewrite length_app in *; simpl in HL; lia).
  unfold vm_pmap_put_ppage. wp_go. rewrite uwrap_small by lia.
  rewrite (proj2 (Z.ltb_ge _ _)), (proj2 (Z.leb_gt _ _)) by lia. cbn [orb]. wp_go.
  apply mx_lock_ok; [apply (pr_mutex _ _ _ _ _ Hs)|]. intros r0 m0 Hm0. wp_go.
  rewrite uwrap_small by lia. change (desc_ptr (upd_mutex m0 s)) with (desc_ptr s).
  unfold slot_of in Eslot. simpl in Eslot. rewrite Eslot, (desc_ptr_eq Hs) by apply Hd.
  eapply wp_ld_desc; [exact Hv|]. rewrite (proj2 (Z.eqb_neq _ _)) by lia. wp_go.
  eapply wp_st_desc; [exact Hv|]. wp_go. eapply wp_ld_desc; [by simpl; rewrite lookup_insert_eq|].
  assert (md_ref_count (add_ref (-1) v) = md_ref_count v - 1) as Er.
  { pose proof (refs_bound (map_pool_base s) (map_pool_chunksize s) (L1 ++ (va, pa) :: L2) i).
    rewrite (do_refs _ _ _ _ Hd) in *. simpl. rewrite (do_refs _ _ _ _ Hd). apply uwrap_small. lia. }
  rewrite Er. apply wp_bind, wp_when; intros E0; bool_to_prop.
  - eapply (wp_release s _ used free known (dptr s i) v); try done.
    { apply (pr_in_used _ _ _ _ _ Hs). exists v. split; [done|lia]. }
    intros used' known' x t Hx Hxf Hxd Ht Htd Hu Hk.
    wp_go. apply mx_unlock_ok; [done|]. intros r1 m1 Hm1. wp_go. apply HQ; [|done].
    assert (∀ s2, s2 = changed s (dptr s i) (add_ref (-1) v) x t (pm_chunks s) m1 →
      pmap_ok key tmp s2 (L1 ++ L2)) as H'; [|by apply H'].
    intros s2 ->. eapply changed_ok; [done..|].
    apply (rep_unshare s L1 L2 used free known used' (free ++ [dptr s i]) known' i v (va, pa)); try done.
    + intros d. rewrite Hu. naive_solver lia.
    + intros d. rewrite elem_of_app, list_elem_of_singleton. naive_solver lia.
  - wp_go. apply mx_unlock_ok; [done|]. intros r1 m1 Hm1. wp_go. apply HQ; [|done].
    assert (∀ s2, s2 = changed s (dptr s i) (add_ref (-1) v) (pm_lists s) (pm_tree s) (pm_chunks s) m1 →
      pmap_ok key tmp s2 (L1 ++ L2)) as H'; [|by apply H'].
    intros s2 ->. eapply changed_ok; [done..|].
    apply (rep_unshare s L1 L2 used free known used free known i v (va, pa)); try done; try apply Hs.
    + by eapply tree_add_ref.
    + intros d. split; [|by intros []]. intros ?. split; [done|lia].
    + intros d. split; [by left|]. intros [?|[_ ?]]; [done|lia].
Qed.
End spec.
