(* ===== verification/Mutex.v ===== *)
(** * Mutexes: [kernel/util/mutex.c]

    Mutexes and recursive mutexes on semaphores of count one. A mutex keeps the thread that
    holds it; until it is created it has no semaphore, and every attempt to lock it fails.
    The semaphores are a parameter: the state of the model is theirs and the mutexes by
    address. *)

From stdpp Require Import gmap.
From S2P Require Import Prelude PageMapper.
#[local] Open Scope Z_scope.

(** ** Data *)

(** [mutex_t] and [rmutex_t] *)
Record mutex := Mtx { mt_holder : Z; mt_sem : Z }.

Record rmutex := RMtx { rm_holder : Z; rm_sem : Z; rm_recurs : Z }.

Definition INVALID_SEMID : Z := 0.

Definition INVALID_THREADID : Z := 0.

Definition SEMF_TRY : Z := 2.

Definition ERR_SEM_TRY_FAILED : Z := s32 (0x83000000 + 5).

Definition ERR_MTX_INVALID_MUTEX : Z := s32 (0x83100000 + 1).

Definition ERR_MTX_SEM_FAILURE : Z := s32 (0x83100000 + 2).

Definition ERR_MTX_NOT_AN_OWNER : Z := s32 (0x83100000 + 3).

Definition ERR_MTX_TRY_FAILED : Z := s32 (0x83100000 + 4).

(** The routines of [kernel/sem.c] a mutex calls, and the identifier of the current thread. *)
Class Semaphores := {
  sems : Type;
  sem_create : Z → Z → Z → M sems Z;
  sem_delete : Z → M sems Z;
  sem_down_ex : Z → Z → Z → Z → M sems Z;
  sem_down : Z → Z → M sems Z;
  sem_up : Z → Z → M sems Z;
  current_thread_id : sems → Z }.

Section mutex.
Context {S : Semaphores}.

Record mutexes := Mutexes { mt_sems : sems; mt_mutexes : gmap Z mutex; mt_rmutexes : gmap Z rmutex }.

Definition upd_sems x s := Mutexes x (mt_mutexes s) (mt_rmutexes s).

Abbreviation on_sems := (zoom mt_sems upd_sems).

Definition ld_mutex (m : Z) : M mutexes mutex := load (λ s, mt_mutexes s !! m).

Definition st_mutex (m : Z) (v : mutex) : M mutexes unit :=
  ld_mutex m;; modify (λ s, Mutexes (mt_sems s) (<[m := v]> (mt_mutexes s)) (mt_rmutexes s)).

Definition ld_rmutex (m : Z) : M mutexes rmutex := load (λ s, mt_rmutexes s !! m).

Definition st_rmutex (m : Z) (v : rmutex) : M mutexes unit :=
  ld_rmutex m;; modify (λ s, Mutexes (mt_sems s) (mt_mutexes s) (<[m := v]> (mt_rmutexes s))).

Definition thread_get_current_thread_id : M mutexes Z := gets (λ s, current_thread_id (mt_sems s)).

(** ** Mutexes *)

Definition mutex_init (m : Z) : M mutexes unit := st_mutex m (Mtx INVALID_THREADID INVALID_SEMID).

Definition mutex_create (m name : Z) : M mutexes Z :=
  v ← ld_mutex m;
  st_mutex m (Mtx INVALID_THREADID (mt_sem v));;
  id ← on_sems (sem_create name 1 1);
  st_mutex m (Mtx INVALID_THREADID id);;
  mret (if id =? INVALID_SEMID then ERR_MTX_SEM_FAILURE else NO_ERROR).

Definition mutex_destroy (m : Z) : M mutexes Z :=
  v ← ld_mutex m;
  retc ← on_sems (sem_delete (mt_sem v));
  st_mutex m (Mtx INVALID_THREADID INVALID_SEMID);;
  mret (if retc =? NO_ERROR then NO_ERROR else ERR_MTX_SEM_FAILURE).

Definition set_holder (m : Z) : M mutexes unit :=
  v ← ld_mutex m; tid ← thread_get_current_thread_id; st_mutex m (Mtx tid (mt_sem v)).

Definition mutex_lock (m : Z) : M mutexes Z :=
  v ← ld_mutex m;
  retc ← (if negb (mt_sem v =? INVALID_SEMID) then
            r ← on_sems (sem_down (mt_sem v) 1);
            mret (if r =? NO_ERROR then NO_ERROR else ERR_MTX_SEM_FAILURE)
          else mret ERR_MTX_INVALID_MUTEX);
  when (retc =? NO_ERROR) (set_holder m);;
  mret retc.

Definition mutex_trylock (m : Z) : M mutexes Z :=
  v ← ld_mutex m;
  retc ← (if negb (mt_sem v =? INVALID_SEMID) then
            r ← on_sems (sem_down_ex (mt_sem v) 1 0 SEMF_TRY);
            mret (if r =? NO_ERROR then NO_ERROR
                  else if r =? ERR_SEM_TRY_FAILED then ERR_MTX_TRY_FAILED else ERR_MTX_SEM_FAILURE)
          else mret ERR_MTX_INVALID_MUTEX);
  when (retc =? NO_ERROR) (set_holder m);;
  mret retc.

Definition mutex_unlock (m : Z) : M mutexes Z :=
  v ← ld_mutex m;
  if mt_sem v =? INVALID_SEMID then mret ERR_MTX_INVALID_MUTEX
  else
    tid ← thread_get_current_thread_id;
    if negb (mt_holder v =? tid) then mret ERR_MTX_NOT_AN_OWNER
    else
      st_mutex m (Mtx INVALID_THREADID (mt_sem v));;
      on_sems (sem_up (mt_sem v) 1);;
      mret NO_ERROR.

(** ** Recursive mutexes *)

Definition rmutex_init (m : Z) : M mutexes unit := st_rmutex m (RMtx INVALID_THREADID INVALID_SEMID 0).

Definition rmutex_create (m name : Z) : M mutexes Z :=
  v ← ld_rmutex m;
  st_rmutex m (RMtx INVALID_THREADID (rm_sem v) 0);;
  id ← on_sems (sem_create name 1 1);
  st_rmutex m (RMtx INVALID_THREADID id 0);;
  mret (if id =? INVALID_SEMID then ERR_MTX_SEM_FAILURE else NO_ERROR).

Definition rmutex_destroy (m : Z) : M mutexes Z :=
  v ← ld_rmutex m;
  retc ← on_sems (sem_delete (rm_sem v));
  st_rmutex m (RMtx INVALID_THREADID INVALID_SEMID 0);;
  mret (if retc =? NO_ERROR then NO_ERROR else ERR_MTX_SEM_FAILURE).

(** [mtx->holder = tid; mtx->recurs = 0;] *)
Definition take_rmutex (m tid : Z) : M mutexes unit :=
  v ← ld_rmutex m; st_rmutex m (RMtx tid (rm_sem v) 0).

Definition deepen (m : Z) : M mutexes Z :=
  v ← ld_rmutex m; st_rmutex m (RMtx (rm_holder v) (rm_sem v) (u32 (rm_recurs v + 1)));; mret NO_ERROR.

Definition rmutex_lock (m : Z) : M mutexes Z :=
  v ← ld_rmutex m;
  r ← on_sems (sem_down_ex (rm_sem v) 1 0 SEMF_TRY);
  tid ← thread_get_current_thread_id;
  if negb (r =? NO_ERROR) && negb (r =? ERR_SEM_TRY_FAILED) then mret ERR_MTX_SEM_FAILURE
  else if r =? NO_ERROR then take_rmutex m tid;; deepen m
  else
    v ← ld_rmutex m;
    if (r =? ERR_SEM_TRY_FAILED) && negb (rm_holder v =? tid) then
      r ← on_sems (sem_down (rm_sem v) 1);
      if negb (r =? 0) then mret ERR_MTX_SEM_FAILURE
      else take_rmutex m tid;; deepen m
    else deepen m.

Definition rmutex_trylock (m : Z) : M mutexes Z :=
  v ← ld_rmutex m;
  r ← on_sems (sem_down_ex (rm_sem v) 1 0 SEMF_TRY);
  tid ← thread_get_current_thread_id;
  if negb (r =? NO_ERROR) && negb (r =? ERR_SEM_TRY_FAILED) then mret ERR_MTX_SEM_FAILURE
  else if r =? NO_ERROR then take_rmutex m tid;; deepen m
  else
    v ← ld_rmutex m;
    if (r =? ERR_SEM_TRY_FAILED) && negb (rm_holder v =? tid) then mret ERR_MTX_TRY_FAILED
    else deepen m.

Definition rmutex_unlock (m : Z) : M mutexes Z :=
  v ← ld_rmutex m;
  if rm_sem v =? INVALID_SEMID then mret ERR_MTX_INVALID_MUTEX
  else
    tid ← thread_get_current_thread_id;
    if negb (rm_holder v =? tid) then mret ERR_MTX_NOT_AN_OWNER
    else
      let recurs := u32 (rm_recurs v - 1) in
      st_rmutex m (RMtx (rm_holder v) (rm_sem v) recurs);;
      if recurs =? 0 then
        st_rmutex m (RMtx INVALID_THREADID (rm_sem v) recurs);;
        on_sems (sem_up (rm_sem v) 1);;
        mret NO_ERROR
      else mret NO_ERROR.

(** ** A mutex that is not created yet

    Until there are semaphores, locking and unlocking fail and change nothing; routines that
    ignore the status run on, alone. *)

Definition early (m : Z) (s : mutexes) : Prop := ∃ v, mt_mutexes s !! m = Some v ∧ mt_sem v = INVALID_SEMID.

Definition early_mutex (m : Z) : PoolMutex := {|
  mx_state := mutexes; mx_init := mutex_init m; mx_lock := mutex_lock m; mx_unlock := mutex_unlock m |}.

Lemma early_init_ok m s (Q : unit → mutexes → Prop) :
  m ∈ dom (mt_mutexes s) → (∀ s', early m s' → Q tt s') → wp (mutex_init m) s Q.
Proof.
  intros [v Hv]%elem_of_dom HQ. unfold mutex_init, st_mutex. wp_flat. wp_go. eapply wp_load; [done|]. wp_go.
  apply HQ. eexists. simpl. by rewrite lookup_insert_eq.
Qed.

Lemma early_lock_ok m s (Q : Z → mutexes → Prop) : early m s → (∀ r s', early m s' → Q r s') → wp (mutex_lock m) s Q.
Proof.
  intros Hs HQ. pose proof Hs as (v & Hv & E). unfold mutex_lock. wp_go. eapply wp_load; [done|].
  rewrite E. simpl. wp_go. by apply HQ.
Qed.

Lemma early_unlock_ok m s (Q : Z → mutexes → Prop) : early m s → (∀ r s', early m s' → Q r s') → wp (mutex_unlock m) s Q.
Proof.
  intros Hs HQ. pose proof Hs as (v & Hv & E). unfold mutex_unlock. wp_go. eapply wp_load; [done|].
  rewrite E. simpl. by apply HQ.
Qed.

Definition early_laws (m : Z) : MutexLaws (early_mutex m) := {|
  mx_raw (s : @mx_state (early_mutex m)) := m ∈ dom (mt_mutexes s); mx_free := early m; mx_held := early m;
  mx_init_ok := early_init_ok m; mx_lock_ok := early_lock_ok m; mx_unlock_ok := early_unlock_ok m |}.
End mutex.
