(* ===== verification/MapPool.v ===== *)
(** * The mapping pool of the i386: [map_pool_chunk] of [kernel/arch/i386/vm_translation_map.c]

    The page tables behind the pool of the page mapper. The routine that shows a physical
    page at a page of the pool is the [map_chunk] of the mapper, and the mapper with it is a
    window. The state is the page tables, entries by their index, the base of the pool, and
    what was asked of the translation look-aside buffer. *)

From stdpp Require Import gmap list.
From S2P Require Import Prelude XList AvlTree Mmu PageMapper PageMapperSpec.
#[local] Open Scope Z_scope.

Definition MAP_POOL_PGTABLE_CHUNK_SIZE : Z := MAX_PTENTS * PAGE_SIZE.

Definition MAP_POOL_PGTABLE_CHUNKS : Z := 8.

Definition MAP_POOL_SIZE : Z := MAP_POOL_PGTABLE_CHUNKS * MAP_POOL_PGTABLE_CHUNK_SIZE.

Record pool := Pool { pl_base : Z; map_pool_pgtables : gmap Z Z; pl_tlb : list tlb_op }.

Definition ld_entry (i : Z) : M pool Z := load (λ s, map_pool_pgtables s !! i).

Definition st_entry (i w : Z) : M pool unit :=
  ld_entry i;; modify (λ s, Pool (pl_base s) (<[i := w]> (map_pool_pgtables s)) (pl_tlb s)).

Definition invalidate_TLB_entry (va : Z) : M pool unit :=
  modify (λ s, Pool (pl_base s) (map_pool_pgtables s) (pl_tlb s ++ [FlushPage va])).

(** The entry for the page frame [ppn]. *)
Definition pool_entry (ppn : Z) : Z := fset F_p 1 (fset F_rw 1 (fset F_us 0 (fset F_base ppn 0))).

Definition map_pool_chunk (pa va : Z) : M pool Z :=
  let pa := Z.land pa PAGE_MASK in
  let va := Z.land va PAGE_MASK in
  base ← gets pl_base;
  if (va <? base) || (u32 (base + MAP_POOL_SIZE) <=? va) then mret ERR_VM_GENERAL
  else
    st_entry (u32 (va - base) / PAGE_SIZE) (pool_entry (ADDR_SHIFT pa));;
    invalidate_TLB_entry va;;
    mret NO_ERROR.

(** What the processor finds at a page of the pool. *)
Definition pool_page (s : pool) (va : Z) : option Z :=
  w ← map_pool_pgtables s !! ((va - pl_base s) / PAGE_SIZE);
  if fget F_p w =? 1 then Some (fget F_base w * PAGE_SIZE) else None.

Record pool_ok (s : pool) (base size : Z) : Prop := {
  pk_base : pl_base s = base;
  pk_range : 0 ≤ base ∧ base mod PAGE_SIZE = 0 ∧ size ≤ MAP_POOL_SIZE ∧ base + MAP_POOL_SIZE < 2 ^ 32;
  pk_entries i : 0 ≤ i < MAP_POOL_SIZE / PAGE_SIZE → is_Some (map_pool_pgtables s !! i) }.

#[export] Instance pool_chunks : ChunkMap := {|
  cm_state := pool; cm_map := map_pool_chunk; cm_page := pool_page |}.

Lemma aligned_page x : word x → x mod PAGE_SIZE = 0 → Z.land x PAGE_MASK = x.
Proof. intros Hw Hx. rewrite land_PAGE_MASK by done. unfold PAGE_SIZE in *. Z.div_mod_to_equations. lia. Qed.

Lemma pool_map_ok s base size pa va (Q : Z → pool → Prop) :
  pool_ok s base size → base ≤ va < base + size → va mod PAGE_SIZE = 0 →
  0 ≤ pa < 2 ^ 32 → pa mod PAGE_SIZE = 0 →
  (∀ s', pool_ok s' base size → pool_page s' va = Some pa →
     (∀ va', base ≤ va' < base + size → va' mod PAGE_SIZE = 0 → va' ≠ va → pool_page s' va' = pool_page s va') →
     Q NO_ERROR s') →
  wp (map_pool_chunk pa va) s Q.
Proof.
  intros [<- (H0 & Hb & Hs & He) Hents] Hva Hav Hpa Hap HQ.
  assert (0 ≤ (va - pl_base s) / PAGE_SIZE < MAP_POOL_SIZE / PAGE_SIZE) as Hi.
  { change (MAP_POOL_SIZE / PAGE_SIZE) with 8192. change MAP_POOL_SIZE with 33554432 in *.
    unfold PAGE_SIZE in *. Z.div_mod_to_equations. lia. }
  destruct (Hents _ Hi) as [w Hw].
  unfold map_pool_chunk. wp_go. rewrite !aligned_page by (done || (unfold word; lia)).
  rewrite (uwrap_small 32 (pl_base s + _)) by lia.
  rewrite (proj2 (Z.ltb_ge _ _)), (proj2 (Z.leb_gt _ _)) by lia. cbn [orb]. rewrite uwrap_small by lia.
  unfold st_entry. wp_flat. wp_go. eapply wp_load; [exact Hw|]. unfold invalidate_TLB_entry. wp_go. apply HQ.
  - split; simpl; [done|done|]. intros i Hir. destruct (decide (i = (va - pl_base s) / PAGE_SIZE)) as [->|Hne].
    + by rewrite lookup_insert_eq.
    + rewrite lookup_insert_ne by done. by apply Hents.
  - unfold pool_page. simpl. rewrite lookup_insert_eq. simpl. unfold pool_entry. field_simpl.
    simpl. f_equal. unfold ADDR_SHIFT, PAGE_SHIFT, PAGE_SIZE in *. rewrite Z.shiftr_div_pow2 by lia.
    rewrite uwrap_small; Z.div_mod_to_equations; lia.
  - intros va' Hva' Hav' Hne. unfold pool_page. simpl. rewrite lookup_insert_ne; [done|].
    unfold PAGE_SIZE in *. intros E. apply Hne. Z.div_mod_to_equations. lia.
Qed.

#[export] Instance pool_laws : ChunkLaws pool_chunks := {|
  cm_ok := pool_ok; cm_map_ok := pool_map_ok |}.
