(* ===== verification/PageMapperProps.v ===== *)
(** * Properties of the page mapper

    Initialization sets up a pool with all chunks free; the contract of borrowing and giving
    back on every branch; the mapper as a window. *)

From stdpp Require Import gmap list sorting.
From S2P Require Import Prelude XList AvlTree AvlSet AvlOrdered AvlIndex Mmu PageMapper PageMapperSpec Mutex MapPool.
#[local] Open Scope Z_scope.

Section props.
Context {X : PoolMutex} {XL : MutexLaws X} {C : ChunkMap} {CL : ChunkLaws C}.
Implicit Types s : pmap.

(** ** Initialization *)

(** The first [i] descriptors are cleared. *)
Record cleared (i : Z) s0 s : Prop := {
  cl_descs d v : pm_descs s !! d = Some v ↔ ∃ j, 0 ≤ j < i ∧ d = dptr s0 j ∧ v = Desc 0 0 0;
  cl_nodes d : d ∈ dom (pm_descs s) → d ∈ dom (nodes (pm_lists s)) ∧
    AVL_DATA2NODE d desc_tree_node ∈ dom (anodes (pm_tree s));
  cl_new a : a ∈ dom (anodes (pm_tree s)) → a ∈ dom (anodes (pm_tree s0)) ∨
    ∃ j, 0 ≤ j < mappings_count s0 ∧ a = AVL_DATA2NODE (dptr s0 j) desc_tree_node;
  cl_heads : lists (pm_lists s) = lists (pm_lists s0);
  cl_rest : same_pool s0 s ∧ pm_mutex s = pm_mutex s0 ∧ pm_chunks s = pm_chunks s0 }.

Lemma geometry_desc_ptr s i : pool_geometry s → 0 ≤ i < mappings_count s → desc_ptr s i = dptr s i.
Proof.
  intros Hg Hi. pose proof (pg_mappings _ Hg). unfold desc_ptr, dptr, sizeof_mapping_desc in *. apply uwrap_small. lia.
Qed.

Lemma same_desc_ptr s s' i : same_pool s s' → desc_ptr s' i = desc_ptr s i.
Proof. intros (_ & _ & _ & E & _). unfold desc_ptr. by rewrite E. Qed.

Lemma wp_clear_descs s0 : pool_geometry s0 → ∀ n i s (Q : unit → pmap → Prop),
  0 ≤ i → i + Z.of_nat n = mappings_count s0 → cleared i s0 s →
  (∀ s', cleared (mappings_count s0) s0 s' → Q tt s') → wp (clear_descs n i) s Q.
Proof.
  intros Hg. induction n as [|n IH]; intros i s Q Hi Hn Hc HQ; simpl; wp_go.
  { apply HQ. by replace (mappings_count s0) with i by lia. }
  pose proof Hc as [Hd Hno Hnew Hh Hr]. rewrite (same_desc_ptr s0), (geometry_desc_ptr s0) by (done || lia || apply Hr).
  apply (IH (i + 1)); [lia|lia| |done]. split; simpl; [| | |done|done].
  - intros d v. rewrite lookup_insert_Some, Hd. split.
    + intros [[<- <-]|[Hne (j & ? & -> & ->)]]; [exists i; by split_and!; lia || done|exists j; by split_and!; lia || done].
    + intros (j & ? & -> & ->). destruct (decide (j = i)) as [->|?]; [by left|right].
      split; [|exists j; by split_and!; lia || done]. unfold dptr, sizeof_mapping_desc. lia.
  - intros d. rewrite !dom_insert_L. intros [->%elem_of_singleton|Hin]%elem_of_union; [set_solver|].
    apply Hno in Hin. set_solver.
  - intros a. rewrite dom_insert_L. intros [->%elem_of_singleton|Hin]%elem_of_union; [|by apply Hnew].
    right. exists i. split; [lia|done].
Qed.

(** The first [i] descriptors are on the free list. *)
Record filled (i : Z) s : Prop := {
  fi_descs d v : pm_descs s !! d = Some v ↔ ∃ j, 0 ≤ j < mappings_count s ∧ d = dptr s j ∧
    v = Desc 0 (if j <? i then map_pool_base s + j * map_pool_chunksize s else 0) 0;
  fi_free : is_xlist (pm_lists s) free_mappings (map (dptr s) (seqZ 0 i));
  fi_used : is_xlist (pm_lists s) used_mappings [];
  fi_tree : ∀ pa, @is_aset (desc_client pa) (pm_tree s) mappings_tree desc_tree_node [];
  fi_nodes d : d ∈ dom (pm_descs s) → d ∈ dom (nodes (pm_lists s)) ∧
    AVL_DATA2NODE d desc_tree_node ∈ dom (anodes (pm_tree s)) }.

(** What filling the free list leaves alone. *)
Definition fill_same s s' : Prop :=
  same_pool s s' ∧ pm_tree s' = pm_tree s ∧ pm_mutex s' = pm_mutex s ∧ pm_chunks s' = pm_chunks s ∧
  dom (pm_descs s') = dom (pm_descs s).

Lemma wp_free_loop s0 : pool_geometry s0 → ∀ n i s (Q : unit → pmap → Prop),
  0 ≤ i → i + Z.of_nat n = mappings_count s0 → filled i s → fill_same s0 s →
  (∀ s', filled (mappings_count s0) s' → fill_same s0 s' → Q tt s') → wp (free_loop n i) s Q.
Proof.
  intros Hg. induction n as [|n IH]; intros i s Q Hi Hn Hf Hsame HQ; simpl; wp_go.
  { apply HQ; [|done]. by replace (mappings_count s0) with i by lia. }
  pose proof Hsame as ((Eb & Es & Ec & Em & En) & Et & Emu & Ech & Ed).
  assert (pool_geometry s) as Hgs.
  { destruct Hg. split; congruence. }
  destruct Hgs as [Hc _ Hb _ Hcn Hsz Hend Hmap]. pose proof Hf as [Hd Hfr Hu Htr Hno].
  assert (desc_ptr s i = dptr s i) as Ei.
  { unfold desc_ptr, dptr, sizeof_mapping_desc in *. apply uwrap_small. lia. }
  rewrite Ei. assert (pm_descs s !! dptr s i = Some (Desc 0 0 0)) as Hi0.
  { apply Hd. exists i. split_and!; [lia|lia|done|]. by rewrite (proj2 (Z.ltb_ge _ _)) by lia. }
  assert (i * map_pool_chunksize s + map_pool_chunksize s ≤ map_pool_size s) as Hle by nia.
  rewrite (uwrap_small 32 (i * _)), (uwrap_small 32 (_ + _)) by lia.
  eapply wp_st_desc; [exact Hi0|]. unfold list_add_mapping. wp_go. cbn [pm_lists upd_descs].
  assert (dptr s i ∈ dom (pm_descs s)) as Hdi by by apply elem_of_dom_2 in Hi0.
  assert (∀ j, j ≠ i → dptr s j ≠ dptr s i) as Hinj by (intros j Hj E; by apply Hj, (dptr_inj (s := s))).
  eapply wp_xlist_add_last; [exact Hfr| | |by apply elem_of_dom, Hno|].
  { intros (j & E & Hj%elem_of_seqZ)%list_elem_of_fmap. by apply (Hinj j); [lia|]. }
  { unfold valid_ptr, dptr, sizeof_mapping_desc in *. lia. }
  intros x Hx Hxf. wp_go. apply (IH (i + 1)); [lia|lia| |..|done].
  - split; simpl.
    + intros d v. rewrite lookup_insert_Some, Hd. split.
      * intros [[<- <-]|[Hne (j & ? & -> & ->)]]; [exists i|exists j]; split_and!; try lia; try done.
        -- by rewrite (proj2 (Z.ltb_lt _ _)) by lia.
        -- assert (j ≠ i) by by intros ->. f_equal. destruct (Z.ltb_spec j i), (Z.ltb_spec j (i + 1)); lia.
      * intros (j & ? & -> & ->). destruct (decide (j = i)) as [->|Hne]; [left|right].
        -- split; [done|]. by rewrite (proj2 (Z.ltb_lt _ _)) by lia.
        -- split; [by apply not_eq_sym, Hinj|]. exists j. split_and!; [lia|lia|done|]. f_equal.
           destruct (Z.ltb_spec j i), (Z.ltb_spec j (i + 1)); lia.
    + rewrite seqZ_app, map_app by lia. exact Hx.
    + eapply is_xlist_frame; [exact Hxf|done| |exact Hu]. intros ? []%not_elem_of_nil.
    + done.
    + intros d. rewrite dom_insert_in by done. rewrite (xf_dom _ _ _ _ Hxf). apply Hno.
  - split_and!; try done. simpl. by rewrite dom_insert_in.
Qed.

(** All descriptors on the free list: nothing is lent. *)
Lemma filled_rep s : pool_geometry s → filled (mappings_count s) s →
  cm_ok (pm_chunks s) (map_pool_base s) (map_pool_size s) → mx_free (pm_mutex s) →
  pmap_rep s [] [] (map (dptr s) (seqZ 0 (mappings_count s))) [].
Proof.
  intros Hg [Hd Hfr Hu Ht Hno] Hch Hm. pose proof (pg_chunk _ Hg). pose proof (pg_base _ Hg). pose proof (pg_end _ Hg).
  assert (∀ d v, pm_descs s !! d = Some v → ∃ i, 0 ≤ i < mappings_count s ∧ d = dptr s i ∧
    v = Desc 0 (map_pool_base s + i * map_pool_chunksize s) 0) as Hd1.
  { intros d v (i & Hi & -> & ->)%Hd. exists i. split; [done|]. by rewrite (proj2 (Z.ltb_lt _ _)) by lia. }
  assert (∀ i, 0 ≤ i < mappings_count s → is_Some (pm_descs s !! dptr s i)) as Hall.
  { intros i Hi. eexists. apply Hd. by exists i. }
  split; try done.
  - intros d v (i & Hi & -> & ->)%Hd1. exists i. split; [done|]. split; try done.
  - intros d. split; [by intros ?%not_elem_of_nil|]. by intros (v & (i & _ & _ & ->)%Hd1 & ?).
  - intros d. split.
    + intros (i & -> & Hi%elem_of_seqZ)%list_elem_of_fmap. destruct (Hall i) as [v Hv]; [lia|]. exists v. split; [done|].
      by apply Hd1 in Hv as (? & _ & _ & ->).
    + intros (v & (i & Hi & -> & _)%Hd1 & _). apply list_elem_of_fmap_2, elem_of_seqZ. lia.
  - by intros w ?%not_elem_of_nil.
Qed.

(** The base the mapper aligns to. *)
Definition aligned_base (vspace align : Z) : Z := (vspace + align - 1) / align * align.

(** The state initialization starts from, and its arguments. *)
Record init_pre (vspace mem size chunk align : Z) s : Prop := {
  ip_chunk : 0 < chunk ∧ chunk mod PAGE_SIZE = 0 ∧ size mod chunk = 0;
  ip_base : 0 < vspace ∧ 0 < align ∧ align mod PAGE_SIZE = 0 ∧ 0 ≤ size ∧
    vspace + align - 1 + size < 2 ^ 32;
  ip_mem : 0 < mem ∧ mem + sizeof_mapping_desc * (size / chunk) ≤ 2 ^ 32;
  ip_descs : pm_descs s = ∅;
  ip_heads : is_Some (lists (pm_lists s) !! used_mappings) ∧ is_Some (lists (pm_lists s) !! free_mappings);
  ip_chunks : cm_ok (pm_chunks s) (aligned_base vspace align) size;
  ip_mutex : mx_raw (pm_mutex s) }.

Lemma aligned_base_bounds vspace align : 0 < align → vspace ≤ aligned_base vspace align < vspace + align.
Proof. intros. unfold aligned_base. Z.div_mod_to_equations. nia. Qed.

Lemma wp_vm_page_mapper_init key tmp vspace mem size chunk align s (Q : Z * option Z → pmap → Prop) :
  init_pre vspace mem size chunk align s →
  (∀ j, 0 ≤ j < size / chunk → key ≠ mem + sizeof_mapping_desc * j ∧
     tmp ≠ AVL_DATA2NODE (mem + sizeof_mapping_desc * j) desc_tree_node) →
  tmp ∉ dom (anodes (pm_tree s)) → valid_ptr tmp →
  (∀ s', pmap_ok key tmp s' [] → map_pool_base s' = aligned_base vspace align → map_pool_size s' = size →
     map_pool_chunksize s' = chunk → mappings_count s' = size / chunk → pm_chunks s' = pm_chunks s →
     Q (NO_ERROR, Some (aligned_base vspace align)) s') →
  wp (vm_page_mapper_init vspace mem size chunk align) s Q.
Proof.
  intros [(Hc & Hcp & Hcs) (Hv & Ha & Hap & Hsz & Hend) Hmem Hds Hheads Hch Hmx] Hout Htmp Hvt HQ.
  pose proof (aligned_base_bounds vspace align Ha) as Hab.
  assert (0 ≤ size / chunk) as Hn by (apply Z.div_pos; lia).
  assert (u32 (u32 (vspace + align - 1) / align * align) = aligned_base vspace align) as Eb.
  { rewrite (uwrap_small 32 (vspace + align - 1)) by lia. apply uwrap_small. fold (aligned_base vspace align). lia. }
  unfold vm_page_mapper_init. rewrite (proj2 (Z.eqb_eq _ _) Hcs). cbn [negb].
  rewrite (proj2 (Z.eqb_neq vspace NULL)) by (unfold NULL; lia). wp_go.
  rewrite (proj2 (Z.eqb_neq mem NULL)) by (unfold NULL; lia). wp_go. rewrite Eb.
  set (s0 := PMap _ _ _ _ _ _ _ _ _ _). cbn [mappings_count s0].
  assert (pool_geometry s0) as Hg.
  { split; simpl; try lia; try done.
    - unfold aligned_base. rewrite Z.mul_mod, Hap, Z.mul_0_r by done. done.
    - apply Z.div_exact in Hcs; lia. }
  eapply (wp_clear_descs s0 Hg); [lia|simpl; lia| |].
  { split; try done.
    - intros d v. simpl. rewrite Hds. split; [done|]. intros (? & ? & _). lia.
    - simpl. rewrite Hds. by intros d ?%not_elem_of_dom_2.
    - by left. }
  intros s1 [Hd1 Hn1 Hnew Hh1 [Hp1 [Hm1 Hc1]]]. wp_go. pose proof Hp1 as (E1 & E2 & E3 & E4 & E5).
  eapply create_aset; [done|done|done|]. intros t1 Ht1 Han1. wp_go.
  cbn [pm_lists upd_tree]. eapply wp_xlist_init; [rewrite Hh1; apply Hheads|]. intros x1 Hx1 Hxf1. wp_go.
  cbn [pm_lists upd_lists]. eapply wp_xlist_init.
  { rewrite (xf_lists _ _ _ _ Hxf1), Hh1 by done. apply Hheads. }
  intros x2 Hx2 Hxf2. wp_go. set (s2 := upd_lists _ _).
  eapply (wp_free_loop s2); [by destruct Hg; split; simpl in *; congruence|lia|simpl in *; lia| |by split_and!|].
  { split; simpl; try done.
    - intros d v. rewrite Hd1. simpl. rewrite E5.
      assert (∀ j, dptr s2 j = dptr s0 j) as Ed by (intros j; unfold dptr; change (mappings s2) with (mappings s1); by rewrite E4).
      split; intros (j & Hj & -> & ->); (exists j; split; [exact Hj|split; [by rewrite Ed|]]);
        by rewrite (proj2 (Z.ltb_ge _ _)) by (destruct Hj; lia).
    - eapply is_xlist_frame; [exact Hxf2|done| |exact Hx1]. intros ? []%not_elem_of_nil.
    - intros pa. refine (aset_client _ _ _ _ _ _ _ Ht1). by intros ? ? []%not_elem_of_nil.
    - intros d Hd. rewrite Han1, (xf_dom _ _ _ _ Hxf2), (xf_dom _ _ _ _ Hxf1). by apply Hn1. }
  intros s3 Hf3 ((F1 & F2 & F3 & F4 & F5) & Ft & Fm & Fc & Fd). wp_go.
  apply mx_init_ok; [simpl in *; congruence|]. intros m4 Hm4. wp_go.
  set (s4 := upd_mutex m4 s3). assert (pool_geometry s4) as Hg4 by (destruct Hg; split; simpl in *; congruence).
  assert (∀ d, d ∈ dom (pm_descs s4) → ∃ j, 0 ≤ j < size / chunk ∧ d = mem + sizeof_mapping_desc * j) as Hdom.
  { intros d Hd4. change (d ∈ dom (pm_descs s3)) in Hd4. rewrite Fd in Hd4. apply elem_of_dom in Hd4 as [v Hdv].
    apply Hd1 in Hdv as (j & Hj & -> & _). by exists j. }
  assert (pm_tree s4 = t1) as Et4 by (simpl; by rewrite Ft).
  apply HQ; [|simpl in *; congruence..]. split.
  - exists [], (map (dptr s4) (seqZ 0 (mappings_count s4))), []. apply filled_rep; [done| | |done].
    + change (mappings_count s4) with (mappings_count s3). rewrite F5. by destruct Hf3; split.
    + simpl in *. by rewrite Fc, Hc1, F1, E1, F2, E2.
  - simpl. lia.
  - intros (j & Hj & ->)%Hdom. by destruct (Hout j Hj).
  - split; [|done]. rewrite Et4, Han1. intros [?|(j & Hj & ->)]%Hnew; [done|]. by destruct (Hout j Hj).
Qed.

(** ** The contract *)

(** A window lent shows its physical address: its chunk is mapped to the chunk of the
    physical address, at the same offset. *)
Definition shown s (w : Z * Z) : Prop :=
  let off := w.2 mod map_pool_chunksize s in
  0 ≤ w.1 - off ∧ cm_page (pm_chunks s) (w.1 - off) = Some (w.2 - off).

Lemma windows_shown key tmp s L w : pmap_ok key tmp s L → w ∈ L → shown s w.
Proof.
  intros [(used & free & known & Hs) _ _ _] Hw.
  destruct (pr_windows _ _ _ _ _ Hs _ Hw) as (i & v & Hv & Hpa & Ep & Ea).
  pose proof (window_slot Hs w i v Hv Ea) as Eslot.
  destruct (pr_desc _ _ _ _ _ Hs _ _ Hv) as (j & Ej & Hd). apply (dptr_inj (s := s)) in Ej as <-.
  pose proof (refs_in _ _ _ _ _ Hw Eslot) as Hpos. rewrite <- (do_refs _ _ _ _ Hd) in Hpos.
  pose proof (do_seen _ _ _ _ Hd ltac:(lia)) as Hseen. rewrite (do_vaddr _ _ _ _ Hd), Ep in Hseen.
  destruct (chunk_in_pool Hs i (do_index _ _ _ _ Hd)) as (? & _ & _).
  pose proof (pg_base _ (pr_geometry _ _ _ _ _ Hs)). pose proof (pg_chunk _ (pr_geometry _ _ _ _ _ Hs)).
  unfold shown. simpl. rewrite Ea. split; [lia|].
  replace (_ - _) with (map_pool_base s + i * map_pool_chunksize s) by lia. rewrite Hseen. f_equal.
  unfold ROUNDOWN. rewrite Z.mod_eq by lia. lia.
Qed.

(** Windows on one physical chunk are in one chunk of the pool. *)
Lemma windows_share key tmp s L w w' : pmap_ok key tmp s L → w ∈ L → w' ∈ L →
  ROUNDOWN w.2 (map_pool_chunksize s) = ROUNDOWN w'.2 (map_pool_chunksize s) →
  w.1 - w.2 mod map_pool_chunksize s = w'.1 - w'.2 mod map_pool_chunksize s.
Proof.
  intros [(used & free & known & Hs) _ _ _] Hw Hw' E.
  assert (∀ w, w ∈ L → ∃ i v, dptr s i ∈ known ∧ pm_descs s !! dptr s i = Some v ∧
    md_paddr v = ROUNDOWN w.2 (map_pool_chunksize s) ∧
    w.1 - w.2 mod map_pool_chunksize s = map_pool_base s + i * map_pool_chunksize s) as H.
  { intros u Hu. destruct (pr_windows _ _ _ _ _ Hs _ Hu) as (i & v & Hv & Hpa & Ep & Ea).
    pose proof (window_slot Hs u i v Hv Ea) as Eslot.
    destruct (pr_desc _ _ _ _ _ Hs _ _ Hv) as (j & Ej & Hd). apply (dptr_inj (s := s)) in Ej as <-.
    pose proof (refs_in _ _ _ _ _ Hu Eslot) as Hpos. rewrite <- (do_refs _ _ _ _ Hd) in Hpos.
    exists i, v. split_and!; [|done|done|lia]. apply (pr_known _ _ _ _ _ Hs), (pr_in_used _ _ _ _ _ Hs).
    exists v. split; [done|lia]. }
  destruct (H w Hw) as (i & v & Hk & Hv & Ep & ->). destruct (H w' Hw') as (j & v' & Hk' & Hv' & Ep' & ->).
  pose proof (desc_order (paddr_of (pm_descs s))).
  assert (dptr s j = dptr s i) as ->%(dptr_inj (s := s)); [|done].
  eapply (sorted_equal (C := desc_client (paddr_of (pm_descs s))) known);
    [exact (aset_sorted _ _ _ _ (pr_tree _ _ _ _ _ Hs))|done|done|].
  apply desc_eq. rewrite (paddr_of_some _ _ _ Hv), (paddr_of_some _ _ _ Hv'). congruence.
Qed.

Lemma wp_get_ppage key tmp s L pa b (Q : Z * option Z → pmap → Prop) :
  pmap_ok key tmp s L → Z.of_nat (length L) + 1 < 2 ^ 32 → 0 ≤ pa < 2 ^ 32 →
  ¬ exhausted s (ROUNDOWN pa (map_pool_chunksize s)) →
  (∀ va s', pmap_ok key tmp s' ((va, pa) :: L) → same_pool s s' →
     map_pool_base s ≤ va < map_pool_base s + map_pool_size s → Q (NO_ERROR, Some va) s') →
  wp (vm_pmap_get_ppage key pa b) s Q.
Proof.
  intros Hok HL Hpa Hex HQ. unfold vm_pmap_get_ppage. cbn [get_loop]. wp_go.
  eapply wp_get_round; [done..| |].
  - intros va s' _ Hok' Hsp Hva. wp_go. by apply HQ.
  - intros s' _ _ _ H. done.
Qed.

(** An exhausted pool: one round. *)
Lemma get_round_exhausted key tmp s L pa b :
  pmap_ok key tmp s L → Z.of_nat (length L) + 1 < 2 ^ 32 → 0 ≤ pa < 2 ^ 32 →
  exhausted s (ROUNDOWN pa (map_pool_chunksize s)) →
  ∃ s', get_round key pa b s = Ok (if b then None else Some (ERR_NO_MEMORY, None), s') ∧
    pmap_ok key tmp s' L ∧ same_pool s s' ∧ pm_descs s' = pm_descs s.
Proof.
  intros Hok HL Hpa Hex. apply wp_run. eapply wp_get_round; [done..| |]; [by intros|]. by intros s' ????.
Qed.

(** The mapper as a window, its locals at [key] and [tmp]; chunks are pages. *)
Definition mapper_window (key tmp : Z) : Window := {|
  win_state := pmap; win_get := vm_pmap_get_ppage key; win_put := vm_pmap_put_ppage tmp;
  win_frame s va := cm_page (pm_chunks s) va |}.

Definition mapper_ok (key tmp : Z) s (L : list (Z * Z)) : Prop :=
  pmap_ok key tmp s L ∧ map_pool_chunksize s = PAGE_SIZE.

Lemma mapper_frame_ok key tmp s L va pa : mapper_ok key tmp s L → (va, pa) ∈ L → pa mod PAGE_SIZE = 0 →
  cm_page (pm_chunks s) va = Some pa.
Proof.
  intros [Hok Ec] Hin Hpa. destruct (windows_shown key tmp s L (va, pa) Hok Hin) as [_ H]. simpl in H.
  by rewrite Ec, Hpa, !Z.sub_0_r in H.
Qed.

(** A pool with fewer windows than chunks has a chunk left. *)
Lemma not_exhausted key tmp s L paddr : pmap_ok key tmp s L → Z.of_nat (length L) < mappings_count s →
  ¬ exhausted s paddr ∧ Z.of_nat (length L) + 1 < 2 ^ 32.
Proof.
  intros [(used & free & known & Hs) _ _ _] HL. pose proof (pr_geometry _ _ _ _ _ Hs) as Hg. split.
  - intros [Hall _]. pose proof (refs_pigeonhole (map_pool_base s) (map_pool_chunksize s) L (mappings_count s)) as H.
    assert (mappings_count s ≤ Z.of_nat (length L)); [|lia]. apply H; [lia|]. intros i Hi.
    destruct (pr_all _ _ _ _ _ Hs i Hi) as [v Hv]. pose proof (Hall _ _ Hv) as Hr.
    destruct (pr_desc _ _ _ _ _ Hs _ _ Hv) as (j & Ej & Hd). apply (dptr_inj (s := s)) in Ej as <-.
    by rewrite <- (do_refs _ _ _ _ Hd).
  - pose proof (pg_mappings _ Hg). unfold sizeof_mapping_desc in *. lia.
Qed.

Lemma mapper_get_ok key tmp s L pa (b : bool) (Q : Z * option Z → pmap → Prop) :
  mapper_ok key tmp s L → Z.of_nat (length L) < mappings_count s → 0 ≤ pa < 2 ^ 32 →
  (∀ va s', mapper_ok key tmp s' ((va, pa) :: L) → mappings_count s' = mappings_count s → Q (NO_ERROR, Some va) s') →
  wp (vm_pmap_get_ppage key pa b) s Q.
Proof.
  intros [Hok Ec] HL Hpa HQ. destruct (not_exhausted key tmp s L (ROUNDOWN pa (map_pool_chunksize s)) Hok HL).
  eapply wp_get_ppage; [done..|]. intros va s' Hok' (_ & _ & E1 & _ & E2) _. apply HQ; [split; [done|congruence]|done].
Qed.

Lemma mapper_put_ok key tmp s L1 L2 va pa (Q : Z → pmap → Prop) :
  mapper_ok key tmp s (L1 ++ (va, pa) :: L2) →
  (∀ s', mapper_ok key tmp s' (L1 ++ L2) → mappings_count s' = mappings_count s → Q NO_ERROR s') →
  wp (vm_pmap_put_ppage tmp va) s Q.
Proof.
  intros [Hok Ec] HQ. eapply wp_put_ppage; [done|]. intros s' Hok' (_ & _ & E1 & _ & E2).
  apply HQ; [split; [done|congruence]|done].
Qed.

#[export] Instance mapper_laws key tmp : WindowLaws (mapper_window key tmp) := {|
  win_ok (s : @win_state (mapper_window key tmp)) := mapper_ok key tmp s; win_slots (s : @win_state (mapper_window key tmp)) := mappings_count s;
  win_frame_ok := mapper_frame_ok key tmp; win_get_ok := mapper_get_ok key tmp;
  win_put_ok := mapper_put_ok key tmp |}.

Lemma get_loop_hangs key tmp fuel : ∀ s L pa,
  pmap_ok key tmp s L → Z.of_nat (length L) + 1 < 2 ^ 32 → 0 ≤ pa < 2 ^ 32 →
  exhausted s (ROUNDOWN pa (map_pool_chunksize s)) → get_loop fuel key pa true s = Hang.
Proof.
  induction fuel as [|fuel IH]; intros s L pa Hok HL Hpa Hex; [done|]. simpl.
  destruct (get_round_exhausted key tmp s L pa true Hok HL Hpa Hex) as (s' & E & Hok' & (_ & _ & Ec & _) & Ed).
  unfold mbind, M_bind. rewrite E. apply (IH s' L); [done..|]. rewrite Ec. unfold exhausted, all_used, unseen. by rewrite Ed.
Qed.

(** ** Theorems *)

(** [vm_page_mapper_init] on a pool of whole chunks aligns the base of the pool, makes as
    many descriptors as there are chunks and leaves every chunk free: the invariant holds
    with no window lent. A pool that is not a whole number of chunks makes the kernel panic;
    without address space or memory the status says so. *)
Theorem page_mapper_init_correct key tmp vspace mem size chunk align s :
  0 < chunk →
  (size mod chunk ≠ 0 → vm_page_mapper_init vspace mem size chunk align s = Panic) ∧
  (size mod chunk = 0 → vspace = NULL ∨ u32 (u32 (vspace + align - 1) / align * align) ≠ NULL ∧ mem = NULL →
     ∃ p s', vm_page_mapper_init vspace mem size chunk align s = Ok ((ERR_NO_MEMORY, p), s')) ∧
  (init_pre vspace mem size chunk align s →
   (∀ j, 0 ≤ j < size / chunk → key ≠ mem + sizeof_mapping_desc * j ∧
      tmp ≠ AVL_DATA2NODE (mem + sizeof_mapping_desc * j) desc_tree_node) →
   tmp ∉ dom (anodes (pm_tree s)) → valid_ptr tmp →
   let base := aligned_base vspace align in
   vspace ≤ base < vspace + align ∧ base mod align = 0 ∧
   ∃ s', vm_page_mapper_init vspace mem size chunk align s = Ok ((NO_ERROR, Some base), s') ∧
     pmap_ok key tmp s' [] ∧ map_pool_base s' = base ∧ map_pool_size s' = size ∧
     map_pool_chunksize s' = chunk ∧ mappings_count s' = size / chunk ∧
     ∀ paddr, ¬ exhausted s' paddr ∨ size = 0).
Proof.
  intros Hc. split_and!.
  - intros Hs. unfold vm_page_mapper_init. by rewrite (proj2 (Z.eqb_neq _ _) Hs).
  - intros Hs H. unfold vm_page_mapper_init. rewrite (proj2 (Z.eqb_eq _ _) Hs). cbn [negb].
    destruct (decide (vspace = NULL)) as [->|Hv]; [do 2 eexists; reflexivity|].
    destruct H as [?|[_ ->]]; [done|]. rewrite (proj2 (Z.eqb_neq _ _) Hv). do 2 eexists. reflexivity.
  - intros Hpre Hout Htmp Hvt base. pose proof Hpre as [_ (_ & Ha & _ & Hsz & _) _ _ _ _ _].
    split; [by apply aligned_base_bounds|]. split; [by apply Z.mod_mul; lia|]. apply wp_run.
    eapply wp_vm_page_mapper_init; [done..|]. intros s' Hok E1 E2 E3 E4 _. split_and!; try done.
    intros paddr. destruct (decide (0 < size / chunk)) as [H|H].
    + left. apply (not_exhausted key tmp s' [] paddr); [done|simpl; lia].
    + right. pose proof (ip_chunk _ _ _ _ _ _ Hpre) as (_ & _ & Hm). apply Z.div_exact in Hm; [|lia]. nia.
Qed.


(** C24: [vm_pmap_put_ppage] takes a window back: it is no longer lent, all others are. An
    address outside the pool, or in a chunk that nobody has borrowed, makes the kernel
    panic. *)
Theorem page_mapper_put_correct key tmp s L va :
  pmap_ok key tmp s L →
  (∀ L1 L2 pa, L = L1 ++ (va, pa) :: L2 →
     ∃ s', vm_pmap_put_ppage tmp va s = Ok (NO_ERROR, s') ∧ pmap_ok key tmp s' (L1 ++ L2) ∧ same_pool s s') ∧
  (¬ map_pool_base s ≤ va < map_pool_base s + map_pool_size s ∨
   0 ≤ va < 2 ^ 32 ∧ refs (map_pool_base s) (map_pool_chunksize s) L ((va - map_pool_base s) / map_pool_chunksize s) = 0 →
   vm_pmap_put_ppage tmp va s = Panic).
Proof.
  intros Hok. split.
  - intros L1 L2 pa ->. apply wp_run. eapply wp_put_ppage; [done|]. auto.
  - pose proof Hok as [(used & free & known & Hs) _ _ _]. pose proof (pr_geometry _ _ _ _ _ Hs) as Hg.
    pose proof (pg_base _ Hg). pose proof (pg_end _ Hg). pose proof (pg_chunk _ Hg).
    unfold vm_pmap_put_ppage, gets, mbind, M_bind. rewrite (uwrap_small 32 (_ + map_pool_size s)).
    2: { pose proof (pg_size _ Hg). pose proof (pg_count _ Hg). nia. }
    destruct (decide (map_pool_base s ≤ va < map_pool_base s + map_pool_size s)) as [Hin|Hout]; intros Hor.
    + destruct Hor as [?|[Hva Hr]]; [done|].
      rewrite (proj2 (Z.ltb_ge _ _)), (proj2 (Z.leb_gt _ _)) by lia. cbn [orb]. rewrite (uwrap_small 32 (va - _)) by lia.
      destruct (wp_ok mx_lock (pm_mutex s) (λ _ st, mx_held st)) as (r & m & Em & _);
        [apply mx_lock_ok; [apply (pr_mutex _ _ _ _ _ Hs)|done]|].
      unfold zoom. rewrite Em. set (i := (va - map_pool_base s) / map_pool_chunksize s) in *.
      assert (0 ≤ i < mappings_count s) as Hi.
      { unfold i. split; [apply Z.div_pos; lia|]. apply Z.div_lt_upper_bound; [done|]. rewrite (pg_size _ Hg) in Hin. lia. }
      change (desc_ptr (upd_mutex m s) i) with (desc_ptr s i). rewrite (desc_ptr_eq Hs) by done.
      destruct (pr_all _ _ _ _ _ Hs i Hi) as [v Hv]. unfold ld_desc, load. simpl. rewrite Hv.
      destruct (pr_desc _ _ _ _ _ Hs _ _ Hv) as (j & Ej & Hd). apply (dptr_inj (s := s)) in Ej as <-.
      by rewrite (do_refs _ _ _ _ Hd), Hr.
    + destruct (Z.ltb_spec va (map_pool_base s)); [done|].
      destruct (Z.leb_spec (map_pool_base s + map_pool_size s) va); [done|lia].
Qed.
End props.

(** ** A pool of two pages *)

(** No semaphores yet: nothing can be created. *)
Definition no_semaphores : Semaphores := {|
  sems := unit; sem_create _ _ _ := mret INVALID_SEMID; sem_delete _ := mret (-1); sem_down_ex _ _ _ _ := mret (-1);
  sem_down _ _ := mret (-1); sem_up _ _ := mret (-1); current_thread_id _ := 1 |}.

Definition example_mutex : PoolMutex := @early_mutex no_semaphores 100.

#[local] Instance example_mutex_laws : MutexLaws example_mutex := @early_laws no_semaphores 100.

Definition example_entries : gmap Z Z := list_to_map ((λ i, (i, 0)) <$> seqZ 0 8192).

Definition example_pool : pool := Pool 0xD0400000 example_entries [].

Definition example_pmap : @pmap example_mutex pool_chunks :=
  @PMap example_mutex pool_chunks (XStore ∅ {[1 := XListHdr 5 6 7; 2 := XListHdr 8 9 10]}) (AStore ∅ ∅) ∅
    (@Mutexes no_semaphores tt {[100 := Mtx 7 9]} ∅) example_pool 0 0 0 0 0.

Definition example_key : Z := 0xC0300000.

Definition example_tmp : Z := 0xC0300100.

Lemma example_pool_ok : pool_ok example_pool 0xD0400000 8192.
Proof.
  split; [done|by_decide|]. intros i Hi. apply not_eq_None_Some. intros E. apply not_elem_of_list_to_map in E. apply E.
  apply list_elem_of_fmap. exists (i, 0). split; [done|]. apply list_elem_of_fmap. exists i. split; [done|].
  apply elem_of_seqZ. exact Hi.
Qed.

Lemma example_init_pre : init_pre 0xD0001000 0xC0100000 8192 4096 0x400000 example_pmap.
Proof.
  split; [by_decide|by_decide|by_decide|reflexivity|split; by eexists|exact example_pool_ok|].
  change (100 ∈ dom (<[100 := Mtx 7 9]> (∅ : gmap Z mutex))). set_solver +.
Qed.

Lemma example_apart j : 0 ≤ j < 8192 / 4096 → example_key ≠ 0xC0100000 + sizeof_mapping_desc * j ∧
  example_tmp ≠ AVL_DATA2NODE (0xC0100000 + sizeof_mapping_desc * j) desc_tree_node.
Proof.
  intros [H0 H1]. change (8192 / 4096) with 2 in H1. assert (j = 0 ∨ j = 1) as [-> | ->] by lia; split; by_decide.
Qed.

Lemma page_mapper_init_correct_witness :
  (∃ s', vm_page_mapper_init 0xD0001000 0xC0100000 8192 4096 0x400000 example_pmap = Ok ((NO_ERROR, Some 0xD0400000), s') ∧
     pmap_ok example_key example_tmp s' []) ∧
  vm_page_mapper_init 0xD0001000 0xC0100000 8193 4096 0x400000 example_pmap = Panic ∧
  ∃ p s', vm_page_mapper_init NULL 0xC0100000 8192 4096 0x400000 example_pmap = Ok ((ERR_NO_MEMORY, p), s').
Proof.
  split_and!.
  - destruct (page_mapper_init_correct example_key example_tmp 0xD0001000 0xC0100000 8192 4096 0x400000 example_pmap)
      as (_ & _ & H); [by_decide|].
    destruct (H example_init_pre example_apart) as (_ & _ & s' & E & Hok & _); [by_decide|by_decide|].
    exists s'. split; [exact E|exact Hok].
  - apply (page_mapper_init_correct example_key example_tmp 0xD0001000 0xC0100000 8193 4096 0x400000 example_pmap); by_decide.
  - apply (page_mapper_init_correct example_key example_tmp NULL 0xC0100000 8192 4096 0x400000 example_pmap);
      [by_decide|by_decide|by left].
Defined.

(** The pool after initialization, and with windows on one and on two pages lent. *)
Definition started : @pmap example_mutex pool_chunks :=
  outcome (vm_page_mapper_init 0xD0001000 0xC0100000 8192 4096 0x400000) example_pmap.

Definition lent (pa : Z) (s : @pmap example_mutex pool_chunks) : @pmap example_mutex pool_chunks :=
  outcome (vm_pmap_get_ppage example_key pa false) s.

Lemma started_ok : mapper_ok example_key example_tmp started [] ∧ mappings_count started = 2.
Proof.
  apply (wp_outcome _ _ (λ s, mapper_ok example_key example_tmp s [] ∧ mappings_count s = 2)).
  eapply wp_vm_page_mapper_init; [exact example_init_pre|exact example_apart|by_decide|by_decide|].
  intros s' Hok _ _ Ec En _. by split.
Qed.

Lemma lent_ok pa s L : mapper_ok example_key example_tmp s L → Z.of_nat (length L) < mappings_count s → 0 ≤ pa < 2 ^ 32 →
  ∃ va, mapper_ok example_key example_tmp (lent pa s) ((va, pa) :: L) ∧ mappings_count (lent pa s) = mappings_count s.
Proof.
  intros Hok HL Hpa. apply (wp_outcome _ _ (λ s', ∃ va, mapper_ok example_key example_tmp s' ((va, pa) :: L) ∧
    mappings_count s' = mappings_count s)). eapply mapper_get_ok; [done..|]. intros va s' ??. by exists va.
Qed.

Lemma lent_twice : ∃ va va', mapper_ok example_key example_tmp (lent 0x6000 (lent 0x5000 started)) [(va', 0x6000); (va, 0x5000)].
Proof.
  destruct started_ok as [Hok En]. destruct (lent_ok 0x5000 started []) as (va & Hok1 & En1); [done|rewrite En; by_decide|by_decide|].
  destruct (lent_ok 0x6000 (lent 0x5000 started) [(va, 0x5000)]) as (va' & Hok2 & _);
    [done|rewrite En1, En; by_decide|by_decide|]. by exists va, va'.
Qed.

Lemma lent_exhausted : exhausted (lent 0x6000 (lent 0x5000 started)) 0x7000.
Proof.
  split; [change (map_Forall (λ _ v, md_ref_count v ≠ 0) (pm_descs (lent 0x6000 (lent 0x5000 started)))); by_decide|].
  change (map_Forall (λ _ v, md_ref_count v ≠ 0 → md_paddr v ≠ 0x7000) (pm_descs (lent 0x6000 (lent 0x5000 started)))). by_decide.
Qed.

Lemma lent_chunk : map_pool_chunksize (lent 0x6000 (lent 0x5000 started)) = 4096.
Proof. vm_compute. reflexivity. Qed.

Lemma started_base : map_pool_base started = 0xD0400000 ∧ map_pool_chunksize started = 4096 ∧ map_pool_size started = 8192.
Proof. split_and!; vm_compute; reflexivity. Qed.

#[local] Opaque started lent.

(** The pool with two windows lent has nothing for a third page. *)
Lemma full_fails (b : bool) L : pmap_ok example_key example_tmp (lent 0x6000 (lent 0x5000 started)) L →
  Z.of_nat (length L) + 1 < 2 ^ 32 → ∀ r s', vm_pmap_get_ppage example_key 0x7000 b (lent 0x6000 (lent 0x5000 started)) ≠
    Ok ((NO_ERROR, r), s').
Proof.
  intros Hok HL r s' E. destruct (get_round_exhausted example_key example_tmp _ L 0x7000 b Hok HL) as (s1 & E1 & _);
    [by_decide|rewrite lent_chunk; exact lent_exhausted|].
  unfold vm_pmap_get_ppage, get_loop, mbind, M_bind in E. rewrite E1 in E. destruct b; discriminate E.
Qed.


Lemma page_mapper_put_correct_witness :
  (∃ va s', vm_pmap_put_ppage example_tmp va (lent 0x5000 started) = Ok (NO_ERROR, s') ∧
     pmap_ok example_key example_tmp s' []) ∧
  vm_pmap_put_ppage example_tmp 0xD0400000 started = Panic ∧ vm_pmap_put_ppage example_tmp 0x1000 started = Panic.
Proof.
  destruct started_ok as [Hok En]. destruct (lent_ok 0x5000 started []) as (va & [Hok1 _] & _);
    [exact Hok|rewrite En; by_decide|by_decide|]. destruct Hok as [Hok _].
  split_and!.
  - exists va. destruct (page_mapper_put_correct example_key example_tmp _ _ va Hok1) as [H _].
    destruct (H [] [] 0x5000 eq_refl) as (s' & E & Hok' & _). exists s'. split; [exact E|exact Hok'].
  - apply (page_mapper_put_correct example_key example_tmp started [] 0xD0400000 Hok). right. split; [by_decide|].
    destruct started_base as (-> & -> & _). reflexivity.
  - apply (page_mapper_put_correct example_key example_tmp started [] 0x1000 Hok). left.
    destruct started_base as (-> & _ & ->). by_decide.
Defined.
