(* ===== verification/TransMap.v ===== *)
(** * Translation maps: [kernel/arch/i386/vm_translation_map.c]

    A translation map has a page directory of 1024 entries, which point to page tables in
    physical pages. The entries of kernel space are the same in all maps, which are on a
    list. The state of the model is that of the physical pages (with the processor's locks
    and the contents of the frames), the list, the maps and the page directories by address,
    the windows through which page tables are reached, the state of the allocator of page
    directories, and what was asked of the translation look-aside buffer. *)

From stdpp Require Import gmap list.
From S2P Require Import Prelude Spinlock XList VmPage Alloc Mmu.
#[local] Open Scope Z_scope.

(** ** Data *)

(** [vm_translation_map_t] with its architecture part, but for the list node it begins with
    and the lock; [tm_ops]: whether the table of operations is linked. *)
Record tmap := TMap {
  tm_ops : bool; tm_map_count : Z; tm_pgdir_virt : Z; tm_pgdir_phys : Z;
  tm_num_invalidate_pages : Z; tm_pages_to_invalidate : list Z }.

Definition PAGE_INVALIDATE_CACHE_SIZE : Z := 64.

Definition tmap_list : Z := 1.

Definition tmap_list_lock : Z := 5.

(** [&tmap->lock] *)
Definition tmap_lock (tm : Z) : Z := u32 (tm + 12).

Definition KERNEL_BASE : Z := 0xC0000000.

Definition KERNEL_SIZE : Z := 0x40000000.

Definition USER_BASE : Z := 0x1000.

Definition USER_SIZE : Z := 0xBFFFE000.

Definition is_kernel_address (x : Z) : bool := (KERNEL_BASE <=? x) && (x <=? u32 (KERNEL_BASE + KERNEL_SIZE - 1)).

Definition FIRST_USER_PGDIR_ENTRY : Z := VADDR_TO_PDENT USER_BASE.

(** [ROUNDUP(USER_SIZE, PAGE_SIZE * MAX_PTENTS)] *)
Definition NUM_USER_PGDIR_ENTRIES : Z :=
  VADDR_TO_PDENT (Z.land (u32 (USER_SIZE + (PAGE_SIZE * MAX_PTENTS - 1))) (u32 (Z.lnot (PAGE_SIZE * MAX_PTENTS - 1)))).

Definition FIRST_KERNEL_PGDIR_ENTRY : Z := VADDR_TO_PDENT KERNEL_BASE.

Definition NUM_KERNEL_PGDIR_ENTRIES : Z := VADDR_TO_PDENT KERNEL_SIZE.

Definition VM_PROT_READ : Z := 0x01.

Definition VM_PROT_WRITE : Z := 0x02.

Definition VM_PROT_EXECUTE : Z := 0x04.

Definition VM_PROT_KERNEL : Z := 0x08.

Definition VM_FLAG_PAGE_PRESENT : Z := 0x10.

Definition VM_FLAG_PAGE_MODIFIED : Z := 0x20.

Definition VM_FLAG_PAGE_ACCESSED : Z := 0x40.

(** ** Entries *)

Definition init_pdentry : Z := 0.

Definition init_ptentry : Z := 0.

(** [!(protection & VM_PROT_KERNEL) != 0] and [(protection & VM_PROT_WRITE) != 0] *)
Definition prot_user (protection : Z) : Z := if Z.land protection VM_PROT_KERNEL =? 0 then 1 else 0.

Definition prot_write (protection : Z) : Z := if Z.land protection VM_PROT_WRITE =? 0 then 0 else 1.

Definition put_pgtable_in_pgdir (pgtable_phys protection : Z) : Z :=
  let e := fset F_base (ADDR_SHIFT pgtable_phys) init_pdentry in
  let e := fset F_us (prot_user protection) e in
  let e := fset F_rw (prot_write protection) e in
  fset F_p 1 e.

(** The page table entry [map_tmap] fills in. *)
Definition page_entry (va pa protection : Z) : Z :=
  let e := fset F_base (ADDR_SHIFT pa) init_ptentry in
  let e := fset F_us (prot_user protection) e in
  let e := fset F_rw (prot_write protection) e in
  let e := fset F_p 1 e in
  if is_kernel_address va then fset F_g 1 e else e.

(** The flags [query_tmap] makes of an entry. *)
Definition entry_flags (e : Z) : Z :=
  let flags := if fget F_rw e =? 0 then VM_PROT_READ else Z.lor VM_PROT_READ VM_PROT_WRITE in
  let flags := Z.lor flags (if fget F_us e =? 0 then VM_PROT_KERNEL else 0) in
  let flags := Z.lor flags VM_PROT_EXECUTE in
  let flags := Z.lor flags (if fget F_d e =? 0 then 0 else VM_FLAG_PAGE_MODIFIED) in
  let flags := Z.lor flags (if fget F_a e =? 0 then 0 else VM_FLAG_PAGE_ACCESSED) in
  Z.lor flags (if fget F_p e =? 0 then 0 else VM_FLAG_PAGE_PRESENT).

Section tmaps.
Context {A : Allocator} {W : Window}.

Record tms := Tms {
  ts_vm : vms; ts_lists : xstore; ts_maps : gmap Z tmap; ts_dirs : gmap Z (list Z);
  ts_win : win_state; ts_heap : al_state; ts_tlb : list tlb_op;
  kernel_pgdir_virt : Z; kernel_pgdir_phys : Z }.

(** ** Access *)

Definition upd_vm x s := Tms x (ts_lists s) (ts_maps s) (ts_dirs s) (ts_win s) (ts_heap s) (ts_tlb s)
  (kernel_pgdir_virt s) (kernel_pgdir_phys s).
Definition upd_lists x s := Tms (ts_vm s) x (ts_maps s) (ts_dirs s) (ts_win s) (ts_heap s) (ts_tlb s)
  (kernel_pgdir_virt s) (kernel_pgdir_phys s).
Definition upd_maps x s := Tms (ts_vm s) (ts_lists s) x (ts_dirs s) (ts_win s) (ts_heap s) (ts_tlb s)
  (kernel_pgdir_virt s) (kernel_pgdir_phys s).
Definition upd_dirs x s := Tms (ts_vm s) (ts_lists s) (ts_maps s) x (ts_win s) (ts_heap s) (ts_tlb s)
  (kernel_pgdir_virt s) (kernel_pgdir_phys s).
Definition upd_win x s := Tms (ts_vm s) (ts_lists s) (ts_maps s) (ts_dirs s) x (ts_heap s) (ts_tlb s)
  (kernel_pgdir_virt s) (kernel_pgdir_phys s).
Definition upd_heap x s := Tms (ts_vm s) (ts_lists s) (ts_maps s) (ts_dirs s) (ts_win s) x (ts_tlb s)
  (kernel_pgdir_virt s) (kernel_pgdir_phys s).
Definition upd_tlb x s := Tms (ts_vm s) (ts_lists s) (ts_maps s) (ts_dirs s) (ts_win s) (ts_heap s) x
  (kernel_pgdir_virt s) (kernel_pgdir_phys s).

Abbreviation on_vm := (zoom ts_vm upd_vm).
Abbreviation on_lists := (zoom ts_lists upd_lists).
Abbreviation on_win := (zoom ts_win upd_win).
Abbreviation on_heap := (zoom ts_heap upd_heap).

Definition on_cpu {B} (m : M cpu B) : M tms B := on_vm (zoom cpus upd_cpu m).

Definition ld_map (tm : Z) : M tms tmap := load (λ s, ts_maps s !! tm).

Definition st_map (tm : Z) (f : tmap → tmap) : M tms unit :=
  v ← ld_map tm; modify (λ s, upd_maps (<[tm := f v]> (ts_maps s)) s).

(** [pgdir[i]] *)
Definition ld_pde (pgdir i : Z) : M tms Z :=
  d ← load (λ s, ts_dirs s !! pgdir); load (λ _, d !! Z.to_nat i).

Definition st_pde (pgdir i w : Z) : M tms unit :=
  ld_pde pgdir i;;
  d ← load (λ s, ts_dirs s !! pgdir);
  modify (λ s, upd_dirs (<[pgdir := <[Z.to_nat i := w]> d]> (ts_dirs s)) s).

(** The frame the processor finds at the address [va] of a window, and its entries. *)
Definition ld_frame (va : Z) : M tms (Z * list Z) :=
  pa ← load (λ s, win_frame (ts_win s) va);
  fr ← load (λ s, frames (ts_vm s) !! pa);
  mret (pa, fr).

Definition ld_pte (pgtbl i : Z) : M tms Z := f ← ld_frame pgtbl; load (λ _, word_at f.2 i).

Definition st_pte (pgtbl i w : Z) : M tms unit :=
  f ← ld_frame pgtbl;
  load (λ _, word_at f.2 i);;
  modify (λ s, upd_vm (upd_frames (<[f.1 := put_word i w f.2]> (frames (ts_vm s))) (ts_vm s)) s).

(** [atomic_inc] and [atomic_dec] of [page->wire_count] *)
Definition add_wire (page n : Z) : M tms unit :=
  on_vm (st_page page (λ g, VmPage (ppn g) (u32 (wire_count g + n)) (ptype g) (pstate g))).

Definition with_count (f : Z → Z) (v : tmap) : tmap :=
  TMap (tm_ops v) (u32 (f (tm_map_count v))) (tm_pgdir_virt v) (tm_pgdir_phys v)
    (tm_num_invalidate_pages v) (tm_pages_to_invalidate v).

Definition with_invalid (n : Z) (l : list Z) (v : tmap) : tmap :=
  TMap (tm_ops v) (tm_map_count v) (tm_pgdir_virt v) (tm_pgdir_phys v) n l.

(** [tmap->map_count += n] *)
Definition add_count (tm n : Z) : M tms unit := st_map tm (with_count (λ c, c + n)).

(** The page at [va] goes to the invalidation cache while there is room, and is counted. *)
Definition note_invalid (tm va : Z) : M tms unit :=
  st_map tm (λ v,
    let n := tm_num_invalidate_pages v in
    with_invalid (u32 (n + 1))
      (if n <? PAGE_INVALIDATE_CACHE_SIZE then <[Z.to_nat n := va]> (tm_pages_to_invalidate v)
       else tm_pages_to_invalidate v) v).

Definition invalidate (l : list tlb_op) : M tms unit := modify (λ s, upd_tlb (ts_tlb s ++ l) s).

(** ** Windows *)

Definition get_physical_page_tmap (pa flags : Z) : M tms (Z * option Z) := on_win (win_get pa (negb (flags =? 0))).

Definition put_physical_page_tmap (va : Z) : M tms Z := on_win (win_put va).

(** [do { status = get_physical_page_tmap(pa, &pgtbl, false); } while(status != NO_ERROR);]
    [fuel]: nobody gives windows back meanwhile, so that a second round fails like the first. *)
Fixpoint get_page_loop (fuel : nat) (pa : Z) : M tms Z :=
  match fuel with
  | O => hang
  | S fuel =>
      r ← get_physical_page_tmap pa 0;
      if negb (r.1 =? NO_ERROR) then get_page_loop fuel pa else load (λ _, r.2)
  end.

(** The window on the page table of a directory entry. *)
Definition get_pgtable (pde : Z) : M tms Z := get_page_loop 1 (ADDR_REVERSE_SHIFT (fget F_base pde)).

(** ** Page directories *)

(** The walk over the maps on the list. *)
Fixpoint pgdirs_loop (fuel : nat) (le index pdentry : Z) : M tms unit :=
  match fuel with
  | O => hang
  | S fuel =>
      if le =? NULL then mret tt
      else
        v ← ld_map le;
        st_pde (tm_pgdir_virt v) index pdentry;;
        le ← on_lists (xlist_peek_next le);
        pgdirs_loop fuel le index pdentry
  end.

Definition update_all_pgdirs (index pdentry : Z) : M tms unit :=
  irqs_state ← on_cpu (spin_lock_irqsave tmap_list_lock);
  le ← on_lists (xlist_peek_first tmap_list);
  fuel ← gets (λ s, search_fuel (ts_lists s));
  pgdirs_loop fuel le index pdentry;;
  on_cpu (spin_unlock_irqrstor tmap_list_lock irqs_state).

(** ** Flushing and locks *)

Definition flush_tmap (tm : Z) : M tms unit :=
  v ← ld_map tm;
  if tm_num_invalidate_pages v <=? 0 then mret tt
  else
    irqs_state ← on_cpu local_irqs_save_and_disable;
    (if PAGE_INVALIDATE_CACHE_SIZE <? tm_num_invalidate_pages v then invalidate [FlushAll]
     else invalidate (map FlushPage (take (Z.to_nat (tm_num_invalidate_pages v)) (tm_pages_to_invalidate v))));;
    st_map tm (with_invalid 0 (tm_pages_to_invalidate v));;
    on_cpu (local_irqs_restore irqs_state).

Definition lock_tmap (tm : Z) : M tms Z :=
  on_cpu (spin_lock (tmap_lock tm));;
  st_map tm (λ v, with_invalid 0 (tm_pages_to_invalidate v) v);;
  mret NO_ERROR.

Definition unlock_tmap (tm : Z) : M tms Z :=
  flush_tmap tm;;
  on_cpu (spin_unlock (tmap_lock tm));;
  mret NO_ERROR.

(** ** Mapping *)

(** A page table for the entry [index] of the directory. *)
Definition alloc_pgtable (tm pgdir index protection : Z) : M tms unit :=
  page ← on_vm (vm_page_alloc VM_PAGE_STATE_CLEAR);
  on_vm (vm_page_set_state page VM_PAGE_STATE_WIRED);;
  g ← on_vm (ld_page page);
  let pgtable := u32 (ppn g * PAGE_SIZE) in
  st_pde pgdir index
    (put_pgtable_in_pgdir pgtable (Z.lor (Z.lor protection VM_PROT_READ) VM_PROT_WRITE));;
  when ((FIRST_KERNEL_PGDIR_ENTRY <=? index) && (index <? FIRST_KERNEL_PGDIR_ENTRY + NUM_KERNEL_PGDIR_ENTRIES))
    (pde ← ld_pde pgdir index; update_all_pgdirs index pde);;
  add_count tm 1.

Definition map_tmap (tm va pa protection : Z) : M tms Z :=
  v ← ld_map tm;
  let pgdir := tm_pgdir_virt v in
  let index := VADDR_TO_PDENT va in
  pde ← ld_pde pgdir index;
  when (fget F_p pde =? 0) (alloc_pgtable tm pgdir index protection);;
  pde ← ld_pde pgdir index;
  pgtbl ← get_pgtable pde;
  let index := VADDR_TO_PTENT va in
  st_pte pgtbl index (page_entry va pa protection);;
  e ← ld_pte pgtbl index;
  page ← on_vm (vm_page_lookup (fget F_base e));
  if page =? NULL then panic
  else
    add_wire page 1;;
    put_physical_page_tmap pgtbl;;
    note_invalid tm va;;
    add_count tm 1;;
    mret NO_ERROR.

(** ** Walks over a range

    [unmap_tmap] and [protect_tmap] go over a range of pages in the same way, skipping what
    is not present; [entry] is what they do to an entry that is. *)

(** The loop over the entries of one page table, [n] of them left; the result is where the
    range goes on. *)
Fixpoint entries_loop (entry : Z → Z → Z → Z → M tms unit) (n : nat) (pgtbl index start end_ : Z) : M tms Z :=
  match n with
  | O => mret start
  | S n =>
      if start <? end_ then
        e ← ld_pte pgtbl index;
        when (negb (fget F_p e =? 0)) (entry pgtbl index e start);;
        entries_loop entry n pgtbl (index + 1) (u32 (start + PAGE_SIZE)) end_
      else mret start
  end.

(** The code from the label [restart]. *)
Fixpoint range_loop (entry : Z → Z → Z → Z → M tms unit) (fuel : nat) (pgdir start end_ : Z) : M tms unit :=
  match fuel with
  | O => hang
  | S fuel =>
      if end_ <=? start then mret tt
      else
        pde ← ld_pde pgdir (VADDR_TO_PDENT start);
        if fget F_p pde =? 0 then range_loop entry fuel pgdir (ROUNDUP_PAGE (u32 (start + 1))) end_
        else
          pgtbl ← get_pgtable pde;
          let index := VADDR_TO_PTENT start in
          start ← entries_loop entry (Z.to_nat (MAX_PTENTS - index)) pgtbl index start end_;
          put_physical_page_tmap pgtbl;;
          range_loop entry fuel pgdir start end_
  end.

(** Every round passes a page. *)
Definition range_fuel (start end_ : Z) : nat := S (Z.to_nat ((end_ - start) / PAGE_SIZE)).

Definition walk_range (entry : Z → Z → Z → Z → M tms unit) (tm start end_ : Z) : M tms Z :=
  v ← ld_map tm;
  let start := ROUNDOWN start PAGE_SIZE in
  let end_ := ROUNDUP_PAGE end_ in
  range_loop entry (range_fuel start end_) (tm_pgdir_virt v) start end_;;
  mret NO_ERROR.

Definition unmap_entry (tm pgtbl index e va : Z) : M tms unit :=
  st_pte pgtbl index (fset F_p 0 e);;
  add_count tm (-1);;
  e ← ld_pte pgtbl index;
  page ← on_vm (vm_page_lookup (fget F_base e));
  if page =? NULL then panic
  else add_wire page (-1);; note_invalid tm va.

Definition unmap_tmap (tm start end_ : Z) : M tms Z := walk_range (unmap_entry tm) tm start end_.

Definition protect_entry (tm protection pgtbl index e va : Z) : M tms unit :=
  st_pte pgtbl index (fset F_rw (prot_write protection) (fset F_us (prot_user protection) e));;
  note_invalid tm va.

Definition protect_tmap (tm start end_ protection : Z) : M tms Z :=
  walk_range (protect_entry tm protection) tm start end_.

(** ** Queries and flags *)

(** The status, the physical address and the flags. *)
Definition query_tmap (tm va : Z) : M tms (Z * Z * Z) :=
  v ← ld_map tm;
  pde ← ld_pde (tm_pgdir_virt v) (VADDR_TO_PDENT va);
  if fget F_p pde =? 0 then mret (NO_ERROR, 0, 0)
  else
    pgtbl ← get_pgtable pde;
    e ← ld_pte pgtbl (VADDR_TO_PTENT va);
    let out_pa := Z.lor (ADDR_REVERSE_SHIFT (fget F_base e)) (Z.land va (PAGE_SIZE - 1)) in
    put_physical_page_tmap pgtbl;;
    mret (NO_ERROR, out_pa, entry_flags e).

Definition get_mapped_size_tmap (tm : Z) : M tms Z := v ← ld_map tm; mret (tm_map_count v).

Definition clear_flags_tmap (tm va flags : Z) : M tms Z :=
  v ← ld_map tm;
  pde ← ld_pde (tm_pgdir_virt v) (VADDR_TO_PDENT va);
  if fget F_p pde =? 0 then mret NO_ERROR
  else
    pgtbl ← get_pgtable pde;
    let index := VADDR_TO_PTENT va in
    let modified := negb (Z.land flags VM_FLAG_PAGE_MODIFIED =? 0) in
    let accessed := negb (Z.land flags VM_FLAG_PAGE_ACCESSED =? 0) in
    when modified (e ← ld_pte pgtbl index; st_pte pgtbl index (fset F_d 0 e));;
    when accessed (e ← ld_pte pgtbl index; st_pte pgtbl index (fset F_a 0 e));;
    put_physical_page_tmap pgtbl;;
    when (modified || accessed) (note_invalid tm va);;
    mret NO_ERROR.

(** What [kernel/vm/vm.c] does with the map of an address space it has locked: the end of
    [vm_soft_page_fault], for the frame [ppn], and the removal of the pages of a mapping in
    [vm_unmap_object]. *)
Definition map_page (tm addr ppn protect : Z) : M tms unit :=
  lock_tmap tm;; map_tmap tm addr (u32 (ppn * PAGE_SIZE)) protect;; unlock_tmap tm;; mret tt.

Definition unmap_mapping (tm start end_ : Z) : M tms unit :=
  lock_tmap tm;; unmap_tmap tm start end_;; unlock_tmap tm;; mret tt.

(** [vm_query_paddr] of [kernel/vm/vm.c], for the map of an address space *)
Definition vm_query_paddr (tm vaddr : Z) : M tms (Z * Z * Z) :=
  irqstate ← on_cpu local_irqs_save_and_disable;
  lock_tmap tm;;
  r ← query_tmap tm vaddr;
  unlock_tmap tm;;
  on_cpu (local_irqs_restore irqstate);;
  mret r.

(** ** Creation and destruction *)

(** The loop over the directory entries of user space, [n] of them left. *)
Fixpoint free_tables (n : nat) (pgdir i : Z) : M tms unit :=
  match n with
  | O => mret tt
  | S n =>
      pde ← ld_pde pgdir i;
      when (fget F_p pde =? 1)
        (page ← on_vm (vm_page_lookup (fget F_base pde));
         if page =? NULL then panic else on_vm (vm_page_set_state page VM_PAGE_STATE_FREE);; mret tt);;
      free_tables n pgdir (i + 1)
  end.

Definition kfree_pgdir (pgdir : Z) : M tms unit :=
  on_heap (al_free pgdir);; modify (λ s, upd_dirs (delete pgdir (ts_dirs s)) s).

Definition destroy_tmap (tm : Z) : M tms unit :=
  when (negb (tm =? NULL))
    (irqs_state ← on_cpu (spin_lock_irqsave tmap_list_lock);
     on_lists (xlist_remove tmap_list tm);;
     on_cpu (spin_unlock_irqrstor tmap_list_lock irqs_state);;
     v ← ld_map tm;
     when (negb (tm_pgdir_virt v =? NULL))
       (let first := VADDR_TO_PDENT USER_BASE in
        let last := VADDR_TO_PDENT (USER_BASE + (USER_SIZE - 1)) in
        free_tables (Z.to_nat (last - first + 1)) (tm_pgdir_virt v) first;;
        kfree_pgdir (tm_pgdir_virt v);;
        st_map tm (λ v, TMap (tm_ops v) (tm_map_count v) NULL (tm_pgdir_phys v)
          (tm_num_invalidate_pages v) (tm_pages_to_invalidate v)));;
     st_map tm (λ v, TMap false (tm_map_count v) (tm_pgdir_virt v) (tm_pgdir_phys v)
       (tm_num_invalidate_pages v) (tm_pages_to_invalidate v))).

(** [n] entries of the directory [dst] from [i] on become those of [src]. *)
Definition copy_entries (dst src i n : Z) : M tms unit :=
  a ← load (λ s, ts_dirs s !! dst); b ← load (λ s, ts_dirs s !! src);
  modify (λ s, upd_dirs (<[dst := list_inserts (Z.to_nat i) (take (Z.to_nat n) (drop (Z.to_nat i) b)) a]> (ts_dirs s)) s).

Definition zero_entries (dst i n : Z) : M tms unit :=
  a ← load (λ s, ts_dirs s !! dst);
  modify (λ s, upd_dirs (<[dst := list_inserts (Z.to_nat i) (replicate (Z.to_nat n) 0) a]> (ts_dirs s)) s).

Definition vm_tmap_common_create (tm pgdir_virt pgdir_phys : Z) : M tms Z :=
  st_map tm (λ v, TMap true 0 pgdir_virt pgdir_phys 0 (tm_pages_to_invalidate v));;
  on_cpu (spin_init (tmap_lock tm));;
  zero_entries pgdir_virt FIRST_USER_PGDIR_ENTRY NUM_USER_PGDIR_ENTRIES;;
  irqs_state ← on_cpu (spin_lock_irqsave tmap_list_lock);
  kernel ← gets kernel_pgdir_virt;
  copy_entries pgdir_virt kernel FIRST_KERNEL_PGDIR_ENTRY NUM_KERNEL_PGDIR_ENTRIES;;
  on_lists (xlist_add_first tmap_list tm);;
  on_cpu (spin_unlock_irqrstor tmap_list_lock irqs_state);;
  mret NO_ERROR.

Definition vm_tmap_kernel_create (tm : Z) : M tms Z :=
  if tm =? NULL then mret ERR_INVALID_ARGS
  else
    virt ← gets kernel_pgdir_virt; phys ← gets kernel_pgdir_phys;
    vm_tmap_common_create tm virt phys.

(** [ktm]: the map of the kernel's address space, whose references are not counted here;
    [junk]: what the page of the directory holds. *)
Definition vm_tmap_create (ktm : Z) (junk : list Z) (tm : Z) : M tms Z :=
  if tm =? NULL then mret ERR_INVALID_ARGS
  else
    pgdir_virt ← on_heap (al_alloc PAGE_SIZE);
    if pgdir_virt =? NULL then mret ERR_NO_MEMORY
    else
      modify (λ s, upd_dirs (<[pgdir_virt := junk]> (ts_dirs s)) s);;
      q ← vm_query_paddr ktm pgdir_virt;
      let '(err, pgdir_phys, _) := q in
      if negb (err =? NO_ERROR) then kfree_pgdir pgdir_virt;; mret err
      else
        err ← vm_tmap_common_create tm pgdir_virt pgdir_phys;
        if negb (err =? NO_ERROR) then kfree_pgdir pgdir_virt;; mret err
        else mret NO_ERROR.
End tmaps.
