(* ===== verification/TransMapSpec.v ===== *)
(** * The invariant of translation maps

    What the maps mean: [view] gives the page table entry of an address in a map, 0 where
    there is no page table. The invariant says that page tables are wired pages of the page
    array, that no two directory entries share a table but for the kernel's, and that the
    kernel's entries are the same in all maps. The elementary changes, to an entry, to a page's
    counter, to the fields of a map, and what they do to views and invariant. *)

From stdpp Require Import gmap list.
From S2P Require Import Spinlock Prelude XList VmPage VmPageSpec Alloc Mmu TransMap.
#[local] Open Scope Z_scope.

(** ** Addresses *)

Lemma word_split va : word va →
  0 ≤ VADDR_TO_PDENT va < MAX_PDENTS ∧ 0 ≤ VADDR_TO_PTENT va < MAX_PTENTS ∧
  va / PAGE_SIZE = VADDR_TO_PDENT va * MAX_PTENTS + VADDR_TO_PTENT va.
Proof.
  unfold word, VADDR_TO_PDENT, VADDR_TO_PTENT, MAX_PDENTS, MAX_PTENTS, PAGE_SIZE. intros.
  Z.div_mod_to_equations. lia.
Qed.

(** Addresses of one page have the same entry. *)
Lemma same_entry va va' : word va → word va' →
  VADDR_TO_PDENT va = VADDR_TO_PDENT va' ∧ VADDR_TO_PTENT va = VADDR_TO_PTENT va' ↔ va / PAGE_SIZE = va' / PAGE_SIZE.
Proof.
  intros H H'. apply word_split in H as (? & ? & E), H' as (? & ? & E'). split.
  - intros [E1 E2]. rewrite E, E', E1, E2. done.
  - unfold VADDR_TO_PDENT, VADDR_TO_PTENT. by intros ->.
Qed.

Lemma kernel_entry va : word va → FIRST_KERNEL_PGDIR_ENTRY ≤ VADDR_TO_PDENT va ↔ KERNEL_BASE ≤ va.
Proof.
  change FIRST_KERNEL_PGDIR_ENTRY with 768. change KERNEL_BASE with 3221225472.
  unfold word, VADDR_TO_PDENT, MAX_PDENTS, PAGE_SIZE. intros. Z.div_mod_to_equations. lia.
Qed.

Lemma is_kernel_true va : word va → is_kernel_address va = (KERNEL_BASE <=? va).
Proof.
  intros [? ?]. unfold is_kernel_address. change (u32 (KERNEL_BASE + KERNEL_SIZE - 1)) with (2 ^ 32 - 1).
  rewrite (proj2 (Z.leb_le va _)) by lia. apply andb_true_r.
Qed.

(** ** A change of a page's counter *)

(** [p] with another counter. *)
Definition with_wire (f : Z → Z) (p : vm_page) : vm_page := VmPage (ppn p) (u32 (f (wire_count p))) (ptype p) (pstate p).

Lemma count_same k (m : gmap Z vm_page) a p q : m !! a = Some p → pstate q = pstate p →
  count k (<[a := q]> m) = count k m.
Proof.
  intros Ha Hq. unfold count. f_equal. rewrite <- (insert_id m a p Ha) at 2.
  destruct (decide (pstate p = k)) as [E|E].
  - rewrite !(map_filter_insert_True (λ ap, pstate ap.2 = k)) by (simpl; congruence).
    rewrite <- (insert_delete_eq (filter _ m) a p), <- (insert_delete_eq (filter _ m) a q).
    by rewrite !map_size_insert_None by apply lookup_delete_eq.
  - by rewrite !(map_filter_insert_not' (λ ap, pstate ap.2 = k)) by (simpl; try congruence; intros ? E'; congruence).
Qed.

Lemma vmp_inv_wire s a p f : vmp_inv s → pages s !! a = Some p → vmp_inv (upd_pages (<[a := with_wire f p]> (pages s)) s).
Proof.
  intros Hi Ha. pose proof Hi as [Hg Hd Hp Hn Hl Hst].
  assert (∀ b, is_Some (<[a := with_wire f p]> (pages s) !! b) ↔ is_Some (pages s !! b)) as Hdom.
  { intros b. rewrite lookup_insert. case_decide; subst; [|done]. rewrite Ha. by split; eauto. }
  split; simpl; try done.
  - intros b. by rewrite Hdom.
  - intros i q. change (page_ptr (upd_pages _ s) i) with (page_ptr s i). rewrite lookup_insert. case_decide as E; [|apply Hp].
    intros [= <-]. subst a. by destruct (Hp i p Ha).
  - intros b. rewrite Hdom. apply Hn.
  - eapply lists_rep_proper; [|exact Hl]. intros l b. unfold page_class. rewrite lookup_insert. case_decide; [|done].
    subst b. rewrite Ha. naive_solver.
  - intros k Hk. by rewrite (count_same k _ a p), Hst.
Qed.

Section spec.
Context {A : Allocator} {W : Window} {WL : WindowLaws W}.
Implicit Types s : tms.

(** ** Views *)

(** The directory entry [i] of map [tm]. *)
Definition pde_at s (tm i : Z) : option Z :=
  v ← ts_maps s !! tm; d ← ts_dirs s !! tm_pgdir_virt v; d !! Z.to_nat i.

(** The number of the frame of its page table. *)
Definition table_at s (tm i : Z) : option Z :=
  w ← pde_at s tm i; if fget F_p w =? 0 then None else Some (fget F_base w).

Definition view s (tm va : Z) : Z :=
  default 0 (b ← table_at s tm (VADDR_TO_PDENT va);
             fr ← frames (ts_vm s) !! (b * PAGE_SIZE); word_at fr (VADDR_TO_PTENT va)).

(** What a map of the list is. *)
Record map_rep s (tm : Z) (v : tmap) (d : list Z) : Prop := {
  mr_map : ts_maps s !! tm = Some v;
  mr_dir : ts_dirs s !! tm_pgdir_virt v = Some d;
  mr_length : length d = Z.to_nat MAX_PDENTS;
  mr_words : Forall word d;
  mr_cache : length (tm_pages_to_invalidate v) = Z.to_nat PAGE_INVALIDATE_CACHE_SIZE;
  mr_counts : word (tm_num_invalidate_pages v) ∧ word (tm_map_count v) }.

(** [tl]: the maps on the list; [Lw]: the windows lent. *)
Record tms_ok s (tl : list Z) (Lw : list (Z * Z)) : Prop := {
  to_vm : vmp_inv (ts_vm s);
  to_page_lock : unlocked (ts_vm s);
  to_list_lock : locks (cpus (ts_vm s)) !! tmap_list_lock = Some SPIN_UNLOCKED;
  to_frames pa fr : frames (ts_vm s) !! pa = Some fr → frame_ok fr;
  to_clear a p : pages (ts_vm s) !! a = Some p → pstate p = VM_PAGE_STATE_CLEAR → zeroed (frames (ts_vm s)) p;
  to_list : is_xlist (ts_lists s) tmap_list tl;
  to_map tm : tm ∈ tl → ∃ v d, map_rep s tm v d;
  to_dirs tm tm' v v' : tm ∈ tl → tm' ∈ tl → ts_maps s !! tm = Some v → ts_maps s !! tm' = Some v' →
    tm_pgdir_virt v = tm_pgdir_virt v' → tm = tm';
  to_kernel tm tm' i : tm ∈ tl → tm' ∈ tl → FIRST_KERNEL_PGDIR_ENTRY ≤ i < MAX_PDENTS → pde_at s tm i = pde_at s tm' i;
  to_kdir : ∃ tm v, tm ∈ tl ∧ ts_maps s !! tm = Some v ∧ tm_pgdir_virt v = kernel_pgdir_virt s;
  to_table tm i b : tm ∈ tl → 0 ≤ i < MAX_PDENTS → table_at s tm i = Some b →
    ∃ a p, pages (ts_vm s) !! a = Some p ∧ ppn p = b ∧ pstate p = VM_PAGE_STATE_WIRED ∧
      is_Some (frames (ts_vm s) !! (b * PAGE_SIZE));
  to_apart tm tm' i i' b : tm ∈ tl → tm' ∈ tl → 0 ≤ i < MAX_PDENTS → 0 ≤ i' < MAX_PDENTS →
    table_at s tm i = Some b → table_at s tm' i' = Some b → i = i' ∧ (tm = tm' ∨ FIRST_KERNEL_PGDIR_ENTRY ≤ i);
  to_win : win_ok (ts_win s) Lw;
  to_slots : 0 < win_slots (ts_win s) }.

(** ** Facts on views *)

Lemma map_rep_pde s tm v d i : map_rep s tm v d → 0 ≤ i < MAX_PDENTS → ∃ w, pde_at s tm i = Some w ∧ d !! Z.to_nat i = Some w ∧ word w.
Proof.
  intros [Hm Hd Hl Hw _ _] Hi. destruct (lookup_lt_is_Some_2 d (Z.to_nat i)) as [w E]; [rewrite Hl; unfold MAX_PDENTS in *; lia|].
  exists w. split_and!; [|done|by eapply Forall_lookup_1 in Hw]. unfold pde_at. by rewrite Hm; simpl; rewrite Hd.
Qed.

(** Views see the directories and the frames only. *)
Lemma view_ext s s' tm va :
  pde_at s' tm (VADDR_TO_PDENT va) = pde_at s tm (VADDR_TO_PDENT va) →
  (∀ b, table_at s tm (VADDR_TO_PDENT va) = Some b → frames (ts_vm s') !! (b * PAGE_SIZE) = frames (ts_vm s) !! (b * PAGE_SIZE)) →
  view s' tm va = view s tm va.
Proof.
  intros Hp Hf. unfold view. assert (table_at s' tm (VADDR_TO_PDENT va) = table_at s tm (VADDR_TO_PDENT va)) as ->
    by (unfold table_at; by rewrite Hp).
  destruct (table_at s tm (VADDR_TO_PDENT va)) as [b|] eqn:E; simpl; [|done]. by rewrite Hf.
Qed.

Lemma table_kernel s tl Lw tm tm' i : tms_ok s tl Lw → tm ∈ tl → tm' ∈ tl → FIRST_KERNEL_PGDIR_ENTRY ≤ i < MAX_PDENTS →
  table_at s tm' i = table_at s tm i.
Proof. intros Hs H H' Hi. unfold table_at. by rewrite (to_kernel _ _ _ Hs tm' tm i). Qed.

Section ok.
Context {s : tms} {tl : list Z} {Lw : list (Z * Z)} (Hs : tms_ok s tl Lw).

Lemma table_frame tm i b : tm ∈ tl → 0 ≤ i < MAX_PDENTS → table_at s tm i = Some b →
  0 ≤ b < 2 ^ 20 ∧ ∃ fr, frames (ts_vm s) !! (b * PAGE_SIZE) = Some fr ∧ frame_ok fr.
Proof using Hs.
  intros Ht Hi E. destruct (to_table _ _ _ Hs _ _ _ Ht Hi E) as (a & p & Ha & Ep & _ & fr & Hfr). split.
  - destruct (vi_addr _ _ _ (to_vm _ _ _ Hs) Ha) as (j & Hj & _ & E' & _). pose proof (vi_geom _ (to_vm _ _ _ Hs)). lia.
  - exists fr. split; [done|]. by apply (to_frames _ _ _ Hs) in Hfr.
Qed.

Lemma view_word tm va : tm ∈ tl → word va → word (view s tm va).
Proof using Hs.
  intros Ht Hva. unfold view. destruct (word_split va Hva) as (Hi & Hj & _).
  destruct (table_at s tm (VADDR_TO_PDENT va)) as [b|] eqn:E; simpl; [|apply word_0].
  destruct (table_frame _ _ _ Ht Hi E) as (_ & fr & -> & Hfr). simpl.
  destruct (word_at_some fr (VADDR_TO_PTENT va) Hfr Hj) as (w & -> & Hw). done.
Qed.
End ok.

(** ** An entry of a page table *)

Definition put_entry (b i w : Z) (fr : list Z) s : tms :=
  upd_vm (upd_frames (<[b * PAGE_SIZE := put_word i w fr]> (frames (ts_vm s))) (ts_vm s)) s.

Lemma put_entry_ok s tl Lw tm I b i w fr :
  tms_ok s tl Lw → tm ∈ tl → 0 ≤ I < MAX_PDENTS → table_at s tm I = Some b →
  frames (ts_vm s) !! (b * PAGE_SIZE) = Some fr → tms_ok (put_entry b i w fr s) tl Lw.
Proof.
  intros Hs Ht HI Hb Hfr. destruct (to_table _ _ _ Hs _ _ _ Ht HI Hb) as (a & p & Ha & Ep & Est & _).
  pose proof (to_frames _ _ _ Hs _ _ Hfr) as Hok. destruct Hs. split; try done; simpl.
  - by apply vmp_inv_frames.
  - intros pa fr'. rewrite lookup_insert_Some. intros [[_ <-]|[_ H]]; [by apply put_word_ok|by apply to_frames0 in H].
  - intros a' p' Ha' E'. unfold zeroed. rewrite lookup_insert_ne; [by apply (to_clear0 a')|].
    intros E. assert (ppn p' = ppn p) as Epp by (unfold PAGE_SIZE in *; lia).
    destruct (vi_addr _ _ _ to_vm0 Ha) as (j & _ & -> & Ej & _), (vi_addr _ _ _ to_vm0 Ha') as (j' & _ & -> & Ej' & _).
    assert (j' = j) as -> by lia. assert (p' = p) as -> by congruence. by rewrite Est in E'.
  - intros tm' Ht'. destruct (to_map0 tm' Ht') as (v & d & []). exists v, d. by split.
  - intros tm' i' b' Ht' Hi' E'. destruct (to_table0 tm' i' b' Ht' Hi' E') as (a' & p' & ? & ? & ? & ?).
    exists a', p'. split_and!; try done. rewrite lookup_insert. case_decide; [by eexists|done].
Qed.

Lemma put_entry_view s tl Lw tm I b i w fr tm' va :
  tms_ok s tl Lw → tm ∈ tl → 0 ≤ I < MAX_PDENTS → table_at s tm I = Some b →
  frames (ts_vm s) !! (b * PAGE_SIZE) = Some fr → 0 ≤ i < MAX_PTENTS → word w → tm' ∈ tl → word va →
  view (put_entry b i w fr s) tm' va =
    if decide (VADDR_TO_PDENT va = I ∧ VADDR_TO_PTENT va = i ∧ (tm' = tm ∨ FIRST_KERNEL_PGDIR_ENTRY ≤ I)) then w
    else view s tm' va.
Proof.
  intros Hs Ht HI Hb Hfr Hi Hw Ht' Hva. destruct (word_split va Hva) as (Hpd & Hpt & _).
  pose proof (to_frames _ _ _ Hs _ _ Hfr) as Hok. unfold view, put_entry. cbn [ts_vm upd_vm frames upd_frames].
  change (table_at (upd_vm _ s) tm' (VADDR_TO_PDENT va)) with (table_at s tm' (VADDR_TO_PDENT va)).
  destruct (decide (VADDR_TO_PDENT va = I ∧ (tm' = tm ∨ FIRST_KERNEL_PGDIR_ENTRY ≤ I))) as [[E Hk]|Hno].
  - assert (table_at s tm' I = Some b) as Eb.
    { destruct Hk as [->|Hk]; [done|]. rewrite (table_kernel s tl Lw tm tm' I); [done|done|done|done|lia]. }
    rewrite E, Eb. simpl. rewrite lookup_insert_eq, Hfr. simpl. rewrite (word_at_put fr i) by done.
    destruct (decide (VADDR_TO_PTENT va = i)) as [E2|E2].
    + by rewrite decide_True.
    + by rewrite decide_False by tauto.
  - rewrite decide_False by tauto. destruct (table_at s tm' (VADDR_TO_PDENT va)) as [b'|] eqn:Eb'; simpl; [|done].
    rewrite lookup_insert_ne; [done|]. intros E. assert (b' = b) as -> by (unfold PAGE_SIZE in *; lia).
    apply Hno. destruct (to_apart _ _ _ Hs tm' tm _ I b Ht' Ht Hpd HI Eb' Hb) as [E1 [?|?]]; split; auto; right; lia.
Qed.

(** ** The other elementary changes *)

Definition put_page (a : Z) (p : vm_page) s : tms := upd_vm (upd_pages (<[a := p]> (pages (ts_vm s))) (ts_vm s)) s.

Definition put_map (tm : Z) (v : tmap) s : tms := upd_maps (<[tm := v]> (ts_maps s)) s.

Lemma put_wire_ok s tl Lw a p f : tms_ok s tl Lw → pages (ts_vm s) !! a = Some p → tms_ok (put_page a (with_wire f p) s) tl Lw.
Proof.
  intros Hs Ha. destruct Hs. split; try done; simpl.
  - by apply vmp_inv_wire.
  - intros a' p' [[<- <-]|[_ H]]%lookup_insert_Some; [intros E; by apply (to_clear0 a p)|by apply (to_clear0 a')].
  - intros tm Ht. destruct (to_map0 tm Ht) as (v & d & []). exists v, d. by split.
  - intros tm i b Ht Hi E. destruct (to_table0 tm i b Ht Hi E) as (a' & p' & Ha' & ? & ? & ?).
    destruct (decide (a' = a)) as [->|Hne].
    + exists a, (with_wire f p). assert (p' = p) as -> by congruence. by rewrite lookup_insert_eq.
    + exists a', p'. by rewrite lookup_insert_ne.
Qed.

(** A map whose directory stays has the same entries. *)
Lemma put_map_pde s tm v v' tm' i : ts_maps s !! tm = Some v → tm_pgdir_virt v' = tm_pgdir_virt v →
  pde_at (put_map tm v' s) tm' i = pde_at s tm' i.
Proof.
  intros Hv E. unfold pde_at. simpl. destruct (decide (tm' = tm)) as [->|Hne].
  - rewrite lookup_insert_eq, Hv. simpl. by rewrite E.
  - by rewrite lookup_insert_ne.
Qed.

Lemma put_map_ok s tl Lw tm v v' : tms_ok s tl Lw → ts_maps s !! tm = Some v → tm_pgdir_virt v' = tm_pgdir_virt v →
  length (tm_pages_to_invalidate v') = length (tm_pages_to_invalidate v) →
  word (tm_num_invalidate_pages v') → word (tm_map_count v') → tms_ok (put_map tm v' s) tl Lw.
Proof.
  intros Hs Hv E El Hn Hc. pose proof (λ tm' i, put_map_pde s tm v v' tm' i Hv E) as Ep.
  assert (∀ tm' i, table_at (put_map tm v' s) tm' i = table_at s tm' i) as Etab by (intros; unfold table_at; by rewrite Ep).
  assert (∀ tm' u, ts_maps (put_map tm v' s) !! tm' = Some u → ∃ u', ts_maps s !! tm' = Some u' ∧ tm_pgdir_virt u = tm_pgdir_virt u') as Hm.
  { intros tm' u. simpl. intros [[<- <-]|[_ H]]%lookup_insert_Some; eauto. }
  destruct Hs. split; try done.
  - intros tm' Ht. destruct (to_map0 tm' Ht) as (u & d & [Hu Hd Hl Hw Hca Hco]). destruct (decide (tm' = tm)) as [->|Hne].
    + assert (u = v) as -> by congruence. exists v', d. split; try done; simpl; [by rewrite lookup_insert_eq|by rewrite E|by rewrite El].
    + exists u, d. split; try done. simpl. by rewrite lookup_insert_ne.
  - intros tm1 tm2 u1 u2 H1 H2 (u1' & Hu1 & E1)%Hm (u2' & Hu2 & E2)%Hm Eu. apply (to_dirs0 tm1 tm2 u1' u2'); congruence.
  - intros. rewrite !Ep. by apply to_kernel0.
  - destruct to_kdir0 as (km & u & Hk & Hu & Eu). destruct (decide (km = tm)) as [->|Hne].
    + exists tm, v'. split_and!; [done|by simpl; rewrite lookup_insert_eq|]. simpl. rewrite E. congruence.
    + exists km, u. split_and!; [done|by simpl; rewrite lookup_insert_ne|done].
  - intros tm' i b. rewrite Etab. apply to_table0.
  - intros tm1 tm2 i1 i2 b. rewrite !Etab. apply to_apart0.
Qed.

Lemma put_map_view s tm v v' tm' va : ts_maps s !! tm = Some v → tm_pgdir_virt v' = tm_pgdir_virt v →
  view (put_map tm v' s) tm' va = view s tm' va.
Proof. intros Hv E. apply view_ext; [by eapply put_map_pde|done]. Qed.

Lemma upd_win_ok s tl Lw Lw' w : tms_ok s tl Lw → win_ok w Lw' → win_slots w = win_slots (ts_win s) → tms_ok (upd_win w s) tl Lw'.
Proof.
  intros [] Hw E. split; try done; simpl; [|by rewrite E].
  intros tm Ht. destruct (to_map0 tm Ht) as (v & d & []). exists v, d. by split.
Qed.

Lemma upd_tlb_ok s tl Lw l : tms_ok s tl Lw → tms_ok (upd_tlb l s) tl Lw.
Proof.
  intros []. split; try done. intros tm Ht. destruct (to_map0 tm Ht) as (v & d & []). exists v, d. by split.
Qed.

(** ** Access *)

Lemma wp_ld_map s tm v (Q : tmap → tms → Prop) : ts_maps s !! tm = Some v → Q v s → wp (ld_map tm) s Q.
Proof. intros. by eapply wp_load. Qed.

Lemma wp_st_map s tm v f (Q : unit → tms → Prop) : ts_maps s !! tm = Some v → Q tt (put_map tm (f v) s) → wp (st_map tm f) s Q.
Proof. intros Hv HQ. unfold st_map. wp_go. eapply wp_ld_map; [done|]. by wp_go. Qed.

Lemma wp_ld_pde s tm v i w (Q : Z → tms → Prop) :
  ts_maps s !! tm = Some v → pde_at s tm i = Some w → Q w s → wp (ld_pde (tm_pgdir_virt v) i) s Q.
Proof.
  intros Hv Hp HQ. unfold pde_at in Hp. rewrite Hv in Hp. simpl in Hp.
  destruct (ts_dirs s !! tm_pgdir_virt v) as [d|] eqn:Hd; [|done]. simpl in Hp.
  unfold ld_pde. wp_go. eapply wp_load; [done|]. by eapply wp_load.
Qed.

Lemma wp_ld_pte s pgtbl b i fr w (Q : Z → tms → Prop) :
  win_frame (ts_win s) pgtbl = Some (b * PAGE_SIZE) → frames (ts_vm s) !! (b * PAGE_SIZE) = Some fr →
  word_at fr i = Some w → Q w s → wp (ld_pte pgtbl i) s Q.
Proof.
  intros Hw Hfr Hi HQ. unfold ld_pte, ld_frame. wp_flat. wp_go. eapply wp_load; [done|]. wp_go. eapply wp_load; [done|].
  wp_go. by eapply wp_load.
Qed.

Lemma wp_st_pte s pgtbl b i fr w0 w (Q : unit → tms → Prop) :
  win_frame (ts_win s) pgtbl = Some (b * PAGE_SIZE) → frames (ts_vm s) !! (b * PAGE_SIZE) = Some fr →
  word_at fr i = Some w0 → Q tt (put_entry b i w fr s) → wp (st_pte pgtbl i w) s Q.
Proof.
  intros Hw Hfr Hi HQ. unfold st_pte, ld_frame. wp_flat. wp_go. eapply wp_load; [done|]. wp_go. eapply wp_load; [done|].
  wp_go. eapply wp_load; [done|]. by wp_go.
Qed.

Lemma wp_add_wire s a p n (Q : unit → tms → Prop) :
  pages (ts_vm s) !! a = Some p → Q tt (put_page a (with_wire (λ c, c + n) p) s) → wp (add_wire a n) s Q.
Proof. intros Ha HQ. unfold add_wire. wp_go. unfold wp, st_page. by rewrite Ha. Qed.
End spec.
