(* ===== verification/TransMapWalk.v ===== *)
(** * Walks over the pages of a translation map

    [unmap_tmap] and [protect_tmap] visit the present pages of a range, in order. What a
    walk does is described by the list of the pages it finds: it changes their entries, in
    all maps for kernel space, counts their frames down if it unmaps, and notes their
    addresses in the map. *)

From stdpp Require Import gmap list.
From S2P Require Import Spinlock Prelude XList VmPage VmPageSpec Alloc Mmu TransMap TransMapSpec.
#[local] Open Scope Z_scope.

Definition page_of_addr (va : Z) : Z := va / PAGE_SIZE * PAGE_SIZE.

Lemma alter_some {V} (f : V → V) (m : gmap Z V) a p : m !! a = Some p → alter f a m = <[a := f p]> m.
Proof.
  intros Ha. apply map_eq. intros b. rewrite lookup_alter, lookup_insert. case_decide; [|done]. subst. by rewrite Ha.
Qed.

Section walk.
Context {A : Allocator} {W : Window} {WL : WindowLaws W}.
Implicit Types s : tms.

(** ** The pages a walk finds *)

(** The present pages among [n] from [va] on, with their entries. *)
Fixpoint pages_from s (tm va : Z) (n : nat) : list (Z * Z) :=
  match n with
  | O => []
  | S n =>
      let e := view s tm va in
      (if fget F_p e =? 0 then [] else [(va, e)]) ++ pages_from s tm (va + PAGE_SIZE) n
  end.

Lemma pages_from_app s tm n m : ∀ va,
  pages_from s tm va (n + m) = pages_from s tm va n ++ pages_from s tm (va + Z.of_nat n * PAGE_SIZE) m.
Proof.
  induction n as [|n IH]; intros va; [simpl; by rewrite Z.add_0_r|].
  cbn [Nat.add pages_from]. rewrite IH, app_assoc. do 2 f_equal. lia.
Qed.

Lemma pages_from_range s tm n : ∀ va ve, ve ∈ pages_from s tm va n →
  va ≤ ve.1 < va + Z.of_nat n * PAGE_SIZE ∧ ve.2 = view s tm ve.1 ∧ fget F_p ve.2 ≠ 0 ∧ (ve.1 - va) mod PAGE_SIZE = 0.
Proof.
  induction n as [|n IH]; intros va ve; cbn [pages_from]; [by intros ?%not_elem_of_nil|]. intros [H|H]%elem_of_app.
  - destruct (fget F_p (view s tm va) =? 0) eqn:E; [by apply not_elem_of_nil in H|]. bool_to_prop.
    apply list_elem_of_singleton in H as ->. cbn [fst snd]. split_and!; try done; [unfold PAGE_SIZE; lia|].
    by rewrite Z.sub_diag.
  - destruct (IH _ _ H) as (H1 & H2 & H3 & Hm). unfold PAGE_SIZE in *.
    split; [lia|]. split; [done|]. split; [done|]. Z.div_mod_to_equations. lia.
Qed.

Lemma pages_from_ext s s' tm n : ∀ va,
  (∀ va', va ≤ va' < va + Z.of_nat n * PAGE_SIZE → (va' - va) mod PAGE_SIZE = 0 → view s' tm va' = view s tm va') →
  pages_from s' tm va n = pages_from s tm va n.
Proof.
  induction n as [|n IH]; intros va H; cbn [pages_from]; [done|]. rewrite H by (unfold PAGE_SIZE; rewrite ?Z.sub_diag; done || lia). f_equal.
  apply IH. intros va' Hva Hm. apply H; unfold PAGE_SIZE in *; [lia|]. Z.div_mod_to_equations. lia.
Qed.

Lemma pages_from_win s w tm va n : pages_from (upd_win w s) tm va n = pages_from s tm va n.
Proof. by apply pages_from_ext. Qed.

Definition covers (ps : list (Z * Z)) (va : Z) : Prop := page_of_addr va ∈ ps.*1.

#[export] Instance covers_dec ps va : Decision (covers ps va) := ltac:(unfold covers; apply _).

(** ** What a walk leaves alone *)

Record rest_same (tl : list Z) (tm : Z) s s' : Prop := {
  rs_lists : ts_lists s' = ts_lists s;
  rs_dirs : ts_dirs s' = ts_dirs s;
  rs_heap : ts_heap s' = ts_heap s;
  rs_tlb : ts_tlb s' = ts_tlb s;
  rs_kernel : kernel_pgdir_virt s' = kernel_pgdir_virt s ∧ kernel_pgdir_phys s' = kernel_pgdir_phys s;
  rs_maps tm' : tm' ≠ tm → ts_maps s' !! tm' = ts_maps s !! tm';
  rs_vm : xs (ts_vm s') = xs (ts_vm s) ∧ cpus (ts_vm s') = cpus (ts_vm s) ∧ VM_State (ts_vm s') = VM_State (ts_vm s) ∧
    all_pages (ts_vm s') = all_pages (ts_vm s) ∧ physical_page_offset (ts_vm s') = physical_page_offset (ts_vm s) ∧
    total_pages_count (ts_vm s') = total_pages_count (ts_vm s);
  rs_tables tm' i : tm' ∈ tl → table_at s' tm' i = table_at s tm' i;
  rs_frames pa : (∀ tm' i b, tm' ∈ tl → 0 ≤ i < MAX_PDENTS → table_at s tm' i = Some b → pa ≠ b * PAGE_SIZE) →
    frames (ts_vm s') !! pa = frames (ts_vm s) !! pa }.

Lemma rest_same_refl tl tm s : rest_same tl tm s s.
Proof. by split. Qed.

Lemma rest_same_trans tl tm s1 s2 s3 : rest_same tl tm s1 s2 → rest_same tl tm s2 s3 → rest_same tl tm s1 s3.
Proof.
  intros [L1 D1 H1 T1 [K1 K1'] M1 (V1 & V2 & V3 & V4 & V5 & V6) B1 F1] [L2 D2 H2 T2 [K2 K2'] M2 (U1 & U2 & U3 & U4 & U5 & U6) B2 F2].
  split; try congruence.
  - split; congruence.
  - intros. rewrite M2, M1; done.
  - split_and!; congruence.
  - intros. rewrite B2, B1; done.
  - intros pa Hpa. rewrite F2, F1; [done|done|]. intros tm' i b Ht Hi. rewrite B1 by done. by apply Hpa.
Qed.

(** The descriptor of the frame [b], and what the page array covers. *)
Definition page_of s (b : Z) : Z := page_ptr (ts_vm s) (b - physical_page_offset (ts_vm s)).

Definition in_array s (b : Z) : Prop :=
  physical_page_offset (ts_vm s) ≤ b < physical_page_offset (ts_vm s) + total_pages_count (ts_vm s).

Lemma rest_same_page tl tm s s' b : rest_same tl tm s s' → page_of s' b = page_of s b ∧ (in_array s' b ↔ in_array s b).
Proof.
  intros []. destruct rs_vm0 as (_ & _ & _ & E1 & E2 & E3). unfold page_of, in_array, page_ptr. by rewrite E1, E2, E3.
Qed.

(** ** Reaching a page table *)

Lemma wp_get_pgtable s tl Lw pde tm' I b (Q : Z → tms → Prop) : tms_ok s tl Lw → Z.of_nat (length Lw) < win_slots (ts_win s) →
  tm' ∈ tl → 0 ≤ I < MAX_PDENTS → table_at s tm' I = Some b → fget F_base pde = b →
  (∀ va w, win_ok w ((va, b * PAGE_SIZE) :: Lw) → win_slots w = win_slots (ts_win s) →
    win_frame w va = Some (b * PAGE_SIZE) → Q va (upd_win w s)) → wp (get_pgtable pde) s Q.
Proof.
  intros Hs Hlen Ht HI Hb <- HQ. destruct (table_frame Hs _ _ _ Ht HI Hb) as [Hr _].
  unfold get_pgtable. replace (ADDR_REVERSE_SHIFT (fget F_base pde)) with (fget F_base pde * PAGE_SIZE).
  2: { unfold ADDR_REVERSE_SHIFT, PAGE_SHIFT. rewrite Z.shiftl_mul_pow2, uwrap_small by lia. done. }
  cbn [get_page_loop]. unfold get_physical_page_tmap. wp_go.
  eapply win_get_ok; [apply (to_win _ _ _ Hs)|done|unfold PAGE_SIZE; lia|].
  intros va w Hw Hsl. cbn [fst snd negb Z.eqb NO_ERROR]. wp_go. eapply wp_load; [done|].
  apply HQ; [done..|]. eapply win_frame_ok; [done|by left|]. by apply Z.mod_mul.
Qed.

Lemma wp_put_window s tl Lw va pa (Q : Z → tms → Prop) : tms_ok s tl ((va, pa) :: Lw) →
  (∀ w, tms_ok (upd_win w s) tl Lw → win_slots w = win_slots (ts_win s) → Q NO_ERROR (upd_win w s)) → wp (put_physical_page_tmap va) s Q.
Proof.
  intros Hs HQ. unfold put_physical_page_tmap. wp_go. eapply (win_put_ok _ []); [apply (to_win _ _ _ Hs)|].
  intros w Hw Hsl. apply HQ; [|done]. by eapply upd_win_ok.
Qed.

(** ** Walks with given effects *)

(** [g]: what becomes of an entry; [h]: of the map; [unwires]: whether frames are counted down. *)
Context (tm : Z) (unwires : bool) (g : Z → Z) (h : Z → tmap → tmap) (entry : Z → Z → Z → Z → M tms unit).

Definition fields_ok (v : tmap) : Prop :=
  length (tm_pages_to_invalidate v) = Z.to_nat PAGE_INVALIDATE_CACHE_SIZE ∧
  word (tm_num_invalidate_pages v) ∧ word (tm_map_count v).

Definition unwire s (m : gmap Z vm_page) (ve : Z * Z) : gmap Z vm_page :=
  if unwires then alter (with_wire (λ c, c + -1)) (page_of s (fget F_base ve.2)) m else m.

Definition stepped (b i : Z) (fr : list Z) (va e : Z) (v : tmap) s : tms :=
  let s1 := put_entry b i (g e) fr s in
  put_map tm (h va v) (upd_vm (upd_pages (unwire s (pages (ts_vm s)) (va, e)) (ts_vm s1)) s1).

Context (Hg : ∀ e, word e → word (g e)).
Context (Hh : ∀ va v, fields_ok v → fields_ok (h va v) ∧ tm_pgdir_virt (h va v) = tm_pgdir_virt v).
Context (Hentry : ∀ s tl Lw v b i fr va e pgtbl (Q : unit → tms → Prop),
  tms_ok s tl Lw → ts_maps s !! tm = Some v → win_frame (ts_win s) pgtbl = Some (b * PAGE_SIZE) →
  frames (ts_vm s) !! (b * PAGE_SIZE) = Some fr → word_at fr i = Some e → 0 ≤ i < MAX_PTENTS → word e →
  (unwires = true → in_array s (fget F_base e)) →
  Q tt (stepped b i fr va e v s) → wp (entry pgtbl i e va) s Q).

Record walked (tl : list Z) s (ps : list (Z * Z)) s' : Prop := {
  wk_view tm' va : tm' ∈ tl → word va →
    view s' tm' va = if decide (covers ps va ∧ (tm' = tm ∨ KERNEL_BASE ≤ va)) then g (view s tm' va) else view s tm' va;
  wk_pages : pages (ts_vm s') = foldl (unwire s) (pages (ts_vm s)) ps;
  wk_map v : ts_maps s !! tm = Some v → ts_maps s' !! tm = Some (foldl (λ v ve, h ve.1 v) v ps);
  wk_rest : rest_same tl tm s s' }.

Lemma walked_nil tl s : walked tl s [] s.
Proof.
  by split.
Qed.

Lemma foldl_unwire tl s s' m ps : rest_same tl tm s s' → foldl (unwire s') m ps = foldl (unwire s) m ps.
Proof.
  intros Hr. revert m. induction ps as [|ve ps IH]; intros m; simpl; [done|]. rewrite IH. f_equal.
  unfold unwire. by rewrite (proj1 (rest_same_page tl tm s s' _ Hr)).
Qed.

Lemma covers_app ps1 ps2 va : covers (ps1 ++ ps2) va ↔ covers ps1 va ∨ covers ps2 va.
Proof. unfold covers. by rewrite fmap_app, elem_of_app. Qed.

Lemma walked_app tl s ps1 s1 ps2 s2 : walked tl s ps1 s1 → walked tl s1 ps2 s2 →
  (∀ va, va ∈ ps1.*1 → va ∉ ps2.*1) → walked tl s (ps1 ++ ps2) s2.
Proof.
  intros [V1 P1 M1 R1] [V2 P2 M2 R2] Hd. split.
  - intros tm' va Ht Hva. rewrite V2, V1 by done. pose proof (covers_app ps1 ps2 va) as Ha. pose proof (Hd (page_of_addr va)) as Hno.
    unfold covers in *. repeat case_decide; tauto || done.
  - by rewrite P2, P1, foldl_app, (foldl_unwire tl s s1).
  - intros v Hv. rewrite (M2 _ (M1 v Hv)). by rewrite foldl_app.
  - by eapply rest_same_trans.
Qed.

Lemma walked_win tl s ps s' w w' : walked tl s ps s' → walked tl (upd_win w s) ps (upd_win w' s').
Proof. intros [V P M [R1 R2 R3 R4 R5 R6 R7 R8 R9]]. by split; [..|split]. Qed.

Lemma foldl_fields (ps : list (Z * Z)) : ∀ v, fields_ok v →
  fields_ok (foldl (λ v ve, h ve.1 v) v ps) ∧ tm_pgdir_virt (foldl (λ v ve, h ve.1 v) v ps) = tm_pgdir_virt v.
Proof.
  induction ps as [|ve ps IH]; intros v Hv; [done|]. destruct (Hh ve.1 v Hv) as [Hv' <-]. by apply IH.
Qed.

Lemma upd_win_back s w : upd_win (ts_win s) (upd_win w s) = s.
Proof. by destruct s. Qed.

(** ** One entry *)

Lemma stepped_ok s tl Lw v I b i fr va e : tms_ok s tl Lw → tm ∈ tl → ts_maps s !! tm = Some v →
  0 ≤ I < MAX_PDENTS → table_at s tm I = Some b → frames (ts_vm s) !! (b * PAGE_SIZE) = Some fr →
  tms_ok (stepped b i fr va e v s) tl Lw.
Proof.
  intros Hs Ht Hv HI Hb Hfr. unfold stepped. destruct (to_map _ _ _ Hs tm Ht) as (v' & d & [Hv' _ _ _ Hc [Hn Hm]]).
  assert (v' = v) as -> by congruence. destruct (Hh va v) as ((? & ? & ?) & ?); [done|].
  eapply put_map_ok with (v := v); try done; [|congruence].
  pose proof (put_entry_ok s tl Lw tm I b i (g e) fr Hs Ht HI Hb Hfr) as Hok. set (s1 := put_entry b i (g e) fr s) in *.
  unfold unwire. change (pages (ts_vm s)) with (pages (ts_vm s1)). cbn [fst snd]. destruct unwires; [|by destruct s1 as [[]]].
  set (a := page_of s _). destruct (pages (ts_vm s1) !! a) as [p|] eqn:Ha.
  - rewrite (alter_some _ _ _ _ Ha). by apply put_wire_ok.
  - rewrite alter_id' by done. by destruct s1 as [[]].
Qed.

Lemma stepped_walked s tl Lw v I b i fr va e : tms_ok s tl Lw → tm ∈ tl → ts_maps s !! tm = Some v →
  0 ≤ I < MAX_PDENTS → table_at s tm I = Some b → frames (ts_vm s) !! (b * PAGE_SIZE) = Some fr →
  word va → va mod PAGE_SIZE = 0 → VADDR_TO_PDENT va = I → VADDR_TO_PTENT va = i → word_at fr i = Some e →
  walked tl s [(va, e)] (stepped b i fr va e v s).
Proof.
  intros Hs Ht Hv HI Hb Hfr Hva Hm EI Ei He. destruct (word_split va Hva) as (_ & Hi & _). rewrite Ei in Hi.
  assert (word e) as Hwe.
  { destruct (word_at_some fr i) as (w & E & ?); [by eapply to_frames|done|]. congruence. }
  destruct (to_map _ _ _ Hs tm Ht) as (v' & d & [Hv' _ _ _ Hc [Hn Hmc]]). assert (v' = v) as -> by congruence.
  destruct (Hh va v) as (_ & Hdir); [done|]. split.
  - intros tm' va' Ht' Hva'. unfold stepped. rewrite (put_map_view _ _ v) by done.
    transitivity (view (put_entry b i (g e) fr s) tm' va'); [done|].
    rewrite (put_entry_view s tl Lw tm I b i (g e) fr tm' va') by auto. subst I i.
    assert (VADDR_TO_PDENT va' = VADDR_TO_PDENT va ∧ VADDR_TO_PTENT va' = VADDR_TO_PTENT va ↔ covers [(va, e)] va') as Hc'.
    { rewrite same_entry by done. unfold covers, page_of_addr. simpl. rewrite list_elem_of_singleton.
      pose proof (Z.div_mod va PAGE_SIZE ltac:(done)). unfold PAGE_SIZE in *. lia. }
    assert (KERNEL_BASE ≤ va' ↔ FIRST_KERNEL_PGDIR_ENTRY ≤ VADDR_TO_PDENT va') as Hk by (by rewrite kernel_entry).
    assert (view s tm' va' = e ∨ ¬ (covers [(va, e)] va' ∧ (tm' = tm ∨ KERNEL_BASE ≤ va'))) as Hve.
    { destruct (decide (covers [(va, e)] va' ∧ (tm' = tm ∨ KERNEL_BASE ≤ va'))) as [[Hcv Ho]|]; [left|by right].
      apply Hc' in Hcv as [E1 E2]. unfold view. rewrite E1, E2.
      assert (table_at s tm' (VADDR_TO_PDENT va) = Some b) as ->; [|by simpl; rewrite Hfr; simpl; rewrite He].
      destruct Ho as [->|Ho]; [done|]. rewrite (table_kernel s tl Lw tm tm'); [done|done|done|done|]. rewrite <- E1. lia. }
    destruct (decide (covers [(va, e)] va' ∧ (tm' = tm ∨ KERNEL_BASE ≤ va'))) as [Hy|Hno].
    + rewrite decide_True; [destruct Hve as [->|?]; [done|tauto]|]. destruct Hy as [Hy Ho].
      pose proof (proj2 Hc' Hy) as [E1 E2]. by rewrite <- E1, <- Hk.
    + rewrite decide_False; [done|]. intros (E1 & E2 & Ho). apply Hno. rewrite Hk, E1. tauto.
  - done.
  - intros u Hu. simplify_eq. unfold stepped. simpl. by rewrite lookup_insert_eq.
  - split; try done.
    + intros tm' Hne. unfold stepped. simpl. by rewrite lookup_insert_ne.
    + intros tm' i' Ht'. unfold table_at, stepped. by rewrite (put_map_pde _ _ v) by done.
    + intros pa Hpa. unfold stepped. simpl. rewrite lookup_insert_ne; [done|]. intros <-. by apply (Hpa tm I b).
Qed.

(** ** The loops *)

Lemma walked_later tl Lw s ps s' start n : tms_ok s tl Lw → tm ∈ tl → walked tl s ps s' →
  (∀ ve, ve ∈ ps → ve.1 < start) → 0 ≤ start → start mod PAGE_SIZE = 0 → start + Z.of_nat n * PAGE_SIZE ≤ 2 ^ 32 →
  pages_from s' tm start n = pages_from s tm start n.
Proof.
  intros Hs Ht Hw Hlt H0 Hm Hn. apply pages_from_ext. intros va' Hva _. rewrite (wk_view _ _ _ _ Hw) by (done || (unfold word; lia)).
  rewrite decide_False; [done|]. intros [Hc _]. unfold covers in Hc. apply list_elem_of_fmap in Hc as (ve & E & Hve).
  specialize (Hlt _ Hve). unfold page_of_addr, PAGE_SIZE in *. Z.div_mod_to_equations. lia.
Qed.

Lemma walked_cons_app tl Lw s ps s1 start n s2 : tms_ok s tl Lw → tm ∈ tl → walked tl s ps s1 →
  (∀ ve, ve ∈ ps → ve.1 < start) → 0 ≤ start → start mod PAGE_SIZE = 0 → start + Z.of_nat n * PAGE_SIZE ≤ 2 ^ 32 →
  walked tl s1 (pages_from s1 tm start n) s2 → walked tl s (ps ++ pages_from s tm start n) s2.
Proof.
  intros Hs Ht Hw Hlt H0 Hm Hn Hw2. pose proof (walked_later tl Lw s ps s1 start n) as E. rewrite E in Hw2 by done.
  eapply walked_app; [done..|]. intros va (ve & -> & H1)%list_elem_of_fmap (ve' & E' & H2)%list_elem_of_fmap.
  apply Hlt in H1. apply pages_from_range in H2. lia.
Qed.

Lemma walked_in_array tl s ps s' (ve : Z * Z) (ps' : list (Z * Z)) : walked tl s ps s' → (unwires = true → ∀ ve, ve ∈ ps' → in_array s (fget F_base ve.2)) →
  unwires = true → ve ∈ ps' → in_array s' (fget F_base ve.2).
Proof. intros Hw Ha Hu Hve. apply (rest_same_page tl tm s s' _ (wk_rest _ _ _ _ Hw)). by apply Ha. Qed.

Lemma view_at s va b fr e : table_at s tm (VADDR_TO_PDENT va) = Some b → frames (ts_vm s) !! (b * PAGE_SIZE) = Some fr →
  word_at fr (VADDR_TO_PTENT va) = Some e → view s tm va = e.
Proof. intros Hb Hfr He. unfold view. rewrite Hb. simpl. rewrite Hfr. simpl. by rewrite He. Qed.

Lemma wp_entries_loop n : ∀ s tl Lw v i m start pgtbl I b (Q : Z → tms → Prop),
  tms_ok s tl Lw → tm ∈ tl → ts_maps s !! tm = Some v → 0 ≤ I < MAX_PDENTS → table_at s tm I = Some b →
  win_frame (ts_win s) pgtbl = Some (b * PAGE_SIZE) → 0 ≤ i → i + Z.of_nat n = MAX_PTENTS →
  start = (I * MAX_PTENTS + i) * PAGE_SIZE → start + Z.of_nat m * PAGE_SIZE < 2 ^ 32 →
  (unwires = true → ∀ ve, ve ∈ pages_from s tm start (n `min` m) → in_array s (fget F_base ve.2)) →
  (∀ s', walked tl s (pages_from s tm start (n `min` m)) s' → tms_ok s' tl Lw → ts_win s' = ts_win s →
    Q (start + Z.of_nat (n `min` m) * PAGE_SIZE) s') →
  wp (entries_loop entry n pgtbl i start (start + Z.of_nat m * PAGE_SIZE)) s Q.
Proof.
  induction n as [|n IH]; intros s tl Lw v i m start pgtbl I b Q Hs Ht Hv HI Hb Hw H0 Hin Est Hend Ha HQ.
  { cbn [entries_loop]. wp_go. cbn [Nat.min pages_from] in HQ. specialize (HQ s).
    rewrite Z.add_0_r in HQ. apply HQ; [apply walked_nil|done..]. }
  cbn [entries_loop]. destruct m as [|m].
  { rewrite Z.ltb_irrefl || rewrite (proj2 (Z.ltb_ge _ _)) by lia. wp_go. cbn [Nat.min pages_from] in HQ.
    specialize (HQ s). rewrite Z.add_0_r in HQ. apply HQ; [apply walked_nil|done..]. }
  rewrite (proj2 (Z.ltb_lt _ _)) by (unfold PAGE_SIZE; lia).
  assert (VADDR_TO_PDENT start = I ∧ VADDR_TO_PTENT start = i ∧ word start ∧ start mod PAGE_SIZE = 0) as (EI & Ei & Hst & Hal).
  { unfold VADDR_TO_PDENT, VADDR_TO_PTENT, word, MAX_PTENTS, MAX_PDENTS, PAGE_SIZE in *. subst start.
    rewrite Z.div_mul, Z.mod_mul by done. Z.div_mod_to_equations. lia. }
  destruct (table_frame Hs tm I b Ht HI Hb) as (_ & fr & Hfr & Hok).
  destruct (word_at_some fr i Hok) as (e & He & Hwe); [lia|].
  assert (view s tm start = e) as Eview by (eapply view_at; rewrite ?EI, ?Ei; done).
  wp_go. eapply wp_ld_pte; [done..|].
  replace (u32 (start + PAGE_SIZE)) with (start + PAGE_SIZE) by (rewrite uwrap_small; unfold PAGE_SIZE, word in *; lia).
  replace (start + Z.of_nat (S m) * PAGE_SIZE) with (start + PAGE_SIZE + Z.of_nat m * PAGE_SIZE) by lia.
  cbn [Nat.min pages_from] in Ha, HQ. rewrite Eview in Ha, HQ.
  assert (start + PAGE_SIZE = (I * MAX_PTENTS + (i + 1)) * PAGE_SIZE) as Est' by lia.
  assert ((start + PAGE_SIZE) mod PAGE_SIZE = 0) as Hal' by (rewrite Est'; by apply Z.mod_mul).
  unfold when. destruct (fget F_p e =? 0); cbn [negb].
  - wp_go. eapply (IH s tl Lw v (i + 1) m); try done; [lia..|]. intros s' Hw' Hs' Ewin.
    replace (start + PAGE_SIZE + Z.of_nat (n `min` m) * PAGE_SIZE) with (start + Z.of_nat (S (n `min` m)) * PAGE_SIZE) by lia.
    by apply HQ.
  - wp_go. eapply Hentry; try done; [lia| |].
    { intros Hu. apply (Ha Hu (start, e)). set_solver. }
    set (s1 := stepped _ _ _ _ _ _ _).
    assert (tms_ok s1 tl Lw) as Hs1 by (eapply stepped_ok; done).
    assert (walked tl s [(start, e)] s1) as Hw1 by (eapply (stepped_walked s tl Lw v I b); done).
    assert (∀ k, (k ≤ m)%nat → pages_from s1 tm (start + PAGE_SIZE) k = pages_from s tm (start + PAGE_SIZE) k) as Elater.
    { intros k Hk. eapply (walked_later tl Lw); try done; [|unfold word, PAGE_SIZE in *; lia..].
      intros ve ->%list_elem_of_singleton. unfold PAGE_SIZE. simpl. lia. }
    destruct (to_map _ _ _ Hs1 tm Ht) as (v1 & _ & [Hv1 _ _ _ _ _]).
    eapply (IH s1 tl Lw v1 (i + 1) m _ _ I b); try done; [by rewrite (rs_tables _ _ _ _ (wk_rest _ _ _ _ Hw1))|lia|lia|lia| |].
    + intros Hu ve Hve. rewrite Elater in Hve by lia. eapply walked_in_array; [done..|set_solver].
    + intros s' Hw' Hs' Ewin.
      replace (start + PAGE_SIZE + Z.of_nat (n `min` m) * PAGE_SIZE) with (start + Z.of_nat (S (n `min` m)) * PAGE_SIZE) by lia.
      apply HQ; [|done|by rewrite Ewin]. eapply (walked_cons_app tl Lw); try done.
      * intros ve ->%list_elem_of_singleton. unfold PAGE_SIZE. simpl. lia.
      * unfold word, PAGE_SIZE in *. lia.
      * unfold word, PAGE_SIZE in *. lia.
Qed.

Lemma ROUNDUP_next a : 0 ≤ a → a mod PAGE_SIZE = 0 → a + PAGE_SIZE < 2 ^ 32 → ROUNDUP_PAGE (u32 (a + 1)) = a + PAGE_SIZE.
Proof.
  intros H0 Hm Hlt. unfold ROUNDUP_PAGE. unfold PAGE_SIZE in *. rewrite (uwrap_small 32 (a + 1)), uwrap_small by lia.
  rewrite land_PAGE_MASK by (unfold word; lia). unfold PAGE_SIZE. Z.div_mod_to_equations. lia.
Qed.

Lemma wp_range_loop fuel : ∀ s tl v m start (Q : unit → tms → Prop),
  tms_ok s tl [] → tm ∈ tl → ts_maps s !! tm = Some v → (m < fuel)%nat → 0 ≤ start → start mod PAGE_SIZE = 0 →
  start + Z.of_nat m * PAGE_SIZE < 2 ^ 32 →
  (unwires = true → ∀ ve, ve ∈ pages_from s tm start m → in_array s (fget F_base ve.2)) →
  (∀ s', walked tl s (pages_from s tm start m) s' → tms_ok s' tl [] → Q tt s') →
  wp (range_loop entry fuel (tm_pgdir_virt v) start (start + Z.of_nat m * PAGE_SIZE)) s Q.
Proof.
  induction fuel as [|fuel IH]; intros s tl v m start Q Hs Ht Hv Hf H0 Hal Hend Ha HQ; [lia|]. cbn [range_loop].
  destruct m as [|m].
  { rewrite (proj2 (Z.leb_le _ _)) by lia. wp_go. apply HQ; [apply walked_nil|done]. }
  rewrite (proj2 (Z.leb_gt _ _)) by (unfold PAGE_SIZE; lia).
  assert (word start) as Hst by (unfold word, PAGE_SIZE in *; lia). destruct (word_split start Hst) as (HI & Hi & Esp).
  set (I := VADDR_TO_PDENT start) in *. set (i := VADDR_TO_PTENT start) in *.
  assert (start = (I * MAX_PTENTS + i) * PAGE_SIZE) as Est
    by (rewrite <- Esp; pose proof (Z.div_mod start PAGE_SIZE ltac:(done)); lia).
  destruct (to_map _ _ _ Hs tm Ht) as (v' & d & Hrep). assert (v' = v) as -> by (destruct Hrep; congruence).
  destruct (map_rep_pde s tm v d I Hrep HI) as (pde & Hpde & _ & _). wp_go. eapply wp_ld_pde; [done..|].
  destruct (fget F_p pde =? 0) eqn:Ep.
  - rewrite ROUNDUP_next by (done || (unfold PAGE_SIZE in *; lia)).
    replace (start + Z.of_nat (S m) * PAGE_SIZE) with (start + PAGE_SIZE + Z.of_nat m * PAGE_SIZE) by lia.
    assert (table_at s tm I = None) as Hnone by (unfold table_at; rewrite Hpde; simpl; by rewrite Ep).
    assert (pages_from s tm start (S m) = pages_from s tm (start + PAGE_SIZE) m) as E.
    { cbn [pages_from]. unfold view. fold I. rewrite Hnone. done. }
    rewrite E in *. eapply IH; try done; [lia|unfold PAGE_SIZE; lia| |lia].
    by rewrite Est, <- Z.mul_succ_l, Z.mod_mul.
  - assert (table_at s tm I = Some (fget F_base pde)) as Hb by (unfold table_at; rewrite Hpde; simpl; by rewrite Ep).
    wp_go. eapply (wp_get_pgtable s tl [] _ tm I (fget F_base pde)); [done|apply (to_slots _ _ _ Hs)|done..|]. intros pgtbl w Hw Hsl Hfr.
    set (sw := upd_win w s). assert (tms_ok sw tl [(pgtbl, fget F_base pde * PAGE_SIZE)]) as Hsw by (eapply upd_win_ok; done).
    wp_go. eapply (wp_entries_loop (Z.to_nat (MAX_PTENTS - i)) sw tl _ v i (S m) start pgtbl I (fget F_base pde)); try done; [lia..|intros Hu ve Hve|].
    { apply Ha; [done|]. replace (S m) with ((Z.to_nat (MAX_PTENTS - i) `min` S m) + (S m - Z.to_nat (MAX_PTENTS - i)))%nat by lia.
      rewrite pages_from_app. apply elem_of_app. left. by rewrite <- (pages_from_win s w). }
    set (k := (Z.to_nat (MAX_PTENTS - i) `min` S m)%nat). intros s1 Hw1 Hs1 Ewin1. wp_go. eapply wp_put_window; [done|].
    intros w2 Hs2 Hsl2. set (s2 := upd_win w2 s1) in *.
    assert (walked tl s (pages_from s tm start k) s2) as Hw2.
    { rewrite <- (upd_win_back s w) at 1. rewrite <- (pages_from_win s w). by apply walked_win. }
    destruct (to_map _ _ _ Hs2 tm Ht) as (v2 & _ & [Hv2 _ _ _ _ _]).
    assert (tm_pgdir_virt v2 = tm_pgdir_virt v) as <-.
    { destruct Hrep as [_ _ _ _ Hc [Hn Hmc]]. rewrite (wk_map _ _ _ _ Hw2 v Hv) in Hv2. injection Hv2 as <-. by apply foldl_fields. }
    assert (S m = k + (S m - k))%nat as Ek by lia. rewrite Ek, pages_from_app in Ha, HQ.
    replace (start + Z.of_nat (S m) * PAGE_SIZE) with (start + Z.of_nat k * PAGE_SIZE + Z.of_nat (S m - k) * PAGE_SIZE) by lia.
    assert ((start + Z.of_nat k * PAGE_SIZE) mod PAGE_SIZE = 0) as Hal2 by (by rewrite Z.mod_add).
    assert (0 ≤ start + Z.of_nat k * PAGE_SIZE) as H02 by (unfold PAGE_SIZE; lia).
    assert (start + Z.of_nat k * PAGE_SIZE + Z.of_nat (S m - k) * PAGE_SIZE ≤ 2 ^ 32) as Hend2 by (unfold PAGE_SIZE in *; lia).
    assert (∀ ve, ve ∈ pages_from s tm start k → ve.1 < start + Z.of_nat k * PAGE_SIZE) as Hlt
      by (intros ve Hve%pages_from_range; lia).
    pose proof (walked_later tl [] s _ s2 _ _ Hs Ht Hw2 Hlt H02 Hal2 Hend2) as Elater.
    eapply (IH s2 tl v2 (S m - k)%nat); try done; [lia|unfold PAGE_SIZE in *; lia| |].
    + intros Hu ve Hve. rewrite Elater in Hve. eapply walked_in_array; [done..|]. apply elem_of_app. by right.
    + intros s' Hw' Hs'. apply HQ; [|done]. by eapply (walked_cons_app tl []).
Qed.

(** The pages of the whole range. *)
Definition range_start (start : Z) : Z := start / PAGE_SIZE * PAGE_SIZE.

Definition range_pages (start end_ : Z) : nat := Z.to_nat ((end_ + (PAGE_SIZE - 1)) / PAGE_SIZE - start / PAGE_SIZE).

Lemma wp_walk_range s tl v start end_ (Q : Z → tms → Prop) :
  tms_ok s tl [] → tm ∈ tl → ts_maps s !! tm = Some v → word start → 0 ≤ end_ → end_ + (PAGE_SIZE - 1) < 2 ^ 32 →
  (unwires = true → ∀ ve, ve ∈ pages_from s tm (range_start start) (range_pages start end_) → in_array s (fget F_base ve.2)) →
  (∀ s', walked tl s (pages_from s tm (range_start start) (range_pages start end_)) s' → tms_ok s' tl [] → Q NO_ERROR s') →
  wp (walk_range entry tm start end_) s Q.
Proof.
  intros Hs Ht Hv Hst H0 Hend Ha HQ. unfold walk_range. wp_go. eapply wp_ld_map; [done|]. wp_go.
  unfold ROUNDOWN, ROUNDUP_PAGE. rewrite uwrap_small by (unfold PAGE_SIZE in *; lia).
  rewrite land_PAGE_MASK by (unfold word, PAGE_SIZE in *; lia). fold (range_start start).
  set (e := (end_ + (PAGE_SIZE - 1)) / PAGE_SIZE * PAGE_SIZE). set (m := range_pages start end_) in *.
  assert (0 ≤ range_start start ∧ range_start start mod PAGE_SIZE = 0) as [Hst0 Hal]
    by (unfold range_start, word, PAGE_SIZE in *; rewrite Z.mod_mul by done; Z.div_mod_to_equations; lia).
  destruct (Z.lt_ge_cases (range_start start) e) as [Hlt|Hge].
  - assert (e = range_start start + Z.of_nat m * PAGE_SIZE) as ->
      by (unfold e, m, range_start, range_pages, PAGE_SIZE in *; lia).
    eapply (wp_range_loop _ s tl v m); try done.
    + unfold range_fuel. rewrite Z.add_simpl_l, Z.div_mul by done. lia.
    + unfold m, range_start, range_pages, PAGE_SIZE in *. Z.div_mod_to_equations. lia.
  - unfold range_fuel. cbn [range_loop]. rewrite (proj2 (Z.leb_le _ _)) by done. wp_go. wp_go.
    assert (m = 0%nat) as E by (unfold e, m, range_start, range_pages, PAGE_SIZE in *; lia).
    rewrite E in HQ. apply HQ; [apply walked_nil|done].
Qed.
End walk.

(** ** What unmapping and protecting do to an entry *)

Definition noted (va : Z) (v : tmap) : tmap :=
  let n := tm_num_invalidate_pages v in
  with_invalid (u32 (n + 1))
    (if n <? PAGE_INVALIDATE_CACHE_SIZE then <[Z.to_nat n := va]> (tm_pages_to_invalidate v)
     else tm_pages_to_invalidate v) v.

Lemma noted_ok va v : fields_ok v → fields_ok (noted va v) ∧ tm_pgdir_virt (noted va v) = tm_pgdir_virt v.
Proof.
  intros (Hc & Hn & Hm). unfold noted. split; [|done]. split; [|split; [apply word_u32|done]]. simpl.
  case_match; by rewrite ?length_insert.
Qed.

Lemma with_count_ok f v : fields_ok v → fields_ok (with_count f v) ∧ tm_pgdir_virt (with_count f v) = tm_pgdir_virt v.
Proof. intros (Hc & Hn & Hm). split; [|done]. split; [done|]. split; [done|apply word_u32]. Qed.

Definition unmapped (va : Z) (v : tmap) : tmap := noted va (with_count (λ c, c + -1) v).

Lemma unmapped_ok va v : fields_ok v → fields_ok (unmapped va v) ∧ tm_pgdir_virt (unmapped va v) = tm_pgdir_virt v.
Proof.
  intros Hv. destruct (with_count_ok (λ c, c + -1) v Hv) as [Hv' <-]. by apply noted_ok.
Qed.

Definition protected (protection e : Z) : Z := fset F_rw (prot_write protection) (fset F_us (prot_user protection) e).

Section entries.
Context {A : Allocator} {W : Window} {WL : WindowLaws W}.
Implicit Types s : tms.

Lemma wp_lookup_array (x : vms) b (Q : Z → vms → Prop) : vmp_inv x →
  physical_page_offset x ≤ b < physical_page_offset x + total_pages_count x →
  (∀ p, let a := page_ptr x (b - physical_page_offset x) in
    pages x !! a = Some p → ppn p = b → (a =? NULL) = false → Q a x) →
  wp (vm_page_lookup b) x Q.
Proof.
  intros Hi Hb HQ. pose proof (vi_geom _ Hi) as Hge. apply wp_vm_page_lookup; [done|lia|]. rewrite decide_True by done.
  set (a := page_ptr _ _) in *. destruct (proj2 (vi_dom _ Hi a)) as [p Hp]; [eexists; split; [|done]; lia|].
  apply (HQ p); [done| |].
  - destruct (vi_page _ Hi _ _ Hp). lia.
  - pose proof (vi_valid _ _ _ Hi Hp) as Hvp. unfold valid_ptr in Hvp. unfold NULL. lia.
Qed.

Lemma wp_unmap_entry tm s tl Lw v b i fr va e pgtbl (Q : unit → tms → Prop) :
  tms_ok s tl Lw → ts_maps s !! tm = Some v → win_frame (ts_win s) pgtbl = Some (b * PAGE_SIZE) →
  frames (ts_vm s) !! (b * PAGE_SIZE) = Some fr → word_at fr i = Some e → 0 ≤ i < MAX_PTENTS → word e →
  (true = true → in_array s (fget F_base e)) →
  Q tt (stepped tm true (fset F_p 0) unmapped b i fr va e v s) → wp (unmap_entry tm pgtbl i e va) s Q.
Proof.
  intros Hs Hv Hw Hfr He Hi Hwe Ha HQ. unfold unmap_entry. wp_go. eapply wp_st_pte; [done..|].
  wp_go. unfold add_count. eapply wp_st_map; [done|]. wp_go.
  eapply (wp_ld_pte _ _ b i (put_word i (fset F_p 0 e) fr) (fset F_p 0 e)); [done|simpl; apply lookup_insert_eq| |].
  { rewrite word_at_put; [by rewrite decide_True|by eapply to_frames|done|done|apply word_fset; [by_decide|done]]. }
  rewrite fget_fset_ne by by_decide. wp_go.
  apply wp_lookup_array; [apply vmp_inv_frames, (to_vm _ _ _ Hs)|by apply Ha|]. intros p a Hp Ep Hnn. rewrite Hnn.
  wp_go. eapply wp_add_wire; [exact Hp|]. unfold note_invalid. eapply wp_st_map; [simpl; apply lookup_insert_eq|].
  match goal with |- Q tt ?x => assert (x = stepped tm true (fset F_p 0) unmapped b i fr va e v s) as -> end; [|done].
  unfold stepped, unwire, put_map, put_page, upd_maps, upd_vm. cbn [fst snd]. unfold page_of. simpl.
  rewrite (alter_some _ _ _ _ Hp), insert_insert_eq. done.
Qed.

Lemma wp_protect_entry tm protection s tl Lw v b i fr va e pgtbl (Q : unit → tms → Prop) :
  tms_ok s tl Lw → ts_maps s !! tm = Some v → win_frame (ts_win s) pgtbl = Some (b * PAGE_SIZE) →
  frames (ts_vm s) !! (b * PAGE_SIZE) = Some fr → word_at fr i = Some e → 0 ≤ i < MAX_PTENTS → word e →
  (false = true → in_array s (fget F_base e)) →
  Q tt (stepped tm false (protected protection) noted b i fr va e v s) → wp (protect_entry tm protection pgtbl i e va) s Q.
Proof.
  intros Hs Hv Hw Hfr He Hi Hwe _ HQ. unfold protect_entry. wp_go. eapply wp_st_pte; [done..|].
  wp_go. unfold note_invalid. eapply wp_st_map; [done|].
  match goal with |- Q tt ?x => assert (x = stepped tm false (protected protection) noted b i fr va e v s) as -> end; [|done].
  unfold stepped, unwire, put_map, upd_maps, upd_vm. by destruct s as [[]].
Qed.

Lemma wp_unmap s tl tm v start end_ (Q : Z → tms → Prop) :
  let ps := pages_from s tm (range_start start) (range_pages start end_) in
  tms_ok s tl [] → tm ∈ tl → ts_maps s !! tm = Some v → word start → 0 ≤ end_ → end_ + (PAGE_SIZE - 1) < 2 ^ 32 →
  (∀ ve, ve ∈ ps → in_array s (fget F_base ve.2)) →
  (∀ s', walked tm true (fset F_p 0) unmapped tl s ps s' → tms_ok s' tl [] → Q NO_ERROR s') →
  wp (unmap_tmap tm start end_) s Q.
Proof.
  intros ps Hs Ht Hv Hst H0 Hend Ha HQ. unfold unmap_tmap.
  eapply (wp_walk_range tm true (fset F_p 0) unmapped); try done.
  - intros e He. apply word_fset; [by_decide|done].
  - apply unmapped_ok.
  - intros. eapply wp_unmap_entry; done.
Qed.

Lemma wp_protect s tl tm v start end_ protection (Q : Z → tms → Prop) :
  let ps := pages_from s tm (range_start start) (range_pages start end_) in
  tms_ok s tl [] → tm ∈ tl → ts_maps s !! tm = Some v → word start → 0 ≤ end_ → end_ + (PAGE_SIZE - 1) < 2 ^ 32 →
  (∀ s', walked tm false (protected protection) noted tl s ps s' → tms_ok s' tl [] → Q NO_ERROR s') →
  wp (protect_tmap tm start end_ protection) s Q.
Proof.
  intros ps Hs Ht Hv Hst H0 Hend HQ. unfold protect_tmap.
  eapply (wp_walk_range tm false (protected protection) noted); try done.
  - intros e He. do 2 (apply word_fset; [by_decide|]). done.
  - apply noted_ok.
  - intros. eapply wp_protect_entry; done.
Qed.
End entries.
