(* ===== verification/TransMapAlloc.v ===== *)
(** * New page tables and mappings

    [map_tmap] first gives the directory entry of the address a page table: a clear page,
    wired, whose entry goes to all directories for kernel space. The new table changes no
    view, since all its entries are 0; then one entry is written. *)

From stdpp Require Import gmap list.
From S2P Require Import Spinlock Prelude XList VmPage VmPageSpec Alloc Mmu TransMap TransMapSpec TransMapWalk.
#[local] Open Scope Z_scope.

Section alloc.
Context {A : Allocator} {W : Window} {WL : WindowLaws W}.
Implicit Types s : tms.

(** ** Directory entries *)

(** The maps of [tl] with their directories, no two the same. *)
Record dirs_ok s (tl : list Z) : Prop := {
  do_map tm : tm ∈ tl → ∃ v d, map_rep s tm v d;
  do_inj tm tm' v v' : tm ∈ tl → tm' ∈ tl → ts_maps s !! tm = Some v → ts_maps s !! tm' = Some v' →
    tm_pgdir_virt v = tm_pgdir_virt v' → tm = tm' }.

Lemma tms_dirs_ok s tl Lw : tms_ok s tl Lw → dirs_ok s tl.
Proof. intros []. by split. Qed.

(** The entry [I] of the maps in [L] is now [w]. *)
Record pdes_set (L : list Z) (I w : Z) (tl : list Z) s s' : Prop := {
  ps_same : s' = upd_dirs (ts_dirs s') s;
  ps_ok : dirs_ok s' tl;
  ps_pde tm i : tm ∈ tl → 0 ≤ i < MAX_PDENTS →
    pde_at s' tm i = if decide (tm ∈ L ∧ i = I) then Some w else pde_at s tm i }.

Lemma pdes_set_nil I w tl s : dirs_ok s tl → pdes_set [] I w tl s s.
Proof. intros Hd. split; [by destruct s|done|]. intros. by rewrite decide_False by (intros [?%not_elem_of_nil _]; done). Qed.

Lemma pdes_set_app L1 L2 I w tl s s1 s2 : pdes_set L1 I w tl s s1 → pdes_set L2 I w tl s1 s2 → pdes_set (L1 ++ L2) I w tl s s2.
Proof.
  intros [E1 O1 P1] [E2 O2 P2]. split; [|done|].
  - rewrite E2, E1. done.
  - intros tm i Ht Hi. rewrite P2, P1 by done. repeat case_decide; set_solver.
Qed.

Lemma wp_st_pde s tl tm v I w (Q : unit → tms → Prop) : dirs_ok s tl → tm ∈ tl → ts_maps s !! tm = Some v →
  0 ≤ I < MAX_PDENTS → word w → (∀ s', pdes_set [tm] I w tl s s' → Q tt s') → wp (st_pde (tm_pgdir_virt v) I w) s Q.
Proof.
  intros Hd Ht Hv HI Hw HQ. destruct (do_map _ _ Hd tm Ht) as (v' & d & Hrep).
  assert (v' = v) as -> by (destruct Hrep; congruence).
  destruct (map_rep_pde s tm v d I Hrep HI) as (w0 & Hw0 & _ & _). pose proof (mr_length _ _ _ _ Hrep) as Hl.
  unfold st_pde. wp_go. eapply wp_ld_pde; [done..|]. wp_go. eapply wp_load; [by destruct Hrep|]. wp_go. apply HQ.
  set (s' := upd_dirs _ s).
  assert (∀ tm' u e, tm' ∈ tl → map_rep s tm' u e → map_rep s' tm' u (if decide (tm' = tm) then <[Z.to_nat I := w]> d else e)) as Hreps.
  { intros tm' u e Ht' Hr'. case_decide as E.
    - subst tm'. destruct Hrep, Hr'. assert (u = v) as -> by congruence. split; try done.
      + simpl. by rewrite lookup_insert_eq.
      + by rewrite length_insert.
      + by apply Forall_insert.
    - pose proof Hr' as []. split; try done. simpl. rewrite lookup_insert_ne; [done|]. intros E'. apply E.
      symmetry. eapply (do_inj _ _ Hd); done. }
  split; [done| |].
  - split; [|apply Hd]. intros tm' Ht'. destruct (do_map _ _ Hd tm' Ht') as (u & e & Hr'). do 2 eexists. by apply Hreps.
  - intros tm' i Ht' Hi. destruct (do_map _ _ Hd tm' Ht') as (u & e & Hr'). pose proof (Hreps _ _ _ Ht' Hr') as Hr2.
    destruct (map_rep_pde _ _ _ _ i Hr2 Hi) as (w2 & -> & E2 & _), (map_rep_pde _ _ _ _ i Hr' Hi) as (w3 & -> & E3 & _).
    pose proof (list_elem_of_singleton tm' tm) as Hsing. destruct (decide (tm' = tm)) as [->|Hne].
    + assert (e = d) as -> by (destruct Hrep, Hr'; congruence). destruct (decide (i = I)) as [->|Hne].
      * rewrite decide_True by tauto. rewrite list_lookup_insert_eq in E2 by (unfold MAX_PDENTS in *; lia). congruence.
      * rewrite decide_False by tauto. rewrite list_lookup_insert_ne in E2 by lia. congruence.
    + rewrite decide_False by tauto. congruence.
Qed.

Lemma pdes_set_map L I w tl s s' tm v : pdes_set L I w tl s s' → ts_maps s !! tm = Some v → ts_maps s' !! tm = Some v.
Proof. intros [E _ _] Hv. by rewrite E. Qed.

Lemma wp_pgdirs_loop l fuel : ∀ p s tl I w (Q : unit → tms → Prop),
  dirs_ok s tl → seg (nodes (ts_lists s)) p l NULL → Forall valid_ptr l → l ⊆ tl → (length l < fuel)%nat →
  0 ≤ I < MAX_PDENTS → word w → (∀ s', pdes_set l I w tl s s' → Q tt s') → wp (pgdirs_loop fuel (head_or NULL l) I w) s Q.
Proof.
  revert fuel. induction l as [|tm l IH]; intros [|fuel] p s tl I w Q Hd Hseg Hval Hsub Hf HI Hw HQ; try (simpl in Hf; lia); cbn [pgdirs_loop head_or].
  - wp_go. by apply HQ, pdes_set_nil.
  - destruct Hseg as [Hn Hseg]. apply Forall_cons in Hval as [Hv Hval]. rewrite (valid_ptr_nonnull tm Hv).
    destruct (do_map _ _ Hd tm) as (v & d & Hrep); [set_solver|]. wp_go. eapply wp_ld_map; [apply Hrep|]. wp_go.
    eapply (wp_st_pde s tl tm); try done; [set_solver|apply Hrep|]. intros s1 Hs1. wp_go.
    assert (ts_lists s1 = ts_lists s) as El by (rewrite (ps_same _ _ _ _ _ _ Hs1); done). rewrite El. eapply wp_ld_next; [done|].
    rewrite <- El. replace (upd_lists (ts_lists s1) s1) with s1 by (by destruct s1). cbn [le_next].
    eapply (IH fuel tm s1 tl); try done; [apply Hs1|by rewrite El|set_solver|simpl in Hf; lia|].
    intros s' Hs'. apply HQ. by apply (pdes_set_app [tm] l I w tl s s1 s').
Qed.

Lemma wp_update_all_pgdirs s tl I w (Q : unit → tms → Prop) :
  dirs_ok s tl → is_xlist (ts_lists s) tmap_list tl → locks (cpus (ts_vm s)) !! tmap_list_lock = Some SPIN_UNLOCKED →
  0 ≤ I < MAX_PDENTS → word w → (∀ s', pdes_set tl I w tl s s' → Q tt s') → wp (update_all_pgdirs I w) s Q.
Proof.
  intros Hd Hl Hlock HI Hw HQ. unfold update_all_pgdirs, on_cpu. wp_go. apply wp_spin_lock_irqsave; [done|]. wp_go.
  eapply wp_xlist_peek_first; [exact Hl|]. wp_go. set (s1 := upd_lists _ _).
  assert (dirs_ok s1 tl) as Hd1.
  { destruct Hd as [Dm Di]. split; [|done]. intros tm Ht. destruct (Dm tm Ht) as (v & d & []). exists v, d. by split. }
  eapply (wp_pgdirs_loop tl _ NULL s1 tl); try done; [apply Hl|apply Hl| |].
  - unfold search_fuel. cbn [ts_lists upd_lists upd_vm s1]. pose proof (seg_size _ _ _ _ (ix_nodup _ _ _ Hl) (ix_seg _ _ _ Hl)). lia.
  - intros s2 Hs2. wp_go. apply wp_spin_unlock_irqrstor.
    + rewrite (ps_same _ _ _ _ _ _ Hs2). simpl. rewrite lookup_insert_eq. by eexists.
    + apply HQ. destruct Hs2 as [E [Dm Di] P]. split.
      * rewrite E. unfold s1, upd_vm, upd_dirs, upd_lists. simpl. rewrite insert_insert_eq, insert_id by done.
        by destruct s as [[? [] ? ? ? ? ? ?]].
      * split; [|done]. intros tm Ht. destruct (Dm tm Ht) as (v & d & []). exists v, d. by split.
      * intros tm i Ht Hi. exact (P tm i Ht Hi).
Qed.

(** ** A new table *)

(** The page [p] at [a] became a page table of zeroes. *)
Record wired_page (a : Z) (p : vm_page) (x x' : vms) : Prop := {
  wp_inv : vmp_inv x';
  wp_cpus : cpus x' = cpus x;
  wp_pages : pages x' = <[a := with_state VM_PAGE_STATE_WIRED p]> (pages x);
  wp_zero : frames x' !! (ppn p * PAGE_SIZE) = Some zero_frame;
  wp_frames pa : pa ≠ ppn p * PAGE_SIZE → frames x' !! pa = frames x !! pa }.

(** What else stays when a table is added to map [tm]. *)
Record table_added (tl : list Z) (tm I : Z) s s' : Prop := {
  ta_page : ∃ a p, pages (ts_vm s) !! a = Some p ∧ (pstate p = VM_PAGE_STATE_FREE ∨ pstate p = VM_PAGE_STATE_CLEAR) ∧
    pages (ts_vm s') = <[a := with_state VM_PAGE_STATE_WIRED p]> (pages (ts_vm s)) ∧ table_at s' tm I = Some (ppn p);
  ta_view tm' va : tm' ∈ tl → word va → view s' tm' va = view s tm' va;
  ta_cpus : cpus (ts_vm s') = cpus (ts_vm s);
  ta_lists : ts_lists s' = ts_lists s;
  ta_win : ts_win s' = ts_win s;
  ta_tlb : ts_tlb s' = ts_tlb s;
  ta_maps v : ts_maps s !! tm = Some v → ts_maps s' = <[tm := with_count (λ c, c + 1) v]> (ts_maps s) }.

Section new_table.
Context (s : tms) (tl : list Z) (Lw : list (Z * Z)) (tm I w a : Z) (p : vm_page) (x : vms) (L : list Z) (s3 : tms).
Context (Hs : tms_ok s tl Lw) (Ht : tm ∈ tl) (HI : 0 ≤ I < MAX_PDENTS) (Hnone : table_at s tm I = None).
Context (Ha : pages (ts_vm s) !! a = Some p) (Hp : pstate p = VM_PAGE_STATE_FREE ∨ pstate p = VM_PAGE_STATE_CLEAR).
Context (Hx : wired_page a p (ts_vm s) x) (Hw : fget F_p w ≠ 0) (Hb : fget F_base w = ppn p).
Context (HL : ∀ tm', tm' ∈ tl → tm' ∈ L ↔ tm' = tm ∨ FIRST_KERNEL_PGDIR_ENTRY ≤ I).
Context (Hset : pdes_set L I w tl (upd_vm x s) s3).

Lemma new_table_at tm' i : tm' ∈ tl → 0 ≤ i < MAX_PDENTS →
  table_at s3 tm' i = if decide (tm' ∈ L ∧ i = I) then Some (ppn p) else table_at s tm' i.
Proof.
  intros Ht' Hi. unfold table_at. rewrite (ps_pde _ _ _ _ _ _ Hset tm' i Ht' Hi). case_decide; [|done].
  simpl. rewrite (proj2 (Z.eqb_neq _ _)) by done. by rewrite Hb.
Qed.

Lemma new_table_vm : ts_vm s3 = x.
Proof. by rewrite (ps_same _ _ _ _ _ _ Hset). Qed.

(** No table of [s] is the new one. *)
Lemma new_table_fresh tm' i b : tm' ∈ tl → 0 ≤ i < MAX_PDENTS → table_at s tm' i = Some b → b ≠ ppn p.
Proof.
  intros Ht' Hi E ->. destruct (to_table _ _ _ Hs _ _ _ Ht' Hi E) as (a' & p' & Ha' & Ep & Est & _).
  pose proof (to_vm _ _ _ Hs) as Hv. destruct (vi_addr _ _ _ Hv Ha) as (j & _ & -> & Ej & _), (vi_addr _ _ _ Hv Ha') as (j' & _ & -> & Ej' & _).
  assert (j' = j) as -> by lia. assert (p' = p) as -> by congruence. rewrite Est in Hp. by destruct Hp.
Qed.

Lemma new_table_kernel tm' : tm' ∈ tl → tm' ∈ L → table_at s tm' I = None.
Proof.
  intros Ht' HL'. apply HL in HL' as [->|Hk]; [done| |done]. rewrite (table_kernel s tl Lw tm tm' I); [done..|lia].
Qed.

Lemma new_table_view tm' va : tm' ∈ tl → word va → view s3 tm' va = view s tm' va.
Proof.
  intros Ht' Hva. destruct (word_split va Hva) as (Hi & Hj & _). unfold view. rewrite new_table_at, new_table_vm by done.
  destruct (decide (tm' ∈ L ∧ _)) as [[HL' E]|Hno].
  - rewrite E, (new_table_kernel tm') by done. simpl. rewrite (wp_zero _ _ _ _ Hx). simpl. by rewrite word_at_zero.
  - destruct (table_at s tm' (VADDR_TO_PDENT va)) as [b|] eqn:E; simpl; [|done].
    rewrite (wp_frames _ _ _ _ Hx); [done|]. pose proof (new_table_fresh _ _ _ Ht' Hi E). unfold PAGE_SIZE. lia.
Qed.

Lemma new_table_ok : tms_ok s3 tl Lw.
Proof.
  pose proof (ps_same _ _ _ _ _ _ Hset) as E3. pose proof (ps_ok _ _ _ _ _ _ Hset) as [Dm Di]. pose proof new_table_vm as Ev.
  pose proof Hx as [X1 X2 X3 X4 X5].
  assert (∀ tm' i b, tm' ∈ tl → 0 ≤ i < MAX_PDENTS → table_at s3 tm' i = Some b →
    b = ppn p ∧ i = I ∧ (tm' = tm ∨ FIRST_KERNEL_PGDIR_ENTRY ≤ I) ∨ b ≠ ppn p ∧ table_at s tm' i = Some b) as Htab.
  { intros tm' i b Ht' Hi. rewrite new_table_at by done. case_decide as E.
    - intros [= <-]. left. destruct E as [?%HL ->]; done.
    - intros Eb. right. split; [|done]. by eapply new_table_fresh. }
  pose proof Hs as [Ovm Opl Oll Ofr Ocl Oli Oma Odi Oke Okd Ota Oap Owi Osl]. split; rewrite ?Ev; try done.
  - unfold unlocked. by rewrite X2.
  - by rewrite X2.
  - intros pa fr. destruct (decide (pa = ppn p * PAGE_SIZE)) as [->|Hne].
    + rewrite X4. intros [= <-]. apply zero_frame_ok.
    + rewrite X5 by done. apply Ofr.
  - intros a' p' Ha' Est. unfold zeroed. destruct (decide (ppn p' = ppn p)) as [->|Hne]; [done|].
    rewrite X5 by (unfold PAGE_SIZE; lia). rewrite X3 in Ha'. apply lookup_insert_Some in Ha' as [[<- <-]|[_ Ha']]; [done|].
    by apply (Ocl a').
  - by rewrite E3.
  - intros tm1 tm2 i Ht1 Ht2 Hi. rewrite !(ps_pde _ _ _ _ _ _ Hset) by (done || (change FIRST_KERNEL_PGDIR_ENTRY with 768 in *; lia)).
    destruct (decide (i = I)) as [->|Hne].
    + rewrite !decide_True by (split; [apply HL; tauto|done]). done.
    + rewrite !decide_False by tauto. exact (Oke tm1 tm2 i Ht1 Ht2 Hi).
  - destruct Okd as (km & kv & ? & ? & ?). exists km, kv. by rewrite E3.
  - intros tm' i b Ht' Hi [(-> & -> & _)|[Hne Eb]]%Htab; try done.
    + exists a, (with_state VM_PAGE_STATE_WIRED p). rewrite X3, lookup_insert_eq, X4. by split_and!.
    + destruct (Ota tm' i b Ht' Hi Eb) as (a' & p' & Ha' & Ep & Est & Hfr). exists a', p'.
      rewrite X3, lookup_insert_ne by (intros ->; assert (p' = p) as -> by congruence; rewrite Est in Hp; by destruct Hp). split_and!; try done.
      rewrite X5 by (unfold PAGE_SIZE; lia). done.
  - intros tm1 tm2 i1 i2 b H1 H2 Hi1 Hi2 [(Eb1 & -> & O1)|[Hn1 Eb1]]%Htab [(Eb2 & -> & O2)|[Hn2 Eb2]]%Htab; try done.
    + split; [done|]. destruct O1 as [->|?], O2 as [->|?]; tauto.
    + by eapply Oap.
  - by rewrite E3.
  - by rewrite E3.
Qed.
End new_table.

(** The entry of a page table. *)
Lemma pgtable_entry pa protection : 0 ≤ pa < 2 ^ 20 →
  fget F_p (put_pgtable_in_pgdir (pa * PAGE_SIZE) protection) = 1 ∧
  fget F_base (put_pgtable_in_pgdir (pa * PAGE_SIZE) protection) = pa ∧
  word (put_pgtable_in_pgdir (pa * PAGE_SIZE) protection).
Proof.
  intros Hpa. assert (ADDR_SHIFT (pa * PAGE_SIZE) = pa) as E.
  { unfold ADDR_SHIFT, PAGE_SHIFT. rewrite Z.shiftr_div_pow2 by done. by apply Z.div_mul. }
  unfold put_pgtable_in_pgdir. rewrite E. field_simpl. split_and!; [done|by apply uwrap_small|].
  do 4 (apply word_fset; [by_decide|]). apply word_0.
Qed.

(** A clear page, wired. *)
Lemma wp_take_table s tl Lw a0 p0 (Q : Z → vms → Prop) : tms_ok s tl Lw →
  pages (ts_vm s) !! a0 = Some p0 → pstate p0 = VM_PAGE_STATE_FREE ∨ pstate p0 = VM_PAGE_STATE_CLEAR →
  (∀ a p x', pages (ts_vm s) !! a = Some p → pstate p = VM_PAGE_STATE_FREE ∨ pstate p = VM_PAGE_STATE_CLEAR →
    wired_page a p (ts_vm s) x' → Q a x') →
  wp (vm_page_alloc VM_PAGE_STATE_CLEAR) (ts_vm s) (λ a x, wp (vm_page_set_state a VM_PAGE_STATE_WIRED) x (λ _, Q a)).
Proof.
  intros Hs H0 Hp0 HQ. pose proof (to_vm _ _ _ Hs) as Hi. eapply wp_vm_page_alloc; try done.
  { apply Hs. } { by right. }
  intros a p x1 Ha Hp [I1 C1 _ P1 F1].
  eapply (wp_vm_page_set_state x1 a (busied p)); [done|unfold unlocked; rewrite C1; apply Hs|by rewrite P1, lookup_insert_eq|by_decide|].
  intros x2 I2 [_ _ _ C2 F2] P2. eapply (HQ a p); [done|destruct Hp as [->|[_ ->]]; auto|].
  split; [done|congruence| | |].
  - rewrite P2, P1, insert_insert_eq. done.
  - rewrite F2, F1. destruct Hp as [Ec|[_ Ec]]; rewrite Ec; simpl; [|by rewrite lookup_insert_eq].
    by apply (to_clear _ _ _ Hs a p).
  - intros pa Hne. rewrite F2, F1. case_match; [|done]. by rewrite lookup_insert_ne.
Qed.

Lemma with_count_map_ok s tl Lw tm v f : tms_ok s tl Lw → tm ∈ tl → ts_maps s !! tm = Some v → tms_ok (put_map tm (with_count f v) s) tl Lw.
Proof.
  intros Hs Ht Hv. destruct (to_map _ _ _ Hs tm Ht) as (v' & d & [Hv' _ _ _ Hc [Hn Hm]]). assert (v' = v) as -> by congruence.
  eapply put_map_ok; try done. apply word_u32.
Qed.

Lemma wp_alloc_pgtable s tl Lw tm v I protection a0 p0 (Q : unit → tms → Prop) :
  tms_ok s tl Lw → tm ∈ tl → ts_maps s !! tm = Some v → 0 ≤ I < MAX_PDENTS → table_at s tm I = None →
  pages (ts_vm s) !! a0 = Some p0 → pstate p0 = VM_PAGE_STATE_FREE ∨ pstate p0 = VM_PAGE_STATE_CLEAR →
  (∀ s', tms_ok s' tl Lw → table_added tl tm I s s' → Q tt s') → wp (alloc_pgtable tm (tm_pgdir_virt v) I protection) s Q.
Proof.
  intros Hs Ht Hv HI Hnone H0 Hp0 HQ. unfold alloc_pgtable. wp_go.
  eapply wp_mono; [eapply (wp_take_table s tl Lw _ _ (λ a x, ∃ p, pages (ts_vm s) !! a = Some p ∧
    (pstate p = VM_PAGE_STATE_FREE ∨ pstate p = VM_PAGE_STATE_CLEAR) ∧ wired_page a p (ts_vm s) x)); eauto|].
  intros a x1 Hset. cbv beta in Hset |- *. wp_go. eapply wp_mono; [exact Hset|]. intros _ x (p & Ha & Hp & Hx).
  cbv beta. change (upd_vm x (upd_vm x1 s)) with (upd_vm x s). clear x1 Hset. wp_go.
  eapply wp_ld_page; [cbn [ts_vm upd_vm]; rewrite (wp_pages _ _ _ _ Hx); apply lookup_insert_eq|]. wp_go. cbn [ppn with_state].
  replace (upd_vm (ts_vm (upd_vm x s)) (upd_vm x s)) with (upd_vm x s) by done.
  pose proof (to_vm _ _ _ Hs) as Hi. rewrite uwrap_small by (by eapply vi_frame_addr).
  assert (0 ≤ ppn p < 2 ^ 20) as Hppn.
  { destruct (vi_addr _ _ _ Hi Ha) as (j & ? & _ & ? & _). pose proof (vi_geom _ Hi). lia. }
  set (prot := Z.lor _ _). destruct (pgtable_entry (ppn p) prot Hppn) as (Ew1 & Ew2 & Ew3).
  set (w := put_pgtable_in_pgdir _ _) in *.
  assert (dirs_ok (upd_vm x s) tl) as Hd.
  { destruct (tms_dirs_ok _ _ _ Hs) as [Dm Di]. split; [|done]. intros tm' Ht'. destruct (Dm tm' Ht') as (u & d & []). exists u, d. by split. }
  eapply (wp_st_pde _ tl tm v I w); try done. intros s3 Hset. wp_go.
  (* the rest, given the directories *)
  assert (∀ L s4, (∀ tm', tm' ∈ tl → tm' ∈ L ↔ tm' = tm ∨ FIRST_KERNEL_PGDIR_ENTRY ≤ I) →
    pdes_set L I w tl (upd_vm x s) s4 → wp (add_count tm 1) s4 Q) as Hrest.
  { intros L s4 HL H4. pose proof (pdes_set_map _ _ _ _ _ _ tm v H4 Hv) as Hv4.
    assert (fget F_p w ≠ 0) as Ewp by lia.
    pose proof (new_table_ok s tl Lw tm I w a p x L s4 Hs HI Ha Hp Hx Ewp Ew2 HL H4) as Hs4.
    unfold add_count. eapply wp_st_map; [done|]. apply HQ; [by apply with_count_map_ok|].
    pose proof (ps_same _ _ _ _ _ _ H4) as E4. split.
    - exists a, p. split_and!; try done; [rewrite E4; apply Hx|].
      unfold table_at. rewrite (put_map_pde _ _ v) by done. rewrite (ps_pde _ _ _ _ _ _ H4) by done.
      rewrite decide_True by (split; [apply HL; auto|done]). simpl. by rewrite Ew1, Ew2.
    - intros tm' va Ht' Hva. rewrite (put_map_view _ _ v) by done.
      by apply (new_table_view s tl Lw tm I w a p x L s4 Hs Ht HI Hnone Ha Hp Hx Ewp Ew2 HL H4).
    - rewrite E4. apply Hx.
    - by rewrite E4.
    - by rewrite E4.
    - by rewrite E4.
    - intros u Hu. simplify_eq. by rewrite E4. }
  change (FIRST_KERNEL_PGDIR_ENTRY + NUM_KERNEL_PGDIR_ENTRIES) with MAX_PDENTS.
  rewrite (proj2 (Z.ltb_lt I _)) by lia. rewrite andb_true_r. unfold when. destruct (Z.leb_spec FIRST_KERNEL_PGDIR_ENTRY I) as [Hk|Hk].
  - wp_go. eapply wp_ld_pde; [by eapply pdes_set_map|by rewrite (ps_pde _ _ _ _ _ _ Hset), decide_True by (split; [left|done] || done)|].
    pose proof (ps_same _ _ _ _ _ _ Hset) as E3.
    eapply (wp_update_all_pgdirs s3 tl); [apply Hset|rewrite E3; apply Hs|rewrite E3; simpl; rewrite (wp_cpus _ _ _ _ Hx); apply Hs|done..|].
    intros s4 H4. eapply (Hrest ([tm] ++ tl)); [|by eapply pdes_set_app].
    intros tm' Ht'. set_solver.
  - wp_go. eapply (Hrest [tm]); [|done]. intros tm' Ht'. rewrite list_elem_of_singleton. intuition lia.
Qed.
End alloc.
