(* ===== verification/TransMapMap.v ===== *)
(** * What mapping a page does

    [map_tmap] as a whole: the entry of the address, the counters and the invalidation cache,
    after the page table has been provided if there was none. *)

From stdpp Require Import gmap list.
From S2P Require Import Spinlock Prelude XList VmPage VmPageSpec Alloc Mmu TransMap TransMapSpec TransMapWalk TransMapAlloc.
#[local] Open Scope Z_scope.

Section map.
Context {A : Allocator} {W : Window} {WL : WindowLaws W}.
Implicit Types s : tms.

(** The entry that was filled in. *)
Lemma page_entry_facts va pa protection : 0 ≤ pa < 2 ^ 32 →
  fget F_base (page_entry va pa protection) = pa / PAGE_SIZE ∧ fget F_p (page_entry va pa protection) = 1 ∧
  word (page_entry va pa protection).
Proof.
  intros Hpa. unfold page_entry, ADDR_SHIFT, PAGE_SHIFT. rewrite Z.shiftr_div_pow2 by done. change (2 ^ 12) with PAGE_SIZE.
  assert (uwrap (f_len F_base) (pa / PAGE_SIZE) = pa / PAGE_SIZE) as E.
  { apply uwrap_small. unfold PAGE_SIZE, F_base. cbn [f_len]. Z.div_mod_to_equations. lia. }
  case_match; field_simpl; (split; [done|split; [done|]]); repeat (apply word_fset; [by_decide|]); apply word_0.
Qed.

(** A page of frame [b]. *)
Definition has_page s (b : Z) : Prop := ∃ a p, pages (ts_vm s) !! a = Some p ∧ ppn p = b.

Lemma has_page_array s b : vmp_inv (ts_vm s) → has_page s b ↔ in_array s b.
Proof.
  intros Hi. unfold has_page, in_array. split.
  - intros (a & p & Ha & <-). destruct (vi_addr _ _ _ Hi Ha) as (i & ? & _ & -> & _). lia.
  - intros Hb. destruct (proj2 (vi_dom _ Hi (page_of s b))) as [p Hp].
    { exists (b - physical_page_offset (ts_vm s)). split; [lia|done]. }
    exists (page_of s b), p. split; [done|]. unfold page_of in Hp. destruct (vi_page _ Hi _ _ Hp). lia.
Qed.

Lemma page_unique (x : vms) a a' p p' : vmp_inv x → pages x !! a = Some p → pages x !! a' = Some p' → ppn p = ppn p' → a = a' ∧ p = p'.
Proof.
  intros Hi Ha Ha' E. destruct (vi_addr _ _ _ Hi Ha) as (j & _ & -> & Ej & _), (vi_addr _ _ _ Hi Ha') as (j' & _ & -> & Ej' & _).
  assert (j' = j) as -> by lia. split; [done|congruence].
Qed.

(** A page with one mapping more, if it is that of frame [b]. *)
Definition wired_once (b : Z) (p : vm_page) : vm_page := if ppn p =? b then with_wire (λ c, c + 1) p else p.

Record entry_put (tl : list Z) (tm va e : Z) (f : tmap → tmap) s s' : Prop := {
  ep_view tm' va' : tm' ∈ tl → word va' →
    view s' tm' va' = if decide (va' / PAGE_SIZE = va / PAGE_SIZE ∧ (tm' = tm ∨ KERNEL_BASE ≤ va)) then e else view s tm' va';
  ep_pages : ∀ a p, pages (ts_vm s) !! a = Some p → pages (ts_vm s') !! a = Some (wired_once (fget F_base e) p);
  ep_cpus : cpus (ts_vm s') = cpus (ts_vm s);
  ep_lists : ts_lists s' = ts_lists s;
  ep_tlb : ts_tlb s' = ts_tlb s;
  ep_slots : win_slots (ts_win s') = win_slots (ts_win s);
  ep_maps v : ts_maps s !! tm = Some v → ts_maps s' = <[tm := f v]> (ts_maps s) }.

Lemma wp_put_entry s tl Lw tm v b va pa protection (Q : Z → tms → Prop) :
  let e := page_entry va pa protection in
  tms_ok s tl Lw → Z.of_nat (length Lw) < win_slots (ts_win s) → tm ∈ tl → ts_maps s !! tm = Some v → word va → 0 ≤ pa < 2 ^ 32 →
  has_page s (pa / PAGE_SIZE) → table_at s tm (VADDR_TO_PDENT va) = Some b →
  (∀ s', tms_ok s' tl Lw → entry_put tl tm va e (λ v, with_count (λ c, c + 1) (noted va v)) s s' → Q NO_ERROR s') →
  wp (pde ← ld_pde (tm_pgdir_virt v) (VADDR_TO_PDENT va);
      pgtbl ← get_pgtable pde;
      st_pte pgtbl (VADDR_TO_PTENT va) e;;
      e ← ld_pte pgtbl (VADDR_TO_PTENT va);
      page ← zoom ts_vm upd_vm (vm_page_lookup (fget F_base e));
      if page =? NULL then panic
      else
        add_wire page 1;;
        put_physical_page_tmap pgtbl;;
        note_invalid tm va;;
        add_count tm 1;;
        mret NO_ERROR) s Q.
Proof.
  intros e Hs Hlen Ht Hv Hva Hpa Hpage Hb HQ. destruct (word_split va Hva) as (HI & Hi & _).
  destruct (page_entry_facts va pa protection Hpa) as (Eb & _ & Hwe). fold e in Eb, Hwe.
  destruct (to_map _ _ _ Hs tm Ht) as (v' & d & Hrep). assert (v' = v) as -> by (destruct Hrep; congruence).
  destruct (map_rep_pde s tm v d _ Hrep HI) as (pde & Hpde & _ & _).
  assert (fget F_base pde = b) as Epb.
  { unfold table_at in Hb. rewrite Hpde in Hb. simpl in Hb. case_match; congruence. }
  destruct (table_frame Hs tm _ b Ht HI Hb) as (_ & fr & Hfr & Hok). destruct (word_at_some fr (VADDR_TO_PTENT va) Hok Hi) as (e0 & He0 & _).
  wp_go. eapply wp_ld_pde; [done..|]. wp_go. eapply (wp_get_pgtable s tl Lw _ tm (VADDR_TO_PDENT va) b); try done. intros pgtbl w Hw Hsl Hwf.
  wp_go. eapply (wp_st_pte _ pgtbl b _ fr e0); [done..|]. wp_go.
  eapply (wp_ld_pte _ pgtbl b _ (put_word (VADDR_TO_PTENT va) e fr) e); [done|simpl; apply lookup_insert_eq| |].
  { rewrite word_at_put by done. by rewrite decide_True. }
  wp_go. rewrite Eb. apply wp_lookup_array; [apply vmp_inv_frames, (to_vm _ _ _ Hs)|exact (proj1 (has_page_array s _ (to_vm _ _ _ Hs)) Hpage)|].
  intros p a Ha Ep Hnn. rewrite Hnn. wp_go. eapply wp_add_wire; [exact Ha|]. wp_go.
  set (s1 := put_page a _ _). assert (tms_ok s1 tl ((pgtbl, b * PAGE_SIZE) :: Lw)) as Hs1.
  { apply put_wire_ok; [|exact Ha]. assert (tms_ok (upd_win w s) tl ((pgtbl, b * PAGE_SIZE) :: Lw)) as Hsw by (eapply upd_win_ok; done).
    exact (put_entry_ok _ _ _ tm _ b (VADDR_TO_PTENT va) e fr Hsw Ht HI Hb Hfr). }
  eapply wp_put_window; [done|]. intros w2 Hs2 Hsl2. set (s2 := upd_win w2 s1) in *. wp_go.
  unfold note_invalid, add_count. eapply wp_st_map; [exact Hv|]. fold (noted va v). wp_go.
  eapply wp_st_map; [simpl; apply lookup_insert_eq|]. wp_go. fold (noted va v).
  destruct (to_map _ _ _ Hs2 tm Ht) as (v2 & d2 & [Hv2 _ _ _ Hc2 [Hn2 Hm2]]). assert (v2 = v) as -> by (simpl in Hv2; congruence).
  destruct (noted_ok va v) as [(Hc3 & Hn3 & Hm3) Hd3]; [done|].
  assert (tms_ok (put_map tm (noted va v) s2) tl Lw) as Hs3 by (eapply (put_map_ok s2 _ _ _ v); try done; congruence).
  apply HQ; [by eapply with_count_map_ok; [done..|simpl; apply lookup_insert_eq]|]. split; try done.
  - intros tm' va' Ht' Hva'. rewrite (put_map_view _ _ (noted va v)), (put_map_view _ _ v) by (done || (simpl; apply lookup_insert_eq)).
    transitivity (view (put_entry b (VADDR_TO_PTENT va) e fr s) tm' va'); [done|].
    rewrite (put_entry_view s tl Lw tm (VADDR_TO_PDENT va) b (VADDR_TO_PTENT va) e fr tm' va') by done.
    pose proof (same_entry va' va Hva' Hva) as Hse. pose proof (kernel_entry va Hva) as Hke.
    apply decide_ext. tauto.
  - intros a' p' Ha'. rewrite Eb. change (<[a := with_wire (λ c, c + 1) p]> (pages (ts_vm s)) !! a' = Some (wired_once (pa / PAGE_SIZE) p')).
    change (pages (ts_vm s) !! a = Some p) in Ha. unfold wired_once. destruct (Z.eqb_spec (ppn p') (pa / PAGE_SIZE)) as [E|Hne].
    + destruct (page_unique _ _ _ _ _ (to_vm _ _ _ Hs) Ha Ha') as [<- <-]; [lia|]. apply lookup_insert_eq.
    + rewrite lookup_insert_ne; [done|]. intros <-. assert (p' = p) as -> by congruence. lia.
  - etransitivity; [exact Hsl2|exact Hsl].
  - intros u Hu. assert (u = v) as -> by congruence. simpl. by rewrite insert_insert_eq.
Qed.

(** A page a table can be made of. *)
Definition has_free_page s : Prop :=
  ∃ a p, pages (ts_vm s) !! a = Some p ∧ (pstate p = VM_PAGE_STATE_FREE ∨ pstate p = VM_PAGE_STATE_CLEAR).

(** The number of units [map_tmap] adds to [map_count]. *)
Definition map_units s (tm va : Z) : Z := if table_at s tm (VADDR_TO_PDENT va) then 1 else 2.

(** What a successful [map_tmap] does. *)
Record page_mapped (tl : list Z) (tm va pa e : Z) s s' : Prop := {
  pm_view tm' va' : tm' ∈ tl → word va' →
    view s' tm' va' = if decide (va' / PAGE_SIZE = va / PAGE_SIZE ∧ (tm' = tm ∨ KERNEL_BASE ≤ va)) then e else view s tm' va';
  pm_table : is_Some (table_at s' tm (VADDR_TO_PDENT va));
  pm_pages : ∀ a p, pages (ts_vm s) !! a = Some p → ∃ p', pages (ts_vm s') !! a = Some p' ∧ ppn p' = ppn p ∧
    wire_count p' = (if ppn p =? pa / PAGE_SIZE then u32 (wire_count p + 1) else wire_count p);
  pm_cpus : cpus (ts_vm s') = cpus (ts_vm s);
  pm_tlb : ts_tlb s' = ts_tlb s;
  pm_slots : win_slots (ts_win s') = win_slots (ts_win s);
  pm_other tm' : tm' ≠ tm → ts_maps s' !! tm' = ts_maps s !! tm';
  pm_map v : ts_maps s !! tm = Some v → ∃ v', ts_maps s' !! tm = Some v' ∧
    tm_map_count v' = u32 (tm_map_count v + map_units s tm va) ∧
    tm_num_invalidate_pages v' = tm_num_invalidate_pages (noted va v) ∧
    tm_pages_to_invalidate v' = tm_pages_to_invalidate (noted va v) }.

Lemma table_at_view s tl Lw tm va : tms_ok s tl Lw → tm ∈ tl → word va → fget F_p (view s tm va) ≠ 0 →
  is_Some (table_at s tm (VADDR_TO_PDENT va)).
Proof.
  intros _ _ _. unfold view. destruct (table_at s tm _); [by eexists|]. simpl. by rewrite fget_0.
Qed.

Lemma wp_map_tmap s tl Lw tm v va pa protection (Q : Z → tms → Prop) :
  let e := page_entry va pa protection in
  tms_ok s tl Lw → Z.of_nat (length Lw) < win_slots (ts_win s) → tm ∈ tl → ts_maps s !! tm = Some v → word va → 0 ≤ pa < 2 ^ 32 →
  has_page s (pa / PAGE_SIZE) → (table_at s tm (VADDR_TO_PDENT va) = None → has_free_page s) →
  (∀ s', tms_ok s' tl Lw → page_mapped tl tm va pa e s s' → Q NO_ERROR s') → wp (map_tmap tm va pa protection) s Q.
Proof.
  intros e Hs Hlen Ht Hv Hva Hpa Hpage Hfree HQ. destruct (word_split va Hva) as (HI & _ & _).
  destruct (page_entry_facts va pa protection Hpa) as (Eb & Ep & _). fold e in Eb, Ep.
  destruct (to_map _ _ _ Hs tm Ht) as (v' & d & Hrep). assert (v' = v) as -> by (destruct Hrep; congruence).
  destruct (map_rep_pde s tm v d _ Hrep HI) as (pde & Hpde & _ & _).
  assert (∀ s', tms_ok s' tl Lw → view s' tm va = e → is_Some (table_at s' tm (VADDR_TO_PDENT va))) as Htab.
  { intros s' Hs' Ev. eapply table_at_view; try done. rewrite Ev. lia. }
  unfold map_tmap. wp_go. eapply wp_ld_map; [done|]. wp_go. eapply wp_ld_pde; [done..|]. wp_go. unfold when.
  destruct (fget F_p pde =? 0) eqn:Epd.
  - assert (table_at s tm (VADDR_TO_PDENT va) = None) as Hnone by (unfold table_at; rewrite Hpde; simpl; by rewrite Epd).
    destruct (Hfree Hnone) as (a0 & p0 & H0 & Hp0). wp_go. eapply (wp_alloc_pgtable s tl Lw); try done.
    intros s1 Hs1 [(a & p & Ha & Hp & EP & Eb1) Hview Hcpus Hlists Hwin Htlb Hmaps]. specialize (Hmaps v Hv).
    eapply (wp_put_entry s1 tl Lw tm (with_count (λ c, c + 1) v) (ppn p)); try done; [by rewrite Hwin|by rewrite Hmaps, lookup_insert_eq| |].
    { destruct Hpage as (ap & pp & Hap & Eap). destruct (decide (ap = a)) as [->|Hne].
      - exists a, (with_state VM_PAGE_STATE_WIRED p). rewrite EP, lookup_insert_eq. split; [done|]. simpl. congruence.
      - exists ap, pp. by rewrite EP, lookup_insert_ne. }
    intros s2 Hs2 [Pv Pp Pc Pl Pt Ps Pm]. apply HQ; [done|].
    assert (∀ tm' va', tm' ∈ tl → word va' →
      view s2 tm' va' = if decide (va' / PAGE_SIZE = va / PAGE_SIZE ∧ (tm' = tm ∨ KERNEL_BASE ≤ va)) then e else view s tm' va') as Hv2.
    { intros tm' va' Ht' Hva'. by rewrite Pv, Hview. }
    specialize (Pm (with_count (λ c, c + 1) v)). rewrite Hmaps, lookup_insert_eq in Pm. specialize (Pm eq_refl). rewrite insert_insert_eq in Pm.
    split; try congruence; [done| | | |].
    + apply Htab; [done|]. rewrite Hv2 by done. by rewrite decide_True by auto.
    + intros a' p' Ha'. assert (pages (ts_vm s1) !! a' = Some (if decide (a' = a) then with_state VM_PAGE_STATE_WIRED p' else p')) as Ha1.
      { rewrite EP. destruct (decide (a' = a)) as [->|Hne]; [rewrite lookup_insert_eq; congruence|by rewrite lookup_insert_ne]. }
      apply Pp in Ha1. eexists. split; [exact Ha1|]. fold e. rewrite Eb. unfold wired_once. destruct (decide (a' = a)); cbn [ppn with_state]; case_match; done.
    + intros tm' Hne. by rewrite Pm, lookup_insert_ne.
    + intros u Hu. assert (u = v) as -> by congruence. rewrite Pm, lookup_insert_eq. eexists. split; [done|]. split; [|done].
      unfold map_units. rewrite Hnone. simpl. rewrite uwrap_add_l. f_equal. lia.
  - assert (table_at s tm (VADDR_TO_PDENT va) = Some (fget F_base pde)) as Hb by (unfold table_at; rewrite Hpde; simpl; by rewrite Epd).
    apply wp_ret. eapply (wp_put_entry s tl Lw tm v); try done. intros s2 Hs2 [Pv Pp Pc Pl Pt Ps Pm]. apply HQ; [done|]. specialize (Pm v Hv).
    split; try congruence; [done| | | |].
    + apply Htab; [done|]. rewrite Pv by done. by rewrite decide_True by auto.
    + intros a' p' Ha'%Pp. eexists. split; [exact Ha'|]. fold e. rewrite Eb. unfold wired_once. case_match; done.
    + intros tm' Hne. by rewrite Pm, lookup_insert_ne.
    + intros u Hu. assert (u = v) as -> by congruence. rewrite Pm, lookup_insert_eq. eexists. split; [done|]. split; [|done].
      unfold map_units. rewrite Hb. done.
Qed.
End map.
