(* ===== verification/TransMapLock.v ===== *)
(** * Locking, flushing and querying translation maps

    A map is used between [lock_tmap], which empties the invalidation cache, and
    [unlock_tmap], which has the look-aside buffer forget the pages noted meanwhile: one by
    one when the cache held them all, otherwise with the whole buffer. *)

From stdpp Require Import gmap list.
From S2P Require Import Spinlock Prelude XList VmPage VmPageSpec Alloc Mmu TransMap TransMapSpec TransMapWalk TransMapAlloc TransMapMap.
#[local] Open Scope Z_scope.

(** ** The invalidation cache *)

(** What [flush_tmap] asks for. *)
Definition flush_ops (v : tmap) : list tlb_op :=
  let n := tm_num_invalidate_pages v in
  if n <=? 0 then []
  else if PAGE_INVALIDATE_CACHE_SIZE <? n then [FlushAll]
  else map FlushPage (take (Z.to_nat n) (tm_pages_to_invalidate v)).

(** The cache of [v] holds the addresses [l], the oldest first, as far as there is room. *)
Definition caches (v : tmap) (l : list Z) : Prop :=
  tm_num_invalidate_pages v = Z.of_nat (length l) ∧
  length (tm_pages_to_invalidate v) = Z.to_nat PAGE_INVALIDATE_CACHE_SIZE ∧
  take (length l) (tm_pages_to_invalidate v) = take (Z.to_nat PAGE_INVALIDATE_CACHE_SIZE) l.

Lemma caches_noted v l va : caches v l → Z.of_nat (length l) + 1 < 2 ^ 32 → caches (noted va v) (l ++ [va]).
Proof.
  intros (En & El & Et) Hl. unfold caches, noted. rewrite En. cbn [with_invalid tm_num_invalidate_pages tm_pages_to_invalidate].
  rewrite length_app. cbn [length]. split; [rewrite uwrap_small; lia|]. unfold PAGE_INVALIDATE_CACHE_SIZE in *.
  destruct (Z.ltb_spec (Z.of_nat (length l)) 64) as [Hlt|Hge].
  - split; [by rewrite length_insert|]. rewrite Nat2Z.id.
    rewrite (take_ge (l ++ [va])) by (rewrite length_app; simpl; lia). rewrite (take_ge l) in Et by lia.
    rewrite Nat.add_1_r. rewrite (take_S_r _ _ va) by (apply list_lookup_insert_eq; lia). rewrite take_insert_ge by lia. by rewrite Et.
  - split; [done|]. rewrite take_ge in Et |- * by lia. rewrite take_app_le by lia. done.
Qed.

Lemma caches_foldl (h : Z → tmap → tmap) (ps : list (Z * Z)) : (∀ va v l, caches v l → Z.of_nat (length l) + 1 < 2 ^ 32 → caches (h va v) (l ++ [va])) →
  ∀ v l, caches v l → Z.of_nat (length l + length ps) < 2 ^ 32 → caches (foldl (λ v ve, h ve.1 v) v ps) (l ++ ps.*1).
Proof.
  intros Hh. induction ps as [|ve ps IH]; intros v l Hv Hl; [by rewrite app_nil_r|].
  cbn [foldl fmap list_fmap]. change (l ++ ve.1 :: ps.*1) with (l ++ [ve.1] ++ ps.*1). rewrite app_assoc. cbn [length] in Hl.
  apply IH; [apply Hh; [done|lia]|]. rewrite length_app. simpl. lia.
Qed.

(** A request that makes the buffer forget the page of [va]. *)
Definition forgets (op : tlb_op) (va : Z) : Prop :=
  match op with FlushPage va' => va' / PAGE_SIZE = va / PAGE_SIZE | FlushAll => True end.

Lemma flush_ops_forget v l va : caches v l → va ∈ l → ∃ op, op ∈ flush_ops v ∧ forgets op va.
Proof.
  intros (En & El & Et) Hva. unfold flush_ops. rewrite En. assert (0 < length l)%nat by (destruct l; [by apply not_elem_of_nil in Hva|simpl; lia]).
  rewrite (proj2 (Z.leb_gt _ _)) by lia. unfold PAGE_INVALIDATE_CACHE_SIZE in *.
  destruct (Z.ltb_spec 64 (Z.of_nat (length l))).
  - exists FlushAll. split; [by left|done].
  - rewrite Nat2Z.id, Et, take_ge by lia. exists (FlushPage va). split; [|done]. apply list_elem_of_fmap. eauto.
Qed.

Lemma flush_ops_nil v : caches v [] → flush_ops v = [].
Proof. intros (En & _). unfold flush_ops. by rewrite En. Qed.

Lemma flush_ops_small v l : caches v l → Z.of_nat (length l) ≤ PAGE_INVALIDATE_CACHE_SIZE → flush_ops v = map FlushPage l.
Proof.
  unfold PAGE_INVALIDATE_CACHE_SIZE. intros (En & _ & Et) Hl. unfold flush_ops. rewrite En. destruct l as [|va l]; [done|].
  rewrite (proj2 (Z.leb_gt _ _)) by (simpl; lia). unfold PAGE_INVALIDATE_CACHE_SIZE in *.
  rewrite (proj2 (Z.ltb_ge _ _)) by done. by rewrite Nat2Z.id, Et, take_ge by lia.
Qed.

Section lock.
Context {A : Allocator} {W : Window} {WL : WindowLaws W}.
Implicit Types s : tms.

(** ** Locking *)

(** The lock of the map is free, and none of the others. *)
Definition lock_free s (tm : Z) : Prop :=
  locks (cpus (ts_vm s)) !! tmap_lock tm = Some SPIN_UNLOCKED ∧ tmap_lock tm ≠ page_lock ∧ tmap_lock tm ≠ tmap_list_lock.

Definition set_cpu (c : cpu) s : tms := upd_vm (upd_cpu c (ts_vm s)) s.

Lemma set_cpu_ok s tl Lw c : tms_ok s tl Lw → locks c !! page_lock = Some SPIN_UNLOCKED →
  locks c !! tmap_list_lock = Some SPIN_UNLOCKED → tms_ok (set_cpu c s) tl Lw.
Proof.
  intros [? ? ? ? ? ? Hmap ? ? ? ? ? ? ?] Hp Hl. split; try done; simpl; [by apply vmp_inv_cpu|].
  intros tm Ht. destruct (Hmap tm Ht) as (v & d & []). exists v, d. by split.
Qed.

Definition tmap_locked (tm : Z) (c : cpu) : cpu := Cpu (<[tmap_lock tm := SPIN_LOCKED]> (locks c)) (irqs c).

Lemma wp_lock_tmap s tl Lw tm v (Q : Z → tms → Prop) : tms_ok s tl Lw → tm ∈ tl → ts_maps s !! tm = Some v → lock_free s tm →
  (let v' := with_invalid 0 (tm_pages_to_invalidate v) v in let s' := put_map tm v' (set_cpu (tmap_locked tm (cpus (ts_vm s))) s) in
   tms_ok s' tl Lw → caches v' [] → Q NO_ERROR s') → wp (lock_tmap tm) s Q.
Proof.
  intros Hs Ht Hv (Hl & Hnp & Hnl) HQ. destruct (to_map _ _ _ Hs tm Ht) as (v1 & d & [Hv1 _ _ _ Hc [Hn Hm]]). assert (v1 = v) as -> by congruence.
  unfold lock_tmap, on_cpu. wp_go. apply wp_spin_lock; [done|]. wp_go. eapply wp_st_map; [done|]. wp_go.
  apply HQ; [|by split_and!].
  eapply (put_map_ok _ _ _ _ v); try done. apply set_cpu_ok; [done|simpl; rewrite lookup_insert_ne by done; apply Hs..].
Qed.

Lemma wp_flush_tmap s tm v (Q : unit → tms → Prop) : ts_maps s !! tm = Some v →
  (let s' := upd_tlb (ts_tlb s ++ flush_ops v) s in
   Q tt (if tm_num_invalidate_pages v <=? 0 then s' else put_map tm (with_invalid 0 (tm_pages_to_invalidate v) v) s')) →
  wp (flush_tmap tm) s Q.
Proof.
  intros Hv HQ. unfold flush_tmap, on_cpu, flush_ops in *. wp_go. eapply wp_ld_map; [done|]. destruct (tm_num_invalidate_pages v <=? 0).
  - wp_go. rewrite app_nil_r in HQ. by destruct s.
  - unfold local_irqs_save_and_disable, local_irqs_disable, local_irqs_restore, invalidate. wp_go. cbv zeta in HQ. case_match; wp_go.
    + eapply wp_st_map; [done|]. wp_go. by destruct s as [[? [? []]]].
    + eapply wp_st_map; [done|]. wp_go. by destruct s as [[? [? []]]].
Qed.

(** The lists, the directories and the allocator. *)
Definition dirs_same s s' : Prop := ts_lists s' = ts_lists s ∧ ts_dirs s' = ts_dirs s ∧ ts_heap s' = ts_heap s.

(** What remains of the state after [unlock_tmap]. *)
Lemma wp_unlock_tmap s tl Lw tm v l (Q : Z → tms → Prop) : tms_ok s tl Lw → tm ∈ tl → ts_maps s !! tm = Some v → caches v l →
  is_Some (locks (cpus (ts_vm s)) !! tmap_lock tm) → tmap_lock tm ≠ page_lock → tmap_lock tm ≠ tmap_list_lock →
  (∀ s', tms_ok s' tl Lw → (∀ tm' va, tm' ∈ tl → view s' tm' va = view s tm' va) → (∀ tm' i, table_at s' tm' i = table_at s tm' i) →
    ts_tlb s' = ts_tlb s ++ flush_ops v → frames (ts_vm s') = frames (ts_vm s) → pages (ts_vm s') = pages (ts_vm s) →
    win_slots (ts_win s') = win_slots (ts_win s) → dirs_same s s' →
    cpus (ts_vm s') = Cpu (<[tmap_lock tm := SPIN_UNLOCKED]> (locks (cpus (ts_vm s)))) (irqs (cpus (ts_vm s))) →
    ts_maps s' = <[tm := with_invalid 0 (tm_pages_to_invalidate v) v]> (ts_maps s) → Q NO_ERROR s') → wp (unlock_tmap tm) s Q.
Proof.
  intros Hs Ht Hv Hca Hlk Hnp Hnl HQ. unfold unlock_tmap, on_cpu. wp_go. eapply wp_flush_tmap; [done|]. wp_go.
  set (v' := with_invalid 0 (tm_pages_to_invalidate v) v). set (s1 := upd_tlb (ts_tlb s ++ flush_ops v) s).
  assert (tms_ok (put_map tm v' s1) tl Lw ∧ (if tm_num_invalidate_pages v <=? 0 then s1 else put_map tm v' s1) = put_map tm v' s1) as [Hs1 E].
  { destruct (to_map _ _ _ Hs tm Ht) as (u & d & [Hu _ _ _ Hc [Hn Hm]]). assert (u = v) as -> by congruence. split.
    - eapply (put_map_ok s1 _ _ _ v); try done. by apply upd_tlb_ok.
    - destruct (Z.leb_spec (tm_num_invalidate_pages v) 0) as [Hz|]; [|done]. destruct Hca as [En _].
      assert (v' = v) as ->; [|unfold put_map; by rewrite insert_id; [destruct s|]].
      unfold v', with_invalid. replace 0 with (tm_num_invalidate_pages v) by lia. by destruct v. }
  cbv zeta. fold s1 v'. rewrite E. wp_go. apply wp_spin_unlock; [done|]. wp_go. apply HQ; try done.
  - apply (set_cpu_ok (put_map tm v' s1)); [done|simpl; rewrite lookup_insert_ne by done; apply Hs..].
  - intros tm' va _. apply (put_map_view s1 tm v v' tm' va); done.
  - intros tm' i. unfold table_at. pose proof (put_map_pde s1 tm v v' tm' i Hv eq_refl) as Ep. change (pde_at s1 tm' i) with (pde_at s tm' i) in Ep. by rewrite <- Ep.
Qed.

(** ** Queries *)

Definition query_result s (tm va : Z) : Z * Z * Z :=
  match table_at s tm (VADDR_TO_PDENT va) with
  | None => (NO_ERROR, 0, 0)
  | Some _ =>
      let e := view s tm va in
      (NO_ERROR, Z.lor (ADDR_REVERSE_SHIFT (fget F_base e)) (Z.land va (PAGE_SIZE - 1)), entry_flags e)
  end.

Lemma wp_query_tmap s tl Lw tm v va (Q : Z * Z * Z → tms → Prop) :
  tms_ok s tl Lw → Z.of_nat (length Lw) < win_slots (ts_win s) → tm ∈ tl → ts_maps s !! tm = Some v → word va →
  (∀ w, tms_ok (upd_win w s) tl Lw → win_slots w = win_slots (ts_win s) → Q (query_result s tm va) (upd_win w s)) →
  wp (query_tmap tm va) s Q.
Proof.
  intros Hs Hlen Ht Hv Hva HQ. destruct (word_split va Hva) as (HI & Hi & _).
  destruct (to_map _ _ _ Hs tm Ht) as (u & d & Hrep). assert (u = v) as -> by (destruct Hrep; congruence).
  destruct (map_rep_pde s tm v d _ Hrep HI) as (pde & Hpde & _ & _). unfold query_result in HQ.
  assert (table_at s tm (VADDR_TO_PDENT va) = if fget F_p pde =? 0 then None else Some (fget F_base pde)) as Et
    by (unfold table_at; by rewrite Hpde).
  unfold query_tmap. wp_go. eapply wp_ld_map; [done|]. wp_go. eapply wp_ld_pde; [done..|]. destruct (fget F_p pde =? 0); rewrite Et in HQ.
  - wp_go. specialize (HQ (ts_win s)). replace (upd_win (ts_win s) s) with s in HQ by (by destruct s). by apply HQ.
  - destruct (table_frame Hs tm _ _ Ht HI Et) as (_ & fr & Hfr & Hok). destruct (word_at_some fr (VADDR_TO_PTENT va) Hok Hi) as (e & He & _).
    wp_go. eapply (wp_get_pgtable s tl Lw _ tm (VADDR_TO_PDENT va) (fget F_base pde)); try done. intros pgtbl w Hw Hsl Hwf.
    wp_go. eapply (wp_ld_pte _ pgtbl (fget F_base pde) _ fr e); [done..|]. wp_go.
    eapply (wp_put_window _ tl Lw _ (fget F_base pde * PAGE_SIZE)); [by eapply upd_win_ok|]. intros w2 Hs2 Hsl2. wp_go.
    rewrite (view_at tm s va (fget F_base pde) fr e) in HQ by done. apply HQ; [done|]. etransitivity; [exact Hsl2|exact Hsl].
Qed.
End lock.
