(* ===== verification/TransMapExample.v ===== *)
(** * A concrete state of translation maps

    Four physical pages, the maps of the kernel and of one process with empty directories,
    and windows lent by the page mapper: the input of the properties' witnesses. *)

From stdpp Require Import gmap list.
From S2P Require Import Spinlock Prelude XList VmPage VmPageSpec HeapSpec Alloc Mmu MapPool PageMapper PageMapperSpec PageMapperProps TransMap TransMapSpec TransMapMap TransMapLock.
#[local] Open Scope Z_scope.

#[local] Existing Instance example_mutex_laws.

#[local] Opaque started.

(** The map of the kernel, that of the process, and one that is not on the list yet. *)
Definition example_ktm : Z := 0x3000.

Definition example_tm : Z := 0x4000.

Definition example_new : Z := 0x5000.

Definition example_locks : gmap Z Z :=
  {[page_lock := SPIN_UNLOCKED; tmap_list_lock := SPIN_UNLOCKED; tmap_lock example_ktm := SPIN_UNLOCKED;
    tmap_lock example_tm := SPIN_UNLOCKED; tmap_lock example_new := SPIN_LOCKED]}.

Definition example_map (dir : Z) : tmap := TMap true 0 dir 0 0 (replicate 64 0).

Definition example_dir : list Z := replicate 1024 0.

#[local] Instance example_window : Window := mapper_window (X := example_mutex) (C := pool_chunks) example_key example_tmp.

Definition example_tms : @tms heap_allocator example_window :=
  @Tms heap_allocator example_window (upd_cpu (Cpu example_locks true) example_vms)
    (XStore (list_to_map [(example_ktm, ListElem 0 example_tm); (example_tm, ListElem example_ktm 0); (example_new, ListElem 0 0)])
       (list_to_map [(tmap_list, XListHdr example_ktm example_tm 2)]))
    (list_to_map [(example_ktm, example_map 0x20000); (example_tm, example_map 0x21000); (example_new, example_map 0)])
    (list_to_map [(0x20000, example_dir); (0x21000, example_dir)]) started example_heap [] 0x20000 0x20000.

Lemma example_pde tm i : tm ∈ [example_ktm; example_tm] → 0 ≤ i < MAX_PDENTS → pde_at example_tms tm i = Some 0.
Proof.
  intros Ht Hi. assert (example_dir !! Z.to_nat i = Some 0) as E by (apply lookup_replicate_2; unfold MAX_PDENTS in Hi; lia).
  set_unfold in Ht. destruct Ht as [->|[->|[]]]; exact E.
Qed.

Lemma example_table tm i : tm ∈ [example_ktm; example_tm] → 0 ≤ i < MAX_PDENTS → table_at example_tms tm i = None.
Proof. intros Ht Hi. unfold table_at. by rewrite example_pde. Qed.

#[local] Instance example_window_laws : WindowLaws example_window := mapper_laws example_key example_tmp.

Lemma example_pages_clear : map_Forall (λ _ p, pstate p ≠ VM_PAGE_STATE_CLEAR) (pages example_vms).
Proof. by_decide. Qed.

Lemma example_ok : tms_ok example_tms [example_ktm; example_tm] [].
Proof.
  destruct example_inv as [Hi _].
  assert (∀ tm, tm ∈ [example_ktm; example_tm] → ∃ dir, ts_maps example_tms !! tm = Some (example_map dir) ∧
    map_rep example_tms tm (example_map dir) example_dir) as Hrep.
  { intros tm Ht. set_unfold in Ht. destruct Ht as [->|[->|[]]]; (eexists; split; [reflexivity|]);
      (split; [reflexivity|reflexivity|apply length_replicate|apply Forall_replicate, word_0|apply length_replicate|split; apply word_0]). }
  split.
  - by apply vmp_inv_cpu.
  - reflexivity.
  - reflexivity.
  - intros pa fr. assert (frames example_vms = ∅) as E by reflexivity. simpl. by rewrite E, lookup_empty.
  - intros a p Ha Hp. by destruct (example_pages_clear a p Ha).
  - split; [reflexivity|by repeat split|by_decide|by repeat constructor].
  - intros tm (dir & _ & Hr)%Hrep. by eexists _, _.
  - intros tm tm' v v' Ht Ht' Hv Hv' E. set_unfold in Ht. set_unfold in Ht'.
    destruct Ht as [->|[->|[]]], Ht' as [->|[->|[]]]; try done; vm_compute in Hv, Hv'; simplify_eq; discriminate.
  - intros tm tm' i Ht Ht' HI. rewrite !example_pde; try done; change FIRST_KERNEL_PGDIR_ENTRY with 768 in HI; lia.
  - exists example_ktm, (example_map 0x20000). split; [by left|]. split; reflexivity.
  - intros tm i b Ht HI. by rewrite example_table.
  - intros tm tm' i i' b Ht Ht' HI HI'. by rewrite example_table.
  - apply started_ok.
  - change (0 < mappings_count started). rewrite (proj2 started_ok). done.
Qed.

Lemma example_maps : ts_maps example_tms !! example_tm = Some (example_map 0x21000) ∧
  ts_maps example_tms !! example_ktm = Some (example_map 0x20000) ∧ ts_maps example_tms !! example_new = Some (example_map 0).
Proof. split_and!; reflexivity. Qed.

Lemma example_lock tm : tm ∈ [example_ktm; example_tm] → lock_free example_tms tm.
Proof. intros Ht. set_unfold in Ht. destruct Ht as [->|[->|[]]]; (split; [reflexivity|by_decide]). Qed.

Lemma example_page : has_page example_tms 18.
Proof. exists (page_ptr example_vms 2), (VmPage 18 0 0 VM_PAGE_STATE_FREE). split; [vm_compute|]; reflexivity. Qed.

Lemma example_free : has_free_page example_tms.
Proof. exists (page_ptr example_vms 0), (VmPage 16 0 0 VM_PAGE_STATE_FREE). split; [vm_compute; reflexivity|by left]. Qed.

Lemma example_no_page va : word va → view example_tms example_tm va = 0.
Proof. intros Hva. destruct (word_split va Hva) as (HI & _). unfold view. rewrite example_table; [done|by_decide|done]. Qed.

Lemma example_view va : word va → view example_tms example_ktm va = 0.
Proof. intros Hva. destruct (word_split va Hva) as (HI & _). unfold view. rewrite example_table; [done|by_decide|done]. Qed.
