(* ===== verification/TransMapProps.v ===== *)
(** * Properties of translation maps

    What the operations of a translation map promise a caller who knows only the entries
    that addresses have: mapping, unmapping, changing the protection and asking for a page. *)

From stdpp Require Import gmap list.
From S2P Require Import Spinlock Prelude XList VmPage VmPageSpec Alloc Mmu TransMap TransMapSpec TransMapWalk TransMapAlloc TransMapMap TransMapLock MapPool PageMapper PageMapperSpec PageMapperProps TransMapExample.
#[local] Open Scope Z_scope.

Section props.
Context {A : Allocator} {W : Window} {WL : WindowLaws W}.
Implicit Types s : tms.

(** ** Ranges of pages *)

(** [va] is on a page of the range [start] to [end_], both rounded outwards. *)
Definition in_range (start end_ va : Z) : Prop :=
  start / PAGE_SIZE ≤ va / PAGE_SIZE < (end_ + (PAGE_SIZE - 1)) / PAGE_SIZE.

#[export] Instance in_range_dec start end_ va : Decision (in_range start end_ va) := ltac:(unfold in_range; apply _).

(** The present pages of the range in map [tm], with their entries. *)
Definition present_pages s (tm start end_ : Z) : list (Z * Z) :=
  pages_from s tm (range_start start) (range_pages start end_).

Lemma view_page s tm va : view s tm (page_of_addr va) = view s tm va.
Proof.
  unfold view, page_of_addr, VADDR_TO_PDENT, VADDR_TO_PTENT. by rewrite Z.div_mul.
Qed.

Lemma pages_from_elem s tm n : ∀ va k, (k < n)%nat → fget F_p (view s tm (va + Z.of_nat k * PAGE_SIZE)) ≠ 0 →
  (va + Z.of_nat k * PAGE_SIZE, view s tm (va + Z.of_nat k * PAGE_SIZE)) ∈ pages_from s tm va n.
Proof.
  induction n as [|n IH]; intros va k Hk Hp; [lia|]. cbn [pages_from]. apply elem_of_app. destruct k as [|k].
  - left. rewrite Z.add_0_r in *. rewrite (proj2 (Z.eqb_neq _ _)) by done. by left.
  - right. replace (va + Z.of_nat (S k) * PAGE_SIZE) with (va + PAGE_SIZE + Z.of_nat k * PAGE_SIZE) in * by lia.
    apply IH; [lia|done].
Qed.

Lemma covers_present s tm start end_ va : word start → word va →
  covers (present_pages s tm start end_) va ↔ in_range start end_ va ∧ fget F_p (view s tm va) ≠ 0.
Proof.
  intros Hst Hva. unfold covers, present_pages, in_range, range_start, range_pages. split.
  - intros (ve & E & Hve)%list_elem_of_fmap. apply pages_from_range in Hve as (Hr & Ev & Hp & Hm). rewrite <- E in Ev, Hr, Hm.
    rewrite view_page in Ev. rewrite <- Ev. split; [|done]. unfold page_of_addr, PAGE_SIZE in *. lia.
  - intros [Hr Hp]. apply list_elem_of_fmap. rewrite <- view_page in Hp.
    assert (page_of_addr va = start / PAGE_SIZE * PAGE_SIZE + Z.of_nat (Z.to_nat (va / PAGE_SIZE - start / PAGE_SIZE)) * PAGE_SIZE) as E
      by (unfold page_of_addr, PAGE_SIZE in *; lia).
    eexists. split; [|eapply pages_from_elem]; [exact E| |by rewrite <- E]. unfold PAGE_SIZE in *. lia.
Qed.

(** Kernel space is the same in all maps. *)
Lemma view_kernel s tl Lw tm tm' va : tms_ok s tl Lw → tm ∈ tl → tm' ∈ tl → word va → KERNEL_BASE ≤ va → view s tm' va = view s tm va.
Proof.
  intros Hs Ht Ht' Hva Hk. unfold view. destruct (word_split va Hva) as (HI & _).
  rewrite (table_kernel s tl Lw tm tm'); try done. split; [by apply kernel_entry|lia].
Qed.

Lemma fset_p_0 e : word e → fget F_p e = 0 → fset F_p 0 e = e.
Proof.
  intros [H0 _] E. apply Z.bits_inj'. intros i Hi. rewrite fset_bit by (by_decide || done). cbn [F_p f_lo f_len].
  destruct (Z.leb_spec 0 i), (Z.ltb_spec i (0 + 1)); simpl; try done. assert (i = 0) as -> by lia.
  assert (Z.testbit (fget F_p e) 0 = false) as Hb by (by rewrite E). rewrite fget_bit in Hb by (by_decide || done). change (Z.testbit e 0 = false) in Hb. by rewrite Hb.
Qed.

(** ** What a walk does to counters *)

(** How many of the pages are those of frame [b]. *)
Definition times (ps : list (Z * Z)) (b : Z) : Z := Z.of_nat (length (filter (λ ve, fget F_base ve.2 = b) ps)).

Lemma foldl_unwire_page s a b : vmp_inv (ts_vm s) → ∀ ps (m : gmap Z vm_page) p,
  (∀ ve, ve ∈ ps → page_of s (fget F_base ve.2) = a ↔ fget F_base ve.2 = b) → m !! a = Some p → word (wire_count p) →
  ∃ p', foldl (unwire true s) m ps !! a = Some p' ∧ ppn p' = ppn p ∧ wire_count p' = u32 (wire_count p - times ps b).
Proof.
  intros Hi. induction ps as [|ve ps IH]; intros m p Hps Ha Hw.
  { exists p. split_and!; [done..|]. unfold times. simpl. rewrite Z.sub_0_r, uwrap_small by done. done. }
  cbn [foldl]. assert (∀ ve', ve' ∈ ps → page_of s (fget F_base ve'.2) = a ↔ fget F_base ve'.2 = b) as Hps' by (intros; apply Hps; by right).
  unfold unwire at 2, times. rewrite filter_cons. pose proof (Hps ve ltac:(by left)) as Hve. case_decide as E.
  - rewrite (proj2 Hve E). destruct (IH (alter (with_wire (λ c, c + -1)) a m) (with_wire (λ c, c + -1) p)) as (p' & ? & ? & Ew); try done.
    { by rewrite lookup_alter_eq, Ha. } { apply word_u32. }
    exists p'. split_and!; [done..|]. rewrite Ew. cbn [with_wire wire_count]. rewrite uwrap_sub_l. unfold times. cbn [length]. f_equal. lia.
  - apply (IH _ p); [done| |done]. rewrite lookup_alter_ne; [done|]. tauto.
Qed.

Lemma foldl_unmapped_count (ps : list (Z * Z)) : ∀ v, word (tm_map_count v) →
  tm_map_count (foldl (λ v ve, unmapped ve.1 v) v ps) = u32 (tm_map_count v - Z.of_nat (length ps)).
Proof.
  induction ps as [|ve ps IH]; intros v Hv; cbn [foldl length]; [by rewrite Z.sub_0_r, uwrap_small|].
  rewrite IH by apply word_u32. unfold unmapped, noted. cbn [with_invalid with_count tm_map_count]. rewrite uwrap_sub_l. f_equal. lia.
Qed.

Lemma caches_unmapped va v l : caches v l → Z.of_nat (length l) + 1 < 2 ^ 32 → caches (unmapped va v) (l ++ [va]).
Proof. intros Hv Hl. unfold unmapped. by apply caches_noted. Qed.

Lemma length_pages s tm n : ∀ va, (length (pages_from s tm va n) ≤ n)%nat.
Proof.
  induction n as [|n IH]; intros va; [done|]. cbn [pages_from]. rewrite length_app. specialize (IH (va + PAGE_SIZE)). case_match; simpl; lia.
Qed.

(** ** Sections of code under the lock of a map *)

Definition same_cpus s s' : Prop := cpus (ts_vm s') = cpus (ts_vm s).

Lemma cpus_relock tm (c : cpu) : locks c !! tmap_lock tm = Some SPIN_UNLOCKED →
  Cpu (<[tmap_lock tm := SPIN_UNLOCKED]> (locks (tmap_locked tm c))) (irqs (tmap_locked tm c)) = c.
Proof. intros Hl. unfold tmap_locked. simpl. by apply unlock_locked. Qed.

(** What the caller of [map_page] sees: the page is in the map and nothing else has changed. *)
Record page_added (tl : list Z) (tm va b e : Z) s s' : Prop := {
  pa_view tm' va' : tm' ∈ tl → word va' →
    view s' tm' va' = if decide (va' / PAGE_SIZE = va / PAGE_SIZE ∧ (tm' = tm ∨ KERNEL_BASE ≤ va)) then e else view s tm' va';
  pa_table : is_Some (table_at s' tm (VADDR_TO_PDENT va));
  pa_pages : ∀ a p, pages (ts_vm s) !! a = Some p → ∃ p', pages (ts_vm s') !! a = Some p' ∧ ppn p' = ppn p ∧
    wire_count p' = (if ppn p =? b then u32 (wire_count p + 1) else wire_count p);
  pa_cpus : same_cpus s s';
  pa_slots : win_slots (ts_win s') = win_slots (ts_win s);
  pa_tlb : ts_tlb s' = ts_tlb s ++ [FlushPage va];
  pa_other tm' : tm' ≠ tm → ts_maps s' !! tm' = ts_maps s !! tm';
  pa_map v : ts_maps s !! tm = Some v → ∃ v', ts_maps s' !! tm = Some v' ∧
    tm_map_count v' = u32 (tm_map_count v + map_units s tm va) ∧ tm_num_invalidate_pages v' = 0 }.

Lemma wp_map_page s tl tm v va b protect (Q : unit → tms → Prop) :
  tms_ok s tl [] → tm ∈ tl → ts_maps s !! tm = Some v → lock_free s tm → word va → 0 ≤ b < 2 ^ 20 →
  has_page s b → (table_at s tm (VADDR_TO_PDENT va) = None → has_free_page s) →
  (∀ s', tms_ok s' tl [] → page_added tl tm va b (page_entry va (b * PAGE_SIZE) protect) s s' → Q tt s') →
  wp (map_page tm va b protect) s Q.
Proof.
  intros Hs Ht Hv Hlk Hva Hb Hpage Hfree HQ. unfold map_page. wp_go. eapply wp_lock_tmap; [done..|]. cbv zeta.
  set (v1 := with_invalid _ _ v). set (s1 := put_map tm v1 _). intros Hs1 Hc1. wp_go. destruct Hlk as (Hl & Hnp & Hnl).
  assert (ts_maps s1 !! tm = Some v1) as Hv1 by (simpl; apply lookup_insert_eq).
  assert (∀ tm' i, table_at s1 tm' i = table_at s tm' i) as Etab.
  { intros tm' i. unfold table_at, s1. by rewrite (put_map_pde _ tm v). }
  assert (∀ tm' va', view s1 tm' va' = view s tm' va') as Eview.
  { intros tm' va'. unfold s1. by rewrite (put_map_view _ tm v). }
  rewrite uwrap_small by (unfold PAGE_SIZE; lia).
  eapply (wp_map_tmap s1 tl [] tm v1); try done; [apply Hs1|unfold PAGE_SIZE; lia|by rewrite Z.div_mul|by rewrite Etab|].
  intros s2 Hs2 [Pv Pt Pp Pc Ptlb Ps Po Pm]. wp_go. destruct (Pm v1 Hv1) as (v2 & Hv2 & Em2 & En2 & Ep2).
  assert (caches v2 [va]) as Hc2.
  { pose proof (caches_noted v1 [] va Hc1 ltac:(done)) as (? & ? & ?). unfold caches. by rewrite En2, Ep2. }
  assert (flush_ops v2 = [FlushPage va]) as Ef by (by apply flush_ops_small in Hc2).
  eapply wp_unlock_tmap; try done; [rewrite Pc; simpl; rewrite lookup_insert_eq; by eexists|].
  intros s3 Hs3 V3 T3 Etl3 _ Ep3 Es3 Ed3 Ec3 Em3. wp_go. apply HQ; [done|]. split.
  - intros tm' va' Ht' Hva'. by rewrite V3, Pv, Eview.
  - by rewrite T3.
  - intros a p Ha. rewrite Ep3. rewrite Z.div_mul in Pp by done. by apply Pp.
  - unfold same_cpus. rewrite Ec3, Pc. by apply cpus_relock.
  - rewrite Es3, Ps. done.
  - by rewrite Etl3, Ptlb, Ef.
  - intros tm' Hne. rewrite Em3, lookup_insert_ne, Po by done. simpl. by rewrite lookup_insert_ne.
  - intros u Hu. assert (u = v) as -> by congruence. rewrite Em3, lookup_insert_eq. eexists. split; [done|]. split; [|done].
    cbn [with_invalid tm_map_count]. rewrite Em2. unfold map_units. by rewrite Etab.
Qed.

Lemma wp_vm_query_paddr s tl tm v va (Q : Z * Z * Z → tms → Prop) :
  tms_ok s tl [] → tm ∈ tl → ts_maps s !! tm = Some v → lock_free s tm → word va →
  (∀ s', tms_ok s' tl [] → same_cpus s s' → (∀ tm' va', tm' ∈ tl → view s' tm' va' = view s tm' va') →
    pages (ts_vm s') = pages (ts_vm s) → ts_tlb s' = ts_tlb s → dirs_same s s' →
    ts_maps s' = <[tm := with_invalid 0 (tm_pages_to_invalidate v) v]> (ts_maps s) → Q (query_result s tm va) s') →
  wp (vm_query_paddr tm va) s Q.
Proof.
  intros Hs Ht Hv (Hl & Hnp & Hnl) Hva HQ. unfold vm_query_paddr, on_cpu, local_irqs_save_and_disable, local_irqs_disable, local_irqs_restore.
  wp_go. set (c0 := Cpu _ _). set (s0 := upd_vm _ _).
  assert (s0 = set_cpu (Cpu (locks (cpus (ts_vm s))) false) s) as Es0 by done. clearbody s0 c0. subst s0.
  set (s0 := set_cpu _ s). assert (tms_ok s0 tl []) as Hs0 by (apply set_cpu_ok; [done|apply Hs..]).
  eapply (wp_lock_tmap s0 tl [] tm v); [done..|by split_and!|]. cbv zeta. set (v1 := with_invalid _ _ v). set (s1 := put_map tm v1 _).
  intros Hs1 Hc1. wp_go. assert (ts_maps s1 !! tm = Some v1) as Hv1 by (simpl; apply lookup_insert_eq).
  assert (∀ tm' i, table_at s1 tm' i = table_at s tm' i) as Etab.
  { intros tm' i. unfold table_at, s1. by rewrite (put_map_pde _ tm v). }
  assert (∀ tm' va', view s1 tm' va' = view s tm' va') as Eview.
  { intros tm' va'. unfold s1. by rewrite (put_map_view _ tm v). }
  eapply (wp_query_tmap s1 tl [] tm v1); try done; [apply Hs1|]. intros w Hs2 Hsl2. wp_go.
  eapply (wp_unlock_tmap _ tl [] tm v1 []); try done; [simpl; rewrite lookup_insert_eq; by eexists|].
  intros s3 Hs3 V3 T3 Etl3 _ Ep3 Es3 Ed3 Ec3 Em3. wp_go.
  assert (query_result s1 tm va = query_result s tm va) as -> by (unfold query_result; by rewrite Etab, Eview).
  apply HQ.
  - exact (set_cpu_ok s3 tl [] (Cpu (locks (cpus (ts_vm s3))) (irqs (cpus (ts_vm s)))) Hs3 (to_page_lock _ _ _ Hs3) (to_list_lock _ _ _ Hs3)).
  - unfold same_cpus. cbn [ts_vm upd_vm cpus upd_cpu]. rewrite Ec3. simpl. rewrite insert_insert_eq, insert_id by done. by destruct (cpus (ts_vm s)).
  - intros tm' va' Ht'. transitivity (view s3 tm' va'); [done|]. rewrite V3 by done. apply Eview.
  - exact Ep3.
  - cbn [ts_tlb upd_vm]. rewrite Etl3, (flush_ops_nil v1 Hc1). apply app_nil_r.
  - exact Ed3.
  - cbn [ts_maps upd_vm]. rewrite Em3. simpl. by rewrite insert_insert_eq.
Qed.

(** The flags of a page that was mapped with [protection]. *)
Definition mapped_flags (protection : Z) : Z :=
  Z.lor (Z.lor (Z.lor VM_PROT_READ VM_PROT_EXECUTE) VM_FLAG_PAGE_PRESENT)
    (Z.lor (Z.land protection VM_PROT_WRITE) (Z.land protection VM_PROT_KERNEL)).

Lemma land_pow2 x k : 0 ≤ k → Z.land x (2 ^ k) = if Z.testbit x k then 2 ^ k else 0.
Proof.
  intros Hk. apply Z.bits_inj'. intros i Hi. rewrite Z.land_spec, Z.pow2_bits_eqb by done. destruct (Z.eqb_spec k i) as [->|Hne].
  - rewrite andb_true_r. destruct (Z.testbit x i); [by rewrite Z.pow2_bits_true|by rewrite Z.bits_0].
  - rewrite andb_false_r. destruct (Z.testbit x k); [by rewrite Z.pow2_bits_false by done|by rewrite Z.bits_0].
Qed.

Lemma entry_flags_mapped va pa protection : entry_flags (page_entry va pa protection) = mapped_flags protection.
Proof.
  unfold entry_flags, page_entry, mapped_flags, prot_user, prot_write.
  change VM_PROT_WRITE with (2 ^ 1). change VM_PROT_KERNEL with (2 ^ 3). rewrite !land_pow2 by done.
  destruct (is_kernel_address va); field_simpl; destruct (Z.testbit protection 1), (Z.testbit protection 3); done.
Qed.

Lemma mapped_address b va : 0 ≤ b < 2 ^ 20 → Z.lor (ADDR_REVERSE_SHIFT b) (Z.land va (PAGE_SIZE - 1)) = b * PAGE_SIZE + va mod PAGE_SIZE.
Proof.
  intros Hb. unfold ADDR_REVERSE_SHIFT, PAGE_SHIFT. change (PAGE_SIZE - 1) with (Z.ones 12). rewrite Z.land_ones by done.
  rewrite uwrap_small by (rewrite Z.shiftl_mul_pow2 by done; lia). change PAGE_SIZE with (2 ^ 12).
  rewrite <- Z.shiftl_mul_pow2 by done. rewrite Z.add_nocarry_lxor, Z.lxor_lor; try done.
  all: apply Z.bits_inj'; intros i Hi; rewrite Z.land_spec, Z.bits_0; destruct (Z.ltb_spec i 12).
  all: try (by rewrite Z.shiftl_spec_low by lia). all: by rewrite Z.mod_pow2_bits_high, andb_false_r by lia.
Qed.

(** What the caller of [unmap_mapping] sees, [ps] being the pages that were present. *)
Record pages_removed (tl : list Z) (tm start end_ : Z) (ps : list (Z * Z)) s s' : Prop := {
  pr_view tm' va : tm' ∈ tl → word va →
    view s' tm' va = if decide (in_range start end_ va ∧ (tm' = tm ∨ KERNEL_BASE ≤ va)) then fset F_p 0 (view s tm' va)
                     else view s tm' va;
  pr_pages : ∀ a p, pages (ts_vm s) !! a = Some p → word (wire_count p) → ∃ p', pages (ts_vm s') !! a = Some p' ∧
    ppn p' = ppn p ∧ wire_count p' = u32 (wire_count p - times ps (ppn p));
  pr_cpus : same_cpus s s';
  pr_tlb : ∃ ops, ts_tlb s' = ts_tlb s ++ ops ∧ ∀ ve, ve ∈ ps → ∃ op, op ∈ ops ∧ forgets op ve.1;
  pr_other tm' : tm' ≠ tm → ts_maps s' !! tm' = ts_maps s !! tm';
  pr_map v : ts_maps s !! tm = Some v → ∃ v', ts_maps s' !! tm = Some v' ∧
    tm_map_count v' = u32 (tm_map_count v - Z.of_nat (length ps)) ∧ tm_num_invalidate_pages v' = 0 }.

Lemma locked_same s tl tm v : ts_maps s !! tm = Some v → tms_ok s tl [] → tm ∈ tl →
  let s1 := put_map tm (with_invalid 0 (tm_pages_to_invalidate v) v) (set_cpu (tmap_locked tm (cpus (ts_vm s))) s) in
  (∀ tm' i, table_at s1 tm' i = table_at s tm' i) ∧ (∀ tm' va, view s1 tm' va = view s tm' va) ∧
  (∀ va n, pages_from s1 tm va n = pages_from s tm va n).
Proof.
  intros Hv Hs Ht s1. assert (∀ tm' va, view s1 tm' va = view s tm' va) as Ev.
  { intros tm' va. unfold s1. by rewrite (put_map_view _ tm v). }
  split_and!; [|done|intros va n; by apply pages_from_ext].
  intros tm' i. unfold table_at, s1. by rewrite (put_map_pde _ tm v).
Qed.

Lemma wp_unmap_mapping s tl tm v start end_ (Q : unit → tms → Prop) :
  let ps := present_pages s tm start end_ in
  tms_ok s tl [] → tm ∈ tl → ts_maps s !! tm = Some v → lock_free s tm → word start → 0 ≤ end_ → end_ + (PAGE_SIZE - 1) < 2 ^ 32 →
  (∀ ve, ve ∈ ps → has_page s (fget F_base ve.2)) →
  (∀ s', tms_ok s' tl [] → pages_removed tl tm start end_ ps s s' → Q tt s') → wp (unmap_mapping tm start end_) s Q.
Proof.
  intros ps Hs Ht Hv Hlk Hst H0 Hend Hpages HQ. unfold unmap_mapping. wp_go. eapply wp_lock_tmap; [done..|]. cbv zeta.
  destruct (locked_same s tl tm v Hv Hs Ht) as (Etab & Eview & Eps).
  set (v1 := with_invalid _ _ v) in *. set (s1 := put_map tm v1 _) in *. intros Hs1 Hc1. wp_go. destruct Hlk as (Hl & Hnp & Hnl).
  assert (ts_maps s1 !! tm = Some v1) as Hv1 by (simpl; apply lookup_insert_eq).
  pose proof (to_vm _ _ _ Hs) as Hi.
  eapply (wp_unmap s1 tl tm v1); try done; rewrite Eps; fold ps.
  { intros ve Hve. apply (has_page_array s _ Hi). by apply Hpages. }
  intros s2 [V2 P2 M2 R2] Hs2. specialize (M2 v1 Hv1). wp_go.
  assert (length ps ≤ range_pages start end_)%nat as Hlen by apply length_pages.
  assert (Z.of_nat (length ps) < 2 ^ 32) as Hlen2.
  { clear - Hlen Hst H0 Hend. unfold range_pages, PAGE_SIZE, word in *. Z.div_mod_to_equations. lia. }
  pose proof (caches_foldl unmapped ps (λ va v l, caches_unmapped va v l) v1 [] Hc1 ltac:(simpl; lia)) as Hc2. cbn [app] in Hc2.
  assert (cpus (ts_vm s2) = tmap_locked tm (cpus (ts_vm s))) as Ec2 by apply R2.
  eapply (wp_unlock_tmap s2 tl [] tm _ ps.*1); try done; [rewrite Ec2; simpl; rewrite lookup_insert_eq; by eexists|].
  intros s3 Hs3 V3 T3 Etl3 _ Ep3 Es3 Ed3 Ec3 Em3. wp_go. apply HQ; [done|]. split.
  - intros tm' va Ht' Hva. rewrite V3, V2 by done. rewrite Eview.
    pose proof (covers_present s tm start end_ va Hst Hva) as Hco. fold ps in Hco.
    destruct (decide (in_range start end_ va ∧ (tm' = tm ∨ KERNEL_BASE ≤ va))) as [[Hr Ho]|Hno].
    + assert (view s tm' va = view s tm va) as Ek by (destruct Ho as [->|Ho]; [done|by eapply view_kernel]).
      case_decide as Hd; [done|]. symmetry. apply fset_p_0; [by eapply view_word|]. rewrite Ek.
      destruct (decide (fget F_p (view s tm va) = 0)); [done|]. destruct Hd. split; [by apply Hco|done].
    + rewrite decide_False; [done|]. intros [Hd Ho]. apply Hno. split; [by apply Hco|done].
  - intros a p Ha Hw. rewrite Ep3, P2. eapply (foldl_unwire_page s1 a (ppn p)); try done; [apply Hs1|].
    intros ve Hve. apply Hpages in Hve as (a' & p' & Ha' & Ep'). destruct (vi_addr _ _ _ Hi Ha) as (j & _ & -> & Ej & _).
    change (page_of s1 (fget F_base ve.2)) with (page_ptr (ts_vm s) (fget F_base ve.2 - physical_page_offset (ts_vm s))).
    split; [intros E%page_ptr_inj; lia|]. intros ->. f_equal. lia.
  - unfold same_cpus. rewrite Ec3, Ec2. by apply cpus_relock.
  - exists (flush_ops (foldl (λ v ve, unmapped ve.1 v) v1 ps)). split; [rewrite Etl3; f_equal; apply R2|].
    intros ve Hve. eapply flush_ops_forget; [exact Hc2|]. apply list_elem_of_fmap. eauto.
  - intros tm' Hne. rewrite Em3, lookup_insert_ne, (rs_maps _ _ _ _ R2) by done. simpl. by rewrite lookup_insert_ne.
  - intros u Hu. assert (u = v) as -> by congruence. rewrite Em3, lookup_insert_eq. eexists. split; [done|]. split; [|done].
    cbn [with_invalid tm_map_count]. rewrite foldl_unmapped_count; [done|]. by destruct (to_map _ _ _ Hs tm Ht) as (u & d & [Hu' _ _ _ _ [_ ?]]); simplify_eq.
Qed.

(** ** Theorems *)

(** C21: [map_page], what a page fault does with the map it has locked, succeeds if the frame
    has a descriptor and there is a page for a missing page table: the page is then in the
    map, in all maps if it belongs to kernel space, and no other address of any map has
    another entry; the wire counter of its frame is one up, [map_count] counts the page and
    the table it may have needed, the look-aside buffer has been asked to forget the
    address, and the processor's locks are as before. Asking for any address of the page
    then gives the frame, the offset, and the flags of the protection. *)
Theorem map_query_roundtrip s tl tm v va va' b protect :
  tms_ok s tl [] → tm ∈ tl → ts_maps s !! tm = Some v → lock_free s tm → word va → word va' →
  va' / PAGE_SIZE = va / PAGE_SIZE → 0 ≤ b < 2 ^ 20 →
  has_page s b → (table_at s tm (VADDR_TO_PDENT va) = None → has_free_page s) →
  ∃ s', map_page tm va b protect s = Ok (tt, s') ∧ tms_ok s' tl [] ∧
    page_added tl tm va b (page_entry va (b * PAGE_SIZE) protect) s s' ∧
    ∃ s'', vm_query_paddr tm va' s' = Ok ((NO_ERROR, b * PAGE_SIZE + va' mod PAGE_SIZE, mapped_flags protect), s'').
Proof.
  intros Hs Ht Hv Hlk Hva Hva' Eva Hb Hpage Hfree.
  destruct (wp_run (map_page tm va b protect) s tt (λ s', tms_ok s' tl [] ∧
    page_added tl tm va b (page_entry va (b * PAGE_SIZE) protect) s s')) as (s' & E & Hs' & Hp).
  { eapply wp_map_page; try done. }
  exists s'. split; [done|]. split; [done|]. split; [done|]. destruct (pa_map _ _ _ _ _ _ _ Hp v Hv) as (v' & Hv' & _).
  assert (lock_free s' tm) as Hlk' by (unfold lock_free; by rewrite (pa_cpus _ _ _ _ _ _ _ Hp)).
  assert (query_result s' tm va' = (NO_ERROR, b * PAGE_SIZE + va' mod PAGE_SIZE, mapped_flags protect)) as Eq.
  { unfold query_result. destruct (proj2 (same_entry va' va Hva' Hva) Eva) as [-> _].
    destruct (pa_table _ _ _ _ _ _ _ Hp) as [t ->]. rewrite (pa_view _ _ _ _ _ _ _ Hp) by done. rewrite decide_True by auto.
    destruct (page_entry_facts va (b * PAGE_SIZE) protect) as (Eb & _); [unfold PAGE_SIZE; lia|].
    rewrite Eb, Z.div_mul, mapped_address, entry_flags_mapped by done. done. }
  destruct (wp_run (vm_query_paddr tm va') s' (query_result s' tm va') (λ _, True)) as (s'' & E2 & _).
  { eapply wp_vm_query_paddr; done. }
  exists s''. by rewrite E2, Eq.
Qed.


(** [protect_tmap] gives the present pages of a range the writable and user bits of the
    protection and leaves their frames, their other bits, all other entries and the counters of
    the frames alone; their addresses are in the invalidation cache, behind those it held. *)
Theorem protect_tmap_correct s tl tm v start end_ protection l :
  tms_ok s tl [] → tm ∈ tl → ts_maps s !! tm = Some v → caches v l → Z.of_nat (length l) ≤ 2 ^ 31 →
  word start → 0 ≤ end_ ≤ 2 ^ 32 - PAGE_SIZE →
  let ps := present_pages s tm start end_ in
  ∃ s' v', protect_tmap tm start end_ protection s = Ok (NO_ERROR, s') ∧ tms_ok s' tl [] ∧
    (∀ tm' va, tm' ∈ tl → word va →
       view s' tm' va = if decide (in_range start end_ va ∧ fget F_p (view s tm' va) ≠ 0 ∧ (tm' = tm ∨ KERNEL_BASE ≤ va))
                        then protected protection (view s tm' va) else view s tm' va) ∧
    (∀ e, fget F_rw (protected protection e) = prot_write protection ∧ fget F_us (protected protection e) = prot_user protection ∧
       fget F_base (protected protection e) = fget F_base e ∧ fget F_p (protected protection e) = fget F_p e ∧
       fget F_g (protected protection e) = fget F_g e ∧ fget F_d (protected protection e) = fget F_d e ∧
       fget F_a (protected protection e) = fget F_a e) ∧
    pages (ts_vm s') = pages (ts_vm s) ∧ ts_maps s' !! tm = Some v' ∧ caches v' (l ++ ps.*1) ∧ tm_map_count v' = tm_map_count v.
Proof.
  intros Hs Ht Hv Hca Hl Hst [H0 Hend] ps.
  destruct (wp_run (protect_tmap tm start end_ protection) s NO_ERROR (λ s', tms_ok s' tl [] ∧
    walked tm false (protected protection) noted tl s ps s')) as (s' & E & Hs' & [V P M R]).
  { eapply wp_protect; try done. unfold PAGE_SIZE in *. lia. }
  assert (length ps ≤ range_pages start end_)%nat as Hlen by apply length_pages.
  exists s', (foldl (λ v ve, noted ve.1 v) v ps). split; [done|]. split; [done|]. split_and!.
  - intros tm' va Ht' Hva. rewrite V by done. pose proof (covers_present s tm start end_ va Hst Hva) as Hco. fold ps in Hco.
    assert (tm' = tm ∨ KERNEL_BASE ≤ va → view s tm' va = view s tm va) as Ek by (intros [->|Ho]; [done|by eapply view_kernel]).
    apply decide_ext. rewrite Hco. split.
    + intros [[Hr Hp] Ho]. by rewrite Ek.
    + intros (Hr & Hp & Ho). by rewrite Ek in Hp.
  - intros e. unfold protected, prot_write, prot_user. field_simpl. by repeat case_match.
  - rewrite P. clear. induction ps; [done|]. done.
  - by apply M.
  - apply caches_foldl; [intros ???; apply caches_noted|done|].
    clear - Hlen Hst H0 Hend Hl. unfold range_pages, PAGE_SIZE, word in *. Z.div_mod_to_equations. lia.
  - clear. revert v. induction ps as [|ve ps IH]; intros v; [done|]. cbn [foldl]. by rewrite IH.
Qed.

(** A range that ends on the last page of the address space: the end is rounded up to 0, so
    that [unmap_tmap] returns without having looked at a single entry. *)
Theorem unmap_last_page s tm v start end_ :
  ts_maps s !! tm = Some v → word start → 2 ^ 32 - PAGE_SIZE < end_ < 2 ^ 32 → unmap_tmap tm start end_ s = Ok (NO_ERROR, s).
Proof.
  intros Hv [Hst _] Hend. destruct (wp_run (unmap_tmap tm start end_) s NO_ERROR (λ s', s' = s)) as (s' & E & ->); [|done].
  assert (ROUNDUP_PAGE end_ = 0) as E.
  { unfold ROUNDUP_PAGE. rewrite land_PAGE_MASK by apply word_u32.
    unfold uwrap, PAGE_SIZE in *. rewrite <- (Z_mod_plus_full _ (-1)), Z.mod_small by lia.
    rewrite Z.div_small by lia. done. }
  unfold unmap_tmap, walk_range. wp_go. eapply wp_ld_map; [done|]. wp_go. rewrite E. unfold range_fuel. cbn [range_loop].
  rewrite (proj2 (Z.leb_le _ _)); [by wp_go|]. unfold ROUNDOWN, PAGE_SIZE. Z.div_mod_to_equations. lia.
Qed.
End props.

(** ** Witnesses *)

#[local] Existing Instances example_mutex_laws example_window example_window_laws.
#[local] Opaque example_tms.

(** The page at 0x401000 of the process, with frame 18, writable. *)
Definition example_mapped : @tms heap_allocator example_window :=
  outcome (map_page example_tm 0x401000 18 VM_PROT_WRITE) example_tms.

Lemma example_mapped_ok : tms_ok example_mapped [example_ktm; example_tm] [] ∧
  page_added [example_ktm; example_tm] example_tm 0x401000 18 (page_entry 0x401000 0x12000 VM_PROT_WRITE) example_tms example_mapped.
Proof.
  set (P := λ s : @tms heap_allocator example_window, tms_ok s [example_ktm; example_tm] [] ∧
    page_added [example_ktm; example_tm] example_tm 0x401000 18 (page_entry 0x401000 0x12000 VM_PROT_WRITE) example_tms s).
  enough (wp (map_page example_tm 0x401000 18 VM_PROT_WRITE) example_tms (λ _, P)) as H by exact (wp_outcome _ _ P H).
  eapply (wp_map_page _ [example_ktm; example_tm]); [exact example_ok|by_decide|exact (proj1 example_maps)|apply example_lock; by_decide|
    by_decide|by_decide|exact example_page|intros _; exact example_free|]. intros s Hs Hp. exact (conj Hs Hp).
Qed.

#[local] Opaque example_mapped.

Lemma example_mapped_view va : word va → view example_mapped example_tm va =
  if decide (va / PAGE_SIZE = 0x401) then page_entry 0x401000 0x12000 VM_PROT_WRITE else 0.
Proof.
  intros Hva. rewrite (pa_view _ _ _ _ _ _ _ (proj2 example_mapped_ok)) by (done || by_decide). change (0x401000 / PAGE_SIZE) with 0x401.
  rewrite example_no_page by done. apply decide_ext. tauto.
Qed.

Lemma example_mapped_page : has_page example_mapped 18.
Proof.
  destruct example_page as (a & p & Ha & Ep). destruct (pa_pages _ _ _ _ _ _ _ (proj2 example_mapped_ok) a p Ha) as (p' & Ha' & E & _).
  exists a, p'. split; [done|congruence].
Qed.

Lemma example_mapped_lock : lock_free example_mapped example_tm.
Proof.
  destruct (example_lock example_tm) as [Hl Ha]; [by_decide|]. split; [|exact Ha].
  exact (eq_trans (f_equal (λ c, locks c !! tmap_lock example_tm) (pa_cpus _ _ _ _ _ _ _ (proj2 example_mapped_ok))) Hl).
Qed.

Lemma map_query_roundtrip_witness :
  ∃ s', map_page example_tm 0x401000 18 VM_PROT_WRITE example_tms = Ok (tt, s') ∧
    ∃ s'', vm_query_paddr example_tm 0x401234 s' = Ok ((NO_ERROR, 0x12234, Z.lor VM_FLAG_PAGE_PRESENT 7), s'').
Proof.
  destruct (map_query_roundtrip example_tms [example_ktm; example_tm] example_tm (example_map 0x21000) 0x401000 0x401234 18 VM_PROT_WRITE)
    as (s' & E & _ & _ & s'' & E2); [exact example_ok|by_decide|exact (proj1 example_maps)|apply example_lock; by_decide|by_decide|by_decide|
      reflexivity|by_decide|exact example_page|intros _; exact example_free|].
  exists s'. split; [exact E|]. exists s''. exact E2.
Defined.


Lemma protect_tmap_correct_witness :
  ∃ s' v', protect_tmap example_tm 0x401000 0x401FFF VM_PROT_READ example_mapped = Ok (NO_ERROR, s') ∧
    fget F_rw (view example_mapped example_tm 0x401000) = 1 ∧ fget F_rw (view s' example_tm 0x401000) = 0 ∧
    fget F_base (view s' example_tm 0x401000) = 18 ∧ ts_maps s' !! example_tm = Some v'.
Proof.
  destruct example_mapped_ok as [Hok Hp]. destruct (pa_map _ _ _ _ _ _ _ Hp _ (proj1 example_maps)) as (v & Hv & _ & En).
  destruct (to_map _ _ _ Hok example_tm ltac:(by_decide)) as (u & d & [Hu _ _ _ Hc _]).
  assert (u = v) as -> by congruence.
  destruct (protect_tmap_correct example_mapped [example_ktm; example_tm] example_tm v 0x401000 0x401FFF VM_PROT_READ [])
    as (s' & v' & E & _ & V & _ & _ & Hv' & _); [exact Hok|by_decide|exact Hv|split; [exact En|split; [exact Hc|reflexivity]]|by_decide|by_decide|by_decide|].
  exists s', v'. split; [exact E|]. rewrite (V example_tm 0x401000) by by_decide. rewrite example_mapped_view by by_decide.
  split_and!; [reflexivity|reflexivity|reflexivity|exact Hv'].
Defined.

Lemma unmap_last_page_witness :
  unmap_tmap example_ktm 0xFFFFF000 0xFFFFFFFF example_tms = Ok (NO_ERROR, example_tms).
Proof.
  apply (unmap_last_page example_tms example_ktm (example_map 0x20000) 0xFFFFF000 0xFFFFFFFF); [exact (proj1 (proj2 example_maps))|by_decide|by_decide].
Defined.
