(* ===== verification/TransMapCreate.v ===== *)
(** * Creating translation maps

    A new map has the kernel's directory entries and none of its own: user space is empty,
    kernel space is that of all maps. *)

From stdpp Require Import gmap list.
From S2P Require Import Spinlock Prelude XList VmPage VmPageSpec Heap HeapSpec Alloc Mmu MapPool PageMapper PageMapperSpec PageMapperProps TransMap TransMapSpec TransMapWalk TransMapAlloc TransMapMap TransMapLock TransMapProps TransMapExample.
#[local] Open Scope Z_scope.

Section create.
Context {A : Allocator} {W : Window} {WL : WindowLaws W}.
Implicit Types s : tms.

(** The directory [vm_tmap_common_create] makes of [junk] and the kernel's. *)
Definition new_dir (kernel junk : list Z) : list Z :=
  list_inserts (Z.to_nat FIRST_KERNEL_PGDIR_ENTRY)
    (take (Z.to_nat NUM_KERNEL_PGDIR_ENTRIES) (drop (Z.to_nat FIRST_KERNEL_PGDIR_ENTRY) kernel))
    (list_inserts (Z.to_nat FIRST_USER_PGDIR_ENTRY) (replicate (Z.to_nat NUM_USER_PGDIR_ENTRIES) 0) junk).

Lemma new_dir_lookup kernel junk i : length kernel = Z.to_nat MAX_PDENTS → length junk = Z.to_nat MAX_PDENTS → 0 ≤ i < MAX_PDENTS →
  new_dir kernel junk !! Z.to_nat i = if decide (FIRST_KERNEL_PGDIR_ENTRY ≤ i) then kernel !! Z.to_nat i else Some 0.
Proof.
  intros Hk Hj Hi. unfold new_dir. change FIRST_KERNEL_PGDIR_ENTRY with 768. change FIRST_USER_PGDIR_ENTRY with 0.
  change NUM_USER_PGDIR_ENTRIES with 768. change NUM_KERNEL_PGDIR_ENTRIES with 256. unfold MAX_PDENTS in *. case_decide.
  - rewrite list_lookup_inserts by (rewrite ?length_take, ?length_drop, ?length_inserts; lia).
    rewrite lookup_take_lt by lia. rewrite lookup_drop. f_equal. lia.
  - rewrite list_lookup_inserts_lt by lia. rewrite list_lookup_inserts by (rewrite ?length_replicate; lia).
    apply lookup_replicate_2. lia.
Qed.

Lemma new_dir_length kernel junk : length (new_dir kernel junk) = length junk.
Proof. unfold new_dir. by rewrite !length_inserts. Qed.

Lemma new_dir_words kernel junk : length kernel = Z.to_nat MAX_PDENTS → length junk = Z.to_nat MAX_PDENTS → Forall word kernel →
  Forall word (new_dir kernel junk).
Proof.
  intros Hk Hj Hw. apply Forall_lookup_2. intros i w Hi. pose proof (lookup_lt_Some _ _ _ Hi) as Hlt. rewrite new_dir_length, Hj in Hlt.
  rewrite <- (Nat2Z.id i), new_dir_lookup in Hi by (done || (unfold MAX_PDENTS in *; lia)). case_decide.
  - by eapply Forall_lookup_1 in Hw.
  - injection Hi as <-. apply word_0.
Qed.

(** What a new map needs. *)
Record creatable s (tl : list Z) (tm : Z) : Prop := {
  cr_map : ∃ v, ts_maps s !! tm = Some v ∧ length (tm_pages_to_invalidate v) = Z.to_nat PAGE_INVALIDATE_CACHE_SIZE;
  cr_fresh : tm ∉ tl;
  cr_node : valid_ptr tm ∧ is_Some (nodes (ts_lists s) !! tm);
  cr_lock : is_Some (locks (cpus (ts_vm s)) !! tmap_lock tm);
  cr_apart : tmap_lock tm ≠ page_lock ∧ tmap_lock tm ≠ tmap_list_lock }.

(** No map on the list has the directory [pgdir]. *)
Definition dir_unused s (tl : list Z) (pgdir : Z) : Prop :=
  ∀ tm' v, tm' ∈ tl → ts_maps s !! tm' = Some v → tm_pgdir_virt v ≠ pgdir.

Lemma tms_eq s s' : ts_vm s = ts_vm s' → ts_lists s = ts_lists s' → ts_maps s = ts_maps s' → ts_dirs s = ts_dirs s' →
  ts_win s = ts_win s' → ts_heap s = ts_heap s' → ts_tlb s = ts_tlb s' → kernel_pgdir_virt s = kernel_pgdir_virt s' →
  kernel_pgdir_phys s = kernel_pgdir_phys s' → s = s'.
Proof. destruct s, s'; simpl. by intros -> -> -> -> -> -> -> -> ->. Qed.

Definition made (pv pp : Z) (v : tmap) : tmap := TMap true 0 pv pp 0 (tm_pages_to_invalidate v).

(** The new map among the others. *)
Record map_made (tl : list Z) (tm pv pp : Z) s s' : Prop := {
  mm_view va : word va → view s' tm va = if decide (KERNEL_BASE ≤ va) then view s' (hd tm tl) va else 0;
  mm_views tm' va : tm' ∈ tl → word va → view s' tm' va = view s tm' va;
  mm_map v : ts_maps s !! tm = Some v → ts_maps s' = <[tm := made pv pp v]> (ts_maps s);
  mm_pages : pages (ts_vm s') = pages (ts_vm s);
  mm_heap : ts_heap s' = ts_heap s;
  mm_lock : lock_free s' tm }.

Definition made_state (tm pv pp : Z) (v : tmap) (d : list Z) (x : xstore) s : tms :=
  upd_lists x (upd_dirs (<[pv := d]> (ts_dirs s)) (put_map tm (made pv pp v)
    (set_cpu (Cpu (<[tmap_lock tm := SPIN_UNLOCKED]> (locks (cpus (ts_vm s)))) (irqs (cpus (ts_vm s)))) s))).

Section made.
Context (s : tms) (tl : list Z) (Lw : list (Z * Z)) (tm pv pp km : Z) (v kv : tmap) (kd junk : list Z) (x : xstore).
Context (Hs : tms_ok s tl Lw) (Hcr : creatable s tl tm) (Hdir : dir_unused s tl pv) (Hv : ts_maps s !! tm = Some v).
Context (Hkm : km ∈ tl) (Hkrep : map_rep s km kv kd) (Hjl : length junk = Z.to_nat MAX_PDENTS).
Context (Hx : is_xlist x tmap_list (tm :: tl)).
Abbreviation s' := (made_state tm pv pp v (new_dir kd junk) x s).

Lemma made_old tm' u d : tm' ∈ tl → map_rep s tm' u d → map_rep s' tm' u d.
Proof.
  intros Ht [Hm Hd Hl Hw Hc Hn]. split; try done; simpl.
  - rewrite lookup_insert_ne; [done|]. intros <-. by apply (cr_fresh _ _ _ Hcr).
  - rewrite lookup_insert_ne; [done|]. intros E. by apply (Hdir tm' u Ht Hm).
Qed.

Lemma made_new : map_rep s' tm (made pv pp v) (new_dir kd junk).
Proof.
  destruct (cr_map _ _ _ Hcr) as (v' & Hv' & Hc). assert (v' = v) as -> by congruence. destruct Hkrep. split; simpl; try done.
  - by rewrite lookup_insert_eq.
  - by rewrite lookup_insert_eq.
  - by rewrite new_dir_length.
  - by apply new_dir_words.
Qed.

Lemma made_pde_old tm' i : tm' ∈ tl → 0 ≤ i < MAX_PDENTS → pde_at s' tm' i = pde_at s tm' i.
Proof.
  intros Ht Hi. destruct (to_map _ _ _ Hs tm' Ht) as (u & d & Hr). pose proof (made_old tm' u d Ht Hr) as Hr'.
  destruct (map_rep_pde _ _ _ _ i Hr Hi) as (w & -> & E & _), (map_rep_pde _ _ _ _ i Hr' Hi) as (w' & -> & E' & _). congruence.
Qed.

Lemma made_pde_new i : 0 ≤ i < MAX_PDENTS →
  pde_at s' tm i = if decide (FIRST_KERNEL_PGDIR_ENTRY ≤ i) then pde_at s km i else Some 0.
Proof.
  intros Hi. destruct (map_rep_pde _ _ _ _ i made_new Hi) as (w & -> & E & _), (map_rep_pde _ _ _ _ i Hkrep Hi) as (w' & -> & E' & _).
  rewrite new_dir_lookup in E by (done || apply Hkrep). case_decide; congruence.
Qed.

Lemma made_table tm' i b : tm' ∈ tm :: tl → 0 ≤ i < MAX_PDENTS → table_at s' tm' i = Some b →
  tm' = tm ∧ FIRST_KERNEL_PGDIR_ENTRY ≤ i ∧ table_at s km i = Some b ∨ tm' ∈ tl ∧ table_at s tm' i = Some b.
Proof.
  intros [->|Ht]%elem_of_cons Hi E.
  - left. unfold table_at in *. rewrite made_pde_new in E by done. case_decide; [done|]. by simpl in E.
  - right. unfold table_at in *. by rewrite made_pde_old in E.
Qed.

Lemma made_ok : tms_ok s' (tm :: tl) Lw.
Proof.
  pose proof made_pde_old as Hold. pose proof made_pde_new as Hnew. pose proof made_table as Htab. pose proof made_new as Hrep.
  pose proof (cr_apart _ _ _ Hcr) as [Hnp Hnl]. pose proof Hs as [Ovm Opl Oll Ofr Ocl Oli Oma Odi Oke Okd Ota Oap Owi Osl].
  split; try done.
  - by apply vmp_inv_cpu.
  - unfold unlocked. simpl. by rewrite lookup_insert_ne.
  - simpl. by rewrite lookup_insert_ne.
  - intros tm' [->|Ht]%elem_of_cons; [by eexists _, _|]. destruct (Oma tm' Ht) as (u & d & Hr). exists u, d. by apply made_old.
  - intros tm1 tm2 v1 v2 [->|H1]%elem_of_cons [->|H2]%elem_of_cons; simpl; try done.
    + rewrite lookup_insert_eq, lookup_insert_ne by (intros ->; by apply (cr_fresh _ _ _ Hcr)).
      intros [= <-] E2 E. by destruct (Hdir tm2 v2 H2 E2).
    + rewrite lookup_insert_eq, lookup_insert_ne by (intros ->; by apply (cr_fresh _ _ _ Hcr)).
      intros E1 [= <-] E. by destruct (Hdir tm1 v1 H1 E1).
    + rewrite !lookup_insert_ne by (intros ->; by apply (cr_fresh _ _ _ Hcr)). by apply Odi.
  - assert (∀ tm' i, tm' ∈ tm :: tl → FIRST_KERNEL_PGDIR_ENTRY ≤ i < MAX_PDENTS → pde_at s' tm' i = pde_at s km i) as Hk.
    { intros tm' i [->|Ht]%elem_of_cons Hi; assert (0 ≤ i < MAX_PDENTS) by (change FIRST_KERNEL_PGDIR_ENTRY with 768 in *; lia).
      - rewrite Hnew by done. by rewrite decide_True by apply Hi.
      - rewrite Hold by done. by apply Oke. }
    intros tm1 tm2 i H1 H2 Hi. by rewrite !Hk.
  - destruct Okd as (k & ku & Hk & Hku & E). exists k, ku. split_and!; [by right| |done]. simpl.
    rewrite lookup_insert_ne; [done|]. intros <-. by apply (cr_fresh _ _ _ Hcr).
  - intros tm' i b Ht Hi [(-> & _ & E)|[Ht' E]]%Htab; try done; [by apply (Ota km i b)|by apply (Ota tm' i b)].
  - intros tm1 tm2 i1 i2 b H1 H2 Hi1 Hi2 [(-> & Hk1 & E1)|[Ht1 E1]]%Htab [(-> & Hk2 & E2)|[Ht2 E2]]%Htab; try done.
    + destruct (Oap km km i1 i2 b) as [-> _]; auto.
    + destruct (Oap km tm2 i1 i2 b) as [-> _]; auto.
    + destruct (Oap tm1 km i1 i2 b) as [-> _]; auto.
    + by apply (Oap tm1 tm2 i1 i2 b).
Qed.

Lemma made_map_made : map_made tl tm pv pp s s'.
Proof.
  pose proof made_pde_old as Hold. pose proof made_pde_new as Hnew. pose proof made_ok as Hok.
  assert (∀ tm' va, tm' ∈ tl → word va → view s' tm' va = view s tm' va) as Hv2.
  { intros tm' va Ht Hva. destruct (word_split va Hva) as (HI & _). apply view_ext; [by apply Hold|done]. }
  split; try done.
  - intros va Hva. destruct (word_split va Hva) as (HI & _). pose proof (kernel_entry va Hva) as Hke. case_decide as E.
    + destruct tl as [|t0 tl0] eqn:El; [done|]. rewrite <- El in *. eapply (view_kernel _ (tm :: tl)); try done; [subst; set_solver|by left].
    + unfold view, table_at. rewrite Hnew, decide_False by (done || tauto). done.
  - intros u Hu. assert (u = v) as -> by congruence. done.
  - pose proof (cr_apart _ _ _ Hcr). split; [|done]. simpl. by rewrite lookup_insert_eq.
Qed.
End made.

Lemma wp_common_create s tl Lw tm pv pp junk (Q : Z → tms → Prop) :
  tms_ok s tl Lw → creatable s tl tm → dir_unused s tl pv → ts_dirs s !! pv = Some junk → length junk = Z.to_nat MAX_PDENTS →
  (∀ s', tms_ok s' (tm :: tl) Lw → map_made tl tm pv pp s s' → Q NO_ERROR s') → wp (vm_tmap_common_create tm pv pp) s Q.
Proof.
  intros Hs Hcr Hdir Hjunk Hjl HQ. pose proof Hcr as [(v & Hv & Hc) Hfresh [Hvp Hnode] Hlk [Hnp Hnl]].
  destruct (to_kdir _ _ _ Hs) as (km & kv & Hkm & Hkv & Ekv).
  destruct (to_map _ _ _ Hs km Hkm) as (kv' & kd & Hkrep). assert (kv' = kv) as -> by (destruct Hkrep; congruence).
  pose proof Hkrep as [_ Hkd Hkl Hkw _ _]. rewrite Ekv in Hkd.
  assert (kernel_pgdir_virt s ≠ pv) as Hkne by (rewrite <- Ekv; by eapply Hdir).
  unfold vm_tmap_common_create, on_cpu, zero_entries, copy_entries. wp_go. eapply wp_st_map; [exact Hv|]. wp_go.
  apply (wp_spin_unlock _ (tmap_lock tm)); [done|]. wp_go. eapply wp_load; [exact Hjunk|]. wp_go.
  apply wp_spin_lock_irqsave; [cbn [ts_vm cpus upd_cpu locks ts_dirs upd_dirs upd_vm put_map upd_maps]; rewrite lookup_insert_ne by done; apply Hs|]. wp_go.
  eapply wp_load; [cbn [ts_dirs upd_dirs upd_vm put_map upd_maps]; apply lookup_insert_eq|]. wp_go.
  eapply wp_load; [cbn [ts_dirs upd_dirs upd_vm put_map upd_maps]; rewrite lookup_insert_ne by done; exact Hkd|]. wp_go.
  eapply wp_xlist_add_first; [apply (to_list _ _ _ Hs)|done..|]. intros x Hx _. wp_go.
  apply wp_spin_unlock_irqrstor; [cbn [ts_vm cpus upd_cpu locks ts_dirs upd_lists upd_dirs upd_vm put_map upd_maps]; rewrite lookup_insert_eq; by eexists|]. wp_go.
  match goal with |- Q _ ?y => assert (y = made_state tm pv pp v (new_dir kd junk) x s) as -> end.
  { apply tms_eq; cbn [ts_vm ts_lists ts_maps ts_dirs ts_win ts_heap ts_tlb upd_vm upd_lists upd_dirs put_map upd_maps made_state set_cpu]; try done.
    - cbn [cpus upd_cpu locks irqs]. match goal with |- upd_cpu ?c _ = upd_cpu ?d _ => assert (c = d) as -> end; [|done].
      f_equal. rewrite insert_insert_eq, insert_id; [done|].
      rewrite lookup_insert_ne by done. apply Hs.
    - by rewrite insert_insert_eq. }
  apply HQ; [by eapply made_ok|by eapply made_map_made].
Qed.

(** A block of the allocator that is no directory yet. *)
Lemma add_dir_ok s tl Lw pv h junk : tms_ok s tl Lw → ts_dirs s !! pv = None →
  let s1 := upd_dirs (<[pv := junk]> (ts_dirs s)) (upd_heap h s) in
  tms_ok s1 tl Lw ∧ ∀ tm va, tm ∈ tl → word va → view s1 tm va = view s tm va.
Proof.
  intros Hs Hnone s1. assert (∀ tm v d, map_rep s tm v d → map_rep s1 tm v d) as Hrep.
  { intros tm v d Hr. pose proof Hr as []. split; try done. simpl. rewrite lookup_insert_ne; [done|]. intros E. congruence. }
  assert (∀ tm i, tm ∈ tl → 0 ≤ i < MAX_PDENTS → pde_at s1 tm i = pde_at s tm i) as Hpde.
  { intros tm i Ht Hi. destruct (to_map _ _ _ Hs tm Ht) as (u & d & Hr). pose proof (Hrep tm u d Hr) as Hr'.
    destruct (map_rep_pde _ _ _ _ i Hr Hi) as (w & -> & E & _), (map_rep_pde _ _ _ _ i Hr' Hi) as (w' & -> & E' & _). congruence. }
  assert (∀ tm i b, tm ∈ tl → 0 ≤ i < MAX_PDENTS → table_at s1 tm i = Some b → table_at s tm i = Some b) as Htab
    by (intros tm i b Ht Hi; unfold table_at; by rewrite Hpde).
  split.
  - pose proof Hs as [? ? ? ? ? ? Hmap ? Hker ? Hta Hap ? ?]. split; try done.
    + intros tm Ht. destruct (Hmap tm Ht) as (u & d & Hr). exists u, d. by apply Hrep.
    + intros tm tm' i Ht Ht' Hi. assert (0 ≤ i < MAX_PDENTS) by (change FIRST_KERNEL_PGDIR_ENTRY with 768 in *; lia).
      rewrite !Hpde by done. by apply Hker.
    + intros tm i b Ht Hi E%Htab; [|done..]. by apply (Hta tm i b).
    + intros tm tm' i i' b Ht Ht' Hi Hi' E%Htab E'%Htab; try done. by eapply Hap.
  - intros tm va Ht Hva. destruct (word_split va Hva) as (HI & _). apply view_ext; [by apply Hpde|done].
Qed.

(** C28: [vm_tmap_create] gives a map a page directory from the allocator, with no page in user
    space and the kernel's pages in kernel space, and puts it on the list of maps, whose
    invariant is kept and whose entries stay; the lock of the new map is free and nothing is
    counted. When the allocator has no page the kernel panics, the error of the code for it
    being unreachable; without a map the arguments are refused. *)
Theorem vm_tmap_create_correct {AL : AllocLaws A} s tl ktm kv junk tm L :
  tms_ok s tl [] → ktm ∈ tl → ts_maps s !! ktm = Some kv → lock_free s ktm →
  creatable s tl tm → tmap_lock tm ≠ tmap_lock ktm → length junk = Z.to_nat MAX_PDENTS →
  al_live (ts_heap s) L → (∀ a h', al_alloc PAGE_SIZE (ts_heap s) = Ok (a, h') → ts_dirs s !! a = None) →
  (al_room (ts_heap s) PAGE_SIZE → ∃ s' pv pp, vm_tmap_create ktm junk tm s = Ok (NO_ERROR, s') ∧
     tms_ok s' (tm :: tl) [] ∧ pv ∉ L ∧ al_live (ts_heap s') ({[pv]} ∪ L) ∧
     (∀ va, word va → view s' tm va = if decide (KERNEL_BASE ≤ va) then view s ktm va else 0) ∧
     (∀ tm' va, tm' ∈ tl → word va → view s' tm' va = view s tm' va) ∧
     (∃ v', ts_maps s' !! tm = Some v' ∧ tm_pgdir_virt v' = pv ∧ tm_pgdir_phys v' = pp ∧ tm_map_count v' = 0 ∧ tm_ops v' = true) ∧
     pages (ts_vm s') = pages (ts_vm s) ∧ lock_free s' tm) ∧
  (¬ al_room (ts_heap s) PAGE_SIZE → vm_tmap_create ktm junk tm s = Panic) ∧
  vm_tmap_create ktm junk NULL s = Ok (ERR_INVALID_ARGS, s).
Proof.
  intros Hs Hk Hkv Hlk Hcr Hne Hjl Hlive Hfr. assert ((tm =? NULL) = false) as Hnn.
  { destruct (cr_node _ _ _ Hcr) as [Hvp _]. by apply valid_ptr_nonnull. }
  split_and!; [|intros Hno; unfold vm_tmap_create; rewrite Hnn|done].
  2: { unfold mbind, M_bind, zoom. by rewrite (al_alloc_exhausted (ts_heap s) L). }
  intros Hroom. destruct (wp_run (vm_tmap_create ktm junk tm) s NO_ERROR (λ s', ∃ pv pp s2,
    pv ∉ L ∧ al_live (ts_heap s') ({[pv]} ∪ L) ∧ tms_ok s' (tm :: tl) [] ∧ map_made tl tm pv pp s2 s' ∧
    (∀ tm' va, tm' ∈ tl → word va → view s2 tm' va = view s tm' va) ∧ pages (ts_vm s2) = pages (ts_vm s) ∧ is_Some (ts_maps s2 !! tm)))
    as (s' & E & pv & pp & s2 & Hpv & Hlive' & Hs' & [V Vs Hm Hp Hh Hl] & V2 & P2 & [v2 Hv2]).
  2: { exists s', pv, pp. assert (∀ tm' va, tm' ∈ tl → word va → view s' tm' va = view s tm' va) as Hold.
    { intros tm' va Ht Hva. by rewrite Vs, V2. }
    split; [done|]. split; [done|]. split; [done|]. split; [done|]. split_and!; try done.
    - intros va Hva. rewrite V by done. case_decide; [|done]. rewrite <- Hold by done.
      eapply (view_kernel _ (tm :: tl)); try done; [by right|]. destruct tl as [|t0 tl0]; [by left|right; by left].
    - exists (made pv pp v2). rewrite (Hm v2 Hv2), lookup_insert_eq. done.
    - by rewrite Hp. }
  unfold vm_tmap_create. rewrite Hnn. wp_go.
  assert (∃ a h', al_alloc PAGE_SIZE (ts_heap s) = Ok (a, h') ∧ a ∉ L ∧ word a ∧ a ≠ NULL ∧ al_live h' ({[a]} ∪ L)) as (pv & h & Eal & Hpv & Hpw & Hpn & Hlive').
  { enough (wp (al_alloc PAGE_SIZE) (ts_heap s) (λ a h', a ∉ L ∧ word a ∧ a ≠ NULL ∧ al_live h' ({[a]} ∪ L))) as Hw.
    { unfold wp in Hw. destruct (al_alloc PAGE_SIZE (ts_heap s)) as [[a h']| | |]; try done. by exists a, h'. }
    eapply al_alloc_ok; [done..|]. intros a h' ? ? ? ?. unfold word, NULL, PAGE_SIZE in *. split_and!; [done|lia..|done]. }
  eapply wp_of_ok; [exact Eal|]. rewrite (proj2 (Z.eqb_neq pv NULL)) by done. wp_go.
  set (s1 := upd_dirs _ _). pose proof (Hfr _ _ Eal) as Hnone.
  destruct (add_dir_ok s tl [] pv h junk Hs Hnone) as [Hs1 Hv1]. fold s1 in Hs1, Hv1.
  assert (dir_unused s tl pv) as Hdu.
  { intros tm' u Ht Hu <-. destruct (to_map _ _ _ Hs tm' Ht) as (u' & d & []). assert (u' = u) as -> by congruence. congruence. }
  eapply (wp_vm_query_paddr s1 tl ktm kv); [done..|]. intros s2 Hs2 Hc2 V2 P2 _ (El2 & Ed2 & Eh2) Em2.
  assert (∃ pp f, query_result s1 ktm pv = (NO_ERROR, pp, f)) as (pp & f & ->) by (unfold query_result; case_match; eauto).
  assert (is_Some (ts_maps s2 !! tm) ∧ ktm ≠ tm) as [[v2 Hv2] Hkne].
  { assert (ktm ≠ tm) as Hkne by (intros ->; by apply (cr_fresh _ _ _ Hcr)). split; [|done].
    rewrite Em2, lookup_insert_ne by done. destruct (cr_map _ _ _ Hcr) as (v & Hv & _). by exists v. }
  simpl. wp_go. eapply (wp_common_create s2 tl [] tm pv pp junk); [done| | |by rewrite Ed2; simpl; apply lookup_insert_eq|done|].
  - destruct Hcr as [(v & Hv & Hca) Hfresh [Hvp Hnode] Hlo Hap]. split; try done.
    + exists v. by rewrite Em2, lookup_insert_ne.
    + by rewrite El2.
    + by rewrite Hc2.
  - intros tm' u Ht Hu. rewrite Em2 in Hu. destruct (decide (tm' = ktm)) as [->|Hne'].
    + rewrite lookup_insert_eq in Hu. injection Hu as <-. by apply (Hdu ktm kv).
    + rewrite lookup_insert_ne in Hu by done. by apply (Hdu tm' u).
  - intros s' Hs' Hmm. simpl. wp_go. split; [done|]. exists pv, pp, s2. split_and!; try done.
    + rewrite (mm_heap _ _ _ _ _ _ Hmm), Eh2. done.
    + intros tm' va Ht Hva. by rewrite V2, Hv1.
Qed.
End create.

(** ** Witness *)

#[local] Existing Instances example_mutex_laws example_window example_window_laws.
#[local] Opaque example_tms example_heap.

Lemma example_creatable : creatable example_tms [example_ktm; example_tm] example_new ∧ tmap_lock example_new ≠ tmap_lock example_ktm.
Proof.
  split; [|by_decide]. split; [exists (example_map 0); split; [exact (proj2 (proj2 example_maps))|reflexivity]|by_decide| | |by_decide].
  - split; [by_decide|]. eexists. vm_compute. reflexivity.
  - eexists. vm_compute. reflexivity.
Qed.

Lemma example_dirs a h : kmalloc PAGE_SIZE example_heap = Ok (a, h) → ts_dirs example_tms !! a = None.
Proof.
  intros E. destruct (proj2 (kmalloc_spec example_heap ∅ PAGE_SIZE example_heap_ok) ltac:(by_decide)) as (k & (_ & Hsz & _) & H).
  case_decide; [congruence|]. destruct H as (a' & h' & E' & _ & (_ & _ & _ & Hlo & Hhi & _)).
  assert (a' = a) as -> by congruence.
  change (heap_base example_heap) with 8192 in *. change (heap_size example_heap) with 4096 in *.
  assert (map_Forall (λ d _, 12288 < d) (ts_dirs example_tms)) as Hd by by_decide.
  destruct (ts_dirs example_tms !! a) as [d|] eqn:Ed; [|done]. apply Hd in Ed. unfold PAGE_SIZE in Hsz. lia.
Qed.

Lemma example_tms_room : heap_room example_heap PAGE_SIZE.
Proof.
  split; [by_decide|]. intros k Hk. assert (k = 8%nat) as ->; [|by_decide].
  apply (best_bin_unique PAGE_SIZE); [done|]. split_and!; [by vm_compute; lia|by vm_compute|].
  intros j Hj. do 8 (destruct j as [|j]; [by vm_compute|]). lia.
Qed.

Lemma vm_tmap_create_correct_witness :
  (∃ s' pv pp, vm_tmap_create example_ktm example_dir example_new example_tms = Ok (NO_ERROR, s') ∧
     tms_ok s' [example_new; example_ktm; example_tm] [] ∧ al_live (ts_heap s') {[pv]} ∧ view s' example_new 0x401000 = 0 ∧
     ∃ v', ts_maps s' !! example_new = Some v' ∧ tm_pgdir_virt v' = pv ∧ tm_pgdir_phys v' = pp) ∧
  vm_tmap_create example_ktm example_dir NULL example_tms = Ok (ERR_INVALID_ARGS, example_tms).
Proof.
  destruct (vm_tmap_create_correct example_tms [example_ktm; example_tm] example_ktm (example_map 0x20000) example_dir example_new ∅)
    as (H & _ & Hnull); [exact example_ok|by_decide|exact (proj1 (proj2 example_maps))|apply example_lock; by_decide|
      exact (proj1 example_creatable)|exact (proj2 example_creatable)|reflexivity|exists ∅; split; [exact example_heap_ok|apply dom_empty_L]|exact example_dirs|].
  split; [|exact Hnull]. destruct (H example_tms_room) as (s' & pv & pp & E & Hs' & _ & Hl & V & _ & (v' & Hv' & E1 & E2 & _) & _).
  exists s', pv, pp. split; [exact E|]. split; [exact Hs'|]. split; [by rewrite union_empty_r_L in Hl|]. split; [by rewrite V by by_decide|].
  exists v'. split; [exact Hv'|]. split; [exact E1|exact E2].
Defined.
