(* ===== verification/Process.v ===== *)
(** * Processes: [kernel/process.c]

    A process is found by its identifier in an AVL tree, is on the list of all processes,
    keeps lists of its threads, children and semaphores, and counts the references to it.
    The state of the model is the static data of the file, the processes by address, the
    locks, list nodes, list headers and tree nodes inside them, each kind in a store of its
    own, the bytes of their names, the address spaces they refer to, and the state of the
    timer, with the scheduler and the heap in it. The flags of a process are with the
    scheduler, which reads them. *)

From S2P Require Import Spinlock Prelude XList AvlTree CString Alloc Sched Timer.
From stdpp Require Import gmap list.
#[local] Open Scope Z_scope.

(** ** Data *)

(** [process_t] *)
Record process := Process {
  pr_id : Z; pr_gid : Z; pr_sid : Z; pr_name : Z; pr_args : Z; pr_parent : Z; pr_state : Z;
  pr_ref_count : Z; pr_role : Z; pr_def_prio : Z; pr_def_policy : Z; pr_aid : Z; pr_aspace : Z;
  pr_main : Z }.

Definition sizeof_process : Z := 148.

(** The lock, the lists and the nodes of a process are inside it. *)
Definition proc_lock (p : Z) : Z := u32 (p + 72).

Definition proc_threads (p : Z) : Z := u32 (p + 80).

Definition proc_children (p : Z) : Z := u32 (p + 92).

Definition proc_semaphores (p : Z) : Z := u32 (p + 112).

Definition procs_list_node (p : Z) : Z := u32 (p + 124).

Definition procs_tree_node : Z := 132.

Definition proc_list_node (th : Z) : Z := u32 (th + 168).

Definition processes_lock : Z := 3.

Definition processes_list : Z := 4.

Definition processes_tree : Z := 4.

Definition INVALID_PROCESSID : Z := 0.

Definition VM_INVALID_ASPACEID : Z := 0.

Definition SYS_MAX_OS_NAME_LEN : Z := 64.

Definition ERR_MT_GENERAL : Z := s32 0x82000000.

Definition ERR_MT_INVALID_HANDLE : Z := s32 (0x82000000 + 1).

Definition PROCESS_STATE_NORMAL : Z := 0.

Definition PROCESS_STATE_BIRTH : Z := 1.

Definition PROCESS_STATE_DEATH : Z := 2.

Definition PROCESS_ROLE_KERNEL : Z := 0.

Definition PROCESS_ROLES_COUNT : Z := 3.

Definition SCHED_POLICY_SERVICE : Z := 2.

Definition SCHED_POLICY_KERNEL : Z := 4.

Definition THREAD_PRIORITY_NORMAL : Z := 56.

(** The policy and the priority of each role. *)
Definition process_roles_props : list (Z * Z) :=
  [(SCHED_POLICY_KERNEL, THREAD_PRIORITY_NORMAL + 8); (SCHED_POLICY_SERVICE, THREAD_PRIORITY_NORMAL + 4);
   (SCHED_POLICY_ORDINARY, THREAD_PRIORITY_NORMAL)].

(** The address spaces, as processes see them; [aspace_id]: the field of the structure. *)
Class Aspaces := {
  as_state : Type;
  vm_get_kernel_aspace_id : M as_state Z;
  vm_get_kernel_aspace : M as_state Z;
  vm_inc_aspace_refcnt : Z → M as_state Z;
  vm_put_aspace : Z → M as_state unit;
  aspace_id : Z → M as_state Z;
  vm_map_user_stub : Z → M as_state Z;
  arch_process_init : M as_state Z }.

Section process.
Context {A : Allocator} {V : Aspaces}.

Record procs := Procs {
  ps_timer : timer; ps_aspaces : as_state; ps_mem : gmap Z Z; ps_lists : xstore; ps_tree : astore;
  ps_procs : gmap Z process; next_process_id : Z; kernel_process : Z; ps_locks : gmap Z Z;
  ps_threads : xstore; ps_kin : xstore; ps_semlists : xstore }.

(** ** Access *)

Definition pupd_timer x s := Procs x (ps_aspaces s) (ps_mem s) (ps_lists s) (ps_tree s) (ps_procs s)
  (next_process_id s) (kernel_process s) (ps_locks s) (ps_threads s) (ps_kin s) (ps_semlists s).
Definition pupd_aspaces x s := Procs (ps_timer s) x (ps_mem s) (ps_lists s) (ps_tree s) (ps_procs s)
  (next_process_id s) (kernel_process s) (ps_locks s) (ps_threads s) (ps_kin s) (ps_semlists s).
Definition pupd_mem x s := Procs (ps_timer s) (ps_aspaces s) x (ps_lists s) (ps_tree s) (ps_procs s)
  (next_process_id s) (kernel_process s) (ps_locks s) (ps_threads s) (ps_kin s) (ps_semlists s).
Definition pupd_lists x s := Procs (ps_timer s) (ps_aspaces s) (ps_mem s) x (ps_tree s) (ps_procs s)
  (next_process_id s) (kernel_process s) (ps_locks s) (ps_threads s) (ps_kin s) (ps_semlists s).
Definition pupd_tree x s := Procs (ps_timer s) (ps_aspaces s) (ps_mem s) (ps_lists s) x (ps_procs s)
  (next_process_id s) (kernel_process s) (ps_locks s) (ps_threads s) (ps_kin s) (ps_semlists s).
Definition pupd_procs x s := Procs (ps_timer s) (ps_aspaces s) (ps_mem s) (ps_lists s) (ps_tree s) x
  (next_process_id s) (kernel_process s) (ps_locks s) (ps_threads s) (ps_kin s) (ps_semlists s).
Definition pupd_next x s := Procs (ps_timer s) (ps_aspaces s) (ps_mem s) (ps_lists s) (ps_tree s) (ps_procs s)
  x (kernel_process s) (ps_locks s) (ps_threads s) (ps_kin s) (ps_semlists s).
Definition pupd_kernel x s := Procs (ps_timer s) (ps_aspaces s) (ps_mem s) (ps_lists s) (ps_tree s) (ps_procs s)
  (next_process_id s) x (ps_locks s) (ps_threads s) (ps_kin s) (ps_semlists s).
Definition pupd_locks x s := Procs (ps_timer s) (ps_aspaces s) (ps_mem s) (ps_lists s) (ps_tree s) (ps_procs s)
  (next_process_id s) (kernel_process s) x (ps_threads s) (ps_kin s) (ps_semlists s).
Definition pupd_threads x s := Procs (ps_timer s) (ps_aspaces s) (ps_mem s) (ps_lists s) (ps_tree s) (ps_procs s)
  (next_process_id s) (kernel_process s) (ps_locks s) x (ps_kin s) (ps_semlists s).
Definition pupd_kin x s := Procs (ps_timer s) (ps_aspaces s) (ps_mem s) (ps_lists s) (ps_tree s) (ps_procs s)
  (next_process_id s) (kernel_process s) (ps_locks s) (ps_threads s) x (ps_semlists s).
Definition pupd_semlists x s := Procs (ps_timer s) (ps_aspaces s) (ps_mem s) (ps_lists s) (ps_tree s) (ps_procs s)
  (next_process_id s) (kernel_process s) (ps_locks s) (ps_threads s) (ps_kin s) x.

Definition ps_sched (s : procs) : sched := tm_sched (ps_timer s).

Definition pupd_sched (x : sched) (s : procs) : procs := pupd_timer (Timer.upd_sched x (ps_timer s)) s.

Definition ps_cpu (s : procs) : cpu := sc_cpu (ps_sched s).

Definition pupd_cpu (x : cpu) (s : procs) : procs := pupd_sched (upd_cpu x (ps_sched s)) s.

Definition ps_heap (s : procs) : al_state := tm_heap (ps_timer s).

Definition pupd_heap (x : al_state) (s : procs) : procs := pupd_timer (Timer.upd_heap x (ps_timer s)) s.

Abbreviation on_sched := (zoom ps_sched pupd_sched).
Abbreviation on_cpu := (zoom ps_cpu pupd_cpu).
Abbreviation on_heap := (zoom ps_heap pupd_heap).
Abbreviation on_aspaces := (zoom ps_aspaces pupd_aspaces).
Abbreviation on_mem := (zoom ps_mem pupd_mem).
Abbreviation on_lists := (zoom ps_lists pupd_lists).
Abbreviation on_tree := (zoom ps_tree pupd_tree).
Abbreviation on_threads := (zoom ps_threads pupd_threads).
Abbreviation on_kin := (zoom ps_kin pupd_kin).
Abbreviation on_semlists := (zoom ps_semlists pupd_semlists).

(** The locks of the processes, on the same processor. *)
Definition on_proc_locks {B} : M cpu B → M procs B :=
  zoom (λ s, Cpu (ps_locks s) (irqs (ps_cpu s)))
       (λ c s, pupd_cpu (Cpu (locks (ps_cpu s)) (irqs c)) (pupd_locks (locks c) s)).

Definition ld_proc (p : Z) : M procs process := load (λ s, ps_procs s !! p).

Definition st_proc (p : Z) (v : process) : M procs unit := modify (λ s, pupd_procs (<[p := v]> (ps_procs s)) s).

Definition with_ref_count n v := Process (pr_id v) (pr_gid v) (pr_sid v) (pr_name v) (pr_args v) (pr_parent v)
  (pr_state v) n (pr_role v) (pr_def_prio v) (pr_def_policy v) (pr_aid v) (pr_aspace v) (pr_main v).
Definition with_pstate x v := Process (pr_id v) (pr_gid v) (pr_sid v) (pr_name v) (pr_args v) (pr_parent v)
  x (pr_ref_count v) (pr_role v) (pr_def_prio v) (pr_def_policy v) (pr_aid v) (pr_aspace v) (pr_main v).
Definition with_names n a v := Process (pr_id v) (pr_gid v) (pr_sid v) n a (pr_parent v)
  (pr_state v) (pr_ref_count v) (pr_role v) (pr_def_prio v) (pr_def_policy v) (pr_aid v) (pr_aspace v) (pr_main v).
Definition with_ids i g v := Process i g (pr_sid v) (pr_name v) (pr_args v) (pr_parent v)
  (pr_state v) (pr_ref_count v) (pr_role v) (pr_def_prio v) (pr_def_policy v) (pr_aid v) (pr_aspace v) (pr_main v).
Definition with_parent x v := Process (pr_id v) (pr_gid v) (pr_sid v) (pr_name v) (pr_args v) x
  (pr_state v) (pr_ref_count v) (pr_role v) (pr_def_prio v) (pr_def_policy v) (pr_aid v) (pr_aspace v) (pr_main v).
Definition with_role r prio pol v := Process (pr_id v) (pr_gid v) (pr_sid v) (pr_name v) (pr_args v) (pr_parent v)
  (pr_state v) (pr_ref_count v) r prio pol (pr_aid v) (pr_aspace v) (pr_main v).
Definition with_aspace i a v := Process (pr_id v) (pr_gid v) (pr_sid v) (pr_name v) (pr_args v) (pr_parent v)
  (pr_state v) (pr_ref_count v) (pr_role v) (pr_def_prio v) (pr_def_policy v) i a (pr_main v).

(** A store to fields of a process. *)
Definition set_proc (p : Z) (f : process → process) : M procs unit := v ← ld_proc p; st_proc p (f v).

(** [atomic_inc] and [atomic_dec] of the reference count. *)
Definition inc_ref (p : Z) : M procs unit := set_proc p (λ v, with_ref_count (u32 (pr_ref_count v + 1)) v).

Definition dec_ref (p : Z) : M procs unit := set_proc p (λ v, with_ref_count (u32 (pr_ref_count v - 1)) v).

Definition PASSERT (b : bool) : M procs unit := if b then mret tt else panic.

(** [thread->lock != 0] *)
Definition passert_locked (th : Z) : M procs unit := on_sched (assert_locked th).

(** ** Memory *)

(** A fresh block of [n] bytes; [fill]: what it holds. *)
Definition fresh_bytes (fill : Z → Z) (a n : Z) (m : gmap Z Z) : gmap Z Z :=
  foldr (λ i, <[a + i := u8 (fill (a + i))]>) m (seqZ 0 n).

Definition kstrdup (fill : Z → Z) (text : Z) : M procs Z :=
  n ← on_mem (strlen text);
  buf ← on_heap (al_alloc (u32 (n + 1)));
  if negb (buf =? NULL) then
    modify (λ s, pupd_mem (fresh_bytes fill buf (u32 (n + 1)) (ps_mem s)) s);;
    on_mem (strcpy buf text);;
    mret buf
  else mret buf.

Definition zero_process : process := Process 0 0 0 0 0 0 0 0 0 0 0 0 0 0.

Definition zero_elem : list_elem := ListElem 0 0.

Definition zero_list : xlist := XListHdr 0 0 0.

Definition zero_anode : anode := ANode 0 0 0 0 0.

(** The flags of the processes, kept by the scheduler. *)
Definition pupd_flags (f : gmap Z Z → gmap Z Z) (s : procs) : procs :=
  let sc := ps_sched s in
  pupd_sched (Sched (sc_lists sc) (sc_cpu sc) (sc_threads sc) (f (sc_proc_flags sc)) (sched_ticks sc)
    (sched_lost_ticks sc) (sched_tick_type sc) (quanta sc) (shuffle_factor sc) (total_count sc)
    (idle_thread sc) (current_thread sc)) s.

Definition with_list (l : Z) (x : xstore) : xstore := XStore (nodes x) (<[l := zero_list]> (lists x)).

Definition less_list (l : Z) (x : xstore) : xstore := XStore (nodes x) (delete l (lists x)).

(** The process of [kmalloc] and [memset]. *)
Definition add_process (p : Z) (s : procs) : procs :=
  pupd_procs (<[p := zero_process]> (ps_procs s))
    (pupd_lists (XStore (<[procs_list_node p := zero_elem]> (nodes (ps_lists s))) (lists (ps_lists s)))
      (pupd_tree (AStore (<[AVL_DATA2NODE p procs_tree_node := zero_anode]> (anodes (ps_tree s))) (atrees (ps_tree s)))
        (pupd_threads (with_list (proc_threads p) (ps_threads s))
          (pupd_kin (with_list (proc_children p) (ps_kin s))
            (pupd_semlists (with_list (proc_semaphores p) (ps_semlists s))
              (pupd_locks (<[proc_lock p := 0]> (ps_locks s)) (pupd_flags (insert p 0) s))))))).

Definition drop_process (p : Z) (s : procs) : procs :=
  pupd_procs (delete p (ps_procs s))
    (pupd_lists (XStore (delete (procs_list_node p) (nodes (ps_lists s))) (lists (ps_lists s)))
      (pupd_tree (AStore (delete (AVL_DATA2NODE p procs_tree_node) (anodes (ps_tree s))) (atrees (ps_tree s)))
        (pupd_threads (less_list (proc_threads p) (ps_threads s))
          (pupd_kin (less_list (proc_children p) (ps_kin s))
            (pupd_semlists (less_list (proc_semaphores p) (ps_semlists s))
              (pupd_locks (delete (proc_lock p) (ps_locks s)) (pupd_flags (delete p) s))))))).

(** ** The table of processes *)

(** [compare_process_id] on the processes of a state; [ids] gives the identifiers of objects
    that are no processes. *)
Definition compare_process_id (ids : Z → Z) (p1 p2 : Z) : Z :=
  if ids p2 <? ids p1 then 1 else if ids p1 <? ids p2 then -1 else 0.

Definition process_client (ids : Z → Z) : AvlClient := {| avl_compare := compare_process_id ids |}.

Definition pid_of (m : gmap Z process) (p : Z) : Z := default 0 (pr_id <$> m !! p).

(** The identifiers when a lookup key [pid] is at the address [key]. *)
Definition pid_key (m : gmap Z process) (key pid p : Z) : Z := if p =? key then pid else pid_of m p.

Definition get_next_process_id : M procs Z :=
  retval ← gets next_process_id;
  modify (λ s, pupd_next (u32 (next_process_id s + 1)) s);;
  if retval =? INVALID_PROCESSID then panic else mret retval.

Definition put_process_to_list (p : Z) : M procs unit :=
  irqs_state ← on_cpu (spin_lock_irqsave processes_lock);
  on_lists (xlist_add_last processes_list (procs_list_node p));;
  ids ← gets (λ s, pid_of (ps_procs s));
  r ← on_tree (@avl_tree_add (process_client ids) processes_tree p);
  (if r =? NULL then panic else mret tt);;
  on_cpu (spin_unlock_irqrstor processes_lock irqs_state).

(** [tmp]: where [avl_tree_remove] has its local node. *)
Definition remove_process_from_list (tmp p : Z) : M procs unit :=
  irqs_state ← on_cpu (spin_lock_irqsave processes_lock);
  on_lists (xlist_remove_unsafe processes_list (procs_list_node p));;
  ids ← gets (λ s, pid_of (ps_procs s));
  r ← on_tree (@avl_tree_remove (process_client ids) processes_tree p tmp);
  (if r =? NULL then panic else mret tt);;
  on_cpu (spin_unlock_irqrstor processes_lock irqs_state).

(** ** References *)

(** [key]: the address of the lookup key on the stack. *)
Definition proc_get_process_by_id (key pid : Z) : M procs Z :=
  irqs_state ← on_cpu (spin_lock_irqsave processes_lock);
  ids ← gets (λ s, pid_key (ps_procs s) key pid);
  r ← on_tree (@avl_tree_find (process_client ids) processes_tree key);
  when (negb (r.1 =? NULL))
    (v ← ld_proc r.1; when (negb (pr_state v =? PROCESS_STATE_DEATH)) (inc_ref r.1));;
  on_cpu (spin_unlock_irqrstor processes_lock irqs_state);;
  mret r.1.

Definition proc_put_process (p : Z) : M procs unit := dec_ref p.

Definition proc_inc_refcnt (p : Z) : M procs Z :=
  irqs_state ← on_cpu (spin_lock_irqsave processes_lock);
  v ← ld_proc p;
  r ← (if negb (pr_state v =? PROCESS_STATE_DEATH) then inc_ref p;; mret p else mret NULL);
  on_cpu (spin_unlock_irqrstor processes_lock irqs_state);;
  mret r.

Definition current_process : M procs Z :=
  th ← on_sched thread_get_current_thread; t ← on_sched (ld_thread th); mret (th_process t).

Definition proc_get_current_process_id : M procs Z := p ← current_process; v ← ld_proc p; mret (pr_id v).

Definition proc_get_current_process : M procs Z := p ← current_process; inc_ref p;; mret p.

Definition proc_get_kernel_process_id : M procs Z :=
  k ← gets kernel_process; PASSERT (negb (k =? NULL));; v ← ld_proc k; mret (pr_id v).

Definition proc_get_kernel_process : M procs Z :=
  k ← gets kernel_process; PASSERT (negb (k =? NULL));; inc_ref k;; mret k.

Definition proc_destroy_process (key pid : Z) : M procs Z :=
  p ← proc_get_process_by_id key pid;
  if p =? NULL then mret ERR_MT_INVALID_HANDLE
  else set_proc p (with_pstate PROCESS_STATE_DEATH);; proc_put_process p;; mret NO_ERROR.

(** ** Threads and address space of a process *)

Definition proc_attach_thread (p th : Z) : M procs unit :=
  passert_locked th;;
  irqs_state ← on_proc_locks (spin_lock_irqsave (proc_lock p));
  on_threads (xlist_add_last (proc_threads p) (proc_list_node th));;
  on_proc_locks (spin_unlock_irqrstor (proc_lock p) irqs_state).

Definition proc_detach_thread (p th : Z) : M procs unit :=
  passert_locked th;;
  irqs_state ← on_proc_locks (spin_lock_irqsave (proc_lock p));
  on_threads (xlist_remove (proc_threads p) (proc_list_node th));;
  on_proc_locks (spin_unlock_irqrstor (proc_lock p) irqs_state).

(** The thread identifier is a field of [thread_t]: [tid] reads it. *)
Definition proc_get_main_thread_id (tid : Z → Z) (p : Z) : M procs Z :=
  v ← ld_proc p; PASSERT (negb (pr_ref_count v =? 0));;
  mret (if negb (pr_main v =? NULL) then tid (pr_main v) else 0).

Definition proc_get_main_thread (p : Z) : M procs Z :=
  v ← ld_proc p; PASSERT (negb (pr_ref_count v =? 0));;
  mret (if negb (pr_main v =? NULL) then pr_main v else NULL).

Definition proc_get_main_thread_locked (p : Z) : M procs Z :=
  v ← ld_proc p; PASSERT (negb (pr_ref_count v =? 0));;
  if negb (pr_main v =? NULL) then on_sched (thread_lock_thread (pr_main v));; mret (pr_main v)
  else mret NULL.

Definition proc_get_aspace_id (p : Z) : M procs Z :=
  v ← ld_proc p; PASSERT (negb (pr_ref_count v =? 0));;
  if negb (pr_aspace v =? NULL) then on_aspaces (aspace_id (pr_aspace v)) else mret VM_INVALID_ASPACEID.

Definition proc_get_aspace (p : Z) : M procs Z :=
  v ← ld_proc p; PASSERT (negb (pr_ref_count v =? 0));;
  if negb (pr_aspace v =? NULL) then on_aspaces (vm_inc_aspace_refcnt (pr_aspace v)) else mret NULL.

(** ** Creation and destruction *)

(** [if(str) { *field = kstrdup(str); if(!*field) goto error; }]: the copy, [None] on error. *)
Definition dup_arg (fill : Z → Z) (text : Z) : M procs (option Z) :=
  if negb (text =? NULL) then r ← kstrdup fill text; mret (if r =? NULL then None else Some r)
  else mret (Some 0).

Definition free_name (n : Z) : M procs unit := when (negb (n =? NULL)) (on_heap (al_free n)).

Definition destroy_process_common (p : Z) : M procs unit :=
  v ← ld_proc p;
  free_name (pr_name v);; free_name (pr_args v);;
  on_heap (al_free p);; modify (drop_process p).

(** The process, [NULL] on error. *)
Definition create_process_common (fill : Z → Z) (name args : Z) : M procs Z :=
  p ← on_heap (al_alloc sizeof_process);
  if p =? NULL then mret NULL
  else
    modify (add_process p);;
    n ← dup_arg fill name;
    match n with
    | None => destroy_process_common p;; mret NULL
    | Some n =>
        set_proc p (with_names n 0);;
        a ← dup_arg fill args;
        match a with
        | None => destroy_process_common p;; mret NULL
        | Some a =>
            set_proc p (with_names n a);;
            on_proc_locks (spin_init (proc_lock p));;
            set_proc p (with_pstate PROCESS_STATE_BIRTH);;
            on_threads (xlist_init (proc_threads p));;
            on_kin (xlist_init (proc_children p));;
            on_semlists (xlist_init (proc_semaphores p));;
            id ← get_next_process_id;
            set_proc p (with_ids id id);;
            mret p
        end
    end.

(** [assert name]: there is a name and it is not too long. *)
Definition assert_name (name : Z) : M procs unit :=
  if name =? NULL then panic
  else n ← on_mem (strlen name); PASSERT (n <=? SYS_MAX_OS_NAME_LEN).

(** The role and the properties that go with it. *)
Definition set_role (p role : Z) : M procs unit :=
  match process_roles_props !! Z.to_nat role with
  | Some (policy, prio) => set_proc p (with_role role prio policy)
  | None => fault
  end.

Definition arch_init_process_struct (p : Z) : M procs Z :=
  v ← ld_proc p;
  k ← on_aspaces vm_get_kernel_aspace_id;
  if pr_aid v =? k then mret NO_ERROR else on_aspaces (vm_map_user_stub (pr_aid v)).

Definition proc_create_kernel_process (fill : Z → Z) (name : Z) : M procs Z :=
  assert_name name;;
  k ← gets kernel_process;
  (if negb (k =? NULL) then panic else mret tt);;
  p ← create_process_common fill name NULL;
  if p =? NULL then mret INVALID_PROCESSID
  else
    set_proc p (with_pstate PROCESS_STATE_NORMAL);;
    v ← ld_proc p;
    let id := pr_id v in
    aid ← on_aspaces vm_get_kernel_aspace_id;
    asp ← on_aspaces vm_get_kernel_aspace;
    set_proc p (with_aspace aid asp);;
    set_role p PROCESS_ROLE_KERNEL;;
    err ← arch_init_process_struct p;
    if negb (err =? NO_ERROR) then
      on_aspaces (vm_put_aspace asp);; destroy_process_common p;; mret INVALID_PROCESSID
    else
      modify (pupd_kernel p);;
      put_process_to_list p;;
      mret id.

(** [error_exit] *)
Definition abandon_process (p : Z) : M procs Z :=
  v ← ld_proc p;
  when (negb (pr_aspace v =? NULL)) (on_aspaces (vm_put_aspace (pr_aspace v)));;
  when (negb (pr_parent v =? NULL)) (proc_put_process (pr_parent v));;
  destroy_process_common p;; mret NULL.

(** The end of the creation, when the process has its address space and its parent. *)
Definition finish_user_process (p role : Z) : M procs Z :=
  v ← ld_proc p;
  aid ← on_aspaces (aspace_id (pr_aspace v));
  set_proc p (with_aspace aid (pr_aspace v));;
  set_role p role;;
  set_proc p (with_ref_count 1);;
  err ← arch_init_process_struct p;
  if negb (err =? NO_ERROR) then abandon_process p
  else put_process_to_list p;; mret p.

Definition proc_create_user_process (fill : Z → Z) (name parent aspace args role : Z) : M procs Z :=
  assert_name name;;
  if (aspace =? NULL) || (PROCESS_ROLES_COUNT <? role) then mret NULL
  else
    p ← create_process_common fill name args;
    if p =? NULL then mret NULL
    else
      a ← on_aspaces (vm_inc_aspace_refcnt aspace);
      set_proc p (λ v, with_aspace (pr_aid v) a v);;
      if a =? NULL then abandon_process p
      else if negb (parent =? NULL) then
        r ← proc_inc_refcnt parent;
        set_proc p (with_parent r);;
        if r =? NULL then abandon_process p else finish_user_process p role
      else finish_user_process p role.

(** ** Initialisation *)

Definition process_init (fill : Z → Z) (name : Z) : M procs Z :=
  err ← on_aspaces arch_process_init;
  if negb (err =? NO_ERROR) then mret err
  else
    modify (pupd_next 1);;
    on_cpu (spin_init processes_lock);;
    on_lists (xlist_init processes_list);;
    on_tree (avl_tree_create processes_tree sizeof_process procs_tree_node);;
    pid ← proc_create_kernel_process fill name;
    if pid =? INVALID_PROCESSID then mret ERR_MT_GENERAL else mret NO_ERROR.
End process.
