(* ===== verification/ProcessSpec.v ===== *)
(** * The table of processes

    The invariant of the list and the tree of processes, and what the routines that use
    them do: lookup and reference counting, insertion and removal, the copy of a name and
    the set-up of a new process. *)

From S2P Require Import Spinlock Prelude XList AvlTree AvlTreeSpec AvlSet AvlRemove AvlOrdered AvlIndex CString CStringSpec Alloc Sched SchedSpec Timer TimerQueue TimerInv TimerCalls Process.
From stdpp Require Import gmap list sorting.
#[local] Open Scope Z_scope.

(** A process fits its address. *)
Definition proc_ok (p : Z) : Prop := 0 < p ∧ p + sizeof_process ≤ 2 ^ 32.

#[export] Instance process_laws ids : AvlLaws (process_client ids).
Proof.
  split; [split|]; simpl; unfold compare_process_id; intros; repeat case_match; bool_to_prop; lia.
Qed.

Lemma procs_list_node_ok p : proc_ok p → procs_list_node p = p + 124.
Proof. unfold proc_ok, sizeof_process. intros []. apply uwrap_small. lia. Qed.

Lemma procs_tree_node_ok p : proc_ok p → AVL_DATA2NODE p procs_tree_node = p + 132.
Proof. unfold proc_ok, sizeof_process. intros []. apply uwrap_small. unfold procs_tree_node. lia. Qed.

Lemma data_procs_tree_node p : proc_ok p → data procs_tree_node (AVL_DATA2NODE p procs_tree_node) = p.
Proof.
  intros Hp. rewrite procs_tree_node_ok by done. unfold data, AVL_NODE2DATA, procs_tree_node, proc_ok, sizeof_process in *.
  replace (p + 132 - 132) with p by lia. apply uwrap_small. lia.
Qed.

Lemma procs_list_node_valid p : proc_ok p → valid_ptr (procs_list_node p).
Proof. intros Hp. rewrite procs_list_node_ok by done. unfold valid_ptr, proc_ok, sizeof_process in *. lia. Qed.

Lemma procs_list_node_inj p q : proc_ok p → proc_ok q → procs_list_node p = procs_list_node q → p = q.
Proof. intros Hp Hq. rewrite !procs_list_node_ok by done. lia. Qed.

Lemma procs_list_node_notin l p :
  Forall proc_ok l → proc_ok p → p ∉ l → procs_list_node p ∉ map procs_list_node l.
Proof.
  intros Hl Hp Hn (q & E & Hq)%list_elem_of_fmap. apply (proj1 (Forall_forall _ _) Hl) in Hq as Hok.
  by rewrite (procs_list_node_inj p q) in Hn.
Qed.

Section spec.
Context {A : Allocator} {L : AllocLaws A} {V : Aspaces}.
Implicit Types s : procs.

(** The processes [l], in the order of their creation, are on the list and in the tree. *)
Record table_ok s (l : list Z) : Prop := {
  tk_list : is_xlist (ps_lists s) processes_list (map procs_list_node l);
  tk_tree : @is_aset (process_client (pid_of (ps_procs s))) (ps_tree s) processes_tree procs_tree_node l;
  tk_addr : Forall proc_ok l;
  tk_id p : p ∈ l → is_Some (ps_procs s !! p) ∧ 0 < pid_of (ps_procs s) p < next_process_id s }.

(** A lock of the processor that is free. *)
Definition pfree s (a : Z) : Prop := free_lock (ps_sched s) a.

(** The process of an identifier, or [NULL]. *)
Definition the_process s (l : list Z) (pid p : Z) : Prop :=
  (p ∈ l ∧ pid_of (ps_procs s) p = pid) ∨ (p = NULL ∧ ∀ q, q ∈ l → pid_of (ps_procs s) q ≠ pid).

Lemma table_NoDup s l : table_ok s l → NoDup l.
Proof. intros Hs. by apply (NoDup_fmap_1 procs_list_node), (ix_nodup _ _ _ (tk_list _ _ Hs)). Qed.

Lemma table_null s l : table_ok s l → NULL ∉ l.
Proof. intros Hs. apply (tk_tree _ _ Hs). Qed.

(** The table does not speak of counts and states. *)
Lemma table_set s l p v v' :
  ps_procs s !! p = Some v → pr_id v' = pr_id v → table_ok s l →
  table_ok (pupd_procs (<[p := v']> (ps_procs s)) s) l.
Proof.
  intros Hv Ev [Hl Ht Ha Hi].
  assert (∀ q, pid_of (<[p := v']> (ps_procs s)) q = pid_of (ps_procs s) q) as Hid.
  { intros q. unfold pid_of. rewrite lookup_insert. case_decide; subst; [|done]. rewrite Hv. exact Ev. }
  split; [done| |done|].
  - simpl. eapply (aset_client (process_client (pid_of (ps_procs s)))); [|exact Ht]. intros v1 v2 _ _. simpl. unfold compare_process_id. by rewrite !Hid.
  - intros q Hq. simpl. rewrite Hid. split; [|by apply Hi]. apply lookup_insert_is_Some'. right. by apply Hi.
Qed.

Lemma pupd_cpu_id s : pupd_cpu (ps_cpu s) s = s.
Proof. destruct s as [t ? ? ? ? ? ? ? ? ? ? ?]. destruct t as [[] ? ? ? ? ? ? ? ? ? ?]. done. Qed.

(** Taking and releasing a lock of the processor. *)
Lemma wp_plock s a (Q : bool → procs → Prop) :
  pfree s a → Q (irqs (ps_cpu s)) (pupd_cpu (Cpu (<[a := SPIN_LOCKED]> (locks (ps_cpu s))) false) s) →
  wp (zoom ps_cpu pupd_cpu (spin_lock_irqsave a)) s Q.
Proof. intros Ha HQ. apply wp_zoom, wp_spin_lock_irqsave; [exact Ha|exact HQ]. Qed.

(** A state whose processor was locked and is given back. *)
Lemma wp_punlock s c a f (Q : unit → procs → Prop) :
  ps_cpu s = Cpu (<[a := SPIN_LOCKED]> (locks c)) false → locks c !! a = Some SPIN_UNLOCKED → irqs c = f →
  Q tt (pupd_cpu c s) → wp (zoom ps_cpu pupd_cpu (spin_unlock_irqrstor a f)) s Q.
Proof.
  intros Es Ha <- HQ. apply wp_zoom, wp_spin_unlock_irqrstor; rewrite Es; cbn [locks].
  - rewrite lookup_insert_eq. by eexists.
  - rewrite insert_insert_eq, insert_id by done. by destruct c.
Qed.

Lemma wp_ld_proc s p v (Q : process → procs → Prop) : ps_procs s !! p = Some v → Q v s → wp (ld_proc p) s Q.
Proof. intros. by eapply wp_load. Qed.

Lemma wp_set_proc s p f v (Q : unit → procs → Prop) :
  ps_procs s !! p = Some v → Q tt (pupd_procs (<[p := f v]> (ps_procs s)) s) → wp (set_proc p f) s Q.
Proof. intros Hv HQ. unfold set_proc, st_proc. wp_go. by eapply wp_load; [done|]. Qed.

Lemma pupd_tree_id s : pupd_tree (ps_tree s) s = s.
Proof. by destruct s. Qed.

(** ** Lookup *)

Lemma wp_find_process s l key pid (Q : Z * aindex → astore → Prop) :
  table_ok s l → key ∉ l → (∀ r, the_process s l pid r.1 → Q r (ps_tree s)) →
  wp (@avl_tree_find (process_client (pid_key (ps_procs s) key pid)) processes_tree key) (ps_tree s) Q.
Proof.
  intros Hs Hk HQ. set (ids := pid_key (ps_procs s) key pid).
  assert (∀ p, p ∈ l → ids p = pid_of (ps_procs s) p) as Hids.
  { intros p Hp. unfold ids, pid_key. by rewrite (proj2 (Z.eqb_neq _ _)) by (by intros ->). }
  assert (ids key = pid) as Ek by (unfold ids, pid_key; by rewrite Z.eqb_refl).
  eapply (find_aset (C := process_client ids) _ _ procs_tree_node l).
  { eapply (aset_client (process_client (pid_of (ps_procs s)))); [|apply (tk_tree _ _ Hs)]. intros v w Hv Hw. simpl. unfold compare_process_id. by rewrite !Hids. }
  intros r Hr. apply HQ. rewrite Hr. unfold first.
  assert (∀ p, p ∈ @equals (process_client ids) key l ↔ p ∈ l ∧ pid_of (ps_procs s) p = pid) as Heq.
  { intros p. unfold equals. rewrite list_elem_of_filter. split.
    - intros [E Hp]. split; [done|]. rewrite <- Hids by done. simpl in E. unfold compare_process_id in E.
      rewrite Ek in E. repeat case_match; bool_to_prop; lia.
    - intros [Hp E]. split; [|done]. simpl. unfold compare_process_id. rewrite Ek, Hids, E, Z.ltb_irrefl by done. done. }
  destruct (@equals (process_client ids) key l) as [|p l']; simpl.
  - right. split; [done|]. intros q Hq E. by apply (not_elem_of_nil q), Heq.
  - left. apply Heq, list_elem_of_here.
Qed.

(** The reference a lookup takes, unless the process is dying. *)
Definition got (v : process) : process :=
  if decide (pr_state v = PROCESS_STATE_DEATH) then v else with_ref_count (u32 (pr_ref_count v + 1)) v.

Definition after_get s (p : Z) : procs :=
  match ps_procs s !! p with Some v => pupd_procs (<[p := got v]> (ps_procs s)) s | None => s end.

Lemma wp_proc_get_process_by_id s l key pid (Q : Z → procs → Prop) :
  table_ok s l → key ∉ l → pfree s processes_lock → ps_procs s !! NULL = None →
  (∀ p, the_process s l pid p → Q p (after_get s p)) → wp (proc_get_process_by_id key pid) s Q.
Proof.
  intros Hs Hk Hf H0 HQ. unfold proc_get_process_by_id. apply wp_bind, wp_plock; [done|].
  set (c := Cpu _ false). apply wp_bind, wp_gets, wp_bind, wp_zoom.
  eapply (wp_find_process s l); [done|done|]. intros [p ix] Hp. cbn [fst] in *. apply wp_bind.
  assert (∀ s1, ps_procs s1 = ps_procs s → ps_cpu s1 = c → pupd_cpu (ps_cpu s) s1 = s →
    wp (when (negb (p =? NULL))
      (v ← ld_proc p; when (negb (pr_state v =? PROCESS_STATE_DEATH)) (inc_ref p)))
      s1 (λ _ s2, ps_cpu s2 = c ∧ pupd_cpu (ps_cpu s) s2 = after_get s p)) as Hinc.
  { intros s1 E1 E2 E3. unfold after_get. apply wp_when; intros E; bool_to_prop.
    - destruct Hp as [[Hp Ep]|[Ep _]]; [|done].
      destruct (tk_id _ _ Hs p Hp) as [[v Hv] _]. rewrite Hv. wp_go. eapply wp_ld_proc; [by rewrite E1|].
      unfold got. apply wp_when; intros Ed; bool_to_prop.
      + rewrite decide_False by done. eapply wp_set_proc; [by rewrite E1|].
        split; [done|]. by rewrite E1, <- E3.
      + rewrite decide_True by done. split; [done|]. rewrite insert_id by done. rewrite E3. by destruct s.
    - rewrite E, H0. split; [done|]. by rewrite E3. }
  eapply wp_mono; [apply Hinc; [done|done|]|].
  { destruct s as [t ? ? ? ? ? ? ? ? ? ? ?]. by destruct t as [[] ? ? ? ? ? ? ? ? ? ?]. }
  intros _ s2 [Ec Es2]. apply wp_bind. eapply (wp_punlock s2 (ps_cpu s)); [exact Ec|exact Hf|done|].
  rewrite Es2. apply wp_ret. by apply HQ.
Qed.

(** ** Insertion *)

(** What a process needs to enter the table. *)
Record newcomer s (l : list Z) (p : Z) : Prop := {
  nw_addr : proc_ok p;
  nw_out : p ∉ l;
  nw_proc : is_Some (ps_procs s !! p);
  nw_id : 0 < pid_of (ps_procs s) p < next_process_id s ∧ ∀ q, q ∈ l → pid_of (ps_procs s) q < pid_of (ps_procs s) p;
  nw_node : is_Some (nodes (ps_lists s) !! procs_list_node p);
  nw_tree : AVL_DATA2NODE p procs_tree_node ∈ dom (anodes (ps_tree s)) }.

Lemma newcomer_tree s l p : newcomer s l p → has_node (ps_tree s) procs_tree_node p.
Proof.
  intros [Hp _ _ _ _ Hn]. split_and!; [unfold proc_ok, NULL in *; lia| |by apply data_procs_tree_node|done].
  rewrite procs_tree_node_ok by done. unfold valid_ptr, proc_ok, sizeof_process in *. lia.
Qed.

Lemma wp_put_process_to_list s l p (Q : unit → procs → Prop) :
  table_ok s l → newcomer s l p → pfree s processes_lock →
  (∀ x t, table_ok (pupd_tree t (pupd_lists x s)) (l ++ [p]) → Q tt (pupd_tree t (pupd_lists x s))) →
  wp (put_process_to_list p) s Q.
Proof.
  intros Hs Hn Hf HQ. pose proof Hs as [Hl Ht Ha Hi]. pose proof Hn as [Hp Hout Hpr [Hid Hlt] Hnd Htn].
  unfold put_process_to_list. apply wp_bind, wp_plock; [done|]. apply wp_bind, wp_zoom.
  eapply (wp_xlist_add_last _ _ _ _ _ Hl); [by apply procs_list_node_notin|by apply procs_list_node_valid|done|].
  intros x Hx _. apply wp_bind, wp_gets, wp_bind, wp_zoom.
  assert (@add (process_client (pid_of (ps_procs s))) p l = (p, l ++ [p])) as Eadd by exact (add_greatest _ _ _ Hlt).
  eapply (add_aset (C := process_client (pid_of (ps_procs s))) _ _ procs_tree_node l);
    [exact Ht|exact (newcomer_tree _ _ _ Hn)|].
  rewrite Eadd. intros t Ht' _. cbn [fst snd] in *.
  rewrite (proj2 (Z.eqb_neq p NULL)) by (unfold proc_ok, NULL in *; lia). apply wp_bind, wp_ret.
  eapply (wp_punlock _ (ps_cpu s)); [reflexivity|exact Hf|reflexivity|].
  assert (table_ok (pupd_tree t (pupd_lists x s)) (l ++ [p])) as Htab.
  { split; cbn.
    - by rewrite map_app.
    - exact Ht'.
    - apply Forall_app. by split; [|apply Forall_singleton].
    - intros q [Hq| ->%list_elem_of_singleton]%elem_of_app; [by apply Hi|done]. }
  specialize (HQ x t Htab). destruct s as [tm ? ? ? ? ? ? ? ? ? ? ?]. by destruct tm as [[] ? ? ? ? ? ? ? ? ? ?].
Qed.

(** ** Names *)

(** A string that can be copied: there is memory, and it is not part of the string. *)
Definition can_dup (h : al_state) (m : gmap Z Z) (text : Z) (cs : list Z) : Prop :=
  str_at m text cs ∧ len cs + 1 < 2 ^ 32 ∧ al_room h (len cs + 1) ∧
  ∀ b h', al_alloc (len cs + 1) h = Ok (b, h') → apart b (len cs + 1) text (len cs + 1).

Lemma fresh_bytes_lookup fill a m x : ∀ n, 0 ≤ n →
  fresh_bytes fill a n m !! x = if decide (a ≤ x < a + n) then Some (u8 (fill x)) else m !! x.
Proof.
  intros n Hn. unfold fresh_bytes.
  assert (∀ k i, foldr (λ i, <[a + i := u8 (fill (a + i))]>) m (seqZ i (Z.of_nat k)) !! x =
    if decide (a + i ≤ x < a + i + Z.of_nat k) then Some (u8 (fill x)) else m !! x) as H.
  { induction k as [|k IH]; intros i.
    - simpl. rewrite decide_False by lia. done.
    - rewrite seqZ_cons by lia. simpl. replace (Z.pred (Z.of_nat (S k))) with (Z.of_nat k) by lia.
      rewrite lookup_insert. case_decide as E.
      + subst x. by rewrite decide_True by lia.
      + rewrite IH. repeat case_decide; done || lia. }
  specialize (H (Z.to_nat n) 0). rewrite Z2Nat.id, Z.add_0_r in H by done. exact H.
Qed.

Lemma fresh_bytes_room fill a n m : 0 ≤ n → room (fresh_bytes fill a n m) a (Z.to_nat n).
Proof.
  intros Hn x Hx. rewrite fresh_bytes_lookup by done. rewrite decide_True by lia. by eexists.
Qed.

Lemma wp_kstrdup s live fill text cs (Q : Z → procs → Prop) :
  al_live (ps_heap s) live → can_dup (ps_heap s) (ps_mem s) text cs →
  (∀ b h m, b ∉ live → 0 < b → al_live h ({[b]} ∪ live) → str_at m b cs →
     (∀ a, ¬ (b ≤ a ≤ b + len cs) → m !! a = ps_mem s !! a) → Q b (pupd_mem m (pupd_heap h s))) →
  wp (kstrdup fill text) s Q.
Proof.
  intros Hl (Hstr & Hlen & Hroom & Hap) HQ. pose proof (len_nonneg cs). unfold kstrdup. apply wp_bind, wp_zoom.
  eapply wp_strlen; [done|lia|]. rewrite uwrap_small by lia. apply wp_bind, wp_zoom.
  assert (wp (al_alloc (len cs + 1)) (ps_heap s) (λ b h, al_alloc (len cs + 1) (ps_heap s) = Ok (b, h) ∧
    b ∉ live ∧ 0 < b ∧ al_live h ({[b]} ∪ live))) as Hw.
  { assert (wp (al_alloc (len cs + 1)) (ps_heap s) (λ b h, b ∉ live ∧ 0 < b ∧ al_live h ({[b]} ∪ live))) as Hw'.
    { eapply al_alloc_ok; [done|done|lia|]. done. }
    apply wp_ok in Hw' as (b & h & E & Hb). rewrite E. unfold wp. by rewrite E. }
  eapply wp_mono; [exact Hw|]. intros b h (E & Hb & Hb0 & Hlv). specialize (Hap b h E).
  rewrite (proj2 (Z.eqb_neq b NULL)) by (unfold NULL; lia). cbn [negb]. apply wp_bind, wp_modify, wp_bind, wp_zoom.
  unfold strcpy. apply wp_bind, wp_with_fuel.
  cbn [ps_mem pupd_mem pupd_heap pupd_timer]. set (m0 := fresh_bytes fill b (len cs + 1) (ps_mem s)).
  assert (str_at m0 text cs) as Hs0.
  { eapply str_at_frame; [|exact Hstr]. intros a Ha. unfold m0. rewrite fresh_bytes_lookup by lia.
    rewrite decide_False; [done|]. unfold apart in Hap. lia. }
  eapply (wp_strcpy_loop _ cs); [by eapply str_at_fuel|exact Hs0| |exact Hap|].
  { replace (S (length cs)) with (Z.to_nat (len cs + 1)) by (unfold len; lia). apply fresh_bytes_room. lia. }
  apply wp_ret, wp_ret. replace (pupd_mem _ _) with (pupd_mem (bytes_put b (cs ++ [0]) m0) (pupd_heap h s)) by by destruct s.
  apply HQ; [done|done|done| |].
  - apply str_at_bytes. split; [apply bytes_at_put|]. by apply str_at_bytes in Hstr as [_ ?].
  - intros a Ha. rewrite bytes_put_out by (rewrite len_app; unfold len in *; simpl; lia).
    unfold m0. rewrite fresh_bytes_lookup by lia. rewrite decide_False by lia. done.
Qed.

(** ** A new process *)

(** The state with the data [v] of the process [p]. *)
Definition with_process (p : Z) (v : process) s : procs := pupd_procs (<[p := v]> (ps_procs s)) s.

Lemma wp_set_process s p f v (Q : unit → procs → Prop) :
  Q tt (with_process p (f v) s) → wp (set_proc p f) (with_process p v s) Q.
Proof.
  intros HQ. eapply wp_set_proc; [apply lookup_insert_eq|]. unfold with_process. cbn.
  by rewrite insert_insert_eq.
Qed.

Lemma wp_ld_process s p v (Q : process → procs → Prop) : Q v (with_process p v s) → wp (ld_proc p) (with_process p v s) Q.
Proof. intros HQ. eapply wp_ld_proc; [apply lookup_insert_eq|done]. Qed.

Lemma wp_xlist_init_zero l (x : xstore) (Q : Z → xstore → Prop) : Q 1 (with_list l x) → wp (xlist_init l) (with_list l x) Q.
Proof.
  intros HQ. unfold xlist_init, st_last, st_first, st_count, with_list in *. wp_go.
  repeat (eapply wp_st_list; [apply lookup_insert_eq|]; wp_go). cbn. by rewrite !insert_insert_eq.
Qed.

(** The state with a new process [p] of data [v]: its block and its name, in [h] and [m], and
    the next identifier spent. *)
Definition created s (p : Z) (v : process) (h : al_state) (m : gmap Z Z) : procs :=
  with_process p v (pupd_next (next_process_id s + 1) (pupd_mem m (pupd_heap h (add_process p s)))).

(** The data of a process whose name is at [b]. *)
Definition born s (b : Z) : process :=
  Process (next_process_id s) (next_process_id s) 0 b 0 0 PROCESS_STATE_BIRTH 0 0 0 0 0 0 0.

Lemma wp_dup_name s live fill text cs (Q : option Z → procs → Prop) :
  text ≠ NULL → al_live (ps_heap s) live → can_dup (ps_heap s) (ps_mem s) text cs →
  (∀ b h m, b ∉ live → 0 < b → al_live h ({[b]} ∪ live) → str_at m b cs →
     (∀ a, ¬ (b ≤ a ≤ b + len cs) → m !! a = ps_mem s !! a) → Q (Some b) (pupd_mem m (pupd_heap h s))) →
  wp (dup_arg fill text) s Q.
Proof.
  intros Ht Hl Hd HQ. unfold dup_arg. rewrite (proj2 (Z.eqb_neq text NULL)) by done. cbn [negb]. apply wp_bind.
  eapply wp_kstrdup; [exact Hl|exact Hd|]. intros b h m ? Hb ???. apply wp_ret.
  rewrite (proj2 (Z.eqb_neq b NULL)) by (unfold NULL; lia). by apply HQ.
Qed.

(** There is memory for a process and its name. *)
Definition can_create s (name : Z) (cs : list Z) : Prop :=
  al_room (ps_heap s) sizeof_process ∧
  ∀ p h, al_alloc sizeof_process (ps_heap s) = Ok (p, h) → can_dup h (ps_mem s) name cs.

(** The blocks in use, the processes among them. *)
Definition pheap s (live : gset Z) : Prop := al_live (ps_heap s) live ∧ dom (ps_procs s) ⊆ live.

(** What the creation of a process leaves in memory. *)
Record fresh_block s (live : gset Z) (p b : Z) (cs : list Z) (h : al_state) (m : gmap Z Z) : Prop := {
  fb_proc : proc_ok p ∧ p ∉ live;
  fb_name : b ∉ {[p]} ∪ live ∧ 0 < b;
  fb_live : al_live h ({[b]} ∪ ({[p]} ∪ live));
  fb_str : str_at m b cs;
  fb_mem a : ¬ (b ≤ a ≤ b + len cs) → m !! a = ps_mem s !! a }.

Lemma wp_create_process_common s live fill name cs (Q : Z → procs → Prop) :
  pheap s live → name ≠ NULL → can_create s name cs → 0 < next_process_id s → next_process_id s + 1 < 2 ^ 32 →
  (∀ p b h m, fresh_block s live p b cs h m → Q p (created s p (born s b) h m)) →
  wp (create_process_common fill name NULL) s Q.
Proof.
  intros [Hl Hd] Hnm [Hroom Hdup] Hid Hnext HQ. unfold create_process_common. apply wp_bind, wp_zoom.
  assert (wp (al_alloc sizeof_process) (ps_heap s) (λ p h, al_alloc sizeof_process (ps_heap s) = Ok (p, h) ∧
    p ∉ live ∧ proc_ok p ∧ al_live h ({[p]} ∪ live))) as Hw.
  { assert (wp (al_alloc sizeof_process) (ps_heap s) (λ p h, p ∉ live ∧ proc_ok p ∧ al_live h ({[p]} ∪ live))) as Hw'.
    { eapply al_alloc_ok; [done|done|done|]. done. }
    apply wp_ok in Hw' as (b & h & E & Hb). rewrite E. unfold wp. by rewrite E. }
  eapply wp_mono; [exact Hw|]. intros p h (E & Hp & Hok & Hlv). specialize (Hdup p h E).
  rewrite (proj2 (Z.eqb_neq p NULL)) by (unfold proc_ok, NULL in *; lia). apply wp_bind, wp_modify.
  change (add_process p (pupd_heap h s)) with
    (with_process p zero_process (pupd_procs (ps_procs s) (add_process p (pupd_heap h s)))).
  apply wp_bind. eapply (wp_dup_name _ ({[p]} ∪ live)); [exact Hnm|exact Hlv|exact Hdup|].
  intros b h' m Hb Hb0 Hlv' Hstr Hm.
  set (s1 := pupd_mem m (pupd_heap h' (pupd_procs (ps_procs s) (add_process p s)))).
  match goal with |- wp _ ?st _ => change st with (with_process p zero_process s1) end.
  apply wp_bind, wp_set_process, wp_bind. cbn [dup_arg negb]. change (NULL =? NULL) with true. cbn [negb].
  apply wp_ret, wp_bind, wp_set_process, wp_bind.
  assert (∀ v Q, Q tt (with_process p v s1) → wp (on_proc_locks (spin_init (proc_lock p))) (with_process p v s1) Q) as Hlk.
  { intros v Q' HQ'. unfold on_proc_locks. apply wp_zoom. unfold wp, spin_init, atomic_set. cbn.
    rewrite lookup_insert_eq, insert_insert_eq. destruct s as [[[? [] ? ?]] ? ? ? ? ? ? ? ? ? ? ?]. exact HQ'. }
  apply Hlk, wp_bind, wp_set_process. apply wp_bind, wp_zoom, wp_xlist_init_zero, wp_bind, wp_zoom, wp_xlist_init_zero,
    wp_bind, wp_zoom, wp_xlist_init_zero, wp_bind.
  unfold get_next_process_id. apply wp_bind, wp_gets, wp_bind, wp_modify.
  change (next_process_id (pupd_semlists _ _)) with (next_process_id s).
  rewrite (proj2 (Z.eqb_neq (next_process_id s) INVALID_PROCESSID)) by (unfold INVALID_PROCESSID; lia).
  apply wp_ret, wp_bind. rewrite uwrap_small by lia.
  match goal with |- wp _ _ ?q => set (Q' := q) end.
  eapply wp_set_proc; [apply lookup_insert_eq|]. cbn [ps_procs]. subst Q'. cbv beta. apply wp_ret.
  specialize (HQ p b h' m). unfold created, with_process in *. cbn in *. rewrite insert_insert_eq in *.
  apply HQ. split; [done|done|done|done|exact Hm].
Qed.

Lemma pheap_fresh s live p : pheap s live → p ∉ live → ps_procs s !! p = None.
Proof. intros [_ Hd] Hp. apply not_elem_of_dom. set_solver. Qed.

(** A state with a new process [p], before it enters the table. *)
Record one_more_process s (p : Z) s' : Prop := {
  om_lists : ps_lists s' = ps_lists (add_process p s);
  om_tree : ps_tree s' = ps_tree (add_process p s);
  om_next : next_process_id s' = next_process_id s + 1;
  om_new : pr_id <$> ps_procs s' !! p = Some (next_process_id s);
  om_old q : q ≠ p → pr_id <$> ps_procs s' !! q = pr_id <$> ps_procs s !! q }.

Lemma pid_of_some m p i : pr_id <$> m !! p = Some i → pid_of m p = i.
Proof. unfold pid_of. by intros ->. Qed.

Lemma table_enters s live l p s' :
  table_ok s l → pheap s live → proc_ok p → p ∉ live → 0 < next_process_id s → one_more_process s p s' →
  table_ok s' l ∧ newcomer s' l p.
Proof.
  intros [Hl Ht Ha Hi] Hh Hp Hf Hpos [E1 E2 E3 E4 E5]. pose proof (pheap_fresh _ _ _ Hh Hf) as Hnone.
  assert (∀ q, q ∈ l → q ≠ p ∧ pid_of (ps_procs s') q = pid_of (ps_procs s) q) as Hid.
  { intros q Hq. assert (q ≠ p) as Hne by (intros ->; destruct (Hi p Hq) as [[w Hw] _]; congruence).
    split; [done|]. unfold pid_of. by rewrite E5. }
  assert (p ∉ l) as Hn by (intros Hin; by apply (Hid p)).
  split; split; try done.
  - rewrite E1. destruct Hl as [Hh1 Hs1 Hnd1 Hv1]. split; [done| |done|done]. cbn.
    eapply seg_frame; [|exact Hs1]. intros y Hy. apply lookup_insert_ne. intros <-.
    by apply (procs_list_node_notin l p).
  - eapply (aset_client (process_client (pid_of (ps_procs s)))).
    { intros v1 w1 H1 H2. simpl. unfold compare_process_id. by rewrite (proj2 (Hid _ H1)), (proj2 (Hid _ H2)). }
    rewrite E2. eapply aset_frame; [exact Ht|done|]. intros q Hq. cbn. apply lookup_insert_ne.
    rewrite !procs_tree_node_ok; [|by apply (proj1 (Forall_forall _ _) Ha)|done].
    pose proof (proj1 (Hid q Hq)). lia.
  - intros q Hq. destruct (Hid q Hq) as [Hne Eq]. rewrite Eq, E3. destruct (Hi q Hq) as [Hs1 Hr]. split; [|lia].
    by rewrite <- (fmap_is_Some pr_id), E5, fmap_is_Some.
  - rewrite <- (fmap_is_Some pr_id), E4. by eexists.
  - rewrite (pid_of_some _ _ _ E4), E3. split; [lia|]. intros q Hq. rewrite (proj2 (Hid q Hq)). by apply Hi.
  - rewrite E1. cbn. rewrite lookup_insert_eq. by eexists.
  - rewrite E2. cbn. apply elem_of_dom. rewrite lookup_insert_eq. by eexists.
Qed.

(** The address space [aspace] of identifier [aid] can be used: the run of the four calls. *)
Definition aspace_ready (a : as_state) (aspace aid : Z) (a' : as_state) : Prop :=
  ∃ a1 a2 a3 k, vm_inc_aspace_refcnt aspace a = Ok (aspace, a1) ∧ aspace_id aspace a1 = Ok (aid, a2) ∧
    vm_get_kernel_aspace_id a2 = Ok (k, a3) ∧
    (if aid =? k then mret NO_ERROR else vm_map_user_stub aid) a3 = Ok (NO_ERROR, a').

(** A parent that lives, if there is one. *)
Definition parent_ok s (l : list Z) (parent : Z) : Prop :=
  parent = NULL ∨ (parent ∈ l ∧ ∃ v, ps_procs s !! parent = Some v ∧ pr_state v ≠ PROCESS_STATE_DEATH).

Lemma wp_proc_inc_refcnt s p v (Q : Z → procs → Prop) :
  pfree s processes_lock → ps_procs s !! p = Some v → pr_state v ≠ PROCESS_STATE_DEATH →
  Q p (with_process p (got v) s) → wp (proc_inc_refcnt p) s Q.
Proof.
  intros Hf Hv Hst HQ. unfold proc_inc_refcnt. apply wp_bind, wp_plock; [done|].
  apply wp_bind. eapply wp_ld_proc; [exact Hv|]. rewrite (proj2 (Z.eqb_neq _ _)) by done. cbn [negb].
  apply wp_bind. unfold inc_ref. apply wp_bind. eapply wp_set_proc; [exact Hv|]. apply wp_ret, wp_bind.
  eapply (wp_punlock _ (ps_cpu s)); [reflexivity|exact Hf|reflexivity|]. apply wp_ret.
  unfold got in HQ. rewrite decide_False in HQ by done. unfold with_process in HQ.
  destruct s as [tm ? ? ? ? ? ? ? ? ? ? ?]. by destruct tm as [[] ? ? ? ? ? ? ? ? ? ?].
Qed.

(** The priority and the policy of a role. *)
Definition role_of (role : Z) : Z * Z := default (0, 0) (process_roles_props !! Z.to_nat role).

Lemma wp_set_role s p v role (Q : unit → procs → Prop) :
  0 ≤ role < PROCESS_ROLES_COUNT →
  Q tt (with_process p (with_role role (role_of role).2 (role_of role).1 v) s) →
  wp (set_role p role) (with_process p v s) Q.
Proof.
  intros Hr HQ. unfold set_role, role_of in *.
  assert (is_Some (process_roles_props !! Z.to_nat role)) as [[pol prio] E].
  { apply lookup_lt_is_Some. unfold PROCESS_ROLES_COUNT in Hr. simpl. lia. }
  rewrite E in *. simpl in HQ. by apply wp_set_process.
Qed.

Lemma wp_finish_user_process s l p v role aid a1 a2 a3 a4 k (Q : Z → procs → Prop) :
  let w := with_ref_count 1 (with_role role (role_of role).2 (role_of role).1 (with_aspace aid (pr_aspace v) v)) in
  0 ≤ role < PROCESS_ROLES_COUNT → ps_aspaces s = a1 → aspace_id (pr_aspace v) a1 = Ok (aid, a2) →
  vm_get_kernel_aspace_id a2 = Ok (k, a3) →
  (if aid =? k then mret NO_ERROR else vm_map_user_stub aid) a3 = Ok (NO_ERROR, a4) →
  let s1 := with_process p w (pupd_aspaces a4 s) in
  table_ok s1 l → newcomer s1 l p → pfree s processes_lock →
  (∀ x t, table_ok (pupd_tree t (pupd_lists x s1)) (l ++ [p]) → Q p (pupd_tree t (pupd_lists x s1))) →
  wp (finish_user_process p role) (with_process p v s) Q.
Proof.
  intros w Hr Ea E1 E2 E3 s1 Ht Hn Hf HQ. unfold finish_user_process.
  apply wp_bind, wp_ld_process, wp_bind, wp_zoom. eapply wp_of_ok; [cbn; rewrite Ea; exact E1|].
  change (pupd_aspaces a2 (with_process p v s)) with (with_process p v (pupd_aspaces a2 s)).
  apply wp_bind, wp_set_process, wp_bind, wp_set_role; [done|]. apply wp_bind, wp_set_process, wp_bind.
  unfold arch_init_process_struct. apply wp_bind, wp_ld_process, wp_bind, wp_zoom.
  eapply wp_of_ok; [exact E2|].
  match goal with |- wp _ ?st _ => change st with (with_process p w (pupd_aspaces a3 s)) end.
  change (pr_aid (with_ref_count _ _)) with aid.
  match goal with |- wp _ _ ?P => set (P' := P) end.
  assert (P' NO_ERROR s1) as HP.
  { subst P'. cbv beta. change (NO_ERROR =? NO_ERROR) with true. cbn [negb]. apply wp_bind.
    eapply wp_put_process_to_list; [exact Ht|exact Hn|exact Hf|]. intros x t Htab. apply wp_ret. by apply HQ. }
  destruct (aid =? k).
  - injection E3 as <-. by apply wp_ret.
  - apply wp_zoom. eapply wp_of_ok; [exact E3|]. exact HP.
Qed.
End spec.
