(* ===== verification/ProcessProps.v ===== *)
(** * What processes do

    A lookup by identifier takes a reference that putting the process back gives up, but a
    process that is being destroyed loses references by being looked up. A new user process
    enters the table with one reference, its name copied and its lists empty, and is found
    by its identifier; if its address space is gone nothing of it remains. *)

From S2P Require Import Spinlock Prelude XList AvlPure AvlTree AvlTreeSpec AvlSet AvlRemove AvlOrdered AvlIndex CString CStringSpec Heap HeapSpec Alloc Sched SchedSpec Timer TimerQueue TimerInv TimerCalls Process ProcessSpec.
From stdpp Require Import gmap list sorting.
#[local] Open Scope Z_scope.

Section props.
Context {A : Allocator} {L : AllocLaws A} {V : Aspaces}.
Implicit Types s : procs.

Lemma table_same s s' l :
  ps_lists s' = ps_lists s → ps_tree s' = ps_tree s → ps_procs s' = ps_procs s →
  next_process_id s' = next_process_id s → table_ok s l → table_ok s' l.
Proof. intros E1 E2 E3 E4 []. split; rewrite ?E1, ?E2, ?E3, ?E4; done. Qed.

Lemma got_id v : pr_id (got v) = pr_id v.
Proof. unfold got. by case_decide. Qed.

Lemma with_process_comm p q v w s : p ≠ q →
  with_process q w (with_process p v s) = with_process p v (with_process q w s).
Proof. intros Hne. unfold with_process. cbn. by rewrite insert_insert_ne. Qed.

(** The reference [proc_put_process] gives up. *)
Definition put_ref (v : process) : process := with_ref_count (u32 (pr_ref_count v - 1)) v.

Lemma wp_proc_put_process s p v (Q : unit → procs → Prop) :
  ps_procs s !! p = Some v → Q tt (with_process p (put_ref v) s) → wp (proc_put_process p) s Q.
Proof. intros. by eapply wp_set_proc. Qed.

Lemma the_process_found s l p : table_ok s l → p ∈ l → ∀ q, the_process s l (pid_of (ps_procs s) p) q → q = p.
Proof.
  intros Hs Hp q [[Hq E]|[_ Hno]]; [|by destruct (Hno p Hp)].
  pose proof (aset_sorted (C := process_client (pid_of (ps_procs s))) _ _ _ _ (tk_tree _ _ Hs)) as Hso.
  eapply (sorted_equal (C := process_client (pid_of (ps_procs s))) l); [exact Hso|done|done|].
  simpl. unfold compare_process_id. by rewrite E, Z.ltb_irrefl.
Qed.

(** Lookup of a process that is there. *)
Lemma get_known s l key p v :
  table_ok s l → p ∈ l → ps_procs s !! p = Some v → key ∉ l → pfree s processes_lock → ps_procs s !! NULL = None →
  proc_get_process_by_id key (pr_id v) s = Ok (p, with_process p (got v) s).
Proof.
  intros Hs Hp Hv Hk Hf H0.
  assert (wp (proc_get_process_by_id key (pr_id v)) s (λ r s', r = p ∧ s' = with_process p (got v) s)) as Hw.
  { eapply wp_proc_get_process_by_id; [done|done|done|done|]. intros q Hq.
    assert (pid_of (ps_procs s) p = pr_id v) as E by (unfold pid_of; by rewrite Hv).
    rewrite <- E in Hq. apply (the_process_found s l p Hs Hp) in Hq as ->. split; [done|].
    unfold after_get. by rewrite Hv. }
  by apply wp_run in Hw as (s' & -> & ->).
Qed.

(** C35: references to processes. Looking up the identifier of a process in the table returns
    it, with one more reference unless it is being destroyed, and leaves everything else as
    it was; an identifier nobody has gives [NULL] and changes nothing. Putting a process
    back gives up one reference: a lookup that is put back restores the state, except that a
    process being destroyed has lost a reference by it, down to [2^32 - 1] when it had none. *)
Theorem proc_references_correct s l key pid :
  table_ok s l → key ∉ l → pfree s processes_lock → ps_procs s !! NULL = None →
  (∀ p v, p ∈ l → ps_procs s !! p = Some v → pr_id v = pid → 0 ≤ pr_ref_count v < 2 ^ 32 →
     proc_get_process_by_id key pid s = Ok (p, with_process p (got v) s) ∧
     (p' ← proc_get_process_by_id key pid; proc_put_process p') s =
       Ok (tt, if decide (pr_state v = PROCESS_STATE_DEATH) then with_process p (put_ref v) s else s)) ∧
  ((∀ p, p ∈ l → pid_of (ps_procs s) p ≠ pid) → proc_get_process_by_id key pid s = Ok (NULL, s)).
Proof.
  intros Hs Hk Hf H0. split.
  - intros p v Hp Hv <- Hr. pose proof (get_known s l key p v Hs Hp Hv Hk Hf H0) as E. split; [exact E|].
    unfold mbind at 1, M_bind. rewrite E.
    enough (wp (proc_put_process p) (with_process p (got v) s) (λ r s', r = tt ∧ s' =
      if decide (pr_state v = PROCESS_STATE_DEATH) then with_process p (put_ref v) s else s)) as Hw
      by by apply wp_run in Hw as (s' & -> & ->).
    eapply wp_proc_put_process; [apply lookup_insert_eq|]. split; [done|]. unfold with_process. cbn.
    rewrite insert_insert_eq. unfold got. case_decide; [done|]. unfold put_ref, with_ref_count. cbn.
    autorewrite with wrap. replace (pr_ref_count v + 1 - 1) with (pr_ref_count v) by lia. rewrite uwrap_small by done.
    rewrite insert_id; [by destruct s|]. rewrite Hv. by destruct v.
  - intros Hno. enough (wp (proc_get_process_by_id key pid) s (λ r s', r = NULL ∧ s' = s)) as Hw
      by by apply wp_run in Hw as (s' & -> & ->).
    eapply wp_proc_get_process_by_id; [done|done|done|done|]. intros p [[Hp E]|[-> _]].
    + by destruct (Hno p Hp).
    + split; [done|]. unfold after_get. by rewrite H0.
Qed.

(** What a new user process looks like. *)
Record user_process s (live : gset Z) (l : list Z) (cs : list Z) (parent aspace aid role p : Z) s' : Prop := {
  up_table : table_ok s' (l ++ [p]);
  up_data : ∃ b, str_at (ps_mem s') b cs ∧ pheap s' ({[b]} ∪ ({[p]} ∪ live)) ∧
    ps_procs s' !! p = Some (Process (next_process_id s) (next_process_id s) 0 b 0 parent PROCESS_STATE_BIRTH 1
      role (role_of role).2 (role_of role).1 aid aspace 0);
  up_lists : is_xlist (ps_threads s') (proc_threads p) [] ∧ is_xlist (ps_semlists s') (proc_semaphores p) [] ∧
    ps_locks s' !! proc_lock p = Some SPIN_UNLOCKED;
  up_others q : q ≠ p → ps_procs s' !! q = (if decide (q = parent) then got <$> ps_procs s !! q else ps_procs s !! q);
  up_next : next_process_id s' = next_process_id s + 1 ∧ ps_cpu s' = ps_cpu s }.

(** The end of the creation: the process of data [with_parent parent ..] in a state with its
    block and its name, when the parent has its reference. *)
Lemma wp_enter s live l p b cs h m parent aspace aid role s2 a1 a2 a3 a4 k (Q : Z → procs → Prop) :
  table_ok s l → pheap s live → pfree s processes_lock → fresh_block s live p b cs h m →
  0 < next_process_id s → 0 ≤ role < PROCESS_ROLES_COUNT →
  aspace_id aspace a1 = Ok (aid, a2) → vm_get_kernel_aspace_id a2 = Ok (k, a3) →
  (if aid =? k then mret NO_ERROR else vm_map_user_stub aid) a3 = Ok (NO_ERROR, a4) →
  s2 = pupd_aspaces a1 (pupd_procs (ps_procs s2) (created s p (born s b) h m)) →
  (∀ q, q ≠ p → ps_procs s2 !! q = (if decide (q = parent) then got <$> ps_procs s !! q else ps_procs s !! q)) →
  (∀ s', user_process s live l cs parent aspace aid role p s' → Q p s') →
  wp (finish_user_process p role) (with_process p (with_parent parent (with_aspace 0 aspace (born s b))) s2) Q.
Proof.
  intros Hs Hh Hf [[Hp Hpl] _ Hlv Hbs Hm] Hid Hr E1 E2 E3 G Hprocs HQ.
  set (w := Process (next_process_id s) (next_process_id s) 0 b 0 parent PROCESS_STATE_BIRTH 1
      role (role_of role).2 (role_of role).1 aid aspace 0).
  set (s1 := with_process p w (pupd_aspaces a4 s2)).
  assert (one_more_process s p s1) as Hom.
  { split; [unfold s1; rewrite G; done..| |].
    - cbn. by rewrite lookup_insert_eq.
    - intros q Hne. cbn. rewrite lookup_insert_ne, Hprocs by done. case_decide; [|done].
      destruct (ps_procs s !! q) as [v|]; [|done]. simpl. by rewrite got_id. }
  destruct (table_enters s live l p s1) as [Htab Hnew]; [done..|].
  eapply (wp_finish_user_process s2 l p _ role aid a1 a2 a3 a4 k); try done.
  { by rewrite G. }
  { rewrite G. exact Hf. }
  intros x t Htab'. apply HQ. fold w. split; [exact Htab'| | | |].
  - exists b. split; [rewrite G; exact Hbs|]. split; [|cbn; by rewrite lookup_insert_eq].
    split; [rewrite G; exact Hlv|]. cbn. intros q Hq. apply elem_of_dom in Hq.
    destruct (decide (q = p)) as [->|Hne]; [set_solver|]. rewrite lookup_insert_ne, Hprocs in Hq by done.
    destruct Hh as [_ Hd]. assert (q ∈ dom (ps_procs s)); [|set_solver]. apply elem_of_dom.
    case_decide; [|done]. by destruct (ps_procs s !! q).
  - rewrite G. cbn. rewrite lookup_insert_eq.
    split_and!; [..|done]; (split; [cbn; by rewrite lookup_insert_eq|done|constructor|constructor]).
  - intros q Hne. cbn. by rewrite lookup_insert_ne, Hprocs.
  - rewrite G. done.
Qed.

(** What the creation of a user process asks for. *)
Record can_create_user s (live : gset Z) (l : list Z) (name : Z) (cs : list Z) (parent aspace aid role : Z) a' : Prop := {
  cu_table : table_ok s l;
  cu_heap : pheap s live;
  cu_null : NULL ∉ live;
  cu_lock : pfree s processes_lock;
  cu_name : name ≠ NULL ∧ str_at (ps_mem s) name cs ∧ len cs ≤ SYS_MAX_OS_NAME_LEN ∧ can_create s name cs;
  cu_id : 0 < next_process_id s ∧ next_process_id s + 1 < 2 ^ 32;
  cu_role : 0 ≤ role < PROCESS_ROLES_COUNT;
  cu_aspace : aspace ≠ NULL ∧ aspace_ready (ps_aspaces s) aspace aid a';
  cu_parent : parent_ok s l parent }.

Lemma wp_proc_create_user_process fill s live l name cs parent aspace aid role a' (Q : Z → procs → Prop) :
  can_create_user s live l name cs parent aspace aid role a' →
  (∀ p s', p ∉ live → user_process s live l cs parent aspace aid role p s' → Q p s') →
  wp (proc_create_user_process fill name parent aspace NULL role) s Q.
Proof.
  intros [Hs Hh H0 Hf (Hnm & Hstr & Hlen & Hc) [Hid Hnext] Hr (Hasp & a1 & a2 & a3 & k & E1 & E2 & E3 & E4) Hpar] HQ.
  unfold proc_create_user_process, assert_name. rewrite (proj2 (Z.eqb_neq name NULL)) by done. apply wp_bind.
  apply wp_bind, wp_zoom. unfold SYS_MAX_OS_NAME_LEN in Hlen. eapply wp_strlen; [done|lia|].
  replace (pupd_mem (ps_mem s) s) with s by by destruct s.
  unfold PASSERT. rewrite (proj2 (Z.leb_le _ _)) by (unfold SYS_MAX_OS_NAME_LEN; lia). apply wp_ret.
  rewrite (proj2 (Z.eqb_neq aspace NULL)), (proj2 (Z.ltb_ge _ _)) by (done || lia). cbn [orb].
  apply wp_bind. eapply (wp_create_process_common s live); [done..|]. intros p b h m Hfb.
  pose proof Hfb as [[Hp Hpl] _ _ _ _]. pose proof (pheap_fresh _ _ _ Hh Hpl) as Hnone.
  rewrite (proj2 (Z.eqb_neq p NULL)) by (unfold proc_ok, NULL in *; lia).
  unfold created. set (s0 := pupd_next _ _). apply wp_bind, wp_zoom. eapply wp_of_ok; [exact E1|].
  change (pupd_aspaces a1 (with_process p (born s b) s0)) with (with_process p (born s b) (pupd_aspaces a1 s0)).
  apply wp_bind, wp_set_process. rewrite (proj2 (Z.eqb_neq aspace NULL)) by done.
  destruct (Z.eqb_spec parent NULL) as [->|Hpn]; cbn [negb].
  - eapply (wp_enter s live l p b cs h m NULL aspace aid role _ a1 a2 a3 a'); try done.
    + intros q Hne. cbn. rewrite lookup_insert_ne by done. case_decide; [|done]. subst q.
      by rewrite (pheap_fresh _ _ _ Hh H0).
    + intros s' Hs'. by apply HQ.
  - destruct Hpar as [?|(Hin & vp & Hvp & Hlive)]; [done|]. assert (parent ≠ p) as Hne by congruence.
    apply wp_bind. eapply (wp_proc_inc_refcnt _ _ vp); [exact Hf| |done|].
    { cbn. by rewrite !lookup_insert_ne by done. }
    rewrite with_process_comm by done. apply wp_bind, wp_set_process. rewrite (proj2 (Z.eqb_neq parent NULL)) by done.
    eapply (wp_enter s live l p b cs h m parent aspace aid role _ a1 a2 a3 a'); try done.
    + intros q Hqp. cbn. rewrite lookup_insert. case_decide as Eq.
      * subst q. by rewrite decide_True, Hvp by done.
      * rewrite lookup_insert_ne by done. by rewrite decide_False by done.
    + intros s' Hs'. by apply HQ.
Qed.

(** C18: the creation of a user process and the way back to it. With memory, a usable address
    space, a role of the table and a parent that lives or none, [proc_create_user_process]
    gives a process nobody had the address of, last in the table, born with the next
    identifier, one reference, the priority and policy of its role, its name copied and its
    lists empty; the parent, if any, has one more reference and the other processes are as
    they were. Looking its identifier up gives the process, then with two references. *)
Theorem proc_create_user_correct fill s live l name cs parent aspace aid role a' :
  can_create_user s live l name cs parent aspace aid role a' →
  ∃ p s', proc_create_user_process fill name parent aspace NULL role s = Ok (p, s') ∧ p ∉ live ∧
    user_process s live l cs parent aspace aid role p s' ∧
    ∀ key, key ∉ l ++ [p] → ∃ v, ps_procs s' !! p = Some v ∧ pr_ref_count v = 1 ∧
      proc_get_process_by_id key (next_process_id s) s' = Ok (p, with_process p (with_ref_count 2 v) s').
Proof.
  intros H. assert (wp (proc_create_user_process fill name parent aspace NULL role) s (λ p s',
    p ∉ live ∧ user_process s live l cs parent aspace aid role p s')) as Hw.
  { eapply wp_proc_create_user_process; [exact H|]. intros p s' Hp Hs'. exact (conj Hp Hs'). }
  apply wp_ok in Hw as (p & s' & E & Hp & Hs'). exists p, s'. split; [exact E|]. split; [exact Hp|].
  split; [exact Hs'|]. intros key Hk. pose proof Hs' as [Ht (b & _ & [_ Hd] & Hv) _ _ [_ Ec]].
  eexists. split; [exact Hv|]. split; [done|].
  eapply (get_known s' (l ++ [p]) key p) in Hv as Eg; [exact Eg|done| |done| |].
  - apply elem_of_app. right. by apply list_elem_of_singleton.
  - unfold pfree, free_lock. change (sc_cpu (ps_sched s')) with (ps_cpu s'). rewrite Ec. apply H.
  - destruct (ps_procs s' !! NULL) as [w|] eqn:E0; [|done]. exfalso.
    destruct (decide (NULL = p)) as [Ep|Hne].
    + apply (table_null _ _ Ht). rewrite Ep. apply elem_of_app. right. by apply list_elem_of_singleton.
    + rewrite (up_others _ _ _ _ _ _ _ _ _ _ Hs') in E0 by done.
      rewrite (pheap_fresh s live) in E0 by apply H. by case_decide.
Qed.

(** Giving back the blocks of a process that is not in the table. *)
Lemma wp_destroy_created s live p b cs h m v t (Q : unit → procs → Prop) :
  pheap s live → NULL ∉ live → fresh_block s live p b cs h m → pr_name v = b → pr_args v = 0 →
  (∀ h', al_live h' live → Q tt (drop_process p (pupd_heap h' (pupd_aspaces t (created s p v h m))))) →
  wp (destroy_process_common p) (pupd_aspaces t (created s p v h m)) Q.
Proof.
  intros Hh H0 [[Hp Hpl] [Hb Hb0] Hlv _ _] Ev Ea HQ. unfold destroy_process_common.
  apply wp_bind. eapply wp_ld_proc; [apply lookup_insert_eq|]. rewrite Ev, Ea. unfold free_name.
  rewrite (proj2 (Z.eqb_neq b NULL)) by (unfold NULL; lia). cbn [negb when].
  change (0 =? NULL) with true. cbn [negb when]. apply wp_bind, wp_zoom.
  eapply al_free_ok; [exact Hlv|set_solver +|]. intros h1 H1. apply wp_bind, wp_ret, wp_bind, wp_zoom.
  eapply al_free_ok; [exact H1|set_solver|]. intros h2 H2. apply wp_modify. apply (HQ h2).
  replace live with ((({[b]} ∪ ({[p]} ∪ live)) ∖ {[b]}) ∖ {[p]}) by set_solver. exact H2.
Qed.

(** A creation that fails leaves nothing. If the address space is being deleted, so that no
    reference to it can be had, [proc_create_user_process] gives [NULL]: the processes, the
    table and the blocks in use are those of before, and only an identifier is spent. *)
Theorem proc_create_user_undone fill s live l name cs parent aspace role a' :
  table_ok s l → pheap s live → NULL ∉ live → name ≠ NULL → str_at (ps_mem s) name cs →
  len cs ≤ SYS_MAX_OS_NAME_LEN → can_create s name cs → 0 < next_process_id s → next_process_id s + 1 < 2 ^ 32 →
  0 ≤ role < PROCESS_ROLES_COUNT → aspace ≠ NULL → vm_inc_aspace_refcnt aspace (ps_aspaces s) = Ok (NULL, a') →
  ∃ s', proc_create_user_process fill name parent aspace NULL role s = Ok (NULL, s') ∧
    table_ok s' l ∧ pheap s' live ∧ ps_procs s' = ps_procs s ∧ ps_cpu s' = ps_cpu s ∧
    next_process_id s' = next_process_id s + 1.
Proof.
  intros Hs Hh H0 Hnm Hstr Hlen Hc Hid Hnext Hr Hasp Ea. apply wp_run.
  unfold proc_create_user_process, assert_name. rewrite (proj2 (Z.eqb_neq name NULL)) by done. apply wp_bind.
  apply wp_bind, wp_zoom. unfold SYS_MAX_OS_NAME_LEN in Hlen. eapply wp_strlen; [done|lia|].
  replace (pupd_mem (ps_mem s) s) with s by by destruct s.
  unfold PASSERT. rewrite (proj2 (Z.leb_le _ _)) by (unfold SYS_MAX_OS_NAME_LEN; lia). apply wp_ret.
  rewrite (proj2 (Z.eqb_neq aspace NULL)), (proj2 (Z.ltb_ge _ _)) by (done || lia). cbn [orb].
  apply wp_bind. eapply (wp_create_process_common s live); [done..|]. intros p b h m Hfb.
  pose proof Hfb as [[Hp Hpl] _ _ _ _]. pose proof (pheap_fresh _ _ _ Hh Hpl) as Hnone.
  rewrite (proj2 (Z.eqb_neq p NULL)) by (unfold proc_ok, NULL in *; lia).
  apply wp_bind, wp_zoom. eapply wp_of_ok; [exact Ea|].
  change (pupd_aspaces a' (created s p (born s b) h m)) with
    (with_process p (born s b) (pupd_aspaces a' (pupd_next (next_process_id s + 1) (pupd_mem m (pupd_heap h (add_process p s)))))).
  apply wp_bind, wp_set_process. change (NULL =? NULL) with true. cbv iota. unfold abandon_process.
  apply wp_bind, wp_ld_process. apply wp_bind, wp_ret, wp_bind, wp_ret, wp_bind.
  set (v := with_aspace _ NULL (born s b)).
  eapply (wp_destroy_created s live p b cs h m v a'); [done|done|exact Hfb|done|done|]. intros h' Hl'.
  apply wp_ret. split; [done|]. set (s' := drop_process _ _).
  assert (ps_procs s' = ps_procs s) as Ep.
  { unfold s'. cbn. by rewrite !delete_insert_eq, delete_id. }
  assert (ps_lists s' = XStore (delete (procs_list_node p) (nodes (ps_lists s))) (lists (ps_lists s))) as El.
  { unfold s'. cbn. by rewrite delete_insert_eq. }
  assert (ps_tree s' = AStore (delete (AVL_DATA2NODE p procs_tree_node) (anodes (ps_tree s))) (atrees (ps_tree s))) as Et.
  { unfold s'. cbn. by rewrite delete_insert_eq. }
  assert (p ∉ l) as Hpn. { intros Hin. destruct (tk_id _ _ Hs p Hin) as [[w Hw] _]. congruence. }
  split_and!; [|split; [exact Hl'|]|exact Ep|done|done].
  - destruct Hs as [[Hh1 Hs1 Hnd1 Hv1] T2 T3 T4]. split; [| |done|].
    + rewrite El. split; [done| |done|done]. eapply seg_frame; [|exact Hs1]. intros y Hy.
      apply lookup_delete_ne. intros <-. by apply (procs_list_node_notin l p).
    + rewrite Ep, Et. eapply aset_frame; [exact T2|done|]. intros q Hq. apply lookup_delete_ne.
      rewrite !procs_tree_node_ok; [|by apply (proj1 (Forall_forall _ _) T3)|done]. intros ?. assert (p = q) as -> by lia. done.
    + intros q Hq. rewrite Ep. destruct (T4 q Hq). split; [done|]. cbn. lia.
  - rewrite Ep. apply Hh.
Qed.
End props.

(** ** Examples *)

(** Address spaces that count the references to them: 500 with the identifier 7, 0 references
    mean it is being deleted; the kernel's has the identifier 1. *)
Definition example_aspaces : Aspaces := {|
  as_state := Z;
  vm_get_kernel_aspace_id := mret 1;
  vm_get_kernel_aspace := mret 400;
  vm_inc_aspace_refcnt a := n ← get; if n =? 0 then mret NULL else put (n + 1);; mret a;
  vm_put_aspace _ := modify (λ n, n - 1);
  aspace_id _ := mret 7;
  vm_map_user_stub _ := mret NO_ERROR;
  arch_process_init := mret NO_ERROR |}.

#[local] Existing Instance example_aspaces.

(** Three pages for blocks. *)
Definition roomy_heap : heap := Heap (Cpu {[1 := 0]} true) (word_area 4096 4096)
  (replicate 3 (HeapPage 0 0 0 0)) 4096 8192 8192 12288 bins_init false.

Lemma roomy_heap_ok : heap_ok roomy_heap ∅.
Proof.
  split; [reflexivity|]. exists [], (λ _, []).
  eapply (fresh_heap_inv _ _ _ _ 8192 12288 3); [lia|done|lia|done|lia|done|].
  intros x Hx Hm. apply word_area_dom; [lia|]. by rewrite Zminus_mod, Hm.
Qed.

(** No processes yet; the name "ab" is at 300. *)
Definition no_procs (refs : Z) : @procs heap_allocator example_aspaces :=
  Procs (TimerState (upd_cpu (Cpu {[ processes_lock := 0 ]} true) (Sched (XStore ∅ ∅) (Cpu ∅ true) ∅ ∅ 0 0 0 0 0 0 0 0))
           roomy_heap (XStore ∅ ∅) ∅ ∅ (AStore ∅ ∅) 0 0 0 0 [])
    refs (list_to_map [(300, 97); (301, 98); (302, 0)])
    (XStore ∅ {[ processes_list := XListHdr 0 0 0 ]}) (AStore ∅ {[ processes_tree := ATree 0 procs_tree_node 0 148 ]})
    ∅ 1 0 ∅ (XStore ∅ ∅) (XStore ∅ ∅) (XStore ∅ ∅).

(** A request that is met could be met. *)
Lemma room_of_ok h live size a h' : heap_live h live → kmalloc size h = Ok (a, h') → heap_room h size.
Proof.
  intros (bl & Hh & _) E. destruct (decide (size ≤ 0x18000)) as [Hs|Hs].
  - destruct (proj2 (kmalloc_spec h bl size Hh) Hs) as (k & Hk & H). case_decide as Hx; [congruence|].
    split; [done|]. intros k' Hk'. by rewrite (best_bin_unique _ _ _ Hk' Hk).
  - rewrite (proj1 (kmalloc_spec h bl size Hh)) in E by lia. done.
Qed.

Lemma no_procs_table refs : table_ok (no_procs refs) [].
Proof.
  split; [|split_and!; [done|by intros ?%elem_of_nil|]|constructor|by intros p ?%elem_of_nil].
  - split; [reflexivity|done|constructor|constructor].
  - exists (ATree 0 procs_tree_node 0 148), Leaf. split_and!; [|done|done].
    split; [|done|constructor|done]. split; [reflexivity|done|done|constructor|constructor].
Qed.

Lemma no_procs_heap refs : pheap (no_procs refs) ∅.
Proof. split; [exists ∅; split; [exact roomy_heap_ok|reflexivity]|set_solver +]. Qed.


(** The heap after the block of a process is taken. *)
Definition heap_one : heap := outcome (kmalloc sizeof_process) roomy_heap.

Lemma heap_one_run : kmalloc sizeof_process roomy_heap = Ok (8192, heap_one) ∧
  ∃ h, kmalloc 3 heap_one = Ok (12288, h).
Proof.
  assert ((match kmalloc sizeof_process roomy_heap with Ok (a, _) => a =? 8192 | _ => false end) = true) as E1 by (vm_compute; reflexivity).
  assert ((match kmalloc 3 heap_one with Ok (a, _) => a =? 12288 | _ => false end) = true) as E2 by (vm_compute; reflexivity).
  unfold heap_one, outcome in *. destruct (kmalloc sizeof_process roomy_heap) as [[a h]| | |]; [|done..].
  apply Z.eqb_eq in E1 as ->. split; [done|].
  destruct (kmalloc 3 h) as [[b h']| | |]; [|done..]. apply Z.eqb_eq in E2 as ->. by eexists.
Qed.

Lemma Ok_inj {S B} (a b : B) (s t : S) : Ok (a, s) = Ok (b, t) → a = b ∧ s = t.
Proof. by intros [= -> ->]. Qed.

#[local] Opaque roomy_heap heap_one kmalloc.

Lemma no_procs_can_create refs : can_create (no_procs refs) 300 [97; 98].
Proof.
  destruct heap_one_run as [E1 [h' E2]]. split.
  - eapply (room_of_ok roomy_heap ∅); [exists ∅; split; [exact roomy_heap_ok|reflexivity]|exact E1].
  - intros p h E. change (kmalloc sizeof_process roomy_heap = Ok (p, h)) in E. rewrite E1 in E. apply Ok_inj in E as [<- <-].
    assert (wp (kmalloc sizeof_process) roomy_heap (λ a h, ∃ live, heap_live h live)) as Hw.
    { eapply (al_alloc_ok (A := heap_allocator) (roomy_heap : @al_state heap_allocator) ∅ sizeof_process).
      - exact (proj1 (no_procs_heap refs)).
      - eapply (room_of_ok roomy_heap ∅); [exists ∅; split; [exact roomy_heap_ok|reflexivity]|exact E1].
      - done.
      - intros a h _ _ _ Hl. by eexists. }
    unfold wp in Hw. rewrite E1 in Hw. destruct Hw as [live Hl].
    split_and!; [by_decide|by_decide|by eapply room_of_ok|].
    intros b h2 E. change (kmalloc 3 heap_one = Ok (b, h2)) in E. rewrite E2 in E. apply Ok_inj in E as [<- <-]. by_decide.
Qed.

Lemma no_procs_ready : can_create_user (no_procs 3) ∅ [] 300 [97; 98] NULL 500 7 2 4.
Proof.
  split; [apply no_procs_table|apply no_procs_heap|set_solver +|reflexivity| |by_decide|by_decide| |by left].
  - split; [done|]. split; [by_decide|]. split; [by_decide|apply no_procs_can_create].
  - split; [done|]. by exists 4, 4, 4, 1.
Qed.

Lemma proc_create_user_correct_witness :
  ∃ p s', proc_create_user_process (λ _, 7) 300 NULL 500 NULL 2 (no_procs 3) = Ok (p, s') ∧ p ∉ (∅ : gset Z) ∧
    user_process (no_procs 3) ∅ [] [97; 98] NULL 500 7 2 p s' ∧
    ∀ key, key ∉ [] ++ [p] → ∃ v, ps_procs s' !! p = Some v ∧ pr_ref_count v = 1 ∧
      proc_get_process_by_id key 1 s' = Ok (p, with_process p (with_ref_count 2 v) s').
Proof. exact (proc_create_user_correct (λ _, 7) (no_procs 3) ∅ [] 300 [97; 98] NULL 500 7 2 4 no_procs_ready). Defined.

Lemma proc_create_user_undone_witness :
  ∃ s', proc_create_user_process (λ _, 7) 300 NULL 500 NULL 2 (no_procs 0) = Ok (NULL, s') ∧
    table_ok s' [] ∧ pheap s' ∅ ∧ ps_procs s' = ps_procs (no_procs 0) ∧ ps_cpu s' = ps_cpu (no_procs 0) ∧
    next_process_id s' = 2.
Proof.
  apply (proc_create_user_undone (λ _, 7) (no_procs 0) ∅ [] 300 [97; 98] NULL 500 2 0);
    [apply no_procs_table|apply no_procs_heap|set_solver +|done|by_decide|by_decide|apply no_procs_can_create|
     done|done|by_decide|done|reflexivity].
Defined.

(** One process, of identifier 1. *)
Definition one_proc : @procs heap_allocator example_aspaces :=
  outcome (proc_create_user_process (λ _, 7) 300 NULL 500 NULL 2) (no_procs 3).

Lemma one_proc_ok : ∃ p, user_process (no_procs 3) ∅ [] [97; 98] NULL 500 7 2 p one_proc.
Proof.
  destruct heap_one_run as [E1 _].
  set (P := λ s : @procs heap_allocator example_aspaces, ∃ p, user_process (no_procs 3) ∅ [] [97; 98] NULL 500 7 2 p s).
  enough (wp (proc_create_user_process (λ _, 7) 300 NULL 500 NULL 2) (no_procs 3) (λ _, P)) as H by exact (wp_outcome _ _ P H).
  eapply wp_proc_create_user_process; [exact no_procs_ready|]. intros p s' _ Hs'. by exists p.
Qed.

#[local] Opaque one_proc.

(** It is looked up and put back; then it is dying, and is looked up and put back again. *)
Lemma proc_references_correct_witness : ∃ p v, ps_procs one_proc !! p = Some v ∧
  let s := with_process p (with_ref_count 0 (with_pstate PROCESS_STATE_DEATH v)) one_proc in
  (p' ← proc_get_process_by_id 0 1; proc_put_process p') one_proc = Ok (tt, one_proc) ∧
  (p' ← proc_get_process_by_id 0 1; proc_put_process p') s =
    Ok (tt, with_process p (with_ref_count (2 ^ 32 - 1) (with_pstate PROCESS_STATE_DEATH v)) one_proc).
Proof.
  generalize one_proc, one_proc_ok. intros s [p [Ht (b & _ & [_ Hd] & Hv) _ Ho [_ Ec]]]. simpl in Ht. cbv zeta.
  set (v := Process _ _ _ _ _ _ _ _ _ _ _ _ _ _) in Hv.
  assert (0 ∉ [p]) as H0 by exact (table_null _ _ Ht).
  assert (pfree s processes_lock) as Hf.
  { unfold pfree, free_lock. change (sc_cpu (ps_sched s)) with (ps_cpu s). by rewrite Ec. }
  assert (ps_procs s !! NULL = None) as Hn by (rewrite Ho; [done|intros <-; set_solver +H0]).
  exists p, v. split; [exact Hv|]. set (d := with_ref_count 0 (with_pstate PROCESS_STATE_DEATH v)). split.
  - destruct (proc_references_correct s [p] 0 1 Ht H0 Hf Hn) as [H _].
    assert (0 ≤ pr_ref_count v < 2 ^ 32) as Hr by (change (pr_ref_count v) with 1; clear; lia).
    pose proof (proj2 (H p v (list_elem_of_here _ _) Hv eq_refl Hr)) as E.
    rewrite decide_False in E by (intros [=]). exact E.
  - assert (table_ok (with_process p d s) [p]) as Ht' by by eapply table_set.
    assert (ps_procs (with_process p d s) !! NULL = None) as Hn'.
    { cbn. rewrite lookup_insert_ne; [done|]. intros ->. set_solver +H0. }
    destruct (proc_references_correct (with_process p d s) [p] 0 1 Ht' H0 Hf Hn') as [H _].
    assert (0 ≤ pr_ref_count d < 2 ^ 32) as Hr by (change (pr_ref_count d) with 0; clear; lia).
    pose proof (proj2 (H p d (list_elem_of_here _ _) (lookup_insert_eq _ _ _) eq_refl Hr)) as E.
    rewrite decide_True in E by reflexivity. eapply eq_trans; [exact E|].
    f_equal. f_equal. unfold with_process. cbn. by rewrite insert_insert_eq.
Defined.
