(* ===== verification/Sem.v ===== *)
(** * Semaphores: [kernel/sem.c]

    A semaphore is in a slot of a table, with a lock of the slot; its identifier is the number
    of the slot and a generated part. Threads that cannot count it down wait in its list with
    control blocks on their stacks, and counting up walks this list. Semaphores with a name
    are in an AVL tree, and each one is on the list of the process that owns it. The state of
    the model is the static data of the file, the semaphores, the control blocks, the locks,
    list nodes and tree nodes of these, the termination callbacks of the threads, and the
    state of the processes, with the timer, the scheduler and the heap in it. What the other
    threads do while one waits is a parameter of the wait, turn by turn. *)

From S2P Require Import Spinlock Prelude XList AvlTree CString Alloc Sched Timer Process.
From stdpp Require Import gmap list.
#[local] Open Scope Z_scope.

(** ** Identifiers *)

Definition SYS_MAX_SEM_COUNT : Z := 8192.

Definition SEM_IDX_BITS : Z := 13.

Definition SEM_IDX_MASK : Z := Z.shiftl 1 SEM_IDX_BITS - 1.

Definition SEM_GID_MASK : Z := u32 (Z.shiftl (u32 (-1)) SEM_IDX_BITS).

Definition SEM_IDX (a : Z) : Z := Z.land a SEM_IDX_MASK.

Definition SEM_GID (a : Z) : Z := Z.shiftr (Z.land a SEM_GID_MASK) SEM_IDX_BITS.

Definition SEM_ID_BUILD (slot gid : Z) : Z := Z.lor (u32 (Z.shiftl gid SEM_IDX_BITS)) slot.

Definition INVALID_SEMID : Z := 0.

Definition SEMF_TIMEOUT : Z := 1.

Definition SEMF_TRY : Z := 2.

Definition SEMF_NOFLAGS : Z := 0.

Definition ERR_SEM_GENERAL : Z := s32 0x83000000.

Definition ERR_SEM_INVALID_HANDLE : Z := s32 (0x83000000 + 1).

Definition ERR_SEM_INVALID_VALUE : Z := s32 (0x83000000 + 2).

Definition ERR_SEM_DELETED : Z := s32 (0x83000000 + 3).

Definition ERR_SEM_TIMEOUT : Z := s32 (0x83000000 + 4).

Definition ERR_SEM_TRY_FAILED : Z := s32 (0x83000000 + 5).

(** ** Data *)

(** [semaphore_t] and [sem_wcb_t], without the lists and nodes inside them *)
Record semaphore := Semaphore {
  sm_id : Z; sm_lock : Z; sm_proc : Z; sm_name : Z; sm_max_count : Z; sm_count : Z }.

Record sem_wcb := Wcb { wc_sem : Z; wc_thread : Z; wc_count : Z; wc_timeout : Z; wc_err : Z }.

(** [thread_cbd_t], whose routine is [sem_thread_callback] here *)
Record thread_cbd := Cbd { cb_thread : Z; cb_data : Z }.

Definition sizeof_semaphore : Z := 60.

Definition sem_waiters (p : Z) : Z := u32 (p + 24).

Definition sem_proc_node (p : Z) : Z := u32 (p + 36).

Definition sem_tree_node : Z := 44.

Definition wcb_node (w : Z) : Z := u32 (w + 20).

Definition node_wcb (n : Z) : Z := u32 (n - 20).

Definition cbd_node (c : Z) : Z := u32 (c + 12).

Definition term_cbs_list (th : Z) : Z := u32 (th + 132).

Definition sem_table : Z := 4096.

(** [&sem_table[i].lock] *)
Definition slot_lock (i : Z) : Z := sem_table + 8 * i.

Definition sem_tree_lock : Z := 4.

Definition sem_tree : Z := 4.

Section sem.
Context {A : Allocator} {V : Aspaces}.

Record sems := Sems {
  ss_procs : procs; ss_table : gmap Z Z; ss_locks : gmap Z Z; ss_sems : gmap Z semaphore;
  ss_wcbs : gmap Z sem_wcb; ss_cbds : gmap Z thread_cbd; ss_waiters : xstore; ss_cbs : xstore;
  ss_tree : astore; next_sem_gid : Z }.

(** ** Access *)

Definition supd_procs x s := Sems x (ss_table s) (ss_locks s) (ss_sems s) (ss_wcbs s)
  (ss_cbds s) (ss_waiters s) (ss_cbs s) (ss_tree s) (next_sem_gid s).
Definition supd_table x s := Sems (ss_procs s) x (ss_locks s) (ss_sems s) (ss_wcbs s)
  (ss_cbds s) (ss_waiters s) (ss_cbs s) (ss_tree s) (next_sem_gid s).
Definition supd_locks x s := Sems (ss_procs s) (ss_table s) x (ss_sems s) (ss_wcbs s)
  (ss_cbds s) (ss_waiters s) (ss_cbs s) (ss_tree s) (next_sem_gid s).
Definition supd_sems x s := Sems (ss_procs s) (ss_table s) (ss_locks s) x (ss_wcbs s)
  (ss_cbds s) (ss_waiters s) (ss_cbs s) (ss_tree s) (next_sem_gid s).
Definition supd_wcbs x s := Sems (ss_procs s) (ss_table s) (ss_locks s) (ss_sems s) x
  (ss_cbds s) (ss_waiters s) (ss_cbs s) (ss_tree s) (next_sem_gid s).
Definition supd_cbds x s := Sems (ss_procs s) (ss_table s) (ss_locks s) (ss_sems s) (ss_wcbs s)
  x (ss_waiters s) (ss_cbs s) (ss_tree s) (next_sem_gid s).
Definition supd_waiters x s := Sems (ss_procs s) (ss_table s) (ss_locks s) (ss_sems s) (ss_wcbs s)
  (ss_cbds s) x (ss_cbs s) (ss_tree s) (next_sem_gid s).
Definition supd_cbs x s := Sems (ss_procs s) (ss_table s) (ss_locks s) (ss_sems s) (ss_wcbs s)
  (ss_cbds s) (ss_waiters s) x (ss_tree s) (next_sem_gid s).
Definition supd_tree x s := Sems (ss_procs s) (ss_table s) (ss_locks s) (ss_sems s) (ss_wcbs s)
  (ss_cbds s) (ss_waiters s) (ss_cbs s) x (next_sem_gid s).
Definition supd_gid x s := Sems (ss_procs s) (ss_table s) (ss_locks s) (ss_sems s) (ss_wcbs s)
  (ss_cbds s) (ss_waiters s) (ss_cbs s) (ss_tree s) x.

Definition ss_sched (s : sems) : sched := ps_sched (ss_procs s).

Definition supd_sched (x : sched) (s : sems) : sems := supd_procs (pupd_sched x (ss_procs s)) s.

Definition ss_timer (s : sems) : timer := ps_timer (ss_procs s).

Definition supd_timer (x : timer) (s : sems) : sems := supd_procs (pupd_timer x (ss_procs s)) s.

Abbreviation on_procs := (zoom ss_procs supd_procs).
Abbreviation on_sched := (zoom ss_sched supd_sched).
Abbreviation on_timer := (zoom ss_timer supd_timer).
Abbreviation on_waiters := (zoom ss_waiters supd_waiters).
Abbreviation on_cbs := (zoom ss_cbs supd_cbs).
Abbreviation on_tree := (zoom ss_tree supd_tree).

(** The processor, the locks of the scheduler with it. *)
Definition on_cpu {B} (m : M cpu B) : M sems B := on_sched (zoom sc_cpu upd_cpu m).

(** The locks of the table and of the tree, on the same processor. *)
Definition on_locks {B} : M cpu B → M sems B :=
  zoom (λ s, Cpu (ss_locks s) (irqs (sc_cpu (ss_sched s))))
       (λ c s, supd_sched (upd_cpu (Cpu (locks (sc_cpu (ss_sched s))) (irqs c)) (ss_sched s)) (supd_locks (locks c) s)).

Definition on_heap {B} (m : M al_state B) : M sems B := on_procs (zoom ps_heap pupd_heap m).

Definition on_mem {B} (m : M mem B) : M sems B := on_procs (zoom ps_mem pupd_mem m).

Definition on_semlists {B} (m : M xstore B) : M sems B := on_procs (zoom ps_semlists pupd_semlists m).

Definition ld_sem (p : Z) : M sems semaphore := load (λ s, ss_sems s !! p).

Definition st_sem (p : Z) (v : semaphore) : M sems unit := modify (λ s, supd_sems (<[p := v]> (ss_sems s)) s).

Definition ld_wcb (w : Z) : M sems sem_wcb := load (λ s, ss_wcbs s !! w).

Definition st_wcb (w : Z) (v : sem_wcb) : M sems unit := modify (λ s, supd_wcbs (<[w := v]> (ss_wcbs s)) s).

Definition ld_cbd (c : Z) : M sems thread_cbd := load (λ s, ss_cbds s !! c).

(** [sem_table[i].sem] *)
Definition ld_slot (i : Z) : M sems Z := load (λ s, ss_table s !! i).

Definition st_slot (i p : Z) : M sems unit :=
  ld_slot i;; modify (λ s, supd_table (<[i := p]> (ss_table s)) s).

Definition with_count c v := Semaphore (sm_id v) (sm_lock v) (sm_proc v) (sm_name v) (sm_max_count v) c.
Definition with_owner p v := Semaphore (sm_id v) (sm_lock v) p (sm_name v) (sm_max_count v) (sm_count v).
Definition with_err e w := Wcb (wc_sem w) (wc_thread w) (wc_count w) (wc_timeout w) e.
Definition with_timeout t w := Wcb (wc_sem w) (wc_thread w) (wc_count w) t (wc_err w).

Definition set_err (w e : Z) : M sems unit := v ← ld_wcb w; st_wcb w (with_err e v).

Definition set_timeout (w t : Z) : M sems unit := v ← ld_wcb w; st_wcb w (with_timeout t v).

Definition set_count (p c : Z) : M sems unit := v ← ld_sem p; st_sem p (with_count c v).

Definition SASSERT (b : bool) : M sems unit := if b then mret tt else panic.

(** ** Helpers of the file *)

(** At most three rounds: one that finds the end of the range, one that gets 0 again. *)
Fixpoint next_gid_loop (fuel : nat) (nozero : bool) : M sems Z :=
  match fuel with
  | O => hang
  | S fuel =>
      retval ← gets next_sem_gid;
      modify (λ s, supd_gid (u32 (next_sem_gid s + 1)) s);;
      retval ← (if SEM_GID (u32 (-1)) <? retval then modify (supd_gid 0);; mret 0 else mret retval);
      if nozero && (retval =? 0) then next_gid_loop fuel nozero else mret retval
  end.

Definition get_next_gid (nozero : bool) : M sems Z := next_gid_loop 3 nozero.

(** [compare_sem_name] on the names of a state; [names] gives the name pointer of an object. A
    comparison that would read outside the memory counts as equal. *)
Definition compare_sem_name (m : mem) (names : Z → Z) (s1 s2 : Z) : Z :=
  match strcmp (names s1) (names s2) m with
  | Ok (r, _) => if r <=? 0 then (if r <? 0 then -1 else 0) else 1
  | _ => 0
  end.

Definition sem_client (m : mem) (names : Z → Z) : AvlClient := {| avl_compare := compare_sem_name m names |}.

Definition name_of (m : gmap Z semaphore) (p : Z) : Z := default NULL (sm_name <$> m !! p).

(** The names when a lookup key with the name [n] is at the address [key]. *)
Definition name_key (m : gmap Z semaphore) (key n p : Z) : Z := if p =? key then n else name_of m p.

Definition gets_client : M sems AvlClient :=
  gets (λ s, sem_client (ps_mem (ss_procs s)) (name_of (ss_sems s))).

Definition zero_sem : semaphore := Semaphore 0 0 0 0 0 0.

(** The semaphore of [kmalloc] and [memset]. *)
Definition add_sem (p : Z) (v : semaphore) (s : sems) : sems :=
  let x := ps_semlists (ss_procs s) in
  supd_sems (<[p := v]> (ss_sems s))
    (supd_waiters (with_list (sem_waiters p) (ss_waiters s))
      (supd_tree (AStore (<[AVL_DATA2NODE p sem_tree_node := zero_anode]> (anodes (ss_tree s))) (atrees (ss_tree s)))
        (supd_procs (pupd_semlists (XStore (<[sem_proc_node p := zero_elem]> (nodes x)) (lists x)) (ss_procs s)) s))).

Definition drop_sem (p : Z) (s : sems) : sems :=
  let x := ps_semlists (ss_procs s) in
  supd_sems (delete p (ss_sems s))
    (supd_waiters (less_list (sem_waiters p) (ss_waiters s))
      (supd_tree (AStore (delete (AVL_DATA2NODE p sem_tree_node) (anodes (ss_tree s))) (atrees (ss_tree s)))
        (supd_procs (pupd_semlists (XStore (delete (sem_proc_node p) (nodes x)) (lists x)) (ss_procs s)) s))).

(** [name != NULL && name[0]] *)
Definition has_name (name : Z) : M sems bool :=
  if negb (name =? NULL) then c ← on_mem (ldc name); mret (negb (c =? 0)) else mret false.

Definition create_sem_struct (fill : Z → Z) (name : Z) : M sems Z :=
  named ← has_name name;
  n ← (if (named : bool) then r ← on_procs (kstrdup fill name); mret (if r =? NULL then None else Some r)
       else mret (Some NULL));
  match n with
  | None => mret NULL
  | Some n =>
      sem ← on_heap (al_alloc sizeof_semaphore);
      if sem =? NULL then when (negb (n =? NULL)) (on_heap (al_free n));; mret NULL
      else modify (add_sem sem (Semaphore 0 0 0 n 0 0));; mret sem
  end.

Definition destroy_sem_struct (sem : Z) : M sems unit :=
  e ← on_waiters (xlist_isempty (sem_waiters sem));
  SASSERT (negb (e =? 0));;
  v ← ld_sem sem;
  when (negb (sm_name v =? NULL)) (on_heap (al_free (sm_name v)));;
  on_heap (al_free sem);; modify (drop_sem sem).

(** The search from slot [i] on; [n] slots to go. *)
Fixpoint alloc_slot_loop (n : nat) (i : Z) : M sems Z :=
  match n with
  | O => mret (-1)
  | S n =>
      got ← on_locks (spin_trylock (slot_lock i));
      if negb (got =? 0) then
        p ← ld_slot i;
        if p =? NULL then mret i
        else on_locks (spin_unlock (slot_lock i));; alloc_slot_loop n (i + 1)
      else alloc_slot_loop n (i + 1)
  end.

Definition alloc_sem_slot : M sems Z := alloc_slot_loop (Z.to_nat SYS_MAX_SEM_COUNT) 0.

(** The semaphore, its slot locked, or [NULL]. *)
Definition get_sem_by_id (id : Z) : M sems Z :=
  let idx := SEM_IDX id in
  if SYS_MAX_SEM_COUNT <=? idx then mret NULL
  else
    on_locks (spin_lock (slot_lock idx));;
    p ← ld_slot idx;
    valid ← (if negb (p =? NULL) then v ← ld_sem p; mret (sm_id v =? id) else mret false);
    if (valid : bool) then mret p else on_locks (spin_unlock (slot_lock idx));; mret NULL.

Definition sem_put_wcb (sem wcb : Z) : M sems unit :=
  on_waiters (xlist_add_last (sem_waiters sem) (wcb_node wcb));; mret tt.

Definition sem_get_wcb (sem : Z) : M sems Z :=
  e ← on_waiters (xlist_extract_first (sem_waiters sem));
  mret (if negb (e =? NULL) then node_wcb e else NULL).

Definition sem_peek_first_wcb (sem : Z) : M sems Z :=
  e ← on_waiters (xlist_peek_first (sem_waiters sem));
  mret (if negb (e =? NULL) then node_wcb e else NULL).

Definition sem_peek_last_wcb (sem : Z) : M sems Z :=
  e ← on_waiters (xlist_peek_last (sem_waiters sem));
  mret (if negb (e =? NULL) then node_wcb e else NULL).

Definition sem_lock (sem : Z) : M sems unit := v ← ld_sem sem; on_locks (spin_lock (sm_lock v)).

Definition sem_unlock (sem : Z) : M sems unit := v ← ld_sem sem; on_locks (spin_unlock (sm_lock v)).

(** [thread_lock_thread; sched_add_thread; thread_unlock_thread] *)
Definition wake_thread (th : Z) : M sems unit :=
  on_sched (thread_lock_thread th);; on_sched (sched_add_thread th);; on_sched (thread_unlock_thread th).

Definition sem_thread_callback (cb : Z) : M sems unit :=
  c ← ld_cbd cb;
  w ← ld_wcb (cb_data c);
  v ← ld_sem (wc_sem w);
  irqs_state ← on_locks (spin_lock_irqsave (sm_lock v));
  on_waiters (xlist_remove_unsafe (sem_waiters (wc_sem w)) (wcb_node (cb_data c)));;
  v ← ld_sem (wc_sem w);
  on_locks (spin_unlock_irqrstor (sm_lock v) irqs_state).

Definition sem_timeout_callback (id wcb : Z) : M sems unit :=
  w ← ld_wcb wcb;
  v ← ld_sem (wc_sem w);
  irqs_state ← on_locks (spin_lock_irqsave (sm_lock v));
  when (wc_err w =? NO_ERROR) (set_err wcb ERR_SEM_TIMEOUT);;
  on_waiters (xlist_remove_unsafe (sem_waiters (wc_sem w)) (wcb_node wcb));;
  wake_thread (wc_thread w);;
  v ← ld_sem (wc_sem w);
  on_locks (spin_unlock_irqrstor (sm_lock v) irqs_state).

(** ** Public routines *)

Fixpoint init_slots (n : nat) (i : Z) : M sems unit :=
  match n with
  | O => mret tt
  | S n => on_locks (spin_init (slot_lock i));; st_slot i NULL;; init_slots n (i + 1)
  end.

Definition semaphores_init : M sems Z :=
  init_slots (Z.to_nat SYS_MAX_SEM_COUNT) 0;;
  modify (supd_gid 1);;
  on_tree (avl_tree_create sem_tree sizeof_semaphore sem_tree_node);;
  on_locks (spin_init sem_tree_lock);;
  mret NO_ERROR.

(** [avl_tree_add(&sem_tree, sem)], [false] when there is a semaphore of that name. *)
Definition tree_add (sem : Z) : M sems bool :=
  c ← gets_client;
  r ← on_tree (@avl_tree_add c sem_tree sem);
  mret (negb (r =? NULL)).

(** The end of the creation, with the semaphore in its slot, the interrupts disabled and the
    locks of the tree and of the process taken. *)
Definition enter_sem (sem slot proc : Z) (named irqs_state : bool) : M sems Z :=
  on_semlists (xlist_add_last (proc_semaphores proc) (sem_proc_node sem));;
  on_procs (on_proc_locks (spin_unlock (proc_lock proc)));;
  when named (on_locks (spin_unlock sem_tree_lock));;
  v ← ld_sem sem;
  on_locks (spin_unlock (slot_lock slot));;
  on_cpu (local_irqs_restore irqs_state);;
  on_procs (proc_put_process proc);;
  mret (sm_id v).

(** [key]: where the lookup of the process has its key. *)
Definition sem_create_ex (fill : Z → Z) (key name max_count init_count owner : Z) : M sems Z :=
  named ← has_name name;
  long ← (if (named : bool) then n ← on_mem (strlen name); mret (SYS_MAX_OS_NAME_LEN <? n) else mret false);
  if (long : bool) || (max_count <? init_count) then mret INVALID_SEMID
  else
    slot ← alloc_sem_slot;
    if slot <? 0 then mret INVALID_SEMID
    else
      sem ← create_sem_struct fill name;
      if sem =? NULL then on_locks (spin_unlock (slot_lock slot));; mret INVALID_SEMID
      else
        proc ← on_procs (proc_get_process_by_id key owner);
        if proc =? NULL then
          on_locks (spin_unlock (slot_lock slot));; destroy_sem_struct sem;; mret INVALID_SEMID
        else
          gid ← get_next_gid (slot =? 0);
          v ← ld_sem sem;
          st_sem sem (Semaphore (SEM_ID_BUILD slot gid) (slot_lock slot) proc (sm_name v) max_count init_count);;
          st_slot slot sem;;
          irqs_state ← on_cpu local_irqs_save_and_disable;
          when named (on_locks (spin_lock sem_tree_lock));;
          on_procs (on_proc_locks (spin_lock (proc_lock proc)));;
          ok ← (if (named : bool) then tree_add sem else mret true);
          if negb (ok : bool) then
            on_procs (on_proc_locks (spin_unlock (proc_lock proc)));;
            on_locks (spin_unlock sem_tree_lock);;
            st_slot slot NULL;;
            on_locks (spin_unlock (slot_lock slot));;
            destroy_sem_struct sem;;
            on_cpu (local_irqs_restore irqs_state);;
            on_procs (proc_put_process proc);;
            mret INVALID_SEMID
          else enter_sem sem slot proc named irqs_state.

Definition sem_create (fill : Z → Z) (key name max_count init_count : Z) : M sems Z :=
  owner ← on_procs proc_get_current_process_id;
  sem_create_ex fill key name max_count init_count owner.

(** [while((wcb = sem_get_wcb(sem)) != NULL) ..]; [fuel]: the control blocks and one. *)
Fixpoint delete_loop (fuel : nat) (sem : Z) : M sems unit :=
  match fuel with
  | O => hang
  | S fuel =>
      wcb ← sem_get_wcb sem;
      if wcb =? NULL then mret tt
      else
        set_err wcb ERR_SEM_DELETED;;
        w ← ld_wcb wcb;
        wake_thread (wc_thread w);;
        delete_loop fuel sem
  end.

Definition wait_fuel (s : sems) : nat := S (size (nodes (ss_waiters s))).

(** [tmp]: where [avl_tree_remove] has its local node. *)
Definition sem_delete (tmp id : Z) : M sems Z :=
  irqs_state ← on_cpu local_irqs_save_and_disable;
  sem ← get_sem_by_id id;
  if sem =? NULL then on_cpu (local_irqs_restore irqs_state);; mret ERR_SEM_INVALID_HANDLE
  else
    v ← ld_sem sem;
    let named := negb (sm_name v =? NULL) in
    when named (on_locks (spin_lock sem_tree_lock));;
    on_procs (on_proc_locks (spin_lock (proc_lock (sm_proc v))));;
    when named
      (c ← gets_client; r ← on_tree (@avl_tree_remove c sem_tree sem tmp);
       if r =? NULL then panic else mret tt);;
    on_semlists (xlist_remove_unsafe (proc_semaphores (sm_proc v)) (sem_proc_node sem));;
    on_procs (on_proc_locks (spin_unlock (proc_lock (sm_proc v))));;
    when named (on_locks (spin_unlock sem_tree_lock));;
    st_slot (SEM_IDX id) NULL;;
    sem_unlock sem;;
    fuel ← gets wait_fuel;
    delete_loop fuel sem;;
    on_cpu (local_irqs_restore irqs_state);;
    destroy_sem_struct sem;;
    mret NO_ERROR.

(** ** Counting down *)

(** What a call of [sem_down_ex] has on its stack and meets while it waits: the addresses of
    the two control blocks and of the key of the cancellation, what the list nodes and a new
    timeout event hold before they are filled, and what the others do while the cancellation
    is retried. *)
Record frame := Frame {
  f_wcb : Z; f_tcb : Z; f_key : Z; f_elem : list_elem; f_junk : junk; f_retries : list (M timer unit) }.

(** [thread_register_term_cb] and [thread_unregister_term_cb] *)
Definition thread_register_term_cb (cbd : Z) : M sems Z :=
  c ← ld_cbd cbd;
  on_sched (assert_locked (cb_thread c));;
  on_cbs (xlist_add_last (term_cbs_list (cb_thread c)) (cbd_node cbd));;
  mret cbd.

Definition thread_unregister_term_cb (cbd : Z) : M sems unit :=
  c ← ld_cbd cbd;
  on_sched (assert_locked (cb_thread c));;
  on_cbs (xlist_remove_unsafe (term_cbs_list (cb_thread c)) (cbd_node cbd));;
  mret tt.

(** [TIMER_MSEC_TO_TICKS] of an unsigned argument *)
Definition TIMER_MSEC_TO_TICKS (a : Z) : Z :=
  u32 (a * HZ) / (TIMER_MSEC_PER_SEC + TIMER_MSEC_PER_SEC mod HZ).

(** The address of [sem_timeout_callback]. *)
Definition timeout_routine : Z := 1.

(** Getting ready to wait; [false]: the timeout could not be scheduled. *)
Definition prepare_wait (f : frame) (sem th timeout_msec flags : Z) : M sems bool :=
  armed ← (if negb (Z.land flags SEMF_TIMEOUT =? 0) then
             id ← on_timer (timer_timeout_sched (f_junk f) timeout_routine (f_wcb f) (TIMER_MSEC_TO_TICKS timeout_msec));
             set_timeout (f_wcb f) id;;
             if id =? INVALID_TIMEOUTID then set_err (f_wcb f) ERR_SEM_GENERAL;; mret false else mret true
           else mret true);
  if (armed : bool) then
    on_sched (st_thread th (λ t, with_state (th_state t) THREAD_STATE_WAITING t));;
    thread_register_term_cb (f_tcb f);;
    sem_put_wcb sem (f_wcb f);;
    mret true
  else mret false.

(** The part of the loop before the thread yields: [Some registered], or [None] when the loop
    is left. *)
Definition try_acquire (f : frame) (sem th count timeout_msec flags : Z) : M sems (option bool) :=
  set_err (f_wcb f) NO_ERROR;;
  set_timeout (f_wcb f) INVALID_TIMEOUTID;;
  v ← ld_sem sem;
  if count <=? sm_count v then set_count sem (u32 (sm_count v - count));; mret None
  else if negb (Z.land flags SEMF_TRY =? 0) then set_err (f_wcb f) ERR_SEM_TRY_FAILED;; mret None
  else
    t ← on_sched (ld_thread th);
    if (th_next_state t =? THREAD_STATE_READY) || (th_next_state t =? THREAD_STATE_RUNNING) then
      ok ← prepare_wait f sem th timeout_msec flags;
      mret (if (ok : bool) then Some true else None)
    else mret (Some false).

(** The part after the thread runs again: the error, and the interrupts as they were. *)
Definition wake_up (f : frame) (sem : Z) (registered : bool) : M sems (Z * bool) :=
  irqs_state ← on_cpu local_irqs_save_and_disable;
  w ← ld_wcb (f_wcb f);
  when (negb (wc_err w =? ERR_SEM_DELETED)) (sem_lock sem);;
  on_sched thread_get_current_thread_locked;;
  when registered (thread_unregister_term_cb (f_tcb f));;
  when (negb (wc_timeout w =? INVALID_TIMEOUTID))
    (on_timer (timer_timeout_cancel_sync (f_retries f) (f_key f) (wc_timeout w)));;
  w ← ld_wcb (f_wcb f);
  mret (wc_err w, irqs_state).

(** [yields]: what happens from each [thread_yield] until this thread runs again. The result
    is the state of the interrupts to restore. *)
Fixpoint down_loop (yields : list (M sems unit)) (f : frame) (sem th count timeout_msec flags : Z)
    (irqs_state : bool) : M sems bool :=
  r ← try_acquire f sem th count timeout_msec flags;
  match r with
  | None => mret irqs_state
  | Some registered =>
      on_sched (thread_unlock_thread th);;
      sem_unlock sem;;
      on_cpu (local_irqs_restore irqs_state);;
      match yields with
      | [] => hang
      | y :: yields =>
          y;;
          r ← wake_up f sem registered;
          if negb (r.1 =? NO_ERROR) then mret r.2
          else down_loop yields f sem th count timeout_msec flags r.2
      end
  end.

(** The control blocks on the stack. *)
Definition with_node (n : Z) (e : list_elem) (x : xstore) : xstore := XStore (<[n := e]> (nodes x)) (lists x).

Definition less_node (n : Z) (x : xstore) : xstore := XStore (delete n (nodes x)) (lists x).

Definition pushed (f : frame) (th : Z) (cb : sem_wcb) (s : sems) : sems :=
  supd_wcbs (<[f_wcb f := cb]> (ss_wcbs s)) (supd_cbds (<[f_tcb f := Cbd th (f_wcb f)]> (ss_cbds s))
    (supd_waiters (with_node (wcb_node (f_wcb f)) (f_elem f) (ss_waiters s))
      (supd_cbs (with_node (cbd_node (f_tcb f)) (f_elem f) (ss_cbs s)) s))).

Definition popped (f : frame) (s : sems) : sems :=
  supd_wcbs (delete (f_wcb f) (ss_wcbs s)) (supd_cbds (delete (f_tcb f) (ss_cbds s))
    (supd_waiters (less_node (wcb_node (f_wcb f)) (ss_waiters s))
      (supd_cbs (less_node (cbd_node (f_tcb f)) (ss_cbs s)) s))).

Definition push_frame (f : frame) (sem th count : Z) : M sems unit :=
  modify (pushed f th (Wcb sem th count INVALID_TIMEOUTID NO_ERROR)).

Definition pop_frame (f : frame) : M sems unit := modify (popped f).

(** The checks before counting: [Some err] when the call ends there. *)
Definition check_down (sem count timeout_msec flags : Z) : M sems (option Z) :=
  err ← (if sem =? NULL then mret ERR_SEM_INVALID_HANDLE
         else
           v ← ld_sem sem;
           mret (if sm_max_count v <? count then ERR_SEM_INVALID_VALUE
                 else if (timeout_msec =? 0) && negb (Z.land flags SEMF_TIMEOUT =? 0) then ERR_SEM_TIMEOUT
                 else NO_ERROR));
  mret (if negb (err =? NO_ERROR) || (count =? 0) then Some err else None).

Definition sem_down_ex (yields : list (M sems unit)) (f : frame) (id count timeout_msec flags : Z) : M sems Z :=
  irqs_state ← on_cpu local_irqs_save_and_disable;
  sem ← get_sem_by_id id;
  e ← check_down sem count timeout_msec flags;
  match e with
  | Some err =>
      when (negb (sem =? NULL)) (sem_unlock sem);;
      on_cpu (local_irqs_restore irqs_state);;
      mret err
  | None =>
      th ← on_sched thread_get_current_thread_locked;
      push_frame f sem th count;;
      irqs_state ← down_loop yields f sem th count timeout_msec flags irqs_state;
      on_sched (thread_unlock_thread th);;
      w ← ld_wcb (f_wcb f);
      when (negb (wc_err w =? ERR_SEM_DELETED)) (sem_unlock sem);;
      on_cpu (local_irqs_restore irqs_state);;
      pop_frame f;;
      mret (wc_err w)
  end.

Definition sem_down (yields : list (M sems unit)) (f : frame) (id count : Z) : M sems Z :=
  sem_down_ex yields f id count 0 SEMF_NOFLAGS.

(** ** Counting up *)

(** [while(wcb != wcb_f) ..]; [fuel]: the control blocks and one. *)
Fixpoint up_loop (fuel : nat) (sem wcb wcb_f curr_count : Z) : M sems unit :=
  match fuel with
  | O => hang
  | S fuel =>
      if wcb =? wcb_f then mret tt
      else
        wcb ← sem_get_wcb sem;
        w ← ld_wcb wcb;
        if wc_count w <=? curr_count then
          wake_thread (wc_thread w);;
          up_loop fuel sem wcb wcb_f (u32 (curr_count - wc_count w))
        else
          sem_put_wcb sem wcb;;
          up_loop fuel sem wcb wcb_f curr_count
  end.

Definition check_up (sem count : Z) : M sems (option Z) :=
  err ← (if sem =? NULL then mret ERR_SEM_INVALID_HANDLE
         else
           v ← ld_sem sem;
           mret (if sm_max_count v <? u32 (sm_count v + count) then ERR_SEM_INVALID_VALUE else NO_ERROR));
  mret (if negb (err =? NO_ERROR) || (count =? 0) then Some err else None).

Definition sem_up (id count : Z) : M sems Z :=
  irqs_state ← on_cpu local_irqs_save_and_disable;
  sem ← get_sem_by_id id;
  e ← check_up sem count;
  match e with
  | Some err =>
      when (negb (sem =? NULL)) (sem_unlock sem);;
      on_cpu (local_irqs_restore irqs_state);;
      mret err
  | None =>
      v ← ld_sem sem;
      let curr_count := u32 (sm_count v + count) in
      set_count sem curr_count;;
      wcb_f ← sem_peek_last_wcb sem;
      fuel ← gets wait_fuel;
      up_loop fuel sem NULL wcb_f curr_count;;
      sem_unlock sem;;
      on_cpu (local_irqs_restore irqs_state);;
      mret NO_ERROR
  end.

(** ** Names and owners *)

(** [key]: the address of the object the name stands in. *)
Definition sem_get_by_name (key name : Z) : M sems Z :=
  irqs_state ← on_locks (spin_lock_irqsave sem_tree_lock);
  c ← gets (λ s, sem_client (ps_mem (ss_procs s)) (name_key (ss_sems s) key name));
  r ← on_tree (@avl_tree_find c sem_tree key);
  id ← (if negb (r.1 =? NULL) then v ← ld_sem r.1; mret (sm_id v) else mret INVALID_SEMID);
  on_locks (spin_unlock_irqrstor sem_tree_lock irqs_state);;
  mret id.

Definition sem_change_owner (key id new_owner : Z) : M sems Z :=
  proc ← on_procs (proc_get_process_by_id key new_owner);
  if proc =? NULL then mret ERR_MT_INVALID_HANDLE
  else
    irqs_state ← on_cpu local_irqs_save_and_disable;
    sem ← get_sem_by_id id;
    if sem =? NULL then
      on_cpu (local_irqs_restore irqs_state);;
      on_procs (proc_put_process proc);;
      mret ERR_SEM_INVALID_HANDLE
    else
      v ← ld_sem sem;
      on_procs (on_proc_locks (spin_lock (proc_lock (sm_proc v))));;
      on_semlists (xlist_remove_unsafe (proc_semaphores (sm_proc v)) (sem_proc_node sem));;
      on_procs (on_proc_locks (spin_unlock (proc_lock (sm_proc v))));;
      on_procs (on_proc_locks (spin_lock (proc_lock proc)));;
      on_semlists (xlist_add_last (proc_semaphores proc) (sem_proc_node sem));;
      v ← ld_sem sem;
      st_sem sem (with_owner proc v);;
      on_procs (on_proc_locks (spin_unlock (proc_lock proc)));;
      sem_unlock sem;;
      on_cpu (local_irqs_restore irqs_state);;
      on_procs (proc_put_process proc);;
      mret NO_ERROR.

Definition sem_get_owner (id : Z) : M sems Z :=
  irqs_state ← on_cpu local_irqs_save_and_disable;
  sem ← get_sem_by_id id;
  if sem =? NULL then on_cpu (local_irqs_restore irqs_state);; mret INVALID_PROCESSID
  else
    v ← ld_sem sem;
    p ← on_procs (ld_proc (sm_proc v));
    sem_unlock sem;;
    on_cpu (local_irqs_restore irqs_state);;
    mret (pr_id p).
End sem.
