(* ===== verification/SemSpec.v ===== *)
(** * Semaphores and their waiters

    The state of a semaphore in its slot, with its waiting threads in order, and what the
    helpers do to it: the lookup, the locks, the waking of a thread by the scheduler and the
    walks over the waiters. *)

From S2P Require Import Spinlock Prelude XList AvlTree CString Alloc Sched SchedSpec Timer Process ProcessSpec Sem.
From stdpp Require Import gmap list.
#[local] Open Scope Z_scope.

(** ** Identifiers *)

Definition slot_ok (i : Z) : Prop := 0 ≤ i < SYS_MAX_SEM_COUNT.

Lemma SEM_IDX_mod a : SEM_IDX a = a mod 2 ^ 13.
Proof. unfold SEM_IDX. change SEM_IDX_MASK with (Z.ones 13). by rewrite Z.land_ones. Qed.

Lemma SEM_IDX_slot a : slot_ok (SEM_IDX a).
Proof. rewrite SEM_IDX_mod. exact (Z.mod_pos_bound a (2 ^ 13) ltac:(lia)). Qed.

Lemma sem_id_build slot gid : slot_ok slot → 0 ≤ gid < 2 ^ 19 →
  SEM_ID_BUILD slot gid = gid * 2 ^ 13 + slot.
Proof.
  unfold slot_ok, SYS_MAX_SEM_COUNT, SEM_ID_BUILD, SEM_IDX_BITS. intros Hs Hg.
  rewrite Z.shiftl_mul_pow2, uwrap_small by lia.
  rewrite <- Z.lxor_lor, <- Z.add_nocarry_lxor; [done|..].
  all: rewrite <- Z.shiftl_mul_pow2 by lia; apply Z.bits_inj'; intros i Hi; rewrite Z.land_spec, Z.bits_0;
    destruct (Z.ltb_spec i 13); [by rewrite Z.shiftl_spec_low|];
    rewrite <- (Z.mod_small slot (2 ^ 13)), Z.mod_pow2_bits_high by lia; apply andb_false_r.
Qed.

(** The parts of an identifier. *)
Lemma sem_id_parts slot gid : slot_ok slot → 0 ≤ gid < 2 ^ 19 →
  SEM_IDX (SEM_ID_BUILD slot gid) = slot ∧ SEM_GID (SEM_ID_BUILD slot gid) = gid.
Proof.
  intros Hs Hg. rewrite sem_id_build by done. unfold slot_ok, SYS_MAX_SEM_COUNT in Hs. split.
  - rewrite SEM_IDX_mod, Z.add_comm, Z.mod_add, Z.mod_small by lia. done.
  - unfold SEM_GID, SEM_IDX_BITS. rewrite Z.shiftr_land. change (Z.shiftr SEM_GID_MASK 13) with (Z.ones 19).
    rewrite Z.shiftr_div_pow2, Z.div_add_l, (Z.div_small slot), Z.land_ones, Z.mod_small by lia. lia.
Qed.

(** ** Addresses *)

Definition wcb_ok (w : Z) : Prop := 0 < w ∧ w + 28 ≤ 2 ^ 32.

Lemma wcb_node_ok w : wcb_ok w → wcb_node w = w + 20.
Proof. intros []. apply uwrap_small. lia. Qed.

Lemma node_wcb_ok w : wcb_ok w → node_wcb (wcb_node w) = w.
Proof.
  intros Hw. rewrite wcb_node_ok by done. destruct Hw. unfold node_wcb.
  replace (w + 20 - 20) with w by lia. apply uwrap_small. lia.
Qed.

Lemma wcb_node_valid w : wcb_ok w → valid_ptr (wcb_node w).
Proof. intros Hw. rewrite wcb_node_ok by done. destruct Hw. unfold valid_ptr. lia. Qed.

Lemma wcb_node_nonnull w : wcb_ok w → (wcb_node w =? NULL) = false.
Proof. intros Hw. apply valid_ptr_nonnull, wcb_node_valid, Hw. Qed.

Lemma wcb_node_inj w w' : wcb_ok w → wcb_ok w' → wcb_node w = wcb_node w' → w = w'.
Proof. intros H H'. rewrite !wcb_node_ok by done. lia. Qed.

Lemma wcb_node_notin ws w : Forall wcb_ok ws → wcb_ok w → w ∉ ws → wcb_node w ∉ map wcb_node ws.
Proof.
  intros Hws Hw Hn (w' & E & Hin)%list_elem_of_fmap. apply (proj1 (Forall_forall _ _) Hws) in Hin as Hok.
  by rewrite (wcb_node_inj w w') in Hn.
Qed.

(** ** Who is served

    A walk over the waiters hands out [c] in order: who is woken, who is left, what remains. *)
Fixpoint serve (cnt : Z → Z) (ws : list Z) (c : Z) : list Z * list Z * Z :=
  match ws with
  | [] => ([], [], c)
  | w :: ws =>
      if cnt w <=? c then let r := serve cnt ws (c - cnt w) in (w :: r.1.1, r.1.2, r.2)
      else let r := serve cnt ws c in (r.1.1, w :: r.1.2, r.2)
  end.

Definition served cnt ws c : list Z := (serve cnt ws c).1.1.

Definition unserved cnt ws c : list Z := (serve cnt ws c).1.2.

Definition remains cnt ws c : Z := (serve cnt ws c).2.

Definition demand (cnt : Z → Z) (ws : list Z) : Z := foldr (λ w n, cnt w + n) 0 ws.

(** What is handed out is what is asked for, and nobody left could be served by what remains. *)
Lemma serve_spec cnt ws : ∀ c, (∀ w, w ∈ ws → 0 ≤ cnt w) → 0 ≤ c →
  served cnt ws c ++ unserved cnt ws c ≡ₚ ws ∧ served cnt ws c `sublist_of` ws ∧ unserved cnt ws c `sublist_of` ws ∧
  demand cnt (served cnt ws c) + remains cnt ws c = c ∧ 0 ≤ remains cnt ws c ∧
  ∀ w, w ∈ unserved cnt ws c → remains cnt ws c < cnt w.
Proof.
  unfold served, unserved, remains.
  induction ws as [|w ws IH]; intros c Hp Hc; simpl.
  { split_and!; [done..|lia|lia|]. by intros w ?%elem_of_nil. }
  assert (∀ w', w' ∈ ws → 0 ≤ cnt w') as Hp' by (intros; apply Hp; by right).
  assert (0 ≤ cnt w) as Hw by (apply Hp; left).
  destruct (Z.leb_spec (cnt w) c); simpl.
  - destruct (IH (c - cnt w) Hp' ltac:(lia)) as (H1 & H2 & H3 & H4 & H5 & H6).
    split_and!; [by rewrite H1|by constructor|by constructor|lia|done|done].
  - destruct (IH c Hp' Hc) as (H1 & H2 & H3 & H4 & H5 & H6).
    split_and!; [by rewrite <- Permutation_middle, H1|by constructor|by constructor|lia|done|].
    intros w' [->|Hin]%elem_of_cons; [|by apply H6].
    enough ((serve cnt ws c).2 ≤ c) by lia.
    enough (0 ≤ demand cnt (serve cnt ws c).1.1) by lia.
    clear -Hp' H2. induction H2 as [|x l l' _ IH|x l l' _ IH]; simpl; [lia| |].
    + specialize (IH ltac:(intros; apply Hp'; by right)). specialize (Hp' x ltac:(left)). lia.
    + apply IH. intros. apply Hp'. by right.
Qed.

(** ** Waking in the scheduler *)

(** The threads [ths] at the ends of the queues of their priorities. *)
Definition queue_up (pr : Z → Z) (ths : list Z) (qs : Z → list Z) : Z → list Z :=
  foldl (λ q th, qset (pr th) (q (pr th) ++ [th]) q) qs ths.

Lemma queue_up_lookup pr ths : ∀ qs p, queue_up pr ths qs p = qs p ++ filter (λ th, pr th = p) ths.
Proof.
  induction ths as [|th ths IH]; intros qs p; simpl; [by rewrite app_nil_r|].
  unfold queue_up in *. simpl. rewrite IH, filter_cons. destruct (decide (pr th = p)) as [<-|Hne].
  - by rewrite qset_eq, <- app_assoc.
  - by rewrite qset_ne.
Qed.

(** The priority a thread is queued with. *)
Definition wake_prio (t : thread) : Z := Z.min (THREAD_NUM_PRIORITY_LEVELS - 1) (th_s_prio t).

(** A thread that can be woken. *)
Definition wakeable (sc : sched) (th : Z) : Prop :=
  free_lock sc (thread_lock th) ∧ ∃ t, sc_threads sc !! th = Some t ∧ 0 ≤ th_s_prio t ∧ th_state t ∈ addable.

(** A scheduler where the threads [ths] have been woken, one after the other. *)
Record woken (sc : sched) (ths : list Z) (sc' : sched) : Prop := {
  wk_state : ∃ x m c, sc' = rq_state x m c sc;
  wk_thread th : th ∈ ths → sc_threads sc' !! th = queued sc <$> sc_threads sc !! th;
  wk_other th : th ∉ ths → sc_threads sc' !! th = sc_threads sc !! th }.

Lemma woken_nil sc : woken sc [] sc.
Proof.
  split; [|by intros ? ?%elem_of_nil|done]. exists (sc_lists sc), (sc_threads sc), (total_count sc). by destruct sc.
Qed.

Lemma woken_cons sc th t sc1 ths sc2 :
  sc_threads sc !! th = Some t → th ∉ ths → (∃ x c, sc1 = rq_state x (<[th := queued sc t]> (sc_threads sc)) c sc) →
  woken sc1 ths sc2 → woken sc (th :: ths) sc2.
Proof.
  intros Ht Hn (x & c & ->) [(x2 & m2 & c2 & ->) H1 H2]. split.
  - by exists x2, m2, c2.
  - intros th' [->|Hin]%elem_of_cons.
    + rewrite H2 by done. simpl. by rewrite lookup_insert_eq, Ht.
    + rewrite H1 by done. simpl. rewrite lookup_insert_ne by (by intros ->). done.
  - intros th' [Hne Hin]%not_elem_of_cons. rewrite H2 by done. simpl. by rewrite lookup_insert_ne.
Qed.

Section spec.
Context {A : Allocator} {V : Aspaces}.
Implicit Types s : sems.

(** ** Locks *)

Lemma supd_sched_id s : supd_sched (ss_sched s) s = s.
Proof. by destruct s as [[[] ? ? ? ? ? ? ? ? ? ? ?] ? ? ? ? ? ? ? ? ?]. Qed.

Lemma supd_cpu_same s : supd_sched (upd_cpu (Cpu (locks (sc_cpu (ss_sched s))) (irqs (sc_cpu (ss_sched s)))) (ss_sched s)) s = s.
Proof. by destruct s as [[[[? [] ? ?]] ? ? ? ? ? ? ? ? ? ? ?] ? ? ? ? ? ? ? ? ?]. Qed.

Lemma wp_slock s a (Q : unit → sems → Prop) :
  ss_locks s !! a = Some SPIN_UNLOCKED → Q tt (supd_locks (<[a := SPIN_LOCKED]> (ss_locks s)) s) →
  wp (on_locks (spin_lock a)) s Q.
Proof.
  intros Ha HQ. unfold on_locks. apply wp_zoom, wp_spin_lock; [exact Ha|]. cbn [locks irqs].
  destruct s as [[[[? [] ? ?]] ? ? ? ? ? ? ? ? ? ? ?] ? ? ? ? ? ? ? ? ?]. exact HQ.
Qed.

Lemma wp_sunlock s a (Q : unit → sems → Prop) :
  is_Some (ss_locks s !! a) → Q tt (supd_locks (<[a := SPIN_UNLOCKED]> (ss_locks s)) s) →
  wp (on_locks (spin_unlock a)) s Q.
Proof.
  intros Ha HQ. unfold on_locks. apply wp_zoom, wp_spin_unlock; [exact Ha|]. cbn [locks irqs].
  destruct s as [[[[? [] ? ?]] ? ? ? ? ? ? ? ? ? ? ?] ? ? ? ? ? ? ? ? ?]. exact HQ.
Qed.

(** The interrupts of the state. *)
Definition ss_irqs s : bool := irqs (sc_cpu (ss_sched s)).

Definition with_irqs (b : bool) s : sems := supd_sched (upd_cpu (Cpu (locks (sc_cpu (ss_sched s))) b) (ss_sched s)) s.

Lemma wp_irqs_save s (Q : bool → sems → Prop) :
  Q (ss_irqs s) (with_irqs false s) → wp (on_cpu local_irqs_save_and_disable) s Q.
Proof. intros HQ. exact HQ. Qed.

Lemma wp_irqs_restore s b (Q : unit → sems → Prop) :
  Q tt (with_irqs b s) → wp (on_cpu (local_irqs_restore b)) s Q.
Proof. intros HQ. exact HQ. Qed.

(** ** A semaphore in its slot *)

Record sem_at s (id p : Z) (v : semaphore) : Prop := {
  sa_slot : ss_table s !! SEM_IDX id = Some p;
  sa_ptr : p ≠ NULL;
  sa_sem : ss_sems s !! p = Some v;
  sa_id : sm_id v = id;
  sa_lock : sm_lock v = slot_lock (SEM_IDX id) }.

(** The slot of the identifier holds no semaphore of this identifier. *)
Definition no_sem s (id : Z) : Prop :=
  ∃ p, ss_table s !! SEM_IDX id = Some p ∧ (p = NULL ∨ ∃ v, ss_sems s !! p = Some v ∧ sm_id v ≠ id).

Definition slot_free s (id : Z) : Prop := ss_locks s !! slot_lock (SEM_IDX id) = Some SPIN_UNLOCKED.

(** The state with the slot of [id] locked. *)
Definition slot_held (id : Z) s : sems := supd_locks (<[slot_lock (SEM_IDX id) := SPIN_LOCKED]> (ss_locks s)) s.

Lemma idx_in_table id : (SYS_MAX_SEM_COUNT <=? SEM_IDX id) = false.
Proof. apply Z.leb_gt, SEM_IDX_slot. Qed.

Lemma wp_get_sem s id p v (Q : Z → sems → Prop) :
  sem_at s id p v → slot_free s id → Q p (slot_held id s) → wp (get_sem_by_id id) s Q.
Proof.
  intros [Ht Hp Hv Hid _] Hf HQ. unfold get_sem_by_id. rewrite idx_in_table. apply wp_bind, wp_slock; [done|].
  apply wp_bind. eapply wp_load; [exact Ht|]. rewrite (proj2 (Z.eqb_neq p NULL)) by done. cbn [negb].
  apply wp_bind, wp_bind. eapply wp_load; [exact Hv|]. apply wp_ret. rewrite Hid, Z.eqb_refl. by apply wp_ret.
Qed.

Lemma slot_release s id : slot_free s id →
  supd_locks (<[slot_lock (SEM_IDX id) := SPIN_UNLOCKED]> (ss_locks (slot_held id s))) (slot_held id s) = s.
Proof.
  intros Hf. unfold slot_held. cbn. rewrite insert_insert_eq, insert_id by done. by destruct s.
Qed.

Lemma wp_get_no_sem s id (Q : Z → sems → Prop) :
  no_sem s id → slot_free s id → Q NULL s → wp (get_sem_by_id id) s Q.
Proof.
  intros (p & Ht & Hp) Hf HQ. unfold get_sem_by_id. rewrite idx_in_table. apply wp_bind, wp_slock; [done|].
  apply wp_bind. eapply wp_load; [exact Ht|]. apply wp_bind.
  assert (wp (on_locks (spin_unlock (slot_lock (SEM_IDX id)));; mret NULL) (slot_held id s) Q) as Hend.
  { apply wp_bind, wp_sunlock; [cbn; rewrite lookup_insert_eq; by eexists|]. rewrite slot_release by done. by apply wp_ret. }
  destruct (Z.eqb_spec p NULL); cbn [negb]; [by apply wp_ret|].
  destruct Hp as [?|(v & Hv & Hid)]; [done|]. apply wp_bind. eapply wp_load; [exact Hv|]. apply wp_ret.
  by rewrite (proj2 (Z.eqb_neq _ _)).
Qed.

(** ** Waiters *)

Definition wcount s (w : Z) : Z := default 0 (wc_count <$> ss_wcbs s !! w).

Definition wthread s (w : Z) : Z := default 0 (wc_thread <$> ss_wcbs s !! w).

Definition wprio s (th : Z) : Z := default 0 (wake_prio <$> sc_threads (ss_sched s) !! th).

(** The control blocks [ws] wait, in this order, for the semaphore at [p]. *)
Record waiting s (p : Z) (ws : list Z) : Prop := {
  wt_list : is_xlist (ss_waiters s) (sem_waiters p) (map wcb_node ws);
  wt_addr : Forall wcb_ok ws;
  wt_wcb w : w ∈ ws → ∃ c, ss_wcbs s !! w = Some c ∧ wc_sem c = p ∧ 0 ≤ wc_count c < 2 ^ 32;
  wt_thread w : w ∈ ws → wakeable (ss_sched s) (wthread s w);
  wt_distinct : NoDup (map (wthread s) ws) }.

(** The scheduler is in order and its run queues are free. *)
Definition sched_ready s (qs : Z → list Z) : Prop := sched_inv (ss_sched s) qs ∧ free_lock (ss_sched s) rq_lock.

Lemma wp_wake_waiter s qs th t (Q : unit → sems → Prop) :
  sched_ready s qs → free_lock (ss_sched s) (thread_lock th) → sc_threads (ss_sched s) !! th = Some t →
  0 ≤ th_s_prio t → th_state t ∈ addable →
  (∀ x c, let sc' := rq_state x (<[th := queued (ss_sched s) t]> (sc_threads (ss_sched s))) c (ss_sched s) in
     sched_inv sc' (qset (wake_prio t) (qs (wake_prio t) ++ [th]) qs) → Q tt (supd_sched sc' s)) →
  wp (wake_thread th) s Q.
Proof.
  intros [Hs Hrq] Hl Ht Hp Hst HQ. unfold wake_thread. apply wp_bind, wp_zoom.
  pose proof (si_addr _ _ Hs th (elem_of_dom_2 _ _ _ Ht)) as Ha.
  assert (thread_lock th ≠ rq_lock) as Hne by (rewrite thread_lock_ok by done; destruct Ha; unfold rq_lock; lia).
  apply wp_zoom, wp_spin_lock; [exact Hl|]. set (sc1 := upd_cpu _ (ss_sched s)).
  assert (sched_inv sc1 qs) as Hs1.
  { eapply sched_inv_env; [exact Hs|done..| |]; [apply (si_quanta _ _ Hs)|apply (si_factor _ _ Hs)]. }
  apply wp_bind, wp_zoom. eapply (wp_sched_add_thread sc1 qs th t); [exact Hs1|exact Ht| | |done|done|].
  { exists SPIN_LOCKED. split; [apply lookup_insert_eq|done]. }
  { unfold free_lock. simpl. by rewrite lookup_insert_ne. }
  intros x c sc2 p Hs2. apply wp_zoom, wp_zoom, wp_spin_unlock; [simpl; rewrite lookup_insert_eq; by eexists|].
  specialize (HQ x c). cbv zeta in HQ. unfold rq_state in *.
  destruct s as [[[sc ? ? ? ? ? ? ? ? ? ?] ? ? ? ? ? ? ? ? ? ? ?] ? ? ? ? ? ? ? ? ?].
  destruct sc as [sl [lk iq] sth spf]. cbn in *. rewrite insert_insert_eq, (insert_id lk) by exact Hl.
  apply HQ. eapply sched_inv_env; [exact Hs2|done..| |]; [apply (si_quanta _ _ Hs)|apply (si_factor _ _ Hs)].
Qed.

Lemma wakeable_other sc th t x c th' :
  wakeable sc th' → th' ≠ th → wakeable (rq_state x (<[th := t]> (sc_threads sc)) c sc) th'.
Proof. intros [Hf Ht] Hne. split; [exact Hf|]. cbn. by rewrite lookup_insert_ne. Qed.

Lemma wp_sem_get_wcb s p ws (Q : Z → sems → Prop) :
  is_xlist (ss_waiters s) (sem_waiters p) (map wcb_node ws) → Forall wcb_ok ws →
  (ws = [] → Q NULL s) →
  (∀ w ws' x, ws = w :: ws' → is_xlist x (sem_waiters p) (map wcb_node ws') →
     xframe (ss_waiters s) x (sem_waiters p) (map wcb_node ws) → nodes x !! wcb_node w = Some (ListElem NULL NULL) →
     Q w (supd_waiters x s)) →
  wp (sem_get_wcb p) s Q.
Proof.
  intros Hl Ha H0 H1. unfold sem_get_wcb. apply wp_bind, wp_zoom. eapply wp_xlist_extract_first; [exact Hl| |].
  - intros E. apply wp_ret. apply map_eq_nil in E. subst ws. change (NULL =? NULL) with true. cbn [negb].
    destruct s. by apply H0.
  - intros n ns x E Hx Hf Hn. destruct ws as [|w ws]; [done|]. injection E as <- <-.
    apply Forall_cons in Ha as [Hw Ha]. apply wp_ret. rewrite wcb_node_nonnull by done. cbn [negb].
    rewrite node_wcb_ok by done. eapply H1; [done|done|exact Hf|exact Hn].
Qed.

Lemma waiting_nodes s p ws w : waiting s p ws → w ∈ ws → is_Some (nodes (ss_waiters s) !! wcb_node w).
Proof. intros Hw Hin. eapply is_xlist_dom; [apply Hw|]. by apply list_elem_of_fmap_2. Qed.

(** ** The walk that serves *)

(** A queue extended by the woken thread, then by others. *)
Lemma queue_up_cons pr th ths qs : queue_up pr (th :: ths) qs = queue_up pr ths (qset (pr th) (qs (pr th) ++ [th]) qs).
Proof. done. Qed.

Lemma queue_up_ext pr pr' ths : ∀ qs, (∀ th, th ∈ ths → pr th = pr' th) → queue_up pr ths qs = queue_up pr' ths qs.
Proof.
  induction ths as [|th ths IH]; intros qs Hpr; [done|]. rewrite !queue_up_cons, (Hpr th) by left.
  apply IH. intros th' Hin. apply Hpr. by right.
Qed.

Lemma xframe_sub (x x' : xstore) l es es' : xframe x x' l es → (∀ y, y ∈ es → y ∈ es') → xframe x x' l es'.
Proof. intros [H1 H2 H3] Hsub. split; [done| |done]. intros y Hy. apply H2. auto. Qed.

(** What the walk leaves: the waiters that are left, then those put back before; the others,
    [up], have their nodes in no list and their threads [ths] are woken in their order. *)
Record walked s (p : Z) (all left up ths : list Z) (qs : Z → list Z) s' : Prop := {
  wd_state : ∃ x sc', s' = supd_waiters x (supd_sched sc' s) ∧ xframe (ss_waiters s) x (sem_waiters p) (map wcb_node all);
  wd_list : is_xlist (ss_waiters s') (sem_waiters p) (map wcb_node left);
  wd_nodes w : w ∈ up → nodes (ss_waiters s') !! wcb_node w = Some (ListElem NULL NULL);
  wd_woken : woken (ss_sched s) ths (ss_sched s');
  wd_sched : sched_ready s' (queue_up (wprio s) ths qs) }.

(** A thread woken before the others. *)
Lemma walked_wake s p all rest w left up th t ths qs x c x1 s' :
  sc_threads (ss_sched s) !! th = Some t → th ∉ ths →
  let sc1 := rq_state x (<[th := queued (ss_sched s) t]> (sc_threads (ss_sched s))) c (ss_sched s) in
  let s1 := supd_sched sc1 (supd_waiters x1 s) in
  xframe (ss_waiters s) x1 (sem_waiters p) (map wcb_node all) → (∀ w', w' ∈ rest → w' ∈ all) →
  Forall wcb_ok rest → wcb_ok w → w ∉ rest → nodes x1 !! wcb_node w = Some (ListElem NULL NULL) →
  walked s1 p rest left up ths (qset (wake_prio t) (qs (wake_prio t) ++ [th]) qs) s' →
  walked s p all left (w :: up) (th :: ths) qs s'.
Proof.
  intros Ht Hn sc1 s1 Hf Hsub Hro Hwo Hwr Hnode [(x2 & sc2 & -> & Hf2) Hl Hup Hw Hs]. split.
  - exists x2, sc2. split; [by destruct s as [[[] ? ? ? ? ? ? ? ? ? ? ?] ? ? ? ? ? ? ? ? ?]|].
    eapply xframe_trans; [exact Hf|]. eapply xframe_sub; [exact Hf2|].
    intros y (w' & -> & Hin)%list_elem_of_fmap. apply list_elem_of_fmap_2. auto.
  - exact Hl.
  - intros w' [->|Hin]%elem_of_cons; [|by apply Hup]. cbn. rewrite (xf_nodes _ _ _ _ Hf2); [exact Hnode|].
    by apply wcb_node_notin.
  - eapply woken_cons; [exact Ht|done|by eexists _, _|exact Hw].
  - rewrite queue_up_cons. assert (wprio s th = wake_prio t) as -> by (unfold wprio; by rewrite Ht).
    assert (∀ th', th' ∈ ths → wprio s th' = wprio s1 th') as Hpr.
    { intros th' Hin. unfold wprio. cbn. by rewrite lookup_insert_ne by (by intros ->). }
    rewrite (queue_up_ext _ _ _ _ Hpr). exact Hs.
Qed.

Lemma walked_skip s p all rest left up ths qs x1 s' :
  xframe (ss_waiters s) x1 (sem_waiters p) (map wcb_node all) → (∀ w', w' ∈ rest → w' ∈ all) →
  walked (supd_waiters x1 s) p rest left up ths qs s' → walked s p all left up ths qs s'.
Proof.
  intros Hf Hsub [(x2 & sc2 & -> & Hf2) Hl Hup Hw Hs]. split; [|done..]. exists x2, sc2. split; [done|].
  eapply xframe_trans; [exact Hf|]. eapply xframe_sub; [exact Hf2|].
  intros y (w' & -> & Hin)%list_elem_of_fmap. apply list_elem_of_fmap_2. auto.
Qed.

(** The waiters the walk has still to meet. *)
Record servable s (rest : list Z) : Prop := {
  sv_wcb w : w ∈ rest → is_Some (ss_wcbs s !! w) ∧ 0 ≤ wcount s w < 2 ^ 32;
  sv_thread w : w ∈ rest → wakeable (ss_sched s) (wthread s w);
  sv_distinct : NoDup (map (wthread s) rest) }.

Lemma servable_tail s w rest : servable s (w :: rest) → servable s rest.
Proof.
  intros [H1 H2 [_ H3]%NoDup_cons]. split; [|by intros; apply H2; right|done]. intros; apply H1; by right.
Qed.

Lemma servable_wake s w rest t x c x1 :
  servable s (w :: rest) → sc_threads (ss_sched s) !! wthread s w = Some t →
  servable (supd_sched (rq_state x (<[wthread s w := queued (ss_sched s) t]> (sc_threads (ss_sched s))) c (ss_sched s))
    (supd_waiters x1 s)) rest.
Proof.
  intros [H1 H2 [H4 H3]%NoDup_cons] Ht. split; [| |done].
  - intros; apply H1; by right.
  - intros w' Hin. apply wakeable_other; [apply H2; by right|]. intros E. apply H4.
    apply list_elem_of_fmap. by exists w'.
Qed.

Lemma wp_up_loop p rest : ∀ fuel s qs kept wcb c (Q : unit → sems → Prop),
  (length rest < fuel)%nat → is_xlist (ss_waiters s) (sem_waiters p) (map wcb_node (rest ++ kept)) →
  Forall wcb_ok (rest ++ kept) → servable s rest → wcb ∉ rest → 0 ≤ c < 2 ^ 32 → sched_ready s qs →
  (∀ s', walked s p (rest ++ kept) (kept ++ unserved (wcount s) rest c) (served (wcount s) rest c)
     (map (wthread s) (served (wcount s) rest c)) qs s' → Q tt s') →
  wp (up_loop fuel p wcb (last_or wcb rest) c) s Q.
Proof.
  induction rest as [|w rest IH]; intros fuel s qs kept wcb c Q Hfuel Hl Ha Hsv Hwcb Hc Hs HQ;
    (destruct fuel as [|fuel]; [simpl in Hfuel; lia|]); cbn [up_loop].
  - rewrite last_or_nil, Z.eqb_refl. apply wp_ret, HQ. rewrite app_nil_r.
    split; [|exact Hl|by intros ? ?%elem_of_nil|apply woken_nil|done].
    exists (ss_waiters s), (ss_sched s). split; [|apply xframe_refl]. rewrite supd_sched_id. by destruct s.
  - assert (NoDup (map wcb_node (w :: rest ++ kept))) as Hnd by apply Hl.
    assert (w ∉ rest ++ kept) as Hw.
    { intros Hin. simpl in Hnd. apply NoDup_cons in Hnd as [Hnd _]. apply Hnd. by apply list_elem_of_fmap_2. }
    rewrite last_or_cons. apply not_elem_of_cons in Hwcb as [Hne Hwcb].
    assert (wcb ≠ last_or w rest) as Hlast.
    { destruct rest as [|w' rest' _] using rev_ind; [done|]. rewrite last_or_app. intros ->. set_solver. }
    rewrite (proj2 (Z.eqb_neq _ _)) by done. apply wp_bind.
    simpl in Ha. apply Forall_cons in Ha as [Haw Ha].
    eapply (wp_sem_get_wcb s p (w :: rest ++ kept)); [exact Hl|by constructor|done|].
    intros w' ws' x [= <- <-] Hx Hf Hnode. set (s1 := supd_waiters x s).
    destruct (sv_wcb _ _ Hsv w ltac:(left)) as [[cb Hcb] Hcnt].
    assert (wcount s w = wc_count cb) as Ecnt by (unfold wcount; by rewrite Hcb).
    assert (wthread s w = wc_thread cb) as Eth by (unfold wthread; by rewrite Hcb).
    apply wp_bind. eapply wp_load; [exact Hcb|]. unfold served, unserved in HQ. simpl in HQ. rewrite Ecnt in HQ.
    assert (w ∉ rest) as Hwr by set_solver.
    destruct (Z.leb_spec (wc_count cb) c) as [Hle|Hgt]; simpl in HQ.
    + destruct (sv_thread _ _ Hsv w ltac:(left)) as [Hlk (t & Ht & Hp & Hst)].
      apply wp_bind. rewrite <- Eth. eapply (wp_wake_waiter s1); [exact Hs|exact Hlk|exact Ht|done|done|].
      intros xq c' sc' Hsc'. rewrite uwrap_small by lia.
      apply (IH fuel _ (qset (wake_prio t) (qs (wake_prio t) ++ [wthread s w]) qs) kept);
        [simpl in Hfuel; lia|exact Hx|exact Ha|exact (servable_wake s w rest t xq c' x Hsv Ht)|done|lia|split; [exact Hsc'|apply Hs]|].
      intros s' Hs'. apply HQ. eapply (walked_wake s p _ (rest ++ kept)); [exact Ht| |exact Hf|intros; by right|done|done|done|exact Hnode|exact Hs'].
      intros (w2 & E & Hin)%list_elem_of_fmap. pose proof (sv_distinct _ _ Hsv) as [Hd _]%NoDup_cons.
        apply Hd. rewrite E. apply list_elem_of_fmap_2.
        assert (served (wcount s) rest (c - wc_count cb) `sublist_of` rest) as Hsub
          by (apply serve_spec; [intros w3 H3; apply (sv_wcb _ _ Hsv); by right|lia]).
        exact (elem_of_sublist _ _ _ Hin Hsub).
    + apply wp_bind. unfold sem_put_wcb. apply wp_bind, wp_zoom.
      eapply (wp_xlist_add_last _ _ _ _ _ Hx); [by apply wcb_node_notin|by apply wcb_node_valid|rewrite Hnode; by eexists|].
      intros x2 Hx2 Hf2. apply wp_ret.
      assert (xframe (ss_waiters s) x2 (sem_waiters p) (map wcb_node (w :: rest ++ kept))) as Hf3.
      { eapply xframe_trans; [exact Hf|]. exact Hf2. }
      change [wcb_node w] with (map wcb_node [w]) in Hx2; rewrite <- map_app, <- app_assoc in Hx2.
      apply (IH fuel _ qs (kept ++ [w])); [simpl in Hfuel; lia|exact Hx2| | |done|done|exact Hs|].
      * rewrite app_assoc. apply Forall_app. by split; [|apply Forall_singleton].
      * apply servable_tail in Hsv. destruct Hsv as [V1 V2 V3]. by split.
      * intros s' Hs'. apply HQ. rewrite <- app_assoc in Hs'. simpl in Hs'.
        eapply walked_skip; [exact Hf3| |exact Hs']. set_solver +.
Qed.

(** ** The walk that deletes *)

(** The control blocks [ws] with the error [e]. *)
Definition mark (e : Z) (ws : list Z) (m : gmap Z sem_wcb) : gmap Z sem_wcb :=
  foldl (λ m w, alter (with_err e) w m) m ws.

Lemma mark_lookup e ws : ∀ m w,
  mark e ws m !! w = if decide (w ∈ ws) then with_err e <$> m !! w else m !! w.
Proof.
  induction ws as [|x ws IH]; intros m w.
  - by rewrite decide_False by by intros ?%elem_of_nil.
  - unfold mark in *. simpl. rewrite IH, lookup_alter.
    destruct (decide (x = w)) as [->|Hne].
    + rewrite (decide_True (P := w ∈ w :: ws)) by left. destruct (m !! w); case_decide; done.
    + destruct (decide (w ∈ ws)); [by rewrite decide_True by by right|].
      rewrite decide_False; [done|]. by intros [->|?]%elem_of_cons.
Qed.

Lemma wp_set_err s w e c (Q : unit → sems → Prop) :
  ss_wcbs s !! w = Some c → Q tt (supd_wcbs (alter (with_err e) w (ss_wcbs s)) s) → wp (set_err w e) s Q.
Proof.
  intros Hc HQ. unfold set_err, st_wcb. apply wp_bind. eapply wp_load; [exact Hc|]. apply wp_modify.
  assert (alter (with_err e) w (ss_wcbs s) = <[w := with_err e c]> (ss_wcbs s)) as <-; [|done].
  apply map_eq. intros i. rewrite lookup_alter, lookup_insert. case_decide; [subst|done]. by rewrite Hc.
Qed.

Lemma wthread_mark s e w w' : wthread (supd_wcbs (alter (with_err e) w (ss_wcbs s)) s) w' = wthread s w'.
Proof. unfold wthread. cbn. rewrite lookup_alter. case_decide; [subst|done]. by destruct (ss_wcbs s !! w'). Qed.

Lemma wcount_mark s e w w' : wcount (supd_wcbs (alter (with_err e) w (ss_wcbs s)) s) w' = wcount s w'.
Proof. unfold wcount. cbn. rewrite lookup_alter. case_decide; [subst|done]. by destruct (ss_wcbs s !! w'). Qed.

Lemma servable_mark s e w ws :
  servable s ws → servable (supd_wcbs (alter (with_err e) w (ss_wcbs s)) s) ws.
Proof.
  intros [H1 H2 H3]. split.
  - intros w' Hin. rewrite wcount_mark. destruct (H1 w' Hin) as [Hs Hc]. split; [|done].
    cbn. by apply lookup_alter_is_Some.
  - intros w' Hin. rewrite wthread_mark. by apply H2.
  - rewrite (map_ext _ _ (wthread_mark s e w)). exact H3.
Qed.

Lemma wp_delete_loop p ws : ∀ fuel s qs (Q : unit → sems → Prop),
  (length ws < fuel)%nat → is_xlist (ss_waiters s) (sem_waiters p) (map wcb_node ws) →
  Forall wcb_ok ws → servable s ws → sched_ready s qs →
  (∀ s', walked (supd_wcbs (mark ERR_SEM_DELETED ws (ss_wcbs s)) s) p ws [] ws (map (wthread s) ws) qs s' → Q tt s') →
  wp (delete_loop fuel p) s Q.
Proof.
  induction ws as [|w ws IH]; intros fuel s qs Q Hfuel Hl Ha Hsv Hs HQ;
    (destruct fuel as [|fuel]; [simpl in Hfuel; lia|]); cbn [delete_loop]; apply wp_bind.
  - eapply (wp_sem_get_wcb s p []); [exact Hl|done| |done]. intros _. change (NULL =? NULL) with true. cbv iota.
    apply wp_ret, HQ. split; [|exact Hl|by intros ? ?%elem_of_nil|apply woken_nil|done].
    exists (ss_waiters s), (ss_sched s). split; [|apply xframe_refl]. cbn. by destruct s as [[[] ? ? ? ? ? ? ? ? ? ? ?] ? ? ? ? ? ? ? ? ?].
  - eapply (wp_sem_get_wcb s p (w :: ws)); [exact Hl|exact Ha|done|]. intros w' ws' x [= <- <-] Hx Hf Hnode.
    assert (w ∉ ws) as Hw by (pose proof (ix_nodup _ _ _ Hl) as Hnd; simpl in Hnd; apply NoDup_cons in Hnd as [Hnd _];
      intros Hin; apply Hnd; by apply list_elem_of_fmap_2).
    apply Forall_cons in Ha as [Haw Ha].
    rewrite (proj2 (Z.eqb_neq w NULL)) by (destruct Haw; unfold NULL; lia).
    destruct (sv_wcb _ _ Hsv w ltac:(left)) as [[cb Hcb] Hcnt].
    destruct (sv_thread _ _ Hsv w ltac:(left)) as [Hlk (t & Ht & Hp & Hst)].
    assert (wthread s w = wc_thread cb) as Eth by (unfold wthread; by rewrite Hcb).
    apply wp_bind. eapply (wp_set_err (supd_waiters x s)); [exact Hcb|].
    set (m := alter (with_err ERR_SEM_DELETED) w (ss_wcbs s)).
    change (supd_wcbs _ _) with (supd_waiters x (supd_wcbs m s)).
    apply wp_bind. eapply (wp_load _ _ (with_err ERR_SEM_DELETED cb)).
    { cbn. unfold m. rewrite lookup_alter_eq. by rewrite Hcb. }
    change (wc_thread (with_err ERR_SEM_DELETED cb)) with (wc_thread cb). rewrite <- Eth.
    apply wp_bind. eapply (wp_wake_waiter (supd_waiters x (supd_wcbs m s))); [exact Hs|exact Hlk|exact Ht|done|done|].
    intros xq c' sc' Hsc'. set (s0 := supd_wcbs m s).
    assert (servable s0 (w :: ws)) as Hsv0 by by apply servable_mark.
    assert (∀ w', wthread s0 w' = wthread s w') as Hth by (intros; apply wthread_mark).
    assert (servable (supd_sched sc' (supd_waiters x s0)) ws) as Hsv1.
    { pose proof (servable_wake s0 w ws t xq c' x Hsv0) as H. rewrite Hth in H. exact (H Ht). }
    apply (IH fuel _ (qset (wake_prio t) (qs (wake_prio t) ++ [wthread s w]) qs)).
    { simpl in Hfuel. lia. } { exact Hx. } { exact Ha. } { exact Hsv1. } { split; [exact Hsc'|apply Hs]. }
    intros s' Hs'. apply HQ. change (mark ERR_SEM_DELETED (w :: ws) (ss_wcbs s)) with (mark ERR_SEM_DELETED ws m).
    simpl map. eapply (walked_wake (supd_wcbs (mark ERR_SEM_DELETED ws m) s) p _ ws);
      [exact Ht| |exact Hf|intros; by right|done|done|done|exact Hnode|].
    + pose proof (sv_distinct _ _ Hsv) as Hd. by apply NoDup_cons in Hd as [Hd _].
    + assert (map (wthread (supd_sched sc' (supd_waiters x s0))) ws = map (wthread s) ws) as Em
        by (apply map_ext; intros; apply wthread_mark).
      rewrite Em in Hs'. exact Hs'.
Qed.
End spec.
