(* ===== verification/SemProps.v ===== *)
(** * What semaphores do

    Counting up serves the waiters in their order and keeps the others in theirs; counting
    down takes, fails or waits; deletion wakes everybody. Where the arithmetic of the count,
    the timeout of a woken thread and the cancellation of a timeout go wrong. *)

From S2P Require Import Spinlock Prelude XList AvlTree CString Alloc Sched SchedSpec Timer Process ProcessSpec Sem SemSpec.
From stdpp Require Import gmap list.
#[local] Open Scope Z_scope.

Section props.
Context {A : Allocator} {V : Aspaces}.
Implicit Types s : sems.

Abbreviation on_sched := (zoom ss_sched supd_sched).

(** ** Interrupts *)

Lemma sched_ready_irqs s b qs : sched_ready s qs → sched_ready (with_irqs b s) qs.
Proof.
  intros [Hs Hrq]. split; [|exact Hrq].
  eapply sched_inv_env; [exact Hs|done..| |]; [apply (si_quanta _ _ Hs)|apply (si_factor _ _ Hs)].
Qed.

Lemma with_irqs_twice s b : with_irqs (ss_irqs s) (with_irqs b s) = s.
Proof. by destruct s as [[[[? [] ? ?]] ? ? ? ? ? ? ? ? ? ? ?] ? ? ? ? ? ? ? ? ?]. Qed.

Lemma woken_irqs s b ths s' :
  woken (ss_sched (with_irqs b s)) ths (ss_sched s') → woken (ss_sched s) ths (ss_sched (with_irqs (ss_irqs s) s')).
Proof.
  intros [(x & m & c & E) H1 H2]. split.
  - exists x, m, c. unfold with_irqs in *. unfold ss_sched, ps_sched in *. cbn in *. rewrite E.
    unfold ss_irqs, ss_sched, ps_sched. by destruct (tm_sched (ps_timer (ss_procs s))) as [? [] ? ?].
  - intros th Hin. specialize (H1 th Hin). exact H1.
  - intros th Hin. specialize (H2 th Hin). exact H2.
Qed.

(** ** Counting up *)

(** What counting up to [c] leaves: the waiters served are woken, the others wait on. *)
Record upped s (id p : Z) (v : semaphore) (ws : list Z) (qs : Z → list Z) (c : Z) s' : Prop := {
  pu_sem : sem_at s' id p (with_count c v) ∧ slot_free s' id;
  pu_waiting : waiting s' p (unserved (wcount s) ws c);
  pu_woken : woken (ss_sched s) (map (wthread s) (served (wcount s) ws c)) (ss_sched s');
  pu_sched : sched_ready s' (queue_up (wprio s) (map (wthread s) (served (wcount s) ws c)) qs);
  pu_nodes w : w ∈ served (wcount s) ws c → nodes (ss_waiters s') !! wcb_node w = Some (ListElem NULL NULL);
  pu_rest : ∃ x sc', s' = supd_waiters x (supd_sched sc' (supd_sems (<[p := with_count c v]> (ss_sems s)) s)) ∧
    xframe (ss_waiters s) x (sem_waiters p) (map wcb_node ws) }.

Lemma waiting_servable s p ws : waiting s p ws → servable s ws.
Proof.
  intros [Hl Ha Hc Ht Hd]. split; [|done|done]. intros w Hin. destruct (Hc w Hin) as (c & E & _ & Hr).
  unfold wcount. rewrite E. split; [by eexists|done].
Qed.

Lemma waiting_fuel s p ws : waiting s p ws → (length ws < wait_fuel s)%nat.
Proof.
  intros [[_ Hs Hnd _] _ _ _ _]. unfold wait_fuel. rewrite <- (length_map wcb_node).
  pose proof (seg_size _ _ _ _ Hnd Hs). lia.
Qed.

Lemma wakeable_woken s ths s' th :
  woken (ss_sched s) ths (ss_sched s') → th ∉ ths → wakeable (ss_sched s) th → wakeable (ss_sched s') th.
Proof.
  intros [(x & m & c & E) _ Ho] Hn [Hf Ht]. split.
  - unfold free_lock in *. by rewrite E.
  - by rewrite Ho.
Qed.

Lemma peek_last_wcb s p ws (Q : Z → sems → Prop) :
  is_xlist (ss_waiters s) (sem_waiters p) (map wcb_node ws) → Forall wcb_ok ws →
  Q (last_or NULL ws) s → wp (sem_peek_last_wcb p) s Q.
Proof.
  intros Hl Ha HQ. unfold sem_peek_last_wcb. apply wp_bind, wp_zoom. eapply wp_xlist_peek_last; [exact Hl|].
  apply wp_ret. replace (supd_waiters (ss_waiters s) s) with s by by destruct s.
  destruct ws as [|w ws _] using rev_ind; [done|]. rewrite map_app. simpl. rewrite !last_or_app in *.
  apply Forall_app in Ha as [_ Hw]. apply (proj1 (Forall_singleton _ _)) in Hw. rewrite wcb_node_nonnull, node_wcb_ok by done. exact HQ.
Qed.

Lemma unserved_in cnt ws : ∀ c w, w ∈ unserved cnt ws c → w ∈ ws.
Proof.
  unfold unserved. induction ws as [|x ws IH]; intros c w; simpl; [done|].
  destruct (cnt x <=? c); simpl.
  - intros Hin. right. by eapply IH.
  - intros [->|Hin]%elem_of_cons; [left|]. right. by eapply IH.
Qed.

Lemma served_unserved cnt (f : Z → Z) ws : ∀ c, NoDup (map f ws) →
  ∀ w, w ∈ unserved cnt ws c → f w ∉ map f (served cnt ws c).
Proof.
  unfold served, unserved. induction ws as [|x ws IH]; intros c; simpl; [by intros _ w Hin%elem_of_nil|].
  intros [Hx Hnd]%NoDup_cons w. destruct (cnt x <=? c); simpl.
  - intros Hin [E|Hin']%elem_of_cons; [|by eapply IH]. apply Hx. rewrite <- E.
    apply list_elem_of_fmap_2. by eapply (unserved_in cnt ws).
  - intros [->|Hin]%elem_of_cons; [|by apply IH]. intros Hin. apply Hx.
    apply list_elem_of_fmap in Hin as (y & -> & Hy). apply list_elem_of_fmap_2. clear -Hy. revert c Hy.
    induction ws as [|z ws IH]; intros c; simpl; [done|]. destruct (cnt z <=? c); simpl.
    + intros [->|?]%elem_of_cons; [left|]. right. by eapply IH.
    + intros ?. right. by eapply IH.
Qed.

Lemma wp_sem_up s id p v ws qs n (Q : Z → sems → Prop) :
  sem_at s id p v → slot_free s id → waiting s p ws → sched_ready s qs → n ≠ 0 →
  let c := u32 (sm_count v + n) in c ≤ sm_max_count v →
  (∀ s', upped s id p v ws qs c s' → Q NO_ERROR s') → wp (sem_up id n) s Q.
Proof.
  intros Ha Hf Hw Hs Hn c Hc HQ. pose proof Ha as [Hslot Hp Hv Hid Hlock]. unfold sem_up.
  apply wp_bind, wp_irqs_save, wp_bind. set (s0 := with_irqs false s).
  assert (sem_at s0 id p v) as Ha0 by (destruct Ha; by split). eapply wp_get_sem; [exact Ha0|exact Hf|].
  set (s1 := slot_held id s0). apply wp_bind. unfold check_up. rewrite (proj2 (Z.eqb_neq p NULL)) by done.
  apply wp_bind, wp_bind. eapply wp_load; [exact Hv|]. apply wp_ret.
  fold c. rewrite (proj2 (Z.ltb_ge _ _)) by done. change (NO_ERROR =? NO_ERROR) with true.
  rewrite (proj2 (Z.eqb_neq n 0)) by done. cbn [negb orb]. apply wp_ret.
  apply wp_bind. eapply wp_load; [exact Hv|]. fold c. cbv zeta.
  apply wp_bind. unfold set_count, st_sem. apply wp_bind. eapply wp_load; [exact Hv|]. apply wp_modify.
  set (s2 := supd_sems _ s1). apply wp_bind. eapply (peek_last_wcb _ p ws); [apply Hw|apply Hw|].
  apply wp_bind, wp_gets, wp_bind. rewrite <- (app_nil_r ws) in Hw.
  eapply (wp_up_loop p ws _ s2 qs []); [|apply Hw|apply Hw| | | | |].
  { rewrite app_nil_r in Hw. exact (waiting_fuel _ _ _ Hw). }
  { rewrite app_nil_r in Hw. apply waiting_servable in Hw. destruct Hw. by split. }
  { rewrite app_nil_r in Hw. intros Hin. pose proof (proj1 (Forall_forall _ _) (wt_addr _ _ _ Hw) _ Hin) as [H _]. by apply (Z.lt_irrefl 0). }
  { apply (uwrap_range 32). lia. }
  { exact (sched_ready_irqs s false qs Hs). }
  rewrite app_nil_r in *. intros s3 [(x & sc' & -> & Hfr) Hl' Hnodes Hwk Hsr]. cbn [app] in *.
  set (left := unserved (wcount s) ws c). set (ths := map (wthread s) (served (wcount s) ws c)).
  change (woken (ss_sched (with_irqs false s)) ths (ss_sched (supd_waiters x (supd_sched sc' s2)))) in Hwk.
  change (sched_ready (supd_waiters x (supd_sched sc' s2)) (queue_up (wprio s) ths qs)) in Hsr.
  change (is_xlist x (sem_waiters p) (map wcb_node left)) in Hl'.
  apply wp_bind. unfold sem_unlock. apply wp_bind. eapply (wp_load _ _ (with_count c v)); [apply lookup_insert_eq|].
  change (sm_lock (with_count c v)) with (sm_lock v). rewrite Hlock.
  apply wp_sunlock; [cbn; rewrite lookup_insert_eq; by eexists|]. apply wp_bind, wp_irqs_restore, wp_ret.
  set (s4 := with_irqs _ _).
  assert (s4 = supd_waiters x (supd_sched (ss_sched s4) (supd_sems (<[p := with_count c v]> (ss_sems s)) s))) as E4.
  { unfold s4, s2, s1, slot_held, s0. cbn. rewrite insert_insert_eq, insert_id by exact Hf.
    destruct s as [[[] ? ? ? ? ? ? ? ? ? ? ?] ? ? ? ? ? ? ? ? ?]. done. }
  assert (woken (ss_sched s) ths (ss_sched s4)) as Hwk4.
  { pose proof (woken_irqs s false ths (supd_waiters x (supd_sched sc' s2)) Hwk) as H. exact H. }
  assert (∀ w, wthread s4 w = wthread s w) as Eth by (intros; by rewrite E4).
  apply HQ. split.
  - split; [|rewrite E4; exact Hf]. split; [by rewrite E4|done| |done|exact Hlock].
    rewrite E4. cbn. by rewrite lookup_insert_eq.
  - assert (∀ w, w ∈ left → w ∈ ws) as Hsub by (intros w; apply unserved_in). split.
    + rewrite E4. exact Hl'.
    + apply Forall_forall. intros w Hin. apply (proj1 (Forall_forall _ _) (wt_addr _ _ _ Hw)). auto.
    + intros w Hin. rewrite E4. apply (wt_wcb _ _ _ Hw). auto.
    + intros w Hin. rewrite Eth. eapply wakeable_woken; [exact Hwk4| |apply (wt_thread _ _ _ Hw); auto].
      apply served_unserved; [apply (wt_distinct _ _ _ Hw)|exact Hin].
    + rewrite (map_ext _ _ Eth). eapply sublist_NoDup; [apply (wt_distinct _ _ _ Hw)|]. apply fmap_sublist.
      apply serve_spec; [|apply (uwrap_range 32); lia]. intros w Hin.
      apply (sv_wcb _ _ (waiting_servable _ _ _ Hw) w Hin).
  - exact Hwk4.
  - exact (sched_ready_irqs (supd_waiters x (supd_sched sc' s2)) (ss_irqs s) _ Hsr).
  - rewrite E4. exact Hnodes.
  - exists x, (ss_sched s4). split; [exact E4|exact Hfr].
Qed.

Lemma slot_irqs s b : with_irqs (ss_irqs s) (supd_locks (ss_locks s) (with_irqs b s)) = s.
Proof. by destruct s as [[[[? [] ? ?]] ? ? ? ? ? ? ? ? ? ? ?] ? ? ? ? ? ? ? ? ?]. Qed.

(** A call that ends at its checks gives the slot back. *)
Lemma wp_give_up s id p v (Q : unit → sems → Prop) :
  sem_at s id p v → slot_free s id → Q tt s →
  wp (sem_unlock p;; on_cpu (local_irqs_restore (ss_irqs s))) (slot_held id (with_irqs false s)) Q.
Proof.
  intros [_ _ Hv _ Hlock] Hf HQ. apply wp_bind. unfold sem_unlock. apply wp_bind. eapply wp_load; [exact Hv|].
  rewrite Hlock. apply wp_sunlock; [cbn; rewrite lookup_insert_eq; by eexists|]. apply wp_irqs_restore.
  cbn. rewrite insert_insert_eq, insert_id by exact Hf.
  replace (with_irqs _ _) with s; [done|]. by destruct s as [[[[? [] ? ?]] ? ? ? ? ? ? ? ? ? ? ?] ? ? ? ? ? ? ? ? ?].
Qed.

Lemma wp_end_unlock s id p v (e : Z) (Q : Z → sems → Prop) :
  sem_at s id p v → slot_free s id → Q e s →
  wp (when true (sem_unlock p);; on_cpu (local_irqs_restore (ss_irqs s));; mret e)
    (slot_held id (with_irqs false s)) Q.
Proof.
  intros Ha Hf HQ. cbn [when].
  pose proof (wp_give_up s id p v (λ _, Q e) Ha Hf HQ) as H. unfold wp, mbind, M_bind in *.
  destruct (sem_unlock p _) as [[]| | |]; [|done..]. destruct (on_cpu _ _) as [[]| | |]; done.
Qed.

Lemma sem_at_irqs s b id p v : sem_at s id p v → sem_at (with_irqs b s) id p v.
Proof. by intros []. Qed.

Lemma wp_up_checks s id p v n err (Q : Z → sems → Prop) :
  sem_at s id p v → slot_free s id →
  (if sm_max_count v <? u32 (sm_count v + n) then ERR_SEM_INVALID_VALUE else NO_ERROR) = err →
  err ≠ NO_ERROR ∨ n = 0 → Q err s → wp (sem_up id n) s Q.
Proof.
  intros Ha Hf Herr Hor HQ. pose proof Ha as [_ Hp Hv _ _]. unfold sem_up. apply wp_bind, wp_irqs_save, wp_bind.
  eapply wp_get_sem; [by apply sem_at_irqs|exact Hf|]. apply wp_bind. unfold check_up.
  rewrite (proj2 (Z.eqb_neq p NULL)) by done. apply wp_bind, wp_bind. eapply wp_load; [exact Hv|].
  apply wp_ret. rewrite Herr.
  assert (negb (err =? NO_ERROR) || (n =? 0) = true) as ->.
  { destruct Hor as [H| ->]; [by rewrite (proj2 (Z.eqb_neq _ _))|by rewrite orb_true_r]. }
  apply wp_ret. by eapply wp_end_unlock.
Qed.

(** C12: counting up. On a semaphore with the waiters [ws], if the new count [c] is not above the
    maximum, [sem_up] succeeds and the count is [c]. The waiters are served in their order:
    each one whose request fits what is left of [c] is woken, that is, made ready and put at
    the end of the run queue of its priority; the others go on waiting in their order. All
    waiters are one or the other, those woken ask for no more than [c] together, and nobody
    left waiting could be served by what remains. Without such a semaphore, above the
    maximum, or with a count of zero the call changes nothing. *)
Theorem sem_up_correct s id p v ws qs n :
  sem_at s id p v → slot_free s id → waiting s p ws → sched_ready s qs →
  0 ≤ n < 2 ^ 32 → 0 ≤ sm_count v → sm_count v + n < 2 ^ 32 →
  let c := sm_count v + n in
  let up := served (wcount s) ws c in let left := unserved (wcount s) ws c in
  if decide (n = 0) then sem_up id n s = Ok (if sm_max_count v <? c then ERR_SEM_INVALID_VALUE else NO_ERROR, s)
  else if decide (sm_max_count v < c) then sem_up id n s = Ok (ERR_SEM_INVALID_VALUE, s)
  else
    (∃ s', sem_up id n s = Ok (NO_ERROR, s') ∧ upped s id p v ws qs c s') ∧
    up ++ left ≡ₚ ws ∧ up `sublist_of` ws ∧ left `sublist_of` ws ∧
    demand (wcount s) up ≤ c ∧ ∀ w, w ∈ left → c - demand (wcount s) up < wcount s w.
Proof.
  intros Ha Hf Hw Hs Hn Hv Hc c up left. assert (u32 (sm_count v + n) = c) as E by (unfold c; apply uwrap_small; lia).
  assert (∀ err, (if sm_max_count v <? c then ERR_SEM_INVALID_VALUE else NO_ERROR) = err →
    err ≠ NO_ERROR ∨ n = 0 → sem_up id n s = Ok (err, s)) as Hchk.
  { intros err He Hor. enough (wp (sem_up id n) s (λ r s', r = err ∧ s' = s)) as H by by apply wp_run in H as (s' & -> & ->).
    eapply wp_up_checks; [done|done|by rewrite E|exact Hor|done]. }
  case_decide as Hn0; [by apply Hchk; [|right]|]. case_decide as Hm.
  { apply Hchk; [by rewrite (proj2 (Z.ltb_lt _ _))|by left]. }
  split.
  - assert (wp (sem_up id n) s (λ r s', r = NO_ERROR ∧ upped s id p v ws qs c s')) as H.
    { eapply wp_sem_up; [done..|lia|]. rewrite E. intros s' Hs'. done. }
    exact (wp_run _ _ _ _ H).
  - destruct (serve_spec (wcount s) ws c) as (H1 & H2 & H3 & H4 & H5 & H6);
      [intros w Hin; apply (sv_wcb _ _ (waiting_servable _ _ _ Hw) w Hin)|lia|].
    subst up left. split_and!; [done|done|done|lia|]. intros w Hin. specialize (H6 w Hin). lia.
Qed.

(** The check of the maximum wraps. If the sum of the count and of what is counted up passes
    [2^32] and the wrapped sum is not above the maximum, [sem_up] reports success and the
    semaphore ends with a lower count than it had. *)
Theorem sem_up_wraps s id p v ws qs n :
  sem_at s id p v → slot_free s id → waiting s p ws → sched_ready s qs →
  0 < n < 2 ^ 32 → 0 ≤ sm_count v < 2 ^ 32 → 2 ^ 32 ≤ sm_count v + n → sm_count v ≤ sm_max_count v →
  ∃ s' v', sem_up id n s = Ok (NO_ERROR, s') ∧ sem_at s' id p v' ∧ sm_count v' = sm_count v + n - 2 ^ 32 ∧
    sm_count v' < sm_count v ∧ sm_max_count v' = sm_max_count v.
Proof.
  intros Ha Hf Hw Hs Hn Hv Hc Hm.
  assert (u32 (sm_count v + n) = sm_count v + n - 2 ^ 32) as E.
  { unfold uwrap. rewrite <- (Z.mod_small (sm_count v + n - 2 ^ 32) (2 ^ 32)) by lia.
    rewrite <- (Z.mod_add (sm_count v + n - 2 ^ 32) 1) by lia. f_equal. lia. }
  assert (wp (sem_up id n) s (λ r s', r = NO_ERROR ∧ upped s id p v ws qs (u32 (sm_count v + n)) s')) as H.
  { eapply wp_sem_up; [done|done|done|done|lia|rewrite E; lia|]. done. }
  apply wp_run in H as (s' & E' & Hup). exists s', (with_count (u32 (sm_count v + n)) v).
  split; [done|]. split; [apply Hup|]. simpl. rewrite E. split_and!; [done|lia|done].
Qed.

(** ** Counting down *)

(** The thread that calls, which nobody holds. *)
Definition caller s (th : Z) : Prop :=
  current_thread (ss_sched s) = th ∧ free_lock (ss_sched s) (thread_lock th).

(** Room for the control blocks on the stack. *)
Definition fresh_frame s (f : frame) : Prop :=
  ss_wcbs s !! f_wcb f = None ∧ ss_cbds s !! f_tcb f = None ∧
  nodes (ss_waiters s) !! wcb_node (f_wcb f) = None ∧ nodes (ss_cbs s) !! cbd_node (f_tcb f) = None.

(** The state with the lock word [l] of a thread. *)
Definition with_thread_lock (th l : Z) s : sems :=
  supd_sched (upd_cpu (Cpu (<[thread_lock th := l]> (locks (sc_cpu (ss_sched s)))) (irqs (sc_cpu (ss_sched s)))) (ss_sched s)) s.

(** The state of a call that holds the semaphore and its thread, with the control block [cb]. *)
Definition inside (f : frame) (id th : Z) (cb : sem_wcb) s : sems :=
  pushed f th cb (with_thread_lock th SPIN_LOCKED (slot_held id (with_irqs false s))).

Lemma wp_check_down s id p v n tmo flags (Q : option Z → sems → Prop) :
  sem_at s id p v → slot_free s id →
  let err := if sm_max_count v <? n then ERR_SEM_INVALID_VALUE
             else if (tmo =? 0) && negb (Z.land flags SEMF_TIMEOUT =? 0) then ERR_SEM_TIMEOUT else NO_ERROR in
  Q (if negb (err =? NO_ERROR) || (n =? 0) then Some err else None) (slot_held id (with_irqs false s)) →
  wp (check_down p n tmo flags) (slot_held id (with_irqs false s)) Q.
Proof.
  intros Ha Hf err HQ. unfold check_down. rewrite (proj2 (Z.eqb_neq p NULL)) by apply Ha.
  apply wp_bind, wp_bind. eapply wp_load; [apply Ha|]. apply wp_ret. exact HQ.
Qed.

(** The end of a call: everything is given back. *)
Lemma wp_down_end s f id th cb p v (Q : Z → sems → Prop) :
  sem_at s id p v → slot_free s id → caller s th → fresh_frame s f → wc_err cb ≠ ERR_SEM_DELETED →
  Q (wc_err cb) s →
  wp (on_sched (thread_unlock_thread th);;
      w ← ld_wcb (f_wcb f);
      when (negb (wc_err w =? ERR_SEM_DELETED)) (sem_unlock p);;
      on_cpu (local_irqs_restore (ss_irqs s));;
      pop_frame f;; mret (wc_err w)) (inside f id th cb s) Q.
Proof.
  intros [_ _ Hv _ Hlock] Hf [_ Hth] (Hw & Hc & Hnw & Hnc) He HQ. apply wp_bind, wp_zoom, wp_zoom, wp_spin_unlock.
  { cbn. rewrite lookup_insert_eq. by eexists. }
  apply wp_bind. eapply wp_load; [cbn; apply lookup_insert_eq|]. rewrite (proj2 (Z.eqb_neq _ _)) by done. cbn [negb when].
  apply wp_bind. unfold sem_unlock. apply wp_bind. eapply wp_load; [exact Hv|]. rewrite Hlock.
  apply wp_sunlock; [cbn; rewrite lookup_insert_eq; by eexists|]. apply wp_bind, wp_irqs_restore, wp_bind, wp_modify, wp_ret.
  match goal with |- Q _ ?st => assert (st = s) as ->; [|done] end.
  unfold inside, with_thread_lock, slot_held, slot_free, free_lock, ss_sched, ps_sched in *.
  destruct s as [[[[? [lk iq] ? ?]] ? ? ? ? ? ? ? ? ? ? ?] ? ? ? ? ? [] [] ? ?]. cbn in *.
  unfold popped, pushed, less_node, with_node. cbn.
  rewrite !insert_insert_eq, !delete_insert_eq, !delete_id, !insert_id by done. done.
Qed.

(** From the start of the call to its loop. *)
Lemma wp_sem_down_ex s id p v th n tmo flags yields f (Q : Z → sems → Prop) :
  sem_at s id p v → slot_free s id → caller s th →
  let err := if sm_max_count v <? n then ERR_SEM_INVALID_VALUE
             else if (tmo =? 0) && negb (Z.land flags SEMF_TIMEOUT =? 0) then ERR_SEM_TIMEOUT else NO_ERROR in
  (err ≠ NO_ERROR ∨ n = 0 → Q err s) →
  (err = NO_ERROR → n ≠ 0 →
   wp (irqs_state ← down_loop yields f p th n tmo flags (ss_irqs s);
       on_sched (thread_unlock_thread th);;
       w ← ld_wcb (f_wcb f);
       when (negb (wc_err w =? ERR_SEM_DELETED)) (sem_unlock p);;
       on_cpu (local_irqs_restore irqs_state);;
       pop_frame f;; mret (wc_err w))
     (inside f id th (Wcb p th n INVALID_TIMEOUTID NO_ERROR) s) Q) →
  wp (sem_down_ex yields f id n tmo flags) s Q.
Proof.
  intros Ha Hf [Hcur Hth] err H1 H2. unfold sem_down_ex. apply wp_bind, wp_irqs_save, wp_bind.
  eapply wp_get_sem; [by apply sem_at_irqs|exact Hf|]. apply wp_bind. eapply wp_check_down; [exact Ha|exact Hf|]. fold err.
  destruct (negb (err =? NO_ERROR) || (n =? 0)) eqn:E.
  - rewrite (proj2 (Z.eqb_neq p NULL)) by apply Ha. cbn [negb]. eapply wp_end_unlock; [exact Ha|exact Hf|].
    apply H1. apply orb_true_iff in E as [E|E]; bool_to_prop; auto.
  - bool_to_prop. unfold thread_get_current_thread_locked, thread_get_current_thread.
    apply wp_bind, wp_zoom, wp_bind, wp_gets. change (current_thread (ss_sched _)) with (current_thread (ss_sched s)).
    rewrite Hcur. apply wp_bind, wp_zoom, wp_spin_lock; [exact Hth|]. apply wp_ret, wp_bind, wp_modify. by apply H2.
Qed.

(** The turn of the loop that does not wait. *)
Lemma wp_try_now s f id th cb p v n tmo flags (Q : option bool → sems → Prop) :
  sem_at s id p v →
  (n ≤ sm_count v → Q None (inside f id th (Wcb (wc_sem cb) (wc_thread cb) (wc_count cb) INVALID_TIMEOUTID NO_ERROR)
     (supd_sems (<[p := with_count (u32 (sm_count v - n)) v]> (ss_sems s)) s))) →
  (sm_count v < n → Z.land flags SEMF_TRY ≠ 0 →
     Q None (inside f id th (Wcb (wc_sem cb) (wc_thread cb) (wc_count cb) INVALID_TIMEOUTID ERR_SEM_TRY_FAILED) s)) →
  (sm_count v < n → Z.land flags SEMF_TRY = 0 →
     wp (t ← on_sched (ld_thread th);
         if (th_next_state t =? THREAD_STATE_READY) || (th_next_state t =? THREAD_STATE_RUNNING) then
           ok ← prepare_wait f p th tmo flags; mret (if (ok : bool) then Some true else None)
         else mret (Some false))
       (inside f id th (Wcb (wc_sem cb) (wc_thread cb) (wc_count cb) INVALID_TIMEOUTID NO_ERROR) s) Q) →
  wp (try_acquire f p th n tmo flags) (inside f id th cb s) Q.
Proof.
  intros [_ _ Hv _ _] H1 H2 H3. unfold try_acquire.
  assert (∀ cb e (Q : unit → sems → Prop), Q tt (inside f id th (with_err e cb) s) → wp (set_err (f_wcb f) e) (inside f id th cb s) Q) as Herr.
  { intros cb' e Q' HQ'. unfold set_err, st_wcb. apply wp_bind. eapply wp_load; [cbn; apply lookup_insert_eq|]. apply wp_modify.
    unfold inside in *. cbn in *. by rewrite insert_insert_eq. }
  apply wp_bind, Herr, wp_bind. unfold set_timeout, st_wcb. apply wp_bind. eapply wp_load; [cbn; apply lookup_insert_eq|].
  apply wp_modify. match goal with |- wp _ ?st _ => assert (st = inside f id th
    (Wcb (wc_sem cb) (wc_thread cb) (wc_count cb) INVALID_TIMEOUTID NO_ERROR) s) as ->
    by (unfold inside; cbn; by rewrite insert_insert_eq) end.
  apply wp_bind. eapply wp_load; [exact Hv|]. destruct (Z.leb_spec n (sm_count v)).
  - apply wp_bind. unfold set_count, st_sem. apply wp_bind. eapply wp_load; [exact Hv|]. apply wp_modify, wp_ret. by apply H1.
  - destruct (Z.eqb_spec (Z.land flags SEMF_TRY) 0); cbn [negb]; [by apply H3|]. apply wp_bind, Herr, wp_ret. by apply H2.
Qed.

Lemma sem_at_count s id p v c : sem_at s id p v → sem_at (supd_sems (<[p := with_count c v]> (ss_sems s)) s) id p (with_count c v).
Proof. intros []. split; try done. cbn. by rewrite lookup_insert_eq. Qed.

(** The checks before counting are passed. *)
Lemma checks_passed v n tmo flags :
  n ≤ sm_max_count v → tmo ≠ 0 ∨ Z.land flags SEMF_TIMEOUT = 0 →
  (if sm_max_count v <? n then ERR_SEM_INVALID_VALUE
   else if (tmo =? 0) && negb (Z.land flags SEMF_TIMEOUT =? 0) then ERR_SEM_TIMEOUT else NO_ERROR) = NO_ERROR.
Proof.
  intros Hm Ht. rewrite (proj2 (Z.ltb_ge _ _)) by done.
  destruct Ht as [H| ->]; [by rewrite (proj2 (Z.eqb_neq _ _))|]. by rewrite andb_false_r.
Qed.

Lemma down_granted_run s id p v th n tmo flags yields f :
  sem_at s id p v → slot_free s id → caller s th → fresh_frame s f → 0 ≤ n ≤ sm_count v → sm_count v < 2 ^ 32 →
  n ≤ sm_max_count v → tmo ≠ 0 ∨ Z.land flags SEMF_TIMEOUT = 0 →
  sem_down_ex yields f id n tmo flags s = Ok (NO_ERROR, supd_sems (<[p := with_count (sm_count v - n) v]> (ss_sems s)) s).
Proof.
  intros Ha Hf Hc Hfr Hn Hv Hm Ht. pose proof (checks_passed v n tmo flags Hm Ht) as E.
  enough (wp (sem_down_ex yields f id n tmo flags) s
    (λ r s1, r = NO_ERROR ∧ s1 = supd_sems (<[p := with_count (sm_count v - n) v]> (ss_sems s)) s)) as (s1 & -> & ->)%wp_run by done.
  eapply wp_sem_down_ex; [done..| |]; rewrite E.
  - intros [?| ->]; [done|]. split; [done|]. rewrite Z.sub_0_r, insert_id; [by destruct s|].
    rewrite (sa_sem _ _ _ _ Ha). by destruct v.
  - intros _ _. apply wp_bind. destruct yields; cbn [down_loop]; apply wp_bind;
      (eapply wp_try_now; [exact Ha|intros _|lia|lia]); apply wp_ret; rewrite uwrap_small by lia;
      (eapply (wp_down_end (supd_sems (<[p := with_count (sm_count v - n) v]> (ss_sems s)) s)); [by apply sem_at_count|exact Hf|exact Hc|exact Hfr|done|done]).
Qed.

Lemma down_try_run s id p v th n tmo flags yields f :
  sem_at s id p v → slot_free s id → caller s th → fresh_frame s f → 0 ≤ sm_count v < n → n ≤ sm_max_count v →
  tmo ≠ 0 ∨ Z.land flags SEMF_TIMEOUT = 0 → Z.land flags SEMF_TRY ≠ 0 →
  sem_down_ex yields f id n tmo flags s = Ok (ERR_SEM_TRY_FAILED, s).
Proof.
  intros Ha Hf Hc Hfr Hn Hm Ht Htry. pose proof (checks_passed v n tmo flags Hm Ht) as E.
  enough (wp (sem_down_ex yields f id n tmo flags) s (λ r s1, r = ERR_SEM_TRY_FAILED ∧ s1 = s)) as (s1 & -> & ->)%wp_run by done.
  eapply wp_sem_down_ex; [done..| |]; rewrite E.
  - intros [?| ->]; [done|lia].
  - intros _ _. apply wp_bind. destruct yields; cbn [down_loop]; apply wp_bind;
      (eapply wp_try_now; [exact Ha|lia|intros _ _|done]); apply wp_ret;
      (eapply wp_down_end; [exact Ha|exact Hf|exact Hc|exact Hfr|done|done]).
Qed.

(** Counting up when nobody waits. *)
Lemma up_alone_run s id p v n :
  sem_at s id p v → slot_free s id → is_xlist (ss_waiters s) (sem_waiters p) [] → 0 < n → 0 ≤ sm_count v →
  sm_count v + n ≤ sm_max_count v → sm_count v + n < 2 ^ 32 →
  sem_up id n s = Ok (NO_ERROR, supd_sems (<[p := with_count (sm_count v + n) v]> (ss_sems s)) s).
Proof.
  intros Ha Hf Hw Hn Hv Hm Hc. pose proof Ha as [_ Hp Hlk Hid Hlock].
  assert (u32 (sm_count v + n) = sm_count v + n) as E by (apply uwrap_small; lia).
  enough (wp (sem_up id n) s
    (λ r s1, r = NO_ERROR ∧ s1 = supd_sems (<[p := with_count (sm_count v + n) v]> (ss_sems s)) s)) as (s1 & -> & ->)%wp_run by done.
  unfold sem_up. apply wp_bind, wp_irqs_save, wp_bind. eapply wp_get_sem; [by apply sem_at_irqs|exact Hf|].
  apply wp_bind. unfold check_up. rewrite (proj2 (Z.eqb_neq p NULL)) by done.
  apply wp_bind, wp_bind. eapply wp_load; [exact Hlk|]. apply wp_ret. rewrite E, (proj2 (Z.ltb_ge _ _)) by done.
  change (NO_ERROR =? NO_ERROR) with true. rewrite (proj2 (Z.eqb_neq n 0)) by lia. cbn [negb orb]. apply wp_ret.
  apply wp_bind. eapply wp_load; [exact Hlk|]. rewrite E. cbv zeta. apply wp_bind. unfold set_count, st_sem.
  apply wp_bind. eapply wp_load; [exact Hlk|]. apply wp_modify, wp_bind.
  eapply (peek_last_wcb _ p []); [exact Hw|constructor|]. apply wp_bind, wp_gets, wp_bind. unfold wait_fuel. cbn [up_loop].
  change (last_or NULL []) with NULL. rewrite Z.eqb_refl. apply wp_ret, wp_bind.
  unfold sem_unlock. apply wp_bind. eapply (wp_load _ _ (with_count (sm_count v + n) v)); [apply lookup_insert_eq|].
  change (sm_lock (with_count (sm_count v + n) v)) with (sm_lock v). rewrite Hlock.
  apply wp_sunlock; [cbn; rewrite lookup_insert_eq; by eexists|]. apply wp_bind, wp_irqs_restore, wp_ret. split; [done|].
  unfold slot_held, slot_free in *. cbn. rewrite insert_insert_eq, insert_id by exact Hf.
  by destruct s as [[[[? [] ? ?]] ? ? ? ? ? ? ? ? ? ? ?] ? ? ? ? ? ? ? ? ?].
Qed.

(** C36: counting down without waiting. On a semaphore nobody holds: a request above the maximum, a
    timeout of no time and a request of zero end at once, with the error or with success,
    and change nothing; a request the count covers is granted, and the count is less by it
    while everything else, locks, interrupts and stack included, is as before; otherwise a
    call with [SEMF_TRY] fails and changes nothing. *)
Theorem sem_down_now s id p v th n tmo flags yields f :
  sem_at s id p v → slot_free s id → caller s th → fresh_frame s f → 0 ≤ n → 0 ≤ sm_count v < 2 ^ 32 →
  (sm_max_count v < n → sem_down_ex yields f id n tmo flags s = Ok (ERR_SEM_INVALID_VALUE, s)) ∧
  (n ≤ sm_max_count v → tmo = 0 → Z.land flags SEMF_TIMEOUT ≠ 0 →
     sem_down_ex yields f id n tmo flags s = Ok (ERR_SEM_TIMEOUT, s)) ∧
  (n ≤ sm_max_count v → tmo ≠ 0 ∨ Z.land flags SEMF_TIMEOUT = 0 →
     (n ≤ sm_count v → sem_down_ex yields f id n tmo flags s =
        Ok (NO_ERROR, supd_sems (<[p := with_count (sm_count v - n) v]> (ss_sems s)) s)) ∧
     (sm_count v < n → Z.land flags SEMF_TRY ≠ 0 → sem_down_ex yields f id n tmo flags s = Ok (ERR_SEM_TRY_FAILED, s))).
Proof.
  intros Ha Hf Hc Hfr Hn Hv.
  assert (∀ r s', wp (sem_down_ex yields f id n tmo flags) s (λ r' s1, r' = r ∧ s1 = s') →
    sem_down_ex yields f id n tmo flags s = Ok (r, s')) as Hrun by (intros r s' H; by apply wp_run in H as (? & -> & ->)).
  split_and!.
  - intros Hm. apply Hrun. eapply wp_sem_down_ex; [done..| |]; rewrite (proj2 (Z.ltb_lt _ _)) by done; done.
  - intros Hm -> Hfl. apply Hrun.
    eapply wp_sem_down_ex; [done..| |]; rewrite (proj2 (Z.ltb_ge _ _)), (proj2 (Z.eqb_neq _ 0) Hfl) by done; done.
  - intros Hm Ht. split; [intros Hle; eapply down_granted_run; [done..|lia| |done|done]|
      intros Hlt Htry; eapply down_try_run; [done..|lia|done|done|done]]. lia.
Qed.
End props.
