(* ===== verification/SemWait.v ===== *)
(** * Waiting for a semaphore

    A call that has to wait puts its control block last among the waiters, registers its
    callback, marks its thread as going to wait and yields with nothing locked; when the
    thread runs again it takes up the semaphore, or the error it was woken with. Deletion
    wakes all waiters. *)

From S2P Require Import Spinlock Prelude XList AvlTree CString Alloc Sched SchedSpec Timer Process ProcessSpec Sem SemSpec SemProps.
From stdpp Require Import gmap list.
#[local] Open Scope Z_scope.

Section wait.
Context {A : Allocator} {V : Aspaces}.
Implicit Types s : sems.

Abbreviation on_sched := (zoom ss_sched supd_sched).

(** ** Going to wait *)

(** The callbacks of a thread, in order. *)
Record callbacks (x : xstore) (th : Z) (cs : list Z) : Prop := {
  cl_list : is_xlist x (term_cbs_list th) (map cbd_node cs);
  cl_valid : Forall (λ c, valid_ptr (cbd_node c)) cs }.

(** What a call that waits needs. *)
Record can_wait s (id p : Z) (v : semaphore) (th : Z) (t : thread) (ws cs : list Z) (f : frame) : Prop := {
  cw_sem : sem_at s id p v ∧ slot_free s id;
  cw_caller : caller s th ∧ fresh_frame s f;
  cw_thread : sc_threads (ss_sched s) !! th = Some t ∧
    (th_next_state t = THREAD_STATE_READY ∨ th_next_state t = THREAD_STATE_RUNNING);
  cw_list : is_xlist (ss_waiters s) (sem_waiters p) (map wcb_node ws);
  cw_callbacks : callbacks (ss_cbs s) th cs;
  cw_frame : wcb_ok (f_wcb f) ∧ valid_ptr (cbd_node (f_tcb f)) ∧
    wcb_node (f_wcb f) ∉ map wcb_node ws ∧ cbd_node (f_tcb f) ∉ map cbd_node cs }.

(** The state a waiting call leaves to the others: its control block is last, its callback is
    registered, its thread will wait after the next rescheduling, and it holds no lock. *)
Record blocked s (p th n : Z) (t : thread) (ws cs : list Z) (f : frame) s1 : Prop := {
  bk_state : ∃ x xc, s1 = supd_waiters x (supd_cbs xc (supd_sched
    (upd_threads (<[th := with_state (th_state t) THREAD_STATE_WAITING t]> (sc_threads (ss_sched s))) (ss_sched s))
    (pushed f th (Wcb p th n INVALID_TIMEOUTID NO_ERROR) s)));
  bk_waiters : is_xlist (ss_waiters s1) (sem_waiters p) (map wcb_node (ws ++ [f_wcb f])) ∧
    xframe (with_node (wcb_node (f_wcb f)) (f_elem f) (ss_waiters s)) (ss_waiters s1) (sem_waiters p)
      (map wcb_node (f_wcb f :: ws));
  bk_callbacks : is_xlist (ss_cbs s1) (term_cbs_list th) (map cbd_node (cs ++ [f_tcb f])) ∧
    xframe (with_node (cbd_node (f_tcb f)) (f_elem f) (ss_cbs s)) (ss_cbs s1) (term_cbs_list th)
      (map cbd_node (f_tcb f :: cs)) }.

Lemma is_xlist_with_node x n e l ys : n ∉ ys → is_xlist x l ys → is_xlist (with_node n e x) l ys.
Proof.
  intros Hn [Hh Hs Hnd Hv]. split; [done| |done|done]. eapply seg_frame; [|exact Hs].
  intros y Hy. apply lookup_insert_ne. by intros ->.
Qed.

(** The part of the loop that gets the thread ready, from inside the call to the yield. *)
Lemma wp_wait s id p v th t n tmo flags ws cs f (Q : bool → sems → Prop) yields :
  can_wait s id p v th t ws cs f → Z.land flags SEMF_TIMEOUT = 0 →
  (∀ s1, blocked s p th n t ws cs f s1 → wp (
     match yields with
     | [] => hang
     | y :: yields =>
         y;; r ← wake_up f p true;
         if negb (r.1 =? NO_ERROR) then mret r.2 else down_loop yields f p th n tmo flags r.2
     end) s1 Q) →
  wp (r ← (t ← on_sched (ld_thread th);
      if (th_next_state t =? THREAD_STATE_READY) || (th_next_state t =? THREAD_STATE_RUNNING) then
        ok ← prepare_wait f p th tmo flags; mret (if (ok : bool) then Some true else None)
      else mret (Some false));
      match r with
      | None => mret (ss_irqs s)
      | Some registered =>
          on_sched (thread_unlock_thread th);; sem_unlock p;; on_cpu (local_irqs_restore (ss_irqs s));;
          match yields with
          | [] => hang
          | y :: yields =>
              y;; r ← wake_up f p registered;
              if negb (r.1 =? NO_ERROR) then mret r.2 else down_loop yields f p th n tmo flags r.2
          end
      end)
    (inside f id th (Wcb p th n INVALID_TIMEOUTID NO_ERROR) s) Q.
Proof.
  intros [[Ha Hf] [[Hcur Hth] (Hw & Hc & Hnw & Hnc)] [Ht Hnx] Hl [Hcl Hcv] (Hok & Hcn & Hwn & Hcn')] Hfl HQ.
  pose proof Ha as [_ _ Hv _ Hlock].
  apply wp_bind, wp_bind, wp_zoom. eapply wp_load; [exact Ht|]. rewrite supd_sched_id.
  assert ((th_next_state t =? THREAD_STATE_READY) || (th_next_state t =? THREAD_STATE_RUNNING) = true) as ->.
  { destruct Hnx as [-> | ->]; done. }
  apply wp_bind. unfold prepare_wait. rewrite Hfl. cbn [Z.eqb negb]. change (negb (0 =? 0)) with false. cbv iota.
  apply wp_bind, wp_ret, wp_bind, wp_zoom. eapply wp_st_thread; [exact Ht|].
  apply wp_bind. unfold thread_register_term_cb. apply wp_bind. eapply wp_load; [cbn; apply lookup_insert_eq|].
  cbn [cb_thread]. apply wp_bind, wp_zoom, wp_assert_locked.
  { exists SPIN_LOCKED. split; [cbn; apply lookup_insert_eq|done]. }
  apply wp_bind, wp_zoom. eapply (wp_xlist_add_last _ _ (map cbd_node cs));
    [exact (is_xlist_with_node _ _ _ _ _ Hcn' Hcl)|exact Hcn'|exact Hcn|cbn; rewrite lookup_insert_eq; by eexists|].
  intros xc Hxc Hfc. apply wp_ret, wp_bind. unfold sem_put_wcb. apply wp_bind, wp_zoom.
  eapply (wp_xlist_add_last _ _ (map wcb_node ws));
    [exact (is_xlist_with_node _ _ _ _ _ Hwn Hl)|exact Hwn|by apply wcb_node_valid|cbn; rewrite lookup_insert_eq; by eexists|].
  intros x Hx Hfx. apply wp_ret, wp_ret, wp_ret. cbv iota.
  apply wp_bind, wp_zoom, wp_zoom, wp_spin_unlock; [cbn; rewrite lookup_insert_eq; by eexists|].
  apply wp_bind. unfold sem_unlock. apply wp_bind. eapply wp_load; [exact Hv|]. rewrite Hlock.
  apply wp_sunlock; [cbn; rewrite lookup_insert_eq; by eexists|]. apply wp_bind, wp_irqs_restore.
  apply HQ. split.
  - exists x, xc. clear HQ. unfold inside, pushed, with_thread_lock, slot_held, slot_free, free_lock, ss_sched, ps_sched in *.
    destruct s as [[[[? [lk iq] ? ?]] ? ? ? ? ? ? ? ? ? ? ?] ? ? ? ? ? ? ? ? ?]. cbn in *.
    rewrite !insert_insert_eq, !insert_id by done. done.
  - split; [rewrite map_app; exact Hx|exact Hfx].
  - split; [rewrite map_app; exact Hxc|exact Hfc].
Qed.

(** ** Running again *)

(** A state in which the waiting thread runs again, its control block with the error [err] and
    in no list; [q]: the callbacks before and after its own. *)
Record resumed s2 (id p : Z) (v2 : semaphore) (th n err : Z) (cs1 cs2 : list Z) (f : frame) : Prop := {
  rs_caller : caller s2 th;
  rs_wcb : ss_wcbs s2 !! f_wcb f = Some (Wcb p th n INVALID_TIMEOUTID err);
  rs_cbd : ss_cbds s2 !! f_tcb f = Some (Cbd th (f_wcb f));
  rs_callbacks : is_xlist (ss_cbs s2) (term_cbs_list th) (map cbd_node (cs1 ++ f_tcb f :: cs2));
  rs_sem : err ≠ ERR_SEM_DELETED → sem_at s2 id p v2 ∧ slot_free s2 id }.

(** What the call leaves: the semaphores [sems'] and the callback unregistered. *)
Record resumed_end s2 (sems' : gmap Z semaphore) (th : Z) (cs1 cs2 : list Z) (f : frame) s' : Prop := {
  re_state : ∃ xc, s' = popped f (supd_sems sems' (supd_cbs xc s2)) ∧
    is_xlist xc (term_cbs_list th) (map cbd_node (cs1 ++ cs2)) ∧
    xframe (ss_cbs s2) xc (term_cbs_list th) (map cbd_node (cs1 ++ f_tcb f :: cs2)) }.

(** The state when the thread runs again with the semaphore, its thread locked. *)
Definition awake (id th : Z) (xc : xstore) s2 : sems :=
  supd_cbs xc (with_thread_lock th SPIN_LOCKED (slot_held id (with_irqs false s2))).

Definition awake_deleted (th : Z) (xc : xstore) s2 : sems :=
  supd_cbs xc (with_thread_lock th SPIN_LOCKED (with_irqs false s2)).

Lemma wp_wake_up s2 id p v2 th n err cs1 cs2 f (Q : Z * bool → sems → Prop) :
  resumed s2 id p v2 th n err cs1 cs2 f →
  (∀ xc, is_xlist xc (term_cbs_list th) (map cbd_node (cs1 ++ cs2)) →
     xframe (ss_cbs s2) xc (term_cbs_list th) (map cbd_node (cs1 ++ f_tcb f :: cs2)) →
     Q (err, ss_irqs s2) (if decide (err = ERR_SEM_DELETED) then awake_deleted th xc s2 else awake id th xc s2)) →
  wp (wake_up f p true) s2 Q.
Proof.
  intros [[Hcur Hth] Hw Hc Hl Hsem] HQ. unfold wake_up. apply wp_bind, wp_irqs_save, wp_bind.
  eapply wp_load; [exact Hw|]. cbn [wc_err wc_timeout]. apply wp_bind.
  rewrite map_app in Hl. cbn [map] in Hl.
  assert (∀ s3 (g : xstore → sems), ss_wcbs s3 = ss_wcbs s2 → ss_cbds s3 = ss_cbds s2 → ss_cbs s3 = ss_cbs s2 →
    ss_sched s3 = ss_sched (with_irqs false s2) →
    (∀ xc, supd_cbs xc (with_thread_lock th SPIN_LOCKED s3) = g xc) →
    (∀ xc, is_xlist xc (term_cbs_list th) (map cbd_node (cs1 ++ cs2)) →
     xframe (ss_cbs s2) xc (term_cbs_list th) (map cbd_node (cs1 ++ f_tcb f :: cs2)) → Q (err, ss_irqs s2) (g xc)) →
    wp (on_sched thread_get_current_thread_locked;;
        when true (thread_unregister_term_cb (f_tcb f));;
        when (negb (INVALID_TIMEOUTID =? INVALID_TIMEOUTID))
          (zoom ss_timer supd_timer (timer_timeout_cancel_sync (f_retries f) (f_key f) INVALID_TIMEOUTID));;
        w ← ld_wcb (f_wcb f); mret (wc_err w, ss_irqs s2)) s3 Q) as Hrest.
  { intros s3 g E1 E2 E3 E4 E5 HQ'. apply wp_bind, wp_zoom. unfold thread_get_current_thread_locked, thread_get_current_thread.
    apply wp_bind, wp_gets. rewrite E4. change (current_thread (ss_sched (with_irqs false s2))) with (current_thread (ss_sched s2)).
    rewrite Hcur. apply wp_bind, wp_zoom, wp_spin_lock; [exact Hth|]. apply wp_ret. rewrite <- E4.
    match goal with |- wp _ ?st _ => change st with (with_thread_lock th SPIN_LOCKED s3) end.
    apply wp_bind. cbn [when]. unfold thread_unregister_term_cb. apply wp_bind.
    eapply wp_load; [cbn; rewrite E2; exact Hc|]. cbn [cb_thread]. apply wp_bind, wp_zoom, wp_assert_locked.
    { exists SPIN_LOCKED. split; [cbn; apply lookup_insert_eq|done]. }
    rewrite supd_sched_id. apply wp_bind, wp_zoom.
    eapply wp_xlist_remove_unsafe; [cbn; rewrite E3; exact Hl|]. intros xc Hxc Hfc _. apply wp_ret, wp_bind.
    change (negb (INVALID_TIMEOUTID =? INVALID_TIMEOUTID)) with false. cbn [when]. apply wp_ret, wp_bind.
    eapply wp_load; [cbn; rewrite E1; exact Hw|]. apply wp_ret. cbn [wc_err]. rewrite E5. apply HQ'.
    - by rewrite map_app.
    - rewrite map_app. cbn [map]. cbn in Hfc. rewrite E3 in Hfc. exact Hfc. }
  destruct (Z.eqb_spec err ERR_SEM_DELETED) as [Ed|Ed]; cbn [negb when].
  - apply wp_ret. eapply (Hrest _ (λ xc, awake_deleted th xc s2)); [done..|]. intros xc Hxc Hfc.
    specialize (HQ xc Hxc Hfc). by rewrite decide_True in HQ.
  - destruct (Hsem Ed) as [[_ _ Hv _ Hlock] Hf]. unfold sem_lock. apply wp_bind. eapply wp_load; [exact Hv|].
    rewrite Hlock. apply wp_slock; [exact Hf|]. eapply (Hrest _ (λ xc, awake id th xc s2)); [done..|]. intros xc Hxc Hfc.
    specialize (HQ xc Hxc Hfc). by rewrite decide_False in HQ.
Qed.

(** The turn of the loop that is granted. *)
Lemma wp_try_granted s f th p v n tmo flags cb (Q : option bool → sems → Prop) :
  ss_sems s !! p = Some v → ss_wcbs s !! f_wcb f = Some cb → n ≤ sm_count v →
  Q None (supd_sems (<[p := with_count (u32 (sm_count v - n)) v]> (ss_sems s))
    (supd_wcbs (<[f_wcb f := Wcb (wc_sem cb) (wc_thread cb) (wc_count cb) INVALID_TIMEOUTID NO_ERROR]> (ss_wcbs s)) s)) →
  wp (try_acquire f p th n tmo flags) s Q.
Proof.
  intros Hv Hw Hle HQ. unfold try_acquire, set_err, set_timeout, st_wcb.
  apply wp_bind, wp_bind. eapply wp_load; [exact Hw|]. apply wp_modify, wp_bind, wp_bind.
  eapply wp_load; [cbn; apply lookup_insert_eq|]. apply wp_modify. cbn [supd_wcbs ss_wcbs]. rewrite insert_insert_eq.
  apply wp_bind. eapply wp_load; [exact Hv|]. rewrite (proj2 (Z.leb_le _ _)) by done.
  apply wp_bind. unfold set_count, st_sem. apply wp_bind. eapply wp_load; [exact Hv|]. apply wp_modify, wp_ret. exact HQ.
Qed.

(** The end of a call that has waited. *)
Lemma wp_leave_awake s2 f id th p xc sems' v cb b (Q : Z → sems → Prop) :
  free_lock (ss_sched s2) (thread_lock th) → slot_free s2 id → wc_err cb ≠ ERR_SEM_DELETED →
  sems' !! p = Some v → sm_lock v = slot_lock (SEM_IDX id) →
  Q (wc_err cb) (with_irqs b (popped f (supd_sems sems' (supd_cbs xc s2)))) →
  wp (on_sched (thread_unlock_thread th);;
      w ← ld_wcb (f_wcb f);
      when (negb (wc_err w =? ERR_SEM_DELETED)) (sem_unlock p);;
      on_cpu (local_irqs_restore b);; pop_frame f;; mret (wc_err w))
    (supd_sems sems' (supd_wcbs (<[f_wcb f := cb]> (ss_wcbs s2)) (awake id th xc s2))) Q.
Proof.
  intros Hth Hf He Hv Hlock HQ. apply wp_bind, wp_zoom, wp_zoom, wp_spin_unlock.
  { cbn. rewrite lookup_insert_eq. by eexists. }
  apply wp_bind. eapply wp_load; [cbn; apply lookup_insert_eq|]. rewrite (proj2 (Z.eqb_neq _ _)) by done. cbn [negb when].
  apply wp_bind. unfold sem_unlock. apply wp_bind. eapply wp_load; [exact Hv|]. rewrite Hlock.
  apply wp_sunlock; [cbn; rewrite lookup_insert_eq; by eexists|]. apply wp_bind, wp_irqs_restore, wp_bind, wp_modify, wp_ret.
  match goal with |- Q _ ?st => assert (st = with_irqs b (popped f (supd_sems sems' (supd_cbs xc s2)))) as ->; [|done] end.
  unfold awake, with_thread_lock, slot_held, slot_free, free_lock, ss_sched, ps_sched in *.
  destruct s2 as [[[[? [lk iq] ? ?]] ? ? ? ? ? ? ? ? ? ? ?] ? ? ? ? ? [] [] ? ?]. cbn in *.
  unfold popped, with_irqs, less_node, with_node, ss_sched, ps_sched. cbn.
  rewrite !insert_insert_eq, !delete_insert_eq, (insert_id lk _ SPIN_UNLOCKED), (insert_id ss_locks _ SPIN_UNLOCKED) by done. done.
Qed.

Lemma wp_leave_deleted s2 f th p xc cb b (Q : Z → sems → Prop) :
  free_lock (ss_sched s2) (thread_lock th) → ss_wcbs s2 !! f_wcb f = Some cb → wc_err cb = ERR_SEM_DELETED →
  Q ERR_SEM_DELETED (with_irqs b (popped f (supd_sems (ss_sems s2) (supd_cbs xc s2)))) →
  wp (on_sched (thread_unlock_thread th);;
      w ← ld_wcb (f_wcb f);
      when (negb (wc_err w =? ERR_SEM_DELETED)) (sem_unlock p);;
      on_cpu (local_irqs_restore b);; pop_frame f;; mret (wc_err w)) (awake_deleted th xc s2) Q.
Proof.
  intros Hth Hw He HQ. apply wp_bind, wp_zoom, wp_zoom, wp_spin_unlock.
  { cbn. rewrite lookup_insert_eq. by eexists. }
  apply wp_bind. eapply wp_load; [cbn; exact Hw|]. rewrite He, Z.eqb_refl. cbn [negb when].
  apply wp_bind, wp_ret, wp_bind, wp_irqs_restore, wp_bind, wp_modify, wp_ret.
  match goal with |- Q _ ?st => assert (st = with_irqs b (popped f (supd_sems (ss_sems s2) (supd_cbs xc s2)))) as ->; [|done] end.
  unfold awake_deleted, with_thread_lock, free_lock, ss_sched, ps_sched in *.
  destruct s2 as [[[[? [lk iq] ? ?]] ? ? ? ? ? ? ? ? ? ? ?] ? ? ? ? ? [] [] ? ?]. cbn in *.
  unfold popped, with_irqs, less_node, ss_sched, ps_sched. cbn. rewrite !insert_insert_eq, (insert_id lk _ SPIN_UNLOCKED) by done. done.
Qed.

Lemma wp_bind2 {S B C} (m : M S B) (g : B → M S C) (x : S) (Q : C → S → Prop) :
  wp (r ← m; g r) x Q → wp m x (λ r y, wp (g r) y Q).
Proof. unfold wp, mbind, M_bind. by destruct (m x) as [[]| | |]. Qed.

(** A turn that waits. *)
Lemma wp_down_wait s id p v th t n tmo flags ws cs f y yields (Q : bool → sems → Prop) :
  can_wait s id p v th t ws cs f → sm_count v < n → Z.land flags SEMF_TIMEOUT = 0 → Z.land flags SEMF_TRY = 0 →
  (∀ s1, blocked s p th n t ws cs f s1 → wp (y;; r ← wake_up f p true;
     if negb (r.1 =? NO_ERROR) then mret r.2 else down_loop yields f p th n tmo flags r.2) s1 Q) →
  wp (down_loop (y :: yields) f p th n tmo flags (ss_irqs s)) (inside f id th (Wcb p th n INVALID_TIMEOUTID NO_ERROR) s) Q.
Proof.
  intros Hcw Hn Hfl Htry HQ. pose proof (wp_wait s id p v th t n tmo flags ws cs f Q (y :: yields) Hcw Hfl HQ) as H.
  apply wp_bind2 in H. cbn [down_loop]. apply wp_bind. pose proof Hcw as [[Ha _] _ _ _ _ _].
  eapply wp_try_now; [exact Ha|lia|by rewrite Htry|]. intros _ _. exact H.
Qed.

(** A turn that is granted when the thread has waited. *)
Lemma wp_down_granted s2 id p v2 th n tmo flags f yields b xc (Q : bool → sems → Prop) :
  sem_at s2 id p v2 → ss_wcbs s2 !! f_wcb f = Some (Wcb p th n INVALID_TIMEOUTID NO_ERROR) → 0 ≤ n ≤ sm_count v2 → sm_count v2 < 2 ^ 32 →
  Q b (supd_sems (<[p := with_count (sm_count v2 - n) v2]> (ss_sems s2))
    (supd_wcbs (<[f_wcb f := Wcb p th n INVALID_TIMEOUTID NO_ERROR]> (ss_wcbs s2)) (awake id th xc s2))) →
  wp (down_loop yields f p th n tmo flags b) (awake id th xc s2) Q.
Proof.
  intros Ha Hw Hn Hv HQ. destruct yields; cbn [down_loop]; apply wp_bind;
    (eapply (wp_try_granted (awake id th xc s2)); [exact (sa_sem _ _ _ _ Ha)|exact Hw|lia|]); apply wp_ret;
    rewrite uwrap_small by lia; exact HQ.
Qed.


(** ** Deletion *)

Definition with_proc_lock (a l : Z) s : sems :=
  supd_procs (pupd_locks (<[a := l]> (ps_locks (ss_procs s))) (ss_procs s)) s.

Lemma wp_proc_spin_lock s a (Q : unit → sems → Prop) :
  ps_locks (ss_procs s) !! a = Some SPIN_UNLOCKED → Q tt (with_proc_lock a SPIN_LOCKED s) →
  wp (zoom ss_procs supd_procs (on_proc_locks (spin_lock a))) s Q.
Proof.
  intros Ha HQ. unfold on_proc_locks. apply wp_zoom, wp_zoom, wp_spin_lock; [exact Ha|].
  destruct s as [[[[? [] ? ?]] ? ? ? ? ? ? ? ? ? ? ?] ? ? ? ? ? ? ? ? ?]. exact HQ.
Qed.

Lemma wp_proc_spin_unlock s a (Q : unit → sems → Prop) :
  is_Some (ps_locks (ss_procs s) !! a) → Q tt (with_proc_lock a SPIN_UNLOCKED s) →
  wp (zoom ss_procs supd_procs (on_proc_locks (spin_unlock a))) s Q.
Proof.
  intros Ha HQ. unfold on_proc_locks. apply wp_zoom, wp_zoom, wp_spin_unlock; [exact Ha|].
  destruct s as [[[[? [] ? ?]] ? ? ? ? ? ? ? ? ? ? ?] ? ? ? ? ? ? ? ? ?]. exact HQ.
Qed.

(** A semaphore without a name, on the list of its owner, in a block of the heap. *)
Record owned s (p : Z) (v : semaphore) (l1 l2 : list Z) (live : gset Z) : Prop := {
  ow_name : sm_name v = NULL;
  ow_list : is_xlist (ps_semlists (ss_procs s)) (proc_semaphores (sm_proc v)) (l1 ++ sem_proc_node p :: l2);
  ow_lock : ps_locks (ss_procs s) !! proc_lock (sm_proc v) = Some SPIN_UNLOCKED;
  ow_heap : p ∈ live }.

(** Every operation by an identifier that has no semaphore fails and changes nothing. *)
Definition dead_id s (id : Z) : Prop :=
  (∀ n, sem_up id n s = Ok (ERR_SEM_INVALID_HANDLE, s)) ∧
  (∀ yields f n tmo flags, sem_down_ex yields f id n tmo flags s = Ok (ERR_SEM_INVALID_HANDLE, s)) ∧
  (∀ tmp, sem_delete tmp id s = Ok (ERR_SEM_INVALID_HANDLE, s)) ∧
  sem_get_owner id s = Ok (INVALID_PROCESSID, s).

Lemma no_sem_dead s id : no_sem s id → slot_free s id → dead_id s id.
Proof.
  intros Hn Hf. assert (no_sem (with_irqs false s) id) as Hn' by exact Hn.
  assert (∀ (e : Z) (Q : Z → sems → Prop), Q e s →
    wp (on_cpu (local_irqs_restore (ss_irqs s));; mret e) (with_irqs false s) Q) as Hend.
  { intros e Q HQ. apply wp_bind, wp_irqs_restore, wp_ret. by rewrite with_irqs_twice. }
  assert (∀ (e : Z) m, wp m s (λ r s', r = e ∧ s' = s) → m s = Ok (e, s)) as Hrun
    by (intros e m H; by apply wp_run in H as (? & -> & ->)).
  split_and!; intros; apply Hrun;
    [unfold sem_up|unfold sem_down_ex|unfold sem_delete|unfold sem_get_owner];
    apply wp_bind, wp_irqs_save, wp_bind; (eapply wp_get_no_sem; [exact Hn'|exact Hf|]).
  - apply wp_bind. unfold check_up. change (NULL =? NULL) with true. cbv iota. apply wp_bind, wp_ret, wp_ret.
    change (negb (ERR_SEM_INVALID_HANDLE =? NO_ERROR)) with true. cbn [orb]. change (NULL =? NULL) with true.
    cbn [negb when]. apply wp_bind, wp_ret. by apply Hend.
  - apply wp_bind. unfold check_down. change (NULL =? NULL) with true. cbv iota. apply wp_bind, wp_ret, wp_ret.
    change (negb (ERR_SEM_INVALID_HANDLE =? NO_ERROR)) with true. cbn [orb]. change (NULL =? NULL) with true.
    cbn [negb when]. apply wp_bind, wp_ret. by apply Hend.
  - change (NULL =? NULL) with true. cbv iota. by apply Hend.
  - change (NULL =? NULL) with true. cbv iota. by apply Hend.
Qed.

(** What deletion leaves. *)
Record deleted s (id p : Z) (v : semaphore) (ws l1 l2 : list Z) (qs : Z → list Z) s' : Prop := {
  de_slot : ss_table s' = <[SEM_IDX id := NULL]> (ss_table s) ∧ ss_sems s' = delete p (ss_sems s) ∧ slot_free s' id;
  de_wcbs : ss_wcbs s' = mark ERR_SEM_DELETED ws (ss_wcbs s);
  de_woken : woken (ss_sched s) (map (wthread s) ws) (ss_sched s');
  de_sched : sched_ready s' (queue_up (wprio s) (map (wthread s) ws) qs);
  de_owner : is_xlist (ps_semlists (ss_procs s')) (proc_semaphores (sm_proc v)) (l1 ++ l2) ∧
    ps_locks (ss_procs s') = ps_locks (ss_procs s) }.

Lemma is_xlist_less_node x n l ys : n ∉ ys → is_xlist x l ys → is_xlist (less_node n x) l ys.
Proof.
  intros Hn [Hh Hs Hnd Hv]. split; [done| |done|done]. eapply seg_frame; [|exact Hs].
  intros y Hy. apply lookup_delete_ne. by intros ->.
Qed.

Context {L : AllocLaws A}.

(** Freeing a semaphore nobody waits for. *)
Lemma wp_destroy_sem_struct s p v live (Q : unit → sems → Prop) :
  is_xlist (ss_waiters s) (sem_waiters p) [] → ss_sems s !! p = Some v → sm_name v = NULL →
  al_live (ps_heap (ss_procs s)) live → p ∈ live →
  (∀ h, al_live h (live ∖ {[p]}) → Q tt (drop_sem p (supd_procs (pupd_heap h (ss_procs s)) s))) →
  wp (destroy_sem_struct p) s Q.
Proof.
  intros Hl Hv Hn Hlv Hp HQ. unfold destroy_sem_struct. apply wp_bind, wp_zoom.
  eapply wp_xlist_isempty; [exact Hl|]. rewrite decide_True by done.
  replace (supd_waiters (ss_waiters s) s) with s by by destruct s.
  apply wp_bind, wp_ret, wp_bind. eapply wp_load; [exact Hv|]. rewrite Hn. change (NULL =? NULL) with true. cbn [negb when].
  apply wp_bind, wp_ret, wp_bind. unfold on_heap. apply wp_zoom, wp_zoom.
  eapply al_free_ok; [exact Hlv|exact Hp|]. intros h Hh. apply wp_modify. by apply HQ.
Qed.

(** The end of a deletion, from the taking of the owner's lock on. *)
Lemma wp_delete_tail s id p v ws l1 l2 qs live (Q : Z → sems → Prop) :
  sem_at s id p v → slot_free s id → waiting s p ws → sched_ready s qs → owned s p v l1 l2 live →
  al_live (ps_heap (ss_procs s)) live →
  (∀ s', deleted s id p v ws l1 l2 qs s' → al_live (ps_heap (ss_procs s')) (live ∖ {[p]}) → Q NO_ERROR s') →
  wp (zoom ss_procs supd_procs (on_proc_locks (spin_lock (proc_lock (sm_proc v))));;
      on_semlists (xlist_remove_unsafe (proc_semaphores (sm_proc v)) (sem_proc_node p));;
      zoom ss_procs supd_procs (on_proc_locks (spin_unlock (proc_lock (sm_proc v))));;
      st_slot (SEM_IDX id) NULL;;
      sem_unlock p;;
      fuel ← gets wait_fuel;
      delete_loop fuel p;;
      on_cpu (local_irqs_restore (ss_irqs s));;
      destroy_sem_struct p;;
      mret NO_ERROR) (slot_held id (with_irqs false s)) Q.
Proof.
  intros [Hslot _ Hv _ Hlock] Hf Hw Hs [Hn Hl Hpl Hp] Hlv HQ.
  apply wp_bind, wp_proc_spin_lock; [exact Hpl|]. apply wp_bind. unfold on_semlists. apply wp_zoom, wp_zoom.
  eapply wp_xlist_remove_unsafe; [exact Hl|]. intros x Hx _ _.
  apply wp_bind, wp_proc_spin_unlock; [cbn; rewrite lookup_insert_eq; by eexists|].
  apply wp_bind. unfold st_slot, ld_slot. apply wp_bind. eapply wp_load; [exact Hslot|]. apply wp_modify.
  apply wp_bind. unfold sem_unlock. apply wp_bind. eapply wp_load; [exact Hv|]. rewrite Hlock.
  apply wp_sunlock; [cbn; rewrite lookup_insert_eq; by eexists|]. apply wp_bind, wp_gets.
  set (s1 := supd_table (<[SEM_IDX id := NULL]> (ss_table s)) (supd_procs (pupd_semlists x (ss_procs s)) s)).
  match goal with |- wp _ ?st _ => assert (st = with_irqs false s1) as -> end.
  { unfold s1, slot_held, with_proc_lock. unfold slot_free in Hf.
    destruct s as [[[[? [] ? ?]] ? ? ? ? ? ? ? ? ? ? ?] ? ? ? ? ? ? ? ? ?]. cbn in *.
    rewrite !insert_insert_eq, (insert_id ps_locks _ SPIN_UNLOCKED), (insert_id ss_locks _ SPIN_UNLOCKED) by done. done. }
  apply wp_bind. eapply (wp_delete_loop p ws _ (with_irqs false s1) qs);
    [exact (waiting_fuel _ _ _ Hw)|apply Hw|apply Hw| |exact (sched_ready_irqs s false qs Hs)|].
  { apply waiting_servable in Hw. destruct Hw. by split. }
  intros s2 [(xw & sc & -> & _) Hwl _ Hwk Hsr].
  apply wp_bind, wp_irqs_restore, wp_bind.
  set (s2 := supd_waiters xw _) in *.
  change (woken (ss_sched (with_irqs false s)) (map (wthread s) ws) (ss_sched s2)) in Hwk.
  change (sched_ready s2 (queue_up (wprio s) (map (wthread s) ws) qs)) in Hsr.
  eapply (wp_destroy_sem_struct _ p v live); [exact Hwl|exact Hv|exact Hn|exact Hlv|exact Hp|].
  intros h Hh. apply wp_ret, HQ; [|exact Hh]. split.
  - split_and!; [done|done|exact Hf].
  - done.
  - exact (woken_irqs s false _ s2 Hwk).
  - exact (sched_ready_irqs s2 (ss_irqs s) _ Hsr).
  - split; [|done]. apply (is_xlist_less_node x); [|exact Hx].
    pose proof (ix_nodup _ _ _ Hl) as Hnd. apply NoDup_middle in Hnd as (_ & H1 & H2). intros [?|?]%elem_of_app; done.
Qed.

(** C14: deletion. [sem_delete] of a semaphore without a name, whatever threads wait for it,
    succeeds: every waiter has the error [ERR_SEM_DELETED] in its control block and is made
    ready, in the order of the waiters; the slot is free, the semaphore is off the list of its
    owner and its block is free again, and no other control block or thread is touched. Then
    the identifier is dead: counting up or down, deletion and the question for the owner
    fail and change nothing. *)
Theorem sem_delete_correct s id p v ws l1 l2 qs live tmp :
  sem_at s id p v → slot_free s id → waiting s p ws → sched_ready s qs → owned s p v l1 l2 live →
  al_live (ps_heap (ss_procs s)) live →
  ∃ s', sem_delete tmp id s = Ok (NO_ERROR, s') ∧ deleted s id p v ws l1 l2 qs s' ∧
    al_live (ps_heap (ss_procs s')) (live ∖ {[p]}) ∧
    (∀ w, ss_wcbs s' !! w = if decide (w ∈ ws) then with_err ERR_SEM_DELETED <$> ss_wcbs s !! w else ss_wcbs s !! w) ∧
    dead_id s' id.
Proof.
  intros Ha Hf Hw Hs Ho Hlv.
  assert (wp (sem_delete tmp id) s (λ r s', r = NO_ERROR ∧ deleted s id p v ws l1 l2 qs s' ∧
    al_live (ps_heap (ss_procs s')) (live ∖ {[p]}))) as (s' & E & Hd & Hh)%wp_run.
  { unfold sem_delete. apply wp_bind, wp_irqs_save, wp_bind. eapply wp_get_sem; [by apply sem_at_irqs|exact Hf|].
    rewrite (proj2 (Z.eqb_neq p NULL)) by apply Ha. apply wp_bind. eapply wp_load; [apply Ha|].
    rewrite (ow_name _ _ _ _ _ _ Ho). change (negb (NULL =? NULL)) with false. cbn [when].
    apply wp_bind, wp_ret.
    pose proof (wp_delete_tail s id p v ws l1 l2 qs live (λ r s', r = NO_ERROR ∧ deleted s id p v ws l1 l2 qs s' ∧
      al_live (ps_heap (ss_procs s')) (live ∖ {[p]})) Ha Hf Hw Hs Ho Hlv) as H. apply H. intros s' H1 H2. done. }
  exists s'. split; [exact E|]. split; [exact Hd|]. split; [exact Hh|]. split.
  - intros w. rewrite (de_wcbs _ _ _ _ _ _ _ _ _ Hd). apply mark_lookup.
  - destruct (de_slot _ _ _ _ _ _ _ _ _ Hd) as (Et & _ & Hf'). apply no_sem_dead; [|exact Hf'].
    exists NULL. split; [rewrite Et; apply lookup_insert_eq|by left].
Qed.
End wait.
