(* ===== verification/SemRace.v ===== *)
(** * Timeouts of semaphores

    The routine of a timeout takes a waiter out of the list, gives it its error and wakes its
    thread. When the waiter has been served already, and its thread has not yet run and
    cancelled the timeout, the same routine stops the kernel. *)

From S2P Require Import Spinlock Prelude XList AvlTree CString Alloc Sched SchedSpec Timer Process ProcessSpec Sem SemSpec SemProps.
From stdpp Require Import gmap list.
#[local] Open Scope Z_scope.

(** A panic after a part that ends. *)
Lemma panic_bind {S B C} (m : M S B) (f : B → M S C) (x : S) :
  wp m x (λ r y, f r y = Panic) → (m ≫= f) x = Panic.
Proof. unfold wp, mbind, M_bind. by destruct (m x) as [[]| | |]. Qed.

Lemma panic_first {S B C} (m : M S B) (f : B → M S C) (x : S) : m x = Panic → (m ≫= f) x = Panic.
Proof. unfold mbind, M_bind. by intros ->. Qed.

Lemma panic_zoom {S T B} (sel : S → T) (upd : T → S → S) (m : M T B) (x : S) :
  m (sel x) = Panic → zoom sel upd m x = Panic.
Proof. unfold zoom. by intros ->. Qed.

Section race.
Context {A : Allocator} {V : Aspaces}.
Implicit Types s : sems.

Abbreviation on_sched := (zoom ss_sched supd_sched).

(** ** The lock of a slot, with the interrupts *)

Lemma wp_slot_irqsave s id (Q : bool → sems → Prop) :
  slot_free s id → Q (ss_irqs s) (slot_held id (with_irqs false s)) →
  wp (on_locks (spin_lock_irqsave (slot_lock (SEM_IDX id)))) s Q.
Proof.
  intros Hf HQ. unfold on_locks. apply wp_zoom, wp_spin_lock_irqsave; [exact Hf|]. cbn [locks irqs].
  destruct s as [[[[? [] ? ?]] ? ? ? ? ? ? ? ? ? ? ?] ? ? ? ? ? ? ? ? ?]. exact HQ.
Qed.

Lemma wp_slot_irqrstor s id b (Q : unit → sems → Prop) :
  is_Some (ss_locks s !! slot_lock (SEM_IDX id)) →
  Q tt (with_irqs b (supd_locks (<[slot_lock (SEM_IDX id) := SPIN_UNLOCKED]> (ss_locks s)) s)) →
  wp (on_locks (spin_unlock_irqrstor (slot_lock (SEM_IDX id)) b)) s Q.
Proof.
  intros Hf HQ. unfold on_locks. apply wp_zoom, wp_spin_unlock_irqrstor; [exact Hf|]. cbn [locks irqs].
  destruct s as [[[[? [] ? ?]] ? ? ? ? ? ? ? ? ? ? ?] ? ? ? ? ? ? ? ? ?]. exact HQ.
Qed.

(** ** The start of the routine *)

(** The error a waiter ends with when its time is over. *)
Definition timeout_err (e : Z) : Z := if decide (e = NO_ERROR) then ERR_SEM_TIMEOUT else e.

(** The state in which the routine takes the waiter out. *)
Definition expiring (id w : Z) (cb : sem_wcb) s : sems :=
  supd_wcbs (<[w := with_err (timeout_err (wc_err cb)) cb]> (ss_wcbs s)) (slot_held id (with_irqs false s)).

Lemma wp_set_timeout_err s w cb id (Q : unit → sems → Prop) :
  ss_wcbs s !! w = Some cb → Q tt (expiring id w cb s) →
  wp (when (wc_err cb =? NO_ERROR) (set_err w ERR_SEM_TIMEOUT)) (slot_held id (with_irqs false s)) Q.
Proof.
  intros Hw HQ. unfold expiring, timeout_err in HQ. destruct (Z.eqb_spec (wc_err cb) NO_ERROR) as [E|E]; cbn [when].
  - rewrite decide_True in HQ by done. unfold set_err, st_wcb. apply wp_bind. eapply wp_load; [exact Hw|]. apply wp_modify, HQ.
  - rewrite decide_False in HQ by done. apply wp_ret.
    assert (with_err (wc_err cb) cb = cb) as E1 by by destruct cb. rewrite E1, insert_id in HQ by done. by destruct s.
Qed.

(** ** A timeout in time *)

(** What the routine leaves for a waiter [w], with the control block [cb], that still waits
    between [ws1] and [ws2]. *)
Record timed_out s (id p : Z) (v : semaphore) (w : Z) (cb : sem_wcb) (ws1 ws2 : list Z) (qs : Z → list Z) s' : Prop := {
  to_sem : sem_at s' id p v ∧ slot_free s' id;
  to_waiting : waiting s' p (ws1 ++ ws2);
  to_woken : woken (ss_sched s) [wc_thread cb] (ss_sched s');
  to_sched : sched_ready s' (queue_up (wprio s) [wc_thread cb] qs);
  to_rest : ∃ x sc', s' = supd_waiters x (supd_sched sc' (supd_wcbs (<[w := with_err (timeout_err (wc_err cb)) cb]> (ss_wcbs s)) s)) ∧
    xframe (ss_waiters s) x (sem_waiters p) (map wcb_node (ws1 ++ w :: ws2)) }.

(** The waiters without one whose thread is woken. *)
Lemma waiting_less s p ws1 w ws2 x sc' e cb s' :
  waiting s p (ws1 ++ w :: ws2) → ss_wcbs s !! w = Some cb →
  s' = supd_waiters x (supd_sched sc' (supd_wcbs (<[w := with_err e cb]> (ss_wcbs s)) s)) →
  is_xlist x (sem_waiters p) (map wcb_node (ws1 ++ ws2)) →
  woken (ss_sched s) [wc_thread cb] sc' → waiting s' p (ws1 ++ ws2).
Proof.
  intros [_ Ha Hc Ht Hd] Hcb -> Hx Hwk.
  assert (wthread s w = wc_thread cb) as Eth by (unfold wthread; by rewrite Hcb).
  assert (∀ w', w' ∈ ws1 ++ ws2 → w' ∈ ws1 ++ w :: ws2) as Hsub by set_solver.
  rewrite map_app in Hd. cbn [map] in Hd. apply NoDup_middle in Hd as (Hd & Hn1 & Hn2). rewrite <- map_app in Hd.
  assert (∀ w', w' ∈ ws1 ++ ws2 → wthread s w' ≠ wc_thread cb) as Hne.
  { rewrite <- Eth. intros w' [Hin|Hin]%elem_of_app E; [apply Hn1|apply Hn2]; rewrite <- E; by apply list_elem_of_fmap_2. }
  assert (∀ w', w' ∈ ws1 ++ ws2 → w' ≠ w) as Hnw by (intros w' Hin ->; by apply (Hne w Hin)).
  assert (∀ w', wthread (supd_waiters x (supd_sched sc' (supd_wcbs (<[w := with_err e cb]> (ss_wcbs s)) s))) w' = wthread s w') as Eth'.
  { intros w'. unfold wthread. cbn. destruct (decide (w = w')) as [<-|Hw]; [by rewrite lookup_insert_eq, Hcb|by rewrite lookup_insert_ne]. }
  split.
  - exact Hx.
  - apply Forall_forall. intros w' Hin. apply (proj1 (Forall_forall _ _) Ha). auto.
  - intros w' Hin. cbn. rewrite lookup_insert_ne by (intros ->; by apply (Hnw w' Hin)). auto.
  - intros w' Hin. rewrite Eth'. eapply wakeable_woken; [exact Hwk| |auto].
    intros E%list_elem_of_singleton. by apply (Hne w' Hin).
  - rewrite (map_ext _ _ Eth'). exact Hd.
Qed.

Lemma wp_sem_timeout s id p v ws1 w ws2 cb qs tid (Q : unit → sems → Prop) :
  sem_at s id p v → slot_free s id → waiting s p (ws1 ++ w :: ws2) → ss_wcbs s !! w = Some cb → sched_ready s qs →
  (∀ s', timed_out s id p v w cb ws1 ws2 qs s' → Q tt s') → wp (sem_timeout_callback tid w) s Q.
Proof.
  intros Ha Hf Hw Hcb Hs HQ. pose proof Ha as [Hslot Hp Hv Hid Hlock].
  assert (w ∈ ws1 ++ w :: ws2) as Hin by set_solver.
  destruct (wt_wcb _ _ _ Hw w Hin) as (cb' & Hcb' & Esem & _). rewrite Hcb in Hcb'. injection Hcb' as <-.
  destruct (wt_thread _ _ _ Hw w Hin) as [Hlk (t & Ht & Hpr & Hst)].
  assert (wthread s w = wc_thread cb) as Eth by (unfold wthread; by rewrite Hcb). rewrite Eth in Hlk, Ht.
  unfold sem_timeout_callback. apply wp_bind. eapply wp_load; [exact Hcb|]. rewrite Esem.
  apply wp_bind. eapply wp_load; [exact Hv|]. rewrite Hlock. apply wp_bind, wp_slot_irqsave; [exact Hf|].
  apply wp_bind, wp_set_timeout_err; [exact Hcb|]. apply wp_bind, wp_zoom.
  pose proof (wt_list _ _ _ Hw) as Hl. rewrite map_app in Hl.
  eapply wp_xlist_remove_unsafe; [exact Hl|]. intros x Hx Hfx _.
  apply wp_bind. eapply (wp_wake_waiter _ qs _ t); [exact (sched_ready_irqs s false qs Hs)|exact Hlk|exact Ht|exact Hpr|exact Hst|].
  intros xq c sc' Hsc'. apply wp_bind. eapply wp_load; [exact Hv|]. rewrite Hlock.
  apply wp_slot_irqrstor; [cbn; rewrite lookup_insert_eq; by eexists|].
  set (s4 := with_irqs _ _).
  assert (s4 = supd_waiters x (supd_sched (ss_sched s4) (supd_wcbs (<[w := with_err (timeout_err (wc_err cb)) cb]> (ss_wcbs s)) s))) as E4.
  { unfold s4, expiring, slot_held. cbn. rewrite insert_insert_eq, insert_id by exact Hf.
    by destruct s as [[[] ? ? ? ? ? ? ? ? ? ? ?] ? ? ? ? ? ? ? ? ?]. }
  assert (woken (ss_sched s) [wc_thread cb] (ss_sched s4)) as Hwk.
  { apply (woken_irqs s false _ (supd_sched sc' (supd_waiters x (expiring id w cb s)))).
    eapply woken_cons; [exact Ht|set_solver +|by eexists _, _|apply woken_nil]. }
  apply HQ. split.
  - split; [|rewrite E4; exact Hf]. rewrite E4. by split.
  - eapply waiting_less; [exact Hw|exact Hcb|exact E4| |exact Hwk]. rewrite map_app. exact Hx.
  - exact Hwk.
  - unfold queue_up. cbn [foldl]. assert (wprio s (wc_thread cb) = wake_prio t) as -> by (unfold wprio; by rewrite Ht).
    refine (sched_ready_irqs (supd_sched sc' (supd_waiters x (expiring id w cb s))) (ss_irqs s) _ _).
    split; [exact Hsc'|apply Hs].
  - exists x, (ss_sched s4). split; [exact E4|]. rewrite map_app. exact Hfx.
Qed.

(** ** A timeout too late *)

(** A thread that does not wait cannot be woken. *)
Lemma wake_thread_panics s th t :
  free_lock (ss_sched s) (thread_lock th) → sc_threads (ss_sched s) !! th = Some t → th_state t ∉ addable →
  wake_thread th s = Panic.
Proof.
  intros Hl Ht Hst. unfold wake_thread. apply panic_bind, wp_zoom, wp_zoom, wp_spin_lock; [exact Hl|].
  apply panic_first, panic_zoom. unfold sched_add_thread. apply panic_bind, wp_assert_locked.
  { exists SPIN_LOCKED. split; [cbn; apply lookup_insert_eq|done]. }
  apply panic_bind. eapply wp_load; [exact Ht|]. apply panic_first. unfold ASSERT_MSG.
  by rewrite addable_test, bool_decide_false.
Qed.

(** Taking a node that is in no list out of a list ends, whatever it does to the list. *)
Lemma wp_remove_loose (x : xstore) l n h (Q : Z → xstore → Prop) :
  nodes x !! n = Some (ListElem NULL NULL) → lists x !! l = Some h → (∀ r x', Q r x') → wp (xlist_remove_unsafe l n) x Q.
Proof.
  intros Hn Hl HQ. unfold xlist_remove_unsafe. apply wp_bind. eapply wp_ld_prev; [exact Hn|].
  apply wp_bind. eapply wp_ld_next; [exact Hn|]. apply wp_bind. eapply wp_st_list; [exact Hl|].
  apply wp_bind. eapply wp_ld_next; [exact Hn|]. apply wp_bind. eapply wp_ld_prev; [exact Hn|].
  apply wp_bind. eapply wp_st_list; [apply lookup_insert_eq|]. apply wp_bind. eapply wp_st_list; [apply lookup_insert_eq|].
  apply wp_bind, wp_st_elem; [by eexists|]. apply wp_bind, wp_st_elem; [cbn; rewrite lookup_alter_eq, Hn; by eexists|].
  apply wp_ret, HQ.
Qed.

Lemma late_timeout_panics s id p v w cb t h tid :
  sem_at s id p v → slot_free s id → ss_wcbs s !! w = Some cb → wc_sem cb = p →
  nodes (ss_waiters s) !! wcb_node w = Some (ListElem NULL NULL) → lists (ss_waiters s) !! sem_waiters p = Some h →
  free_lock (ss_sched s) (thread_lock (wc_thread cb)) → sc_threads (ss_sched s) !! wc_thread cb = Some t →
  th_state t ∉ addable → sem_timeout_callback tid w s = Panic.
Proof.
  intros [_ _ Hv _ Hlock] Hf Hcb Esem Hn Hl Hlk Ht Hst. unfold sem_timeout_callback.
  apply panic_bind. eapply wp_load; [exact Hcb|]. rewrite Esem. apply panic_bind. eapply wp_load; [exact Hv|].
  rewrite Hlock. apply panic_bind, wp_slot_irqsave; [exact Hf|]. apply panic_bind, wp_set_timeout_err; [exact Hcb|].
  apply panic_bind, wp_zoom. eapply wp_remove_loose; [exact Hn|exact Hl|]. intros _ x.
  apply panic_first. eapply wake_thread_panics; [exact Hlk|exact Ht|exact Hst].
Qed.

(** C15: a timeout in time. If the time of a waiter is over, its control block is taken out of the
    list, the others wait on in their order, its error is [ERR_SEM_TIMEOUT] unless it had one,
    and its thread is made ready at the end of the queue of its priority; nothing else is
    changed, the count and the locks included. *)
Theorem sem_timeout_correct s id p v ws1 w ws2 cb qs tid :
  sem_at s id p v → slot_free s id → waiting s p (ws1 ++ w :: ws2) → ss_wcbs s !! w = Some cb → sched_ready s qs →
  ∃ s', sem_timeout_callback tid w s = Ok (tt, s') ∧ timed_out s id p v w cb ws1 ws2 qs s'.
Proof.
  intros Ha Hf Hw Hcb Hs. apply wp_run. eapply wp_sem_timeout; [done..|]. intros s' Hs'. done.
Qed.

(** C37: a timeout too late. After a successful [sem_up] the control block of a thread that was
    served is in no list, and its thread is ready; but its timeout is cancelled only by the
    thread itself when it runs again. If the time of the waiter is over before that, the
    routine of the timeout takes the block out of the list a second time and then stops the
    kernel with the assertion of [sched_add_thread]. *)
Theorem sem_timeout_after_up s id p v ws qs n w tid :
  sem_at s id p v → slot_free s id → waiting s p ws → sched_ready s qs →
  0 < n → 0 ≤ sm_count v → sm_count v + n ≤ sm_max_count v → sm_max_count v < 2 ^ 32 →
  w ∈ served (wcount s) ws (sm_count v + n) →
  ∃ s', sem_up id n s = Ok (NO_ERROR, s') ∧ sem_timeout_callback tid w s' = Panic.
Proof.
  intros Ha Hf Hw Hs Hn Hv Hc Hm Hin. assert (u32 (sm_count v + n) = sm_count v + n) as E by (apply uwrap_small; lia).
  assert (wp (sem_up id n) s (λ r s', r = NO_ERROR ∧ upped s id p v ws qs (sm_count v + n) s')) as (s' & Eup & Hs')%wp_run.
  { eapply wp_sem_up; [done..|lia|rewrite E; lia|]. rewrite E. done. }
  exists s'. split; [exact Eup|]. destruct Hs' as [[Ha' Hf'] [Hl' _ _ _ _] Hwk _ Hnodes (x & sc' & Es & _)].
  assert (w ∈ ws) as Hws.
  { eapply elem_of_sublist; [exact Hin|]. apply serve_spec; [|lia]. intros w' Hin'.
    apply (sv_wcb _ _ (waiting_servable _ _ _ Hw) w' Hin'). }
  destruct (wt_wcb _ _ _ Hw w Hws) as (cb & Hcb & Esem & _).
  destruct (wt_thread _ _ _ Hw w Hws) as [Hlk (t & Ht & _)].
  assert (wthread s w = wc_thread cb) as Eth by (unfold wthread; by rewrite Hcb). rewrite Eth in Hlk, Ht.
  eapply late_timeout_panics; [exact Ha'|exact Hf'|rewrite Es; exact Hcb|exact Esem|by apply Hnodes|apply Hl'| | |].
  - destruct (wk_state _ _ _ Hwk) as (x' & m & c & E'). rewrite E'. exact Hlk.
  - rewrite (wk_thread _ _ _ Hwk), Ht; [done|]. rewrite <- Eth. by apply list_elem_of_fmap_2.
  - by_decide.
Qed.
End race.
