(* ===== verification/SemCreate.v ===== *)
(** * New semaphores

    The search for a free slot, the identifiers that are given out, and the creation of a
    semaphore without a name: it is in its slot, on the list of its owner, and found by its
    identifier. *)

From S2P Require Import Spinlock Prelude XList AvlTree CString Heap Alloc Sched SchedSpec Timer Process ProcessSpec ProcessProps Sem SemSpec SemProps SemWait.
From stdpp Require Import gmap list.
#[local] Open Scope Z_scope.

Section create.
Context {A : Allocator} {V : Aspaces} {L : AllocLaws A}.
Implicit Types s : sems.

(** ** The search for a slot *)

(** A slot that the search passes by: somebody holds it, or there is a semaphore in it. *)
Definition passed s (i : Z) : Prop :=
  ss_locks s !! slot_lock i = Some SPIN_LOCKED ∨
  (ss_locks s !! slot_lock i = Some SPIN_UNLOCKED ∧ ∃ p, ss_table s !! i = Some p ∧ p ≠ NULL).

(** A slot that can be taken. *)
Definition vacant s (i : Z) : Prop :=
  ss_locks s !! slot_lock i = Some SPIN_UNLOCKED ∧ ss_table s !! i = Some NULL.

Lemma passed_vacant s i : passed s i → vacant s i → False.
Proof.
  intros [E|(_ & p & E & Hp)] [E1 E2]; [rewrite E in E1; discriminate|]. rewrite E in E2. by injection E2.
Qed.

Lemma wp_strylock s a w (Q : Z → sems → Prop) :
  ss_locks s !! a = Some w → Q (if w =? 0 then 1 else 0) (supd_locks (<[a := SPIN_LOCKED]> (ss_locks s)) s) →
  wp (on_locks (spin_trylock a)) s Q.
Proof.
  intros Ha HQ. unfold on_locks. apply wp_zoom. eapply wp_spin_trylock; [exact Ha|]. cbn [locks irqs].
  destruct s as [[[[? [] ? ?]] ? ? ? ? ? ? ? ? ? ? ?] ? ? ? ? ? ? ? ? ?]. exact HQ.
Qed.

Lemma supd_locks_id s a w : ss_locks s !! a = Some w → supd_locks (<[a := w]> (ss_locks s)) s = s.
Proof. intros E. rewrite insert_id by done. by destruct s. Qed.

Lemma wp_alloc_slot_loop n : ∀ i s (Q : Z → sems → Prop),
  (∀ j, i ≤ j < i + Z.of_nat n → passed s j ∨ vacant s j) →
  (∀ k, i ≤ k < i + Z.of_nat n → vacant s k → (∀ j, i ≤ j < k → passed s j) →
     Q k (supd_locks (<[slot_lock k := SPIN_LOCKED]> (ss_locks s)) s)) →
  ((∀ j, i ≤ j < i + Z.of_nat n → passed s j) → Q (-1) s) →
  wp (alloc_slot_loop n i) s Q.
Proof.
  induction n as [|n IH]; intros i s Q Hall H1 H2; cbn [alloc_slot_loop]; [apply wp_ret, H2; intros; lia|].
  assert (∀ s1, passed s i → s1 = s → wp (alloc_slot_loop n (i + 1)) s1 Q) as Hnext.
  { intros s1 Hp ->. apply IH.
    - intros j Hj. apply Hall. lia.
    - intros k Hk Hv Hj. apply H1; [lia|done|]. intros j Hj'. destruct (decide (j = i)) as [->|]; [done|]. apply Hj. lia.
    - intros Hj. apply H2. intros j Hj'. destruct (decide (j = i)) as [->|]; [done|]. apply Hj. lia. }
  destruct (Hall i ltac:(lia)) as [[E|(E & p & Et & Hp)]|[E Et]]; apply wp_bind; (eapply wp_strylock; [exact E|]).
  - change (negb ((if SPIN_LOCKED =? 0 then 1 else 0) =? 0)) with false. cbv iota. apply Hnext; [by left|by apply supd_locks_id].
  - change (negb ((if SPIN_UNLOCKED =? 0 then 1 else 0) =? 0)) with true. cbv iota.
    apply wp_bind. eapply wp_load; [exact Et|]. rewrite (proj2 (Z.eqb_neq p NULL)) by done.
    apply wp_bind, wp_sunlock; [cbn; rewrite lookup_insert_eq; by eexists|]. apply Hnext; [right; by eauto|].
    cbn. rewrite insert_insert_eq. exact (supd_locks_id s _ _ E).
  - change (negb ((if SPIN_UNLOCKED =? 0 then 1 else 0) =? 0)) with true. cbv iota.
    apply wp_bind. eapply wp_load; [exact Et|]. change (NULL =? NULL) with true. cbv iota. apply wp_ret.
    apply H1; [lia|by split|lia].
Qed.

(** ** Identifiers *)

Lemma gid_max : SEM_GID (u32 (-1)) = 2 ^ 19 - 1.
Proof. reflexivity. Qed.

(** Inside the range the counter is given out and goes on by one. *)
Lemma wp_get_next_gid s b (Q : Z → sems → Prop) :
  0 < next_sem_gid s < 2 ^ 19 → Q (next_sem_gid s) (supd_gid (next_sem_gid s + 1) s) → wp (get_next_gid b) s Q.
Proof.
  intros Hg HQ. unfold get_next_gid. cbn [next_gid_loop]. apply wp_bind, wp_gets, wp_bind, wp_modify.
  rewrite gid_max, (proj2 (Z.ltb_ge _ _)) by lia. apply wp_bind, wp_ret.
  rewrite (proj2 (Z.eqb_neq (next_sem_gid s) 0)), andb_false_r by lia. apply wp_ret. by rewrite uwrap_small by lia.
Qed.

(** At its end the counter starts again; an identifier that may not be zero takes two more
    rounds. *)
Lemma get_next_gid_wraps s b : next_sem_gid s = 2 ^ 19 →
  get_next_gid b s = Ok (if b then 1 else 0, supd_gid (if b then 2 else 0) s).
Proof. destruct s. cbn. intros ->. by destruct b. Qed.

(** ** Creation *)

Definition sem_ok (q : Z) : Prop := 0 < q ∧ q + sizeof_semaphore ≤ 2 ^ 32.

Lemma sem_proc_node_ok q : sem_ok q → sem_proc_node q = q + 36.
Proof. intros []. unfold sizeof_semaphore in *. apply uwrap_small. lia. Qed.

Lemma sem_proc_node_new qs q : Forall sem_ok qs → sem_ok q → q ∉ qs → sem_proc_node q ∉ map sem_proc_node qs.
Proof.
  intros Hqs Hq Hn (q' & E & Hin)%list_elem_of_fmap. apply (proj1 (Forall_forall _ _) Hqs) in Hin as Hok.
  rewrite !sem_proc_node_ok in E by done. assert (q = q') as -> by lia. done.
Qed.

(** What a creation for the process at [p0] needs: [i] is the first slot that can be taken, [g]
    the next generated part, [qs] the semaphores the process has. *)
Record can_make s (live : gset Z) (l : list Z) (i g key p0 : Z) (v0 : process) (qs : list Z) : Prop := {
  cm_slot : slot_ok i ∧ vacant s i ∧ (∀ j, 0 ≤ j < i → passed s j) ∧ ∀ j, slot_ok j → passed s j ∨ vacant s j;
  cm_gid : next_sem_gid s = g ∧ 0 < g < 2 ^ 19;
  cm_table : table_ok (ss_procs s) l ∧ (key ∉ l) ∧ pfree (ss_procs s) processes_lock ∧ ps_procs (ss_procs s) !! NULL = None;
  cm_owner : p0 ∈ l ∧ ps_procs (ss_procs s) !! p0 = Some v0 ∧ pr_state v0 ≠ PROCESS_STATE_DEATH ∧ 0 ≤ pr_ref_count v0 < 2 ^ 32 - 1;
  cm_heap : al_live (ps_heap (ss_procs s)) live ∧ al_room (ps_heap (ss_procs s)) sizeof_semaphore;
  cm_owned : is_xlist (ps_semlists (ss_procs s)) (proc_semaphores p0) (map sem_proc_node qs) ∧ Forall sem_ok qs ∧
    (∀ q, q ∈ qs → q ∈ live) ∧ ps_locks (ss_procs s) !! proc_lock p0 = Some SPIN_UNLOCKED }.

(** The state with a new semaphore [v] at [q]: its block taken from the heap, [h] what is left,
    its slot filled, its node on the lists [x], and the next generated part spent. *)
Definition with_sem s (i q : Z) (v : semaphore) (h : al_state) (x : xstore) : sems :=
  Sems (pupd_semlists x (pupd_heap h (ss_procs s))) (<[i := q]> (ss_table s)) (ss_locks s) (<[q := v]> (ss_sems s))
    (ss_wcbs s) (ss_cbds s) (with_list (sem_waiters q) (ss_waiters s)) (ss_cbs s)
    (AStore (<[AVL_DATA2NODE q sem_tree_node := zero_anode]> (anodes (ss_tree s))) (atrees (ss_tree s))) (next_sem_gid s + 1).

(** The identifier of the semaphore. *)
Definition the_id s (i : Z) : Z := SEM_ID_BUILD i (next_sem_gid s).

Lemma wp_has_no_name s (Q : bool → sems → Prop) : Q false s → wp (has_name NULL) s Q.
Proof. intros HQ. exact HQ. Qed.

Lemma wp_create_sem_struct s live (Q : Z → sems → Prop) fill :
  al_live (ps_heap (ss_procs s)) live → al_room (ps_heap (ss_procs s)) sizeof_semaphore →
  (∀ q h, q ∉ live → sem_ok q → al_live h ({[q]} ∪ live) →
     Q q (add_sem q zero_sem (supd_procs (pupd_heap h (ss_procs s)) s))) →
  wp (create_sem_struct fill NULL) s Q.
Proof.
  intros Hl Hr HQ. unfold create_sem_struct. apply wp_bind, wp_has_no_name, wp_bind, wp_ret, wp_bind.
  unfold on_heap. apply wp_zoom, wp_zoom. eapply al_alloc_ok; [exact Hl|exact Hr|done|].
  intros q h Hq H0 Hb Hh. rewrite (proj2 (Z.eqb_neq q NULL)) by (unfold NULL; lia).
  apply wp_bind, wp_modify, wp_ret. by apply HQ.
Qed.

(** The lookup of the owner, in a state with the same table. *)
Lemma wp_get_owner (ps : procs) l key p0 v0 x h (Q : Z → procs → Prop) :
  table_ok ps l → p0 ∈ l → ps_procs ps !! p0 = Some v0 → key ∉ l → pfree ps processes_lock → ps_procs ps !! NULL = None →
  pr_state v0 ≠ PROCESS_STATE_DEATH → 0 ≤ pr_ref_count v0 < 2 ^ 32 - 1 →
  Q p0 (with_process p0 (with_ref_count (pr_ref_count v0 + 1) v0) (pupd_semlists x (pupd_heap h ps))) →
  wp (proc_get_process_by_id key (pr_id v0)) (pupd_semlists x (pupd_heap h ps)) Q.
Proof.
  intros Ht Hp Hv Hk Hf H0 Hst Hr HQ. eapply wp_of_ok.
  { eapply (get_known (pupd_semlists x (pupd_heap h ps)) l); [by apply (table_same ps)|exact Hp|exact Hv|exact Hk|exact Hf|exact H0]. }
  unfold got. rewrite decide_False by done. by rewrite uwrap_small by lia.
Qed.

(** The state in the middle of the creation: the slot is held, the owner has a reference more,
    and the semaphore is not yet on its list. *)
Definition making s (i q p0 : Z) (v0 : process) (v : semaphore) (h : al_state) : sems :=
  Sems (with_process p0 (with_ref_count (pr_ref_count v0 + 1) v0)
      (pupd_semlists (XStore (<[sem_proc_node q := zero_elem]> (nodes (ps_semlists (ss_procs s)))) (lists (ps_semlists (ss_procs s))))
        (pupd_heap h (ss_procs s))))
    (<[i := q]> (ss_table s)) (<[slot_lock i := SPIN_LOCKED]> (ss_locks s)) (<[q := v]> (ss_sems s))
    (ss_wcbs s) (ss_cbds s) (with_list (sem_waiters q) (ss_waiters s)) (ss_cbs s)
    (AStore (<[AVL_DATA2NODE q sem_tree_node := zero_anode]> (anodes (ss_tree s))) (atrees (ss_tree s))) (next_sem_gid s + 1).

Lemma is_xlist_new_node (x : xstore) n e l ys :
  n ∉ ys → is_xlist x l ys → is_xlist (XStore (<[n := e]> (nodes x)) (lists x)) l ys.
Proof.
  intros Hn [Hh Hs Hnd Hv]. split; [done| |done|done]. eapply seg_frame; [|exact Hs].
  intros y Hy. apply lookup_insert_ne. by intros ->.
Qed.

(** The end of the creation: the semaphore goes on the list of its owner and everything that
    was taken is given back. *)
Lemma wp_make_end s live l i g key p0 v0 qs q v h (Q : Z → sems → Prop) :
  can_make s live l i g key p0 v0 qs → q ∉ live → sem_ok q →
  (∀ x, is_xlist x (proc_semaphores p0) (map sem_proc_node (qs ++ [q])) → Q (sm_id v) (with_sem s i q v h x)) →
  wp (zoom ss_procs supd_procs (on_proc_locks (spin_lock (proc_lock p0)));; enter_sem q i p0 false (ss_irqs s))
    (with_irqs false (making s i q p0 v0 v h)) Q.
Proof.
  intros [(Hi & [Hlk Htb] & _) _ _ (_ & Hv0 & _ & Hr) _ (Hl & Hqs & Hqlv & Hpl)] Hq Hqok HQ.
  assert (q ∉ qs) as Hqn by auto. apply wp_bind, wp_proc_spin_lock; [exact Hpl|].
  unfold enter_sem, on_semlists. apply wp_bind, wp_zoom, wp_zoom.
  eapply (wp_xlist_add_last _ _ (map sem_proc_node qs)).
  { apply is_xlist_new_node; [by apply sem_proc_node_new|exact Hl]. }
  { by apply sem_proc_node_new. }
  { rewrite sem_proc_node_ok by done. destruct Hqok. unfold valid_ptr, sizeof_semaphore in *. lia. }
  { cbn. rewrite lookup_insert_eq. by eexists. }
  intros x Hx _. apply wp_bind, wp_proc_spin_unlock; [cbn; rewrite lookup_insert_eq; by eexists|].
  apply wp_bind. cbn [when]. apply wp_ret, wp_bind. eapply (wp_load _ _ v); [apply lookup_insert_eq|].
  apply wp_bind, wp_sunlock; [cbn; rewrite lookup_insert_eq; by eexists|]. apply wp_bind, wp_irqs_restore.
  apply wp_bind, wp_zoom. eapply (wp_proc_put_process _ p0 (with_ref_count (pr_ref_count v0 + 1) v0)); [apply lookup_insert_eq|].
  apply wp_ret. change [sem_proc_node q] with (map sem_proc_node [q]) in Hx. rewrite <- map_app in Hx. specialize (HQ x Hx).
  match goal with |- Q _ ?st => assert (st = with_sem s i q v h x) as ->; [|exact HQ] end.
  assert (put_ref (with_ref_count (pr_ref_count v0 + 1) v0) = v0) as E.
  { unfold put_ref. cbn. replace (pr_ref_count v0 + 1 - 1) with (pr_ref_count v0) by lia.
    rewrite uwrap_small by lia. by destruct v0. }
  rewrite E. clear E HQ Hx Hr Hqok Hqs Hqlv Hl. unfold with_sem, making, with_process, with_proc_lock.
  destruct s as [[[[? [] ? ?]] ? ? ? ? ? ? ? ? ? ? ?] ? ? ? ? ? ? ? ? ?]. cbn in *.
  rewrite !insert_insert_eq, (insert_id ps_locks _ SPIN_UNLOCKED), (insert_id ss_locks _ SPIN_UNLOCKED), (insert_id ps_procs _ v0) by done.
  done.
Qed.

Lemma wp_sem_create fill s live l i g key p0 v0 qs maxc initc (Q : Z → sems → Prop) :
  can_make s live l i g key p0 v0 qs → initc ≤ maxc →
  let id := SEM_ID_BUILD i g in
  (∀ q h x, q ∉ live → sem_ok q → al_live h ({[q]} ∪ live) →
     is_xlist x (proc_semaphores p0) (map sem_proc_node (qs ++ [q])) →
     Q id (with_sem s i q (Semaphore id (slot_lock i) p0 NULL maxc initc) h x)) →
  wp (sem_create_ex fill key NULL maxc initc (pr_id v0)) s Q.
Proof.
  intros Hcm Hc id HQ. pose proof Hcm as [(Hi & Hvac & Hpass & Hall) [Hg Hg'] (Ht & Hk & Hf & H0) (Hp & Hv & Hst & Hr) [Hlv Hroom] _].
  unfold sem_create_ex. apply wp_bind, wp_has_no_name, wp_bind, wp_ret. rewrite (proj2 (Z.ltb_ge _ _)) by done. cbn [orb].
  apply wp_bind. unfold alloc_sem_slot. apply wp_alloc_slot_loop; [intros j Hj; apply Hall; exact Hj| |].
  2:{ intros Hno. by destruct (passed_vacant s i (Hno i Hi)). }
  intros k Hk' Hvk Hpass'. assert (k = i) as ->.
  { unfold slot_ok in Hi. destruct (Z.lt_trichotomy k i) as [Hlt|[?|Hlt]]; [|done|]; exfalso.
    - by apply (passed_vacant s k); [apply Hpass; lia|].
    - by apply (passed_vacant s i); [apply Hpass'; lia|]. }
  clear Hpass' Hvk Hk'. rewrite (proj2 (Z.ltb_ge i 0)) by (destruct Hi; lia).
  set (s1 := supd_locks _ s). apply wp_bind. eapply (wp_create_sem_struct s1 live); [exact Hlv|exact Hroom|].
  intros q h Hq Hqok Hh. rewrite (proj2 (Z.eqb_neq q NULL)) by (destruct Hqok; unfold NULL; lia).
  set (x1 := XStore (<[sem_proc_node q := zero_elem]> (nodes (ps_semlists (ss_procs s)))) (lists (ps_semlists (ss_procs s)))).
  apply wp_bind, wp_zoom.
  eapply (wp_get_owner (ss_procs s) l key p0 v0 x1 h); [exact Ht|exact Hp|exact Hv|exact Hk|exact Hf|exact H0|exact Hst|exact Hr|].
  assert (p0 ≠ NULL) as Hp0 by (intros ->; congruence). rewrite (proj2 (Z.eqb_neq p0 NULL)) by done.
  apply wp_bind, wp_get_next_gid; [cbn; lia|]. change (next_sem_gid (supd_procs _ _)) with (next_sem_gid s). rewrite Hg. fold id.
  apply wp_bind. eapply (wp_load _ _ zero_sem); [apply lookup_insert_eq|].
  apply wp_bind, wp_modify, wp_bind. unfold st_slot, ld_slot. apply wp_bind. eapply wp_load; [apply Hvac|]. apply wp_modify.
  set (v := Semaphore id (slot_lock i) p0 NULL maxc initc).
  match goal with |- wp _ ?st _ => assert (st = making s i q p0 v0 v h) as -> end.
  { unfold making, s1, x1, v. cbn. by rewrite insert_insert_eq, Hg. }
  apply wp_bind, wp_irqs_save, wp_bind. cbn [when]. apply wp_ret.
  exact (wp_make_end s live l i g key p0 v0 qs q v h Q Hcm Hq Hqok (λ x, HQ q h x Hq Hqok Hh)).
Qed.

(** ** The owner of a semaphore *)

Lemma wp_sem_get_owner s id p v pr (Q : Z → sems → Prop) :
  sem_at s id p v → slot_free s id → ps_procs (ss_procs s) !! sm_proc v = Some pr → Q (pr_id pr) s → wp (sem_get_owner id) s Q.
Proof.
  intros Ha Hf Hpr HQ. pose proof Ha as [_ Hp Hv _ Hlock]. unfold sem_get_owner. apply wp_bind, wp_irqs_save, wp_bind.
  eapply wp_get_sem; [by apply sem_at_irqs|exact Hf|]. rewrite (proj2 (Z.eqb_neq p NULL)) by done.
  apply wp_bind. eapply wp_load; [exact Hv|]. apply wp_bind, wp_zoom. eapply wp_ld_proc; [exact Hpr|].
  exact (wp_end_unlock s id p v (pr_id pr) Q Ha Hf HQ).
Qed.

Lemma created_id i g : slot_ok i → 0 < g < 2 ^ 19 →
  SEM_IDX (SEM_ID_BUILD i g) = i ∧ SEM_GID (SEM_ID_BUILD i g) = g ∧ SEM_ID_BUILD i g ≠ INVALID_SEMID.
Proof.
  intros Hi Hg. destruct (sem_id_parts i g Hi) as [H1 H2]; [lia|]. split_and!; [done|done|].
  rewrite sem_id_build by (done || lia). destruct Hi. unfold INVALID_SEMID. lia.
Qed.

(** What a creation leaves: the semaphore [v] at [q]. *)
Record made s (live : gset Z) (i id p0 q : Z) (v : semaphore) (qs : list Z) s' : Prop := {
  md_sem : sem_at s' id q v ∧ slot_free s' id;
  md_waiters : is_xlist (ss_waiters s') (sem_waiters q) [];
  md_owned : owned s' q v (map sem_proc_node qs) [] ({[q]} ∪ live);
  md_heap : al_live (ps_heap (ss_procs s')) ({[q]} ∪ live) ∧ q ∉ live;
  md_others : ss_sems s' = <[q := v]> (ss_sems s) ∧ ss_table s' = <[i := q]> (ss_table s) ∧ ss_locks s' = ss_locks s;
  md_rest : ps_procs (ss_procs s') = ps_procs (ss_procs s) ∧ ss_sched s' = ss_sched s ∧ ss_wcbs s' = ss_wcbs s ∧
    next_sem_gid s' = next_sem_gid s + 1 }.

Lemma with_sem_made s live l i g key p0 v0 qs q maxc initc h x :
  can_make s live l i g key p0 v0 qs → q ∉ live → sem_ok q → al_live h ({[q]} ∪ live) →
  is_xlist x (proc_semaphores p0) (map sem_proc_node (qs ++ [q])) →
  let id := SEM_ID_BUILD i g in let v := Semaphore id (slot_lock i) p0 NULL maxc initc in
  made s live i id p0 q v qs (with_sem s i q v h x).
Proof.
  intros [(Hi & [Hlk _] & _) [_ Hg] _ _ _ (_ & _ & _ & Hpl)] Hq Hqok Hh Hx id v.
  destruct (created_id i g Hi Hg) as (Eidx & _ & _). split.
  - fold id in Eidx. split; [split|]; [| |apply lookup_insert_eq|done| |].
    + rewrite Eidx. apply lookup_insert_eq.
    + destruct Hqok. unfold NULL. lia.
    + by rewrite Eidx.
    + unfold slot_free. by rewrite Eidx.
  - split; [apply lookup_insert_eq|exact I|constructor|constructor].
  - split; [done| |exact Hpl|set_solver +]. rewrite map_app in Hx. exact Hx.
  - by split.
  - done.
  - done.
Qed.

Lemma create_full_run fill s key maxc initc owner :
  (∀ j, slot_ok j → passed s j) → initc ≤ maxc → sem_create_ex fill key NULL maxc initc owner s = Ok (INVALID_SEMID, s).
Proof.
  intros Hall Hc. enough (wp (sem_create_ex fill key NULL maxc initc owner) s (λ r s', r = INVALID_SEMID ∧ s' = s)) as (s' & -> & ->)%wp_run by done.
  unfold sem_create_ex. apply wp_bind, wp_has_no_name, wp_bind, wp_ret. rewrite (proj2 (Z.ltb_ge _ _)) by done. cbn [orb].
  apply wp_bind. unfold alloc_sem_slot. apply wp_alloc_slot_loop.
  - intros j Hj. left. by apply Hall.
  - intros k Hk Hv. destruct (passed_vacant s k (Hall k Hk) Hv).
  - intros _. by apply wp_ret.
Qed.

End create.

(** ** Example

    One process and no semaphores. *)

#[local] Existing Instance example_aspaces.

Definition empty_table : gmap Z Z := gset_to_gmap NULL (list_to_set (seqZ 0 SYS_MAX_SEM_COUNT)).

Definition open_locks : gmap Z Z := gset_to_gmap SPIN_UNLOCKED (list_to_set (map slot_lock (seqZ 0 SYS_MAX_SEM_COUNT))).

Definition no_sems (ps : @procs heap_allocator example_aspaces) : @sems heap_allocator example_aspaces :=
  Sems ps empty_table open_locks ∅ ∅ ∅ (XStore ∅ ∅) (XStore ∅ ∅) (AStore ∅ ∅) 1.

Lemma no_sems_vacant ps i : slot_ok i → vacant (no_sems ps) i.
Proof.
  intros Hi. split; apply lookup_gset_to_gmap_Some; (split; [|done]); apply elem_of_list_to_set.
  - apply list_elem_of_fmap_2, elem_of_seqZ. destruct Hi. lia.
  - apply elem_of_seqZ. destruct Hi. lia.
Qed.

Lemma one_proc_room : heap_room (ps_heap one_proc) sizeof_semaphore.
Proof.
  assert ((match kmalloc sizeof_semaphore (ps_heap one_proc) with Ok _ => true | _ => false end) = true) as E by (vm_compute; reflexivity).
  destruct one_proc_ok as [p [_ (b & _ & [Hh _] & _) _ _ _]].
  destruct (kmalloc sizeof_semaphore (ps_heap one_proc)) as [[a h]| | |] eqn:E1; [|done..].
  eapply room_of_ok; [exact Hh|exact E1].
Qed.

#[local] Opaque one_proc empty_table open_locks.

Lemma one_proc_can_make : ∃ live p v, pr_id v = 1 ∧ can_make (no_sems one_proc) live [p] 0 1 0 p v [].
Proof.
  generalize one_proc, one_proc_ok, one_proc_room. intros s [p [Ht (b & _ & [Hh Hd] & Hv) (_ & Hl & Hlk) Ho [_ Ec]]] Hroom.
  simpl in Ht. set (v := Process _ _ _ _ _ _ _ _ _ _ _ _ _ _) in Hv.
  assert (0 ∉ [p]) as H0 by exact (table_null _ _ Ht).
  exists ({[b]} ∪ ({[p]} ∪ ∅)), p, v. split; [reflexivity|]. split.
  - split; [split; [reflexivity|done]|]. split; [by apply no_sems_vacant|]. split; [intros; lia|].
    intros j Hj. right. by apply no_sems_vacant.
  - split; [reflexivity|done].
  - split; [exact Ht|]. split; [exact H0|]. split.
    + unfold pfree, free_lock. change (sc_cpu (ps_sched (ss_procs (no_sems s)))) with (ps_cpu s). by rewrite Ec.
    + change (ps_procs s !! NULL = None). rewrite Ho; [done|intros <-; set_solver +H0].
  - split; [apply list_elem_of_here|]. split; [exact Hv|]. split; [done|]. change (pr_ref_count v) with 1. lia.
  - split; [exact Hh|exact Hroom].
  - split; [exact Hl|]. split; [constructor|]. split; [by intros q ?%elem_of_nil|exact Hlk].
Qed.

