(* ===== verification/SemExample.v ===== *)
(** * Semaphores at work

    States in which the theorems on semaphores are applied: two threads that wait, a thread
    that calls. *)

From S2P Require Import Spinlock Prelude XList AvlTree CString Heap Alloc Sched SchedSpec SchedProps Timer TimerTick TimerProps Process ProcessSpec ProcessProps Sem SemSpec SemProps SemWait SemRace.
From stdpp Require Import gmap list.
#[local] Open Scope Z_scope.

#[local] Existing Instance example_aspaces.

(** ** The scheduler *)

(** The threads 2000 and 3000 in the state [st], nobody locked; the next state is [nx]. *)
Definition sem_sched (st nx : Z) : sched :=
  upd_threads (<[2000 := with_state st nx (thread_at 2000)]>
    (<[3000 := with_state st nx (thread_at 3000)]> (sc_threads started)))
    (upd_cpu (Cpu (list_to_map [(rq_lock, 0); (2012, 0); (3012, 0)]) true) started).

(** Two threads in another state, when nobody is ready. *)
Lemma sched_inv_two s0 th1 th2 t1 t2 st nx :
  sched_inv s0 (λ _, []) → sc_threads s0 !! th1 = Some t1 → sc_threads s0 !! th2 = Some t2 → th1 ≠ th2 →
  sched_inv (upd_threads (<[th1 := with_state st nx t1]> (<[th2 := with_state st nx t2]> (sc_threads s0))) s0) (λ _, []).
Proof.
  intros Hs0 H1 H2 Hne.
  assert (∀ th, th ∉ ready (λ _, [])) as Hr by (by intros th (? & _ & ?%elem_of_nil)%elem_of_ready).
  pose proof (sched_inv_thread s0 _ th2 _ (with_state st nx t2) Hs0 H2 (si_carrots _ _ Hs0 _ _ H2) eq_refl (or_introl (Hr th2))) as Hs1.
  refine (sched_inv_thread _ _ th1 t1 (with_state st nx t1) Hs1 _ (si_carrots _ _ Hs0 _ _ H1) eq_refl (or_introl (Hr th1))).
  simpl. by rewrite lookup_insert_ne.
Qed.

Lemma sem_sched_inv st nx : sched_inv (sem_sched st nx) (λ _, []).
Proof.
  assert (sc_threads started !! 2000 = Some (thread_at 2000)) as H2 by (apply started_thread; vm_compute; reflexivity).
  assert (sc_threads started !! 3000 = Some (thread_at 3000)) as H3 by (apply started_thread; vm_compute; reflexivity).
  unfold sem_sched. revert H2 H3. pose proof started_inv as Hs. revert Hs. generalize (thread_at 2000), (thread_at 3000), started.
  intros t2 t3 s0 Hs H2 H3. apply (sched_inv_two (upd_cpu _ s0)); [by apply sched_inv_cpu'|exact H2|exact H3|done].
Qed.

#[local] Opaque started.

Lemma sem_sched_locks st nx th : th = 2000 ∨ th = 3000 →
  free_lock (sem_sched st nx) (thread_lock th) ∧ free_lock (sem_sched st nx) rq_lock.
Proof. by intros [-> | ->]. Qed.

Lemma sem_sched_thread st nx : st ∈ addable → ∀ th, th = 2000 ∨ th = 3000 → wakeable (sem_sched st nx) th.
Proof.
  intros Hst th Hth. split; [by apply sem_sched_locks|].
  exists (with_state st nx (thread_at th)). split; [|split; [|exact Hst]].
  - by destruct Hth as [-> | ->].
  - destruct Hth as [-> | ->]; by vm_compute.
Qed.

(** ** The semaphore

    In slot 5 with the generation 1, at 8192, of the process 512, with the count [c] of at
    most 5. *)

Definition the_sem (c : Z) : semaphore := Semaphore 8197 (slot_lock 5) 512 NULL 5 c.

Definition sem_procs (sc : sched) (h : heap) : @procs heap_allocator example_aspaces :=
  Procs (TimerState sc h (XStore ∅ ∅) ∅ ∅ (AStore ∅ ∅) 0 0 0 0 []) 0 ∅ (XStore ∅ ∅) (AStore ∅ ∅) ∅ 1 0
    {[ proc_lock 512 := SPIN_UNLOCKED ]} (XStore ∅ ∅) (XStore ∅ ∅)
    (XStore {[ 8228 := ListElem 0 0 ]} {[ proc_semaphores 512 := XListHdr 8228 8228 1 ]}).

Definition sem_world (sc : sched) (h : heap) (c : Z) (wcbs : gmap Z sem_wcb) (ws : xstore) : @sems heap_allocator example_aspaces :=
  Sems (sem_procs sc h) {[ 5 := 8192 ]} {[ slot_lock 5 := SPIN_UNLOCKED ]} {[ 8192 := the_sem c ]} wcbs ∅ ws
    (XStore ∅ {[ term_cbs_list 2000 := XListHdr 0 0 0 ]}) (AStore ∅ ∅) 2.

Lemma world_sem sc h c wcbs ws : sem_at (sem_world sc h c wcbs ws) 8197 8192 (the_sem c) ∧ slot_free (sem_world sc h c wcbs ws) 8197.
Proof. split; [|vm_compute; reflexivity]. split; [reflexivity|done|reflexivity|done|done]. Qed.

Lemma world_ready st nx h c wcbs ws : sched_ready (sem_world (sem_sched st nx) h c wcbs ws) (λ _, []).
Proof. split; [exact (sem_sched_inv st nx)|by apply (sem_sched_locks st nx 2000); left]. Qed.

(** The threads 2000, for 2, and 3000, for 1, wait. *)
Definition two_wcbs : gmap Z sem_wcb :=
  {[ 20000 := Wcb 8192 2000 2 INVALID_TIMEOUTID NO_ERROR; 20100 := Wcb 8192 3000 1 INVALID_TIMEOUTID NO_ERROR ]}.

Definition two_nodes : xstore :=
  XStore {[ 20020 := ListElem NULL 20120; 20120 := ListElem 20020 NULL ]} {[ sem_waiters 8192 := XListHdr 20020 20120 2 ]}.

Definition two_waiting (h : heap) (c : Z) : @sems heap_allocator example_aspaces :=
  sem_world (sem_sched THREAD_STATE_WAITING THREAD_STATE_WAITING) h c two_wcbs two_nodes.

Lemma two_waiting_ok h c : waiting (two_waiting h c) 8192 [20000; 20100].
Proof.
  split.
  - split; [reflexivity|split; [reflexivity|split; [reflexivity|exact I]]|by_decide|].
    repeat constructor; by_decide.
  - repeat constructor; by_decide.
  - intros w [->|[->|[]%elem_of_nil]%elem_of_cons]%elem_of_cons; eexists; (split; [reflexivity|by_decide]).
  - intros w Hw. assert (THREAD_STATE_WAITING ∈ addable) as Hst by by_decide.
    pose proof (sem_sched_thread THREAD_STATE_WAITING THREAD_STATE_WAITING Hst) as H.
    apply elem_of_cons in Hw as [->|Hw]; [exact (H 2000 (or_introl eq_refl))|].
    apply list_elem_of_singleton in Hw as ->. exact (H 3000 (or_intror eq_refl)).
  - by_decide.
Qed.

Lemma two_served h c : served (wcount (two_waiting h c)) [20000; 20100] 1 = [20100].
Proof. reflexivity. Qed.

(** Counting up by one serves the second waiter, the first goes on waiting. *)
Lemma sem_up_correct_witness :
  let s := two_waiting roomy_heap 0 in
  ∃ s', sem_up 8197 1 s = Ok (NO_ERROR, s') ∧ waiting s' 8192 [20000] ∧ ss_sems s' !! 8192 = Some (the_sem 1) ∧
    woken (ss_sched s) [3000] (ss_sched s').
Proof.
  intros s. destruct (world_sem (sem_sched THREAD_STATE_WAITING THREAD_STATE_WAITING) roomy_heap 0 two_wcbs two_nodes) as [Ha Hf].
  assert (0 ≤ 1 < 2 ^ 32) as H1 by lia. assert (0 ≤ sm_count (the_sem 0)) as H2 by done.
  assert (sm_count (the_sem 0) + 1 < 2 ^ 32) as H3 by (cbn; lia).
  pose proof (sem_up_correct s 8197 8192 (the_sem 0) [20000; 20100] (λ _, []) 1 Ha Hf (two_waiting_ok _ _) (world_ready _ _ _ _ _ _) H1 H2 H3) as H.
  cbv zeta in H. rewrite decide_False in H by done. rewrite decide_False in H by (cbn; lia).
  destruct H as [(s' & E & [[Hsem _] Hw Hwk _ _ _]) _]. exists s'. split; [exact E|]. split; [exact Hw|].
  split; [exact (sa_sem _ _ _ _ Hsem)|exact Hwk].
Defined.

(** The count 5 and [2 ^ 32 - 3] more make 2. *)
Lemma sem_up_wraps_witness :
  let s := two_waiting roomy_heap 5 in
  ∃ s' v', sem_up 8197 (2 ^ 32 - 3) s = Ok (NO_ERROR, s') ∧ sem_at s' 8197 8192 v' ∧ sm_count v' = 2.
Proof.
  intros s. destruct (world_sem (sem_sched THREAD_STATE_WAITING THREAD_STATE_WAITING) roomy_heap 5 two_wcbs two_nodes) as [Ha Hf].
  destruct (sem_up_wraps s 8197 8192 (the_sem 5) [20000; 20100] (λ _, []) (2 ^ 32 - 3) Ha Hf (two_waiting_ok _ _) (world_ready _ _ _ _ _ _))
    as (s' & v' & E & Hs & Hc & _); [lia|cbn; lia|cbn; lia|cbn; lia|]. exists s', v'. split; [exact E|]. split; [exact Hs|exact Hc].
Defined.

Lemma sem_timeout_correct_witness :
  let s := two_waiting roomy_heap 0 in
  ∃ s', sem_timeout_callback 9 20100 s = Ok (tt, s') ∧ waiting s' 8192 [20000] ∧ woken (ss_sched s) [3000] (ss_sched s').
Proof.
  intros s. destruct (world_sem (sem_sched THREAD_STATE_WAITING THREAD_STATE_WAITING) roomy_heap 0 two_wcbs two_nodes) as [Ha Hf].
  destruct (sem_timeout_correct s 8197 8192 (the_sem 0) [20000] 20100 [] _ (λ _, []) 9 Ha Hf (two_waiting_ok _ _) eq_refl (world_ready _ _ _ _ _ _))
    as (s' & E & [_ Hw Hwk _ _]). exists s'. split; [exact E|]. split; [exact Hw|exact Hwk].
Defined.

Lemma sem_timeout_after_up_witness :
  ∃ s', sem_up 8197 1 (two_waiting roomy_heap 0) = Ok (NO_ERROR, s') ∧ sem_timeout_callback 9 20100 s' = Panic.
Proof.
  destruct (world_sem (sem_sched THREAD_STATE_WAITING THREAD_STATE_WAITING) roomy_heap 0 two_wcbs two_nodes) as [Ha Hf].
  refine (sem_timeout_after_up (two_waiting roomy_heap 0) 8197 8192 (the_sem 0) [20000; 20100] (λ _, []) 1 20100 9 Ha Hf
    (two_waiting_ok _ _) (world_ready _ _ _ _ _ _) _ _ _ _ _); [lia|cbn; lia|cbn; lia|cbn; lia|].
  rewrite two_served. by apply list_elem_of_singleton.
Defined.

(** ** Counting down *)

(** The thread 2000 runs and calls with a request for 2; nobody waits. *)
Definition no_waiters : xstore := XStore ∅ {[ sem_waiters 8192 := XListHdr 0 0 0 ]}.

Definition calling (c : Z) : @sems heap_allocator example_aspaces :=
  sem_world (sem_sched THREAD_STATE_RUNNING THREAD_STATE_RUNNING) roomy_heap c ∅ no_waiters.

Definition example_frame : frame := Frame 20200 20300 20400 (ListElem 7 7) example_junk [].

Lemma calling_caller c : caller (calling c) 2000 ∧ fresh_frame (calling c) example_frame.
Proof. split; [by split; vm_compute|by split_and!]. Qed.

Lemma sem_down_now_witness :
  sem_down_ex [] example_frame 8197 2 0 SEMF_NOFLAGS (calling 3) =
    Ok (NO_ERROR, supd_sems {[ 8192 := the_sem 1 ]} (calling 3)) ∧
  sem_down_ex [] example_frame 8197 2 0 SEMF_TRY (calling 1) = Ok (ERR_SEM_TRY_FAILED, calling 1) ∧
  sem_down_ex [] example_frame 8197 6 0 SEMF_NOFLAGS (calling 3) = Ok (ERR_SEM_INVALID_VALUE, calling 3).
Proof.
  assert (∀ c, sem_at (calling c) 8197 8192 (the_sem c) ∧ slot_free (calling c) 8197) as Hc by (intros; apply world_sem).
  split_and!.
  - destruct (Hc 3) as [Ha Hf], (calling_caller 3) as [Hcl Hfr].
    destruct (sem_down_now (calling 3) 8197 8192 (the_sem 3) 2000 2 0 SEMF_NOFLAGS [] example_frame Ha Hf Hcl Hfr) as (_ & _ & H);
      [lia|cbn; lia|]. destruct H as [H _]; [cbn; lia|by right|]. apply H. cbn. lia.
  - destruct (Hc 1) as [Ha Hf], (calling_caller 1) as [Hcl Hfr].
    destruct (sem_down_now (calling 1) 8197 8192 (the_sem 1) 2000 2 0 SEMF_TRY [] example_frame Ha Hf Hcl Hfr) as (_ & _ & H);
      [lia|cbn; lia|]. destruct H as [_ H]; [cbn; lia|by right|]. apply H; [cbn; lia|done].
  - destruct (Hc 3) as [Ha Hf], (calling_caller 3) as [Hcl Hfr].
    destruct (sem_down_now (calling 3) 8197 8192 (the_sem 3) 2000 6 0 SEMF_NOFLAGS [] example_frame Ha Hf Hcl Hfr) as (H & _);
      [lia|cbn; lia|]. apply H. cbn. lia.
Defined.

(** ** Waiting *)

(** The others: the thread is taken off the processor, the semaphore is counted up by 2, and
    the thread runs again. *)
Definition others : M (@sems heap_allocator example_aspaces) unit :=
  zoom ss_sched supd_sched (st_thread 2000 (with_state THREAD_STATE_WAITING THREAD_STATE_WAITING));;
  sem_up 8197 2;; mret tt.

Definition running : thread := with_state THREAD_STATE_RUNNING THREAD_STATE_RUNNING (thread_at 2000).

Lemma empty_xlist x l : lists x !! l = Some (XListHdr NULL NULL 0) → is_xlist x l [].
Proof. intros H. split; [exact H|exact I|constructor|constructor]. Qed.

Lemma calling_can_wait : can_wait (calling 1) 8197 8192 (the_sem 1) 2000 running [] [] example_frame.
Proof.
  split.
  - apply world_sem.
  - apply calling_caller.
  - split; [reflexivity|by right].
  - apply empty_xlist. reflexivity.
  - split; [apply empty_xlist; reflexivity|apply Forall_nil_2].
  - split; [by_decide|]. split; [by_decide|]. split; apply not_elem_of_nil.
Qed.

(** The state when the thread has left the processor. *)
Definition asleep (s : @sems heap_allocator example_aspaces) :=
  supd_sched (upd_threads (<[2000 := with_state THREAD_STATE_WAITING THREAD_STATE_WAITING running]>
    (sc_threads (ss_sched s))) (ss_sched s)) s.

Section others.
Context (s1 : @sems heap_allocator example_aspaces) (Hb : blocked (calling 1) 8192 2000 2 running [] [] example_frame s1).

Lemma asleep_thread : sc_threads (ss_sched (asleep s1)) !! 2000 = Some (with_state THREAD_STATE_WAITING THREAD_STATE_WAITING running).
Proof. apply lookup_insert_eq. Qed.

Lemma asleep_sem : sem_at (asleep s1) 8197 8192 (the_sem 1) ∧ slot_free (asleep s1) 8197.
Proof.
  destruct Hb as [(x & xc & ->) _ _].
  destruct (world_sem (sem_sched THREAD_STATE_RUNNING THREAD_STATE_RUNNING) roomy_heap 1 ∅ no_waiters) as [[] Hf].
  split; [by split|exact Hf].
Qed.

Lemma asleep_ready : sched_ready (asleep s1) (λ _, []).
Proof.
  destruct Hb as [(x & xc & ->) _ _].
  destruct (sem_sched_locks THREAD_STATE_RUNNING THREAD_STATE_RUNNING 2000 (or_introl eq_refl)) as [_ Hf]. split; [|exact Hf].
  assert (∀ th, th ∉ ready (λ _, [])) as Hr by (by intros th (? & _ & ?%elem_of_nil)%elem_of_ready).
  pose proof (sem_sched_inv THREAD_STATE_RUNNING THREAD_STATE_RUNNING) as Hs0.
  assert (sc_threads (sem_sched THREAD_STATE_RUNNING THREAD_STATE_RUNNING) !! 2000 = Some running) as H2 by reflexivity.
  pose proof (sched_inv_thread _ _ 2000 running (with_state THREAD_STATE_RUNNING THREAD_STATE_WAITING running)
    Hs0 H2 (si_carrots _ _ Hs0 _ _ H2) eq_refl (or_introl (Hr 2000))) as Hs1.
  exact (sched_inv_thread _ _ 2000 _ (with_state THREAD_STATE_WAITING THREAD_STATE_WAITING running)
    Hs1 (lookup_insert_eq _ _ _) (si_carrots _ _ Hs0 _ _ H2) eq_refl (or_introl (Hr 2000))).
Qed.

Lemma asleep_waiting : waiting (asleep s1) 8192 [20200].
Proof.
  pose proof Hb as [(x & xc & E1) [Hw _] _]. split; [exact Hw|repeat constructor; by_decide| | |apply NoDup_singleton].
  - intros w ->%list_elem_of_singleton. exists (Wcb 8192 2000 2 INVALID_TIMEOUTID NO_ERROR). split; [by rewrite E1|by_decide].
  - intros w ->%list_elem_of_singleton. assert (wthread (asleep s1) 20200 = 2000) as -> by by rewrite E1.
    split; [by rewrite E1|]. eexists. split; [apply asleep_thread|]. split; [by vm_compute|by_decide].
Qed.

Lemma others_run : ∃ s2, others s1 = Ok (tt, s2) ∧ resumed s2 8197 8192 (the_sem 3) 2000 2 NO_ERROR [] [] example_frame.
Proof.
  apply wp_run. enough (wp others s1 (λ _ s2, resumed s2 8197 8192 (the_sem 3) 2000 2 NO_ERROR [] [] example_frame)) as ([] & s2 & E & H)%wp_ok
    by (by apply (wp_of_ok _ _ _ _ _ E)).
  unfold others. apply wp_bind, wp_zoom.
  eapply (wp_st_thread _ _ (with_state THREAD_STATE_RUNNING THREAD_STATE_WAITING running)).
  { pose proof Hb as [(x & xc & ->) _ _]. apply lookup_insert_eq. }
  change (supd_sched _ s1) with (asleep s1).
  destruct asleep_sem as [Ha Hf]. apply wp_bind. eapply wp_sem_up; [exact Ha|exact Hf|exact asleep_waiting|exact asleep_ready|done|by_decide|].
  intros s2 [Hsem _ Hwk _ _ (x2 & sc2 & E2 & _)]. apply wp_ret.
  pose proof Hb as [(x & xc & E1) _ [Hc _]]. split.
  - destruct (wk_state _ _ _ Hwk) as (x3 & m & c & E3). unfold caller. rewrite E3, E1. by split.
  - by rewrite E2, E1.
  - by rewrite E2, E1.
  - rewrite E2. exact Hc.
  - intros _. exact Hsem.
Qed.

Lemma others_wake : ∃ s2 err v2 cs1 cs2, others s1 = Ok (tt, s2) ∧ resumed s2 8197 8192 v2 2000 2 err cs1 cs2 example_frame ∧
  (err = NO_ERROR → 2 ≤ sm_count v2 < 2 ^ 32).
Proof.
  destruct others_run as (s2 & E & H). exists s2, NO_ERROR, (the_sem 3), [], [].
  split; [exact E|]. split; [exact H|]. intros _. by_decide.
Qed.
End others.


(** ** Deletion *)

(** The heap with the block of the semaphore taken. *)
Definition sem_heap : heap := outcome (kmalloc sizeof_semaphore) roomy_heap.

Lemma sem_heap_live : heap_live sem_heap {[ 8192 ]}.
Proof.
  assert ((match kmalloc sizeof_semaphore roomy_heap with Ok (a, _) => a =? 8192 | _ => false end) = true) as E1 by (vm_compute; reflexivity).
  assert (wp (kmalloc sizeof_semaphore) roomy_heap (λ a h, a = 8192 → heap_live h {[ 8192 ]})) as H.
  { assert (kmalloc sizeof_semaphore roomy_heap = Ok (8192, sem_heap)) as E.
    { unfold sem_heap, outcome. destruct (kmalloc sizeof_semaphore roomy_heap) as [[a h]| | |]; [|done..]. apply Z.eqb_eq in E1 as ->. done. }
    eapply (al_alloc_ok (A := heap_allocator) (roomy_heap : @al_state heap_allocator) ∅ sizeof_semaphore).
    - exact (proj1 (no_procs_heap 0)).
    - eapply (room_of_ok roomy_heap ∅); [exists ∅; split; [exact roomy_heap_ok|reflexivity]|exact E].
    - done.
    - intros a h _ _ _ Hl ->. rewrite <- (union_empty_r_L {[ 8192 ]}). exact Hl. }
  unfold wp in H. unfold sem_heap, outcome. destruct (kmalloc sizeof_semaphore roomy_heap) as [[a h]| | |]; [|done..].
  apply H. by apply Z.eqb_eq.
Qed.

#[local] Opaque roomy_heap sem_heap.

(** The two threads are woken, in their order, and the identifier is dead. *)
Lemma sem_delete_correct_witness :
  let s := two_waiting sem_heap 0 in
  ∃ s', sem_delete 4 8197 s = Ok (NO_ERROR, s') ∧ woken (ss_sched s) [2000; 3000] (ss_sched s') ∧
    wc_err <$> ss_wcbs s' !! 20000 = Some ERR_SEM_DELETED ∧ dead_id s' 8197.
Proof.
  intros s. destruct (world_sem (sem_sched THREAD_STATE_WAITING THREAD_STATE_WAITING) sem_heap 0 two_wcbs two_nodes) as [Ha Hf].
  assert (owned s 8192 (the_sem 0) [] [] {[ 8192 ]}) as Ho.
  { split; [reflexivity| |reflexivity|by apply elem_of_singleton].
    split; [reflexivity|split; [reflexivity|exact I]|apply NoDup_singleton|repeat constructor; by_decide]. }
  destruct (sem_delete_correct (L := heap_laws) s 8197 8192 (the_sem 0) [20000; 20100] [] [] (λ _, []) {[ 8192 ]} 4 Ha Hf (two_waiting_ok _ _)
    (world_ready _ _ _ _ _ _) Ho sem_heap_live) as (s' & E & Hd & _ & Hw & Hdead).
  exists s'. split; [exact E|]. split; [exact (de_woken _ _ _ _ _ _ _ _ _ Hd)|]. split; [|exact Hdead].
  rewrite Hw, decide_True by apply list_elem_of_here. reflexivity.
Defined.
