(* ===== verification/MutexSem.v ===== *)
(** * Mutexes on the semaphores of the kernel

    The mutexes of Mutex stand on an interface; here it is the semaphores of Sem. A free mutex
    is locked and unlocked, and keeps everybody else out in between; a recursive mutex counts
    the locks of its holder. *)

From S2P Require Import Spinlock Prelude XList AvlTree CString Alloc Sched SchedSpec Timer Process ProcessSpec Mutex Sem SemSpec SemProps.
From stdpp Require Import gmap list.
#[local] Open Scope Z_scope.

Section mutex.
Context {A : Allocator} {V : Aspaces}.

(** What the calls have on their stacks: the contents of fresh memory, the addresses of the
    lookup key and of the local node of a removal, the control blocks of a wait; [yields]: the
    others during a wait; [tid]: the identifiers of the threads. *)
Context (fill : Z → Z) (key tmp : Z) (yields : list (M Sem.sems unit)) (f : frame) (tid : Z → Z).

#[local] Instance kernel_sems : Semaphores := {|
  Mutex.sems := Sem.sems;
  Mutex.sem_create name max_count init_count := Sem.sem_create fill key name max_count init_count;
  Mutex.sem_delete := Sem.sem_delete tmp;
  Mutex.sem_down_ex := Sem.sem_down_ex yields f;
  Mutex.sem_down := Sem.sem_down yields f;
  Mutex.sem_up := Sem.sem_up;
  current_thread_id s := tid (current_thread (ss_sched s)) |}.

(** The semaphores of a state of the mutexes. *)
Definition msems (s : mutexes) : Sem.sems := mt_sems s.

(** ** The semaphore of a mutex *)

(** The semaphore at [p], with [v] in it, of count one at most and without waiters. *)
Record binary (s : Sem.sems) (id p : Z) (v : semaphore) : Prop := {
  bi_sem : sem_at s id p v ∧ slot_free s id;
  bi_waiters : is_xlist (ss_waiters s) (sem_waiters p) [];
  bi_max : sm_max_count v = 1;
  bi_id : id ≠ 0 }.

(** The state with the count [c]. *)
Definition counted (p c : Z) (v : semaphore) (s : Sem.sems) : Sem.sems := supd_sems (<[p := with_count c v]> (ss_sems s)) s.

Lemma binary_count s id p v c : binary s id p v → binary (counted p c v s) id p (with_count c v).
Proof. intros [[Ha Hf] Hw Hm Hid]. split; [split; [by apply sem_at_count|exact Hf]|exact Hw|exact Hm|exact Hid]. Qed.

Lemma counted_back s id p v c : binary s id p v → counted p (sm_count v) (with_count c v) (counted p c v s) = s.
Proof.
  intros [[Ha _] _ _ _]. unfold counted. cbn. rewrite insert_insert_eq.
  change (with_count (sm_count v) (with_count c v)) with (with_count (sm_count v) v).
  assert (with_count (sm_count v) v = v) as -> by by destruct v. rewrite insert_id by apply Ha. by destruct s.
Qed.

(** A thread [th] that calls, with room for its control blocks. *)
Definition calls (s : Sem.sems) (th : Z) : Prop := caller s th ∧ fresh_frame s f.

Lemma binary_down s id p v th fl :
  binary s id p v → sm_count v = 1 → calls s th → (fl = SEMF_NOFLAGS ∨ fl = Sem.SEMF_TRY) →
  Sem.sem_down_ex yields f id 1 0 fl s = Ok (NO_ERROR, counted p 0 v s).
Proof.
  intros [[Ha Hf] _ Hm _] Hv [Hc Hfr] Hfl.
  rewrite (down_granted_run s id p v th) by (done || (rewrite ?Hv, ?Hm; lia) || (by destruct Hfl as [-> | ->]; right)).
  by rewrite Hv.
Qed.

Lemma binary_try s id p v th :
  binary s id p v → sm_count v = 0 → calls s th → Sem.sem_down_ex yields f id 1 0 Sem.SEMF_TRY s = Ok (Sem.ERR_SEM_TRY_FAILED, s).
Proof.
  intros [[Ha Hf] _ Hm _] Hv [Hc Hfr]. apply (down_try_run s id p v th); try done; [lia|lia|by right].
Qed.

Lemma binary_up s id p v : binary s id p v → sm_count v = 0 → Sem.sem_up id 1 s = Ok (NO_ERROR, counted p 1 v s).
Proof. intros [[Ha Hf] Hw Hm _] Hv. rewrite (up_alone_run s id p v 1) by (done || lia). by rewrite Hv. Qed.

(** ** A mutex *)

(** The state with the mutex at [m] held by the thread [th]. *)
Definition held_by (m id p th : Z) (v : semaphore) (s : mutexes) : mutexes :=
  Mutexes (counted p 0 v (msems s)) (<[m := Mtx (tid th) id]> (mt_mutexes s)) (mt_rmutexes s).

(** Another thread runs. *)
Definition now_runs (th : Z) (s : mutexes) : mutexes :=
  Mutexes (supd_sched (upd_current th (ss_sched (msems s))) (msems s)) (mt_mutexes s) (mt_rmutexes s).

(** A mutex nobody holds, in a state where the thread [th] calls. *)
Record free_mutex (m id p th : Z) (v : semaphore) (s : mutexes) : Prop := {
  fm_mutex : mt_mutexes s !! m = Some (Mtx INVALID_THREADID id);
  fm_sem : binary (msems s) id p v ∧ sm_count v = 1;
  fm_calls : calls (msems s) th }.

Lemma step_bind {S B C} (n : M S B) (g : B → M S C) (x : S) r y : n x = Ok (r, y) → (n ≫= g) x = g r y.
Proof. unfold mbind, M_bind. by intros ->. Qed.

Lemma on_sems_ok {B} (n : M Sem.sems B) (s : mutexes) r x :
  n (msems s) = Ok (r, x) → zoom mt_sems upd_sems n s = Ok (r, Mutexes x (mt_mutexes s) (mt_rmutexes s)).
Proof. unfold zoom. intros E. change (mt_sems s) with (msems s). by rewrite E. Qed.

(** A step of a routine of the mutexes. *)
Ltac step H := rewrite (step_bind _ _ _ _ _ H).

Lemma ld_mutex_ok m mt (s : mutexes) : mt_mutexes s !! m = Some mt → ld_mutex m s = Ok (mt, s).
Proof. unfold ld_mutex, load. by intros ->. Qed.

Lemma st_mutex_ok m v mt (s : mutexes) :
  mt_mutexes s !! m = Some mt → st_mutex m v s = Ok (tt, Mutexes (msems s) (<[m := v]> (mt_mutexes s)) (mt_rmutexes s)).
Proof. intros E. unfold st_mutex. by step (ld_mutex_ok _ _ _ E). Qed.

Lemma thread_id_ok (s : mutexes) th :
  current_thread (ss_sched (msems s)) = th → thread_get_current_thread_id s = Ok (tid th, s).
Proof. by intros <-. Qed.

Lemma id_valid s id p v : binary s id p v → (id =? Mutex.INVALID_SEMID) = false.
Proof. intros [_ _ _ Hid]. by rewrite (proj2 (Z.eqb_neq _ _)). Qed.

Lemma set_holder_ok m h id th (s : mutexes) :
  mt_mutexes s !! m = Some (Mtx h id) → current_thread (ss_sched (msems s)) = th →
  set_holder m s = Ok (tt, Mutexes (msems s) (<[m := Mtx (tid th) id]> (mt_mutexes s)) (mt_rmutexes s)).
Proof.
  intros E Hth. unfold set_holder. step (ld_mutex_ok _ _ _ E). step (thread_id_ok s th Hth). by rewrite (st_mutex_ok _ _ _ _ E).
Qed.

(** The semaphore of a mutex, through the interface. *)
Lemma on_down_ok (s : mutexes) id p v th :
  binary (msems s) id p v → sm_count v = 1 → calls (msems s) th →
  let s' := Mutexes (counted p 0 v (msems s)) (mt_mutexes s) (mt_rmutexes s) in
  zoom mt_sems upd_sems (Mutex.sem_down id 1) s = Ok (NO_ERROR, s') ∧
  zoom mt_sems upd_sems (Mutex.sem_down_ex id 1 0 Mutex.SEMF_TRY) s = Ok (NO_ERROR, s').
Proof.
  intros Hb Hv Hc. split; apply on_sems_ok.
  - exact (binary_down _ _ _ _ th SEMF_NOFLAGS Hb Hv Hc (or_introl eq_refl)).
  - exact (binary_down _ _ _ _ th Sem.SEMF_TRY Hb Hv Hc (or_intror eq_refl)).
Qed.

Lemma mutexes_eta (s : mutexes) : Mutexes (msems s) (mt_mutexes s) (mt_rmutexes s) = s.
Proof. by destruct s. Qed.

Lemma on_try_ok (s : mutexes) id p v th :
  binary (msems s) id p v → sm_count v = 0 → calls (msems s) th →
  zoom mt_sems upd_sems (Mutex.sem_down_ex id 1 0 Mutex.SEMF_TRY) s = Ok (Mutex.ERR_SEM_TRY_FAILED, s).
Proof.
  intros Hb Hv Hc. pose proof (on_sems_ok _ _ _ _ (binary_try _ _ _ _ th Hb Hv Hc)) as E. rewrite mutexes_eta in E. exact E.
Qed.

Lemma on_up_ok (s : mutexes) id p v :
  binary (msems s) id p v → sm_count v = 0 →
  zoom mt_sems upd_sems (Mutex.sem_up id 1) s = Ok (NO_ERROR, Mutexes (counted p 1 v (msems s)) (mt_mutexes s) (mt_rmutexes s)).
Proof. intros Hb Hv. apply on_sems_ok. exact (binary_up _ _ _ _ Hb Hv). Qed.

(** The first attempt on a free mutex. *)
Lemma mutex_taken m id p th v (s : mutexes) :
  free_mutex m id p th v s →
  mutex_lock m s = Ok (NO_ERROR, held_by m id p th v s) ∧ mutex_trylock m s = Ok (NO_ERROR, held_by m id p th v s).
Proof.
  intros [Hm [Hb Hv] Hc]. pose proof Hc as [[Hth _] _]. destruct (on_down_ok s id p v th Hb Hv Hc) as [E1 E2].
  assert (set_holder m (Mutexes (counted p 0 v (msems s)) (mt_mutexes s) (mt_rmutexes s)) = Ok (tt, held_by m id p th v s)) as E3
    by exact (set_holder_ok m INVALID_THREADID id th (Mutexes (counted p 0 v (msems s)) (mt_mutexes s) (mt_rmutexes s)) Hm Hth).
  unfold mutex_lock, mutex_trylock. step (ld_mutex_ok _ _ _ Hm). step (ld_mutex_ok _ _ _ Hm). cbn [mt_sem].
  rewrite (id_valid _ _ _ _ Hb). cbn [negb]. unfold mbind, M_bind. rewrite E1, E2. cbn. rewrite E3. done.
Qed.

(** Nobody gets a mutex that is held. *)
Lemma mutex_kept m h id p th v (s : mutexes) :
  mt_mutexes s !! m = Some (Mtx h id) → binary (msems s) id p v → sm_count v = 0 → calls (msems s) th →
  mutex_trylock m s = Ok (ERR_MTX_TRY_FAILED, s) ∧ (h ≠ tid th → mutex_unlock m s = Ok (ERR_MTX_NOT_AN_OWNER, s)).
Proof.
  intros Hm Hb Hv Hc. pose proof Hc as [[Hth _] _]. split.
  - unfold mutex_trylock. step (ld_mutex_ok _ _ _ Hm). cbn [mt_sem]. rewrite (id_valid _ _ _ _ Hb). cbn [negb].
    unfold mbind, M_bind. by rewrite (on_try_ok s id p v th Hb Hv Hc).
  - intros Hh. unfold mutex_unlock. step (ld_mutex_ok _ _ _ Hm). cbn [mt_sem mt_holder].
    rewrite (id_valid _ _ _ _ Hb). step (thread_id_ok s th Hth). by rewrite (proj2 (Z.eqb_neq _ _)).
Qed.

Lemma mutex_given_back m id p th v (s : mutexes) :
  mt_mutexes s !! m = Some (Mtx (tid th) id) → binary (msems s) id p v → sm_count v = 0 → current_thread (ss_sched (msems s)) = th →
  mutex_unlock m s =
    Ok (NO_ERROR, Mutexes (counted p 1 v (msems s)) (<[m := Mtx INVALID_THREADID id]> (mt_mutexes s)) (mt_rmutexes s)).
Proof.
  intros Hm Hb Hv Hth. unfold mutex_unlock. step (ld_mutex_ok _ _ _ Hm). cbn [mt_sem mt_holder].
  rewrite (id_valid _ _ _ _ Hb). step (thread_id_ok s th Hth). rewrite Z.eqb_refl. cbn [negb].
  step (st_mutex_ok m (Mtx INVALID_THREADID id) _ s Hm).
  by step (on_up_ok (Mutexes (msems s) (<[m := Mtx INVALID_THREADID id]> (mt_mutexes s)) (mt_rmutexes s)) id p v Hb Hv).
Qed.

(** ** A recursive mutex *)

(** The state with the recursive mutex at [m] held [k] times by the thread [th]. *)
Definition rheld_by (m id p th : Z) (v : semaphore) (k : Z) (s : mutexes) : mutexes :=
  Mutexes (counted p 0 v (msems s)) (mt_mutexes s) (<[m := RMtx (tid th) id k]> (mt_rmutexes s)).

Record free_rmutex (m id p th : Z) (v : semaphore) (s : mutexes) : Prop := {
  fr_mutex : mt_rmutexes s !! m = Some (RMtx INVALID_THREADID id 0);
  fr_sem : binary (msems s) id p v ∧ sm_count v = 1;
  fr_calls : calls (msems s) th }.

Lemma ld_rmutex_ok m mt (s : mutexes) : mt_rmutexes s !! m = Some mt → ld_rmutex m s = Ok (mt, s).
Proof. unfold ld_rmutex, load. by intros ->. Qed.

Lemma st_rmutex_ok m v mt (s : mutexes) :
  mt_rmutexes s !! m = Some mt → st_rmutex m v s = Ok (tt, Mutexes (msems s) (mt_mutexes s) (<[m := v]> (mt_rmutexes s))).
Proof. intros E. unfold st_rmutex. by step (ld_rmutex_ok _ _ _ E). Qed.

Lemma deepen_ok m h id k (s : mutexes) :
  mt_rmutexes s !! m = Some (RMtx h id k) →
  deepen m s = Ok (NO_ERROR, Mutexes (msems s) (mt_mutexes s) (<[m := RMtx h id (u32 (k + 1))]> (mt_rmutexes s))).
Proof. intros E. unfold deepen. step (ld_rmutex_ok _ _ _ E). by step (st_rmutex_ok m (RMtx h id (u32 (k + 1))) _ s E). Qed.

Lemma take_deepen_ok m h id k i (s : mutexes) :
  mt_rmutexes s !! m = Some (RMtx h id k) →
  (take_rmutex m i;; deepen m) s = Ok (NO_ERROR, Mutexes (msems s) (mt_mutexes s) (<[m := RMtx i id 1]> (mt_rmutexes s))).
Proof.
  intros E. assert (take_rmutex m i s = Ok (tt, Mutexes (msems s) (mt_mutexes s) (<[m := RMtx i id 0]> (mt_rmutexes s)))) as E1.
  { unfold take_rmutex. step (ld_rmutex_ok _ _ _ E). by apply (st_rmutex_ok m (RMtx i id 0) _ s E). }
  step E1. rewrite (deepen_ok m i id 0) by apply lookup_insert_eq. cbn [mt_rmutexes mt_mutexes]. by rewrite insert_insert_eq.
Qed.

Lemma rmutex_taken m id p th v (s : mutexes) :
  free_rmutex m id p th v s →
  rmutex_lock m s = Ok (NO_ERROR, rheld_by m id p th v 1 s) ∧ rmutex_trylock m s = Ok (NO_ERROR, rheld_by m id p th v 1 s).
Proof.
  intros [Hm [Hb Hv] Hc]. pose proof Hc as [[Hth _] _]. destruct (on_down_ok s id p v th Hb Hv Hc) as [_ E2].
  set (s1 := @Mutexes kernel_sems (counted p 0 v (msems s)) (mt_mutexes s) (mt_rmutexes s)) in E2.
  assert (thread_get_current_thread_id s1 = Ok (tid th, s1)) as E3 by exact (thread_id_ok s1 th Hth).
  split; unfold rmutex_lock, rmutex_trylock; step (ld_rmutex_ok _ _ _ Hm); step E2; step E3;
    exact (take_deepen_ok m _ id 0 (tid th) s1 Hm).
Qed.

(** A recursive mutex that is held: its holder goes deeper, the others fail. *)
Lemma rmutex_deeper m id p th v k (s : mutexes) :
  mt_rmutexes s !! m = Some (RMtx (tid th) id k) → binary (msems s) id p v → sm_count v = 0 → calls (msems s) th →
  let s' : mutexes := Mutexes (msems s) (mt_mutexes s) (<[m := RMtx (tid th) id (u32 (k + 1))]> (mt_rmutexes s)) in
  rmutex_lock m s = Ok (NO_ERROR, s') ∧ rmutex_trylock m s = Ok (NO_ERROR, s').
Proof.
  intros Hm Hb Hv Hc s'. pose proof Hc as [[Hth _] _].
  split; unfold rmutex_lock, rmutex_trylock; step (ld_rmutex_ok _ _ _ Hm); step (on_try_ok s id p v th Hb Hv Hc);
    step (thread_id_ok s th Hth); cbn [rm_holder rm_sem];
    change (negb (Mutex.ERR_SEM_TRY_FAILED =? NO_ERROR) && negb (Mutex.ERR_SEM_TRY_FAILED =? Mutex.ERR_SEM_TRY_FAILED)) with false;
    change (Mutex.ERR_SEM_TRY_FAILED =? NO_ERROR) with false; cbv iota; step (ld_rmutex_ok _ _ _ Hm); cbn [rm_holder];
    rewrite (Z.eqb_refl (tid th)), andb_false_r; by apply deepen_ok.
Qed.

Lemma rmutex_kept m h id p th v k (s : mutexes) :
  mt_rmutexes s !! m = Some (RMtx h id k) → binary (msems s) id p v → sm_count v = 0 → calls (msems s) th → h ≠ tid th →
  rmutex_trylock m s = Ok (ERR_MTX_TRY_FAILED, s) ∧ rmutex_unlock m s = Ok (ERR_MTX_NOT_AN_OWNER, s).
Proof.
  intros Hm Hb Hv Hc Hne. pose proof Hc as [[Hth _] _]. split.
  - unfold rmutex_trylock. step (ld_rmutex_ok _ _ _ Hm). step (on_try_ok s id p v th Hb Hv Hc). step (thread_id_ok s th Hth).
    change (negb (Mutex.ERR_SEM_TRY_FAILED =? NO_ERROR) && negb (Mutex.ERR_SEM_TRY_FAILED =? Mutex.ERR_SEM_TRY_FAILED)) with false.
    change (Mutex.ERR_SEM_TRY_FAILED =? NO_ERROR) with false. cbv iota. step (ld_rmutex_ok _ _ _ Hm). cbn [rm_holder].
    by rewrite (proj2 (Z.eqb_neq h (tid th)) Hne).
  - unfold rmutex_unlock. step (ld_rmutex_ok _ _ _ Hm). cbn [rm_holder rm_sem]. rewrite (id_valid _ _ _ _ Hb).
    step (thread_id_ok s th Hth). by rewrite (proj2 (Z.eqb_neq _ _)).
Qed.

(** A release that is not the last one, and the last one. *)
Lemma rmutex_release m id p th v k (s : mutexes) :
  mt_rmutexes s !! m = Some (RMtx (tid th) id k) → binary (msems s) id p v → sm_count v = 0 →
  current_thread (ss_sched (msems s)) = th → 0 < k < 2 ^ 32 →
  rmutex_unlock m s = Ok (NO_ERROR,
    if decide (k = 1) then Mutexes (counted p 1 v (msems s)) (mt_mutexes s) (<[m := RMtx INVALID_THREADID id 0]> (mt_rmutexes s))
    else Mutexes (msems s) (mt_mutexes s) (<[m := RMtx (tid th) id (k - 1)]> (mt_rmutexes s))).
Proof.
  intros Hm Hb Hv Hth Hk. unfold rmutex_unlock. step (ld_rmutex_ok _ _ _ Hm). cbn [rm_holder rm_sem rm_recurs].
  rewrite (id_valid _ _ _ _ Hb). step (thread_id_ok s th Hth). rewrite Z.eqb_refl. cbn [negb]. cbv zeta.
  rewrite (uwrap_small 32) by lia. step (st_rmutex_ok m (RMtx (tid th) id (k - 1)) _ s Hm).
  set (s1 := @Mutexes kernel_sems (msems s) (mt_mutexes s) (<[m := RMtx (tid th) id (k - 1)]> (mt_rmutexes s))).
  destruct (decide (k = 1)) as [->|Hne]; [|by rewrite (proj2 (Z.eqb_neq _ _)) by lia].
  change (1 - 1 =? 0) with true. cbv iota.
  assert (mt_rmutexes s1 !! m = Some (RMtx (tid th) id (1 - 1))) as Hm1 by apply lookup_insert_eq.
  step (st_rmutex_ok m (RMtx INVALID_THREADID id (1 - 1)) _ s1 Hm1). unfold s1. cbn [mt_sems mt_mutexes mt_rmutexes].
  rewrite insert_insert_eq.
  by step (on_up_ok (@Mutexes kernel_sems (msems s) (mt_mutexes s) (<[m := RMtx INVALID_THREADID id 0]> (mt_rmutexes s))) id p v Hb Hv).
Qed.

(** ** Many times *)

(** [m] done [n] times, with what it returns each time. *)
Fixpoint times (n : nat) (m : M mutexes Z) : M mutexes (list Z) :=
  match n with
  | O => mret []
  | S n => r ← m; rs ← times n m; mret (r :: rs)
  end.

Lemma times_step n m (s s1 s2 : mutexes) r rs :
  m s = Ok (r, s1) → times n m s1 = Ok (rs, s2) → times (S n) m s = Ok (r :: rs, s2).
Proof. intros E1 E2. cbn [times]. step E1. by step E2. Qed.

(** What a state with the recursive mutex held has. *)
Lemma rheld_ok m id p th v k (s : mutexes) :
  free_rmutex m id p th v s → let s1 := rheld_by m id p th v k s in
  mt_rmutexes s1 !! m = Some (RMtx (tid th) id k) ∧ binary (msems s1) id p (with_count 0 v) ∧ calls (msems s1) th.
Proof.
  intros [Hm [Hb Hv] Hc]. split_and!; [apply lookup_insert_eq|by apply binary_count|exact Hc].
Qed.

Lemma rheld_again m id p th v k k' (s : mutexes) :
  let s1 := rheld_by m id p th v k s in
  Mutexes (msems s1) (mt_mutexes s1) (<[m := RMtx (tid th) id k']> (mt_rmutexes s1)) = rheld_by m id p th v k' s.
Proof. unfold rheld_by. cbn [mt_mutexes mt_rmutexes]. by rewrite insert_insert_eq. Qed.

Lemma times_lock m id p th v (s : mutexes) n : ∀ k, free_rmutex m id p th v s → 0 < k → k + Z.of_nat n < 2 ^ 32 →
  times n (rmutex_lock m) (rheld_by m id p th v k s) = Ok (replicate n NO_ERROR, rheld_by m id p th v (k + Z.of_nat n) s).
Proof.
  induction n as [|n IH]; intros k Hf Hk Hn; [by rewrite Z.add_0_r|].
  destruct (rheld_ok m id p th v k s Hf) as (Hm & Hb & Hc).
  destruct (rmutex_deeper m id p th (with_count 0 v) k _ Hm Hb eq_refl Hc) as [E _].
  rewrite (uwrap_small 32) in E by lia. rewrite rheld_again in E. eapply times_step; [exact E|].
  rewrite IH by (done || lia). do 3 f_equal. lia.
Qed.

Lemma times_unlock m id p th v (s : mutexes) n : ∀ k, free_rmutex m id p th v s → k = Z.of_nat (S n) → k < 2 ^ 32 →
  times (S n) (rmutex_unlock m) (rheld_by m id p th v k s) = Ok (replicate (S n) NO_ERROR, s).
Proof.
  induction n as [|n IH]; intros k Hf Hk Hn; destruct (rheld_ok m id p th v k s Hf) as (Hm & Hb & Hc);
    pose proof (rmutex_release m id p th (with_count 0 v) k _ Hm Hb eq_refl (proj1 (proj1 Hc)) ltac:(lia)) as E.
  - rewrite decide_True in E by lia. destruct Hf as [Hm0 [Hb0 Hv0] _].
    assert (Mutexes (counted p 1 (with_count 0 v) (msems (rheld_by m id p th v k s))) (mt_mutexes s)
      (<[m := RMtx INVALID_THREADID id 0]> (<[m := RMtx (tid th) id k]> (mt_rmutexes s))) = s) as Es.
    { rewrite insert_insert_eq, (insert_id (mt_rmutexes s)) by exact Hm0.
      transitivity (Mutexes (msems s) (mt_mutexes s) (mt_rmutexes s)); [|apply mutexes_eta]. f_equal.
      rewrite <- Hv0. by eapply counted_back. }
    eapply times_step; [rewrite E; cbn [mt_mutexes mt_rmutexes rheld_by]; by rewrite Es|done].
  - rewrite decide_False in E by lia. rewrite rheld_again in E. eapply times_step; [exact E|]. apply IH; [done|lia|lia].
Qed.

(** C17: the mutex as a lock. A thread that calls takes a free mutex, with [mutex_lock] as with
    [mutex_trylock]: it is the holder, the count of the semaphore is zero, and nothing else is
    changed. As long as it holds the mutex, a further attempt fails, its own and that of any
    other thread that runs meanwhile, and the other cannot release it; all of these change
    nothing. When the holder releases the mutex, the state is again exactly as it was. *)
Theorem mutex_excludes m id p th v (s : mutexes) :
  free_mutex m id p th v s →
  let s1 := held_by m id p th v s in
  mutex_lock m s = Ok (NO_ERROR, s1) ∧ mutex_trylock m s = Ok (NO_ERROR, s1) ∧
  mutex_trylock m s1 = Ok (ERR_MTX_TRY_FAILED, s1) ∧
  (∀ th2, free_lock (ss_sched (msems s)) (thread_lock th2) → tid th2 ≠ tid th →
     mutex_trylock m (now_runs th2 s1) = Ok (ERR_MTX_TRY_FAILED, now_runs th2 s1) ∧
     mutex_unlock m (now_runs th2 s1) = Ok (ERR_MTX_NOT_AN_OWNER, now_runs th2 s1)) ∧
  mutex_unlock m s1 = Ok (NO_ERROR, s).
Proof.
  intros Hfree s1. destruct (mutex_taken _ _ _ _ _ _ Hfree) as [E1 E2]. destruct Hfree as [Hm [Hb Hv] [[Hth Hlk] Hfr]].
  assert (mt_mutexes s1 !! m = Some (Mtx (tid th) id)) as Hm1 by apply lookup_insert_eq.
  assert (binary (msems s1) id p (with_count 0 v)) as Hb1 by by apply binary_count.
  split_and!; [exact E1|exact E2| | |].
  - by apply (mutex_kept m (tid th) id p th (with_count 0 v) s1).
  - intros th2 Hlk2 Hne. destruct (mutex_kept m (tid th) id p th2 (with_count 0 v) (now_runs th2 s1)) as [H1 H2]; [exact Hm1| |reflexivity| |].
    + destruct Hb1 as [[[] Hf] Hw Hmx Hi]. split; [split; [by split|exact Hf]|exact Hw|exact Hmx|exact Hi].
    + split; [split; [done|exact Hlk2]|exact Hfr].
    + split; [exact H1|]. by apply H2.
  - rewrite (mutex_given_back m id p th (with_count 0 v) s1 Hm1 Hb1 eq_refl Hth). f_equal. f_equal.
    unfold s1, held_by. cbn [mt_mutexes mt_rmutexes]. rewrite insert_insert_eq, (insert_id (mt_mutexes s) m (Mtx INVALID_THREADID id)) by exact Hm.
    transitivity (Mutexes (msems s) (mt_mutexes s) (mt_rmutexes s)); [|apply mutexes_eta]. f_equal. rewrite <- Hv. by eapply counted_back.
Qed.

(** The recursive mutex counts. A thread that finds a recursive mutex free can lock it any
    number [n] of times, and has to release it as often: after the last release the state is
    exactly as it was before the first lock. As long as one lock is left, a thread with another
    identifier neither gets the mutex nor can release it, and changes nothing. *)
Theorem rmutex_counts m id p th v (s : mutexes) n :
  free_rmutex m id p th v s → Z.of_nat (S n) < 2 ^ 32 →
  times (S n) (rmutex_lock m) s = Ok (replicate (S n) NO_ERROR, rheld_by m id p th v (Z.of_nat (S n)) s) ∧
  times (S n) (rmutex_unlock m) (rheld_by m id p th v (Z.of_nat (S n)) s) = Ok (replicate (S n) NO_ERROR, s) ∧
  ∀ k th2, free_lock (ss_sched (msems s)) (thread_lock th2) → tid th2 ≠ tid th →
    let s2 := now_runs th2 (rheld_by m id p th v k s) in
    rmutex_trylock m s2 = Ok (ERR_MTX_TRY_FAILED, s2) ∧ rmutex_unlock m s2 = Ok (ERR_MTX_NOT_AN_OWNER, s2).
Proof.
  intros Hf Hn. split_and!.
  - destruct (rmutex_taken _ _ _ _ _ _ Hf) as [E _]. eapply times_step; [exact E|].
    rewrite times_lock by (done || lia). do 3 f_equal. lia.
  - by apply times_unlock.
  - intros k th2 Hlk Hne s2. destruct (rheld_ok m id p th v k s Hf) as (Hm & Hb & Hc).
    apply (rmutex_kept m (tid th) id p th2 (with_count 0 v) k s2); [exact Hm| |reflexivity| |done].
    + destruct Hb as [[[] Hfr] Hw Hmx Hi]. split; [split; [by split|exact Hfr]|exact Hw|exact Hmx|exact Hi].
    + split; [split; [done|exact Hlk]|apply Hf].
Qed.
End mutex.
