(* ===== verification/MutexExample.v ===== *)
(** * A mutex at work

    A state with a mutex at 100 and a recursive mutex at 200, free, on one semaphore of count
    one, in which the thread 2000 calls; the identifier of a thread is its address. *)

From S2P Require Import Spinlock Prelude XList Alloc Heap Sched SchedSpec SchedProps Timer Process ProcessSpec ProcessProps Mutex Sem SemSpec SemProps SemWait SemRace SemExample MutexSem.
From stdpp Require Import gmap list.
#[local] Open Scope Z_scope.

#[local] Existing Instance example_aspaces.

Definition one_sem : semaphore := Semaphore 8197 (slot_lock 5) 512 NULL 1 1.

Definition mutex_sems : @Sem.sems heap_allocator example_aspaces := supd_sems {[ 8192 := one_sem ]} (calling 1).

Abbreviation example_sems := (kernel_sems (A := heap_allocator) (V := example_aspaces) (λ _, 7) 20500 20600 [] example_frame (λ th, th)).

Definition example_mutexes : @mutexes example_sems :=
  @Mutexes example_sems mutex_sems {[ 100 := Mtx INVALID_THREADID 8197 ]} {[ 200 := RMtx INVALID_THREADID 8197 0 ]}.

Lemma example_binary : binary mutex_sems 8197 8192 one_sem.
Proof.
  split; [split; [split; reflexivity || done|by vm_compute]| |reflexivity|done].
  apply empty_xlist. reflexivity.
Qed.

Lemma example_calls : calls example_frame mutex_sems 2000.
Proof. destruct (calling_caller 1) as [[H1 H2] H3]. split; [split; [exact H1|exact H2]|exact H3]. Qed.

Lemma mutex_excludes_witness :
  mutex_lock 100 example_mutexes = Ok (NO_ERROR, held_by (λ _, 7) 20500 20600 [] example_frame (λ th, th) 100 8197 8192 2000 one_sem example_mutexes) ∧
  mutex_unlock 100 (held_by (λ _, 7) 20500 20600 [] example_frame (λ th, th) 100 8197 8192 2000 one_sem example_mutexes) = Ok (NO_ERROR, example_mutexes).
Proof.
  destruct (mutex_excludes (λ _, 7) 20500 20600 [] example_frame (λ th, th) 100 8197 8192 2000 one_sem example_mutexes)
    as (H1 & _ & _ & _ & H2).
  - split; [reflexivity|split; [exact example_binary|reflexivity]|exact example_calls].
  - split; [exact H1|exact H2].
Defined.

Lemma rmutex_counts_witness :
  ∃ s3, times (λ _, 7) 20500 20600 [] example_frame (λ th, th) 3 (rmutex_lock 200) example_mutexes = Ok ([0; 0; 0], s3) ∧
    times (λ _, 7) 20500 20600 [] example_frame (λ th, th) 3 (rmutex_unlock 200) s3 = Ok ([0; 0; 0], example_mutexes).
Proof.
  destruct (rmutex_counts (λ _, 7) 20500 20600 [] example_frame (λ th, th) 200 8197 8192 2000 one_sem example_mutexes 2)
    as (H1 & H2 & _).
  - split; [reflexivity|split; [exact example_binary|reflexivity]|exact example_calls].
  - lia.
  - eexists. split; [exact H1|exact H2].
Defined.
