(* ===== verification/KLog.v ===== *)
(** * The kernel log and the console: [kernel/klog.c], [kernel/debug.c]

    The log is an array of 128 rows of 64 characters in memory, used in a circle: [top] is the
    row that is written, [cursor] the next column, and [row_counter] counts rows from the
    start. Readers keep a counter of their own and fetch row after row with
    [klog_get_new_row]. The console writes what it fetches to a screen of characters with
    attributes, 25 lines of 80. The state is the static data of the two files, the lock of the
    log, and the memory that holds the rows, the screen, the strings and the buffers. *)

From S2P Require Import Spinlock Prelude CType CString.
From stdpp Require Import gmap list.
#[local] Open Scope Z_scope.

Definition KLOG_N_ROWS : Z := 128.

Definition KLOG_N_COLS : Z := 64.

Definition KLOG_LOGBOOK_SIZE : Z := KLOG_N_ROWS * KLOG_N_COLS.

Definition SCREEN_HEIGHT : Z := 25.

Definition SCREEN_WIDTH : Z := 80.

Definition klog_lock : Z := 5.

(** The variables of klog.c; [logbook] is the address of the array. *)
Record klog := KLogVars {
  kl_cpu : cpu; kl_mem : mem;
  logbook : Z; row_counter : Z; top : Z; bottom : Z; cursor : Z }.

Definition on_cpu {A} (m : M cpu A) : M klog A :=
  zoom kl_cpu (λ c s, KLogVars c (kl_mem s) (logbook s) (row_counter s) (top s) (bottom s) (cursor s)) m.

Definition on_mem {A} (m : M mem A) : M klog A :=
  zoom kl_mem (λ m s, KLogVars (kl_cpu s) m (logbook s) (row_counter s) (top s) (bottom s) (cursor s)) m.

Definition set_row_counter (n : Z) : M klog unit :=
  modify (λ s, KLogVars (kl_cpu s) (kl_mem s) (logbook s) n (top s) (bottom s) (cursor s)).

Definition set_top (i : Z) : M klog unit :=
  modify (λ s, KLogVars (kl_cpu s) (kl_mem s) (logbook s) (row_counter s) i (bottom s) (cursor s)).

Definition set_bottom (i : Z) : M klog unit :=
  modify (λ s, KLogVars (kl_cpu s) (kl_mem s) (logbook s) (row_counter s) (top s) i (cursor s)).

Definition set_cursor (c : Z) : M klog unit :=
  modify (λ s, KLogVars (kl_cpu s) (kl_mem s) (logbook s) (row_counter s) (top s) (bottom s) c).

(** [&logbook[index][0]] *)
Definition row_addr (index : Z) : M klog Z := gets (λ s, logbook s + index * KLOG_N_COLS).

(** ** Locally used routines *)

Definition _clear_row (index : Z) : M klog unit :=
  a ← row_addr index; on_mem (memset a 0 KLOG_N_COLS);; mret tt.

(** The operands are signed: [%] is [Z.rem]. *)
Definition _scroll_rows (delta : Z) : M klog unit :=
  t ← gets top;
  set_top (Z.rem (s32 (t + delta + KLOG_N_ROWS)) KLOG_N_ROWS);;
  t ← gets top;
  set_bottom (Z.rem (s32 (t + 1 + KLOG_N_ROWS)) KLOG_N_ROWS).

(** [rel_index] is unsigned, and so is the whole expression. *)
Definition _get_row_index (rel_index : Z) : M klog Z :=
  t ← gets top; mret (u32 (t - rel_index + KLOG_N_ROWS) mod KLOG_N_ROWS).

(** ** Public routines *)

Definition klog_init : M klog Z :=
  on_cpu (spin_init klog_lock);;
  set_row_counter 0;; set_cursor 0;; set_top 0;; set_bottom 1;;
  a ← gets logbook;
  on_mem (memset a 0 KLOG_LOGBOOK_SIZE);;
  mret 0.

Definition klog_get_cols_num : M klog Z := mret KLOG_N_COLS.

Definition klog_get_rows_num : M klog Z := mret KLOG_N_ROWS.

Definition klog_get_row_counter : M klog Z := gets row_counter.

Definition klog_get_least_row_counter : M klog Z :=
  n ← klog_get_row_counter; mret (u32 (n - KLOG_N_ROWS + 1)).

Definition klog_get_top_index : M klog Z := gets (λ s, u32 (top s)).

Definition klog_get_bottom_index : M klog Z := gets (λ s, u32 (bottom s)).

(** [memcpy(row, &logbook[index][0], KLOG_N_COLS)] *)
Definition copy_row (index row : Z) : M klog unit :=
  a ← row_addr index; on_mem (memcpy row a KLOG_N_COLS);; mret tt.

Definition klog_get_row_abs (index row : Z) : M klog Z :=
  if (row =? NULL) || (KLOG_N_ROWS <=? index) then mret ERR_INVALID_ARGS
  else
    irqs_state ← on_cpu (spin_lock_irqsave klog_lock);
    copy_row index row;;
    on_cpu (spin_unlock_irqrstor klog_lock irqs_state);;
    mret 0.

Definition klog_get_row (index row : Z) : M klog Z :=
  if (row =? NULL) || (KLOG_N_ROWS <=? index) then mret ERR_INVALID_ARGS
  else
    irqs_state ← on_cpu (spin_lock_irqsave klog_lock);
    index ← _get_row_index index;
    copy_row index row;;
    on_cpu (spin_unlock_irqrstor klog_lock irqs_state);;
    mret 0.

Definition klog_get_previous_row (row : Z) : M klog Z := klog_get_row 1 row.

Definition klog_get_current_row (row : Z) : M klog Z := t ← gets top; klog_get_row_abs (u32 t) row.

Definition klog_get_last_row (row : Z) : M klog Z := b ← gets bottom; klog_get_row_abs (u32 b) row.

(** The test that [counter] is not one of the last 128 values, when these may pass the end of
    the 32-bit range. *)
Definition out_of_rows (row_counter least_row_counter counter : Z) : bool :=
  if least_row_counter <? row_counter
  then (counter <? least_row_counter) || (row_counter <? counter)
  else (counter <? least_row_counter) && (row_counter <? counter).

Definition klog_get_new_row (counter row : Z) : M klog Z :=
  if row =? NULL then panic
  else
    irqs_state ← on_cpu (spin_lock_irqsave klog_lock);
    n ← gets row_counter;
    let least_row_counter := u32 (n - KLOG_N_ROWS + 1) in
    let counter := if out_of_rows n least_row_counter counter then least_row_counter else counter in
    index ← _get_row_index (u32 (n - counter));
    copy_row index row;;
    let counter := u32 (counter + 1) in
    let counter := if out_of_rows n least_row_counter counter then n else counter in
    on_cpu (spin_unlock_irqrstor klog_lock irqs_state);;
    mret counter.

(** [_scroll_rows(1); row_counter++; _clear_row(top);] *)
Definition next_row : M klog unit :=
  _scroll_rows 1;;
  n ← gets row_counter; set_row_counter (u32 (n + 1));;
  t ← gets top; _clear_row t.

(** The form feed: a new row with spaces before the cursor. *)
Definition feed_row : M klog unit :=
  next_row;;
  c ← gets cursor;
  when (negb (c =? 0))
    (t ← gets top; a ← row_addr t; on_mem (memset a 32 c);; mret tt).

(** [logbook[top][cursor] = str[i]; if(++cursor >= KLOG_N_COLS) new_row = 1;] *)
Definition put_char (str i : Z) : M klog bool :=
  ch ← on_mem (ldc (str + i));
  t ← gets top; a ← row_addr t;
  c ← gets cursor;
  on_mem (stb (a + c) ch);;
  set_cursor (c + 1);;
  mret (KLOG_N_COLS <=? c + 1).

(** The switch on [str[i]]: whether a new row is needed. *)
Definition put_switch (str i : Z) : M klog bool :=
  ch ← on_mem (ldc (str + i));
  if ch =? 10 then mret true
  else if ch =? 13 then set_cursor 0;; mret false
  else if ch =? 12 then feed_row;; mret false
  else put_char str i.

Fixpoint puts_loop (n : nat) (str i : Z) : M klog unit :=
  match n with
  | O => mret tt
  | S n =>
      new_row ← put_switch str i;
      when new_row (next_row;; set_cursor 0);;
      puts_loop n str (i + 1)
  end.

Definition klog_puts (str : Z) : M klog unit :=
  len ← on_mem (strlen str);
  irqs_state ← on_cpu (spin_lock_irqsave klog_lock);
  puts_loop (Z.to_nat len) str 0;;
  on_cpu (spin_unlock_irqrstor klog_lock irqs_state).

Definition klog_clear : M klog unit :=
  irqs_state ← on_cpu (spin_lock_irqsave klog_lock);
  set_cursor 0;;
  a ← gets logbook;
  on_mem (memset a 0 KLOG_LOGBOOK_SIZE);;
  on_cpu (spin_unlock_irqrstor klog_lock irqs_state).

(** ** The console *)

(** The variables of debug.c, on the log. [line] and [screenOffset] are unsigned. *)
Record console := Console { co_log : klog; screenBase : Z; screenOffset : Z; line : Z; klog_ctr : Z }.

Definition on_log {A} (m : M klog A) : M console A :=
  zoom co_log (λ l s, Console l (screenBase s) (screenOffset s) (line s) (klog_ctr s)) m.

Definition on_chars {A} (m : M mem A) : M console A := on_log (on_mem m).

Definition set_offset (o : Z) : M console unit :=
  modify (λ s, Console (co_log s) (screenBase s) o (line s) (klog_ctr s)).

Definition set_line (l : Z) : M console unit :=
  modify (λ s, Console (co_log s) (screenBase s) (screenOffset s) l (klog_ctr s)).

Definition set_klog_ctr (c : Z) : M console unit :=
  modify (λ s, Console (co_log s) (screenBase s) (screenOffset s) (line s) c).

(** A store to [screenBase[i]], an [unsigned short]. *)
Definition st_cell (i v : Z) : M console unit :=
  b ← gets screenBase; on_chars (stb (b + 2 * i) v;; stb (b + 2 * i + 1) (Z.shiftr v 8)).

Fixpoint blank_loop (n : nat) (o i : Z) : M console unit :=
  match n with
  | O => mret tt
  | S n => st_cell (o + i) 0x0720;; blank_loop n o (i + 1)
  end.

Definition _screenup : M console unit :=
  b ← gets screenBase;
  on_chars (memcpy b (b + 2 * SCREEN_WIDTH) (SCREEN_WIDTH * SCREEN_HEIGHT * 2 - SCREEN_WIDTH * 2));;
  set_offset ((SCREEN_HEIGHT - 1) * SCREEN_WIDTH);;
  o ← gets screenOffset;
  blank_loop (Z.to_nat SCREEN_WIDTH) o 0;;
  set_line (SCREEN_HEIGHT - 1).

(** One round of the loop of [_puts], on the character [c]. *)
Definition put_screen (c : Z) : M console unit :=
  (if c =? 10 then
     l ← gets line; set_line (u32 (l + 1));;
     l ← gets line;
     if SCREEN_HEIGHT - 1 <? l then _screenup
     else
       o ← gets screenOffset;
       set_offset (u32 (o + (SCREEN_WIDTH - o mod SCREEN_WIDTH)))
   else
     o ← gets screenOffset; set_offset (u32 (o + 1));;
     st_cell o (Z.lor 0xf00 c));;
  o ← gets screenOffset;
  when (SCREEN_WIDTH * SCREEN_HEIGHT <=? o) _screenup.

Fixpoint _puts_loop (fuel : nat) (str : Z) : M console unit :=
  match fuel with
  | O => hang
  | S fuel =>
      c ← on_chars (ldc str);
      if negb (c =? 0) then put_screen c;; _puts_loop fuel (str + 1) else mret tt
  end.

Definition _puts (str : Z) : M console Z :=
  fuel ← gets (λ s, mfuel (kl_mem (co_log s)));
  _puts_loop fuel str;; mret 0.

(** One round of [while(klog_ctr != (c = klog_get_new_row(klog_ctr, tmp)))]: whether the
    condition held. *)
Definition fetch_row (tmp nl : Z) : M console bool :=
  k ← gets klog_ctr;
  c ← on_log (klog_get_new_row k tmp);
  if negb (k =? c) then
    _puts tmp;;
    e ← on_chars (ldc (tmp + (KLOG_N_COLS - 1)));
    when (e =? 0) (_puts nl;; mret tt);;
    set_klog_ctr c;;
    mret true
  else mret false.

Fixpoint fetch_loop (fuel : nat) (tmp nl : Z) : M console unit :=
  match fuel with
  | O => hang
  | S fuel => more ← fetch_row tmp nl; if (more : bool) then fetch_loop fuel tmp nl else mret tt
  end.

(** At most 127 rows can be fetched from a log that nobody writes to. *)
Definition fetch_fuel : nat := 128.

(** [tmp] and [nl] are the arrays on the stack. *)
Definition _dump_klog (tmp nl : Z) : M console unit :=
  on_chars (stb nl 10;; stb (nl + 1) 0);;
  b ← gets screenBase;
  if b =? NULL then hang
  else
    on_chars (stb (tmp + KLOG_N_COLS) 0);;
    fetch_loop fetch_fuel tmp nl.

(** What [panic] does before it halts: [temp] is the formatted message, [kernel_panic] and
    [system_halted] the addresses of the two string constants. *)
Definition panic_report (kernel_panic temp system_halted tmp nl : Z) : M console unit :=
  on_log (on_cpu local_irqs_disable);;
  on_log (klog_puts kernel_panic);;
  on_log (klog_puts temp);;
  on_log (klog_puts system_halted);;
  _dump_klog tmp nl.
