(* ===== verification/KLogSpec.v ===== *)
(** * What the kernel log keeps

    The log as the rows written so far, the latest first: what a string does to it, that the
    routines on the circular array do the same, and what readers see. *)

From stdpp Require Import gmap list.
From S2P Require Import Prelude Spinlock CType CString CStringSpec KLog.
#[local] Open Scope Z_scope.

(** ** The log as a history of rows *)

Definition cols : nat := 64.

Definition blank : list Z := replicate cols 0.

(** The rows, the current one first, and the column of the next character. *)
Record alog := ALog { history : list (list Z); column : nat }.

(** The row written [i] rows ago; rows that were never written are blank. *)
Definition row_back (L : alog) (i : nat) : list Z := default blank (history L !! i).

Definition newline (L : alog) : alog := ALog (blank :: history L) 0.

Definition feed (L : alog) : alog :=
  ALog ((replicate (column L) 32 ++ replicate (cols - column L) 0) :: history L) (column L).

Definition write (c : Z) (L : alog) : alog :=
  let L' := ALog (<[column L := c]> (row_back L 0) :: tail (history L)) (S (column L)) in
  if decide (cols ≤ S (column L))%nat then newline L' else L'.

Definition put1 (L : alog) (c : Z) : alog :=
  if c =? 10 then newline L
  else if c =? 13 then ALog (history L) 0
  else if c =? 12 then feed L
  else write c L.

Definition put_string (cs : list Z) (L : alog) : alog := foldl put1 L cs.

(** ** The circular array *)

Definition row_at (book t : Z) (i : nat) : Z := book + (t - Z.of_nat i) mod KLOG_N_ROWS * KLOG_N_COLS.

Definition rows_at (m : mem) (book t : Z) (L : alog) : Prop :=
  ∀ i, (i < 128)%nat → bytes_at m (row_at book t i) (row_back L i).

Definition row_ok (r : list Z) : Prop := length r = cols ∧ Forall is_byte r.

(** The addresses of the array, and what is outside of it. *)
Definition in_book (book a : Z) : Prop := book ≤ a < book + KLOG_LOGBOOK_SIZE.

Definition keeps_outside (book : Z) (m m' : mem) : Prop := ∀ a, ¬ in_book book a → m' !! a = m !! a.

Record klog_rep (s : klog) (L : alog) : Prop := KlogRep {
  kr_book : 0 < logbook s ∧ logbook s + KLOG_LOGBOOK_SIZE ≤ 2 ^ 32;
  kr_top : 0 ≤ top s < KLOG_N_ROWS;
  kr_bottom : bottom s = (top s + 1) mod KLOG_N_ROWS;
  kr_cursor : cursor s = Z.of_nat (column L);
  kr_column : (column L ≤ cols)%nat;
  kr_count : row_counter s = u32 (Z.of_nat (length (history L)) - 1);
  kr_some : history L ≠ [];
  kr_rows : Forall row_ok (history L);
  kr_at : rows_at (kl_mem s) (logbook s) (top s) L }.

(** The log between two calls: its lock is free and the cursor is in the row. *)
Definition is_klog (s : klog) (L : alog) : Prop :=
  locks (kl_cpu s) !! klog_lock = Some SPIN_UNLOCKED ∧ klog_rep s L ∧ (column L < cols)%nat.

(** What a routine leaves alone. *)
Definition klog_keeps (s s' : klog) : Prop :=
  kl_cpu s' = kl_cpu s ∧ logbook s' = logbook s ∧ keeps_outside (logbook s) (kl_mem s) (kl_mem s').

Lemma klog_keeps_refl s : klog_keeps s s.
Proof. done. Qed.

Lemma klog_keeps_trans s1 s2 s3 : klog_keeps s1 s2 → klog_keeps s2 s3 → klog_keeps s1 s3.
Proof.
  intros (C1 & B1 & H1) (C2 & B2 & H2). split_and!; [congruence..|].
  intros a Ha. rewrite H2 by (by rewrite B1). by apply H1.
Qed.

Lemma row_at_range book t i : ∃ k, 0 ≤ k < 128 ∧ row_at book t i = book + k * 64.
Proof. eexists. split; [|done]. by apply Z.mod_pos_bound. Qed.

Lemma row_at_0 book t : 0 ≤ t < KLOG_N_ROWS → row_at book t 0 = book + t * KLOG_N_COLS.
Proof. intros. unfold row_at. rewrite Z.sub_0_r, Z.mod_small; done. Qed.

Lemma row_at_in book t i a : row_at book t i ≤ a < row_at book t i + 64 → in_book book a.
Proof.
  unfold in_book, KLOG_LOGBOOK_SIZE, KLOG_N_ROWS, KLOG_N_COLS.
  destruct (row_at_range book t i) as (k & Hk & ->). lia.
Qed.

(** Different rows are apart. *)
Lemma row_at_apart book t i j a :
  (i < j < 128)%nat → row_at book t j ≤ a < row_at book t j + 64 →
  ¬ (row_at book t i ≤ a < row_at book t i + 64).
Proof.
  unfold row_at, KLOG_N_ROWS, KLOG_N_COLS. intros Hij Ha Hb.
  Z.to_euclidean_division_equations. lia.
Qed.

Lemma row_at_next book t i : row_at book ((t + 1) mod KLOG_N_ROWS) (S i) = row_at book t i.
Proof.
  unfold row_at, KLOG_N_ROWS. do 2 f_equal. rewrite Zminus_mod_idemp_l. f_equal. lia.
Qed.

Lemma row_back_ok L i : Forall row_ok (history L) → row_ok (row_back L i).
Proof.
  intros H. unfold row_back. destruct (history L !! i) eqn:E; simpl.
  - rewrite Forall_lookup in H. by eapply H.
  - split; [done|]. apply Forall_replicate. unfold is_byte. lia.
Qed.

Lemma row_back_len L i : Forall row_ok (history L) → len (row_back L i) = 64.
Proof. intros [H _]%(row_back_ok L i). unfold len. by rewrite H. Qed.

(** A row that is written anew becomes the current one. *)
Lemma rows_push m m' book t L r k :
  (∀ a, ¬ (row_at book ((t + 1) mod KLOG_N_ROWS) 0 ≤ a < row_at book ((t + 1) mod KLOG_N_ROWS) 0 + 64) →
    m' !! a = m !! a) →
  Forall row_ok (history L) → bytes_at m' (row_at book ((t + 1) mod KLOG_N_ROWS) 0) r →
  rows_at m book t L → rows_at m' book ((t + 1) mod KLOG_N_ROWS) (ALog (r :: history L) k).
Proof.
  intros Hf Hok Hr H [|i] Hi; [done|]. rewrite row_at_next. change (row_back _ (S i)) with (row_back L i).
  eapply bytes_at_frame; [|apply H; lia]. intros a Ha. apply Hf. rewrite row_back_len in Ha by done.
  apply (row_at_apart book _ 0 (S i)); [lia|]. by rewrite row_at_next.
Qed.

(** A change of the current row. *)
Lemma rows_edit m m' book t L r k :
  (∀ a, ¬ (row_at book t 0 ≤ a < row_at book t 0 + 64) → m' !! a = m !! a) →
  Forall row_ok (history L) → bytes_at m' (row_at book t 0) r →
  history L ≠ [] → rows_at m book t L → rows_at m' book t (ALog (r :: tail (history L)) k).
Proof.
  intros Hf Hok Hr Hne H [|i] Hi; [done|].
  replace (row_back _ (S i)) with (row_back L (S i)) by (destruct L as [[|]]; done).
  eapply bytes_at_frame; [|apply H; lia]. intros a Ha. apply Hf. rewrite row_back_len in Ha by done.
  by apply (row_at_apart book _ 0 (S i)); [lia|].
Qed.

Lemma bytes_put_outside p bs q n m a :
  q ≤ p → p + len bs ≤ q + n → ¬ (q ≤ a < q + n) → bytes_put p bs m !! a = m !! a.
Proof. intros. apply bytes_put_out. lia. Qed.

(** Bytes over the beginning of others. *)
Lemma bytes_put_over m p xs xs' ys :
  length xs = length xs' → bytes_at m p (xs ++ ys) → bytes_at (bytes_put p xs' m) p (xs' ++ ys).
Proof.
  rewrite !bytes_at_app. intros El [_ H]. split; [apply bytes_at_put|]. unfold len in *. rewrite <- El.
  apply bytes_at_put_keep; [unfold len; lia|done].
Qed.

Lemma bytes_insert_at m p bs i b :
  (i < length bs)%nat → bytes_at m p bs → bytes_at (<[p + Z.of_nat i := b]> m) p (<[i := b]> bs).
Proof.
  rewrite !bytes_at_lookup. intros Hi H j c E. destruct (decide (i = j)) as [<-|Hn].
  - rewrite list_lookup_insert_eq in E by done. simplify_eq. by rewrite lookup_insert_eq.
  - rewrite list_lookup_insert_ne in E by done. rewrite lookup_insert_ne by lia. auto.
Qed.

(** ** The routines on the rows *)

Lemma rep_room s L a : klog_rep s L → in_book (logbook s) a → is_Some (kl_mem s !! a).
Proof.
  unfold in_book, KLOG_LOGBOOK_SIZE, KLOG_N_COLS, KLOG_N_ROWS. intros H Ha. pose proof (kr_top s L H) as Ht. unfold KLOG_N_ROWS in Ht.
  set (k := (a - logbook s) / 64). set (i := Z.to_nat ((top s - k) mod 128)).
  assert (0 ≤ k < 128) as Hk by (unfold k; Z.to_euclidean_division_equations; lia).
  pose proof (Z.mod_pos_bound (top s - k) 128 ltac:(lia)) as Hm.
  assert (row_at (logbook s) (top s) i = logbook s + k * 64) as Er.
  { unfold row_at, KLOG_N_ROWS, KLOG_N_COLS, i. do 2 f_equal. rewrite Z2Nat.id by lia.
    clearbody k. clear - Hk Ht. Z.to_euclidean_division_equations. lia. }
  pose proof (kr_at s L H i ltac:(unfold i; lia)) as Hb%bytes_at_room. rewrite Er in Hb.
  destruct (row_back_ok L i (kr_rows s L H)) as [El _]. rewrite El in Hb. apply Hb.
  unfold k, cols. clear - Ha. Z.to_euclidean_division_equations. lia.
Qed.

Lemma row_room s L index : klog_rep s L → 0 ≤ index < 128 → room (kl_mem s) (logbook s + index * KLOG_N_COLS) cols.
Proof. intros H Hi a Ha. apply (rep_room s L _ H). unfold in_book, KLOG_LOGBOOK_SIZE, KLOG_N_ROWS, KLOG_N_COLS, cols in *. lia. Qed.

(** A state of the log with the given memory. *)
Definition with_mem (m : mem) (s : klog) : klog :=
  KLogVars (kl_cpu s) m (logbook s) (row_counter s) (top s) (bottom s) (cursor s).

Lemma wp_on_mem {A} (m : M mem A) s (Q : A → klog → Prop) :
  wp m (kl_mem s) (λ a m', Q a (with_mem m' s)) → wp (on_mem m) s Q.
Proof. apply wp_zoom. Qed.

Lemma wp_clear_row s index (Q : unit → klog → Prop) :
  room (kl_mem s) (logbook s + index * KLOG_N_COLS) cols →
  Q tt (with_mem (bytes_put (logbook s + index * KLOG_N_COLS) blank (kl_mem s)) s) →
  wp (_clear_row index) s Q.
Proof.
  intros Hr HQ. unfold _clear_row, row_addr. do 2 wp_step. wp_flat. apply wp_bind, wp_on_mem.
  change KLOG_N_COLS with (Z.of_nat cols) at 2. apply wp_memset; [done|]. by wp_go.
Qed.

Lemma row_in_book book t k : 0 ≤ t < KLOG_N_ROWS → 0 ≤ k < 64 → in_book book (book + t * KLOG_N_COLS + k).
Proof. unfold in_book, KLOG_LOGBOOK_SIZE, KLOG_N_ROWS, KLOG_N_COLS. lia. Qed.

Lemma bytes_put_book book t n bs m :
  0 ≤ t < KLOG_N_ROWS → 0 ≤ n → n + len bs ≤ 64 →
  keeps_outside book m (bytes_put (book + t * KLOG_N_COLS + n) bs m).
Proof.
  intros Ht Hn Hl a Ha. apply bytes_put_out. intros Hb. apply Ha.
  unfold in_book, KLOG_LOGBOOK_SIZE, KLOG_N_ROWS, KLOG_N_COLS in *. lia.
Qed.

Lemma wp_next_row s L (Q : unit → klog → Prop) :
  klog_rep s L →
  (∀ s', klog_rep s' (ALog (blank :: history L) (column L)) → klog_keeps s s' → Q tt s') →
  wp next_row s Q.
Proof.
  intros H HQ. pose proof (kr_top s L H) as Ht. unfold KLOG_N_ROWS in Ht.
  assert (Z.rem (s32 (top s + 1 + KLOG_N_ROWS)) KLOG_N_ROWS = (top s + 1) mod KLOG_N_ROWS) as Et.
  { unfold KLOG_N_ROWS. rewrite swrap_small by (simpl; lia).
    Z.to_euclidean_division_equations. lia. }
  set (t' := (top s + 1) mod KLOG_N_ROWS) in *.
  assert (0 ≤ t' < 128) as Ht' by (by apply Z.mod_pos_bound).
  assert (Z.rem (s32 (t' + 1 + KLOG_N_ROWS)) KLOG_N_ROWS = (t' + 1) mod KLOG_N_ROWS) as Eb.
  { clearbody t'. unfold KLOG_N_ROWS. rewrite swrap_small by (simpl; lia).
    Z.to_euclidean_division_equations. lia. }
  unfold next_row, _scroll_rows, set_top, set_bottom, set_row_counter. wp_flat. wp_go.
  cbn [logbook kl_mem top]. rewrite Et, Eb. apply wp_clear_row; cbn [logbook kl_mem]; [by eapply row_room|].
  apply HQ.
  - split; cbn [with_mem kl_cpu logbook kl_mem top bottom cursor row_counter column history].
    + apply H.
    + done.
    + done.
    + apply H.
    + apply H.
    + rewrite (kr_count s L H), uwrap_add_l. simpl. f_equal.
      pose proof (kr_some s L H). destruct (history L); simpl; [done|lia].
    + done.
    + apply Forall_cons. split; [|apply H]. split; [done|]. apply Forall_replicate. unfold is_byte. lia.
    + apply (rows_push (kl_mem s)); [|apply H| |apply H].
      * intros a. rewrite row_at_0 by done. fold t'. intros Ha. apply bytes_put_out.
        unfold len. simpl length. unfold KLOG_N_COLS in *. lia.
      * fold t'. rewrite row_at_0 by done. apply bytes_at_put.
  - split_and!; [done..|]. rewrite <- (Z.add_0_r (logbook s + t' * KLOG_N_COLS)).
    apply (bytes_put_book _ _ 0); [done|done|]. done.
Qed.

(** What stays the same when only the cursor changes. *)
Lemma rep_cursor s L k :
  klog_rep s L → (k ≤ cols)%nat →
  klog_rep (KLogVars (kl_cpu s) (kl_mem s) (logbook s) (row_counter s) (top s) (bottom s) (Z.of_nat k))
    (ALog (history L) k).
Proof. intros [] Hk. by split. Qed.

(** The current row after a change of it in memory. *)
Lemma rep_edit s L m' r c k :
  klog_rep s L → row_ok r → (k ≤ cols)%nat → c = Z.of_nat k →
  (∀ a, ¬ (row_at (logbook s) (top s) 0 ≤ a < row_at (logbook s) (top s) 0 + 64) →
    m' !! a = kl_mem s !! a) →
  bytes_at m' (row_at (logbook s) (top s) 0) r →
  let s' := KLogVars (kl_cpu s) m' (logbook s) (row_counter s) (top s) (bottom s) c in
  klog_rep s' (ALog (r :: tail (history L)) k) ∧ klog_keeps s s'.
Proof.
  intros H Hr Hk -> Hf Hb s'. split.
  - destruct H as [Hbk Ht Hbo Hc Hcl Hn Hs Hrs Ha].
    split; cbn [s' kl_cpu logbook kl_mem top bottom cursor row_counter column history]; try done.
    + rewrite Hn. destruct (history L); done.
    + apply Forall_cons. split; [done|]. destruct (history L); [done|]. by apply Forall_cons in Hrs as [_ ?].
    + by eapply rows_edit.
  - split_and!; [done..|]. intros a Ho. apply Hf. intros Hi%row_at_in. by apply Ho.
Qed.

Lemma rep_row_0 s L : klog_rep s L → bytes_at (kl_mem s) (logbook s + top s * KLOG_N_COLS) (row_back L 0).
Proof. intros H. rewrite <- row_at_0 by apply H. apply H. lia. Qed.

Lemma row_back_0 L : history L ≠ [] → history L = row_back L 0 :: tail (history L).
Proof. by destruct L as [[]]. Qed.

Lemma wp_feed_row s L (Q : unit → klog → Prop) :
  klog_rep s L →
  (∀ s', klog_rep s' (feed L) → klog_keeps s s' → Q tt s') → wp feed_row s Q.
Proof.
  intros H HQ. pose proof (kr_column s L H) as Hc. unfold feed_row. wp_flat. wp_step.
  eapply wp_next_row; [done|]. intros s1 H1 K1. do 2 wp_step.
  rewrite (kr_cursor _ _ H1). cbn [column]. apply wp_when; intros E; bool_to_prop.
  - unfold row_addr. wp_go. apply wp_on_mem. pose proof (kr_top _ _ H1) as Ht.
    apply wp_memset; [intros a Ha; apply (row_room _ _ _ H1 Ht); lia|]. wp_go.
    change (u8 32) with 32. set (n := column L) in *. pose proof (rep_row_0 _ _ H1) as Hb.
    change (row_back _ 0) with blank in Hb.
    destruct (rep_edit s1 _ (bytes_put (logbook s1 + top s1 * KLOG_N_COLS) (replicate n 32) (kl_mem s1))
      (replicate n 32 ++ replicate (cols - n) 0) (cursor s1) n H1) as [H2 K2].
    + split; [rewrite length_app, !length_replicate; lia|]. apply Forall_app.
      split; apply Forall_replicate; unfold is_byte; lia.
    + done.
    + apply H1.
    + intros a Ha. rewrite row_at_0 in Ha by done. apply bytes_put_out. unfold len.
      rewrite length_replicate. unfold cols in *. lia.
    + rewrite row_at_0 by done. apply (bytes_put_over _ _ (replicate n 0)).
      * by rewrite !length_replicate.
      * by rewrite <- replicate_add, <- Nat.le_add_sub by done.
    + apply HQ; [exact H2|by eapply klog_keeps_trans].
  - apply HQ; [|done]. assert (column L = 0%nat) as E0 by lia. unfold feed. rewrite E0 in *. done.
Qed.

Lemma wp_put_char s L str i c (Q : bool → klog → Prop) :
  klog_rep s L → (column L < cols)%nat → kl_mem s !! (str + i) = Some c → is_byte c →
  (∀ s', klog_rep s' (ALog (<[column L := c]> (row_back L 0) :: tail (history L)) (S (column L))) →
    klog_keeps s s' → Q (bool_decide (cols ≤ S (column L))%nat) s') →
  wp (put_char str i) s Q.
Proof.
  intros H Hc Hm Hb HQ. unfold put_char, row_addr, set_cursor. wp_go. apply wp_on_mem.
  eapply wp_ldc; [done|]. wp_go. apply wp_on_mem. cbn [with_mem logbook top cursor kl_mem].
  rewrite (kr_cursor _ _ H). pose proof (kr_top _ _ H) as Ht.
  apply wp_stb; [apply (row_room _ _ _ H Ht); unfold cols in *; lia|]. rewrite u8_s8 by done. wp_go.
  destruct (rep_edit s L (<[logbook s + top s * KLOG_N_COLS + Z.of_nat (column L) := c]> (kl_mem s))
    (<[column L := c]> (row_back L 0)) (Z.of_nat (column L) + 1) (S (column L)) H) as [H1 K1].
  - destruct (row_back_ok L 0 (kr_rows _ _ H)) as [El Hr]. split; [by rewrite length_insert|].
    by apply Forall_insert.
  - lia.
  - lia.
  - intros a Ha. rewrite row_at_0 in Ha by done. rewrite lookup_insert_ne; [done|]. unfold cols in *. lia.
  - rewrite row_at_0 by done. apply bytes_insert_at; [|by apply rep_row_0].
    destruct (row_back_ok L 0 (kr_rows _ _ H)) as [-> _]. done.
  - replace (KLOG_N_COLS <=? _) with (bool_decide (cols ≤ S (column L))%nat); [by apply HQ|].
    apply eq_true_iff_eq. rewrite bool_decide_eq_true, Z.leb_le. unfold cols, KLOG_N_COLS. lia.
Qed.

(** The new line after a character. *)
Lemma wp_new_line s L (Q : unit → klog → Prop) :
  klog_rep s L →
  (∀ s', klog_rep s' (newline L) → klog_keeps s s' → Q tt s') →
  wp (next_row;; set_cursor 0) s Q.
Proof.
  intros H HQ. wp_step. eapply wp_next_row; [done|]. intros s1 H1 K1. unfold set_cursor. wp_go.
  apply HQ; [|done]. apply (rep_cursor _ _ 0 H1). lia.
Qed.

Lemma wp_put1 s L str i c (Q : unit → klog → Prop) :
  klog_rep s L → (column L < cols)%nat → kl_mem s !! (str + i) = Some c → 0 < c < 256 →
  (∀ s', klog_rep s' (put1 L c) → (column (put1 L c) < cols)%nat → klog_keeps s s' → Q tt s') →
  wp (new_row ← put_switch str i; when new_row (next_row;; set_cursor 0)) s Q.
Proof.
  intros H Hc Hm Hb HQ. unfold put_switch. wp_flat. wp_go. apply wp_on_mem. eapply wp_ldc; [done|].
  assert (is_byte c) as Hbc by (unfold is_byte; lia).
  assert (with_mem (kl_mem s) s = s) as -> by (by destruct s).
  change 10 with (s8 10); change 13 with (s8 13); change 12 with (s8 12).
  rewrite !s8_eqb by (unfold is_byte; lia). unfold put1 in HQ.
  destruct (c =? 10).
  { wp_go. cbn [when]. eapply wp_new_line; [done|]. intros s1 H1 K1. apply HQ; [done|cbn; unfold cols; lia|done]. }
  destruct (c =? 13).
  { unfold set_cursor. wp_go. cbn [when]. wp_go.
    apply HQ; [apply (rep_cursor _ _ 0 H); lia|cbn; unfold cols; lia|done]. }
  destruct (c =? 12).
  { wp_go. eapply wp_feed_row; [done|]. intros s1 H1 K1. wp_go. cbn [when]. wp_go. by apply HQ. }
  wp_go. eapply wp_put_char; [done..|]. intros s1 H1 K1. unfold write in HQ.
  apply wp_when; intros E; [apply bool_decide_eq_true in E|apply bool_decide_eq_false in E].
  - rewrite decide_True in HQ by done. eapply wp_new_line; [done|]. intros s2 H2 K2.
    apply HQ; [done|cbn; unfold cols; lia|by eapply klog_keeps_trans].
  - rewrite decide_False in HQ by done. apply HQ; [done|cbn; lia|done].
Qed.

Lemma wp_puts_loop cs : ∀ s L str i (Q : unit → klog → Prop),
  klog_rep s L → (column L < cols)%nat → str_at (kl_mem s) (str + i) cs →
  (∀ a, str + i ≤ a ≤ str + i + len cs → ¬ in_book (logbook s) a) →
  (∀ s', klog_rep s' (put_string cs L) → (column (put_string cs L) < cols)%nat → klog_keeps s s' → Q tt s') →
  wp (puts_loop (length cs) str i) s Q.
Proof.
  induction cs as [|c cs IH]; intros s L str i Q H Hc Hs Ha HQ; cbn [length puts_loop].
  - wp_go. by apply HQ.
  - destruct Hs as (Hm & Hb & Hs). rewrite len_cons in Ha. pose proof (len_nonneg cs).
    apply wp_regroup, wp_bind. eapply wp_put1; [done..|]. intros s1 H1 Hc1 K1.
    pose proof K1 as (_ & Eb & Ho).
    rewrite <- Z.add_assoc in Hs. apply (IH _ (put1 L c)); [done|done| | |].
    + eapply str_at_frame; [|done]. intros a Hr. apply Ho, Ha. lia.
    + intros a Hr. rewrite Eb. apply Ha. lia.
    + intros s2 H2 Hc2 K2. apply HQ; [done|done|by eapply klog_keeps_trans].
Qed.

(** [klog_puts] on the log [L]. *)
Lemma wp_klog_puts s L str cs (Q : unit → klog → Prop) :
  is_klog s L → str_at (kl_mem s) str cs → len cs < 2 ^ 32 →
  (∀ a, str ≤ a ≤ str + len cs → ¬ in_book (logbook s) a) →
  (∀ s', is_klog s' (put_string cs L) → klog_keeps s s' → Q tt s') →
  wp (klog_puts str) s Q.
Proof.
  intros (Hl & H & Hc) Hs Hn Ha HQ. unfold klog_puts. wp_go. apply wp_on_mem.
  eapply wp_strlen; [done..|]. wp_go. unfold on_cpu. wp_go. apply wp_spin_lock_irqsave; [done|].
  cbn [with_mem kl_cpu kl_mem logbook row_counter top bottom cursor]. rewrite len_to_nat.
  assert (∀ c, klog_rep (KLogVars c (kl_mem s) (logbook s) (row_counter s) (top s) (bottom s) (cursor s)) L)
    as Hcpu by (by destruct H).
  wp_step. apply (wp_puts_loop _ _ L); [apply Hcpu|done|by rewrite Z.add_0_r|by rewrite Z.add_0_r|].
  intros s1 H1 Hc1 (Ec & Eb & Ho). cbn [kl_cpu kl_mem logbook] in *. wp_go.
  apply wp_spin_unlock_irqrstor; rewrite Ec; cbn [locks irqs].
  - by rewrite lookup_insert_eq.
  - rewrite unlock_locked by done. apply HQ; [|by split_and!].
    split_and!; [done| |done]. by destruct H1.
Qed.

(** ** Readers *)

(** [n] bytes at [p] that a reader may use as a buffer. *)
Definition buffer (s : klog) (p : Z) (n : nat) : Prop :=
  room (kl_mem s) p n ∧ ∀ a, p ≤ a < p + Z.of_nat n → ¬ in_book (logbook s) a.

Lemma rep_outside s L m' :
  klog_rep s L → (∀ a, in_book (logbook s) a → m' !! a = kl_mem s !! a) → klog_rep (with_mem m' s) L.
Proof.
  intros [] Hf. split; try done. intros i Hi. eapply bytes_at_frame; [|by apply kr_at0].
  intros a Ha. apply Hf, (row_at_in _ (top s) i). by rewrite row_back_len in Ha.
Qed.

Lemma buffer_put s L p bs :
  klog_rep s L → buffer s p (length bs) → klog_rep (with_mem (bytes_put p bs (kl_mem s)) s) L.
Proof.
  intros H [_ Hb]. apply rep_outside; [done|]. intros a Ha. apply bytes_put_out. intros Hr.
  by apply (Hb a).
Qed.

Lemma wp_copy_row s L dst i (Q : unit → klog → Prop) :
  klog_rep s L → buffer s dst cols → (i < 128)%nat →
  Q tt (with_mem (bytes_put dst (row_back L i) (kl_mem s)) s) →
  wp (copy_row ((top s - Z.of_nat i) mod KLOG_N_ROWS) dst) s Q.
Proof.
  intros H [Hr Hb] Hi HQ. unfold copy_row, row_addr. do 2 wp_step. wp_step.
  apply wp_on_mem. fold (row_at (logbook s) (top s) i). set (src := row_at _ _ _).
  destruct (row_back_ok L i (kr_rows _ _ H)) as [El Hbs].
  assert (∀ a, src ≤ a < src + 64 → in_book (logbook s) a) as Hin by (intros a; apply row_at_in).
  replace KLOG_N_COLS with (len (row_back L i)) by (unfold len; by rewrite El).
  apply wp_memcpy; [by rewrite row_back_len by apply H|done|by apply H|by rewrite El| |by wp_go].
  unfold up_ok. rewrite row_back_len by apply H.
  destruct (decide (src < dst < src + 64)) as [Hd|]; [|lia].
  destruct (Hb dst); [unfold cols; lia|]. apply Hin. lia.
Qed.

Lemma wp_get_row_index s i (Q : Z → klog → Prop) :
  0 ≤ i < 2 ^ 32 → Q ((top s - i) mod KLOG_N_ROWS) s → wp (_get_row_index i) s Q.
Proof.
  intros Hi HQ. unfold _get_row_index. wp_go. replace (u32 _ mod KLOG_N_ROWS) with ((top s - i) mod KLOG_N_ROWS); [done|].
  unfold uwrap, KLOG_N_ROWS. change (2 ^ 32) with (128 * 33554432).
  rewrite Z.rem_mul_r by lia. rewrite (Z.mul_comm 128), Z.mod_add by lia. rewrite Z.mod_mod by lia.
  rewrite <- (Z.mod_add (top s - i) 1 128) by lia. f_equal.
Qed.

(** A locked section that copies a row. *)
Lemma wp_locked_copy s L (idx : M klog Z) dst i (Q : Z → klog → Prop) v :
  is_klog s L → buffer s dst cols → (i < 128)%nat →
  (∀ c Q', Q' ((top s - Z.of_nat i) mod KLOG_N_ROWS)
             (KLogVars c (kl_mem s) (logbook s) (row_counter s) (top s) (bottom s) (cursor s)) →
    wp idx (KLogVars c (kl_mem s) (logbook s) (row_counter s) (top s) (bottom s) (cursor s)) Q') →
  Q v (with_mem (bytes_put dst (row_back L i) (kl_mem s)) s) →
  wp (irqs_state ← on_cpu (spin_lock_irqsave klog_lock);
      index ← idx;
      copy_row index dst;;
      on_cpu (spin_unlock_irqrstor klog_lock irqs_state);;
      mret v) s Q.
Proof.
  intros (Hl & H & Hc) Hb Hi Hidx HQ. unfold on_cpu. wp_go. apply wp_spin_lock_irqsave; [done|].
  wp_go. apply Hidx. wp_go.
  apply (wp_copy_row (KLogVars _ (kl_mem s) (logbook s) (row_counter s) (top s) (bottom s) (cursor s)) L);
    [by destruct H|done|done|]. cbn [with_mem kl_cpu]. wp_go.
  apply wp_spin_unlock_irqrstor; cbn [with_mem kl_cpu locks irqs].
  - by rewrite lookup_insert_eq.
  - rewrite unlock_locked by done. wp_go. done.
Qed.

Lemma wp_klog_get_row s L index dst (Q : Z → klog → Prop) :
  is_klog s L → buffer s dst cols → dst ≠ NULL → 0 ≤ index < 128 →
  Q NO_ERROR (with_mem (bytes_put dst (row_back L (Z.to_nat index)) (kl_mem s)) s) →
  wp (klog_get_row index dst) s Q.
Proof.
  intros H Hb Hd Hi HQ. unfold klog_get_row. rewrite (proj2 (Z.eqb_neq dst NULL)), (proj2 (Z.leb_gt KLOG_N_ROWS index))
    by (done || (unfold KLOG_N_ROWS; lia)).
  cbn [orb]. apply (wp_locked_copy s L _ dst (Z.to_nat index)); [done|done|lia| |done].
  intros c Q' HQ'. rewrite Z2Nat.id in HQ' by lia. apply wp_get_row_index; [lia|done].
Qed.

(** The rows that a counter stands for: how many rows ago, [0 .. 127]. *)
Definition rows_ago (n counter : Z) : Z := Z.min 127 (u32 (n - counter)).

Lemma out_of_rows_ago n c :
  Prelude.word n → Prelude.word c → out_of_rows n (u32 (n - KLOG_N_ROWS + 1)) c = negb (u32 (n - c) <=? 127).
Proof.
  unfold Prelude.word, out_of_rows, KLOG_N_ROWS, uwrap. intros Hn Hc. apply eq_true_iff_eq.
  rewrite negb_true_iff, Z.leb_gt. set (l := (n - 128 + 1) mod 2 ^ 32).
  assert ((l = n - 127 ∧ 127 ≤ n) ∨ (l = n - 127 + 2 ^ 32 ∧ n < 127)) as Hl.
  { unfold l. clear - Hn. Z.to_euclidean_division_equations. lia. }
  assert (((n - c) mod 2 ^ 32 = n - c ∧ c ≤ n) ∨ ((n - c) mod 2 ^ 32 = n - c + 2 ^ 32 ∧ n < c)) as Hd.
  { clear l Hl. Z.to_euclidean_division_equations. lia. }
  clearbody l. destruct (Z.ltb_spec l n);
    rewrite ?orb_true_iff, ?andb_true_iff, !Z.ltb_lt; lia.
Qed.

Lemma wp_klog_get_new_row s L counter dst (Q : Z → klog → Prop) :
  is_klog s L → buffer s dst cols → dst ≠ NULL → Prelude.word counter →
  let k := rows_ago (row_counter s) counter in
  Q (u32 (row_counter s - Z.max 0 (k - 1)))
    (with_mem (bytes_put dst (row_back L (Z.to_nat k)) (kl_mem s)) s) →
  wp (klog_get_new_row counter dst) s Q.
Proof.
  intros H Hb Hd Hc k HQ. set (n := row_counter s) in *.
  assert (Prelude.word n) as Hn by (unfold n; destruct H as (_ & [] & _); rewrite kr_count0; apply word_u32).
  assert (0 ≤ k ≤ 127) as Hk.
  { unfold k, rows_ago. pose proof (uwrap_range 32 (n - counter) ltac:(lia)). lia. }
  assert (u32 (n - (if out_of_rows n (u32 (n - KLOG_N_ROWS + 1)) counter
                    then u32 (n - KLOG_N_ROWS + 1) else counter)) = k) as Ek.
  { rewrite out_of_rows_ago by done. unfold k, rows_ago.
    destruct (Z.leb_spec (u32 (n - counter)) 127); cbn [negb]; [lia|].
    rewrite Z.min_l by lia. unfold KLOG_N_ROWS, uwrap. rewrite Zminus_mod_idemp_r.
    replace (n - (n - 128 + 1)) with 127 by lia. done. }
  set (c' := if out_of_rows _ _ counter then _ else _) in Ek.
  assert (u32 (c' + 1) = u32 (n - k + 1)) as Ec.
  { rewrite <- Ek. unfold uwrap. rewrite <- Zplus_mod_idemp_l, <- (Zplus_mod_idemp_l (n - _)).
    f_equal. f_equal. rewrite Zminus_mod_idemp_r. f_equal. lia. }
  unfold klog_get_new_row. rewrite (proj2 (Z.eqb_neq _ _)) by done.
  destruct H as (Hl & H & Hcol). unfold on_cpu. wp_go. apply wp_spin_lock_irqsave; [done|]. wp_go.
  cbn [row_counter]. fold n. cbv zeta. fold c'. rewrite Ek. apply wp_get_row_index; [lia|]. cbn [top].
  wp_go. rewrite <- (Z2Nat.id k) at 1 by lia.
  apply (wp_copy_row (KLogVars _ (kl_mem s) (logbook s) (row_counter s) (top s) (bottom s) (cursor s)) L);
    [by destruct H|done|lia|]. cbn [with_mem kl_cpu]. wp_go.
  apply wp_spin_unlock_irqrstor; cbn [with_mem kl_cpu locks irqs]; [by rewrite lookup_insert_eq|].
  rewrite unlock_locked by done. wp_go. rewrite Ec.
  rewrite out_of_rows_ago by (done || apply word_u32).
  replace (u32 (n - u32 (n - k + 1))) with (u32 (k - 1))
    by (unfold uwrap; rewrite Zminus_mod_idemp_r; f_equal; lia).
  destruct (decide (k = 0)) as [E0|].
  - rewrite E0 in *. change (negb _) with true. cbv iota.
    replace (u32 (n - Z.max 0 (0 - 1))) with n in HQ; [done|].
    change (Z.max 0 (0 - 1)) with 0. rewrite Z.sub_0_r, uwrap_small; done.
  - rewrite (uwrap_small 32 (k - 1)), (proj2 (Z.leb_le _ _)) by lia. cbn [negb].
    replace (n - k + 1) with (n - Z.max 0 (k - 1)) by lia. done.
Qed.

(** ** Start and clearing *)

Definition all_blank (n : nat) : alog := ALog (replicate n blank) 0.

Lemma row_back_blank n i : row_back (all_blank n) i = blank.
Proof.
  unfold row_back, all_blank. cbn [history]. destruct (replicate n blank !! i) eqn:E; [|done].
  by apply lookup_replicate in E as [-> _].
Qed.

Lemma zero_rows m book t n : rows_at (bytes_put book (replicate (Z.to_nat KLOG_LOGBOOK_SIZE) 0) m) book t (all_blank n).
Proof.
  intros i Hi. rewrite row_back_blank. apply bytes_at_lookup. intros j b Hj.
  apply lookup_replicate in Hj as [-> Hj].
  assert (in_book book (row_at book t i + Z.of_nat j)) as Hin by (apply (row_at_in _ t i); unfold cols in Hj; lia).
  unfold in_book in Hin. rewrite bytes_put_lookup, decide_True.
  - apply lookup_replicate_2. lia.
  - unfold len. rewrite length_replicate, Z2Nat.id by done. lia.
Qed.

Lemma wp_zero_book s (Q : klog → Prop) :
  (∀ a, in_book (logbook s) a → is_Some (kl_mem s !! a)) →
  (∀ m', keeps_outside (logbook s) (kl_mem s) m' → (∀ t n, rows_at m' (logbook s) t (all_blank n)) →
    Q (with_mem m' s)) →
  wp (on_mem (memset (logbook s) 0 KLOG_LOGBOOK_SIZE)) s (λ _, Q).
Proof.
  intros Hr HQ. apply wp_on_mem. rewrite <- (Z2Nat.id KLOG_LOGBOOK_SIZE) by done. apply wp_memset.
  - intros a Ha. apply Hr. unfold in_book. rewrite Z2Nat.id in Ha by done. lia.
  - change (u8 0) with 0. apply HQ; [|intros; apply zero_rows].
    intros a Ha. apply bytes_put_out. intros Hb. apply Ha. unfold len in Hb.
    rewrite length_replicate, Z2Nat.id in Hb by done. unfold in_book. lia.
Qed.

Lemma all_blank_rep s n :
  0 < logbook s ∧ logbook s + KLOG_LOGBOOK_SIZE ≤ 2 ^ 32 → 0 ≤ top s < KLOG_N_ROWS →
  bottom s = (top s + 1) mod KLOG_N_ROWS → cursor s = 0 → (0 < n)%nat →
  row_counter s = u32 (Z.of_nat n - 1) → rows_at (kl_mem s) (logbook s) (top s) (all_blank n) →
  klog_rep s (all_blank n).
Proof.
  intros. split; try done; cbn [all_blank history column].
  - lia.
  - by rewrite length_replicate.
  - destruct n; [lia|done].
  - apply Forall_replicate. split; [done|]. apply Forall_replicate. unfold is_byte. lia.
Qed.

Lemma wp_klog_init s (Q : Z → klog → Prop) :
  0 < logbook s ∧ logbook s + KLOG_LOGBOOK_SIZE ≤ 2 ^ 32 → is_Some (locks (kl_cpu s) !! klog_lock) →
  (∀ a, in_book (logbook s) a → is_Some (kl_mem s !! a)) →
  (∀ s', is_klog s' (all_blank 1) → keeps_outside (logbook s) (kl_mem s) (kl_mem s') →
    logbook s' = logbook s → Q NO_ERROR s') →
  wp klog_init s Q.
Proof.
  intros Hb Hl Hr HQ.
  unfold klog_init, on_cpu, set_row_counter, set_cursor, set_top, set_bottom. wp_go.
  apply (wp_spin_unlock (kl_cpu s)); [done|]. wp_go. cbn [logbook kl_mem].
  eapply (wp_zero_book (KLogVars _ (kl_mem s) (logbook s) 0 0 1 0)); [done|]. intros m' Ho Hz. wp_go.
  apply HQ; [|done|done]. split_and!; [apply lookup_insert_eq| |cbn; unfold cols; lia].
  apply all_blank_rep; cbn [with_mem logbook top bottom cursor row_counter kl_mem]; try done. lia.
Qed.

Lemma wp_klog_clear s L (Q : unit → klog → Prop) :
  is_klog s L →
  (∀ s', is_klog s' (all_blank (length (history L))) → klog_keeps s s' → Q tt s') →
  wp klog_clear s Q.
Proof.
  intros (Hl & H & Hc) HQ. unfold klog_clear, on_cpu, set_cursor. wp_go.
  apply wp_spin_lock_irqsave; [done|]. wp_go. cbn [logbook].
  eapply (wp_zero_book (KLogVars _ (kl_mem s) (logbook s) (row_counter s) (top s) (bottom s) 0)).
  { intros a. by apply (rep_room s L). }
  intros m' Ho Hz. wp_go. apply wp_spin_unlock_irqrstor; cbn [with_mem kl_cpu locks irqs].
  - by rewrite lookup_insert_eq.
  - rewrite unlock_locked by done. apply HQ; [|by split_and!].
    split_and!; [done| |cbn; unfold cols; lia].
    destruct H as [? ? ? ? ? ? Hs]. apply all_blank_rep; cbn [with_mem logbook top bottom cursor row_counter kl_mem]; try done.
    destruct (history L); [done|]. cbn. lia.
Qed.
