(* ===== verification/KLogLines.v ===== *)
(** * How the kernel log lays out text

    A line of text fills rows of 64 characters; the last one is padded with zeros, and the
    new line starts a blank row. *)

From stdpp Require Import gmap list.
From S2P Require Import Prelude Spinlock CType CString CStringSpec KLog KLogSpec.
#[local] Open Scope Z_scope.

Definition pad (r : list Z) : list Z := r ++ replicate (cols - length r) 0.

(** The rows that [l] fills, and the characters after them. *)
Definition full_rows (l : list Z) : list (list Z) :=
  (λ i, take cols (drop (cols * i) l)) <$> seq 0 (length l / cols).

Definition rest_row (l : list Z) : list Z := drop (cols * (length l / cols)) l.

Definition line_rows (l : list Z) : list (list Z) := full_rows l ++ [pad (rest_row l)].

(** Characters that [klog_puts] does not treat as control characters. *)
Definition plain (c : Z) : Prop := 0 < c < 256 ∧ c ≠ 10 ∧ c ≠ 12 ∧ c ≠ 13.

(** A log whose current row holds [pre], up to the cursor. *)
Definition holding (pre : list Z) (h : list (list Z)) : alog := ALog (pad pre :: h) (length pre).

Lemma pad_full r : length r = cols → pad r = r.
Proof. intros E. unfold pad. rewrite E, Nat.sub_diag. apply app_nil_r. Qed.

Lemma pad_insert pre c : (length pre < cols)%nat → <[length pre := c]> (pad pre) = pad (pre ++ [c]).
Proof.
  intros H. unfold pad. rewrite insert_app_r_alt, Nat.sub_diag, length_app by lia. cbn [length].
  replace (cols - length pre)%nat with (S (cols - (length pre + 1))) by lia.
  cbn [replicate insert list_insert]. by rewrite <- app_assoc.
Qed.

Lemma put1_plain pre h c :
  (length pre < cols)%nat → plain c →
  put1 (holding pre h) c =
    if decide (S (length pre) < cols)%nat then holding (pre ++ [c]) h else holding [] ((pre ++ [c]) :: h).
Proof.
  intros Hl (Hc & H10 & H12 & H13). unfold put1.
  rewrite !(proj2 (Z.eqb_neq c _)) by done. unfold write. cbn [holding history column tail row_back].
  change (row_back (holding pre h) 0) with (pad pre). rewrite pad_insert by done.
  case_decide as E; case_decide as F; try lia.
  - unfold newline, holding. cbn [history length]. rewrite pad_full; [done|]. rewrite length_app. cbn. lia.
  - unfold holding. rewrite length_app. cbn [length]. by rewrite Nat.add_1_r.
Qed.

Lemma full_rows_short l : (length l < cols)%nat → full_rows l = [] ∧ rest_row l = l.
Proof. intros H. unfold full_rows, rest_row. rewrite Nat.div_small by done. split; [done|apply drop_0]. Qed.

Lemma div_cols_app (r l : list Z) :
  length r = cols → (length (r ++ l) / cols = S (length l / cols))%nat.
Proof.
  intros E. rewrite length_app, E. rewrite (Nat.add_comm cols), <- (Nat.mul_1_l cols) at 1.
  rewrite Nat.div_add by done. lia.
Qed.

Lemma full_rows_app r l : length r = cols → full_rows (r ++ l) = r :: full_rows l ∧ rest_row (r ++ l) = rest_row l.
Proof.
  intros E. unfold full_rows, rest_row. rewrite div_cols_app by done.
  assert (∀ i, drop (cols * S i) (r ++ l) = drop (cols * i) l) as Hd.
  { intros i. rewrite drop_app_ge by lia. f_equal. lia. }
  split; [|apply Hd]. rewrite <- cons_seq. cbn [fmap list_fmap]. f_equal.
  - rewrite Nat.mul_0_r, drop_0, <- E. apply take_app_length.
  - rewrite <- fmap_S_seq, <- list_fmap_compose. apply list_fmap_ext. intros i x _. unfold compose. by rewrite Hd.
Qed.

Lemma put_plain cs : ∀ pre h,
  Forall plain cs → (length pre < cols)%nat →
  put_string cs (holding pre h) =
    holding (rest_row (pre ++ cs)) (rev (full_rows (pre ++ cs)) ++ h).
Proof.
  induction cs as [|c cs IH]; intros pre h Hp Hl.
  - rewrite app_nil_r. by destruct (full_rows_short pre Hl) as [-> ->].
  - apply Forall_cons in Hp as [Hc Hp]. change (put_string (c :: cs) ?L) with (put_string cs (put1 L c)).
    rewrite put1_plain by done. replace (pre ++ c :: cs) with ((pre ++ [c]) ++ cs) by (by rewrite <- app_assoc).
    case_decide as E.
    + apply IH; [done|]. rewrite length_app. cbn. lia.
    + rewrite IH by (done || (cbn; unfold cols; lia)). cbn [app].
      destruct (full_rows_app (pre ++ [c]) cs) as [-> ->]; [rewrite length_app; cbn; lia|].
      cbn [rev]. by rewrite <- app_assoc.
Qed.

(** A whole line, on a log whose current row is blank. *)
Lemma put_line l h :
  Forall plain l →
  put_string (l ++ [10]) (holding [] h) = holding [] (rev (line_rows l) ++ h).
Proof.
  intros Hl. unfold put_string. rewrite foldl_app. fold (put_string l (holding [] h)).
  rewrite put_plain by (done || (cbn; unfold cols; lia)). cbn [foldl put1 app].
  change (10 =? 10) with true. cbv iota. unfold newline, line_rows. rewrite rev_app_distr. done.
Qed.

(** The rows of a line, joined, are the line. *)
Lemma full_rows_concat n : ∀ l, (length l / cols = n)%nat → concat (full_rows l) ++ rest_row l = l.
Proof.
  induction n as [|n IH]; intros l E.
  - destruct (full_rows_short l) as [-> ->]; [|done].
    apply Nat.div_small_iff in E; [done|]. unfold cols. lia.
  - assert (cols ≤ length l)%nat as Hl.
    { destruct (decide (cols ≤ length l)%nat) as [|Hn]; [done|]. rewrite Nat.div_small in E by lia. lia. }
    assert (length (take cols l) = cols) as Et by (rewrite length_take; lia).
    rewrite <- (take_drop cols l) in E |- *.
    destruct (full_rows_app (take cols l) (drop cols l) Et) as [-> ->]. cbn [concat].
    rewrite <- app_assoc, IH; [done|]. rewrite div_cols_app in E by done. lia.
Qed.
