(* ===== verification/KLogConsole.v ===== *)
(** * What the console shows

    The screen as a list of cells with an offset and a line; printing a string changes it
    character by character, scrolls at its end and never leaves it. The rows of the log that
    are fetched are printed in the order in which they were written. *)

From stdpp Require Import gmap list.
From S2P Require Import Prelude Spinlock CType CString CStringSpec KLog KLogSpec.
#[local] Open Scope Z_scope.

(** ** Screens *)

(** A character and its attribute. *)
Abbreviation cell := (Z * Z)%type.

Record screen := Screen { cells : list cell; offset : Z; srow : Z }.

Definition bytes_of_cell (c : cell) : list Z := [c.1; c.2].

Definition flat (cs : list cell) : list Z := concat (bytes_of_cell <$> cs).

(** The cell that [0xf00 | c] is; [c] is signed. *)
Definition glyph (c : Z) : cell := let v := Z.lor 0xf00 (s8 c) in (u8 v, u8 (Z.shiftr v 8)).

Definition blank_cell : cell := (0x20, 0x07).

Definition row_cells : nat := 80.

Definition scroll (sc : screen) : screen :=
  Screen (drop row_cells (cells sc) ++ replicate row_cells blank_cell) 1920 24.

Definition show1 (sc : screen) (c : Z) : screen :=
  let sc' :=
    if c =? 10 then
      if 24 <? srow sc + 1 then scroll sc
      else Screen (cells sc) (offset sc + (80 - offset sc mod 80)) (srow sc + 1)
    else Screen (<[Z.to_nat (offset sc) := glyph c]> (cells sc)) (offset sc + 1) (srow sc) in
  if 2000 <=? offset sc' then scroll sc' else sc'.

Definition show (cs : list Z) (sc : screen) : screen := foldl show1 sc cs.

(** The size of the screen, and the cursor on it. *)
Record screen_ok (sc : screen) : Prop := ScreenOk {
  sk_size : Z.of_nat (length (cells sc)) = 2000;
  sk_bytes : Forall (λ c, is_byte c.1 ∧ is_byte c.2) (cells sc);
  sk_offset : 0 ≤ offset sc < 2000;
  sk_row : 0 ≤ srow sc ≤ 24 }.

Lemma flat_app xs ys : flat (xs ++ ys) = flat xs ++ flat ys.
Proof. unfold flat. by rewrite fmap_app, concat_app. Qed.

Lemma flat_length cs : length (flat cs) = (2 * length cs)%nat.
Proof. induction cs as [|c cs IH]; [done|]. unfold flat in *. cbn in *. lia. Qed.

Lemma flat_len cs : len (flat cs) = 2 * Z.of_nat (length cs).
Proof. unfold len. rewrite flat_length. lia. Qed.

Lemma flat_insert i c cs :
  flat (<[i := c]> cs) = <[S (2 * i) := c.2]> (<[(2 * i)%nat := c.1]> (flat cs)).
Proof.
  revert i. induction cs as [|d cs IH]; intros [|i]; [done..|].
  cbn [insert list_insert]. unfold flat in *. cbn [fmap list_fmap concat bytes_of_cell app].
  rewrite IH. replace (2 * S i)%nat with (S (S (2 * i))) by lia. done.
Qed.

Lemma flat_bytes cs : Forall (λ c, is_byte c.1 ∧ is_byte c.2) cs → Forall is_byte (flat cs).
Proof.
  induction 1 as [|c cs [] ? IH]; [by apply Forall_nil|]. change (flat (c :: cs)) with (c.1 :: c.2 :: flat cs).
  apply Forall_cons. split; [done|]. apply Forall_cons. done.
Qed.

Lemma glyph_bytes c : is_byte (glyph c).1 ∧ is_byte (glyph c).2.
Proof. split; apply uwrap_range; lia. Qed.

Lemma blank_bytes : is_byte blank_cell.1 ∧ is_byte blank_cell.2.
Proof. unfold is_byte, blank_cell. cbn. lia. Qed.

Lemma scroll_ok sc : Z.of_nat (length (cells sc)) = 2000 →
  Forall (λ c, is_byte c.1 ∧ is_byte c.2) (cells sc) → screen_ok (scroll sc).
Proof.
  intros Hl Hb. split; cbn [scroll cells offset srow]; [| |lia|lia].
  - rewrite length_app, length_drop, length_replicate. unfold row_cells. lia.
  - apply Forall_app. split; [by apply Forall_drop|]. apply Forall_replicate, blank_bytes.
Qed.

Lemma show1_ok sc c : screen_ok sc → screen_ok (show1 sc c).
Proof.
  intros [Hl Hb Ho Hr]. unfold show1. cbv zeta. destruct (c =? 10).
  - destruct (Z.ltb_spec 24 (srow sc + 1)); [by apply scroll_ok|].
    cbn [offset]. destruct (Z.leb_spec 2000 (offset sc + (80 - offset sc mod 80))); [by apply scroll_ok|].
    split; cbn [cells offset srow]; try done; [|lia]. pose proof (Z.mod_pos_bound (offset sc) 80). lia.
  - cbn [offset]. destruct (Z.leb_spec 2000 (offset sc + 1)).
    + apply scroll_ok; cbn [cells]; [by rewrite length_insert|]. apply Forall_insert; [done|apply glyph_bytes].
    + split; cbn [cells offset srow]; [by rewrite length_insert| |lia|lia].
      apply Forall_insert; [done|apply glyph_bytes].
Qed.

Lemma show_ok cs : ∀ sc, screen_ok sc → screen_ok (show cs sc).
Proof. induction cs as [|c cs IH]; intros sc H; [done|]. by apply IH, show1_ok. Qed.

(** ** Screens in memory *)

Definition in_screen (b a : Z) : Prop := b ≤ a < b + 4000.

Record scr_rep (s : console) (sc : screen) : Prop := ScrRep {
  sr_cells : bytes_at (kl_mem (co_log s)) (screenBase s) (flat (cells sc));
  sr_offset : screenOffset s = offset sc;
  sr_line : line s = srow sc;
  sr_ok : screen_ok sc }.

(** What printing leaves alone. *)
Record scr_keeps (s s' : console) : Prop := ScrKeeps {
  ck_log : ∃ m, co_log s' = with_mem m (co_log s) ∧
    ∀ a, ¬ in_screen (screenBase s) a → m !! a = kl_mem (co_log s) !! a;
  ck_base : screenBase s' = screenBase s;
  ck_ctr : klog_ctr s' = klog_ctr s }.

Lemma with_mem_id s : with_mem (kl_mem s) s = s.
Proof. by destruct s. Qed.

Lemma scr_keeps_refl s : scr_keeps s s.
Proof. split; [|done..]. exists (kl_mem (co_log s)). by rewrite with_mem_id. Qed.

Lemma scr_keeps_trans s1 s2 s3 : scr_keeps s1 s2 → scr_keeps s2 s3 → scr_keeps s1 s3.
Proof.
  intros [(m1 & E1 & F1) B1 C1] [(m2 & E2 & F2) B2 C2]. split; [|congruence..].
  exists m2. rewrite E2, E1. split; [done|]. intros a Ha. rewrite F2 by (by rewrite B1).
  rewrite E1. by apply F1.
Qed.

(** A state with the given memory. *)
Definition con_mem (m : mem) (s : console) : console :=
  Console (with_mem m (co_log s)) (screenBase s) (screenOffset s) (line s) (klog_ctr s).

Lemma wp_on_chars {A} (m : M mem A) s (Q : A → console → Prop) :
  wp m (kl_mem (co_log s)) (λ a m', Q a (con_mem m' s)) → wp (on_chars m) s Q.
Proof. intros H. unfold on_chars, on_log. apply wp_zoom, wp_on_mem. exact H. Qed.

Lemma con_mem_keeps s m' :
  (∀ a, ¬ in_screen (screenBase s) a → m' !! a = kl_mem (co_log s) !! a) → scr_keeps s (con_mem m' s).
Proof. intros H. split; [|done..]. exists m'. done. Qed.

Lemma wp_st_cell s cs i v (Q : unit → console → Prop) :
  Z.of_nat (length cs) = 2000 → bytes_at (kl_mem (co_log s)) (screenBase s) (flat cs) → 0 ≤ i < 2000 →
  (∀ m', bytes_at m' (screenBase s) (flat (<[Z.to_nat i := (u8 v, u8 (Z.shiftr v 8))]> cs)) →
    scr_keeps s (con_mem m' s) → Q tt (con_mem m' s)) →
  wp (st_cell i v) s Q.
Proof.
  intros Hl H Hi HQ. unfold st_cell. wp_go. apply wp_on_chars. wp_go.
  assert (room (kl_mem (co_log s)) (screenBase s) (2 * length cs)) as Hr
    by (rewrite <- flat_length; by apply bytes_at_room).
  apply wp_stb; [apply Hr; lia|]. apply wp_stb; [apply (room_insert _ _ _ _ _ Hr); lia|]. apply HQ.
  - rewrite flat_insert. cbn [fst snd].
    replace (screenBase s + 2 * i) with (screenBase s + Z.of_nat (2 * Z.to_nat i)) by lia.
    replace (_ + _ + 1) with (screenBase s + Z.of_nat (S (2 * Z.to_nat i))) by lia.
    apply bytes_insert_at; [rewrite length_insert, flat_length; lia|].
    apply bytes_insert_at; [rewrite flat_length; lia|done].
  - apply con_mem_keeps. unfold in_screen. intros a Ha. rewrite !lookup_insert_ne by lia. done.
Qed.

Lemma wp_blank_loop n : ∀ s pre old o i (Q : unit → console → Prop),
  Z.of_nat (length (pre ++ old)) = 2000 → (n ≤ length old)%nat → o + i = Z.of_nat (length pre) →
  bytes_at (kl_mem (co_log s)) (screenBase s) (flat (pre ++ old)) →
  (∀ m', bytes_at m' (screenBase s) (flat ((pre ++ replicate n blank_cell) ++ drop n old)) →
    scr_keeps s (con_mem m' s) → Q tt (con_mem m' s)) →
  wp (blank_loop n o i) s Q.
Proof.
  induction n as [|n IH]; intros s pre old o i Q Hl Hn Hi H HQ; cbn [blank_loop].
  - wp_go. assert (con_mem (kl_mem (co_log s)) s = s) as Es by (destruct s as [[] ? ? ? ?]; done).
    rewrite app_nil_r, drop_0 in HQ. rewrite <- Es. apply HQ; [done|by apply con_mem_keeps].
  - destruct old as [|x old]; [cbn in Hn; lia|]. cbn [length] in Hn. rewrite length_app in Hl. cbn [length] in Hl.
    wp_step. eapply (wp_st_cell _ (pre ++ x :: old)); [rewrite length_app; cbn [length]; lia|done|lia|].
    change (u8 0x0720, u8 (Z.shiftr 0x0720 8)) with blank_cell. intros m1 H1 K1.
    rewrite Hi, Nat2Z.id, insert_app_r_alt, Nat.sub_diag in H1 by done.
    change (<[0%nat:=blank_cell]> (x :: old)) with ([blank_cell] ++ old) in H1. rewrite app_assoc in H1.
    apply (IH _ (pre ++ [blank_cell]) old); [|lia| |done|].
    + rewrite !length_app. cbn [length]. lia.
    + rewrite length_app. cbn [length]. lia.
    + intros m2 H2 K2. apply (HQ m2); [|by eapply (scr_keeps_trans _ _ _ K1)].
      rewrite <- app_assoc. rewrite <- !(app_assoc pre), <- app_assoc in H2. exact H2.
Qed.

Lemma wp_screenup s sc (Q : unit → console → Prop) :
  Z.of_nat (length (cells sc)) = 2000 → Forall (λ c, is_byte c.1 ∧ is_byte c.2) (cells sc) →
  bytes_at (kl_mem (co_log s)) (screenBase s) (flat (cells sc)) →
  (∀ s', scr_rep s' (scroll sc) → scr_keeps s s' → Q tt s') → wp _screenup s Q.
Proof.
  intros Hl Hb H HQ. set (cs := cells sc) in *. set (rest := drop row_cells cs).
  assert (Z.of_nat (length rest) = 1920) as Hrl by (unfold rest; rewrite length_drop; unfold row_cells; lia).
  assert (len (flat rest) = 3840) as Hrf by (rewrite flat_len; lia).
  assert (room (kl_mem (co_log s)) (screenBase s) (2 * length cs)) as Hr
    by (rewrite <- flat_length; by apply bytes_at_room).
  assert (bytes_at (kl_mem (co_log s)) (screenBase s + 160) (flat rest)) as Hsrc.
  { rewrite <- (take_drop row_cells cs), flat_app, bytes_at_app in H. destruct H as [_ H].
    rewrite flat_len, length_take in H. replace (2 * _) with 160 in H by (unfold row_cells; lia). done. }
  unfold _screenup. wp_go. apply wp_on_chars.
  change (SCREEN_WIDTH * SCREEN_HEIGHT * 2 - SCREEN_WIDTH * 2) with 3840. change (2 * SCREEN_WIDTH) with 160.
  rewrite <- Hrf. apply wp_memcpy; [lia|apply flat_bytes; by apply Forall_drop|done| |unfold up_ok; lia|].
  { intros a Ha. apply Hr. rewrite flat_length in Ha. lia. }
  wp_go. unfold set_offset, set_line. wp_go. cbn [con_mem co_log screenBase screenOffset line klog_ctr].
  change ((SCREEN_HEIGHT - 1) * SCREEN_WIDTH) with 1920.
  set (m1 := bytes_put _ _ _).
  assert (bytes_at m1 (screenBase s) (flat (rest ++ drop (length rest) cs))) as H1.
  { rewrite flat_app. apply (bytes_put_over _ _ (flat (take (length rest) cs))).
    - rewrite !flat_length, length_take. lia.
    - by rewrite <- flat_app, take_drop. }
  eapply (wp_blank_loop _ (Console (with_mem m1 (co_log s)) (screenBase s) 1920 (line s) (klog_ctr s))
    rest (drop (length rest) cs)); [| | |exact H1|].
  - rewrite length_app, length_drop. lia.
  - rewrite length_drop. change (Z.to_nat SCREEN_WIDTH) with 80%nat. lia.
  - lia.
  - intros m2 H2 K2. wp_go. apply HQ.
    + change (Z.to_nat SCREEN_WIDTH) with row_cells in H2.
      rewrite (drop_ge (drop _ cs)), app_nil_r in H2 by (rewrite length_drop; unfold row_cells; lia).
      split; [exact H2|done|done|by apply scroll_ok].
    + destruct K2 as [(m3 & E3 & F3) B3 C3]. split; [|done..]. exists m2. split; [done|].
      intros a Ha. assert (m3 = m2) as -> by (by apply (f_equal kl_mem) in E3). rewrite F3 by done.
      change (m1 !! a = kl_mem (co_log s) !! a). apply bytes_put_out. unfold in_screen in Ha. rewrite Hrf. lia.
Qed.

Lemma wp_put_screen s sc c (Q : unit → console → Prop) :
  scr_rep s sc → 0 < c < 256 →
  (∀ s', scr_rep s' (show1 sc c) → scr_keeps s s' → Q tt s') → wp (put_screen (s8 c)) s Q.
Proof.
  intros [H Eo El Hk] Hc HQ. pose proof Hk as [Hl Hb Ho Hr].
  unfold put_screen. change 10 with (s8 10). rewrite s8_eqb by (unfold is_byte; lia).
  unfold show1 in HQ. cbv zeta in HQ. apply wp_bind.
  destruct (c =? 10); unfold set_line, set_offset; wp_go; cbn [screenOffset line screenBase co_log klog_ctr];
    rewrite ?Eo, ?El.
  - rewrite uwrap_small by lia. change (SCREEN_HEIGHT - 1) with 24. destruct (Z.ltb_spec 24 (srow sc + 1)).
    + eapply (wp_screenup _ sc); [done|done|done|]. intros s1 H1 K1. wp_go.
      rewrite (sr_offset _ _ H1). cbn [scroll offset] in *. cbn. wp_go. apply HQ; [done|].
      destruct K1 as [K B C]. by split.
    + wp_go. cbn [screenOffset line screenBase co_log klog_ctr]. rewrite ?Eo.
      pose proof (Z.mod_pos_bound (offset sc) 80 ltac:(lia)) as Hm.
      change SCREEN_WIDTH with 80. rewrite uwrap_small by lia. change (80 * SCREEN_HEIGHT) with 2000.
      cbn [offset] in HQ. apply wp_when; intros E; rewrite E in HQ; bool_to_prop.
      * eapply (wp_screenup _ (Screen (cells sc) (offset sc + (80 - offset sc mod 80)) (srow sc + 1))); [done|done|done|].
        intros s1 H1 K1. apply HQ; [done|]. destruct K1 as [K B C]. by split.
      * apply HQ; [split; try done; by split; cbn [cells offset srow]; try done; lia|].
        split; [|done..]. exists (kl_mem (co_log s)). by rewrite with_mem_id.
  - rewrite uwrap_small by lia. eapply (wp_st_cell _ (cells sc)); [done|done|done|].
    intros m1 H1 K1. wp_go. cbn [con_mem screenOffset]. change (SCREEN_WIDTH * SCREEN_HEIGHT) with 2000.
    fold (glyph c) in H1. cbn [offset] in HQ.
    assert (Forall (λ d, is_byte d.1 ∧ is_byte d.2) (<[Z.to_nat (offset sc) := glyph c]> (cells sc))) as Hb'
      by (apply Forall_insert; [done|apply glyph_bytes]).
    destruct K1 as [K1 B1 C1]. apply wp_when; intros E; rewrite E in HQ; bool_to_prop.
    + eapply (wp_screenup _ (Screen _ (offset sc + 1) (srow sc))); [by cbn [cells]; rewrite length_insert|done|exact H1|].
      intros s2 H2 K2. apply HQ; [done|]. eapply scr_keeps_trans; [|exact K2]. by split.
    + apply HQ; [|by split]. split; cbn [cells offset srow con_mem screenOffset line]; try done.
      split; cbn [cells offset srow]; [by rewrite length_insert|done|lia|lia].
Qed.

Lemma wp__puts_loop fuel : ∀ cs s sc p (Q : unit → console → Prop),
  (length cs < fuel)%nat → scr_rep s sc → str_at (kl_mem (co_log s)) p cs →
  (∀ a, p ≤ a ≤ p + len cs → ¬ in_screen (screenBase s) a) →
  (∀ s', scr_rep s' (show cs sc) → scr_keeps s s' → Q tt s') → wp (_puts_loop fuel p) s Q.
Proof.
  induction fuel as [|fuel IH]; intros cs s sc p Q Hf H Hs Ha HQ; [lia|]. cbn [_puts_loop].
  assert (con_mem (kl_mem (co_log s)) s = s) as Es by (destruct s as [[] ? ? ? ?]; done).
  destruct cs as [|c cs]; cbn [length] in Hf; simpl in Hs.
  - wp_step. apply wp_on_chars. eapply wp_ldc; [done|]. rewrite Es. change (negb _) with false. wp_go.
    apply HQ; [done|apply scr_keeps_refl].
  - destruct Hs as (Hm & Hc & Hs). rewrite len_cons in Ha. pose proof (len_nonneg cs).
    wp_step. apply wp_on_chars. eapply wp_ldc; [done|]. rewrite Es.
    rewrite s8_eqb0, (proj2 (Z.eqb_neq c 0)) by (unfold is_byte; lia). cbn [negb]. wp_step.
    eapply wp_put_screen; [done|done|]. intros s1 H1 K1. pose proof K1 as [(m1 & E1 & F1) B1 _].
    apply (IH cs _ (show1 sc c)); [lia|done| | |].
    + rewrite E1. eapply str_at_frame; [|done]. intros a Hr. apply F1, Ha. lia.
    + intros a Hr. rewrite B1. apply Ha. lia.
    + intros s2 H2 K2. apply HQ; [done|by eapply scr_keeps_trans].
Qed.

Lemma wp__puts s sc p cs (Q : Z → console → Prop) :
  scr_rep s sc → str_at (kl_mem (co_log s)) p cs →
  (∀ a, p ≤ a ≤ p + len cs → ¬ in_screen (screenBase s) a) →
  (∀ s', scr_rep s' (show cs sc) → scr_keeps s s' → Q 0 s') → wp (_puts p) s Q.
Proof.
  intros H Hs Ha HQ. unfold _puts. wp_go.
  eapply wp__puts_loop; [by eapply str_at_fuel|done..|]. intros s1 H1 K1. wp_go. by apply HQ.
Qed.

(** ** Fetching rows *)

(** The characters of a row, up to a zero. *)
Fixpoint text (r : list Z) : list Z :=
  match r with
  | [] => []
  | c :: r => if c =? 0 then [] else c :: text r
  end.

(** What is printed for a row. *)
Definition row_text (r : list Z) : list Z := text r ++ (if nth 63 r 0 =? 0 then [10] else []).

(** What is printed for the last [k] rows but the current one. *)
Fixpoint rows_text (L : alog) (k : nat) : list Z :=
  match k with
  | O => []
  | S k' => row_text (row_back L k) ++ rows_text L k'
  end.

Lemma text_at m p r : Forall is_byte r → bytes_at m p (r ++ [0]) → str_at m p (text r).
Proof.
  intros H. revert p. induction H as [|c r Hc Hr IH]; intros p; cbn [app text bytes_at].
  - by intros [? _].
  - intros [Hm Hb]. destruct (Z.eqb_spec c 0) as [->|]; [done|]. cbn [str_at].
    split_and!; [done|unfold is_byte in Hc; lia..|by apply IH].
Qed.

Lemma text_len r : len (text r) ≤ len r.
Proof. induction r as [|c r IH]; [done|]. cbn [text]. destruct (c =? 0); rewrite ?len_cons; [|lia]. pose proof (len_nonneg r). unfold len at 1. cbn. lia. Qed.

(** The console between two calls, with buffers [tmp] and [nl] that a caller has for it. *)
Record is_console (s : console) (L : alog) (sc : screen) (tmp nl : Z) : Prop := IsConsole {
  ic_log : is_klog (co_log s) L;
  ic_screen : scr_rep s sc;
  ic_base : screenBase s ≠ NULL;
  ic_apart : ∀ a, in_screen (screenBase s) a → ¬ in_book (logbook (co_log s)) a;
  ic_tmp : buffer (co_log s) tmp 65;
  ic_nl : buffer (co_log s) nl 2;
  ic_null : tmp ≠ NULL;
  ic_ctr : Prelude.word (klog_ctr s);
  ic_tmp_screen : apart tmp 65 (screenBase s) 4000;
  ic_nl_screen : apart nl 2 (screenBase s) 4000;
  ic_tmp_nl : apart tmp 65 nl 2 }.

(** The buffers with their terminators. *)
Definition ready (s : console) (L : alog) (sc : screen) (tmp nl : Z) : Prop :=
  is_console s L sc tmp nl ∧
  kl_mem (co_log s) !! (tmp + 64) = Some 0 ∧ str_at (kl_mem (co_log s)) nl [10].

Lemma room_frame m m' p n :
  (∀ a, p ≤ a < p + Z.of_nat n → m' !! a = m !! a) → room m p n → room m' p n.
Proof. intros Hf H a Ha. rewrite Hf by done. by apply H. Qed.

(** Stores that stay off the book, the screen and the buffers. *)
Lemma is_console_frame s s' L sc sc' tmp nl m' :
  is_console s L sc tmp nl → co_log s' = with_mem m' (co_log s) → screenBase s' = screenBase s →
  (∀ a, in_book (logbook (co_log s)) a → m' !! a = kl_mem (co_log s) !! a) →
  room m' tmp 65 → room m' nl 2 → scr_rep s' sc' → Prelude.word (klog_ctr s') →
  is_console s' L sc' tmp nl.
Proof.
  intros [(Hl & Hr & Hc) Hs Hb Ha [_ Ht] [_ Hn] H0 Hk A1 A2 A3] E Eb Hf Rt Rn Hs' Hk'.
  split; rewrite ?E, ?Eb; try done.
  - split_and!; [done|by apply rep_outside|done].
Qed.

(** A store into one of the buffers. *)
Lemma is_console_put s L sc tmp nl p bs :
  is_console s L sc tmp nl →
  tmp ≤ p ∧ p + len bs ≤ tmp + 65 ∨ nl ≤ p ∧ p + len bs ≤ nl + 2 →
  is_console (con_mem (bytes_put p bs (kl_mem (co_log s))) s) L sc tmp nl.
Proof.
  intros H Hp. pose proof H as [(Hl & Hr & Hc) [Hcl ? ? ?] Hb Ha [Rt Ht] [Rn Hn] H0 Hk A1 A2 A3].
  assert (∀ a, p ≤ a < p + len bs → ¬ in_book (logbook (co_log s)) a) as Hout.
  { intros a Hpa. destruct Hp as [Hp|Hp]; [apply Ht|apply Hn]; lia. }
  eapply (is_console_frame s); [done|done|done| | | | |done].
  - intros a Hin. apply bytes_put_out. intros Hpa. by apply (Hout a).
  - by apply room_put.
  - by apply room_put.
  - split; [|done..]. cbn. apply bytes_at_put_keep; [|done].
    destruct sr_ok0 as [Hlc _ _ _]. rewrite flat_len, Hlc. unfold apart in *. lia.
Qed.

Lemma is_console_print s s' L sc sc' tmp nl :
  is_console s L sc tmp nl → scr_rep s' sc' → scr_keeps s s' → is_console s' L sc' tmp nl.
Proof.
  intros H Hs [(m & E & F) Eb Ec].
  pose proof H as [_ _ _ Ha [Rt _] [Rn _] _ Hk A1 A2 _]. unfold apart in *.
  eapply is_console_frame; [done|done|done| | | |done|by rewrite Ec].
  - intros a Hin. apply F. intros Hsc. by apply (Ha a).
  - eapply room_frame; [|done]. intros a Hr. apply F. unfold in_screen. lia.
  - eapply room_frame; [|done]. intros a Hr. apply F. unfold in_screen. lia.
Qed.

Lemma ready_print s s' L sc sc' tmp nl :
  ready s L sc tmp nl → scr_rep s' sc' → scr_keeps s s' → ready s' L sc' tmp nl.
Proof.
  intros (H & Ht & Hn) Hs K. pose proof H as [_ _ _ _ _ _ _ _ A1 A2 _].
  split; [by eapply is_console_print|]. destruct K as [(m & E & F) _ _]. rewrite E. cbn [with_mem kl_mem].
  unfold apart in *. split.
  - rewrite F; [done|]. unfold in_screen. lia.
  - eapply str_at_frame; [|done]. intros a Ha. unfold len in Ha. cbn in Ha. apply F. unfold in_screen. lia.
Qed.

(** The number of rows a reader is behind. *)
Definition behind (s : console) : Z := rows_ago (row_counter (co_log s)) (klog_ctr s).

Lemma rows_ago_range n c : 0 ≤ rows_ago n c ≤ 127.
Proof. unfold rows_ago. pose proof (uwrap_range 32 (n - c) ltac:(lia)). lia. Qed.

Lemma rows_ago_0 n c : Prelude.word n → Prelude.word c → rows_ago n c = 0 ↔ n = c.
Proof. unfold Prelude.word, rows_ago, uwrap. intros. split; Z.to_euclidean_division_equations; lia. Qed.

Lemma rows_ago_back n k : 0 ≤ k ≤ 127 → rows_ago n (u32 (n - k)) = k.
Proof.
  intros Hk. unfold rows_ago, uwrap. rewrite Zminus_mod_idemp_r.
  replace (n - (n - k)) with k by lia. rewrite Z.mod_small; lia.
Qed.

Lemma ic_word s L sc tmp nl : is_console s L sc tmp nl → Prelude.word (row_counter (co_log s)).
Proof. intros [(_ & [] & _) _ _ _ _ _ _ _ _ _ _]. rewrite kr_count. apply word_u32. Qed.

(** A row in the buffer, with the terminator after it. *)
Lemma ready_row s L sc tmp nl i :
  ready s L sc tmp nl → ready (con_mem (bytes_put tmp (row_back L i) (kl_mem (co_log s))) s) L sc tmp nl.
Proof.
  intros (H & Ht & Hn). pose proof H as [(_ & Hr & _) _ _ _ _ _ _ _ _ _ A3].
  pose proof (row_back_len L i (kr_rows _ _ Hr)) as El. unfold apart in A3. split; [|split].
  - apply is_console_put; [done|]. lia.
  - cbn. rewrite bytes_put_out by lia. done.
  - cbn -[str_at]. eapply str_at_frame; [|done]. intros a Ha. apply bytes_put_out.
    unfold len in Ha at 1. cbn in Ha. lia.
Qed.

Lemma ready_ctr s L sc tmp nl c :
  Prelude.word c → ready s L sc tmp nl →
  ready (Console (co_log s) (screenBase s) (screenOffset s) (line s) c) L sc tmp nl.
Proof. intros Hc ([? [] ? ? ? ? ? ? ? ? ?] & Ht & Hn). split; [|done]. by split; [|split| | | | | | | | |]. Qed.

(** Fetching leaves the counter of the rows and the processor alone. *)
Definition same_log (s s' : console) : Prop :=
  row_counter (co_log s') = row_counter (co_log s) ∧ kl_cpu (co_log s') = kl_cpu (co_log s).

Lemma wp_fetch_row s L sc tmp nl (Q : bool → console → Prop) :
  ready s L sc tmp nl →
  let k := behind s in
  (k = 0 → ∀ s', ready s' L sc tmp nl → klog_ctr s' = row_counter (co_log s') →
    same_log s s' → Q false s') →
  (0 < k → ∀ s', ready s' L (show (row_text (row_back L (Z.to_nat k))) sc) tmp nl →
    same_log s s' → klog_ctr s' = u32 (row_counter (co_log s) - (k - 1)) →
    Q true s') →
  wp (fetch_row tmp nl) s Q.
Proof.
  intros R k H0 H1. pose proof R as (H & _). pose proof H as [Hlog Hs _ _ [Rt Ht] _ Hnull Hk A1 A2 _].
  set (n := row_counter (co_log s)) in *.
  assert (Prelude.word n) as Hn by (by eapply ic_word). pose proof (rows_ago_range n (klog_ctr s)) as Hkr.
  fold n in k. change (behind s) with (rows_ago n (klog_ctr s)) in k. fold k in Hkr.
  unfold fetch_row, on_log. wp_go. eapply wp_klog_get_new_row; [done| |done|done|].
  { split; [intros a Ha; apply Rt; unfold cols in Ha; lia|intros a Ha; apply Ht; unfold cols in Ha; lia]. }
  fold n. fold k. wp_go. set (r := row_back L (Z.to_nat k)).
  set (s1 := Console (with_mem (bytes_put tmp r (kl_mem (co_log s))) (co_log s)) (screenBase s)
    (screenOffset s) (line s) (klog_ctr s)).
  assert (ready s1 L sc tmp nl) as R1 by (by apply (ready_row s)).
  destruct (decide (k = 0)) as [E0|Hk0].
  - assert (n = klog_ctr s) as Ec by (by apply rows_ago_0).
    rewrite E0. change (Z.max 0 (0 - 1)) with 0. rewrite Z.sub_0_r. rewrite (uwrap_small 32 n) by done.
    rewrite <- Ec, Z.eqb_refl.
    cbn [negb]. wp_go. apply H0; [done|done|by symmetry|done].
  - rewrite Z.max_r by lia. set (c := u32 (n - (k - 1))).
    assert (klog_ctr s ≠ c) as Hne.
    { intros E. pose proof (rows_ago_back n (k - 1) ltac:(lia)) as E1. fold c in E1. rewrite <- E in E1.
      fold k in E1. lia. }
    rewrite (proj2 (Z.eqb_neq _ _) Hne). cbn [negb].
    pose proof R1 as (C1 & T1 & N1). pose proof C1 as [(_ & Hrep1 & _) Hs1 _ _ _ _ _ _ _ _ _].
    destruct (row_back_ok L (Z.to_nat k) (kr_rows _ _ Hrep1)) as [El Hrb]. fold r in El, Hrb.
    assert (len r = 64) as Elen by (unfold len; by rewrite El).
    assert (bytes_at (kl_mem (co_log s1)) tmp (r ++ [0])) as Hbs.
    { apply bytes_at_app. split; [apply bytes_at_put|]. rewrite Elen. done. }
    wp_step. eapply (wp__puts s1 sc tmp (text r)); [done|by apply text_at| |].
    { intros a Ha. pose proof (text_len r). unfold in_screen, apart in *. cbn. lia. }
    intros s2 S2 K2. assert (ready s2 L (show (text r) sc) tmp nl) as R2 by (by eapply ready_print).
    pose proof K2 as [(m2 & E2 & F2) B2 K2c].
    assert (kl_mem (co_log s2) !! (tmp + 63) = Some (nth 63 r 0)) as Hlast.
    { rewrite E2. cbn [with_mem kl_mem]. rewrite F2 by (unfold in_screen, apart in *; cbn; lia).
      apply bytes_at_app in Hbs as [Hbs _]. rewrite bytes_at_lookup in Hbs. apply (Hbs 63%nat).
      destruct (nth_lookup_or_length r 63 0) as [|Hle]; [done|]. rewrite El in Hle. unfold cols in Hle. lia. }
    assert (is_byte (nth 63 r 0)) as Hb63 by (apply Forall_nth; [done|rewrite El; unfold cols; lia]).
    assert (con_mem (kl_mem (co_log s2)) s2 = s2) as Es by (destruct s2 as [[] ? ? ? ?]; done).
    assert (same_log s s2) as [En Ecpu] by (unfold same_log; by rewrite E2).
    fold n in En.
    wp_step. apply wp_on_chars. change (tmp + (KLOG_N_COLS - 1)) with (tmp + 63).
    eapply wp_ldc; [exact Hlast|]. rewrite Es, s8_eqb0 by done. unfold row_text in H1. fold r in H1.
    unfold show in H1. rewrite foldl_app in H1. fold (show (text r) sc) in H1. wp_step. apply wp_when; intros E; rewrite E in H1.
    + wp_step. pose proof R2 as (C2 & _ & N2). pose proof C2 as [_ _ _ _ _ _ _ _ _ A2' _].
      eapply (wp__puts s2 _ nl [10]); [done|done| |].
      { intros a Ha. unfold in_screen, apart, len in *. cbn in Ha. lia. }
      intros s3 S3 K3. assert (ready s3 L (show [10] (show (text r) sc)) tmp nl) as R3 by (by eapply ready_print).
      unfold set_klog_ctr. wp_go. destruct K3 as [(m3 & E3 & _) _ _].
      apply H1; [lia| |split; cbn; by rewrite E3|done].
      apply ready_ctr; [apply word_u32|done].
    + unfold set_klog_ctr. wp_go. apply H1; [lia|apply ready_ctr; [apply word_u32|done]|by split|done].
Qed.

(** Everything that is there to be fetched. *)
Lemma wp_fetch_loop fuel : ∀ s L sc tmp nl (Q : unit → console → Prop),
  ready s L sc tmp nl → (Z.to_nat (behind s) < fuel)%nat →
  (∀ s', ready s' L (show (rows_text L (Z.to_nat (behind s))) sc) tmp nl →
    klog_ctr s' = row_counter (co_log s') → same_log s s' → Q tt s') →
  wp (fetch_loop fuel tmp nl) s Q.
Proof.
  induction fuel as [|fuel IH]; intros s L sc tmp nl Q R Hf HQ; [lia|]. cbn [fetch_loop].
  assert (0 ≤ behind s ≤ 127) as Hb by apply rows_ago_range. wp_step.
  eapply wp_fetch_row; [done| |].
  - intros E s1 R1 Ec En. rewrite E in HQ. wp_go. apply HQ; [done|done|done].
  - intros Hk s1 R1 [En Ecpu] Ec.
    assert (behind s1 = behind s - 1) as E1 by (unfold behind at 1; rewrite En, Ec; apply rows_ago_back; lia).
    eapply IH; [exact R1|lia|]. intros s2 R2 E2 [En2 Ecpu2]. apply HQ; [|done|split; congruence].
    rewrite E1 in R2. replace (Z.to_nat (behind s)) with (S (Z.to_nat (behind s - 1))) in * by lia.
    cbn [rows_text]. unfold show in *. rewrite foldl_app. exact R2.
Qed.

(** [_dump_klog] shows the rows that were written since the last time, the oldest first. *)
Lemma wp_dump_klog s L sc tmp nl (Q : unit → console → Prop) :
  is_console s L sc tmp nl →
  (∀ s', is_console s' L (show (rows_text L (Z.to_nat (behind s))) sc) tmp nl →
    klog_ctr s' = row_counter (co_log s') → same_log s s' → Q tt s') →
  wp (_dump_klog tmp nl) s Q.
Proof.
  intros H HQ. pose proof H as [_ _ Hb0 _ [Rt _] [Rn _] _ _ _ _ A3]. unfold apart in A3.
  unfold _dump_klog. wp_step. apply wp_on_chars. wp_step.
  apply wp_stb; [apply Rn; lia|]. apply wp_stb; [apply (room_insert _ _ _ _ _ Rn); lia|]. wp_step. wp_step.
  change (u8 10) with 10. change (u8 0) with 0.
  change (<[nl + 1 := 0]> (<[nl := 10]> (kl_mem (co_log s)))) with (bytes_put nl [10; 0] (kl_mem (co_log s))).
  assert (is_console (con_mem (bytes_put nl [10; 0] (kl_mem (co_log s))) s) L sc tmp nl) as H1.
  { apply is_console_put; [done|]. right. unfold len. cbn. lia. }
  set (s1 := con_mem _ s) in *. change (screenBase s1) with (screenBase s).
  rewrite (proj2 (Z.eqb_neq _ _) Hb0). wp_step. apply wp_on_chars.
  pose proof H1 as [_ _ _ _ [Rt1 _] _ _ _ _ _ _].
  apply wp_stb; [apply Rt1; unfold KLOG_N_COLS; lia|]. change (u8 0) with 0. change KLOG_N_COLS with 64.
  change (<[tmp + 64 := 0]> ?m) with (bytes_put (tmp + 64) [0] m).
  assert (is_console (con_mem (bytes_put (tmp + 64) [0] (kl_mem (co_log s1))) s1) L sc tmp nl) as H2.
  { apply is_console_put; [done|]. left. unfold len. cbn. lia. }
  eapply (wp_fetch_loop _ _ L sc).
  - split; [done|]. cbn -[str_at bytes_put]. split.
    + cbn [bytes_put]. by rewrite lookup_insert_eq.
    + eapply (str_at_frame (bytes_put nl [10; 0] (kl_mem (co_log s)))).
      * intros a Ha. apply bytes_put_out. unfold len in *. cbn in *. lia.
      * cbn -[Z.add]. split_and!; [|lia|lia|apply lookup_insert_eq].
        rewrite lookup_insert_ne by lia. apply lookup_insert_eq.
  - change (behind (con_mem _ s1)) with (behind s). pose proof (rows_ago_range (row_counter (co_log s)) (klog_ctr s)).
    unfold fetch_fuel, behind. lia.
  - intros s2 (H3 & _) E2 En. by apply HQ.
Qed.
