(* ===== verification/KLogProps.v ===== *)
(** * What the kernel log and the console do

    A string that is put into the log is found in its rows again; a line is laid out in rows
    of 64 characters; a panic shows the rows that the console has not shown yet, with its
    message, and stays within the screen. *)

From stdpp Require Import gmap list.
From S2P Require Import Prelude Spinlock CType CString CStringSpec KLog KLogSpec KLogLines KLogConsole.
#[local] Open Scope Z_scope.

(** Writing [cs], then reading the row [index] into [dst]. *)
Lemma puts_then_get s L str cs dst index :
  is_klog s L → str_at (kl_mem s) str cs → len cs < 2 ^ 32 →
  (∀ a, str ≤ a ≤ str + len cs → ¬ in_book (logbook s) a) →
  buffer s dst cols → dst ≠ NULL → 0 ≤ index < KLOG_N_ROWS →
  ∃ s1, klog_puts str s = Ok (tt, s1) ∧ is_klog s1 (put_string cs L) ∧ klog_keeps s s1 ∧
    wp (klog_get_row index dst) s1 (λ r s2, r = NO_ERROR ∧ is_klog s2 (put_string cs L) ∧
      bytes_at (kl_mem s2) dst (row_back (put_string cs L) (Z.to_nat index)) ∧
      ∀ a, ¬ (dst ≤ a < dst + 64) → kl_mem s2 !! a = kl_mem s1 !! a).
Proof.
  intros H Hs Hn Ha Hb Hd Hi.
  destruct (wp_run (klog_puts str) s tt (λ s1, is_klog s1 (put_string cs L) ∧ klog_keeps s s1))
    as (s1 & E1 & H1 & K1); [eapply wp_klog_puts; [done..|]; by intros s1 H1 K1|].
  exists s1. split_and!; [done..|]. destruct K1 as (_ & Eb & Ho).
  assert (buffer s1 dst cols) as Hb1.
  { destruct Hb as [Hr Hb]. split; [|intros a Hr1; rewrite Eb; by apply Hb].
    intros a Hr1. rewrite Ho by (by apply Hb). by apply Hr. }
  pose proof H1 as (Hl1 & Hrep1 & Hc1).
  assert (length (row_back (put_string cs L) (Z.to_nat index)) = cols) as El
    by (apply row_back_ok; apply Hrep1).
  eapply wp_klog_get_row; [done..|]. split_and!; [done| | |].
  - split_and!; [done| |done]. apply buffer_put; [done|by rewrite El].
  - apply bytes_at_put.
  - intros a Hna. apply bytes_put_out. unfold len. rewrite El. unfold cols. lia.
Qed.

(** ** A log at work *)

Definition log_text : list Z := [111; 107; 10].

(** The array, a screen, two buffers and a string. *)
Definition log_mem : mem :=
  bytes_put 0x30200 (log_text ++ [0]) (bytes_put 0x30100 [0; 0] (bytes_put 0x30000 (replicate 65 0)
    (bytes_put 0x20000 (flat (replicate (Z.to_nat 2000) blank_cell))
      (bytes_put 0x10000 (replicate (Z.to_nat KLOG_LOGBOOK_SIZE) 0) ∅)))).

Definition log_vars : klog := KLogVars (Cpu {[klog_lock := SPIN_UNLOCKED]} true) log_mem 0x10000 0 0 1 0.

Definition log_console : console := Console log_vars 0x20000 0 0 0.

Lemma len_screen : len (flat (replicate (Z.to_nat 2000) blank_cell)) = 4000.
Proof. rewrite flat_len, length_replicate. lia. Qed.

Lemma len_book : len (replicate (Z.to_nat KLOG_LOGBOOK_SIZE) 0) = 8192.
Proof. unfold len. by rewrite length_replicate, Z2Nat.id. Qed.

(** Blocks that are put before others that are apart from them. *)
Ltac keep_blocks :=
  repeat (apply bytes_at_put_keep; [rewrite ?len_screen, ?len_book; vm_compute; intuition discriminate|]);
  apply bytes_at_put.

Lemma log_mem_blocks :
  bytes_at log_mem 0x30200 (log_text ++ [0]) ∧ bytes_at log_mem 0x30100 [0; 0] ∧
  bytes_at log_mem 0x30000 (replicate 65 0) ∧
  bytes_at log_mem 0x20000 (flat (replicate (Z.to_nat 2000) blank_cell)).
Proof. unfold log_mem. split_and!; keep_blocks. Qed.

Lemma log_mem_rows t n : rows_at log_mem 0x10000 t (all_blank n).
Proof.
  intros i Hi. pose proof (zero_rows ∅ 0x10000 t n i Hi) as H. revert H.
  assert (len (row_back (all_blank n) i) = 64) as El by (by rewrite row_back_blank).
  assert (∀ a, row_at 0x10000 t i ≤ a < row_at 0x10000 t i + 64 → 0x10000 ≤ a < 0x12000) as Hr.
  { intros a Ha%row_at_in. exact Ha. }
  apply bytes_at_frame. rewrite El. intros a Ha%Hr. unfold log_mem.
  do 4 (rewrite bytes_put_out by (rewrite ?len_screen; unfold len; cbn; lia)). done.
Qed.

Lemma log_vars_klog : is_klog log_vars (all_blank 1).
Proof.
  split_and!; [done| |cbn; unfold cols; lia].
  apply all_blank_rep; try done; [cbn; lia|]. apply log_mem_rows.
Qed.

Lemma log_buffer p n : (0x30000 ≤ p → p + Z.of_nat n ≤ 0x30041 → buffer log_vars p n)%Z.
Proof.
  intros H1 H2. destruct log_mem_blocks as (_ & _ & Hb & _). apply bytes_at_room in Hb. split.
  - intros a Ha. apply Hb. rewrite length_replicate. lia.
  - intros a Ha. unfold in_book, KLOG_LOGBOOK_SIZE, KLOG_N_ROWS, KLOG_N_COLS. cbn. lia.
Qed.

Lemma log_string : str_at (kl_mem log_vars) 0x30200 log_text ∧
  ∀ a, 0x30200 ≤ a ≤ 0x30200 + len log_text → ¬ in_book (logbook log_vars) a.
Proof.
  destruct log_mem_blocks as (Hs & _). split.
  - apply str_at_bytes. split; [done|]. repeat constructor.
  - unfold in_book, KLOG_LOGBOOK_SIZE, KLOG_N_ROWS, KLOG_N_COLS. cbn. lia.
Qed.

Lemma log_is_console : is_console log_console (all_blank 1)
  (Screen (replicate (Z.to_nat 2000) blank_cell) 0 0) 0x30000 0x30100.
Proof.
  destruct log_mem_blocks as (_ & Hn & _ & Hs). split; try done.
  - apply log_vars_klog.
  - split; try done. split; cbn [cells offset srow]; [by rewrite length_replicate| |lia..].
    apply Forall_replicate, blank_bytes.
  - unfold in_screen, in_book, KLOG_LOGBOOK_SIZE, KLOG_N_ROWS, KLOG_N_COLS. cbn. lia.
  - by apply log_buffer.
  - apply bytes_at_room in Hn. split; [done|].
    unfold in_book, KLOG_LOGBOOK_SIZE, KLOG_N_ROWS, KLOG_N_COLS. cbn. lia.
  - unfold apart. cbn. lia.
  - unfold apart. cbn. lia.
  - unfold apart. lia.
Qed.

(** ** Strings *)

(** C19: a string put into the log changes the circular array as it changes the history of
    rows, wherever in the array the current row is and however many rows it needs, and nothing
    outside of the array; [klog_get_row] hands out the 128 latest rows of that history, the
    one written [index] rows ago for [index], and changes only the caller's buffer. *)
Theorem klog_puts_correct s L str cs dst index :
  is_klog s L → str_at (kl_mem s) str cs → len cs < 2 ^ 32 →
  (∀ a, str ≤ a ≤ str + len cs → ¬ in_book (logbook s) a) →
  buffer s dst cols → dst ≠ NULL → 0 ≤ index < KLOG_N_ROWS →
  ∃ s1 s2, klog_puts str s = Ok (tt, s1) ∧ is_klog s1 (put_string cs L) ∧ klog_keeps s s1 ∧
    klog_get_row index dst s1 = Ok (NO_ERROR, s2) ∧ is_klog s2 (put_string cs L) ∧
    bytes_at (kl_mem s2) dst (row_back (put_string cs L) (Z.to_nat index)) ∧
    ∀ a, ¬ (dst ≤ a < dst + 64) → kl_mem s2 !! a = kl_mem s1 !! a.
Proof.
  intros. destruct (puts_then_get s L str cs dst index) as (s1 & E1 & Hs1 & K1 & W); [done..|].
  apply wp_ok in W as (r & s2 & E2 & -> & Hs2 & B2 & O2). eauto 10.
Qed.

Lemma klog_puts_correct_witness :
  ∃ s1 s2, klog_puts 0x30200 log_vars = Ok (tt, s1) ∧
    is_klog s1 (put_string log_text (all_blank 1)) ∧ klog_keeps log_vars s1 ∧
    klog_get_row 1 0x30000 s1 = Ok (NO_ERROR, s2) ∧ is_klog s2 (put_string log_text (all_blank 1)) ∧
    bytes_at (kl_mem s2) 0x30000 (row_back (put_string log_text (all_blank 1)) (Z.to_nat 1)) ∧
    ∀ a, ¬ (0x30000 ≤ a < 0x30000 + 64) → kl_mem s2 !! a = kl_mem s1 !! a.
Proof.
  apply (klog_puts_correct log_vars (all_blank 1) 0x30200 log_text 0x30000 1);
    [apply log_vars_klog|apply log_string|done|apply log_string|by apply log_buffer|done|done].
Defined.

(** C38: a line of any length without control characters, put into a log whose current row is
    blank, is in the log again in rows of 64 characters: the rows read back in the order of
    writing, with the zeros after the last characters left away, are the line, and after it
    the current row is blank; this as long as the line has less than 128 rows. *)
Theorem klog_puts_line s h str l dst j :
  is_klog s (holding [] h) → str_at (kl_mem s) str (l ++ [10]) → len (l ++ [10]) < 2 ^ 32 →
  Forall plain l → (∀ a, str ≤ a ≤ str + len (l ++ [10]) → ¬ in_book (logbook s) a) →
  buffer s dst cols → dst ≠ NULL → (j ≤ length l / cols < 127)%nat →
  concat (full_rows l) ++ rest_row l = l ∧
  ∃ s1 s2, klog_puts str s = Ok (tt, s1) ∧ is_klog s1 (holding [] (rev (line_rows l) ++ h)) ∧
    klog_get_row (Z.of_nat (length l / cols - j + 1)) dst s1 = Ok (NO_ERROR, s2) ∧
    ∃ r, line_rows l !! j = Some r ∧ bytes_at (kl_mem s2) dst r.
Proof.
  intros H Hs Hn Hp Ha Hb Hd Hj. split; [by eapply full_rows_concat|].
  destruct (puts_then_get s _ str _ dst (Z.of_nat (length l / cols - j + 1)) H Hs Hn Ha Hb Hd)
    as (s1 & E1 & H1 & _ & W); [unfold KLOG_N_ROWS; lia|].
  rewrite put_line in H1, W by done.
  apply wp_ok in W as (r & s2 & E2 & -> & _ & B2 & _). exists s1, s2. split_and!; [done..|].
  assert (length (line_rows l) = S (length l / cols)) as El.
  { unfold line_rows, full_rows. rewrite length_app, length_fmap, length_seq. cbn [length]. lia. }
  destruct (lookup_lt_is_Some_2 (line_rows l) j) as [r Er]; [lia|]. exists r. split; [done|].
  rewrite Nat2Z.id, Nat.add_1_r in B2.
  change (row_back (holding [] ?h) (S ?i)) with (default blank (h !! i)) in B2.
  rewrite lookup_app_l, rev_alt in B2 by (rewrite length_rev; lia).
  change (rev_append (line_rows l) []) with (reverse (line_rows l)) in B2.
  rewrite reverse_lookup in B2 by lia.
  replace (length (line_rows l) - S (length l / cols - j))%nat with j in B2 by lia.
  by rewrite Er in B2.
Qed.

Lemma klog_puts_line_witness :
  concat (full_rows [111; 107]) ++ rest_row [111; 107] = [111; 107] ∧
  ∃ s1 s2, klog_puts 0x30200 log_vars = Ok (tt, s1) ∧
    is_klog s1 (holding [] (rev (line_rows [111; 107]) ++ [])) ∧
    klog_get_row (Z.of_nat (length [111; 107] / cols - 0 + 1)) 0x30000 s1 = Ok (NO_ERROR, s2) ∧
    ∃ r, line_rows [111; 107] !! 0%nat = Some r ∧ bytes_at (kl_mem s2) 0x30000 r.
Proof.
  apply (klog_puts_line log_vars [] 0x30200 [111; 107] 0x30000 0);
    [apply log_vars_klog|apply log_string|done| |apply log_string|by apply log_buffer|done|].
  - repeat (apply Forall_cons; split; [unfold plain; lia|]). by apply Forall_nil.
  - change (0 ≤ 0 < 127)%nat. lia.
Defined.

(** ** The console *)

(** Changes of the log leave the console what it is. *)
Lemma is_console_log s L L' sc tmp nl l' :
  is_console s L sc tmp nl → is_klog l' L' → logbook l' = logbook (co_log s) →
  keeps_outside (logbook (co_log s)) (kl_mem (co_log s)) (kl_mem l') →
  is_console (Console l' (screenBase s) (screenOffset s) (line s) (klog_ctr s)) L' sc tmp nl.
Proof.
  intros [Hl [Hc ? ? [Hlc ? ? ?]] Hb Ha [Rt Ht] [Rn Hn] H0 Hk A1 A2 A3] Hl' Eb Ho.
  split; cbn [co_log screenBase klog_ctr]; rewrite ?Eb; try done.
  - split; try done. cbn. eapply bytes_at_frame; [|done]. intros a Hr. apply Ho, Ha.
    rewrite flat_len, Hlc in Hr. unfold in_screen. lia.
  - split; [|by rewrite Eb]. eapply room_frame; [|done]. intros a Hr. by apply Ho, Ht.
  - split; [|by rewrite Eb]. eapply room_frame; [|done]. intros a Hr. by apply Ho, Hn.
Qed.

(** A constant string, and the log put after it. *)
Definition string_for (s : klog) (p : Z) (cs : list Z) : Prop :=
  str_at (kl_mem s) p cs ∧ len cs < 2 ^ 32 ∧ ∀ a, p ≤ a ≤ p + len cs → ¬ in_book (logbook s) a.

Lemma string_for_keeps s s' p cs :
  logbook s' = logbook s → keeps_outside (logbook s) (kl_mem s) (kl_mem s') →
  string_for s p cs → string_for s' p cs.
Proof.
  intros Eb Ho (Hs & Hn & Ha). split_and!; [|done|by rewrite Eb].
  eapply str_at_frame; [|done]. intros a Hr. by apply Ho, Ha.
Qed.

Lemma wp_console_puts s L sc tmp nl p cs (Q : unit → console → Prop) :
  is_console s L sc tmp nl → string_for (co_log s) p cs →
  (∀ s', is_console s' (put_string cs L) sc tmp nl → klog_ctr s' = klog_ctr s →
    irqs (kl_cpu (co_log s')) = irqs (kl_cpu (co_log s)) →
    (∀ q ds, string_for (co_log s) q ds → string_for (co_log s') q ds) → Q tt s') →
  wp (on_log (klog_puts p)) s Q.
Proof.
  intros H (Hs & Hn & Ha) HQ. unfold on_log. apply wp_zoom. pose proof H as [Hl _ _ _ _ _ _ _ _ _ _].
  eapply wp_klog_puts; [done..|]. intros l' Hl' (Ec & Eb & Ho). apply HQ; [|done|by cbn; rewrite Ec|].
  - by eapply is_console_log.
  - intros q ds. by apply string_for_keeps.
Qed.

(** C20: a panic, with the log free: the message is in the log after the text that was there,
    and the console shows the rows it had not shown, at most 127 of them, each one once and in
    the order of writing, up to the last complete row of the message; printing ends and stays
    on the screen, the interrupts are off, and the reader is up to date. *)
Theorem panic_report_correct s L sc tmp nl p1 c1 p2 c2 p3 c3 :
  is_console s L sc tmp nl →
  string_for (co_log s) p1 c1 → string_for (co_log s) p2 c2 → string_for (co_log s) p3 c3 →
  let L' := put_string (c1 ++ c2 ++ c3) L in
  let k := rows_ago (u32 (Z.of_nat (length (history L')) - 1)) (klog_ctr s) in
  let sc' := show (rows_text L' (Z.to_nat k)) sc in
  ∃ s', panic_report p1 p2 p3 tmp nl s = Ok (tt, s') ∧ is_console s' L' sc' tmp nl ∧
    0 ≤ offset sc' < 2000 ∧ klog_ctr s' = row_counter (co_log s') ∧ irqs (kl_cpu (co_log s')) = false.
Proof.
  intros H H1 H2 H3 L' k sc'.
  assert (wp (panic_report p1 p2 p3 tmp nl) s (λ r s', r = tt ∧ is_console s' L' sc' tmp nl ∧
    0 ≤ offset sc' < 2000 ∧ klog_ctr s' = row_counter (co_log s') ∧ irqs (kl_cpu (co_log s')) = false)) as W.
  2: { apply wp_ok in W as ([] & s' & E & _ & W). eauto. }
  set (s0 := Console (KLogVars (Cpu (locks (kl_cpu (co_log s))) false) (kl_mem (co_log s)) (logbook (co_log s))
    (row_counter (co_log s)) (top (co_log s)) (bottom (co_log s)) (cursor (co_log s)))
    (screenBase s) (screenOffset s) (line s) (klog_ctr s)).
  assert (is_console s0 L sc tmp nl) as H0.
  { eapply is_console_log; [done| |done|done]. destruct H as [(Hl & [] & Hc) _ _ _ _ _ _ _ _ _ _].
    split_and!; [done|by split|done]. }
  unfold panic_report. wp_step. apply (wp_of_ok _ _ tt s0); [done|]. wp_step.
  eapply (wp_console_puts s0); [done|done|]. intros s1 I1 C1 F1 S1. wp_step.
  eapply wp_console_puts; [done|by apply S1|]. intros s2 I2 C2 F2 S2. wp_step.
  eapply wp_console_puts; [done|by apply S2, S1|]. intros s3 I3 C3 F3 _.
  assert (put_string c3 (put_string c2 (put_string c1 L)) = L') as EL
    by (unfold L', put_string; by rewrite !foldl_app).
  rewrite EL in I3. assert (behind s3 = k) as Ek.
  { unfold behind, k. rewrite C3, C2, C1. f_equal. by destruct I3 as [(_ & [] & _) _ _ _ _ _ _ _ _ _ _]. }
  eapply wp_dump_klog; [done|]. rewrite Ek. fold sc'. intros s4 I4 E4 [En F4].
  split_and!; [done|done|..|done|].
  - apply I4.
  - apply I4.
  - rewrite F4, F3, F2, F1. done.
Qed.

Lemma log_console_string : string_for (co_log log_console) 0x30200 log_text.
Proof. split_and!; [apply log_string|done|apply log_string]. Qed.

(** Three lines go into the log, and the console shows them. *)
Lemma panic_report_correct_witness :
  let L' := put_string (log_text ++ log_text ++ log_text) (all_blank 1) in
  rows_ago (u32 (Z.of_nat (length (history L')) - 1)) (klog_ctr log_console) = 3 ∧
  rows_text L' 3 = log_text ++ log_text ++ log_text ∧
  let sc' := show (rows_text L' (Z.to_nat 3)) (Screen (replicate (Z.to_nat 2000) blank_cell) 0 0) in
  ∃ s', panic_report 0x30200 0x30200 0x30200 0x30000 0x30100 log_console = Ok (tt, s') ∧
    is_console s' L' sc' 0x30000 0x30100 ∧
    0 ≤ offset sc' < 2000 ∧ klog_ctr s' = row_counter (co_log s') ∧ irqs (kl_cpu (co_log s')) = false.
Proof.
  intros L'. split; [vm_compute; reflexivity|]. split; [vm_compute; reflexivity|].
  pose proof (panic_report_correct log_console (all_blank 1) (Screen (replicate (Z.to_nat 2000) blank_cell) 0 0)
    0x30000 0x30100 0x30200 log_text 0x30200 log_text 0x30200 log_text log_is_console
    log_console_string log_console_string log_console_string) as H.
  cbv zeta in H. fold L' in H.
  replace (rows_ago (u32 (Z.of_nat (length (history L')) - 1)) (klog_ctr log_console)) with 3 in H
    by (vm_compute; reflexivity).
  exact H.
Defined.
