(* ===== verification/BootFs.v ===== *)
(** * The boot file system: [lib/phlox/bootfs.c]

    An image in memory of directories and files, in pages. A directory is an array of entries
    of 64 bytes; the first entry of the root directory is the header of the image. Paths are
    strings with slashes. The state is the memory with the image, the paths and the buffers,
    the mounted file systems and the open files by address, and [_cur_fs]. The strings are
    those of lib/string ([USE_STRING]). *)

From S2P Require Import Prelude CType CString.
From stdpp Require Import gmap list.
#[local] Open Scope Z_scope.

(** ** Data *)

Definition BOOTFS_MAGIC : list Z := [98; 116; 102; 115].

Definition BOOTFS_TYPE : Z := 0x00010000.

Definition BOOTFS_NAMELEN : Z := 32.

Definition OBJ_TYPE_DIRECTORY : Z := 1.

Definition SEEK_SET : Z := 0.

Definition SEEK_CUR : Z := 1.

Definition SEEK_END : Z := 2.

(** [sizeof(btfs_dir_entry)], [sizeof(btfs_id)] *)
Definition sizeof_entry : Z := 64.

(** A little-endian [unsigned int]. *)
Definition ld32 (p : Z) : M mem Z :=
  b0 ← ldb p; b1 ← ldb (p + 1); b2 ← ldb (p + 2); b3 ← ldb (p + 3);
  mret (b0 + 256 * (b1 + 256 * (b2 + 256 * b3))).

(** The fields of the header [btfs_id] at [p]. *)
Definition id_type (p : Z) : M mem Z := ld32 (p + 4).
Definition id_psize (p : Z) : M mem Z := ld32 (p + 8).
Definition id_fsize (p : Z) : M mem Z := ld32 (p + 12).
Definition id_rsize (p : Z) : M mem Z := ld32 (p + 16).

(** The fields of the entry [btfs_dir_entry] at [p]; its name is at [p] itself. *)
Definition en_offset (p : Z) : M mem Z := ld32 (p + 32).
Definition en_type (p : Z) : M mem Z := ld32 (p + 36).
Definition en_size (p : Z) : M mem Z := ld32 (p + 40).
Definition en_vsize (p : Z) : M mem Z := ld32 (p + 44).

Record bootfs_t := Bootfs { fs_addr : Z; fs_hdr : Z; fs_cwd : Z; fs_scwd : Z }.

Record bootfs_fh_t := BootfsFh { fh_fs : Z; fh_ent : Z; fh_pos : Z }.

Record bootfs := BootfsState {
  bf_mem : mem; _cur_fs : Z; mounts : gmap Z bootfs_t; handles : gmap Z bootfs_fh_t }.

Definition on_mem {A} (m : M mem A) : M bootfs A :=
  zoom bf_mem (λ m s, BootfsState m (_cur_fs s) (mounts s) (handles s)) m.

Definition set_cur_fs (fs : Z) : M bootfs unit :=
  modify (λ s, BootfsState (bf_mem s) fs (mounts s) (handles s)).

Definition ld_fs (fs : Z) : M bootfs bootfs_t := load (λ s, mounts s !! fs).

Definition st_fs (fs : Z) (v : bootfs_t) : M bootfs unit :=
  ld_fs fs;; modify (λ s, BootfsState (bf_mem s) (_cur_fs s) (<[fs := v]> (mounts s)) (handles s)).

Definition ld_fh (fh : Z) : M bootfs bootfs_fh_t := load (λ s, handles s !! fh).

Definition st_fh (fh : Z) (v : bootfs_fh_t) : M bootfs unit :=
  ld_fh fh;; modify (λ s, BootfsState (bf_mem s) (_cur_fs s) (mounts s) (<[fh := v]> (handles s))).

(** The file system [_cur_fs] points to. *)
Definition cur_fs : M bootfs bootfs_t := p ← gets _cur_fs; ld_fs p.

(** ** Paths *)

(** [path[i]], [i] unsigned: the address wraps. *)
Definition char_at (path i : Z) : M mem Z := ldc (u32 (path + i)).

(** [if(path[0] == '/') path = &path[1];] *)
Definition path_start (path : Z) : M mem Z :=
  c ← char_at path 0; mret (if c =? 47 then path + 1 else path).

(** [n = _str_len(path); if(path[n-1] == '/') n--;] *)
Definition path_length (path : Z) : M mem Z :=
  n ← strlen path;
  c ← char_at path (u32 (n - 1));
  mret (if c =? 47 then u32 (n - 1) else n).

Fixpoint count_loop (fuel : nat) (path n i cnt : Z) : M mem Z :=
  match fuel with
  | O => hang
  | S fuel =>
      if i <? n then
        c ← char_at path i;
        count_loop fuel path n (u32 (i + 1)) (if c =? 47 then u32 (cnt + 1) else cnt)
      else mret cnt
  end.

Definition _path_itms_count (path : Z) : M mem Z :=
  path ← path_start path;
  n ← path_length path;
  with_fuel (λ fuel, count_loop fuel path n 0 1).

(** The inner loop: the characters copied. *)
Fixpoint copy_item (fuel : nat) (path n j out cnt size : Z) : M mem Z :=
  match fuel with
  | O => hang
  | S fuel =>
      if j <? n then
        c ← char_at path j;
        if negb (c =? 47) && (cnt <? size) then
          c ← char_at path j;
          stb (out + cnt) c;;
          copy_item fuel path n (u32 (j + 1)) out (u32 (cnt + 1)) size
        else mret cnt
      else mret cnt
  end.

Fixpoint item_loop (fuel : nat) (path n idx i cnt out size : Z) : M mem Z :=
  match fuel with
  | O => hang
  | S fuel =>
      if i <? n then
        if cnt =? idx then
          cnt ← with_fuel (λ fuel, copy_item fuel path n i out 0 size);
          if cnt =? size then stb out 0;; mret 0
          else stb (out + cnt) 0;; mret cnt
        else
          c ← char_at path i;
          item_loop fuel path n idx (u32 (i + 1)) (if c =? 47 then u32 (cnt + 1) else cnt) out size
      else stb out 0;; mret 0
  end.

Definition _path_get_item (path idx out size : Z) : M mem Z :=
  path ← path_start path;
  n ← path_length path;
  with_fuel (λ fuel, item_loop fuel path n idx 0 0 out size).

Fixpoint ent_loop (fuel : nat) (first count i name : Z) : M mem Z :=
  match fuel with
  | O => hang
  | S fuel =>
      if i <? count then
        r ← strcmp (first + i * sizeof_entry) name;
        if r =? 0 then mret (first + i * sizeof_entry)
        else ent_loop fuel first count (u32 (i + 1)) name
      else mret NULL
  end.

Definition _ent_locate (first count name : Z) : M mem Z :=
  with_fuel (λ fuel, ent_loop fuel first count 0 name).

(** ** Mounting *)

(** The loop over the characters of the magic: whether one differs. *)
Fixpoint magic_differs (p : Z) (magic : list Z) : M mem bool :=
  match magic with
  | [] => mret false
  | c :: magic => d ← ldc p; if negb (d =? c) then mret true else magic_differs (p + 1) magic
  end.

(** [(id->type != BOOTFS_TYPE) || !id->psize || !id->fsize || !id->rsize] *)
Definition bad_header (id : Z) : M mem bool :=
  t ← id_type id;
  if negb (t =? BOOTFS_TYPE) then mret true
  else
    p ← id_psize id;
    if p =? 0 then mret true
    else
      f ← id_fsize id;
      if f =? 0 then mret true
      else r ← id_rsize id; mret (r =? 0).

Definition btfs_mount (addr fsinfo : Z) : M bootfs Z :=
  d ← on_mem (magic_differs addr BOOTFS_MAGIC);
  if (d : bool) then mret 1
  else
    b ← on_mem (bad_header addr);
    if (b : bool) then mret 1
    else
      r ← on_mem (id_rsize addr);
      st_fs fsinfo (Bootfs addr addr 0 r);;
      set_cur_fs fsinfo;;
      mret 0.

Definition btfs_umount (fsinfo : Z) : M bootfs Z :=
  st_fs fsinfo (Bootfs NULL NULL 0 0);;
  set_cur_fs NULL;;
  mret 0.

Definition btfs_set_cur_fs (fs : Z) : M bootfs Z :=
  f ← ld_fs fs;
  if negb (fs_addr f =? NULL) then set_cur_fs fs;; mret 0 else mret 1.

(** ** Directories *)

(** [first] and [entries] of the directory at [page]. *)
Definition dir_range (page npages : Z) : M bootfs (Z * Z) :=
  f ← cur_fs;
  psize ← on_mem (id_psize (fs_hdr f));
  let entries := u32 (npages * psize) / sizeof_entry in
  mret (if page =? 0 then (u32 (fs_addr f + sizeof_entry), u32 (entries - 1))
        else (u32 (fs_addr f + u32 (page * psize)), entries)).

(** [i < npi-1 && en->type != OBJ_TYPE_DIRECTORY] *)
Definition not_dir (i npi en : Z) : M mem bool :=
  if i <? u32 (npi - 1) then t ← en_type en; mret (negb (t =? OBJ_TYPE_DIRECTORY)) else mret false.

(** The loop of [btfs_locate] with [n] items left; [name] is the array on the stack. *)
Fixpoint locate_loop (n : nat) (path npi i page npages en name : Z) : M bootfs Z :=
  match n with
  | O => mret en
  | S n =>
      r ← dir_range page npages;
      l ← on_mem (_path_get_item path i name BOOTFS_NAMELEN);
      if l =? 0 then mret NULL
      else
        en ← on_mem (_ent_locate r.1 r.2 name);
        if en =? NULL then mret NULL
        else
          bad ← on_mem (not_dir i npi en);
          if (bad : bool) then mret NULL
          else
            page ← on_mem (en_offset en);
            npages ← on_mem (en_size en);
            locate_loop n path npi (u32 (i + 1)) page npages en name
  end.

Definition btfs_locate (path name : Z) : M bootfs Z :=
  c ← on_mem (char_at path 0);
  start ← (if c =? 47 then mret (0, 1) else f ← cur_fs; mret (fs_cwd f, fs_scwd f));
  npi ← on_mem (_path_itms_count path);
  locate_loop (Z.to_nat npi) path npi 0 start.1 start.2 NULL name.

Definition btfs_chdir (path name : Z) : M bootfs Z :=
  l ← on_mem (strlen path);
  root ← (if l =? 1 then c ← on_mem (char_at path 0); mret (c =? 47) else mret false);
  p ← gets _cur_fs;
  if (root : bool) then
    f ← ld_fs p; st_fs p (Bootfs (fs_addr f) (fs_hdr f) 0 1);; mret 0
  else
    en ← btfs_locate path name;
    if en =? NULL then mret 1
    else
      t ← on_mem (en_type en);
      if negb (t =? OBJ_TYPE_DIRECTORY) then mret 1
      else
        o ← on_mem (en_offset en);
        n ← on_mem (en_size en);
        f ← ld_fs p; st_fs p (Bootfs (fs_addr f) (fs_hdr f) o n);; mret 0.

(** ** Files *)

Definition btfs_open_e (fh e : Z) : M bootfs Z :=
  p ← gets _cur_fs; st_fh fh (BootfsFh p e 0);; mret 0.

Definition btfs_open_p (fh path name : Z) : M bootfs Z :=
  e ← btfs_locate path name;
  if e =? NULL then mret 1
  else p ← gets _cur_fs; st_fh fh (BootfsFh p e 0);; mret 0.

Definition btfs_close (fh : Z) : M bootfs Z := st_fh fh (BootfsFh NULL NULL (-1));; mret 0.

(** [pos] and [offs] are signed, [whence] is not. *)
Definition btfs_seek (fh offs whence : Z) : M bootfs Z :=
  f ← ld_fh fh;
  base ← (if whence =? SEEK_END then v ← on_mem (en_vsize (fh_ent f)); mret (s32 v)
          else if whence =? SEEK_CUR then mret (fh_pos f)
          else mret 0);
  let base := s32 (base + offs) in
  base ← (if base <? 0 then mret 0
          else v ← on_mem (en_vsize (fh_ent f)); mret (if v <? u32 base then s32 v else base));
  st_fh fh (BootfsFh (fh_fs f) (fh_ent f) base);;
  mret base.

(** The address of the byte [pos] of the object of an entry, in the current file system. *)
Definition btfs_objaddr (en : Z) : M bootfs Z :=
  f ← cur_fs;
  o ← on_mem (en_offset en);
  psize ← on_mem (id_psize (fs_hdr f));
  mret (u32 (fs_addr f + u32 (o * psize))).

(** Where a transfer of [rsize * cnt] bytes takes place, and how many of them there are. *)
Definition transfer (fh rsize cnt : Z) : M bootfs (Z * Z) :=
  f ← ld_fh fh;
  let n := u32 (rsize * cnt) in
  let pos := u32 (fh_pos f) in
  fsize ← on_mem (en_vsize (fh_ent f));
  a ← btfs_objaddr (fh_ent f);
  mret (u32 (a + pos), if u32 (fsize - pos) <? n then u32 (fsize - pos) else n).

Definition btfs_read (buf rsize cnt fh : Z) : M bootfs Z :=
  r ← transfer fh rsize cnt; on_mem (memcpy buf r.1 r.2);; mret r.2.

Definition btfs_write (buf rsize cnt fh : Z) : M bootfs Z :=
  r ← transfer fh rsize cnt; on_mem (memcpy r.1 buf r.2);; mret r.2.

Definition btfs_posaddr (fh pos : Z) : M bootfs Z :=
  f ← ld_fh fh;
  v ← on_mem (en_vsize (fh_ent f));
  if u32 (v - 1) <? pos then mret NULL
  else a ← btfs_objaddr (fh_ent f); mret (u32 (a + pos)).
