(* ===== verification/BootFsSpec.v ===== *)
(** * Paths and directories of the boot file system

    What a path means, a list of names, and how the routines take it apart; directories as
    lists of entries, and the search in them. *)

From S2P Require Import Prelude CType CString CStringSpec BootFs.
From stdpp Require Import gmap list.
#[local] Open Scope Z_scope.

(** ** Paths *)

Definition slash : Z := 47.

(** The characters of a name. *)
Definition name_char (c : Z) : Prop := 0 < c < 256 ∧ c ≠ slash.

Definition name_ok (c : list Z) : Prop := c ≠ [] ∧ len c < BOOTFS_NAMELEN ∧ Forall name_char c.

Fixpoint path_join (names : list (list Z)) : list Z :=
  match names with
  | [] => []
  | [c] => c
  | c :: names => c ++ slash :: path_join names
  end.

(** A slash at the end. *)
Definition trail (t : bool) : list Z := if t then [slash] else [].

(** A path: the names with slashes between them, perhaps one before and one after. *)
Definition path_text (absolute trailing : bool) (names : list (list Z)) : list Z :=
  (if absolute then [slash] else []) ++ path_join names ++ trail trailing.

Lemma join_cons c names : names ≠ [] → path_join (c :: names) = c ++ slash :: path_join names.
Proof. by destruct names. Qed.

Lemma name_chars c : Forall name_char c → chars c.
Proof. intros H. eapply Forall_impl; [done|]. by intros x [? _]. Qed.

Lemma join_chars names : Forall name_ok names → chars (path_join names).
Proof.
  induction 1 as [|c names (Hn & Hl & Hc) H IH]; [by apply Forall_nil|].
  apply name_chars in Hc. destruct names as [|d names]; [done|].
  rewrite join_cons by done. apply Forall_app. split; [done|]. apply Forall_cons. split; [unfold slash; lia|done].
Qed.

Lemma join_some names : names ≠ [] → Forall name_ok names → ∃ c cs, path_join names = c :: cs ∧ name_char c.
Proof.
  intros Hn H. destruct names as [|d names]; [done|]. apply Forall_cons in H as [(Hd & _ & Hc) _].
  destruct d as [|x d]; [done|]. apply Forall_cons in Hc as [Hx _].
  destruct names; [by exists x, d|]. rewrite join_cons by done. by eexists _, _.
Qed.

(** A joined path does not end in a slash. *)
Lemma join_last names : names ≠ [] → Forall name_ok names → ∃ cs c, path_join names = cs ++ [c] ∧ name_char c.
Proof.
  intros Hn H. induction H as [|d names Hd H IH]; [done|].
  destruct names as [|e names].
  - destruct Hd as (Hd & _ & Hc). destruct (exists_last Hd) as (cs & c & E). subst d.
    apply Forall_app in Hc as [_ Hc]. apply Forall_cons in Hc as [Hc _]. by exists cs, c.
  - destruct IH as (cs & c & E & Hc); [done|]. rewrite join_cons, E by done.
    exists (d ++ slash :: cs), c. by rewrite <- app_assoc.
Qed.

(** ** Characters by address *)

Lemma wp_char_at m path i b (Q : Z → mem → Prop) :
  0 ≤ path + i < 2 ^ 32 → m !! (path + i) = Some b → Q (s8 b) m → wp (char_at path i) m Q.
Proof. intros Hr Hb HQ. unfold char_at. rewrite uwrap_small by done. by eapply wp_ldc. Qed.

Lemma s8_slash b : is_byte b → (s8 b =? 47) = (b =? slash).
Proof. intros Hb. change 47 with (s8 slash). apply s8_eqb; [done|]. unfold is_byte, slash. lia. Qed.

(** A path in memory: its text, without wrapping around. *)
Definition path_at (m : mem) (path : Z) (cs : list Z) : Prop :=
  str_at m path cs ∧ 0 < path ∧ path + len cs < 2 ^ 32.

Lemma path_at_body m path cs1 cs2 :
  path_at m path (cs1 ++ cs2) → bytes_at m path cs1 ∧ chars cs1.
Proof. intros (H & _). apply str_at_app in H. tauto. Qed.

(** What [path_start] and [path_length] leave of a path: its joined names. *)
Lemma wp_path_start m path a t names (Q : Z → mem → Prop) :
  names ≠ [] → Forall name_ok names → path_at m path (path_text a t names) →
  (∀ p, path_at m p (path_join names ++ trail t) → p = path + (if a then 1 else 0) → Q p m) →
  wp (path_start path) m Q.
Proof.
  intros Hn Hok (Hs & H0 & H1) HQ. unfold path_start. wp_step. unfold path_text in *.
  destruct a; cbn [app] in *.
  - destruct Hs as (Hc & _ & Hs). rewrite len_cons in H1.
    pose proof (len_nonneg (path_join names ++ trail t)).
    eapply wp_char_at; [lia|by rewrite Z.add_0_r|]. rewrite s8_slash by (unfold is_byte, slash; lia).
    rewrite Z.eqb_refl. wp_step. apply HQ; [split_and!; [done|lia|lia]|done].
  - destruct (join_some names Hn Hok) as (c & cs & E & Hc & Hsl). rewrite E in *. cbn [app] in *.
    pose proof Hs as (Hm & Hr & _). pose proof (len_nonneg (cs ++ trail t)). rewrite len_cons in H1.
    eapply wp_char_at; [lia|by rewrite Z.add_0_r|]. rewrite s8_slash by (unfold is_byte; lia).
    rewrite (proj2 (Z.eqb_neq c slash)) by done. wp_step.
    apply HQ; [split_and!; [done|lia|rewrite len_cons; lia]|lia].
Qed.

Lemma wp_path_length m path t names (Q : Z → mem → Prop) :
  names ≠ [] → Forall name_ok names → path_at m path (path_join names ++ trail t) →
  Q (len (path_join names)) m → wp (path_length path) m Q.
Proof.
  intros Hn Hok (Hs & H0 & H1) HQ. unfold path_length. wp_step.
  pose proof (len_nonneg (path_join names)) as Hj. rewrite len_app in H1.
  pose proof (len_nonneg (trail t)).
  eapply wp_strlen; [done|rewrite len_app; lia|]. wp_step.
  destruct (join_last names Hn Hok) as (cs & c & E & Hc & Hsl).
  apply str_at_bytes in Hs as [Hs _]. destruct t; cbn [trail] in *.
  - change (len [slash]) with 1 in H1.
    rewrite len_app. change (len [slash]) with 1.
    rewrite (uwrap_small 32 (len (path_join names) + 1 - 1)) by lia.
    rewrite <- !app_assoc in Hs. apply bytes_at_app in Hs as [_ [Hs _]].
    eapply wp_char_at; [lia|by replace (path + _) with (path + len (path_join names)) by lia|].
    rewrite s8_slash by (unfold is_byte, slash; lia). rewrite Z.eqb_refl. wp_step.
    by replace (len (path_join names) + 1 - 1) with (len (path_join names)) by lia.
  - rewrite app_nil_r in *. rewrite E in Hs |- *. rewrite E, len_app in Hj, H1, HQ.
    change (len [c]) with 1 in *. pose proof (len_nonneg cs).
    rewrite len_app. change (len [c]) with 1. rewrite uwrap_small by lia.
    rewrite <- app_assoc in Hs. apply bytes_at_app in Hs as [_ [Hs _]].
    eapply wp_char_at; [lia|by replace (path + _) with (path + len cs) by lia|].
    rewrite s8_slash by (unfold is_byte; lia). rewrite (proj2 (Z.eqb_neq c slash)) by done. by wp_step.
Qed.

(** ** Counting the names *)

Definition slashes (cs : list Z) : Z := len (filter (λ c, c = slash) cs).

Lemma slashes_cons c cs : slashes (c :: cs) = (if c =? slash then 1 else 0) + slashes cs.
Proof.
  unfold slashes. rewrite filter_cons. destruct (Z.eqb_spec c slash) as [->|].
  - rewrite decide_True by done. rewrite len_cons. lia.
  - by rewrite decide_False.
Qed.

Lemma slashes_app cs ds : slashes (cs ++ ds) = slashes cs + slashes ds.
Proof. unfold slashes. by rewrite filter_app, len_app. Qed.

Lemma slashes_name c : Forall name_char c → slashes c = 0.
Proof.
  induction 1 as [|x c [_ Hx] H IH]; [done|]. rewrite slashes_cons, (proj2 (Z.eqb_neq x slash)), IH by done. done.
Qed.

Lemma slashes_join names : names ≠ [] → Forall name_ok names → 1 + slashes (path_join names) = Z.of_nat (length names).
Proof.
  intros Hn H. induction H as [|c names (_ & _ & Hc) H IH]; [done|]. apply slashes_name in Hc.
  destruct names as [|d names]; [cbn [path_join length]; lia|].
  rewrite join_cons, slashes_app, slashes_cons, Z.eqb_refl by done. cbn [length] in *. specialize (IH ltac:(done)). lia.
Qed.

Lemma slashes_len cs : slashes cs ≤ len cs.
Proof. induction cs as [|c cs IH]; [done|]. rewrite slashes_cons, len_cons. destruct (c =? slash); lia. Qed.

Lemma wp_count_loop fuel : ∀ cs m path n i cnt (Q : Z → mem → Prop),
  (length cs < fuel)%nat → bytes_at m (path + i) cs → chars cs → 0 < path → path + n < 2 ^ 32 →
  0 ≤ i → n = i + len cs → 0 ≤ cnt → cnt + len cs < 2 ^ 32 →
  Q (cnt + slashes cs) m → wp (count_loop fuel path n i cnt) m Q.
Proof.
  induction fuel as [|fuel IH]; intros cs m path n i cnt Q Hf Hb Hc H0 H1 Hi En Hcnt Hlim HQ; [lia|].
  cbn [count_loop]. destruct cs as [|c cs].
  - rewrite (proj2 (Z.ltb_ge i n)) by (subst n; unfold len; cbn; lia). wp_step. by rewrite Z.add_0_r in HQ.
  - rewrite len_cons in *. pose proof (len_nonneg cs). destruct Hb as [Hm Hb]. apply Forall_cons in Hc as [Hc Hcs].
    rewrite slashes_cons in HQ. rewrite (proj2 (Z.ltb_lt i n)) by lia. wp_step.
    eapply wp_char_at; [lia|done|]. rewrite s8_slash by (unfold is_byte; lia).
    rewrite uwrap_small by lia. cbn [length] in Hf.
    apply (IH cs); [lia|by rewrite Z.add_assoc|done|done|done|lia|lia|..].
    + destruct (c =? slash); [rewrite uwrap_small by lia|]; lia.
    + destruct (c =? slash); [rewrite uwrap_small by lia|]; lia.
    + destruct (c =? slash); [rewrite uwrap_small by lia|].
      * by rewrite Z.add_assoc in HQ.
      * done.
Qed.

Lemma wp_path_itms_count m path a t names (Q : Z → mem → Prop) :
  names ≠ [] → Forall name_ok names → path_at m path (path_text a t names) →
  Q (Z.of_nat (length names)) m → wp (_path_itms_count path) m Q.
Proof.
  intros Hn Hok Hp HQ. unfold _path_itms_count. wp_step. eapply wp_path_start; [done..|].
  intros p Hs _. wp_step. eapply wp_path_length; [done..|]. apply wp_with_fuel.
  pose proof Hs as (Hstr & H0 & H1). rewrite len_app in H1.
  pose proof (len_nonneg (trail t)). pose proof (len_nonneg (path_join names)).
  destruct (path_at_body _ _ _ _ Hs) as [Hb Hc].
  apply (wp_count_loop _ (path_join names)); try done; [|by rewrite Z.add_0_r|lia|lia|].
  - apply str_at_fuel in Hstr. rewrite length_app in Hstr. lia.
  - by rewrite slashes_join.
Qed.

(** ** Taking a name out *)

(** The copy ends at the end of the path or at a slash. *)
Definition ends_at (m : mem) (a : Z) (j n : Z) : Prop := j = n ∨ (j < n ∧ m !! a = Some slash).

Lemma wp_copy_item fuel : ∀ c m path n j out cnt size (Q : Z → mem → Prop),
  (length c < fuel)%nat → bytes_at m (path + j) c → Forall name_char c → 0 < path → path + n < 2 ^ 32 →
  0 ≤ j → j + len c ≤ n → ends_at m (path + j + len c) (j + len c) n →
  0 ≤ cnt → cnt + len c < size → size < 2 ^ 32 → room m (out + cnt) (length c) →
  (∀ a, path + j ≤ a < path + n → ¬ (out ≤ a < out + size)) →
  Q (cnt + len c) (bytes_put (out + cnt) c m) → wp (copy_item fuel path n j out cnt size) m Q.
Proof.
  induction fuel as [|fuel IH]; intros c m path n j out cnt size Q Hf Hb Hc H0 H1 Hj Hn He Hcnt Hsz Hs Hr Hap HQ;
    [lia|]. cbn [copy_item]. destruct c as [|x c].
  - change (len []) with 0 in *. rewrite !Z.add_0_r in *. cbn [bytes_put] in HQ.
    destruct He as [->|[Hlt Hm]]; [rewrite Z.ltb_irrefl; by wp_step|].
    rewrite (proj2 (Z.ltb_lt j n)) by done. wp_step. eapply wp_char_at; [lia|done|].
    rewrite s8_slash by (unfold is_byte, slash; lia). rewrite Z.eqb_refl. cbn [negb andb]. by wp_step.
  - rewrite len_cons in *. pose proof (len_nonneg c). destruct Hb as [Hm Hb].
    apply Forall_cons in Hc as [[Hx Hsl] Hc]. cbn [length] in Hf, Hr. apply room_S in Hr as [Hr0 Hr].
    assert (is_byte x) as Hbx by (unfold is_byte; lia).
    rewrite (proj2 (Z.ltb_lt j n)) by lia. wp_step. eapply wp_char_at; [lia|done|].
    rewrite s8_slash, (proj2 (Z.eqb_neq x slash)), (proj2 (Z.ltb_lt cnt size)) by (done || lia).
    cbn [negb andb]. wp_step. eapply wp_char_at; [lia|done|]. wp_step.
    apply wp_stb; [done|]. rewrite u8_s8, !uwrap_small by (done || lia).
    assert (∀ a, path + j ≤ a < path + n → <[out + cnt:=x]> m !! a = m !! a) as Hfr.
    { intros a Ha. apply lookup_insert_ne. intros E. apply (Hap a Ha). lia. }
    apply (IH c); try done; try lia.
    + rewrite Z.add_assoc. eapply bytes_at_frame; [|exact Hb]. intros a Ha. apply Hfr. lia.
    + replace (path + (j + 1) + len c) with (path + j + (len c + 1)) by lia.
      replace (j + 1 + len c) with (j + (len c + 1)) by lia.
      destruct He as [He|[Hlt He]]; [by left|right]. split; [done|]. rewrite Hfr; [done|lia].
    + rewrite Z.add_assoc. by apply room_insert.
    + intros a Ha. apply Hap. lia.
    + replace (cnt + 1 + len c) with (cnt + (len c + 1)) by lia. rewrite (Z.add_assoc out).
      cbn [bytes_put] in HQ. exact HQ.
Qed.

(** Over the characters of a name that is not the one asked for. *)
Lemma wp_item_skip c : ∀ fuel m path n idx i cnt out size (Q : Z → mem → Prop),
  bytes_at m (path + i) c → Forall name_char c → 0 < path → path + n < 2 ^ 32 → 0 ≤ i → i + len c ≤ n → cnt ≠ idx →
  wp (item_loop fuel path n idx (i + len c) cnt out size) m Q →
  wp (item_loop (length c + fuel) path n idx i cnt out size) m Q.
Proof.
  induction c as [|x c IH]; intros fuel m path n idx i cnt out size Q Hb Hc H0 H1 Hi Hn Hne HQ.
  - change (len []) with 0 in HQ. by rewrite Z.add_0_r in HQ.
  - rewrite len_cons in *. pose proof (len_nonneg c). destruct Hb as [Hm Hb].
    apply Forall_cons in Hc as [[Hx Hsl] Hc]. cbn [length Nat.add item_loop].
    rewrite (proj2 (Z.ltb_lt i n)), (proj2 (Z.eqb_neq cnt idx)) by (done || lia). wp_step.
    eapply wp_char_at; [lia|done|].
    rewrite s8_slash, (proj2 (Z.eqb_neq x slash)), uwrap_small by (done || (unfold is_byte; lia)).
    apply IH; try done; try lia; [by rewrite Z.add_assoc|].
    by replace (i + 1 + len c) with (i + (len c + 1)) by lia.
Qed.

Lemma wp_item_loop names : ∀ fuel k m path n i cnt out size c (Q : Z → mem → Prop),
  names !! k = Some c → Forall name_ok names → (length (path_join names) < fuel)%nat →
  bytes_at m (path + i) (path_join names) → 0 < path → path + n < 2 ^ 32 → 0 ≤ i → n = i + len (path_join names) →
  0 ≤ cnt → cnt + Z.of_nat k < 2 ^ 32 → size = BOOTFS_NAMELEN → room m out (Z.to_nat size) →
  (∀ a, path ≤ a < path + n → ¬ (out ≤ a < out + size)) →
  Q (len c) (bytes_put out (c ++ [0]) m) → wp (item_loop fuel path n (cnt + Z.of_nat k) i cnt out size) m Q.
Proof.
  induction names as [|d names IH];
    intros fuel k m path n i cnt out size c Q Hk Hok Hf Hb H0 H1 Hi En Hcnt Hlim Es Hr Hap HQ; [done|].
  assert (BOOTFS_NAMELEN = 32) as E32 by done.
  apply Forall_cons in Hok as [(Hd & Hdl & Hdc) Hok]. pose proof (len_nonneg d) as Hd0.
  assert (Hjoin : path_join (d :: names) = d ++ match names with [] => [] | _ => slash :: path_join names end)
    by (destruct names; [by rewrite app_nil_r|done]).
  rewrite Hjoin in *. apply bytes_at_app in Hb as [Hb Hb2]. rewrite len_app in En. rewrite length_app in Hf.
  set (rest := match names with [] => [] | _ => slash :: path_join names end) in *.
  pose proof (len_nonneg rest). destruct k as [|k].
  - injection Hk as ->. rewrite Z.add_0_r in *. destruct fuel as [|fuel]; [lia|]. cbn [item_loop].
    assert (0 < len c) by (destruct c; [done|rewrite len_cons; pose proof (len_nonneg c); lia]).
    rewrite (proj2 (Z.ltb_lt i n)), Z.eqb_refl by lia. wp_step. apply wp_with_fuel.
    assert (is_Some (m !! (out + len c))) as Hlast by (apply Hr; lia).
    apply (wp_copy_item _ c); try done; try lia.
    + apply bytes_at_size in Hb. unfold mfuel. lia.
    + unfold ends_at. destruct names as [|e names]; [left|right]; subst rest.
      * unfold len in En at 2. cbn in En. lia.
      * rewrite len_cons in En. split; [pose proof (len_nonneg (path_join (e :: names))); lia|]. apply Hb2.
    + rewrite Z.add_0_r. intros a Ha. apply Hr. unfold len in *. lia.
    + intros a Ha. apply Hap. lia.
    + rewrite Z.add_0_l, Z.add_0_r, (proj2 (Z.eqb_neq (len c) size)) by lia. wp_step.
      apply wp_stb.
      * rewrite bytes_put_out by lia. done.
      * wp_step. rewrite bytes_put_app in HQ. exact HQ.
  - destruct names as [|e names]; [done|]. subst rest. cbn [length] in Hf. rewrite len_cons in En.
    pose proof (len_nonneg (path_join (e :: names))) as Hjn. destruct Hb2 as [Hsl Hb2].
    replace fuel with (length d + (fuel - length d))%nat by lia.
    apply wp_item_skip; try done; try lia.
    destruct (fuel - length d)%nat as [|f'] eqn:Ef; [lia|]. cbn [item_loop].
    rewrite (proj2 (Z.ltb_lt (i + len d) n)), (proj2 (Z.eqb_neq cnt (cnt + Z.of_nat (S k)))) by lia.
    wp_step. eapply wp_char_at; [lia|by rewrite Z.add_assoc|].
    rewrite s8_slash, Z.eqb_refl, !uwrap_small by (unfold is_byte, slash; lia).
    replace (cnt + Z.of_nat (S k)) with (cnt + 1 + Z.of_nat k) by lia.
    eapply (IH _ k); try done; try lia.
    replace (path + (i + len d + 1)) with (path + i + len d + 1) by lia. done.
Qed.

Lemma wp_path_get_item m path a t names k c out (Q : Z → mem → Prop) :
  names !! k = Some c → Forall name_ok names → path_at m path (path_text a t names) →
  room m out 32 → (∀ x, path ≤ x ≤ path + len (path_text a t names) → ¬ (out ≤ x < out + 32)) →
  Q (len c) (bytes_put out (c ++ [0]) m) →
  wp (_path_get_item path (Z.of_nat k) out BOOTFS_NAMELEN) m Q.
Proof.
  intros Hk Hok Hp Hr Hap HQ. assert (names ≠ []) as Hn by (by destruct names).
  unfold _path_get_item. wp_step. eapply wp_path_start; [done..|].
  intros p Hs Hpp. wp_step. eapply wp_path_length; [done..|]. apply wp_with_fuel.
  pose proof Hs as (Hstr & H0 & H1). rewrite len_app in H1.
  pose proof (len_nonneg (trail t)). pose proof (len_nonneg (path_join names)) as Hj.
  destruct (path_at_body _ _ _ _ Hs) as [Hb Hc].
  assert (len (path_join names) + (p - path) ≤ len (path_text a t names)) as Hlen.
  { unfold path_text. rewrite !len_app. destruct a; change (len [slash]) with 1; change (len []) with 0; lia. }
  assert (Z.of_nat (length names) ≤ 2 ^ 32) as Hnames.
  { rewrite <- (slashes_join names) by done. pose proof (slashes_len (path_join names)). lia. }
  assert (k < length names)%nat as Hkl by (by eapply lookup_lt_Some).
  apply (wp_item_loop names _ k _ _ _ _ 0 _ _ c); try done; try lia.
  - apply str_at_fuel in Hstr. rewrite length_app in Hstr. lia.
  - by rewrite Z.add_0_r.
  - change BOOTFS_NAMELEN with 32. intros x Hx. apply Hap. destruct a; lia.
Qed.

(** ** Directories *)

(** The word at [p] is [v]. *)
Definition has32 (m : mem) (p v : Z) : Prop := ld32 p m = Ok (v, m).

Lemma wp_has32 m p v (Q : Z → mem → Prop) : has32 m p v → Q v m → wp (ld32 p) m Q.
Proof. apply wp_of_ok. Qed.

Lemma has32_frame m m' p v : (∀ a, p ≤ a < p + 4 → m' !! a = m !! a) → has32 m p v → has32 m' p v.
Proof.
  unfold has32, ld32, ldb, load, mbind, M_bind, mret, M_ret. intros Hf H.
  do 4 (rewrite Hf by lia; destruct (m !! _); [|done]; cbv beta iota in H |- * ).
  injection H as E. by rewrite E.
Qed.

Lemma has32_bytes m p b0 b1 b2 b3 :
  bytes_at m p [b0; b1; b2; b3] → has32 m p (b0 + 256 * (b1 + 256 * (b2 + 256 * b3))).
Proof.
  intros (H0 & H1 & H2 & H3 & _). unfold has32, ld32, ldb, load, mbind, M_bind, mret, M_ret.
  replace (p + 1 + 1) with (p + 2) in * by lia. replace (p + 2 + 1) with (p + 3) in H3 by lia.
  by rewrite H0, H1, H2, H3.
Qed.

Record dirent := Dirent { d_name : list Z; d_offset : Z; d_type : Z; d_size : Z }.

Record ent_at (m : mem) (p : Z) (e : dirent) : Prop := EntAt {
  ea_name : str_at m p (d_name e);
  ea_len : len (d_name e) < BOOTFS_NAMELEN;
  ea_offset : has32 m (p + 32) (d_offset e);
  ea_type : has32 m (p + 36) (d_type e);
  ea_size : has32 m (p + 40) (d_size e) }.

Definition entry_addr (first : Z) (k : nat) : Z := first + Z.of_nat k * sizeof_entry.

Definition ents_at (m : mem) (first : Z) (ents : list dirent) : Prop :=
  ∀ k e, ents !! k = Some e → ent_at m (entry_addr first k) e.

Lemma ent_at_frame m m' p e : (∀ a, p ≤ a < p + 64 → m' !! a = m !! a) → ent_at m p e → ent_at m' p e.
Proof.
  intros Hf [Hn Hl Ho Ht Hs]. unfold BOOTFS_NAMELEN in Hl.
  split; [eapply str_at_frame; [|done]|done|eapply has32_frame; [|done]..]; intros a Ha; apply Hf; lia.
Qed.

Lemma ents_at_frame m m' first ents :
  (∀ a, first ≤ a < first + Z.of_nat (length ents) * 64 → m' !! a = m !! a) →
  ents_at m first ents → ents_at m' first ents.
Proof.
  intros Hf H k e Hk. eapply ent_at_frame; [|by apply H]. intros a Ha. apply Hf.
  apply lookup_lt_Some in Hk. unfold entry_addr, sizeof_entry in Ha. lia.
Qed.

(** Distinct addresses that are mapped are at most as many as the memory has. *)
Lemma mapped_size (m : mem) (f : nat → Z) n :
  (∀ i, (i < n)%nat → is_Some (m !! f i)) → (∀ i j, (i < n)%nat → (j < n)%nat → f i = f j → i = j) →
  (n ≤ size m)%nat.
Proof.
  intros Hm Hinj. pose (s := list_to_set (f <$> seq 0 n) : gset Z).
  assert (size s = n) as Es.
  { unfold s. rewrite size_list_to_set; [by rewrite length_fmap, length_seq|].
    apply NoDup_fmap_2_strong; [|apply NoDup_seq]. intros i j Hi Hj.
    apply elem_of_seq in Hi, Hj. apply Hinj; lia. }
  rewrite <- Es, <- size_dom. apply subseteq_size. intros a Ha. unfold s in Ha.
  apply elem_of_list_to_set, list_elem_of_fmap in Ha as (i & -> & Hi). apply elem_of_seq in Hi.
  apply elem_of_dom, Hm. lia.
Qed.

Lemma ents_fuel m first ents : ents_at m first ents → (length ents ≤ size m)%nat.
Proof.
  intros H. apply (mapped_size m (entry_addr first)).
  - intros i Hi. destruct (lookup_lt_is_Some_2 ents i Hi) as [e He]. apply H in He as [Hn _ _ _ _].
    apply str_at_len in Hn as (b & -> & _). done.
  - unfold entry_addr, sizeof_entry. lia.
Qed.

(** The place of the first entry with a name. *)
Fixpoint find_ent (name : list Z) (ents : list dirent) : option nat :=
  match ents with
  | [] => None
  | e :: ents => if decide (d_name e = name) then Some 0%nat else S <$> find_ent name ents
  end.

Lemma find_ent_lookup name ents k : find_ent name ents = Some k → ∃ e, ents !! k = Some e ∧ d_name e = name.
Proof.
  revert k. induction ents as [|e ents IH]; intros k; cbn [find_ent]; [done|].
  case_decide; [intros [= <-]; by exists e|]. intros (j & Hj & ->)%fmap_Some. by apply IH.
Qed.

Definition ent_ptr (first : Z) (o : option nat) : Z :=
  match o with Some k => entry_addr first k | None => NULL end.

Lemma wp_ent_loop fuel : ∀ k m first count ents name cs (Q : Z → mem → Prop),
  (length ents - k < fuel)%nat → (k ≤ length ents)%nat → ents_at m first ents → str_at m name cs →
  count = Z.of_nat (length ents) → count < 2 ^ 32 →
  Q (ent_ptr (first + Z.of_nat k * sizeof_entry) (find_ent cs (drop k ents))) m →
  wp (ent_loop fuel first count (Z.of_nat k) name) m Q.
Proof.
  induction fuel as [|fuel IH]; intros k m first count ents name cs Q Hf Hk H Hs Ec Hc HQ; [lia|].
  cbn [ent_loop]. destruct (decide (k = length ents)) as [->|Hne].
  - rewrite (proj2 (Z.ltb_ge _ _)) by lia. rewrite drop_all in HQ. by wp_step.
  - destruct (lookup_lt_is_Some_2 ents k) as [e He]; [lia|]. pose proof (H k e He) as [Hn Hl _ _ _].
    rewrite (drop_S _ _ _ He) in HQ. cbn [find_ent] in HQ.
    rewrite (proj2 (Z.ltb_lt _ _)) by lia. wp_step. eapply wp_strcmp; [exact Hn|done|].
    assert (chars (d_name e) ∧ chars cs) as [Hc1 Hc2].
    { split; by eapply str_at_bytes. }
    pose proof (first_diff_str _ _ Hc1 Hc2) as Hiff. case_decide as Hd.
    + rewrite (proj2 Hiff Hd). cbn [ent_ptr] in HQ. change (0 =? 0) with true. cbv iota. wp_step.
      unfold entry_addr in HQ. change (Z.of_nat 0) with 0 in HQ. by rewrite Z.mul_0_l, Z.add_0_r in HQ.
    + rewrite (proj2 (Z.eqb_neq _ 0)) by (intros E; by apply Hd, Hiff).
      rewrite uwrap_small by lia. replace (Z.of_nat k + 1) with (Z.of_nat (S k)) by lia.
      apply (IH _ _ _ _ ents _ cs); try done; try lia.
      destruct (find_ent cs (drop (S k) ents)) as [j|]; [|done].
      change (S <$> Some j) with (Some (S j)) in HQ. cbn [ent_ptr] in *. unfold entry_addr, sizeof_entry in *.
      replace (first + Z.of_nat (S k) * 64 + Z.of_nat j * 64)
        with (first + Z.of_nat k * 64 + Z.of_nat (S j) * 64) by lia. exact HQ.
Qed.

Lemma wp_ent_locate m first ents name cs (Q : Z → mem → Prop) :
  ents_at m first ents → str_at m name cs → Z.of_nat (length ents) < 2 ^ 32 →
  Q (ent_ptr first (find_ent cs ents)) m → wp (_ent_locate first (Z.of_nat (length ents)) name) m Q.
Proof.
  intros H Hs Hn HQ. apply wp_with_fuel. change 0 with (Z.of_nat 0) at 1.
  apply (wp_ent_loop _ 0 _ _ _ ents _ cs); try done.
  - apply ents_fuel in H. unfold mfuel. lia.
  - lia.
  - change (Z.of_nat 0) with 0. rewrite Z.mul_0_l, Z.add_0_r, drop_0. exact HQ.
Qed.
