(* ===== verification/BootFsProps.v ===== *)
(** * What the boot file system does

    A path is resolved name by name through the directories of the image; the path of the
    root itself is not. Files are read and written at the position of their handle, within
    their size. *)

From S2P Require Import Prelude CType CString CStringSpec BootFs BootFsSpec.
From stdpp Require Import gmap list.
#[local] Open Scope Z_scope.

(** The state with another memory. *)
Definition bfs_mem (m : mem) (s : bootfs) : bootfs := BootfsState m (_cur_fs s) (mounts s) (handles s).

Lemma wp_bfs_mem {A} (m : M mem A) s (Q : A → bootfs → Prop) :
  wp m (bf_mem s) (λ a m', Q a (bfs_mem m' s)) → wp (on_mem m) s Q.
Proof. apply wp_zoom. Qed.

Lemma bfs_mem_id s : bfs_mem (bf_mem s) s = s.
Proof. by destruct s. Qed.

(** A part of the routine that only reads. *)
Lemma wp_bfs_read {A} (p : M mem A) s (Q : A → bootfs → Prop) :
  (∀ Q', (∀ a, Q a s → Q' a (bf_mem s)) → wp p (bf_mem s) Q') → wp (on_mem p) s Q.
Proof. intros H. apply wp_bfs_mem, H. intros a Ha. by rewrite bfs_mem_id. Qed.

(** ** Directories of an image *)

Section image.
(** The image is in [lo .. hi - 1]; its header has the given address and page size. *)
Context (lo hi : Z) (f : bootfs_t) (psize : Z).

Definition dir_first (page : Z) : Z :=
  if page =? 0 then u32 (fs_addr f + sizeof_entry) else u32 (fs_addr f + u32 (page * psize)).

Definition dir_count (page npages : Z) : Z :=
  let entries := u32 (npages * psize) / sizeof_entry in
  if page =? 0 then u32 (entries - 1) else entries.

(** The directory of [npages] pages at [page] has the entries [ents]. *)
Definition is_dir (m : mem) (page npages : Z) (ents : list dirent) : Prop :=
  ents_at m (dir_first page) ents ∧ Z.of_nat (length ents) = dir_count page npages ∧
  lo ≤ dir_first page ∧ dir_first page + Z.of_nat (length ents) * sizeof_entry ≤ hi.

Definition has_header (m : mem) : Prop := has32 m (fs_hdr f + 8) psize ∧ lo ≤ fs_hdr f ∧ fs_hdr f + 12 ≤ hi.

(** What a path means from a directory on: the entry, or [NULL]. *)
Inductive resolves (m : mem) : Z → Z → list (list Z) → Z → Prop :=
  | res_missing page npages ents c cs :
      is_dir m page npages ents → find_ent c ents = None → resolves m page npages (c :: cs) NULL
  | res_last page npages ents c k :
      is_dir m page npages ents → find_ent c ents = Some k →
      resolves m page npages [c] (entry_addr (dir_first page) k)
  | res_not_dir page npages ents c cs k e :
      is_dir m page npages ents → find_ent c ents = Some k → ents !! k = Some e →
      d_type e ≠ OBJ_TYPE_DIRECTORY → cs ≠ [] → resolves m page npages (c :: cs) NULL
  | res_down page npages ents c cs k e r :
      is_dir m page npages ents → find_ent c ents = Some k → ents !! k = Some e →
      d_type e = OBJ_TYPE_DIRECTORY → cs ≠ [] → resolves m (d_offset e) (d_size e) cs r →
      resolves m page npages (c :: cs) r.

Lemma is_dir_frame m m' page npages ents :
  (∀ a, lo ≤ a < hi → m' !! a = m !! a) → is_dir m page npages ents → is_dir m' page npages ents.
Proof.
  intros Hf (He & Hn & Hl & Hh). split_and!; [|done..]. eapply ents_at_frame; [|done].
  intros a Ha. apply Hf. unfold sizeof_entry in Hh. lia.
Qed.

Lemma resolves_frame m m' page npages cs r :
  (∀ a, lo ≤ a < hi → m' !! a = m !! a) → resolves m page npages cs r → resolves m' page npages cs r.
Proof.
  intros Hf. induction 1.
  - eapply res_missing; [by eapply is_dir_frame|done].
  - eapply res_last; [by eapply is_dir_frame|done].
  - eapply res_not_dir; [by eapply is_dir_frame|done..].
  - eapply res_down; [by eapply is_dir_frame|done..].
Qed.

Lemma resolves_nonempty m page npages cs r : resolves m page npages cs r → cs ≠ [].
Proof. by destruct 1. Qed.

(** The buffer [name] for a name, apart from the image. *)
Definition name_buffer (m : mem) (name : Z) : Prop := room m name 32 ∧ (name + 32 ≤ lo ∨ hi ≤ name).

(** Only the buffer has changed. *)
Definition but_name (name : Z) (s s' : bootfs) : Prop :=
  ∃ m', s' = bfs_mem m' s ∧ ∀ a, ¬ (name ≤ a < name + 32) → m' !! a = bf_mem s !! a.

Lemma but_name_refl name s : but_name name s s.
Proof. exists (bf_mem s). by rewrite bfs_mem_id. Qed.

Lemma but_name_trans name s1 s2 s3 : but_name name s1 s2 → but_name name s2 s3 → but_name name s1 s3.
Proof.
  intros (m1 & -> & F1) (m2 & -> & F2). exists m2. split; [done|]. intros a Ha. rewrite F2 by done. by apply F1.
Qed.

(** A file system that is mounted, and what the call is given. *)
Record path_env (s : bootfs) (path name : Z) (a t : bool) (names : list (list Z)) : Prop := PathEnv {
  pe_fs : mounts s !! _cur_fs s = Some f;
  pe_header : has_header (bf_mem s);
  pe_names : Forall name_ok names;
  pe_path : path_at (bf_mem s) path (path_text a t names);
  pe_name : name_buffer (bf_mem s) name;
  pe_apart : ∀ x, path ≤ x ≤ path + len (path_text a t names) → ¬ (name ≤ x < name + 32) }.

Lemma path_env_put s path name a t names bs :
  path_env s path name a t names → len bs ≤ 32 →
  path_env (bfs_mem (bytes_put name bs (bf_mem s)) s) path name a t names ∧
  but_name name s (bfs_mem (bytes_put name bs (bf_mem s)) s) ∧
  ∀ x, lo ≤ x < hi → bytes_put name bs (bf_mem s) !! x = bf_mem s !! x.
Proof.
  intros [Hfs [Hh [Hlo Hhi]] Hok [Hp Hp'] [Hr Hn] Hap] Hl. pose proof (len_nonneg bs).
  assert (∀ x, ¬ (name ≤ x < name + 32) → bytes_put name bs (bf_mem s) !! x = bf_mem s !! x) as Ho
    by (intros x Hx; apply bytes_put_out; lia).
  split_and!.
  - split; try done.
    + split; [|done]. eapply has32_frame; [|done]. intros x Hx. apply Ho. lia.
    + split; [|done]. eapply str_at_frame; [|done]. intros x Hx. by apply Ho, Hap.
    + split; [by apply room_put|done].
  - by exists (bytes_put name bs (bf_mem s)).
  - intros x Hx. apply Ho. lia.
Qed.

Lemma wp_cur_fs s (Q : bootfs_t → bootfs → Prop) : mounts s !! _cur_fs s = Some f → Q f s → wp cur_fs s Q.
Proof. intros Hf HQ. unfold cur_fs, ld_fs. wp_go. by eapply wp_load. Qed.

Lemma wp_dir_range s page npages (Q : Z * Z → bootfs → Prop) :
  mounts s !! _cur_fs s = Some f → has_header (bf_mem s) →
  Q (dir_first page, dir_count page npages) s → wp (dir_range page npages) s Q.
Proof.
  intros Hf [Hh _] HQ. unfold dir_range. wp_step. apply wp_cur_fs; [done|]. wp_step.
  apply wp_bfs_read. intros Q' HQ'. unfold id_psize. eapply wp_has32; [done|]. apply HQ'. wp_step.
  unfold dir_first, dir_count in HQ. by destruct (page =? 0).
Qed.

(** Reading the fields of an entry. *)
Lemma wp_field (ld : M mem Z) s v (Q : Z → bootfs → Prop) :
  ld (bf_mem s) = Ok (v, bf_mem s) → Q v s → wp (on_mem ld) s Q.
Proof.
  intros H HQ. apply wp_bfs_read. intros Q' HQ'. eapply wp_of_ok; [done|]. by apply HQ'.
Qed.

Lemma wp_not_dir s i n k e p (Q : bool → bootfs → Prop) :
  ent_at (bf_mem s) p e → (k < n)%nat → i = Z.of_nat k → Z.of_nat n < 2 ^ 32 →
  Q (if decide (S k = n) then false else negb (d_type e =? OBJ_TYPE_DIRECTORY)) s →
  wp (on_mem (not_dir i (Z.of_nat n) p)) s Q.
Proof.
  intros H Hk -> Hn HQ. apply wp_bfs_read. intros Q' HQ'. unfold not_dir.
  rewrite uwrap_small by lia. case_decide as E.
  - rewrite (proj2 (Z.ltb_ge _ _)) by lia. wp_step. by apply HQ'.
  - rewrite (proj2 (Z.ltb_lt _ _)) by lia. wp_step. eapply wp_of_ok; [by apply H|]. wp_step. by apply HQ'.
Qed.

(** One round: the directory is searched for the name [c]. *)
Lemma wp_locate_step page npages ents c cs s path name a t names don en (Q : Z → bootfs → Prop) :
  is_dir (bf_mem s) page npages ents → names = don ++ c :: cs → path_env s path name a t names →
  Z.of_nat (length names) < 2 ^ 32 → 0 < lo →
  (∀ s', but_name name s s' → (∀ x, lo ≤ x < hi → bf_mem s' !! x = bf_mem s !! x) →
    path_env s' path name a t names →
    match find_ent c ents with
    | None => Q NULL s'
    | Some k => ∀ e, ents !! k = Some e →
        if decide (cs = []) then Q (entry_addr (dir_first page) k) s'
        else if decide (d_type e = OBJ_TYPE_DIRECTORY) then
          wp (locate_loop (length cs) path (Z.of_nat (length names)) (Z.of_nat (length (don ++ [c])))
                (d_offset e) (d_size e) (entry_addr (dir_first page) k) name) s' Q
        else Q NULL s'
    end) →
  wp (locate_loop (S (length cs)) path (Z.of_nat (length names)) (Z.of_nat (length don)) page npages en name) s Q.
Proof.
  intros Hd En He Hn Hlo HQ.
  pose proof He as [Hfs Hh Hok Hp [Hr Hnm] Hap]. cbn [locate_loop]. wp_step. apply wp_dir_range; [done..|].
  wp_step. apply wp_bfs_mem. cbn [fst snd].
  assert (names !! length don = Some c) as Hc by (subst names; by apply list_lookup_middle).
  assert (name_ok c) as (Hc0 & Hcl & Hcc) by (rewrite Forall_lookup in Hok; by eapply Hok).
  assert (BOOTFS_NAMELEN = 32) as E32 by done.
  eapply wp_path_get_item; [done..|].
  destruct (path_env_put s path name a t names (c ++ [0]) He) as (He1 & Hb1 & Hf1).
  { rewrite len_app. change (len [0]) with 1. lia. }
  set (s1 := bfs_mem _ s) in *. cbv beta.
  assert (0 < len c) as Hlc by (destruct c; [done|rewrite len_cons; pose proof (len_nonneg c); lia]).
  rewrite (proj2 (Z.eqb_neq (len c) 0)) by lia. cbv iota.
  pose proof (is_dir_frame _ (bf_mem s1) _ _ _ Hf1 Hd) as (Hents & Hcnt & Hdl & Hdh). rewrite <- Hcnt.
  wp_step. apply wp_bfs_read. intros Q' HQ'.
  eapply wp_ent_locate; [done| | |apply HQ'].
  { apply str_at_bytes. split; [apply bytes_at_put|by apply name_chars]. }
  { rewrite Hcnt. unfold dir_count. pose proof (uwrap_range 32 (npages * psize) ltac:(lia)).
    destruct (page =? 0); [apply uwrap_range; lia|]. unfold sizeof_entry.
    pose proof (Z.div_le_upper_bound (u32 (npages * psize)) 64 (u32 (npages * psize)) ltac:(lia) ltac:(lia)). lia. }
  specialize (HQ s1 Hb1 Hf1 He1). destruct (find_ent c ents) as [k|] eqn:Hfind; cbn [ent_ptr]; cbv beta;
    [|change (NULL =? NULL) with true; cbv iota; by wp_step].
  destruct (find_ent_lookup _ _ _ Hfind) as (e & Hke & _). specialize (HQ e Hke).
  assert (0 < entry_addr (dir_first page) k) as Hpos by (unfold entry_addr, sizeof_entry; lia).
  rewrite (proj2 (Z.eqb_neq _ NULL)) by (unfold NULL; lia). cbv iota. pose proof (Hents k e Hke) as Hent.
  assert (length names = length don + S (length cs))%nat as Hlen by (subst names; by rewrite length_app).
  wp_step. eapply (wp_not_dir _ _ (length names) (length don) e); [done|lia|done|done|].
  destruct (decide (cs = [])) as [->|Hcs].
  - rewrite decide_True by (cbn in Hlen; lia). cbv iota. wp_step. eapply wp_field; [apply Hent|].
    wp_step. eapply wp_field; [apply Hent|]. cbn [length locate_loop]. by wp_step.
  - assert (length cs ≠ 0%nat) as Hcl0 by (by destruct cs).
    rewrite decide_False by lia. case_decide as Ht.
    + rewrite Ht, Z.eqb_refl. cbn [negb]. cbv iota. wp_step. eapply wp_field; [apply Hent|].
      wp_step. eapply wp_field; [apply Hent|]. rewrite uwrap_small by lia.
      replace (Z.of_nat (length don) + 1) with (Z.of_nat (length (don ++ [c]))) by (rewrite length_app; cbn; lia).
      exact HQ.
    + rewrite (proj2 (Z.eqb_neq _ _)) by done. cbn [negb]. by wp_step.
Qed.

Lemma wp_locate_loop m0 page npages rest r :
  resolves m0 page npages rest r → ∀ s path name a t names don en (Q : Z → bootfs → Prop),
  (∀ x, lo ≤ x < hi → bf_mem s !! x = m0 !! x) → names = don ++ rest → path_env s path name a t names →
  Z.of_nat (length names) < 2 ^ 32 → 0 < lo → (∀ s', but_name name s s' → Q r s') →
  wp (locate_loop (length rest) path (Z.of_nat (length names)) (Z.of_nat (length don)) page npages en name) s Q.
Proof.
  induction 1 as [page npages ents c cs Hd Hf|page npages ents c k Hd Hf|page npages ents c cs k e Hd Hf Hk Ht Hcs
                 |page npages ents c cs k e r Hd Hf Hk Ht Hcs Hr IH];
    intros s path name a t names don en Q Hm En He Hn Hlo HQ;
    (eapply wp_locate_step; [eapply is_dir_frame; [exact Hm|exact Hd]|done..|]);
    intros s1 B1 F1 E1; rewrite Hf.
  - by apply HQ.
  - intros e _. rewrite decide_True by done. by apply HQ.
  - intros e' Hk'. assert (e' = e) as -> by congruence. rewrite !decide_False by done. by apply HQ.
  - intros e' Hk'. assert (e' = e) as -> by congruence. rewrite decide_False, decide_True by done.
    eapply (IH s1); try done.
    + intros x Hx. by rewrite F1, Hm.
    + subst names. by rewrite <- app_assoc.
    + intros s2 B2. apply HQ. by eapply but_name_trans.
Qed.

Lemma wp_btfs_locate s path name a t names r (Q : Z → bootfs → Prop) :
  path_env s path name a t names → 0 < lo →
  resolves (bf_mem s) (if a : bool then 0 else fs_cwd f) (if a : bool then 1 else fs_scwd f) names r →
  (∀ s', but_name name s s' → Q r s') →
  wp (btfs_locate path name) s Q.
Proof.
  intros He Hlo H HQ. pose proof (resolves_nonempty _ _ _ _ _ H) as Hne.
  pose proof He as [Hfs Hh Hok Hp [Hr Hnm] Hap]. pose proof Hp as (Hs & H0 & H1).
  assert (Z.of_nat (length names) < 2 ^ 32) as Hn.
  { rewrite <- (slashes_join names) by done. pose proof (slashes_len (path_join names)).
    unfold path_text in H1. rewrite !len_app in H1. pose proof (len_nonneg (if a then [slash] else [])).
    pose proof (len_nonneg (trail t)). lia. }
  unfold btfs_locate. wp_step. apply wp_bfs_read. intros Q' HQ'.
  assert (∃ b, bf_mem s !! path = Some b ∧ is_byte b ∧ (b =? slash) = a) as (b & Hb & Hbb & Hba).
  { unfold path_text in Hs. destruct a; cbn [app] in Hs.
    - destruct Hs as (Hb & Hb2 & _). exists slash. split_and!; [done|unfold is_byte; lia|done].
    - destruct (join_some names Hne Hok) as (c & cs & E & Hc & Hsl). rewrite E in Hs. destruct Hs as (Hb & Hb2 & _).
      exists c. split_and!; [done|unfold is_byte; lia|by apply Z.eqb_neq]. }
  pose proof (len_nonneg (path_text a t names)).
  eapply wp_char_at; [lia|by rewrite Z.add_0_r|]. apply HQ'. rewrite s8_slash, Hba by done. wp_step.
  apply (wp_mono _ _ (λ v s', s' = s ∧ v = (if a then 0 else fs_cwd f, if a then 1 else fs_scwd f))).
  { destruct a; [by wp_step|]. wp_step. apply wp_cur_fs; [done|]. by wp_step. }
  intros v s' [-> ->]. wp_step. apply wp_bfs_read. intros Q'' HQ''.
  eapply wp_path_itms_count; [done..|]. apply HQ''. cbn [fst snd]. rewrite Nat2Z.id.
  change 0 with (Z.of_nat (length (A := list Z) [])) at 1.
  by eapply (wp_locate_loop _ _ _ names r H s path name a t names []).
Qed.


End image.

(** ** The path of the root *)

(** Counting the slashes of a path that is said to be longer than the memory. *)
Lemma count_loop_faults m path n fuel : ∀ i cnt,
  (∃ j, i ≤ j < i + Z.of_nat fuel ∧ j < n ∧ m !! u32 (path + j) = None) → 0 ≤ i → n < 2 ^ 32 →
  count_loop fuel path n i cnt m = Fault.
Proof.
  induction fuel as [|fuel IH]; intros i cnt (j & Hj & Hjn & Hm) Hi Hn; [lia|]. cbn [count_loop].
  rewrite (proj2 (Z.ltb_lt i n)) by lia. unfold char_at, ldc, ldb, load, mbind, M_bind.
  destruct (m !! u32 (path + i)) as [b|] eqn:Eb; [|done].
  assert (i ≠ j) as Hne by congruence. rewrite uwrap_small by lia. apply IH; [exists j|lia|done].
  split_and!; [lia|lia|done|done].
Qed.

(** There is an address that is not mapped among enough of them. *)
Lemma unmapped_near (m : mem) path : Z.of_nat (size m) < 2 ^ 32 - 1 →
  ∃ j, 0 ≤ j < Z.of_nat (S (size m)) ∧ j < 2 ^ 32 - 1 ∧ m !! u32 (path + j) = None.
Proof.
  intros Hs. destruct (decide (Exists (λ j, m !! u32 (path + Z.of_nat j) = None) (seq 0 (S (size m))))) as [E|E].
  - apply Exists_exists in E as (j & Hj%elem_of_seq & Hm). exists (Z.of_nat j). split_and!; [lia|lia|lia|done].
  - exfalso. assert (S (size m) ≤ size m)%nat; [|lia].
    apply (mapped_size m (λ j, u32 (path + Z.of_nat j))).
    + intros i Hi. destruct (m !! _) eqn:Em; [done|]. destruct E. apply Exists_exists. exists i.
      split; [apply elem_of_seq; lia|done].
    + intros i j Hi Hj Eij. unfold uwrap in Eij.
      assert ((Z.of_nat i - Z.of_nat j) mod 2 ^ 32 = 0) as Ed.
      { replace (Z.of_nat i - Z.of_nat j) with ((path + Z.of_nat i) - (path + Z.of_nat j)) by lia.
        by rewrite Zminus_mod, Eij, Z.sub_diag. }
      clear - Hi Hj Hs Ed. Z.to_euclidean_division_equations. lia.
Qed.

Lemma bind_fault {S A B} (m : M S A) (k : A → M S B) (s : S) (Q : A → Prop) :
  wp m s (λ a s', Q a ∧ s' = s) → (∀ a, Q a → k a s = Fault) → (m ≫= k) s = Fault.
Proof. unfold wp, mbind, M_bind. destruct (m s) as [[a s']| | |]; try done. intros [Hq ->] H. by apply H. Qed.

Lemma count_root_faults m path :
  str_at m path [slash] → 0 < path → path + 1 < 2 ^ 32 → Z.of_nat (size m) < 2 ^ 32 - 1 →
  _path_itms_count path m = Fault.
Proof.
  intros Hs H0 H1 Hsz. destruct Hs as (Hc & _ & Hz). unfold _path_itms_count, path_start.
  apply (bind_fault _ _ _ (λ p, p = path + 1)).
  { wp_step. eapply wp_char_at; [lia|by rewrite Z.add_0_r|].
    change (s8 slash =? 47) with true. by wp_step. }
  intros p ->. apply (bind_fault _ _ _ (λ n, n = 2 ^ 32 - 1)).
  { unfold path_length. wp_step. eapply (wp_strlen _ _ []); [done|done|]. wp_step.
    unfold char_at. change (u32 (len [] - 1)) with (2 ^ 32 - 1).
    replace (u32 (path + 1 + (2 ^ 32 - 1))) with path.
    2: { unfold uwrap. replace (path + 1 + (2 ^ 32 - 1)) with (path + 1 * 2 ^ 32) by lia.
         rewrite Z.mod_add, Z.mod_small by lia. done. }
    eapply wp_ldc; [done|]. change (s8 slash =? 47) with true. by wp_step. }
  intros n ->. unfold with_fuel. apply (bind_fault _ _ _ (λ fuel, fuel = mfuel m)); [by wp_go|].
  intros fuel ->. apply count_loop_faults; [|lia|lia].
  destruct (unmapped_near m (path + 1) Hsz) as (j & Hj & Hj2 & Hm). exists j. unfold mfuel. split_and!; [lia|lia|done|done].
Qed.

(** ** Files *)

Lemma wp_transfer s fh g f rsize cnt vsize off psize (Q : Z * Z → bootfs → Prop) :
  handles s !! fh = Some g → mounts s !! _cur_fs s = Some f →
  has32 (bf_mem s) (fh_ent g + 44) vsize → has32 (bf_mem s) (fh_ent g + 32) off →
  has32 (bf_mem s) (fs_hdr f + 8) psize → 0 ≤ fh_pos g ≤ vsize → vsize < 2 ^ 32 →
  Q (u32 (u32 (fs_addr f + u32 (off * psize)) + fh_pos g), Z.min (u32 (rsize * cnt)) (vsize - fh_pos g)) s →
  wp (transfer fh rsize cnt) s Q.
Proof.
  intros Hg Hf Hv Ho Hp Hpos Hvs HQ. unfold transfer, ld_fh. wp_step. eapply wp_load; [done|]. wp_step.
  eapply wp_field; [exact Hv|]. wp_step. unfold btfs_objaddr. wp_step. eapply wp_cur_fs; [done|].
  wp_step. eapply wp_field; [exact Ho|]. wp_step. eapply wp_field; [exact Hp|]. wp_go.
  rewrite (uwrap_small 32 (fh_pos g)), (uwrap_small 32 (vsize - fh_pos g)) by lia.
  replace (if vsize - fh_pos g <? u32 (rsize * cnt) then _ else _)
    with (Z.min (u32 (rsize * cnt)) (vsize - fh_pos g)); [done|].
  destruct (Z.ltb_spec (vsize - fh_pos g) (u32 (rsize * cnt))); lia.
Qed.

(** ** An image at work *)

Definition le32 (v : Z) : list Z := [u8 v; u8 (Z.shiftr v 8); u8 (Z.shiftr v 16); u8 (Z.shiftr v 24)].

Definition entry_bytes (name : list Z) (offset type size vsize : Z) : list Z :=
  name ++ replicate (32 - length name) 0 ++ le32 offset ++ le32 type ++ le32 size ++ le32 vsize ++
  replicate 16 0.

(** Pages of 128 bytes: the header and the directory [d]; in [d] a file [f] of ten bytes and
    an empty entry; the file. *)
Definition image : list Z :=
  BOOTFS_MAGIC ++ le32 BOOTFS_TYPE ++ le32 128 ++ le32 3 ++ le32 1 ++ replicate 44 0 ++
  entry_bytes [100] 1 OBJ_TYPE_DIRECTORY 1 128 ++
  entry_bytes [102] 2 4 1 10 ++ entry_bytes [] 0 0 0 0 ++ replicate 128 0.

(** The path [/d/f], the path [/], and buffers. *)
Definition image_mem : mem :=
  bytes_put 0x1000 image (bytes_put 0x3000 ([47; 100; 47; 102] ++ [0]) (bytes_put 0x3100 [47; 0]
    (bytes_put 0x4000 (replicate 32 0) (bytes_put 0x5000 [1; 2; 3; 4; 5; 6; 7] (bytes_put 0x5100 (replicate 16 0) ∅))))).

Definition image_fs : bootfs_t := Bootfs 0x1000 0x1000 0 1.

(** The file system is mounted at 10; the handle at 20 is at the third byte of the file. *)
Definition image_state : bootfs :=
  BootfsState image_mem 10 {[10 := image_fs]} {[20 := BootfsFh 10 0x1080 3]}.

Definition image_root : list dirent := [Dirent [100] 1 OBJ_TYPE_DIRECTORY 1].

Definition image_d : list dirent := [Dirent [102] 2 4 1; Dirent [] 0 0 0].

(** The word at an address of this image, by its bytes. *)
Ltac word_here :=
  lazymatch goal with
  | |- has32 ?m ?p ?v =>
      let bs := eval vm_compute in (le32 v) in
      lazymatch bs with
      | [?b0; ?b1; ?b2; ?b3] => refine (has32_bytes m p b0 b1 b2 b3 _); by_decide
      end
  end.

Ltac entry_here := split; [by_decide|vm_compute; reflexivity|word_here..].

Lemma image_header : has32 image_mem (0x1000 + 8) 128.
Proof. word_here. Qed.

Lemma image_root_at : ents_at image_mem 0x1040 image_root.
Proof. intros [|k] e Hk; [|done]. injection Hk as <-. entry_here. Qed.

Lemma image_d_at : ents_at image_mem 0x1080 image_d.
Proof. intros [|[|k]] e Hk; [| |done]; injection Hk as <-; entry_here. Qed.

Lemma image_resolves :
  resolves 0x1000 0x1180 image_fs 128 image_mem 0 1 [[100]; [102]] 0x1080.
Proof.
  apply (res_down _ _ _ _ _ 0 1 image_root [100] [[102]] 0 (Dirent [100] 1 OBJ_TYPE_DIRECTORY 1)); try done.
  { split_and!; [exact image_root_at|done|done|done]. }
  change 0x1080 with (entry_addr (dir_first image_fs 128 1) 0).
  apply (res_last _ _ _ _ _ 1 1 image_d); [|done].
  split_and!; [exact image_d_at|done|done|done].
Qed.

(** ** The properties *)



(** C39: the path of the root directory, a single slash, is not resolved: the loop over its
    names runs through the memory from its end and beyond, until it reads where there is
    none. *)
Theorem btfs_locate_root_faults s path name :
  str_at (bf_mem s) path [slash] → 0 < path → path + 1 < 2 ^ 32 →
  Z.of_nat (size (bf_mem s)) < 2 ^ 32 - 1 →
  btfs_locate path name s = Fault.
Proof.
  intros Hs H0 H1 Hsz. unfold btfs_locate. pose proof Hs as (Hc & _ & _).
  apply (bind_fault _ _ _ (λ c, c = 47)).
  { apply wp_bfs_read. intros Q' HQ'. eapply wp_char_at; [lia|by rewrite Z.add_0_r|]. by apply HQ'. }
  intros c ->. apply (bind_fault _ _ _ (λ _, True)); [done|]. intros start _.
  unfold mbind, M_bind, on_mem, zoom. by rewrite count_root_faults.
Qed.

Lemma btfs_locate_root_faults_witness : btfs_locate 0x3100 0x4000 image_state = Fault.
Proof. apply btfs_locate_root_faults; [by_decide|lia|lia|by vm_compute]. Defined.



(** [btfs_seek] moves the position of a handle by [offs] from the start, the position or
    the end of the file, and keeps it within the file, for files of less than 2 GB and moves
    that do not leave the range of a signed integer. *)
Theorem btfs_seek_clamps s fh g vsize offs whence :
  let base := if whence =? SEEK_END then vsize else if whence =? SEEK_CUR then fh_pos g else 0 in
  handles s !! fh = Some g → has32 (bf_mem s) (fh_ent g + 44) vsize → 0 ≤ vsize < 2 ^ 31 →
  - 2 ^ 31 ≤ base + offs < 2 ^ 31 →
  let pos := Z.max 0 (Z.min (base + offs) vsize) in
  btfs_seek fh offs whence s =
    Ok (pos, BootfsState (bf_mem s) (_cur_fs s) (mounts s) (<[fh := BootfsFh (fh_fs g) (fh_ent g) pos]> (handles s))).
Proof.
  intros base Hg Hv Hvs Hr pos. set (s' := BootfsState _ _ _ _).
  destruct (wp_run (btfs_seek fh offs whence) s pos (λ t, t = s')) as (t & -> & ->); [|done].
  unfold btfs_seek, ld_fh, st_fh. wp_step. eapply wp_load; [done|]. wp_step.
  apply (wp_mono _ _ (λ b t, b = base ∧ t = s)).
  { unfold base. destruct (whence =? SEEK_END).
    - wp_step. eapply wp_field; [exact Hv|]. wp_step. by rewrite swrap_small by (cbn; lia).
    - destruct (whence =? SEEK_CUR); by wp_step. }
  intros b t [-> ->]. rewrite swrap_small by (cbn; lia). wp_step.
  apply (wp_mono _ _ (λ b t, b = pos ∧ t = s)).
  { unfold pos. destruct (Z.ltb_spec (base + offs) 0); [wp_step; split; [lia|done]|].
    wp_step. eapply wp_field; [exact Hv|]. wp_step. rewrite (uwrap_small 32 (base + offs)), (swrap_small 32 vsize) by (cbn; lia).
    split; [|done]. destruct (Z.ltb_spec vsize (base + offs)); lia. }
  intros b t [-> ->]. wp_step. wp_step. unfold ld_fh. eapply wp_load; [done|]. by wp_go.
Qed.

Lemma btfs_seek_clamps_witness :
  btfs_seek 20 100 SEEK_CUR image_state =
    Ok (10, BootfsState image_mem 10 {[10 := image_fs]} (<[20 := BootfsFh 10 0x1080 10]> {[20 := BootfsFh 10 0x1080 3]})).
Proof.
  apply (btfs_seek_clamps image_state 20 (BootfsFh 10 0x1080 3) 10 100 SEEK_CUR);
    [done|word_here|lia|cbn; lia].
Defined.
